(* ===== verification/_CoqProject ===== *)
-Q . S2P
Prelude.v
Bdecode.v
BdecodeSyntax.v
BdecodeSpec.v
BdecodeCorrect.v
BdecodeNode.v
BdecodeNodeSpec.v
Entry.v
EntrySpec.v
BdecodeTheorems.v
Bitfield.v
BitfieldSpec.v
BitfieldRefine.v
BitfieldTheorems.v
PickerState.v
PickerList.v
PickerOps.v
PickerPick.v
PickerQuery.v
PickerListSpec.v
PickerMoveSpec.v
PickerUpdateSpec.v
PickerDownloadsSpec.v
PickerInvariant.v
PickerRebuildSpec.v
PickerFrame.v
PickerStateSpec.v
PickerBlockSpec.v
PickerHaveSpec.v
PickerWriteSpec.v
PickerFinishSpec.v
PickerRefcountSpec.v
PickerPieceSpec.v
PickerCheckSpec.v
PickerMachine.v
PickerReach.v
PickerQuerySpec.v
PickerPickSpec.v
PickerPickRun.v
PickerTheorems.v
Bandwidth.v
BandwidthSpec.v
BandwidthRound.v
BandwidthRun.v
BandwidthRate.v
BandwidthTheorems.v
PacketBuffer.v
PacketBufferSpec.v
PacketBufferRefine.v
PacketBufferTheorems.v
FileStorage.v
FileOptimize.v
FileStorageSpec.v
FileOptimizeSpec.v
FileStorageTheorems.v
PartFile.v
PartFileSpec.v
PartFileOps.v
PartFileTheorems.v
IpFilter.v
IpFilterSpec.v
IpFilterRule.v
IpFilterTheorems.v
NodeId.v
RoutingTable.v
RoutingTableSpec.v
RoutingTableInsert.v
RoutingTableRun.v
RoutingTableFind.v
RoutingTableTheorems.v
PeerState.v
PeerList.v
PeerListSpec.v
PeerListErase.v
PeerListOps.v
PeerListAdd.v
PeerListConn.v
PeerListFind.v
PeerListRun.v
PeerListTheorems.v
