(* ===== verification/Prelude.v ===== *)
(** * Verification of the libtorrent core of TTTTTTorrent

    TTTTTTorrent is a BitTorrent client around a copy of libtorrent 1.1
    (src/TestBB/LibTorrent/torrent, headers in
    src/TestBB/TestBB/include/libtorrent).  This library models the parts of
    libtorrent that carry its own logic, and proves what they promise.

    ** The parts and how they meet

    A torrent arrives as a bencoded buffer.  [bdecode] (bdecode.cpp) turns the
    buffer into a vector of tokens, [bdecode_node] navigates the tokens, an
    [entry] (entry.cpp) is the tree that the program builds, copies from nodes
    and writes with [bencode] (bencode.hpp).  The files the torrent names go
    into a [file_storage] (file_storage.cpp), which says which bytes of which
    files a piece has; pieces of files that are not wanted are kept in a
    [part_file] (part_file.cpp).  A [bitfield] says which pieces a peer has; the
    [piece_picker] (piece_picker.cpp) counts the peers of each piece, keeps the
    pieces ordered by priority, tracks every block that is requested, written
    and finished, and picks the blocks to request next.  The peers a torrent
    has heard of are in its [peer_list] (peer_list.cpp), which says whom to
    connect to, meets the connections that come in, forgets peers when it is
    full and tells the picker which ones are gone.  Peers are admitted by
    an [ip_filter] (ip_filter.hpp), which the list applies, wait for bandwidth in a [bandwidth_manager]
    (bandwidth_manager.cpp), and reorder the packets of uTP in a
    [packet_buffer] (packet_buffer.cpp).  Other peers are found through the DHT,
    whose nodes are kept in a [routing_table] (kademlia/routing_table.cpp).

    ** Files

    - Prelude: machine words, lists indexed by [Z], sums, tactics.
    - Bdecode, BdecodeNode, Entry: the parser as a machine of one step per
      iteration of its loop, the queries of a node with their mutable cache,
      entries and [bencode].  BdecodeSyntax has the abstract syntax and the
      tokens it denotes, BdecodeSpec and BdecodeCorrect the simulation,
      BdecodeNodeSpec and EntrySpec the queries and the encoder against the
      syntax; the properties are in BdecodeTheorems.
    - Bitfield: the class on 32-bit words in network order, over memory that
      holds anything; BitfieldSpec and BitfieldRefine relate it to a list of
      booleans; properties in BitfieldTheorems.
    - PickerState, PickerList, PickerOps, PickerPick, PickerQuery: the whole
      class [piece_picker] in a state monad, in which [None] is undefined
      behaviour.  PickerListSpec (with the rules of runs), PickerMoveSpec, PickerUpdateSpec and
      PickerRebuildSpec are about the pick list, PickerDownloadsSpec and
      PickerStateSpec about the lists of pieces being downloaded,
      PickerInvariant and PickerFrame have the invariant, PickerBlockSpec to
      PickerCheckSpec one operation each, PickerMachine and PickerReach the
      abstract machine and the runs, PickerQuerySpec, PickerPickSpec and
      PickerPickRun what is picked.
      Properties in PickerTheorems, with the picker the witnesses use and two
      runs the source does not handle.
    - Bandwidth: [bandwidth_channel], [bw_request] and [bandwidth_manager];
      BandwidthSpec and BandwidthRound are one round in equations, BandwidthRun
      and BandwidthRate are runs; BandwidthTheorems.
    - PacketBuffer: the circular buffer, PacketBufferSpec and
      PacketBufferRefine relate it to a map; PacketBufferTheorems.
    - FileStorage and FileOptimize: [file_storage] with the paths of file.cpp,
      and [optimize]; FileStorageSpec places the bytes, FileOptimizeSpec
      has the moves and the loop; the runs and the properties are in
      FileStorageTheorems.
    - PartFile: [part_file] over a map from paths to contents, with the header
      it writes and parses; PartFileSpec has the bytes of files and headers,
      the invariant and the map of bytes it is compared to, PartFileOps the
      operations; PartFileTheorems.
    - IpFilter: [filter_impl] against the class [Address], with the instances
      for IPv4, IPv6 and ports; IpFilterSpec has the laws of the class and the
      ranges, IpFilterRule the rules; IpFilterTheorems.
    - NodeId and RoutingTable: ids, node entries and the metric, and the
      buckets of the [routing_table]; RoutingTableSpec the invariant
      and the edits of a bucket, with RoutingTableInsert the branches of
      [add_node_impl], RoutingTableRun the loop of [add_node] and the other
      operations, RoutingTableFind [find_node];
      RoutingTableTheorems.
    - PeerState and PeerList: [torrent_peer] objects on a heap, the
      connections that point to them, and every operation of [peer_list] with
      what runs around it in torrent.cpp and peer_connection.cpp
      ([remove_peer], [attach_peer], [connect_to_peer], [disconnect], which
      calls back into the list).  PeerListSpec has the invariant, PeerListErase
      the searches and what is freed, PeerListOps the operations on one peer
      and what closing a connection does, PeerListAdd [add_peer], PeerListConn
      connections and ports, PeerListFind the choice of a candidate, PeerListRun
      the filters, the whole of [attach_peer], the operations as a type and when
      each may be called; PeerListTheorems.

    Definitions have the names of the source; a definition of another name
    stands for a loop or a branch of the function its comment names.

    ** What the theorems show

    - Bencoding: [bdecode] accepts exactly the buffers that start with a
      well-formed tree within its limits, and leaves the tokens of that tree
      ([bdecode_accepts_iff]); it returns on every buffer without an access
      outside its vectors ([bdecode_total]); the queries of a node return what
      the tree has whatever its cache holds ([list_queries], [dict_queries],
      [dict_find_first]); entries are read from nodes as from the tree
      ([entry_assign_decoded]), and decoding what [bencode] wrote gives the
      entry back ([bencode_bdecode]).
    - Bitfield: any sequence of operations is the same on a list of booleans
      ([bitfield_refines]); what [resize] without a value leaves
      ([resize_raw_indeterminate]).
    - Piece picker: runs of its operations have no undefined behaviour and
      implement an abstract machine on blocks, availability, possession and
      priority ([picker_refines]); the debug checks of the source hold in every
      state ([picker_checks]); the effect of each operation on every branch
      ([mark_block] to [piece_checked], [refcount_bits]); what may be picked,
      in every order but the random one with aligned pieces
      ([pick_pieces_safe]), that the list is exact ([pick_list_exact],
      [update_pieces_rebuilds]), that the random order ends when pieces are not
      aligned ([pick_random_terminates]), the queries, and two faults.
    - Bandwidth: every request is answered once and the count of bytes is right
      ([bandwidth_runs]); it is answered at all ([bandwidth_answers]); a channel
      keeps its rate when no request has more than five channels
      ([bandwidth_rate]) and is shared by priority
      ([bandwidth_share]); a fault with six channels.
    - Packet buffer: a map from sequence numbers to packets, across the wrap of
      the numbers ([packet_buffer_refines]), and where it is not.
    - File storage: a block is the slices of the files it overlaps, byte for
      byte ([map_block_bytes]), [map_file] is the inverse
      ([map_file_map_block]), [optimize] ends, loses no file and aligns what it
      should ([optimize_lays_out]), and two faults ([optimize_faults]).
    - Part file: a map of the bytes that were written, across flushing, moving
      to directories that exist, and closing and opening again
      ([part_file_refines]), and three faults
      ([part_file_faults]).
    - Address filter: the last rule that holds an address decides
      ([ip_filter_rules]), and the export is the shortest list of ranges
      ([export_filter_minimal]).
    - Routing table: runs keep the debug check of the addresses, the bucket of
      each node and the sizes of the buckets ([routing_table_invariant]); what
      seeing a node adds and loses ([node_seen_adds]); which nodes are found
      ([find_node_near]); the metric of the ids and the ids that go with an
      address ([id_metric], [generated_id_verifies]); three faults
      ([routing_table_faults]).
    - Peer list: any run of operations follows no peer or connection that is
      gone, keeps the order, the counts, the cache and the pointers both ways,
      loses no peer and reports every one it frees ([peer_list_runs]); what
      adding a peer ([add_peer_adds]), a connection that comes in
      ([attach_peer_attaches]) or is closed ([disconnect_parts]), a new port
      ([update_port_updates]) and a filter
      ([apply_ip_filter_frees]) do; that the candidate is the best one
      ([connect_one_peer_best]); two faults ([crossed_connections],
      [switched_setting_frees_connected]).

    ** Bounds and fuel

    Integers are [Z] with the wrap-around written where the source's type has
    one.  An access outside a vector, an iterator that points at no element and
    a division by zero are [None] or [Stuck] in the model, never a default
    value.  So is a signed overflow that an argument of an operation or a
    counter it keeps can reach ([token_limit] of [bdecode], the size of a
    bitfield, the seeds of the picker, its sums and products with arguments of
    [pick_pieces], the times and counts of the peer list); a sum whose terms are
    bounded by the vectors it counts is on [Z].  A loop that is not structural has fuel:
    every round of the parser consumes a byte, so it has one more than the
    buffer has bytes; the pick list has one per priority, the picker's searches
    one per piece, the random order (blocks + 1) * (pieces + 1), [optimize] two
    per file and one, the loop of [export_file] one per piece of the range, the
    loop of the filters of the peer list one per peer, its binary searches one
    more than the range, the splits of a bucket 51, since a table of more than fifty buckets ends
    them.  That the fuel is enough is part of the theorems: they say that the
    functions return.

    ** What is assumed

    Code outside the sources is an argument: the order [std::sort] leaves equal
    elements in, the CRC of an address, the values of [random()], the contents
    of memory that [malloc] or [realloc] returns, whether a peer is
    disconnecting, the peers a picker compares, the peer the allocator hands out
    (one that is not in use, or none).  The votes on the external address are
    their outcome, and a number of peers is compared with 0.95 times another as
    the exact product.  The peer list is called as [enabled] of PeerListRun
    says: with settings whose product with 95 is an [int] and an external
    address, a connection that comes in is new, a peer is told to be no seed only while it is connected, and the setting that allows several
    connections per address is not switched off while peers share one (the
    last fault shows what happens then).  What [attach_peer] reads of the
    torrent, the session and the connections besides the peer list is its
    argument [torrent].  The picker is called as [enabled] of PickerMachine
    says, by the assertions of the source and with counts that fit their
    members, and picks as [order_ok], [prefer_ok] and [partials_ok] say.
    Reading and writing the file of a part file is taken not to fail, and
    renaming it only without a file or a directory.  The theorems hold for every value of
    them, or name the property they use of it.

    ** What is not modelled

    I2P peers ([add_i2p_peer]) and the scope ids of addresses are not in the
    peer list; its old form, policy.cpp, has lost its header and is not built.
    The session, torrents, peer connections (but for what the peer list sees of
    them), trackers, the requests of the
    DHT, sockets and disk threads are callbacks on boost::asio, threads and
    system calls; their state is shared with the libraries they drive.  The deprecated decoder and
    the deprecated overloads, the printing of nodes for debugging, the CRC of
    paths, and the string encodings are left out, as are the assembly path of
    [bitfield::count] and the third-party code kept in the tree (boost, puff,
    ed25519, big integers, SHA-1). *)


From stdpp Require Import base list numbers sorting.
From Stdlib Require Import ZArith Lia.

(** ** Notation scope and small tactics *)

Declare Scope torrent_scope.
Delimit Scope torrent_scope with torrent.
#[global] Open Scope Z_scope.

(** Characters the code compares against, as the byte they are. *)
Abbreviation ch_minus := 45%Z (only parsing).
Abbreviation ch_0 := 48%Z (only parsing).
Abbreviation ch_9 := 57%Z (only parsing).
Abbreviation ch_colon := 58%Z (only parsing).
Abbreviation ch_d := 100%Z (only parsing).
Abbreviation ch_e := 101%Z (only parsing).
Abbreviation ch_i := 105%Z (only parsing).
Abbreviation ch_l := 108%Z (only parsing).

(** ** Machine words *)

(** [boost::uint32_t] *)
Definition u32 (x : Z) : Z := x mod 2 ^ 32.

Lemma u32_small x : 0 <= x < 2 ^ 32 -> u32 x = x.
Proof. apply Z.mod_small. Qed.

(** The values of [int]. *)
Definition is_int (x : Z) : bool := (- 2 ^ 31 <=? x) && (x <? 2 ^ 31).

Lemma is_int_true x : - 2 ^ 31 <= x < 2 ^ 31 -> is_int x = true.
Proof. intros H. unfold is_int. lia. Qed.

(** A conversion of an integer to [int]. *)
Definition to_int (x : Z) : Z := (x + 2 ^ 31) mod 2 ^ 32 - 2 ^ 31.

Lemma to_int_small x : - 2 ^ 31 <= x < 2 ^ 31 -> to_int x = x.
Proof. intros H. unfold to_int. rewrite Z.mod_small; lia. Qed.

(** ** Lists indexed by [Z] *)

Abbreviation zlen l := (Z.of_nat (length l)).

(** [zget l i] is the element at index [i], [None] outside [0 <= i < zlen l]:
    what the source reads through a pointer or a vector index. *)
Definition zget {A} (l : list A) (i : Z) : option A :=
  if decide (0 <= i) then l !! Z.to_nat i else None.

(** [zset l i x] writes index [i]; [None] outside the range. *)
Definition zset {A} (l : list A) (i : Z) (x : A) : option (list A) :=
  if decide (0 <= i < zlen l) then Some (<[Z.to_nat i := x]> l) else None.

Section zlists.
Context {A : Type}.
Implicit Types (l k : list A) (i : Z) (x y : A).

Lemma zlen_app l k : zlen (l ++ k) = zlen l + zlen k.
Proof. rewrite length_app. lia. Qed.

Lemma zlen_cons x l : zlen (x :: l) = 1 + zlen l.
Proof. simpl. lia. Qed.

Lemma zget_Some_bound l i x : zget l i = Some x -> 0 <= i < zlen l.
Proof.
  unfold zget. case_decide; [|done]. intros ?%lookup_lt_Some. lia.
Qed.

Lemma zget_is_Some l i : 0 <= i < zlen l -> exists x, zget l i = Some x.
Proof.
  intros. unfold zget. rewrite decide_True by lia.
  apply lookup_lt_is_Some. lia.
Qed.

Lemma zget_ge l i : zlen l <= i -> zget l i = None.
Proof. intros. unfold zget. case_decide; [|done]. apply lookup_ge_None. lia. Qed.

(** Lists are equal when they are at every index. *)
Lemma zlist_eq l k : (forall i, 0 <= i -> zget l i = zget k i) -> l = k.
Proof.
  intros H. apply list_eq. intros i. specialize (H (Z.of_nat i) ltac:(lia)). unfold zget in H.
  rewrite !decide_True in H by lia. by rewrite Nat2Z.id in H.
Qed.

Lemma zget_elem l i x : zget l i = Some x -> x ∈ l.
Proof. unfold zget. case_decide; [|done]. apply list_elem_of_lookup_2. Qed.

Lemma elem_zget l x : x ∈ l -> exists i, zget l i = Some x.
Proof.
  intros [n Hn]%list_elem_of_lookup. exists (Z.of_nat n). unfold zget. rewrite decide_True by lia. by rewrite Nat2Z.id.
Qed.

Lemma zget_app_l l k i : i < zlen l -> zget (l ++ k) i = zget l i.
Proof.
  intros. unfold zget. case_decide; [|done]. apply lookup_app_l. lia.
Qed.

Lemma zget_app_r l k i : zlen l <= i -> zget (l ++ k) i = zget k (i - zlen l).
Proof.
  intros. unfold zget. rewrite !decide_True by lia.
  rewrite lookup_app_r by lia. f_equal. lia.
Qed.

Lemma zget_cons_0 x l : zget (x :: l) 0 = Some x.
Proof. done. Qed.

Lemma zget_cons_S x l i : 0 <= i -> zget (x :: l) (i + 1) = zget l i.
Proof.
  intros. unfold zget. rewrite !decide_True by lia. by replace (Z.to_nat (i + 1)) with (S (Z.to_nat i)) by lia.
Qed.

Lemma zget_mid l x k i : i = zlen l -> zget (l ++ x :: k) i = Some x.
Proof. intros ->. rewrite zget_app_r by lia. by rewrite Z.sub_diag. Qed.

Lemma zset_mid l x y k i : i = zlen l -> zset (l ++ x :: k) i y = Some (l ++ y :: k).
Proof.
  intros ->. unfold zset. rewrite decide_True by (rewrite zlen_app, zlen_cons; lia).
  f_equal. rewrite Nat2Z.id, insert_app_r_alt by lia.
  by rewrite Nat.sub_diag.
Qed.

Lemma zset_length l i x l' : zset l i x = Some l' -> length l' = length l.
Proof. unfold zset. case_decide; [|done]. intros [= <-]. apply length_insert. Qed.

Lemma zget_zset l i x l' j :
  zset l i x = Some l' -> zget l' j = if decide (i = j) then Some x else zget l j.
Proof.
  unfold zset, zget. repeat case_decide; intros [= <-]; simplify_eq; try lia; try done.
  - apply list_lookup_insert_eq. lia.
  - apply list_lookup_insert_ne. lia.
Qed.

Lemma take_app_cons n l x k :
  (length l < n)%nat -> exists r, take n (l ++ x :: k) = l ++ x :: r.
Proof.
  intros Hn. exists (take (n - length l - 1) k). rewrite take_app_ge by lia. f_equal.
  by destruct (n - length l)%nat eqn:E; [lia|]; rewrite Nat.sub_1_r.
Qed.
End zlists.

(** ** A segment of a list at a position *)

(** [seg] is found in [l] at index [p]. *)
Definition occurs {A} (l : list A) (p : Z) (seg : list A) : Prop :=
  exists pre post, l = pre ++ seg ++ post /\ p = zlen pre.

Section occurs.
Context {A : Type}.
Implicit Types (l seg : list A) (p : Z).

Lemma occurs_nonneg l p seg : occurs l p seg -> 0 <= p /\ p + zlen seg <= zlen l.
Proof. intros (pre & post & -> & ->). rewrite !length_app. lia. Qed.

Lemma occurs_app_l l p s1 s2 : occurs l p (s1 ++ s2) -> occurs l p s1.
Proof. intros (pre & post & -> & ->). exists pre, (s2 ++ post). by rewrite <- app_assoc. Qed.

Lemma occurs_app_r l p s1 s2 : occurs l p (s1 ++ s2) -> occurs l (p + zlen s1) s2.
Proof.
  intros (pre & post & -> & ->). exists (pre ++ s1), post. split; [by rewrite <- !app_assoc|].
  by rewrite zlen_app.
Qed.

Lemma occurs_tail l p x seg : occurs l p (x :: seg) -> occurs l (p + 1) seg.
Proof. apply (occurs_app_r l p [x] seg). Qed.

Lemma occurs_get l p x seg : occurs l p (x :: seg) -> zget l p = Some x.
Proof. intros (pre & post & -> & ->). by apply zget_mid. Qed.

Lemma occurs_drop l p seg : occurs l p seg -> exists post, drop (Z.to_nat p) l = seg ++ post.
Proof. intros (pre & post & -> & ->). exists post. by rewrite Nat2Z.id, drop_app_length. Qed.

Lemma occurs_range l p seg : occurs l p seg -> take (length seg) (drop (Z.to_nat p) l) = seg.
Proof. intros (post & ->)%occurs_drop. by rewrite take_app_length. Qed.
End occurs.

(** ** Sums *)

Section zsum.
Context {A : Type}.
Implicit Types (f g : A -> Z) (l k : list A).

Fixpoint zsum f l : Z := match l with [] => 0 | x :: l => f x + zsum f l end.

Lemma zsum_app f l k : zsum f (l ++ k) = zsum f l + zsum f k.
Proof. induction l as [|x l IH]; simpl; lia. Qed.

Lemma zsum_le f g l : (forall x, x ∈ l -> f x <= g x) -> zsum f l <= zsum g l.
Proof.
  induction l as [|x l IH]; intros H; simpl; [lia|].
  specialize (H x ltac:(by left)) as Hx. assert (zsum f l <= zsum g l) by (apply IH; intros y Hy; apply H; by right). lia.
Qed.

Lemma zsum_ext f g l : (forall x, x ∈ l -> f x = g x) -> zsum f l = zsum g l.
Proof. intros H. apply Z.le_antisymm; apply zsum_le; intros x Hx; rewrite H; done || lia. Qed.

Lemma zsum_nonneg f l : (forall x, x ∈ l -> 0 <= f x) -> 0 <= zsum f l.
Proof. intros H. assert (zsum (fun _ => 0) l = 0) as <- by (induction l as [|x l IH]; simpl; [done|rewrite IH; [done|intros y Hy; apply H; by right]]). by apply zsum_le. Qed.

Lemma zsum_zero f l : (forall x, x ∈ l -> f x = 0) -> zsum f l = 0.
Proof. intros H. apply Z.le_antisymm; [|apply zsum_nonneg; intros x Hx; by rewrite H]. rewrite (zsum_ext f (fun _ => 0)) by done. induction l; simpl; [done|]. apply IHl. intros x Hx. apply H. by right. Qed.

Lemma zsum_mul f l n : zsum (fun x => n * f x) l = n * zsum f l.
Proof. induction l as [|x l IH]; simpl; lia. Qed.

Lemma zsum_add f g l : zsum (fun x => f x + g x) l = zsum f l + zsum g l.
Proof. induction l as [|x l IH]; simpl; lia. Qed.

Lemma zsum_elem f l x : (forall y, y ∈ l -> 0 <= f y) -> x ∈ l -> f x <= zsum f l.
Proof.
  intros H (l1 & l2 & ->)%list_elem_of_split. rewrite zsum_app. simpl.
  pose proof (zsum_nonneg f l1 ltac:(intros y Hy; apply H; apply elem_of_app; by left)).
  pose proof (zsum_nonneg f l2 ltac:(intros y Hy; apply H; apply elem_of_app; right; by right)). lia.
Qed.

(** A sum over the elements of two kinds. *)
Lemma zsum_filter f (P : A -> Prop) `{!forall x, Decision (P x)} l :
  zsum f l = zsum f (filter P l) + zsum f (filter (fun x => ~ P x) l).
Proof.
  induction l as [|x l IH]; [done|]. rewrite !filter_cons. simpl.
  destruct (decide (P x)); [rewrite decide_False by tauto|rewrite decide_True by done]; simpl; lia.
Qed.
End zsum.

Lemma zsum_map {A B} (g : A -> B) f (l : list A) : zsum f (map g l) = zsum (fun x => f (g x)) l.
Proof. induction l as [|x l IH]; simpl; congruence. Qed.

Lemma filter_elem_ext {A} (P Q : A -> Prop) `{!forall x, Decision (P x), !forall x, Decision (Q x)} (l : list A) :
  (forall x, x ∈ l -> P x <-> Q x) -> filter P l = filter Q l.
Proof.
  induction l as [|x l IH]; intros Hpq; [done|]. rewrite !filter_cons. rewrite IH by (intros y Hy; apply Hpq; by right).
  specialize (Hpq x ltac:(by left)). destruct (decide (P x)), (decide (Q x)); tauto.
Qed.

(** ** Hints shared by the components *)

Create HintDb torrent discriminated.
#[export] Hint Resolve zget_cons_0 : torrent.
Create Rewrite HintDb zlen.
#[export] Hint Rewrite @zlen_app @zlen_cons : zlen.

(** Normalise lengths, then decide the linear goal. *)
Ltac zlia := autorewrite with zlen in *; simpl length in *; lia.

(** Equality of tuples whose components differ by linear arithmetic. *)
Ltac zpair :=
  repeat match goal with
         | |- (_, _) = (_, _) => apply f_equal2
         end; try done; try zlia.

(** Linear goals with division and remainder by constants. *)
Ltac zdiv := Z.to_euclidean_division_equations; lia.
