(* ===== verification/Bdecode.v ===== *)
(** * The bdecode() parser (src/TestBB/LibTorrent/torrent/bdecode.cpp)

    The token vector that [bdecode] fills in, as a step machine.  A pair of
    pointers [start, end) of the source is the list of bytes between them
    together with the offset of [start] from [orig_start]; [*start] is the head
    of that list, so a read outside the buffer is not expressible, and
    [start == end] is the empty list.  One iteration of the [while] loop is
    [step], [TORRENT_FAIL_BDECODE] is the outcome [Fail], and what follows the
    label [done] is [finish].  An access to [m_tokens] outside its size is the
    outcome [Stuck], and so is the decrement of a [token_limit] of [INT_MIN];
    [BdecodeCorrect.v] proves that without such a limit it does not occur. *)

From stdpp Require Import base list numbers.
From Stdlib Require Import ZArith Lia.
From S2P Require Import Prelude.

(** ** Error codes and tokens *)

(** [bdecode_errors::error_code_enum] *)
Inductive error_code_enum :=
  | no_error | expected_digit | expected_colon | unexpected_eof
  | expected_value | depth_exceeded | limit_exceeded | overflow.

#[export] Instance error_code_enum_eq_dec : EqDecision error_code_enum.
Proof. solve_decision. Defined.

(** [bdecode_token::type_t] *)
Inductive tok_type := t_none | t_dict | t_list | t_string | t_integer | t_end.

#[export] Instance tok_type_eq_dec : EqDecision tok_type.
Proof. solve_decision. Defined.

(** [bdecode_token]: bit fields [offset:29], [type:3], [next_item:29], [header:3]. *)
Record bdecode_token := Tok {
  tok_offset : Z;
  tok_type_of : tok_type;
  tok_next_item : Z;
  tok_header : Z;
}.

Definition max_offset : Z := 2 ^ 29 - 1.
Definition max_next_item : Z := 2 ^ 29 - 1.
Definition max_header : Z := 2 ^ 3 - 1.

(** The two constructors; a bit field keeps the low bits of what it is given,
    and [header_size] is a [uint8_t]. *)
Definition mk_token (off : Z) (t : tok_type) : bdecode_token :=
  Tok (off mod 2 ^ 29) t 0 0.

Definition mk_token_next (off next : Z) (t : tok_type) (header_size : Z) : bdecode_token :=
  Tok (off mod 2 ^ 29) t (next mod 2 ^ 29)
    (if decide (t = t_string) then (header_size mod 2 ^ 8 - 2) mod 2 ^ 3 else 0).

Definition start_offset (t : bdecode_token) : Z := tok_header t + 2.

(** ** Scanning numbers *)

Definition numeric (c : Z) : bool := (ch_0 <=? c) && (c <=? ch_9).

Definition int64_max : Z := 2 ^ 63 - 1.

(** The [do ... while ( *start != 'e')] loop of [check_integer]: the remaining
    bytes, the position, the digit count and the error. *)
Fixpoint check_digits (l : list Z) (start digits : Z) : list Z * Z * Z * error_code_enum :=
  match l with
  | [] => (l, start, digits, unexpected_eof)
  | c :: l' =>
      if negb (numeric c) then (l, start, digits, expected_digit)
      else
        match l' with
        | [] => (l', start + 1, digits + 1, unexpected_eof)
        | c' :: _ =>
            if c' =? ch_e then (l', start + 1, digits + 1, no_error)
            else check_digits l' (start + 1) (digits + 1)
        end
  end.

Definition check_integer (l : list Z) (start : Z) : list Z * Z * error_code_enum :=
  match l with
  | [] => (l, start, unexpected_eof)
  | c :: l1 =>
      let '(l2, start2) := if c =? ch_minus then (l1, start + 1) else (l, start) in
      match l2 with
      | [] => (l2, start2, unexpected_eof)
      | _ :: _ =>
          let '(l3, start3, digits, e) := check_digits l2 start2 0 in
          (l3, start3, if 20 <? digits then overflow else e)
      end
  end.

(** [parse_int]; the value is an [int64_t], and the tests made before each
    multiplication and addition are those of the source. *)
Fixpoint parse_int (l : list Z) (start : Z) (delimiter : Z) (val : Z)
  : list Z * Z * Z * error_code_enum :=
  match l with
  | [] => (l, start, val, no_error)
  | c :: l' =>
      if c =? delimiter then (l, start, val, no_error)
      else if negb (numeric c) then (l, start, val, expected_digit)
      else if int64_max / 10 <? val then (l, start, val, overflow)
      else
        let val := val * 10 in
        let digit := c - ch_0 in
        if int64_max - digit <? val then (l, start, val, overflow)
        else parse_int l' (start + 1) delimiter (val + digit)
  end.

(** ** The parser state and one iteration of its loop *)

(** [stack_frame]: [fr_state = true] means that the next item of a dictionary
    is a value. *)
Record stack_frame := Frame { fr_token : Z; fr_state : bool }.

(** The loop's variables.  [ps_stack] is [stack[0..sp)], the top first. *)
Record pstate := PState {
  ps_rest : list Z;
  ps_start : Z;
  ps_tokens : list bdecode_token;
  ps_stack : list stack_frame;
  ps_token_limit : Z;
}.

Inductive outcome :=
  | Next (s : pstate)
  | Break (s : pstate)
  | Fail (e : error_code_enum) (error_pos : Z) (s : pstate)
  | Stuck.

Definition frame_is_dict (toks : list bdecode_token) (f : stack_frame) : option bool :=
  t ← zget toks (fr_token f); Some (bool_decide (tok_type_of t = t_dict)).

(** [stack[current_frame-1].state = ~stack[current_frame-1].state] when that
    frame is a dictionary. *)
Definition flip_state (f : stack_frame) : stack_frame :=
  Frame (fr_token f) (negb (fr_state f)).

(** The test and the flip at the end of an iteration; [cf] is
    [current_frame].  A frame at or above [sp] has been popped: the source
    flips its dead storage. *)
Definition flip_current (cf : nat) (toks : list bdecode_token) (stk : list stack_frame)
  : option (list stack_frame) :=
  if decide (cf = 0%nat) then Some stk
  else if decide (length stk < cf)%nat then Some stk
  else
    let k := (length stk - cf)%nat in
    f ← stk !! k;
    d ← frame_is_dict toks f;
    Some (if (d : bool) then <[k := flip_state f]> stk else stk).

(** What the [switch] of an iteration does. *)
Inductive item_result :=
  | IOk (rest : list Z) (start : Z) (toks : list bdecode_token) (stk : list stack_frame)
  | IFail (e : error_code_enum) (error_pos start : Z) (rest : list Z) (toks : list bdecode_token)
  | IStuck.

(** [case 'd'] and [case 'l'] *)
Definition item_open (t : tok_type) (rest : list Z) (start : Z)
    (toks : list bdecode_token) (stk : list stack_frame) : item_result :=
  IOk rest (start + 1) (toks ++ [mk_token start t]) (Frame (zlen toks) false :: stk).

(** [case 'i']; [rest] starts after the 'i'. *)
Definition item_int (l rest : list Z) (start : Z)
    (toks : list bdecode_token) (stk : list stack_frame) : item_result :=
  let '(l1, start1, e) := check_integer rest (start + 1) in
  if decide (e = no_error) then
    match l1 with
    | [] => IStuck
    | _ :: l2 => IOk l2 (start1 + 1) (toks ++ [mk_token_next start 1 t_integer 1]) stk
    end
  else IFail e start1 start l toks.

(** [case 'e'] *)
Definition item_end (l rest : list Z) (start : Z)
    (toks : list bdecode_token) (stk : list stack_frame) : item_result :=
  match stk with
  | [] => IFail unexpected_eof start start l toks
  | f :: stk' =>
      match frame_is_dict toks f with
      | None => IStuck
      | Some d =>
          if d && fr_state f then IFail expected_value start start l toks
          else
            let toks1 := toks ++ [mk_token_next start 1 t_end 0] in
            let top := fr_token f in
            if max_next_item <? zlen toks1 - top
            then IFail limit_exceeded start start l toks1
            else
              match zget toks1 top with
              | None => IStuck
              | Some t =>
                  match zset toks1 top (Tok (tok_offset t) (tok_type_of t)
                          ((zlen toks1 - top) mod 2 ^ 29) (tok_header t)) with
                  | None => IStuck
                  | Some toks2 => IOk rest (start + 1) toks2 stk'
                  end
              end
      end
  end.

(** [default:], a string; [t] is its first byte and [rest] what follows it. *)
Definition item_string (t : Z) (l rest : list Z) (start : Z)
    (toks : list bdecode_token) (stk : list stack_frame) : item_result :=
  if negb (numeric t) then IFail expected_value start start l toks
  else
    let str_start := start in
    let start := start + 1 in
    match rest with
    | [] => IFail unexpected_eof start start rest toks
    | _ :: _ =>
        let '(l1, start, len, e) := parse_int rest start ch_colon (t - ch_0) in
        if negb (bool_decide (e = no_error)) then IFail e start start l1 toks
        else
          match l1 with
          | [] => IFail expected_colon start start l1 toks
          | _ :: l2 =>
              let buff_size := zlen l1 - 1 in
              if buff_size <? len then IFail unexpected_eof start start l1 toks
              else if len <? 0 then IFail overflow start start l1 toks
              else
                let start := start + 1 in
                match l2 with
                | [] => IFail unexpected_eof start start l2 toks
                | _ :: _ =>
                    if max_header <? start - str_start - 2
                    then IFail limit_exceeded start start l2 toks
                    else IOk (drop (Z.to_nat len) l2) (start + len)
                           (toks ++ [mk_token_next str_start 1 t_string (start - str_start)]) stk
                end
          end
    end.

(** The [switch (t)] *)
Definition parse_item (t : Z) (l rest : list Z) (start : Z)
    (toks : list bdecode_token) (stk : list stack_frame) : item_result :=
  if t =? ch_d then item_open t_dict rest start toks stk
  else if t =? ch_l then item_open t_list rest start toks stk
  else if t =? ch_i then item_int l rest start toks stk
  else if t =? ch_e then item_end l rest start toks stk
  else item_string t l rest start toks stk.

(** The check made before the [switch]: only a digit or 'e' where a key of a
    dictionary is expected. *)
Definition key_check (t : Z) (toks : list bdecode_token) (stk : list stack_frame) : option bool :=
  match stk with
  | [] => Some true
  | f :: _ =>
      d ← frame_is_dict toks f;
      Some (negb d || fr_state f || numeric t || (t =? ch_e))
  end.

(** One iteration of [while (start <= end)]. *)
Definition step (depth_limit : Z) (s : pstate) : outcome :=
  let '(PState l start toks stk token_limit) := s in
  match l with
  | [] => Fail unexpected_eof start s
  | t :: rest =>
      if depth_limit <=? zlen stk then Fail depth_exceeded start s
      else if token_limit =? - 2 ^ 31 then Stuck    (* [--token_limit] overflows *)
      else
        let token_limit := token_limit - 1 in
        if token_limit <? 0 then Fail limit_exceeded start s
        else
          let current_frame := length stk in
          match key_check t toks stk with
          | None => Stuck
          | Some false => Fail expected_digit start s
          | Some true =>
              match parse_item t l rest start toks stk with
              | IStuck => Stuck
              | IFail e pos start l toks => Fail e pos (PState l start toks stk token_limit)
              | IOk l start toks stk =>
                  match flip_current current_frame toks stk with
                  | None => Stuck
                  | Some stk =>
                      let s := PState l start toks stk token_limit in
                      match stk with [] => Break s | _ :: _ => Next s end
                  end
              end
          end
  end.

(** The loop; every iteration consumes a byte, so [length l + 1] iterations are
    enough for a buffer [l] (proved in [BdecodeSpec.v]). *)
Fixpoint bdecode_loop (fuel : nat) (depth_limit : Z) (s : pstate) : outcome :=
  match fuel with
  | O => Stuck
  | S fuel =>
      match step depth_limit s with
      | Next s' => bdecode_loop fuel depth_limit s'
      | o => o
      end
  end.

(** ** After the label [done] *)

(** [while (sp > 0)]: close the containers that are still open. *)
Fixpoint unwind (stk : list stack_frame) (start : Z) (toks : list bdecode_token)
  : option (list bdecode_token) :=
  match stk with
  | [] => Some toks
  | f :: stk =>
      d ← frame_is_dict toks f;
      let toks1 :=
        if (d : bool) && fr_state f
        then toks ++ [mk_token_next start 2 t_dict 0; mk_token start t_end]
        else toks in
      t ← zget toks1 (fr_token f);
      toks2 ← zset toks1 (fr_token f)
        (Tok (tok_offset t) (tok_type_of t)
           ((zlen toks1 - fr_token f) mod 2 ^ 29) (tok_header t));
      unwind stk start (toks2 ++ [mk_token_next start 1 t_end 0])
  end.

(** What [bdecode] leaves in [ret], [ec] and [*error_pos]; [None] stands for
    undefined behaviour. *)
Record bdecode_result := BResult {
  br_tokens : list bdecode_token;
  br_buffer_size : Z;
  br_ec : error_code_enum;
  br_error_pos : Z;
}.

Definition finish (e : error_code_enum) (error_pos : Z) (s : pstate) : option bdecode_result :=
  toks ← unwind (ps_stack s) (ps_start s) (ps_tokens s);
  Some (BResult (toks ++ [mk_token_next (ps_start s) 0 t_end 0]) (ps_start s) e error_pos).

Definition initial (buf : list Z) (token_limit : Z) : pstate := PState buf 0 [] [] token_limit.

(** [bdecode(start, end, ret, ec, error_pos, depth_limit, token_limit)] with a
    non-null [error_pos]; [*error_pos] is left at 0 on success. *)
Definition bdecode (buf : list Z) (depth_limit token_limit : Z) : option bdecode_result :=
  if max_offset <? zlen buf then Some (BResult [] 0 limit_exceeded 0)
  else
    match buf with
    | [] => finish unexpected_eof 0 (initial buf token_limit)
    | _ :: _ =>
        match bdecode_loop (S (length buf)) depth_limit (initial buf token_limit) with
        | Break s => finish no_error 0 s
        | Fail e pos s => finish e pos s
        | Next _ | Stuck => None
        end
    end.

(** [ec ? -1 : 0] *)
Definition bdecode_ret (r : bdecode_result) : Z :=
  if decide (br_ec r = no_error) then 0 else -1.
