(* ===== verification/BdecodeSyntax.v ===== *)
(** * Bencoded syntax and the token vector it denotes

    The abstract specification of [bdecode]: the concrete syntax trees of
    bencoding ([bt]), the bytes each one stands for ([unparse]), the trees the
    parser of bdecode.cpp accepts ([bt_wf]), and the token vector a tree
    denotes at an offset of the buffer ([tokens_of]).  [ctx] is a partial
    parse: the containers open at some point of the buffer with the items read
    in each, the innermost first. *)

From stdpp Require Import base list numbers.
From Stdlib Require Import ZArith Lia.
From S2P Require Import Prelude Bdecode.

(** ** Trees *)

Inductive seq_kind := KList | KDict.

#[export] Instance seq_kind_eq_dec : EqDecision seq_kind.
Proof. solve_decision. Defined.

(** An integer is its sign and digits, a string the digits of its length and
    its bytes; the items of a dictionary alternate between keys and values. *)
Inductive bt :=
  | BInt (neg : bool) (digits : list Z)
  | BStr (prefix payload : list Z)
  | BSeq (k : seq_kind) (kids : list bt).

Section bt_ind.
Context (P : bt -> Prop)
  (HInt : forall n ds, P (BInt n ds))
  (HStr : forall p s, P (BStr p s))
  (HSeq : forall k kids, Forall P kids -> P (BSeq k kids)).

Fixpoint bt_ind' (t : bt) : P t :=
  match t with
  | BInt n ds => HInt n ds
  | BStr p s => HStr p s
  | BSeq k kids =>
      HSeq k kids
        ((fix go (l : list bt) : Forall P l :=
            match l with
            | [] => Forall_nil_2 _
            | x :: l' => Forall_cons_2 _ _ _ (bt_ind' x) (go l')
            end) kids)
  end.
End bt_ind.

Definition kind_char (k : seq_kind) : Z := match k with KList => ch_l | KDict => ch_d end.
Definition kind_tok (k : seq_kind) : tok_type := match k with KList => t_list | KDict => t_dict end.
Definition is_dict (k : seq_kind) : bool := match k with KList => false | KDict => true end.
Definition is_str (t : bt) : bool := match t with BStr _ _ => true | _ => false end.

Definition sign_chars (neg : bool) : list Z := if neg then [ch_minus] else [].

Fixpoint unparse (t : bt) : list Z :=
  match t with
  | BInt neg ds => ch_i :: sign_chars neg ++ ds ++ [ch_e]
  | BStr p s => p ++ ch_colon :: s
  | BSeq k kids => kind_char k :: flat_map unparse kids ++ [ch_e]
  end.

(** The decimal value of digits read after [v]. *)
Definition dec_from (v : Z) (ds : list Z) : Z := foldl (fun v c => v * 10 + (c - ch_0)) v ds.

Definition digits_ok (ds : list Z) : Prop := Forall (fun c => numeric c = true) ds.

(** Dictionary items from state [st] ([true]: a value is next) alternate, and
    end after a value. *)
Fixpoint keys_ok (st : bool) (l : list bt) : bool :=
  match l with
  | [] => true
  | x :: l' => (st || is_str x) && keys_ok (negb st) l'
  end.

(** What the parser requires of a tree, the limits on depth and count apart. *)
Fixpoint bt_wf (t : bt) : Prop :=
  match t with
  | BInt _ ds => ds <> [] /\ digits_ok ds /\ zlen ds <= 20
  | BStr p s => p <> [] /\ digits_ok p /\ zlen p <= 8 /\ dec_from 0 p = zlen s
  | BSeq k kids =>
      foldr (fun x P => bt_wf x /\ P) True kids /\
      (k = KDict -> keys_ok false kids = true /\ Nat.even (length kids) = true)
  end.

(** The number of tokens and the stack depth the parser needs. *)
Fixpoint ntoks (t : bt) : nat :=
  match t with
  | BSeq _ kids => S (S (list_sum (map ntoks kids)))
  | _ => 1
  end.

Fixpoint height (t : bt) : nat :=
  match t with
  | BSeq _ kids => S (foldr (fun x m => Nat.max (height x) m) 1%nat kids)
  | _ => 1
  end.

(** ** Tokens of a tree *)

Fixpoint tokens_of (off : Z) (t : bt) : list bdecode_token :=
  match t with
  | BInt _ _ => [Tok off t_integer 1 0]
  | BStr p _ => [Tok off t_string 1 (zlen p - 1)]
  | BSeq k kids =>
      let inner :=
        (fix go (off : Z) (l : list bt) : list bdecode_token :=
           match l with
           | [] => []
           | x :: l' => tokens_of off x ++ go (off + zlen (unparse x)) l'
           end) (off + 1) kids in
      Tok off (kind_tok k) (zlen inner + 2) 0
        :: inner ++ [Tok (off + 1 + zlen (flat_map unparse kids)) t_end 1 0]
  end.

Fixpoint tokens_of_list (off : Z) (l : list bt) : list bdecode_token :=
  match l with
  | [] => []
  | x :: l' => tokens_of off x ++ tokens_of_list (off + zlen (unparse x)) l'
  end.

(** ** Partial parses *)

Record ctx_frame := CF { cf_kind : seq_kind; cf_kids : list bt }.

(** The bytes read so far. *)
Fixpoint ctx_bytes (c : list ctx_frame) : list Z :=
  match c with
  | [] => []
  | f :: outer => ctx_bytes outer ++ kind_char (cf_kind f) :: flat_map unparse (cf_kids f)
  end.

Fixpoint ctx_tokens (c : list ctx_frame) : list bdecode_token :=
  match c with
  | [] => []
  | f :: outer =>
      ctx_tokens outer ++
      Tok (zlen (ctx_bytes outer)) (kind_tok (cf_kind f)) 0 0
        :: tokens_of_list (zlen (ctx_bytes outer) + 1) (cf_kids f)
  end.

(** The parser's frame of a container of which [n] items have been started. *)
Definition ctx_frame_of (outer : list ctx_frame) (k : seq_kind) (n : nat) : stack_frame :=
  Frame (zlen (ctx_tokens outer)) (is_dict k && Nat.odd n).

Fixpoint outer_stack (c : list ctx_frame) : list stack_frame :=
  match c with
  | [] => []
  | f :: outer => ctx_frame_of outer (cf_kind f) (S (length (cf_kids f))) :: outer_stack outer
  end.

Definition ctx_stack (c : list ctx_frame) : list stack_frame :=
  match c with
  | [] => []
  | f :: outer => ctx_frame_of outer (cf_kind f) (length (cf_kids f)) :: outer_stack outer
  end.

Definition frame_wf (f : ctx_frame) : Prop :=
  Forall bt_wf (cf_kids f) /\ (cf_kind f = KDict -> keys_ok false (cf_kids f) = true).

(** A container is open inside [f]: in a dictionary it is a value. *)
Definition outer_wf (f : ctx_frame) : Prop :=
  frame_wf f /\ (cf_kind f = KDict -> Nat.odd (length (cf_kids f)) = true).

Definition ctx_wf (c : list ctx_frame) : Prop :=
  match c with
  | [] => True
  | f :: outer => frame_wf f /\ Forall outer_wf outer
  end.

(** The parser's state at a partial parse. *)
Definition state_of (c : list ctx_frame) (rest : list Z) (token_limit : Z) : pstate :=
  PState rest (zlen (ctx_bytes c)) (ctx_tokens c) (ctx_stack c) token_limit.

(** A complete item inside [c]: appended to the innermost container. *)
Definition add_item (f : ctx_frame) (t : bt) : ctx_frame := CF (cf_kind f) (cf_kids f ++ [t]).

(** ** Lemmas *)

Lemma bt_wf_seq k kids :
  bt_wf (BSeq k kids) <->
  Forall bt_wf kids /\ (k = KDict -> keys_ok false kids = true /\ Nat.even (length kids) = true).
Proof.
  simpl. assert (foldr (fun x P => bt_wf x /\ P) True kids <-> Forall bt_wf kids) as ->; [|done].
  induction kids as [|x l IH]; simpl; [split; by constructor|].
  rewrite IH. split; [intros [??]; by constructor|by inversion 1].
Qed.

Lemma tokens_of_seq off k kids :
  tokens_of off (BSeq k kids) =
  Tok off (kind_tok k) (zlen (tokens_of_list (off + 1) kids) + 2) 0
    :: tokens_of_list (off + 1) kids
    ++ [Tok (off + 1 + zlen (flat_map unparse kids)) t_end 1 0].
Proof.
  simpl. assert (forall l o, (fix go (off : Z) (l : list bt) : list bdecode_token :=
           match l with
           | [] => []
           | x :: l' => tokens_of off x ++ go (off + zlen (unparse x)) l'
           end) o l = tokens_of_list o l) as Hgo.
  { intros l. induction l as [|x l IH]; intros o; simpl; [done|]. by rewrite IH. }
  by rewrite Hgo.
Qed.

Lemma tokens_of_list_app l k off :
  tokens_of_list off (l ++ k) =
  tokens_of_list off l ++ tokens_of_list (off + zlen (flat_map unparse l)) k.
Proof.
  revert off. induction l as [|x l IH]; intros off; simpl.
  - by rewrite Z.add_0_r.
  - rewrite IH, <- app_assoc. do 3 f_equal. zlia.
Qed.

Lemma length_tokens_of t off : length (tokens_of off t) = ntoks t.
Proof.
  revert off. induction t as [| |k kids IH] using bt_ind'; intros off; [done..|].
  rewrite tokens_of_seq. simpl. rewrite length_app. simpl.
  rewrite Nat.add_comm. simpl. do 2 f_equal. generalize (off + 1). clear off.
  induction IH as [|x l Hx _ IHl]; intros off; simpl; [done|].
  by rewrite length_app, Hx, IHl.
Qed.

Lemma ntoks_pos t : (1 <= ntoks t)%nat.
Proof. destruct t; simpl; lia. Qed.

Lemma height_pos t : (1 <= height t)%nat.
Proof. destruct t; simpl; lia. Qed.

Lemma height_le_ntoks t : (height t <= S (ntoks t))%nat.
Proof.
  induction t as [| |k kids IH] using bt_ind'; simpl; [lia..|].
  enough (foldr (fun x m => Nat.max (height x) m) 1%nat kids <= S (list_sum (map ntoks kids)))%nat by lia.
  induction IH as [|x l Hx _ IHl]; simpl; [lia|]. pose proof (ntoks_pos x). lia.
Qed.

Lemma keys_ok_app st l k :
  keys_ok st (l ++ k) = keys_ok st l && keys_ok (xorb st (Nat.odd (length l))) k.
Proof.
  revert st. induction l as [|x l IH]; intros st; simpl.
  - by rewrite xorb_false_r.
  - rewrite IH, Nat.odd_succ, <- Nat.negb_odd, andb_assoc. do 2 f_equal.
    by destruct st, (Nat.odd (length l)).
Qed.

Lemma dec_from_app v ds ds' : dec_from v (ds ++ ds') = dec_from (dec_from v ds) ds'.
Proof. apply foldl_app. Qed.

Lemma numeric_spec c : numeric c = true <-> 48 <= c <= 57.
Proof. unfold numeric. rewrite andb_true_iff. lia. Qed.

Lemma dec_from_ge ds v : digits_ok ds -> 0 <= v -> v <= dec_from v ds.
Proof.
  intros Hds. revert v. induction Hds as [|c ds Hc _ IH]; intros v Hv; simpl; [lia|].
  apply numeric_spec in Hc. specialize (IH (v * 10 + (c - 48))). unfold dec_from in *. lia.
Qed.

Lemma unparse_nonempty t : bt_wf t -> exists c l, unparse t = c :: l.
Proof.
  destruct t as [n ds|p s|k kids]; simpl; [by eauto| |by eauto].
  intros (Hp & _). destruct p; [done|]. simpl. eauto.
Qed.
