(* ===== verification/BdecodeSpec.v ===== *)
(** * Steps of the parser on partial parses

    How one iteration of the loop of [bdecode] transforms the state of a
    partial parse ([state_of]): the lemmas [step_open], [step_leaf] and
    [step_close] for input that continues correctly, and [step_inv] for any
    input. *)

From stdpp Require Import base list numbers.
From Stdlib Require Import ZArith Lia.
From S2P Require Import Prelude Bdecode BdecodeSyntax.

Create HintDb bdecode discriminated.

(** ** Scanning numbers *)

Lemma check_digits_ok ds r st n :
  ds <> [] -> digits_ok ds ->
  check_digits (ds ++ ch_e :: r) st n = (ch_e :: r, st + zlen ds, n + zlen ds, no_error).
Proof.
  intros Hne Hds. revert st n. induction Hds as [|c ds Hc Hds IH]; [done|].
  intros st n. cbn [app check_digits]. rewrite Hc. simpl negb. cbv iota.
  destruct ds as [|c' ds]; simpl.
  - zpair.
  - inversion Hds as [|? ? Hc' ?]; subst.
    destruct (Z.eqb_spec c' 101) as [->|_]; [by apply numeric_spec in Hc'; lia|].
    simpl in IH. rewrite IH by done. zpair.
Qed.

Lemma check_digits_inv l st n l' st' n' e :
  check_digits l st n = (l', st', n', e) ->
  exists ds, l = ds ++ l' /\ digits_ok ds /\ st' = st + zlen ds /\ n' = n + zlen ds /\
    (e = no_error -> ds <> [] /\ exists r, l' = ch_e :: r).
Proof.
  revert st n. induction l as [|c l IH]; intros st n H; simpl in H.
  - simplify_eq. exists []. split_and!; try done; [by constructor|simpl; lia..].
  - destruct (numeric c) eqn:Hc; simpl in H; simplify_eq.
    2: { exists []. split_and!; try done; [by constructor|simpl; lia..]. }
    assert (digits_ok [c]) as H1 by by repeat constructor.
    destruct l as [|c' l]; simplify_eq.
    { exists [c]. split_and!; try done. }
    destruct (Z.eqb_spec c' 101) as [->|Hc']; simplify_eq.
    { exists [c]. split_and!; try done. intros _. split; [done|eauto]. }
    destruct (IH _ _ H) as (ds & -> & ? & -> & -> & He).
    exists (c :: ds). split_and!; [done|by constructor|zlia|zlia|].
    intros ?. split; [done|]. by apply He.
Qed.

Lemma check_integer_ok neg ds r st :
  ds <> [] -> digits_ok ds -> zlen ds <= 20 ->
  check_integer (sign_chars neg ++ ds ++ ch_e :: r) st =
  (ch_e :: r, st + zlen (sign_chars neg ++ ds), no_error).
Proof.
  intros Hne Hds H20. assert (exists c ds', ds = c :: ds' /\ c <> 45) as (c & ds' & -> & Hc).
  { destruct ds as [|c ds']; [done|]. inversion Hds as [|? ? Hc]; subst.
    apply numeric_spec in Hc. exists c, ds'. split; [done|lia]. }
  unfold check_integer. destruct neg.
  - cbn [sign_chars app]. rewrite Z.eqb_refl.
    rewrite (app_comm_cons ds'), check_digits_ok by done.
    rewrite (proj2 (Z.ltb_ge _ _)) by lia. zpair.
  - cbn [sign_chars app]. destruct (Z.eqb_spec c 45); [done|].
    rewrite (app_comm_cons ds'), check_digits_ok by done.
    rewrite (proj2 (Z.ltb_ge _ _)) by lia. done.
Qed.

Lemma check_integer_inv l st l' st' e :
  check_integer l st = (l', st', e) ->
  exists p, l = p ++ l' /\ st' = st + zlen p /\
    (e = no_error -> exists neg ds r, p = sign_chars neg ++ ds /\ l' = ch_e :: r /\
       ds <> [] /\ digits_ok ds /\ zlen ds <= 20).
Proof.
  destruct l as [|c l]; simpl.
  { intros [= <- <- <-]. exists []. split_and!; [done|simpl; lia|done]. }
  destruct (Z.eqb_spec c 45) as [->|Hc]; [destruct l as [|c2 l]|].
  - intros [= <- <- <-]. exists [45]. split_and!; [done|simpl; lia|done].
  - destruct (check_digits (c2 :: l) (st + 1) 0) as [[[l3 st3] n3] e3] eqn:Hd.
    intros [= <- <- <-].
    destruct (check_digits_inv _ _ _ _ _ _ _ Hd) as (ds & -> & ? & -> & -> & He).
    exists (45 :: ds). split_and!; [done|zlia|].
    destruct (Z.ltb_spec 20 (0 + zlen ds)); [done|].
    intros [? [r ->]]%He. exists true, ds, r. by split_and!.
  - destruct (check_digits (c :: l) st 0) as [[[l3 st3] n3] e3] eqn:Hd.
    intros [= <- <- <-].
    destruct (check_digits_inv _ _ _ _ _ _ _ Hd) as (ds & -> & ? & -> & -> & He).
    exists ds. split_and!; [done|zlia|].
    destruct (Z.ltb_spec 20 (0 + zlen ds)); [done|].
    intros [? [r ->]]%He. exists false, ds, r. by split_and!.
Qed.

Lemma parse_int_ok ds r st v delim :
  digits_ok ds -> numeric delim = false -> 0 <= v -> dec_from v ds <= int64_max ->
  parse_int (ds ++ delim :: r) st delim v = (delim :: r, st + zlen ds, dec_from v ds, no_error).
Proof.
  intros Hds Hdelim. revert st v. induction Hds as [|c ds Hc Hds IH]; intros st v Hv Hmax.
  - simpl. rewrite Z.eqb_refl. zpair.
  - cbn [app parse_int]. destruct (Z.eqb_spec c delim) as [->|_]; [congruence|].
    rewrite Hc. simpl negb. cbv iota. pose proof (proj1 (numeric_spec c) Hc) as Hc'.
    change (dec_from v (c :: ds)) with (dec_from (v * 10 + (c - 48)) ds) in *.
    pose proof (dec_from_ge ds (v * 10 + (c - 48)) Hds ltac:(lia)) as Hge.
    rewrite (proj2 (Z.ltb_ge _ _)) by (apply Z.div_le_lower_bound; lia).
    rewrite (proj2 (Z.ltb_ge _ _)) by lia.
    rewrite IH by lia. zpair.
Qed.

Lemma parse_int_inv l st v delim l' st' v' e :
  parse_int l st delim v = (l', st', v', e) -> 0 <= v -> v <= int64_max ->
  exists ds, l = ds ++ l' /\ digits_ok ds /\ st' = st + zlen ds /\
    (e = no_error -> v' = dec_from v ds /\ v' <= int64_max /\ (l' = [] \/ exists r, l' = delim :: r)).
Proof.
  revert st v. induction l as [|c l IH]; intros st v H Hv Hmax; simpl in H.
  - simplify_eq. exists []. split_and!; try done; [by constructor|simpl; lia|]. eauto.
  - destruct (Z.eqb_spec c delim) as [->|Hne]; simplify_eq.
    { exists []. split_and!; try done; [by constructor|simpl; lia|]. eauto. }
    destruct (numeric c) eqn:Hc; simpl in H; simplify_eq.
    2: { exists []. split_and!; try done; [by constructor|simpl; lia]. }
    destruct (Z.ltb_spec (int64_max / 10) v); simplify_eq.
    { exists []. split_and!; try done; [by constructor|simpl; lia]. }
    destruct (Z.ltb_spec (int64_max - (c - 48)) (v * 10)); simplify_eq.
    { exists []. split_and!; try done; [by constructor|simpl; lia]. }
    pose proof (proj1 (numeric_spec c) Hc).
    destruct (IH _ _ H ltac:(lia) ltac:(lia)) as (ds & -> & ? & -> & He).
    exists (c :: ds). split_and!; [done|by constructor|zlia|]. done.
Qed.

(** ** Bit fields hold every offset of an accepted buffer *)

Lemma mk_token_small off t : 0 <= off <= max_offset -> mk_token off t = Tok off t 0 0.
Proof. unfold max_offset, mk_token. intros. rewrite Z.mod_small by lia. done. Qed.

Lemma mk_token_end_small off t n :
  0 <= off <= max_offset -> 0 <= n <= max_next_item -> t <> t_string -> forall h,
  mk_token_next off n t h = Tok off t n 0.
Proof.
  unfold max_offset, max_next_item, mk_token_next. intros.
  rewrite !Z.mod_small by lia. by rewrite decide_False.
Qed.

Lemma mk_token_string_small off h :
  0 <= off <= max_offset -> 2 <= h <= 9 ->
  mk_token_next off 1 t_string h = Tok off t_string 1 (h - 2).
Proof.
  unfold max_offset, mk_token_next. intros. rewrite decide_True by done.
  rewrite (Z.mod_small h) by lia. rewrite (Z.mod_small (h - 2)) by lia.
  rewrite !Z.mod_small by lia. done.
Qed.

(** ** Partial parses *)

Lemma ctx_bytes_add f t o : ctx_bytes (add_item f t :: o) = ctx_bytes (f :: o) ++ unparse t.
Proof. simpl. rewrite flat_map_app. simpl. by rewrite app_nil_r, <- app_assoc. Qed.

Lemma ctx_tokens_add f t o :
  ctx_tokens (add_item f t :: o) =
  ctx_tokens (f :: o) ++ tokens_of (zlen (ctx_bytes (f :: o))) t.
Proof.
  simpl. rewrite tokens_of_list_app, <- app_assoc. simpl. rewrite app_nil_r.
  do 5 f_equal. zlia.
Qed.

Lemma ctx_stack_add f t o : ctx_stack (add_item f t :: o) = outer_stack (f :: o).
Proof. simpl. rewrite length_app. simpl. by rewrite Nat.add_comm. Qed.

(** The state after a complete item was read at the partial parse [c]. *)
Definition after (c : list ctx_frame) (t : bt) (rest : list Z) (lim : Z) : outcome :=
  let s := PState rest (zlen (ctx_bytes c ++ unparse t))
             (ctx_tokens c ++ tokens_of (zlen (ctx_bytes c)) t) (outer_stack c) lim in
  match c with [] => Break s | _ :: _ => Next s end.

Lemma after_cons f o t rest lim :
  after (f :: o) t rest lim = Next (state_of (add_item f t :: o) rest lim).
Proof.
  unfold after, state_of. by rewrite ctx_bytes_add, ctx_tokens_add, ctx_stack_add.
Qed.

Lemma length_ctx_stack c : length (ctx_stack c) = length c.
Proof.
  assert (length (outer_stack c) = length c) as H by (induction c; simpl; congruence).
  destruct c; [done|]. simpl in *. congruence.
Qed.

Lemma length_outer_stack c : length (outer_stack c) = length c.
Proof. induction c; simpl; congruence. Qed.

Lemma frame_is_dict_ctx f o n x :
  frame_is_dict (ctx_tokens (f :: o) ++ x) (ctx_frame_of o (cf_kind f) n) = Some (is_dict (cf_kind f)).
Proof.
  unfold frame_is_dict. cbn [ctx_tokens ctx_frame_of fr_token].
  rewrite <- app_assoc. cbn [app]. rewrite zget_mid by done. by destruct (cf_kind f).
Qed.

Lemma frame_is_dict_top k kids o n :
  frame_is_dict (ctx_tokens (CF k kids :: o)) (ctx_frame_of o k n) = Some (is_dict k).
Proof. rewrite <- (app_nil_r (ctx_tokens _)). apply (frame_is_dict_ctx (CF k kids)). Qed.

Lemma flip_state_ctx k o n :
  (if is_dict k then flip_state (ctx_frame_of o k n) else ctx_frame_of o k n) =
  ctx_frame_of o k (S n).
Proof.
  unfold flip_state, ctx_frame_of. cbn [fr_token fr_state].
  rewrite Nat.odd_succ, <- Nat.negb_odd. by destruct k; simpl.
Qed.

Lemma flip_leaf c x :
  flip_current (length (ctx_stack c)) (ctx_tokens c ++ x) (ctx_stack c) = Some (outer_stack c).
Proof.
  unfold flip_current. destruct c as [|f o]; [done|].
  rewrite decide_False by done. rewrite decide_False by lia. rewrite Nat.sub_diag.
  cbn [ctx_stack lookup list_lookup mbind option_bind]. rewrite frame_is_dict_ctx.
  cbn [mbind option_bind outer_stack]. rewrite <- flip_state_ctx.
  by destruct (is_dict (cf_kind f)).
Qed.

Lemma flip_open c fr x :
  flip_current (length (ctx_stack c)) (ctx_tokens c ++ x) (fr :: ctx_stack c) =
  Some (fr :: outer_stack c).
Proof.
  unfold flip_current. destruct c as [|f o]; [done|].
  rewrite decide_False by done. rewrite decide_False by (simpl; lia).
  replace (length (fr :: ctx_stack (f :: o)) - length (ctx_stack (f :: o)))%nat with 1%nat
    by (simpl; lia).
  cbn [ctx_stack lookup list_lookup mbind option_bind]. rewrite frame_is_dict_ctx.
  cbn [mbind option_bind outer_stack]. rewrite <- flip_state_ctx.
  by destruct (is_dict (cf_kind f)).
Qed.

Lemma flip_close n stk toks : (length stk < n)%nat -> flip_current n toks stk = Some stk.
Proof.
  intros. unfold flip_current. rewrite decide_False by lia. by rewrite decide_True.
Qed.

(** ** The check before the [switch] *)

(** A dictionary key is expected inside [c]. *)
Definition at_key (c : list ctx_frame) : bool :=
  match c with
  | [] => false
  | f :: _ => is_dict (cf_kind f) && Nat.even (length (cf_kids f))
  end.

Lemma key_check_ctx t c :
  key_check t (ctx_tokens c) (ctx_stack c) = Some (negb (at_key c) || numeric t || (t =? ch_e)).
Proof.
  destruct c as [|f o]; [done|].
  unfold key_check. cbn [ctx_stack].
  rewrite <- (app_nil_r (ctx_tokens (f :: o))), frame_is_dict_ctx.
  cbn [mbind option_bind ctx_frame_of fr_state at_key].
  rewrite <- Nat.negb_odd. f_equal. by destruct (is_dict _), (Nat.odd _).
Qed.

(** ** Steps on input that continues correctly *)

(** What every step needs: room for another level and another token, and a
    buffer that fits the offsets. *)
Record can_step (dl : Z) (c : list ctx_frame) (l : list Z) (lim : Z) : Prop := {
  cs_depth : zlen c < dl;
  cs_limit : 0 < lim;
  cs_offset : zlen (ctx_bytes c) + zlen l <= max_offset;
}.

Lemma step_state dl c t rest lim :
  can_step dl c (t :: rest) lim -> at_key c = false \/ numeric t = true \/ t = ch_e ->
  step dl (state_of c (t :: rest) lim) =
  match parse_item t (t :: rest) rest (zlen (ctx_bytes c)) (ctx_tokens c) (ctx_stack c) with
  | IStuck => Stuck
  | IFail e pos start l toks => Fail e pos (PState l start toks (ctx_stack c) (lim - 1))
  | IOk l start toks stk =>
      match flip_current (length (ctx_stack c)) toks stk with
      | None => Stuck
      | Some stk =>
          let s := PState l start toks stk (lim - 1) in
          match stk with [] => Break s | _ :: _ => Next s end
      end
  end.
Proof.
  intros [Hd Hl _] Hk. unfold step, state_of.
  rewrite (proj2 (Z.leb_gt _ _)) by (rewrite length_ctx_stack; lia).
  rewrite (proj2 (Z.eqb_neq _ _)) by lia.
  cbv zeta. rewrite (proj2 (Z.ltb_ge _ _)) by lia.
  rewrite key_check_ctx.
  assert (negb (at_key c) || numeric t || (t =? ch_e) = true) as ->; [|done].
  destruct Hk as [->|[->| ->]]; simpl; by rewrite ?orb_true_r.
Qed.

Lemma step_open dl k c rest lim :
  can_step dl c (kind_char k :: rest) lim -> at_key c = false ->
  step dl (state_of c (kind_char k :: rest) lim) =
  Next (PState rest (zlen (ctx_bytes (CF k [] :: c))) (ctx_tokens (CF k [] :: c))
          (ctx_stack (CF k [] :: c)) (lim - 1)).
Proof.
  intros Hc Hk. rewrite step_state by auto.
  assert (parse_item (kind_char k) (kind_char k :: rest) rest (zlen (ctx_bytes c)) (ctx_tokens c)
            (ctx_stack c) =
          IOk rest (zlen (ctx_bytes c) + 1) (ctx_tokens c ++ [mk_token (zlen (ctx_bytes c)) (kind_tok k)])
            (Frame (zlen (ctx_tokens c)) false :: ctx_stack c)) as -> by by destruct k.
  destruct Hc as [_ _ Ho]. rewrite zlen_cons in Ho.
  rewrite mk_token_small by lia. rewrite flip_open. cbn [ctx_stack cf_kids cf_kind].
  unfold ctx_frame_of. rewrite andb_false_r. do 2 f_equal.
  simpl. zlia.
Qed.

Lemma parse_item_leaf_int neg ds c rest :
  bt_wf (BInt neg ds) ->
  zlen (ctx_bytes c) + zlen (unparse (BInt neg ds)) <= max_offset ->
  exists t l, unparse (BInt neg ds) ++ rest = t :: l /\ numeric t = is_str (BInt neg ds) /\
  parse_item t (t :: l) l (zlen (ctx_bytes c)) (ctx_tokens c) (ctx_stack c) =
  IOk rest (zlen (ctx_bytes c ++ unparse (BInt neg ds)))
    (ctx_tokens c ++ tokens_of (zlen (ctx_bytes c)) (BInt neg ds)) (ctx_stack c).
Proof.
  intros (Hne & Hds & H20) Ho. exists ch_i, (sign_chars neg ++ ds ++ ch_e :: rest).
  split; [cbn [unparse app]; by rewrite <- !app_assoc|]. split; [done|].
  unfold parse_item. simpl Z.eqb. cbv iota. unfold item_int.
  rewrite check_integer_ok by done.
  rewrite decide_True by done. rewrite mk_token_end_small; [|zlia|done|done].
  f_equal. cbn [unparse]. zlia.
Qed.

Lemma parse_item_leaf_str p s c rest :
  bt_wf (BStr p s) -> s ++ rest <> [] ->
  zlen (ctx_bytes c) + zlen (unparse (BStr p s)) <= max_offset ->
  exists t l, unparse (BStr p s) ++ rest = t :: l /\ numeric t = is_str (BStr p s) /\
  parse_item t (t :: l) l (zlen (ctx_bytes c)) (ctx_tokens c) (ctx_stack c) =
  IOk rest (zlen (ctx_bytes c ++ unparse (BStr p s)))
    (ctx_tokens c ++ tokens_of (zlen (ctx_bytes c)) (BStr p s)) (ctx_stack c).
Proof.
  intros (Hne & Hds & H8 & Hval) Hrest Ho. destruct p as [|t p]; [done|].
  inversion Hds as [|? ? Ht Hp]; subst. cbn [unparse] in *.
  exists t, (p ++ ch_colon :: s ++ rest). split; [by rewrite <- app_assoc|]. split; [done|].
  pose proof (proj1 (numeric_spec t) Ht) as Ht'. unfold parse_item.
  do 4 match goal with |- context [?a =? ?b] => destruct (Z.eqb_spec a b); [lia|] end.
  unfold item_string. rewrite Ht. cbn [negb].
  assert (exists x y, p ++ ch_colon :: s ++ rest = x :: y) as (x & y & Hxy)
    by (destruct p; simpl; eauto).
  rewrite Hxy, <- Hxy. change (dec_from 0 (t :: p)) with (dec_from (t - 48) p) in Hval.
  autorewrite with zlen in *. simpl length in *. unfold max_offset, int64_max in *.
  rewrite parse_int_ok; [|done|done|lia|unfold int64_max; lia].
  rewrite Hval. cbn [negb bool_decide decide_rel]. rewrite bool_decide_true by done.
  cbn [negb]. autorewrite with zlen.
  rewrite (proj2 (Z.ltb_ge _ _)) by lia. rewrite (proj2 (Z.ltb_ge _ _)) by lia.
  destruct (s ++ rest) as [|b q] eqn:Hq; [done|]. rewrite <- Hq.
  rewrite (proj2 (Z.ltb_ge _ _)) by (unfold max_header; lia).
  rewrite mk_token_string_small by (unfold max_offset; lia).
  rewrite Nat2Z.id, drop_app_length. cbn [tokens_of]. f_equal; [zlia|].
  do 3 f_equal. zlia.
Qed.

(** A leaf of the tree is read in one iteration.  The empty string is accepted
    only when the buffer goes on after its colon. *)
Lemma step_leaf dl t c rest lim :
  bt_wf t -> (forall k kids, t <> BSeq k kids) -> (forall p, t = BStr p [] -> rest <> []) ->
  can_step dl c (unparse t ++ rest) lim -> at_key c = false \/ is_str t = true ->
  step dl (state_of c (unparse t ++ rest) lim) = after c t rest (lim - 1).
Proof.
  intros Hwf Hleaf Hrest Hc Hk.
  assert (zlen (ctx_bytes c) + zlen (unparse t) <= max_offset) as Ho
    by (destruct Hc as [_ _ ?]; zlia).
  assert (exists b l, unparse t ++ rest = b :: l /\ numeric b = is_str t /\
    parse_item b (b :: l) l (zlen (ctx_bytes c)) (ctx_tokens c) (ctx_stack c) =
    IOk rest (zlen (ctx_bytes c ++ unparse t))
      (ctx_tokens c ++ tokens_of (zlen (ctx_bytes c)) t) (ctx_stack c))
    as (b & l & Heq & Hb & Hitem).
  { destruct t as [neg ds|p s|k kids]; [by apply parse_item_leaf_int| |by destruct (Hleaf k kids)].
    apply parse_item_leaf_str; try done. destruct s; [|done]. simpl. by eapply Hrest. }
  rewrite Heq in *. rewrite step_state; [|done|].
  2: { destruct Hk as [?|Hs]; [by left|]. right. left. congruence. }
  rewrite Hitem, flip_leaf. unfold after. by destruct c.
Qed.

(** The end of a container: its token is patched with the distance to the
    token that follows. *)
Lemma step_close dl k kids o rest lim :
  can_step dl (CF k kids :: o) (ch_e :: rest) lim ->
  zlen (ctx_tokens (CF k kids :: o)) <= zlen (ctx_bytes (CF k kids :: o)) ->
  (k = KDict -> Nat.even (length kids) = true) ->
  step dl (state_of (CF k kids :: o) (ch_e :: rest) lim) = after o (BSeq k kids) rest (lim - 1).
Proof.
  intros Hc Hsz Heven. rewrite step_state by auto.
  unfold parse_item. simpl Z.eqb. cbv iota. unfold item_end. cbn [ctx_stack cf_kids cf_kind].
  rewrite frame_is_dict_top.
  assert (is_dict k && fr_state (ctx_frame_of o k (length kids)) = false) as ->.
  { destruct k; [done|]. simpl. rewrite <- Nat.negb_even. by rewrite Heven. }
  destruct Hc as [_ _ Ho]. cbn [cf_kind cf_kids ctx_frame_of fr_token].
  rewrite mk_token_end_small; [|zlia|done|done].
  rewrite (proj2 (Z.ltb_ge _ _)).
  2: { unfold max_next_item, max_offset in *. zlia. }
  cbn [ctx_tokens]. rewrite <- app_assoc. cbn [app].
  rewrite zget_mid by done. cbn [tok_offset tok_type_of tok_header cf_kind cf_kids].
  rewrite zset_mid by done. rewrite flip_close by (simpl; lia).
  unfold after. rewrite tokens_of_seq.
  rewrite Z.mod_small by (unfold max_offset in *; cbn [ctx_tokens ctx_bytes cf_kind cf_kids] in *; zlia).
  cbn [unparse].
  replace (zlen (ctx_bytes (CF k kids :: o)) + 1)
    with (zlen (ctx_bytes o ++ kind_char k :: flat_map unparse kids ++ [ch_e])) by (simpl; zlia).
  match goal with |- context [Tok (zlen (ctx_bytes o)) (kind_tok k) ?n 0] =>
    replace n with (zlen (tokens_of_list (zlen (ctx_bytes o) + 1) kids) + 2) by zlia end.
  match goal with |- context [Tok ?n t_end 1 0] =>
    replace n with (zlen (ctx_bytes o) + 1 + zlen (flat_map unparse kids)) by (simpl; zlia) end.
  by destruct o.
Qed.
