(* ===== verification/BdecodeCorrect.v ===== *)
(** * Correctness of bdecode()

    [bdecode_accepts_iff]: [bdecode] succeeds exactly on the buffers that start
    with a tree of [bt_wf] within its limits, and then leaves the tokens of that
    tree.  [bdecode_total]: on every buffer it returns, without an access
    outside its vectors, and what it leaves is the tokens of the partial parse
    it had reached, closed by [unwind]. *)

From stdpp Require Import base list numbers.
From Stdlib Require Import ZArith Lia.
From S2P Require Import Prelude Bdecode BdecodeSyntax BdecodeSpec.

(** ** Sizes *)

Lemma ntoks_le_bytes t : bt_wf t -> Z.of_nat (ntoks t) <= zlen (unparse t).
Proof.
  induction t as [| |k kids IH] using bt_ind'; [simpl; lia| |].
  - intros (Hne & _). destruct p; [done|]. simpl. lia.
  - intros [Hk _]%bt_wf_seq. cbn [ntoks unparse]. autorewrite with zlen.
    enough (Z.of_nat (list_sum (map ntoks kids)) <= zlen (flat_map unparse kids)) by (simpl; lia).
    induction kids as [|x l IHl]; simpl; [lia|].
    inversion IH; inversion Hk; subst. autorewrite with zlen. specialize (IHl ltac:(done) ltac:(done)).
    specialize (H1 ltac:(done)). lia.
Qed.

Lemma tokens_list_le_bytes l off :
  Forall bt_wf l -> zlen (tokens_of_list off l) <= zlen (flat_map unparse l).
Proof.
  intros Hl. revert off. induction Hl as [|t l Ht _ IH]; intros off; simpl; [lia|].
  autorewrite with zlen. rewrite length_tokens_of.
  pose proof (ntoks_le_bytes t Ht). specialize (IH (off + zlen (unparse t))). lia.
Qed.

Lemma outer_tokens_le_bytes c : Forall outer_wf c -> zlen (ctx_tokens c) <= zlen (ctx_bytes c).
Proof.
  induction 1 as [|[k kids] o [[Hk _] _] _ IH]; cbn [ctx_tokens ctx_bytes cf_kind cf_kids]; [done|].
  pose proof (tokens_list_le_bytes kids (zlen (ctx_bytes o) + 1) Hk). zlia.
Qed.

Lemma ctx_tokens_le_bytes c : ctx_wf c -> zlen (ctx_tokens c) <= zlen (ctx_bytes c).
Proof.
  destruct c as [|[k kids] o]; [done|]. intros [[Hk _] Ho]. cbn [ctx_tokens ctx_bytes cf_kind cf_kids].
  pose proof (tokens_list_le_bytes kids (zlen (ctx_bytes o) + 1) Hk).
  pose proof (outer_tokens_le_bytes o Ho). zlia.
Qed.

(** ** What one iteration does on any input *)

(** Every item read so far is nested within the depth limit. *)
Fixpoint depth_ok (dl : Z) (c : list ctx_frame) : Prop :=
  match c with
  | [] => True
  | f :: o => Forall (fun t => Z.of_nat (height t) + zlen o + 1 <= dl) (cf_kids f) /\ depth_ok dl o
  end.

Record parse_inv (dl : Z) (c : list ctx_frame) : Prop := {
  pi_wf : ctx_wf c;
  pi_depth : depth_ok dl c;
  pi_len : c = [] \/ zlen c <= dl;
}.

(** The tree is followed by something when it is an empty string. *)
Definition end_ok (t : bt) (rest : list Z) : Prop := forall p, t = BStr p [] -> rest <> [].

Inductive step_spec (dl : Z) (c : list ctx_frame) (l : list Z) (lim : Z) : outcome -> Prop :=
  | SNext c' l' :
      parse_inv dl c' -> ctx_bytes c' ++ l' = ctx_bytes c ++ l -> (length l' < length l)%nat ->
      zlen (ctx_tokens c') = zlen (ctx_tokens c) + 1 -> 0 <= lim - 1 ->
      step_spec dl c l lim (Next (state_of c' l' (lim - 1)))
  | SBreak t rest :
      bt_wf t -> end_ok t rest -> Z.of_nat (height t) <= dl ->
      Z.of_nat (ntoks t) = zlen (ctx_tokens c) + 1 -> 0 <= lim - 1 ->
      unparse t ++ rest = ctx_bytes c ++ l ->
      step_spec dl c l lim (Break (PState rest (zlen (unparse t)) (tokens_of 0 t) [] (lim - 1)))
  | SFail e pos start rest lim' :
      e <> no_error -> 0 <= pos <= zlen (ctx_bytes c) + zlen l ->
      zlen (ctx_bytes c) <= start <= zlen (ctx_bytes c) + zlen l ->
      step_spec dl c l lim (Fail e pos (PState rest start (ctx_tokens c) (ctx_stack c) lim')).

Lemma outer_not_key f o : outer_wf f -> at_key (f :: o) = false.
Proof.
  intros [_ H]. unfold at_key. destruct (cf_kind f); [done|]. simpl.
  rewrite <- Nat.negb_odd. by rewrite H.
Qed.

Lemma add_item_wf f o t :
  ctx_wf (f :: o) -> bt_wf t -> at_key (f :: o) = false \/ is_str t = true ->
  ctx_wf (add_item f t :: o).
Proof.
  intros [[Hk Hkeys] Ho] Ht Hor. split; [|done]. split; simpl.
  - apply Forall_app. split; [done|]. by repeat constructor.
  - intros Hd. rewrite keys_ok_app, (Hkeys Hd). simpl. 
    destruct Hor as [Ha| ->]; [|by rewrite orb_true_r].
    unfold at_key in Ha. rewrite Hd in Ha. simpl in Ha.
    rewrite <- Nat.negb_even, Ha. done.
Qed.

(** The item [t], read at [o] from the bytes [l] of the partial parse [c]. *)
Lemma after_spec dl o t rest c l lim :
  (ctx_wf o \/ Forall outer_wf o) -> depth_ok dl o -> o = [] \/ zlen o <= dl -> bt_wf t -> end_ok t rest ->
  Z.of_nat (height t) + zlen o <= dl -> 0 < lim ->
  (forall f o', o = f :: o' -> at_key o = false \/ is_str t = true) ->
  ctx_bytes o ++ unparse t ++ rest = ctx_bytes c ++ l -> (length rest < length l)%nat ->
  zlen (ctx_tokens o) + Z.of_nat (ntoks t) = zlen (ctx_tokens c) + 1 ->
  step_spec dl c l lim (after o t rest (lim - 1)).
Proof.
  intros Hwf Hd Hdl Ht He Hh Hlim Hk Heq Hlen Hn. destruct o as [|f o].
  - unfold after. simpl. apply SBreak; try done; simpl in *; lia.
  - rewrite after_cons. apply SNext; [split| |done| |].
    + apply add_item_wf; [|done|by eapply Hk].
      destruct Hwf as [?|[Hf Ho]%Forall_cons_1]; [done|]. by split; [apply Hf|].
    + destruct Hd as [Hkids Ho]. split; [|done]. apply Forall_app. split; [done|].
      repeat constructor. autorewrite with zlen in Hh. lia.
    + right. destruct Hdl; [done|]. zlia.
    + by rewrite ctx_bytes_add, <- app_assoc.
    + rewrite ctx_tokens_add, zlen_app, length_tokens_of. lia.
    + lia.
Qed.

(** How the bytes at the current position continue the partial parse. *)
Inductive item_spec (c : list ctx_frame) (b : Z) (rest : list Z) : Prop :=
  | IOpen k : b = kind_char k -> at_key c = false -> item_spec c b rest
  | IClose k kids o :
      b = ch_e -> c = CF k kids :: o -> (k = KDict -> Nat.even (length kids) = true) ->
      item_spec c b rest
  | ILeaf t r :
      (forall k kids, t <> BSeq k kids) -> bt_wf t -> end_ok t r -> b :: rest = unparse t ++ r ->
      at_key c = false \/ is_str t = true -> item_spec c b rest
  | IError e pos start l' :
      e <> no_error -> 0 <= pos <= zlen (ctx_bytes c) + zlen (b :: rest) ->
      zlen (ctx_bytes c) <= start <= zlen (ctx_bytes c) + zlen (b :: rest) ->
      parse_item b (b :: rest) rest (zlen (ctx_bytes c)) (ctx_tokens c) (ctx_stack c) =
      IFail e pos start l' (ctx_tokens c) ->
      item_spec c b rest.

(** Closes a case in which the parser has failed, by [IError]. *)
Ltac fail_item H := eapply H; [| | |reflexivity]; [done|zlia|zlia].

Lemma item_int_cases c rest :
  zlen (ctx_bytes c) + zlen (ch_i :: rest) <= max_offset -> at_key c = false ->
  item_spec c ch_i rest.
Proof.
  intros Ho Hk. destruct (check_integer rest (zlen (ctx_bytes c) + 1)) as [[l1 st1] e] eqn:Hc.
  destruct (check_integer_inv _ _ _ _ _ Hc) as (p & Hrest & Hst & He).
  destruct (decide (e = no_error)) as [->|Hne].
  - destruct He as (neg & ds & r & -> & -> & Hds0 & Hds & H20); [done|].
    eapply (ILeaf c _ _ (BInt neg ds) r); try done.
    + rewrite Hrest. cbn [unparse app]. by rewrite <- !app_assoc.
    + by left.
  - eapply (IError c _ _ e st1 (zlen (ctx_bytes c)) (ch_i :: rest)); [done| | |].
    + subst. zlia.
    + zlia.
    + unfold parse_item. simpl Z.eqb. cbv iota. unfold item_int. rewrite Hc.
      by rewrite decide_False.
Qed.

Lemma item_string_cases c b rest :
  zlen (ctx_bytes c) + zlen (b :: rest) <= max_offset ->
  at_key c = false \/ numeric b = true -> b <> ch_d -> b <> ch_l -> b <> ch_i -> b <> ch_e ->
  item_spec c b rest.
Proof.
  intros Ho Hk H1 H2 H3 H4.
  assert (parse_item b (b :: rest) rest (zlen (ctx_bytes c)) (ctx_tokens c) (ctx_stack c) =
          item_string b (b :: rest) rest (zlen (ctx_bytes c)) (ctx_tokens c) (ctx_stack c)) as Heq.
  { unfold parse_item.
    by do 4 match goal with |- context [?a =? ?b] => destruct (Z.eqb_spec a b); [done|] end. }
  pose proof (IError c b rest) as Herr. rewrite Heq in Herr. unfold item_string in Herr.
  destruct (numeric b) eqn:Hb; simpl negb in Herr; cbv iota in Herr.
  2: { fail_item Herr. }
  destruct rest as [|b1 rest]; [fail_item Herr|].
  pose proof (proj1 (numeric_spec b) Hb).
  destruct (parse_int (b1 :: rest) (zlen (ctx_bytes c) + 1) ch_colon (b - 48)) as [[[l1 st1] len] e] eqn:Hp.
  destruct (parse_int_inv _ _ _ _ _ _ _ _ Hp ltac:(lia) ltac:(unfold int64_max; lia))
    as (ds & Hrest & Hds & -> & He).
  rewrite Hrest in Ho, Herr |- *. autorewrite with zlen in Ho.
  destruct (decide (e = no_error)) as [->|Hne].
  2: { rewrite bool_decide_false in Herr by done. fail_item Herr. }
  rewrite bool_decide_true in Herr by done. simpl negb in Herr. cbv iota in Herr.
  destruct He as (Hlen & Hmax & [->|[r ->]]); [done|..].
  { fail_item Herr. }
  autorewrite with zlen in *.
  destruct (Z.ltb_spec (1 + zlen r - 1) len) as [|Hle]; [fail_item Herr|].
  destruct (Z.ltb_spec len 0) as [|Hpos]; [fail_item Herr|].
  destruct r as [|b2 r]; [fail_item Herr|].
  destruct (Z.ltb_spec max_header (zlen (ctx_bytes c) + 1 + zlen ds + 1 - zlen (ctx_bytes c) - 2))
    as [|Hhdr]; [fail_item Herr|]. clear Herr.
  unfold max_header in Hhdr. autorewrite with zlen in *.
  eapply (ILeaf c b _ (BStr (b :: ds) (take (Z.to_nat len) (b2 :: r))) (drop (Z.to_nat len) (b2 :: r))).
  - done.
  - split_and!; [done|by constructor|autorewrite with zlen; lia|].
    change (dec_from 0 (b :: ds)) with (dec_from (b - 48) ds). rewrite <- Hlen.
    rewrite length_take_le; [lia|]. simpl. lia.
  - intros p [= _ Hs]. apply (f_equal length) in Hs. rewrite length_take in Hs. simpl length in Hs.
    assert (Z.to_nat len = 0%nat) as -> by lia. done.
  - cbn [unparse]. rewrite <- app_assoc. cbn [app]. by rewrite take_drop.
  - destruct Hk as [?|?]; [by left|by right].
Qed.

Lemma item_cases c b rest :
  ctx_wf c -> zlen (ctx_bytes c) + zlen (b :: rest) <= max_offset ->
  negb (at_key c) || numeric b || (b =? ch_e) = true -> item_spec c b rest.
Proof.
  intros Hwf Ho Hk.
  assert (b <> ch_e -> at_key c = false \/ numeric b = true) as Hk'.
  { intros Hb. destruct (Z.eqb_spec b 101); [done|]. rewrite orb_false_r in Hk.
    apply orb_true_iff in Hk as [?%negb_true_iff|?]; auto. }
  assert (forall ch, b = ch -> ch <> ch_e -> numeric ch = false -> at_key c = false) as Hk2.
  { intros ? -> Hne Hn. destruct (Hk' Hne) as [?|?]; [done|congruence]. }
  destruct (decide (b = ch_d)) as [->|]; [by apply (IOpen c _ _ KDict); eauto|].
  destruct (decide (b = ch_l)) as [->|]; [by apply (IOpen c _ _ KList); eauto|].
  destruct (decide (b = ch_i)) as [->|]; [by apply item_int_cases; eauto|].
  destruct (decide (b = ch_e)) as [->|]; [|by apply item_string_cases; auto].
  pose proof (IError c ch_e rest) as Herr. unfold parse_item in Herr. simpl Z.eqb in Herr.
  cbv iota in Herr. unfold item_end in Herr.
  destruct c as [|[k kids] o]; [fail_item Herr|].
  cbn [ctx_stack cf_kids cf_kind] in Herr. rewrite frame_is_dict_top in Herr.
  destruct (is_dict k && fr_state (ctx_frame_of o k (length kids))) eqn:Hst;
    [fail_item Herr|].
  eapply (IClose _ _ _ k kids o); [done..|]. intros ->. simpl in Hst.
  by rewrite <- Nat.negb_odd, Hst.
Qed.

Lemma can_step_intro dl c l lim :
  zlen (ctx_stack c) < dl -> 0 <= lim - 1 -> zlen (ctx_bytes c) + zlen l <= max_offset ->
  can_step dl c l lim.
Proof. rewrite length_ctx_stack. split; lia. Qed.

(** The tests at the start of an iteration fail, or leave a byte to read. *)
Lemma step_guards dl c l lim :
  lim <> - 2 ^ 31 -> zlen (ctx_bytes c) + zlen l <= max_offset ->
  step_spec dl c l lim (step dl (state_of c l lim)) \/
  exists b rest, l = b :: rest /\ can_step dl c l lim /\
    negb (at_key c) || numeric b || (b =? ch_e) = true.
Proof.
  intros Hlim Ho. unfold step, state_of.
  destruct l as [|b rest]; [by left; apply SFail; [done|simpl; lia..]|].
  destruct (Z.leb_spec dl (zlen (ctx_stack c))); [by left; apply SFail; [done|zlia..]|].
  rewrite (proj2 (Z.eqb_neq _ _)) by done. cbv zeta.
  destruct (Z.ltb_spec (lim - 1) 0); [by left; apply SFail; [done|zlia..]|].
  rewrite key_check_ctx.
  destruct (negb (at_key c) || numeric b || (b =? ch_e)) eqn:Hk;
    [|by left; apply SFail; [done|zlia..]].
  right. exists b, rest. by split_and!; [|apply can_step_intro|].
Qed.

Lemma step_inv dl c l lim :
  parse_inv dl c -> lim <> - 2 ^ 31 -> zlen (ctx_bytes c) + zlen l <= max_offset ->
  step_spec dl c l lim (step dl (state_of c l lim)).
Proof.
  intros [Hwf Hd Hlen] Hmin Ho.
  destruct (step_guards dl c l lim Hmin Ho) as [?|(b & rest & -> & Hcan & Hk)]; [done|].
  destruct (item_cases c b rest Hwf Ho Hk)
    as [k -> Hkey|k kids o -> -> Heven|t r Hleaf Ht He Hl Hkey|e pos start l' Hne Hpos Hst Hitem].
  - rewrite step_open by done.
    apply (SNext dl c _ lim (CF k [] :: c) rest); [split| | | |].
    + destruct c as [|f o]; [by split; [split; [by constructor|]|by constructor]|].
      destruct Hwf as [Hf Ho']. split; [by split; [constructor|]|]. constructor; [|done].
      split; [done|]. intros Hdict. unfold at_key in Hkey. rewrite Hdict in Hkey. simpl in Hkey.
      by rewrite <- Nat.negb_even, Hkey.
    + split; [by constructor|done].
    + right. destruct Hcan. zlia.
    + simpl. by rewrite <- app_assoc.
    + simpl. lia.
    + simpl. zlia.
    + destruct Hcan. lia.
  - destruct Hwf as [[Hkids Hkeys] Hout]. destruct Hd as [Hdk Hdo]. destruct Hcan as [Hcd ? ?].
    cbn [cf_kids cf_kind] in *.
    rewrite step_close; [|by split|by apply ctx_tokens_le_bytes; split|done].
    apply after_spec; [by right|done| |by apply bt_wf_seq; auto|by intros ?| |lia| | | |].
    + right. zlia.
    + assert (foldr (fun x m => Nat.max (height x) m) 1%nat kids <= Z.to_nat (dl - zlen o - 1))%nat.
      { clear -Hdk Hcd. autorewrite with zlen in Hcd.
        induction Hdk; simpl; lia. }
      simpl. autorewrite with zlen in Hcd. lia.
    + intros f o' ->. left. apply outer_not_key. by inversion Hout.
    + cbn [ctx_bytes unparse cf_kind cf_kids]. rewrite <- !app_assoc. simpl. by rewrite <- app_assoc.
    + simpl. lia.
    + rewrite <- (length_tokens_of _ (zlen (ctx_bytes o))), tokens_of_seq. simpl. rewrite !length_app. simpl. lia.
  - rewrite Hl. rewrite step_leaf; [|done|done|by apply He|by rewrite <- Hl|done].
    assert (ntoks t = 1%nat) as Hn1 by (destruct t; [done|done|by destruct (Hleaf k kids)]).
    assert (height t = 1%nat) as Hh1 by (destruct t; [done|done|by destruct (Hleaf k kids)]).
    pose proof Hcan as [? ? _]. apply after_spec; try done.
    + by left.
    + lia.
    + pose proof (ntoks_le_bytes t Ht). rewrite length_app. lia.
    + lia.
  - rewrite step_state; [|done|].
    + rewrite Hitem. by apply SFail.
    + rewrite !orb_true_iff, negb_true_iff, Z.eqb_eq in Hk. tauto.
Qed.

(** ** The loop *)

(** How the loop ends on the buffer [buf]. *)
Inductive loop_spec (dl tl : Z) (buf : list Z) : outcome -> Prop :=
  | LBreak t rest lim :
      bt_wf t -> end_ok t rest -> Z.of_nat (height t) <= dl -> Z.of_nat (ntoks t) <= tl ->
      buf = unparse t ++ rest ->
      loop_spec dl tl buf (Break (PState rest (zlen (unparse t)) (tokens_of 0 t) [] lim))
  | LFail c e pos start rest lim :
      parse_inv dl c -> zlen (ctx_tokens c) <= Z.max 0 tl ->
      (exists l, buf = ctx_bytes c ++ l) -> e <> no_error ->
      0 <= pos <= zlen buf -> zlen (ctx_bytes c) <= start <= zlen buf ->
      loop_spec dl tl buf (Fail e pos (PState rest start (ctx_tokens c) (ctx_stack c) lim)).

Lemma bdecode_loop_spec fuel dl tl buf c l :
  parse_inv dl c -> buf = ctx_bytes c ++ l -> zlen buf <= max_offset -> tl <> - 2 ^ 31 ->
  zlen (ctx_tokens c) <= Z.max 0 tl -> (length l < fuel)%nat ->
  loop_spec dl tl buf (bdecode_loop fuel dl (state_of c l (tl - zlen (ctx_tokens c)))).
Proof.
  revert c l. induction fuel as [|fuel IH]; intros c l Hinv Hbuf Ho Hmin Htl Hfuel; [lia|].
  cbn [bdecode_loop].
  assert (tl - zlen (ctx_tokens c) <> - 2 ^ 31) as Hmin' by lia.
  assert (zlen (ctx_bytes c) + zlen l <= max_offset) as Ho' by (subst buf; zlia).
  destruct (step_inv dl c l (tl - zlen (ctx_tokens c)) Hinv Hmin' Ho')
    as [c' l' Hinv' Hb Hl Hn Hlim|t rest Ht He Hh Hn Hlim Hb|e pos start rest lim' Hne Hpos Hst].
  - replace (tl - zlen (ctx_tokens c) - 1) with (tl - zlen (ctx_tokens c')) by lia.
    apply IH; [done|by rewrite Hb|done|done|lia|lia].
  - apply LBreak; try done; [lia|congruence].
  - apply LFail; try done; subst buf; [eauto|zlia|zlia].
Qed.

Lemma parse_inv_nil dl : parse_inv dl [].
Proof. split; [done..|by left]. Qed.

(** [bdecode] in terms of the end of its loop. *)
Lemma bdecode_spec buf dl tl :
  zlen buf <= max_offset -> tl <> - 2 ^ 31 ->
  exists o, loop_spec dl tl buf o /\
    bdecode buf dl tl =
    match o with
    | Break s => finish no_error 0 s
    | Fail e pos s => finish e pos s
    | Next _ | Stuck => None
    end.
Proof.
  intros Ho Hmin. unfold bdecode. rewrite (proj2 (Z.ltb_ge _ _)) by done.
  destruct buf as [|b buf].
  - exists (Fail unexpected_eof 0 (initial [] tl)). split; [|done].
    apply (LFail dl tl [] [] unexpected_eof 0 0 [] tl); try done; [apply parse_inv_nil|simpl; lia|by exists []].
  - eexists. split; [|reflexivity].
    replace (initial (b :: buf) tl) with (state_of [] (b :: buf) (tl - zlen (ctx_tokens [])))
      by (unfold state_of, initial; simpl; f_equal; lia).
    apply bdecode_loop_spec; [apply parse_inv_nil|done|done|done|simpl; lia|lia].
Qed.

(** ** Runs of the parser over a tree *)

Fixpoint run (n : nat) (dl : Z) (s : pstate) : outcome :=
  match n with
  | O => Next s
  | S n => match step dl s with Next s' => run n dl s' | o => o end
  end.

Lemma run_add n m dl s :
  run (n + m) dl s = match run n dl s with Next s' => run m dl s' | o => o end.
Proof. revert s. induction n as [|n IH]; intros s; simpl; [done|]. by destruct (step dl s). Qed.

Lemma run_loop n fuel dl s s' :
  run n dl s = Break s' -> (n <= fuel)%nat -> bdecode_loop fuel dl s = Break s'.
Proof.
  revert n s. induction fuel as [|fuel IH]; intros [|n] s H Hn; simpl in *; try done; [lia|].
  destruct (step dl s); try done. eapply IH; [done|lia].
Qed.

Definition item_runs (dl : Z) (t : bt) : Prop :=
  forall c rest lim,
    ctx_wf c -> end_ok t rest \/ rest <> [] -> at_key c = false \/ is_str t = true ->
    Z.of_nat (height t) + zlen c <= dl -> Z.of_nat (ntoks t) <= lim ->
    zlen (ctx_bytes c) + zlen (unparse t ++ rest) <= max_offset ->
    run (ntoks t) dl (state_of c (unparse t ++ rest) lim) = after c t rest (lim - Z.of_nat (ntoks t)).

(** The items of a container, from those in [ks] on. *)
Lemma kids_run dl k o kids ks rest lim :
  Forall (item_runs dl) kids -> Forall bt_wf kids -> ctx_wf (CF k ks :: o) ->
  (k = KDict -> keys_ok (Nat.odd (length ks)) kids = true) -> rest <> [] ->
  Forall (fun t => Z.of_nat (height t) + zlen o + 1 <= dl) kids ->
  Z.of_nat (list_sum (map ntoks kids)) <= lim ->
  zlen (ctx_bytes (CF k ks :: o)) + zlen (flat_map unparse kids ++ rest) <= max_offset ->
  run (list_sum (map ntoks kids)) dl (state_of (CF k ks :: o) (flat_map unparse kids ++ rest) lim) =
  Next (state_of (CF k (ks ++ kids) :: o) rest (lim - Z.of_nat (list_sum (map ntoks kids)))).
Proof.
  intros Hruns. revert ks lim.
  induction Hruns as [|t kids Ht _ IH]; intros ks lim Hwf Hc Hkeys Hrest Hd Hlim Hsz.
  { simpl. rewrite app_nil_r. do 2 f_equal. lia. }
  inversion Hwf; inversion Hd; subst. cbn [flat_map map] in *. change (list_sum (ntoks t :: ?l))
    with (ntoks t + list_sum l)%nat in *.
  rewrite <- app_assoc in Hsz |- *.
  assert (at_key (CF k ks :: o) = false \/ is_str t = true) as Hkey.
  { unfold at_key. cbn [cf_kind cf_kids]. destruct k; [by left|]. simpl.
    specialize (Hkeys eq_refl). simpl in Hkeys. apply andb_true_iff in Hkeys as [Hkeys _].
    apply orb_true_iff in Hkeys as [Hodd|?]; [|by right]. left. by rewrite <- Nat.negb_odd, Hodd. }
  rewrite run_add, Ht; [|done| |done|zlia|lia|done].
  2: { right. by intros [_ ?]%app_eq_nil. }
  rewrite after_cons. unfold add_item. cbn [cf_kind cf_kids].
  rewrite IH; [|done|by apply (add_item_wf (CF k ks) o t)| |done|done|lia|].
  - rewrite <- app_assoc. do 2 f_equal. lia.
  - intros Hk. specialize (Hkeys Hk). simpl in Hkeys. apply andb_true_iff in Hkeys as [_ Hkeys].
    rewrite length_app, Nat.add_comm. simpl length. by rewrite Nat.odd_succ, <- Nat.negb_odd.
  - pose proof (ctx_bytes_add (CF k ks) t o) as Hb. unfold add_item in Hb.
    cbn [cf_kind cf_kids] in Hb. rewrite Hb. zlia.
Qed.

Lemma not_key_outer c : ctx_wf c -> at_key c = false -> Forall outer_wf c.
Proof.
  destruct c as [|f o]; [by constructor|]. intros [Hf Ho] Hk. constructor; [|done].
  split; [done|]. intros Hd. unfold at_key in Hk. rewrite Hd in Hk. simpl in Hk.
  by rewrite <- Nat.negb_even, Hk.
Qed.

Lemma tree_runs dl t : bt_wf t -> item_runs dl t.
Proof.
  induction t as [neg ds|p s|k kids IH] using bt_ind';
    intros Hwf c rest lim Hc He Hkey Hd Hlim Ho.
  1,2: cbn [ntoks run]; rewrite step_leaf;
    [by unfold after; destruct c|done|done| | |done];
    [intros q Hq; destruct He as [He|?]; [by eapply He|done]|];
    split; [simpl in Hd; lia|simpl in Hlim; lia|done].
  destruct (proj1 (bt_wf_seq k kids) Hwf) as [Hkids Hdict].
  assert (at_key c = false) as Hkey' by (by destruct Hkey).
  pose proof (not_key_outer c Hc Hkey') as Hout.
  assert (Forall (fun t => Z.of_nat (height t) + zlen c + 1 <= dl) kids) as Hh.
  { apply Forall_forall. intros x Hx.
    enough (height x <= foldr (fun x m => Nat.max (height x) m) 1%nat kids)%nat by (simpl in Hd; lia).
    clear -Hx. induction kids as [|y l IHl]; [by inversion Hx|]. simpl.
    destruct Hx as [->|Hx]; [lia|]. specialize (IHl Hx). lia. }
  assert (2 + zlen c <= dl) as Hd2.
  { enough (1 <= foldr (fun x m => Nat.max (height x) m) 1%nat kids)%nat by (simpl in Hd; lia).
    clear. induction kids; simpl; lia. }
  cbn [ntoks unparse] in *. autorewrite with zlen in Ho.
  rewrite <- app_comm_cons, <- app_assoc. cbn [app].
  replace (S (S (list_sum (map ntoks kids)))) with (1 + (list_sum (map ntoks kids) + 1))%nat by lia.
  rewrite run_add. cbn [run]. rewrite step_open; [|split; zlia|done].
  change (PState ?r _ _ _ ?n) with (state_of (CF k [] :: c) r n).
  rewrite run_add, (kids_run dl k c kids []); try done.
  - cbn [run app]. rewrite step_close.
    + replace (lim - Z.of_nat _) with (lim - 1 - Z.of_nat (list_sum (map ntoks kids)) - 1) by lia.
      unfold after. by destruct c.
    + split; [zlia|zlia|]. cbn [ctx_bytes cf_kind cf_kids]. zlia.
    + apply ctx_tokens_le_bytes. split; [|done]. split; [done|]. intros Hk. by apply Hdict.
    + intros Hk. by apply Hdict.
  - rewrite Forall_forall in IH |- *. rewrite Forall_forall in Hkids. auto.
  - intros Hk. by apply Hdict.
  - lia.
  - cbn [ctx_bytes cf_kind cf_kids flat_map]. zlia.
Qed.

(** ** Soundness and completeness *)

Definition decodes_to (buf : list Z) (dl tl : Z) (toks : list bdecode_token) (n : Z) : Prop :=
  exists r, bdecode buf dl tl = Some r /\ bdecode_ret r = 0 /\
    br_tokens r = toks /\ br_buffer_size r = n.

(** No buffer is accepted with a limit that cannot be decremented. *)
Lemma no_limit buf dl toks n : ~ decodes_to buf dl (- 2 ^ 31) toks n.
Proof.
  intros (r & Hr & Hret & _). unfold bdecode in Hr. case_match; [by simplify_eq|].
  destruct buf as [|b buf]; [by injection Hr as <-|].
  cbn [bdecode_loop initial step] in Hr. rewrite Z.eqb_refl in Hr. destruct (dl <=? zlen _); [by injection Hr as <-|done].
Qed.

Lemma bdecode_sound buf dl tl toks n :
  zlen buf <= max_offset -> decodes_to buf dl tl toks n ->
  exists t rest, bt_wf t /\ buf = unparse t ++ rest /\ end_ok t rest /\
    Z.of_nat (height t) <= dl /\ Z.of_nat (ntoks t) <= tl /\
    toks = tokens_of 0 t ++ [Tok n t_end 0 0] /\ n = zlen (unparse t).
Proof.
  intros Ho Hdec. destruct (decide (tl = - 2 ^ 31)) as [->|Hmin]; [by apply no_limit in Hdec|].
  destruct Hdec as (r & Hr & Hret & <- & <-). destruct (bdecode_spec buf dl tl Ho Hmin) as (o & Hl & Heq).
  rewrite Heq in Hr. clear Heq. destruct Hl as [t rest lim Ht He Hh Hn ->|c e pos start rest lim].
  - unfold finish in Hr. simpl in Hr. simplify_eq. simpl. exists t, rest. split_and!; try done.
    rewrite mk_token_end_small; [done| |done|done]. zlia.
  - exfalso. unfold finish in Hr. destruct (unwind _ _ _); [|done]. simpl in Hr. simplify_eq.
    unfold bdecode_ret in Hret. simpl in Hret. by rewrite decide_False in Hret.
Qed.

Lemma bdecode_complete dl tl t rest :
  zlen (unparse t ++ rest) <= max_offset -> bt_wf t -> end_ok t rest ->
  Z.of_nat (height t) <= dl -> Z.of_nat (ntoks t) <= tl ->
  bdecode (unparse t ++ rest) dl tl =
  Some (BResult (tokens_of 0 t ++ [Tok (zlen (unparse t)) t_end 0 0]) (zlen (unparse t)) no_error 0).
Proof.
  intros Ho Ht He Hh Hn.
  pose proof (tree_runs dl t Ht [] rest tl I (or_introl He) (or_introl eq_refl)
                ltac:(simpl; lia) Hn ltac:(done)) as Hrun.
  unfold bdecode. rewrite (proj2 (Z.ltb_ge _ _)) by done.
  pose proof (ntoks_le_bytes t Ht) as Hle.
  assert (length (unparse t) <= length (unparse t ++ rest))%nat as Hlen by (rewrite length_app; lia).
  destruct (unparse_nonempty t Ht) as (b0 & l0 & Hne).
  remember (unparse t ++ rest) as buf eqn:Hbuf.
  destruct buf as [|b l]; [by rewrite Hne in Hbuf|].
  change (initial ?b ?n) with (state_of [] b n).
  erewrite run_loop; [|apply Hrun|lia].
  unfold after, finish. simpl.
  rewrite mk_token_end_small; [done| |done|done]. apply (f_equal length) in Hbuf.
  rewrite length_app in Hbuf. lia.
Qed.

(** ** Closing the open containers *)

Definition in_range (toks : list bdecode_token) (stk : list stack_frame) : Prop :=
  Forall (fun f => 0 <= fr_token f < zlen toks) stk.

Lemma in_range_mono toks toks' stk : zlen toks <= zlen toks' -> in_range toks stk -> in_range toks' stk.
Proof. intros Hle. induction 1; constructor; [lia|done]. Qed.

Lemma unwind_total stk start toks : in_range toks stk -> exists toks', unwind stk start toks = Some toks'.
Proof.
  revert toks. induction stk as [|f stk IH]; intros toks Hr; simpl; [by eexists|].
  inversion Hr as [|? ? Hf Hstk]; subst. unfold frame_is_dict.
  destruct (zget_is_Some toks (fr_token f) Hf) as [t Ht]. rewrite Ht. cbn [mbind option_bind].
  match goal with |- context [if ?b then ?a else toks] => set (toks1 := if b then a else toks) end.
  assert (zlen toks <= zlen toks1) as Hle by (unfold toks1; case_match; [rewrite zlen_app; simpl|]; lia).
  destruct (zget_is_Some toks1 (fr_token f)) as [u Hu]; [lia|]. rewrite Hu. cbn [mbind option_bind].
  unfold zset. rewrite decide_True by lia. cbn [mbind option_bind]. apply IH.
  eapply in_range_mono; [|exact Hstk]. rewrite zlen_app, length_insert. simpl. lia.
Qed.

Lemma outer_stack_in_range c : in_range (ctx_tokens c) (outer_stack c).
Proof.
  induction c as [|f c IH]; simpl; constructor.
  - simpl. rewrite zlen_app. simpl. lia.
  - eapply in_range_mono; [|exact IH]. rewrite zlen_app. lia.
Qed.

Lemma ctx_stack_in_range c : in_range (ctx_tokens c) (ctx_stack c).
Proof.
  destruct c as [|f c]; simpl; constructor.
  - simpl. rewrite zlen_app. simpl. lia.
  - eapply in_range_mono; [|apply outer_stack_in_range]. rewrite zlen_app. lia.
Qed.

Lemma finish_total e pos s :
  in_range (ps_tokens s) (ps_stack s) ->
  exists toks, finish e pos s = Some (BResult toks (ps_start s) e pos).
Proof.
  intros Hr. unfold finish. destruct (unwind_total _ (ps_start s) _ Hr) as [toks ->]. by eexists.
Qed.
