(* ===== verification/BdecodeNode.v ===== *)
(** * Nodes of a decoded tree (bdecode_node, bdecode.cpp and bdecode.hpp)

    A [bdecode_node] points into the token vector of the root node and into the
    parsed buffer.  Both pointers are the value they point to: the vector is not
    changed after the parse, and an index or an offset outside of it is [None].
    The members [m_last_index], [m_last_token] and [m_size] are the [mutable]
    cache of the source, so the functions that update it return the node too. *)

From Stdlib Require Import ZArith Lia.
From stdpp Require Import base list numbers.
From S2P Require Import Prelude Bdecode.

Record bdecode_node := BNode {
  m_tokens : list bdecode_token;
  m_root_tokens : list bdecode_token;
  m_buffer : list Z;
  m_buffer_size : Z;
  m_token_idx : Z;
  m_last_index : Z;
  m_last_token : Z;
  m_size : Z;
}.

(** ** Construction *)

Definition node_default : bdecode_node := BNode [] [] [] 0 (-1) (-1) (-1) (-1).

(** [bdecode_node(tokens, buf, len, idx)]: a node that does not own its tokens. *)
Definition node_at (tokens : list bdecode_token) (buf : list Z) (len idx : Z) : bdecode_node :=
  BNode [] tokens buf len idx (-1) (-1) (-1).

(** The root node that [bdecode] fills in. *)
Definition root_node (buf : list Z) (r : bdecode_result) : bdecode_node :=
  BNode (br_tokens r) (br_tokens r) buf (br_buffer_size r) 0 (-1) (-1) (-1).

(** [operator=]: the root of an owning node is its own copy of the tokens. *)
Definition node_assign (n : bdecode_node) : bdecode_node :=
  BNode (m_tokens n) (match m_tokens n with [] => m_root_tokens n | toks => toks end)
    (m_buffer n) (m_buffer_size n) (m_token_idx n) (m_last_index n) (m_last_token n) (m_size n).

Definition non_owning (n : bdecode_node) : bdecode_node :=
  match m_tokens n with
  | [] => node_assign n
  | toks => node_at toks (m_buffer n) (m_buffer_size n) (m_token_idx n)
  end.

Definition clear (n : bdecode_node) : bdecode_node :=
  BNode [] [] (m_buffer n) (m_buffer_size n) (-1) (-1) (-1) (-1).

Definition switch_underlying_buffer (n : bdecode_node) (buf : list Z) : bdecode_node :=
  match m_tokens n with
  | [] => n
  | _ => BNode (m_tokens n) (m_root_tokens n) buf (m_buffer_size n) (m_token_idx n)
           (m_last_index n) (m_last_token n) (m_size n)
  end.

Definition swap (n k : bdecode_node) : bdecode_node * bdecode_node := (k, n).

(** ** Queries *)

Definition tok_at (n : bdecode_node) (i : Z) : option bdecode_token := zget (m_root_tokens n) i.

(** [type()]; the two enumerations number their members alike. *)
Definition node_type (n : bdecode_node) : option tok_type :=
  if decide (m_token_idx n = -1) then Some t_none
  else t ← tok_at n (m_token_idx n); Some (tok_type_of t).

(** [operator bool()] *)
Definition node_bool (n : bdecode_node) : bool := negb (m_token_idx n =? -1).

(** [data_section()]: an offset into the buffer and a length. *)
Definition data_section (n : bdecode_node) : option (Z * Z) :=
  if decide (m_token_idx n = -1) then Some (0, 0)
  else
    t ← tok_at n (m_token_idx n);
    next ← tok_at n (m_token_idx n + tok_next_item t);
    Some (tok_offset t, tok_offset next - tok_offset t).

(** The bytes at [p, p + len) of the buffer. *)
Definition buf_range (n : bdecode_node) (p len : Z) : list Z :=
  take (Z.to_nat len) (drop (Z.to_nat p) (m_buffer n)).

Definition string_ptr (n : bdecode_node) : option Z :=
  t ← tok_at n (m_token_idx n); Some (tok_offset t + start_offset t).

Definition string_length (n : bdecode_node) : option Z :=
  t ← tok_at n (m_token_idx n);
  next ← tok_at n (m_token_idx n + 1);
  Some (tok_offset next - tok_offset t - start_offset t).

Definition string_value (n : bdecode_node) : option (list Z) :=
  p ← string_ptr n; size ← string_length n; Some (buf_range n p size).

Definition int_value (n : bdecode_node) : option Z :=
  t ← tok_at n (m_token_idx n);
  next ← tok_at n (m_token_idx n + 1);
  let size := tok_offset next - tok_offset t in
  (* +1 is to skip the 'i' *)
  let ptr := tok_offset t + 1 in
  c ← zget (m_buffer n) ptr;
  let negative := c =? ch_minus in
  let skip := if negative then 1 else 0 in
  let '(_, _, val, ec) := parse_int (buf_range n (ptr + skip) (size - skip)) 0 ch_e 0 in
  Some (if decide (ec = no_error) then (if negative then - val else val) else 0).

(** ** Lists *)

(** [n] rounds of [token += tokens[token].next_item]. *)
Fixpoint skip_items (toks : list bdecode_token) (n : nat) (token : Z) : option Z :=
  match n with
  | O => Some token
  | S n => t ← zget toks token; skip_items toks n (token + tok_next_item t)
  end.

(** [while (tokens[token].type != end)]: skip items and count them. *)
Fixpoint count_items (toks : list bdecode_token) (fuel : nat) (token ret : Z) : option Z :=
  match fuel with
  | O => None
  | S fuel =>
      t ← zget toks token;
      if decide (tok_type_of t = t_end) then Some ret
      else count_items toks fuel (token + tok_next_item t) (ret + 1)
  end.

Definition with_last (n : bdecode_node) (index token : Z) : bdecode_node :=
  BNode (m_tokens n) (m_root_tokens n) (m_buffer n) (m_buffer_size n) (m_token_idx n)
    index token (m_size n).

Definition with_size (n : bdecode_node) (size : Z) : bdecode_node :=
  BNode (m_tokens n) (m_root_tokens n) (m_buffer n) (m_buffer_size n) (m_token_idx n)
    (m_last_index n) (m_last_token n) size.

(** Where a lookup of index [i] starts: the token and its index. *)
Definition lookup_start (n : bdecode_node) (i : Z) : Z * Z :=
  if (m_last_index n <=? i) && negb (m_last_index n =? -1)
  then (m_last_token n, m_last_index n)
  else (m_token_idx n + 1, 0).

Definition child (n : bdecode_node) (token : Z) : bdecode_node :=
  node_at (m_root_tokens n) (m_buffer n) (m_buffer_size n) token.

(** [list_at(i)]: the node, and this node with its cache updated. *)
Definition list_at (n : bdecode_node) (i : Z) : option (bdecode_node * bdecode_node) :=
  let '(token, item) := lookup_start n i in
  token ← skip_items (m_root_tokens n) (Z.to_nat (i - item)) token;
  Some (child n token, with_last n i token).

Definition list_string_value_at (n : bdecode_node) (i : Z) (default_val : list Z)
  : option (list Z * bdecode_node) :=
  '(c, n) ← list_at n i;
  ty ← node_type c;
  if decide (ty = t_string) then v ← string_value c; Some (v, n) else Some (default_val, n).

Definition list_int_value_at (n : bdecode_node) (i default_val : Z) : option (Z * bdecode_node) :=
  '(c, n) ← list_at n i;
  ty ← node_type c;
  if decide (ty = t_integer) then v ← int_value c; Some (v, n) else Some (default_val, n).

Definition list_size (n : bdecode_node) : option (Z * bdecode_node) :=
  if negb (m_size n =? -1) then Some (m_size n, n)
  else
    let '(token, ret) :=
      if negb (m_last_index n =? -1) then (m_last_token n, m_last_index n)
      else (m_token_idx n + 1, 0) in
    ret ← count_items (m_root_tokens n) (S (length (m_root_tokens n))) token ret;
    Some (ret, with_size n ret).

(** ** Dictionaries *)

Definition dict_at (n : bdecode_node) (i : Z)
  : option ((list Z * bdecode_node) * bdecode_node) :=
  let '(token, item) := lookup_start n i in
  token ← skip_items (m_root_tokens n) (2 * Z.to_nat (i - item)) token;
  let n' := if 0 <? i then with_last n i token else n in
  t ← tok_at n token;
  key ← string_value (child n token);
  Some ((key, child n (token + tok_next_item t)), n').

Definition dict_size (n : bdecode_node) : option (Z * bdecode_node) :=
  if negb (m_size n =? -1) then Some (m_size n, n)
  else
    let '(token, ret) :=
      if negb (m_last_index n =? -1) then (m_last_token n, m_last_index n * 2)
      else (m_token_idx n + 1, 0) in
    ret ← count_items (m_root_tokens n) (S (length (m_root_tokens n))) token ret;
    let ret := Z.quot ret 2 in
    Some (ret, with_size n ret).

(** [string_equal(str1, str2, len2)]: [str1] is null-terminated and is given
    without its terminator. *)
Fixpoint string_equal (str1 str2 : list Z) (len2 : nat) {struct len2} : option bool :=
  match len2 with
  | O => Some (match str1 with [] => true | c :: _ => c =? 0 end)
  | S len2 =>
      let c1 := match str1 with [] => 0 | c :: _ => c end in
      match str2 with
      | [] => None
      | c2 :: str2 =>
          if negb (c1 =? c2) then Some false
          else if c1 =? 0 then Some false
          else string_equal (tail str1) str2 len2
      end
  end.

(** How a key of the buffer is compared with the one looked up: by length and
    [std::equal] for a [std::string], by [string_equal] for a C string.  [p] is
    the offset of the key's bytes and [size] their number. *)
Definition key_matches_str (n : bdecode_node) (key : list Z) (p size : Z) : option bool :=
  Some ((zlen key =? size) && bool_decide (key = buf_range n p size)).

Definition key_matches_cstr (n : bdecode_node) (key : list Z) (p size : Z) : option bool :=
  string_equal key (drop (Z.to_nat p) (m_buffer n)) (Z.to_nat size).

(** The loop of the two overloads of [dict_find]. *)
Fixpoint dict_find_loop (matches : Z -> Z -> option bool) (n : bdecode_node) (fuel : nat)
    (token : Z) : option bdecode_node :=
  match fuel with
  | O => None
  | S fuel =>
      t ← tok_at n token;
      if decide (tok_type_of t = t_end) then Some node_default
      else
        next ← tok_at n (token + 1);
        let size := tok_offset next - tok_offset t - start_offset t in
        m ← matches (tok_offset t + start_offset t) size;
        let token := token + tok_next_item t in
        if (m : bool) then Some (child n token)
        else
          v ← tok_at n token;
          dict_find_loop matches n fuel (token + tok_next_item v)
  end.

Definition dict_find (n : bdecode_node) (key : list Z) : option bdecode_node :=
  dict_find_loop (key_matches_str n key) n (S (length (m_root_tokens n))) (m_token_idx n + 1).

Definition dict_find_cstr (n : bdecode_node) (key : list Z) : option bdecode_node :=
  dict_find_loop (key_matches_cstr n key) n (S (length (m_root_tokens n))) (m_token_idx n + 1).

(** [dict_find_list], [dict_find_dict], [dict_find_string], [dict_find_int]:
    the node found when it has the type, else a default node. *)
Definition dict_find_typed (ty : tok_type) (n : bdecode_node) (key : list Z) : option bdecode_node :=
  ret ← dict_find_cstr n key;
  ty' ← node_type ret;
  if decide (ty' = ty) then Some ret else Some node_default.

Definition dict_find_list := dict_find_typed t_list.
Definition dict_find_dict := dict_find_typed t_dict.
Definition dict_find_string := dict_find_typed t_string.
Definition dict_find_int := dict_find_typed t_integer.

(** [dict_find_dict(std::string)] *)
Definition dict_find_dict_str (n : bdecode_node) (key : list Z) : option bdecode_node :=
  ret ← dict_find n key;
  ty' ← node_type ret;
  if decide (ty' = t_dict) then Some ret else Some node_default.

Definition dict_find_string_value (n : bdecode_node) (key default_value : list Z) : option (list Z) :=
  c ← dict_find_cstr n key;
  ty ← node_type c;
  if decide (ty = t_string) then string_value c else Some default_value.

Definition dict_find_int_value (n : bdecode_node) (key : list Z) (default_val : Z) : option Z :=
  c ← dict_find_cstr n key;
  ty ← node_type c;
  if decide (ty = t_integer) then int_value c else Some default_val.
