(* ===== verification/BdecodeNodeSpec.v ===== *)
(** * Navigation of a decoded tree

    [repr n t]: the node [n] stands for the tree [t].  The queries of
    bdecode_node return what the tree holds, whatever the lookups before them
    left in the node's cache ([cache_ok]). *)

From Stdlib Require Import ZArith Lia.
From stdpp Require Import base list numbers.
From S2P Require Import Prelude Bdecode BdecodeSyntax BdecodeSpec BdecodeCorrect BdecodeNode.

(** ** Abstraction *)

(** [n] stands for [t], whose bytes are at offset [off] of the buffer. *)
Record repr_at (n : bdecode_node) (off : Z) (t : bt) : Prop := {
  ra_next : exists nxt, occurs (m_root_tokens n) (m_token_idx n) (tokens_of off t ++ [nxt]) /\
    tok_offset nxt = off + zlen (unparse t);
  ra_bytes : occurs (m_buffer n) off (unparse t);
}.

(** A node of which nothing is cached. *)
Definition fresh (n : bdecode_node) : Prop := m_last_index n = -1 /\ m_size n = -1.

Definition repr (n : bdecode_node) (t : bt) : Prop := exists off, repr_at n off t /\ fresh n.

(** Items of a list count one by one, those of a dictionary in pairs. *)
Definition stride (k : seq_kind) : nat := match k with KList => 1 | KDict => 2 end.

(** The token of the item [j] of a container at offset [off]. *)
Definition item_token (n : bdecode_node) (off : Z) (k : seq_kind) (kids : list bt) (j : nat) : Z :=
  m_token_idx n + 1 + zlen (tokens_of_list (off + 1) (take (stride k * j) kids)).

Definition num_items (k : seq_kind) (kids : list bt) : Z := zlen kids / Z.of_nat (stride k).

(** What the cache may hold. *)
Record cache_ok (n : bdecode_node) (off : Z) (k : seq_kind) (kids : list bt) : Prop := {
  co_last : m_last_index n = -1 \/
    exists j, m_last_index n = Z.of_nat j /\ Z.of_nat j < num_items k kids /\
      m_last_token n = item_token n off k kids j;
  co_size : m_size n = -1 \/ m_size n = num_items k kids;
}.

(** The value of the first pair of a dictionary whose key is [key]. *)
Fixpoint find_key (key : list Z) (kids : list bt) : option bt :=
  match kids with
  | BStr _ s :: v :: l => if decide (s = key) then Some v else find_key key l
  | _ => None
  end.

(** The value of an integer's digits, and 0 when it is out of range. *)
Definition int_of (neg : bool) (ds : list Z) : Z :=
  if decide (dec_from 0 ds <= int64_max)
  then (if neg then - dec_from 0 ds else dec_from 0 ds) else 0.

(** ** Tokens *)

Lemma fresh_cache_ok n off k kids : fresh n -> cache_ok n off k kids.
Proof. intros [H1 H2]. split; by left. Qed.

Lemma repr_child n token off t : repr_at (child n token) off t -> repr (child n token) t.
Proof. intros H. exists off. by split; [|split]. Qed.

Lemma tokens_of_head off t :
  exists tok l, tokens_of off t = tok :: l /\ tok_offset tok = off /\
    tok_next_item tok = Z.of_nat (ntoks t) /\ tok_type_of tok <> t_end /\
    tok_type_of tok = match t with
                      | BInt _ _ => t_integer | BStr _ _ => t_string | BSeq k _ => kind_tok k end.
Proof.
  destruct t as [neg ds|p s|k kids]; [by repeat eexists..|].
  rewrite tokens_of_seq. eexists _, _. split; [reflexivity|]. simpl. split_and!; try done.
  - pose proof (length_tokens_of (BSeq k kids) off) as H. rewrite tokens_of_seq in H.
    simpl in H. rewrite length_app in H. simpl in H. lia.
  - by destruct k.
Qed.

Lemma length_tokens_of_list l o : (length l <= length (tokens_of_list o l))%nat.
Proof.
  revert o. induction l as [|x l IH]; intros o; simpl; [lia|].
  rewrite length_app, length_tokens_of. specialize (IH (o + zlen (unparse x))).
  pose proof (ntoks_pos x). lia.
Qed.

Lemma skip_items_occurs toks p o l :
  occurs toks p (tokens_of_list o l) ->
  skip_items toks (length l) p = Some (p + zlen (tokens_of_list o l)).
Proof.
  revert o p. induction l as [|x l IH]; intros o p H; [simpl; f_equal; lia|].
  cbn [length skip_items tokens_of_list] in *.
  pose proof (occurs_app_r _ _ _ _ H) as Hr.
  destruct (tokens_of_head o x) as (tok & tl & Htok & _ & Hnext & _).
  rewrite Htok in H. cbn [app] in H. rewrite (occurs_get _ _ _ _ H). cbn [mbind option_bind].
  rewrite Hnext, <- (length_tokens_of x o), (IH _ _ Hr). f_equal. zlia.
Qed.

Lemma count_items_occurs toks p o l e fuel ret :
  occurs toks p (tokens_of_list o l ++ [e]) -> tok_type_of e = t_end -> (length l < fuel)%nat ->
  count_items toks fuel p ret = Some (ret + zlen l).
Proof.
  intros H He. revert fuel o p ret H.
  induction l as [|x l IH]; intros [|fuel] o p ret H Hf; [simpl in Hf; lia| |simpl in Hf; lia|].
  - simpl in H |- *. rewrite (occurs_get _ _ _ _ H). simpl. rewrite decide_True by done.
    f_equal. lia.
  - cbn [count_items tokens_of_list] in *. rewrite <- app_assoc in H.
    pose proof (occurs_app_r _ _ _ _ H) as Hr.
    destruct (tokens_of_head o x) as (tok & tl & Htok & _ & Hnext & Hend & _).
    rewrite Htok in H. cbn [app] in H. rewrite (occurs_get _ _ _ _ H). cbn [mbind option_bind].
    rewrite decide_False by done. rewrite Hnext, <- (length_tokens_of x o).
    rewrite (IH _ _ _ _ Hr) by (simpl in Hf; lia). f_equal. zlia.
Qed.

Section container.
Context (n : bdecode_node) (off : Z) (k : seq_kind) (kids : list bt).
Hypothesis Hn : repr_at n off (BSeq k kids).

Lemma container_tokens :
  occurs (m_root_tokens n) (m_token_idx n + 1)
    (tokens_of_list (off + 1) kids ++ [Tok (off + 1 + zlen (flat_map unparse kids)) t_end 1 0]).
Proof.
  destruct Hn as [(nxt & H & _) _]. rewrite tokens_of_seq in H. cbn [app] in H.
  apply occurs_tail in H. by apply occurs_app_l in H.
Qed.

(** The tokens from the item [l2] on. *)
Lemma container_split l1 l2 :
  kids = l1 ++ l2 ->
  occurs (m_root_tokens n) (m_token_idx n + 1 + zlen (tokens_of_list (off + 1) l1))
    (tokens_of_list (off + 1 + zlen (flat_map unparse l1)) l2 ++
     [Tok (off + 1 + zlen (flat_map unparse kids)) t_end 1 0]).
Proof.
  intros Heq. pose proof container_tokens as H. rewrite Heq in H at 1.
  rewrite tokens_of_list_app, <- app_assoc in H. by apply occurs_app_r in H.
Qed.

Lemma container_bytes l1 l2 :
  kids = l1 ++ l2 ->
  occurs (m_buffer n) (off + 1 + zlen (flat_map unparse l1)) (flat_map unparse l2 ++ [ch_e]).
Proof.
  intros Heq. destruct Hn as [_ H]. cbn [unparse] in H. apply occurs_tail in H.
  rewrite Heq, flat_map_app, <- app_assoc in H. by apply occurs_app_r in H.
Qed.

Lemma child_repr l1 x l2 :
  kids = l1 ++ x :: l2 ->
  repr_at (child n (m_token_idx n + 1 + zlen (tokens_of_list (off + 1) l1)))
    (off + 1 + zlen (flat_map unparse l1)) x.
Proof.
  intros Heq. split.
  - pose proof (container_split _ _ Heq) as H. cbn [tokens_of_list] in H.
    unfold child, node_at. cbn [m_root_tokens m_token_idx].
    destruct l2 as [|y l2].
    + eexists. simpl in H. rewrite app_nil_r in H. split; [exact H|]. cbn [tok_offset].
      rewrite Heq, flat_map_app. simpl. rewrite app_nil_r. zlia.
    + cbn [tokens_of_list] in H.
      destruct (tokens_of_head (off + 1 + zlen (flat_map unparse l1) + zlen (unparse x)) y)
        as (tok & tl & Htok & Hoff & _).
      rewrite Htok in H. exists tok. split; [|done].
      rewrite <- !app_assoc in H. cbn [app] in H.
      rewrite cons_middle, app_assoc in H. by apply occurs_app_l in H.
  - pose proof (container_bytes _ _ Heq) as H. simpl in H. rewrite <- app_assoc in H.
    by apply occurs_app_l in H.
Qed.

Lemma skip_to_item d i :
  (d + i <= length kids)%nat ->
  skip_items (m_root_tokens n) i
    (m_token_idx n + 1 + zlen (tokens_of_list (off + 1) (take d kids))) =
  Some (m_token_idx n + 1 + zlen (tokens_of_list (off + 1) (take (d + i) kids))).
Proof.
  intros Hi. set (l1 := take d kids). set (l2 := take i (drop d kids)).
  assert (kids = l1 ++ l2 ++ drop (d + i) kids) as Heq.
  { unfold l1, l2. by rewrite <- drop_drop, !take_drop. }
  assert (take (d + i) kids = l1 ++ l2) as ->.
  { rewrite Heq at 1. rewrite app_assoc, take_app_length'; [done|].
    unfold l1, l2. rewrite length_app, !length_take, length_drop. lia. }
  pose proof (container_split _ _ Heq) as H.
  rewrite tokens_of_list_app, <- app_assoc in H. apply occurs_app_l in H.
  assert (length l2 = i) as Hlen by (unfold l2; rewrite length_take, length_drop; lia).
  rewrite <- Hlen, (skip_items_occurs _ _ _ _ H), tokens_of_list_app. f_equal. zlia.
Qed.
End container.

(** ** Leaves *)

Lemma leaf_tokens n off t tok :
  repr_at n off t -> tokens_of off t = [tok] ->
  exists nxt, tok_at n (m_token_idx n) = Some tok /\ tok_at n (m_token_idx n + 1) = Some nxt /\
    tok_offset nxt = off + zlen (unparse t).
Proof.
  intros [(nxt & H & Hoff) _] Ht. rewrite Ht in H. exists nxt. unfold tok_at.
  split; [by eapply occurs_get|]. split; [|done]. apply occurs_tail in H. by eapply occurs_get.
Qed.

Lemma string_node n off p s :
  repr_at n off (BStr p s) ->
  string_ptr n = Some (off + zlen p + 1) /\ string_length n = Some (zlen s) /\
  occurs (m_buffer n) (off + zlen p + 1) s.
Proof.
  intros H. destruct (leaf_tokens n off _ _ H eq_refl) as (nxt & H1 & H2 & H3).
  unfold string_ptr, string_length. rewrite H1, H2. cbn [mbind option_bind tok_offset start_offset tok_header].
  unfold start_offset. cbn [tok_header]. split_and!.
  - f_equal. lia.
  - f_equal. rewrite H3. cbn [unparse]. zlia.
  - destruct H as [_ H]. cbn [unparse] in H. apply occurs_app_r, occurs_tail in H.
    by replace (off + zlen p + 1) with (off + zlen p + 1) by lia.
Qed.

Lemma node_type_repr n off t :
  repr_at n off t ->
  node_type n = Some (match t with
                      | BInt _ _ => t_integer | BStr _ _ => t_string | BSeq k _ => kind_tok k end).
Proof.
  intros [(nxt & H & _) _]. destruct (tokens_of_head off t) as (tok & tl & Htok & _ & _ & _ & Hty).
  rewrite Htok in H. pose proof (occurs_nonneg _ _ _ H) as [? _].
  unfold node_type. rewrite decide_False by lia.
  unfold tok_at. simpl in H. rewrite (occurs_get _ _ _ _ H). simpl. by rewrite Hty.
Qed.

Lemma string_value_repr n off p s : repr_at n off (BStr p s) -> string_value n = Some s.
Proof.
  intros H. destruct (string_node _ _ _ _ H) as (H1 & H2 & H3).
  unfold string_value. rewrite H1, H2. cbn [mbind option_bind]. unfold buf_range.
  rewrite Nat2Z.id. f_equal. by apply occurs_range.
Qed.

Lemma parse_int_over ds r st v :
  digits_ok ds -> 0 <= v <= int64_max -> int64_max < dec_from v ds ->
  (parse_int (ds ++ r) st ch_e v).2 = overflow.
Proof.
  intros Hds. revert st v. induction Hds as [|c ds Hc Hds IH]; intros st v Hv Hover;
    [simpl in Hover; lia|].
  cbn [app parse_int]. pose proof (proj1 (numeric_spec c) Hc).
  destruct (Z.eqb_spec c 101) as [->|_]; [lia|]. rewrite Hc. simpl negb. cbv iota.
  destruct (Z.ltb_spec (int64_max / 10) v) as [|Hle]; [done|].
  destruct (Z.ltb_spec (int64_max - (c - 48)) (v * 10)); [done|].
  apply IH; [lia|done].
Qed.

Lemma int_value_repr n off neg ds :
  repr_at n off (BInt neg ds) -> ds <> [] -> digits_ok ds -> int_value n = Some (int_of neg ds).
Proof.
  intros H Hne Hds. destruct (leaf_tokens n off _ _ H eq_refl) as (nxt & H1 & H2 & H3).
  destruct H as [_ Hb]. cbn [unparse] in *. apply occurs_tail in Hb.
  unfold int_value. rewrite H1, H2. cbn [mbind option_bind tok_offset].
  assert (exists c l, sign_chars neg ++ ds ++ [ch_e] = c :: l /\ (c =? 45) = neg) as (c & l & Hc & Hsign).
  { destruct neg; [by eexists _, _|]. destruct ds as [|c ds]; [done|]. exists c, (ds ++ [ch_e]).
    split; [done|]. inversion Hds as [|? ? Hc]; subst. apply numeric_spec in Hc. by apply Z.eqb_neq; lia. }
  rewrite Hc in Hb. rewrite (occurs_get _ _ _ _ Hb). cbn [mbind option_bind]. rewrite Hsign.
  rewrite <- Hc in Hb. clear c l Hc Hsign. apply occurs_app_r in Hb.
  replace (if neg then 1 else 0) with (zlen (sign_chars neg)) by by destruct neg.
  pose proof (occurs_drop _ _ _ Hb) as (post & Hdrop). unfold buf_range. rewrite Hdrop, H3.
  assert (exists r, take (Z.to_nat (off + zlen (ch_i :: sign_chars neg ++ ds ++ [ch_e]) - off - zlen (sign_chars neg)))
    ((ds ++ [ch_e]) ++ post) = ds ++ ch_e :: r) as (r & ->).
  { rewrite <- app_assoc. apply take_app_cons. autorewrite with zlen. simpl length. lia. }
  unfold int_of. case_decide as Hmax.
  - rewrite parse_int_ok; [|done|done|lia|done]. cbn [negb]. by rewrite decide_True.
  - pose proof (parse_int_over ds (ch_e :: r) 0 0 Hds) as Hover.
    destruct (parse_int (ds ++ ch_e :: r) 0 101 0) as [[[? ?] ?] ec]. simpl in Hover.
    rewrite Hover by (unfold int64_max in *; lia). by rewrite decide_False.
Qed.

(** The root of a decoded buffer. *)
Lemma root_repr t rest r :
  br_tokens r = tokens_of 0 t ++ [Tok (zlen (unparse t)) t_end 0 0] ->
  repr (root_node (unparse t ++ rest) r) t.
Proof.
  intros Hr. exists 0. split; [|by split]. split.
  - exists (Tok (zlen (unparse t)) t_end 0 0). split; [|by cbn [tok_offset]].
    unfold root_node. cbn [m_root_tokens m_token_idx]. rewrite Hr. exists [], []. by rewrite app_nil_r.
  - by exists [], rest.
Qed.

(** ** Items of a container *)

Lemma item_index k kids j : Z.of_nat j < num_items k kids -> (stride k * S j <= length kids)%nat.
Proof.
  unfold num_items. intros Hj.
  assert (0 < Z.of_nat (stride k)) by (by destruct k; simpl).
  pose proof (Z.mul_div_le (zlen kids) (Z.of_nat (stride k))). nia.
Qed.

Section items.
Context (n : bdecode_node) (off : Z) (k : seq_kind) (kids : list bt).
Hypothesis Hn : repr_at n off (BSeq k kids).
Hypothesis Hcache : cache_ok n off k kids.

Lemma token_idx_nonneg : 0 <= m_token_idx n.
Proof. destruct Hn as [(nxt & H & _) _]. by apply occurs_nonneg in H as [? _]. Qed.

Lemma item_token_nonneg j : 0 <= item_token n off k kids j.
Proof. unfold item_token. pose proof token_idx_nonneg. lia. Qed.

Lemma lookup_start_ok i :
  0 <= i ->
  exists d, lookup_start n i = (item_token n off k kids d, Z.of_nat d) /\ Z.of_nat d <= i.
Proof.
  intros Hi. unfold lookup_start. destruct Hcache as [[->|(j & -> & _ & ->)] _].
  - rewrite andb_false_r. exists 0%nat. split; [|lia]. unfold item_token.
    rewrite Nat.mul_0_r, take_0. simpl. f_equal. lia.
  - destruct (Z.leb_spec (Z.of_nat j) i).
    + rewrite (proj2 (Z.eqb_neq _ _)) by lia. exists j. by split.
    + exists 0%nat. split; [|lia]. unfold item_token. rewrite Nat.mul_0_r, take_0. simpl. f_equal. lia.
Qed.

Lemma skip_from d i :
  (d <= i)%nat -> (stride k * i <= length kids)%nat ->
  skip_items (m_root_tokens n) (stride k * (i - d)) (item_token n off k kids d) =
  Some (item_token n off k kids i).
Proof.
  intros Hd Hi. unfold item_token. rewrite (skip_to_item n off k kids Hn) by nia.
  rewrite <- Nat.mul_add_distr_l. by replace (d + (i - d))%nat with i by lia.
Qed.

Lemma cache_ok_with_last i :
  Z.of_nat i < num_items k kids ->
  cache_ok (with_last n (Z.of_nat i) (item_token n off k kids i)) off k kids.
Proof.
  intros Hi. destruct Hcache as [_ Hs]. split; [|exact Hs]. right. exists i. by split_and!.
Qed.

Lemma cache_ok_with_size : cache_ok (with_size n (num_items k kids)) off k kids.
Proof. destruct Hcache as [Hl _]. split; [exact Hl|by right]. Qed.

Lemma item_child j x l2 :
  drop (stride k * j) kids = x :: l2 ->
  repr_at (child n (item_token n off k kids j))
    (off + 1 + zlen (flat_map unparse (take (stride k * j) kids))) x.
Proof.
  intros Hx. eapply child_repr; [done|]. rewrite <- Hx. by rewrite take_drop.
Qed.

Lemma kids_le_tokens : (length kids <= length (m_root_tokens n))%nat.
Proof.
  pose proof (container_tokens n off k kids Hn) as H.
  apply occurs_nonneg in H as [_ H]. pose proof token_idx_nonneg.
  rewrite zlen_app in H. simpl in H. pose proof (length_tokens_of_list kids (off + 1)). lia.
Qed.

(** The rounds of the counting loop from item [j] on. *)
Lemma count_from j :
  (stride k * j <= length kids)%nat ->
  count_items (m_root_tokens n) (S (length (m_root_tokens n))) (item_token n off k kids j)
    (Z.of_nat (stride k * j)) = Some (zlen kids).
Proof.
  intros Hj. pose proof (container_split n off k kids Hn _ _ (eq_sym (take_drop (stride k * j) kids))) as H.
  rewrite (count_items_occurs _ _ _ _ _ _ _ H); [|done|].
  - rewrite length_drop. f_equal. lia.
  - pose proof kids_le_tokens. rewrite length_drop. lia.
Qed.

Lemma count_all :
  count_items (m_root_tokens n) (S (length (m_root_tokens n))) (m_token_idx n + 1) 0 =
  Some (zlen kids).
Proof.
  rewrite <- (count_from 0); [|lia]. unfold item_token. rewrite Nat.mul_0_r, take_0.
  simpl length. by rewrite Z.add_0_r.
Qed.
End items.

(** ** Lookup by key *)

(** How a comparison of keys behaves on the strings of a dictionary. *)
Definition matches_spec (n : bdecode_node) (key : list Z) (matches : Z -> Z -> option bool) : Prop :=
  forall p s, occurs (m_buffer n) p s -> matches p (zlen s) = Some (bool_decide (s = key)).

Lemma key_matches_str_spec n key : matches_spec n key (key_matches_str n key).
Proof.
  intros p s H. unfold key_matches_str, buf_range. rewrite Nat2Z.id, (occurs_range _ _ _ H). f_equal.
  destruct (decide (s = key)) as [->|Hne].
  - by rewrite Z.eqb_refl, bool_decide_true.
  - rewrite (bool_decide_false (key = s)), (bool_decide_false (s = key)) by congruence.
    apply andb_false_r.
Qed.

Lemma string_equal_spec key s post :
  0 ∉ key -> string_equal key (s ++ post) (length s) = Some (bool_decide (s = key)).
Proof.
  revert key. induction s as [|c s IH]; intros key Hkey.
  - destruct key as [|x key]; [done|]. simpl.
    rewrite not_elem_of_cons in Hkey. by rewrite (proj2 (Z.eqb_neq x 0)) by (destruct Hkey; done).
  - destruct key as [|x key]; cbn [app length string_equal tail].
    + rewrite bool_decide_false by done. by destruct (negb (0 =? c)).
    + rewrite not_elem_of_cons in Hkey. destruct Hkey as [Hx Hkey].
      destruct (Z.eqb_spec x c) as [->|Hne]; simpl.
      * rewrite (proj2 (Z.eqb_neq c 0)) by done. rewrite IH by done. f_equal.
        apply bool_decide_ext. split; congruence.
      * rewrite bool_decide_false by congruence. done.
Qed.

Lemma key_matches_cstr_spec n key : 0 ∉ key -> matches_spec n key (key_matches_cstr n key).
Proof.
  intros Hkey p s H. unfold key_matches_cstr. rewrite Nat2Z.id.
  destruct (occurs_drop _ _ _ H) as (post & ->). by apply string_equal_spec.
Qed.

Section find.
Context (n : bdecode_node) (off : Z) (kids : list bt) (key : list Z) (matches : Z -> Z -> option bool).
Hypothesis Hn : repr_at n off (BSeq KDict kids).
Hypothesis Hwf : bt_wf (BSeq KDict kids).
Hypothesis Hm : matches_spec n key matches.

Lemma dict_find_loop_spec l2 l1 fuel :
  kids = l1 ++ l2 -> Nat.even (length l2) = true -> keys_ok false l2 = true ->
  (length l2 < fuel)%nat ->
  exists c, dict_find_loop matches n fuel
      (m_token_idx n + 1 + zlen (tokens_of_list (off + 1) l1)) = Some c /\
    match find_key key l2 with Some v => repr c v | None => c = node_default end.
Proof.
  revert l1 fuel. induction l2 as [l2 IH] using (induction_ltof1 _ (@length bt)); unfold ltof in IH.
  intros l1 [|fuel] Heq Heven Hkeys Hf; [lia|].
  pose proof (container_split n off KDict kids Hn _ _ Heq) as Htoks.
  destruct l2 as [|x [|v l2]]; [| done |].
  - simpl in Htoks |- *. unfold tok_at. rewrite (occurs_get _ _ _ _ Htoks). simpl. by eexists.
  - destruct x as [|p s|]; try done.
    pose proof (child_repr n off KDict kids Hn _ _ _ Heq) as Hx.
    assert (kids = (l1 ++ [BStr p s]) ++ v :: l2) as Heq1 by by rewrite <- app_assoc.
    pose proof (child_repr n off KDict kids Hn _ _ _ Heq1) as Hv.
    destruct (string_node _ _ _ _ Hx) as (_ & _ & Hs).
    destruct (leaf_tokens _ _ _ _ Hx eq_refl) as (nxt & H1 & H2 & H3).
    unfold child, tok_at, node_at in H1, H2, Hs. cbn [m_root_tokens m_token_idx m_buffer] in H1, H2, Hs.
    cbn [dict_find_loop]. unfold tok_at. rewrite H1, H2. cbn [mbind option_bind tok_offset tok_type_of].
    rewrite decide_False by done.
    unfold start_offset. cbn [tok_header tok_next_item].
    assert (zlen (tokens_of_list (off + 1) (l1 ++ [BStr p s])) =
            zlen (tokens_of_list (off + 1) l1) + 1) as Hlen.
    { rewrite tokens_of_list_app, zlen_app. simpl. lia. }
    set (o := off + 1 + zlen (flat_map unparse l1)) in *.
    replace (tok_offset nxt - o - (zlen p - 1 + 2)) with (zlen s)
      by (rewrite H3; cbn [unparse]; zlia).
    replace (o + (zlen p - 1 + 2)) with (o + zlen p + 1) by lia.
    rewrite (Hm _ _ Hs). cbn [mbind option_bind find_key].
    rewrite Hlen, Z.add_assoc in Hv.
    case_bool_decide as Hkey.
    + rewrite decide_True by done. eexists. split; [reflexivity|]. by eapply repr_child.
    + rewrite decide_False by done.
      assert (kids = (l1 ++ [BStr p s; v]) ++ l2) as Heq2 by by rewrite <- app_assoc.
      destruct (tokens_of_head (off + 1 + zlen (flat_map unparse (l1 ++ [BStr p s]))) v)
        as (tok & tl & Htok & _ & Hnext & _).
      pose proof (container_split n off KDict kids Hn _ _ Heq1) as Htoks1.
      cbn [tokens_of_list] in Htoks1. rewrite Htok, Hlen, Z.add_assoc in Htoks1. simpl in Htoks1.
      rewrite (occurs_get _ _ _ _ Htoks1). cbn [mbind option_bind].
      replace (m_token_idx n + 1 + zlen (tokens_of_list (off + 1) l1) + 1 + tok_next_item tok)
        with (m_token_idx n + 1 + zlen (tokens_of_list (off + 1) (l1 ++ [BStr p s; v]))).
      * apply (IH l2); [simpl; lia|done| | |simpl in Hf; lia]; simpl in *; done.
      * rewrite Hnext, tokens_of_list_app. simpl tokens_of_list. rewrite app_nil_r.
        rewrite !zlen_app. simpl. rewrite length_tokens_of. lia.
Qed.
End find.

(** ** The queries of lists and dictionaries *)

(** A query that leaves the node standing for the same tree. *)
Definition keeps (n' : bdecode_node) (off : Z) (k : seq_kind) (kids : list bt) : Prop :=
  repr_at n' off (BSeq k kids) /\ cache_ok n' off k kids.

Lemma repr_with_last n off t i token : repr_at n off t -> repr_at (with_last n i token) off t.
Proof. by intros [H1 H2]. Qed.

Lemma repr_with_size n off t size : repr_at n off t -> repr_at (with_size n size) off t.
Proof. by intros [H1 H2]. Qed.

Lemma keeps_last n off k kids i :
  repr_at n off (BSeq k kids) -> cache_ok n off k kids -> 0 <= i < num_items k kids ->
  keeps (with_last n i (item_token n off k kids (Z.to_nat i))) off k kids.
Proof.
  intros Hn Hc Hi. split; [by apply repr_with_last|].
  replace i with (Z.of_nat (Z.to_nat i)) at 1 by lia. apply cache_ok_with_last; [done|lia].
Qed.

Lemma keeps_size n off k kids :
  repr_at n off (BSeq k kids) -> cache_ok n off k kids ->
  keeps (with_size n (num_items k kids)) off k kids.
Proof. intros Hn Hc. split; [by apply repr_with_size|by apply cache_ok_with_size]. Qed.

Lemma num_items_list kids : num_items KList kids = zlen kids.
Proof. apply Z.div_1_r. Qed.

Lemma list_at_spec n off kids i :
  repr_at n off (BSeq KList kids) -> cache_ok n off KList kids -> 0 <= i < zlen kids ->
  exists c n' x, list_at n i = Some (c, n') /\ zget kids i = Some x /\ repr c x /\
    keeps n' off KList kids.
Proof.
  intros Hn Hc Hi. destruct (lookup_start_ok n off KList kids Hc i) as (d & Hd & Hle); [lia|].
  destruct (zget_is_Some kids i Hi) as [x Hx]. pose proof Hx as Hx'.
  unfold zget in Hx'. rewrite decide_True in Hx' by lia.
  pose proof (skip_from n off KList kids Hn d (Z.to_nat i) ltac:(lia) ltac:(simpl; lia)) as Hskip.
  simpl Nat.mul in Hskip. rewrite Nat.add_0_r in Hskip.
  unfold list_at. rewrite Hd. replace (Z.to_nat (i - Z.of_nat d)) with (Z.to_nat i - d)%nat by lia.
  rewrite Hskip. simpl. eexists _, _, x. split_and!; try done.
  - eapply repr_child, (item_child n off KList kids Hn _ _ (drop (S (Z.to_nat i)) kids)).
    simpl. rewrite Nat.add_0_r. by apply drop_S.
  - apply keeps_last; [done..|]. by rewrite num_items_list.
Qed.

Lemma list_size_spec n off kids :
  repr_at n off (BSeq KList kids) -> cache_ok n off KList kids ->
  exists n', list_size n = Some (zlen kids, n') /\ keeps n' off KList kids.
Proof.
  intros Hn Hc. destruct (co_size _ _ _ _ Hc) as [Hs|Hs].
  - pose proof (count_from n off KList kids Hn) as Hcount.
    unfold list_size. rewrite Hs. cbn [Z.eqb Pos.eqb negb].
    destruct (co_last _ _ _ _ Hc) as [->|(j & -> & Hj & ->)].
    + cbn [Z.eqb Pos.eqb negb]. rewrite (count_all n off _ kids Hn). cbn [mbind option_bind]. eexists. split; [reflexivity|].
      rewrite <- num_items_list. by apply keeps_size.
    + pose proof (item_index _ _ _ Hj) as Hidx. simpl in Hidx.
      specialize (Hcount j ltac:(simpl; lia)). cbn [stride] in Hcount. rewrite Nat.mul_1_l in Hcount.
      rewrite (proj2 (Z.eqb_neq _ _)) by lia. simpl negb. cbv iota. rewrite Hcount. simpl.
      eexists. split; [reflexivity|]. 
      rewrite <- num_items_list. by apply keeps_size.
  - exists n. unfold list_size. rewrite Hs, num_items_list.
    rewrite (proj2 (Z.eqb_neq _ _)) by lia. by split.
Qed.

Lemma num_items_dict kids : Nat.even (length kids) = true -> zlen kids = 2 * num_items KDict kids.
Proof.
  intros [m Hm]%Nat.even_spec. unfold num_items. simpl. rewrite Hm, Nat2Z.inj_mul.
  change (Z.of_nat 2) with 2. rewrite Z.mul_comm, Z.div_mul; lia.
Qed.

(** The pair [i] of a dictionary. *)
Lemma dict_pair kids i :
  bt_wf (BSeq KDict kids) -> (2 * S i <= length kids)%nat ->
  exists p s v l2, drop (2 * i) kids = BStr p s :: v :: l2.
Proof.
  intros Hwf%bt_wf_seq Hi. destruct Hwf as [_ Hd]. destruct (Hd eq_refl) as [Hkeys _].
  rewrite <- (take_drop (2 * i) kids), keys_ok_app, length_take in Hkeys.
  assert (length (drop (2 * i) kids) = length kids - 2 * i)%nat as Hlen by apply length_drop.
  replace (Nat.min _ _) with (2 * i)%nat in Hkeys by lia.
  rewrite Nat.odd_mul in Hkeys. simpl xorb in Hkeys.
  destruct (drop (2 * i) kids) as [|[|p s|] [|v l2]]; simpl in Hlen, Hkeys; try lia;
    rewrite ?andb_false_r in Hkeys; try done. by eexists _, _, _, _.
Qed.

Lemma dict_at_spec n off kids i :
  repr_at n off (BSeq KDict kids) -> cache_ok n off KDict kids -> bt_wf (BSeq KDict kids) ->
  0 <= i < num_items KDict kids ->
  exists p key c v n', dict_at n i = Some ((key, c), n') /\
    zget kids (2 * i) = Some (BStr p key) /\ zget kids (2 * i + 1) = Some v /\ repr c v /\
    keeps n' off KDict kids.
Proof.
  intros Hn Hc Hwf Hi. destruct (lookup_start_ok n off KDict kids Hc i) as (d & Hd & Hle); [lia|].
  pose proof (item_index KDict kids (Z.to_nat i) ltac:(lia)) as Hidx. cbn [stride] in Hidx.
  destruct (dict_pair kids _ Hwf Hidx) as (p & s & v & l2 & Hdrop).
  pose proof (skip_from n off KDict kids Hn d (Z.to_nat i) ltac:(lia) ltac:(cbn [stride]; lia)) as Hskip.
  cbn [stride] in Hskip.
  pose proof (item_child n off KDict kids Hn _ _ _ Hdrop) as Hkey.
  assert (kids = (take (2 * Z.to_nat i) kids ++ [BStr p s]) ++ v :: l2) as Heq.
  { rewrite <- app_assoc. simpl app. rewrite <- Hdrop. by rewrite take_drop. }
  pose proof (child_repr n off KDict kids Hn _ _ _ Heq) as Hval.
  destruct (leaf_tokens _ _ _ _ Hkey eq_refl) as (nxt & Htok & _).
  pose proof (string_node _ _ _ _ Hkey) as Hstr.
  unfold dict_at. rewrite Hd. replace (Z.to_nat (i - Z.of_nat d)) with (Z.to_nat i - d)%nat by lia.
  rewrite Hskip. cbn [mbind option_bind].
  change (tok_at (child n ?a) (m_token_idx (child n ?a))) with (tok_at n a) in Htok. rewrite Htok.
  cbn [mbind option_bind tok_next_item].
  destruct Hstr as (H1 & H2 & H3). unfold string_value. rewrite H1, H2. cbn [mbind option_bind].
  unfold buf_range. rewrite Nat2Z.id, (occurs_range _ _ _ H3).
  eexists p, s, _, v, _. split; [reflexivity|]. split_and!.
  - unfold zget. rewrite decide_True by lia. replace (Z.to_nat (2 * i)) with (2 * Z.to_nat i + 0)%nat by lia.
    by rewrite <- lookup_drop, Hdrop.
  - unfold zget. rewrite decide_True by lia.
    replace (Z.to_nat (2 * i + 1)) with (2 * Z.to_nat i + 1)%nat by lia.
    by rewrite <- lookup_drop, Hdrop.
  - eapply repr_child. unfold item_token. cbn [stride]. rewrite tokens_of_list_app, zlen_app in Hval.
    cbn [tokens_of_list tokens_of app length] in Hval. rewrite <- Z.add_assoc. exact Hval.
  - destruct (Z.ltb_spec 0 i); [|by split].
    by apply keeps_last.
Qed.

Lemma dict_size_spec n off kids :
  repr_at n off (BSeq KDict kids) -> cache_ok n off KDict kids -> bt_wf (BSeq KDict kids) ->
  exists n', dict_size n = Some (num_items KDict kids, n') /\ keeps n' off KDict kids.
Proof.
  intros Hn Hc Hwf. apply bt_wf_seq in Hwf as [_ Hd]. destruct (Hd eq_refl) as [_ Heven].
  pose proof (num_items_dict _ Heven) as Hnum.
  assert (Z.quot (zlen kids) 2 = num_items KDict kids) as Hquot.
  { rewrite Hnum, Z.mul_comm. by apply Z.quot_mul. }
  destruct (co_size _ _ _ _ Hc) as [Hs|Hs].
  - pose proof (count_from n off KDict kids Hn) as Hcount.
    unfold dict_size. rewrite Hs. cbn [Z.eqb Pos.eqb negb].
    destruct (co_last _ _ _ _ Hc) as [->|(j & -> & Hj & ->)].
    + cbn [Z.eqb Pos.eqb negb]. rewrite (count_all n off _ kids Hn). cbn [mbind option_bind]. rewrite Hquot.
      eexists. split; [reflexivity|]. by apply keeps_size.
    + pose proof (item_index _ _ _ Hj) as Hidx. cbn [stride] in Hidx.
      specialize (Hcount j ltac:(cbn [stride]; lia)). cbn [stride] in Hcount.
      rewrite (proj2 (Z.eqb_neq _ _)) by lia. simpl negb. cbv iota.
      replace (Z.of_nat j * 2) with (Z.of_nat (2 * j)) by lia.
      rewrite Hcount. cbn [mbind option_bind]. rewrite Hquot.
      eexists. split; [reflexivity|]. by apply keeps_size.
  - exists n. unfold dict_size. rewrite Hs. rewrite (proj2 (Z.eqb_neq _ _)) by lia. by split.
Qed.
