(* ===== verification/Entry.v ===== *)
(** * Entries and bencoding (entry.cpp, entry.hpp, bencode.hpp)

    [entry] is the variant the program builds and reads bencoded structures
    with.  Its dictionary is a [std::map] of strings: an association list
    ordered by [str_lt], the order of [std::string] (bytes compared as unsigned
    characters, a prefix first).  [bencode_recursive] writes an entry to an
    output iterator, which is the list of characters written.  The accessors
    throw on a type mismatch, so the operations return a [res]. *)

From Stdlib Require Import ZArith Lia.
From stdpp Require Import base numbers list.
From S2P Require Import Prelude Bdecode BdecodeNode.

(** ** Results: a value, an exception, or undefined behaviour *)

Inductive res (A : Type) := Ok (x : A) | Throw | Undefined.
Arguments Ok {A}.
Arguments Throw {A}.
Arguments Undefined {A}.

#[export] Instance res_bind : MBind res := fun A B f m =>
  match m with Ok x => f x | Throw => Throw | Undefined => Undefined end.

(** A [bdecode_node] query inside an operation that may throw. *)
Definition of_option {A} (o : option A) : res A :=
  match o with Some x => Ok x | None => Undefined end.

(** ** Data *)

Inductive entry :=
  | EInt (v : Z)
  | EStr (s : list Z)
  | EList (l : list entry)
  | EDict (d : list (list Z * entry))
  | EUndef
  | EPre (v : list Z).

Inductive data_type := int_t | string_t | list_t | dictionary_t | undefined_t | preformatted_t.

#[export] Instance data_type_eq_dec : EqDecision data_type.
Proof. solve_decision. Defined.

Definition entry_type (e : entry) : data_type :=
  match e with
  | EInt _ => int_t | EStr _ => string_t | EList _ => list_t
  | EDict _ => dictionary_t | EUndef => undefined_t | EPre _ => preformatted_t
  end.

(** ** [std::map<std::string, entry>] *)

(** [operator<] on [std::string] *)
Fixpoint str_lt (a b : list Z) : bool :=
  match a, b with
  | _, [] => false
  | [], _ :: _ => true
  | x :: a, y :: b => (x <? y) || ((x =? y) && str_lt a b)
  end.

Fixpoint map_find (key : list Z) (d : list (list Z * entry)) : option entry :=
  match d with
  | [] => None
  | (k, v) :: d => if decide (k = key) then Some v else map_find key d
  end.

(** [d[key] = v] *)
Fixpoint map_insert (key : list Z) (v : entry) (d : list (list Z * entry)) : list (list Z * entry) :=
  match d with
  | [] => [(key, v)]
  | (k, w) :: d' =>
      if decide (k = key) then (k, v) :: d'
      else if str_lt key k then (key, v) :: d
      else (k, w) :: map_insert key v d'
  end.

(** ** Construction and access *)

(** [construct(t)]: an [integer_type] is left uninitialised, so the value that
    storage holds is an argument. *)
Definition construct (indeterminate : Z) (t : data_type) : entry :=
  match t with
  | int_t => EInt indeterminate
  | string_t => EStr []
  | list_t => EList []
  | dictionary_t => EDict []
  | undefined_t => EUndef
  | preformatted_t => EPre []
  end.

Definition destruct_entry (e : entry) : entry := EUndef.

(** The non-const accessors: an undefined entry is constructed first. *)
Definition entry_string (e : entry) : res (list Z) :=
  match e with EUndef => Ok [] | EStr s => Ok s | _ => Throw end.
Definition entry_list (e : entry) : res (list entry) :=
  match e with EUndef => Ok [] | EList l => Ok l | _ => Throw end.
Definition entry_dict (e : entry) : res (list (list Z * entry)) :=
  match e with EUndef => Ok [] | EDict d => Ok d | _ => Throw end.
Definition entry_preformatted (e : entry) : res (list Z) :=
  match e with EUndef => Ok [] | EPre v => Ok v | _ => Throw end.
Definition entry_integer (indeterminate : Z) (e : entry) : res Z :=
  match e with EUndef => Ok indeterminate | EInt v => Ok v | _ => Throw end.

(** [entry& operator[](key)]: the element, and the entry it is in. *)
Definition entry_index (e : entry) (key : list Z) : res (entry * entry) :=
  d ← entry_dict e;
  match map_find key d with
  | Some v => Ok (v, EDict d)
  | None => Ok (EUndef, EDict (map_insert key EUndef d))
  end.

(** [find_key] *)
Definition entry_find_key (e : entry) (key : list Z) : res (option entry) :=
  d ← entry_dict e; Ok (map_find key d).

(** [entry const& operator[](key) const] *)
Definition entry_index_const (e : entry) (key : list Z) : res entry :=
  match e with
  | EDict d => match map_find key d with Some v => Ok v | None => Throw end
  | _ => Throw
  end.

(** [swap]: both of a type, or one of them undefined. *)
Definition entry_swap (a b : entry) : res (entry * entry) :=
  if decide (entry_type a = entry_type b \/ entry_type a = undefined_t \/ entry_type b = undefined_t)
  then Ok (b, a) else Undefined.

(** [operator==] *)
Fixpoint entry_eqb (a b : entry) {struct a} : bool :=
  match a, b with
  | EInt v, EInt w => v =? w
  | EStr s, EStr r => bool_decide (s = r)
  | EList l, EList m =>
      (fix go (l m : list entry) : bool :=
         match l, m with
         | [], [] => true
         | x :: l, y :: m => entry_eqb x y && go l m
         | _, _ => false
         end) l m
  | EDict d, EDict f =>
      (fix go (d f : list (list Z * entry)) : bool :=
         match d, f with
         | [], [] => true
         | (k, x) :: d, (j, y) :: f => bool_decide (k = j) && entry_eqb x y && go d f
         | _, _ => false
         end) d f
  | EUndef, EUndef => true
  | EPre v, EPre w => bool_decide (v = w)
  | _, _ => false
  end.

(** ** [bencode] *)

Definition int64_min : Z := - 2 ^ 63.

(** The loop of [integer_to_str]; it stops at the start of the buffer. *)
Fixpoint digits_loop (fuel : nat) (buf : list Z) (size sign val : Z) : option (list Z * Z) :=
  match fuel with
  | O => None
  | S fuel =>
      if (sign <? size) && negb (val =? 0) then
        buf ← zset buf (size - 1) (ch_0 + Z.rem val 10);
        digits_loop fuel buf (size - 1) sign (Z.quot val 10)
      else Some (buf, size)
  end.

(** [integer_to_str(buf, size, val)]: the buffer and the index of the first
    character.  Negating the least [int64_t] is undefined. *)
Definition integer_to_str (buf : list Z) (size val : Z) : option (list Z * Z) :=
  '(sign, val) ← (if val <? 0 then if val =? int64_min then None else Some (1, - val)
                  else Some (0, val));
  buf ← zset buf (size - 1) 0;
  let size := size - 1 in
  '(buf, size) ← (if val =? 0 then buf ← zset buf (size - 1) ch_0; Some (buf, size - 1)
                  else Some (buf, size));
  '(buf, size) ← digits_loop (S (length buf)) buf size sign val;
  if sign =? 1 then buf ← zset buf (size - 1) ch_minus; Some (buf, size - 1)
  else Some (buf, size).

(** The characters from [str] to the terminator. *)
Fixpoint c_string (l : list Z) : option (list Z) :=
  match l with
  | [] => None
  | c :: l => if c =? 0 then Some [] else s ← c_string l; Some (c :: s)
  end.

(** [write_integer(out, val)]: what is appended to [out], and how many
    characters that is; [char buf[21]] is uninitialised storage. *)
Definition write_integer (buf out : list Z) (val : Z) : option (list Z * Z) :=
  '(buf, p) ← integer_to_str buf 21 val;
  s ← c_string (drop (Z.to_nat p) buf);
  Some (out ++ s, zlen s).

(** [write_string(str, out)] *)
Definition write_string (str out : list Z) : list Z * Z := (out ++ str, zlen str).

Section bencode.
Context (buf : list Z).

(** A string value or key: its length, a colon and its bytes. *)
Definition bencode_string (out s : list Z) : option (list Z * Z) :=
  '(out, r1) ← write_integer buf out (zlen s);
  let out := out ++ [ch_colon] in
  let '(out, r2) := write_string s out in
  Some (out, r1 + r2 + 1).

Fixpoint bencode_recursive (out : list Z) (e : entry) {struct e} : option (list Z * Z) :=
  match e with
  | EInt v =>
      '(out, r) ← write_integer buf (out ++ [ch_i]) v;
      Some (out ++ [ch_e], r + 2)
  | EStr s => bencode_string out s
  | EList l =>
      '(out, r) ←
        (fix go (out : list Z) (ret : Z) (l : list entry) {struct l} : option (list Z * Z) :=
           match l with
           | [] => Some (out, ret)
           | x :: l => '(out, r) ← bencode_recursive out x; go out (ret + r) l
           end) (out ++ [ch_l]) 0 l;
      Some (out ++ [ch_e], r + 2)
  | EDict d =>
      '(out, r) ←
        (fix go (out : list Z) (ret : Z) (d : list (list Z * entry)) {struct d} : option (list Z * Z) :=
           match d with
           | [] => Some (out, ret)
           | (k, x) :: d =>
               '(out, r1) ← bencode_string out k;
               '(out, r2) ← bencode_recursive out x;
               go out (ret + r1 + r2) d
           end) (out ++ [ch_d]) 0 d;
      Some (out ++ [ch_e], r + 2)
  | EPre v => Some (out ++ v, zlen v)
  | EUndef => Some (out ++ [ch_0; ch_colon], 2)
  end.
End bencode.

(** ** [entry::operator=(bdecode_node const&)] *)

Section assign.
Context (assign : entry -> bdecode_node -> res entry).

(** [for (int i = 0; i < e.dict_size(); ++i)] *)
Fixpoint assign_dict (fuel : nat) (i : Z) (n : bdecode_node) (d : list (list Z * entry))
  : res (list (list Z * entry)) :=
  match fuel with
  | O => Undefined
  | S fuel =>
      '(size, n) ← of_option (dict_size n);
      if i <? size then
        '((key, child), n) ← of_option (dict_at n i);
        v ← assign (match map_find key d with Some v => v | None => EUndef end) child;
        assign_dict fuel (i + 1) n (map_insert key v d)
      else Ok d
  end.

Fixpoint assign_list (fuel : nat) (i : Z) (n : bdecode_node) (l : list entry) : res (list entry) :=
  match fuel with
  | O => Undefined
  | S fuel =>
      '(size, n) ← of_option (list_size n);
      if i <? size then
        '(child, n) ← of_option (list_at n i);
        v ← assign EUndef child;
        assign_list fuel (i + 1) n (l ++ [v])
      else Ok l
  end.
End assign.

(** [fuel] bounds the depth of the tree; the token vector's length is enough. *)
Fixpoint entry_assign (fuel : nat) (this : entry) (n : bdecode_node) : res entry :=
  match fuel with
  | O => Undefined
  | S fuel =>
      let rounds := S (length (m_root_tokens n)) in
      t ← of_option (node_type n);
      match t with
      | t_string =>
          _ ← entry_string this;
          s ← of_option (string_value n); Ok (EStr s)
      | t_integer =>
          _ ← entry_integer 0 this;
          v ← of_option (int_value n); Ok (EInt v)
      | t_dict =>
          d ← entry_dict this;
          d ← assign_dict (entry_assign fuel) rounds 0 n d; Ok (EDict d)
      | t_list =>
          l ← entry_list this;
          l ← assign_list (entry_assign fuel) rounds 0 n l; Ok (EList l)
      | t_none => Ok (destruct_entry this)
      | t_end => Ok this
      end
  end.

(** Decode a buffer into an entry. *)
Definition decode_entry (buf : list Z) (depth_limit token_limit : Z) : res entry :=
  r ← of_option (bdecode buf depth_limit token_limit);
  entry_assign (S (length (br_tokens r))) EUndef (root_node buf r).
