(* ===== verification/EntrySpec.v ===== *)
(** * Encoding and decoding of entries

    [bt_of] is the bencoded tree of an entry: [bencode_recursive] writes that
    tree's bytes.  [tree_assign] is what assigning a decoded tree to an entry
    means: the loops of [entry::operator=] over the nodes of the tree compute
    it.  Together with [BdecodeCorrect.v] they give the round trip. *)

From Stdlib Require Import ZArith Lia.
From stdpp Require Import base numbers list.
From S2P Require Import Prelude Bdecode BdecodeSyntax BdecodeSpec BdecodeCorrect.
From S2P Require Import BdecodeNode BdecodeNodeSpec Entry.

(** ** Decimal digits *)

Fixpoint dec_digits (k : nat) (v : Z) (acc : list Z) : list Z :=
  match k with
  | O => acc
  | S k => if v =? 0 then acc else dec_digits k (v / 10) (ch_0 + v mod 10 :: acc)
  end.

Definition dec_string (v : Z) : list Z := if v =? 0 then [ch_0] else dec_digits 19 v [].

(** ** The tree of an entry *)

Definition str_bt (s : list Z) : bt := BStr (dec_string (zlen s)) s.

Fixpoint bt_of (e : entry) : bt :=
  match e with
  | EInt v => BInt (v <? 0) (dec_string (Z.abs v))
  | EStr s => str_bt s
  | EList l => BSeq KList (map bt_of l)
  | EDict d => BSeq KDict (flat_map (fun '(k, x) => [str_bt k; bt_of x]) d)
  | EUndef | EPre _ => str_bt []
  end.

Definition short (s : list Z) : Prop := zlen s < 10 ^ 8.

(** The entries whose encoding decodes again: no integer is the least
    [int64_t], no string needs more than eight digits for its length, and none
    is preformatted. *)
Fixpoint encodable (e : entry) : Prop :=
  match e with
  | EInt v => - 2 ^ 63 < v < 2 ^ 63
  | EStr s => short s
  | EList l => foldr (fun x P => encodable x /\ P) True l
  | EDict d => foldr (fun '(k, x) P => short k /\ encodable x /\ P) True d
  | EUndef => True
  | EPre _ => False
  end.

(** An entry as it is read back: an undefined one is an empty string. *)
Fixpoint defined (e : entry) : entry :=
  match e with
  | EUndef => EStr []
  | EList l => EList (map defined l)
  | EDict d => EDict (map (fun '(k, x) => (k, defined x)) d)
  | _ => e
  end.

(** The keys of a [std::map] increase. *)
Fixpoint keys_increase (d : list (list Z * entry)) : bool :=
  match d with
  | (k, _) :: ((j, _) :: _) as d => str_lt k j && keys_increase d
  | _ => true
  end.

Fixpoint map_ok (e : entry) : Prop :=
  match e with
  | EList l => foldr (fun x P => map_ok x /\ P) True l
  | EDict d => keys_increase d = true /\ foldr (fun '(k, x) P => map_ok x /\ P) True d
  | _ => True
  end.

(** ** The entry of a tree *)

Section tree_assign.
Context (assign : entry -> bt -> res entry).

Fixpoint list_assign (l : list entry) (kids : list bt) : res (list entry) :=
  match kids with
  | [] => Ok l
  | x :: kids => v ← assign EUndef x; list_assign (l ++ [v]) kids
  end.

Fixpoint dict_assign (d : list (list Z * entry)) (kids : list bt) : res (list (list Z * entry)) :=
  match kids with
  | BStr _ key :: x :: kids =>
      v ← assign (match map_find key d with Some v => v | None => EUndef end) x;
      dict_assign (map_insert key v d) kids
  | _ => Ok d
  end.
End tree_assign.

Fixpoint tree_assign (this : entry) (t : bt) {struct t} : res entry :=
  match t with
  | BInt neg ds => _ ← entry_integer 0 this; Ok (EInt (int_of neg ds))
  | BStr _ s => _ ← entry_string this; Ok (EStr s)
  | BSeq KList kids => l ← entry_list this; l ← list_assign tree_assign l kids; Ok (EList l)
  | BSeq KDict kids => d ← entry_dict this; d ← dict_assign tree_assign d kids; Ok (EDict d)
  end.

(** ** [integer_to_str] *)

Lemma dec_digits_app k v acc : dec_digits k v acc = dec_digits k v [] ++ acc.
Proof.
  revert v acc. induction k as [|k IH]; intros v acc; simpl; [done|].
  destruct (v =? 0); [done|]. rewrite IH, (IH _ [_]), <- app_assoc. done.
Qed.

Lemma dec_digits_ok k v : 0 <= v -> digits_ok (dec_digits k v []).
Proof.
  revert v. induction k as [|k IH]; intros v Hv; simpl; [constructor|].
  destruct (v =? 0); [constructor|]. rewrite dec_digits_app. apply Forall_app. split.
  - apply IH. apply Z.div_pos; lia.
  - constructor; [|constructor]. apply numeric_spec. pose proof (Z.mod_pos_bound v 10). lia.
Qed.

Lemma dec_digits_value k v :
  0 <= v < 10 ^ Z.of_nat k -> dec_from 0 (dec_digits k v []) = v.
Proof.
  revert v. induction k as [|k IH]; intros v Hv; simpl; [simpl in Hv; lia|].
  destruct (Z.eqb_spec v 0) as [->|]; [done|].
  rewrite Nat2Z.inj_succ, Z.pow_succ_r in Hv by lia.
  rewrite dec_digits_app, dec_from_app, IH.
  - simpl. pose proof (Z.div_mod v 10). lia.
  - split; [apply Z.div_pos; lia|apply Z.div_lt_upper_bound; lia].
Qed.

Lemma dec_digits_length k j v :
  0 <= v < 10 ^ Z.of_nat j -> (length (dec_digits k v []) <= j)%nat.
Proof.
  revert j v. induction k as [|k IH]; intros j v Hv; simpl; [lia|].
  destruct (Z.eqb_spec v 0); [simpl; lia|]. destruct j as [|j]; [simpl in Hv; lia|].
  rewrite Nat2Z.inj_succ, Z.pow_succ_r in Hv by lia.
  rewrite dec_digits_app, length_app. simpl.
  enough (length (dec_digits k (v / 10) []) <= j)%nat by lia. apply IH.
  split; [apply Z.div_pos; lia|apply Z.div_lt_upper_bound; lia].
Qed.

Lemma dec_digits_nonempty k v : v <> 0 -> dec_digits (S k) v [] <> [].
Proof.
  intros Hv. simpl. rewrite (proj2 (Z.eqb_neq _ _)) by done. rewrite dec_digits_app.
  by destruct (dec_digits k (v / 10) []).
Qed.

Lemma dec_string_spec v :
  0 <= v < 10 ^ 19 ->
  dec_string v <> [] /\ digits_ok (dec_string v) /\ dec_from 0 (dec_string v) = v /\
  forall j, 0 < j -> v < 10 ^ j -> zlen (dec_string v) <= j.
Proof.
  intros Hv. unfold dec_string. destruct (Z.eqb_spec v 0) as [->|].
  - split_and!; [done|by repeat constructor|done|]. simpl. lia.
  - split_and!; [by apply dec_digits_nonempty|apply dec_digits_ok; lia|by apply dec_digits_value|].
    intros j Hj Hlt. enough (length (dec_digits 19 v []) <= Z.to_nat j)%nat by lia.
    apply dec_digits_length. rewrite Z2Nat.id; lia.
Qed.

Lemma zset_last {A} (pre post : list A) x y :
  zset ((pre ++ [x]) ++ post) (zlen (pre ++ [x]) - 1) y = Some (pre ++ y :: post).
Proof. rewrite <- app_assoc. simpl. apply zset_mid. rewrite length_app. simpl. lia. Qed.

Lemma zset_end {A} (pre : list A) x y : zset (pre ++ [x]) (zlen (pre ++ [x]) - 1) y = Some (pre ++ [y]).
Proof. rewrite <- (zset_last pre [] x y). by rewrite app_nil_r. Qed.

Lemma snoc_inv {A} (l : list A) : 1 <= zlen l -> exists l' x, l = l' ++ [x].
Proof. destruct l as [|x l'] using rev_ind; [simpl; lia|]. by eexists _, _. Qed.

(** The digits are written in front of what the buffer holds. *)
Lemma digits_loop_spec k fuel pre post sign v :
  0 <= v < 10 ^ Z.of_nat k -> 0 <= sign -> Z.of_nat k + sign <= zlen pre -> (k < fuel)%nat ->
  exists pre', digits_loop fuel (pre ++ post) (zlen pre) sign v =
      Some (pre' ++ dec_digits k v post, zlen pre') /\ sign <= zlen pre' <= zlen pre.
Proof.
  revert fuel pre post v. induction k as [|k IH]; intros [|fuel] pre post v Hv Hs Hk Hf; try lia.
  - simpl in Hv. replace v with 0 by lia. simpl. rewrite andb_false_r. exists pre. split; [done|lia].
  - rewrite Nat2Z.inj_succ, Z.pow_succ_r in Hv by lia. cbn [digits_loop dec_digits].
    destruct (Z.eqb_spec v 0) as [->|Hne]; simpl negb.
    + rewrite andb_false_r. exists pre. split; [done|lia].
    + rewrite (proj2 (Z.ltb_lt _ _)) by lia. simpl andb. cbv iota.
      destruct (snoc_inv pre) as (p & x & ->); [lia|]. rewrite zset_last. cbn [mbind option_bind].
      rewrite Z.rem_mod_nonneg, Z.quot_div_nonneg by lia.
      replace (zlen (p ++ [x]) - 1) with (zlen p) in * by zlia.
      destruct (IH fuel p (48 + v mod 10 :: post) (v / 10)) as (pre' & Heq & Hp); [|lia|zlia|lia|].
      * split; [apply Z.div_pos; lia|apply Z.div_lt_upper_bound; lia].
      * exists pre'. split; [done|zlia].
Qed.

Lemma c_string_spec s post : 0 ∉ s -> c_string (s ++ 0 :: post) = Some s.
Proof.
  induction s as [|c s IH]; simpl; [done|]. rewrite not_elem_of_cons. intros [Hc Hs].
  rewrite (proj2 (Z.eqb_neq _ _)) by done. by rewrite IH.
Qed.

Lemma digits_no_nul ds : digits_ok ds -> 0 ∉ ds.
Proof.
  intros Hds Hin. unfold digits_ok in Hds. rewrite Forall_forall in Hds.
  by specialize (Hds _ Hin).
Qed.

Definition int_string (v : Z) : list Z := sign_chars (v <? 0) ++ dec_string (Z.abs v).

Lemma dec_string_digits v post :
  0 < v < 10 ^ 19 -> dec_digits 19 v post = dec_string v ++ post.
Proof.
  intros Hv. rewrite dec_digits_app. unfold dec_string. by rewrite (proj2 (Z.eqb_neq _ _)) by lia.
Qed.

Lemma integer_to_str_spec buf v :
  zlen buf = 21 -> - 2 ^ 63 < v < 2 ^ 63 ->
  exists pre, integer_to_str buf 21 v = Some (pre ++ int_string v ++ [0], zlen pre).
Proof.
  intros Hbuf Hv. destruct (snoc_inv buf) as (b & x & ->); [lia|].
  assert (zlen b = 20) as Hb by zlia. replace 21 with (zlen (b ++ [x])) by zlia.
  unfold integer_to_str, int_string. destruct (Z.ltb_spec v 0) as [Hneg|Hpos]; cbn [sign_chars].
  - rewrite (proj2 (Z.eqb_neq v int64_min)) by (unfold int64_min; lia). cbn [mbind option_bind].
    rewrite zset_end. cbn [mbind option_bind].
    rewrite (proj2 (Z.eqb_neq (- v) 0)) by lia. cbn [mbind option_bind].
    replace (zlen (b ++ [x]) - 1) with (zlen b) by zlia.
    destruct (digits_loop_spec 19 (S (length (b ++ [0]))) b [0] 1 (- v)) as (pre & -> & Hpre);
      [lia|lia|lia|rewrite length_app; lia|].
    cbn [mbind option_bind Z.eqb Pos.eqb]. destruct (snoc_inv pre) as (p & y & ->); [lia|].
    rewrite zset_last. cbn [mbind option_bind]. exists p.
    rewrite Z.abs_neq, dec_string_digits by lia. do 2 f_equal. zlia.
  - cbn [mbind option_bind].
    rewrite zset_end. cbn [mbind option_bind].
    replace (zlen (b ++ [x]) - 1) with (zlen b) by zlia.
    destruct (Z.eqb_spec v 0) as [->|Hne]; cbn [mbind option_bind].
    + destruct (snoc_inv b) as (p & y & ->); [lia|]. rewrite zset_last. cbn [mbind option_bind].
      replace (zlen (p ++ [y]) - 1) with (zlen p) by zlia.
      cbn [digits_loop Z.eqb negb]. rewrite andb_false_r. cbn [mbind option_bind Z.eqb]. by exists p.
    + destruct (digits_loop_spec 19 (S (length (b ++ [0]))) b [0] 0 v) as (pre & -> & Hpre);
        [lia|lia|lia|rewrite length_app; lia|].
      cbn [mbind option_bind Z.eqb]. exists pre. by rewrite Z.abs_eq, dec_string_digits by lia.
Qed.

Lemma int_string_no_nul v : - 2 ^ 63 < v < 2 ^ 63 -> 0 ∉ int_string v.
Proof.
  intros Hv. unfold int_string. rewrite elem_of_app. intros [H|H].
  - destruct (v <? 0); [|by apply elem_of_nil in H]. by apply list_elem_of_singleton in H.
  - revert H. apply digits_no_nul. apply dec_string_spec. lia.
Qed.

Lemma write_integer_spec buf out v :
  zlen buf = 21 -> - 2 ^ 63 < v < 2 ^ 63 ->
  write_integer buf out v = Some (out ++ int_string v, zlen (int_string v)).
Proof.
  intros Hbuf Hv. unfold write_integer.
  destruct (integer_to_str_spec buf v Hbuf Hv) as (pre & ->). cbn [mbind option_bind].
  rewrite Nat2Z.id, drop_app_length. by rewrite c_string_spec by by apply int_string_no_nul.
Qed.

(** ** [bencode] writes the tree *)

Section entry_ind.
Context (P : entry -> Prop)
  (HInt : forall v, P (EInt v)) (HStr : forall s, P (EStr s))
  (HList : forall l, Forall P l -> P (EList l))
  (HDict : forall d, Forall (fun kx => P kx.2) d -> P (EDict d))
  (HUndef : P EUndef) (HPre : forall v, P (EPre v)).

Fixpoint entry_ind' (e : entry) : P e :=
  match e with
  | EInt v => HInt v
  | EStr s => HStr s
  | EList l =>
      HList l
        ((fix go (l : list entry) : Forall P l :=
            match l with
            | [] => Forall_nil_2 _
            | x :: l => Forall_cons_2 _ _ _ (entry_ind' x) (go l)
            end) l)
  | EDict d =>
      HDict d
        ((fix go (d : list (list Z * entry)) : Forall (fun kx => P kx.2) d :=
            match d with
            | [] => Forall_nil_2 _
            | kx :: d => Forall_cons_2 _ kx _ (entry_ind' kx.2) (go d)
            end) d)
  | EUndef => HUndef
  | EPre v => HPre v
  end.
End entry_ind.

Section bencode_spec.
Context (buf : list Z).
Hypothesis Hbuf : zlen buf = 21.

Lemma bencode_string_spec out s :
  short s -> bencode_string buf out s = Some (out ++ unparse (str_bt s), zlen (unparse (str_bt s))).
Proof.
  unfold short. intros Hs. unfold bencode_string. rewrite write_integer_spec by (lia || done).
  cbn [mbind option_bind write_string]. unfold int_string, str_bt.
  rewrite (proj2 (Z.ltb_ge _ _)), Z.abs_eq by lia. cbn [sign_chars app unparse].
  f_equal. zpair. by rewrite <- !app_assoc.
Qed.

Lemma bencode_spec e :
  encodable e ->
  forall out, bencode_recursive buf out e = Some (out ++ unparse (bt_of e), zlen (unparse (bt_of e))).
Proof.
  induction e as [v|s|l IH|d IH| |v] using entry_ind'; intros He out;
    [ | |cbn [bencode_recursive bt_of unparse]..].
  - cbn [bencode_recursive]. rewrite write_integer_spec by (simpl in He; lia || done).
    cbn [mbind option_bind bt_of unparse]. unfold int_string. f_equal. zpair. by rewrite <- !app_assoc.
  - by apply bencode_string_spec.
  - match goal with |- (?go _ _ _ ≫= _) = _ => assert (forall out r, go out r l =
      Some (out ++ flat_map unparse (map bt_of l), r + zlen (flat_map unparse (map bt_of l)))) as Hgo end.
    { induction IH as [|x l Hx _ IHl]; intros o r; simpl.
      - by rewrite app_nil_r, Z.add_0_r.
      - destruct He as [Hex Hel]. rewrite Hx by done. cbn [mbind option_bind]. rewrite IHl by done.
        f_equal. zpair. by rewrite <- app_assoc. }
    rewrite Hgo. cbn [mbind option_bind kind_char]. f_equal. zpair. by rewrite <- !app_assoc.
  - match goal with |- (?go _ _ _ ≫= _) = _ => assert (forall out r, go out r d =
      Some (out ++ flat_map unparse (flat_map (fun '(k, x) => [str_bt k; bt_of x]) d),
            r + zlen (flat_map unparse (flat_map (fun '(k, x) => [str_bt k; bt_of x]) d)))) as Hgo end.
    { induction IH as [|[k x] d Hx _ IHd]; intros o r.
      - simpl. by rewrite app_nil_r, Z.add_0_r.
      - destruct He as (Hk & Hex & Hed). rewrite bencode_string_spec by done. cbn [mbind option_bind].
        simpl in Hx. rewrite Hx by done. cbn [mbind option_bind]. rewrite IHd by done.
        cbn [flat_map app]. f_equal. zpair. by rewrite <- !app_assoc. }
    rewrite Hgo. cbn [mbind option_bind kind_char]. f_equal. zpair. by rewrite <- !app_assoc.
  - done.
  - done.
Qed.
End bencode_spec.

Lemma str_bt_wf s : short s -> bt_wf (str_bt s).
Proof.
  unfold short. intros Hs. destruct (dec_string_spec (zlen s)) as (H1 & H2 & H3 & H4); [lia|].
  simpl. split_and!; try done. by apply H4.
Qed.

Lemma bt_of_wf e : encodable e -> bt_wf (bt_of e).
Proof.
  induction e as [v|s|l IH|d IH| |v] using entry_ind'; intros He.
  - simpl in He. destruct (dec_string_spec (Z.abs v)) as (H1 & H2 & H3 & H4); [lia|].
    cbn [bt_of bt_wf]. split_and!; try done. apply H4; lia.
  - by apply str_bt_wf.
  - cbn [bt_of]. apply bt_wf_seq. split; [|done].
    induction IH as [|x l Hx _ IHl]; simpl; constructor; destruct He; auto.
  - cbn [bt_of]. apply bt_wf_seq. simpl in He.
    induction IH as [|[k x] d Hx _ IHd]; simpl; [by split; [constructor|]|].
    destruct He as (Hk & Hex & Hed). destruct (IHd Hed) as [IH1 IH2]. split.
    + constructor; [by apply str_bt_wf|]. constructor; auto.
    + done.
  - by apply str_bt_wf.
  - done.
Qed.

(** ** Reading the tree of an entry *)

Lemma str_lt_irrefl a : str_lt a a = false.
Proof. induction a as [|x a IH]; simpl; [done|]. rewrite Z.ltb_irrefl, IH. by rewrite andb_false_r. Qed.

Lemma str_lt_trans a b c : str_lt a b = true -> str_lt b c = true -> str_lt a c = true.
Proof.
  revert b c. induction a as [|x a IH]; intros [|y b] [|z c]; simpl; try done.
  rewrite !orb_true_iff, !andb_true_iff, !Z.ltb_lt, !Z.eqb_eq.
  intros [?|[-> ?]] [?|[-> ?]]; [left; lia|by left|by left|right; split; [done|by eapply IH]].
Qed.

Lemma str_lt_asym a b : str_lt a b = true -> str_lt b a = false.
Proof.
  intros H. destruct (str_lt b a) eqn:E; [|done].
  pose proof (str_lt_trans _ _ _ H E) as Hc. by rewrite str_lt_irrefl in Hc.
Qed.

Lemma keys_increase_cons k x d :
  keys_increase ((k, x) :: d) = true ->
  keys_increase d = true /\ Forall (fun jy => str_lt k jy.1 = true) d.
Proof.
  revert k x. induction d as [|[j y] d IH]; intros k x; simpl; [by split; [|constructor]|].
  intros [Hlt Hd]%andb_true_iff. split; [done|]. constructor; [done|].
  destruct (IH j y Hd) as [_ Hall]. eapply Forall_impl; [exact Hall|].
  intros [i z] H. by eapply str_lt_trans.
Qed.

(** A key above all those of a map goes last. *)
Lemma map_last k v d :
  Forall (fun jy => str_lt jy.1 k = true) d ->
  map_find k d = None /\ map_insert k v d = d ++ [(k, v)].
Proof.
  induction 1 as [|[j y] d Hj _ [IH1 IH2]]; simpl; [done|]. simpl in Hj.
  assert (j <> k) by (intros ->; by rewrite str_lt_irrefl in Hj).
  rewrite !decide_False by done. rewrite str_lt_asym by done. by rewrite IH1, IH2.
Qed.

Lemma int_of_dec v : - 2 ^ 63 < v < 2 ^ 63 -> int_of (v <? 0) (dec_string (Z.abs v)) = v.
Proof.
  intros Hv. destruct (dec_string_spec (Z.abs v)) as (_ & _ & H & _); [lia|].
  unfold int_of. rewrite H, decide_True by (unfold int64_max; lia).
  destruct (Z.ltb_spec v 0); lia.
Qed.

Lemma dict_assign_app d0 d :
  Forall (fun kx : list Z * entry => tree_assign EUndef (bt_of kx.2) = Ok (defined kx.2)) d ->
  keys_increase d = true ->
  Forall (fun jy => Forall (fun kx : list Z * entry => str_lt jy.1 kx.1 = true) d) d0 ->
  dict_assign tree_assign d0 (flat_map (fun '(k, x) => [str_bt k; bt_of x]) d) =
  Ok (d0 ++ map (fun '(k, x) => (k, defined x)) d).
Proof.
  intros Hd. revert d0. induction Hd as [|[k x] d Hx _ IH]; intros d0 Hinc Hlt; simpl.
  - by rewrite app_nil_r.
  - simpl in Hx. destruct (keys_increase_cons _ _ _ Hinc) as [Hinc' Hk].
    destruct (map_last k (defined x) d0) as [Hfind Hins].
    { eapply Forall_impl; [exact Hlt|]. intros jy Hjy. by inversion Hjy. }
    rewrite Hfind, Hx. cbn [mbind res_bind]. rewrite Hins, IH; [by rewrite <- app_assoc|done|].
    apply Forall_app. split; [|by constructor].
    eapply Forall_impl; [exact Hlt|]. intros jy Hjy. by inversion Hjy.
Qed.

Lemma tree_assign_bt_of e : encodable e -> map_ok e -> tree_assign EUndef (bt_of e) = Ok (defined e).
Proof.
  induction e as [v|s|l IH|d IH| |v] using entry_ind'; intros He Hm; try done.
  - simpl. by rewrite int_of_dec.
  - simpl. assert (forall l0, list_assign tree_assign l0 (map bt_of l) = Ok (l0 ++ map defined l)) as ->; [|done].
    simpl in He, Hm. induction IH as [|x l Hx _ IHl]; intros l0; simpl; [by rewrite app_nil_r|].
    destruct He, Hm. rewrite Hx by done. cbn [mbind res_bind].
    rewrite IHl by done. by rewrite <- app_assoc.
  - simpl in *. destruct Hm as [Hinc Hm]. rewrite dict_assign_app; [done| |done|constructor].
    clear Hinc. induction IH as [|[k x] d Hx _ IHd]; constructor; simpl in *.
    + apply Hx; tauto.
    + apply IHd; tauto.
Qed.

(** ** The loops over the nodes compute [tree_assign] *)

Definition assigns (assign : entry -> bdecode_node -> res entry) (x : bt) : Prop :=
  forall this c, repr c x -> assign this c = tree_assign this x.

Lemma zget_drop {A} (l : list A) i x : zget l (Z.of_nat i) = Some x -> drop i l = x :: drop (S i) l.
Proof.
  unfold zget. rewrite decide_True, Nat2Z.id by lia. intros H. by apply drop_S.
Qed.

Lemma assign_list_spec assign kids off fuel i n l :
  Forall (assigns assign) kids -> keeps n off KList kids -> (i <= length kids)%nat ->
  (length kids - i < fuel)%nat ->
  assign_list assign fuel (Z.of_nat i) n l = list_assign tree_assign l (drop i kids).
Proof.
  intros Hall. revert i n l. induction fuel as [|fuel IH]; intros i n l [Hn Hc] Hi Hf; [lia|].
  cbn [assign_list].
  destruct (list_size_spec n off kids Hn Hc) as (n1 & -> & Hn1 & Hc1). cbn [of_option mbind res_bind].
  destruct (Z.ltb_spec (Z.of_nat i) (zlen kids)) as [Hlt|Hge].
  - destruct (list_at_spec n1 off kids (Z.of_nat i) Hn1 Hc1) as (c & n2 & x & -> & Hx & Hr & Hk); [lia|].
    cbn [of_option mbind res_bind]. rewrite (zget_drop _ _ _ Hx). cbn [list_assign].
    pose proof Hx as Hx'. unfold zget in Hx'. rewrite decide_True, Nat2Z.id in Hx' by lia.
    rewrite (Forall_lookup_1 _ _ _ _ Hall Hx' EUndef c Hr).
    destruct (tree_assign EUndef x); cbn [mbind res_bind]; try done.
    replace (Z.of_nat i + 1) with (Z.of_nat (S i)) by lia. apply IH; [done|lia|lia].
  - by rewrite drop_ge by lia.
Qed.

Lemma assign_dict_spec assign kids off fuel i n d :
  Forall (assigns assign) kids -> keeps n off KDict kids -> bt_wf (BSeq KDict kids) ->
  (2 * i <= length kids)%nat -> (length kids - 2 * i < 2 * fuel)%nat ->
  assign_dict assign fuel (Z.of_nat i) n d = dict_assign tree_assign d (drop (2 * i) kids).
Proof.
  intros Hall Hk Hwf. revert i n d Hk. induction fuel as [|fuel IH]; intros i n d [Hn Hc] Hi Hf; [lia|].
  cbn [assign_dict]. pose proof Hwf as Hwf'. apply bt_wf_seq in Hwf' as [_ Hd].
  destruct (Hd eq_refl) as [_ Heven]. pose proof (num_items_dict _ Heven) as Hnum. clear Hd.
  destruct (dict_size_spec n off kids Hn Hc Hwf) as (n1 & -> & Hn1 & Hc1). cbn [of_option mbind res_bind].
  destruct (Z.ltb_spec (Z.of_nat i) (num_items KDict kids)) as [Hlt|Hge].
  - destruct (dict_at_spec n1 off kids (Z.of_nat i) Hn1 Hc1 Hwf)
      as (p & key & c & v & n2 & -> & Hp & Hv & Hr & Hk); [lia|].
    cbn [of_option mbind res_bind].
    replace (2 * Z.of_nat i) with (Z.of_nat (2 * i)) in Hp by lia.
    replace (2 * Z.of_nat i + 1) with (Z.of_nat (S (2 * i))) in Hv by lia.
    rewrite (zget_drop _ _ _ Hp), (zget_drop _ _ _ Hv). cbn [dict_assign].
    pose proof Hv as Hv'. unfold zget in Hv'. rewrite decide_True, Nat2Z.id in Hv' by lia.
    rewrite (Forall_lookup_1 _ _ _ _ Hall Hv' _ c Hr).
    destruct (tree_assign _ v); cbn [mbind res_bind]; try done.
    replace (Z.of_nat i + 1) with (Z.of_nat (S i)) by lia.
    rewrite IH; [|done|lia|lia]. by replace (2 * S i)%nat with (S (S (2 * i))) by lia.
  - by rewrite drop_ge by lia.
Qed.

Lemma height_kid k kids x : x ∈ kids -> (S (height x) <= height (BSeq k kids))%nat.
Proof.
  simpl. intros Hx. induction kids as [|y l IH]; [by apply elem_of_nil in Hx|].
  apply elem_of_cons in Hx as [->|Hx]; simpl; [lia|]. specialize (IH Hx). lia.
Qed.

Lemma entry_assign_spec t :
  bt_wf t -> forall fuel, (height t <= fuel)%nat -> assigns (entry_assign fuel) t.
Proof.
  induction t as [neg ds|p s|k kids IH] using bt_ind'; intros Hwf [|fuel] Hf this n (off & Hn & Hfresh);
    try (simpl in Hf; lia).
  - cbn [entry_assign]. rewrite (node_type_repr _ _ _ Hn). cbn [of_option mbind res_bind].
    destruct Hwf as (H1 & H2 & _). by rewrite (int_value_repr n off neg ds).
  - cbn [entry_assign]. rewrite (node_type_repr _ _ _ Hn). cbn [of_option mbind res_bind].
    by rewrite (string_value_repr n off p s).
  - assert (Forall (assigns (entry_assign fuel)) kids) as Hall.
    { apply bt_wf_seq in Hwf as [Hkids _]. apply Forall_lookup_2. intros i x Hx.
      eapply (Forall_lookup_1 _ _ _ _ IH Hx); [by eapply Forall_lookup_1|].
      apply list_elem_of_lookup_2 in Hx. apply (height_kid k) in Hx. lia. }
    pose proof (kids_le_tokens n off k kids Hn) as Hle.
    assert (keeps n off k kids) as Hk by (split; [done|by apply fresh_cache_ok]).
    cbn [entry_assign]. rewrite (node_type_repr _ _ _ Hn). cbn [of_option mbind res_bind tree_assign].
    destruct k; cbn [kind_tok].
    + destruct (entry_list this) as [l| |]; cbn [mbind res_bind]; try done.
      rewrite (assign_list_spec _ kids off _ 0 n l); [done|done|done|lia|lia].
    + destruct (entry_dict this) as [d| |]; cbn [mbind res_bind]; try done.
      rewrite (assign_dict_spec _ kids off _ 0 n d); [done|done|done|done|lia|lia].
Qed.
