(* ===== verification/BdecodeTheorems.v ===== *)
(** * What bdecode, its nodes and bencode promise

    The properties of the bencoding components: which buffers [bdecode]
    accepts and with what tokens, that it is total and stays inside the buffer,
    what the node queries return, and that encoding then decoding an entry
    gives it back. *)

From Stdlib Require Import ZArith Lia.
From stdpp Require Import base numbers list.
From S2P Require Import Prelude Bdecode BdecodeSyntax BdecodeSpec BdecodeCorrect.
From S2P Require Import BdecodeNode BdecodeNodeSpec Entry EntrySpec.

(** A small document: the dictionary [d1:ai-12e1:bli7eee], and a byte after it. *)
Definition sample : bt :=
  BSeq KDict [BStr [49] [97]; BInt true [49; 50];
              BStr [49] [98]; BSeq KList [BInt false [55]]].
Definition sample_bytes : list Z :=
  [100; 49; 58; 97; 105; 45; 49; 50; 101; 49; 58; 98; 108; 105; 55; 101; 101; 101].

Lemma sample_unparse : unparse sample = sample_bytes.
Proof. reflexivity. Defined.

Lemma sample_wf : bt_wf sample.
Proof. repeat (split || constructor || done || lia). Defined.

Definition sample_node : bdecode_node :=
  root_node sample_bytes (BResult (tokens_of 0 sample ++ [Tok 18 t_end 0 0]) 18 no_error 0).

(** C1 (equivalence): [bdecode] accepts a buffer exactly when it starts with a
    bencoded tree that is within the depth and token limits (an empty string
    being followed by another byte), and the token vector it leaves is the one
    that tree denotes, followed by the final [end] token. *)
Theorem bdecode_accepts_iff buf dl tl toks n :
  zlen buf <= max_offset ->
  decodes_to buf dl tl toks n <->
  exists t rest, bt_wf t /\ buf = unparse t ++ rest /\ end_ok t rest /\
    Z.of_nat (height t) <= dl /\ Z.of_nat (ntoks t) <= tl /\
    toks = tokens_of 0 t ++ [Tok n t_end 0 0] /\ n = zlen (unparse t).
Proof.
  intros Ho. split; [by apply bdecode_sound|].
  intros (t & rest & Ht & -> & He & Hh & Hn & -> & ->).
  eexists. split; [by apply bdecode_complete|]. done.
Qed.

Lemma bdecode_accepts_iff_witness :
  decodes_to (sample_bytes ++ [120]) 3 8 (tokens_of 0 sample ++ [Tok 18 t_end 0 0]) 18.
Proof.
  apply (bdecode_accepts_iff (sample_bytes ++ [120]) 3 8); [vm_compute; discriminate|].
  exists sample, [120]. split; [exact sample_wf|]. split; [reflexivity|].
  split; [intros p Hp; discriminate|]. split; [vm_compute; discriminate|].
  split; [vm_compute; discriminate|]. split; reflexivity.
Defined.

(** C2 (safety): whatever the bytes and the limits, but for a token limit of
    [INT_MIN] that cannot be decremented, [bdecode] returns: it reads no byte
    outside the buffer and no token outside the vector, the loop stops, and the
    positions it reports are inside the buffer. *)
Theorem bdecode_total buf dl tl :
  tl <> - 2 ^ 31 ->
  exists r, bdecode buf dl tl = Some r /\
    0 <= br_buffer_size r <= zlen buf /\ 0 <= br_error_pos r <= zlen buf /\
    (max_offset < zlen buf -> br_ec r = limit_exceeded).
Proof.
  intros Hmin. destruct (decide (zlen buf <= max_offset)) as [Ho|Ho].
  - destruct (bdecode_spec buf dl tl Ho Hmin) as (o & Hl & ->).
    destruct Hl as [t rest lim _ _ _ _ ->|c e pos start rest lim _ _ _ _ Hpos Hst].
    + destruct (finish_total no_error 0 (PState rest (zlen (unparse t)) (tokens_of 0 t) [] lim)) as [toks ->];
        [constructor|]. eexists. split; [reflexivity|]. simpl. split_and!; try lia; rewrite ?length_app; lia.
    + destruct (finish_total e pos (PState rest start (ctx_tokens c) (ctx_stack c) lim)) as [toks ->];
        [apply ctx_stack_in_range|]. eexists. split; [reflexivity|]. simpl. split_and!; lia.
  - unfold bdecode. rewrite (proj2 (Z.ltb_lt _ _)) by lia. eexists. split; [reflexivity|]. simpl.
    split_and!; lia || done.
Qed.

Lemma bdecode_total_witness : exists r, bdecode (sample_bytes ++ [120]) 3 8 = Some r /\ br_buffer_size r <= 19.
Proof.
  destruct (bdecode_total (sample_bytes ++ [120]) 3 8) as (r & E & [_ H] & _); [discriminate|].
  exists r. split; [exact E|exact H].
Defined.

(** On a list node [list_size] is the number of items and
    [list_at] the node of the item at the index, whatever the queries before
    left in the node's cache; the node still stands for the same list after. *)
Theorem list_queries n off kids i :
  repr_at n off (BSeq KList kids) -> cache_ok n off KList kids -> 0 <= i < zlen kids ->
  (exists n', list_size n = Some (zlen kids, n') /\ keeps n' off KList kids) /\
  exists c n' x, list_at n i = Some (c, n') /\ zget kids i = Some x /\ repr c x /\
    keeps n' off KList kids.
Proof. intros Hn Hc Hi. split; [by apply list_size_spec|by apply list_at_spec]. Qed.

Definition sample_list : bdecode_node := child sample_node 4.

Lemma sample_list_repr : repr_at sample_list 12 (BSeq KList [BInt false [55]]).
Proof.
  split.
  - exists (Tok 17 t_end 1 0). split; [|reflexivity].
    exists (take 4 (m_root_tokens sample_node)), (drop 8 (m_root_tokens sample_node)).
    split; reflexivity.
  - exists (take 12 sample_bytes), (drop 17 sample_bytes). split; reflexivity.
Defined.

Lemma list_queries_witness :
  (exists n', list_size sample_list = Some (1, n') /\ keeps n' 12 KList [BInt false [55]]) /\
  exists c n' x, list_at sample_list 0 = Some (c, n') /\ zget [BInt false [55]] 0 = Some x /\
    repr c x /\ keeps n' 12 KList [BInt false [55]].
Proof.
  apply (list_queries sample_list 12 [BInt false [55]] 0 sample_list_repr).
  - split; left; reflexivity.
  - simpl. lia.
Defined.

(** C3 (functional): on a dictionary node [dict_size] is the number of pairs
    and [dict_at] the key and the node of the value of the pair at the index,
    whatever is cached. *)
Theorem dict_queries n off kids i :
  repr_at n off (BSeq KDict kids) -> cache_ok n off KDict kids -> bt_wf (BSeq KDict kids) ->
  0 <= i < num_items KDict kids ->
  (exists n', dict_size n = Some (num_items KDict kids, n') /\ keeps n' off KDict kids) /\
  exists p key c v n', dict_at n i = Some ((key, c), n') /\
    zget kids (2 * i) = Some (BStr p key) /\ zget kids (2 * i + 1) = Some v /\ repr c v /\
    keeps n' off KDict kids.
Proof. intros Hn Hc Hwf Hi. split; [by apply dict_size_spec|by apply dict_at_spec]. Qed.

Definition sample_kids : list bt :=
  [BStr [49] [97]; BInt true [49; 50]; BStr [49] [98]; BSeq KList [BInt false [55]]].

Lemma sample_repr : repr_at sample_node 0 (BSeq KDict sample_kids).
Proof.
  split.
  - exists (Tok 18 t_end 0 0). split; [|reflexivity]. exists [], []. split; reflexivity.
  - exists [], []. split; reflexivity.
Defined.

Lemma dict_queries_witness :
  (exists n', dict_size sample_node = Some (2, n') /\ keeps n' 0 KDict sample_kids) /\
  exists p key c v n', dict_at sample_node 1 = Some ((key, c), n') /\
    zget sample_kids 2 = Some (BStr p key) /\ zget sample_kids 3 = Some v /\ repr c v /\
    keeps n' 0 KDict sample_kids.
Proof.
  apply (dict_queries sample_node 0 sample_kids 1 sample_repr).
  - split; left; reflexivity.
  - exact sample_wf.
  - vm_compute. split; [discriminate|reflexivity].
Defined.

(** [dict_find] returns the node of the value of the first
    pair with the key, and a default node when there is none; so does the
    overload for C strings, whose keys have no null character. *)
Theorem dict_find_first n off kids key :
  repr_at n off (BSeq KDict kids) -> bt_wf (BSeq KDict kids) ->
  let found c := match find_key key kids with Some v => repr c v | None => c = node_default end in
  (exists c, dict_find n key = Some c /\ found c) /\
  (0 ∉ key -> exists c, dict_find_cstr n key = Some c /\ found c).
Proof.
  intros Hn Hwf found. pose proof (kids_le_tokens n off KDict kids Hn) as Hle.
  pose proof Hwf as Hd. apply bt_wf_seq in Hd as [_ Hd]. destruct (Hd eq_refl) as [Hkeys Heven].
  assert (m_token_idx n + 1 = m_token_idx n + 1 + zlen (tokens_of_list (off + 1) [])) as H0
    by (simpl; lia).
  split.
  - unfold dict_find. rewrite H0. apply (dict_find_loop_spec n off kids key); try done; [|lia].
    apply key_matches_str_spec.
  - intros Hnul. unfold dict_find_cstr. rewrite H0.
    apply (dict_find_loop_spec n off kids key); try done; [|lia]. by apply key_matches_cstr_spec.
Qed.

Lemma dict_find_first_witness :
  (exists c, dict_find sample_node [98] = Some c /\ repr c (BSeq KList [BInt false [55]])) /\
  (0 ∉ [98] -> exists c, dict_find_cstr sample_node [98] = Some c /\
                 repr c (BSeq KList [BInt false [55]])).
Proof. apply (dict_find_first sample_node 0 sample_kids [98] sample_repr sample_wf). Defined.

(** C4 (refinement): assigning a decoded buffer to an entry, through the node
    queries, gives the entry of the tree the buffer starts with: the same
    dictionary updates, list items, values and type errors. *)
Theorem entry_assign_decoded buf dl tl r this :
  zlen buf <= max_offset -> bdecode buf dl tl = Some r -> br_ec r = no_error ->
  exists t rest, bt_wf t /\ buf = unparse t ++ rest /\
    entry_assign (S (length (br_tokens r))) this (root_node buf r) = tree_assign this t.
Proof.
  intros Ho Hr Hec.
  destruct (bdecode_sound buf dl tl (br_tokens r) (br_buffer_size r) Ho) as
    (t & rest & Ht & -> & He & Hh & Hn & Htoks & Hsize).
  { exists r. unfold bdecode_ret. by rewrite decide_True. }
  exists t, rest. split_and!; [done..|]. apply entry_assign_spec; [done| |].
  - rewrite Htoks, length_app, length_tokens_of. pose proof (height_le_ntoks t). lia.
  - apply root_repr. by rewrite Htoks, Hsize.
Qed.

Lemma entry_assign_decoded_witness :
  exists t rest, bt_wf t /\ sample_bytes ++ [120] = unparse t ++ rest /\
    entry_assign 10 EUndef (root_node (sample_bytes ++ [120])
      (BResult (tokens_of 0 sample ++ [Tok 18 t_end 0 0]) 18 no_error 0)) = tree_assign EUndef t.
Proof.
  apply (entry_assign_decoded (sample_bytes ++ [120]) 3 8
          (BResult (tokens_of 0 sample ++ [Tok 18 t_end 0 0]) 18 no_error 0) EUndef);
    [vm_compute; discriminate|reflexivity|reflexivity].
Defined.

(** C5 (roundtrip): the bytes [bencode] writes for an entry, followed by
    anything, decode to that entry (an undefined one reads back as an empty
    string), and the count it returns is the number of bytes written. *)
Theorem bencode_bdecode e buf out rest dl tl :
  encodable e -> map_ok e -> zlen buf = 21 ->
  Z.of_nat (height (bt_of e)) <= dl -> Z.of_nat (ntoks (bt_of e)) <= tl ->
  zlen (unparse (bt_of e) ++ rest) <= max_offset -> end_ok (bt_of e) rest ->
  exists bytes, bencode_recursive buf out e = Some (out ++ bytes, zlen bytes) /\
    decode_entry (bytes ++ rest) dl tl = Ok (defined e).
Proof.
  intros He Hm Hbuf Hh Hn Ho Hend. exists (unparse (bt_of e)). split; [by apply bencode_spec|].
  unfold decode_entry. rewrite bdecode_complete by (done || by apply bt_of_wf).
  cbn [of_option mbind res_bind br_tokens].
  rewrite entry_assign_spec with (t := bt_of e).
  - by apply tree_assign_bt_of.
  - by apply bt_of_wf.
  - rewrite length_app, length_tokens_of. pose proof (height_le_ntoks (bt_of e)). lia.
  - by apply root_repr.
Qed.

Lemma bencode_bdecode_witness :
  exists bytes,
    bencode_recursive (replicate 21 0) [] (EDict [([97], EInt (-12)); ([98], EList [EStr []; EUndef])]) =
      Some (bytes, zlen bytes) /\
    decode_entry (bytes ++ [120]) 10 20 =
      Ok (EDict [([97], EInt (-12)); ([98], EList [EStr []; EStr []])]).
Proof.
  apply (bencode_bdecode (EDict [([97], EInt (-12)); ([98], EList [EStr []; EUndef])])
           (replicate 21 0) [] [120] 10 20).
  - vm_compute. repeat split; reflexivity.
  - vm_compute. repeat split; reflexivity.
  - reflexivity.
  - vm_compute. discriminate.
  - vm_compute. discriminate.
  - vm_compute. discriminate.
  - intros p Hp. discriminate.
Defined.
