(* ===== verification/Bitfield.v ===== *)
(** * The bitfield (bitfield.hpp, bitfield.cpp)

    A bit vector in 32-bit words.  [m_buf] is a heap block whose word [-1] is
    the size in bits, or null; bit [i] is bit [i mod 32] from the most
    significant end of word [i / 32] in network order.  The words are stored as
    the little-endian hosts the project is built for store them, so
    [host_to_network] reverses the bytes.  Memory that [malloc] or [realloc]
    adds is indeterminate: its content is an argument ([heap]). *)

From Stdlib Require Import ZArith Lia.
From stdpp Require Import base numbers list.
From S2P Require Import Prelude.

(** ** 32-bit words *)

(** [~x] on a [boost::uint32_t] *)
Definition not32 (x : Z) : Z := u32 (Z.lnot x).

(** [htonl] on a little-endian host *)
Definition host_to_network (x : Z) : Z :=
  Z.shiftl (Z.land x 255) 24 + Z.shiftl (Z.land (Z.shiftr x 8) 255) 16 +
  Z.shiftl (Z.land (Z.shiftr x 16) 255) 8 + Z.land (Z.shiftr x 24) 255.

Definition high_bit : Z := 2147483648.  (* 0x80000000 *)
Definition all_ones : Z := 4294967295.  (* 0xffffffff *)

(** ** The vector *)

Record bitfield := BF { m_buf : option (Z * list Z) }.

Definition bf_empty : bitfield := BF None.

Definition bf_size (b : bitfield) : Z := match m_buf b with None => 0 | Some (n, _) => n end.
Definition bf_words (b : bitfield) : list Z := match m_buf b with None => [] | Some (_, w) => w end.
Definition num_words (b : bitfield) : Z := (bf_size b + 31) / 32.
Definition bf_is_empty (b : bitfield) : bool :=
  match m_buf b with None => true | Some (n, _) => n =? 0 end.

(** The mask of bit [index] in its word. *)
Definition bit_mask (index : Z) : Z := host_to_network (Z.shiftr high_bit (Z.land index 31)).

Definition get_bit (b : bitfield) (index : Z) : option bool :=
  w ← zget (bf_words b) (index / 32);
  Some (negb (Z.land w (bit_mask index) =? 0)).

(** Assignment to a word of the block. *)
Definition update_word (b : bitfield) (i : Z) (f : Z -> Z) : option bitfield :=
  match m_buf b with
  | None => None
  | Some (n, ws) => w ← zget ws i; ws ← zset ws i (f w); Some (BF (Some (n, ws)))
  end.

Definition clear_bit (b : bitfield) (index : Z) : option bitfield :=
  update_word b (index / 32)
    (fun w => Z.land w (host_to_network (not32 (Z.shiftr high_bit (Z.land index 31))))).

Definition set_bit (b : bitfield) (index : Z) : option bitfield :=
  update_word b (index / 32) (fun w => Z.lor w (bit_mask index)).

(** [0xffffffff << (32 - rest)], for [0 < rest] *)
Definition leading_mask (rest : Z) : Z := host_to_network (u32 (Z.shiftl all_ones (32 - rest))).

Definition clear_trailing_bits (b : bitfield) : option bitfield :=
  let rest := Z.land (bf_size b) 31 in
  if rest =? 0 then Some b
  else update_word b (num_words b - 1) (fun w => Z.land w (leading_mask rest)).

(** The words tested one by one from index [i]. *)
Fixpoint words_all (test : Z -> bool) (ws : list Z) (n : nat) (i : Z) : option bool :=
  match n with
  | O => Some true
  | S n => w ← zget ws i; if test w then words_all test ws n (i + 1) else Some false
  end.

Definition none_set (b : bitfield) : option bool :=
  words_all (fun w => w =? 0) (bf_words b) (Z.to_nat (num_words b)) 0.

Definition all_set (b : bitfield) : option bool :=
  let words := bf_size b / 32 in
  full ← words_all (fun w => w =? all_ones) (bf_words b) (Z.to_nat words) 0;
  if negb full then Some false
  else
    let rest := Z.land (bf_size b) 31 in
    if 0 <? rest then
      w ← zget (bf_words b) words;
      let mask := leading_mask rest in
      Some (Z.land w mask =? mask)
    else Some true.

(** One round of the loop of [count]: the bits of a word, counted in parallel. *)
Definition popcount32 (v : Z) : Z :=
  let c := u32 (v - Z.land (Z.shiftr v 1) 0x55555555) in
  let c := u32 (Z.land (Z.shiftr c 2) 0x33333333 + Z.land c 0x33333333) in
  let c := Z.land (u32 (Z.shiftr c 4 + c)) 0x0F0F0F0F in
  let c := Z.land (u32 (Z.shiftr c 8 + c)) 0x00FF00FF in
  Z.land (u32 (Z.shiftr c 16 + c)) 0x0000FFFF.

Fixpoint count_loop (ws : list Z) (n : nat) (i ret : Z) : option Z :=
  match n with
  | O => Some ret
  | S n => v ← zget ws i; count_loop ws n (i + 1) (ret + popcount32 v)
  end.

Definition count (b : bitfield) : option Z :=
  count_loop (bf_words b) (Z.to_nat (num_words b)) 0 0.

(** A block of [n] words that keeps the content of [ws]. *)
Definition realloc_words (heap : nat -> Z) (ws : list Z) (n : Z) : list Z :=
  take (Z.to_nat n) (ws ++ map heap (seq 0 (Z.to_nat n - length ws))).

(** [resize(bits)]; the sum that rounds [bits] up is an [int]. *)
Definition resize_raw (heap : nat -> Z) (b : bitfield) (bits : Z) : option bitfield :=
  if bits =? bf_size b then Some b
  else if negb (is_int (bits + 31)) then None
  else
    let words := (bits + 31) / 32 in
    match m_buf b with
    | Some (_, ws) => clear_trailing_bits (BF (Some (bits, realloc_words heap ws words)))
    | None =>
        if 0 <? bits then clear_trailing_bits (BF (Some (bits, realloc_words heap [] words)))
        else clear_trailing_bits b
    end.

(** [memset] of the words from [i] on. *)
Definition fill_from (b : bitfield) (i : Z) (x : Z) : bitfield :=
  match m_buf b with
  | None => b
  | Some (n, ws) =>
      BF (Some (n, take (Z.to_nat i) ws ++ replicate (length ws - Z.to_nat i) x))
  end.

(** [resize(bits, val)] *)
Definition resize (heap : nat -> Z) (b : bitfield) (bits : Z) (val : bool) : option bitfield :=
  if bits =? bf_size b then Some b
  else
    let s := bf_size b in
    let r := Z.land s 31 in
    b ← resize_raw heap b bits;
    if bf_size b <=? s then Some b
    else
      let old_size_words := (s + 31) / 32 in
      let new_size_words := num_words b in
      if val then
        b ← (if negb (old_size_words =? 0) && negb (r =? 0)
             then update_word b (old_size_words - 1)
                    (fun w => Z.lor w (host_to_network (Z.shiftr all_ones r)))
             else Some b);
        let b := if old_size_words <? new_size_words then fill_from b old_size_words all_ones else b in
        clear_trailing_bits b
      else Some (if old_size_words <? new_size_words then fill_from b old_size_words 0 else b).

Definition set_all (b : bitfield) : option bitfield :=
  match m_buf b with None => Some b | Some _ => clear_trailing_bits (fill_from b 0 all_ones) end.

Definition clear_all (b : bitfield) : bitfield :=
  match m_buf b with None => b | Some _ => fill_from b 0 0 end.

(** [clear()] and the destructor *)
Definition bf_clear (b : bitfield) : bitfield := bf_empty.

(** The 32-bit word that four bytes of a buffer make when they are copied. *)
Definition word_of_bytes (b0 b1 b2 b3 : Z) : Z := b0 + 256 * b1 + 65536 * b2 + 16777216 * b3.

(** [memcpy] over the words: a partial last word keeps its other bytes. *)
Fixpoint copy_bytes (src ws : list Z) {struct ws} : list Z :=
  match ws with
  | [] => []
  | w :: ws =>
      match src with
      | [] => w :: ws
      | b0 :: [] => word_of_bytes b0 (Z.land (Z.shiftr w 8) 255)
                      (Z.land (Z.shiftr w 16) 255) (Z.land (Z.shiftr w 24) 255) :: ws
      | b0 :: b1 :: [] => word_of_bytes b0 b1
                      (Z.land (Z.shiftr w 16) 255) (Z.land (Z.shiftr w 24) 255) :: ws
      | b0 :: b1 :: b2 :: [] => word_of_bytes b0 b1 b2 (Z.land (Z.shiftr w 24) 255) :: ws
      | b0 :: b1 :: b2 :: b3 :: src => word_of_bytes b0 b1 b2 b3 :: copy_bytes src ws
      end
  end.

(** [assign(b, bits)]; reading past the end of the buffer is [None]. *)
Definition assign (heap : nat -> Z) (b : bitfield) (src : list Z) (bits : Z) : option bitfield :=
  b ← resize_raw heap b bits;
  if 0 <? bits then
    if zlen src <? (bits + 7) / 8 then None
    else
      match m_buf b with
      | None => None
      | Some (n, ws) =>
          clear_trailing_bits (BF (Some (n, copy_bytes (take (Z.to_nat ((bits + 7) / 8)) src) ws)))
      end
  else Some b.

(** The memory of the words: what [data()] points at. *)
Definition word_bytes (w : Z) : list Z :=
  [Z.land w 255; Z.land (Z.shiftr w 8) 255; Z.land (Z.shiftr w 16) 255; Z.land (Z.shiftr w 24) 255].
Definition data (b : bitfield) : list Z := concat (map word_bytes (bf_words b)).

(** The copy constructor and [operator=]: [assign(rhs.data(), rhs.size())] *)
Definition bf_copy (heap : nat -> Z) (b rhs : bitfield) : option bitfield := assign heap b (data rhs) (bf_size rhs).

(** ** [const_iterator]: the word it points into and the mask of its bit *)

Record const_iterator := It { it_buf : Z; it_bit : Z }.

Definition it_eqb (x y : const_iterator) : bool := (it_buf x =? it_buf y) && (it_bit x =? it_bit y).

Definition it_deref (b : bitfield) (it : const_iterator) : option bool :=
  w ← zget (bf_words b) (it_buf it);
  Some (negb (Z.land w (host_to_network (it_bit it)) =? 0)).

Definition it_inc (it : const_iterator) : const_iterator :=
  if it_bit it =? 1 then It (it_buf it + 1) high_bit else It (it_buf it) (Z.shiftr (it_bit it) 1).

Definition it_dec (it : const_iterator) : const_iterator :=
  if it_bit it =? high_bit then It (it_buf it - 1) 1 else It (it_buf it) (u32 (Z.shiftl (it_bit it) 1)).

Definition bf_begin (b : bitfield) : const_iterator := It 0 high_bit.

Definition bf_end (b : bitfield) : const_iterator :=
  It (num_words b - (if Z.land (bf_size b) 31 =? 0 then 0 else 1))
     (Z.shiftr high_bit (Z.land (bf_size b) 31)).

(** [for (i = begin(); i != end(); ++i)]: the bits read, in order. *)
Fixpoint it_bits (fuel : nat) (b : bitfield) (i : const_iterator) : option (list bool) :=
  match fuel with
  | O => None
  | S fuel =>
      if it_eqb i (bf_end b) then Some []
      else x ← it_deref b i; l ← it_bits fuel b (it_inc i); Some (x :: l)
  end.

Definition bf_bits (b : bitfield) : option (list bool) := it_bits (S (Z.to_nat (bf_size b))) b (bf_begin b).
