(* ===== verification/BitfieldSpec.v ===== *)
(** * A bitfield as the list of its bits

    [bit_list b] are the bits of a bitfield in order; [bf_wf b] says that the
    block has the words the size asks for, and no bit after the last one.
    Every operation keeps [bf_wf] and is described by what it does to the
    bits. *)

From Stdlib Require Import ZArith Lia.
From stdpp Require Import base numbers list.
From S2P Require Import Prelude Bitfield.

(** ** The place of a bit in a word *)

(** Bit [k] of a word in network order is this bit of the stored word. *)
Definition place (k : Z) : Z := 8 * (k / 8) + (7 - k mod 8).

Definition word_bit (w k : Z) : bool := Z.testbit w (place k).

(** A property of the offsets of a word is checked on each. *)
Lemma offsets (P : Z -> bool) k : forallb P (seqZ 0 32) = true -> 0 <= k < 32 -> P k = true.
Proof.
  intros H Hk. rewrite forallb_forall in H. apply H.
  apply list_elem_of_In, elem_of_seqZ. lia.
Qed.

Lemma offsets2 (P : Z -> Z -> bool) j k :
  forallb (fun j => forallb (P j) (seqZ 0 32)) (seqZ 0 32) = true -> 0 <= j < 32 -> 0 <= k < 32 -> P j k = true.
Proof. intros H Hj Hk. apply (offsets (P j)); [|done]. by apply (offsets (fun j => forallb (P j) (seqZ 0 32))). Qed.

Lemma place_range k : 0 <= k < 32 -> 0 <= place k < 32.
Proof.
  intros Hk. assert (((0 <=? place k) && (place k <? 32)) = true) as H; [|lia].
  by apply (offsets (fun k => (0 <=? place k) && (place k <? 32))).
Qed.

Lemma place_inj j k : 0 <= j < 32 -> 0 <= k < 32 -> place j = place k -> j = k.
Proof.
  intros Hj Hk He.
  pose proof (offsets2 (fun j k => negb (place j =? place k) || (j =? k)) j k ltac:(by vm_compute) Hj Hk) as H.
  simpl in H. rewrite He, Z.eqb_refl in H. simpl in H. lia.
Qed.

Lemma place_onto i : 0 <= i < 32 -> exists k, 0 <= k < 32 /\ place k = i.
Proof.
  intros Hi. exists (place i). split; [by apply place_range|].
  assert ((place (place i) =? i) = true) as H; [|lia].
  by apply (offsets (fun i => place (place i) =? i)).
Qed.

(** ** Masks *)

Lemma bit_mask_pow k : 0 <= k -> bit_mask k = 2 ^ place (k mod 32).
Proof.
  intros Hk. unfold bit_mask. change 31 with (Z.ones 5). rewrite Z.land_ones by lia. change (2 ^ 5) with 32.
  pose proof (Z.mod_pos_bound k 32 ltac:(lia)) as Hb. set (j := k mod 32) in *.
  assert ((host_to_network (Z.shiftr high_bit j) =? 2 ^ place j) = true) as H; [|lia].
  by apply (offsets (fun j => host_to_network (Z.shiftr high_bit j) =? 2 ^ place j)).
Qed.

Lemma word_mask (w k : Z) : 0 <= k -> negb (Z.land w (bit_mask k) =? 0) = word_bit w (k mod 32).
Proof.
  intros Hk. rewrite bit_mask_pow by done. pose proof (place_range (k mod 32) (Z.mod_pos_bound k 32 ltac:(lia))) as Hp.
  unfold word_bit. set (i := place (k mod 32)) in *.
  assert (Z.land w (2 ^ i) = if Z.testbit w i then 2 ^ i else 0) as ->.
  { apply Z.bits_inj'. intros m Hm. rewrite Z.land_spec, Z.pow2_bits_eqb by lia.
    destruct (Z.eqb_spec i m) as [->|Hne].
    - destruct (Z.testbit w m); [by rewrite Z.pow2_bits_true by lia|by rewrite Z.bits_0].
    - rewrite andb_false_r. destruct (Z.testbit w i); [by rewrite Z.pow2_bits_false by lia|by rewrite Z.bits_0]. }
  destruct (Z.testbit w i); [|done]. by rewrite (proj2 (Z.eqb_neq _ _)) by (apply Z.pow_nonzero; lia).
Qed.

Lemma high_bits w n : 0 <= w < 2 ^ 32 -> 32 <= n -> Z.testbit w n = false.
Proof.
  intros Hw Hn. destruct (Z.eq_dec w 0) as [->|Hne]; [apply Z.bits_0|].
  apply Z.bits_above_log2; [lia|]. pose proof (Z.log2_lt_pow2 w 32 ltac:(lia)). lia.
Qed.

Lemma word_ext w v :
  0 <= w < 2 ^ 32 -> 0 <= v < 2 ^ 32 -> (forall k, 0 <= k < 32 -> word_bit w k = word_bit v k) -> w = v.
Proof.
  intros Hw Hv H. apply Z.bits_inj'. intros n Hn. destruct (Z.ltb_spec n 32) as [Hlt|Hge].
  - destruct (place_onto n ltac:(lia)) as (k & Hk & <-). by apply H.
  - by rewrite !high_bits.
Qed.

Lemma word_set w k j : 0 <= k -> 0 <= j < 32 ->
  word_bit (Z.lor w (bit_mask k)) j = (if decide (j = k mod 32) then true else word_bit w j).
Proof.
  intros Hk Hj. pose proof (Z.mod_pos_bound k 32 ltac:(lia)) as Hb. pose proof (place_range j Hj).
  rewrite bit_mask_pow by done. unfold word_bit. rewrite Z.lor_spec, Z.pow2_bits_eqb by (by apply place_range).
  case_decide as He; [rewrite He, Z.eqb_refl; by rewrite orb_true_r|].
  rewrite (proj2 (Z.eqb_neq _ _)); [by rewrite orb_false_r|]. intros E. apply He. symmetry. by apply place_inj.
Qed.

Definition clear_mask (k : Z) : Z := host_to_network (not32 (Z.shiftr high_bit (Z.land k 31))).

Lemma word_clear w k j : 0 <= k -> 0 <= j < 32 ->
  word_bit (Z.land w (clear_mask k)) j = (if decide (j = k mod 32) then false else word_bit w j).
Proof.
  intros Hk Hj. unfold word_bit, clear_mask. rewrite Z.land_spec.
  change 31 with (Z.ones 5). rewrite Z.land_ones by lia. change (2 ^ 5) with 32.
  pose proof (Z.mod_pos_bound k 32 ltac:(lia)) as Hb. set (i := k mod 32) in *.
  assert (Z.testbit (host_to_network (not32 (Z.shiftr high_bit i))) (place j) = negb (j =? i)) as ->.
  { apply eqb_prop. apply (offsets2 (fun i j => Bool.eqb (Z.testbit (host_to_network (not32 (Z.shiftr high_bit i))) (place j)) (negb (j =? i))) i j); [by vm_compute|done|done]. }
  case_decide as He; [by rewrite He, Z.eqb_refl, andb_false_r|]. by rewrite (proj2 (Z.eqb_neq _ _)), andb_true_r by done.
Qed.

Lemma word_leading w r j : 0 <= r < 32 -> 0 <= j < 32 ->
  word_bit (Z.land w (leading_mask r)) j = (j <? r) && word_bit w j.
Proof.
  intros Hr Hj. unfold word_bit. rewrite Z.land_spec.
  assert (Z.testbit (leading_mask r) (place j) = (j <? r)) as ->; [|apply andb_comm].
  apply eqb_prop. apply (offsets2 (fun r j => Bool.eqb (Z.testbit (leading_mask r) (place j)) (j <? r)) r j); [by vm_compute|done|done].
Qed.

Lemma word_trailing w r j : 0 <= r < 32 -> 0 <= j < 32 ->
  word_bit (Z.lor w (host_to_network (Z.shiftr all_ones r))) j = (r <=? j) || word_bit w j.
Proof.
  intros Hr Hj. unfold word_bit. rewrite Z.lor_spec.
  assert (Z.testbit (host_to_network (Z.shiftr all_ones r)) (place j) = (r <=? j)) as ->; [|apply orb_comm].
  apply eqb_prop. apply (offsets2 (fun r j => Bool.eqb (Z.testbit (host_to_network (Z.shiftr all_ones r)) (place j)) (r <=? j)) r j); [by vm_compute|done|done].
Qed.

Lemma word_ones j : 0 <= j < 32 -> word_bit all_ones j = true.
Proof. intros Hj. apply (offsets (word_bit all_ones)); [by vm_compute|done]. Qed.

Lemma word_zero j : word_bit 0 j = false.
Proof. apply Z.bits_0. Qed.

(** ** The bits of a block *)

Definition bit_of (ws : list Z) (i : Z) : bool := from_option (fun w => word_bit w (i mod 32)) false (zget ws (i / 32)).

Definition bit_list (b : bitfield) : list bool := map (bit_of (bf_words b)) (seqZ 0 (bf_size b)).

Definition word32 (w : Z) : Prop := 0 <= w < 2 ^ 32.

(** A block of the right length. *)
Record bf_loose (b : bitfield) : Prop := {
  lo_size : 0 <= bf_size b;
  lo_words : zlen (bf_words b) = num_words b;
  lo_range : Forall word32 (bf_words b);
}.

(** And no bit is set after the last one. *)
Record bf_wf (b : bitfield) : Prop := {
  wf_loose : bf_loose b;
  wf_tail : forall i, bf_size b <= i -> bit_of (bf_words b) i = false;
}.

Lemma bf_loose_block n ws :
  0 <= n -> zlen ws = (n + 31) / 32 -> Forall word32 ws -> bf_loose (BF (Some (n, ws))).
Proof. by split. Qed.

Lemma word_count n i : 0 <= i < n -> 0 <= i / 32 < (n + 31) / 32.
Proof. intros. split; [apply Z.div_pos; lia|]. apply Z.div_lt_upper_bound; [lia|]. pose proof (Z.mul_div_le (n + 31) 32 ltac:(lia)).
  pose proof (Z.mod_pos_bound (n + 31) 32 ltac:(lia)). pose proof (Z.div_mod (n + 31) 32 ltac:(lia)). lia. Qed.

Lemma length_bit_list b : bf_loose b -> zlen (bit_list b) = bf_size b.
Proof. intros [H _ _]. unfold bit_list. rewrite length_map, length_seqZ. lia. Qed.

Lemma bit_list_get b i : bf_loose b -> zget (bit_list b) i = if decide (0 <= i < bf_size b) then Some (bit_of (bf_words b) i) else None.
Proof.
  intros [H _ _]. unfold bit_list, zget. repeat case_decide; try lia; try done.
  - rewrite list_lookup_fmap. rewrite lookup_seqZ_lt by lia. simpl. do 2 f_equal. lia.
  - rewrite list_lookup_fmap. by rewrite lookup_seqZ_ge by lia.
Qed.

Lemma bit_list_eq b (l : list bool) :
  bf_loose b -> zlen l = bf_size b -> (forall i, 0 <= i < bf_size b -> zget l i = Some (bit_of (bf_words b) i)) ->
  bit_list b = l.
Proof.
  intros Hb Hl H. apply zlist_eq. intros i Hi. rewrite bit_list_get by done. case_decide; [by rewrite H|].
  symmetry. apply zget_ge. lia.
Qed.

Lemma bit_list_lookup b i : bf_loose b -> 0 <= i < bf_size b -> zget (bit_list b) i = Some (bit_of (bf_words b) i).
Proof. intros Hb Hi. rewrite bit_list_get by done. by rewrite decide_True. Qed.

(** A word of the block, and the bits of it. *)
Lemma word_at b i : bf_loose b -> 0 <= i < bf_size b -> exists w, zget (bf_words b) (i / 32) = Some w /\
  word32 w /\ bit_of (bf_words b) i = word_bit w (i mod 32).
Proof.
  intros [Hn Hw Hr] Hi. pose proof (word_count _ _ Hi) as Hc.
  destruct (zget_is_Some (bf_words b) (i / 32)) as [w E]; [unfold num_words in Hw; lia|].
  exists w. split_and!; [done| |unfold bit_of; by rewrite E].
  rewrite Forall_forall in Hr. apply Hr. unfold zget in E. case_decide; [|done]. by eapply list_elem_of_lookup_2.
Qed.

Lemma get_bit_spec b i : bf_loose b -> 0 <= i < bf_size b -> get_bit b i = zget (bit_list b) i.
Proof.
  intros Hb Hi. destruct (word_at b i Hb Hi) as (w & Hw & _ & Hbit). rewrite bit_list_lookup by done.
  unfold get_bit. rewrite Hw, Hbit. simpl. by rewrite word_mask by lia.
Qed.

(** *** One word changes *)

Lemma bit_of_insert ws i j v :
  0 <= i < zlen ws -> bit_of (<[Z.to_nat i := v]> ws) j = if decide (j / 32 = i) then word_bit v (j mod 32) else bit_of ws j.
Proof.
  intros Hi. unfold bit_of. pose proof (zget_zset ws i v (<[Z.to_nat i := v]> ws) (j / 32)) as H.
  rewrite H by (unfold zset; by rewrite decide_True). case_decide as H1; case_decide as H2; try congruence. done.
Qed.

Lemma update_word_loose b i f :
  bf_loose b -> 0 <= i < num_words b -> (forall w, word32 w -> word32 (f w)) ->
  exists b' w, update_word b i f = Some b' /\ zget (bf_words b) i = Some w /\ bf_loose b' /\ bf_size b' = bf_size b /\
    bf_words b' = <[Z.to_nat i := f w]> (bf_words b).
Proof.
  intros [Hn Hw Hr] Hi Hf. destruct b as [[[n ws]|]]; [|change (num_words (BF None)) with 0 in Hi; lia].
  unfold num_words, bf_size, bf_words in *. cbn [m_buf] in *.
  destruct (zget_is_Some ws i) as [w E]; [lia|].
  exists (BF (Some (n, <[Z.to_nat i := f w]> ws))), w. split_and!; [|done| |done|done].
  - unfold update_word. simpl. rewrite E. simpl. unfold zset. rewrite decide_True by lia. done.
  - apply bf_loose_block; [done|by rewrite length_insert|]. apply Forall_insert; [done|]. apply Hf.
    rewrite Forall_forall in Hr. apply Hr. unfold zget in E. case_decide; [|done]. by eapply list_elem_of_lookup_2.
Qed.

Lemma land_word w m : word32 w -> word32 (Z.land w m).
Proof.
  intros [H0 Hw]. split; [apply Z.land_nonneg; auto|]. 
  assert (Z.land w m = Z.land w m mod 2 ^ 32) as ->; [|apply Z.mod_pos_bound; lia].
  rewrite <- Z.land_ones by lia. rewrite <- Z.land_assoc, (Z.land_comm m), Z.land_assoc.
  by rewrite (Z.land_ones w), Z.mod_small by lia.
Qed.

Lemma lor_word w m : word32 w -> word32 m -> word32 (Z.lor w m).
Proof.
  intros [H0 Hw] [H1 Hm]. split; [apply Z.lor_nonneg; auto|].
  assert (Z.lor w m = Z.lor w m mod 2 ^ 32) as ->; [|apply Z.mod_pos_bound; lia].
  rewrite <- Z.land_ones, Z.land_lor_distr_l, !Z.land_ones, !Z.mod_small by lia. done.
Qed.

Lemma bit_mask_word k : 0 <= k -> word32 (bit_mask k).
Proof.
  intros Hk. rewrite bit_mask_pow by done. pose proof (place_range (k mod 32) (Z.mod_pos_bound k 32 ltac:(lia))).
  split; [lia|]. apply Z.pow_lt_mono_r; lia.
Qed.

(** The bits after the change of bit [i]. *)
Lemma update_bit b i f v :
  bf_wf b -> 0 <= i < bf_size b -> (forall w, word32 w -> word32 (f w)) ->
  (forall w j, 0 <= j < 32 -> word_bit (f w) j = if decide (j = i mod 32) then v else word_bit w j) ->
  exists b', update_word b (i / 32) f = Some b' /\ bf_wf b' /\ bf_size b' = bf_size b /\
    bit_list b' = <[Z.to_nat i := v]> (bit_list b).
Proof.
  intros [Hlo Ht] Hi Hf Hv. destruct (update_word_loose b (i / 32) f Hlo) as (b' & w & Hu & Hw & Hlo' & Hsz & Hws);
    [by apply word_count|done|].
  assert (forall j, 0 <= j -> bit_of (bf_words b') j = if decide (j = i) then v else bit_of (bf_words b) j) as Hbits.
  { intros j Hj. rewrite Hws, bit_of_insert by (by apply zget_Some_bound in Hw).
    destruct (decide (j / 32 = i / 32)) as [E|E].
    - rewrite Hv by (apply Z.mod_pos_bound; lia). unfold bit_of. rewrite E, Hw. simpl.
      pose proof (Z.div_mod i 32 ltac:(lia)). pose proof (Z.div_mod j 32 ltac:(lia)).
      repeat case_decide; try done; lia.
    - rewrite decide_False by congruence. done. }
  pose proof (length_bit_list b Hlo) as Hlen.
  exists b'. split_and!; [done| |done|].
  - split; [done|]. intros j Hj. rewrite Hbits by lia. rewrite decide_False by lia. apply Ht. lia.
  - apply bit_list_eq; [done|by rewrite length_insert, Hlen|]. intros j Hj.
    rewrite (zget_zset (bit_list b) i v) by (unfold zset; rewrite decide_True by lia; done).
    rewrite Hbits by lia. rewrite Hsz in Hj. rewrite bit_list_lookup by done. repeat case_decide; congruence || done.
Qed.

Lemma set_bit_spec b i :
  bf_wf b -> 0 <= i < bf_size b ->
  exists b', set_bit b i = Some b' /\ bf_wf b' /\ bf_size b' = bf_size b /\ bit_list b' = <[Z.to_nat i := true]> (bit_list b).
Proof.
  intros Hb Hi. apply update_bit; [done..| |].
  - intros w Hw. apply lor_word; [done|]. apply bit_mask_word. lia.
  - intros w j Hj. apply word_set; lia.
Qed.

Lemma clear_bit_spec b i :
  bf_wf b -> 0 <= i < bf_size b ->
  exists b', clear_bit b i = Some b' /\ bf_wf b' /\ bf_size b' = bf_size b /\ bit_list b' = <[Z.to_nat i := false]> (bit_list b).
Proof.
  intros Hb Hi. apply (update_bit b i _ false); [done..| |].
  - intros w Hw. by apply land_word.
  - intros w j Hj. apply (word_clear w i j); lia.
Qed.

(** ** The last word *)

Lemma num_words_bound b : 0 <= bf_size b ->
  bf_size b <= 32 * num_words b < bf_size b + 32 /\ 0 <= num_words b /\
  (bf_size b mod 32 <> 0 -> num_words b - 1 = bf_size b / 32) /\ (bf_size b mod 32 = 0 -> num_words b = bf_size b / 32).
Proof. intros Hn. unfold num_words. split_and!; zdiv. Qed.

Lemma beyond_words b i : bf_loose b -> 32 * num_words b <= i -> bit_of (bf_words b) i = false.
Proof. intros [_ Hw _] Hi. unfold bit_of. rewrite zget_ge; [done|]. zdiv. Qed.

Lemma rest_mod n : Z.land n 31 = n mod 32.
Proof. change 31 with (Z.ones 5). by rewrite Z.land_ones by zdiv. Qed.

Lemma clear_trailing_bits_spec b :
  bf_loose b -> exists b', clear_trailing_bits b = Some b' /\ bf_wf b' /\ bf_size b' = bf_size b /\
    forall i, 0 <= i < bf_size b -> bit_of (bf_words b') i = bit_of (bf_words b) i.
Proof.
  intros Hb. pose proof (lo_size _ Hb) as Hn. pose proof (num_words_bound b Hn) as (N1 & N2 & N3 & N4).
  unfold clear_trailing_bits. rewrite rest_mod. cbv zeta. set (r := bf_size b mod 32) in *.
  destruct (Z.eqb_spec r 0) as [H0|H0].
  { exists b. split_and!; try done. split; [done|]. intros i Hi. apply beyond_words; [done|]. zdiv. }
  assert (0 <= r < 32) as Hr by (apply Z.mod_pos_bound; zdiv).
  destruct (update_word_loose b (num_words b - 1) (fun w => Z.land w (leading_mask r)) Hb) as (b' & w & Hu & Hw & Hlo & Hsz & Hws);
    [zdiv|intros w Hw; by apply land_word|].
  assert (forall i, 0 <= i -> bit_of (bf_words b') i = (i <? bf_size b) && bit_of (bf_words b) i) as Hbits.
  { intros i Hi. rewrite Hws, bit_of_insert by (by apply zget_Some_bound in Hw).
    pose proof (Z.mod_pos_bound i 32 ltac:(zdiv)).
    case_decide as Hq.
    - rewrite word_leading by done. unfold bit_of. rewrite Hq, Hw. simpl. f_equal. zdiv.
    - destruct (Z.ltb_spec i (bf_size b)); [done|]. simpl. apply beyond_words; [done|]. zdiv. }
  exists b'. split_and!; [done| |done|].
  - split; [done|]. intros i Hi. pose proof (lo_size _ Hb). rewrite Hbits by zdiv. by rewrite (proj2 (Z.ltb_ge _ _)) by zdiv.
  - intros i Hi. rewrite Hbits by zdiv. by rewrite (proj2 (Z.ltb_lt _ _)) by zdiv.
Qed.

(** ** Tests of all bits *)

Lemma words_all_spec test ws n i :
  0 <= i -> i + Z.of_nat n <= zlen ws ->
  words_all test ws n i = Some true /\ (forall q w, i <= q < i + Z.of_nat n -> zget ws q = Some w -> test w = true) \/
  words_all test ws n i = Some false /\ exists q w, i <= q < i + Z.of_nat n /\ zget ws q = Some w /\ test w = false.
Proof.
  revert i. induction n as [|n IH]; intros i Hi Hn; simpl; [left; split; [done|intros; zdiv]|].
  destruct (zget_is_Some ws i) as [w E]; [zdiv|]. rewrite E. simpl. destruct (test w) eqn:Et.
  - destruct (IH (i + 1)) as [[-> H]|[-> (q & v & Hq & Hv & Hf)]]; [zdiv|zdiv| |].
    + left. split; [done|]. intros q v Hq Hv. destruct (Z.eq_dec q i) as [->|Hne]; [congruence|]. apply (H q v); [lia|done].
    + right. split; [done|]. exists q, v. split; [zdiv|done].
  - right. split; [done|]. exists i, w. split; [zdiv|done].
Qed.

Lemma all_bits (f : bool -> bool) b : bf_loose b ->
  forallb f (bit_list b) = true <-> forall i, 0 <= i < bf_size b -> f (bit_of (bf_words b) i) = true.
Proof.
  intros Hb. rewrite forallb_forall. unfold bit_list. split.
  - intros H i Hi. apply H. apply in_map_iff. exists i. split; [done|]. apply list_elem_of_In, elem_of_seqZ. zdiv.
  - intros H x Hx. apply in_map_iff in Hx as (i & <- & Hi). apply list_elem_of_In, elem_of_seqZ in Hi. apply H. zdiv.
Qed.

Lemma bit_of_word ws q k w : 0 <= k < 32 -> zget ws q = Some w -> bit_of ws (32 * q + k) = word_bit w k.
Proof.
  intros Hk Hw. unfold bit_of. assert ((32 * q + k) / 32 = q) as -> by zdiv. assert ((32 * q + k) mod 32 = k) as -> by zdiv.
  by rewrite Hw.
Qed.

Lemma words_range b q w : bf_loose b -> zget (bf_words b) q = Some w -> word32 w.
Proof.
  intros [_ _ H] Hq. rewrite Forall_forall in H. apply H. unfold zget in Hq. case_decide; [|done].
  by eapply list_elem_of_lookup_2.
Qed.

Lemma none_set_spec b : bf_wf b -> none_set b = Some (forallb negb (bit_list b)).
Proof.
  intros [Hlo Ht]. pose proof (num_words_bound b (lo_size _ Hlo)) as (N1 & N2 & _). unfold none_set.
  destruct (words_all_spec (fun w => w =? 0) (bf_words b) (Z.to_nat (num_words b)) 0) as [[-> H]|[-> (q & w & Hq & Hw & Hf)]];
    [zdiv|rewrite (lo_words _ Hlo); zdiv|f_equal; symmetry..].
  - apply (all_bits negb b Hlo). intros i Hi. destruct (word_at b i Hlo Hi) as (w & Hw & _ & ->).
    assert (0 <= i / 32 < num_words b) as Hq by (by apply word_count).
    specialize (H (i / 32) w ltac:(lia) Hw). simpl in H. apply Z.eqb_eq in H as ->. by rewrite word_zero.
  - apply not_true_is_false. intros H. pose proof (proj1 (all_bits negb b Hlo) H) as H'. simpl in Hf.
    apply Z.eqb_neq in Hf. apply Hf, word_ext; [by eapply words_range|done|]. intros k Hk. rewrite word_zero.
    rewrite <- (bit_of_word (bf_words b) q k w) by done.
    destruct (Z.ltb_spec (32 * q + k) (bf_size b)); [|apply Ht; zdiv].
    apply negb_true_iff, H'. zdiv.
Qed.

Lemma leading_all w r : 0 <= r < 32 -> word32 w ->
  (Z.land w (leading_mask r) =? leading_mask r) = true <-> forall k, 0 <= k < r -> word_bit w k = true.
Proof.
  intros Hr Hw. assert (word32 (leading_mask r)) as Hm.
  { assert (((0 <=? leading_mask r) && (leading_mask r <? 2 ^ 32)) = true) as H; [|unfold word32; zdiv].
    by apply (offsets (fun r => (0 <=? leading_mask r) && (leading_mask r <? 2 ^ 32))). }
  assert (forall k, 0 <= k < 32 -> word_bit (leading_mask r) k = (k <? r)) as Hb.
  { intros k Hk. assert (leading_mask r = Z.land all_ones (leading_mask r)) as ->.
    { rewrite Z.land_comm. change all_ones with (Z.ones 32). rewrite Z.land_ones, Z.mod_small by done || zdiv. done. }
    rewrite word_leading, word_ones by done. by rewrite andb_true_r. }
  rewrite Z.eqb_eq. split.
  - intros E k Hk. assert (word_bit (Z.land w (leading_mask r)) k = word_bit (leading_mask r) k) as H by (by rewrite E).
    rewrite word_leading, Hb, (proj2 (Z.ltb_lt _ _)) in H by zdiv. done.
  - intros H. apply word_ext; [by apply land_word|done|]. intros k Hk. rewrite word_leading, Hb by done.
    destruct (Z.ltb_spec k r); [|done]. simpl. apply H. zdiv.
Qed.

Lemma all_set_spec b : bf_loose b -> all_set b = Some (forallb id (bit_list b)).
Proof.
  intros Hlo. pose proof (num_words_bound b (lo_size _ Hlo)) as (N1 & N2 & N3 & N4). pose proof (lo_size _ Hlo) as Hn.
  unfold all_set. rewrite rest_mod. cbv zeta. set (r := bf_size b mod 32) in *. set (n := bf_size b / 32) in *.
  assert (0 <= r < 32 /\ bf_size b = 32 * n + r /\ 0 <= n) as (Hr & Hs & Hn0) by (unfold r, n; zdiv).
  destruct (words_all_spec (fun w => w =? all_ones) (bf_words b) (Z.to_nat n) 0) as [[-> H]|[-> (q & w & Hq & Hw & Hf)]];
    [zdiv|rewrite (lo_words _ Hlo); zdiv| |].
  2:{ simpl. f_equal. symmetry. apply not_true_is_false. intros H. pose proof (proj1 (all_bits id b Hlo) H) as H'.
      simpl in Hf. apply Z.eqb_neq in Hf. apply Hf, word_ext; [by eapply words_range|done|]. intros k Hk. rewrite word_ones by done.
      rewrite <- (bit_of_word (bf_words b) q k w) by done. apply H'. zdiv. }
  assert (forall i, 0 <= i < 32 * n -> bit_of (bf_words b) i = true) as Hfull.
  { intros i Hi. destruct (word_at b i Hlo ltac:(zdiv)) as (w & Hw & _ & ->).
    specialize (H (i / 32) w ltac:(zdiv) Hw). simpl in H. apply Z.eqb_eq in H as ->. apply word_ones. zdiv. }
  simpl. destruct (Z.ltb_spec 0 r) as [H0|H0].
  - destruct (zget_is_Some (bf_words b) n) as [w Hw]; [rewrite (lo_words _ Hlo); zdiv|]. rewrite Hw. simpl. f_equal.
    apply eq_true_iff_eq. rewrite (leading_all w r) by (done || by eapply words_range). rewrite (all_bits id b Hlo). split.
    + intros Hk i Hi. destruct (Z.ltb_spec i (32 * n)); [apply Hfull; zdiv|].
      replace i with (32 * n + (i - 32 * n)) by zdiv. rewrite (bit_of_word _ n _ w) by (done || zdiv). apply Hk. zdiv.
    + intros Hall k Hk. rewrite <- (bit_of_word (bf_words b) n k w) by (done || zdiv). apply Hall. zdiv.
  - f_equal. symmetry. apply (all_bits id b Hlo). intros i Hi. apply Hfull. zdiv.
Qed.

(** ** Filling *)

Lemma fill_from_spec b q x :
  bf_loose b -> 0 <= q <= num_words b -> word32 x ->
  bf_loose (fill_from b q x) /\ bf_size (fill_from b q x) = bf_size b /\
  forall i, 0 <= i < 32 * num_words b ->
    bit_of (bf_words (fill_from b q x)) i = if decide (i / 32 < q) then bit_of (bf_words b) i else word_bit x (i mod 32).
Proof.
  intros [Hn Hw Hr] Hq Hx. destruct b as [[[n ws]|]].
  2:{ split_and!; [done|done|]. intros i Hi. change (num_words (BF None)) with 0 in Hi. lia. }
  unfold num_words, bf_size, bf_words in *. cbn [m_buf fill_from] in *. split_and!; [|done|].
  - apply bf_loose_block; [done| |].
    + rewrite length_app, length_take, length_replicate. lia.
    + apply Forall_app. split; [by apply Forall_take|by apply Forall_replicate].
  - intros i Hi. assert (0 <= i / 32 < zlen ws) as Hb by zdiv. unfold bit_of. case_decide as Hlt.
    + rewrite zget_app_l by (rewrite length_take; lia). unfold zget. rewrite !decide_True by lia.
      by rewrite lookup_take_lt by lia.
    + rewrite zget_app_r by (rewrite length_take; lia). unfold zget. rewrite decide_True by (rewrite length_take; lia).
      rewrite lookup_replicate_2; [done|]. rewrite length_take. lia.
Qed.

Lemma set_all_spec b :
  bf_wf b -> exists b', set_all b = Some b' /\ bf_wf b' /\ bf_size b' = bf_size b /\
    bit_list b' = replicate (Z.to_nat (bf_size b)) true.
Proof.
  intros [Hb Ht]. pose proof (lo_size _ Hb) as Hn. pose proof (num_words_bound b Hn) as (N1 & N2 & _). unfold set_all.
  destruct (m_buf b) as [nw|] eqn:E.
  - destruct (fill_from_spec b 0 all_ones Hb) as (Hlo & Hsz & Hbits); [lia|done|].
    destruct (clear_trailing_bits_spec _ Hlo) as (b' & -> & Hwf & Hsz' & Hb'). rewrite Hsz in *.
    exists b'. split_and!; [done|done|done|]. apply bit_list_eq; [apply Hwf|rewrite length_replicate; lia|].
    intros i Hi. rewrite Hsz' in Hi. rewrite Hb', Hbits by lia. rewrite decide_False by zdiv. rewrite word_ones by zdiv.
    unfold zget. rewrite decide_True by lia. apply lookup_replicate_2. lia.
  - exists b. unfold bit_list, bf_size. rewrite E. by split_and!.
Qed.

Lemma clear_all_spec b :
  bf_wf b -> bf_wf (clear_all b) /\ bf_size (clear_all b) = bf_size b /\
    bit_list (clear_all b) = replicate (Z.to_nat (bf_size b)) false.
Proof.
  intros [Hb Ht]. pose proof (lo_size _ Hb) as Hn. pose proof (num_words_bound b Hn) as (N1 & N2 & _). unfold clear_all.
  destruct (m_buf b) as [nw|] eqn:E; [|split_and!; [done|done|]; unfold bit_list, bf_size; by rewrite E].
  destruct (fill_from_spec b 0 0 Hb) as (Hlo & Hsz & Hbits); [lia|done|].
  assert (forall i, 0 <= i -> bit_of (bf_words (fill_from b 0 0)) i = false) as Hz.
  { intros i Hi. destruct (Z.ltb_spec i (32 * num_words b)).
    - rewrite Hbits by lia. rewrite decide_False by zdiv. apply word_zero.
    - apply beyond_words; [done|]. unfold num_words in *. by rewrite Hsz. }
  split_and!; [|done|].
  - split; [done|]. intros i Hi. apply Hz. lia.
  - apply bit_list_eq; [done|rewrite length_replicate; lia|]. intros i Hi. rewrite Hz by lia.
    unfold zget. rewrite decide_True by lia. apply lookup_replicate_2. lia.
Qed.

(** ** Resizing *)

Section heap.
Context (heap : nat -> Z) (Hheap : forall n, word32 (heap n)).

Lemma realloc_block ws bits :
  0 <= bits -> Forall word32 ws ->
  let n := (bits + 31) / 32 in
  bf_loose (BF (Some (bits, realloc_words heap ws n))) /\
  forall i, 0 <= i < bits -> i / 32 < zlen ws -> bit_of (realloc_words heap ws n) i = bit_of ws i.
Proof.
  intros Hb Hr n. assert (0 <= n) as Hn by (unfold n; zdiv). split.
  - apply bf_loose_block; [done| |].
    + unfold realloc_words. rewrite length_take, length_app, length_map, length_seq. fold n. lia.
    + apply Forall_take, Forall_app. split; [done|]. apply Forall_map, Forall_true. done.
  - intros i Hi Hlt. pose proof (word_count _ _ Hi). unfold bit_of, realloc_words. f_equal. unfold zget.
    rewrite !decide_True by lia. rewrite lookup_take_lt by (fold n in H; lia). apply lookup_app_l. lia.
Qed.

Lemma resize_raw_spec b bits :
  bf_wf b -> 0 <= bits < 2 ^ 31 - 31 ->
  exists b', resize_raw heap b bits = Some b' /\ bf_wf b' /\ bf_size b' = bits /\
    forall i, 0 <= i < bits -> i / 32 < num_words b -> bit_of (bf_words b') i = bit_of (bf_words b) i.
Proof.
  intros [Hb Ht] Hbits. unfold resize_raw. destruct (Z.eqb_spec bits (bf_size b)) as [->|Hne]; [by exists b|].
  rewrite is_int_true by lia. cbn [negb]. cbv zeta. pose proof Hb as [Hn Hw Hr].
  assert (forall ws, ws = bf_words b -> exists b', clear_trailing_bits (BF (Some (bits, realloc_words heap ws ((bits + 31) / 32)))) = Some b' /\
    bf_wf b' /\ bf_size b' = bits /\ forall i, 0 <= i < bits -> i / 32 < num_words b -> bit_of (bf_words b') i = bit_of (bf_words b) i) as H.
  { intros ws ->. destruct (realloc_block (bf_words b) bits (proj1 Hbits) Hr) as [Hlo Hsame].
    destruct (clear_trailing_bits_spec _ Hlo) as (b' & -> & Hwf & Hsz & Hb'). exists b'. split_and!; [done|done|done|].
    intros i Hi Hlt. rewrite Hb' by done. apply Hsame; [done|]. by rewrite Hw. }
  destruct b as [[[n ws]|]]; [by apply (H ws)|]. cbn [m_buf].
  destruct (Z.ltb_spec 0 bits); [by apply (H [])|]. change (bf_size (BF None)) with 0 in Hne. lia.
Qed.

(** The bits of a resized bitfield. *)
Definition resized (l : list bool) (bits : Z) (val : bool) : list bool :=
  take (Z.to_nat bits) (l ++ replicate (Z.to_nat bits - length l) val).

Lemma resized_get l bits val i :
  0 <= i < bits -> zget (resized l bits val) i = if decide (i < zlen l) then zget l i else Some val.
Proof.
  intros Hi. unfold resized, zget. rewrite decide_True by lia. rewrite lookup_take_lt by lia. destruct (decide (i < zlen l)).
  - rewrite lookup_app_l by lia. by rewrite decide_True by lia.
  - rewrite lookup_app_r by lia. apply lookup_replicate_2. lia.
Qed.

Lemma bits_resized b b' val :
  bf_loose b -> bf_loose b' ->
  (forall i, 0 <= i < bf_size b' -> bit_of (bf_words b') i = if decide (i < bf_size b) then bit_of (bf_words b) i else val) ->
  bit_list b' = resized (bit_list b) (bf_size b') val.
Proof.
  intros Hb Hb' H. pose proof (length_bit_list b Hb) as Hlen. pose proof (lo_size _ Hb').
  apply bit_list_eq; [done| |].
  - unfold resized. rewrite length_take, length_app, length_replicate. lia.
  - intros i Hi. rewrite resized_get by done. rewrite H by done. rewrite Hlen. case_decide; [|done].
    apply bit_list_lookup; [done|lia].
Qed.

(** A longer block [b1] whose first [s] bits are those of [b] and whose other
    bits up to the end of the last of [w] words are not set. *)
Definition grown (b b1 : bitfield) (s w : Z) : Prop :=
  bf_wf b1 /\ 0 <= s < bf_size b1 /\ s <= 32 * w < s + 32 /\ w <= num_words b1 /\
  forall i, 0 <= i < 32 * w -> i < bf_size b1 ->
    bit_of (bf_words b1) i = if decide (i < s) then bit_of (bf_words b) i else false.

(** The new words are filled, if there are some. *)
Lemma grow_fill b1 s w x :
  bf_loose b1 -> 0 <= s < bf_size b1 -> s <= 32 * w < s + 32 -> w <= num_words b1 -> word32 x ->
  let b2 := if w <? num_words b1 then fill_from b1 w x else b1 in
  bf_loose b2 /\ bf_size b2 = bf_size b1 /\
  forall i, 0 <= i < 32 * num_words b1 ->
    bit_of (bf_words b2) i = if decide (i < 32 * w) then bit_of (bf_words b1) i else word_bit x (i mod 32).
Proof.
  intros Hb Hs Hw Hle Hx. cbv zeta. destruct (Z.ltb_spec w (num_words b1)).
  - destruct (fill_from_spec b1 w x Hb) as (H1 & H2 & H3); [lia|done|]. split_and!; [done|done|].
    intros i Hi. rewrite H3 by done. repeat case_decide; done || zdiv.
  - split_and!; [done|done|]. intros i Hi. rewrite decide_True by lia. done.
Qed.

Lemma grow_false b b1 s w :
  grown b b1 s w ->
  let b2 := if w <? num_words b1 then fill_from b1 w 0 else b1 in
  bf_wf b2 /\ bf_size b2 = bf_size b1 /\
  forall i, 0 <= i < bf_size b1 -> bit_of (bf_words b2) i = if decide (i < s) then bit_of (bf_words b) i else false.
Proof.
  intros ([Hb1 Ht1] & Hs & Hw & Hle & Hold) b2.
  destruct (grow_fill b1 s w 0 Hb1 Hs Hw Hle) as (H1 & H2 & H3); [done|]. fold b2 in H1, H2, H3.
  pose proof (num_words_bound b1 (lo_size _ Hb1)) as (M1 & M2 & _). split_and!; [|done|].
  - split; [done|]. intros i Hi. destruct (Z.ltb_spec i (32 * num_words b1)).
    + rewrite H3 by lia. case_decide; [apply Ht1; lia|apply word_zero].
    + apply beyond_words; [done|]. unfold num_words in *. by rewrite H2.
  - intros i Hi. rewrite H3 by lia. case_decide; [apply Hold; lia|]. rewrite word_zero. by rewrite decide_False by lia.
Qed.

Lemma grow_true b b1 s w :
  grown b b1 s w ->
  exists b2 b3, (if negb (w =? 0) && negb (s mod 32 =? 0)
             then update_word b1 (w - 1) (fun w => Z.lor w (host_to_network (Z.shiftr all_ones (s mod 32))))
             else Some b1) = Some b2 /\
    clear_trailing_bits (if w <? num_words b1 then fill_from b2 w all_ones else b2) = Some b3 /\
    bf_wf b3 /\ bf_size b3 = bf_size b1 /\
    forall i, 0 <= i < bf_size b1 -> bit_of (bf_words b3) i = if decide (i < s) then bit_of (bf_words b) i else true.
Proof.
  intros ([Hb1 Ht1] & Hs & Hw & Hle & Hold). pose proof (num_words_bound b1 (lo_size _ Hb1)) as (M1 & M2 & _).
  set (r := s mod 32) in *. assert (0 <= r < 32 /\ (r = 0 -> s = 32 * w) /\ (r <> 0 -> s = 32 * (w - 1) + r)) as (Hr & R0 & R1)
    by (unfold r; split_and!; zdiv).
  assert (exists b2, (if negb (w =? 0) && negb (r =? 0)
      then update_word b1 (w - 1) (fun w => Z.lor w (host_to_network (Z.shiftr all_ones r))) else Some b1) = Some b2 /\
    bf_loose b2 /\ bf_size b2 = bf_size b1 /\
    forall i, 0 <= i < 32 * w -> i < bf_size b1 ->
      bit_of (bf_words b2) i = if decide (i < s) then bit_of (bf_words b) i else true) as (b2 & Hr2 & Hlo2 & Hsz2 & H2).
  { destruct (Z.eqb_spec r 0) as [E|E]; [rewrite andb_false_r|].
    - exists b1. split_and!; [done|done|done|]. intros i Hi Hib. rewrite Hold by done. specialize (R0 E).
      by rewrite !decide_True by lia.
    - rewrite (proj2 (Z.eqb_neq w 0)) by lia. cbn [negb andb]. specialize (R1 E).
      destruct (update_word_loose b1 (w - 1) (fun w => Z.lor w (host_to_network (Z.shiftr all_ones r))) Hb1) as (b2 & v & Hu & Hv & Hlo & Hsz & Hws); [lia| |].
      { intros v Hv. apply lor_word; [done|]. assert (((0 <=? host_to_network (Z.shiftr all_ones r)) && (host_to_network (Z.shiftr all_ones r) <? 2 ^ 32)) = true) as H; [|unfold word32; lia].
        by apply (offsets (fun r => (0 <=? host_to_network (Z.shiftr all_ones r)) && (host_to_network (Z.shiftr all_ones r) <? 2 ^ 32))). }
      exists b2. split_and!; [done|done|done|]. intros i Hi Hib. rewrite Hws, bit_of_insert by (by apply zget_Some_bound in Hv).
      case_decide as Hq; [|rewrite Hold by done; rewrite !decide_True by zdiv; done].
      rewrite word_trailing by zdiv. specialize (Hold i Hi Hib). unfold bit_of in Hold at 1. rewrite Hq, Hv in Hold. simpl in Hold.
      rewrite Hold. case_decide as Hlt; [rewrite (proj2 (Z.leb_gt _ _)) by zdiv; done|].
      by rewrite (proj2 (Z.leb_le _ _)) by zdiv. }
  assert (num_words b2 = num_words b1) as Hnw by (unfold num_words; by rewrite Hsz2).
  destruct (grow_fill b2 s w all_ones Hlo2) as (H4 & H5 & H6); [lia|lia|lia|done|].
  rewrite Hnw in *. set (b2' := if w <? num_words b1 then fill_from b2 w all_ones else b2) in *.
  destruct (clear_trailing_bits_spec b2' H4) as (b3 & Hr3 & Hwf3 & Hsz3 & H7).
  exists b2, b3. split_and!; [done|done|done|congruence|]. intros i Hi. rewrite H7 by lia. rewrite H6 by lia.
  case_decide; [apply H2; lia|]. rewrite word_ones by zdiv. by rewrite decide_False by lia.
Qed.

Lemma resize_spec b bits val :
  bf_wf b -> 0 <= bits < 2 ^ 31 - 31 ->
  exists b', resize heap b bits val = Some b' /\ bf_wf b' /\ bf_size b' = bits /\
    bit_list b' = resized (bit_list b) bits val.
Proof.
  intros Hwf Hbits. pose proof Hwf as [Hb Ht]. pose proof (lo_size _ Hb) as Hn. unfold resize.
  pose proof (num_words_bound b Hn) as (N1 & N2 & N3 & N4).
  destruct (Z.eqb_spec bits (bf_size b)) as [->|Hne].
  { exists b. split_and!; [done|done|done|]. apply bits_resized; [done|done|]. intros i Hi. by rewrite decide_True by lia. }
  rewrite rest_mod. cbv zeta. destruct (resize_raw_spec b bits Hwf Hbits) as (b1 & -> & [Hb1 Ht1] & Hs1 & H1).
  cbn [mbind option_bind]. rewrite Hs1. pose proof (num_words_bound b1 ltac:(lia)) as (M1 & M2 & _). rewrite Hs1 in M1.
  destruct (Z.leb_spec bits (bf_size b)) as [Hle|Hgt].
  { exists b1. split_and!; [done|done|done|]. rewrite <- Hs1. apply bits_resized; [done|done|].
    rewrite Hs1. intros i Hi. rewrite decide_True by lia. apply H1; [done|]. zdiv. }
  change ((bf_size b + 31) / 32) with (num_words b). set (w := num_words b) in *.
  assert (grown b b1 (bf_size b) w) as Hg.
  { split; [by split|]. rewrite Hs1. split_and!; try lia. intros i Hi Hib. rewrite H1 by (lia || zdiv).
    case_decide; [done|]. apply Ht. lia. }
  destruct val.
  - destruct (grow_true b b1 _ w Hg) as (b2 & b3 & -> & Hr3 & Hwf3 & Hsz3 & H3). cbn [mbind option_bind].
    exists b3. split_and!; [|done|congruence|].
    + exact Hr3.
    + rewrite <- Hs1, <- Hsz3. apply bits_resized; [done|apply Hwf3|]. by rewrite Hsz3.
  - destruct (grow_false b b1 _ w Hg) as (Hwf2 & Hsz2 & H2). eexists. split_and!; [done|done|congruence|].
    rewrite <- Hs1, <- Hsz2. apply bits_resized; [done|apply Hwf2|]. by rewrite Hsz2.
Qed.
End heap.

(** ** Iteration *)

(** The iterator at bit [k]. *)
Definition it_at (k : Z) : const_iterator := It (k / 32) (Z.shiftr high_bit (k mod 32)).

Lemma bf_end_at b : bf_loose b -> bf_end b = it_at (bf_size b).
Proof.
  intros Hb. pose proof (num_words_bound b (lo_size _ Hb)) as (_ & _ & N3 & N4). unfold bf_end, it_at. rewrite rest_mod.
  f_equal. destruct (Z.eqb_spec (bf_size b mod 32) 0) as [E|E]; [rewrite N4 by done; lia|by apply N3].
Qed.

Lemma it_inc_at k : 0 <= k -> it_inc (it_at k) = it_at (k + 1).
Proof.
  intros Hk. unfold it_inc, it_at. cbn [it_buf it_bit]. pose proof (Z.mod_pos_bound k 32 ltac:(lia)) as Hb.
  destruct (Z.eq_dec (k mod 32) 31) as [E|E].
  - rewrite E. change (Z.shiftr high_bit 31 =? 1) with true. cbv iota.
    assert ((k + 1) / 32 = k / 32 + 1 /\ (k + 1) mod 32 = 0) as [-> ->] by zdiv. done.
  - assert ((k + 1) / 32 = k / 32 /\ (k + 1) mod 32 = k mod 32 + 1) as [-> ->] by zdiv.
    assert ((Z.shiftr high_bit (k mod 32) =? 1) = false) as ->.
    { assert ((Z.shiftr high_bit (k mod 32) =? 1) = (k mod 32 =? 31)) as ->; [|lia].
      apply eqb_prop. by apply (offsets (fun k => Bool.eqb (Z.shiftr high_bit k =? 1) (k =? 31))). }
    by rewrite Z.shiftr_shiftr by lia.
Qed.

Lemma it_eqb_at k n : 0 <= k -> 0 <= n -> it_eqb (it_at k) (it_at n) = (k =? n).
Proof.
  intros Hk Hn. unfold it_eqb, it_at. cbn [it_buf it_bit].
  assert ((Z.shiftr high_bit (k mod 32) =? Z.shiftr high_bit (n mod 32)) = (k mod 32 =? n mod 32)) as ->.
  { apply eqb_prop. apply (offsets2 (fun j k => Bool.eqb (Z.shiftr high_bit j =? Z.shiftr high_bit k) (j =? k)) (k mod 32) (n mod 32));
      [by vm_compute|zdiv|zdiv]. }
  apply eq_true_iff_eq. rewrite andb_true_iff, !Z.eqb_eq. split; [intros [? ?]; zdiv|intros ->; done].
Qed.

Lemma it_deref_at b k : bf_loose b -> 0 <= k < bf_size b -> it_deref b (it_at k) = zget (bit_list b) k.
Proof.
  intros Hb Hk. rewrite <- get_bit_spec by done. unfold it_deref, get_bit, it_at, bit_mask. cbn [it_buf it_bit].
  by rewrite rest_mod.
Qed.

Lemma it_bits_spec b n : bf_loose b -> forall k, 0 <= k -> k + Z.of_nat n = bf_size b ->
  it_bits (S n) b (it_at k) = Some (drop (Z.to_nat k) (bit_list b)).
Proof.
  intros Hb. pose proof (length_bit_list b Hb) as Hlen. induction n as [|n IH]; intros k Hk Hn.
  - cbn [it_bits]. rewrite bf_end_at, it_eqb_at by (done || lia). rewrite (proj2 (Z.eqb_eq _ _)) by lia.
    by rewrite drop_ge by lia.
  - remember (S n) as m. cbn [it_bits]. subst m. rewrite bf_end_at, it_eqb_at by (done || lia).
    rewrite (proj2 (Z.eqb_neq _ _)) by lia. rewrite it_deref_at by (done || lia).
    destruct (zget_is_Some (bit_list b) k) as [x Hx]; [lia|]. rewrite Hx. cbn [mbind option_bind].
    rewrite it_inc_at, IH by lia. cbn [mbind option_bind]. f_equal.
    unfold zget in Hx. rewrite decide_True in Hx by lia. rewrite (drop_S (bit_list b) x (Z.to_nat k)) by done.
    do 2 f_equal. lia.
Qed.

Lemma bf_bits_spec b : bf_loose b -> bf_bits b = Some (bit_list b).
Proof.
  intros Hb. pose proof (lo_size _ Hb). unfold bf_bits. change (bf_begin b) with (it_at 0).
  rewrite it_bits_spec by (done || lia). done.
Qed.

(** ** Bytes *)

Definition byte (x : Z) : Prop := 0 <= x < 256.

(** Bit [i] of a buffer, the first bit of a byte being the highest. *)
Definition byte_bit (src : list Z) (i : Z) : bool := from_option (fun x => Z.testbit x (7 - i mod 8)) false (zget src (i / 8)).

Lemma testbit_split x y n : byte x -> 0 <= n -> Z.testbit (x + 256 * y) n = if n <? 8 then Z.testbit x n else Z.testbit y (n - 8).
Proof.
  intros Hx Hn. unfold byte in Hx. destruct (Z.ltb_spec n 8).
  - rewrite <- (Z.mod_pow2_bits_low (x + 256 * y) 8 n) by lia. f_equal. change (2 ^ 8) with 256.
    rewrite Z.mul_comm, Z.mod_add, Z.mod_small by lia. done.
  - replace n with ((n - 8) + 8) at 1 by lia. rewrite <- Z.div_pow2_bits by lia. f_equal. change (2 ^ 8) with 256.
    rewrite Z.mul_comm, Z.div_add, Z.div_small by lia. lia.
Qed.

Lemma word_of_bytes_nest b0 b1 b2 b3 : word_of_bytes b0 b1 b2 b3 = b0 + 256 * (b1 + 256 * (b2 + 256 * b3)).
Proof. unfold word_of_bytes. lia. Qed.

Lemma word_of_bytes_range b0 b1 b2 b3 : byte b0 -> byte b1 -> byte b2 -> byte b3 -> word32 (word_of_bytes b0 b1 b2 b3).
Proof. unfold byte, word32, word_of_bytes. lia. Qed.

Lemma word_of_bytes_bit b0 b1 b2 b3 k :
  byte b0 -> byte b1 -> byte b2 -> 0 <= k < 32 ->
  word_bit (word_of_bytes b0 b1 b2 b3) k =
  Z.testbit (if k <? 8 then b0 else if k <? 16 then b1 else if k <? 24 then b2 else b3) (7 - k mod 8).
Proof.
  intros H0 H1 H2 Hk. unfold word_bit. rewrite word_of_bytes_nest. unfold place.
  pose proof (Z.mod_pos_bound k 8 ltac:(lia)).
  assert (k / 8 = 0 \/ k / 8 = 1 \/ k / 8 = 2 \/ k / 8 = 3) as Hq by zdiv.
  destruct Hq as [E|[E|[E|E]]]; rewrite E; repeat (rewrite testbit_split by (done || lia));
    repeat match goal with |- context [?x <? ?y] => destruct (Z.ltb_spec x y) end; try zdiv; f_equal; lia.
Qed.

Lemma low_byte w s : byte (Z.land (Z.shiftr w s) 255).
Proof. unfold byte. change 255 with (Z.ones 8). rewrite Z.land_ones by lia. apply Z.mod_pos_bound. lia. Qed.

Lemma copy_bytes_length src ws : length (copy_bytes src ws) = length ws.
Proof.
  revert src. induction ws as [|w ws IH]; intros src; [done|]. simpl.
  destruct src as [|b0 [|b1 [|b2 [|b3 src]]]]; simpl; by rewrite ?IH.
Qed.

Lemma copy_bytes_range src ws : Forall byte src -> Forall word32 ws -> Forall word32 (copy_bytes src ws).
Proof.
  revert src. induction ws as [|w ws IH]; intros src Hs Hw; [constructor|]. apply Forall_cons in Hw as [Hw Hws].
  destruct src as [|b0 [|b1 [|b2 [|b3 src]]]]; simpl; [by constructor|..]; decompose_Forall_hyps; constructor; auto;
    apply word_of_bytes_range; auto using low_byte.
Qed.

Lemma bit_of_cons w ws i : 0 <= i -> bit_of (w :: ws) i = if i <? 32 then word_bit w i else bit_of ws (i - 32).
Proof.
  intros Hi. unfold bit_of. destruct (Z.ltb_spec i 32).
  - assert (i / 32 = 0 /\ i mod 32 = i) as [-> ->] by zdiv. done.
  - assert (i / 32 = (i - 32) / 32 + 1 /\ i mod 32 = (i - 32) mod 32 /\ 0 <= (i - 32) / 32) as (-> & -> & ?) by (split_and!; zdiv).
    unfold zget. rewrite !decide_True by lia. by rewrite Z2Nat.inj_add, Nat.add_1_r by lia.
Qed.

Lemma copy_bytes_bits src ws i :
  Forall byte src -> 0 <= i < 8 * zlen src -> i < 32 * zlen ws -> bit_of (copy_bytes src ws) i = byte_bit src i.
Proof.
  revert src i. induction ws as [|w ws IH]; intros src i Hs Hi Hw; [simpl in Hw; lia|].
  assert (exists c0 c1 c2 c3, copy_bytes src (w :: ws) = word_of_bytes c0 c1 c2 c3 :: copy_bytes (drop 4 src) ws /\
    byte c0 /\ byte c1 /\ byte c2 /\ byte c3 /\ take 4 src = take (length src) [c0; c1; c2; c3]) as
    (c0 & c1 & c2 & c3 & -> & B0 & B1 & B2 & B3 & Ht).
  { assert (forall l, copy_bytes [] l = l) as Hnil by (by intros []).
    destruct src as [|b0 [|b1 [|b2 [|b3 src]]]]; simpl in *; [lia|..]; rewrite ?Hnil; decompose_Forall_hyps;
      do 4 eexists; split_and!; try done; auto using low_byte. by rewrite take_0, take_nil. }
  rewrite bit_of_cons by lia. destruct (Z.ltb_spec i 32).
  - rewrite word_of_bytes_bit by (done || lia). unfold byte_bit.
    assert (zget src (i / 8) = zget [c0; c1; c2; c3] (i / 8)) as ->.
    { unfold zget. rewrite !decide_True by zdiv. assert (0 <= i / 8 < 4 /\ i / 8 < zlen src) as [? ?] by (split; zdiv).
      rewrite <- (lookup_take_lt src 4) by lia. rewrite Ht. apply lookup_take_lt. lia. }
    assert (i / 8 = 0 \/ i / 8 = 1 \/ i / 8 = 2 \/ i / 8 = 3) as Hq by zdiv.
    destruct Hq as [E|[E|[E|E]]]; rewrite E; simpl; repeat match goal with |- context [?x <? ?y] => destruct (Z.ltb_spec x y) end; done || zdiv.
  - rewrite IH; [|by apply Forall_drop|rewrite length_drop; lia|simpl in Hw; lia].
    unfold byte_bit. assert ((i - 32) mod 8 = i mod 8 /\ (i - 32) / 8 = i / 8 - 4) as [-> ->] by zdiv. f_equal.
    unfold zget. rewrite !decide_True by zdiv. rewrite lookup_drop. f_equal. zdiv.
Qed.

Lemma assign_spec heap b src bits :
  (forall n, word32 (heap n)) -> bf_wf b -> 0 <= bits < 2 ^ 31 - 31 -> Forall byte src -> (bits + 7) / 8 <= zlen src ->
  exists b', assign heap b src bits = Some b' /\ bf_wf b' /\ bf_size b' = bits /\
    bit_list b' = map (byte_bit src) (seqZ 0 bits).
Proof.
  intros Hheap Hwf Hbits Hsrc Hlen. unfold assign.
  destruct (resize_raw_spec heap Hheap b bits Hwf Hbits) as (b1 & -> & [Hb1 Ht1] & Hs1 & _). cbn [mbind option_bind].
  destruct (Z.ltb_spec 0 bits) as [H0|H0].
  2:{ exists b1. split_and!; [done|by split|done|]. unfold bit_list. rewrite Hs1. by assert (bits = 0) as -> by lia. }
  rewrite (proj2 (Z.ltb_ge _ _)) by lia. destruct b1 as [[[n ws]|]]; [|change (bf_size (BF None)) with 0 in Hs1; lia].
  change (n = bits) in Hs1. subst n. cbn [m_buf]. destruct Hb1 as [_ Hw Hr]. change (zlen ws = (bits + 31) / 32) in Hw.
  change (Forall word32 ws) in Hr. set (src' := take (Z.to_nat ((bits + 7) / 8)) src).
  assert (Forall byte src') as Hsrc' by (by apply Forall_take).
  assert (bf_loose (BF (Some (bits, copy_bytes src' ws)))) as Hlo.
  { apply bf_loose_block; [apply Hbits|by rewrite copy_bytes_length|by apply copy_bytes_range]. }
  destruct (clear_trailing_bits_spec _ Hlo) as (b2 & -> & Hwf2 & Hs2 & Hb2). change (bf_size b2 = bits) in Hs2.
  exists b2. split_and!; [done|done|done|]. apply bit_list_eq; [apply Hwf2|rewrite length_map, length_seqZ; lia|].
  intros i Hi. rewrite Hs2 in Hi. rewrite Hb2 by done. unfold zget. rewrite decide_True by lia.
  rewrite list_lookup_fmap, lookup_seqZ_lt by lia. simpl. f_equal. replace (0 + Z.of_nat (Z.to_nat i)) with i by lia.
  change (bit_of (bf_words (BF (Some (bits, copy_bytes src' ws)))) i) with (bit_of (copy_bytes src' ws) i).
  rewrite copy_bytes_bits; [|done|unfold src'; rewrite length_take; zdiv|rewrite Hw; zdiv].
  unfold byte_bit, src', zget. rewrite !decide_True by zdiv. by rewrite lookup_take_lt by zdiv.
Qed.

Lemma word_bytes_bit ws i : 0 <= i -> byte_bit (concat (map word_bytes ws)) i = bit_of ws i.
Proof.
  revert i. induction ws as [|w ws IH]; intros i Hi; [unfold byte_bit, bit_of, zget; simpl; by repeat case_decide|].
  rewrite bit_of_cons by done. unfold byte_bit. simpl map. simpl concat. destruct (Z.ltb_spec i 32).
  - pose proof (Z.mod_pos_bound i 8 ltac:(lia)). unfold word_bit, place.
    assert (i / 8 = 0 \/ i / 8 = 1 \/ i / 8 = 2 \/ i / 8 = 3) as Hq by zdiv.
    destruct Hq as [E|[E|[E|E]]]; rewrite E; unfold zget; rewrite decide_True by lia; simpl;
      rewrite Z.land_spec, (Z.ones_spec_low 8) by lia; rewrite andb_true_r, ?Z.shiftr_spec by lia; f_equal; lia.
  - rewrite <- IH by lia. unfold byte_bit. assert ((i - 32) mod 8 = i mod 8 /\ (i - 32) / 8 = i / 8 - 4) as [-> ->] by zdiv.
    f_equal. unfold zget. rewrite !decide_True by zdiv. replace (Z.to_nat (i / 8)) with (4 + Z.to_nat (i / 8 - 4))%nat by zdiv. done.
Qed.

Lemma bf_copy_spec heap b rhs :
  (forall n, word32 (heap n)) -> bf_wf b -> bf_wf rhs -> bf_size rhs < 2 ^ 31 - 31 ->
  exists b', bf_copy heap b rhs = Some b' /\ bf_wf b' /\ bf_size b' = bf_size rhs /\ bit_list b' = bit_list rhs.
Proof.
  intros Hheap Hb [Hlo _] Hmax. pose proof (lo_size _ Hlo) as Hn.
  assert (zlen (data rhs) = 4 * num_words rhs) as Hlen.
  { rewrite <- (lo_words _ Hlo). unfold data. induction (bf_words rhs) as [|w ws IH]; [done|]. simpl in *. lia. }
  destruct (assign_spec heap b (data rhs) (bf_size rhs) Hheap Hb (conj Hn Hmax)) as (b' & Hr & Hwf & Hs & Hbits).
  - unfold data. apply Forall_concat, Forall_map, Forall_true. intros w.
    unfold word_bytes. rewrite !Forall_cons. split_and!; [exact (low_byte w 0)|apply low_byte..|constructor].
  - rewrite Hlen. unfold num_words. zdiv.
  - exists b'. split_and!; [done|done|done|]. rewrite Hbits. unfold bit_list. apply list_fmap_ext. intros k i Hk.
    apply lookup_seqZ in Hk. apply word_bytes_bit. lia.
Qed.
