(* ===== verification/BitfieldRefine.v ===== *)
(** * Counting the bits of a bitfield

    [count] adds the bits of each word in parallel; this is the number of bits
    that are set.  The stages of the word's sum work on its bytes
    independently, and a byte is checked by evaluation. *)

From Stdlib Require Import ZArith Lia.
From stdpp Require Import base numbers list.
From S2P Require Import Prelude Bitfield BitfieldSpec.

(** How many of [f i], ..., [f (i + n - 1)] hold. *)
Fixpoint weight (f : Z -> bool) (i : Z) (n : nat) : Z :=
  match n with O => 0 | S n => (if f i then 1 else 0) + weight f (i + 1) n end.

Lemma weight_ext f g i n : (forall k, i <= k < i + Z.of_nat n -> f k = g k) -> weight f i n = weight g i n.
Proof.
  revert i. induction n as [|n IH]; intros i H; [done|]. simpl. rewrite (H i) by lia. f_equal. apply IH.
  intros k Hk. apply H. lia.
Qed.

Lemma weight_app f i n m : weight f i (n + m) = weight f i n + weight f (i + Z.of_nat n) m.
Proof.
  revert i. induction n as [|n IH]; intros i; cbn [weight Nat.add].
  - replace (i + Z.of_nat 0) with i by lia. lia.
  - rewrite IH. replace (i + 1 + Z.of_nat n) with (i + Z.of_nat (S n)) by lia. lia.
Qed.

Lemma weight_shift f i d n : weight f (i + d) n = weight (fun k => f (k + d)) i n.
Proof. revert i. induction n as [|n IH]; intros i; [done|]. simpl. f_equal. rewrite <- IH. f_equal. lia. Qed.

Lemma weight_filter f n i : zlen (filter (fun x : bool => x = true) (map f (seqZ i (Z.of_nat n)))) = weight f i n.
Proof.
  revert i. induction n as [|n IH]; intros i; [done|].
  rewrite seqZ_cons by lia. replace (Z.pred (Z.of_nat (S n))) with (Z.of_nat n) by lia. simpl map. rewrite filter_cons.
  simpl. rewrite <- IH. replace (Z.succ i) with (i + 1) by lia. destruct (f i); case_decide; simpl; done || lia.
Qed.

(** ** A word and its bytes *)

Lemma land_join a b m M : byte a -> byte m -> Z.land (a + 256 * b) (m + 256 * M) = Z.land a m + 256 * Z.land b M.
Proof.
  intros Ha Hm. assert (byte (Z.land a m)) as Hl.
  { unfold byte in *. split; [apply Z.land_nonneg; lia|]. rewrite <- (Z.mod_small m (2 ^ 8)) by lia.
    rewrite <- Z.land_ones, Z.land_assoc, Z.land_ones by lia. apply Z.mod_pos_bound. lia. }
  apply Z.bits_inj'. intros n Hn. rewrite Z.land_spec, !testbit_split by done.
  destruct (n <? 8); by rewrite Z.land_spec.
Qed.

Lemma shift_join a b s : byte a -> 0 <= s <= 8 ->
  Z.shiftr (a + 256 * b) s = (Z.shiftr a s + 2 ^ (8 - s) * (b mod 2 ^ s)) + 256 * Z.shiftr b s.
Proof.
  intros Ha Hs. rewrite !Z.shiftr_div_pow2 by lia.
  assert (256 = 2 ^ s * 2 ^ (8 - s)) as E by (rewrite <- Z.pow_add_r by lia; by replace (s + (8 - s)) with 8 by lia).
  pose proof (Z.pow_pos_nonneg 2 s ltac:(lia) ltac:(lia)). pose proof (Z.pow_pos_nonneg 2 (8 - s) ltac:(lia) ltac:(lia)).
  rewrite E. replace (2 ^ s * 2 ^ (8 - s) * b) with ((2 ^ (8 - s) * b) * 2 ^ s) by ring.
  rewrite Z.div_add by lia. pose proof (Z.div_mod b (2 ^ s) ltac:(lia)). nia.
Qed.

(** The stages, on a word or a byte with the mask [m]. *)
Definition stage1 (m v : Z) : Z := v - Z.land (Z.shiftr v 1) m.
Definition stage2 (m v : Z) : Z := Z.land (Z.shiftr v 2) m + Z.land v m.
Definition stage3 (m v : Z) : Z := Z.land (Z.shiftr v 4 + v) m.
Definition nibbles (a : Z) : Z := stage2 0x33 (stage1 0x55 a).
Definition byte_count (a : Z) : Z := stage3 0x0F (nibbles a).

Definition check_byte (a : Z) : bool :=
  forallb (fun t => Z.land (Z.shiftr a 1 + 128 * t) 0x55 =? Z.land (Z.shiftr a 1) 0x55) (seqZ 0 2) &&
  forallb (fun t => Z.land (Z.shiftr a 2 + 64 * t) 0x33 =? Z.land (Z.shiftr a 2) 0x33) (seqZ 0 4) &&
  (0 <=? stage1 0x55 a) && (stage1 0x55 a <? 256) && (0 <=? nibbles a) && (nibbles a <? 128) && (nibbles a mod 16 <=? 4) &&
  forallb (fun t => (Z.shiftr (nibbles a) 4 + 16 * t + nibbles a <? 256) &&
                    (Z.land (Z.shiftr (nibbles a) 4 + 16 * t + nibbles a) 0x0F =? byte_count a)) (seqZ 0 5) &&
  (byte_count a =? weight (fun k => Z.testbit a (7 - k)) 0 8).

Lemma checked a : byte a -> check_byte a = true.
Proof.
  intros Ha. assert (forallb check_byte (seqZ 0 256) = true) as H by (by vm_compute).
  rewrite forallb_forall in H. apply H, list_elem_of_In, elem_of_seqZ. unfold byte in Ha. lia.
Qed.

Lemma checked_all (P : Z -> bool) n t : forallb P (seqZ 0 n) = true -> 0 <= t < n -> P t = true.
Proof. intros H Ht. rewrite forallb_forall in H. apply H, list_elem_of_In, elem_of_seqZ. lia. Qed.

Record byte_facts (a : Z) : Prop := {
  bt_leak1 : forall t, 0 <= t < 2 -> Z.land (Z.shiftr a 1 + 128 * t) 0x55 = Z.land (Z.shiftr a 1) 0x55;
  bt_leak2 : forall t, 0 <= t < 4 -> Z.land (Z.shiftr a 2 + 64 * t) 0x33 = Z.land (Z.shiftr a 2) 0x33;
  bt_stage1 : byte (stage1 0x55 a);
  bt_nibbles : 0 <= nibbles a < 128;
  bt_low : nibbles a mod 16 <= 4;
  bt_sum : forall t, 0 <= t < 5 -> Z.shiftr (nibbles a) 4 + 16 * t + nibbles a < 256;
  bt_leak3 : forall t, 0 <= t < 5 -> Z.land (Z.shiftr (nibbles a) 4 + 16 * t + nibbles a) 0x0F = byte_count a;
  bt_count : byte_count a = weight (fun k => Z.testbit a (7 - k)) 0 8;
}.

Lemma byte_checked a : byte a -> byte_facts a.
Proof.
  intros Ha. pose proof (checked a Ha) as H. unfold check_byte in H.
  rewrite !andb_true_iff, !Z.leb_le, !Z.ltb_lt, !Z.eqb_eq in H. destruct H as ((((((((H1 & H2) & H3) & H4) & H5) & H6) & H7) & H8) & H9).
  split; try done.
  - intros t Ht. apply Z.eqb_eq. by apply (checked_all _ 2 t H1).
  - intros t Ht. apply Z.eqb_eq. by apply (checked_all _ 4 t H2).
  - intros t Ht. pose proof (checked_all _ 5 t H8 Ht) as H. apply andb_true_iff in H as [H _]. lia.
  - intros t Ht. pose proof (checked_all _ 5 t H8 Ht) as H. apply andb_true_iff in H as [_ H]. lia.
Qed.

(** The stages on a byte followed by other bits. *)
Lemma stage1_join a b M : byte_facts a -> byte a -> 0 <= b ->
  stage1 (0x55 + 256 * M) (a + 256 * b) = stage1 0x55 a + 256 * stage1 M b.
Proof.
  intros Hf Ha Hb. unfold stage1. rewrite shift_join by (done || lia). change (2 ^ (8 - 1)) with 128. change (2 ^ 1) with 2.
  pose proof (Z.mod_pos_bound b 2 ltac:(lia)).
  assert (0 <= Z.shiftr a 1 < 128) as Hs by (rewrite Z.shiftr_div_pow2 by lia; unfold byte in Ha; change (2 ^ 1) with 2; zdiv).
  rewrite land_join by (unfold byte in *; lia). rewrite (bt_leak1 _ Hf) by lia. lia.
Qed.

Lemma stage2_join a b M : byte_facts a -> byte (stage1 0x55 a) -> 0 <= b ->
  (forall t, 0 <= t < 4 -> Z.land (Z.shiftr (stage1 0x55 a) 2 + 64 * t) 0x33 = Z.land (Z.shiftr (stage1 0x55 a) 2) 0x33) ->
  stage2 (0x33 + 256 * M) (stage1 0x55 a + 256 * b) = nibbles a + 256 * stage2 M b.
Proof.
  intros Hf Ha Hb Hl. unfold nibbles, stage2. rewrite shift_join by (done || lia). change (2 ^ (8 - 2)) with 64. change (2 ^ 2) with 4.
  pose proof (Z.mod_pos_bound b 4 ltac:(lia)).
  assert (0 <= Z.shiftr (stage1 0x55 a) 2 < 64) as Hs by (rewrite Z.shiftr_div_pow2 by lia; unfold byte in Ha; change (2 ^ 2) with 4; zdiv).
  rewrite !land_join by (unfold byte in *; lia). rewrite Hl by lia. lia.
Qed.

Lemma stage3_join a b M : byte_facts a -> 0 <= b -> b mod 16 <= 4 ->
  stage3 (0x0F + 256 * M) (nibbles a + 256 * b) = byte_count a + 256 * stage3 M b.
Proof.
  intros Hf Hb Ht. pose proof (bt_nibbles _ Hf) as Ha. unfold stage3. rewrite shift_join by (unfold byte; lia).
  change (2 ^ (8 - 4)) with 16. change (2 ^ 4) with 16. pose proof (Z.mod_pos_bound b 16 ltac:(lia)).
  assert (0 <= Z.shiftr (nibbles a) 4) as Hs by (apply Z.shiftr_nonneg; lia).
  pose proof (bt_sum _ Hf (b mod 16) ltac:(lia)).
  replace (Z.shiftr (nibbles a) 4 + 16 * (b mod 16) + 256 * Z.shiftr b 4 + (nibbles a + 256 * b))
    with ((Z.shiftr (nibbles a) 4 + 16 * (b mod 16) + nibbles a) + 256 * (Z.shiftr b 4 + b)) by lia.
  rewrite land_join by (unfold byte in *; lia). by rewrite (bt_leak3 _ Hf) by lia.
Qed.

Lemma stage2_leak a : byte_facts a -> byte (stage1 0x55 a) /\
  forall t, 0 <= t < 4 -> Z.land (Z.shiftr (stage1 0x55 a) 2 + 64 * t) 0x33 = Z.land (Z.shiftr (stage1 0x55 a) 2) 0x33.
Proof. intros Hf. pose proof (bt_stage1 _ Hf) as H. split; [done|]. apply (bt_leak2 _ (byte_checked _ H)). Qed.

(** The word of four bytes. *)
Definition join4 (a b c d : Z) : Z := a + 256 * (b + 256 * (c + 256 * d)).

Lemma join4_bytes v : word32 v -> exists a b c d, v = join4 a b c d /\ byte a /\ byte b /\ byte c /\ byte d.
Proof.
  intros Hv. exists (v mod 256), (v / 256 mod 256), (v / 65536 mod 256), (v / 16777216).
  unfold word32, byte, join4 in *. change (2 ^ 32) with 4294967296 in Hv. split_and!; zdiv.
Qed.

Lemma join4_range a b c d : byte a -> byte b -> byte c -> byte d -> word32 (join4 a b c d).
Proof. unfold byte, word32, join4. change (2 ^ 32) with 4294967296. lia. Qed.

Lemma weight_byte a : 0 <= weight (fun k => Z.testbit a (7 - k)) 0 8 <= 8.
Proof. cbn [weight]. repeat match goal with |- context [if ?b then _ else _] => destruct b end; lia. Qed.

(** The sum of a word, stage by stage. *)
Lemma popcount_stages v c1 c2 c3 c4 r :
  stage1 0x55555555 v = c1 -> word32 c1 -> stage2 0x33333333 c1 = c2 -> word32 c2 ->
  word32 (Z.shiftr c2 4 + c2) -> stage3 0x0F0F0F0F c2 = c3 ->
  word32 (Z.shiftr c3 8 + c3) -> Z.land (Z.shiftr c3 8 + c3) 0x00FF00FF = c4 ->
  word32 (Z.shiftr c4 16 + c4) -> Z.land (Z.shiftr c4 16 + c4) 0x0000FFFF = r -> popcount32 v = r.
Proof.
  intros <- W1 <- W2 W3 <- W4 <- W5 <-. unfold popcount32, stage1, stage2, stage3 in *. cbv zeta.
  rewrite (u32_small _ W1), (u32_small _ W2), (u32_small _ W3), (u32_small _ W4), (u32_small _ W5). done.
Qed.

Lemma shift_bytes a b c d : byte a -> byte b -> byte c -> byte d ->
  Z.shiftr (join4 a b c d) 8 = join4 b c d 0 /\ Z.shiftr (join4 a b c d) 16 = join4 c d 0 0.
Proof.
  unfold byte, join4. intros. rewrite !Z.shiftr_div_pow2 by lia. change (2 ^ 8) with 256. change (2 ^ 16) with 65536.
  split; zdiv.
Qed.

Lemma land_bytes a b c d m : byte a -> byte b -> byte c -> byte d ->
  m = 0x00FF00FF -> Z.land (join4 a b c d) m = join4 a 0 c 0.
Proof.
  intros Ha Hb Hc Hd ->. unfold join4. change 0x00FF00FF with (255 + 256 * (0 + 256 * (255 + 256 * 0))).
  unfold byte in *. rewrite !land_join by (unfold byte; lia). rewrite !Z.land_0_r. change 255 with (Z.ones 8).
  rewrite !Z.land_ones, !Z.mod_small by lia. done.
Qed.

Lemma popcount_bytes a b c d : byte a -> byte b -> byte c -> byte d ->
  popcount32 (join4 a b c d) = byte_count a + byte_count b + byte_count c + byte_count d.
Proof.
  intros Ha Hb Hc Hd. pose proof (byte_checked a Ha) as Fa. pose proof (byte_checked b Hb) as Fb.
  pose proof (byte_checked c Hc) as Fc. pose proof (byte_checked d Hd) as Fd.
  destruct (stage2_leak a Fa) as [La La']. destruct (stage2_leak b Fb) as [Lb Lb'].
  destruct (stage2_leak c Fc) as [Lc Lc']. destruct (stage2_leak d Fd) as [Ld _].
  pose proof (bt_nibbles _ Fa) as Na. pose proof (bt_nibbles _ Fb) as Nb. pose proof (bt_nibbles _ Fc) as Nc. pose proof (bt_nibbles _ Fd) as Nd.
  pose proof (bt_low _ Fb) as Mb. pose proof (bt_low _ Fc) as Mc. pose proof (bt_low _ Fd) as Md.
  assert (byte_count a <= 8 /\ byte_count b <= 8 /\ byte_count c <= 8 /\ byte_count d <= 8 /\
    0 <= byte_count a /\ 0 <= byte_count b /\ 0 <= byte_count c /\ 0 <= byte_count d) as Hcount.
  { rewrite (bt_count _ Fa), (bt_count _ Fb), (bt_count _ Fc), (bt_count _ Fd).
    pose proof (weight_byte a). pose proof (weight_byte b). pose proof (weight_byte c). pose proof (weight_byte d). lia. }
  set (na := byte_count a) in *. set (nb := byte_count b) in *. set (nc := byte_count c) in *. set (nd := byte_count d) in *.
  unfold byte in *.
  apply (popcount_stages _ (join4 (stage1 0x55 a) (stage1 0x55 b) (stage1 0x55 c) (stage1 0x55 d))
    (join4 (nibbles a) (nibbles b) (nibbles c) (nibbles d)) (join4 na nb nc nd) (join4 (na + nb) 0 (nc + nd) 0)).
  - unfold join4. change 0x55555555 with (0x55 + 256 * (0x55 + 256 * (0x55 + 256 * 0x55))).
    rewrite !stage1_join by (done || lia). done.
  - by apply join4_range.
  - unfold join4. change 0x33333333 with (0x33 + 256 * (0x33 + 256 * (0x33 + 256 * 0x33))).
    rewrite !stage2_join by (done || lia). done.
  - apply join4_range; unfold byte; lia.
  - unfold word32, join4. rewrite Z.shiftr_div_pow2 by lia. change (2 ^ 4) with 16. change (2 ^ 32) with 4294967296. zdiv.
  - unfold join4. change 0x0F0F0F0F with (0x0F + 256 * (0x0F + 256 * (0x0F + 256 * 0x0F))).
    rewrite !stage3_join by (done || lia || zdiv). done.
  - destruct (shift_bytes na nb nc nd) as [-> _]; [unfold byte; lia..|]. unfold word32, join4. change (2 ^ 32) with 4294967296. lia.
  - destruct (shift_bytes na nb nc nd) as [-> _]; [unfold byte; lia..|].
    replace (join4 nb nc nd 0 + join4 na nb nc nd) with (join4 (na + nb) (nb + nc) (nc + nd) nd) by (unfold join4; lia).
    apply land_bytes; unfold byte; lia.
  - destruct (shift_bytes (na + nb) 0 (nc + nd) 0) as [_ ->]; [unfold byte; lia..|]. unfold word32, join4. change (2 ^ 32) with 4294967296. lia.
  - destruct (shift_bytes (na + nb) 0 (nc + nd) 0) as [_ ->]; [unfold byte; lia..|].
    change 0x0000FFFF with (Z.ones 16). rewrite Z.land_ones by lia. change (2 ^ 16) with 65536. unfold join4. zdiv.
Qed.

Lemma popcount_weight v : word32 v -> popcount32 v = weight (word_bit v) 0 32.
Proof.
  intros Hv. destruct (join4_bytes v Hv) as (a & b & c & d & -> & Ha & Hb & Hc & Hd).
  rewrite popcount_bytes by done.
  rewrite (bt_count _ (byte_checked a Ha)), (bt_count _ (byte_checked b Hb)), (bt_count _ (byte_checked c Hc)), (bt_count _ (byte_checked d Hd)).
  change 32%nat with (8 + (8 + (8 + 8)))%nat. rewrite !weight_app. change (Z.of_nat 8) with 8.
  rewrite (weight_shift _ 0 8), !(weight_shift _ (0 + 8) 8), !(weight_shift _ 0 8), (weight_shift _ (0 + 8 + 8) 8), (weight_shift _ (0 + 8) 8), (weight_shift _ 0 8).
  assert (forall k, 0 <= k < 32 -> word_bit (join4 a b c d) k =
    Z.testbit (if k <? 8 then a else if k <? 16 then b else if k <? 24 then c else d) (7 - k mod 8)) as Hbit.
  { intros k Hk. unfold join4. rewrite <- word_of_bytes_nest. by apply word_of_bytes_bit. }
  rewrite !Z.add_assoc. f_equal; [f_equal; [f_equal|]|]; apply weight_ext; intros k Hk; rewrite Hbit by lia;
    repeat match goal with |- context [?x <? ?y] => destruct (Z.ltb_spec x y) end; try lia; f_equal; zdiv.
Qed.

Lemma count_loop_spec ws n i ret :
  Forall word32 ws -> 0 <= i -> i + Z.of_nat n <= zlen ws ->
  count_loop ws n i ret = Some (ret + weight (bit_of ws) (32 * i) (32 * n)).
Proof.
  intros Hr. revert i ret. induction n as [|n IH]; intros i ret Hi Hn.
  { replace (32 * 0)%nat with 0%nat by lia. cbn [count_loop weight]. f_equal. lia. }
  cbn [count_loop]. destruct (zget_is_Some ws i) as [v Hv]; [lia|]. rewrite Hv. cbn [mbind option_bind].
  assert (word32 v) as Hw.
  { rewrite Forall_forall in Hr. apply Hr. unfold zget in Hv. case_decide; [|done]. by eapply list_elem_of_lookup_2. }
  rewrite IH by lia. f_equal. replace (32 * S n)%nat with (32 + 32 * n)%nat by lia. rewrite weight_app.
  rewrite popcount_weight by done. replace (32 * (i + 1)) with (32 * i + Z.of_nat 32) by lia.
  rewrite <- Z.add_assoc. do 2 f_equal. rewrite <- (Z.add_0_l (32 * i)), weight_shift. apply weight_ext. intros k Hk.
  replace (k + 32 * i) with (32 * i + k) by lia. symmetry. apply bit_of_word; [lia|done].
Qed.

Lemma weight_none f i n : (forall k, i <= k < i + Z.of_nat n -> f k = false) -> weight f i n = 0.
Proof.
  revert i. induction n as [|n IH]; intros i H; [done|]. simpl. rewrite (H i) by lia. rewrite IH; [done|].
  intros k Hk. apply H. lia.
Qed.

Lemma count_spec b : bf_wf b -> count b = Some (zlen (filter (fun x : bool => x = true) (bit_list b))).
Proof.
  intros [Hb Ht]. pose proof (lo_size _ Hb) as Hn. pose proof (num_words_bound b Hn) as (N1 & N2 & _).
  unfold count. rewrite count_loop_spec by (apply Hb || rewrite ?(lo_words _ Hb); lia). f_equal. change (32 * 0) with 0.
  replace (32 * Z.to_nat (num_words b))%nat with (Z.to_nat (bf_size b) + Z.to_nat (32 * num_words b - bf_size b))%nat by lia.
  rewrite weight_app, (weight_none _ (0 + _)) by (intros k Hk; apply Ht; lia). unfold bit_list.
  rewrite <- (weight_filter (bit_of (bf_words b)) (Z.to_nat (bf_size b)) 0). rewrite Z2Nat.id by lia. lia.
Qed.

(** * The bitfield refines a list of booleans

    [bf_step] runs one operation of the class and [list_step] says what it
    does to the bits.  A sequence of operations whose arguments are in range
    runs, whatever the memory the allocator hands out, and keeps the two in
    step ([bf_run_spec]). *)

(** ** The operations *)

Inductive bf_op :=
| OpSet (i : Z) | OpClear (i : Z) | OpSetAll | OpClearAll
| OpResize (bits : Z) (val : bool) | OpAssign (src : list Z) (bits : Z) | OpFree.

Definition bf_step (heap : nat -> Z) (op : bf_op) (b : bitfield) : option bitfield :=
  match op with
  | OpSet i => set_bit b i
  | OpClear i => clear_bit b i
  | OpSetAll => set_all b
  | OpClearAll => Some (clear_all b)
  | OpResize bits val => resize heap b bits val
  | OpAssign src bits => assign heap b src bits
  | OpFree => Some (bf_clear b)
  end.

(** Operation [k] of the sequence sees the memory [heap k]. *)
Fixpoint bf_run (heap : nat -> nat -> Z) (k : nat) (ops : list bf_op) (b : bitfield) : option bitfield :=
  match ops with
  | [] => Some b
  | op :: ops => b ← bf_step (heap k) op b; bf_run heap (S k) ops b
  end.

(** ** What they do to the bits *)

Definition list_step (op : bf_op) (l : list bool) : list bool :=
  match op with
  | OpSet i => <[Z.to_nat i := true]> l
  | OpClear i => <[Z.to_nat i := false]> l
  | OpSetAll => replicate (length l) true
  | OpClearAll => replicate (length l) false
  | OpResize bits val => resized l bits val
  | OpAssign src bits => map (byte_bit src) (seqZ 0 bits)
  | OpFree => []
  end.

(** The arguments the operation is defined for. *)
Definition in_range (op : bf_op) (l : list bool) : Prop :=
  match op with
  | OpSet i | OpClear i => 0 <= i < zlen l
  | OpResize bits _ => 0 <= bits < 2 ^ 31 - 31
  | OpAssign src bits => 0 <= bits < 2 ^ 31 - 31 /\ Forall byte src /\ (bits + 7) / 8 <= zlen src
  | _ => True
  end.

Fixpoint list_run (ops : list bf_op) (l : list bool) : list bool :=
  match ops with [] => l | op :: ops => list_run ops (list_step op l) end.

Fixpoint all_in_range (ops : list bf_op) (l : list bool) : Prop :=
  match ops with [] => True | op :: ops => in_range op l /\ all_in_range ops (list_step op l) end.

(** ** They stay in step *)

Definition represents (b : bitfield) (l : list bool) : Prop := bf_wf b /\ bit_list b = l.

Lemma represents_size b l : represents b l -> bf_size b = zlen l.
Proof. intros [[Hb _] <-]. by rewrite length_bit_list. Qed.

Lemma represents_empty : represents bf_empty [].
Proof.
  split; [|done]. split; [by split|]. intros i _. unfold bit_of, zget. by case_decide.
Qed.

Lemma bf_step_spec heap op b l :
  (forall n, word32 (heap n)) -> represents b l -> in_range op l ->
  exists b', bf_step heap op b = Some b' /\ represents b' (list_step op l).
Proof.
  intros Hh [Hb Hl] Hr. pose proof (represents_size b l (conj Hb Hl)) as Hsz. subst l.
  assert (Z.to_nat (bf_size b) = length (bit_list b)) as Hn by lia.
  destruct op as [i|i| | |bits val|src bits|]; simpl in *.
  - destruct (set_bit_spec b i Hb) as (b' & -> & ? & _ & ?); [lia|]. by exists b'.
  - destruct (clear_bit_spec b i Hb) as (b' & -> & ? & _ & ?); [lia|]. by exists b'.
  - destruct (set_all_spec b Hb) as (b' & -> & ? & _ & E). rewrite Hn in E. by exists b'.
  - destruct (clear_all_spec b Hb) as (? & _ & E). rewrite Hn in E. by eexists.
  - destruct (resize_spec heap Hh b bits val Hb Hr) as (b' & -> & ? & _ & ?). by exists b'.
  - destruct Hr as (H0 & Hs & Hlen). destruct (assign_spec heap b src bits Hh Hb H0 Hs Hlen) as (b' & -> & ? & _ & ?). by exists b'.
  - exists bf_empty. split; [done|]. apply represents_empty.
Qed.

Lemma bf_run_spec heap ops : (forall k n, word32 (heap k n)) -> forall k b l,
  represents b l -> all_in_range ops l ->
  exists b', bf_run heap k ops b = Some b' /\ represents b' (list_run ops l).
Proof.
  intros Hh. induction ops as [|op ops IH]; intros k b l Hb Hr; [by exists b|]. destruct Hr as [Hr Hrs].
  destruct (bf_step_spec (heap k) op b l (Hh k) Hb Hr) as (b1 & Hs & Hb1). cbn [bf_run list_run]. rewrite Hs. simpl.
  by apply IH.
Qed.
