(* ===== verification/BitfieldTheorems.v ===== *)
(** * What the bitfield promises

    The properties of [bitfield]: what a sequence of its operations leaves,
    what each query answers, and that bytes survive [assign] and a copy. *)

From Stdlib Require Import ZArith Lia.
From stdpp Require Import base numbers list.
From S2P Require Import Prelude Bitfield BitfieldSpec BitfieldRefine.

(** Memory whose words are all the same. *)
Definition heap_of (w : Z) (k n : nat) : Z := w.

Lemma heap_of_word w : word32 w -> forall k n, word32 (heap_of w k n).
Proof. by intros H k n. Defined.

(** C6 (refinement): a sequence of the operations of [bitfield] whose arguments
    are in range (bits that exist, sizes whose rounding up to words is an [int],
    enough bytes), run from an empty one, never leaves the words it allocated
    and does to the bits what each operation says, whatever the memory that
    [malloc] and [realloc] hand out; afterwards every query answers for those
    bits: the size, each bit, the iteration from [begin] to [end], the
    population count, and the tests for none and all set. *)
Theorem bitfield_refines heap ops :
  (forall k n, word32 (heap k n)) -> all_in_range ops [] ->
  let l := list_run ops [] in
  exists b, bf_run heap 0 ops bf_empty = Some b /\
    bf_size b = zlen l /\ (forall i, 0 <= i < zlen l -> get_bit b i = zget l i) /\ bf_bits b = Some l /\
    count b = Some (zlen (filter (fun x : bool => x = true) l)) /\
    none_set b = Some (forallb negb l) /\ all_set b = Some (forallb id l).
Proof.
  intros Hh Hr l. destruct (bf_run_spec heap ops Hh 0 bf_empty [] represents_empty Hr) as (b & Hb & Hrep).
  pose proof (represents_size _ _ Hrep) as Hsz. destruct Hrep as [Hwf Hl]. pose proof Hwf as [Hlo _]. subst l. rewrite <- Hl in *.
  exists b. split_and!; [done|done| |by apply bf_bits_spec|by apply count_spec|by apply none_set_spec|by apply all_set_spec].
  intros i Hi. apply get_bit_spec; [done|lia].
Qed.

Lemma bitfield_refines_witness :
  exists b, bf_run (heap_of all_ones) 0 [OpResize 3 false; OpSet 1; OpResize 35 true; OpClear 34; OpAssign [255; 1] 9; OpSetAll] bf_empty
    = Some b /\ count b = Some 9.
Proof.
  destruct (bitfield_refines (heap_of all_ones) [OpResize 3 false; OpSet 1; OpResize 35 true; OpClear 34; OpAssign [255; 1] 9; OpSetAll])
    as (b & Hb & _ & _ & _ & Hc & _).
  - apply heap_of_word. by split.
  - repeat (split || constructor || done).
  - exists b. by split.
Defined.

(** [set_bit] and [clear_bit] of a bit of the field change
    that bit and no other, and keep the invariant that the bits after the last
    one are clear. *)
Theorem bitfield_updates b i :
  bf_wf b -> 0 <= i < bf_size b ->
  exists b1 b0, set_bit b i = Some b1 /\ clear_bit b i = Some b0 /\ bf_wf b1 /\ bf_wf b0 /\
    bf_size b1 = bf_size b /\ bf_size b0 = bf_size b /\
    forall j, 0 <= j < bf_size b ->
      get_bit b1 j = (if decide (j = i) then Some true else get_bit b j) /\
      get_bit b0 j = (if decide (j = i) then Some false else get_bit b j).
Proof.
  intros Hb Hi. destruct (set_bit_spec b i Hb Hi) as (b1 & H1 & W1 & S1 & L1).
  destruct (clear_bit_spec b i Hb Hi) as (b0 & H0 & W0 & S0 & L0). exists b1, b0. split_and!; try done.
  pose proof (length_bit_list b (wf_loose _ Hb)) as Hlen. pose proof (wf_loose _ W1). pose proof (wf_loose _ W0).
  intros j Hj. rewrite (get_bit_spec b1), (get_bit_spec b0), (get_bit_spec b) by (try apply Hb; done || lia).
  rewrite L1, L0. unfold zget. split; rewrite !(decide_True (P := 0 <= j)) by lia; case_decide as Hji;
    first [subst j; apply list_lookup_insert_eq; lia|apply list_lookup_insert_ne; lia].
Qed.

Lemma bitfield_updates_witness :
  let b := BF (Some (3, [96])) in get_bit b 1 = Some true /\ (b' ← clear_bit b 1; get_bit b' 1) = Some false.
Proof.
  split; [done|].
  destruct (bitfield_updates (BF (Some (3, [96]))) 1) as (b1 & b0 & _ & -> & _ & _ & _ & _ & Hj); [|done|].
  - split; [by repeat constructor|]. intros i Hi. change (3 <= i) in Hi. unfold bit_of. cbn [bf_words m_buf].
    destruct (decide (i < 32)) as [Hlt|Hge].
    + rewrite (Z.div_small i 32), (Z.mod_small i 32) by lia.
      assert (i ∈ seqZ 3 29) as Hin by (apply elem_of_seqZ; lia).
      assert (forallb (fun i => negb (word_bit 96 i)) (seqZ 3 29) = true) as Hall by (vm_compute; reflexivity).
      rewrite forallb_forall in Hall. apply negb_true_iff, Hall, list_elem_of_In, Hin.
    + rewrite zget_ge; [done|]. pose proof (Z.div_le_mono 32 i 32 ltac:(lia) ltac:(lia)) as H. change (32 / 32) with 1 in H. simpl. lia.
  - exact (proj2 (Hj 1 ltac:(done))).
Defined.

(** [resize(bits, val)] keeps the old bits that still fit and
    gives the new ones the value [val], whatever [realloc] returns. *)
Theorem bitfield_resize heap b bits val :
  (forall n, word32 (heap n)) -> bf_wf b -> 0 <= bits < 2 ^ 31 - 31 ->
  exists b', resize heap b bits val = Some b' /\ bf_wf b' /\ bf_size b' = bits /\
    forall i, 0 <= i < bits -> get_bit b' i = if decide (i < bf_size b) then get_bit b i else Some val.
Proof.
  intros Hh Hb Hbits. destruct (resize_spec heap Hh b bits val Hb Hbits) as (b' & Hr & Hwf & Hsz & Hl).
  exists b'. split_and!; try done. intros i Hi. rewrite get_bit_spec by (apply Hwf || lia). rewrite Hl.
  pose proof (length_bit_list b (wf_loose _ Hb)) as Hlen. unfold resized, zget. rewrite decide_True by lia.
  rewrite lookup_take_lt by lia. case_decide.
  - rewrite get_bit_spec by (apply Hb || lia). unfold zget. rewrite decide_True by lia. apply lookup_app_l. lia.
  - rewrite lookup_app_r by lia. apply lookup_replicate_2. lia.
Qed.

Lemma bitfield_resize_witness :
  (b ← resize (heap_of 7 0) bf_empty 40 true; get_bit b 39) = Some true.
Proof.
  destruct (bitfield_resize (heap_of 7 0) bf_empty 40 true) as (b' & -> & _ & _ & H).
  - apply heap_of_word. by split.
  - apply represents_empty.
  - done.
  - exact (H 39 ltac:(done)).
Defined.

(** [assign(b, bits)] reads [(bits + 7) / 8] bytes: bit [i] of
    the field is bit [i mod 8], from the most significant end, of byte
    [i / 8]. *)
Theorem bitfield_assign heap b src bits :
  (forall n, word32 (heap n)) -> bf_wf b -> 0 <= bits < 2 ^ 31 - 31 -> Forall byte src -> (bits + 7) / 8 <= zlen src ->
  exists b', assign heap b src bits = Some b' /\ bf_wf b' /\ bf_size b' = bits /\
    forall i, 0 <= i < bits -> get_bit b' i = (fun x => Z.testbit x (7 - i mod 8)) <$> zget src (i / 8).
Proof.
  intros Hh Hb Hbits Hsrc Hlen. destruct (assign_spec heap b src bits Hh Hb Hbits Hsrc Hlen) as (b' & Hr & Hwf & Hsz & Hl).
  exists b'. split_and!; try done. intros i Hi. rewrite get_bit_spec by (apply Hwf || lia). rewrite Hl.
  unfold zget at 1. rewrite decide_True by lia.
  erewrite list_lookup_fmap, lookup_seqZ_lt by lia. simpl. rewrite Z2Nat.id, Z.add_0_l by lia. unfold byte_bit.
  destruct (zget_is_Some src (i / 8)) as [x ->]; [zdiv|]. done.
Qed.

Lemma bitfield_assign_witness :
  (b ← assign (heap_of 0 0) bf_empty [128; 1] 16; get_bit b 15) = Some true.
Proof.
  destruct (bitfield_assign (heap_of 0 0) bf_empty [128; 1] 16) as (b' & -> & _ & _ & H).
  - apply heap_of_word. by split.
  - apply represents_empty.
  - done.
  - by repeat constructor.
  - done.
  - exact (H 15 ltac:(done)).
Defined.

(** Copying a field through its bytes ([operator=]) gives a
    field with the same bits, whatever the target held. *)
Theorem bitfield_copy heap b rhs :
  (forall n, word32 (heap n)) -> bf_wf b -> bf_wf rhs -> bf_size rhs < 2 ^ 31 - 31 ->
  exists b', bf_copy heap b rhs = Some b' /\ bf_wf b' /\ bf_bits b' = bf_bits rhs /\ count b' = count rhs.
Proof.
  intros Hh Hb Hr Hmax. destruct (bf_copy_spec heap b rhs Hh Hb Hr Hmax) as (b' & H & Hwf & _ & Hl).
  exists b'. split_and!; try done; [rewrite !bf_bits_spec by (apply Hwf || apply Hr)|rewrite !count_spec by done]; by rewrite Hl.
Qed.

Lemma bitfield_copy_witness :
  exists b rhs, bf_copy (heap_of 9 0) b rhs = Some rhs /\ bf_bits rhs = Some [true; true; true; true; true].
Proof.
  destruct (bf_run_spec (heap_of 3) [OpResize 5 true] (heap_of_word 3 ltac:(by split)) 0 bf_empty [] represents_empty)
    as (rhs & Hrhs & Hwf & _); [by split|].
  vm_compute in Hrhs. injection Hrhs as <-.
  destruct (bitfield_copy (heap_of 9 0) bf_empty (BF (Some (5, [248]))))
    as (b' & Hb & _ & _ & _); [by apply heap_of_word|apply represents_empty|done|done|].
  exists bf_empty, (BF (Some (5, [248]))). by split.
Defined.

(** Fresh memory whose words are all the same. *)
Lemma fresh_block w bits i :
  word32 w -> 0 <= i < bits -> bit_of (realloc_words (heap_of w 0) [] ((bits + 31) / 32)) i = word_bit w (i mod 32).
Proof.
  intros Hw Hi. unfold bit_of, realloc_words. simpl. rewrite Nat.sub_0_r.
  assert (i / 32 < (bits + 31) / 32) as Hlt by zdiv. assert (0 <= i / 32) as H0 by zdiv.
  unfold zget. rewrite decide_True by done. rewrite lookup_take_lt by lia.
  rewrite list_lookup_fmap, lookup_seq_lt by lia. done.
Qed.

(** [resize(bits)], and with it the constructor that takes only a
    size, leaves the new bits of a field as the allocator returned them: for
    every size and every value there is memory for which all bits have it. *)
Theorem resize_raw_indeterminate bits val :
  0 <= bits < 2 ^ 31 - 31 -> exists w, word32 w /\ exists b, resize_raw (heap_of w 0) bf_empty bits = Some b /\ bf_wf b /\ bf_size b = bits /\
    forall i, 0 <= i < bits -> get_bit b i = Some val.
Proof.
  intros Hb. set (w := if val then all_ones else 0). assert (word32 w) as Hw by (unfold w; by destruct val).
  exists w. split; [done|]. unfold resize_raw. change (bf_size bf_empty) with 0. change (m_buf bf_empty) with (@None (Z * list Z)).
  destruct (Z.eqb_spec bits 0) as [->|Hne]; [exists bf_empty; split_and!; [done|apply represents_empty|done|lia]|].
  rewrite (proj2 (Z.ltb_lt 0 bits)) by lia. rewrite is_int_true by lia. cbn [negb]. cbv zeta.
  destruct (realloc_block (heap_of w 0) (fun n => Hw) [] bits (proj1 Hb)) as [Hlo _]; [by constructor|].
  destruct (clear_trailing_bits_spec _ Hlo) as (b & -> & Hwf & Hsz & Hbits). exists b. split_and!; [done|done|done|].
  intros i Hi. rewrite get_bit_spec by (apply Hwf || rewrite Hsz; done). rewrite bit_list_lookup by (apply Hwf || rewrite Hsz; done).
  rewrite Hbits by done. unfold bf_words. cbn [m_buf]. rewrite fresh_block by done. unfold w. assert (0 <= i mod 32 < 32) by zdiv.
  f_equal. destruct val; [by apply word_ones|apply word_zero].
Qed.

Lemma resize_raw_indeterminate_witness :
  exists w, word32 w /\ exists b, resize_raw (heap_of w 0) bf_empty 40 = Some b /\ get_bit b 39 = Some true.
Proof.
  destruct (resize_raw_indeterminate 40 true) as (w & Hw & b & Hb & _ & _ & Hi); [done|].
  exists w. split; [exact Hw|]. exists b. split; [exact Hb|]. apply Hi. by vm_compute.
Defined.
