(* ===== verification/PickerState.v ===== *)
(** * The state of the piece picker (piece_picker.hpp, piece_picker.cpp)

    The data of [piece_picker]: the position of every piece in the pick list
    and its state, the lists of the pieces being downloaded, their blocks, and
    the counters and cursors.  The operations run in a state monad; [None] is
    undefined behaviour: an access outside a vector or an iterator that does
    not point at an element.  The bit fields and the unsigned members keep the
    low bits of what is assigned to them; the [int] members count pieces and
    blocks, and are integers. *)

From Stdlib Require Import ZArith Lia.
From stdpp Require Import base numbers list.
From S2P Require Import Prelude.

(** ** Pieces *)

(** [piece_pos::state_t] *)
Inductive state_t :=
  | piece_downloading | piece_full | piece_finished | piece_zero_prio | piece_open
  | piece_downloading_reverse | piece_full_reverse.

#[export] Instance state_t_eq_dec : EqDecision state_t.
Proof. solve_decision. Defined.

Record piece_pos := PP {
  peer_count : Z;       (* : 16 *)
  download_state : state_t;
  piece_prio : Z;       (* : 3 *)
  index : Z;            (* boost::uint32_t *)
}.

Definition we_have_index : Z := 4294967295.
Definition filter_priority : Z := 0.
Definition max_peer_count : Z := 65535.
Definition priority_levels : Z := 8.
Definition prio_factor : Z := 3.
Definition num_download_categories : nat := 4.

Definition u16 (x : Z) : Z := x mod 2 ^ 16.
Definition bits15 (x : Z) : Z := x mod 2 ^ 15.
Definition bits14 (x : Z) : Z := x mod 2 ^ 14.

(** [piece_pos(peer_count_, index_)] *)
Definition new_piece_pos (peer_count_ index_ : Z) : piece_pos :=
  PP (u16 peer_count_) piece_open 4 (u32 index_).

(** The members assigned to. *)
Definition with_peer_count (x : Z) (p : piece_pos) : piece_pos :=
  PP (u16 x) (download_state p) (piece_prio p) (index p).
Definition with_download_state (x : state_t) (p : piece_pos) : piece_pos :=
  PP (peer_count p) x (piece_prio p) (index p).
Definition with_piece_prio (x : Z) (p : piece_pos) : piece_pos :=
  PP (peer_count p) (download_state p) (x mod 2 ^ 3) (index p).
Definition with_index (x : Z) (p : piece_pos) : piece_pos :=
  PP (peer_count p) (download_state p) (piece_prio p) (u32 x).

Definition download_queue (p : piece_pos) : state_t :=
  match download_state p with
  | piece_downloading_reverse => piece_downloading
  | piece_full_reverse => piece_full
  | st => st
  end.

Definition reverse_state (p : piece_pos) : bool :=
  match download_state p with piece_downloading_reverse | piece_full_reverse => true | _ => false end.

Definition unreverse (p : piece_pos) : piece_pos :=
  match download_state p with
  | piece_downloading_reverse => with_download_state piece_downloading p
  | piece_full_reverse => with_download_state piece_full p
  | _ => p
  end.

Definition make_reverse (p : piece_pos) : piece_pos :=
  match download_state p with
  | piece_downloading => with_download_state piece_downloading_reverse p
  | piece_full => with_download_state piece_full_reverse p
  | _ => p
  end.

Definition have (p : piece_pos) : bool := index p =? we_have_index.
Definition set_have (p : piece_pos) : piece_pos := with_index we_have_index p.
Definition set_not_have (p : piece_pos) : piece_pos := with_index 0 p.
Definition downloading (p : piece_pos) : bool := negb (bool_decide (download_state p = piece_open)).
Definition filtered (p : piece_pos) : bool := piece_prio p =? filter_priority.

(** [priority(picker)]; of the picker only [m_seeds] is read. *)
Definition priority (seeds : Z) (p : piece_pos) : Z :=
  if filtered p || have p || (peer_count p + seeds =? 0)
     || bool_decide (download_state p = piece_full) || bool_decide (download_state p = piece_finished)
  then -1
  else
    let adjustment :=
      if reverse_state p then -1
      else if bool_decide (download_state p <> piece_open) then -3 else -2 in
    (peer_count p + 1) * (priority_levels - piece_prio p) * prio_factor + adjustment.

(** ** Blocks and downloading pieces *)

Inductive block_state := state_none | state_requested | state_writing | state_finished.

#[export] Instance block_state_eq_dec : EqDecision block_state.
Proof. solve_decision. Defined.

(** A [torrent_peer*] is an address; 0 is the null pointer. *)
Record block_info := BI {
  peer : Z;
  num_peers : Z;        (* : 14 *)
  bstate : block_state;
}.

Definition default_block_info : block_info := BI 0 0 state_none.

Definition with_peer (x : Z) (b : block_info) : block_info := BI x (num_peers b) (bstate b).
Definition with_num_peers (x : Z) (b : block_info) : block_info := BI (peer b) (bits14 x) (bstate b).
Definition with_bstate (x : block_state) (b : block_info) : block_info := BI (peer b) (num_peers b) x.

Record piece_block := PB { piece_index : Z; block_index : Z }.

#[export] Instance piece_block_eq_dec : EqDecision piece_block.
Proof. solve_decision. Defined.

(** [operator<] *)
Definition piece_block_lt (a b : piece_block) : bool :=
  if piece_index a <? piece_index b then true
  else if piece_index a =? piece_index b then block_index a <? block_index b
  else false.

Record downloading_piece := DP {
  dp_index : Z;                 (* boost::uint32_t *)
  dp_info_idx : Z;              (* boost::uint16_t *)
  dp_finished : Z;              (* : 15 *)
  dp_passed_hash_check : bool;
  dp_writing : Z;               (* : 15 *)
  dp_locked : bool;
  dp_requested : Z;             (* : 15 *)
  dp_outstanding_hash_check : bool;
}.

Definition default_downloading_piece : downloading_piece :=
  DP 4294967295 65535 0 false 0 false 0 false.

Definition dp_with_finished (x : Z) (d : downloading_piece) : downloading_piece :=
  DP (dp_index d) (dp_info_idx d) (bits15 x) (dp_passed_hash_check d) (dp_writing d) (dp_locked d)
     (dp_requested d) (dp_outstanding_hash_check d).
Definition dp_with_writing (x : Z) (d : downloading_piece) : downloading_piece :=
  DP (dp_index d) (dp_info_idx d) (dp_finished d) (dp_passed_hash_check d) (bits15 x) (dp_locked d)
     (dp_requested d) (dp_outstanding_hash_check d).
Definition dp_with_requested (x : Z) (d : downloading_piece) : downloading_piece :=
  DP (dp_index d) (dp_info_idx d) (dp_finished d) (dp_passed_hash_check d) (dp_writing d)
     (dp_locked d) (bits15 x) (dp_outstanding_hash_check d).
Definition dp_with_passed (x : bool) (d : downloading_piece) : downloading_piece :=
  DP (dp_index d) (dp_info_idx d) (dp_finished d) x (dp_writing d) (dp_locked d)
     (dp_requested d) (dp_outstanding_hash_check d).
Definition dp_with_locked (x : bool) (d : downloading_piece) : downloading_piece :=
  DP (dp_index d) (dp_info_idx d) (dp_finished d) (dp_passed_hash_check d) (dp_writing d) x
     (dp_requested d) (dp_outstanding_hash_check d).

(** ** The picker *)

(** [rng] counts the calls of [random()] made so far. *)
Record picker := Picker {
  m_piece_map : list piece_pos;
  m_seeds : Z;
  m_num_passed : Z;
  m_pieces : list Z;
  m_priority_boundries : list Z;
  m_downloads : list (list downloading_piece);
  m_block_info : list block_info;
  m_free_block_infos : list Z;
  m_blocks_per_piece : Z;
  m_blocks_in_last_piece : Z;
  m_num_filtered : Z;
  m_num_have_filtered : Z;
  m_cursor : Z;
  m_reverse_cursor : Z;
  m_num_have : Z;
  m_num_pad_files : Z;
  m_dirty : bool;
  rng : nat;
}.

Definition set_m_piece_map (x : list piece_pos) (s : picker) : picker :=
  Picker x (m_seeds s) (m_num_passed s) (m_pieces s) (m_priority_boundries s) (m_downloads s)
    (m_block_info s) (m_free_block_infos s) (m_blocks_per_piece s) (m_blocks_in_last_piece s)
    (m_num_filtered s) (m_num_have_filtered s) (m_cursor s) (m_reverse_cursor s) (m_num_have
    s) (m_num_pad_files s) (m_dirty s) (rng s).
Definition set_m_seeds (x : Z) (s : picker) : picker :=
  Picker (m_piece_map s) x (m_num_passed s) (m_pieces s) (m_priority_boundries s) (m_downloads s)
    (m_block_info s) (m_free_block_infos s) (m_blocks_per_piece s) (m_blocks_in_last_piece s)
    (m_num_filtered s) (m_num_have_filtered s) (m_cursor s) (m_reverse_cursor s) (m_num_have
    s) (m_num_pad_files s) (m_dirty s) (rng s).
Definition set_m_num_passed (x : Z) (s : picker) : picker :=
  Picker (m_piece_map s) (m_seeds s) x (m_pieces s) (m_priority_boundries s) (m_downloads s)
    (m_block_info s) (m_free_block_infos s) (m_blocks_per_piece s) (m_blocks_in_last_piece s)
    (m_num_filtered s) (m_num_have_filtered s) (m_cursor s) (m_reverse_cursor s) (m_num_have
    s) (m_num_pad_files s) (m_dirty s) (rng s).
Definition set_m_pieces (x : list Z) (s : picker) : picker :=
  Picker (m_piece_map s) (m_seeds s) (m_num_passed s) x (m_priority_boundries s) (m_downloads s)
    (m_block_info s) (m_free_block_infos s) (m_blocks_per_piece s) (m_blocks_in_last_piece s)
    (m_num_filtered s) (m_num_have_filtered s) (m_cursor s) (m_reverse_cursor s) (m_num_have
    s) (m_num_pad_files s) (m_dirty s) (rng s).
Definition set_m_priority_boundries (x : list Z) (s : picker) : picker :=
  Picker (m_piece_map s) (m_seeds s) (m_num_passed s) (m_pieces s) x (m_downloads s) (m_block_info
    s) (m_free_block_infos s) (m_blocks_per_piece s) (m_blocks_in_last_piece s)
    (m_num_filtered s) (m_num_have_filtered s) (m_cursor s) (m_reverse_cursor s) (m_num_have
    s) (m_num_pad_files s) (m_dirty s) (rng s).
Definition set_m_downloads (x : list (list downloading_piece)) (s : picker) : picker :=
  Picker (m_piece_map s) (m_seeds s) (m_num_passed s) (m_pieces s) (m_priority_boundries s) x
    (m_block_info s) (m_free_block_infos s) (m_blocks_per_piece s) (m_blocks_in_last_piece s)
    (m_num_filtered s) (m_num_have_filtered s) (m_cursor s) (m_reverse_cursor s) (m_num_have
    s) (m_num_pad_files s) (m_dirty s) (rng s).
Definition set_m_block_info (x : list block_info) (s : picker) : picker :=
  Picker (m_piece_map s) (m_seeds s) (m_num_passed s) (m_pieces s) (m_priority_boundries s)
    (m_downloads s) x (m_free_block_infos s) (m_blocks_per_piece s) (m_blocks_in_last_piece s)
    (m_num_filtered s) (m_num_have_filtered s) (m_cursor s) (m_reverse_cursor s) (m_num_have
    s) (m_num_pad_files s) (m_dirty s) (rng s).
Definition set_m_free_block_infos (x : list Z) (s : picker) : picker :=
  Picker (m_piece_map s) (m_seeds s) (m_num_passed s) (m_pieces s) (m_priority_boundries s)
    (m_downloads s) (m_block_info s) x (m_blocks_per_piece s) (m_blocks_in_last_piece s)
    (m_num_filtered s) (m_num_have_filtered s) (m_cursor s) (m_reverse_cursor s) (m_num_have
    s) (m_num_pad_files s) (m_dirty s) (rng s).
Definition set_m_blocks_per_piece (x : Z) (s : picker) : picker :=
  Picker (m_piece_map s) (m_seeds s) (m_num_passed s) (m_pieces s) (m_priority_boundries s)
    (m_downloads s) (m_block_info s) (m_free_block_infos s) x (m_blocks_in_last_piece s)
    (m_num_filtered s) (m_num_have_filtered s) (m_cursor s) (m_reverse_cursor s) (m_num_have
    s) (m_num_pad_files s) (m_dirty s) (rng s).
Definition set_m_blocks_in_last_piece (x : Z) (s : picker) : picker :=
  Picker (m_piece_map s) (m_seeds s) (m_num_passed s) (m_pieces s) (m_priority_boundries s)
    (m_downloads s) (m_block_info s) (m_free_block_infos s) (m_blocks_per_piece s) x
    (m_num_filtered s) (m_num_have_filtered s) (m_cursor s) (m_reverse_cursor s) (m_num_have
    s) (m_num_pad_files s) (m_dirty s) (rng s).
Definition set_m_num_filtered (x : Z) (s : picker) : picker :=
  Picker (m_piece_map s) (m_seeds s) (m_num_passed s) (m_pieces s) (m_priority_boundries s)
    (m_downloads s) (m_block_info s) (m_free_block_infos s) (m_blocks_per_piece s)
    (m_blocks_in_last_piece s) x (m_num_have_filtered s) (m_cursor s) (m_reverse_cursor s)
    (m_num_have s) (m_num_pad_files s) (m_dirty s) (rng s).
Definition set_m_num_have_filtered (x : Z) (s : picker) : picker :=
  Picker (m_piece_map s) (m_seeds s) (m_num_passed s) (m_pieces s) (m_priority_boundries s)
    (m_downloads s) (m_block_info s) (m_free_block_infos s) (m_blocks_per_piece s)
    (m_blocks_in_last_piece s) (m_num_filtered s) x (m_cursor s) (m_reverse_cursor s)
    (m_num_have s) (m_num_pad_files s) (m_dirty s) (rng s).
Definition set_m_cursor (x : Z) (s : picker) : picker :=
  Picker (m_piece_map s) (m_seeds s) (m_num_passed s) (m_pieces s) (m_priority_boundries s)
    (m_downloads s) (m_block_info s) (m_free_block_infos s) (m_blocks_per_piece s)
    (m_blocks_in_last_piece s) (m_num_filtered s) (m_num_have_filtered s) x (m_reverse_cursor
    s) (m_num_have s) (m_num_pad_files s) (m_dirty s) (rng s).
Definition set_m_reverse_cursor (x : Z) (s : picker) : picker :=
  Picker (m_piece_map s) (m_seeds s) (m_num_passed s) (m_pieces s) (m_priority_boundries s)
    (m_downloads s) (m_block_info s) (m_free_block_infos s) (m_blocks_per_piece s)
    (m_blocks_in_last_piece s) (m_num_filtered s) (m_num_have_filtered s) (m_cursor s) x
    (m_num_have s) (m_num_pad_files s) (m_dirty s) (rng s).
Definition set_m_num_have (x : Z) (s : picker) : picker :=
  Picker (m_piece_map s) (m_seeds s) (m_num_passed s) (m_pieces s) (m_priority_boundries s)
    (m_downloads s) (m_block_info s) (m_free_block_infos s) (m_blocks_per_piece s)
    (m_blocks_in_last_piece s) (m_num_filtered s) (m_num_have_filtered s) (m_cursor s)
    (m_reverse_cursor s) x (m_num_pad_files s) (m_dirty s) (rng s).
Definition set_m_num_pad_files (x : Z) (s : picker) : picker :=
  Picker (m_piece_map s) (m_seeds s) (m_num_passed s) (m_pieces s) (m_priority_boundries s)
    (m_downloads s) (m_block_info s) (m_free_block_infos s) (m_blocks_per_piece s)
    (m_blocks_in_last_piece s) (m_num_filtered s) (m_num_have_filtered s) (m_cursor s)
    (m_reverse_cursor s) (m_num_have s) x (m_dirty s) (rng s).
Definition set_m_dirty (x : bool) (s : picker) : picker :=
  Picker (m_piece_map s) (m_seeds s) (m_num_passed s) (m_pieces s) (m_priority_boundries s)
    (m_downloads s) (m_block_info s) (m_free_block_infos s) (m_blocks_per_piece s)
    (m_blocks_in_last_piece s) (m_num_filtered s) (m_num_have_filtered s) (m_cursor s)
    (m_reverse_cursor s) (m_num_have s) (m_num_pad_files s) x (rng s).
Definition set_rng (x : nat) (s : picker) : picker :=
  Picker (m_piece_map s) (m_seeds s) (m_num_passed s) (m_pieces s) (m_priority_boundries s)
    (m_downloads s) (m_block_info s) (m_free_block_infos s) (m_blocks_per_piece s)
    (m_blocks_in_last_piece s) (m_num_filtered s) (m_num_have_filtered s) (m_cursor s)
    (m_reverse_cursor s) (m_num_have s) (m_num_pad_files s) (m_dirty s) x.

(** [piece_picker()] *)
Definition new_picker : picker :=
  Picker [] 0 0 [] [0] [[]; []; []; []] [] [] 0 0 0 0 0 0 0 0 false 0.

(** ** The monad *)

Definition M (A : Type) : Type := picker -> option (A * picker).

#[export] Instance M_ret : MRet M := fun A x s => Some (x, s).
#[export] Instance M_bind : MBind M := fun A B f m s =>
  match m s with Some (x, s') => f x s' | None => None end.

Definition gets {A} (f : picker -> A) : M A := fun s => Some (f s, s).
Definition modify (f : picker -> picker) : M unit := fun s => Some (tt, f s).
Definition undefined {A} : M A := fun _ => None.
Definition lift {A} (o : option A) : M A := fun s => match o with Some x => Some (x, s) | None => None end.

(** A query that does not change the picker. *)
Definition query {A} (f : picker -> option A) : M A := fun s =>
  match f s with Some x => Some (x, s) | None => None end.

(** ** Access to the vectors *)

(** [m_piece_map[i]] *)
Definition piece_at (i : Z) (s : picker) : option piece_pos := zget (m_piece_map s) i.
Definition get_piece (i : Z) : M piece_pos := query (piece_at i).

Definition modify_piece (i : Z) (f : piece_pos -> piece_pos) : M unit := fun s =>
  p ← zget (m_piece_map s) i;
  l ← zset (m_piece_map s) i (f p);
  Some (tt, set_m_piece_map l s).

(** [p.priority(this)] *)
Definition priority_of (i : Z) (s : picker) : option Z :=
  p ← piece_at i s; Some (priority (m_seeds s) p).
Definition get_priority (i : Z) : M Z := query (priority_of i).

Definition get_pieces_at (i : Z) : M Z := query (fun s => zget (m_pieces s) i).
Definition set_pieces_at (i x : Z) : M unit := fun s =>
  l ← zset (m_pieces s) i x; Some (tt, set_m_pieces l s).

Definition get_boundry (i : Z) : M Z := query (fun s => zget (m_priority_boundries s) i).
Definition set_boundry (i x : Z) : M unit := fun s =>
  l ← zset (m_priority_boundries s) i x; Some (tt, set_m_priority_boundries l s).

(** [vector::resize(n, x)] *)
Definition resize_to {A} (n : Z) (x : A) (l : list A) : list A :=
  take (Z.to_nat n) l ++ replicate (Z.to_nat n - length l) x.

Section random.
(** The values [random()] returns, in the order of the calls. *)
Context (random_values : nat -> Z).

Definition random : M Z := fun s =>
  Some (u32 (random_values (rng s)), set_rng (S (rng s)) s).

(** [randint(i)]: [random() % i] *)
Definition randint (i : Z) : M Z :=
  if u32 i =? 0 then undefined else r ← random; mret (r mod u32 i).
End random.
