(* ===== verification/PickerList.v ===== *)
(** * The pick list (piece_picker.cpp)

    [m_pieces] holds the pickable pieces ordered by priority, and
    [m_priority_boundries] where each priority ends.  [add], [remove], [update]
    and [shuffle] move one piece, shifting one element per priority;
    [update_pieces] rebuilds both vectors.  A loop of the source is a function
    on the variables it changes; its fuel is the number of priorities, which
    bounds its rounds. *)

From Stdlib Require Import ZArith Lia.
From stdpp Require Import base numbers list.
From S2P Require Import Prelude PickerState.

Definition num_boundries : M Z := gets (fun s => zlen (m_priority_boundries s)).

Definition priority_range (prio : Z) : M (Z * Z) :=
  start ← (if prio =? 0 then mret 0 else get_boundry (prio - 1));
  end_ ← get_boundry prio;
  mret (start, end_).

(** [m_priority_boundries.resize(priority + 1, m_pieces.size())] when it is
    shorter. *)
Definition grow_boundries (prio : Z) : M unit :=
  n ← num_boundries;
  if n <=? prio then
    modify (fun s => set_m_priority_boundries
      (resize_to (prio + 1) (zlen (m_pieces s)) (m_priority_boundries s)) s)
  else mret tt.

(** [m_pieces[new_index] = index; m_piece_map[index].index = new_index;] *)
Definition place (index new_index : Z) : M unit :=
  _ ← set_pieces_at new_index index;
  modify_piece index (with_index new_index).

(** The [do ... while] of [add]: [temp] and [priority] after it. *)
Fixpoint add_skip (fuel : nat) (prio new_index : Z) : M (Z * Z) :=
  match fuel with
  | O => undefined
  | S fuel =>
      temp ← get_boundry prio;
      _ ← set_boundry prio (temp + 1);
      n ← num_boundries;
      if (temp =? new_index) && (prio + 1 <? n) then add_skip fuel (prio + 1) new_index
      else mret (temp, prio + 1)
  end.

(** The [for (;;)] of [add]: [index] and [new_index] after it. *)
Fixpoint add_shift (fuel : nat) (idx prio new_index : Z) : M (Z * Z) :=
  match fuel with
  | O => undefined
  | S fuel =>
      temp ← get_pieces_at new_index;
      _ ← place idx new_index;
      n ← num_boundries;
      '(next, prio) ← add_skip (Z.to_nat n) prio new_index;
      if n <=? prio then mret (temp, next) else add_shift fuel temp prio next
  end.

Fixpoint remove_skip (fuel : nat) (prio next_index : Z) : M (Z * Z) :=
  match fuel with
  | O => undefined
  | S fuel =>
      b ← get_boundry prio;
      let temp := b - 1 in
      _ ← set_boundry prio temp;
      n ← num_boundries;
      if (next_index =? temp) && (prio + 1 <? n) then remove_skip fuel (prio + 1) next_index
      else mret (temp, prio + 1)
  end.

(** The [for (;;)] of [remove]; [next_index] is [elem_index] at its start. *)
Fixpoint remove_shift (fuel : nat) (prio elem_index : Z) : M unit :=
  match fuel with
  | O => undefined
  | S fuel =>
      n ← num_boundries;
      '(temp, prio) ← remove_skip (Z.to_nat n) prio elem_index;
      if elem_index =? temp then mret tt
      else
        piece ← get_pieces_at temp;
        _ ← place piece elem_index;
        if prio =? n then mret tt else remove_shift fuel prio temp
  end.

(** [m_pieces.pop_back()] *)
Definition pop_back_pieces : M unit := fun s =>
  match m_pieces s with
  | [] => None
  | _ => Some (tt, set_m_pieces (take (length (m_pieces s) - 1) (m_pieces s)) s)
  end.

Definition remove (prio elem_index : Z) : M unit :=
  n ← num_boundries;
  _ ← remove_shift (Z.to_nat n) prio elem_index;
  pop_back_pieces.

(** The loop of [update] that moves towards lower priorities. *)
Fixpoint update_down (fuel : nat) (prio new_priority temp elem_index : Z) : M (Z * Z) :=
  match fuel with
  | O => undefined
  | S fuel =>
      let prio := prio - 1 in
      new_index ← get_boundry prio;
      _ ← set_boundry prio (new_index + 1);
      x ← get_pieces_at new_index;
      _ ← (if temp =? x then mret tt else place x elem_index);
      if prio =? new_priority then mret (prio, new_index)
      else update_down fuel prio new_priority x new_index
  end.

(** The loop that moves towards higher priorities. *)
Fixpoint update_up (fuel : nat) (prio new_priority temp elem_index : Z) : M (Z * Z) :=
  match fuel with
  | O => undefined
  | S fuel =>
      b ← get_boundry prio;
      let new_index := b - 1 in
      _ ← set_boundry prio new_index;
      x ← get_pieces_at new_index;
      _ ← (if temp =? x then mret tt else place x elem_index);
      if prio + 1 =? new_priority then mret (prio + 1, new_index)
      else update_up fuel (prio + 1) new_priority x new_index
  end.

Section random.
Context (random_values : nat -> Z).

Definition add (index : Z) : M unit :=
  prio ← get_priority index;
  if prio <? 0 then mret tt
  else
    _ ← grow_boundries prio;
    '(range_start, range_end) ← priority_range prio;
    new_index ← (if range_end =? range_start then mret range_start
                 else r ← randint random_values (range_end - range_start + 1);
                      mret (r + range_start));
    _ ← modify (fun s => set_m_pieces (m_pieces s ++ [-1]) s);
    n ← num_boundries;
    '(index, new_index) ← add_shift (S (Z.to_nat n)) index prio new_index;
    if index =? -1 then mret tt else place index new_index.

Definition shuffle (prio elem_index : Z) : M unit :=
  '(range_start, range_end) ← priority_range prio;
  r ← randint random_values (range_end - range_start);
  let other_index := r + range_start in
  if other_index =? elem_index then mret tt
  else
    a ← get_pieces_at other_index;
    b ← get_pieces_at elem_index;
    p1 ← get_piece a;
    p2 ← get_piece b;
    _ ← modify_piece a (with_index (index p2));
    _ ← modify_piece b (with_index (index p1));
    _ ← set_pieces_at other_index b;
    set_pieces_at elem_index a.

Definition update (prio elem_index : Z) : M unit :=
  index ← get_pieces_at elem_index;
  new_priority ← get_priority index;
  if new_priority =? prio then mret tt
  else if new_priority =? -1 then remove prio elem_index
  else
    _ ← grow_boundries new_priority;
    n ← num_boundries;
    '(prio, elem_index) ←
      (if new_priority <? prio then update_down (Z.to_nat n) prio new_priority index elem_index
       else update_up (Z.to_nat n) prio new_priority index elem_index);
    _ ← place index elem_index;
    shuffle prio elem_index.

(** ** Rebuilding *)

(** The first loop of [update_pieces]: the number of pieces of each priority,
    and the position of every piece among those of its priority. *)
Fixpoint count_priorities (n : nat) (i : Z) : M unit :=
  match n with
  | O => mret tt
  | S n =>
      prio ← get_priority i;
      _ ← (if prio =? -1 then mret tt
           else
             _ ← modify (fun s =>
               if zlen (m_priority_boundries s) <=? prio
               then set_m_priority_boundries (resize_to (prio + 1) 0 (m_priority_boundries s)) s
               else s);
             b ← get_boundry prio;
             _ ← modify_piece i (with_index b);
             set_boundry prio (b + 1));
      count_priorities n (i + 1)
  end.

(** The running sum of the boundaries. *)
Fixpoint running_sum (acc : Z) (l : list Z) : list Z :=
  match l with [] => [] | x :: l => (x + acc) :: running_sum (x + acc) l end.

(** The third loop: every piece is put in its place. *)
Fixpoint place_pieces (n : nat) (i : Z) : M unit :=
  match n with
  | O => mret tt
  | S n =>
      prio ← get_priority i;
      _ ← (if prio =? -1 then mret tt
           else
             start ← (if prio =? 0 then mret 0 else get_boundry (prio - 1));
             p ← get_piece i;
             set_pieces_at (start + index p) i);
      place_pieces n (i + 1)
  end.

(** [std::random_shuffle(first, last, randint)] of the C++ library of the
    platform: [d] elements from [first] on, the first of them exchanged with a
    random one of them, then the rest. *)
Fixpoint random_shuffle (d : nat) (first : Z) : M unit :=
  match d with
  | O | S O => mret tt
  | S d' =>
      i ← randint random_values (Z.of_nat d);
      a ← get_pieces_at first;
      b ← get_pieces_at (first + i);
      _ ← set_pieces_at first b;
      _ ← set_pieces_at (first + i) a;
      random_shuffle d' (first + 1)
  end.

Fixpoint shuffle_ranges (bs : list Z) (start : Z) : M unit :=
  match bs with
  | [] => mret tt
  | b :: bs =>
      if start =? b then shuffle_ranges bs start
      else _ ← random_shuffle (Z.to_nat (b - start)) start; shuffle_ranges bs b
  end.

(** The last loop: the position of every piece. *)
Fixpoint index_pieces (l : list Z) (i : Z) : M unit :=
  match l with
  | [] => mret tt
  | x :: l => _ ← modify_piece x (with_index i); index_pieces l (i + 1)
  end.

Definition update_pieces : M unit :=
  _ ← modify (fun s => match m_priority_boundries s with
                       | [] => set_m_priority_boundries [0] s | _ => s end);
  _ ← modify (fun s => set_m_priority_boundries
                         (replicate (length (m_priority_boundries s)) 0) s);
  n ← gets (fun s => length (m_piece_map s));
  _ ← count_priorities n 0;
  _ ← modify (fun s => set_m_priority_boundries (running_sum 0 (m_priority_boundries s)) s);
  _ ← modify (fun s => set_m_pieces
                         (resize_to (List.last (m_priority_boundries s) 0) 0 (m_pieces s)) s);
  _ ← place_pieces n 0;
  bs ← gets m_priority_boundries;
  _ ← shuffle_ranges bs 0;
  ps ← gets m_pieces;
  _ ← index_pieces ps 0;
  modify (set_m_dirty false).
End random.
