(* ===== verification/PickerOps.v ===== *)
(** * The operations of the piece picker (piece_picker.cpp)

    Every member function that changes the picker, the pick list's own
    operations ([PickerList.v]) apart.  An iterator into one of the lists of
    downloading pieces is the list and a position in it; a [block_info&] is a
    downloading piece and the index of the block. *)

From Stdlib Require Import ZArith Lia.
From stdpp Require Import base numbers list.
From S2P Require Import Prelude Bitfield PickerState PickerList.

Definition when (b : bool) (m : M unit) : M unit := if b then m else mret tt.

(** ** Sizes *)

Definition num_pieces (s : picker) : Z := zlen (m_piece_map s).

Definition blocks_in_piece (index : Z) (s : picker) : Z :=
  if index + 1 =? num_pieces s then m_blocks_in_last_piece s else m_blocks_per_piece s.

(** ** The lists of downloading pieces *)

(** The index of a list in [m_downloads]; there is none for the last three
    states. *)
Definition state_num (st : state_t) : nat :=
  match st with
  | piece_downloading => 0 | piece_full => 1 | piece_finished => 2 | piece_zero_prio => 3
  | piece_open => 4 | piece_downloading_reverse => 5 | piece_full_reverse => 6
  end.

Definition downloads_of (st : state_t) (s : picker) : option (list downloading_piece) :=
  m_downloads s !! state_num st.

Definition set_downloads (st : state_t) (l : list downloading_piece) : M unit := fun s =>
  if decide (state_num st < length (m_downloads s))%nat
  then Some (tt, set_m_downloads (<[state_num st := l]> (m_downloads s)) s) else None.

Record dl_iter := DlIter { it_queue : state_t; it_pos : Z }.

Definition dl_deref (it : dl_iter) (s : picker) : option downloading_piece :=
  l ← downloads_of (it_queue it) s; zget l (it_pos it).

Definition dl_modify (it : dl_iter) (f : downloading_piece -> downloading_piece) : M unit :=
  l ← query (downloads_of (it_queue it));
  d ← lift (zget l (it_pos it));
  l ← lift (zset l (it_pos it) (f d));
  set_downloads (it_queue it) l.

(** [std::lower_bound] by piece index. *)
Fixpoint lower_bound (l : list downloading_piece) (idx : Z) : Z :=
  match l with
  | [] => 0
  | d :: l => if dp_index d <? idx then 1 + lower_bound l idx else 0
  end.

(** [find_dl_piece(queue, index)]; the end of the list when it is not there. *)
Definition find_dl_piece (queue : state_t) (idx : Z) (s : picker) : option dl_iter :=
  l ← downloads_of queue s;
  let i := lower_bound l (u32 idx) in
  match zget l i with
  | Some d => Some (DlIter queue (if dp_index d =? u32 idx then i else zlen l))
  | None => Some (DlIter queue (zlen l))
  end.

Definition is_end (it : dl_iter) (s : picker) : option bool :=
  l ← downloads_of (it_queue it) s; Some (it_pos it =? zlen l).

(** ** Blocks *)

(** [blocks_for_piece(dp)[j]] *)
Definition block_at (d : downloading_piece) (j : Z) (s : picker) : option block_info :=
  zget (m_block_info s) (dp_info_idx d * m_blocks_per_piece s + j).

Definition modify_block (d : downloading_piece) (j : Z) (f : block_info -> block_info) : M unit :=
  fun s =>
    b ← block_at d j s;
    l ← zset (m_block_info s) (dp_info_idx d * m_blocks_per_piece s + j) (f b);
    Some (tt, set_m_block_info l s).

Fixpoint reset_blocks (n : nat) (d : downloading_piece) (j : Z) : M unit :=
  match n with
  | O => mret tt
  | S n => _ ← modify_block d j (fun _ => BI 0 0 state_none); reset_blocks n d (j + 1)
  end.

Definition list_insert (l : list downloading_piece) (i : Z) (d : downloading_piece)
  : list downloading_piece := take (Z.to_nat i) l ++ d :: drop (Z.to_nat i) l.

Definition list_erase (l : list downloading_piece) (i : Z) : list downloading_piece :=
  take (Z.to_nat i) l ++ drop (S (Z.to_nat i)) l.

(** Where the blocks of a new downloading piece go. *)
Definition alloc_blocks : M Z := fun s =>
  match List.rev (m_free_block_infos s) with
  | [] =>
      if m_blocks_per_piece s =? 0 then None
      else
        Some (zlen (m_block_info s) / m_blocks_per_piece s,
              set_m_block_info (m_block_info s ++
                replicate (Z.to_nat (m_blocks_per_piece s)) default_block_info) s)
  | i :: l => Some (i, set_m_free_block_infos (List.rev l) s)
  end.

Definition add_download_piece (piece : Z) : M dl_iter :=
  block_index ← alloc_blocks;
  l ← query (downloads_of piece_downloading);
  let pos := lower_bound l (u32 piece) in
  let ret := DP (u32 piece) (u16 block_index) 0 false 0 false 0 false in
  n ← gets (fun s => Z.to_nat (m_blocks_per_piece s));
  _ ← reset_blocks n ret 0;
  _ ← set_downloads piece_downloading (list_insert l pos ret);
  mret (DlIter piece_downloading pos).

(** [erase_download_piece(i)]: [i] is erased from the list of the state its
    piece is in. *)
Definition erase_download_piece (it : dl_iter) : M unit :=
  d ← query (dl_deref it);
  p ← get_piece (dp_index d);
  let st := download_queue p in
  _ ← modify (fun s => set_m_free_block_infos (m_free_block_infos s ++ [dp_info_idx d]) s);
  _ ← modify_piece (dp_index d) (with_download_state piece_open);
  if decide (it_queue it = st) then
    l ← query (downloads_of st);
    set_downloads st (list_erase l (it_pos it))
  else undefined.

(** ** The cursors *)

(** A piece that is not to be downloaded any more. *)
Definition unwanted (p : piece_pos) : bool := have p || filtered p.

Fixpoint count_while {A} (f : A -> bool) (l : list A) : Z :=
  match l with [] => 0 | x :: l => if f x then 1 + count_while f l else 0 end.

(** The loops that move a cursor past unwanted pieces, from [c] on. *)
Definition skip_unwanted (l : list piece_pos) (c : Z) : Z :=
  c + count_while unwanted (drop (Z.to_nat c) l).
Definition skip_unwanted_back (l : list piece_pos) (c : Z) : Z :=
  c - count_while unwanted (List.rev (take (Z.to_nat c) l)).

(** The updates of the cursors when the piece stops being wanted; [l] is the
    piece map the loops read. *)
Definition cursors_lose (index : Z) (s : picker) : picker :=
  let l := m_piece_map s in
  if (m_cursor s =? m_reverse_cursor s - 1) && (m_cursor s =? index) then
    set_m_reverse_cursor 0 (set_m_cursor (zlen l) s)
  else if m_cursor s =? index then set_m_cursor (skip_unwanted l (m_cursor s + 1)) s
  else if m_reverse_cursor s - 1 =? index then
    set_m_reverse_cursor (skip_unwanted_back l (m_reverse_cursor s - 1)) s
  else s.

(** And when it starts being wanted. *)
Definition cursors_gain (index : Z) (s : picker) : picker :=
  let s := if index <? m_cursor s then set_m_cursor index s else s in
  let s := if m_reverse_cursor s <=? index then set_m_reverse_cursor (index + 1) s else s in
  if m_reverse_cursor s =? m_cursor s
  then set_m_cursor (num_pieces s) (set_m_reverse_cursor 0 s) else s.

(** [init(blocks_per_piece, blocks_in_last_piece, total_num_pieces)] *)
Definition init (blocks_per_piece blocks_in_last_piece total_num_pieces : Z) (s : picker) : picker :=
  let l := map (fun p => with_index 0 (with_download_state piece_open (with_peer_count 0 p)))
             (resize_to total_num_pieces (new_piece_pos 0 0) (m_piece_map s)) in
  let bpp := u16 blocks_per_piece in
  let last := u16 blocks_in_last_piece in
  let s := set_m_piece_map l s in
  let s := set_m_reverse_cursor (skip_unwanted_back l (zlen l)) (set_m_cursor (skip_unwanted l 0) s) in
  let s := set_m_free_block_infos [] (set_m_block_info [] (set_m_downloads [[]; []; []; []] s)) in
  let s := set_m_num_have_filtered 0 (set_m_num_filtered (m_num_filtered s + m_num_have_filtered s) s) in
  let s := set_m_dirty true (set_m_num_passed 0 (set_m_num_have 0 s)) in
  set_m_blocks_in_last_piece (if last =? 0 then bpp else last) (set_m_blocks_per_piece bpp s).

Section random.
Context (random_values : nat -> Z).
#[local] Notation add := (add random_values).
#[local] Notation update := (update random_values).

(** [update(prio, p.index)] *)
Definition update_piece_pos (prio idx : Z) : M unit :=
  p ← get_piece idx; update prio (index p).

Definition get_dirty : M bool := gets m_dirty.

(** What most operations end with: the piece [idx] had priority [prev] before
    the change. *)
Definition reposition (prev idx : Z) : M unit :=
  new_priority ← get_priority idx;
  dirty ← get_dirty;
  if new_priority =? prev then mret tt
  else if (dirty : bool) then mret tt
  else if prev =? -1 then add idx
  else update_piece_pos prev idx.

(** ** Restoring a piece, peer counts *)

Definition restore_piece (idx : Z) : M unit :=
  p ← get_piece idx;
  let st := download_queue p in
  if decide (st = piece_open) then mret tt
  else
    it ← query (find_dl_piece st idx);
    _ ← dl_modify it (dp_with_locked false);
    prev_priority ← get_priority idx;
    _ ← erase_download_piece it;
    reposition prev_priority idx.

Definition inc_refcount_all : M unit :=
  n ← gets m_seeds;
  if is_int (n + 1) then
    modify (fun s =>
      let s := set_m_seeds (m_seeds s + 1) s in
      if m_seeds s =? 1 then set_m_dirty true s else s)
  else undefined.

Definition dec_refcount_all : M unit :=
  modify (fun s =>
    if 0 <? m_seeds s then
      let s := set_m_seeds (m_seeds s - 1) s in
      if m_seeds s =? 0 then set_m_dirty true s else s
    else
      set_m_dirty true
        (set_m_piece_map (map (fun p => with_peer_count (peer_count p - 1) p) (m_piece_map s)) s)).

Definition break_one_seed : M unit :=
  modify (fun s =>
    set_m_dirty true
      (set_m_piece_map (map (fun p => with_peer_count (peer_count p + 1) p) (m_piece_map s))
        (set_m_seeds (m_seeds s - 1) s))).

Definition inc_refcount (idx : Z) : M unit :=
  prev_priority ← get_priority idx;
  _ ← modify_piece idx (fun p => with_peer_count (peer_count p + 1) p);
  reposition prev_priority idx.

(** The seed that is broken up when a piece has no counted peer. *)
Definition break_for (idx : Z) : M unit :=
  p ← get_piece idx;
  when (peer_count p =? 0) break_one_seed.

Definition dec_refcount (idx : Z) : M unit :=
  _ ← break_for idx;
  prev_priority ← get_priority idx;
  _ ← modify_piece idx (fun p => with_peer_count (peer_count p - 1) p);
  dirty ← get_dirty;
  when (negb dirty && (0 <=? prev_priority)) (update_piece_pos prev_priority idx).

(** The pieces of the first [size] set bits, and how many set bits were met
    before the loop stopped. *)
Fixpoint collect_set (bits : list bool) (idx size num : Z) (acc : list Z) : list Z * Z :=
  match bits with
  | [] => (acc, num)
  | b :: bits =>
      if b then
        let acc := if num <? size then acc ++ [idx] else acc in
        if size <=? num + 1 then (acc, num + 1) else collect_set bits (idx + 1) size (num + 1) acc
      else collect_set bits (idx + 1) size num acc
  end.

(** The loop over the pieces when few of them change. *)
Fixpoint inc_each (l : list Z) : M unit :=
  match l with
  | [] => mret tt
  | piece :: l =>
      prev_priority ← get_priority piece;
      _ ← modify_piece piece (fun p => with_peer_count (peer_count p + 1) p);
      new_priority ← get_priority piece;
      _ ← (if prev_priority =? new_priority then mret tt
           else if 0 <=? prev_priority then update_piece_pos prev_priority piece
           else add piece);
      inc_each l
  end.

(** The loop over all bits. *)
Fixpoint inc_bits (bits : list bool) (idx : Z) (updated : bool) : M bool :=
  match bits with
  | [] => mret updated
  | b :: bits =>
      if (b : bool) then
        _ ← modify_piece idx (fun p => with_peer_count (peer_count p + 1) p);
        inc_bits bits (idx + 1) true
      else inc_bits bits (idx + 1) updated
  end.

Definition set_dirty_if (updated : bool) : M unit :=
  dirty ← get_dirty; when (negb dirty && updated) (modify (set_m_dirty true)).

(** The set bits that are handled one by one: none when the list is dirty or
    when there are too many. *)
Definition few_bits (bits : list bool) (bit_size : Z) (dirty : bool) : option (list Z) :=
  let size := Z.min 50 (bit_size / 2) in
  if dirty then None
  else let '(l, num) := collect_set bits 0 size 0 [] in
       if num <? size then Some l else None.

Definition inc_refcount_bits (bitmask : bitfield) : M unit :=
  none ← lift (none_set bitmask);
  if (none : bool) then mret tt
  else
    all ← lift (all_set bitmask);
    n ← gets num_pieces;
    if (all : bool) && (bf_size bitmask =? n) then inc_refcount_all
    else
      dirty ← get_dirty;
      bits ← lift (bf_bits bitmask);
      match few_bits bits (bf_size bitmask) dirty with
      | Some l => inc_each l
      | None => updated ← inc_bits bits 0 false; set_dirty_if updated
      end.

Fixpoint dec_each (l : list Z) : M unit :=
  match l with
  | [] => mret tt
  | piece :: l =>
      prev_priority ← get_priority piece;
      _ ← break_for piece;
      _ ← modify_piece piece (fun p => with_peer_count (peer_count p - 1) p);
      dirty ← get_dirty;
      _ ← when (negb dirty && (0 <=? prev_priority)) (update_piece_pos prev_priority piece);
      dec_each l
  end.

Fixpoint dec_bits (bits : list bool) (idx : Z) (updated : bool) : M bool :=
  match bits with
  | [] => mret updated
  | b :: bits =>
      if (b : bool) then
        _ ← break_for idx;
        _ ← modify_piece idx (fun p => with_peer_count (peer_count p - 1) p);
        dec_bits bits (idx + 1) true
      else dec_bits bits (idx + 1) updated
  end.

Definition dec_refcount_bits (bitmask : bitfield) : M unit :=
  none ← lift (none_set bitmask);
  if (none : bool) then mret tt
  else
    all ← lift (all_set bitmask);
    n ← gets num_pieces;
    if (all : bool) && (bf_size bitmask =? n) then dec_refcount_all
    else
      dirty ← get_dirty;
      bits ← lift (bf_bits bitmask);
      match few_bits bits (bf_size bitmask) dirty with
      | Some l => dec_each l
      | None => updated ← dec_bits bits 0 false; set_dirty_if updated
      end.

(** ** Having a piece *)

Definition dec_num_passed : M unit := modify (fun s => set_m_num_passed (m_num_passed s - 1) s).

Definition we_have (idx : Z) : M unit :=
  p ← get_piece idx;
  let info_index := index p in
  prio ← get_priority idx;
  if have p then mret tt
  else
    let st := download_queue p in
    _ ← (if decide (st = piece_open) then mret tt
         else
           it ← query (find_dl_piece st idx);
           d ← query (dl_deref it);
           _ ← when (dp_passed_hash_check d) dec_num_passed;
           erase_download_piece it);
    _ ← when (filtered p) (modify (fun s =>
           set_m_num_have_filtered (m_num_have_filtered s + 1)
             (set_m_num_filtered (m_num_filtered s - 1) s)));
    _ ← modify (fun s => set_m_num_passed (m_num_passed s + 1) (set_m_num_have (m_num_have s + 1) s));
    _ ← modify_piece idx set_have;
    _ ← modify (cursors_lose idx);
    if prio =? -1 then mret tt
    else
      dirty ← get_dirty;
      if (dirty : bool) then mret tt else remove prio info_index.

Definition we_dont_have (idx : Z) : M unit :=
  p ← get_piece idx;
  if negb (have p) then
    let st := download_queue p in
    if decide (st = piece_open) then mret tt
    else
      it ← query (find_dl_piece st idx);
      d ← query (dl_deref it);
      _ ← when (dp_passed_hash_check d)
            (_ ← dl_modify it (dp_with_passed false); dec_num_passed);
      erase_download_piece it
  else
    _ ← dec_num_passed;
    _ ← modify (if filtered p
                then fun s => set_m_num_have_filtered (m_num_have_filtered s - 1)
                                (set_m_num_filtered (m_num_filtered s + 1) s)
                else cursors_gain idx);
    _ ← modify (fun s => set_m_num_have (m_num_have s - 1) s);
    _ ← modify_piece idx set_not_have;
    dirty ← get_dirty;
    if (dirty : bool) then mret tt
    else prio ← get_priority idx; when (0 <=? prio) (add idx).

Definition piece_passed (idx : Z) : M unit :=
  p ← get_piece idx;
  let st := download_queue p in
  if decide (st = piece_open) then mret tt
  else
    it ← query (find_dl_piece st idx);
    d ← query (dl_deref it);
    if dp_locked d then mret tt
    else
      _ ← dl_modify it (dp_with_passed true);
      _ ← modify (fun s => set_m_num_passed (m_num_passed s + 1) s);
      n ← gets (blocks_in_piece idx);
      if dp_finished d <? n then mret tt else we_have idx.

(** ** The state of a downloading piece *)

(** The state [update_piece_state] computes from the block counts. *)
Definition new_piece_state (p : piece_pos) (d : downloading_piece) (num_blocks : Z) : state_t :=
  let used := dp_requested d + dp_finished d + dp_writing d in
  if filtered p then piece_zero_prio
  else if used =? 0 then piece_open
  else if used <? num_blocks then
    (if reverse_state p then piece_downloading_reverse else piece_downloading)
  else if 0 <? dp_requested d then
    (if reverse_state p then piece_full_reverse else piece_full)
  else piece_finished.

Definition update_piece_state (it : dl_iter) : M dl_iter :=
  d ← query (dl_deref it);
  let idx := dp_index d in
  num_blocks ← gets (blocks_in_piece idx);
  p ← get_piece idx;
  let current_state := download_state p in
  if decide (current_state = piece_open) then mret it
  else
    let new_state := new_piece_state p d num_blocks in
    if decide (new_state = current_state) then mret it
    else if decide (new_state = piece_open) then mret it
    else if decide (it_queue it = download_queue p) then
      l ← query (downloads_of (download_queue p));
      _ ← set_downloads (download_queue p) (list_erase l (it_pos it));
      prio ← get_priority idx;
      _ ← modify_piece idx (with_download_state new_state);
      p ← get_piece idx;
      l ← query (downloads_of (download_queue p));
      let i := lower_bound l idx in
      _ ← set_downloads (download_queue p) (list_insert l i d);
      dirty ← get_dirty;
      _ ← (if (dirty : bool) then mret tt
           else
             new_prio ← get_priority idx;
             if (prio =? -1) && negb (new_prio =? -1) then add idx
             else when (negb (prio =? -1)) (update_piece_pos prio idx));
      mret (DlIter (download_queue p) i)
    else undefined.

(** ** Priorities *)

Definition set_piece_priority (idx new_piece_priority : Z) : M bool :=
  p ← get_piece idx;
  if new_piece_priority =? piece_prio p then mret false
  else
    prev_priority ← get_priority idx;
    ret ←
      (if (new_piece_priority =? filter_priority) && negb (filtered p) then
         (* the piece just got filtered *)
         _ ← modify (if have p
                     then fun s => set_m_num_have_filtered (m_num_have_filtered s + 1) s
                     else fun s => cursors_lose idx (set_m_num_filtered (m_num_filtered s + 1) s));
         mret true
       else if negb (new_piece_priority =? filter_priority) && filtered p then
         (* the piece just got unfiltered *)
         _ ← modify (if have p
                     then fun s => set_m_num_have_filtered (m_num_have_filtered s - 1) s
                     else fun s => cursors_gain idx (set_m_num_filtered (m_num_filtered s - 1) s));
         mret true
       else mret false);
    _ ← modify_piece idx (with_piece_prio new_piece_priority);
    _ ← reposition prev_priority idx;
    p ← get_piece idx;
    _ ← when (downloading p)
          (it ← query (find_dl_piece (download_queue p) idx);
           e ← query (is_end it);
           if (e : bool) then mret tt else _ ← update_piece_state it; mret tt);
    mret ret.

(** ** Blocks: requested, writing, finished, cancelled *)

(** The start of the functions that mark a block of a piece that is not being
    downloaded: the piece gets the state and an entry in the lists. *)
Definition open_download (idx : Z) (st : state_t) : M dl_iter :=
  prio ← get_priority idx;
  _ ← modify_piece idx (with_download_state st);
  dirty ← get_dirty;
  _ ← when ((0 <=? prio) && negb dirty) (update_piece_pos prio idx);
  add_download_piece idx.

(** A change of a piece's reverse flag and its new position. *)
Definition change_reverse (idx : Z) (f : piece_pos -> piece_pos) : M unit :=
  prio ← get_priority idx;
  _ ← modify_piece idx f;
  dirty ← get_dirty;
  when ((0 <=? prio) && negb dirty) (update_piece_pos prio idx).

(** [reverse] is [(options & reverse) != 0]. *)
Definition mark_as_downloading (block : piece_block) (peer : Z) (reverse : bool) : M bool :=
  let idx := piece_index block in
  p ← get_piece idx;
  if decide (download_queue p = piece_open) then
    it ← open_download idx (if reverse then piece_downloading_reverse else piece_downloading);
    d ← query (dl_deref it);
    _ ← modify_block d (block_index block) (fun _ => BI peer 1 state_requested);
    _ ← dl_modify it (fun d => dp_with_requested (dp_requested d + 1) d);
    _ ← update_piece_state it;
    mret true
  else
    it ← query (find_dl_piece (download_queue p) idx);
    d ← query (dl_deref it);
    b ← query (block_at d (block_index block));
    if bool_decide (bstate b = state_writing) || bool_decide (bstate b = state_finished)
    then mret false
    else
      _ ← when (reverse && negb (reverse_state p) && (dp_requested d =? 0))
            (change_reverse idx make_reverse);
      _ ← modify_block d (block_index block) (with_peer peer);
      _ ← (if decide (bstate b <> state_requested) then
             _ ← modify_block d (block_index block) (with_bstate state_requested);
             _ ← dl_modify it (fun d => dp_with_requested (dp_requested d + 1) d);
             _ ← update_piece_state it; mret tt
           else mret tt);
      _ ← modify_block d (block_index block) (fun b => with_num_peers (num_peers b + 1) b);
      p ← get_piece idx;
      _ ← when (negb reverse && reverse_state p) (change_reverse idx unreverse);
      mret true.

Definition mark_as_writing (block : piece_block) (peer : Z) : M bool :=
  let idx := piece_index block in
  p ← get_piece idx;
  if negb (downloading p) then
    if have p then mret false
    else
      it ← open_download idx piece_downloading;
      d ← query (dl_deref it);
      _ ← modify_block d (block_index block) (fun _ => BI peer 0 state_writing);
      _ ← dl_modify it (dp_with_writing 1);
      _ ← update_piece_state it;
      mret true
  else
    it ← query (find_dl_piece (download_queue p) idx);
    d ← query (dl_deref it);
    b ← query (block_at d (block_index block));
    _ ← modify_block d (block_index block) (with_peer peer);
    _ ← when (bool_decide (bstate b = state_requested))
          (dl_modify it (fun d => dp_with_requested (dp_requested d - 1) d));
    if bool_decide (bstate b = state_writing) || bool_decide (bstate b = state_finished)
    then mret false
    else
      _ ← dl_modify it (fun d => dp_with_writing (dp_writing d + 1) d);
      _ ← modify_block d (block_index block)
            (fun b => with_num_peers 0 (with_bstate state_writing b));
      _ ← update_piece_state it;
      mret true.

Definition lock_piece (piece : Z) : M unit :=
  p ← get_piece piece;
  let st := download_queue p in
  if decide (st = piece_open) then mret tt
  else
    it ← query (find_dl_piece st piece);
    e ← query (is_end it);
    if (e : bool) then mret tt
    else
      d ← query (dl_deref it);
      _ ← when (dp_passed_hash_check d)
            (_ ← dl_modify it (dp_with_passed false); dec_num_passed);
      dl_modify it (dp_with_locked true).

(** A downloading piece without a used block is erased. *)
Definition erase_if_unused (it : dl_iter) (idx : Z) : M unit :=
  d ← query (dl_deref it);
  if dp_finished d + dp_writing d + dp_requested d =? 0 then
    prev_priority ← get_priority idx;
    _ ← erase_download_piece it;
    reposition prev_priority idx
  else mret tt.

Definition write_failed (block : piece_block) : M unit :=
  let idx := piece_index block in
  p ← get_piece idx;
  let st := download_queue p in
  if decide (st = piece_open) then mret tt
  else
    it ← query (find_dl_piece st idx);
    e ← query (is_end it);
    if (e : bool) then mret tt
    else
      d ← query (dl_deref it);
      b ← query (block_at d (block_index block));
      if bool_decide (bstate b = state_finished) then mret tt
      else
        _ ← when (bool_decide (bstate b = state_writing))
              (dl_modify it (fun d => dp_with_writing (dp_writing d - 1) d));
        _ ← modify_block d (block_index block) (fun b => with_bstate state_none (with_peer 0 b));
        _ ← when (dp_passed_hash_check d)
              (_ ← dl_modify it (dp_with_passed false); dec_num_passed);
        _ ← dl_modify it (dp_with_locked true);
        it ← update_piece_state it;
        erase_if_unused it idx.

Definition mark_as_canceled (block : piece_block) (peer : Z) : M unit :=
  let idx := piece_index block in
  p ← get_piece idx;
  if decide (download_queue p = piece_open) then mret tt
  else
    it ← query (find_dl_piece (download_queue p) idx);
    d ← query (dl_deref it);
    b ← query (block_at d (block_index block));
    if bool_decide (bstate b = state_finished) then mret tt
    else
      _ ← modify_block d (block_index block) (with_peer peer);
      if bool_decide (bstate b = state_writing) then
        _ ← dl_modify it (fun d => dp_with_writing (dp_writing d - 1) d);
        _ ← modify_block d (block_index block) (with_bstate state_none);
        it ← update_piece_state it;
        erase_if_unused it idx
      else mret tt.

Definition mark_as_finished (block : piece_block) (peer : Z) : M unit :=
  let idx := piece_index block in
  p ← get_piece idx;
  if decide (download_queue p = piece_open) then
    if have p then mret tt
    else
      it ← open_download idx piece_downloading;
      d ← query (dl_deref it);
      _ ← modify_block d (block_index block) (with_peer peer);
      _ ← dl_modify it (fun d => dp_with_finished (dp_finished d + 1) d);
      _ ← modify_block d (block_index block) (with_bstate state_finished);
      _ ← update_piece_state it;
      mret tt
  else
    it ← query (find_dl_piece (download_queue p) idx);
    d ← query (dl_deref it);
    b ← query (block_at d (block_index block));
    if bool_decide (bstate b = state_finished) then mret tt
    else
      _ ← when (negb (bool_decide (bstate b = state_writing)) || negb (peer =? 0))
            (modify_block d (block_index block) (with_peer peer));
      _ ← dl_modify it (fun d => dp_with_finished (dp_finished d + 1) d);
      _ ← when (bool_decide (bstate b = state_writing))
            (dl_modify it (fun d => dp_with_writing (dp_writing d - 1) d));
      _ ← modify_block d (block_index block) (with_bstate state_finished);
      it ← update_piece_state it;
      d ← query (dl_deref it);
      n ← gets (blocks_in_piece (dp_index d));
      if dp_finished d <? n then mret tt
      else when (dp_passed_hash_check d) (we_have (dp_index d)).

Definition abort_download (block : piece_block) (peer_ : Z) : M unit :=
  let idx := piece_index block in
  p ← get_piece idx;
  let st := download_queue p in
  if decide (st = piece_open) then mret tt
  else
    it ← query (find_dl_piece st idx);
    d ← query (dl_deref it);
    b ← query (block_at d (block_index block));
    if decide (bstate b <> state_requested) then mret tt
    else
      prev_prio ← get_priority idx;
      _ ← modify_block d (block_index block)
            (fun b => let b := if 0 <? num_peers b then with_num_peers (num_peers b - 1) b else b in
                      if peer b =? peer_ then with_peer 0 b else b);
      b ← query (block_at d (block_index block));
      if 0 <? num_peers b then mret tt
      else
        _ ← modify_block d (block_index block) (fun b => with_bstate state_none (with_peer 0 b));
        _ ← dl_modify it (fun d => dp_with_requested (dp_requested d - 1) d);
        d ← query (dl_deref it);
        if dp_requested d + dp_finished d + dp_writing d =? 0 then
          _ ← erase_download_piece it;
          prio ← get_priority idx;
          dirty ← get_dirty;
          if (dirty : bool) then mret tt
          else if (prev_prio =? -1) && (0 <=? prio) then add idx
          else when (0 <=? prev_prio) (update_piece_pos prev_prio idx)
        else _ ← update_piece_state it; mret tt.

Definition clear_peer (peer_ : Z) : M unit :=
  modify (fun s => set_m_block_info
    (map (fun b => if peer b =? peer_ then with_peer 0 b else b) (m_block_info s)) s).

Definition set_num_pad_files (n : Z) : M unit := modify (set_m_num_pad_files n).
End random.
