(* ===== verification/PickerPick.v ===== *)
(** * Picking blocks (piece_picker.cpp)

    [pick_pieces] and the functions it calls, and the queries of the picker.
    The vectors the source fills in are a [picks]; its [stats] are the calls of
    [pc.inc_stats_counter] in order.  A phase of [pick_pieces] ends with
    [Done] where the source returns, and with [Cont] where it goes on. *)

From Stdlib Require Import ZArith Lia.
From stdpp Require Import base numbers list.
From S2P Require Import Prelude Bitfield PickerState PickerList PickerOps.

(** ** Options, flags and results *)

(** [options_t] *)
Record options := Opts {
  opt_rarest_first : bool;
  opt_reverse : bool;
  opt_on_parole : bool;
  opt_prioritize_partials : bool;
  opt_sequential : bool;
  opt_time_critical_mode : bool;
  opt_align_expanded_pieces : bool;
}.

Definition options_of (n : Z) : options :=
  Opts (Z.testbit n 0) (Z.testbit n 1) (Z.testbit n 2) (Z.testbit n 3) (Z.testbit n 4)
       (Z.testbit n 5) (Z.testbit n 6).

Definition with_prioritize_partials (o : options) : options :=
  Opts (opt_rarest_first o) (opt_reverse o) (opt_on_parole o) true (opt_sequential o)
       (opt_time_critical_mode o) (opt_align_expanded_pieces o).

(** [picker_log_alert::picker_flags_t] *)
Inductive picker_flag :=
  | f_partial_ratio | f_prioritize_partials | f_rarest_first_partials | f_rarest_first
  | f_reverse_rarest_first | f_suggested_pieces | f_prio_sequential_pieces | f_sequential_pieces
  | f_reverse_pieces | f_time_critical | f_random_pieces | f_prefer_contiguous
  | f_reverse_sequential | f_backup1 | f_backup2 | f_end_game.

Definition flag_bit (f : picker_flag) : Z :=
  match f with
  | f_partial_ratio => 1 | f_prioritize_partials => 2 | f_rarest_first_partials => 4
  | f_rarest_first => 8 | f_reverse_rarest_first => 16 | f_suggested_pieces => 32
  | f_prio_sequential_pieces => 64 | f_sequential_pieces => 128 | f_reverse_pieces => 256
  | f_time_critical => 512 | f_random_pieces => 1024 | f_prefer_contiguous => 2048
  | f_reverse_sequential => 4096 | f_backup1 => 8192 | f_backup2 => 16384 | f_end_game => 32768
  end.

(** The counters of [counters] that are incremented. *)
Inductive pick_counter :=
  | partial_loops | suggest_loops | sequential_loops | reverse_rare_loops | rare_loops
  | rand_start_loops | rand_loops | busy_loops.

Record picks := Picks {
  interesting : list piece_block;
  backup : list piece_block;
  backup2 : list piece_block;
  num_blocks : Z;
  flags : Z;
  stats : list pick_counter;
}.

Definition set_flag (f : picker_flag) (k : picks) : picks :=
  Picks (interesting k) (backup k) (backup2 k) (num_blocks k) (Z.lor (flags k) (flag_bit f)) (stats k).
Definition set_num_blocks (n : Z) (k : picks) : picks :=
  Picks (interesting k) (backup k) (backup2 k) n (flags k) (stats k).
Definition count_stat (c : pick_counter) (k : picks) : picks :=
  Picks (interesting k) (backup k) (backup2 k) (num_blocks k) (flags k) (stats k ++ [c]).
Definition push_interesting (b : piece_block) (k : picks) : picks :=
  Picks (interesting k ++ [b]) (backup k) (backup2 k) (num_blocks k) (flags k) (stats k).
Definition push_backup2 (b : piece_block) (k : picks) : picks :=
  Picks (interesting k) (backup k) (backup2 k ++ [b]) (num_blocks k) (flags k) (stats k).

Inductive phase := Done (k : picks) | Cont (k : picks).

(** [if (num_blocks <= 0) return ret;] *)
Definition return_if_filled (k : picks) : phase := if num_blocks k <=? 0 then Done k else Cont k.

(** [append_blocks] to [interesting_blocks] *)
Definition append_blocks (dst src : list piece_block) (num : Z)
  : list piece_block * list piece_block * Z :=
  match src with
  | [] => (dst, src, num)
  | _ =>
      let to_copy := Z.min (zlen src) num in
      (dst ++ take (Z.to_nat to_copy) src, drop (Z.to_nat to_copy) src, num - to_copy)
  end.

Definition append_backup (k : picks) : picks :=
  let '(d, b, n) := append_blocks (interesting k) (backup k) (num_blocks k) in
  Picks d b (backup2 k) n (flags k) (stats k).
Definition append_backup2 (k : picks) : picks :=
  let '(d, b, n) := append_blocks (interesting k) (backup2 k) (num_blocks k) in
  Picks d (backup k) b n (flags k) (stats k).

(** ** Pieces that can be picked *)

Definition have_piece (i : Z) (s : picker) : option bool :=
  p ← piece_at i s; Some (index p =? we_have_index).

Definition piece_priority (i : Z) (s : picker) : option Z :=
  p ← piece_at i s; Some (piece_prio p).

Definition is_piece_free (piece : Z) (bitmask : bitfield) (s : picker) : option bool :=
  b ← get_bit bitmask piece;
  if (b : bool) then p ← piece_at piece s; Some (negb (have p) && negb (filtered p)) else Some false.

Definition can_pick (piece : Z) (bitmask : bitfield) (s : picker) : option bool :=
  b ← get_bit bitmask piece;
  if (b : bool) then
    p ← piece_at piece s; Some (negb (have p) && negb (downloading p) && negb (filtered p))
  else Some false.

(** [time_critical_mode] skips the pieces below the highest priority. *)
Definition too_low (o : options) (i : Z) (s : picker) : option bool :=
  if opt_time_critical_mode o then
    p ← piece_priority i s; Some (negb (p =? priority_levels - 1))
  else Some false.

(** [partial_compare_rarest_first] *)
Definition partial_compare_rarest_first (s : picker) (lhs rhs : downloading_piece) : option bool :=
  lp ← piece_at (dp_index lhs) s;
  rp ← piece_at (dp_index rhs) s;
  if negb (peer_count lp =? peer_count rp) then Some (peer_count lp <? peer_count rp)
  else
    let left d := m_blocks_per_piece s - dp_finished d - dp_writing d - dp_requested d in
    Some (left lhs <? left rhs).

(** ** [requested_from] *)

Record requested := Req {
  exclusive : bool;
  exclusive_active : bool;
  contiguous_blocks : Z;
  max_contiguous : Z;
  first_block : Z;
}.

(** A round of its loop, for block [j]. *)
Definition requested_step (peer_ j : Z) (b : block_info) (r : requested) : requested :=
  if decide (bstate b = state_none) then
    Req (exclusive r) (exclusive_active r) (contiguous_blocks r + 1) (max_contiguous r) (first_block r)
  else
    let '(mc, fb) :=
      if max_contiguous r <? contiguous_blocks r
      then (contiguous_blocks r, j - contiguous_blocks r) else (max_contiguous r, first_block r) in
    let other := negb (peer b =? peer_) in
    Req (exclusive r && negb other)
        (exclusive_active r &&
         negb (other && bool_decide (bstate b = state_requested) && negb (peer b =? 0)))
        0 mc fb.

Fixpoint requested_loop (s : picker) (d : downloading_piece) (peer_ : Z) (n : nat) (j : Z)
    (r : requested) : option requested :=
  match n with
  | O => Some r
  | S n => b ← block_at d j s; requested_loop s d peer_ n (j + 1) (requested_step peer_ j b r)
  end.

Definition requested_from (s : picker) (d : downloading_piece) (num_blocks_in_piece peer_ : Z)
  : option (bool * bool * Z * Z) :=
  r ← requested_loop s d peer_ (Z.to_nat num_blocks_in_piece) 0 (Req true true 0 0 0);
  let '(mc, fb) :=
    if max_contiguous r <? contiguous_blocks r
    then (contiguous_blocks r, num_blocks_in_piece - contiguous_blocks r)
    else (max_contiguous r, first_block r) in
  Some (exclusive r, exclusive_active r, mc, fb).

(** ** [expand_piece] *)

(** [while (start - 1 >= lower_limit && can_pick(start - 1, have)) --start;] *)
Fixpoint expand_down (fuel : nat) (s : picker) (have_ : bitfield) (lower_limit start : Z) : option Z :=
  match fuel with
  | O => None
  | S fuel =>
      if lower_limit <=? start - 1 then
        c ← can_pick (start - 1) have_ s;
        if (c : bool) then expand_down fuel s have_ lower_limit (start - 1) else Some start
      else Some start
  end.

Fixpoint expand_up (fuel : nat) (s : picker) (have_ : bitfield) (upper_limit end_ : Z) : option Z :=
  match fuel with
  | O => None
  | S fuel =>
      if end_ <? upper_limit then
        c ← can_pick end_ have_ s;
        if (c : bool) then expand_up fuel s have_ upper_limit (end_ + 1) else Some end_
      else Some end_
  end.

(** A piece index is at most the number of pieces, which bounds both loops. *)
Definition expand_piece (s : picker) (piece contiguous_blocks : Z) (have_ : bitfield) (o : options)
  : option (Z * Z) :=
  if contiguous_blocks =? 0 then Some (piece, piece + 1)
  else if m_blocks_per_piece s =? 0 then None
  else
    let rounded := contiguous_blocks + m_blocks_per_piece s - 1 in
    let whole_pieces := Z.quot rounded (m_blocks_per_piece s) in
    if negb (is_int rounded) || (opt_align_expanded_pieces o && (whole_pieces =? 0)) then None
    else
      let lower_limit :=
        if opt_align_expanded_pieces o then piece - Z.rem piece whole_pieces
        else Z.max 0 (piece - whole_pieces + 1) in
      let fuel := S (length (m_piece_map s)) in
      start ← expand_down fuel s have_ lower_limit piece;
      let upper_limit := (if opt_align_expanded_pieces o then lower_limit else start) + whole_pieces in
      if negb (is_int upper_limit) then None
      else
      let upper_limit := Z.min (num_pieces s) upper_limit in
      end_ ← expand_up fuel s have_ upper_limit (piece + 1);
      Some (start, end_).

(** ** Adding the blocks of a piece *)

(** The loop over the free blocks of a downloading piece; [true] where the
    source returns 0 from inside it. *)
Fixpoint add_free_blocks (s : picker) (d : downloading_piece) (n : nat) (j count first prefer : Z)
    (k : picks) : option (bool * picks) :=
  match n with
  | O => Some (false, k)
  | S n =>
      let block_idx := Z.rem (j + first) count in
      b ← block_at d block_idx s;
      if decide (bstate b <> state_none) then add_free_blocks s d n (j + 1) count first prefer k
      else
        let k := push_interesting (PB (dp_index d) block_idx) k in
        let k := set_num_blocks (num_blocks k - 1) k in
        if 0 <? prefer then add_free_blocks s d n (j + 1) count first (prefer - 1) k
        else if num_blocks k <=? 0 then Some (true, k)
        else add_free_blocks s d n (j + 1) count first prefer k
  end.

Fixpoint add_backup_blocks (s : picker) (d : downloading_piece) (n : nat) (j count first : Z)
    (k : picks) : option picks :=
  match n with
  | O => Some k
  | S n =>
      let block_idx := Z.rem (j + first) count in
      b ← block_at d block_idx s;
      let k := if decide (bstate b <> state_none) then k
               else push_backup2 (PB (dp_index d) block_idx) k in
      add_backup_blocks s d n (j + 1) count first k
  end.

(** [num_blocks] of the result is what the source returns. *)
Definition add_blocks_downloading (s : picker) (d : downloading_piece) (pieces : bitfield)
    (prefer peer_ : Z) (o : options) (k : picks) : option picks :=
  bit ← get_bit pieces (dp_index d);
  if negb bit then Some k
  else if dp_locked d then Some k
  else
    let count := blocks_in_piece (dp_index d) s in
    '(excl, excl_active, contiguous, first) ← requested_from s d count peer_;
    let first := if prefer =? 0 then 0 else first in
    if opt_on_parole o && negb excl then Some k
    else if (contiguous <? prefer) && negb excl_active && negb (opt_on_parole o) then
      if num_blocks k <=? zlen (backup2 k) then Some k
      else add_backup_blocks s d (Z.to_nat count) 0 count first k
    else
      '(_, k) ← add_free_blocks s d (Z.to_nat count) 0 count first prefer k;
      Some (if num_blocks k <=? 0 then set_num_blocks 0 k else k).

(** [n] blocks of a piece from block [j] on. *)
Fixpoint push_blocks (n : nat) (piece j : Z) (k : picks) : picks :=
  match n with
  | O => k
  | S n => push_blocks n piece (j + 1) (push_interesting (PB piece j) k)
  end.

(** The blocks of one of the pieces of an expanded range, until [stop]. *)
Fixpoint push_until (stop : Z -> Z -> bool) (stat : picks -> picks) (n : nat) (piece j prefer : Z)
    (k : picks) : Z * picks :=
  match n with
  | O => (prefer, k)
  | S n =>
      let k := push_interesting (PB piece j) (stat k) in
      let k := set_num_blocks (num_blocks k - 1) k in
      let prefer := prefer - 1 in
      if stop prefer (num_blocks k) then (prefer, k) else push_until stop stat n piece (j + 1) prefer k
  end.

(** The loop over the pieces [start, end) of an expanded range. *)
Fixpoint push_pieces (stop : Z -> Z -> bool) (stat flag : picks -> picks) (s : picker) (n : nat)
    (i prefer : Z) (k : picks) : Z * picks :=
  match n with
  | O => (prefer, k)
  | S n =>
      let '(prefer, k) := push_until stop stat (Z.to_nat (blocks_in_piece i s)) i 0 prefer (flag k) in
      push_pieces stop stat flag s n (i + 1) prefer k
  end.

Definition add_blocks (s : picker) (piece : Z) (pieces : bitfield) (prefer peer_ : Z)
    (ignore : list Z) (o : options) (k : picks) : option picks :=
  if bool_decide (piece ∈ ignore) then Some k
  else
    p ← piece_at piece s;
    if decide (download_queue p = piece_downloading) then
      if opt_prioritize_partials o then Some k
      else
        it ← find_dl_piece piece_downloading piece s;
        d ← dl_deref it s;
        add_blocks_downloading s d pieces prefer peer_ o k
    else if decide (download_queue p = piece_open) then
      if prefer =? 0 then
        let n := Z.min (blocks_in_piece piece s) (num_blocks k) in
        let k := push_blocks (Z.to_nat n) piece 0 k in
        Some (set_num_blocks (Z.max (num_blocks k - n) 0) k)
      else
        '(start, end_) ← expand_piece s piece prefer pieces o;
        let '(_, k) :=
          push_pieces (fun prefer num => (prefer =? 0) && (num <=? 0)) id id s
            (Z.to_nat (end_ - start)) start prefer k in
        Some (set_num_blocks (Z.max (num_blocks k) 0) k)
    else Some k.

(** ** [pick_pieces] *)

Section pick.
Context (s : picker) (pieces : bitfield) (peer_ : Z) (suggested_pieces : list Z).

(** A piece of one of the loops: its blocks are added, and the source returns
    when there are enough. *)
Definition pick_one (flag : picker_flag) (o : options) (prefer : Z) (ignore : list Z) (i : Z)
    (k : picks) : option phase :=
  free ← is_piece_free i pieces s;
  if negb free then Some (Cont k)
  else
    k ← add_blocks s i pieces prefer peer_ ignore o (set_flag flag k);
    Some (return_if_filled k).

(** The downloading pieces that are eligible. *)
Fixpoint eligible_partials (o : options) (l : list downloading_piece) (k : picks)
  : option (list downloading_piece * picks) :=
  match l with
  | [] => Some ([], k)
  | d :: l =>
      let k := count_stat partial_loops k in
      low ← too_low o (dp_index d) s;
      free ← (if (low : bool) then Some false else is_piece_free (dp_index d) pieces s);
      '(r, k) ← eligible_partials o l k;
      Some (if (free : bool) then d :: r else r, k)
  end.

Fixpoint pick_partials (o : options) (prefer : Z) (l : list downloading_piece) (k : picks)
  : option phase :=
  match l with
  | [] => Some (Cont k)
  | d :: l =>
      k ← add_blocks_downloading s d pieces prefer peer_ o (set_flag f_prioritize_partials k);
      if num_blocks k <=? 0 then Some (Done k)
      else if (num_blocks k <=? zlen (backup k)) && (num_blocks k <=? zlen (backup2 k))
      then Some (Cont k)
      else pick_partials o prefer l k
  end.

(** The suggested pieces. *)
Fixpoint pick_suggested (o : options) (prefer : Z) (l : list Z) (k : picks) : option phase :=
  match l with
  | [] => Some (Cont k)
  | i :: l =>
      low ← too_low o i s;
      if (low : bool) then pick_suggested o prefer l k
      else
        r ← pick_one f_suggested_pieces o prefer [] i (count_stat suggest_loops k);
        match r with Done k => Some (Done k) | Cont k => pick_suggested o prefer l k end
  end.

(** The pieces of the highest priority at the front of the pick list. *)
Fixpoint pick_top (flag : picker_flag) (o : options) (prefer : Z) (l : list Z) (k : picks)
  : option phase :=
  match l with
  | [] => Some (Cont k)
  | i :: l =>
      p ← piece_priority i s;
      if negb (p =? priority_levels - 1) then Some (Cont k)
      else
        r ← pick_one flag o prefer suggested_pieces i k;
        match r with Done k => Some (Done k) | Cont k => pick_top flag o prefer l k end
  end.

(** The pieces in sequence: forwards from the cursor, or backwards. *)
Fixpoint pick_sequence (flag : picker_flag) (o : options) (prefer : Z) (n : nat) (i stride : Z)
    (k : picks) : option phase :=
  match n with
  | O => Some (Cont k)
  | S n =>
      let k := count_stat sequential_loops k in
      free ← is_piece_free i pieces s;
      p ← (if (free : bool) then piece_priority i s else Some 0);
      if negb free || (p =? priority_levels - 1)
      then pick_sequence flag o prefer n (i + stride) stride k
      else
        r ← pick_one flag o prefer suggested_pieces i k;
        match r with
        | Done k => Some (Done k)
        | Cont k => pick_sequence flag o prefer n (i + stride) stride k
        end
  end.

(** The pick list in order, rarest pieces first. *)
Fixpoint pick_rarest (o : options) (prefer : Z) (l : list Z) (k : picks) : option phase :=
  match l with
  | [] => Some (Cont k)
  | i :: l =>
      let k := count_stat rare_loops k in
      low ← too_low o i s;
      if (low : bool) then Some (Cont k)
      else
        r ← pick_one f_rarest_first o prefer suggested_pieces i k;
        match r with Done k => Some (Done k) | Cont k => pick_rarest o prefer l k end
  end.

(** The positions of one priority, from its last one down. *)
Fixpoint pick_bucket_reverse (o : options) (prefer : Z) (n : nat) (p : Z) (k : picks) : option phase :=
  match n with
  | O => Some (Cont k)
  | S n =>
      i ← zget (m_pieces s) p;
      r ← pick_one f_reverse_rarest_first o prefer suggested_pieces i (count_stat reverse_rare_loops k);
      match r with Done k => Some (Done k) | Cont k => pick_bucket_reverse o prefer n (p - 1) k end
  end.

(** The priorities, from the last one down. *)
Fixpoint pick_reverse (o : options) (prefer : Z) (n : nat) (i : Z) (k : picks) : option phase :=
  match n with
  | O => Some (Cont k)
  | S n =>
      start ← (if i =? 0 then Some 0 else zget (m_priority_boundries s) (i - 1));
      end_ ← zget (m_priority_boundries s) i;
      r ← pick_bucket_reverse o prefer (Z.to_nat (end_ - start)) (end_ - 1) k;
      match r with Done k => Some (Done k) | Cont k => pick_reverse o prefer n (i - 1) k end
  end.

(** The next piece at or after [piece] that can be picked; [None] inside when
    the search comes back to [start_piece]. *)
Fixpoint next_random (fuel : nat) (start_piece piece : Z) (k : picks) : option (option Z * picks) :=
  match fuel with
  | O => None
  | S fuel =>
      free ← is_piece_free piece pieces s;
      if negb free || bool_decide (piece ∈ suggested_pieces) then
        let k := count_stat rand_start_loops k in
        let piece := if piece + 1 =? num_pieces s then 0 else piece + 1 in
        if piece =? start_piece then Some (None, k) else next_random fuel start_piece piece k
      else Some (Some piece, k)
  end.

(** The loop that starts at a random piece; [prefer] changes with the blocks
    that are picked. *)
Fixpoint pick_random (fuel : nat) (o : options) (start_piece piece prefer : Z) (k : picks)
  : option picks :=
  match fuel with
  | O => None
  | S fuel =>
      if num_blocks k <=? 0 then Some k
      else
        '(found, k) ← next_random (S (length (m_piece_map s))) start_piece piece k;
        match found with
        | None => Some k
        | Some piece =>
            p ← piece_at piece s;
            '(piece, prefer, k) ←
              (if (1 <? prefer) && negb (downloading p) then
                 '(start, end_) ← expand_piece s piece prefer pieces o;
                 let '(prefer, k) :=
                   push_pieces (fun prefer num => (prefer <=? 0) && (num <=? 0))
                     (count_stat rand_loops) (set_flag f_random_pieces) s
                     (Z.to_nat (end_ - start)) start prefer k in
                 Some (end_, prefer, k)
               else
                 k ← add_blocks s piece pieces prefer peer_ [] o (set_flag f_random_pieces k);
                 Some (piece + 1, prefer, k));
            let piece := if piece =? num_pieces s then 0 else piece in
            if piece =? start_piece then Some k
            else pick_random fuel o start_piece piece prefer k
        end
  end.

(** End game: the full pieces the peer has. *)
Fixpoint busy_partials (o : options) (l : list downloading_piece) (size : nat)
  : option (list downloading_piece) :=
  match l with
  | [] => Some []
  | d :: l =>
      match size with
      | O => Some []
      | S size' =>
          bit ← get_bit pieces (dp_index d);
          low ← (if (bit : bool) then too_low o (dp_index d) s else Some true);
          if (low : bool) then busy_partials o l size
          else r ← busy_partials o l size'; Some (d :: r)
      end
  end.

(** The blocks of a piece that are requested from other peers. *)
Fixpoint busy_blocks (d : downloading_piece) (n : nat) (j : Z) : option (list piece_block) :=
  match n with
  | O => Some []
  | S n =>
      b ← block_at d j s;
      r ← busy_blocks d n (j + 1);
      Some (if bool_decide (bstate b = state_requested) && negb (peer b =? peer_)
            then PB (dp_index d) j :: r else r)
  end.
End pick.

(** [partials[piece] = partials[partials_size - 1]; --partials_size;] *)
Definition drop_partial (l : list downloading_piece) (piece : Z) : option (list downloading_piece) :=
  d ← zget l (zlen l - 1);
  l ← zset l piece d;
  Some (take (length l - 1) l).

Section random.
Context (random_values : nat -> Z).

(** [std::sort] with the comparison of the source; which order equal elements
    get is up to the library. *)
Context (sort : (downloading_piece -> downloading_piece -> bool) ->
                list downloading_piece -> list downloading_piece).

(** The loop over random partial pieces. *)
Fixpoint end_game (fuel : nat) (peer_ : Z) (partials : list downloading_piece) (k : picks) : M picks :=
  match fuel with
  | O => undefined
  | S fuel =>
      match partials with
      | [] => mret k
      | _ =>
          let k := count_stat busy_loops k in
          piece ← randint random_values (zlen partials);
          d ← lift (zget partials piece);
          n ← gets (blocks_in_piece (dp_index d));
          temp ← query (fun s => busy_blocks s peer_ d (Z.to_nat n) 0);
          match temp with
          | _ :: _ =>
              r ← randint random_values (zlen temp);
              b ← lift (zget temp r);
              let k := push_interesting b (set_flag f_end_game k) in
              mret (set_num_blocks (num_blocks k - 1) k)
          | [] =>
              partials ← lift (drop_partial partials piece);
              end_game fuel peer_ partials k
          end
      end
  end.

(** [if (m_dirty) update_pieces();] *)
Definition clean_pieces : M unit :=
  dirty ← get_dirty; when dirty (update_pieces random_values).

(** The pieces in order, by the options. *)
Definition pick_by_order (o : options) (pieces : bitfield) (prefer peer_ : Z)
    (suggested : list Z) (k : picks) : M phase :=
  if opt_sequential o then
    _ ← clean_pieces;
    r ← query (fun s => pick_top s pieces peer_ suggested f_prio_sequential_pieces o prefer (m_pieces s) k);
    match r with
    | Done k => mret (Done k)
    | Cont k =>
        if opt_time_critical_mode o then mret (Cont k)
        else
          query (fun s =>
            let n := Z.to_nat (m_reverse_cursor s - m_cursor s) in
            if opt_reverse o
            then pick_sequence s pieces peer_ suggested f_reverse_sequential o prefer n
                   (m_reverse_cursor s - 1) (-1) k
            else pick_sequence s pieces peer_ suggested f_sequential_pieces o prefer n
                   (m_cursor s) 1 k)
    end
  else if opt_rarest_first o then
    _ ← clean_pieces;
    query (fun s =>
      if opt_reverse o && negb (opt_time_critical_mode o)
      then pick_reverse s pieces peer_ suggested o prefer (length (m_priority_boundries s))
             (zlen (m_priority_boundries s) - 1) k
      else pick_rarest s pieces peer_ suggested o prefer (m_pieces s) k)
  else if opt_time_critical_mode o then
    query (fun s => pick_top s pieces peer_ suggested f_time_critical o prefer (m_pieces s) k)
  else
    n ← gets num_pieces;
    start_piece ← randint random_values n;
    k ← query (fun s => pick_random s pieces peer_ suggested
                          (Z.to_nat ((num_blocks k + 1) * (n + 1))) o start_piece start_piece prefer k);
    mret (Cont k).

(** What is done with the partial pieces first. *)
Definition pick_from_partials (o : options) (pieces : bitfield) (prefer peer_ : Z) (k : picks)
  : M phase :=
  l ← query (downloads_of piece_downloading);
  '(l, k) ← query (fun s => eligible_partials s pieces o l k);
  '(l, k) ← gets (fun s =>
    if opt_rarest_first o then
      (sort (fun a b => match partial_compare_rarest_first s a b with Some r => r | None => false end) l,
       set_flag f_rarest_first_partials k)
    else (l, k));
  r ← query (fun s => pick_partials s pieces peer_ o prefer l k);
  match r with
  | Done k => mret (Done k)
  | Cont k =>
      let k := append_backup k in
      if num_blocks k <=? 0 then mret (Done k)
      else mret (return_if_filled (append_backup2 k))
  end.

(** After the label [get_out]. *)
Definition pick_rest (o : options) (pieces : bitfield) (peer_ : Z) (k : picks) : M picks :=
  if num_blocks k <=? 0 then mret k
  else
    let k := append_backup (set_flag f_backup1 k) in
    if num_blocks k <=? 0 then mret k
    else
      let k := append_backup2 (set_flag f_backup2 k) in
      if num_blocks k <=? 0 then mret k
      else if opt_on_parole o then mret k
      else
        partial ← query (downloads_of piece_downloading);
        full ← query (downloads_of piece_full);
        let partials_size := Z.min 200 (zlen partial + zlen full) in
        if partials_size =? 0 then mret k
        else
          l ← query (fun s => busy_partials s pieces o full (Z.to_nat partials_size));
          end_game (S (length l)) peer_ l k.

(** Whether partial pieces are picked first: there are many of them. *)
Definition many_partials (num_peers num_partials blocks_per_piece : Z) : option bool :=
  if negb (is_int (num_peers * 3)) then None
  else if Z.quot (num_peers * 3) 2 <? num_partials then Some true
  else if negb (is_int (num_partials * blocks_per_piece)) then None
  else Some (2048 <? num_partials * blocks_per_piece).

(** [pick_pieces(...)]: [interesting] and [flags] of the result are the vector
    the source fills in and the value it returns. *)
Definition pick_pieces (pieces : bitfield) (interesting_blocks : list piece_block)
    (num_blocks prefer_contiguous_blocks peer_ : Z) (o : options) (suggested_pieces : list Z)
    (num_peers : Z) : M picks :=
  l ← query (downloads_of piece_downloading);
  pad ← gets m_num_pad_files;
  bpp ← gets m_blocks_per_piece;
  let num_partials := zlen l - pad in
  many ← lift (many_partials num_peers num_partials bpp);
  let o := if (many : bool) then with_prioritize_partials o else o in
  let prefer := if many then 0 else prefer_contiguous_blocks in
  let k := Picks interesting_blocks [] [] num_blocks 0 [] in
  let k := if many then set_flag f_partial_ratio k else k in
  let k := if prefer =? 0 then k else set_flag f_prefer_contiguous k in
  r ← (if opt_prioritize_partials o then pick_from_partials o pieces prefer peer_ k else mret (Cont k));
  match r with
  | Done k => mret k
  | Cont k =>
      r ← query (fun s => pick_suggested s pieces peer_ o prefer suggested_pieces k);
      match r with
      | Done k => mret k
      | Cont k =>
          r ← pick_by_order o pieces prefer peer_ suggested_pieces k;
          match r with
          | Done k => mret k
          | Cont k => pick_rest o pieces peer_ k
          end
      end
  end.
End random.
