(* ===== verification/PickerQuery.v ===== *)
(** * Queries of the piece picker, and its own invariant check (piece_picker.cpp)

    The [const] member functions other than [pick_pieces].  [check_invariant]
    is the debug check of the source, as a boolean: [true] when every assertion
    it makes holds (the ones on peer objects and on the torrent apart). *)

From Stdlib Require Import ZArith Lia.
From stdpp Require Import base numbers list.
From S2P Require Import Prelude Bitfield PickerState PickerList PickerOps PickerPick.

(** ** Pieces *)

(** [piece_info(index, st)]: the members it assigns; the others keep their
    value in [st]. *)
Definition piece_info (i : Z) (st : downloading_piece) (s : picker) : option downloading_piece :=
  p ← piece_at i s;
  if decide (download_queue p <> piece_open) then
    it ← find_dl_piece (download_queue p) i s; dl_deref it s
  else
    Some (DP (u32 i) 0 (if have p then bits15 (blocks_in_piece i s) else 0) (dp_passed_hash_check st)
             0 (dp_locked st) 0 (dp_outstanding_hash_check st)).

Record piece_stats_t := PieceStats {
  st_peer_count : Z; st_priority : Z; st_have : bool; st_downloading : bool }.

Definition piece_stats (i : Z) (s : picker) : option piece_stats_t :=
  p ← piece_at i s;
  Some (PieceStats (peer_count p + m_seeds s) (priority (m_seeds s) p) (have p) (downloading p)).

Definition piece_priorities (s : picker) : list Z := map piece_prio (m_piece_map s).
Definition filtered_pieces (s : picker) : list bool := map filtered (m_piece_map s).

Definition get_availability (s : picker) : list Z :=
  map (fun p => peer_count p + m_seeds s) (m_piece_map s).
Definition get_availability_of (i : Z) (s : picker) : option Z :=
  p ← piece_at i s; Some (peer_count p + m_seeds s).

(** A round of the loop of [distributed_copies]: the lowest availability, the
    pieces that have it and those that have more. *)
Definition copies_step (p : piece_pos) (acc : Z * Z * Z) : Z * Z * Z :=
  let '(min_availability, integer_part, fraction_part) := acc in
  let peer_count := if have p then peer_count p + 1 else peer_count p in
  if peer_count <? min_availability then (peer_count, 1, fraction_part + integer_part)
  else if peer_count =? min_availability then (min_availability, integer_part + 1, fraction_part)
  else (min_availability, integer_part, fraction_part + 1).

Definition distributed_copies (s : picker) : Z * Z :=
  if num_pieces s =? 0 then (1, 0)
  else
    let '(min_availability, _, fraction_part) :=
      fold_left (fun acc p => copies_step p acc) (m_piece_map s) (max_peer_count, 0, 0) in
    (min_availability + m_seeds s, Z.quot (fraction_part * 1000) (num_pieces s)).

Definition is_piece_finished (i : Z) (s : picker) : option bool :=
  p ← piece_at i s;
  if index p =? we_have_index then Some true
  else if decide (download_queue p = piece_open) then Some false
  else
    it ← find_dl_piece (download_queue p) i s;
    d ← dl_deref it s;
    Some (negb (dp_finished d + dp_writing d <? blocks_in_piece i s)).

Definition has_piece_passed (i : Z) (s : picker) : option bool :=
  p ← piece_at i s;
  if index p =? we_have_index then Some true
  else if decide (download_queue p = piece_open) then Some false
  else
    it ← find_dl_piece (download_queue p) i s;
    d ← dl_deref it s;
    Some (dp_passed_hash_check d).

(** [is_finished()], [is_seeding()], [num_want_left()] *)
Definition all_wanted_finished (s : picker) : bool :=
  m_num_have s - m_num_have_filtered s =? num_pieces s - m_num_filtered s.
Definition is_seeding (s : picker) : bool := m_num_have s =? num_pieces s.
Definition num_want_left (s : picker) : Z :=
  num_pieces s - m_num_have s - m_num_filtered s + m_num_have_filtered s.

(** ** Blocks *)

(** The block of a piece that is being downloaded. *)
Definition block_of (block : piece_block) (s : picker) : option block_info :=
  p ← piece_at (piece_index block) s;
  it ← find_dl_piece (download_queue p) (piece_index block) s;
  d ← dl_deref it s;
  block_at d (block_index block) s.

Definition is_requested (block : piece_block) (s : picker) : option bool :=
  p ← piece_at (piece_index block) s;
  if decide (download_queue p = piece_open) then Some false
  else b ← block_of block s; Some (bool_decide (bstate b = state_requested)).

Definition is_downloaded (block : piece_block) (s : picker) : option bool :=
  p ← piece_at (piece_index block) s;
  if index p =? we_have_index then Some true
  else if decide (download_queue p = piece_open) then Some false
  else
    b ← block_of block s;
    Some (bool_decide (bstate b = state_finished) || bool_decide (bstate b = state_writing)).

Definition is_finished (block : piece_block) (s : picker) : option bool :=
  p ← piece_at (piece_index block) s;
  if index p =? we_have_index then Some true
  else if decide (download_queue p = piece_open) then Some false
  else b ← block_of block s; Some (bool_decide (bstate b = state_finished)).

Definition num_peers_of (block : piece_block) (s : picker) : option Z :=
  p ← piece_at (piece_index block) s;
  if downloading p then b ← block_of block s; Some (num_peers b) else Some 0.

Fixpoint block_peers (s : picker) (d : downloading_piece) (n : nat) (j : Z) : option (list Z) :=
  match n with
  | O => Some []
  | S n => b ← block_at d j s; l ← block_peers s d n (j + 1); Some (peer b :: l)
  end.

Definition get_downloaders (i : Z) (s : picker) : option (list Z) :=
  p ← piece_at i s;
  let num_blocks := Z.to_nat (blocks_in_piece i s) in
  if decide (download_queue p = piece_open) then Some (replicate num_blocks 0)
  else
    it ← find_dl_piece (download_queue p) i s;
    d ← dl_deref it s;
    block_peers s d num_blocks 0.

Definition get_downloader (block : piece_block) (s : picker) : option Z :=
  p ← piece_at (piece_index block) s;
  if decide (download_queue p = piece_open) then Some 0
  else
    b ← block_of block s;
    Some (if decide (bstate b = state_none) then 0 else peer b).

(** ** The lists of downloading pieces *)

Definition get_download_queue (s : picker) : list downloading_piece := concat (m_downloads s).
Definition get_download_queue_size (s : picker) : Z :=
  fold_left (fun n l => n + zlen l) (m_downloads s) 0.

Definition get_download_queue_sizes (s : picker) : option (Z * Z * Z * Z) :=
  a ← downloads_of piece_downloading s; b ← downloads_of piece_full s;
  c ← downloads_of piece_finished s; d ← downloads_of piece_zero_prio s;
  Some (zlen a, zlen b, zlen c, zlen d).

Definition unverified_blocks (s : picker) : Z :=
  fold_left (fun n l => fold_left (fun n d => n + dp_finished d) l n) (m_downloads s) 0.

(** ** The invariant check *)

Definition is_true_at (o : option bool) : bool := match o with Some b => b | None => false end.

Definition blocks_allocated (d : downloading_piece) (s : picker) : bool :=
  dp_info_idx d * m_blocks_per_piece s + m_blocks_per_piece s <=? zlen (m_block_info s).

(** The loop over one list: increasing piece indices, allocated blocks. *)
Fixpoint check_list (l : list downloading_piece) (s : picker) : bool :=
  match l with
  | d :: (next :: _) as l =>
      (dp_index d <? dp_index next) && blocks_allocated d s && check_list l s
  | _ => true
  end.

Definition check_piece_state (s : picker) : bool := forallb (fun l => check_list l s) (m_downloads s).

Definition verify_pick (picked : list piece_block) (bits : bitfield) (s : picker) : bool :=
  (bf_size bits =? num_pieces s) &&
  forallb (fun b =>
    (0 <=? piece_index b) && (piece_index b <? bf_size bits) &&
    is_true_at (get_bit bits (piece_index b)) &&
    match piece_at (piece_index b) s with
    | Some p => negb (have p) && negb (filtered p) | None => false end) picked.

Definition verify_priority (range_start range_end prio : Z) (s : picker) : bool :=
  (range_start <=? range_end) && (range_end <=? zlen (m_pieces s)) &&
  forallb (fun i => match priority_of i s with Some p => p =? prio | None => false end)
    (take (Z.to_nat (range_end - range_start)) (drop (Z.to_nat range_start) (m_pieces s))).

Fixpoint verify_priorities (bs : list Z) (start prio : Z) (s : picker) : bool :=
  match bs with
  | [] => true
  | b :: bs => verify_priority start b prio s && verify_priorities bs b (prio + 1) s
  end.

(** The blocks of a downloading piece in the four states, in the order open,
    requested, writing, finished. *)
Definition count_states (l : list block_info) : Z * Z * Z * Z :=
  let n st := zlen (filter (fun b => bstate b = st) l) in
  (n state_none, n state_requested, n state_writing, n state_finished).

Definition blocks_of (d : downloading_piece) (n : Z) (s : picker) : list block_info :=
  take (Z.to_nat n) (drop (Z.to_nat (dp_info_idx d * m_blocks_per_piece s)) (m_block_info s)).

Definition check_downloading (st : state_t) (d : downloading_piece) (s : picker) : bool :=
  match piece_at (dp_index d) s with
  | None => false
  | Some p =>
      let num_blocks := blocks_in_piece (dp_index d) s in
      let bs := blocks_of d num_blocks s in
      let '(num_open, num_requested, num_writing, num_finished) := count_states bs in
      bool_decide (download_queue p = st) &&
      forallb (fun b => if decide (bstate b = state_requested) then 0 <? num_peers b
                        else num_peers b =? 0) bs &&
      match st with
      | piece_downloading => negb (filtered p) && (0 <? num_open)
      | piece_full => negb (filtered p) && (num_open =? 0) && (0 <? num_requested)
      | piece_finished => negb (filtered p) && (num_open =? 0) && (num_requested =? 0) &&
                          (num_finished + num_writing =? num_blocks)
      | _ => filtered p
      end &&
      (num_requested =? dp_requested d) && (num_writing =? dp_writing d) &&
      (num_finished =? dp_finished d)
  end.

Definition check_downloads (s : picker) : bool :=
  forallb (fun st => match downloads_of st s with
                     | Some l => forallb (fun d => check_downloading st d s) l | None => false end)
    [piece_downloading; piece_full; piece_finished; piece_zero_prio].

(** The cursors are where a scan of the pieces puts them. *)
Definition check_cursors (s : picker) : bool :=
  let n := num_pieces s in
  (0 <=? m_cursor s) && (m_cursor s <=? n) && (m_reverse_cursor s <=? n) &&
  (0 <=? m_reverse_cursor s) &&
  ((m_cursor s <? m_reverse_cursor s) || ((m_cursor s =? n) && (m_reverse_cursor s =? 0))) &&
  (m_cursor s =? skip_unwanted (m_piece_map s) 0) &&
  (m_reverse_cursor s =? skip_unwanted_back (m_piece_map s) n).

Definition count_pieces (f : piece_pos -> bool) (s : picker) : Z := zlen (filter (fun p => f p = true) (m_piece_map s)).

Definition check_counters (s : picker) : bool :=
  (0 <=? m_seeds s) &&
  (m_num_have s =? count_pieces have s) &&
  (m_num_filtered s =? count_pieces (fun p => filtered p && negb (have p)) s) &&
  (m_num_have_filtered s =? count_pieces (fun p => filtered p && have p) s).

(** The pick list holds every piece that can be picked, where the piece says,
    and no other. *)
Definition check_piece (i : Z) (p : piece_pos) (s : picker) : bool :=
  let prio := priority (m_seeds s) p in
  negb (have p && downloading p) &&
  ((prio =? -1) ||
   (prio mod prio_factor =? (if negb (downloading p) then 1 else if reverse_state p then 2 else 0))) &&
  (m_dirty s ||
   ((prio <? zlen (m_priority_boundries s)) &&
    (if 0 <=? prio then is_true_at (x ← zget (m_pieces s) (index p); Some (x =? i))
     else negb (bool_decide (i ∈ m_pieces s))))) &&
  forallb (fun st =>
    match downloads_of st s with
    | Some l =>
        zlen (filter (fun d => dp_index d = i) l) =?
        (if decide (download_queue p = st) then 1 else 0)
    | None => false
    end) [piece_downloading; piece_full; piece_finished; piece_zero_prio].

Fixpoint check_pieces (l : list piece_pos) (i : Z) (s : picker) : bool :=
  match l with [] => true | p :: l => check_piece i p s && check_pieces l (i + 1) s end.

Definition check_invariant (s : picker) : bool :=
  check_piece_state s && check_downloads s && check_cursors s &&
  (m_dirty s ||
   (negb (bool_decide (m_priority_boundries s = [])) &&
    verify_priorities (m_priority_boundries s) 0 0 s &&
    (List.last (m_priority_boundries s) 0 =? zlen (m_pieces s)) &&
    forallb (fun i => match priority_of i s with Some p => 0 <=? p | None => false end) (m_pieces s))) &&
  check_pieces (m_piece_map s) 0 s && check_counters s.
