(* ===== verification/PickerListSpec.v ===== *)
(** * Running the picker's operations, and moving a piece in the pick list

    [runs m s a s']: the operation [m] started in [s] returns [a] in [s'],
    without undefined behaviour.  [moved s s']: [s'] differs from [s] only in
    the pick list, and in the positions the pieces of the list have in it. *)

From Stdlib Require Import ZArith Lia.
From stdpp Require Import base numbers list.
From S2P Require Import Prelude PickerState PickerList.

(** ** Runs *)

Definition runs {A} (m : M A) (s : picker) (a : A) (s' : picker) : Prop := m s = Some (a, s').

Lemma runs_ret {A} (a : A) s : runs (mret a) s a s.
Proof. done. Qed.

Lemma runs_bind {A B} (m : M A) (f : A -> M B) s a s1 b s2 :
  runs m s a s1 -> runs (f a) s1 b s2 -> runs (m ≫= f) s b s2.
Proof. unfold runs, mbind, M_bind. by intros ->. Qed.

Lemma runs_assoc {A B C} (m : M A) (f : A -> M B) (g : B -> M C) s c s' :
  runs ((m ≫= f) ≫= g) s c s' -> runs (m ≫= (fun x => f x ≫= g)) s c s'.
Proof. unfold runs, mbind, M_bind. by destruct (m s) as [[]|]. Qed.

(** Three steps known together. *)
Lemma runs_bind3 {A B C D} (m : M A) (f : A -> M B) (h : A -> B -> M C) (g : C -> M D) s c s1 v s2 :
  runs (x ← m; y ← f x; h x y) s c s1 -> runs (g c) s1 v s2 -> runs (x ← m; y ← f x; z ← h x y; g z) s v s2.
Proof.
  unfold runs, mbind, M_bind. destruct (m s) as [[x t]|]; [|done]. destruct (f x t) as [[y t']|]; [|done].
  intros ->. done.
Qed.

Lemma runs_gets {A} (f : picker -> A) s : runs (gets f) s (f s) s.
Proof. done. Qed.

Lemma runs_modify f s : runs (modify f) s tt (f s).
Proof. done. Qed.

Lemma runs_query {A} (f : picker -> option A) s a : f s = Some a -> runs (query f) s a s.
Proof. unfold runs, query. by intros ->. Qed.

Lemma runs_lift {A} (o : option A) s a : o = Some a -> runs (lift o) s a s.
Proof. unfold runs, lift. by intros ->. Qed.

Lemma runs_func {A} (m : M A) s a a' s1 s2 : runs m s a s1 -> runs m s a' s2 -> a = a' /\ s1 = s2.
Proof. unfold runs. intros H1 H2. rewrite H1 in H2. by simplify_eq. Qed.

Create HintDb runs discriminated.
#[export] Hint Resolve runs_ret runs_gets runs_modify runs_query runs_lift : runs.

(** One step of a run whose operation has a hint. *)
Ltac run_step := eapply runs_bind; [solve [eauto with runs]|]; cbn beta iota.

(** ** Frames *)

Definition with_list (m : list piece_pos) (ps bs : list Z) (r : nat) (s : picker) : picker :=
  set_rng r (set_m_priority_boundries bs (set_m_pieces ps (set_m_piece_map m s))).

(** The piece but for its position; the position only tells whether we have
    the piece. *)
Definition same_piece (p p' : piece_pos) : Prop :=
  peer_count p' = peer_count p /\ download_state p' = download_state p /\
  piece_prio p' = piece_prio p /\ have p' = have p.

#[export] Instance same_piece_refl : Reflexive same_piece.
Proof. by intros p. Qed.

#[export] Instance same_piece_trans : Transitive same_piece.
Proof. intros p q r (?&?&?&?) (?&?&?&?). split_and!; congruence. Qed.

Record moved (s s' : picker) : Prop := {
  mv_map : Forall2 same_piece (m_piece_map s) (m_piece_map s');
  mv_rest : s' = with_list (m_piece_map s') (m_pieces s') (m_priority_boundries s') (rng s') s;
}.

#[export] Instance moved_refl : Reflexive moved.
Proof. intros s. split; [reflexivity|]. by destruct s. Qed.

#[export] Instance moved_trans : Transitive moved.
Proof.
  intros s1 s2 s3 [H1 H2] [H3 H4]. split; [by transitivity (m_piece_map s2)|].
  rewrite H4 at 1. rewrite H2 at 1. done.
Qed.

Lemma same_priority seeds p p' : same_piece p p' -> priority seeds p' = priority seeds p.
Proof.
  intros (Hc & Hd & Hp & Hh). unfold priority, filtered, reverse_state. by rewrite Hc, Hd, Hp, Hh.
Qed.

Lemma moved_piece s s' x p :
  moved s s' -> piece_at x s = Some p -> exists p', piece_at x s' = Some p' /\ same_piece p p'.
Proof.
  intros [Hm _]. unfold piece_at, zget. case_decide; [|done]. intros Hp.
  destruct (Forall2_lookup_l _ _ _ _ _ Hm Hp) as (p' & Hp' & Hs). eauto.
Qed.

Lemma moved_piece_inv s s' x p' :
  moved s s' -> piece_at x s' = Some p' -> exists p, piece_at x s = Some p /\ same_piece p p'.
Proof.
  intros [Hm _]. unfold piece_at, zget. case_decide; [|done]. intros Hp.
  destruct (Forall2_lookup_r _ _ _ _ _ Hm Hp) as (p & Hp' & Hs). eauto.
Qed.

Lemma moved_seeds s s' : moved s s' -> m_seeds s' = m_seeds s.
Proof. intros [_ ->]. done. Qed.

Lemma moved_num s s' : moved s s' -> length (m_piece_map s') = length (m_piece_map s).
Proof. intros [Hm _]. symmetry. by eapply Forall2_length. Qed.

Lemma moved_priority s s' x : moved s s' -> priority_of x s' = priority_of x s.
Proof.
  intros Hm. unfold priority_of. rewrite (moved_seeds _ _ Hm).
  destruct (piece_at x s) as [p|] eqn:Hp.
  - destruct (moved_piece _ _ _ _ Hm Hp) as (p' & -> & Hs). simpl. f_equal. by apply same_priority.
  - destruct (piece_at x s') as [p'|] eqn:Hp'; [|done].
    destruct (moved_piece_inv _ _ _ _ Hm Hp') as (p & Hp2 & _). congruence.
Qed.

(** ** The basic operations *)

Lemma runs_get_pieces_at i x s : zget (m_pieces s) i = Some x -> runs (get_pieces_at i) s x s.
Proof. intros H. by apply runs_query. Qed.

Lemma runs_get_boundry i b s : zget (m_priority_boundries s) i = Some b -> runs (get_boundry i) s b s.
Proof. intros H. by apply runs_query. Qed.

Lemma runs_set_boundry lo b hi b' s :
  m_priority_boundries s = lo ++ b :: hi ->
  runs (set_boundry (zlen lo) b') s tt (set_m_priority_boundries (lo ++ b' :: hi) s).
Proof. intros H. unfold runs, set_boundry. by rewrite H, (zset_mid lo b b' hi). Qed.

Lemma runs_get_priority x k s : priority_of x s = Some k -> runs (get_priority x) s k s.
Proof. intros H. by apply runs_query. Qed.

Lemma runs_get_piece x p s : piece_at x s = Some p -> runs (get_piece x) s p s.
Proof. intros H. by apply runs_query. Qed.

Lemma moved_boundries bs s : moved s (set_m_priority_boundries bs s).
Proof. split; [reflexivity|]. by destruct s. Qed.

Lemma moved_pieces ps s : moved s (set_m_pieces ps s).
Proof. split; [reflexivity|]. by destruct s. Qed.

Lemma moved_rng r s : moved s (set_rng r s).
Proof. split; [reflexivity|]. by destruct s. Qed.

#[export] Hint Resolve runs_get_pieces_at runs_get_boundry runs_get_priority runs_get_piece : runs.

(** A position a piece of the list can have. *)
Definition position (i : Z) : Prop := 0 <= i < we_have_index.

Lemma index_with i p : position i -> index (with_index i p) = i /\ have (with_index i p) = false.
Proof.
  unfold position, we_have_index, have, with_index. cbn [index]. intros Hi.
  rewrite u32_small by lia. split; [done|]. apply Z.eqb_neq. unfold we_have_index. lia.
Qed.

Lemma with_index_same i p : position i -> have p = false -> same_piece p (with_index i p).
Proof.
  intros Hi Hp. unfold position, we_have_index in Hi. unfold same_piece, have, with_index, we_have_index in *.
  cbn [peer_count download_state piece_prio index].
  split_and!; [done..|]. rewrite Hp. rewrite u32_small by lia. apply Z.eqb_neq. lia.
Qed.

Lemma piece_at_insert y x p s m :
  zset (m_piece_map s) x p = Some m -> piece_at y (set_m_piece_map m s) =
  if decide (x = y) then Some p else piece_at y s.
Proof. unfold piece_at. apply zget_zset. Qed.

Lemma modify_piece_index x i s p :
  piece_at x s = Some p -> have p = false -> position i ->
  exists m, runs (modify_piece x (with_index i)) s tt (set_m_piece_map m s) /\
    moved s (set_m_piece_map m s) /\
    (forall y, piece_at y (set_m_piece_map m s) =
      if decide (x = y) then Some (with_index i p) else piece_at y s).
Proof.
  intros Hp Hh Hi. unfold piece_at in Hp. pose proof (zget_Some_bound _ _ _ Hp) as Hb.
  unfold runs, modify_piece. rewrite Hp. cbn [mbind option_bind].
  unfold zset. rewrite decide_True by done. cbn [mbind option_bind].
  set (m := <[Z.to_nat x := with_index i p]> (m_piece_map s)).
  exists m. split_and!; [done| |].
  - split; [|by destruct s]. cbn [set_m_piece_map m_piece_map]. unfold m.
    unfold zget in Hp. rewrite decide_True in Hp by lia.
    rewrite <- (list_insert_id (m_piece_map s) (Z.to_nat x) p) at 1 by done.
    apply Forall2_insert; [reflexivity|]. by apply with_index_same.
  - intros y. apply piece_at_insert. unfold zset. by rewrite decide_True.
Qed.

(** One step of a program, run by the fact [H]. *)
Ltac step H := eapply runs_bind; [first [exact H | by apply H | by eapply H]|]; cbv beta.

(** ** Moving a piece in the pick list

    The list as its buckets: [m_pieces] is their concatenation and
    [m_priority_boundries] their ends.  Each loop of [add], [remove] and
    [update] turns every bucket it passes by one element; what the operations
    do is stated on the buckets up to the order inside each. *)

(** ** Buckets *)

(** The ends of the buckets, the first starting at [a]. *)
Fixpoint bounds (a : Z) (bk : list (list Z)) : list Z :=
  match bk with [] => [] | b :: bk => (a + zlen b) :: bounds (a + zlen b) bk end.

(** The first element goes last, and the last first. *)
Definition rotl (l : list Z) : list Z := match l with [] => [] | x :: l => l ++ [x] end.
Fixpoint last_first (l : list Z) : list Z :=
  match l with
  | [] => []
  | x :: l => match last_first l with [] => [x] | y :: l' => y :: x :: l' end
  end.

(** The piece [x] says that it is at position [i]. *)
Definition index_at (s : picker) (x i : Z) : Prop :=
  exists p, piece_at x s = Some p /\ index p = i /\ have p = false.

(** Every piece of the list but the one at [h] says where it is. *)
Definition indexed_but (s : picker) (h : Z) : Prop :=
  forall i x, zget (m_pieces s) i = Some x -> x <> -1 -> i <> h -> index_at s x i.

Definition indexed (s : picker) : Prop := indexed_but s (-1).

(** A piece that can be put in the list. *)
Definition placeable (s : picker) (x : Z) : Prop :=
  exists p, piece_at x s = Some p /\ have p = false.

Definition short_list (s : picker) : Prop := zlen (m_pieces s) < we_have_index.

(** ** Lemmas on buckets *)

Lemma length_bounds a bk : length (bounds a bk) = length bk.
Proof. revert a. induction bk as [|b bk IH]; intros a; simpl; [done|]. by rewrite IH. Qed.

Lemma bounds_app a bk bk' :
  bounds a (bk ++ bk') = bounds a bk ++ bounds (a + zlen (concat bk)) bk'.
Proof.
  revert a. induction bk as [|b bk IH]; intros a; simpl.
  - by rewrite Z.add_0_r.
  - rewrite IH. do 3 f_equal. rewrite length_app. lia.
Qed.

Lemma bounds_shift a d bk : map (fun b => b + d) (bounds a bk) = bounds (a + d) bk.
Proof.
  revert a. induction bk as [|b bk IH]; intros a; simpl; [done|]. rewrite IH.
  by replace (a + zlen b + d) with (a + d + zlen b) by lia.
Qed.

Lemma bounds_length a bk bk' :
  Forall2 (fun b b' => length b = length b') bk bk' -> bounds a bk = bounds a bk'.
Proof.
  intros H. revert a. induction H as [|b b' bk bk' Hb _ IH]; intros a; simpl; [done|].
  by rewrite Hb, IH.
Qed.

Lemma last_first_snoc l x : last_first (l ++ [x]) = x :: l.
Proof. induction l as [|y l IH]; simpl; [done|]. by rewrite IH. Qed.

Lemma rotl_perm l : rotl l ≡ₚ l.
Proof. destruct l as [|x l]; [done|]. simpl. by rewrite Permutation_app_comm. Qed.

Lemma last_first_perm l : last_first l ≡ₚ l.
Proof.
  destruct l as [|x l] using rev_ind; [done|]. rewrite last_first_snoc. by rewrite Permutation_app_comm.
Qed.

(** ** Lemmas on positions *)

Lemma index_at_moved s s' x i :
  moved s s' -> (forall p, piece_at x s = Some p -> piece_at x s' = Some p) ->
  index_at s x i -> index_at s' x i.
Proof. intros Hm Hx (p & Hp & Hi & Hh). exists p. auto. Qed.

Lemma index_at_func s x i j : index_at s x i -> index_at s x j -> i = j.
Proof. intros (p & Hp & Hi & _) (q & Hq & Hj & _). congruence. Qed.

Lemma placeable_moved s s' x : moved s s' -> placeable s x -> placeable s' x.
Proof.
  intros Hm (p & Hp & Hh). destruct (moved_piece _ _ _ _ Hm Hp) as (p' & Hp' & _ & _ & _ & Hs).
  exists p'. split; [done|congruence].
Qed.

Lemma index_at_placeable s x i : index_at s x i -> placeable s x.
Proof. intros (p & Hp & _ & Hh). by exists p. Qed.

Lemma placeable_nonneg s x : placeable s x -> 0 <= x.
Proof. intros (p & Hp & _). by apply zget_Some_bound in Hp as [? _]. Qed.

Lemma indexed_in s pre x post :
  indexed s -> m_pieces s = pre ++ x :: post -> x <> -1 -> index_at s x (zlen pre).
Proof. intros Hi Hm Hx. apply Hi; [|done|lia]. rewrite Hm. by apply zget_mid. Qed.

Lemma indexed_once s h i j x :
  indexed_but s h -> x <> -1 -> i <> h -> j <> h ->
  zget (m_pieces s) i = Some x -> zget (m_pieces s) j = Some x -> i = j.
Proof. intros H Hx Hi Hj H1 H2. eapply (index_at_func s x); by apply H. Qed.

(** Writing a piece into the list. *)
Lemma place_spec s x i h h' pre y post :
  m_pieces s = pre ++ y :: post -> i = zlen pre -> short_list s -> placeable s x ->
  indexed_but s h -> h = i \/ h = -1 ->
  (forall j, zget (m_pieces s) j = Some x -> j = i \/ j = h') ->
  exists s', runs (place x i) s tt s' /\ m_pieces s' = pre ++ x :: post /\
    m_priority_boundries s' = m_priority_boundries s /\ moved s s' /\ indexed_but s' h' /\
    index_at s' x i.
Proof.
  intros Hm -> Hshort (p & Hp & Hh) Hidx Hhole Honce.
  assert (position (zlen pre)) as Hpos.
  { unfold short_list in Hshort. rewrite Hm, length_app in Hshort. simpl in Hshort. split; lia. }
  destruct (modify_piece_index x (zlen pre) (set_m_pieces (pre ++ x :: post) s) p Hp Hh Hpos)
    as (m & Hrun & Hmoved & Hat).
  exists (set_m_piece_map m (set_m_pieces (pre ++ x :: post) s)). split_and!.
  - unfold place. eapply runs_bind; [|exact Hrun]. unfold runs, set_pieces_at.
    by rewrite Hm, (zset_mid pre y x post) by done.
  - done.
  - done.
  - etransitivity; [apply moved_pieces|exact Hmoved].
  - intros j z Hz Hne Hj. destruct (decide (x = z)) as [<-|Hxz].
    + exists (with_index (zlen pre) p). rewrite Hat, decide_True by done. split; [done|].
      assert (j = zlen pre) as ->.
      { destruct (decide (j = zlen pre)) as [|Hjp]; [done|].
        assert (zget (m_pieces s) j = Some x) as Hx.
        { cbn [set_m_piece_map set_m_pieces m_pieces] in Hz. rewrite Hm.
          pose proof (zset_mid pre y x post (zlen pre) eq_refl) as Hset.
          rewrite (zget_zset _ _ _ _ j Hset), decide_False in Hz by done. done. }
        destruct (Honce _ Hx); lia. }
      by apply index_with.
    + assert (j <> zlen pre) as Hjp.
      { intros ->. cbn [set_m_piece_map set_m_pieces m_pieces] in Hz. rewrite zget_mid in Hz by done.
        congruence. }
      assert (zget (m_pieces s) j = Some z) as Hz'.
      { cbn [set_m_piece_map set_m_pieces m_pieces] in Hz. rewrite Hm.
        pose proof (zset_mid pre y x post (zlen pre) eq_refl) as Hset.
        rewrite (zget_zset _ _ _ _ j Hset), decide_False in Hz by done. done. }
      pose proof (zget_Some_bound _ _ _ Hz').
      destruct (Hidx j z Hz' Hne) as (q & Hq & Hqi & Hqh); [destruct Hhole; lia|].
      exists q. rewrite Hat, decide_False by done. done.
  - exists (with_index (zlen pre) p). rewrite Hat, decide_True by done. split; [done|].
    by apply index_with.
Qed.

Lemma short_list_len s s' : short_list s -> zlen (m_pieces s') <= zlen (m_pieces s) -> short_list s'.
Proof. unfold short_list. lia. Qed.

Lemma indexed_boundries s bs h : indexed_but s h -> indexed_but (set_m_priority_boundries bs s) h.
Proof. done. Qed.

(** ** [add] *)

Lemma add_skip_spec Bs s lo a fuel :
  Bs <> [] -> m_priority_boundries s = lo ++ bounds a Bs -> (length Bs <= fuel)%nat ->
  exists Es B Rest, Bs = Es ++ B :: Rest /\ concat Es = [] /\ (B <> [] \/ Rest = []) /\
    runs (add_skip fuel (zlen lo) a) s (a + zlen B, zlen lo + zlen Es + 1)
      (set_m_priority_boundries (lo ++ bounds (a + 1) (Es ++ [B]) ++ bounds (a + zlen B) Rest) s).
Proof.
  revert s lo fuel. induction Bs as [|B Rest IH]; intros s lo [|fuel] Hne Hb Hf; try done;
    [simpl in Hf; lia|].
  cbn [bounds] in Hb. cbn [add_skip].
  destruct (decide (B = [] /\ Rest <> [])) as [[-> HR]|Hstop].
  - simpl length in *. rewrite Z.add_0_r in *.
    destruct (IH (set_m_priority_boundries (lo ++ (a + 1) :: bounds a Rest) s) (lo ++ [a + 1]) fuel HR)
      as (Es & B & Rest' & -> & HE & HB & Hrun).
    { cbn [set_m_priority_boundries m_priority_boundries]. by rewrite <- app_assoc. }
    { lia. }
    exists ([] :: Es), B, Rest'. split_and!; [done|done|done|].
    eapply runs_bind; [apply runs_get_boundry; rewrite Hb; by apply zget_mid|].
    eapply runs_bind; [eapply runs_set_boundry, Hb|].
    eapply runs_bind; [apply runs_gets|]. cbn [set_m_priority_boundries m_priority_boundries].
    rewrite Z.eqb_refl. rewrite (proj2 (Z.ltb_lt _ _)).
    2:{ rewrite !length_app. simpl. rewrite length_bounds, length_app. simpl. lia. }
    simpl andb. cbv iota. replace (zlen lo + 1) with (zlen (lo ++ [a + 1])) by zlia.
    replace (zlen lo + zlen ([] :: Es) + 1) with (zlen (lo ++ [a + 1]) + zlen Es + 1) by zlia.
    assert (lo ++ bounds (a + 1) (([] :: Es) ++ [B]) ++ bounds (a + zlen B) Rest' =
            (lo ++ [a + 1]) ++ bounds (a + 1) (Es ++ [B]) ++ bounds (a + zlen B) Rest') as ->.
    { rewrite <- !app_assoc. cbn [app bounds length]. change (Z.of_nat 0) with 0.
      by rewrite Z.add_0_r. }
    exact Hrun.
  - exists [], B, Rest. split_and!; [done|done| |].
    { destruct (decide (B = [])) as [->|]; [|by left]. right.
      destruct (decide (Rest = [])); [done|]. by destruct Hstop. }
    eapply runs_bind; [apply runs_get_boundry; rewrite Hb; by apply zget_mid|].
    eapply runs_bind; [eapply runs_set_boundry, Hb|].
    eapply runs_bind; [apply runs_gets|]. cbn [set_m_priority_boundries m_priority_boundries].
    assert ((a + zlen B =? a) && (zlen lo + 1 <?
      zlen (lo ++ a + zlen B + 1 :: bounds (a + zlen B) Rest)) = false) as ->.
    { destruct (decide (B = [])) as [->|HB].
      - destruct (decide (Rest = [])) as [->|HR]; [|by destruct Hstop].
        rewrite andb_false_iff. right. apply Z.ltb_ge.
        simpl. rewrite length_app. simpl. lia.
      - rewrite andb_false_iff. left. apply Z.eqb_neq. destruct B; simpl in *; [done|lia]. }
    simpl length. replace (zlen lo + Z.of_nat 0 + 1) with (zlen lo + 1) by lia.
    simpl bounds. cbn [app]. replace (a + 1 + zlen B) with (a + zlen B + 1) by lia. apply runs_ret.
Qed.

Lemma concat_rotl_nil Es : concat Es = [] -> concat (map rotl Es) = [].
Proof.
  induction Es as [|E Es IH]; simpl; [done|]. intros [-> H]%app_nil. simpl. auto.
Qed.

Lemma bounds_nil_shift a Es bk : concat Es = [] -> bounds a (Es ++ bk) = bounds a Es ++ bounds a bk.
Proof. intros H. by rewrite bounds_app, H, Z.add_0_r. Qed.

Lemma not_in_zget (l : list Z) x j : x ∉ l -> zget l j = Some x -> False.
Proof.
  intros Hx Hz. apply Hx. unfold zget in Hz. case_decide; [|done].
  by eapply list_elem_of_lookup_2.
Qed.

Lemma indexed_nodup s pre post :
  indexed s -> m_pieces s = pre ++ post -> Forall (fun x => x <> -1) pre -> NoDup pre.
Proof.
  intros Hi Hm Hne. apply NoDup_alt. intros i j x Hx Hy.
  assert (x <> -1) by (by eapply Forall_lookup_1 in Hne).
  pose proof (lookup_lt_Some _ _ _ Hx). pose proof (lookup_lt_Some _ _ _ Hy).
  enough (Z.of_nat i = Z.of_nat j) by lia.
  eapply (indexed_once s (-1) _ _ x Hi); [done|lia|lia| |];
    rewrite Hm, zget_app_l by lia; unfold zget; rewrite decide_True, Nat2Z.id by lia; done.
Qed.

(** The rest of [add] once the list has a free slot at its end. *)
Definition add_tail (fuel : nat) (c prio new_index : Z) : M unit :=
  '(index, new_index) ← add_shift fuel c prio new_index;
  if index =? -1 then mret tt else place index new_index.

(** What [add_tail] needs and does, for the buckets [Bs] from the slot on. *)
Record add_pre (Bs : list (list Z)) (s : picker) (pre lo : list Z) (c : Z) : Prop := {
  ap_some : Bs <> [];
  ap_pieces : m_pieces s = pre ++ concat Bs ++ [-1];
  ap_bounds : m_priority_boundries s = lo ++ bounds (zlen pre) Bs;
  ap_short : short_list s;
  ap_indexed : indexed s;
  ap_placeable : placeable s c;
  ap_fresh : c ∉ m_pieces s;
  ap_all : Forall (fun x => x <> -1) (pre ++ concat Bs);
}.

(** One round: [c] is placed, and the first element [h] of what follows is
    displaced. *)
Lemma add_round fuel Bs s pre lo c :
  add_pre Bs s pre lo c ->
  exists Es B Rest h T s2, Bs = Es ++ B :: Rest /\ concat Es = [] /\ (B <> [] \/ Rest = []) /\
    B ++ concat Rest ++ [-1] = h :: T /\ m_pieces s2 = pre ++ c :: T /\
    m_priority_boundries s2 =
      (lo ++ bounds (zlen pre + 1) (Es ++ [B])) ++ bounds (zlen pre + zlen B) Rest /\
    moved s s2 /\ indexed s2 /\
    forall s', runs ('(index, new_index) ←
       (if zlen Rest <=? 0 then mret (h, zlen pre + zlen B)
        else add_shift fuel h (zlen (lo ++ bounds (zlen pre + 1) (Es ++ [B]))) (zlen pre + zlen B));
      if index =? -1 then mret tt else place index new_index) s2 tt s' ->
    runs (add_tail (S fuel) c (zlen lo) (zlen pre)) s tt s'.
Proof.
  intros [Hne Hm Hb Hshort Hidx Hc Hin Hall].
  assert (exists h T, concat Bs ++ [-1] = h :: T) as (h & T & HT) by (destruct (concat Bs); simpl; eauto).
  rewrite HT in Hm.
  destruct (place_spec s c (zlen pre) (-1) (-1) pre h T Hm eq_refl Hshort Hc Hidx) as
    (s1 & Hrun1 & Hm1 & Hb1 & Hmv1 & Hidx1 & _); [by right| |].
  { intros j Hj. exfalso. by eapply not_in_zget. }
  rewrite Hb in Hb1.
  assert (length Bs <= Z.to_nat (zlen (lo ++ bounds (zlen pre) Bs)))%nat as Hfuel
    by (rewrite length_app, length_bounds; lia).
  destruct (add_skip_spec Bs s1 lo (zlen pre) _ Hne Hb1 Hfuel) as
    (Es & B & Rest & HBs & HE & HB & Hrun2).
  exists Es, B, Rest, h, T, (set_m_priority_boundries
    ((lo ++ bounds (zlen pre + 1) (Es ++ [B])) ++ bounds (zlen pre + zlen B) Rest) s1).
  rewrite <- app_assoc. split_and!; try done.
  - rewrite HBs, concat_app, HE in HT. simpl in HT. by rewrite <- app_assoc in HT.
  - etransitivity; [exact Hmv1|apply moved_boundries].
  - intros s'. unfold add_tail. cbn [add_shift]. unfold runs, mbind, M_bind.
    assert (get_pieces_at (zlen pre) s = Some (h, s)) as ->
      by (apply runs_get_pieces_at; rewrite Hm; by apply zget_mid).
    rewrite Hrun1. unfold num_boundries, gets. rewrite Hb1. rewrite Hrun2.
    replace (zlen (lo ++ bounds (zlen pre + 1) (Es ++ [B]))) with (zlen lo + zlen Es + 1)
      by (rewrite length_app, length_bounds, length_app; simpl; lia).
    assert (zlen (lo ++ bounds (zlen pre) Bs) = zlen lo + zlen Es + 1 + zlen Rest) as ->.
    { rewrite length_app, length_bounds, HBs, length_app. simpl. lia. }
    by replace (zlen lo + zlen Es + 1 + zlen Rest <=? zlen lo + zlen Es + 1) with (zlen Rest <=? 0) by lia.
Qed.

(** The displaced element [x] can be placed after the round. *)
Lemma add_displaced Bs s pre lo c Es x xs Rest s2 :
  add_pre Bs s pre lo c -> Bs = Es ++ (x :: xs) :: Rest -> concat Es = [] ->
  m_pieces s2 = (pre ++ c :: xs) ++ concat Rest ++ [-1] -> moved s s2 ->
  x <> -1 /\ placeable s2 x /\ x ∉ m_pieces s2 /\ short_list s2.
Proof.
  intros [Hne Hm Hb Hshort Hidx Hc Hin Hall] -> HE Hm2 Hmv2.
  rewrite concat_app, HE in Hm, Hall. cbn [app concat] in Hm, Hall.
  assert (NoDup (pre ++ x :: xs ++ concat Rest)) as Hnd.
  { eapply (indexed_nodup s _ [-1] Hidx); [|exact Hall].
    rewrite Hm, <- !app_assoc. simpl. by rewrite <- app_assoc. }
  assert (x <> -1) as Hx1 by (apply Forall_app in Hall as [_ Hall]; by inversion Hall).
  split_and!; [done| | |].
  - eapply placeable_moved; [exact Hmv2|]. eapply index_at_placeable.
    eapply indexed_in; [done|exact Hm|done].
  - rewrite Hm2. rewrite !elem_of_app, elem_of_cons, list_elem_of_singleton.
    apply NoDup_app in Hnd as (_ & Hnd1 & Hnd2). apply NoDup_cons in Hnd2 as [Hnd2 _].
    rewrite elem_of_app in Hnd2. intros [[Hx|[->|Hx]]|[Hx|Hx]]; [|..|tauto|tauto|done].
    + by apply (Hnd1 x Hx), list_elem_of_here.
    + apply Hin. rewrite Hm, elem_of_app. right. apply list_elem_of_here.
  - eapply short_list_len; [exact Hshort|]. rewrite Hm2, Hm. rewrite !length_app. simpl.
    rewrite !length_app. simpl. lia.
Qed.

Lemma rotl_step Es B Rest :
  concat Es = [] -> concat (map rotl (Es ++ B :: Rest)) = rotl B ++ concat (map rotl Rest).
Proof. intros HE. by rewrite map_app, concat_app, (concat_rotl_nil _ HE). Qed.

Lemma bounds_step (pre lo : list Z) Es B Rest :
  concat Es = [] ->
  lo ++ bounds (zlen pre + 1) (Es ++ B :: Rest) =
  (lo ++ bounds (zlen pre + 1) (Es ++ [B])) ++ bounds (zlen pre + zlen B + 1) Rest.
Proof.
  intros HE. rewrite <- app_assoc, cons_middle, app_assoc, bounds_app, concat_app, HE. simpl.
  rewrite app_nil_r. do 3 f_equal. lia.
Qed.

Lemma add_tail_spec fuel Bs s pre lo c :
  add_pre Bs s pre lo c -> (length Bs <= fuel)%nat ->
  exists s', runs (add_tail fuel c (zlen lo) (zlen pre)) s tt s' /\
    m_pieces s' = pre ++ c :: concat (map rotl Bs) /\
    m_priority_boundries s' = lo ++ bounds (zlen pre + 1) Bs /\ moved s s' /\ indexed s'.
Proof.
  revert Bs s pre lo c. induction fuel as [|fuel IH]; intros Bs s pre lo c Hpre Hf.
  { destruct Bs; [by destruct Hpre|simpl in Hf; lia]. }
  destruct (add_round fuel Bs s pre lo c Hpre) as
    (Es & B & Rest & h & T & s2 & HBs & HE & HB & HT & Hm2 & Hb2 & Hmv2 & Hidx2 & Hrun).
  destruct B as [|x xs].
  - destruct HB as [|HR]; [done|]. subst Rest. simpl in HT. injection HT as <- <-.
    exists s2. split_and!; [by apply Hrun| | |done|done].
    + by rewrite Hm2, HBs, rotl_step.
    + rewrite Hb2, HBs. cbn [bounds]. by rewrite app_nil_r.
  - simpl in HT. injection HT as <- <-.
    set (pre2 := pre ++ c :: xs). set (lo2 := lo ++ bounds (zlen pre + 1) (Es ++ [x :: xs])) in *.
    assert (m_pieces s2 = pre2 ++ concat Rest ++ [-1]) as Hm2'
      by (rewrite Hm2; unfold pre2; rewrite <- app_assoc; done).
    assert (zlen pre + zlen (x :: xs) = zlen pre2) as Hp2 by (unfold pre2; zlia).
    destruct (add_displaced _ _ _ _ _ _ _ _ _ _ Hpre HBs HE Hm2' Hmv2) as (Hx1 & Hpx & Hxin & Hshort2).
    rewrite Hp2 in Hb2, Hrun.
    assert (m_priority_boundries s2 = lo2 ++ bounds (zlen pre2) Rest) as Hb2' by exact Hb2.
    rewrite HBs, (bounds_step pre), rotl_step, Hp2 by done.
    destruct (decide (Rest = [])) as [->|HR].
    + destruct (place_spec s2 x (zlen pre2) (-1) (-1) pre2 (-1) [] Hm2' eq_refl Hshort2 Hpx Hidx2)
        as (s3 & Hrun3 & Hm3 & Hb3 & Hmv3 & Hidx3 & _); [by right| |].
      { intros j Hj. exfalso. by eapply not_in_zget. }
      exists s3. split_and!; [| | |by transitivity s2|done].
      * apply Hrun. eapply runs_bind; [apply runs_ret|]. cbv beta iota.
        by rewrite (proj2 (Z.eqb_neq x (-1))).
      * rewrite Hm3. unfold pre2. simpl. by rewrite app_nil_r, <- app_assoc.
      * by rewrite Hb3, Hb2'.
    + destruct (IH Rest s2 pre2 lo2 x) as (s3 & Hrun3 & Hm3 & Hb3 & Hmv3 & Hidx3).
      * split; try done. unfold pre2. destruct Hpre as [_ _ _ _ _ Hc _ Hall].
        rewrite HBs, concat_app, HE in Hall. simpl in Hall. rewrite <- app_assoc. simpl.
        apply Forall_app in Hall as [Hall1 Hall2]. apply Forall_app. split; [done|].
        inversion Hall2; subst. constructor; [|done]. pose proof (placeable_nonneg _ _ Hc). lia.
      * rewrite HBs, length_app in Hf. simpl in Hf. lia.
      * exists s3. split_and!; [| |done|by transitivity s2|done].
        -- apply Hrun. by rewrite (proj2 (Z.leb_gt _ _)) by (destruct Rest; simpl; [done|lia]).
        -- rewrite Hm3. unfold pre2. simpl. by rewrite <- !app_assoc.
Qed.

(** ** The list as a whole *)

(** The piece at [h] need not know its position. *)
Record shaped_but (s : picker) (bk : list (list Z)) (h : Z) : Prop := {
  sh_pieces : m_pieces s = concat bk;
  sh_bounds : m_priority_boundries s = bounds 0 bk;
  sh_indexed : indexed_but s h;
  sh_valid : Forall (fun x => x <> -1) (concat bk);
}.

Abbreviation shaped s bk := (shaped_but s bk (-1)).

Definition bucket (bk : list (list Z)) (k : Z) : list Z := default [] (zget bk k).

(** The buckets but for the order inside them; [f k] is what bucket [k] has become. *)
Definition becomes (bk' : list (list Z)) (f : Z -> list Z) : Prop :=
  forall k, 0 <= k -> bucket bk' k ≡ₚ f k.

(** The buckets once [x] has been put into bucket [k]. *)
Definition pushed (bk : list (list Z)) (x k j : Z) : list Z :=
  (if decide (j = k) then [x] else []) ++ bucket bk j.

Lemma bucket_mid before B after k : k = zlen before -> bucket (before ++ B :: after) k = B.
Proof. intros ->. unfold bucket. by rewrite zget_mid. Qed.

Lemma bucket_beyond bk k : zlen bk <= k -> bucket bk k = [].
Proof.
  intros Hk. unfold bucket. destruct (zget bk k) as [b|] eqn:E; [|done].
  apply zget_Some_bound in E. lia.
Qed.

Lemma bucket_app_l bk bk' k : k < zlen bk -> bucket (bk ++ bk') k = bucket bk k.
Proof. intros Hk. unfold bucket. by rewrite zget_app_l. Qed.

Lemma bucket_app_r bk bk' k : zlen bk <= k -> bucket (bk ++ bk') k = bucket bk' (k - zlen bk).
Proof. intros Hk. unfold bucket. by rewrite zget_app_r. Qed.

Lemma bucket_replicate n k : bucket (replicate n []) k = [].
Proof.
  unfold bucket, zget. case_decide; [|done]. destruct (replicate n [] !! _) eqn:E; [|done].
  by apply lookup_replicate in E as [-> _].
Qed.

Lemma bucket_split bk k : 0 <= k < zlen bk -> exists before B after,
  bk = before ++ B :: after /\ k = zlen before /\ bucket bk k = B.
Proof.
  intros Hk. destruct (zget_is_Some bk k Hk) as [B HB].
  exists (take (Z.to_nat k) bk), B, (drop (S (Z.to_nat k)) bk).
  pose proof HB as HB'. unfold zget in HB'. rewrite decide_True in HB' by lia.
  split_and!; [by rewrite take_drop_middle|rewrite length_take; lia|].
  unfold bucket. by rewrite HB.
Qed.

Lemma in_bucket bk x : x ∈ concat bk <-> exists k, 0 <= k < zlen bk /\ x ∈ bucket bk k.
Proof.
  split.
  - intros Hx. assert (exists B, B ∈ bk /\ x ∈ B) as (B & HB & HxB).
    { induction bk as [|b bk IH]; simpl in Hx; [by apply elem_of_nil in Hx|].
      apply elem_of_app in Hx as [Hx|Hx]; [exists b; split; [left|done]|].
      destruct (IH Hx) as (B & ? & ?). exists B. split; [by right|done]. }
    apply list_elem_of_lookup in HB as [i Hi]. exists (Z.of_nat i).
    pose proof (lookup_lt_Some _ _ _ Hi). split; [lia|]. unfold bucket, zget.
    rewrite decide_True, Nat2Z.id by lia. by rewrite Hi.
  - intros (k & Hk & Hx). destruct (bucket_split bk k Hk) as (before & B & after & -> & -> & HB).
    rewrite HB in Hx. rewrite concat_app, elem_of_app. right. simpl. rewrite elem_of_app. by left.
Qed.

(** *** Priorities *)

Lemma bounds_replicate a n : bounds a (replicate n []) = replicate n a.
Proof.
  revert a. induction n as [|n IH]; intros a; simpl; [done|]. by rewrite Z.add_0_r, IH.
Qed.

Lemma concat_replicate_nil n : concat (replicate n (@nil Z)) = [].
Proof. induction n; simpl; done. Qed.

Lemma bucket_grown bk n j : 0 <= j -> bucket (bk ++ replicate n []) j = bucket bk j.
Proof.
  intros Hj. destruct (decide (j < zlen bk)); [by rewrite bucket_app_l|].
  by rewrite bucket_app_r, bucket_replicate, bucket_beyond by lia.
Qed.

(** The list is grown by empty buckets. *)
Lemma grow_spec s bk h k :
  shaped_but s bk h -> 0 <= k ->
  exists s' n, let bk' := bk ++ replicate n [] in
    runs (grow_boundries k) s tt s' /\ shaped_but s' bk' h /\ moved s s' /\
    m_pieces s' = m_pieces s /\ k < zlen bk'.
Proof.
  intros [Hm Hb Hi Hv] Hk. unfold grow_boundries.
  destruct (Z.leb_spec (zlen bk) k) as [Hle|Hlt].
  - exists (set_m_priority_boundries (resize_to (k + 1) (zlen (m_pieces s)) (m_priority_boundries s)) s),
      (Z.to_nat (k + 1) - length bk)%nat. split_and!.
    + eapply runs_bind; [apply runs_gets|]. rewrite Hb, length_bounds.
      rewrite (proj2 (Z.leb_le _ _)) by done. unfold runs, modify. by rewrite Hb.
    + split; cbn [set_m_priority_boundries m_pieces m_priority_boundries].
      * by rewrite Hm, concat_app, concat_replicate_nil, app_nil_r.
      * rewrite Hb, Hm, bounds_app, bounds_replicate. unfold resize_to.
        rewrite length_bounds, take_ge by (rewrite length_bounds; lia). done.
      * exact Hi.
      * by rewrite concat_app, concat_replicate_nil, app_nil_r.
    + apply moved_boundries.
    + done.
    + rewrite length_app, length_replicate. lia.
  - exists s, 0%nat. rewrite app_nil_r. split_and!; try done. eapply runs_bind; [apply runs_gets|].
    rewrite Hb, length_bounds, (proj2 (Z.leb_gt _ _)) by done. apply runs_ret.
Qed.

Lemma bounds_last a bk : bk <> [] -> zget (bounds a bk) (zlen bk - 1) = Some (a + zlen (concat bk)).
Proof.
  destruct bk as [|b bk _] using rev_ind; [done|]. intros _.
  rewrite bounds_app, length_app, concat_app. simpl. rewrite app_nil_r.
  rewrite zget_mid by (rewrite length_bounds; lia). f_equal. zlia.
Qed.

Lemma priority_range_spec s before B after :
  m_priority_boundries s = bounds 0 (before ++ B :: after) ->
  runs (priority_range (zlen before)) s (zlen (concat before), zlen (concat before) + zlen B) s.
Proof.
  intros Hb. rewrite bounds_app in Hb. cbn [bounds] in Hb. rewrite Z.add_0_l in Hb.
  unfold priority_range. apply runs_bind with (s1 := s) (a := zlen (concat before)).
  - destruct before as [|b before _] using rev_ind; [apply runs_ret|].
    rewrite (proj2 (Z.eqb_neq _ _)) by (rewrite length_app; simpl; lia).
    apply runs_get_boundry. rewrite Hb, zget_app_l by (rewrite length_bounds; lia).
    rewrite bounds_last by (by destruct before). by rewrite Z.add_0_l.
  - eapply runs_bind; [|apply runs_ret]. apply runs_get_boundry. rewrite Hb. apply zget_mid.
    by rewrite length_bounds.
Qed.

Lemma runs_randint rv n s :
  0 < n < 2 ^ 32 -> exists r, 0 <= r < n /\ runs (randint rv n) s r (set_rng (S (rng s)) s).
Proof.
  intros Hn. exists (u32 (rv (rng s)) mod n). split; [apply Z.mod_pos_bound; lia|].
  unfold runs, randint. rewrite u32_small by lia. by rewrite (proj2 (Z.eqb_neq n 0)) by lia.
Qed.

Lemma shaped_rng s bk r : shaped s bk -> shaped (set_rng r s) bk.
Proof. intros [H1 H2 H3 H4]. by split. Qed.

Lemma rotl_lengths bk : Forall2 (fun b b' => length b = length b') bk (map rotl bk).
Proof.
  induction bk as [|b bk IH]; simpl; constructor; [|done]. by rewrite (Permutation_length (rotl_perm b)).
Qed.

Lemma concat_map_rotl bk : concat (map rotl bk) ≡ₚ concat bk.
Proof. induction bk as [|b bk IH]; simpl; [done|]. by rewrite rotl_perm, IH. Qed.

Lemma bucket_map f bk k : f [] = [] -> bucket (map f bk) k = f (bucket bk k).
Proof.
  intros Hf. unfold bucket, zget. case_decide; [|done]. rewrite list_lookup_fmap.
  by destruct (bk !! Z.to_nat k).
Qed.

Lemma bucket_cons b bk k : 0 < k -> bucket (b :: bk) k = bucket bk (k - 1).
Proof. intros Hk. apply (bucket_app_r [b] bk k). simpl. lia. Qed.

(** The buckets other than the one in the middle. *)
Lemma bucket_mid_map f before B B' after j :
  f [] = [] -> (forall l, f l ≡ₚ l) -> 0 <= j -> j <> zlen before ->
  bucket (before ++ B' :: map f after) j ≡ₚ bucket (before ++ B :: after) j.
Proof.
  intros Hf Hp Hj Hne. destruct (decide (j < zlen before)).
  - by rewrite !bucket_app_l.
  - rewrite !bucket_app_r, !bucket_cons, bucket_map by lia || done. apply Hp.
Qed.

Section random.
Context (random_values : nat -> Z).

Lemma add_spec s bk x k :
  shaped s bk -> priority_of x s = Some k -> 0 <= k -> placeable s x -> x ∉ m_pieces s ->
  zlen (m_pieces s) + 1 < we_have_index ->
  exists s' bk', runs (add random_values x) s tt s' /\ shaped s' bk' /\ moved s s' /\
    becomes bk' (pushed bk x k).
Proof.
  intros Hs Hk Hpos Hx Hin Hshort.
  destruct (grow_spec s bk _ k Hs Hpos) as (s1 & n & Hrun1 & [Hm1 Hb1 Hi1 Hv1] & Hmv1 & Hms & Hlt).
  pose proof (bucket_grown bk n) as Hbk. set (bk1 := bk ++ replicate n []) in *.
  destruct (bucket_split bk1 k) as (before & B & after & Hbk1 & Hbefore & HB); [lia|].
  rewrite Hbk1, Hbefore in *.
  assert (exists l1 l2 r, B = l1 ++ l2 /\
    runs (if zlen (concat before) + zlen B =? zlen (concat before) then mret (zlen (concat before))
          else r ← randint random_values (zlen (concat before) + zlen B - zlen (concat before) + 1);
               mret (r + zlen (concat before))) s1 (zlen (concat before ++ l1)) (set_rng r s1))
    as (l1 & l2 & r & HB12 & Hrun2).
  { destruct (Z.eqb_spec (zlen (concat before) + zlen B) (zlen (concat before))) as [HB0|HB0].
    - exists [], [], (rng s1). destruct B; [|simpl in HB0; lia]. split; [done|].
      rewrite app_nil_r. destruct s1; apply runs_ret.
    - assert (zlen B <= zlen (m_pieces s)).
      { rewrite <- Hms, Hm1, concat_app, !length_app. simpl. rewrite length_app. lia. }
      destruct (runs_randint random_values (zlen B + 1) s1) as (r & Hr & Hrun).
      { unfold we_have_index in Hshort. lia. }
      exists (take (Z.to_nat r) B), (drop (Z.to_nat r) B), (S (rng s1)).
      split; [by rewrite take_drop|].
      replace (zlen (concat before) + zlen B - zlen (concat before) + 1) with (zlen B + 1) by lia.
      eapply runs_bind; [exact Hrun|].
      replace (r + zlen (concat before)) with (zlen (concat before ++ take (Z.to_nat r) B))
        by (rewrite length_app, length_take; lia). apply runs_ret. }
  set (s2 := set_m_pieces (m_pieces s1 ++ [-1]) (set_rng r s1)).
  assert (moved s s2) as Hmv2.
  { etransitivity; [exact Hmv1|]. etransitivity; [apply (moved_rng r)|apply moved_pieces]. }
  assert (add_pre (l2 :: after) s2 (concat before ++ l1) (bounds 0 before) x) as Hpre.
  { split; [done|..].
    - unfold s2. cbn [set_m_pieces m_pieces]. rewrite Hm1, HB12, concat_app. simpl.
      by rewrite <- !app_assoc.
    - unfold s2. cbn [set_m_pieces set_rng m_priority_boundries]. rewrite Hb1, HB12, bounds_app.
      cbn [bounds]. do 2 f_equal; [zlia|]. f_equal. zlia.
    - unfold short_list, s2. cbn [set_m_pieces m_pieces]. rewrite Hms, length_app. simpl. lia.
    - intros i y Hy Hne _. unfold s2 in Hy. cbn [set_m_pieces m_pieces] in Hy.
      pose proof (zget_Some_bound _ _ _ Hy) as Hbd. rewrite length_app in Hbd. simpl in Hbd.
      destruct (decide (i = zlen (m_pieces s1))) as [->|].
      { rewrite zget_mid in Hy by done. congruence. }
      rewrite zget_app_l in Hy by lia. exact (Hi1 i y Hy Hne ltac:(lia)).
    - by eapply placeable_moved.
    - unfold s2. cbn [set_m_pieces m_pieces]. rewrite Hms, elem_of_app, list_elem_of_singleton.
      intros [| ->]; [done|]. pose proof (placeable_nonneg _ _ Hx). lia.
    - rewrite concat_app, HB12 in Hv1. simpl in Hv1 |- *. by rewrite <- !app_assoc in Hv1 |- *. }
  destruct (add_tail_spec (S (Z.to_nat (zlen (m_priority_boundries s2)))) _ _ _ _ _ Hpre)
    as (s3 & Hrun3 & Hm3 & Hb3 & Hmv3 & Hi3).
  { destruct Hpre as [_ _ -> _ _ _ _ _]. rewrite length_app, !length_bounds. lia. }
  exists s3, (before ++ (l1 ++ x :: rotl l2) :: map rotl after). split_and!.
  - unfold add. eapply runs_bind; [by apply runs_get_priority|]. cbv beta.
    rewrite (proj2 (Z.ltb_ge _ _)) by lia.
    eapply runs_bind; [exact Hrun1|]. eapply runs_bind; [eapply priority_range_spec, Hb1|]. cbv beta iota.
    eapply runs_bind; [exact Hrun2|]. eapply runs_bind; [apply runs_modify|].
    eapply runs_bind; [apply runs_gets|]. rewrite length_bounds in Hrun3. exact Hrun3.
  - split.
    + rewrite Hm3, concat_app. simpl. by rewrite <- !app_assoc.
    + rewrite Hb3, bounds_app, Z.add_0_l. cbn [bounds]. do 2 f_equal.
      * autorewrite with zlen. rewrite (Permutation_length (rotl_perm l2)). lia.
      * etransitivity; [|apply bounds_length, rotl_lengths]. f_equal.
        autorewrite with zlen. rewrite (Permutation_length (rotl_perm l2)). lia.
    + done.
    + rewrite concat_app in Hv1 |- *. simpl in Hv1 |- *. rewrite HB12 in Hv1.
      rewrite rotl_perm, concat_map_rotl. pose proof (placeable_nonneg _ _ Hx).
      rewrite !Forall_app in Hv1 |- *. rewrite Forall_cons. intuition lia.
  - by transitivity s2.
  - intros j Hj. unfold pushed. rewrite <- Hbk by done. destruct (decide (j = zlen before)) as [->|Hne].
    + rewrite !bucket_mid by done. rewrite rotl_perm, HB12. by rewrite <- Permutation_middle.
    + apply bucket_mid_map; auto using rotl_perm.
Qed.
End random.
