(* ===== verification/PickerMoveSpec.v ===== *)
(** * Removing a piece from the pick list, and changing its priority

    The list has a hole, the position of the piece that is moved; each round
    of a loop fills it from the bucket it passes, and leaves a hole at the
    bucket's other end. *)

From Stdlib Require Import ZArith Lia.
From stdpp Require Import base numbers list.
From S2P Require Import Prelude PickerState PickerList PickerListSpec.

(** ** Filling the hole *)

Lemma zget_prefix (l k : list Z) i x : l !! i = Some x -> zget (l ++ k) (Z.of_nat i) = Some x.
Proof.
  intros H. pose proof (lookup_lt_Some _ _ _ H). rewrite zget_app_l by lia. unfold zget.
  by rewrite decide_True, Nat2Z.id by lia.
Qed.

Lemma prefix_nodup s pre post h :
  indexed_but s h -> zlen pre <= h -> m_pieces s = pre ++ post ->
  Forall (fun x => x <> -1) pre -> NoDup pre.
Proof.
  intros Hi Hh Hm Hne. apply NoDup_alt. intros i j x Hx Hy.
  assert (x <> -1) by (by eapply Forall_lookup_1 in Hne).
  pose proof (lookup_lt_Some _ _ _ Hx). pose proof (lookup_lt_Some _ _ _ Hy).
  enough (Z.of_nat i = Z.of_nat j) by lia.
  eapply (indexed_once s h _ _ x Hi); [done|lia|lia| |]; rewrite Hm; by apply zget_prefix.
Qed.

(** The piece at [t] is written at the hole; the hole is then at [t]. *)
Lemma fill_spec s x h t pre r post :
  m_pieces s = pre ++ r :: post -> h = zlen pre -> t <> h -> zget (m_pieces s) t = Some x ->
  x <> -1 -> short_list s -> indexed_but s h ->
  exists s', runs (place x h) s tt s' /\ m_pieces s' = pre ++ x :: post /\
    m_priority_boundries s' = m_priority_boundries s /\ moved s s' /\ indexed_but s' t.
Proof.
  intros Hm Hh Ht Hx Hne Hs Hi.
  destruct (place_spec s x h h t pre r post Hm Hh Hs) as (s' & ? & ? & ? & ? & ? & _); try done.
  - eapply index_at_placeable. by apply (Hi t x).
  - by left.
  - intros j Hj. destruct (decide (j = h)) as [->|Hjh]; [by left|]. right.
    by eapply (indexed_once s h j t x).
  - by exists s'.
Qed.

(** ** [remove] *)

Lemma remove_skip_spec Bs s lo a fuel :
  Bs <> [] -> m_priority_boundries s = lo ++ bounds (a + 1) Bs -> (length Bs <= fuel)%nat ->
  exists Es B Rest, Bs = Es ++ B :: Rest /\ concat Es = [] /\ (B <> [] \/ Rest = []) /\
    runs (remove_skip fuel (zlen lo) a) s (a + zlen B, zlen lo + zlen Es + 1)
      (set_m_priority_boundries
        (lo ++ bounds a (Es ++ [B]) ++ bounds (a + zlen B + 1) Rest) s).
Proof.
  revert s lo fuel. induction Bs as [|B Rest IH]; intros s lo [|fuel] Hne Hb Hf; try done;
    [simpl in Hf; lia|].
  cbn [bounds] in Hb. cbn [remove_skip].
  replace (a + 1 + zlen B) with (a + zlen B + 1) in Hb by lia.
  assert (forall v t,
    runs (if (a =? a + zlen B + 1 - 1) && (zlen lo + 1 <? zlen (lo ++ a + zlen B :: bounds (a + zlen B + 1) Rest))
          then remove_skip fuel (zlen lo + 1) a else mret (a + zlen B + 1 - 1, zlen lo + 1))
      (set_m_priority_boundries (lo ++ a + zlen B :: bounds (a + zlen B + 1) Rest) s) v t ->
    runs (remove_skip (S fuel) (zlen lo) a) s v t) as Hrun.
  { intros v t H. cbn [remove_skip].
    eapply runs_bind; [apply runs_get_boundry; rewrite Hb; by apply zget_mid|].
    eapply runs_bind; [eapply runs_set_boundry, Hb|].
    eapply runs_bind; [apply runs_gets|]. cbn [set_m_priority_boundries m_priority_boundries].
    by replace (a + zlen B + 1 - 1) with (a + zlen B) in * by lia. }
  destruct (decide (B = [] /\ Rest <> [])) as [[-> HR]|Hstop].
  - simpl length in *. rewrite Z.add_0_r in *. replace (a + 1 - 1) with a in Hrun by lia.
    destruct (IH (set_m_priority_boundries (lo ++ a :: bounds (a + 1) Rest) s) (lo ++ [a]) fuel HR)
      as (Es & B & Rest' & -> & HE & HB & Hrun2).
    { cbn [set_m_priority_boundries m_priority_boundries]. by rewrite <- app_assoc. }
    { lia. }
    exists ([] :: Es), B, Rest'. split_and!; [done|done|done|].
    apply Hrun. rewrite Z.eqb_refl, (proj2 (Z.ltb_lt _ _)).
    2:{ rewrite !length_app. simpl. rewrite length_bounds, length_app. simpl. lia. }
    simpl andb. cbv iota. replace (zlen lo + 1) with (zlen (lo ++ [a])) by zlia.
    replace (zlen lo + zlen ([] :: Es) + 1) with (zlen (lo ++ [a]) + zlen Es + 1) by zlia.
    assert (lo ++ bounds a (([] :: Es) ++ [B]) ++ bounds (a + zlen B + 1) Rest' =
            (lo ++ [a]) ++ bounds a (Es ++ [B]) ++ bounds (a + zlen B + 1) Rest') as ->.
    { rewrite <- !app_assoc. cbn [app bounds length]. change (Z.of_nat 0) with 0.
      by rewrite Z.add_0_r. }
    exact Hrun2.
  - exists [], B, Rest. split_and!; [done|done| |].
    { destruct (decide (B = [])) as [->|]; [|by left]. right.
      destruct (decide (Rest = [])); [done|]. by destruct Hstop. }
    apply Hrun.
    assert ((a =? a + zlen B + 1 - 1) && (zlen lo + 1 <?
      zlen (lo ++ a + zlen B :: bounds (a + zlen B + 1) Rest)) = false) as ->.
    { destruct (decide (B = [])) as [->|HB].
      - destruct (decide (Rest = [])) as [->|HR]; [|by destruct Hstop].
        rewrite andb_false_iff. right. apply Z.ltb_ge.
        simpl. rewrite length_app. simpl. lia.
      - rewrite andb_false_iff. left. apply Z.eqb_neq. destruct B; simpl in *; [done|lia]. }
    replace (a + zlen B + 1 - 1) with (a + zlen B) by lia.
    simpl length. replace (zlen lo + Z.of_nat 0 + 1) with (zlen lo + 1) by lia.
    simpl bounds. cbn [app]. apply runs_ret.
Qed.

Lemma concat_last_first_nil Es : concat Es = [] -> concat (map last_first Es) = [].
Proof.
  induction Es as [|E Es IH]; simpl; [done|]. intros [-> H]%app_nil. simpl. auto.
Qed.

Lemma last_first_length l : length (last_first l) = length l.
Proof. by rewrite (Permutation_length (last_first_perm l)). Qed.

(** What the loop needs: a hole after [pre], then the buckets [Bs]. *)
Record hole_pre (Bs : list (list Z)) (s : picker) (pre lo : list Z) (r : Z) (tl hi : list Z) : Prop := {
  hp_some : Bs <> [];
  hp_pieces : m_pieces s = pre ++ r :: concat Bs ++ tl;
  hp_bounds : m_priority_boundries s = lo ++ bounds (zlen pre + 1) Bs ++ hi;
  hp_short : short_list s;
  hp_indexed : indexed_but s (zlen pre);
  hp_all : Forall (fun x => x <> -1) (concat Bs);
}.

Lemma remove_shift_spec fuel Bs s pre lo r :
  hole_pre Bs s pre lo r [] [] -> (length Bs <= fuel)%nat ->
  exists s' z, runs (remove_shift fuel (zlen lo) (zlen pre)) s tt s' /\
    m_pieces s' = pre ++ concat (map last_first Bs) ++ [z] /\
    m_priority_boundries s' = lo ++ bounds (zlen pre) Bs /\ moved s s' /\
    indexed_but s' (zlen pre + zlen (concat Bs)).
Proof.
  revert Bs s pre lo r. induction fuel as [|fuel IH]; intros Bs s pre lo r [Hne Hm Hb Hs Hi Hall] Hf.
  { destruct Bs; [done|simpl in Hf; lia]. }
  rewrite !app_nil_r in Hm, Hb.
  destruct (remove_skip_spec Bs s lo (zlen pre) (Z.to_nat (zlen (m_priority_boundries s))) Hne Hb)
    as (Es & B & Rest & HBs & HE & HB & Hrun).
  { rewrite Hb, length_app, length_bounds. lia. }
  set (s1 := set_m_priority_boundries _ s) in Hrun.
  assert (zlen (m_priority_boundries s) = zlen lo + zlen Es + 1 + zlen Rest) as Hn.
  { rewrite Hb, length_app, length_bounds, HBs, length_app. simpl. lia. }
  assert (concat Bs = B ++ concat Rest) as HC by (rewrite HBs, concat_app, HE; done).
  assert (concat (map last_first Bs) = last_first B ++ concat (map last_first Rest)) as HL
    by (rewrite HBs, map_app, concat_app, (concat_last_first_nil _ HE); done).
  cbn [remove_shift].
  destruct B as [|y B _] using rev_ind.
  - destruct HB as [|HR]; [done|]. subst Rest. rewrite HC, HL. exists s1, r. split_and!.
    + eapply runs_bind; [apply runs_gets|]. eapply runs_bind; [exact Hrun|]. cbv beta iota.
      rewrite (proj2 (Z.eqb_eq _ _)) by (simpl; lia). apply runs_ret.
    + unfold s1. cbn. by rewrite Hm, HC.
    + unfold s1. cbn [set_m_priority_boundries m_priority_boundries]. rewrite HBs. cbn [bounds].
      by rewrite app_nil_r.
    + apply moved_boundries.
    + simpl. by rewrite Z.add_0_r.
  - rewrite HL, last_first_snoc, HC.
    assert (m_pieces s1 = (pre ++ r :: B) ++ y :: concat Rest) as Hm1.
    { unfold s1. cbn. rewrite Hm, HC, <- !app_assoc. done. }
    assert (zget (m_pieces s1) (zlen pre + zlen (B ++ [y])) = Some y) as Hy.
    { rewrite Hm1. apply zget_mid. zlia. }
    destruct (fill_spec s1 y (zlen pre) (zlen pre + zlen (B ++ [y])) pre r (B ++ y :: concat Rest))
      as (s2 & Hrun2 & Hm2 & Hb2 & Hmv2 & Hi2); try done.
    { by rewrite Hm1, <- app_assoc. }
    { zlia. }
    { rewrite HC in Hall. rewrite !Forall_app in Hall. destruct Hall as [[_ Hall] _]. by inversion Hall. }
    replace (zlen pre + zlen (B ++ [y])) with (zlen (pre ++ y :: B)) in * by zlia.
    assert (m_priority_boundries s2 = (lo ++ bounds (zlen pre) (Es ++ [B ++ [y]])) ++
      bounds (zlen (pre ++ y :: B) + 1) Rest) as Hb2'.
    { rewrite Hb2. unfold s1. cbn. rewrite <- app_assoc. do 3 f_equal. zlia. }
    assert (bounds (zlen pre) Bs = bounds (zlen pre) (Es ++ [B ++ [y]]) ++
      bounds (zlen (pre ++ y :: B)) Rest) as Hbs.
    { rewrite HBs, cons_middle, app_assoc, bounds_app, concat_app, HE. simpl. rewrite app_nil_r.
      do 2 f_equal. zlia. }
    rewrite Hbs. destruct (decide (Rest = [])) as [->|HR].
    + exists s2, y. split_and!.
      * eapply runs_bind; [apply runs_gets|]. eapply runs_bind; [exact Hrun|]. cbv beta iota.
        rewrite (proj2 (Z.eqb_neq _ _)) by zlia.
        eapply runs_bind; [by apply runs_get_pieces_at|]. eapply runs_bind; [exact Hrun2|].
        rewrite Hn, (proj2 (Z.eqb_eq _ _)) by zlia. apply runs_ret.
      * rewrite Hm2. simpl. by rewrite app_nil_r.
      * rewrite Hb2'. simpl. by rewrite !app_nil_r.
      * etransitivity; [apply moved_boundries|exact Hmv2].
      * replace (zlen pre + zlen ((B ++ [y]) ++ concat [])) with (zlen (pre ++ y :: B)) by (simpl; zlia).
        done.
    + destruct (IH Rest s2 (pre ++ y :: B) (lo ++ bounds (zlen pre) (Es ++ [B ++ [y]])) y)
        as (s3 & z & Hrun3 & Hm3 & Hb3 & Hmv3 & Hi3).
      { split; try done.
        - rewrite app_nil_r, Hm2. by rewrite <- app_assoc.
        - by rewrite app_nil_r, Hb2'.
        - eapply short_list_len; [exact Hs|]. rewrite Hm2, Hm, HC. zlia.
        - rewrite HC in Hall. by apply Forall_app in Hall as [_ Hall]. }
      { rewrite HBs, length_app in Hf. simpl in Hf. lia. }
      exists s3, z. split_and!.
      * eapply runs_bind; [apply runs_gets|]. eapply runs_bind; [exact Hrun|]. cbv beta iota.
        rewrite (proj2 (Z.eqb_neq _ _)) by zlia.
        eapply runs_bind; [by apply runs_get_pieces_at|]. eapply runs_bind; [exact Hrun2|].
        rewrite Hn, (proj2 (Z.eqb_neq _ _)) by (destruct Rest; [done|zlia]).
        rewrite length_app, length_bounds, length_app in Hrun3. simpl length in Hrun3.
        replace (zlen lo + zlen Es + 1) with (Z.of_nat (length lo + (length Es + 1))) by lia.
        exact Hrun3.
      * rewrite Hm3. by rewrite <- !app_assoc.
      * rewrite Hb3. by rewrite <- !app_assoc.
      * etransitivity; [apply moved_boundries|]. by etransitivity.
      * replace (zlen pre + zlen ((B ++ [y]) ++ concat Rest)) with
          (zlen (pre ++ y :: B) + zlen (concat Rest)) by zlia. done.
Qed.

Lemma runs_pop_back s l x :
  m_pieces s = l ++ [x] -> runs pop_back_pieces s tt (set_m_pieces l s).
Proof.
  intros H. unfold runs, pop_back_pieces. rewrite H.
  destruct (l ++ [x]) as [|y k] eqn:E; [by destruct l|]. rewrite <- E.
  rewrite length_app. simpl. by rewrite Nat.add_sub, take_app_length.
Qed.

Lemma last_first_lengths bk : Forall2 (fun b b' => length b = length b') bk (map last_first bk).
Proof. induction bk as [|b bk IH]; simpl; constructor; [|done]. by rewrite last_first_length. Qed.

Lemma concat_map_last_first bk : concat (map last_first bk) ≡ₚ concat bk.
Proof. induction bk as [|b bk IH]; simpl; [done|]. by rewrite last_first_perm, IH. Qed.

Lemma bucket_mid_eq before B B' after j :
  j <> zlen before -> 0 <= j -> bucket (before ++ B' :: after) j = bucket (before ++ B :: after) j.
Proof.
  intros Hj H0. destruct (decide (j < zlen before)); [by rewrite !bucket_app_l|].
  rewrite !bucket_app_r, !bucket_cons by lia. done.
Qed.

(** [remove] takes the piece at the hole out; the piece need not know its
    position any more. *)
Lemma remove_spec s before l1 x l2 after :
  shaped_but s (before ++ (l1 ++ x :: l2) :: after) (zlen (concat before ++ l1)) -> short_list s ->
  exists s' bk', runs (remove (zlen before) (zlen (concat before ++ l1))) s tt s' /\ shaped s' bk' /\
    moved s s' /\ becomes bk' (bucket (before ++ (l1 ++ l2) :: after)).
Proof.
  intros [Hm Hb Hi Hv] Hs.
  destruct (remove_shift_spec (Z.to_nat (zlen (m_priority_boundries s))) (l2 :: after) s
    (concat before ++ l1) (bounds 0 before) x) as (s1 & z & Hrun & Hm1 & Hb1 & Hmv & Hi1).
  { split; try done.
    - rewrite app_nil_r, Hm, concat_app. simpl. by rewrite <- !app_assoc.
    - rewrite app_nil_r, Hb, bounds_app, Z.add_0_l. cbn [bounds]. do 2 f_equal; [zlia|].
      f_equal. zlia.
    - rewrite concat_app in Hv. cbn [concat] in Hv. rewrite !Forall_app in Hv.
      destruct Hv as [_ [[_ Hv] Hv']]. inversion Hv; subst. by apply Forall_app. }
  { rewrite Hb, !length_bounds, length_app. simpl. lia. }
  set (l := (concat before ++ l1) ++ concat (map last_first (l2 :: after))).
  assert (m_pieces s1 = l ++ [z]) as Hm1' by (rewrite Hm1; unfold l; apply app_assoc).
  assert (zlen l = zlen (concat before ++ l1) + zlen (concat (l2 :: after))) as Hl.
  { unfold l. rewrite length_app, (Permutation_length (concat_map_last_first _)). lia. }
  exists (set_m_pieces l s1), (before ++ (l1 ++ last_first l2) :: map last_first after). split_and!.
  - unfold remove. eapply runs_bind; [apply runs_gets|].
    eapply runs_bind; [|eapply runs_pop_back, Hm1'].
    by rewrite length_bounds in Hrun.
  - split; cbn [set_m_pieces m_pieces m_priority_boundries].
    + unfold l. rewrite concat_app. simpl. by rewrite <- !app_assoc.
    + rewrite Hb1, bounds_app, Z.add_0_l. cbn [bounds].
      do 2 f_equal; [rewrite !length_app, last_first_length; lia|].
      etransitivity; [|apply bounds_length, last_first_lengths]. f_equal.
      rewrite !length_app, last_first_length. lia.
    + intros i y Hy Hne _. cbn in Hy. pose proof (zget_Some_bound _ _ _ Hy).
      apply (Hi1 i y); [|done|lia]. rewrite Hm1'. by rewrite zget_app_l by lia.
    + rewrite concat_app in Hv |- *. cbn [concat] in Hv |- *.
      rewrite concat_map_last_first, last_first_perm.
      rewrite !Forall_app, Forall_cons in Hv. rewrite !Forall_app. tauto.
  - etransitivity; [exact Hmv|apply moved_pieces].
  - intros j Hj. destruct (decide (j = zlen before)) as [->|Hne].
    + rewrite !bucket_mid by done. by rewrite last_first_perm.
    + apply bucket_mid_map; auto using last_first_perm.
Qed.

(** ** [update] towards higher priorities *)

(** The piece after the hole at the end of a bucket is in no later bucket. *)
Lemma indexed_suffix_fresh s pre y post h :
  indexed_but s h -> m_pieces s = pre ++ y :: post -> y <> -1 -> h < zlen pre -> y ∉ post.
Proof.
  intros Hi Hm Hy Hh [i Hl]%list_elem_of_lookup.
  enough (zlen pre = zlen pre + 1 + Z.of_nat i) by lia.
  eapply (indexed_once s h _ _ y Hi); [done|lia|lia| |]; rewrite Hm; [by apply zget_mid|].
  rewrite zget_app_r by lia. rewrite (zget_app_r [y] post) by (simpl; lia).
  unfold zget. rewrite decide_True by (simpl; lia). rewrite <- Hl. f_equal. simpl. lia.
Qed.


(** What both loops of [update] do with the piece at [t]. *)
Lemma shift_step s h e t y pre post :
  m_pieces s = pre ++ h :: post -> e = zlen pre -> zget (m_pieces s) t = Some y ->
  t = e \/ (h <> y /\ y <> -1) -> short_list s -> indexed_but s e ->
  exists s', runs (if h =? y then mret tt else place y e) s tt s' /\
    m_pieces s' = pre ++ y :: post /\ m_priority_boundries s' = m_priority_boundries s /\
    moved s s' /\ indexed_but s' t.
Proof.
  intros Hm -> Hy Ht Hs Hi. destruct (decide (t = zlen pre)) as [->|Hte].
  - rewrite Hm, zget_mid in Hy by done. injection Hy as <-. rewrite Z.eqb_refl.
    exists s. by split_and!.
  - destruct Ht as [|[Hhy Hy1]]; [done|]. rewrite (proj2 (Z.eqb_neq h y)) by done.
    destruct (fill_spec s y (zlen pre) t pre h post) as (s' & H); [done..|]. by exists s'.
Qed.

Lemma up_round fuel np B Bs s pre lo h tl hi :
  hole_pre (B :: Bs) s pre lo h tl hi -> h ∉ concat (B :: Bs) ->
  let pre' := pre ++ last_first B in
  exists s2 h', moved s s2 /\ m_pieces s2 = pre' ++ h' :: concat Bs ++ tl /\
    m_priority_boundries s2 = (lo ++ [zlen pre']) ++ bounds (zlen pre' + 1) Bs ++ hi /\
    indexed_but s2 (zlen pre') /\ h' ∉ concat Bs /\
    forall v t, runs (if zlen lo + 1 =? np then mret (zlen lo + 1, zlen pre')
                      else update_up fuel (zlen lo + 1) np h' (zlen pre')) s2 v t ->
      runs (update_up (S fuel) (zlen lo) np h (zlen pre)) s v t.
Proof.
  intros [_ Hm Hb Hs Hi Hall] Hfresh pre'.
  assert (zlen pre' = zlen pre + zlen B) as Hp' by (unfold pre'; rewrite length_app, last_first_length; lia).
  cbn [bounds concat] in *.
  replace (zlen pre + 1 + zlen B) with (zlen pre' + 1) in Hb by lia.
  set (s1 := set_m_priority_boundries (lo ++ zlen pre' :: bounds (zlen pre' + 1) Bs ++ hi) s).
  assert (exists y pre2, h :: B = pre2 ++ [y] /\ pre ++ y :: B ++ concat Bs ++ tl = pre' ++ y :: concat Bs ++ tl /\
    (B = [] \/ y ∈ B)) as (y & pre2 & Hhb & Hl & HyB).
  { unfold pre'. destruct B as [|y B _] using rev_ind; [exists h, []|exists y, (h :: B)];
      rewrite ?last_first_snoc, <- ?app_assoc; cbn [app last_first].
    - split_and!; auto.
    - split_and!; [done|done|right; rewrite elem_of_app; right; by left]. }
  assert (m_pieces s1 = (pre ++ pre2) ++ y :: concat Bs ++ tl) as Hm1.
  { cbn. rewrite Hm, <- !app_assoc. f_equal. change (h :: B ++ concat Bs ++ tl) with ((h :: B) ++ concat Bs ++ tl).
    rewrite Hhb. by rewrite <- app_assoc. }
  assert (zlen pre' = zlen (pre ++ pre2)) as Hp2.
  { apply (f_equal length) in Hhb. rewrite length_app in *. simpl in *. lia. }
  assert (zget (m_pieces s1) (zlen pre') = Some y) as Hy by (rewrite Hm1; by apply zget_mid).
  destruct (shift_step s1 h (zlen pre) (zlen pre') y pre (B ++ concat Bs ++ tl))
    as (s2 & Hrun & Hm2 & Hb2 & Hmv & Hi2); try done.
  { cbn. rewrite Hm. by rewrite <- app_assoc. }
  { destruct HyB as [->|HyB]; [left; simpl in *; lia|right]. split.
    - intros ->. apply Hfresh, elem_of_app. by left.
    - apply Forall_app in Hall as [Hall _]. rewrite Forall_forall in Hall. by apply Hall. }
  exists s2, y. split_and!.
  - etransitivity; [apply moved_boundries|exact Hmv].
  - by rewrite Hm2, Hl.
  - rewrite Hb2. cbn. by rewrite <- app_assoc.
  - done.
  - destruct HyB as [->|HyB]; [simpl in Hhb; destruct pre2 as [|? [|]]; by simplify_eq/=|].
    intros Hin. eapply (indexed_suffix_fresh s (pre ++ pre2) y (concat Bs ++ tl)); [exact Hi|done| | |].
    + apply Forall_app in Hall as [Hall _]. rewrite Forall_forall in Hall. by apply Hall.
    + destruct B; [by apply elem_of_nil in HyB|]. rewrite <- Hp2, Hp'. simpl. lia.
    + apply elem_of_app. by left.
  - intros v t Hv. cbn [update_up].
    eapply runs_bind; [apply runs_get_boundry; rewrite Hb; by apply zget_mid|].
    replace (zlen pre' + 1 - 1) with (zlen pre') by lia.
    eapply runs_bind; [eapply runs_set_boundry, Hb|].
    eapply runs_bind; [apply runs_get_pieces_at; exact Hy|].
    eapply runs_bind; [exact Hrun|]. exact Hv.
Qed.

Lemma update_up_spec fuel np Bs s pre lo h tl hi :
  hole_pre Bs s pre lo h tl hi -> h ∉ concat Bs -> (length Bs <= fuel)%nat ->
  np = zlen lo + zlen Bs ->
  exists s' h', runs (update_up fuel (zlen lo) np h (zlen pre)) s
      (np, zlen pre + zlen (concat Bs)) s' /\
    m_pieces s' = pre ++ concat (map last_first Bs) ++ h' :: tl /\
    m_priority_boundries s' = lo ++ bounds (zlen pre) Bs ++ hi /\ moved s s' /\
    indexed_but s' (zlen pre + zlen (concat Bs)).
Proof.
  revert Bs s pre lo h. induction fuel as [|fuel IH]; intros [|B Bs] s pre lo h Hpre Hfresh Hf Hnp;
    [by destruct Hpre|simpl in Hf; lia|by destruct Hpre|].
  destruct (up_round fuel np B Bs s pre lo h tl hi Hpre Hfresh)
    as (s2 & h' & Hmv & Hm2 & Hb2 & Hi2 & Hfr & Hrun).
  set (pre' := pre ++ last_first B) in *.
  assert (zlen pre' = zlen pre + zlen B) as Hp' by (unfold pre'; rewrite length_app, last_first_length; lia).
  assert (zlen pre + zlen (concat (B :: Bs)) = zlen pre' + zlen (concat Bs)) as -> by (simpl; zlia).
  cbn [bounds map concat]. rewrite <- Hp'.
  destruct (decide (Bs = [])) as [->|HBs].
  - exists s2, h'. simpl in Hnp. rewrite Z.add_0_r. split_and!; [| | |done|done].
    + apply Hrun. rewrite (proj2 (Z.eqb_eq _ _)) by lia. subst np. apply runs_ret.
    + rewrite Hm2. unfold pre'. simpl. by rewrite app_nil_r, <- !app_assoc.
    + by rewrite Hb2, <- app_assoc.
  - destruct (IH Bs s2 pre' (lo ++ [zlen pre']) h') as (s3 & h3 & Hrun3 & Hm3 & Hb3 & Hmv3 & Hi3);
      [|done|simpl in Hf; lia|zlia|].
    + destruct Hpre as [_ Hm _ Hs _ Hall]. split; try done.
      * eapply short_list_len; [exact Hs|]. rewrite Hm2, Hm. simpl. zlia.
      * simpl in Hall. by apply Forall_app in Hall as [_ Hall].
    + exists s3, h3. split_and!; [| | |by etransitivity|done].
      * apply Hrun. rewrite (proj2 (Z.eqb_neq _ _)) by (destruct Bs; [done|zlia]).
        by replace (zlen lo + 1) with (zlen (lo ++ [zlen pre'])) by zlia.
      * rewrite Hm3. unfold pre'. by rewrite <- !app_assoc.
      * rewrite Hb3. by rewrite <- app_assoc.
Qed.

(** ** [update] towards lower priorities *)

(** The starts of the buckets, the first at [a]. *)
Fixpoint starts (a : Z) (bk : list (list Z)) : list Z :=
  match bk with [] => [] | b :: bk => a :: starts (a + zlen b) bk end.

Lemma starts_snoc a bk b : starts a (bk ++ [b]) = starts a bk ++ [a + zlen (concat bk)].
Proof.
  revert a. induction bk as [|c bk IH]; intros a; simpl; [by rewrite Z.add_0_r|].
  rewrite IH. do 3 f_equal. zlia.
Qed.

Lemma length_starts a bk : length (starts a bk) = length bk.
Proof. revert a. induction bk as [|b bk IH]; intros a; simpl; [done|]. by rewrite IH. Qed.

(** What the loop needs: the buckets [Bs], then a hole. *)
Record down_pre (Bs : list (list Z)) (s : picker) (pre lo : list Z) (h : Z) (post hi : list Z) : Prop := {
  dn_pieces : m_pieces s = pre ++ concat Bs ++ h :: post;
  dn_bounds : m_priority_boundries s = lo ++ starts (zlen pre) Bs ++ hi;
  dn_short : short_list s;
  dn_indexed : indexed_but s (zlen pre + zlen (concat Bs));
  dn_all : Forall (fun x => x <> -1) (concat Bs);
}.

Lemma indexed_prefix_fresh s pre l y post h :
  indexed_but s h -> m_pieces s = pre ++ l ++ y :: post -> y <> -1 ->
  zlen pre + zlen l < h -> y ∉ l.
Proof.
  intros Hi Hm Hy Hh [i Hl]%list_elem_of_lookup. pose proof (lookup_lt_Some _ _ _ Hl).
  enough (zlen pre + Z.of_nat i = zlen (pre ++ l)) by zlia.
  eapply (indexed_once s h _ _ y Hi); [done|lia|zlia| |].
  - rewrite Hm, zget_app_r by lia. replace (zlen pre + Z.of_nat i - zlen pre) with (Z.of_nat i) by lia.
    by apply zget_prefix.
  - rewrite Hm, app_assoc. by apply zget_mid.
Qed.

Lemma down_round fuel np B Bs s pre lo h post hi :
  down_pre (Bs ++ [B]) s pre lo h post hi -> h ∉ concat (Bs ++ [B]) ->
  let prio := zlen lo + zlen Bs in
  let t := zlen pre + zlen (concat Bs) in
  exists s2 h', moved s s2 /\ down_pre Bs s2 pre lo h' (rotl B ++ post) (t + 1 :: hi) /\
    h' ∉ concat Bs /\
    forall v u, runs (if prio =? np then mret (prio, t) else update_down fuel prio np h' t) s2 v u ->
      runs (update_down (S fuel) (prio + 1) np h (t + zlen B)) s v u.
Proof.
  intros [Hm Hb Hs Hi Hall] Hfresh prio t.
  rewrite concat_app in Hm, Hfresh, Hi, Hall. simpl in Hm, Hfresh, Hi, Hall. rewrite app_nil_r in *.
  rewrite starts_snoc, <- app_assoc in Hb. simpl in Hb. fold t in Hb.
  replace (zlen pre + zlen (concat Bs ++ B)) with (t + zlen B) in Hi by (unfold t; zlia).
  set (lo' := lo ++ starts (zlen pre) Bs).
  assert (m_priority_boundries s = lo' ++ t :: hi) as Hb' by (rewrite Hb; unfold lo'; by rewrite <- app_assoc).
  assert (zlen lo' = prio) as Hlo' by (unfold lo', prio; rewrite length_app, length_starts; lia).
  set (s1 := set_m_priority_boundries (lo' ++ t + 1 :: hi) s).
  assert (exists y post2, B ++ h :: post = y :: post2 /\ B ++ y :: post = y :: rotl B ++ post /\
    (B = [] \/ y ∈ B)) as (y & post2 & Hhb & Hl & HyB).
  { destruct B as [|y B]; [by exists h, post; auto|exists y, (B ++ h :: post)].
    split_and!; [done| |right; by left]. simpl. by rewrite <- app_assoc. }
  assert (m_pieces s1 = (pre ++ concat Bs) ++ y :: post2) as Hm1
    by (cbn; rewrite Hm, <- Hhb, <- !app_assoc; done).
  assert (zget (m_pieces s1) t = Some y) as Hy by (rewrite Hm1; apply zget_mid; unfold t; zlia).
  assert (Forall (fun x => x <> -1) (concat Bs) /\ (B <> [] -> y <> -1)) as [Hall1 Hy1].
  { apply Forall_app in Hall as [? Hall]. split; [done|]. intros HB. rewrite Forall_forall in Hall.
    destruct HyB; [done|]. by apply Hall. }
  destruct (shift_step s1 h (t + zlen B) t y (pre ++ concat Bs ++ B) post)
    as (s2 & Hrun & Hm2 & Hb2 & Hmv & Hi2); try done.
  { cbn. rewrite Hm. by rewrite <- !app_assoc. }
  { unfold t. zlia. }
  { destruct HyB as [->|HyB]; [left; simpl; lia|right]. split.
    - intros ->. apply Hfresh, elem_of_app. by right.
    - apply Hy1. by intros ->; apply elem_of_nil in HyB. }
  exists s2, y. split_and!; [etransitivity; [apply moved_boundries|exact Hmv]| | |].
  - assert (m_pieces s2 = pre ++ concat Bs ++ y :: rotl B ++ post) as Hm2'
      by (rewrite Hm2, <- Hl, <- !app_assoc; done).
    split; [done| | |done|done].
    + rewrite Hb2. cbn. unfold lo'. by rewrite <- app_assoc.
    + eapply short_list_len; [exact Hs|]. rewrite Hm2', Hm, !length_app. simpl.
      rewrite !length_app, (Permutation_length (rotl_perm B)). simpl. lia.
  - destruct HyB as [->|HyB]; [simpl in Hhb; injection Hhb as <- <-; by rewrite app_nil_r in Hfresh|].
    apply (indexed_prefix_fresh s pre (concat Bs) y post2 (t + zlen B)); [done| |by apply Hy1; intros ->; apply elem_of_nil in HyB|fold t; destruct B; [by apply elem_of_nil in HyB|simpl; lia]].
    by rewrite Hm, <- Hhb, <- app_assoc.
  - intros v u Hv. cbn [update_down]. replace (prio + 1 - 1) with prio by lia.
    eapply runs_bind; [apply runs_get_boundry; rewrite Hb'; by apply zget_mid|].
    rewrite <- Hlo'. eapply runs_bind; [eapply runs_set_boundry, Hb'|]. rewrite Hlo'.
    eapply runs_bind; [apply runs_get_pieces_at; exact Hy|].
    eapply runs_bind; [exact Hrun|]. exact Hv.
Qed.

Lemma update_down_spec fuel np Bs s pre lo h post hi :
  down_pre Bs s pre lo h post hi -> h ∉ concat Bs -> (length Bs <= fuel)%nat -> Bs <> [] ->
  np = zlen lo ->
  exists s' h', runs (update_down fuel (zlen lo + zlen Bs) np h (zlen pre + zlen (concat Bs))) s
      (np, zlen pre) s' /\
    m_pieces s' = pre ++ h' :: concat (map rotl Bs) ++ post /\
    m_priority_boundries s' = lo ++ starts (zlen pre + 1) Bs ++ hi /\ moved s s' /\
    indexed_but s' (zlen pre).
Proof.
  intros Hpre Hfresh Hf Hne ->. revert Bs s h post hi Hpre Hfresh Hf Hne.
  induction fuel as [|fuel IH]; intros Bs s h post hi Hpre Hfresh Hf Hne;
    destruct Bs as [|B Bs _] using rev_ind; [done|rewrite length_app in Hf; simpl in Hf; lia|done|].
  destruct (down_round fuel (zlen lo) B Bs s pre lo h post hi Hpre Hfresh)
    as (s2 & h2 & Hmv & Hpre2 & Hfr & Hrun).
  replace (zlen lo + zlen (Bs ++ [B])) with (zlen lo + zlen Bs + 1) by zlia.
  replace (zlen pre + zlen (concat (Bs ++ [B]))) with (zlen pre + zlen (concat Bs) + zlen B)
    by (rewrite concat_app; simpl; rewrite app_nil_r; zlia).
  rewrite map_app, concat_app, starts_snoc. simpl concat. rewrite app_nil_r, <- !app_assoc. simpl app.
  replace (zlen pre + 1 + zlen (concat Bs)) with (zlen pre + zlen (concat Bs) + 1) by lia.
  destruct (decide (Bs = [])) as [->|HBs].
  - destruct Hpre2 as [Hm2 Hb2 _ Hi2 _]. simpl in *. rewrite !Z.add_0_r in *. exists s2, h2.
    split_and!; [|done|done|done|done].
    apply Hrun. rewrite Z.eqb_refl. apply runs_ret.
  - destruct (IH Bs s2 h2 (rotl B ++ post) (zlen pre + zlen (concat Bs) + 1 :: hi) Hpre2 Hfr)
      as (s3 & h3 & Hrun3 & Hm3 & Hb3 & Hmv3 & Hi3); [rewrite length_app in Hf; simpl in Hf; lia|done|].
    exists s3, h3. split_and!; [|done|done|by etransitivity|done].
    apply Hrun. rewrite (proj2 (Z.eqb_neq _ _)) by (destruct Bs; [done|simpl; lia]). exact Hrun3.
Qed.
