(* ===== verification/PickerUpdateSpec.v ===== *)
(** * What [shuffle] and [update] do to the pick list

    [update] takes a piece out of the bucket of its old priority and puts it
    into that of its new one; all other buckets keep their pieces. *)

From Stdlib Require Import ZArith Lia.
From stdpp Require Import base numbers list.
From S2P Require Import Prelude PickerState PickerList PickerListSpec PickerMoveSpec.

(** ** Exchanging two elements of a bucket *)

Lemma zget_middle (P B Q : list Z) i : 0 <= i < zlen B -> zget (P ++ B ++ Q) (zlen P + i) = zget B i.
Proof. intros Hi. rewrite zget_app_r, zget_app_l by lia. f_equal. lia. Qed.

Lemma zset_middle (P B Q : list Z) i x :
  0 <= i < zlen B -> zset (P ++ B ++ Q) (zlen P + i) x = Some (P ++ <[Z.to_nat i := x]> B ++ Q).
Proof.
  intros Hi. unfold zset. rewrite decide_True by zlia. f_equal.
  rewrite insert_app_r_alt by lia. f_equal. rewrite insert_app_l by lia. do 2 f_equal. lia.
Qed.

Lemma zswap_middle (P B Q : list Z) i j a b :
  zget B i = Some a -> zget B j = Some b ->
  exists l B', zset (P ++ B ++ Q) (zlen P + i) b = Some l /\
    zset l (zlen P + j) a = Some (P ++ B' ++ Q) /\ B' ≡ₚ B.
Proof.
  intros Ha Hb. pose proof (zget_Some_bound _ _ _ Ha). pose proof (zget_Some_bound _ _ _ Hb).
  eexists _, _. split; [by apply zset_middle|]. split; [apply zset_middle; rewrite length_insert; lia|].
  unfold zget in Ha, Hb. rewrite decide_True in Ha by lia. rewrite decide_True in Hb by lia. by apply Permutation_insert_swap.
Qed.

Lemma runs_set_pieces_at i x s l :
  zset (m_pieces s) i x = Some l -> runs (set_pieces_at i x) s tt (set_m_pieces l s).
Proof. intros H. unfold runs, set_pieces_at. by rewrite H. Qed.

Lemma bounds_middle_perm a before B B' after :
  B' ≡ₚ B -> bounds a (before ++ B' :: after) = bounds a (before ++ B :: after).
Proof.
  intros HB. rewrite !bounds_app. cbn [bounds]. by rewrite (Permutation_length HB).
Qed.

Lemma concat_middle_perm (before : list (list Z)) B B' after :
  B' ≡ₚ B -> concat (before ++ B' :: after) ≡ₚ concat (before ++ B :: after).
Proof. intros HB. rewrite !concat_app. simpl. by rewrite HB. Qed.

(** The indices of two pieces of the list are exchanged with the pieces. *)
Lemma exchange_indexed s i j a b l l' m m' pa pb :
  indexed s -> short_list s -> i <> j -> a <> -1 -> b <> -1 ->
  zget (m_pieces s) i = Some a -> zget (m_pieces s) j = Some b ->
  zset (m_pieces s) i b = Some l -> zset l j a = Some l' ->
  piece_at a s = Some pa -> piece_at b s = Some pb ->
  (forall y, piece_at y (set_m_piece_map m s) = if decide (a = y) then Some (with_index j pa) else piece_at y s) ->
  (forall y, piece_at y (set_m_piece_map m' s) =
     if decide (b = y) then Some (with_index i pb) else piece_at y (set_m_piece_map m s)) ->
  indexed (set_m_pieces l' (set_m_piece_map m' s)).
Proof.
  intros Hi Hs Hij Ha Hb Hai Hbj Hl Hl' Hpa Hpb Hm Hm' k x Hx Hne _. cbn in Hx.
  assert (a <> b) as Hab.
  { intros ->. apply Hij. eapply (indexed_once s (-1) i j b); try done;
      [apply zget_Some_bound in Hai|apply zget_Some_bound in Hbj]; lia. }
  assert (position i /\ position j) as [Hpi Hpj].
  { apply zget_Some_bound in Hai, Hbj. unfold position, short_list in *. lia. }
  rewrite (zget_zset _ _ _ _ k Hl') in Hx. unfold index_at. change (piece_at x (set_m_pieces l' _))
    with (piece_at x (set_m_piece_map m' s)). rewrite Hm', Hm.
  case_decide as Hjk; [injection Hx as <-; subst k|].
  - rewrite decide_False, decide_True by done. exists (with_index j pa). split; [done|]. by apply index_with.
  - rewrite (zget_zset _ _ _ _ k Hl) in Hx. case_decide as Hik; [injection Hx as <-; subst k|].
    + rewrite decide_True by done. exists (with_index i pb). split; [done|]. by apply index_with.
    + pose proof (zget_Some_bound _ _ _ Hx). destruct (Hi k x Hx Hne) as (p & Hp & Hpi' & Hh); [lia|].
      exists p. split; [|done]. rewrite !decide_False; [done|..].
      * intros <-. apply Hik. symmetry. eapply (indexed_once s (-1) k i a); try done; [lia|].
        apply zget_Some_bound in Hai; lia.
      * intros <-. apply Hjk. symmetry. eapply (indexed_once s (-1) k j b); try done; [lia|].
        apply zget_Some_bound in Hbj; lia.
Qed.

(** What [shuffle] does with two positions that differ. *)
Definition exchange (other_index elem_index : Z) : M unit :=
  a ← get_pieces_at other_index;
  b ← get_pieces_at elem_index;
  p1 ← get_piece a;
  p2 ← get_piece b;
  _ ← modify_piece a (with_index (index p2));
  _ ← modify_piece b (with_index (index p1));
  _ ← set_pieces_at other_index b;
  set_pieces_at elem_index a.

Lemma exchange_spec s i j a b l l' :
  indexed s -> short_list s -> i <> j -> a <> -1 -> b <> -1 ->
  zget (m_pieces s) i = Some a -> zget (m_pieces s) j = Some b ->
  zset (m_pieces s) i b = Some l -> zset l j a = Some l' ->
  exists s', runs (exchange i j) s tt s' /\ m_pieces s' = l' /\
    m_priority_boundries s' = m_priority_boundries s /\ moved s s' /\ indexed s'.
Proof.
  intros Hidx Hs Hij Ha1 Hb1 Ha Hb Hl Hl'.
  pose proof (zget_Some_bound _ _ _ Ha) as Hir. pose proof (zget_Some_bound _ _ _ Hb) as Hjr.
  destruct (Hidx _ a Ha) as (pa & Hpa & Hia & Hha); [done|lia|].
  destruct (Hidx _ b Hb) as (pb & Hpb & Hib & Hhb); [done|lia|].
  assert (position i /\ position j) as [Hpi Hpj] by (unfold short_list, position in *; lia).
  destruct (modify_piece_index a j s pa Hpa Hha Hpj) as (m1 & Hrun1 & Hmv1 & Hat1).
  assert (a <> b) as Hab.
  { intros <-. apply Hij. eapply (indexed_once s (-1) _ _ a Hidx); try done; lia. }
  assert (piece_at b (set_m_piece_map m1 s) = Some pb) as Hpb2 by (rewrite Hat1, decide_False by done; exact Hpb).
  destruct (modify_piece_index b i _ pb Hpb2 Hhb Hpi) as (m2 & Hrun2 & Hmv2 & Hat2).
  exists (set_m_pieces l' (set_m_pieces l (set_m_piece_map m2 (set_m_piece_map m1 s)))). split_and!; [|done|done| |].
  - unfold exchange.
    eapply runs_bind; [by apply runs_get_pieces_at|]. eapply runs_bind; [by apply runs_get_pieces_at|].
    eapply runs_bind; [by apply runs_get_piece|]. eapply runs_bind; [by apply runs_get_piece|].
    rewrite Hia, Hib. eapply runs_bind; [exact Hrun1|]. eapply runs_bind; [exact Hrun2|].
    eapply runs_bind; [by apply runs_set_pieces_at|]. by apply runs_set_pieces_at.
  - etransitivity; [exact Hmv1|]. etransitivity; [exact Hmv2|].
    etransitivity; apply moved_pieces.
  - change (indexed (set_m_pieces l' (set_m_piece_map m2 s))).
    eapply (exchange_indexed s i j a b); done.
Qed.

(** Lengths of concatenated buckets. *)
Ltac flatten_length :=
  repeat first [rewrite concat_app | rewrite length_app | rewrite length_map | progress simpl]; lia.

(** ** Landing in the new bucket *)

Lemma zget_hole (A D : list Z) h x j :
  x ∉ A -> x ∉ D -> zget (A ++ h :: D) j = Some x -> j = zlen A.
Proof.
  intros HA HD Hj. pose proof (zget_Some_bound _ _ _ Hj).
  destruct (decide (j < zlen A)); [rewrite zget_app_l in Hj by done; exfalso; eauto using not_in_zget|].
  destruct (decide (j = zlen A)); [done|]. rewrite zget_app_r in Hj by lia.
  rewrite (zget_app_r [h] D) in Hj by (simpl; lia). exfalso. eauto using not_in_zget.
Qed.

(** The piece is put in the hole the loop has left. *)
Lemma land_spec s s2 x A h D rest :
  m_pieces s2 = A ++ h :: D -> indexed_but s2 (zlen A) -> moved s s2 -> short_list s ->
  placeable s x -> m_pieces s ≡ₚ x :: rest -> A ++ D ≡ₚ rest -> NoDup (m_pieces s) ->
  exists s3, runs (place x (zlen A)) s2 tt s3 /\ m_pieces s3 = A ++ x :: D /\
    m_priority_boundries s3 = m_priority_boundries s2 /\ moved s s3 /\ indexed s3 /\
    m_pieces s3 ≡ₚ m_pieces s.
Proof.
  intros Hm Hi Hmv Hs Hp Hperm Hrest Hnd.
  assert (x ∉ A ++ D) as Hx.
  { rewrite Hrest. rewrite Hperm in Hnd. by apply NoDup_cons in Hnd as [? _]. }
  rewrite elem_of_app in Hx.
  destruct (place_spec s2 x (zlen A) (zlen A) (-1) A h D Hm) as (s3 & Hrun & ? & ? & Hmv3 & ? & _); try done.
  - eapply short_list_len; [exact Hs|]. rewrite Hm, Hperm, <- Hrest. zlia.
  - by eapply placeable_moved.
  - by left.
  - intros j Hj. left. rewrite Hm in Hj. eapply zget_hole; [| |exact Hj]; tauto.
  - exists s3. split_and!; try done; [by etransitivity|].
    rewrite Hperm, <- Hrest. by rewrite H, Permutation_middle.
Qed.

Lemma bounds_starts a c bk l : bounds a (c :: bk) = starts (a + zlen c) (bk ++ [l]).
Proof.
  revert a c. induction bk as [|b bk IH]; intros a c; [done|].
  cbn [bounds app starts]. f_equal. rewrite <- IH. done.
Qed.

Lemma bounds_head a a' B B' after :
  a + zlen B = a' + zlen B' -> bounds a (B :: after) = bounds a' (B' :: after).
Proof. intros H. simpl. by rewrite H. Qed.

Lemma starts_length a bk bk' :
  Forall2 (fun b b' => length b = length b') bk bk' -> starts a bk = starts a bk'.
Proof.
  intros H. revert a. induction H as [|b b' bk bk' Hb _ IH]; intros a; simpl; [done|]. by rewrite Hb, IH.
Qed.

Lemma bucket_perm bk bk' j : Forall2 (≡ₚ) bk bk' -> bucket bk j ≡ₚ bucket bk' j.
Proof.
  intros H. unfold bucket, zget. case_decide; [|done].
  pose proof (proj1 (Forall2_lookup _ _ _) H (Z.to_nat j)) as Hl. by destruct Hl.
Qed.

Lemma Forall2_perm_refl (bk : list (list Z)) : Forall2 (≡ₚ) bk bk.
Proof. induction bk; constructor; done. Qed.

Lemma Forall2_perm_map f (bk : list (list Z)) :
  (forall l, f l ≡ₚ l) -> Forall2 (≡ₚ) (map f bk) bk.
Proof. intros Hf. induction bk; simpl; constructor; done. Qed.

Lemma bucket_push before C after x j :
  0 <= j -> bucket (before ++ (x :: C) :: after) j = pushed (before ++ C :: after) x (zlen before) j.
Proof.
  intros Hj. unfold pushed. case_decide as Hjb.
  - subst j. by rewrite !bucket_mid.
  - by apply bucket_mid_eq.
Qed.

Lemma bucket_mid_perm before B B' after j :
  0 <= j -> B ≡ₚ B' -> bucket (before ++ B :: after) j ≡ₚ bucket (before ++ B' :: after) j.
Proof.
  intros Hj HB. destruct (decide (j = zlen before)) as [->|]; [by rewrite !bucket_mid|].
  by rewrite (bucket_mid_eq before B' B).
Qed.

Section random.
Context (random_values : nat -> Z).

Lemma shuffle_run s before B after i r s1 v t :
  m_priority_boundries s = bounds 0 (before ++ B :: after) ->
  runs (randint random_values (zlen B)) s r s1 ->
  runs (if r + zlen (concat before) =? i then mret tt else exchange (r + zlen (concat before)) i) s1 v t ->
  runs (shuffle random_values (zlen before) i) s v t.
Proof.
  intros Hb Hr Hv. unfold shuffle. eapply runs_bind; [eapply priority_range_spec, Hb|].
  cbv beta iota. eapply runs_bind; [|exact Hv].
  by replace (zlen (concat before) + zlen B - zlen (concat before)) with (zlen B) by lia.
Qed.

Lemma shuffle_spec s before B after i :
  shaped s (before ++ B :: after) -> short_list s ->
  zlen (concat before) <= i < zlen (concat before) + zlen B ->
  exists s' B', runs (shuffle random_values (zlen before) i) s tt s' /\
    shaped s' (before ++ B' :: after) /\ moved s s' /\ B' ≡ₚ B.
Proof.
  intros Hsh Hs Hi. pose proof Hsh as [Hm Hb Hidx Hv].
  assert (concat (before ++ B :: after) = concat before ++ B ++ concat after) as HC by (by rewrite concat_app).
  rewrite HC in Hm, Hv. set (P := concat before) in *.
  destruct (runs_randint random_values (zlen B) s) as (r & Hr & Hrun).
  { unfold short_list, we_have_index in Hs. rewrite Hm in Hs. autorewrite with zlen in Hs. lia. }
  set (s1 := set_rng (S (rng s)) s) in *.
  destruct (decide (r + zlen P = i)) as [Hri|Hri].
  { exists s1, B. split_and!; [|by apply shaped_rng|apply moved_rng|done].
    eapply shuffle_run; [exact Hb|exact Hrun|]. fold P. rewrite (proj2 (Z.eqb_eq _ _)) by done. apply runs_ret. }
  destruct (zget_is_Some B r) as [a Ha]; [lia|]. destruct (zget_is_Some B (i - zlen P)) as [b Hb']; [lia|].
  destruct (zswap_middle P B (concat after) r (i - zlen P) a b Ha Hb') as (l & B' & Hl & Hl' & HB').
  rewrite <- Hm, (Z.add_comm (zlen P) r) in Hl. replace (zlen P + (i - zlen P)) with i in Hl' by lia.
  assert (a <> -1 /\ b <> -1) as [Ha1 Hb1].
  { rewrite Forall_app, Forall_app in Hv. destruct Hv as (_ & Hv & _). rewrite Forall_forall in Hv.
    split; apply Hv; eapply zget_elem; eauto. }
  destruct (exchange_spec s1 (r + zlen P) i a b l (P ++ B' ++ concat after)) as
    (s2 & Hrun2 & Hm2 & Hb2 & Hmv2 & Hi2); try done.
  { change (m_pieces s1) with (m_pieces s). by rewrite Hm, (Z.add_comm r), zget_middle by lia. }
  { change (m_pieces s1) with (m_pieces s). rewrite Hm.
    replace i with (zlen P + (i - zlen P)) by lia. by rewrite zget_middle by lia. }
  exists s2, B'. split_and!; [| | |done].
  - eapply shuffle_run; [exact Hb|exact Hrun|]. fold P. by rewrite (proj2 (Z.eqb_neq _ _)) by done.
  - split; [|rewrite Hb2| done|].
    + by rewrite Hm2, concat_app.
    + cbn. rewrite Hb. symmetry. by apply bounds_middle_perm.
    + rewrite (concat_middle_perm before B B' after HB'). by rewrite HC.
  - etransitivity; [apply moved_rng|exact Hmv2].
Qed.

Lemma indexed_weaken s h : indexed s -> indexed_but s h.
Proof. intros Hi i x Hx Hne _. apply Hi; [done..|]. apply zget_Some_bound in Hx. lia. Qed.

Lemma shaped_nodup s bk : shaped s bk -> NoDup (m_pieces s).
Proof.
  intros [Hm _ Hi Hv]. eapply (indexed_nodup s _ [] Hi); [by rewrite app_nil_r|by rewrite Hm].
Qed.

(** The loop towards lower priorities, and the piece put in its place. *)
Lemma sink_spec s before C0 C l1 x l2 after :
  shaped s (before ++ C0 :: C ++ (l1 ++ x :: l2) :: after) -> short_list s -> placeable s x ->
  let i := zlen (concat (before ++ C0 :: C) ++ l1) in
  exists s', runs ('(prio, elem_index) ←
      update_down (Z.to_nat (zlen (m_priority_boundries s))) (zlen (before ++ C0 :: C)) (zlen before) x i;
      _ ← place x elem_index; mret (prio, elem_index)) s (zlen before, zlen (concat before ++ C0)) s' /\
    shaped s' (before ++ (C0 ++ [x]) :: map rotl C ++ (rotl l1 ++ l2) :: after) /\ moved s s'.
Proof.
  intros Hsh Hs Hx i. pose proof (shaped_nodup _ _ Hsh) as Hnd. destruct Hsh as [Hm Hb Hi Hv].
  set (P := concat before) in *.
  assert (m_pieces s = (P ++ C0) ++ concat (C ++ [l1]) ++ x :: l2 ++ concat after) as Hm'.
  { rewrite Hm, !concat_app. simpl. rewrite !concat_app. simpl. by rewrite app_nil_r, <- !app_assoc. }
  assert (i = zlen (P ++ C0) + zlen (concat (C ++ [l1]))) as Hiv.
  { unfold i. rewrite !concat_app. simpl. rewrite app_nil_r. fold P. zlia. }
  destruct (update_down_spec (Z.to_nat (zlen (m_priority_boundries s))) (zlen before) (C ++ [l1]) s
    (P ++ C0) (bounds 0 before) x (l2 ++ concat after)
    (bounds (zlen (P ++ C0) + zlen (concat C)) ((l1 ++ x :: l2) :: after)))
    as (s2 & h & Hrun & Hm2 & Hb2 & Hmv & Hi2).
  { split; [done| |done| |].
    - rewrite Hb, bounds_app. f_equal. change (C0 :: C ++ (l1 ++ x :: l2) :: after) with
        ((C0 :: C) ++ (l1 ++ x :: l2) :: after). fold P.
      rewrite bounds_app, (bounds_starts _ C0 C l1). simpl concat. f_equal; f_equal; zlia.
    - by apply indexed_weaken.
    - rewrite <- Hm, Hm' in Hv. rewrite !Forall_app in Hv. tauto. }
  { rewrite Hm' in Hnd. rewrite !NoDup_app in Hnd. intros Hin. destruct Hnd as (_ & _ & _ & Hnd & _).
    apply (Hnd x Hin). by left. }
  { rewrite Hb, length_bounds, !length_app. simpl. rewrite length_app. simpl. lia. }
  { by destruct C. }
  { by rewrite length_bounds. }
  rewrite <- Hiv, length_bounds in Hrun.
  destruct (land_spec s s2 x (P ++ C0) h (concat (map rotl (C ++ [l1])) ++ l2 ++ concat after)
    (P ++ C0 ++ concat (C ++ [l1]) ++ l2 ++ concat after)) as (s3 & Hrun3 & Hm3 & Hb3 & Hmv3 & Hi3 & Hperm3); try done.
  { rewrite Hm', <- !app_assoc. by rewrite <- !Permutation_middle. }
  { by rewrite concat_map_rotl, <- !app_assoc. }
  assert (m_pieces s3 = concat (before ++ (C0 ++ [x]) :: map rotl C ++ (rotl l1 ++ l2) :: after)) as Hc.
  { rewrite Hm3, !map_app, !concat_app. simpl. rewrite !concat_app. simpl.
    by rewrite app_nil_r, <- !app_assoc. }
  exists s3. split_and!; [| |done].
  - eapply runs_bind.
    { replace (zlen (before ++ C0 :: C)) with (zlen before + zlen (C ++ [l1])) by zlia. exact Hrun. }
    cbv beta iota. eapply runs_bind; [exact Hrun3|]. apply runs_ret.
  - split; [done| |done|by rewrite <- Hc, Hperm3, Hm].
    rewrite Hb3, Hb2, bounds_app. fold P. f_equal.
    change ((C0 ++ [x]) :: map rotl C ++ (rotl l1 ++ l2) :: after) with
      (((C0 ++ [x]) :: map rotl C) ++ (rotl l1 ++ l2) :: after).
    rewrite bounds_app, (bounds_starts _ (C0 ++ [x]) _ (rotl l1)). f_equal.
    + change [rotl l1] with (map rotl [l1]). rewrite <- map_app.
      rewrite <- (starts_length _ _ _ (rotl_lengths _)). f_equal. zlia.
    + apply bounds_head. simpl concat.
      autorewrite with zlen. rewrite (Permutation_length (concat_map_rotl C)).
      rewrite (Permutation_length (rotl_perm l1)). simpl. lia.
Qed.

(** The loop towards higher priorities, and the piece put in its place. *)
Lemma rise_spec s before C Cn l1 x l2 after :
  shaped s (before ++ (l1 ++ x :: l2) :: C ++ Cn :: after) -> short_list s -> placeable s x ->
  let np := zlen (before ++ (l1 ++ l2) :: C) in
  exists s', runs ('(prio, elem_index) ←
      update_up (Z.to_nat (zlen (m_priority_boundries s))) (zlen before) np x (zlen (concat before ++ l1));
      _ ← place x elem_index; mret (prio, elem_index)) s
      (np, zlen (concat (before ++ (l1 ++ l2) :: C))) s' /\
    shaped s' (before ++ (l1 ++ last_first l2) :: map last_first C ++ (x :: Cn) :: after) /\ moved s s'.
Proof.
  intros Hsh Hs Hx np. pose proof (shaped_nodup _ _ Hsh) as Hnd. destruct Hsh as [Hm Hb Hi Hv].
  set (P := concat before ++ l1) in *.
  assert (m_pieces s = P ++ x :: concat (l2 :: C) ++ Cn ++ concat after) as Hm'.
  { rewrite Hm. unfold P. rewrite !concat_app. simpl. rewrite !concat_app. simpl. by rewrite <- !app_assoc. }
  assert (zlen (concat (before ++ (l1 ++ l2) :: C)) = zlen P + zlen (concat (l2 :: C))) as Hnv.
  { unfold P. rewrite !concat_app. simpl. zlia. }
  destruct (update_up_spec (Z.to_nat (zlen (m_priority_boundries s))) np (l2 :: C) s
    P (bounds 0 before) x (Cn ++ concat after)
    (bounds (zlen P + 1 + zlen (concat (l2 :: C))) (Cn :: after)))
    as (s2 & h & Hrun & Hm2 & Hb2 & Hmv & Hi2).
  { split; [done|done| |done|by apply indexed_weaken|].
    - rewrite Hb, bounds_app. f_equal. change ((l1 ++ x :: l2) :: C ++ Cn :: after) with
        (((l1 ++ x :: l2) :: C) ++ Cn :: after).
      rewrite bounds_app. unfold P. f_equal; [apply bounds_head; zlia|f_equal; simpl; zlia].
    - rewrite <- Hm, Hm' in Hv. rewrite Forall_app, Forall_cons, Forall_app in Hv. tauto. }
  { rewrite Hm' in Hnd. rewrite NoDup_app, NoDup_cons, elem_of_app in Hnd. tauto. }
  { rewrite Hb, length_bounds, !length_app. simpl. rewrite length_app. simpl. lia. }
  { unfold np. rewrite length_bounds. zlia. }
  rewrite length_bounds in Hrun.
  replace (zlen P + zlen (concat (l2 :: C))) with (zlen (P ++ concat (map last_first (l2 :: C)))) in Hrun, Hi2
    by (rewrite length_app, (Permutation_length (concat_map_last_first _)); lia).
  destruct (land_spec s s2 x (P ++ concat (map last_first (l2 :: C))) h (Cn ++ concat after)
    (P ++ concat (l2 :: C) ++ Cn ++ concat after)) as (s3 & Hrun3 & Hm3 & Hb3 & Hmv3 & Hi3 & Hperm3); try done.
  { by rewrite Hm2, <- app_assoc. }
  { rewrite Hm'. by rewrite <- !Permutation_middle. }
  { by rewrite concat_map_last_first, <- !app_assoc. }
  assert (m_pieces s3 = concat (before ++ (l1 ++ last_first l2) :: map last_first C ++ (x :: Cn) :: after)) as Hc.
  { rewrite Hm3. unfold P. rewrite !concat_app. simpl. rewrite !concat_app. simpl.
    by rewrite <- !app_assoc. }
  exists s3. split_and!; [| |done].
  - rewrite Hnv. eapply runs_bind; [exact Hrun|].
    cbv beta iota. eapply runs_bind; [exact Hrun3|].
    rewrite length_app, (Permutation_length (concat_map_last_first _)), Nat2Z.inj_add. apply runs_ret.
  - split; [done| |done|by rewrite <- Hc, Hperm3, Hm].
    rewrite Hb3, Hb2, bounds_app. f_equal.
    change ((l1 ++ last_first l2) :: map last_first C ++ (x :: Cn) :: after) with
      (((l1 ++ last_first l2) :: map last_first C) ++ (x :: Cn) :: after).
    rewrite bounds_app. f_equal.
    + rewrite (bounds_length _ _ _ (last_first_lengths (l2 :: C))). unfold P. apply bounds_head. zlia.
    + apply bounds_head. simpl concat. unfold P.
      autorewrite with zlen. rewrite (Permutation_length (concat_map_last_first C)), last_first_length.
      simpl. zlia.
Qed.

(** The end of [update]: the piece is shuffled inside its new bucket. *)
Lemma finish_spec s s2 before B after i (m : M (Z * Z)) target :
  runs m s (zlen before, i) s2 -> shaped s2 (before ++ B :: after) -> short_list s2 ->
  zlen (concat before) <= i < zlen (concat before) + zlen B -> moved s s2 ->
  (forall j, 0 <= j -> bucket (before ++ B :: after) j ≡ₚ target j) ->
  exists s' bk', runs ('(prio, elem_index) ← m; shuffle random_values prio elem_index) s tt s' /\
    shaped s' bk' /\ moved s s' /\ becomes bk' target.
Proof.
  intros Hrun Hsh Hs Hi Hmv Ht.
  destruct (shuffle_spec s2 before B after i Hsh Hs Hi) as (s3 & B' & Hrun3 & Hsh3 & Hmv3 & HB').
  exists s3, (before ++ B' :: after). split_and!; [|done|by etransitivity|].
  - eapply runs_bind; [exact Hrun|exact Hrun3].
  - intros j Hj. rewrite <- Ht by done. by apply bucket_mid_perm.
Qed.

Lemma short_moved s s' bk bk' :
  short_list s -> shaped s bk -> shaped s' bk' -> zlen (concat bk') = zlen (concat bk) -> short_list s'.
Proof. intros Hs [Hm _ _ _] [Hm' _ _ _] Hl. unfold short_list. by rewrite Hm', Hl, <- Hm. Qed.

Lemma target_perm bk bk2 x k j :
  Forall2 (≡ₚ) bk2 bk -> pushed bk2 x k j ≡ₚ pushed bk x k j.
Proof. intros H. unfold pushed. by rewrite (bucket_perm _ _ j H). Qed.

(** The body of [update] once the list is grown. *)
Definition update_move (prio new_priority x i : Z) : M unit :=
  n ← num_boundries;
  '(prio, elem_index) ←
    (if new_priority <? prio then update_down (Z.to_nat n) prio new_priority x i
     else update_up (Z.to_nat n) prio new_priority x i);
  _ ← place x elem_index;
  shuffle random_values prio elem_index.

Lemma update_move_run prio new_priority x i s v t :
  runs ('(prio, elem_index) ←
    ('(prio, elem_index) ←
       (if new_priority <? prio
        then update_down (Z.to_nat (zlen (m_priority_boundries s))) prio new_priority x i
        else update_up (Z.to_nat (zlen (m_priority_boundries s))) prio new_priority x i);
     _ ← place x elem_index; mret (prio, elem_index));
    shuffle random_values prio elem_index) s v t -> runs (update_move prio new_priority x i) s v t.
Proof.
  unfold update_move. intros H. eapply runs_bind; [apply runs_gets|]. revert H.
  unfold runs, mbind, M_bind. destruct (if _ <? _ then _ else _) as [[[p e] s1]|]; [|done].
  by destruct (place x e s1) as [[[] s2]|].
Qed.

Lemma concat_length_perm (bk bk' : list (list Z)) : Forall2 (≡ₚ) bk bk' -> zlen (concat bk) = zlen (concat bk').
Proof. induction 1 as [|b b' bk bk' Hb _ IH]; [done|]. simpl. rewrite !length_app, (Permutation_length Hb). lia. Qed.

Lemma update_move_spec s before l1 x l2 after np :
  shaped s (before ++ (l1 ++ x :: l2) :: after) -> short_list s -> placeable s x ->
  0 <= np < zlen (before ++ (l1 ++ x :: l2) :: after) -> np <> zlen before ->
  exists s' bk', runs (update_move (zlen before) np x (zlen (concat before ++ l1))) s tt s' /\
    shaped s' bk' /\ moved s s' /\ becomes bk' (pushed (before ++ (l1 ++ l2) :: after) x np).
Proof.
  intros Hsh Hs Hx Hnp Hne. destruct (Z.ltb_spec np (zlen before)) as [Hlt|Hge].
  - destruct (bucket_split before np) as (before0 & C0 & C & -> & -> & _); [lia|].
    rewrite <- app_assoc in Hsh. simpl in Hsh.
    destruct (sink_spec s before0 C0 C l1 x l2 after Hsh Hs Hx) as (s2 & Hrun & Hsh2 & Hmv).
    set (bk2 := before0 ++ (C0 ++ [x]) :: map rotl C ++ (rotl l1 ++ l2) :: after) in *.
    assert (Forall2 (≡ₚ) bk2 (before0 ++ (x :: C0) :: C ++ (l1 ++ l2) :: after)) as Hp.
    { unfold bk2. apply Forall2_app; [apply Forall2_perm_refl|]. constructor; [apply Permutation_app_comm|].
      apply Forall2_app; [apply Forall2_perm_map, rotl_perm|].
      constructor; [by rewrite rotl_perm|apply Forall2_perm_refl]. }
    destruct (finish_spec s s2 before0 (C0 ++ [x]) (map rotl C ++ (rotl l1 ++ l2) :: after) _ _
      (pushed (before0 ++ C0 :: C ++ (l1 ++ l2) :: after) x (zlen before0)) Hrun Hsh2) as (s3 & bk3 & Hrun3 & ?);
      [| |done| |].
    + eapply short_moved; [exact Hs|exact Hsh|exact Hsh2|]. fold bk2. rewrite (concat_length_perm _ _ Hp).
      flatten_length.
    + zlia.
    + intros j Hj. rewrite <- bucket_push by done. by apply bucket_perm.
    + exists s3, bk3. rewrite <- app_assoc. simpl app. split; [|done]. apply update_move_run.
      rewrite (proj2 (Z.ltb_lt _ _)) by done. exact Hrun3.
  - destruct (bucket_split after (np - zlen before - 1)) as (C & Cn & after0 & -> & Hk & _);
      [autorewrite with zlen in Hnp; lia|].
    destruct (rise_spec s before C Cn l1 x l2 after0 Hsh Hs Hx) as (s2 & Hrun & Hsh2 & Hmv).
    assert (np = zlen (before ++ (l1 ++ last_first l2) :: map last_first C)) as Hnp'.
    { rewrite length_app. simpl. rewrite length_map. lia. }
    set (bk2 := before ++ (l1 ++ last_first l2) :: map last_first C ++ (x :: Cn) :: after0) in *.
    assert (Forall2 (≡ₚ) bk2 ((before ++ (l1 ++ l2) :: C) ++ (x :: Cn) :: after0)) as Hp.
    { unfold bk2. rewrite <- app_assoc. apply Forall2_app; [apply Forall2_perm_refl|].
      constructor; [by rewrite last_first_perm|].
      apply Forall2_app; [apply Forall2_perm_map, last_first_perm|apply Forall2_perm_refl]. }
    replace (zlen (before ++ (l1 ++ l2) :: C)) with np in Hrun by zlia.
    pose proof Hrun as Hrun'. rewrite Hnp' in Hrun' at 2.
    destruct (finish_spec s s2 (before ++ (l1 ++ last_first l2) :: map last_first C) (x :: Cn) after0 _ _
      (pushed ((before ++ (l1 ++ l2) :: C) ++ Cn :: after0) x np) Hrun') as (s3 & bk3 & Hrun3 & ?);
      [| | |done| |].
    + rewrite <- app_assoc. exact Hsh2.
    + eapply short_moved; [exact Hs|exact Hsh|exact Hsh2|]. fold bk2. rewrite (concat_length_perm _ _ Hp).
      rewrite <- app_assoc.
      flatten_length.
    + assert (zlen (concat (before ++ (l1 ++ last_first l2) :: map last_first C)) =
        zlen (concat (before ++ (l1 ++ l2) :: C))) as ->; [|simpl; lia].
      apply concat_length_perm. apply Forall2_app; [apply Forall2_perm_refl|].
      constructor; [by rewrite last_first_perm|]. apply Forall2_perm_map, last_first_perm.
    + intros j Hj. replace np with (zlen (before ++ (l1 ++ l2) :: C)) by zlia. rewrite <- bucket_push by done.
      rewrite <- app_assoc. simpl app. by apply bucket_perm.
    + exists s3, bk3. rewrite <- app_assoc in *. simpl app in *. split; [|done]. apply update_move_run.
      rewrite (proj2 (Z.ltb_ge _ _)) by done. exact Hrun3.
Qed.

Lemma pushed_none bk x j : 0 <= j -> pushed bk x (-1) j = bucket bk j.
Proof. intros Hj. unfold pushed. by rewrite decide_False by lia. Qed.

(** [update] moves the piece at [elem_index] to the bucket of its priority. *)
Lemma update_spec s before l1 x l2 after np :
  shaped s (before ++ (l1 ++ x :: l2) :: after) -> short_list s ->
  priority_of x s = Some np -> -1 <= np ->
  exists s' bk', runs (update random_values (zlen before) (zlen (concat before ++ l1))) s tt s' /\
    shaped s' bk' /\ moved s s' /\ becomes bk' (pushed (before ++ (l1 ++ l2) :: after) x np).
Proof.
  intros Hsh Hs Hp Hnp. pose proof Hsh as [Hm Hb Hi Hv].
  assert (m_pieces s = (concat before ++ l1) ++ x :: l2 ++ concat after) as Hm'.
  { rewrite Hm, concat_app. simpl. by rewrite <- !app_assoc. }
  assert (forall s' v, runs (if np =? zlen before then mret tt
    else if np =? -1 then remove (zlen before) (zlen (concat before ++ l1))
    else _ ← grow_boundries np; update_move (zlen before) np x (zlen (concat before ++ l1))) s v s' ->
    runs (update random_values (zlen before) (zlen (concat before ++ l1))) s v s') as Hrun.
  { intros s' v H. unfold update. eapply runs_bind; [apply runs_get_pieces_at; rewrite Hm'; by apply zget_mid|].
    cbv beta. eapply runs_bind; [apply runs_get_priority, Hp|]. exact H. }
  destruct (Z.eqb_spec np (zlen before)) as [->|Hne].
  { exists s, (before ++ (l1 ++ x :: l2) :: after). split_and!; [apply Hrun, runs_ret|done|done|].
    intros j Hj. rewrite <- bucket_push by done. apply bucket_mid_perm; [done|]. by rewrite Permutation_middle. }
  destruct (Z.eqb_spec np (-1)) as [->|Hn1].
  { destruct (remove_spec s before l1 x l2 after) as (s' & bk' & Hr & Hsh' & Hmv & Hbk); [|done|].
    - split; try done. by apply indexed_weaken.
    - exists s', bk'. split_and!; [by apply Hrun|done|done|]. intros j Hj. by rewrite Hbk, pushed_none. }
  destruct (grow_spec s _ _ np Hsh) as (s1 & n & Hg & Hsh1 & Hmv1 & Hms & Hlt); [lia|].
  rewrite <- app_assoc in Hsh1, Hlt. simpl app in Hsh1, Hlt.
  destruct (update_move_spec s1 before l1 x l2 (after ++ replicate n []) np) as (s2 & bk2 & Hr & Hsh2 & Hmv2 & Hbk);
    [done|by unfold short_list; rewrite Hms| |lia|done|].
  { eapply placeable_moved; [exact Hmv1|]. eapply index_at_placeable, (indexed_in s _ _ _ Hi Hm').
    rewrite <- Hm, Hm' in Hv. rewrite Forall_app, Forall_cons in Hv. tauto. }
  exists s2, bk2. split_and!; [|done|by etransitivity|].
  - apply Hrun. eapply runs_bind; [exact Hg|exact Hr].
  - intros j Hj. rewrite Hbk by done. unfold pushed.
    rewrite <- (bucket_grown (before ++ (l1 ++ l2) :: after) n) by done. by rewrite <- app_assoc.
Qed.
End random.
