(* ===== verification/PickerDownloadsSpec.v ===== *)
(** * The lists of the pieces being downloaded

    A piece that is being downloaded has one entry, in the list of its state,
    and a range of [m_block_info] of its own.  [dl_view s x o] is what the
    lists say of the piece [x]; the operations on the lists are stated as what
    they do to the view of one piece, every other piece keeping its view. *)

From Stdlib Require Import ZArith Lia.
From stdpp Require Import base numbers list sorting.
From S2P Require Import Prelude PickerState PickerList PickerOps PickerListSpec PickerUpdateSpec.

(** ** The shape of the lists *)

Definition dp_lt (a b : downloading_piece) : Prop := dp_index a < dp_index b.

Definition in_queue (s : picker) (q : state_t) (d : downloading_piece) : Prop :=
  exists l, downloads_of q s = Some l /\ d ∈ l.

(** The blocks of an entry. *)
Definition slice (s : picker) (d : downloading_piece) : list block_info :=
  take (Z.to_nat (m_blocks_per_piece s))
    (drop (Z.to_nat (dp_info_idx d * m_blocks_per_piece s)) (m_block_info s)).

(** [n] ranges are allocated, each to one entry or free. *)
Record dl_shape (s : picker) (n : nat) : Prop := {
  ds_four : length (m_downloads s) = 4%nat;
  ds_bpp : 0 < m_blocks_per_piece s < 2 ^ 15;
  ds_blocks : zlen (m_block_info s) = Z.of_nat n * m_blocks_per_piece s;
  ds_slots : map dp_info_idx (concat (m_downloads s)) ++ m_free_block_infos s ≡ₚ seqZ 0 (Z.of_nat n);
  ds_u16 : Z.of_nat n <= 2 ^ 16;
  ds_sorted : Forall (StronglySorted dp_lt) (m_downloads s);
  ds_once : NoDup (map dp_index (concat (m_downloads s)));
  ds_index : Forall (fun d => 0 <= dp_index d < num_pieces s) (concat (m_downloads s));
}.

Definition dl_ok (s : picker) : Prop := exists n, dl_shape s n.

Definition entry : Type := state_t * downloading_piece * list block_info.

Definition dl_view (s : picker) (x : Z) (o : option entry) : Prop :=
  match o with
  | Some (q, d, bs) => in_queue s q d /\ dp_index d = x /\ bs = slice s d
  | None => forall q d, in_queue s q d -> dp_index d <> x
  end.

(** ** Lists of a queue *)

Lemma lower_bound_spec l x :
  StronglySorted dp_lt l ->
  exists l1 l2, l = l1 ++ l2 /\ lower_bound l x = zlen l1 /\
    Forall (fun d => dp_index d < x) l1 /\ Forall (fun d => x <= dp_index d) l2.
Proof.
  induction 1 as [|d l Hs IH Hd]; [by exists [], []|]. simpl.
  destruct (Z.ltb_spec (dp_index d) x) as [Hlt|Hge].
  - destruct IH as (l1 & l2 & -> & -> & H1 & H2). exists (d :: l1), l2.
    split_and!; [done|simpl; lia|by constructor|done].
  - exists [], (d :: l). split_and!; try done. constructor; [done|].
    eapply Forall_impl; [exact Hd|]. unfold dp_lt. simpl. lia.
Qed.

Lemma sorted_app_inv (l1 l2 : list downloading_piece) :
  StronglySorted dp_lt (l1 ++ l2) <->
  StronglySorted dp_lt l1 /\ StronglySorted dp_lt l2 /\ forall a b, a ∈ l1 -> b ∈ l2 -> dp_lt a b.
Proof.
  induction l1 as [|a l1 IH]; simpl.
  - split; [intros H; split_and!; [constructor|done|]; intros a b Ha; by apply elem_of_nil in Ha|tauto].
  - split.
    + intros H. inversion H as [|? ? Hs Hf]; subst. apply IH in Hs as (H1 & H2 & H3).
      apply Forall_app in Hf as [Hf1 Hf2]. split_and!; [by constructor|done|].
      intros c b [->|Hc]%elem_of_cons Hb; [|by apply H3]. rewrite Forall_forall in Hf2. by apply Hf2.
    + intros (H1 & H2 & H3). inversion H1 as [|? ? Hs Hf]; subst. constructor.
      * apply IH. split_and!; [done..|]. intros c b Hc. apply H3. by right.
      * apply Forall_app. split; [done|]. rewrite Forall_forall. intros b Hb. apply H3; [by left|done].
Qed.

Lemma find_in_sorted l x d :
  StronglySorted dp_lt l -> d ∈ l -> dp_index d = x ->
  exists l1 l2, l = l1 ++ d :: l2 /\ lower_bound l x = zlen l1.
Proof.
  intros Hs Hd <-. destruct (lower_bound_spec l (dp_index d) Hs) as (l1 & l2 & -> & Hlb & H1 & H2).
  apply elem_of_app in Hd as [Hd|Hd]; [rewrite Forall_forall in H1; specialize (H1 d Hd); lia|].
  exists l1. destruct l2 as [|e l2]; [by apply elem_of_nil in Hd|].
  apply elem_of_cons in Hd as [->|Hd]; [by exists l2|].
  apply sorted_app_inv in Hs as (_ & Hs & _). inversion Hs as [|? ? _ Hf]; subst.
  rewrite Forall_forall in Hf. specialize (Hf d Hd). unfold dp_lt in Hf.
  rewrite Forall_forall in H2. specialize (H2 e ltac:(by left)). lia.
Qed.

(** ** The lists as one *)

Lemma state_num_inj q q' : state_num q = state_num q' -> q = q'.
Proof. by destruct q, q'. Qed.

(** The entries of the other queues. *)
Definition others (s : picker) (q : state_t) : list downloading_piece :=
  concat (take (state_num q) (m_downloads s)) ++ concat (drop (S (state_num q)) (m_downloads s)).

Lemma concat_queue s q l :
  downloads_of q s = Some l -> concat (m_downloads s) ≡ₚ l ++ others s q.
Proof.
  unfold downloads_of, others. intros H. rewrite <- (take_drop_middle _ _ _ H) at 1.
  rewrite concat_app. simpl. rewrite !(Permutation_app_comm (concat (take _ _))), <- app_assoc. done.
Qed.

Lemma in_queue_concat s q d : in_queue s q d -> d ∈ concat (m_downloads s).
Proof. intros (l & Hl & Hd). rewrite (concat_queue s q l Hl). apply elem_of_app. by left. Qed.

Lemma concat_in_queue s d :
  length (m_downloads s) = 4%nat -> d ∈ concat (m_downloads s) -> exists q, in_queue s q d.
Proof.
  intros H4 Hd. destruct (m_downloads s) as [|a [|b [|c [|e [|? ?]]]]] eqn:E; try done.
  simpl in Hd. rewrite !elem_of_app in Hd. unfold in_queue, downloads_of. rewrite E.
  destruct Hd as [|[|[|[|Hd]]]]; [exists piece_downloading|exists piece_full|exists piece_finished|
    exists piece_zero_prio|by apply elem_of_nil in Hd]; eexists; (split; [reflexivity|done]).
Qed.

Lemma elem_of_concat {A} (ls : list (list A)) l x : l ∈ ls -> x ∈ l -> x ∈ concat ls.
Proof.
  intros Hl Hx. induction ls as [|k ls IH]; [by apply elem_of_nil in Hl|]. simpl.
  rewrite elem_of_app. apply elem_of_cons in Hl as [->|Hl]; auto.
Qed.

(** An entry is determined by its piece. *)
Lemma entry_once s n d d' :
  dl_shape s n -> d ∈ concat (m_downloads s) -> d' ∈ concat (m_downloads s) ->
  dp_index d = dp_index d' -> d = d'.
Proof.
  intros [_ _ _ _ _ _ Hnd _] Hd Hd' He.
  apply list_elem_of_split in Hd as (l1 & l2 & Hl). rewrite Hl in Hnd, Hd'.
  rewrite map_app in Hnd. simpl in Hnd. rewrite NoDup_app, NoDup_cons in Hnd.
  destruct Hnd as (_ & Hn1 & Hn2 & _). rewrite elem_of_app, elem_of_cons in Hd'.
  destruct Hd' as [Hd'|[->|Hd']]; [|done|].
  - exfalso. apply (Hn1 (dp_index d')); [by apply list_elem_of_fmap_2|]. rewrite He. by left.
  - exfalso. apply Hn2. rewrite He. by apply list_elem_of_fmap_2.
Qed.

Lemma nodup_queues s n q q' d :
  dl_shape s n -> in_queue s q d -> in_queue s q' d -> q = q'.
Proof.
  intros Hs (l & Hl & Hd) (l' & Hl' & Hd').
  destruct (decide (q = q')) as [|Hne]; [done|]. exfalso.
  pose proof (ds_once _ _ Hs) as Hnd. rewrite (concat_queue s q l Hl), map_app in Hnd.
  apply NoDup_app in Hnd as (_ & Hnd & _). apply (Hnd (dp_index d)); [by apply list_elem_of_fmap_2|].
  apply list_elem_of_fmap_2. unfold others, downloads_of in *.
  assert (state_num q <> state_num q') by (intros H; by apply state_num_inj in H).
  rewrite elem_of_app. destruct (decide (state_num q' < state_num q)%nat).
  - left. eapply elem_of_concat; [|exact Hd'].
    eapply (list_elem_of_lookup_2 _ (state_num q')). rewrite lookup_take_lt by lia. exact Hl'.
  - right. eapply elem_of_concat; [|exact Hd'].
    eapply (list_elem_of_lookup_2 _ (state_num q' - S (state_num q))). rewrite lookup_drop. rewrite <- Hl'. f_equal. lia.
Qed.

(** ** Finding an entry *)

(** The iterator points at the entry [d]. *)
Definition points_at (s : picker) (it : dl_iter) (d : downloading_piece) : Prop :=
  exists l1 l2, downloads_of (it_queue it) s = Some (l1 ++ d :: l2) /\ it_pos it = zlen l1.

Lemma points_deref s it d : points_at s it d -> dl_deref it s = Some d.
Proof. intros (l1 & l2 & Hl & Hp). unfold dl_deref. rewrite Hl, Hp. simpl. by apply zget_mid. Qed.

Lemma points_not_end s it d : points_at s it d -> is_end it s = Some false.
Proof.
  intros (l1 & l2 & Hl & Hp). unfold is_end. rewrite Hl, Hp. simpl. f_equal.
  apply Z.eqb_neq. rewrite length_app. simpl. lia.
Qed.

Lemma points_in_queue s it d : points_at s it d -> in_queue s (it_queue it) d.
Proof. intros (l1 & l2 & Hl & _). exists (l1 ++ d :: l2). split; [done|]. apply elem_of_app. right. by left. Qed.

Lemma queue_sorted s n q l : dl_shape s n -> downloads_of q s = Some l -> StronglySorted dp_lt l.
Proof.
  intros Hs Hl. pose proof (ds_sorted _ _ Hs) as H. rewrite Forall_forall in H. apply H.
  by eapply list_elem_of_lookup_2.
Qed.

Lemma find_dl_piece_spec s n q d :
  dl_shape s n -> num_pieces s < we_have_index -> in_queue s q d ->
  exists it, find_dl_piece q (dp_index d) s = Some it /\ it_queue it = q /\ points_at s it d.
Proof.
  intros Hs Hn Hin. pose proof (in_queue_concat _ _ _ Hin) as Hc. destruct Hin as (l & Hl & Hd).
  pose proof (ds_index _ _ Hs) as Hi. rewrite Forall_forall in Hi. specialize (Hi d Hc). unfold we_have_index in Hn.
  destruct (find_in_sorted l (dp_index d) d) as (l1 & l2 & -> & Hlb); [by eapply queue_sorted|done|done|].
  exists (DlIter q (zlen l1)). split_and!; [|done|by exists l1, l2].
  unfold find_dl_piece. rewrite Hl. cbn [mbind option_bind]. rewrite u32_small by lia.
  rewrite Hlb, zget_mid by done. by rewrite Z.eqb_refl.
Qed.

(** ** Changing an entry *)

Lemma runs_set_downloads q l l0 s :
  downloads_of q s = Some l0 ->
  runs (set_downloads q l) s tt (set_m_downloads (<[state_num q := l]> (m_downloads s)) s).
Proof.
  intros H. unfold runs, set_downloads. apply lookup_lt_Some in H. by rewrite decide_True.
Qed.

Lemma downloads_of_insert s q l l0 q' :
  downloads_of q s = Some l0 ->
  downloads_of q' (set_m_downloads (<[state_num q := l]> (m_downloads s)) s) =
  if decide (q' = q) then Some l else downloads_of q' s.
Proof.
  intros H. pose proof (lookup_lt_Some _ _ _ H). unfold downloads_of. cbn. case_decide.
  - subst q'. by apply list_lookup_insert_eq.
  - apply list_lookup_insert_ne. intros Hq. apply state_num_inj in Hq. congruence.
Qed.

Lemma in_queue_insert s q l l0 q' d :
  downloads_of q s = Some l0 ->
  in_queue (set_m_downloads (<[state_num q := l]> (m_downloads s)) s) q' d <->
  if decide (q' = q) then d ∈ l else in_queue s q' d.
Proof.
  intros H. unfold in_queue. setoid_rewrite (downloads_of_insert s q l l0 q' H).
  case_decide; [|done]. split; [by intros (l' & [= <-] & ?)|by intros; exists l].
Qed.

Lemma concat_insert s q l l0 :
  downloads_of q s = Some l0 ->
  concat (<[state_num q := l]> (m_downloads s)) ≡ₚ l ++ others s q.
Proof.
  intros H. pose proof (concat_queue (set_m_downloads (<[state_num q := l]> (m_downloads s)) s) q l) as Hc.
  unfold others in *. cbn [set_m_downloads m_downloads] in Hc. rewrite Hc.
  - rewrite take_insert_ge, drop_insert_lt by lia. done.
  - rewrite (downloads_of_insert s q l l0 q H). by rewrite decide_True.
Qed.

(** The parts of the picker the lists do not touch. *)
Definition set_dl (ds : list (list downloading_piece)) (bi : list block_info) (fr : list Z) (s : picker) : picker :=
  set_m_free_block_infos fr (set_m_block_info bi (set_m_downloads ds s)).

(** The pieces other than [x] are seen as before. *)
Definition views_kept (s s' : picker) (x : Z) : Prop :=
  forall y o, y <> x -> dl_view s y o -> dl_view s' y o.

Lemma views_kept_trans s1 s2 s3 x : views_kept s1 s2 x -> views_kept s2 s3 x -> views_kept s1 s3 x.
Proof. intros H1 H2 y o Hy Ho. apply H2; [done|]. by apply H1. Qed.

Lemma sorted_replace l1 d d' l2 :
  dp_index d' = dp_index d -> StronglySorted dp_lt (l1 ++ d :: l2) -> StronglySorted dp_lt (l1 ++ d' :: l2).
Proof.
  intros Hi. rewrite !sorted_app_inv. intros (H1 & H2 & H3). split_and!; [done| |].
  - inversion H2 as [|? ? Hs Hf]; subst. constructor; [done|]. eapply Forall_impl; [exact Hf|].
    unfold dp_lt. simpl. intros ?. by rewrite Hi.
  - intros a b Ha Hb. unfold dp_lt in *. apply elem_of_cons in Hb as [->|Hb]; [|apply H3; [done|by right]].
    rewrite Hi. apply H3; [done|by left].
Qed.

Lemma dl_modify_spec s n it d f :
  dl_shape s n -> points_at s it d -> dp_index (f d) = dp_index d -> dp_info_idx (f d) = dp_info_idx d ->
  exists ds, let s' := set_m_downloads ds s in
    runs (dl_modify it f) s tt s' /\ dl_shape s' n /\ points_at s' it (f d) /\
    views_kept s s' (dp_index d).
Proof.
  intros Hs (l1 & l2 & Hl & Hp) Hfi Hfs. set (q := it_queue it) in *.
  exists (<[state_num q := l1 ++ f d :: l2]> (m_downloads s)).
  set (s' := set_m_downloads _ s).
  assert (concat (m_downloads s') ≡ₚ (l1 ++ f d :: l2) ++ others s q) as Hc by (by eapply concat_insert).
  pose proof (concat_queue s q _ Hl) as Hc0.
  assert (map dp_index (concat (m_downloads s')) ≡ₚ map dp_index (concat (m_downloads s)) /\
    map dp_info_idx (concat (m_downloads s')) ≡ₚ map dp_info_idx (concat (m_downloads s))) as [Hmi Hms].
  { rewrite Hc, Hc0, !map_app. simpl. by rewrite Hfi, Hfs. }
  split_and!.
  - unfold dl_modify. eapply runs_bind; [apply runs_query, Hl|]. cbv beta.
    eapply runs_bind; [apply runs_lift; rewrite Hp; by apply zget_mid|]. cbv beta.
    eapply runs_bind; [apply runs_lift; rewrite Hp; by apply zset_mid|]. by eapply runs_set_downloads.
  - destruct Hs as [H4 Hb Hbl Hsl Hu Hso Ho Hix]. split; try done; cbn [s' set_m_downloads m_downloads].
    + by rewrite length_insert.
    + cbn in Hms. by rewrite Hms.
    + apply Forall_insert; [done|]. eapply sorted_replace; [exact Hfi|].
      rewrite Forall_forall in Hso. apply Hso. by eapply list_elem_of_lookup_2.
    + cbn in Hmi. by rewrite Hmi.
    + cbn in Hc. rewrite Hc. rewrite Hc0 in Hix. rewrite !Forall_app, !Forall_cons in Hix |- *.
      rewrite Hfi. exact Hix.
  - exists l1, l2. split; [|done]. unfold s'. rewrite (downloads_of_insert _ _ _ _ _ Hl). by rewrite decide_True.
  - assert (forall q' e, dp_index e <> dp_index d -> in_queue s' q' e <-> in_queue s q' e) as Hin.
    { intros q' e He. unfold s'. rewrite (in_queue_insert _ _ _ _ _ _ Hl). case_decide as Hq; [subst q'|done].
      unfold in_queue. rewrite Hl. split; [intros Hin; exists (l1 ++ d :: l2)|intros (l' & [= <-] & Hin)];
        [split; [done|]|]; rewrite elem_of_app, elem_of_cons in *; destruct Hin as [|[->|]]; auto; congruence. }
    intros y [[[q' e] bs]|] Hy; simpl.
    + intros (H1 & H2 & H3). split_and!; [|done|done]. apply Hin; [congruence|done].
    + intros H q' e He Hye. assert (dp_index e <> dp_index d) by congruence. apply (H q' e); [|done]. by apply Hin.
Qed.

(** ** Changing a block *)

Section groups.
Context {A : Type} (w : nat).
Implicit Types (l : list A) (g h j : nat).

Lemma group_insert_same l g j x :
  (j < w)%nat -> take w (drop (g * w) (<[(g * w + j)%nat := x]> l)) = <[j := x]> (take w (drop (g * w) l)).
Proof.
  intros Hj. rewrite drop_insert_ge by lia. replace (g * w + j - g * w)%nat with j by lia.
  by rewrite take_insert_lt.
Qed.

Lemma group_insert_other l g h j x :
  (j < w)%nat -> g <> h -> take w (drop (h * w) (<[(g * w + j)%nat := x]> l)) = take w (drop (h * w) l).
Proof.
  intros Hj Hgh. apply list_eq. intros i. destruct (decide (i < w)%nat).
  - rewrite !lookup_take_lt, !lookup_drop, list_lookup_insert_ne by (done || nia). done.
  - by rewrite !lookup_take_ge by lia.
Qed.
End groups.

Lemma entry_slot s n d : dl_shape s n -> d ∈ concat (m_downloads s) -> 0 <= dp_info_idx d < Z.of_nat n.
Proof.
  intros Hs Hd. assert (dp_info_idx d ∈ seqZ 0 (Z.of_nat n)) as H.
  { rewrite <- (ds_slots _ _ Hs). apply elem_of_app. left. by apply list_elem_of_fmap_2. }
  apply elem_of_seqZ in H. lia.
Qed.

(** Two entries do not share their blocks. *)
Lemma entry_slot_inj s n d d' :
  dl_shape s n -> d ∈ concat (m_downloads s) -> d' ∈ concat (m_downloads s) ->
  dp_info_idx d = dp_info_idx d' -> dp_index d = dp_index d'.
Proof.
  intros Hs Hd Hd' He. assert (NoDup (map dp_info_idx (concat (m_downloads s)))) as Hnd.
  { pose proof (NoDup_seqZ 0 (Z.of_nat n)) as H. rewrite <- (ds_slots _ _ Hs) in H.
    by apply NoDup_app in H as (H & _ & _). }
  apply list_elem_of_lookup in Hd as [i Hi]. apply list_elem_of_lookup in Hd' as [j Hj].
  assert (i = j) as ->.
  { eapply (NoDup_lookup _ i j (dp_info_idx d) Hnd); rewrite list_lookup_fmap;
      [rewrite Hi|rewrite Hj]; simpl; congruence. }
  congruence.
Qed.

Lemma slice_length s n d : dl_shape s n -> d ∈ concat (m_downloads s) -> zlen (slice s d) = m_blocks_per_piece s.
Proof.
  intros Hs Hd. pose proof (entry_slot s n d Hs Hd). pose proof (ds_bpp _ _ Hs).
  pose proof (ds_blocks _ _ Hs). unfold slice. rewrite length_take, length_drop. nia.
Qed.

Lemma slice_get s n d j :
  dl_shape s n -> d ∈ concat (m_downloads s) -> 0 <= j < m_blocks_per_piece s ->
  zget (slice s d) j = block_at d j s.
Proof.
  intros Hs Hd Hj. pose proof (entry_slot s n d Hs Hd). unfold slice, block_at, zget.
  rewrite !decide_True by nia. rewrite lookup_take_lt, lookup_drop by lia. f_equal. nia.
Qed.

Lemma modify_block_spec s n q d j b f :
  dl_shape s n -> in_queue s q d -> zget (slice s d) j = Some b ->
  exists bi, let s' := set_m_block_info bi s in
    runs (modify_block d j f) s tt s' /\ dl_shape s' n /\
    slice s' d = <[Z.to_nat j := f b]> (slice s d) /\ views_kept s s' (dp_index d).
Proof.
  intros Hs Hq Hb. pose proof (in_queue_concat _ _ _ Hq) as Hd.
  pose proof (slice_length s n d Hs Hd) as Hlen. pose proof (zget_Some_bound _ _ _ Hb) as Hj.
  rewrite Hlen in Hj. rewrite (slice_get s n) in Hb by done. pose proof (entry_slot s n d Hs Hd) as Hi.
  pose proof (zget_Some_bound _ _ _ Hb) as Hpos. pose proof (ds_bpp _ _ Hs) as Hw.
  set (w := m_blocks_per_piece s) in *. set (pos := dp_info_idx d * w + j) in *.
  assert (Z.to_nat pos = Z.to_nat (dp_info_idx d) * Z.to_nat w + Z.to_nat j)%nat as Hnat
    by (unfold pos; nia).
  exists (<[Z.to_nat pos := f b]> (m_block_info s)). split_and!.
  - unfold runs, modify_block. rewrite Hb. cbn [mbind option_bind]. fold w pos. unfold zset.
    by rewrite decide_True by done.
  - destruct Hs. split; try done. cbn. by rewrite length_insert.
  - unfold slice. cbn. fold w. rewrite Hnat, Z2Nat.inj_mul by lia. apply group_insert_same. lia.
  - assert (forall q' e, in_queue s q' e -> dp_index e <> dp_index d ->
      slice (set_m_block_info (<[Z.to_nat pos := f b]> (m_block_info s)) s) e = slice s e) as Hsl.
    { intros q' e He Hne. apply in_queue_concat in He. pose proof (entry_slot s n e Hs He).
      unfold slice. cbn. fold w. rewrite Hnat, Z2Nat.inj_mul by lia. apply group_insert_other; [lia|].
      intros Heq. apply Hne. eapply (entry_slot_inj s n); try done. lia. }
    intros y [[[q' e] bs]|] Hy; simpl; [|by auto]. intros (H1 & H2 & H3). split_and!; [done|done|].
    rewrite H3. symmetry. eapply Hsl; [exact H1|congruence].
Qed.

(** ** Erasing an entry *)

Definition put_piece (x : Z) (p : piece_pos) (s : picker) : picker :=
  set_m_piece_map (<[Z.to_nat x := p]> (m_piece_map s)) s.

Lemma runs_modify_piece x p f s :
  piece_at x s = Some p -> runs (modify_piece x f) s tt (put_piece x (f p) s).
Proof.
  intros H. pose proof (zget_Some_bound _ _ _ H). unfold piece_at in H.
  unfold runs, modify_piece, put_piece. rewrite H. cbn [mbind option_bind].
  unfold zset. by rewrite decide_True by done.
Qed.

Lemma list_erase_mid l1 d l2 : list_erase (l1 ++ d :: l2) (zlen l1) = l1 ++ l2.
Proof.
  unfold list_erase. rewrite Nat2Z.id, take_app_length. f_equal.
  rewrite drop_app_ge by lia. by replace (S (length l1) - length l1)%nat with 1%nat by lia.
Qed.

Lemma sorted_erase l1 d l2 : StronglySorted dp_lt (l1 ++ d :: l2) -> StronglySorted dp_lt (l1 ++ l2).
Proof.
  rewrite !sorted_app_inv. intros (H1 & H2 & H3). inversion H2; subst. split_and!; [done..|].
  intros a b Ha Hb. apply H3; [done|by right].
Qed.

(** What a queue with one entry less holds. *)
Lemma in_queue_del s s' q l1 l2 d :
  downloads_of q s = Some (l1 ++ d :: l2) -> m_downloads s' = <[state_num q := l1 ++ l2]> (m_downloads s) ->
  (forall q' e, in_queue s' q' e -> in_queue s q' e) /\
  (forall q' e, in_queue s q' e -> dp_index e <> dp_index d -> in_queue s' q' e) /\
  concat (m_downloads s) ≡ₚ d :: concat (m_downloads s').
Proof.
  intros Hl Hds.
  assert (forall q' e, in_queue s' q' e <-> if decide (q' = q) then e ∈ l1 ++ l2 else in_queue s q' e) as Hin.
  { intros q' e. rewrite <- (in_queue_insert s q _ _ q' e Hl). unfold in_queue, downloads_of. by rewrite Hds. }
  split_and!.
  - intros q' e. rewrite Hin. case_decide as Hqq; [subst q'|done].
    intros He. exists (l1 ++ d :: l2). split; [done|]. rewrite elem_of_app in *. rewrite elem_of_cons. tauto.
  - intros q' e H1 Hne. rewrite Hin. case_decide as Hqq; [subst q'|done].
    destruct H1 as (l & Hl' & He). rewrite Hl in Hl'. injection Hl' as <-.
    rewrite elem_of_app, elem_of_cons in He. rewrite elem_of_app. destruct He as [|[->|]]; auto. congruence.
  - rewrite (concat_queue s q _ Hl), Hds, (concat_insert s q _ _ Hl), <- !app_assoc. simpl.
    symmetry. apply Permutation_middle.
Qed.

Lemma erase_download_piece_spec s n it d p :
  dl_shape s n -> points_at s it d -> piece_at (dp_index d) s = Some p -> download_queue p = it_queue it ->
  exists ds fr, let s' := put_piece (dp_index d) (with_download_state piece_open p)
                            (set_m_downloads ds (set_m_free_block_infos fr s)) in
    runs (erase_download_piece it) s tt s' /\ dl_shape s' n /\
    dl_view s' (dp_index d) None /\ views_kept s s' (dp_index d).
Proof.
  intros Hs Hpt Hp Hq. pose proof Hpt as (l1 & l2 & Hl & Hpos). set (q := it_queue it) in *.
  exists (<[state_num q := l1 ++ l2]> (m_downloads s)), (m_free_block_infos s ++ [dp_info_idx d]).
  set (s' := put_piece _ _ _).
  destruct (in_queue_del s s' q l1 l2 d Hl eq_refl) as (Hsub & Hkeep & Hperm).
  assert (dl_view s' (dp_index d) None) as Hnone.
  { intros q' e He Heq. pose proof (ds_once _ _ Hs) as Hnd. rewrite Hperm in Hnd. simpl in Hnd.
    apply NoDup_cons in Hnd as [Hnd _]. apply Hnd. rewrite <- Heq. apply list_elem_of_fmap_2.
    exact (in_queue_concat s' q' e He). }
  split_and!; [|split|done|].
  - unfold erase_download_piece. eapply runs_bind; [apply runs_query, points_deref, Hpt|]. cbv beta.
    eapply runs_bind; [by apply runs_get_piece|]. cbv zeta. rewrite Hq.
    eapply runs_bind; [apply runs_modify|]. eapply runs_bind; [apply runs_modify_piece; exact Hp|].
    rewrite decide_True by done. eapply runs_bind; [apply runs_query; exact Hl|]. cbv beta.
    rewrite Hpos, list_erase_mid. by eapply runs_set_downloads.
  - unfold s'. cbn. rewrite length_insert. apply Hs.
  - apply Hs.
  - apply Hs.
  - change (m_free_block_infos s') with (m_free_block_infos s ++ [dp_info_idx d]).
    rewrite <- (ds_slots _ _ Hs), Hperm. simpl. rewrite (Permutation_app_comm (m_free_block_infos s)).
    simpl. by rewrite Permutation_middle.
  - apply Hs.
  - apply Forall_insert; [apply Hs|]. eapply sorted_erase, queue_sorted; [exact Hs|exact Hl].
  - pose proof (ds_once _ _ Hs) as Hnd. rewrite Hperm in Hnd. by apply NoDup_cons in Hnd as [_ Hnd].
  - pose proof (ds_index _ _ Hs) as Hix. rewrite Hperm in Hix. inversion Hix; subst.
    unfold num_pieces, s'. cbn [put_piece set_m_piece_map m_piece_map]. rewrite length_insert. done.
  - intros y [[[q' e] bs]|] Hy; simpl.
    + intros (H1 & H2 & H3). split_and!; [apply Hkeep; congruence|done|done].
    + intros H q' e He. apply (H q' e). by apply Hsub.
Qed.

(** ** A new entry *)

(** The blocks of the range [k]. *)
Definition group (s : picker) (bi : list block_info) (k : Z) : list block_info :=
  take (Z.to_nat (m_blocks_per_piece s)) (drop (Z.to_nat k * Z.to_nat (m_blocks_per_piece s)) bi).

Lemma slice_group s n d :
  dl_shape s n -> 0 <= dp_info_idx d -> slice s d = group s (m_block_info s) (dp_info_idx d).
Proof. intros Hs Hd. pose proof (ds_bpp _ _ Hs). unfold slice, group. by rewrite Z2Nat.inj_mul by lia. Qed.

(** There is a range left: one that is free, or one whose number fits the
    entry. *)
Definition slots_left (s : picker) : Prop :=
  m_free_block_infos s <> [] \/ zlen (m_block_info s) / m_blocks_per_piece s < 65535.

Lemma alloc_blocks_spec s n :
  dl_shape s n -> slots_left s ->
  exists ext fr k n', runs alloc_blocks s k (set_m_free_block_infos fr (set_m_block_info (m_block_info s ++ ext) s)) /\
    zlen (m_block_info s ++ ext) = Z.of_nat n' * m_blocks_per_piece s /\ Z.of_nat n' <= 2 ^ 16 /\
    (n <= n')%nat /\ 0 <= k < Z.of_nat n' /\
    map dp_info_idx (concat (m_downloads s)) ++ k :: fr ≡ₚ seqZ 0 (Z.of_nat n').
Proof.
  intros Hs Hleft. pose proof (ds_bpp _ _ Hs) as Hw. pose proof (ds_blocks _ _ Hs) as Hb.
  pose proof (ds_slots _ _ Hs) as Hsl. pose proof (ds_u16 _ _ Hs) as Hu.
  unfold runs, alloc_blocks. destruct (List.rev (m_free_block_infos s)) as [|i l] eqn:E.
  - assert (m_free_block_infos s = []) as Hf.
    { rewrite <- (List.rev_involutive (m_free_block_infos s)), E. done. }
    assert (zlen (m_block_info s) / m_blocks_per_piece s = Z.of_nat n) as Hd by (rewrite Hb; apply Z.div_mul; lia).
    exists (replicate (Z.to_nat (m_blocks_per_piece s)) default_block_info), [], (Z.of_nat n), (S n).
    rewrite (proj2 (Z.eqb_neq _ _)), Hd by lia. split_and!.
    + do 2 f_equal. destruct s; cbn in *. by subst.
    + rewrite length_app, length_replicate. lia.
    + destruct Hleft as [|Hleft]; [done|]. rewrite Hd in Hleft. lia.
    + lia.
    + lia.
    + lia.
    + rewrite seqZ_S, <- Hsl, Hf, app_nil_r. done.
  - assert (m_free_block_infos s = List.rev l ++ [i]) as Hf.
    { rewrite <- (List.rev_involutive (m_free_block_infos s)), E. done. }
    exists [], (List.rev l), i, n.
    assert (i ∈ seqZ 0 (Z.of_nat n)) as Hi.
    { rewrite <- Hsl, Hf, !elem_of_app. right. right. by left. }
    apply elem_of_seqZ in Hi. rewrite app_nil_r. split_and!; try lia; [done|].
    rewrite <- Hsl, Hf. by rewrite <- Permutation_cons_append.
Qed.

Lemma reset_blocks_spec m s d j n :
  0 < m_blocks_per_piece s -> zlen (m_block_info s) = Z.of_nat n * m_blocks_per_piece s ->
  0 <= dp_info_idx d < Z.of_nat n -> 0 <= j -> j + Z.of_nat m <= m_blocks_per_piece s ->
  exists bi, runs (reset_blocks m d j) s tt (set_m_block_info bi s) /\
    length bi = length (m_block_info s) /\
    (forall h, 0 <= h -> h <> dp_info_idx d -> group s bi h = group s (m_block_info s) h) /\
    forall i, 0 <= i < m_blocks_per_piece s ->
      zget (group s bi (dp_info_idx d)) i =
      if decide (j <= i < j + Z.of_nat m) then Some (BI 0 0 state_none)
      else zget (group s (m_block_info s) (dp_info_idx d)) i.
Proof.
  revert s j. induction m as [|m IH]; intros s j Hw Hb Hd Hj Hm.
  { exists (m_block_info s). split_and!; try done; [by destruct s|]. intros i Hi. by rewrite decide_False by lia. }
  set (w := m_blocks_per_piece s) in *. set (pos := dp_info_idx d * w + j).
  assert (0 <= pos < zlen (m_block_info s)) as Hpos by (unfold pos; nia).
  assert (Z.to_nat pos = Z.to_nat (dp_info_idx d) * Z.to_nat w + Z.to_nat j)%nat as Hnat by (unfold pos; nia).
  destruct (zget_is_Some _ _ Hpos) as [b Hbpos].
  set (s1 := set_m_block_info (<[Z.to_nat pos := BI 0 0 state_none]> (m_block_info s)) s).
  destruct (IH s1 (j + 1)) as (bi & Hrun & Hl & Ho & Hg); try (unfold s1; cbn; rewrite ?length_insert; lia || done).
  cbn [s1 set_m_block_info m_block_info m_blocks_per_piece] in Hl, Ho, Hg. fold w in Hg.
  exists bi. split_and!.
  - cbn [reset_blocks]. eapply (runs_bind _ _ _ tt s1); [|exact Hrun].
    unfold runs, modify_block, block_at. fold w pos. rewrite Hbpos. cbn [mbind option_bind].
    unfold zset. by rewrite decide_True by done.
  - by rewrite Hl, length_insert.
  - intros h H0 Hh. change (group s bi h) with (group s1 bi h). rewrite Ho by done.
    unfold group. cbn. fold w. rewrite Hnat. apply group_insert_other; lia.
  - intros i Hi. change (group s bi (dp_info_idx d)) with (group s1 bi (dp_info_idx d)). rewrite Hg by done.
    assert (group s1 (<[Z.to_nat pos := BI 0 0 state_none]> (m_block_info s)) (dp_info_idx d) =
      <[Z.to_nat j := BI 0 0 state_none]> (group s (m_block_info s) (dp_info_idx d))) as ->.
    { unfold group. cbn. fold w. rewrite Hnat. apply group_insert_same. lia. }
    destruct (decide (i = j)) as [->|Hij].
    + rewrite decide_False, decide_True by lia. unfold zget. rewrite decide_True by lia.
      apply list_lookup_insert_eq. unfold group. fold w. rewrite length_take, length_drop. nia.
    + assert (zget (<[Z.to_nat j := BI 0 0 state_none]> (group s (m_block_info s) (dp_info_idx d))) i =
        zget (group s (m_block_info s) (dp_info_idx d)) i) as ->.
      { unfold zget. rewrite !decide_True by lia. apply list_lookup_insert_ne. lia. }
      repeat case_decide; done || lia.
Qed.

Lemma list_insert_mid l1 d l2 : list_insert (l1 ++ l2) (zlen l1) d = l1 ++ d :: l2.
Proof. unfold list_insert. by rewrite Nat2Z.id, take_app_length, drop_app_length. Qed.

(** An entry put where [lower_bound] says keeps the list sorted. *)
Lemma insert_sorted l d :
  StronglySorted dp_lt l -> (forall e, e ∈ l -> dp_index e <> dp_index d) ->
  exists l1 l2, l = l1 ++ l2 /\ lower_bound l (dp_index d) = zlen l1 /\
    StronglySorted dp_lt (l1 ++ d :: l2).
Proof.
  intros Hs Hne. destruct (lower_bound_spec l (dp_index d) Hs) as (l1 & l2 & -> & Hlb & H1 & H2).
  exists l1, l2. split_and!; [done|done|]. rewrite Forall_forall in H1, H2.
  apply sorted_app_inv in Hs as (S1 & S2 & S3). apply sorted_app_inv. split_and!; [done| |].
  - constructor; [done|]. rewrite Forall_forall. intros e He. unfold dp_lt. specialize (H2 e He).
    specialize (Hne e). rewrite elem_of_app in Hne. specialize (Hne ltac:(auto)). lia.
  - intros a b Ha Hb. apply elem_of_cons in Hb as [->|Hb]; [|by apply S3]. by apply H1.
Qed.

Lemma view_none_fresh s n x d : dl_shape s n -> dl_view s x None -> d ∈ concat (m_downloads s) -> dp_index d <> x.
Proof.
  intros Hs Hv Hd. destruct (concat_in_queue s d (ds_four _ _ Hs) Hd) as [q Hq]. by apply (Hv q d).
Qed.

(** What a queue with one more entry holds. *)
Lemma in_queue_add s s' q l1 l2 d :
  downloads_of q s = Some (l1 ++ l2) -> m_downloads s' = <[state_num q := l1 ++ d :: l2]> (m_downloads s) ->
  forall q' e, in_queue s' q' e <-> in_queue s q' e \/ (q' = q /\ e = d).
Proof.
  intros Hl Hds q' e.
  assert (in_queue s' q' e <-> in_queue (set_m_downloads (<[state_num q := l1 ++ d :: l2]> (m_downloads s)) s) q' e) as ->
    by (unfold in_queue, downloads_of; rewrite Hds; done).
  rewrite (in_queue_insert _ _ _ _ _ _ Hl). case_decide as Hq; [subst q'|split; [auto|intros [|[? _]]; done]].
  unfold in_queue. rewrite Hl. rewrite elem_of_app, elem_of_cons. split.
  - intros [He|[->|He]]; [left|by right|left]; (eexists; split; [done|]); rewrite elem_of_app; auto.
  - intros [(l & [= <-] & He)|[_ ->]]; [|by right; left]. rewrite elem_of_app in He. destruct He; auto.
Qed.

Definition new_entry (x k : Z) : downloading_piece := DP x k 0 false 0 false 0 false.

Lemma add_download_piece_spec s n x :
  dl_shape s n -> dl_view s x None -> 0 <= x < num_pieces s -> num_pieces s < we_have_index -> slots_left s ->
  exists ds bi fr n' k it, let s' := set_dl ds bi fr s in
    runs (add_download_piece x) s it s' /\ dl_shape s' n' /\ it_queue it = piece_downloading /\
    points_at s' it (new_entry x k) /\
    slice s' (new_entry x k) = replicate (Z.to_nat (m_blocks_per_piece s)) default_block_info /\
    views_kept s s' x.
Proof.
  intros Hs Hv Hx Hn Hleft. pose proof (ds_bpp _ _ Hs) as Hw. unfold we_have_index in Hn.
  destruct (alloc_blocks_spec s n Hs Hleft) as (ext & fr & k & n' & Hrun1 & Hb1 & Hu1 & Hnn & Hk & Hsl).
  set (s1 := set_m_free_block_infos fr (set_m_block_info (m_block_info s ++ ext) s)) in *.
  assert (exists l, downloads_of piece_downloading s = Some l) as [l Hl].
  { unfold downloads_of. apply lookup_lt_is_Some. rewrite (ds_four _ _ Hs). simpl. lia. }
  destruct (insert_sorted l (new_entry x k)) as (l1 & l2 & -> & Hlb & Hsorted).
  { by eapply queue_sorted. }
  { intros e He. apply (Hv piece_downloading e). by exists l. }
  destruct (reset_blocks_spec (Z.to_nat (m_blocks_per_piece s)) s1 (new_entry x k) 0 n')
    as (bi & Hrun2 & Hlbi & Hoth & Hown); [unfold s1; cbn; lia || done..|].
  assert (forall h, 0 <= h < Z.of_nat n -> h <> k -> group s bi h = group s (m_block_info s) h) as Hgroups.
  { intros h Hh Hhk. change (group s bi h) with (group s1 bi h). rewrite (Hoth h) by (done || lia). unfold group. cbn.
    pose proof (ds_blocks _ _ Hs) as Hbl.
    assert (Z.to_nat h * Z.to_nat (m_blocks_per_piece s) + Z.to_nat (m_blocks_per_piece s) <= length (m_block_info s))%nat by nia.
    rewrite drop_app_le by lia. by rewrite take_app_le by (rewrite length_drop; lia). }
  set (ds := <[state_num piece_downloading := l1 ++ new_entry x k :: l2]> (m_downloads s)).
  pose proof (concat_queue s _ _ Hl) as Hc0.
  assert (concat ds ≡ₚ new_entry x k :: concat (m_downloads s)) as Hc.
  { etransitivity; [by eapply concat_insert|]. rewrite Hc0, <- !app_assoc. simpl. symmetry. apply Permutation_middle. }
  exists ds, bi, fr, n', k, (DlIter piece_downloading (zlen l1)). set (s' := set_dl ds bi fr s).
  pose proof (in_queue_add s s' piece_downloading l1 l2 (new_entry x k) Hl eq_refl) as Hin.
  assert (dl_shape s' n') as Hs'.
  { split; cbn [s' set_dl set_m_free_block_infos set_m_block_info set_m_downloads m_downloads m_free_block_infos].
    - unfold ds. rewrite length_insert. apply Hs.
    - done.
    - change (zlen bi = Z.of_nat n' * m_blocks_per_piece s). rewrite Hlbi. exact Hb1.
    - rewrite Hc. simpl. rewrite <- Hsl. by rewrite Permutation_middle.
    - done.
    - apply Forall_insert; [apply Hs|done].
    - rewrite Hc. simpl. apply NoDup_cons. split; [|apply Hs]. intros Hi.
      apply list_elem_of_fmap in Hi as (e & He & Hd). by eapply (view_none_fresh s n x e).
    - rewrite Hc. constructor; [done|apply Hs]. }
  split_and!; [|done|done| | |].
  - unfold add_download_piece. eapply runs_bind; [exact Hrun1|].
    eapply runs_bind; [apply runs_query; exact Hl|]. cbv beta zeta.
    rewrite !u32_small by lia. unfold u16. rewrite (Z.mod_small k) by lia. fold (new_entry x k).
    change x with (dp_index (new_entry x k)). rewrite Hlb, list_insert_mid.
    eapply runs_bind; [apply runs_gets|]. eapply runs_bind; [exact Hrun2|].
    eapply runs_bind; [|apply runs_ret]. by eapply runs_set_downloads.
  - exists l1, l2. split; [|done]. unfold downloads_of, s', ds. cbn. apply list_lookup_insert_eq.
    apply lookup_lt_Some in Hl. done.
  - rewrite (slice_group s' n') by (done || (simpl; lia)). cbn [new_entry dp_info_idx].
    change (group s1 bi k = replicate (Z.to_nat (m_blocks_per_piece s)) default_block_info).
    apply list_eq. intros i. destruct (decide (i < Z.to_nat (m_blocks_per_piece s))%nat) as [Hi|Hi].
    + specialize (Hown (Z.of_nat i)). cbn [new_entry dp_info_idx] in Hown.
      unfold zget in Hown. rewrite !decide_True, Nat2Z.id in Hown by lia.
      rewrite Hown by (cbn; lia). by rewrite lookup_replicate_2.
    + unfold group. rewrite lookup_take_ge by (cbn; lia). symmetry. apply lookup_ge_None. rewrite length_replicate. lia.
  - intros y [[[q e] bs]|] Hy; simpl.
    + intros (H1 & H2 & H3). split_and!; [|done|].
      * apply Hin. by left.
      * pose proof (in_queue_concat _ _ _ H1) as He. pose proof (entry_slot s n e Hs He) as Hes.
        rewrite H3, (slice_group s n), (slice_group s' n') by (done || lia). symmetry. apply Hgroups; [done|].
        intros Hek. pose proof (NoDup_seqZ 0 (Z.of_nat n')) as Hnd. rewrite <- Hsl in Hnd.
        apply NoDup_app in Hnd as (_ & Hnd & _). apply (Hnd (dp_info_idx e)); [by apply list_elem_of_fmap_2|].
        rewrite Hek. by left.
    + intros H q e He Hey. apply Hin in He as [He|[_ ->]]; [by apply (H q e)|]. simpl in Hey. done.
Qed.

(** ** Moving an entry to another list *)

(** The lists once the entry [d] has been moved from where [it] points to the
    queue [q']. *)
Lemma move_entry_spec s n it d q' :
  dl_shape s n -> points_at s it d -> (state_num q' < 4)%nat ->
  exists l1 l2 ds1 l, downloads_of (it_queue it) s = Some (l1 ++ d :: l2) /\ it_pos it = zlen l1 /\
    ds1 = <[state_num (it_queue it) := l1 ++ l2]> (m_downloads s) /\
    downloads_of q' (set_m_downloads ds1 s) = Some l /\
    let i := lower_bound l (dp_index d) in
    let s' := set_m_downloads (<[state_num q' := list_insert l i d]> ds1) s in
    dl_shape s' n /\ points_at s' (DlIter q' i) d /\ views_kept s s' (dp_index d).
Proof.
  intros Hs (l1 & l2 & Hl & Hpos) Hq'. set (q := it_queue it) in *.
  set (ds1 := <[state_num q := l1 ++ l2]> (m_downloads s)). set (s1 := set_m_downloads ds1 s).
  destruct (in_queue_del s s1 q l1 l2 d Hl eq_refl) as (Hsub & Hkeep & Hperm).
  assert (Forall (StronglySorted dp_lt) (m_downloads s1)) as Hso1.
  { apply Forall_insert; [apply Hs|]. eapply sorted_erase, queue_sorted; [exact Hs|exact Hl]. }
  assert (exists l, downloads_of q' s1 = Some l) as [l Hl'].
  { unfold downloads_of. apply lookup_lt_is_Some. unfold s1, ds1. cbn. rewrite length_insert, (ds_four _ _ Hs). lia. }
  assert (forall e, in_queue s1 q' e -> dp_index e <> dp_index d) as Hne.
  { intros e He Heq. pose proof (ds_once _ _ Hs) as Hnd. rewrite Hperm in Hnd. simpl in Hnd.
    apply NoDup_cons in Hnd as [Hnd _]. apply Hnd. rewrite <- Heq. apply list_elem_of_fmap_2.
    exact (in_queue_concat s1 q' e He). }
  destruct (insert_sorted l d) as (m1 & m2 & -> & Hlb & Hsorted).
  { rewrite Forall_forall in Hso1. apply Hso1. by eapply list_elem_of_lookup_2. }
  { intros e He. apply Hne. by exists l. }
  exists l1, l2, ds1, (m1 ++ m2). split_and!; [done..|].
  cbv zeta. rewrite Hlb, list_insert_mid. set (s' := set_m_downloads _ s).
  pose proof (in_queue_add s1 s' q' m1 m2 d Hl' eq_refl) as Hin.
  assert (concat (m_downloads s') ≡ₚ concat (m_downloads s)) as Hc.
  { rewrite Hperm. change (concat (<[state_num q' := m1 ++ d :: m2]> (m_downloads s1)) ≡ₚ d :: concat (m_downloads s1)).
    rewrite (concat_insert s1 q' _ _ Hl'), (concat_queue s1 q' _ Hl'), <- !app_assoc. simpl.
    symmetry. apply Permutation_middle. }
  split_and!.
  - destruct Hs. split; try done.
    + unfold s', ds1. cbn. by rewrite !length_insert.
    + change (m_free_block_infos s') with (m_free_block_infos s). by rewrite Hc.
    + apply Forall_insert; [exact Hso1|exact Hsorted].
    + by rewrite Hc.
    + by rewrite Hc.
  - exists m1, m2. split; [|done]. apply list_lookup_insert_eq. by apply lookup_lt_Some in Hl'.
  - intros y [[[q2 e] bs]|] Hy; simpl.
    + intros (H1 & H2 & H3). split_and!; [|done|done]. apply Hin. left. apply Hkeep; congruence.
    + intros H q2 e He. apply Hin in He as [He|[_ ->]]; [|done]. apply (H q2 e). by apply Hsub.
Qed.
