(* ===== verification/PickerInvariant.v ===== *)
(** * The invariant of the pick list

    Unless the picker is dirty, the list holds exactly the pieces whose
    priority is not -1, each in the bucket of its priority and at the position
    it knows.  [displaced] is the invariant while one piece is out of place:
    [add], [update] and [remove] restore it. *)

From Stdlib Require Import ZArith Lia.
From stdpp Require Import base numbers list.
From S2P Require Import Prelude PickerState PickerList PickerOps PickerListSpec PickerMoveSpec.
From S2P Require Import PickerUpdateSpec PickerDownloadsSpec.

(** ** The invariant *)

(** The bit fields of a piece that its priority depends on are in range. *)
Definition typed_piece (p : piece_pos) : Prop :=
  0 <= peer_count p < 2 ^ 16 /\ 0 <= piece_prio p < 8.

Record typed (s : picker) : Prop := {
  ty_pieces : Forall typed_piece (m_piece_map s);
  ty_seeds : 0 <= m_seeds s;
  ty_num : num_pieces s < we_have_index;
}.

Record listed (s : picker) (bk : list (list Z)) : Prop := {
  ls_shaped : shaped s bk;
  ls_keyed : forall j y, 0 <= j -> y ∈ bucket bk j <-> priority_of y s = Some j;
}.

Definition list_ok (s : picker) : Prop := m_dirty s = false -> exists bk, listed s bk.

(** The piece [x] is still where its priority [prev] put it. *)
Record displaced (s : picker) (bk : list (list Z)) (x prev : Z) : Prop := {
  di_shaped : shaped s bk;
  di_keyed : forall j y, 0 <= j -> y <> x -> y ∈ bucket bk j <-> priority_of y s = Some j;
  di_piece : forall j, 0 <= j -> x ∈ bucket bk j <-> j = prev;
}.

(** ** Priorities *)

Lemma priority_ge seeds p : typed_piece p -> -1 <= priority seeds p.
Proof.
  intros (Hc & Hp). unfold priority, prio_factor, priority_levels.
  repeat match goal with |- context [if ?b then _ else _] => destruct b end; try lia; nia.
Qed.

Lemma typed_piece_at s x p : typed s -> piece_at x s = Some p -> typed_piece p.
Proof.
  intros [Hp _ _] H. apply zget_elem in H. rewrite Forall_forall in Hp. by apply Hp.
Qed.

Lemma priority_of_ge s x k : typed s -> priority_of x s = Some k -> -1 <= k.
Proof.
  intros Ht H. unfold priority_of in H. destruct (piece_at x s) as [p|] eqn:Hp; [|done].
  injection H as <-. eapply priority_ge, typed_piece_at; eauto.
Qed.

(** A piece with a priority is not had. *)
Lemma priority_placeable s x k : priority_of x s = Some k -> 0 <= k -> placeable s x.
Proof.
  unfold priority_of, placeable. destruct (piece_at x s) as [p|] eqn:Hp; [|done].
  intros [= <-] Hk. exists p. split; [done|]. unfold priority in Hk.
  destruct (have p); [|done]. by rewrite orb_true_r in Hk.
Qed.

Lemma moved_typed s s' : moved s s' -> typed s -> typed s'.
Proof.
  intros Hm [Hp Hs Hn]. split.
  - destruct Hm as [Hm _]. eapply Forall2_Forall_r; [exact Hm|]. eapply Forall_impl; [exact Hp|].
    intros p [H1 H2] p' (Hc & _ & Hpr & _). unfold typed_piece. by rewrite Hc, Hpr.
  - by rewrite (moved_seeds _ _ Hm).
  - unfold num_pieces in *. by rewrite (moved_num _ _ Hm).
Qed.

Lemma moved_dirty s s' : moved s s' -> m_dirty s' = m_dirty s.
Proof. intros [_ ->]. done. Qed.

(** ** The pieces of the list *)

Lemma shaped_valid s bk x : shaped s bk -> x ∈ m_pieces s -> placeable s x.
Proof.
  intros [Hm _ Hi Hv] Hx. pose proof Hx as Hx'. rewrite Hm in Hx'. rewrite Forall_forall in Hv.
  apply list_elem_of_split in Hx as (l1 & l2 & Hl).
  eapply index_at_placeable, indexed_in; [done|exact Hl|by apply Hv].
Qed.

Lemma nodup_bounded (l : list Z) (n : nat) :
  NoDup l -> (forall x, x ∈ l -> 0 <= x < Z.of_nat n) -> (length l <= n)%nat.
Proof.
  intros Hnd Hb. rewrite <- (Nat2Z.id n), <- (length_seqZ 0 (Z.of_nat n)).
  apply submseteq_length, NoDup_submseteq; [done|]. intros x Hx. apply elem_of_seqZ. by apply Hb.
Qed.

Lemma shaped_bounded s bk x : shaped s bk -> x ∈ m_pieces s -> 0 <= x < num_pieces s.
Proof.
  intros Hs Hx. destruct (shaped_valid s bk x Hs Hx) as (p & Hp & _). by apply zget_Some_bound in Hp.
Qed.

Lemma shaped_short s bk : typed s -> shaped s bk -> short_list s.
Proof.
  intros [_ _ Hn] Hs. unfold short_list, num_pieces in *.
  pose proof (nodup_bounded (m_pieces s) _ (shaped_nodup _ _ Hs) (fun x => shaped_bounded s bk x Hs)). lia.
Qed.

(** There is room for one more piece. *)
Lemma shaped_room s bk x :
  typed s -> shaped s bk -> placeable s x -> x ∉ m_pieces s -> zlen (m_pieces s) + 1 < we_have_index.
Proof.
  intros [_ _ Hn] Hs (p & Hp & _) Hx. apply zget_Some_bound in Hp. unfold num_pieces in Hn.
  assert (length (x :: m_pieces s) <= length (m_piece_map s))%nat.
  { apply nodup_bounded; [apply NoDup_cons; split; [done|eapply shaped_nodup, Hs]|].
    intros y [->|Hy]%elem_of_cons; [lia|]. by apply (shaped_bounded s bk y Hs). }
  simpl in *. lia.
Qed.

(** ** Putting a displaced piece in its place *)

Lemma pushed_elem bk x k j y : y ∈ pushed bk x k j <-> (y = x /\ j = k) \/ y ∈ bucket bk j.
Proof.
  unfold pushed. rewrite elem_of_app. case_decide; [rewrite list_elem_of_singleton; tauto|].
  rewrite elem_of_nil. tauto.
Qed.

(** After the move the list is in order, if before it the others were. *)
Lemma listed_pushed s s' bk bk0 bk' x k prev :
  displaced s bk x prev -> moved s s' -> shaped s' bk' -> becomes bk' (pushed bk0 x k) ->
  priority_of x s = Some k ->
  (forall j y, 0 <= j -> y ∈ bucket bk0 j <-> y ∈ bucket bk j /\ y <> x) -> listed s' bk'.
Proof.
  intros [Hs Hk Hx] Hmv Hs' Hbk Hp H0. split; [done|]. intros j y Hj.
  rewrite (moved_priority _ _ y Hmv), (Hbk j Hj), pushed_elem, H0 by done.
  destruct (decide (y = x)) as [->|Hne].
  - rewrite Hp. split; [intros [[_ ->]|[_ ?]]; done|intros [= ->]; by left].
  - rewrite <- (Hk j y Hj Hne). tauto.
Qed.

Lemma displaced_absent s bk x prev : displaced s bk x prev -> prev < 0 -> x ∉ m_pieces s.
Proof.
  intros [[Hm _ _ _] _ Hx] Hp. rewrite Hm, in_bucket. intros (k & Hk & Hin).
  apply Hx in Hin; lia.
Qed.

(** Where a displaced piece is. *)
Lemma displaced_split s bk x prev :
  displaced s bk x prev -> 0 <= prev ->
  exists before l1 l2 after, bk = before ++ (l1 ++ x :: l2) :: after /\ prev = zlen before /\
    index_at s x (zlen (concat before ++ l1)) /\
    (forall j y, 0 <= j -> y ∈ bucket (before ++ (l1 ++ l2) :: after) j <-> y ∈ bucket bk j /\ y <> x).
Proof.
  intros [Hs _ Hx] Hp. pose proof (proj2 (Hx prev Hp) eq_refl) as Hin.
  destruct (decide (prev < zlen bk)) as [Hlt|]; [|rewrite bucket_beyond in Hin by lia; by apply elem_of_nil in Hin].
  destruct (bucket_split bk prev) as (before & B & after & -> & -> & HB); [lia|].
  rewrite HB in Hin. apply list_elem_of_split in Hin as (l1 & l2 & ->).
  exists before, l1, l2, after. pose proof (shaped_nodup _ _ Hs) as Hnd.
  destruct Hs as [Hm _ Hi Hv]. split_and!; [done|done| |].
  - rewrite concat_app in Hm, Hv. simpl in Hm, Hv.
    eapply indexed_in; [done| |].
    + rewrite Hm. by rewrite <- !app_assoc.
    + rewrite !Forall_app, Forall_cons in Hv. tauto.
  - intros j y Hj. destruct (decide (j = zlen before)) as [->|Hne].
    + rewrite !bucket_mid by done. rewrite Hm, concat_app in Hnd. simpl in Hnd.
      rewrite !NoDup_app, NoDup_cons, !elem_of_app, elem_of_cons in *.
      destruct Hnd as (_ & _ & (_ & Hd & Hx2 & _) & _).
      split; [intros [Hy|Hy]; (split; [by eauto|])|tauto].
      * intros ->. apply (Hd x Hy). by left.
      * by intros ->.
    + rewrite (bucket_mid_eq before (l1 ++ x :: l2)) by done. split; [|tauto]. intros Hy. split; [done|].
      intros ->. apply Hne. by apply (Hx j Hj).
Qed.

(** Unless the picker is dirty, the piece [x] is where [prev] put it. *)
Definition lists_at (s : picker) (x prev : Z) : Prop :=
  m_dirty s = false -> exists bk, displaced s bk x prev.

Section random.
Context (random_values : nat -> Z).

Lemma displaced_in_place s bk x k :
  displaced s bk x k -> priority_of x s = Some k -> listed s bk.
Proof.
  intros [Hs Hk Hx] Hp. split; [done|]. intros j y Hj. destruct (decide (y = x)) as [->|Hne]; [|by apply Hk].
  rewrite (Hx j Hj), Hp. split; [by intros ->|by intros [= ->]].
Qed.

(** [add] of a piece that is not in the list. *)
Lemma add_displaced_spec s bk x prev :
  typed s -> displaced s bk x prev -> prev < 0 -> is_Some (priority_of x s) ->
  exists s', runs (add random_values x) s tt s' /\ moved s s' /\ exists bk', listed s' bk'.
Proof.
  intros Ht Hd Hprev [k Hk]. pose proof (priority_of_ge _ _ _ Ht Hk) as Hge.
  destruct (decide (k = -1)) as [->|Hne].
  { exists s. split_and!; [|done|].
    - unfold add. eapply runs_bind; [by apply runs_get_priority|apply runs_ret].
    - exists bk. destruct Hd as [Hs Hkey Hx]. split; [done|]. intros j y Hj.
      destruct (decide (y = x)) as [->|Hne]; [|by apply Hkey]. rewrite (Hx j Hj), Hk.
      split; [intros ->; lia|intros [= <-]; lia]. }
  pose proof (di_shaped _ _ _ _ Hd) as Hs. pose proof (priority_placeable _ _ _ Hk ltac:(lia)) as Hpl.
  pose proof (displaced_absent _ _ _ _ Hd Hprev) as Hx.
  destruct (add_spec random_values s bk x k) as (s' & bk' & Hrun & Hs' & Hmv & Hbk); try done; [lia|by eapply shaped_room|].
  exists s'. split_and!; [done|done|]. exists bk'.
  eapply (listed_pushed s s' bk bk bk' x k prev); try done.
  intros j y Hj. split; [|tauto]. intros Hy. split; [done|]. intros ->.
  apply Hx. rewrite (sh_pieces _ _ _ Hs), in_bucket. exists j. split; [|done].
  destruct (decide (j < zlen bk)); [lia|]. rewrite bucket_beyond in Hy by lia. by apply elem_of_nil in Hy.
Qed.

(** [update] of a piece that was in the list. *)
Lemma update_displaced_spec s bk x prev :
  typed s -> displaced s bk x prev -> 0 <= prev -> is_Some (priority_of x s) ->
  exists s', runs (update_piece_pos random_values prev x) s tt s' /\ moved s s' /\ exists bk', listed s' bk'.
Proof.
  intros Ht Hd Hprev [k Hk]. pose proof (priority_of_ge _ _ _ Ht Hk) as Hge.
  destruct (displaced_split _ _ _ _ Hd Hprev) as (before & l1 & l2 & after & -> & -> & (p & Hp & Hi & _) & Hrest).
  pose proof (di_shaped _ _ _ _ Hd) as Hs.
  destruct (update_spec random_values s before l1 x l2 after k) as (s' & bk' & Hrun & Hs' & Hmv & Hbk);
    [done|by eapply shaped_short|done|done|].
  exists s'. split_and!; [|done|].
  - unfold update_piece_pos. eapply runs_bind; [apply runs_get_piece, Hp|]. by rewrite Hi.
  - exists bk'. by eapply listed_pushed.
Qed.

(** [add] or [update], as the piece was in the list or not. *)
Lemma settle_spec s x prev :
  typed s -> lists_at s x prev -> m_dirty s = false -> -1 <= prev -> is_Some (priority_of x s) ->
  exists s', runs (if prev =? -1 then add random_values x else update_piece_pos random_values prev x) s tt s' /\
    moved s s' /\ list_ok s'.
Proof.
  intros Ht Hl Hdirty Hprev Hk. destruct (Hl Hdirty) as [bk Hbk].
  destruct (Z.eqb_spec prev (-1)) as [->|Hne].
  - destruct (add_displaced_spec s bk x (-1)) as (s' & Hr & Hmv & Hl'); [done..|lia|done|]. exists s'. split_and!; [done|done|by intros _].
  - destruct (update_displaced_spec s bk x prev) as (s' & Hr & Hmv & Hl'); [done..|lia|done|]. exists s'. split_and!; [done|done|by intros _].
Qed.

(** [reposition] restores the invariant, whatever the state of the list. *)
Lemma reposition_spec s x prev :
  typed s -> is_Some (priority_of x s) -> -1 <= prev ->
  lists_at s x prev ->
  exists s', runs (reposition random_values prev x) s tt s' /\ moved s s' /\ list_ok s'.
Proof.
  intros Ht [k Hk] Hprev Hd.
  assert (forall s' v, runs (if k =? prev then mret tt else if m_dirty s then mret tt
    else if prev =? -1 then add random_values x else update_piece_pos random_values prev x) s v s' ->
    runs (reposition random_values prev x) s v s') as Hrun.
  { intros s' v H. unfold reposition. eapply runs_bind; [by apply runs_get_priority|]. cbv beta.
    eapply runs_bind; [apply runs_gets|]. exact H. }
  destruct (Z.eqb_spec k prev) as [->|Hne].
  { exists s. split_and!; [apply Hrun, runs_ret|done|]. intros Hdirty. destruct (Hd Hdirty) as [bk Hbk].
    exists bk. by eapply displaced_in_place. }
  destruct (m_dirty s) eqn:Hdirty.
  { exists s. split_and!; [apply Hrun, runs_ret|done|]. intros H. congruence. }
  destruct (settle_spec s x prev) as (s' & Hr & ?); [done..|by exists k|].
  exists s'. split; [by apply Hrun|done].
Qed.

Lemma lists_at_done s x k : lists_at s x k -> priority_of x s = Some k -> list_ok s.
Proof. intros Hl Hk Hd. destruct (Hl Hd) as [bk Hbk]. exists bk. by eapply displaced_in_place. Qed.

(** The end of the operations that only update a piece that was in the list:
    one that was not cannot have got a priority. *)
Lemma settle_update_spec s x prev b :
  typed s -> lists_at s x prev -> -1 <= prev -> is_Some (priority_of x s) ->
  (prev = -1 -> priority_of x s = Some (-1)) -> b = (0 <=? prev) && negb (m_dirty s) ->
  exists s', runs (when b (update_piece_pos random_values prev x)) s tt s' /\ moved s s' /\ list_ok s'.
Proof.
  intros Ht Hl Hprev Hk Hn ->.
  destruct (Z.leb_spec 0 prev) as [H0|H0]; [destruct (m_dirty s) eqn:Hdirty|]; simpl.
  - exists s. split_and!; [done|done|]. intros ?. congruence.
  - destruct (settle_spec s x prev) as (s' & Hr & ?); try done. exists s'. split; [|done].
    by rewrite (proj2 (Z.eqb_neq _ _)) in Hr by lia.
  - exists s. assert (prev = -1) as -> by lia. split_and!; [done|done|]. by eapply lists_at_done; auto.
Qed.

(** The end of [update_piece_state]. *)
Lemma settle_state_spec s x prev :
  typed s -> lists_at s x prev -> -1 <= prev -> is_Some (priority_of x s) ->
  exists s', runs (
    dirty ← get_dirty;
    if (dirty : bool) then mret tt
    else
      new_prio ← get_priority x;
      if (prev =? -1) && negb (new_prio =? -1) then add random_values x
      else when (negb (prev =? -1)) (update_piece_pos random_values prev x)) s tt s' /\
    moved s s' /\ list_ok s'.
Proof.
  intros Ht Hl Hprev Hk. destruct (m_dirty s) eqn:Hdirty.
  { exists s. split_and!; [|done|intros ?; congruence].
    eapply runs_bind; [apply runs_gets|]. rewrite Hdirty. apply runs_ret. }
  destruct (settle_spec s x prev) as (s' & Hr & Hmv & Hok); try done. destruct Hk as [k Hk].
  destruct (decide (prev = -1 /\ k = -1)) as [[-> ->]|Hne].
  - exists s. split_and!; [|done|by eapply lists_at_done].
    eapply runs_bind; [apply runs_gets|]. rewrite Hdirty. cbv beta iota.
    eapply runs_bind; [by apply runs_get_priority|]. apply runs_ret.
  - exists s'. split_and!; [|done|done].
    eapply runs_bind; [apply runs_gets|]. rewrite Hdirty. cbv beta iota.
    eapply runs_bind; [by apply runs_get_priority|]. cbv beta.
    destruct (Z.eqb_spec prev (-1)) as [->|]; simpl; [|exact Hr].
    rewrite (proj2 (Z.eqb_neq k (-1))) by (intros ->; by apply Hne). exact Hr.
Qed.

(** The end of [abort_download]. *)
Lemma settle_abort_spec s x prev :
  typed s -> lists_at s x prev -> -1 <= prev -> is_Some (priority_of x s) ->
  exists s', runs (
    prio ← get_priority x;
    dirty ← get_dirty;
    if (dirty : bool) then mret tt
    else if (prev =? -1) && (0 <=? prio) then add random_values x
    else when (0 <=? prev) (update_piece_pos random_values prev x)) s tt s' /\
    moved s s' /\ list_ok s'.
Proof.
  intros Ht Hl Hprev [k Hk]. pose proof (priority_of_ge _ _ _ Ht Hk) as Hge.
  destruct (m_dirty s) eqn:Hdirty.
  { exists s. split_and!; [|done|intros ?; congruence]. eapply runs_bind; [by apply runs_get_priority|].
    eapply runs_bind; [apply runs_gets|]. rewrite Hdirty. apply runs_ret. }
  destruct (settle_spec s x prev) as (s' & Hr & Hmv & Hok); [done..|by exists k|].
  destruct (decide (prev = -1 /\ k = -1)) as [[-> ->]|Hne].
  - exists s. split_and!; [|done|by eapply lists_at_done].
    eapply runs_bind; [by apply runs_get_priority|].
    eapply runs_bind; [apply runs_gets|]. rewrite Hdirty. apply runs_ret.
  - exists s'. split_and!; [|done|done].
    eapply runs_bind; [by apply runs_get_priority|]. cbv beta.
    eapply runs_bind; [apply runs_gets|]. rewrite Hdirty. cbv beta iota.
    destruct (Z.eqb_spec prev (-1)) as [->|]; simpl.
    + rewrite (proj2 (Z.leb_le 0 k)) by (destruct (decide (k = -1)); [subst; by destruct Hne|lia]). exact Hr.
    + rewrite (proj2 (Z.leb_le 0 prev)) by lia. exact Hr.
Qed.
End random.

(** ** Changes that leave the list alone *)

(** What the invariant of the list depends on. *)
Definition list_view (s : picker) :=
  (m_piece_map s, m_seeds s, m_pieces s, m_priority_boundries s, m_dirty s).

Lemma listed_displaced s bk x k : listed s bk -> priority_of x s = Some k -> displaced s bk x k.
Proof.
  intros [Hs Hk] Hx. split; [done|auto|]. intros j Hj. rewrite Hk, Hx by done.
  split; [by intros [= ->]|by intros ->].
Qed.

Lemma list_ok_at s x k : list_ok s -> priority_of x s = Some k -> lists_at s x k.
Proof. intros Hl Hk Hd. destruct (Hl Hd) as [bk Hbk]. exists bk. by apply listed_displaced. Qed.

Lemma displaced_view s s' bk x k : list_view s' = list_view s -> displaced s bk x k -> displaced s' bk x k.
Proof.
  intros [= Hm Hsd Hp Hb Hd] [[H1 H2 H3 H4] Hk Hx].
  assert (forall y, piece_at y s' = piece_at y s) as Hat by (intros y; unfold piece_at; by rewrite Hm).
  split; [split| |done]; try congruence.
  - intros i y Hy Hne Hi. rewrite Hp in Hy. destruct (H3 i y Hy Hne Hi) as (p & ? & ?).
    exists p. by rewrite Hat.
  - intros j y Hj Hy. unfold priority_of. rewrite Hat, Hsd. by apply Hk.
Qed.

Lemma lists_at_view s s' x k : list_view s' = list_view s -> lists_at s x k -> lists_at s' x k.
Proof.
  intros Hv Hl Hd. destruct Hl as [bk Hbk]; [injection Hv as; congruence|].
  exists bk. by eapply displaced_view.
Qed.

Lemma listed_view s s' bk : list_view s' = list_view s -> listed s bk -> listed s' bk.
Proof.
  intros [= Hm Hsd Hp Hb Hd] [[H1 H2 H3 H4] Hk].
  assert (forall y, piece_at y s' = piece_at y s) as Hat by (intros y; unfold piece_at; by rewrite Hm).
  split; [split|]; try congruence.
  - intros i y Hy Hne Hi. rewrite Hp in Hy. destruct (H3 i y Hy Hne Hi) as (p & ? & ?).
    exists p. by rewrite Hat.
  - intros j y Hj. unfold priority_of. rewrite Hat, Hsd. by apply Hk.
Qed.

Lemma list_ok_view s s' : list_view s' = list_view s -> list_ok s -> list_ok s'.
Proof.
  intros Hv Hl Hd. destruct Hl as [bk Hbk]; [injection Hv as; congruence|].
  exists bk. by eapply listed_view.
Qed.

(** The piece [x] changed, but not its position. *)
Lemma piece_at_put x p s y :
  is_Some (piece_at x s) -> piece_at y (put_piece x p s) = if decide (x = y) then Some p else piece_at y s.
Proof.
  intros [q Hq]. pose proof (zget_Some_bound _ _ _ Hq) as Hx. unfold piece_at, put_piece.
  apply (zget_zset (m_piece_map s) x p). unfold zset. by rewrite decide_True.
Qed.

Lemma lists_at_put s x p p' k :
  piece_at x s = Some p -> index p' = index p -> lists_at s x k -> lists_at (put_piece x p' s) x k.
Proof.
  intros Hp Hi Hl Hd. destruct (Hl Hd) as [bk [[H1 H2 H3 H4] Hk Hx]]. exists bk.
  assert (forall y, piece_at y (put_piece x p' s) = if decide (x = y) then Some p' else piece_at y s) as Hat
    by (intros y; apply piece_at_put; eauto).
  split; [split| |done]; try done.
  - intros i y Hy Hne Hj. destruct (H3 i y Hy Hne Hj) as (q & Hq & Hqi & Hqh). unfold index_at. rewrite Hat.
    case_decide as Hxy; [|by exists q]. subst y. exists p'. rewrite Hp in Hq. injection Hq as <-.
    unfold have in *. by rewrite Hi.
  - intros j y Hj Hy. unfold priority_of. rewrite Hat, decide_False by done. by apply Hk.
Qed.
