(* ===== verification/PickerRebuildSpec.v ===== *)
(** * Rebuilding the pick list

    [update_pieces] on a picker of any shape: the list it leaves holds the
    pieces of each priority in the bucket of that priority, and clears the
    dirty flag. *)

From Stdlib Require Import ZArith Lia.
From stdpp Require Import base numbers list.
From S2P Require Import Prelude PickerState PickerList PickerOps PickerListSpec PickerMoveSpec.
From S2P Require Import PickerUpdateSpec PickerInvariant.

(** ** The pieces of a priority *)

(** Those among the first [n] pieces with priority [k], in their order. *)
Definition with_priority (s : picker) (k : Z) (n : nat) : list Z :=
  filter (fun y => priority_of y s = Some k) (seqZ 0 (Z.of_nat n)).

Abbreviation rank s k n := (zlen (with_priority s k n)).

Lemma with_priority_S s k n :
  with_priority s k (S n) =
  with_priority s k n ++ (if decide (priority_of (Z.of_nat n) s = Some k) then [Z.of_nat n] else []).
Proof.
  unfold with_priority. rewrite seqZ_S, filter_app, filter_cons, filter_nil. simpl.
  by rewrite Z.add_0_l.
Qed.

Lemma rank_S s k n :
  rank s k (S n) = rank s k n + (if decide (priority_of (Z.of_nat n) s = Some k) then 1 else 0).
Proof. rewrite with_priority_S, length_app. case_decide; simpl; lia. Qed.

Lemma rank_le s k n : rank s k n <= Z.of_nat n.
Proof. induction n as [|n IH]; [done|]. rewrite rank_S. case_decide; lia. Qed.

Lemma rank_mono s k m n : (m <= n)%nat -> rank s k m <= rank s k n.
Proof. induction 1 as [|n _ IH]; [done|]. rewrite rank_S. case_decide; lia. Qed.

Lemma with_priority_elem s k n y :
  y ∈ with_priority s k n <-> priority_of y s = Some k /\ 0 <= y < Z.of_nat n.
Proof. unfold with_priority. by rewrite list_elem_of_filter, elem_of_seqZ. Qed.

(** A piece is found at its rank. *)
Lemma with_priority_rank s k n m :
  (m < n)%nat -> priority_of (Z.of_nat m) s = Some k -> zget (with_priority s k n) (rank s k m) = Some (Z.of_nat m).
Proof.
  intros Hmn Hm. induction n as [|n IH]; [lia|]. rewrite with_priority_S.
  destruct (decide (m = n)) as [->|Hne].
  - rewrite decide_True by done. by apply zget_mid.
  - pose proof (IH ltac:(lia)) as H. pose proof (zget_Some_bound _ _ _ H).
    rewrite zget_app_l by lia. done.
Qed.

(** ** Counting *)

(** The boundaries count the first [n] pieces, each of which knows its rank. *)
Record counted (s0 s : picker) (n : nat) : Prop := {
  ct_moved : moved s0 s;
  ct_counts : forall k, 0 <= k < zlen (m_priority_boundries s) ->
    zget (m_priority_boundries s) k = Some (rank s0 k n);
  ct_beyond : forall k, zlen (m_priority_boundries s) <= k -> rank s0 k n = 0;
  ct_some : m_priority_boundries s <> [];
  ct_ranks : forall m k, (m < n)%nat -> 0 <= k -> priority_of (Z.of_nat m) s0 = Some k ->
    exists p, piece_at (Z.of_nat m) s = Some p /\ index p = rank s0 k m;
}.

Lemma zget_resize (l : list Z) n x i :
  zlen l <= n -> 0 <= i < n -> zget (resize_to n x l) i = if decide (i < zlen l) then zget l i else Some x.
Proof.
  intros Hl Hi. unfold resize_to. rewrite take_ge by lia. case_decide.
  - by rewrite zget_app_l.
  - rewrite zget_app_r by lia. unfold zget. rewrite decide_True by lia.
    by rewrite lookup_replicate_2 by lia.
Qed.

Lemma length_resize {A} (l : list A) n x : zlen l <= n -> zlen (resize_to n x l) = n.
Proof. intros Hl. unfold resize_to. rewrite take_ge, length_app, length_replicate by lia. lia. Qed.

(** The boundaries are made long enough. *)
Lemma counted_resize s0 s n k :
  counted s0 s n -> zlen (m_priority_boundries s) <= k ->
  counted s0 (set_m_priority_boundries (resize_to (k + 1) 0 (m_priority_boundries s)) s) n.
Proof.
  intros [Hmv Hc Hb Hs Hr] Hk. split; [etransitivity; [exact Hmv|apply moved_boundries]|..|done];
    cbn [set_m_priority_boundries m_priority_boundries]; rewrite ?length_resize by lia.
  - intros j Hj. rewrite zget_resize by lia. case_decide; [apply Hc; lia|]. by rewrite Hb by lia.
  - intros j Hj. apply Hb. lia.
  - intros H. apply (f_equal length) in H. pose proof (length_resize (m_priority_boundries s) (k + 1) 0).
    simpl in H. lia.
Qed.

Lemma counted_skip s0 s n k :
  counted s0 s n -> priority_of (Z.of_nat n) s0 = Some k -> k < 0 -> counted s0 s (S n).
Proof.
  intros [Hmv Hc Hb Hs Hr] Hp Hk. split; try done.
  - intros j Hj. rewrite Hc by done. rewrite rank_S, decide_False; [by rewrite Z.add_0_r|].
    rewrite Hp. intros [= ->]. lia.
  - intros j Hj. rewrite rank_S, Hb by done. rewrite decide_False; [done|]. rewrite Hp. intros [= ->]. lia.
  - intros m j Hm Hj Hpm. destruct (decide (m = n)) as [->|]; [|apply Hr; [lia|done..]].
    rewrite Hp in Hpm. injection Hpm as ->. lia.
Qed.

Lemma counted_step s0 s n k :
  typed s0 -> counted s0 s n -> priority_of (Z.of_nat n) s0 = Some k -> 0 <= k < zlen (m_priority_boundries s) ->
  exists s', runs (b ← get_boundry k; _ ← modify_piece (Z.of_nat n) (with_index b); set_boundry k (b + 1)) s tt s' /\
    counted s0 s' (S n).
Proof.
  intros Ht [Hmv Hc Hb Hs Hr] Hp Hk. pose proof (Hc k Hk) as Hck.
  destruct (priority_placeable s (Z.of_nat n) k) as (p & Hpn & Hh); [by rewrite (moved_priority _ _ _ Hmv)|lia|].
  assert (position (rank s0 k n)) as Hpos.
  { pose proof (rank_le s0 k n). split; [lia|]. apply zget_Some_bound in Hpn.
    destruct (moved_typed _ _ Hmv Ht) as [_ _ Hn]. unfold num_pieces in Hn. lia. }
  destruct (modify_piece_index (Z.of_nat n) _ s p Hpn Hh Hpos) as (m & Hrun & Hmv2 & Hat).
  destruct (index_with _ p Hpos) as [Hidx _].
  assert (exists l, zset (m_priority_boundries s) k (rank s0 k n + 1) = Some l) as [l Hl]
    by (unfold zset; rewrite decide_True by done; eauto).
  exists (set_m_priority_boundries l (set_m_piece_map m s)). split.
  { eapply runs_bind; [apply runs_get_boundry, Hck|]. eapply runs_bind; [exact Hrun|].
    unfold runs, set_boundry. cbn. by rewrite Hl. }
  split; cbn [set_m_priority_boundries m_priority_boundries].
  - etransitivity; [exact Hmv|]. etransitivity; [exact Hmv2|apply moved_boundries].
  - rewrite (zset_length _ _ _ _ Hl). intros j Hj. rewrite (zget_zset _ _ _ _ j Hl), rank_S, Hp.
    case_decide as Hkj; [subst j; by rewrite decide_True|].
    rewrite decide_False, Z.add_0_r by congruence. by apply Hc.
  - rewrite (zset_length _ _ _ _ Hl). intros j Hj. rewrite rank_S, Hb, Hp by done.
    rewrite decide_False; [done|]. intros [= ->]. lia.
  - intros ->. apply zset_length in Hl. by destruct (m_priority_boundries s).
  - intros q j Hq Hj Hpq. change (piece_at (Z.of_nat q) (set_m_priority_boundries l (set_m_piece_map m s)))
      with (piece_at (Z.of_nat q) (set_m_piece_map m s)). rewrite Hat. case_decide as Hnq.
    + apply Nat2Z.inj in Hnq. subst q. exists (with_index (rank s0 k n) p). split; [done|]. congruence.
    + apply Hr; [|done..]. lia.
Qed.

Lemma count_priorities_spec n i s0 s :
  typed s0 -> counted s0 s i -> (i + n = length (m_piece_map s0))%nat ->
  exists s', runs (count_priorities n (Z.of_nat i)) s tt s' /\ counted s0 s' (length (m_piece_map s0)).
Proof.
  intros Ht. revert i s. induction n as [|n IH]; intros i s Hc Hn.
  { exists s. split; [apply runs_ret|]. by rewrite <- Hn, Nat.add_0_r. }
  assert (exists k, priority_of (Z.of_nat i) s0 = Some k) as [k Hk].
  { unfold priority_of, piece_at. destruct (zget_is_Some (m_piece_map s0) (Z.of_nat i)) as [p ->]; [lia|]. by eexists. }
  pose proof (priority_of_ge _ _ _ Ht Hk) as Hge.
  assert (runs (get_priority (Z.of_nat i)) s k s) as Hgp
    by (apply runs_get_priority; rewrite (moved_priority _ _ _ (ct_moved _ _ _ Hc)); done).
  assert (exists s1, runs (if k =? -1 then mret tt
     else
       _ ← modify (fun s =>
         if zlen (m_priority_boundries s) <=? k
         then set_m_priority_boundries (resize_to (k + 1) 0 (m_priority_boundries s)) s
         else s);
       b ← get_boundry k;
       _ ← modify_piece (Z.of_nat i) (with_index b);
       set_boundry k (b + 1)) s tt s1 /\ counted s0 s1 (S i)) as (s1 & Hrun1 & Hc1).
  { destruct (Z.eqb_spec k (-1)) as [->|Hne].
    - exists s. split; [apply runs_ret|]. by eapply counted_skip.
    - set (s2 := if zlen (m_priority_boundries s) <=? k
        then set_m_priority_boundries (resize_to (k + 1) 0 (m_priority_boundries s)) s else s).
      assert (counted s0 s2 i /\ k < zlen (m_priority_boundries s2)) as [Hc2 Hlt].
      { unfold s2. destruct (Z.leb_spec (zlen (m_priority_boundries s)) k); [|done].
        split; [by apply counted_resize|]. cbn. rewrite length_resize; lia. }
      destruct (counted_step s0 s2 i k) as (s3 & Hrun & Hc3); [done..|lia|].
      exists s3. split; [|done]. eapply runs_bind; [apply runs_modify|exact Hrun]. }
  destruct (IH (S i) s1 Hc1) as (s2 & Hrun2 & Hc2); [lia|].
  exists s2. split; [|done]. cbn [count_priorities].
  eapply runs_bind; [exact Hgp|]. cbv beta. eapply runs_bind; [exact Hrun1|].
  by replace (Z.of_nat i + 1) with (Z.of_nat (S i)) by lia.
Qed.

(** ** Placing *)

(** The buckets of all pieces, in the order of the pieces. *)
Definition sorted_buckets (s : picker) (len : nat) : list (list Z) :=
  map (fun k => with_priority s k (length (m_piece_map s))) (seqZ 0 (Z.of_nat len)).

Lemma bucket_sorted s len k :
  0 <= k < Z.of_nat len -> bucket (sorted_buckets s len) k = with_priority s k (length (m_piece_map s)).
Proof.
  intros Hk. unfold bucket, sorted_buckets, zget. rewrite decide_True by lia.
  rewrite list_lookup_fmap, lookup_seqZ_lt by lia. simpl. f_equal. lia.
Qed.

Lemma running_sum_lengths acc bk : running_sum acc (map (fun b => zlen b) bk) = bounds acc bk.
Proof.
  revert acc. induction bk as [|b bk IH]; intros acc; [done|]. simpl. rewrite IH.
  by rewrite Z.add_comm.
Qed.

Lemma counted_boundries s0 s :
  counted s0 s (length (m_piece_map s0)) ->
  m_priority_boundries s = map (fun b => zlen b) (sorted_buckets s0 (length (m_priority_boundries s))).
Proof.
  intros [_ Hc _ _ _]. apply list_eq. intros i.
  destruct (decide (i < length (m_priority_boundries s))%nat) as [Hi|Hi].
  - pose proof (Hc (Z.of_nat i)) as Hg. unfold zget in Hg. rewrite decide_True, Nat2Z.id in Hg by lia.
    rewrite Hg by lia. unfold sorted_buckets. rewrite map_map, list_lookup_fmap, lookup_seqZ_lt by lia.
    simpl. do 3 f_equal.
  - rewrite !(proj2 (lookup_ge_None _ _)); [done|..|lia].
    rewrite length_map. unfold sorted_buckets. rewrite length_map, length_seqZ. lia.
Qed.

Lemma bounds_List_last a bk : bk <> [] -> List.last (bounds a bk) 0 = a + zlen (concat bk).
Proof.
  destruct bk as [|b bk _] using rev_ind; [done|]. intros _.
  rewrite bounds_app, concat_app. simpl. rewrite List.last_last, app_nil_r. zlia.
Qed.

(** A position in the concatenation. *)
Lemma zget_concat bk k r x :
  0 <= k -> zget (bucket bk k) r = Some x ->
  zget (concat bk) (zlen (concat (take (Z.to_nat k) bk)) + r) = Some x.
Proof.
  intros Hk Hx. destruct (decide (k < zlen bk)) as [Hlt|]; 
    [|rewrite bucket_beyond in Hx by lia; apply zget_Some_bound in Hx; simpl in Hx; lia].
  destruct (bucket_split bk k) as (before & B & after & -> & -> & HB); [lia|].
  rewrite HB in Hx. rewrite Nat2Z.id, take_app_length, concat_app. simpl.
  rewrite zget_middle; [done|]. by apply zget_Some_bound in Hx.
Qed.

Lemma concat_position bk j :
  0 <= j < zlen (concat bk) ->
  exists k r, 0 <= k < zlen bk /\ 0 <= r < zlen (bucket bk k) /\ j = zlen (concat (take (Z.to_nat k) bk)) + r.
Proof.
  revert j. induction bk as [|b bk IH]; intros j Hj; [simpl in Hj; lia|].
  simpl concat in Hj. rewrite length_app in Hj. destruct (decide (j < zlen b)).
  - exists 0, j. simpl. split_and!; try lia. unfold bucket. simpl. lia.
  - destruct (IH (j - zlen b)) as (k & r & Hk & Hr & Hjk); [lia|]. exists (k + 1), r.
    rewrite bucket_cons by lia. replace (k + 1 - 1) with k by lia. split_and!; [simpl; lia..|].
    replace (Z.to_nat (k + 1)) with (S (Z.to_nat k)) by lia. simpl. rewrite length_app. lia.
Qed.

Lemma start_spec s k bk :
  m_priority_boundries s = bounds 0 bk -> 0 <= k < zlen bk ->
  runs (if k =? 0 then mret 0 else get_boundry (k - 1)) s (zlen (concat (take (Z.to_nat k) bk))) s.
Proof.
  intros Hb Hk. destruct (bucket_split bk k) as (before & B & after & -> & -> & _); [lia|].
  rewrite Nat2Z.id, take_app_length.
  destruct before as [|b before _] using rev_ind; [apply runs_ret|].
  rewrite (proj2 (Z.eqb_neq _ _)) by (rewrite length_app; simpl; lia).
  apply runs_get_boundry. rewrite Hb, bounds_app, zget_app_l by (rewrite length_bounds; lia).
  rewrite bounds_last by (by destruct before). by rewrite Z.add_0_l.
Qed.

(** Every piece so far is at its rank in the bucket of its priority. *)
Record placed (s0 s : picker) (bk : list (list Z)) (n : nat) : Prop := {
  pl_moved : moved s0 s;
  pl_bounds : m_priority_boundries s = bounds 0 bk;
  pl_length : length (m_pieces s) = length (concat bk);
  pl_ranks : forall m k, (m < length (m_piece_map s0))%nat -> 0 <= k -> priority_of (Z.of_nat m) s0 = Some k ->
    exists p, piece_at (Z.of_nat m) s = Some p /\ index p = rank s0 k m;
  pl_pieces : forall m k, (m < n)%nat -> 0 <= k -> priority_of (Z.of_nat m) s0 = Some k ->
    zget (m_pieces s) (zlen (concat (take (Z.to_nat k) bk)) + rank s0 k m) = Some (Z.of_nat m);
}.

Section place.
Context (s0 : picker) (len : nat).
#[local] Notation bk := (sorted_buckets s0 len).
Hypothesis covered : forall m k, 0 <= k -> priority_of m s0 = Some k -> k < Z.of_nat len.

Lemma sorted_length : length bk = len.
Proof. unfold sorted_buckets. rewrite length_map, length_seqZ. lia. Qed.

(** The place of a piece in the sorted list. *)
Lemma sorted_place m k :
  (m < length (m_piece_map s0))%nat -> 0 <= k -> priority_of (Z.of_nat m) s0 = Some k ->
  zget (concat bk) (zlen (concat (take (Z.to_nat k) bk)) + rank s0 k m) = Some (Z.of_nat m).
Proof.
  intros Hm Hk Hp. apply zget_concat; [done|]. rewrite bucket_sorted by eauto.
  by apply with_priority_rank.
Qed.

Lemma priority_of_range m k : priority_of m s0 = Some k -> 0 <= m < Z.of_nat (length (m_piece_map s0)).
Proof.
  unfold priority_of. destruct (piece_at m s0) as [p|] eqn:Hp; [|done]. intros _.
  by apply zget_Some_bound in Hp.
Qed.

(** Two pieces do not share a place. *)
Lemma sorted_place_inj m k m' k' :
  (m < length (m_piece_map s0))%nat -> (m' < length (m_piece_map s0))%nat -> 0 <= k -> 0 <= k' ->
  priority_of (Z.of_nat m) s0 = Some k -> priority_of (Z.of_nat m') s0 = Some k' ->
  zlen (concat (take (Z.to_nat k) bk)) + rank s0 k m =
  zlen (concat (take (Z.to_nat k') bk)) + rank s0 k' m' -> m = m'.
Proof.
  intros Hm Hm' Hk Hk' Hp Hp' Heq. pose proof (sorted_place m k Hm Hk Hp) as H1.
  pose proof (sorted_place m' k' Hm' Hk' Hp') as H2. rewrite Heq, H2 in H1. injection H1. lia.
Qed.

Lemma place_pieces_spec n i s :
  typed s0 -> placed s0 s bk i -> (i + n = length (m_piece_map s0))%nat ->
  exists s', runs (place_pieces n (Z.of_nat i)) s tt s' /\ placed s0 s' bk (length (m_piece_map s0)).
Proof.
  intros Ht. revert i s. induction n as [|n IH]; intros i s Hc Hn.
  { exists s. split; [apply runs_ret|]. by rewrite <- Hn, Nat.add_0_r. }
  assert (exists k, priority_of (Z.of_nat i) s0 = Some k) as [k Hk].
  { unfold priority_of, piece_at. destruct (zget_is_Some (m_piece_map s0) (Z.of_nat i)) as [p ->]; [lia|]. by eexists. }
  pose proof (priority_of_ge _ _ _ Ht Hk) as Hge.
  assert (runs (get_priority (Z.of_nat i)) s k s) as Hgp
    by (apply runs_get_priority; rewrite (moved_priority _ _ _ (pl_moved _ _ _ _ Hc)); done).
  assert (exists s1, runs (if k =? -1 then mret tt
     else
       start ← (if k =? 0 then mret 0 else get_boundry (k - 1));
       p ← get_piece (Z.of_nat i);
       set_pieces_at (start + index p) (Z.of_nat i)) s tt s1 /\ placed s0 s1 bk (S i)) as (s1 & Hrun1 & Hc1).
  { destruct Hc as [Hmv Hb Hl Hr Hpl]. destruct (Z.eqb_spec k (-1)) as [->|Hne].
    - exists s. split; [apply runs_ret|]. split; [done..|]. intros m j Hm Hj Hp.
      destruct (decide (m = i)) as [->|]; [rewrite Hk in Hp; injection Hp as <-; lia|].
      apply Hpl; [lia|done..].
    - destruct (Hr i k) as (p & Hp & Hidx); [lia|lia|done|].
      pose proof (sorted_place i k ltac:(lia) ltac:(lia) Hk) as Hz. apply zget_Some_bound in Hz.
      destruct (zset (m_pieces s) (zlen (concat (take (Z.to_nat k) bk)) + rank s0 k i) (Z.of_nat i)) as [l|] eqn:Hset.
      2:{ unfold zset in Hset. rewrite decide_True in Hset by lia. done. }
      exists (set_m_pieces l s). split.
      + eapply runs_bind; [eapply start_spec; [exact Hb|rewrite sorted_length; split; [lia|eapply covered; [|exact Hk]; lia]]|].
        eapply runs_bind; [by apply runs_get_piece|]. rewrite Hidx. by apply runs_set_pieces_at.
      + split; [etransitivity; [exact Hmv|apply moved_pieces]|done| |exact Hr|].
        * cbn. by rewrite (zset_length _ _ _ _ Hset).
        * intros m j Hm Hj Hpm. cbn. rewrite (zget_zset _ _ _ _ _ Hset). case_decide as Heq.
          -- f_equal. f_equal. eapply (sorted_place_inj i k m j); try done; lia.
          -- apply Hpl; [|done..]. destruct (decide (m = i)) as [->|]; [|lia].
             rewrite Hk in Hpm. by injection Hpm as ->. }
  destruct (IH (S i) s1 Hc1) as (s2 & Hrun2 & Hc2); [lia|].
  exists s2. split; [|done]. cbn [place_pieces].
  eapply runs_bind; [exact Hgp|]. cbv beta. eapply runs_bind; [exact Hrun1|].
  by replace (Z.of_nat i + 1) with (Z.of_nat (S i)) by lia.
Qed.

(** Every position of the sorted list is the place of a piece. *)
Lemma sorted_position i :
  0 <= i < zlen (concat bk) -> exists m k,
    (m < length (m_piece_map s0))%nat /\ 0 <= k < Z.of_nat len /\ priority_of (Z.of_nat m) s0 = Some k /\
    i = zlen (concat (take (Z.to_nat k) bk)) + rank s0 k m.
Proof.
  intros Hi. destruct (concat_position bk i Hi) as (k & r & Hk & Hr & Hik).
  rewrite sorted_length in Hk. rewrite bucket_sorted in Hr by done.
  destruct (zget_is_Some _ _ Hr) as [z Hz].
  pose proof (zget_elem _ _ _ Hz) as Hin. apply with_priority_elem in Hin as [Hpz Hzr].
  exists (Z.to_nat z), k. rewrite Z2Nat.id by lia. split_and!; [lia|lia|lia|done|].
  rewrite Hik. f_equal. rewrite <- (Z2Nat.id z) in Hpz, Hz by lia.
  pose proof (with_priority_rank s0 k (length (m_piece_map s0)) (Z.to_nat z) ltac:(lia) Hpz) as Hz'.
  unfold zget in Hz, Hz'. rewrite decide_True in Hz by lia. rewrite decide_True in Hz' by lia.
  assert (NoDup (with_priority s0 k (length (m_piece_map s0)))) as Hnd by (apply NoDup_filter, NoDup_seqZ).
  pose proof (NoDup_lookup _ _ _ _ Hnd Hz Hz'). lia.
Qed.

Lemma zget_nat {A} (l : list A) i : zget l (Z.of_nat i) = l !! i.
Proof. unfold zget. by rewrite decide_True, Nat2Z.id by lia. Qed.

(** Once all pieces are placed the list is the sorted one. *)
Lemma placed_sorted s : placed s0 s bk (length (m_piece_map s0)) -> m_pieces s = concat bk.
Proof.
  intros [_ _ Hl _ Hp]. apply list_eq_same_length with (n := length (concat bk)); [done|done|].
  intros i x y Hi Hx Hy. destruct (sorted_position (Z.of_nat i)) as (m & k & Hm & Hk & Hpm & Him); [lia|].
  rewrite <- zget_nat, Him in Hx, Hy. rewrite Hp in Hx by (done || lia).
  rewrite sorted_place in Hy by (done || lia). congruence.
Qed.

Lemma sorted_nodup : NoDup (concat bk).
Proof.
  apply NoDup_alt. intros i j x Hi Hj.
  pose proof (lookup_lt_Some _ _ _ Hi). pose proof (lookup_lt_Some _ _ _ Hj).
  destruct (sorted_position (Z.of_nat i)) as (m & k & Hm & Hk & Hpm & Him); [lia|].
  destruct (sorted_position (Z.of_nat j)) as (m' & k' & Hm' & Hk' & Hpm' & Hjm); [lia|].
  rewrite <- zget_nat, Him, sorted_place in Hi by (done || lia).
  rewrite <- zget_nat, Hjm, sorted_place in Hj by (done || lia).
  assert (m = m') as -> by (apply (inj Z.of_nat); congruence).
  rewrite Hpm in Hpm'. injection Hpm' as <-. lia.
Qed.
End place.

(** ** Shuffling the buckets *)

Section random.
Context (random_values : nat -> Z).

(** The list but for the middle, which is permuted. *)
Lemma random_shuffle_spec d P B Q s :
  m_pieces s = P ++ B ++ Q -> length B = d -> zlen B < 2 ^ 32 ->
  exists s' B', runs (random_shuffle random_values d (zlen P)) s tt s' /\
    m_pieces s' = P ++ B' ++ Q /\ B' ≡ₚ B /\
    m_priority_boundries s' = m_priority_boundries s /\ m_piece_map s' = m_piece_map s /\ moved s s'.
Proof.
  revert P B s. induction d as [|d IH]; intros P B s Hm Hd Hlt.
  { exists s, B. by split_and!. }
  destruct d as [|d]; [exists s, B; by split_and!|].
  destruct (runs_randint random_values (Z.of_nat (S (S d))) s) as (i & Hi & Hrun); [lia|].
  set (s1 := set_rng (S (rng s)) s) in *.
  destruct (zget_is_Some B 0) as [a Ha]; [lia|]. destruct (zget_is_Some B i) as [b Hb]; [lia|].
  destruct (zswap_middle P B Q 0 i a b Ha Hb) as (l & B' & Hl & Hl' & HB').
  rewrite Z.add_0_r in Hl. rewrite <- Hm in Hl.
  destruct B' as [|y B']; [by apply Permutation_length in HB'; rewrite Hd in HB'|].
  destruct (IH (P ++ [y]) B' (set_m_pieces (P ++ (y :: B') ++ Q) (set_m_pieces l s1)))
    as (s2 & B2 & Hrun2 & Hm2 & HB2 & Hb2 & Hmap2 & Hmv2).
  { cbn. by rewrite <- app_assoc. }
  { apply Permutation_length in HB'. simpl in HB'. lia. }
  { apply Permutation_length in HB'. simpl in HB'. lia. }
  exists s2, (y :: B2). split_and!; [| |by rewrite HB2|done|done|].
  - cbn [random_shuffle]. eapply runs_bind; [exact Hrun|].
    eapply runs_bind; [apply runs_get_pieces_at; cbn; rewrite Hm; replace (zlen P) with (zlen P + 0) by lia;
      rewrite zget_middle by lia; exact Ha|].
    eapply runs_bind; [apply runs_get_pieces_at; cbn; rewrite Hm, zget_middle by lia; exact Hb|].
    eapply runs_bind; [apply runs_set_pieces_at; exact Hl|].
    eapply runs_bind; [apply runs_set_pieces_at; exact Hl'|].
    by replace (zlen P + 1) with (zlen (P ++ [y])) by zlia.
  - rewrite Hm2. by rewrite <- app_assoc.
  - etransitivity; [apply moved_rng|]. etransitivity; [apply moved_pieces|].
    etransitivity; [apply moved_pieces|exact Hmv2].
Qed.

Lemma shuffle_ranges_spec bk P s :
  m_pieces s = P ++ concat bk -> zlen (m_pieces s) < 2 ^ 32 ->
  exists s' bk', runs (shuffle_ranges random_values (bounds (zlen P) bk) (zlen P)) s tt s' /\
    m_pieces s' = P ++ concat bk' /\ Forall2 (≡ₚ) bk' bk /\
    m_priority_boundries s' = m_priority_boundries s /\ m_piece_map s' = m_piece_map s /\ moved s s'.
Proof.
  revert P s. induction bk as [|B bk IH]; intros P s Hm Hlt.
  { exists s, []. by split_and!. }
  cbn [bounds shuffle_ranges]. simpl concat in Hm.
  assert (zlen (m_pieces s) = zlen P + zlen B + zlen (concat bk)) as Hlen by (rewrite Hm; zlia).
  destruct (random_shuffle_spec (length B) P B (concat bk) s Hm eq_refl)
    as (s1 & B1 & Hrun1 & Hm1 & HB1 & Hb1 & Hmap1 & Hmv1); [lia|].
  pose proof (Permutation_length HB1) as HB1l.
  destruct (IH (P ++ B1) s1) as (s2 & bk2 & Hrun2 & Hm2 & HB2 & Hb2 & Hmap2 & Hmv2).
  { by rewrite Hm1, <- app_assoc. }
  { rewrite Hm1. autorewrite with zlen. rewrite HB1l. lia. }
  replace (zlen (P ++ B1)) with (zlen P + zlen B) in Hrun2 by zlia.
  destruct (Z.eqb_spec (zlen P) (zlen P + zlen B)) as [He|He].
  - assert (B = []) as -> by (destruct B; [done|simpl in He; lia]). destruct B1; [|done].
    rewrite app_nil_r in Hm2. simpl in Hm1. rewrite Z.add_0_r in *.
    destruct (IH P s Hm Hlt) as (s3 & bk3 & Hrun3 & Hm3 & HB3 & ? & ? & ?).
    exists s3, ([] :: bk3). split_and!; try done. by constructor.
  - exists s2, (B1 :: bk2). split_and!; [| | |congruence|congruence|by etransitivity].
    + eapply runs_bind; [|exact Hrun2].
      by replace (Z.to_nat (zlen P + zlen B - zlen P)) with (length B) by lia.
    + rewrite Hm2. simpl. by rewrite <- app_assoc.
    + by constructor.
Qed.

(** ** Indexing *)

Lemma index_pieces_spec l i s :
  0 <= i -> i + zlen l < we_have_index -> NoDup l -> (forall x, x ∈ l -> placeable s x) ->
  exists s', runs (index_pieces l i) s tt s' /\ moved s s' /\ m_pieces s' = m_pieces s /\
    m_priority_boundries s' = m_priority_boundries s /\
    (forall y, y ∉ l -> piece_at y s' = piece_at y s) /\
    forall j x, l !! j = Some x -> index_at s' x (i + Z.of_nat j).
Proof.
  revert i s. induction l as [|x l IH]; intros i s Hi Hlt Hnd Hp.
  { exists s. by split_and!. }
  apply NoDup_cons in Hnd as [Hx Hnd]. simpl length in Hlt.
  destruct (Hp x) as (p & Hpx & Hh); [by left|].
  assert (position i) as Hpos by (unfold position; lia).
  destruct (modify_piece_index x i s p Hpx Hh Hpos) as (m & Hrun & Hmv & Hat).
  destruct (IH (i + 1) (set_m_piece_map m s)) as (s2 & Hrun2 & Hmv2 & Hm2 & Hb2 & Ho2 & Hi2); [lia|lia|done| |].
  { intros y Hy. eapply placeable_moved; [exact Hmv|]. apply Hp. by right. }
  exists s2. split_and!; [|by etransitivity|by rewrite Hm2|by rewrite Hb2| |].
  - cbn [index_pieces]. eapply runs_bind; [exact Hrun|exact Hrun2].
  - intros y Hy. rewrite not_elem_of_cons in Hy. destruct Hy as [Hyx Hyl]. rewrite Ho2 by done. rewrite Hat.
    by rewrite decide_False by done.
  - intros [|j] y Hy; simpl in Hy.
    + injection Hy as <-. exists (with_index i p). rewrite Ho2 by done. rewrite Hat, decide_True by done.
      rewrite Z.add_0_r. split; [done|]. by apply index_with.
    + replace (i + Z.of_nat (S j)) with (i + 1 + Z.of_nat j) by lia. by apply Hi2.
Qed.

(** ** [update_pieces] *)

(** The boundaries [update_pieces] starts to count with. *)
Lemma counted_start s (bs : list Z) :
  bs <> [] -> counted s (set_m_priority_boundries (replicate (length bs) 0) s) 0.
Proof.
  intros Hbs. split; [apply moved_boundries|..]; cbn.
  - intros k Hk. rewrite length_replicate in Hk. unfold zget. rewrite decide_True by lia.
    by rewrite lookup_replicate_2 by lia.
  - done.
  - by destruct bs.
  - lia.
Qed.

Lemma counted_covered s0 s m k :
  counted s0 s (length (m_piece_map s0)) -> 0 <= k -> priority_of m s0 = Some k ->
  k < zlen (m_priority_boundries s).
Proof.
  intros Hc Hk Hp. destruct (decide (k < zlen (m_priority_boundries s))) as [|Hge]; [done|].
  pose proof (ct_beyond _ _ _ Hc k ltac:(lia)) as Hz.
  assert (m ∈ with_priority s0 k (length (m_piece_map s0))) as Hin.
  { apply with_priority_elem. split; [done|]. by eapply priority_of_range. }
  destruct (with_priority s0 k (length (m_piece_map s0))); [by apply elem_of_nil in Hin|simpl in Hz; lia].
Qed.

(** The first half: the sorted list. *)
Lemma sort_spec s :
  typed s ->
  exists s' len, moved s s' /\ m_pieces s' = concat (sorted_buckets s len) /\
    m_priority_boundries s' = bounds 0 (sorted_buckets s len) /\
    (forall m k, 0 <= k -> priority_of m s = Some k -> k < Z.of_nat len) /\
    forall (m : M unit) v s'', runs m s' v s'' -> runs (
      _ ← modify (fun s => match m_priority_boundries s with
                           | [] => set_m_priority_boundries [0] s | _ => s end);
      _ ← modify (fun s => set_m_priority_boundries
                             (replicate (length (m_priority_boundries s)) 0) s);
      n ← gets (fun s => length (m_piece_map s));
      _ ← count_priorities n 0;
      _ ← modify (fun s => set_m_priority_boundries (running_sum 0 (m_priority_boundries s)) s);
      _ ← modify (fun s => set_m_pieces
                             (resize_to (List.last (m_priority_boundries s) 0) 0 (m_pieces s)) s);
      _ ← place_pieces n 0; m) s v s''.
Proof.
  intros Ht. set (bs := match m_priority_boundries s with [] => [0] | l => l end).
  assert (bs <> []) as Hbs by (unfold bs; by destruct (m_priority_boundries s)).
  set (s1 := set_m_priority_boundries (replicate (length bs) 0) s).
  destruct (count_priorities_spec (length (m_piece_map s)) 0 s s1 Ht (counted_start s bs Hbs) eq_refl)
    as (s2 & Hrun2 & Hc2).
  set (len := length (m_priority_boundries s2)). set (bk := sorted_buckets s len).
  set (s3 := set_m_priority_boundries (bounds 0 bk) s2).
  set (s4 := set_m_pieces (resize_to (zlen (concat bk)) 0 (m_pieces s3)) s3).
  assert (len <> 0%nat) as Hlen by (unfold len; pose proof (ct_some _ _ _ Hc2); by destruct (m_priority_boundries s2)).
  assert (placed s s4 bk 0) as Hp4.
  { split; [|done| | |lia].
    - etransitivity; [apply (ct_moved _ _ _ Hc2)|]. etransitivity; [apply moved_boundries|apply moved_pieces].
    - unfold s4. cbn. unfold resize_to. rewrite length_app, length_take, length_replicate. lia.
    - exact (ct_ranks _ _ _ Hc2). }
  assert (forall m k, 0 <= k -> priority_of m s = Some k -> k < Z.of_nat len) as Hcov
    by (intros m k; by apply counted_covered).
  destruct (place_pieces_spec s len Hcov (length (m_piece_map s)) 0 s4 Ht Hp4 eq_refl) as (s5 & Hrun5 & Hp5).
  exists s5, len. split_and!; [apply Hp5|by eapply placed_sorted|apply Hp5|done|].
  intros m v s'' Hm. eapply runs_bind; [apply runs_modify|]. cbv beta.
  eapply runs_bind; [apply runs_modify|]. cbv beta.
  assert (set_m_priority_boundries (replicate (length (m_priority_boundries
     match m_priority_boundries s with [] => set_m_priority_boundries [0] s | _ => s end)) 0)
     match m_priority_boundries s with [] => set_m_priority_boundries [0] s | _ => s end = s1) as ->
    by (unfold s1, bs; destruct (m_priority_boundries s) eqn:E; rewrite ?E; done).
  eapply runs_bind; [apply runs_gets|]. change (m_piece_map s1) with (m_piece_map s).
  eapply runs_bind; [exact Hrun2|]. eapply runs_bind; [apply runs_modify|]. cbv beta.
  eapply runs_bind; [apply runs_modify|]. cbv beta.
  rewrite (counted_boundries _ _ Hc2), running_sum_lengths. fold len bk s3.
  cbn [s3 set_m_priority_boundries m_priority_boundries]. fold s3. rewrite bounds_List_last.
  - rewrite Z.add_0_l. fold s4. eapply runs_bind; [exact Hrun5|exact Hm].
  - intros Hnil. apply (f_equal length) in Hnil. unfold bk in Hnil. rewrite sorted_length in Hnil. done.
Qed.

Lemma update_pieces_run s :
  typed s ->
  exists s' bk, runs (update_pieces random_values) s tt (set_m_dirty false s') /\ moved s s' /\ listed s' bk.
Proof.
  intros Ht. destruct (sort_spec s Ht) as (s1 & len & Hmv1 & Hm1 & Hb1 & Hcov & Hrun1).
  pose proof (sorted_nodup s len Hcov) as Hnd.
  assert (forall y j, 0 <= j -> y ∈ bucket (sorted_buckets s len) j <-> priority_of y s = Some j) as Hkey.
  { intros y j Hj. destruct (decide (j < Z.of_nat len)) as [Hlt|Hge].
    - rewrite bucket_sorted, with_priority_elem by done. split; [tauto|]. intros Hp. split; [done|].
      by eapply priority_of_range.
    - rewrite bucket_beyond by (rewrite sorted_length; lia). split; [intros Hy; by apply elem_of_nil in Hy|].
      intros Hp. specialize (Hcov y j Hj Hp). lia. }
  assert (forall x, x ∈ concat (sorted_buckets s len) -> placeable s1 x) as Hpl.
  { intros x Hx. eapply placeable_moved; [exact Hmv1|]. apply in_bucket in Hx as (k & Hk & Hx).
    apply Hkey in Hx; [|lia]. eapply priority_placeable; [exact Hx|lia]. }
  assert (length (concat (sorted_buckets s len)) <= length (m_piece_map s1))%nat as Hlen.
  { apply nodup_bounded; [done|]. intros x Hx. destruct (Hpl x Hx) as (p & Hp & _).
    by apply zget_Some_bound in Hp. }
  pose proof (ty_num _ (moved_typed _ _ Hmv1 Ht)) as Hnum. unfold num_pieces, we_have_index in Hnum.
  destruct (shuffle_ranges_spec (sorted_buckets s len) [] s1 Hm1) as
    (s2 & bk & Hrun2 & Hm2 & HB & Hb2 & Hmap2 & Hmv2); [rewrite Hm1; lia|].
  simpl in Hm2. assert (concat bk ≡ₚ concat (sorted_buckets s len)) as Hperm.
  { clear -HB. induction HB as [|b b' l l' Hb _ IH]; [done|]. simpl. by rewrite Hb, IH. }
  destruct (index_pieces_spec (m_pieces s2) 0 s2) as (s3 & Hrun3 & Hmv3 & Hm3 & Hb3 & _ & Hi3).
  { done. }
  { rewrite Hm2, Hperm. unfold we_have_index. lia. }
  { by rewrite Hm2, Hperm. }
  { intros x Hx. eapply placeable_moved; [exact Hmv2|]. apply Hpl. by rewrite <- Hperm, <- Hm2. }
  assert (moved s s3) as Hmv by (etransitivity; [exact Hmv1|]; by etransitivity).
  exists s3, bk. split_and!; [|done|split; [split|]].
  - unfold update_pieces. apply Hrun1. eapply runs_bind; [apply runs_gets|]. rewrite Hb1.
    eapply runs_bind; [exact Hrun2|]. eapply runs_bind; [apply runs_gets|].
    eapply runs_bind; [exact Hrun3|apply runs_modify].
  - by rewrite Hm3.
  - rewrite Hb3, Hb2, Hb1. apply bounds_length. clear -HB. induction HB; constructor; [|done].
    symmetry. by apply Permutation_length.
  - intros i x Hx _ _. pose proof (zget_Some_bound _ _ _ Hx) as Hix. rewrite Hm3 in Hx.
    rewrite <- (Z2Nat.id i) in Hx |- * by lia. rewrite zget_nat in Hx. apply (Hi3 _ _ Hx).
  - rewrite Forall_forall. intros x Hx. rewrite Hperm in Hx. pose proof (placeable_nonneg _ _ (Hpl x Hx)). lia.
  - intros j y Hj. rewrite (moved_priority _ _ y Hmv), <- Hkey by done. by rewrite (bucket_perm _ _ j HB).
Qed.
End random.
