(* ===== verification/PickerFrame.v ===== *)
(** * The cursors and the counters

    [m_cursor] is the first piece that is wanted, neither had nor filtered,
    and [m_reverse_cursor] one past the last; [init] scans for them, and the
    operations that change whether a piece is wanted move them. *)

From Stdlib Require Import ZArith Lia.
From stdpp Require Import base numbers sorting list.
From S2P Require Import Prelude PickerState PickerList PickerOps PickerQuery PickerListSpec.
From S2P Require Import PickerUpdateSpec PickerDownloadsSpec PickerInvariant PickerRebuildSpec.

(** ** Scanning *)

(** The first wanted piece from [a] on, and one past the last before [b]. *)
Definition first_wanted (l : list piece_pos) (a c : Z) : Prop :=
  a <= c <= zlen l /\ (forall i p, a <= i < c -> zget l i = Some p -> unwanted p = true) /\
  (forall p, zget l c = Some p -> unwanted p = false).

Definition last_wanted (l : list piece_pos) (b c : Z) : Prop :=
  0 <= c <= b /\ (forall i p, c <= i < b -> zget l i = Some p -> unwanted p = true) /\
  (0 < c -> forall p, zget l (c - 1) = Some p -> unwanted p = false).

Lemma count_while_spec {A} (f : A -> bool) l :
  0 <= count_while f l <= zlen l /\
  (forall i x, 0 <= i < count_while f l -> zget l i = Some x -> f x = true) /\
  (forall x, zget l (count_while f l) = Some x -> f x = false).
Proof.
  induction l as [|x l (IH1 & IH2 & IH3)]; simpl count_while; [split_and!; try done; lia|].
  destruct (f x) eqn:E.
  - split_and!; [lia|simpl; lia| |].
    + intros i y Hi Hy. destruct (decide (i = 0)) as [->|]; [by injection Hy as <-|].
      apply (IH2 (i - 1) y); [lia|]. rewrite (zget_app_r [x] l) in Hy by (simpl; lia). done.
    + intros y Hy. apply IH3. rewrite (zget_app_r [x] l) in Hy by (simpl; lia).
      rewrite <- Hy. f_equal. simpl. lia.
  - split_and!; [lia|simpl; lia|lia|]. intros y Hy. by injection Hy as <-.
Qed.

Lemma zget_drop_at {A} (l : list A) a i : 0 <= a -> 0 <= i -> zget (drop (Z.to_nat a) l) i = zget l (a + i).
Proof.
  intros Ha Hi. unfold zget. rewrite !decide_True by lia. rewrite lookup_drop. f_equal. lia.
Qed.

Lemma zget_rev_take {A} (l : list A) b i :
  0 <= b <= zlen l -> 0 <= i < b -> zget (List.rev (take (Z.to_nat b) l)) i = zget l (b - 1 - i).
Proof.
  intros Hb Hi. unfold zget. rewrite !decide_True by lia. rewrite List.rev_alt. fold (reverse (take (Z.to_nat b) l)).
  rewrite reverse_lookup by (rewrite length_take; lia). rewrite length_take.
  rewrite lookup_take_lt by lia. f_equal. lia.
Qed.

Lemma skip_unwanted_spec l a : 0 <= a <= zlen l -> first_wanted l a (skip_unwanted l a).
Proof.
  intros Ha. unfold first_wanted, skip_unwanted.
  destruct (count_while_spec unwanted (drop (Z.to_nat a) l)) as (H1 & H2 & H3).
  rewrite length_drop in H1. split_and!; [lia|lia| |].
  - intros i p Hi Hp. apply (H2 (i - a)); [lia|]. rewrite zget_drop_at by lia.
    by replace (a + (i - a)) with i by lia.
  - intros p Hp. apply H3. by rewrite zget_drop_at by lia.
Qed.

Lemma skip_unwanted_back_spec l b : 0 <= b <= zlen l -> last_wanted l b (skip_unwanted_back l b).
Proof.
  intros Hb. unfold last_wanted, skip_unwanted_back.
  destruct (count_while_spec unwanted (List.rev (take (Z.to_nat b) l))) as (H1 & H2 & H3).
  rewrite List.length_rev, length_take in H1. split_and!; [lia|lia| |].
  - intros i p Hi Hp. apply (H2 (b - 1 - i)); [lia|]. rewrite zget_rev_take by lia.
    by replace (b - 1 - (b - 1 - i)) with i by lia.
  - intros Hc p Hp. apply H3. rewrite zget_rev_take by lia. rewrite <- Hp. f_equal. lia.
Qed.

Lemma first_wanted_unique l a c c' : 0 <= a -> first_wanted l a c -> first_wanted l a c' -> c = c'.
Proof.
  intros Ha H H'. enough (forall c c', c < c' -> first_wanted l a c -> first_wanted l a c' -> False) as Hlt.
  { destruct (Z.lt_trichotomy c c') as [|[|]]; [exfalso|done|exfalso]; eauto. }
  clear -Ha. intros c c' Hlt (H1 & H2 & H3) (H1' & H2' & H3').
  destruct (zget_is_Some l c) as [p Hp]; [lia|].
  specialize (H3 p Hp). rewrite (H2' c p) in H3 by (lia || done). done.
Qed.

Lemma last_wanted_unique l b c c' : b <= zlen l -> last_wanted l b c -> last_wanted l b c' -> c = c'.
Proof.
  intros Hb H H'. enough (forall c c', c < c' -> last_wanted l b c -> last_wanted l b c' -> False) as Hlt.
  { destruct (Z.lt_trichotomy c c') as [|[|]]; [exfalso|done|exfalso]; eauto. }
  clear -Hb. intros c c' Hlt (H1 & H2 & H3) (H1' & H2' & H3').
  destruct (zget_is_Some l (c' - 1)) as [p Hp]; [lia|].
  specialize (H3' ltac:(lia) p Hp). rewrite (H2 (c' - 1) p) in H3' by (lia || done). done.
Qed.

(** ** The cursors *)

Definition cursors_ok (s : picker) : Prop :=
  first_wanted (m_piece_map s) 0 (m_cursor s) /\
  last_wanted (m_piece_map s) (num_pieces s) (m_reverse_cursor s).

Lemma cursors_scan s :
  cursors_ok s <-> m_cursor s = skip_unwanted (m_piece_map s) 0 /\
    m_reverse_cursor s = skip_unwanted_back (m_piece_map s) (num_pieces s).
Proof.
  pose proof (skip_unwanted_spec (m_piece_map s) 0 ltac:(lia)) as H1.
  pose proof (skip_unwanted_back_spec (m_piece_map s) (num_pieces s)) as H2. unfold num_pieces in *.
  specialize (H2 ltac:(lia)). split.
  - intros [H3 H4]. split; [by eapply (first_wanted_unique _ 0)|by eapply last_wanted_unique].
  - intros [Hc Hr]. unfold cursors_ok, num_pieces. rewrite Hc, Hr. by split.
Qed.

(** The cursors are apart, or at the two ends. *)
Lemma cursors_order s :
  cursors_ok s -> m_cursor s < m_reverse_cursor s \/ (m_cursor s = num_pieces s /\ m_reverse_cursor s = 0).
Proof.
  intros [(H1 & H2 & H3) (H4 & H5 & H6)]. unfold num_pieces in *.
  destruct (decide (m_cursor s < m_reverse_cursor s)) as [|Hge]; [by left|]. right.
  assert (m_reverse_cursor s = 0) as Hr.
  { destruct (decide (m_reverse_cursor s = 0)) as [|Hne]; [done|].
    destruct (zget_is_Some (m_piece_map s) (m_reverse_cursor s - 1)) as [p Hp]; [lia|].
    specialize (H6 ltac:(lia) p Hp). rewrite (H2 (m_reverse_cursor s - 1) p) in H6 by (lia || done). done. }
  split; [|done]. destruct (decide (m_cursor s = zlen (m_piece_map s))) as [|Hne]; [done|].
  destruct (zget_is_Some (m_piece_map s) (m_cursor s)) as [p Hp]; [lia|].
  specialize (H3 p Hp). rewrite (H5 (m_cursor s) p) in H3 by (lia || done). done.
Qed.

(** Two lists that differ in the piece [x] only. *)
Definition differ_at (l l' : list piece_pos) (x : Z) : Prop :=
  length l' = length l /\ forall i, i <> x -> zget l' i = zget l i.

Section wanted.
Context (l l' : list piece_pos) (x : Z) (p p' : piece_pos).
Hypothesis Hd : differ_at l l' x.
Hypothesis Hp : zget l x = Some p.
Hypothesis Hp' : zget l' x = Some p'.

Lemma differ_get i q : zget l' i = Some q -> (i = x /\ q = p') \/ (i <> x /\ zget l i = Some q).
Proof.
  intros Hq. destruct (decide (i = x)) as [->|Hi].
  - left. split; [done|]. congruence.
  - right. split; [done|]. by rewrite <- (proj2 Hd i Hi).
Qed.

Lemma first_lose c :
  unwanted p' = true -> c <> x -> first_wanted l 0 c -> first_wanted l' 0 c.
Proof.
  intros Hw Hc (H1 & H2 & H3). destruct Hd as [Hl _]. split_and!; [lia|lia| |].
  - intros i q Hi [[-> ->]|[_ Hq]]%differ_get; [done|by apply (H2 i)].
  - intros q [[Heq ->]|[_ Hq]]%differ_get; [done|by apply H3].
Qed.

Lemma first_lose_at m c :
  unwanted p' = true -> differ_at m l' x -> first_wanted l 0 x -> first_wanted m (x + 1) c -> first_wanted l' 0 c.
Proof.
  intros Hw [Hl Hm] (H1 & H2 & _) (H4 & H5 & H6). destruct Hd as [Hl2 _].
  apply zget_Some_bound in Hp as Hx. split_and!; [lia|lia| |].
  - intros i q Hi Hq. destruct (decide (i <= x)).
    + apply differ_get in Hq as [[-> ->]|[Hne Hq]]; [done|]. apply (H2 i q); [lia|done].
    + rewrite Hm in Hq by lia. apply (H5 i q); [lia|done].
  - intros q Hq. rewrite Hm in Hq by lia. by apply H6.
Qed.

Lemma last_lose c :
  unwanted p' = true -> c - 1 <> x -> last_wanted l (zlen l) c -> last_wanted l' (zlen l') c.
Proof.
  intros Hw Hc (H1 & H2 & H3). destruct Hd as [Hl _]. split_and!; [lia|lia| |].
  - intros i q Hi [[-> ->]|[_ Hq]]%differ_get; [done|]. apply (H2 i); [lia|done].
  - intros H0 q [[Heq ->]|[_ Hq]]%differ_get; [done|by apply H3].
Qed.

Lemma last_lose_at m c :
  unwanted p' = true -> differ_at m l' x -> last_wanted l (zlen l) (x + 1) -> last_wanted m x c ->
  last_wanted l' (zlen l') c.
Proof.
  intros Hw [Hl Hm] (H1 & H2 & _) (H4 & H5 & H6). destruct Hd as [Hl2 _]. split_and!; [lia|lia| |].
  - intros i q Hi Hq. destruct (decide (x <= i)).
    + apply differ_get in Hq as [[-> ->]|[Hne Hq]]; [done|]. apply (H2 i q); [lia|done].
    + rewrite Hm in Hq by lia. apply (H5 i q); [lia|done].
  - intros H0 q Hq. rewrite Hm in Hq by lia. by apply H6.
Qed.

Lemma first_gain c :
  unwanted p = true -> unwanted p' = false -> first_wanted l 0 c -> first_wanted l' 0 (Z.min x c).
Proof.
  intros Hu Hw (H1 & H2 & H3). destruct Hd as [Hl _]. apply zget_Some_bound in Hp as Hx.
  split_and!; [lia|lia| |].
  - intros i q Hi [[-> ->]|[_ Hq]]%differ_get; [lia|]. apply (H2 i); [lia|done].
  - intros q [[Heq ->]|[Hne Hq]]%differ_get; [done|]. apply H3.
    by replace c with (Z.min x c) by lia.
Qed.

Lemma last_gain c :
  unwanted p = true -> unwanted p' = false -> last_wanted l (zlen l) c ->
  last_wanted l' (zlen l') (Z.max (x + 1) c).
Proof.
  intros Hu Hw (H1 & H2 & H3). destruct Hd as [Hl _]. apply zget_Some_bound in Hp as Hx.
  split_and!; [lia|lia| |].
  - intros i q Hi [[-> ->]|[_ Hq]]%differ_get; [lia|]. apply (H2 i); [lia|done].
  - intros H0 q [[Heq ->]|[Hne Hq]]%differ_get; [done|]. apply H3; [lia|].
    by replace c with (Z.max (x + 1) c) by lia.
Qed.

(** The cursors at [x] are the piece's if it is wanted. *)
Lemma wanted_between c r :
  unwanted p = false -> first_wanted l 0 c -> last_wanted l (zlen l) r -> c <= x < r.
Proof.
  intros Hw (H1 & H2 & _) (H4 & H5 & _). apply zget_Some_bound in Hp as Hx.
  destruct (decide (x < c)); [rewrite (H2 x p) in Hw by (lia || done); done|].
  destruct (decide (r <= x)); [rewrite (H5 x p) in Hw by (lia || done); done|]. lia.
Qed.
End wanted.

(** The piece [x] is not wanted any more.  The loops read the pieces of [s],
    which may have the old or the new piece there. *)
Lemma cursors_lose_spec l l' s x p p' :
  differ_at l l' x -> differ_at (m_piece_map s) l' x ->
  zget l x = Some p -> zget l' x = Some p' -> unwanted p = false -> unwanted p' = true ->
  first_wanted l 0 (m_cursor s) -> last_wanted l (zlen l) (m_reverse_cursor s) ->
  first_wanted l' 0 (m_cursor (cursors_lose x s)) /\
  last_wanted l' (zlen l') (m_reverse_cursor (cursors_lose x s)).
Proof.
  intros Hd Hd2 Hp Hp' Hw Hw' Hf Hr. pose proof (wanted_between l x p Hp _ _ Hw Hf Hr) as Hb.
  pose proof (zget_Some_bound _ _ _ Hp) as Hx.
  assert (zlen (m_piece_map s) = zlen l) as Hl by (destruct Hd as [<- _], Hd2 as [<- _]; done).
  unfold cursors_lose.
  destruct (Z.eqb_spec (m_cursor s) x) as [Hc|Hc].
  - rewrite andb_true_r. subst x. rewrite Hl. pose proof (proj1 Hd) as Hll.
    destruct (Z.eqb_spec (m_cursor s) (m_reverse_cursor s - 1)) as [Hcr|Hcr]; cbn.
    + destruct Hr as (R1 & R2 & R3). destruct Hf as (F1 & F2 & F3). split.
      * eapply (first_lose_at l l' _ p p' Hd Hp Hp' (m_piece_map s)); try done.
        split_and!; [lia|lia| |intros q Hq; apply zget_Some_bound in Hq; lia].
        intros i q Hi Hq. rewrite <- (proj2 Hd2), (proj2 Hd) in Hq by lia. apply (R2 i q); [lia|done].
      * eapply (last_lose_at l l' _ p' Hd Hp' (m_piece_map s)); try done.
        -- replace (m_cursor s + 1) with (m_reverse_cursor s) by lia. done.
        -- split_and!; [lia|lia| |lia].
           intros i q Hi Hq. rewrite <- (proj2 Hd2), (proj2 Hd) in Hq by lia. apply (F2 i q); [lia|done].
    + split; [|eapply (last_lose l l' _ p'); try done; lia].
      eapply (first_lose_at l l' _ p p' Hd Hp Hp' (m_piece_map s)); try done.
      apply skip_unwanted_spec. lia.
  - rewrite andb_false_r. split.
    + destruct (_ =? x); cbn; eapply (first_lose l l' x p'); done.
    + destruct (Z.eqb_spec (m_reverse_cursor s - 1) x) as [Hcr|Hcr]; cbn.
      * subst x. eapply (last_lose_at l l' _ p' Hd Hp' (m_piece_map s)); try done.
        -- replace (m_reverse_cursor s - 1 + 1) with (m_reverse_cursor s) by lia. done.
        -- apply skip_unwanted_back_spec. lia.
      * eapply (last_lose l l' x p'); done.
Qed.

(** The piece [x] is wanted now. *)
Lemma cursors_gain_spec l l' s x p p' :
  differ_at l l' x -> zlen (m_piece_map s) = zlen l ->
  zget l x = Some p -> zget l' x = Some p' -> unwanted p = true -> unwanted p' = false ->
  first_wanted l 0 (m_cursor s) -> last_wanted l (zlen l) (m_reverse_cursor s) ->
  first_wanted l' 0 (m_cursor (cursors_gain x s)) /\
  last_wanted l' (zlen l') (m_reverse_cursor (cursors_gain x s)).
Proof.
  intros Hd Hl Hp Hp' Hw Hw' Hf Hr. pose proof (zget_Some_bound _ _ _ Hp) as Hx.
  pose proof (first_gain l l' x p p' Hd Hp Hp' _ Hw Hw' Hf) as Hf'.
  pose proof (last_gain l l' x p p' Hd Hp Hp' _ Hw Hw' Hr) as Hr'.
  assert (m_cursor (cursors_gain x s) = Z.min x (m_cursor s) /\
    m_reverse_cursor (cursors_gain x s) = Z.max (x + 1) (m_reverse_cursor s)) as [-> ->]; [|done].
  unfold cursors_gain.
  destruct (Z.ltb_spec x (m_cursor s)); destruct (Z.leb_spec (m_reverse_cursor s) x); cbn;
    repeat match goal with |- context [if ?a <=? ?b then _ else _] => destruct (Z.leb_spec a b) end; cbn;
    repeat match goal with |- context [if ?a =? ?b then _ else _] => destruct (Z.eqb_spec a b) end; cbn; lia.
Qed.

(** * The invariant of the picker

    [invariant] is what [check_invariant] checks, as a proposition: the pick
    list, the cursors and counters, and for every piece that is being
    downloaded one entry whose counts and state agree with its blocks.
    [touched x] is what an operation on the piece [x] leaves alone. *)

(** ** The blocks of an entry *)

(** How many blocks are in the state [st]. *)
Definition tally (st : block_state) (l : list block_info) : Z := zlen (filter (fun b => bstate b = st) l).

Definition peers_ok (b : block_info) : Prop :=
  if decide (bstate b = state_requested) then 0 < num_peers b < 2 ^ 14 else num_peers b = 0.

(** The counts of an entry of a piece with [n] blocks. *)
Record counts_ok (d : downloading_piece) (bs : list block_info) : Prop := {
  co_requested : dp_requested d = tally state_requested bs;
  co_writing : dp_writing d = tally state_writing bs;
  co_finished : dp_finished d = tally state_finished bs;
  co_peers : Forall peers_ok bs;
}.

Definition used (d : downloading_piece) : Z := dp_requested d + dp_finished d + dp_writing d.

(** The list a piece belongs in. *)
Definition expected_queue (p : piece_pos) (d : downloading_piece) (n : Z) : state_t :=
  if filtered p then piece_zero_prio
  else if used d <? n then piece_downloading
  else if 0 <? dp_requested d then piece_full
  else piece_finished.

(** The entry is in this list, and one of its blocks is used. *)
Definition placed (q : state_t) (p : piece_pos) (d : downloading_piece) (n : Z) : Prop :=
  q = expected_queue p d n /\ used d <> 0.

(** What the piece and its entry say of each other. *)
Definition piece_ok (n : Z) (p : piece_pos) (o : option entry) : Prop :=
  match o with
  | None => download_state p = piece_open
  | Some (q, d, bs) =>
      download_queue p = q /\ have p = false /\ placed q p d n /\ counts_ok d (take (Z.to_nat n) bs)
  end.

(** ** The invariant *)

Definition counters_ok (s : picker) : Prop :=
  m_num_have s = count_pieces have s /\
  m_num_filtered s = count_pieces (fun p => filtered p && negb (have p)) s /\
  m_num_have_filtered s = count_pieces (fun p => filtered p && have p) s.

Definition pieces_ok (s : picker) : Prop :=
  forall x p, piece_at x s = Some p -> exists o, dl_view s x o /\ piece_ok (blocks_in_piece x s) p o.

Record invariant (s : picker) : Prop := {
  in_typed : typed s;
  in_list : list_ok s;
  in_cursors : cursors_ok s;
  in_counters : counters_ok s;
  in_downloads : dl_ok s;
  in_last : 0 < m_blocks_in_last_piece s <= m_blocks_per_piece s;
  in_pieces : pieces_ok s;
}.

(** ** Frames *)

(** The piece but for its position and download state. *)
Definition same_wanted (p p' : piece_pos) : Prop :=
  peer_count p' = peer_count p /\ piece_prio p' = piece_prio p /\ have p' = have p.

#[export] Instance same_wanted_refl : Reflexive same_wanted.
Proof. by intros p. Qed.

#[export] Instance same_wanted_trans : Transitive same_wanted.
Proof. intros p q r (?&?&?) (?&?&?). split_and!; congruence. Qed.

Lemma same_piece_wanted p p' : same_piece p p' -> same_wanted p p'.
Proof. by intros (? & ? & ? & ?). Qed.

(** The members that only operations on whole pieces change. *)
Definition fixed (s : picker) :=
  (m_seeds s, m_blocks_per_piece s, m_blocks_in_last_piece s, m_num_filtered s, m_num_have_filtered s,
   m_cursor s, m_reverse_cursor s, m_num_have s, m_dirty s).

Lemma fixed_inv s s' : fixed s' = fixed s ->
  (m_seeds s' = m_seeds s /\ m_blocks_per_piece s' = m_blocks_per_piece s /\
   m_blocks_in_last_piece s' = m_blocks_in_last_piece s /\ m_num_filtered s' = m_num_filtered s) /\
  m_num_have_filtered s' = m_num_have_filtered s /\ m_cursor s' = m_cursor s /\
  m_reverse_cursor s' = m_reverse_cursor s /\ m_num_have s' = m_num_have s /\ m_dirty s' = m_dirty s.
Proof. intros [= ? ? ? ? ? ? ? ? ?]. done. Qed.

(** An operation that changes the download state of the piece [x], its entry
    and blocks, and the pick list. *)
Record touched (x : Z) (s s' : picker) : Prop := {
  to_wanted : Forall2 same_wanted (m_piece_map s) (m_piece_map s');
  to_others : forall y p, y <> x -> piece_at y s = Some p -> exists p', piece_at y s' = Some p' /\ same_piece p p';
  to_views : views_kept s s' x;
  to_fixed : fixed s' = fixed s;
}.

#[export] Instance touched_refl x : Reflexive (touched x).
Proof.
  intros s. split; [reflexivity| |by intros y o _|done]. intros y p _ Hp. by exists p.
Qed.

#[export] Instance touched_trans x : Transitive (touched x).
Proof.
  intros s1 s2 s3 [A1 B1 C1 D1] [A2 B2 C2 D2]. split.
  - by transitivity (m_piece_map s2).
  - intros y p Hy Hp. destruct (B1 y p Hy Hp) as (p2 & Hp2 & H12). destruct (B2 y p2 Hy Hp2) as (p3 & Hp3 & H23).
    exists p3. split; [done|]. by transitivity p2.
  - by eapply views_kept_trans.
  - congruence.
Qed.

(** The pick list may be moved. *)
Lemma moved_views s s' y o : moved s s' -> dl_view s y o -> dl_view s' y o.
Proof. intros [_ ->] Hv. exact Hv. Qed.

Lemma moved_shape s s' n : moved s s' -> dl_shape s n -> dl_shape s' n.
Proof.
  intros Hm Hs. pose proof (moved_num _ _ Hm) as Hn. destruct Hm as [_ Hr]. destruct Hs as [H1 H2 H3 H4 H5 H6 H7 H8].
  rewrite Hr. split; try done. unfold num_pieces in *. cbn. by rewrite Hn.
Qed.

Lemma moved_touched x s s' : moved s s' -> touched x s s'.
Proof.
  intros Hm. split.
  - destruct Hm as [Hm _]. eapply Forall2_impl; [exact Hm|]. apply same_piece_wanted.
  - intros y p _ Hp. by eapply moved_piece.
  - intros y o _. by apply moved_views.
  - destruct Hm as [_ ->]. done.
Qed.

Lemma moved_points s s' it d : moved s s' -> points_at s it d -> points_at s' it d.
Proof. intros [_ ->] H. exact H. Qed.

Lemma moved_slice s s' d : moved s s' -> slice s' d = slice s d.
Proof. intros [_ ->]. done. Qed.

Lemma touched_num x s s' : touched x s s' -> num_pieces s' = num_pieces s.
Proof. intros [H _ _ _]. unfold num_pieces. by rewrite (Forall2_length _ _ _ H). Qed.

Lemma touched_blocks x s s' y : touched x s s' -> blocks_in_piece y s' = blocks_in_piece y s.
Proof.
  intros Ht. unfold blocks_in_piece. rewrite (touched_num _ _ _ Ht). destruct Ht as [_ _ _ Hf].
  apply fixed_inv in Hf as ((_ & -> & -> & _) & _). done.
Qed.

(** ** What a frame keeps *)

Lemma same_unwanted p p' : same_wanted p p' -> unwanted p' = unwanted p.
Proof. intros (_ & Hp & Hh). unfold unwanted, filtered. by rewrite Hp, Hh. Qed.

Lemma same_wanted_at l l' i p' :
  Forall2 same_wanted l l' -> zget l' i = Some p' -> exists p, zget l i = Some p /\ same_wanted p p'.
Proof.
  intros Hl Hp. unfold zget in *. case_decide; [|done].
  destruct (Forall2_lookup_r _ _ _ _ _ Hl Hp) as (p & ? & ?). eauto.
Qed.

Lemma same_cursors l l' c r :
  Forall2 same_wanted l l' -> first_wanted l 0 c -> last_wanted l (zlen l) r ->
  first_wanted l' 0 c /\ last_wanted l' (zlen l') r.
Proof.
  intros Hl (F1 & F2 & F3) (L1 & L2 & L3). pose proof (Forall2_length _ _ _ Hl) as Hlen.
  assert (forall i p', zget l' i = Some p' -> exists p, zget l i = Some p /\ unwanted p' = unwanted p) as Hat.
  { intros i p' Hp. destruct (same_wanted_at _ _ _ _ Hl Hp) as (p & ? & ?%same_unwanted). eauto. }
  split; split_and!; try lia.
  - intros i p Hi (q & Hq & ->)%Hat. by eapply F2.
  - intros p (q & Hq & ->)%Hat. by apply F3.
  - intros i p Hi (q & Hq & ->)%Hat. eapply L2; [|exact Hq]. lia.
  - intros H0 p (q & Hq & ->)%Hat. by apply L3.
Qed.

Lemma same_count l l' (f : piece_pos -> bool) :
  Forall2 same_wanted l l' -> (forall p p', same_wanted p p' -> f p' = f p) ->
  length (filter (fun p => f p = true) l') = length (filter (fun p => f p = true) l).
Proof.
  intros Hl Hf. induction Hl as [|p p' l l' Hp _ IH]; [done|]. rewrite !filter_cons, (Hf p p' Hp).
  case_decide; simpl; congruence.
Qed.

Lemma wanted_cursors s s' :
  Forall2 same_wanted (m_piece_map s) (m_piece_map s') -> fixed s' = fixed s -> cursors_ok s -> cursors_ok s'.
Proof.
  intros Hl Hf [Hc Hr]. apply fixed_inv in Hf as (_ & _ & Hfc & Hfr & _).
  unfold cursors_ok, num_pieces in *. rewrite Hfc, Hfr. by apply (same_cursors (m_piece_map s)).
Qed.

Lemma wanted_counters s s' :
  Forall2 same_wanted (m_piece_map s) (m_piece_map s') -> fixed s' = fixed s -> counters_ok s -> counters_ok s'.
Proof.
  intros Hl Hf (H1 & H2 & H3). apply fixed_inv in Hf as ((_ & _ & _ & Hf) & Hhf & _ & _ & Hh & _).
  unfold counters_ok, count_pieces in *. rewrite Hf, Hhf, Hh, H1, H2, H3.
  split_and!; f_equal; symmetry; apply same_count; try done; intros p p' (_ & Hp & Hhv); unfold filtered;
    by rewrite ?Hp, Hhv.
Qed.

Lemma wanted_typed s s' :
  Forall2 same_wanted (m_piece_map s) (m_piece_map s') -> fixed s' = fixed s -> typed s -> typed s'.
Proof.
  intros Hl Hf [Hp Hs Hn]. apply fixed_inv in Hf as ((Hsd & _) & _). split.
  - eapply Forall2_Forall_r; [exact Hl|]. eapply Forall_impl; [exact Hp|].
    intros p [H1 H2] p' (Hc & Hpr & _). unfold typed_piece. by rewrite Hc, Hpr.
  - by rewrite Hsd.
  - unfold num_pieces in *. by rewrite <- (Forall2_length _ _ _ Hl).
Qed.

(** The priority of the pieces that are not touched. *)
Lemma touched_priority x s s' y : touched x s s' -> y <> x -> priority_of y s' = priority_of y s.
Proof.
  intros [Hw Ho _ Hf] Hy. apply fixed_inv in Hf as ((Hs & _) & _). unfold priority_of. rewrite Hs.
  destruct (piece_at y s) as [p|] eqn:Hp.
  - destruct (Ho y p Hy Hp) as (p' & -> & Hsame). simpl. f_equal. by apply same_priority.
  - destruct (piece_at y s') as [p'|] eqn:Hp'; [|done].
    destruct (same_wanted_at _ _ _ _ Hw Hp') as (p & Hp2 & _). unfold piece_at in Hp. congruence.
Qed.

(** The invariant after an operation on the piece [x], if it holds of [x]. *)
Lemma touched_invariant x s s' :
  invariant s -> touched x s s' -> dl_ok s' -> list_ok s' ->
  (forall p, piece_at x s' = Some p -> exists o, dl_view s' x o /\ piece_ok (blocks_in_piece x s') p o) ->
  invariant s'.
Proof.
  intros Hinv Ht Hdl Hlist Hx. pose proof Ht as [Hw Ho Hv Hf]. destruct Hinv as [Hty _ Hc Hn _ Hl Hp].
  split; [by eapply wanted_typed|done|by eapply wanted_cursors|by eapply wanted_counters|done| |].
  - by apply fixed_inv in Hf as ((_ & -> & -> & _) & _).
  - intros y p' Hp'. destruct (decide (y = x)) as [->|Hy]; [by apply Hx|].
    destruct (same_wanted_at _ _ _ _ Hw Hp') as (p & Hpy & _).
    destruct (Ho y p Hy Hpy) as (p2 & Hp2 & Hsame). rewrite Hp' in Hp2. injection Hp2 as <-.
    destruct (Hp y p Hpy) as (o & Hvo & Hok). exists o. split; [by apply Hv|].
    rewrite (touched_blocks x s s') by done. destruct Hsame as (Hc1 & Hd1 & Hpr1 & Hh1).
    destruct o as [[[q d] bs]|]; simpl in *; [|congruence].
    unfold download_queue, placed, expected_queue, filtered in *. by rewrite Hd1, Hh1, Hpr1.
Qed.

(** ** The counters

    What the operations that mark blocks and those that move pieces in the
    list never write: a computation is [steady] when it leaves the counters of
    the picker and its cursors alone, however it ends. *)

Definition counters (s : picker) :=
  (m_seeds s, m_num_passed s, m_num_filtered s, m_num_have_filtered s, m_num_have s, m_num_pad_files s,
   m_cursor s, m_reverse_cursor s, m_blocks_per_piece s, m_blocks_in_last_piece s).

Definition steady {A} (m : M A) : Prop := forall s a s', m s = Some (a, s') -> counters s' = counters s.

Create HintDb steady discriminated.

Lemma steady_ret {A} (a : A) : steady (mret a).
Proof. by intros s b s' [= _ <-]. Qed.

Lemma steady_bind {A B} (m : M A) (f : A -> M B) : steady m -> (forall a, steady (f a)) -> steady (m ≫= f).
Proof.
  intros Hm Hf s b s' E. unfold mbind, M_bind in E. destruct (m s) as [[a s1]|] eqn:E1; [|done].
  etransitivity; [by eapply Hf|by eapply Hm].
Qed.

Lemma steady_query {A} (f : picker -> option A) : steady (query f).
Proof. intros s a s'. unfold query. destruct (f s); [|done]. by intros [= _ <-]. Qed.

Lemma steady_gets {A} (f : picker -> A) : steady (gets f).
Proof. by intros s a s' [= _ <-]. Qed.

Lemma steady_lift {A} (o : option A) : steady (lift o).
Proof. intros s a s'. unfold lift. destruct o; [|done]. by intros [= _ <-]. Qed.

Lemma steady_undefined {A} : steady (@undefined A).
Proof. done. Qed.

Lemma steady_modify f : (forall s, counters (f s) = counters s) -> steady (modify f).
Proof. intros H s a s' [= _ <-]. apply H. Qed.

Lemma steady_modify_piece i f : steady (modify_piece i f).
Proof.
  intros s a s'. unfold modify_piece. destruct (zget _ _) as [p|]; [|done]. cbn [mbind option_bind].
  destruct (zset _ _ _); [|done]. by intros [= _ <-].
Qed.

Lemma steady_set_pieces_at i x : steady (set_pieces_at i x).
Proof. intros s a s'. unfold set_pieces_at. destruct (zset _ _ _); [|done]. by intros [= _ <-]. Qed.

Lemma steady_set_boundry i x : steady (set_boundry i x).
Proof. intros s a s'. unfold set_boundry. destruct (zset _ _ _); [|done]. by intros [= _ <-]. Qed.

Lemma steady_set_downloads st l : steady (set_downloads st l).
Proof. intros s a s'. unfold set_downloads. case_decide; [|done]. by intros [= _ <-]. Qed.

Lemma steady_modify_block d j f : steady (modify_block d j f).
Proof.
  intros s a s'. unfold modify_block. destruct (block_at _ _ _) as [b|]; [|done]. cbn [mbind option_bind].
  destruct (zset _ _ _); [|done]. by intros [= _ <-].
Qed.

Lemma steady_pop_back : steady pop_back_pieces.
Proof. intros s a s'. unfold pop_back_pieces. destruct (m_pieces s); [done|]. by intros [= _ <-]. Qed.

Lemma steady_alloc : steady alloc_blocks.
Proof.
  intros s a s'. unfold alloc_blocks. destruct (rev _); [destruct (_ =? 0); [done|]|]; by intros [= _ <-].
Qed.

Lemma steady_random rv : steady (random rv).
Proof. by intros s a s' [= _ <-]. Qed.

#[export] Hint Resolve steady_ret steady_query steady_gets steady_lift steady_undefined steady_modify_piece
  steady_set_pieces_at steady_set_boundry steady_set_downloads steady_modify_block steady_pop_back steady_alloc
  steady_random : steady.

(** Goes through the binds and the branches of a computation. *)
Ltac steady :=
  repeat first
    [ solve [auto with steady nocore]
    | apply steady_bind; [|intros ?]
    | progress unfold get_piece, get_priority, get_pieces_at, get_boundry, num_boundries, get_dirty, when in *
    | apply steady_modify; intros; repeat case_match; done
    | progress cbv beta zeta
    | case_match ].

Lemma steady_reset n d j : steady (reset_blocks n d j).
Proof. revert j. induction n; intros j; cbn [reset_blocks]; steady. Qed.

Lemma steady_dl_modify it f : steady (dl_modify it f).
Proof. unfold dl_modify. steady. Qed.

Lemma steady_grow prio : steady (grow_boundries prio).
Proof. unfold grow_boundries. steady. Qed.

Lemma steady_place i n : steady (place i n).
Proof. unfold place. steady. Qed.

Lemma steady_range prio : steady (priority_range prio).
Proof. unfold priority_range. steady. Qed.

Lemma steady_randint rv i : steady (randint rv i).
Proof. unfold randint. steady. Qed.

#[export] Hint Resolve steady_reset steady_dl_modify steady_grow steady_place steady_range steady_randint : steady.

Lemma steady_add_skip n prio i : steady (add_skip n prio i).
Proof. revert prio. induction n; intros; cbn [add_skip]; steady. Qed.
#[export] Hint Resolve steady_add_skip : steady.

Lemma steady_add_shift n i prio k : steady (add_shift n i prio k).
Proof. revert i prio k. induction n; intros; cbn [add_shift]; steady. Qed.

Lemma steady_remove_skip n prio i : steady (remove_skip n prio i).
Proof. revert prio. induction n; intros; cbn [remove_skip]; steady. Qed.
#[export] Hint Resolve steady_add_shift steady_remove_skip : steady.

Lemma steady_remove_shift n prio i : steady (remove_shift n prio i).
Proof. revert prio i. induction n; intros; cbn [remove_shift]; steady. Qed.

Lemma steady_update_down n prio np t i : steady (update_down n prio np t i).
Proof. revert prio t i. induction n; intros; cbn [update_down]; steady. Qed.

Lemma steady_update_up n prio np t i : steady (update_up n prio np t i).
Proof. revert prio t i. induction n; intros; cbn [update_up]; steady. Qed.
#[export] Hint Resolve steady_remove_shift steady_update_down steady_update_up : steady.

Section steady.
Context (random_values : nat -> Z).

Lemma steady_add i : steady (add random_values i).
Proof. unfold add. steady. Qed.

Lemma steady_shuffle prio i : steady (shuffle random_values prio i).
Proof. unfold shuffle. steady. Qed.
#[local] Hint Resolve steady_shuffle : steady.

Lemma steady_remove prio i : steady (remove prio i).
Proof. unfold remove. steady. Qed.
#[local] Hint Resolve steady_remove : steady.

Lemma steady_update prio i : steady (update random_values prio i).
Proof. unfold update. steady. Qed.

Lemma steady_count n i : steady (count_priorities n i).
Proof. revert i. induction n; intros; cbn [count_priorities]; steady. Qed.

Lemma steady_place_pieces n i : steady (place_pieces n i).
Proof. revert i. induction n; intros; cbn [place_pieces]; steady. Qed.

Lemma steady_random_shuffle n i : steady (random_shuffle random_values n i).
Proof. revert i. induction n as [|n IH]; intros i; [apply steady_ret|]. cbn [random_shuffle]. destruct n; steady. Qed.
#[local] Hint Resolve steady_random_shuffle : steady.

Lemma steady_shuffle_ranges bs i : steady (shuffle_ranges random_values bs i).
Proof. revert i. induction bs; intros; cbn [shuffle_ranges]; steady. Qed.

Lemma steady_index_pieces l i : steady (index_pieces l i).
Proof. revert i. induction l; intros; cbn [index_pieces]; steady. Qed.
#[local] Hint Resolve steady_count steady_place_pieces steady_shuffle_ranges steady_index_pieces : steady.

Lemma steady_update_pieces : steady (update_pieces random_values).
Proof. unfold update_pieces. steady. Qed.
#[local] Hint Resolve steady_add steady_update : steady.

Lemma steady_update_piece_pos prio i : steady (update_piece_pos random_values prio i).
Proof. unfold update_piece_pos. steady. Qed.
#[local] Hint Resolve steady_update_piece_pos : steady.

Lemma steady_update_piece_state it : steady (update_piece_state random_values it).
Proof. unfold update_piece_state. steady. Qed.

Lemma steady_add_download i : steady (add_download_piece i).
Proof. unfold add_download_piece. steady. Qed.
#[local] Hint Resolve steady_update_piece_state steady_add_download : steady.

Lemma steady_open_download i st : steady (open_download random_values i st).
Proof. unfold open_download. steady. Qed.

Lemma steady_change_reverse i f : steady (change_reverse random_values i f).
Proof. unfold change_reverse. steady. Qed.
#[local] Hint Resolve steady_open_download steady_change_reverse : steady.

Lemma steady_mark_as_downloading b peer rev : steady (mark_as_downloading random_values b peer rev).
Proof. unfold mark_as_downloading. steady. Qed.

Lemma steady_mark_as_writing b peer : steady (mark_as_writing random_values b peer).
Proof. unfold mark_as_writing. steady. Qed.
End steady.
