(* ===== verification/PickerStateSpec.v ===== *)
(** * Working on the entry of one piece

    [on_entry s it d bs]: the iterator [it] points at the entry [d], whose
    blocks are [bs].  The steps of the operations on blocks change [d] and
    [bs] and are [quiet]: the pieces and the pick list stay as they are. *)

From Stdlib Require Import ZArith Lia.
From stdpp Require Import base numbers sorting list.
From S2P Require Import Prelude PickerState PickerList PickerOps PickerListSpec PickerDownloadsSpec.
From S2P Require Import PickerInvariant PickerFrame.

(** ** Frames *)

Record quiet (x : Z) (s s' : picker) : Prop := {
  qu_touched : touched x s s';
  qu_list : list_view s' = list_view s;
}.

#[export] Instance quiet_refl x : Reflexive (quiet x).
Proof. intros s. by split. Qed.

#[export] Instance quiet_trans x : Transitive (quiet x).
Proof. intros s1 s2 s3 [A B] [C D]. split; [by transitivity s2|congruence]. Qed.

Lemma quiet_piece x s s' y : quiet x s s' -> piece_at y s' = piece_at y s.
Proof. intros [_ [= Hm _ _ _ _]]. unfold piece_at. by rewrite Hm. Qed.

Lemma quiet_list_ok x s s' : quiet x s s' -> list_ok s -> list_ok s'.
Proof. intros [_ Hv]. by apply list_ok_view. Qed.

Lemma quiet_typed x s s' : quiet x s s' -> typed s -> typed s'.
Proof. intros [[Hw _ _ Hf] _]. by apply wanted_typed. Qed.

(** Changes of the lists, the blocks and [m_num_passed]. *)
Definition set_entries (ds : list (list downloading_piece)) (bi : list block_info) (fr : list Z) (np : Z)
  (s : picker) : picker := set_m_num_passed np (set_dl ds bi fr s).

Lemma quiet_entries x s ds bi fr np :
  views_kept s (set_entries ds bi fr np s) x -> quiet x s (set_entries ds bi fr np s).
Proof.
  intros Hv. split; [|done]. split; [reflexivity| |done|done]. intros y p _ Hp. by exists p.
Qed.

Lemma touched_put x s p p' :
  piece_at x s = Some p -> same_wanted p p' -> touched x s (put_piece x p' s).
Proof.
  intros Hp Hs. split; [| |by intros y o _|done].
  - unfold put_piece. cbn. unfold piece_at, zget in Hp. case_decide; [|done].
    rewrite <- (list_insert_id (m_piece_map s) (Z.to_nat x) p) at 1 by done.
    by apply Forall2_insert.
  - intros y q Hy Hq. exists q. rewrite piece_at_put by eauto. by rewrite decide_False.
Qed.

(** ** The entry *)

Record on_entry (s : picker) (it : dl_iter) (d : downloading_piece) (bs : list block_info) : Prop := {
  oe_shape : dl_ok s;
  oe_points : points_at s it d;
  oe_slice : slice s d = bs;
}.

Lemma on_entry_view s it d bs :
  on_entry s it d bs -> dl_view s (dp_index d) (Some (it_queue it, d, bs)).
Proof. intros [_ Hp <-]. split_and!; [by apply points_in_queue|done|done]. Qed.

Lemma on_entry_deref s it d bs : on_entry s it d bs -> runs (query (dl_deref it)) s d s.
Proof. intros [_ Hp _]. by apply runs_query, points_deref. Qed.

Lemma on_entry_end s it d bs : on_entry s it d bs -> runs (query (is_end it)) s false s.
Proof. intros [_ Hp _]. by eapply runs_query, points_not_end. Qed.

Lemma on_entry_length s it d bs : on_entry s it d bs -> zlen bs = m_blocks_per_piece s.
Proof.
  intros [[n Hs] Hp <-]. eapply slice_length; [exact Hs|]. by eapply in_queue_concat, points_in_queue.
Qed.

Lemma on_entry_block s it d bs d0 j b :
  on_entry s it d bs -> dp_info_idx d0 = dp_info_idx d -> zget bs j = Some b ->
  runs (query (block_at d0 j)) s b s.
Proof.
  intros Hoe Hi Hb. pose proof (on_entry_length _ _ _ _ Hoe) as Hl. pose proof (zget_Some_bound _ _ _ Hb).
  destruct Hoe as [[n Hs] Hp <-]. apply runs_query. unfold block_at. rewrite Hi.
  rewrite <- Hb, (slice_get s n) by (done || lia || by eapply in_queue_concat, points_in_queue). done.
Qed.

(** The entry of a piece that is being downloaded is found. *)
Lemma find_on_entry s q d bs :
  dl_ok s -> num_pieces s < we_have_index -> dl_view s (dp_index d) (Some (q, d, bs)) ->
  exists it, runs (query (find_dl_piece q (dp_index d))) s it s /\ it_queue it = q /\ on_entry s it d bs.
Proof.
  intros [n Hs] Hn (Hq & _ & Hbs). destruct (find_dl_piece_spec s n q d Hs Hn Hq) as (it & Hf & Hiq & Hp).
  exists it. split_and!; [by apply runs_query|done|]. split; [by exists n|done|done].
Qed.

Lemma entry_modify s it d bs f :
  on_entry s it d bs -> dp_index (f d) = dp_index d -> dp_info_idx (f d) = dp_info_idx d ->
  exists s', runs (dl_modify it f) s tt s' /\ on_entry s' it (f d) bs /\ quiet (dp_index d) s s'.
Proof.
  intros [[n Hs] Hp Hbs] Hi Hf. destruct (dl_modify_spec s n it d f Hs Hp Hi Hf) as (ds & Hr & Hs' & Hp' & Hv).
  exists (set_m_downloads ds s). split_and!; [done| |].
  - split; [by exists n|done|]. rewrite <- Hbs. unfold slice. by rewrite Hf.
  - apply (quiet_entries (dp_index d) s ds (m_block_info s) (m_free_block_infos s) (m_num_passed s)). exact Hv.
Qed.

Lemma entry_block s it d bs d0 j b f :
  on_entry s it d bs -> dp_info_idx d0 = dp_info_idx d -> zget bs j = Some b ->
  exists s', runs (modify_block d0 j f) s tt s' /\ on_entry s' it d (<[Z.to_nat j := f b]> bs) /\
    quiet (dp_index d) s s'.
Proof.
  intros [[n Hs] Hp Hbs] Hi Hb. rewrite <- Hbs in Hb.
  destruct (modify_block_spec s n (it_queue it) d j b f Hs (points_in_queue _ _ _ Hp) Hb) as (bi & Hr & Hs' & Hsl & Hv).
  exists (set_m_block_info bi s). split_and!.
  - unfold runs, modify_block, block_at in *. by rewrite Hi.
  - split; [by exists n|exact Hp|]. by rewrite Hsl, Hbs.
  - apply (quiet_entries (dp_index d) s (m_downloads s) bi (m_free_block_infos s) (m_num_passed s)). exact Hv.
Qed.

Lemma entry_num_passed s it d bs f :
  on_entry s it d bs ->
  let s' := set_m_num_passed f s in on_entry s' it d bs /\ quiet (dp_index d) s s'.
Proof.
  intros [[n Hs] Hp Hbs] s'. split.
  - split; [|exact Hp|exact Hbs]. exists n. by destruct Hs; split.
  - apply (quiet_entries (dp_index d) s (m_downloads s) (m_block_info s) (m_free_block_infos s) f). by intros y o _.
Qed.

(** ** Blocks *)

Lemma tally_insert st l j b b' :
  l !! j = Some b ->
  tally st (<[j := b']> l) =
  tally st l - (if decide (bstate b = st) then 1 else 0) + (if decide (bstate b' = st) then 1 else 0).
Proof.
  intros H. apply list_elem_of_split_length in H as (l1 & l2 & -> & ->).
  rewrite insert_app_r_alt by lia. rewrite Nat.sub_diag. simpl. unfold tally.
  rewrite !filter_app, !filter_cons, !length_app. repeat case_decide; simpl; lia.
Qed.

Lemma tally_nonneg st l : 0 <= tally st l <= zlen l.
Proof. unfold tally. pose proof (length_filter (fun b => bstate b = st) l). lia. Qed.

Lemma tally_total l :
  tally state_none l + tally state_requested l + tally state_writing l + tally state_finished l = zlen l.
Proof.
  unfold tally. induction l as [|b l IH]; [done|]. rewrite !filter_cons.
  destruct (bstate b) eqn:E; repeat case_decide; simpl; try congruence; lia.
Qed.

Lemma tally_replicate st n : tally st (replicate n default_block_info) = if decide (st = state_none) then Z.of_nat n else 0.
Proof.
  unfold tally. induction n as [|n IH]; simpl; [by case_decide|]. rewrite filter_cons. simpl.
  repeat case_decide; simpl; try congruence; lia.
Qed.

Lemma take_insert_block n (bs : list block_info) j b :
  0 <= j < Z.of_nat n -> take n (<[Z.to_nat j := b]> bs) = <[Z.to_nat j := b]> (take n bs).
Proof. intros Hj. apply take_insert_lt. lia. Qed.

Lemma bits15_small x : 0 <= x < 2 ^ 15 -> bits15 x = x.
Proof. apply Z.mod_small. Qed.

(** * Opening, erasing and re-queueing an entry

    The three ways the download state of a piece changes: [open_download]
    gives it an entry, [erase_download_piece] takes it away, and
    [update_piece_state] moves it to the list its counts call for. *)

(** ** Priorities *)

Lemma priority_none seeds p :
  typed_piece p ->
  priority seeds p = -1 <->
  (filtered p || have p || (peer_count p + seeds =? 0)
   || bool_decide (download_state p = piece_full) || bool_decide (download_state p = piece_finished)) = true.
Proof.
  intros (Hc & Hp). unfold priority, prio_factor, priority_levels.
  destruct (_ || _ || _ || _ || _) eqn:E; [tauto|]. split; [|done].
  repeat match goal with |- context [if ?b then _ else _] => destruct b end; try lia; nia.
Qed.

(** A piece that starts being downloaded does not get a priority it did not
    have. *)
Lemma priority_opened seeds p st :
  typed_piece p -> download_state p = piece_open -> priority seeds p = -1 ->
  priority seeds (with_download_state st p) = -1.
Proof.
  intros Ht Ho Hn. apply priority_none in Hn; [|done]. apply priority_none; [done|].
  rewrite Ho in Hn. unfold filtered, have, with_download_state in *. cbn in *.
  rewrite !orb_false_r in Hn. by rewrite Hn.
Qed.

Lemma priority_of_at x s p : piece_at x s = Some p -> priority_of x s = Some (priority (m_seeds s) p).
Proof. intros H. unfold priority_of. by rewrite H. Qed.

Lemma priority_of_some x s p : piece_at x s = Some p -> is_Some (priority_of x s).
Proof. intros H. rewrite (priority_of_at x s p H). eauto. Qed.

(** ** Frames *)

Lemma on_entry_moved s s' it d bs : moved s s' -> on_entry s it d bs -> on_entry s' it d bs.
Proof.
  intros Hm [[n Hs] Hp Hsl]. split; [exists n; by eapply moved_shape|by eapply moved_points|].
  by rewrite (moved_slice s s').
Qed.

Lemma dl_ok_moved s s' : moved s s' -> dl_ok s -> dl_ok s'.
Proof. intros Hm [n Hs]. exists n. by eapply moved_shape. Qed.

Lemma dl_ok_put x p s : dl_ok s -> dl_ok (put_piece x p s).
Proof.
  intros [n Hs]. exists n. destruct Hs. split; try done. unfold num_pieces in *. cbn.
  by rewrite length_insert.
Qed.

Lemma typed_put x s p p' : typed s -> piece_at x s = Some p -> same_wanted p p' -> typed (put_piece x p' s).
Proof. intros Ht Hp Hs. destruct (touched_put x s p p' Hp Hs) as [Hw _ _ Hf]. by eapply wanted_typed. Qed.

Lemma state_wanted st p : same_wanted p (with_download_state st p).
Proof. done. Qed.

Lemma slots_left_moved s s' : moved s s' -> slots_left s -> slots_left s'.
Proof. intros [_ ->] H. exact H. Qed.

Section random.
Context (random_values : nat -> Z).

(** ** Opening *)

Lemma open_download_spec s x p st :
  typed s -> list_ok s -> dl_ok s -> dl_view s x None -> slots_left s ->
  piece_at x s = Some p -> download_state p = piece_open ->
  exists s' it k p', runs (open_download random_values x st) s it s' /\
    on_entry s' it (new_entry x k) (replicate (Z.to_nat (m_blocks_per_piece s)) default_block_info) /\
    it_queue it = piece_downloading /\ touched x s s' /\ list_ok s' /\
    piece_at x s' = Some p' /\ same_piece (with_download_state st p) p'.
Proof.
  intros Ht Hl Hdl Hv Hleft Hp Ho. pose proof (priority_of_at x s p Hp) as Hk.
  set (k := priority (m_seeds s) p) in *. pose proof (priority_of_ge _ _ _ Ht Hk) as Hge.
  set (p1 := with_download_state st p). set (s1 := put_piece x p1 s).
  assert (piece_at x s1 = Some p1) as Hp1 by (unfold s1; rewrite piece_at_put, decide_True by eauto; done).
  assert (typed s1) as Ht1 by (eapply typed_put; [done|exact Hp|done]).
  assert (lists_at s1 x k) as Hl1 by (eapply lists_at_put; [exact Hp|done|by apply list_ok_at]).
  destruct (settle_update_spec random_values s1 x k ((0 <=? k) && negb (m_dirty s1))) as (s2 & Hr2 & Hmv2 & Hl2); try done.
  { by eapply priority_of_some. }
  { intros Hk1. rewrite (priority_of_at x s1 p1 Hp1). f_equal. apply priority_opened; [|done|done].
    by apply (typed_piece_at s x). }
  destruct (moved_piece _ _ _ _ Hmv2 Hp1) as (p2 & Hp2 & Hs2).
  assert (dl_ok s2) as [n Hsh2] by (eapply dl_ok_moved, dl_ok_put; done).
  assert (dl_view s2 x None) as Hv2 by (by eapply (moved_views s1)).
  pose proof (moved_typed _ _ Hmv2 Ht1) as Ht2.
  destruct (add_download_piece_spec s2 n x Hsh2 Hv2) as (ds & bi & fr & n' & j & it & Hr3 & Hsh3 & Hq & Hpt & Hsl & Hv3).
  { by apply zget_Some_bound in Hp2. }
  { apply Ht2. }
  { by eapply slots_left_moved. }
  assert (m_blocks_per_piece s2 = m_blocks_per_piece s) as Hbpp by (destruct Hmv2 as [_ ->]; done).
  rewrite Hbpp in Hsl. set (s3 := set_dl ds bi fr s2) in *.
  assert (quiet x s2 s3) as Hq3 by (by apply (quiet_entries x s2 ds bi fr (m_num_passed s2))).
  exists s3, it, j, p2. split_and!.
  - unfold open_download. eapply runs_bind; [by apply runs_get_priority|]. cbv beta.
    eapply runs_bind; [by apply runs_modify_piece|]. eapply runs_bind; [apply runs_gets|].
    eapply runs_bind; [exact Hr2|exact Hr3].
  - by split; [exists n'|..].
  - done.
  - transitivity s1; [by eapply touched_put|]. transitivity s2; [by apply moved_touched|apply Hq3].
  - by eapply quiet_list_ok.
  - by rewrite (quiet_piece x s2 s3).
  - done.
Qed.

(** ** Erasing *)

Lemma erase_on_entry s it d bs p :
  on_entry s it d bs -> piece_at (dp_index d) s = Some p -> download_queue p = it_queue it ->
  let x := dp_index d in let p' := with_download_state piece_open p in
  exists s', runs (erase_download_piece it) s tt s' /\ dl_ok s' /\ dl_view s' x None /\
    piece_at x s' = Some p' /\ touched x s s' /\ m_dirty s' = m_dirty s /\
    forall k, lists_at s x k -> lists_at s' x k.
Proof.
  intros [[n Hs] Hpt Hsl] Hp Hq x p'.
  destruct (erase_download_piece_spec s n it d p Hs Hpt Hp Hq) as (ds & fr & Hr & Hs' & Hv & Hk).
  fold x p' in Hr, Hs', Hv, Hk. set (s1 := set_m_downloads ds (set_m_free_block_infos fr s)) in *.
  assert (quiet x s s1) as Hq1.
  { apply (quiet_entries x s ds (m_block_info s) fr (m_num_passed s)). exact Hk. }
  exists (put_piece x p' s1). split_and!; [done|by exists n|done| | |done|].
  - rewrite piece_at_put, decide_True by (rewrite ?(quiet_piece x s s1); eauto). done.
  - transitivity s1; [apply Hq1|]. eapply touched_put; [by rewrite (quiet_piece x s s1)|done].
  - intros k Hl. eapply (lists_at_put s1 x p); [by rewrite (quiet_piece x s s1)|done|].
    eapply lists_at_view; [|exact Hl]. apply Hq1.
Qed.

(** ** Re-queueing *)

Lemma new_state_queue p d n :
  new_piece_state p d n <> piece_open -> download_queue (with_download_state (new_piece_state p d n) p) = expected_queue p d n.
Proof.
  unfold new_piece_state, expected_queue, used, download_queue.
  destruct (filtered p); [done|].
  destruct (_ =? 0); [done|]. destruct (_ <? n); [by destruct (reverse_state p)|].
  destruct (0 <? _); [by destruct (reverse_state p)|done].
Qed.

Lemma new_state_open p d n :
  new_piece_state p d n = piece_open <-> filtered p = false /\ used d = 0.
Proof.
  unfold new_piece_state, used. destruct (filtered p); [split; [done|intros [? _]; done]|].
  destruct (Z.eqb_spec (dp_requested d + dp_finished d + dp_writing d) 0) as [->|Hne]; [tauto|].
  split; [|by intros [_ ?]]. destruct (_ <? n); [by destruct (reverse_state p)|].
  by destruct (0 <? _); destruct (reverse_state p).
Qed.

Lemma new_state_num p d n :
  new_piece_state p d n <> piece_open ->
  (state_num (download_queue (with_download_state (new_piece_state p d n) p)) < 4)%nat.
Proof.
  intros H. rewrite new_state_queue by done. unfold expected_queue.
  destruct (filtered p); [simpl; lia|]. destruct (_ <? _); [simpl; lia|]. destruct (_ <? _); simpl; lia.
Qed.

(** The state [update_piece_state] leaves the piece in. *)
Definition settled_state (p : piece_pos) (d : downloading_piece) (n : Z) : state_t :=
  if decide (new_piece_state p d n = piece_open) then download_state p else new_piece_state p d n.

(** The branch in which the piece changes its list. *)
Lemma requeue_spec s it d bs p st :
  typed s -> list_ok s -> on_entry s it d bs -> piece_at (dp_index d) s = Some p ->
  download_queue p = it_queue it -> (state_num (download_queue (with_download_state st p)) < 4)%nat ->
  let x := dp_index d in
  exists s' it' p', runs (
      l ← query (downloads_of (download_queue p));
      _ ← set_downloads (download_queue p) (list_erase l (it_pos it));
      prio ← get_priority x;
      _ ← modify_piece x (with_download_state st);
      p ← get_piece x;
      l ← query (downloads_of (download_queue p));
      let i := lower_bound l x in
      _ ← set_downloads (download_queue p) (list_insert l i d);
      dirty ← get_dirty;
      _ ← (if (dirty : bool) then mret tt
           else
             new_prio ← get_priority x;
             if (prio =? -1) && negb (new_prio =? -1) then add random_values x
             else when (negb (prio =? -1)) (update_piece_pos random_values prio x));
      mret (DlIter (download_queue p) i)) s it' s' /\
    on_entry s' it' d bs /\ it_queue it' = download_queue (with_download_state st p) /\
    touched x s s' /\ list_ok s' /\
    piece_at x s' = Some p' /\ same_piece (with_download_state st p) p'.
Proof.
  intros Ht Hl [[n Hs] Hpt Hsl] Hp Hq Hst x. set (p1 := with_download_state st p) in *.
  destruct (move_entry_spec s n it d (download_queue p1) Hs Hpt Hst)
    as (l1 & l2 & ds1 & l & Hl1 & Hpos & Hds1 & Hl' & Hs2 & Hpt2 & Hv2).
  fold x in Hs2, Hpt2, Hv2. set (i := lower_bound l x) in *.
  set (ds2 := <[state_num (download_queue p1) := list_insert l i d]> ds1) in *.
  set (sq := set_m_downloads ds2 s) in *. set (s2 := put_piece x p1 sq).
  assert (quiet x s sq) as Hqs.
  { apply (quiet_entries x s ds2 (m_block_info s) (m_free_block_infos s) (m_num_passed s)). exact Hv2. }
  assert (piece_at x s2 = Some p1) as Hp2.
  { unfold s2. rewrite piece_at_put, decide_True by (rewrite ?(quiet_piece x s sq); eauto). done. }
  assert (typed s2) as Ht2 by (eapply typed_put; [by eapply quiet_typed|exact Hp|done]).
  pose proof (priority_of_at x s p Hp) as Hk. set (k := priority (m_seeds s) p) in *.
  assert (lists_at s2 x k) as Hl2.
  { eapply (lists_at_put sq x p); [exact Hp|done|]. eapply lists_at_view; [apply Hqs|]. by apply list_ok_at. }
  destruct (settle_state_spec random_values s2 x k Ht2 Hl2) as (s3 & Hr3 & Hmv3 & Hl3).
  { exact (priority_of_ge _ _ _ Ht Hk). }
  { by eapply priority_of_some. }
  destruct (moved_piece _ _ _ _ Hmv3 Hp2) as (p3 & Hp3 & Hs3).
  exists s3, (DlIter (download_queue p1) i), p3. split_and!; [| |done| |done|done|done].
  - eapply runs_bind; [apply runs_query; rewrite Hq; exact Hl1|]. cbv beta.
    rewrite Hpos, list_erase_mid, Hq. eapply runs_bind; [eapply runs_set_downloads, Hl1|].
    rewrite <- Hds1. eapply runs_bind; [by apply runs_get_priority|]. cbv beta.
    eapply runs_bind; [apply runs_modify_piece; exact Hp|]. fold p1.
    eapply runs_bind; [apply runs_get_piece; exact Hp2|]. cbv beta.
    eapply runs_bind; [apply runs_query; exact Hl'|]. cbv beta zeta. fold i.
    eapply runs_bind; [eapply runs_set_downloads; exact Hl'|]. cbv beta.
    change (set_m_downloads _ (put_piece x p1 (set_m_downloads ds1 s))) with s2.
    apply runs_assoc. eapply runs_bind; [exact Hr3|apply runs_ret].
  - eapply on_entry_moved; [exact Hmv3|]. split; [apply dl_ok_put; by exists n|exact Hpt2|exact Hsl].
  - transitivity sq; [apply Hqs|]. transitivity s2; [by eapply touched_put|by apply moved_touched].
Qed.

Lemma with_state_same p : same_piece (with_download_state (download_state p) p) p.
Proof. done. Qed.

Lemma update_piece_state_spec s it d bs p :
  typed s -> list_ok s -> on_entry s it d bs -> piece_at (dp_index d) s = Some p ->
  download_queue p = it_queue it -> download_state p <> piece_open ->
  let x := dp_index d in
  let st := settled_state p d (blocks_in_piece x s) in
  exists s' it' p', runs (update_piece_state random_values it) s it' s' /\
    on_entry s' it' d bs /\ it_queue it' = download_queue (with_download_state st p) /\
    touched x s s' /\ list_ok s' /\
    piece_at x s' = Some p' /\ same_piece (with_download_state st p) p'.
Proof.
  intros Ht Hl Hoe Hp Hq Hop x st.
  assert (forall v s', runs (
    if decide (new_piece_state p d (blocks_in_piece x s) = download_state p) then mret it
    else if decide (new_piece_state p d (blocks_in_piece x s) = piece_open) then mret it
    else
      l ← query (downloads_of (download_queue p));
      _ ← set_downloads (download_queue p) (list_erase l (it_pos it));
      prio ← get_priority x;
      _ ← modify_piece x (with_download_state (new_piece_state p d (blocks_in_piece x s)));
      p ← get_piece x;
      l ← query (downloads_of (download_queue p));
      let i := lower_bound l x in
      _ ← set_downloads (download_queue p) (list_insert l i d);
      dirty ← get_dirty;
      _ ← (if (dirty : bool) then mret tt
           else
             new_prio ← get_priority x;
             if (prio =? -1) && negb (new_prio =? -1) then add random_values x
             else when (negb (prio =? -1)) (update_piece_pos random_values prio x));
      mret (DlIter (download_queue p) i)) s v s' -> runs (update_piece_state random_values it) s v s') as Hrun.
  { intros v s' H. unfold update_piece_state. eapply runs_bind; [eapply on_entry_deref, Hoe|]. cbv beta zeta.
    eapply runs_bind; [apply runs_gets|]. eapply runs_bind; [apply runs_get_piece, Hp|]. cbv beta zeta.
    rewrite decide_False by done. rewrite (decide_True (P := it_queue it = download_queue p)) by done. exact H. }
  assert (download_queue (with_download_state (download_state p) p) = it_queue it) as Hsame by done.
  unfold st, settled_state in *.
  destruct (decide (new_piece_state p d (blocks_in_piece x s) = download_state p)) as [He|Hne].
  { exists s, it, p. split_and!; [apply Hrun, runs_ret|done| |done|done|done|by case_decide; rewrite ?He].
    by case_decide; rewrite ?He. }
  destruct (decide (new_piece_state p d (blocks_in_piece x s) = piece_open)) as [He|Hne2].
  { exists s, it, p. by split_and!; try apply Hrun. }
  destruct (requeue_spec s it d bs p (new_piece_state p d (blocks_in_piece x s)) Ht Hl Hoe Hp Hq)
    as (s' & it' & p' & Hr & H); [by apply new_state_num|].
  exists s', it', p'. split; [by apply Hrun|exact H].
Qed.

(** After [update_piece_state] the piece agrees with its entry, when a block
    of it is used. *)
Lemma settled_ok p p' q d bs n :
  same_piece (with_download_state (settled_state p d n) p) p' ->
  q = download_queue (with_download_state (settled_state p d n) p) ->
  have p = false -> counts_ok d (take (Z.to_nat n) bs) -> used d <> 0 ->
  piece_ok n p' (Some (q, d, bs)).
Proof.
  intros (Hc & Hd & Hp & Hh) -> Hhave Hco Hu.
  assert (new_piece_state p d n <> piece_open) as Hn.
  { rewrite new_state_open. intros [Hf Hz]. done. }
  assert (download_queue p' = download_queue (with_download_state (settled_state p d n) p)) as Hq
    by (unfold download_queue; by rewrite Hd).
  assert (expected_queue p' d n = expected_queue p d n) as He.
  { unfold expected_queue, filtered. by rewrite Hp. }
  simpl. unfold placed. rewrite Hq, He. split_and!; [done| |by unfold settled_state; rewrite decide_False, new_state_queue by done|done|done].
  by rewrite Hh.
Qed.
End random.
