(* ===== verification/PickerBlockSpec.v ===== *)
(** * Marking blocks

    The operations that change one block of a piece: each keeps the invariant
    of the picker, touches no other piece, and changes the state of the block
    it names. *)

From Stdlib Require Import ZArith Lia.
From stdpp Require Import base numbers sorting list.
From S2P Require Import Prelude PickerState PickerList PickerOps PickerListSpec PickerDownloadsSpec.
From S2P Require Import PickerInvariant PickerFrame PickerStateSpec.

(** ** What the invariant says of a piece *)

Lemma blocks_bound s x : invariant s -> 0 < blocks_in_piece x s <= m_blocks_per_piece s.
Proof.
  intros Hi. destruct (in_downloads _ Hi) as [n Hs]. pose proof (ds_bpp _ _ Hs). pose proof (in_last _ Hi).
  unfold blocks_in_piece. case_match; lia.
Qed.

Lemma bpp_bound s : invariant s -> 0 < m_blocks_per_piece s < 2 ^ 15.
Proof. intros Hi. destruct (in_downloads _ Hi) as [n Hs]. exact (ds_bpp _ _ Hs). Qed.

Lemma expected_not_open p d n : expected_queue p d n <> piece_open.
Proof. unfold expected_queue. repeat case_match; done. Qed.

Lemma queue_open p : download_queue p = piece_open <-> download_state p = piece_open.
Proof. unfold download_queue. by destruct (download_state p). Qed.

Lemma open_view s x p :
  invariant s -> piece_at x s = Some p -> download_state p = piece_open -> dl_view s x None.
Proof.
  intros Hi Hp Ho. destruct (in_pieces _ Hi x p Hp) as ([[[q d] bs]|] & Hv & Hok); [|done].
  destruct Hok as (Hq & _ & [He _] & _). apply queue_open in Ho. rewrite Ho in Hq. subst q.
  symmetry in He. by apply expected_not_open in He.
Qed.

(** The entry of a piece that is being downloaded. *)
Lemma entry_of s x p :
  invariant s -> piece_at x s = Some p -> download_state p <> piece_open ->
  exists it d bs, runs (query (find_dl_piece (download_queue p) x)) s it s /\
    it_queue it = download_queue p /\ on_entry s it d bs /\ dp_index d = x /\
    piece_ok (blocks_in_piece x s) p (Some (download_queue p, d, bs)).
Proof.
  intros Hi Hp Ho. destruct (in_pieces _ Hi x p Hp) as ([[[q d] bs]|] & Hv & Hok); [|done].
  pose proof Hok as (<- & _). pose proof Hv as (_ & <- & _).
  destruct (find_on_entry s (download_queue p) d bs (in_downloads _ Hi)) as (it & Hr & Hq & Hoe); [apply Hi|done|].
  exists it, d, bs. by split_and!.
Qed.

(** ** Counting the change of a block *)

Definition one (b : block_info) (st : block_state) : Z := if decide (bstate b = st) then 1 else 0.

Lemma counts_change d d' bs n j b b' :
  counts_ok d (take (Z.to_nat n) bs) -> 0 <= j < n -> zget bs j = Some b -> peers_ok b' ->
  dp_requested d' = dp_requested d - one b state_requested + one b' state_requested ->
  dp_writing d' = dp_writing d - one b state_writing + one b' state_writing ->
  dp_finished d' = dp_finished d - one b state_finished + one b' state_finished ->
  counts_ok d' (take (Z.to_nat n) (<[Z.to_nat j := b']> bs)).
Proof.
  intros [Hr Hw Hf Hp] Hj Hb Hb' Hr' Hw' Hf'.
  assert (take (Z.to_nat n) bs !! Z.to_nat j = Some b) as Hl.
  { rewrite lookup_take_lt by lia. unfold zget in Hb. by rewrite decide_True in Hb by lia. }
  rewrite take_insert_lt by lia.
  split; [rewrite (tally_insert _ _ _ _ _ Hl); unfold one in *; congruence..|].
  by apply Forall_insert.
Qed.

(** The counts are small. *)
Lemma counts_bound d bs n :
  counts_ok d (take (Z.to_nat n) bs) -> 0 <= n ->
  0 <= dp_requested d /\ 0 <= dp_writing d /\ 0 <= dp_finished d /\ used d <= n.
Proof.
  intros [Hr Hw Hf _] Hn. unfold used. rewrite Hr, Hw, Hf.
  pose proof (tally_total (take (Z.to_nat n) bs)) as Ht. rewrite length_take in Ht.
  pose proof (tally_nonneg state_none (take (Z.to_nat n) bs)).
  pose proof (tally_nonneg state_requested (take (Z.to_nat n) bs)).
  pose proof (tally_nonneg state_writing (take (Z.to_nat n) bs)).
  pose proof (tally_nonneg state_finished (take (Z.to_nat n) bs)). lia.
Qed.

(** A block in a state is counted. *)
Lemma counts_one d bs n j b :
  counts_ok d (take (Z.to_nat n) bs) -> 0 <= j < n -> zget bs j = Some b ->
  one b state_requested <= dp_requested d /\ one b state_writing <= dp_writing d /\
  one b state_finished <= dp_finished d /\
  used d + 1 <= n + one b state_requested + one b state_writing + one b state_finished.
Proof.
  intros [Hr Hw Hf _] Hj Hb. unfold used. rewrite Hr, Hw, Hf.
  assert (take (Z.to_nat n) bs !! Z.to_nat j = Some b) as Hl.
  { rewrite lookup_take_lt by lia. unfold zget in Hb. by rewrite decide_True in Hb by lia. }
  pose proof (tally_total (take (Z.to_nat n) bs)) as Ht. rewrite length_take in Ht.
  apply list_elem_of_split_length in Hl as (l1 & l2 & Hl & _). rewrite Hl in *. unfold tally, one in *.
  rewrite !filter_app, !filter_cons, !length_app in *.
  destruct (bstate b) eqn:E; repeat case_decide; simpl in *; try congruence; lia.
Qed.

(** The entry of a piece no block of which is used yet. *)
Lemma counts_new x k n m :
  counts_ok (new_entry x k) (take n (replicate m default_block_info)).
Proof.
  rewrite take_replicate. split; simpl; try by rewrite tally_replicate.
  apply Forall_replicate. done.
Qed.

Lemma zget_replicate {A} (x : A) n j : 0 <= j < Z.of_nat n -> zget (replicate n x) j = Some x.
Proof. intros Hj. unfold zget. rewrite decide_True by lia. apply lookup_replicate. split; [done|lia]. Qed.

(** ** Closing an operation *)

Lemma entry_invariant s0 s it d bs p :
  invariant s0 -> touched (dp_index d) s0 s -> list_ok s -> on_entry s it d bs ->
  piece_at (dp_index d) s = Some p ->
  piece_ok (blocks_in_piece (dp_index d) s) p (Some (it_queue it, d, bs)) -> invariant s.
Proof.
  intros Hi Ht Hl Hoe Hp Hok. eapply (touched_invariant (dp_index d) s0); [done..|by destruct Hoe|done|].
  intros p' Hp'. rewrite Hp in Hp'. injection Hp' as <-. eexists. split; [by apply on_entry_view|done].
Qed.

(** The view an operation on one block leaves: the block [j] is [b]. *)
Definition block_now (s : picker) (x j : Z) (b : block_info) : Prop :=
  exists q d bs, dl_view s x (Some (q, d, bs)) /\ zget bs j = Some b.

(** The other blocks of the piece stay. *)
Definition blocks_kept (s s' : picker) (x j : Z) : Prop :=
  forall i b, i <> j -> block_now s x i b -> block_now s' x i b.

Lemma block_now_entry s it d bs x j b :
  on_entry s it d bs -> dp_index d = x -> zget bs j = Some b -> block_now s x j b.
Proof. intros Hoe <- Hb. eexists _, _, _. split; [by apply on_entry_view|done]. Qed.

(** The hash check of an entry. *)
Definition flags (d : downloading_piece) : bool * bool * bool :=
  (dp_passed_hash_check d, dp_locked d, dp_outstanding_hash_check d).

(** The entry of a piece that was not being downloaded: all blocks but [j] are
    free. *)
Definition opened_block (s s' : picker) (x j : Z) (b : block_info) : Prop :=
  exists it d, on_entry s' it d (<[Z.to_nat j := b]> (replicate (Z.to_nat (m_blocks_per_piece s)) default_block_info)) /\
    dp_index d = x /\ flags d = (false, false, false).

(** The flags of the entry of the piece stay. *)
Definition flags_kept (s s' : picker) (x : Z) : Prop :=
  forall q d bs, dl_view s x (Some (q, d, bs)) -> exists q' d' bs', dl_view s' x (Some (q', d', bs')) /\ flags d' = flags d.

Lemma flags_kept_refl s x : flags_kept s s x.
Proof. intros q d bs Hv. by exists q, d, bs. Qed.

(** Views are unique. *)
Lemma view_unique s x q d bs q' d' bs' :
  dl_ok s -> dl_view s x (Some (q, d, bs)) -> dl_view s x (Some (q', d', bs')) -> d = d' /\ bs = bs' /\ q = q'.
Proof.
  intros [n Hs] (H1 & H2 & H3) (H4 & H5 & H6).
  assert (d = d') as <-.
  { eapply (entry_once s n); [done|by eapply in_queue_concat|by eapply in_queue_concat|congruence]. }
  split_and!; [done|congruence|by eapply (nodup_queues s n)].
Qed.

Lemma blocks_kept_entry s s' it it' d d' bs bs' x j :
  on_entry s it d bs -> dp_index d = x -> on_entry s' it' d' bs' -> dp_index d' = x ->
  (forall i, i <> j -> zget bs' i = zget bs i) -> blocks_kept s s' x j.
Proof.
  intros H1 <- H2 Hx Hbs i b Hi (q & e & l & Hv & Hb).
  destruct (view_unique s (dp_index d) _ _ _ _ _ _ (oe_shape _ _ _ _ H1) Hv (on_entry_view _ _ _ _ H1)) as (_ & -> & _).
  eapply block_now_entry; [exact H2|done|]. by rewrite Hbs.
Qed.

Lemma flags_kept_entry s s' it it' d d' bs bs' x :
  on_entry s it d bs -> dp_index d = x -> on_entry s' it' d' bs' -> dp_index d' = x -> flags d' = flags d -> flags_kept s s' x.
Proof.
  intros H1 <- H2 Hx Hf q e l Hv.
  destruct (view_unique s (dp_index d) _ _ _ _ _ _ (oe_shape _ _ _ _ H1) Hv (on_entry_view _ _ _ _ H1)) as (-> & _ & _).
  eexists _, _, _. rewrite <- Hx. split; [by apply on_entry_view|done].
Qed.

Lemma zget_insert {A} (l : list A) j b i :
  0 <= j < zlen l -> zget (<[Z.to_nat j := b]> l) i = if decide (j = i) then Some b else zget l i.
Proof. intros Hj. apply zget_zset. unfold zset. by rewrite decide_True. Qed.

(** ** Sections *)

Section random.
Context (random_values : nat -> Z).

(** [update_piece_state] restores the invariant. *)
Lemma close_entry s0 s it d bs p x n :
  invariant s0 -> touched x s0 s -> list_ok s -> on_entry s it d bs -> dp_index d = x ->
  piece_at x s = Some p -> download_queue p = it_queue it -> download_state p <> piece_open ->
  have p = false -> n = blocks_in_piece x s0 -> counts_ok d (take (Z.to_nat n) bs) ->
  used d <> 0 ->
  exists s' it', runs (update_piece_state random_values it) s it' s' /\ invariant s' /\ touched x s0 s' /\
    on_entry s' it' d bs.
Proof.
  intros Hi Ht Hl Hoe <- Hp Hq Ho Hh -> Hco Hu.
  assert (typed s) as Hty by (destruct Ht; eapply wanted_typed; [done..|apply Hi]).
  destruct (update_piece_state_spec random_values s it d bs p Hty Hl Hoe Hp Hq Ho)
    as (s' & it' & p' & Hr & Hoe' & Hq' & Ht' & Hl' & Hp' & Hs').
  pose proof (touched_blocks _ _ _ (dp_index d) Ht) as Hn. pose proof (touched_blocks _ _ _ (dp_index d) Ht') as Hn'.
  exists s', it'. split_and!; [done| |by etransitivity|done].
  eapply entry_invariant; [exact Hi|by etransitivity|done|exact Hoe'|exact Hp'|].
  rewrite Hn'. eapply settled_ok; [exact Hs'|exact Hq'|done|by rewrite Hn|done].
Qed.

(** *** The reverse flag *)

Lemma change_reverse_spec s x p f it d bs :
  typed s -> list_ok s -> on_entry s it d bs -> dp_index d = x -> piece_at x s = Some p ->
  f = make_reverse /\ download_state p <> piece_full \/ f = unreverse ->
  exists s' p', runs (change_reverse random_values x f) s tt s' /\ touched x s s' /\ list_ok s' /\
    on_entry s' it d bs /\ piece_at x s' = Some p' /\ same_piece (f p) p'.
Proof.
  intros Ht Hl Hoe <- Hp Hf. set (x := dp_index d) in *. set (s1 := put_piece x (f p) s).
  assert (same_wanted p (f p) /\ index (f p) = index p) as [Hw Hix].
  { destruct Hf as [[-> _]| ->]; unfold make_reverse, unreverse; by destruct (download_state p). }
  assert (piece_at x s1 = Some (f p)) as Hp1 by (unfold s1; rewrite piece_at_put, decide_True by eauto; done).
  pose proof (priority_of_at x s p Hp) as Hk. pose proof (typed_piece_at _ _ _ Ht Hp) as Htp.
  assert (typed s1) as Ht1 by (by eapply typed_put).
  destruct (settle_update_spec random_values s1 x (priority (m_seeds s) p)
    ((0 <=? priority (m_seeds s) p) && negb (m_dirty s1))) as (s2 & Hr2 & Hmv2 & Hl2); try done.
  { eapply lists_at_put; [exact Hp|done|]. by apply list_ok_at. }
  { exact (priority_of_ge _ _ _ Ht Hk). }
  { by eapply priority_of_some. }
  { intros Hn. rewrite (priority_of_at _ _ _ Hp1). f_equal. apply priority_none; [by apply (typed_piece_at s1 x)|].
    apply (priority_none _ _ Htp) in Hn. destruct Hw as (Hc & Hpr & Hh). unfold filtered in *. rewrite Hc, Hpr, Hh.
    change (m_seeds s1) with (m_seeds s).
    destruct (_ || have p || (peer_count p + m_seeds s =? 0)); [done|]. simpl in *.
    destruct Hf as [[-> Hnf]| ->]; unfold make_reverse, unreverse;
      destruct (download_state p) eqn:E; cbn; rewrite ?E; done. }
  destruct (moved_piece _ _ _ _ Hmv2 Hp1) as (p2 & Hp2 & Hs2).
  exists s2, p2. split_and!; [| |done| |done|done].
  - unfold change_reverse. eapply runs_bind; [by apply runs_get_priority|]. cbv beta.
    eapply runs_bind; [by apply runs_modify_piece|]. eapply runs_bind; [apply runs_gets|exact Hr2].
  - transitivity s1; [by eapply touched_put|by apply moved_touched].
  - eapply on_entry_moved; [exact Hmv2|]. destruct Hoe as [? ? ?]. by split; [apply dl_ok_put|..].
Qed.

(** *** [mark_as_downloading] *)

(** A requested block. *)
Lemma requested_ok peer : peers_ok (BI peer 1 state_requested).
Proof. done. Qed.

(** A piece that starts being downloaded: once a block of it is used,
    [update_piece_state] restores the invariant. *)
Lemma open_start s x p st :
  invariant s -> piece_at x s = Some p -> download_state p = piece_open -> have p = false -> slots_left s ->
  st = piece_downloading \/ st = piece_downloading_reverse ->
  exists s1 it k, runs (open_download random_values x st) s it s1 /\
    on_entry s1 it (new_entry x k) (replicate (Z.to_nat (m_blocks_per_piece s)) default_block_info) /\
    forall s3 d3 bs3, quiet x s1 s3 -> on_entry s3 it d3 bs3 -> dp_index d3 = x ->
      counts_ok d3 (take (Z.to_nat (blocks_in_piece x s)) bs3) -> used d3 <> 0 ->
      exists s' it', runs (update_piece_state random_values it) s3 it' s' /\ invariant s' /\ touched x s s' /\
        on_entry s' it' d3 bs3.
Proof.
  intros Hi Hp Ho Hh Hleft Hst.
  destruct (open_download_spec random_values s x p st) as (s1 & it & k & p1 & Hr1 & Hoe1 & Hq1 & Ht1 & Hl1 & Hp1 & Hs1);
    try done; [apply Hi|apply Hi|apply Hi|by eapply open_view|].
  exists s1, it, k. split_and!; [done|done|]. intros s3 d3 bs3 Hqu Hoe3 Hd3 Hco Hu.
  pose proof Hs1 as (_ & Hd1 & _ & Hh1). cbn [with_download_state download_state] in Hd1.
  eapply (close_entry s s3 it d3 bs3 p1 x (blocks_in_piece x s)); try done.
  - by transitivity s1; [|apply Hqu].
  - by eapply quiet_list_ok.
  - by rewrite (quiet_piece x s1 s3).
  - rewrite Hq1. unfold download_queue. rewrite Hd1. by destruct Hst as [->| ->].
  - rewrite Hd1. by destruct Hst as [->| ->].
  - by rewrite Hh1.
Qed.

Lemma mark_as_downloading_open s x j peer reverse p :
  invariant s -> piece_at x s = Some p -> download_state p = piece_open -> have p = false ->
  0 <= j < blocks_in_piece x s -> slots_left s ->
  exists s', runs (mark_as_downloading random_values (PB x j) peer reverse) s true s' /\ invariant s' /\
    touched x s s' /\ opened_block s s' x j (BI peer 1 state_requested).
Proof.
  intros Hi Hp Ho Hh Hj Hleft. pose proof (blocks_bound s x Hi) as Hb.
  destruct (open_start s x p (if reverse then piece_downloading_reverse else piece_downloading))
    as (s1 & it & k & Hr1 & Hoe1 & Hclose); try done; [by destruct reverse; [right|left]|].
  set (d := new_entry x k) in *. set (bs := replicate _ _) in Hoe1.
  assert (zget bs j = Some default_block_info) as Hbj by (apply zget_replicate; lia).
  destruct (entry_block s1 it d bs d j default_block_info (fun _ => BI peer 1 state_requested) Hoe1 eq_refl Hbj)
    as (s2 & Hr2 & Hoe2 & Hqu2).
  destruct (entry_modify s2 it d _ (fun d => dp_with_requested (dp_requested d + 1) d) Hoe2 eq_refl eq_refl)
    as (s3 & Hr3 & Hoe3 & Hqu3).
  destruct (Hclose s3 _ _ (transitivity Hqu2 Hqu3) Hoe3) as (s4 & it4 & Hr4 & Hi4 & Ht4 & Hoe4); try done.
  { eapply (counts_change d _ bs _ j default_block_info); try done. apply counts_new. }
  exists s4. split_and!; [|done|done|].
  - unfold mark_as_downloading. cbn [piece_index block_index].
    eapply runs_bind; [by apply runs_get_piece|]. cbv beta. rewrite decide_True by (by apply queue_open).
    eapply runs_bind; [exact Hr1|]. eapply runs_bind; [eapply on_entry_deref, Hoe1|].
    eapply runs_bind; [exact Hr2|]. eapply runs_bind; [exact Hr3|]. eapply runs_bind; [exact Hr4|apply runs_ret].
  - by eexists it4, _.
Qed.

Lemma piece_ok_same n p p' q d bs :
  piece_ok n p (Some (q, d, bs)) -> download_queue p' = download_queue p -> piece_prio p' = piece_prio p ->
  have p' = have p -> piece_ok n p' (Some (q, d, bs)).
Proof.
  intros (H1 & H2 & H3 & H4) Hq Hp Hh. simpl. unfold placed, expected_queue, filtered in *.
  rewrite Hq, Hp, Hh. done.
Qed.

Lemma reverse_queue p f : f = make_reverse \/ f = unreverse ->
  download_queue (f p) = download_queue p /\ piece_prio (f p) = piece_prio p /\ have (f p) = have p.
Proof. intros [->| ->]; unfold make_reverse, unreverse, download_queue; by destruct (download_state p) eqn:E; cbn; rewrite ?E. Qed.

Lemma same_queue p p' : same_piece p p' ->
  download_queue p' = download_queue p /\ piece_prio p' = piece_prio p /\ have p' = have p.
Proof. intros (_ & Hd & Hp & Hh). unfold download_queue. by rewrite Hd. Qed.

(** An optional change of the reverse flag. *)
Lemma when_reverse s0 s x p b f it d bs n :
  invariant s0 -> touched x s0 s -> list_ok s -> on_entry s it d bs -> dp_index d = x ->
  piece_at x s = Some p -> piece_ok n p (Some (it_queue it, d, bs)) ->
  (b = true -> f = make_reverse /\ download_state p <> piece_full \/ f = unreverse) ->
  exists s' p', runs (when b (change_reverse random_values x f)) s tt s' /\ touched x s0 s' /\ list_ok s' /\
    on_entry s' it d bs /\ piece_at x s' = Some p' /\ piece_ok n p' (Some (it_queue it, d, bs)).
Proof.
  intros Hi Ht Hl Hoe Hd Hp Hok Hf. destruct b; [|exists s, p; by split_and!].
  assert (typed s) as Hty by (destruct Ht; eapply wanted_typed; [done..|apply Hi]).
  destruct (change_reverse_spec s x p f it d bs Hty Hl Hoe Hd Hp) as (s' & p' & Hr & Ht' & Hl' & Hoe' & Hp' & Hs'); [auto|].
  exists s', p'. split_and!; try done; [by etransitivity|].
  destruct (reverse_queue p f) as (F1 & F2 & F3); [destruct (Hf eq_refl) as [[]|]; auto|].
  apply same_queue in Hs' as (G1 & G2 & G3). eapply piece_ok_same; [exact Hok|congruence..].
Qed.

(** The block and the piece before a block is changed. *)
Record at_block (s0 s : picker) (it : dl_iter) (d : downloading_piece) (bs : list block_info)
  (p : piece_pos) (x j : Z) (b : block_info) (n : Z) : Prop := {
  ab_inv : invariant s0;
  ab_touched : touched x s0 s;
  ab_list : list_ok s;
  ab_entry : on_entry s it d bs;
  ab_index : dp_index d = x;
  ab_piece : piece_at x s = Some p;
  ab_num : n = blocks_in_piece x s0;
  ab_ok : piece_ok n p (Some (it_queue it, d, bs));
  ab_range : 0 <= j < n;
  ab_block : zget bs j = Some b;
}.

Arguments ab_inv {s0 s it d bs p x j b n}.
Arguments ab_index {s0 s it d bs p x j b n}.
Arguments ab_block {s0 s it d bs p x j b n}.

Lemma ab_typed {s0 s it d bs p x j b n} : at_block s0 s it d bs p x j b n -> typed s.
Proof. intros [Hi Ht _ _ _ _ _ _ _ _]. destruct Ht; eapply wanted_typed; [done..|apply Hi]. Qed.

Lemma ab_peers {s0 s it d bs p x j b n} : at_block s0 s it d bs p x j b n -> peers_ok b.
Proof.
  intros [_ _ _ _ _ _ _ (_ & _ & _ & Hco) Hj Hb]. pose proof (co_peers _ _ Hco) as Hpe. rewrite Forall_forall in Hpe.
  apply Hpe. eapply (list_elem_of_lookup_2 _ (Z.to_nat j)). rewrite lookup_take_lt by lia.
  unfold zget in Hb. by rewrite decide_True in Hb by lia.
Qed.

Lemma ab_num_peers {s0 s it d bs p x j b n} : at_block s0 s it d bs p x j b n -> 0 <= num_peers b.
Proof. intros H%ab_peers. unfold peers_ok in H. case_decide; lia. Qed.

Lemma ab_state {s0 s it d bs p x j b n} : at_block s0 s it d bs p x j b n -> download_state p <> piece_open.
Proof.
  intros [_ _ _ _ _ _ _ (Hq & _ & [He _] & _) _ _] Ho. apply queue_open in Ho. rewrite Ho in Hq.
  rewrite <- Hq in He. symmetry in He. by apply expected_not_open in He.
Qed.

(** The block is replaced. *)
Lemma ab_change {s0 s it d bs p x j b n} f :
  at_block s0 s it d bs p x j b n ->
  exists s', runs (modify_block d j f) s tt s' /\ on_entry s' it d (<[Z.to_nat j := f b]> bs) /\ quiet x s s' /\
    zget (<[Z.to_nat j := f b]> bs) j = Some (f b).
Proof.
  intros [_ _ _ Hoe <- _ _ _ _ Hb]. destruct (entry_block s it d bs d j b f Hoe eq_refl Hb) as (s' & Hr & Hoe' & Hq).
  exists s'. split_and!; try done. rewrite zget_insert; [by rewrite decide_True|]. by apply zget_Some_bound in Hb.
Qed.

Lemma again_block {s it d d'} {bs : list block_info} {x j b1} f :
  on_entry s it d' (<[Z.to_nat j := b1]> bs) -> dp_index d' = x -> dp_info_idx d = dp_info_idx d' -> 0 <= j < zlen bs ->
  exists s', runs (modify_block d j f) s tt s' /\ on_entry s' it d' (<[Z.to_nat j := f b1]> bs) /\ quiet x s s'.
Proof.
  intros Hoe <- Hi Hj. destruct (entry_block s it d' _ d j b1 f Hoe Hi) as (s' & Hr & Hoe' & Hq).
  { rewrite zget_insert by done. by rewrite decide_True. }
  rewrite list_insert_insert_eq in Hoe'. by exists s'.
Qed.

(** [update_piece_state] on a changed entry; the blocks may change once more
    afterwards. *)
Lemma settle_block {s0 s it d bs p x j b n s3 d3 bs3} :
  at_block s0 s it d bs p x j b n -> quiet x s s3 -> on_entry s3 it d3 bs3 -> dp_index d3 = x ->
  exists s4 it4 p4, runs (update_piece_state random_values it) s3 it4 s4 /\ on_entry s4 it4 d3 bs3 /\
    touched x s0 s4 /\ list_ok s4 /\ piece_at x s4 = Some p4 /\
    forall bs', counts_ok d3 (take (Z.to_nat n) bs') -> used d3 <> 0 ->
      piece_ok n p4 (Some (it_queue it4, d3, bs')).
Proof.
  intros Hab Hqu Hoe3 Hd3. pose proof (ab_state Hab) as Hop.
  pose proof (ab_typed Hab) as Hty.
  destruct Hab as [Hi Ht Hl Hoe Hd Hp Hn (Hq & Hh & _ & _) Hj Hb].
  assert (touched x s0 s3) as Ht3 by (transitivity s; [done|apply Hqu]).
  destruct (update_piece_state_spec random_values s3 it d3 bs3 p) as
    (s4 & it4 & p4 & Hr4 & Hoe4 & Hq4 & Ht4 & Hl4 & Hp4 & Hs4); try done.
  { by eapply quiet_typed. }
  { by eapply quiet_list_ok. }
  { rewrite Hd3. by rewrite (quiet_piece x s s3). }
  rewrite Hd3 in *. rewrite (touched_blocks x s0 s3) in * by done. rewrite <- Hn in *.
  exists s4, it4, p4. split_and!; try done; [by etransitivity|].
  intros bs' Hco Hu. by eapply settled_ok.
Qed.

(** A request for a free block, in the middle of [mark_as_downloading]. *)
Lemma request_free s0 s it d bs p x j b peer n :
  at_block s0 s it d bs p x j b n -> bstate b = state_none ->
  let b' := BI peer 1 state_requested in
  exists s' p' it' d', touched x s0 s' /\ list_ok s' /\
    on_entry s' it' d' (<[Z.to_nat j := b']> bs) /\ dp_index d' = x /\ flags d' = flags d /\ piece_at x s' = Some p' /\
    piece_ok n p' (Some (it_queue it', d', <[Z.to_nat j := b']> bs)) /\
    forall A (m : M A) v t, runs m s' v t -> runs (
      _ ← modify_block d j (with_peer peer);
      _ ← (_ ← modify_block d j (with_bstate state_requested);
           _ ← dl_modify it (fun d => dp_with_requested (dp_requested d + 1) d);
           _ ← update_piece_state random_values it; mret tt);
      _ ← modify_block d j (fun b => with_num_peers (num_peers b + 1) b);
      m) s v t.
Proof.
  intros Hab Hbn b'. destruct (ab_change (with_peer peer) Hab) as (s1 & Hr1 & Hoe1 & Hqu1 & Hb1).
  pose proof (ab_peers Hab) as Hpe. unfold peers_ok in Hpe. rewrite Hbn in Hpe. simpl in Hpe.
  pose proof (blocks_bound _ x (ab_inv Hab)) as Hbb.
  pose proof (bpp_bound _ (ab_inv Hab)) as Hbpp.
  pose proof (zget_Some_bound _ _ _ (ab_block Hab)) as Hjl.
  pose proof (ab_index Hab) as Hd.
  destruct (again_block (with_bstate state_requested) Hoe1 Hd eq_refl Hjl) as (s2 & Hr2 & Hoe2 & Hqu2).
  destruct (entry_modify s2 it d _ (fun d => dp_with_requested (dp_requested d + 1) d) Hoe2 eq_refl eq_refl)
    as (s3 & Hr3 & Hoe3 & Hqu3). set (d3 := dp_with_requested (dp_requested d + 1) d) in *. rewrite Hd in Hqu3.
  assert (quiet x s s3) as Hqu by (transitivity s1; [done|by transitivity s2]).
  destruct (settle_block Hab Hqu Hoe3 Hd) as (s4 & it4 & p4 & Hr4 & Hoe4 & Ht4 & Hl4 & Hp4 & Hok4).
  destruct (again_block (fun b => with_num_peers (num_peers b + 1) b) Hoe4 Hd eq_refl Hjl)
    as (s5 & Hr5 & Hoe5 & Hqu5).
  assert (with_num_peers (num_peers (with_bstate state_requested (with_peer peer b)) + 1)
    (with_bstate state_requested (with_peer peer b)) = b') as Hb'.
  { unfold with_num_peers, with_bstate, with_peer, bits14, b'. cbn. by rewrite Hpe. }
  rewrite Hb' in Hoe5. exists s5, p4, it4, d3. split_and!; [| |done|done|done| | |].
  - transitivity s4; [done|apply Hqu5].
  - by eapply quiet_list_ok.
  - by rewrite (quiet_piece x s4 s5).
  - destruct Hab as [Hi _ _ _ _ _ Hn (_ & _ & _ & Hco) Hj Hb].
    pose proof (counts_bound _ _ _ Hco ltac:(lia)) as (C1 & C2 & C3 & C4).
    pose proof (counts_one _ _ _ _ _ Hco Hj Hb) as (_ & _ & _ & C5). unfold one in C5. rewrite Hbn in C5. simpl in C5.
    assert (dp_requested d3 = dp_requested d + 1) as Hdr.
    { unfold d3. cbn. apply bits15_small. unfold used in C4, C5. lia. }
    apply Hok4; [|unfold used; rewrite Hdr; cbn; lia].
    eapply (counts_change d d3 bs n j b b'); try done; rewrite ?Hdr; unfold one; rewrite Hbn; simpl; lia.
  - intros A m v t Hm. eapply runs_bind; [exact Hr1|]. eapply runs_bind.
    { eapply runs_bind; [exact Hr2|]. eapply runs_bind; [exact Hr3|]. eapply runs_bind; [exact Hr4|apply runs_ret]. }
    eapply runs_bind; [exact Hr5|exact Hm].
Qed.

(** A request for a block that is requested already. *)
Lemma request_again s0 s it d bs p x j b peer n :
  at_block s0 s it d bs p x j b n -> bstate b = state_requested -> num_peers b + 1 < 2 ^ 14 ->
  let b' := BI peer (num_peers b + 1) state_requested in
  exists s', touched x s0 s' /\ list_ok s' /\
    on_entry s' it d (<[Z.to_nat j := b']> bs) /\ piece_at x s' = Some p /\
    piece_ok n p (Some (it_queue it, d, <[Z.to_nat j := b']> bs)) /\
    forall A (m : M A) v t, runs m s' v t -> runs (
      _ ← modify_block d j (with_peer peer);
      _ ← mret tt;
      _ ← modify_block d j (fun b => with_num_peers (num_peers b + 1) b);
      m) s v t.
Proof.
  intros Hab Hbr Hpeers b'. destruct (ab_change (with_peer peer) Hab) as (s1 & Hr1 & Hoe1 & Hqu1 & Hb1).
  pose proof (ab_num_peers Hab) as Hnp.
  pose proof (zget_Some_bound _ _ _ (ab_block Hab)) as Hjl.
  destruct Hab as [Hi Ht Hl Hoe Hd Hp Hn (Hq & Hh & He & Hco) Hj Hb].
  destruct (again_block (fun b => with_num_peers (num_peers b + 1) b) Hoe1 Hd eq_refl Hjl)
    as (s2 & Hr2 & Hoe2 & Hqu2).
  assert (with_num_peers (num_peers (with_peer peer b) + 1) (with_peer peer b) = b') as Hb'.
  { unfold with_num_peers, with_peer, bits14, b'. cbn. rewrite Z.mod_small, Hbr by lia. done. }
  rewrite Hb' in Hoe2. assert (quiet x s s2) as Hqu by (by transitivity s1).
  exists s2. split_and!; [| |done| | |].
  - transitivity s; [done|apply Hqu].
  - by eapply quiet_list_ok.
  - by rewrite (quiet_piece x s s2).
  - split_and!; [done..|]. eapply (counts_change d d bs n j b b'); try done;
      [unfold peers_ok; simpl; lia|unfold one; rewrite Hbr; simpl; lia..].
  - intros A m v t Hm. eapply runs_bind; [exact Hr1|]. eapply runs_bind; [apply runs_ret|].
    eapply runs_bind; [exact Hr2|exact Hm].
Qed.

(** The block of a piece that is being downloaded. *)
Lemma at_block_of s x j p :
  invariant s -> piece_at x s = Some p -> download_state p <> piece_open -> 0 <= j < blocks_in_piece x s ->
  exists it d bs b, runs (query (find_dl_piece (download_queue p) x)) s it s /\ it_queue it = download_queue p /\
    at_block s s it d bs p x j b (blocks_in_piece x s).
Proof.
  intros Hi Hp Ho Hj. destruct (entry_of s x p Hi Hp Ho) as (it & d & bs & Hr & Hq & Hoe & Hd & Hok).
  pose proof (on_entry_length _ _ _ _ Hoe) as Hl. pose proof (blocks_bound s x Hi).
  destruct (zget_is_Some bs j) as [b Hb]; [lia|].
  exists it, d, bs, b. split_and!; [done|done|]. split; try done; [apply Hi|by rewrite Hq].
Qed.

Lemma at_block_now {s0 s it d bs p x j b n} : at_block s0 s it d bs p x j b n -> block_now s x j b.
Proof. intros [_ _ _ Hoe Hd _ _ _ _ Hb]. by eapply block_now_entry. Qed.

Lemma block_now_unique s x j b b' : dl_ok s -> block_now s x j b -> block_now s x j b' -> b = b'.
Proof.
  intros Hdl (q & d & bs & Hv & Hb) (q' & d' & bs' & Hv' & Hb').
  destruct (view_unique _ _ _ _ _ _ _ _ Hdl Hv Hv') as (_ & <- & _). congruence.
Qed.

(** [reverse] and [make_reverse]: a full piece has requests. *)
Lemma full_requested n p d bs q : piece_ok n p (Some (q, d, bs)) -> dp_requested d = 0 -> download_state p <> piece_full.
Proof.
  intros (Hq & _ & [He _] & _) Hr Hf. unfold download_queue in Hq. rewrite Hf in Hq. subst q.
  unfold expected_queue in He. rewrite Hr in He. repeat case_match; done.
Qed.

Lemma blocks_kept_insert s s' it it' d d' bs x j b :
  on_entry s it d bs -> dp_index d = x -> on_entry s' it' d' (<[Z.to_nat j := b]> bs) -> dp_index d' = x ->
  0 <= j < zlen bs -> blocks_kept s s' x j.
Proof.
  intros H1 Hd H2 Hd' Hj. eapply blocks_kept_entry; [exact H1|done|exact H2|done|].
  intros i Hi. rewrite zget_insert by done. by rewrite decide_False.
Qed.

Definition can_request (b : block_info) : bool :=
  negb (bool_decide (bstate b = state_writing) || bool_decide (bstate b = state_finished)).

Lemma can_request_inv b : can_request b = true -> bstate b = state_none \/ bstate b = state_requested.
Proof. unfold can_request. destruct (bstate b); vm_compute; auto; discriminate. Qed.

(** The entry case of [mark_as_downloading]. *)
Lemma mark_as_downloading_entry s x j peer reverse p b :
  invariant s -> piece_at x s = Some p -> download_state p <> piece_open ->
  0 <= j < blocks_in_piece x s -> block_now s x j b -> num_peers b + 1 < 2 ^ 14 ->
  exists s', runs (mark_as_downloading random_values (PB x j) peer reverse) s (can_request b) s' /\ invariant s' /\
    touched x s s' /\ blocks_kept s s' x j /\ flags_kept s s' x /\
    block_now s' x j (if can_request b then BI peer (num_peers b + 1) state_requested else b).
Proof.
  intros Hi Hp Ho Hj Hnow Hpeers.
  destruct (at_block_of s x j p Hi Hp Ho Hj) as (it & d & bs & b0 & Hr & Hq & Hab).
  pose proof (block_now_unique _ _ _ _ _ (in_downloads _ Hi) Hnow (at_block_now Hab)) as <-.
  pose proof Hab as [_ _ _ Hoe Hd _ _ Hok _ Hb]. pose proof (zget_Some_bound _ _ _ Hb) as Hjl.
  assert (forall v t, runs (if negb (can_request b) then mret false else
      _ ← when (reverse && negb (reverse_state p) && (dp_requested d =? 0)) (change_reverse random_values x make_reverse);
      _ ← modify_block d j (with_peer peer);
      _ ← (if decide (bstate b <> state_requested) then
             _ ← modify_block d j (with_bstate state_requested);
             _ ← dl_modify it (fun d => dp_with_requested (dp_requested d + 1) d);
             _ ← update_piece_state random_values it; mret tt
           else mret tt);
      _ ← modify_block d j (fun b => with_num_peers (num_peers b + 1) b);
      p ← get_piece x;
      _ ← when (negb reverse && reverse_state p) (change_reverse random_values x unreverse);
      mret true) s v t -> runs (mark_as_downloading random_values (PB x j) peer reverse) s v t) as Hrun.
  { intros v t H. unfold mark_as_downloading. cbn [piece_index block_index].
    eapply runs_bind; [by apply runs_get_piece|]. cbv beta.
    rewrite decide_False by (by rewrite queue_open). eapply runs_bind; [exact Hr|]. cbv beta.
    eapply runs_bind; [by eapply on_entry_deref|]. cbv beta.
    eapply runs_bind; [by eapply on_entry_block|]. cbv beta. unfold can_request in H.
    rewrite negb_involutive in H. exact H. }
  destruct (can_request b) eqn:Hcan; simpl in Hrun.
  2:{ exists s. split_and!; [apply Hrun, runs_ret|done|done|by intros i b' _|apply flags_kept_refl|done]. }
  destruct (when_reverse s s x p (reverse && negb (reverse_state p) && (dp_requested d =? 0)) make_reverse it d bs
    (blocks_in_piece x s)) as (s1 & p1 & Hr1 & Ht1 & Hl1 & Hoe1 & Hp1 & Hok1); try done; [apply Hi| |].
  { intros Hbb. left. split; [done|]. eapply full_requested; [exact Hok|]. apply andb_prop in Hbb as [_ ?]. lia. }
  assert (at_block s s1 it d bs p1 x j b (blocks_in_piece x s)) as Hab1 by done.
  assert (exists s2 p2 it2 d2, let b' := BI peer (num_peers b + 1) state_requested in
    touched x s s2 /\ list_ok s2 /\ on_entry s2 it2 d2 (<[Z.to_nat j := b']> bs) /\ dp_index d2 = x /\ flags d2 = flags d /\
    piece_at x s2 = Some p2 /\ piece_ok (blocks_in_piece x s) p2 (Some (it_queue it2, d2, <[Z.to_nat j := b']> bs)) /\
    forall A (m : M A) v t, runs m s2 v t -> runs (
      _ ← modify_block d j (with_peer peer);
      _ ← (if decide (bstate b <> state_requested) then
             _ ← modify_block d j (with_bstate state_requested);
             _ ← dl_modify it (fun d => dp_with_requested (dp_requested d + 1) d);
             _ ← update_piece_state random_values it; mret tt
           else mret tt);
      _ ← modify_block d j (fun b => with_num_peers (num_peers b + 1) b);
      m) s1 v t) as (s2 & p2 & it2 & d2 & Ht2 & Hl2 & Hoe2 & Hd2 & Hf2 & Hp2 & Hok2 & Hrun2).
  { destruct (can_request_inv b Hcan) as [Hbn|Hbr].
    - pose proof (ab_peers Hab) as Hpe. unfold peers_ok in Hpe. rewrite Hbn in Hpe. simpl in Hpe. rewrite Hpe, Hbn.
      destruct (request_free _ _ _ _ _ _ _ _ _ peer _ Hab1 Hbn) as (s2 & p2 & it2 & d2 & H). by exists s2, p2, it2, d2.
    - rewrite Hbr. destruct (request_again _ _ _ _ _ _ _ _ _ peer _ Hab1 Hbr Hpeers) as (s2 & ? & ? & ? & ? & ? & ?).
      by exists s2, p1, it, d; split_and!. }
  destruct (when_reverse s s2 x p2 (negb reverse && reverse_state p2) unreverse it2 d2 _
    (blocks_in_piece x s) Hi Ht2 Hl2 Hoe2 Hd2 Hp2 Hok2) as (s3 & p3 & Hr3 & Ht3 & Hl3 & Hoe3 & Hp3 & Hok3); [by right|].
  exists s3. split_and!.
  - apply Hrun. eapply runs_bind; [exact Hr1|]. apply Hrun2.
    eapply runs_bind; [by apply runs_get_piece|]. cbv beta. eapply runs_bind; [exact Hr3|apply runs_ret].
  - rewrite <- Hd2 in Ht3, Hp3, Hok3. eapply (entry_invariant s); [done|done|done|exact Hoe3|exact Hp3|].
    by rewrite (touched_blocks (dp_index d2) s s3).
  - done.
  - by eapply blocks_kept_insert.
  - by eapply flags_kept_entry.
  - eapply block_now_entry; [exact Hoe3|done|]. rewrite zget_insert by done. by rewrite decide_True.
Qed.
End random.

Arguments ab_inv {s0 s it d bs p x j b n}.
Arguments ab_index {s0 s it d bs p x j b n}.
Arguments ab_block {s0 s it d bs p x j b n}.

(** * The blocks as the peers see them

    [state_of x j s] is the state of the block [j] of the piece [x], whether the
    piece is being downloaded or not.  [only_block s s' x j st]: an operation
    set the state of this one block to [st]. *)

(** The entry of the piece [x], if it is being downloaded. *)
Definition entry_at (x : Z) (s : picker) : option downloading_piece :=
  head (filter (fun d => dp_index d = x) (concat (m_downloads s))).

(** Blocks of a piece that is not being downloaded have no state. *)
Definition state_of (x j : Z) (s : picker) : block_state :=
  match entry_at x s with
  | Some d => from_option bstate state_none (zget (slice s d) j)
  | None => state_none
  end.

(** What the picker knows of a block, and of the hash check of a piece. *)
Definition known_block (x j : Z) (s : picker) : block_info :=
  match entry_at x s with
  | Some d => default default_block_info (zget (slice s d) j)
  | None => default_block_info
  end.

Definition flags_of (x : Z) (s : picker) : bool * bool * bool :=
  match entry_at x s with Some d => flags d | None => (false, false, false) end.

(** The block [j] of the piece [x] is [b] now, and nothing else that is known
    of the blocks and the hash checks has changed. *)
Record only_changed (s s' : picker) (x j : Z) (b : block_info) : Prop := {
  oc_block : forall y i, 0 <= y < num_pieces s -> 0 <= i < blocks_in_piece y s ->
    known_block y i s' = if decide (y = x /\ i = j) then b else known_block y i s;
  oc_flags : forall y, 0 <= y < num_pieces s -> flags_of y s' = flags_of y s;
}.

Definition only_block (s s' : picker) (x j : Z) (st : block_state) : Prop :=
  forall y i, 0 <= y < num_pieces s -> 0 <= i < blocks_in_piece y s ->
    state_of y i s' = if decide (y = x /\ i = j) then st else state_of y i s.

(** ** The state and the view of a piece *)

Lemma entry_at_view s x o :
  dl_ok s -> dl_view s x o -> entry_at x s = option_map (fun '(_, d, _) => d) o.
Proof.
  intros [n Hs] Hv. unfold entry_at.
  destruct (head (filter (fun d => dp_index d = x) (concat (m_downloads s)))) as [d|] eqn:E.
  - apply head_Some_elem_of, list_elem_of_filter in E as [<- Hd].
    destruct (concat_in_queue s d (ds_four _ _ Hs) Hd) as [q Hq].
    destruct o as [[[q' d'] bs]|]; [|by eapply Hv in Hq]. destruct Hv as (Hq' & Hx & _). simpl. f_equal.
    eapply (entry_once s n); [done|done|by eapply in_queue_concat|done].
  - destruct o as [[[q' d'] bs]|]; [|done]. destruct Hv as (Hq' & Hx & _).
    apply head_None in E. assert (d' ∈ filter (fun d => dp_index d = x) (concat (m_downloads s))) as H.
    { apply list_elem_of_filter. split; [done|]. by eapply in_queue_concat. }
    rewrite E in H. by apply not_elem_of_nil in H.
Qed.

Lemma state_of_view s x o j :
  dl_ok s -> dl_view s x o ->
  state_of x j s = match o with Some (_, _, bs) => from_option bstate state_none (zget bs j) | None => state_none end.
Proof.
  intros Hs Hv. unfold state_of. rewrite (entry_at_view s x o Hs Hv). destruct o as [[[q d] bs]|]; [|done].
  by destruct Hv as (_ & _ & ->).
Qed.

Lemma state_of_entry s it d bs j :
  on_entry s it d bs -> state_of (dp_index d) j s = from_option bstate state_none (zget bs j).
Proof. intros Hoe. by rewrite (state_of_view _ _ _ _ (oe_shape _ _ _ _ Hoe) (on_entry_view _ _ _ _ Hoe)). Qed.

Lemma block_now_state s x j b : dl_ok s -> block_now s x j b -> state_of x j s = bstate b.
Proof. intros Hs (q & d & bs & Hv & Hb). rewrite (state_of_view _ _ _ _ Hs Hv). by rewrite Hb. Qed.

(** The other pieces. *)
Lemma state_of_other s s' x y i :
  invariant s -> views_kept s s' x -> dl_ok s' -> y <> x -> 0 <= y < num_pieces s ->
  state_of y i s' = state_of y i s.
Proof.
  intros Hi Hv Hdl Hy Hb. destruct (zget_is_Some (m_piece_map s) y) as [p Hp]; [exact Hb|].
  destruct (in_pieces _ Hi y p Hp) as (o & Ho & _).
  rewrite (state_of_view s y o i (in_downloads _ Hi) Ho).
  by rewrite (state_of_view s' y o i Hdl (Hv y o Hy Ho)).
Qed.

Lemma only_block_intro s s' x j st :
  invariant s -> views_kept s s' x -> dl_ok s' ->
  (forall i, 0 <= i < blocks_in_piece x s -> state_of x i s' = if decide (i = j) then st else state_of x i s) ->
  only_block s s' x j st.
Proof.
  intros Hi Hv Hdl Hx y i Hy Hib. destruct (decide (y = x)) as [->|Hne].
  - rewrite Hx by done. repeat case_decide; tauto.
  - rewrite decide_False by tauto. by eapply state_of_other.
Qed.

(** Nothing happened. *)
Lemma only_block_refl s x j : only_block s s x j (state_of x j s).
Proof. intros y i _ _. case_decide as H; [|done]. by destruct H as [-> ->]. Qed.

Lemma only_block_same s s' x j :
  invariant s -> touched x s s' -> dl_ok s' ->
  (forall i, 0 <= i < blocks_in_piece x s -> state_of x i s' = state_of x i s) -> only_block s s' x j (state_of x j s).
Proof.
  intros Hi Ht Hdl Hx. apply only_block_intro; [done|apply Ht|done|]. intros i Hib. rewrite Hx by done.
  by case_decide; subst.
Qed.

(** One block of an entry changed. *)
Lemma changed_only s it d bs p x j b n s' it' d' b' :
  at_block s s it d bs p x j b n -> touched x s s' ->
  on_entry s' it' d' (<[Z.to_nat j := b']> bs) -> dp_index d' = x -> only_block s s' x j (bstate b').
Proof.
  intros Hab Ht Hoe' Hd'. pose proof (zget_Some_bound _ _ _ (ab_block Hab)) as Hj.
  destruct Hab as [Hi _ _ Hoe Hd _ _ _ _ _].
  apply only_block_intro; [done|apply Ht|apply Hoe'|]. intros i _.
  rewrite <- Hd' at 1. rewrite (state_of_entry _ _ _ _ i Hoe'). rewrite <- Hd, (state_of_entry _ _ _ _ i Hoe).
  rewrite zget_insert by done. by repeat case_decide; try congruence.
Qed.

Lemma kept_only s x p j b s' :
  invariant s -> touched x s s' -> dl_ok s' -> piece_at x s = Some p -> download_state p <> piece_open ->
  blocks_kept s s' x j -> block_now s' x j b -> only_block s s' x j (bstate b).
Proof.
  intros Hi Ht Hdl Hp Ho Hk Hb. apply only_block_intro; [done|apply Ht|done|]. intros i Hib.
  destruct (at_block_of s x i p Hi Hp Ho Hib) as (it & d & bs & bi & _ & _ & Hab).
  pose proof (at_block_now Hab) as Hnow. rewrite (block_now_state s x i bi) by (done || apply Hi).
  case_decide as Hij; [subst i; by apply block_now_state|]. apply block_now_state; [done|by apply Hk].
Qed.

(** A piece started with one block. *)
Lemma opened_only s s' x j b :
  invariant s -> touched x s s' -> dl_view s x None -> 0 <= j < blocks_in_piece x s ->
  opened_block s s' x j b -> only_block s s' x j (bstate b).
Proof.
  intros Hi Ht Hv Hj (it & d & Hoe & Hd & _). pose proof (blocks_bound s x Hi).
  apply only_block_intro; [done|apply Ht|apply Hoe|]. intros i Hib.
  rewrite <- Hd at 1. rewrite (state_of_entry _ _ _ _ i Hoe), (state_of_view s x None) by (done || apply Hi).
  rewrite zget_insert by (rewrite length_replicate; lia).
  repeat case_decide; try congruence; [done|]. by rewrite zget_replicate by lia.
Qed.

(** *** All that is known of the blocks *)

Lemma known_block_view s x o j :
  dl_ok s -> dl_view s x o -> known_block x j s = match o with Some (_, _, bs) => default default_block_info (zget bs j) | None => default_block_info end.
Proof.
  intros Hs Hv. unfold known_block. rewrite (entry_at_view s x o Hs Hv). destruct o as [[[q d] bs]|]; [|done].
  by destruct Hv as (_ & _ & ->).
Qed.

Lemma flags_of_view s x o :
  dl_ok s -> dl_view s x o -> flags_of x s = match o with Some (_, d, _) => flags d | None => (false, false, false) end.
Proof. intros Hs Hv. unfold flags_of. rewrite (entry_at_view s x o Hs Hv). by destruct o as [[[q d] bs]|]. Qed.

Lemma known_block_now s x j b : dl_ok s -> block_now s x j b -> known_block x j s = b.
Proof. intros Hs (q & d & bs & Hv & Hb). rewrite (known_block_view _ _ _ _ Hs Hv). by rewrite Hb. Qed.

Lemma state_of_block x j s : state_of x j s = bstate (known_block x j s).
Proof. unfold state_of, known_block. destruct (entry_at x s); [|done]. by destruct (zget _ j). Qed.

Lemma only_changed_block s s' x j b : only_changed s s' x j b -> only_block s s' x j (bstate b).
Proof. intros [H _] y i Hy Hi. rewrite !state_of_block, H by done. by case_decide. Qed.

Lemma only_changed_intro s s' x j b :
  invariant s -> views_kept s s' x -> dl_ok s' ->
  (forall i, 0 <= i < blocks_in_piece x s -> known_block x i s' = if decide (i = j) then b else known_block x i s) ->
  flags_of x s' = flags_of x s -> only_changed s s' x j b.
Proof.
  intros Hi Hv Hdl Hx Hf.
  assert (forall y, y <> x -> 0 <= y < num_pieces s -> exists o, dl_view s y o /\ dl_view s' y o) as Hy.
  { intros y Hne Hb. destruct (zget_is_Some (m_piece_map s) y) as [p Hp]; [exact Hb|].
    destruct (in_pieces _ Hi y p Hp) as (o & Ho & _). exists o. split; [done|by apply Hv]. }
  split.
  - intros y i Hyb Hib. destruct (decide (y = x)) as [->|Hne]; [rewrite Hx by done; repeat case_decide; tauto|].
    rewrite decide_False by tauto. destruct (Hy y Hne Hyb) as (o & H1 & H2).
    by rewrite (known_block_view s y o i (in_downloads _ Hi) H1), (known_block_view s' y o i Hdl H2).
  - intros y Hyb. destruct (decide (y = x)) as [->|Hne]; [done|]. destruct (Hy y Hne Hyb) as (o & H1 & H2).
    by rewrite (flags_of_view s y o (in_downloads _ Hi) H1), (flags_of_view s' y o Hdl H2).
Qed.

Lemma kept_changed s x p j b s' :
  invariant s -> touched x s s' -> dl_ok s' -> piece_at x s = Some p -> download_state p <> piece_open ->
  blocks_kept s s' x j -> flags_kept s s' x -> block_now s' x j b -> only_changed s s' x j b.
Proof.
  intros Hi Ht Hdl Hp Ho Hk Hf Hb. apply only_changed_intro; [done|apply Ht|done| |].
  - intros i Hib. destruct (at_block_of s x i p Hi Hp Ho Hib) as (it & d & bs & bi & _ & _ & Hab).
    pose proof (at_block_now Hab) as Hnow. rewrite (known_block_now s x i bi) by (done || apply Hi).
    case_decide as Hij; [subst i; by apply known_block_now|]. apply known_block_now; [done|by apply Hk].
  - destruct (entry_of s x p Hi Hp Ho) as (it & d & bs & _ & _ & Hoe & <- & _).
    pose proof (on_entry_view _ _ _ _ Hoe) as Hv. destruct (Hf _ _ _ Hv) as (q' & d' & bs' & Hv' & Hd).
    by rewrite (flags_of_view _ _ _ Hdl Hv'), (flags_of_view _ _ _ (in_downloads _ Hi) Hv).
Qed.

Lemma opened_changed s s' x j b :
  invariant s -> touched x s s' -> dl_view s x None -> 0 <= j < blocks_in_piece x s ->
  opened_block s s' x j b -> only_changed s s' x j b.
Proof.
  intros Hi Ht Hv Hj (it & d & Hoe & <- & Hf). pose proof (blocks_bound s (dp_index d) Hi).
  pose proof (on_entry_view _ _ _ _ Hoe) as Hv'. apply only_changed_intro; [done|apply Ht|apply Hoe| |].
  - intros i Hib. rewrite (known_block_view s' _ _ i (oe_shape _ _ _ _ Hoe) Hv'), (known_block_view s _ _ i (in_downloads _ Hi) Hv).
    rewrite zget_insert by (rewrite length_replicate; lia). repeat case_decide; try congruence; [done|]. by rewrite zget_replicate by lia.
  - by rewrite (flags_of_view _ _ _ (oe_shape _ _ _ _ Hoe) Hv'), (flags_of_view _ _ _ (in_downloads _ Hi) Hv).
Qed.

(** Without a used block all blocks are free. *)
Lemma unused_blocks d bs n i b :
  counts_ok d (take (Z.to_nat n) bs) -> used d = 0 -> 0 <= i < n -> zget bs i = Some b -> bstate b = state_none.
Proof.
  intros Hco Hu Hi Hb. pose proof (counts_bound _ _ _ Hco ltac:(lia)) as (? & ? & ? & _).
  pose proof (counts_one _ _ _ _ _ Hco Hi Hb) as (C1 & C2 & C3 & _). unfold used, one in *.
  destruct (bstate b); repeat case_decide; done || lia.
Qed.

(** The piece was erased, for no block is used any more. *)
Lemma erased_only s it d bs p x j b n s' d' b' :
  at_block s s it d bs p x j b n -> touched x s s' -> dl_ok s' -> dl_view s' x None ->
  counts_ok d' (take (Z.to_nat n) (<[Z.to_nat j := b']> bs)) -> used d' = 0 -> only_block s s' x j (bstate b').
Proof.
  intros Hab Ht Hdl Hv Hco Hu. pose proof (zget_Some_bound _ _ _ (ab_block Hab)) as Hj.
  destruct Hab as [Hi _ _ Hoe Hd _ -> _ Hjn Hb]. pose proof (blocks_bound s x Hi).
  pose proof (on_entry_length _ _ _ _ Hoe) as Hlen.
  apply only_block_intro; [done|apply Ht|done|]. intros i Hib. rewrite (state_of_view s' x None) by done.
  destruct (zget_is_Some bs i) as [bi Hbi]; [lia|]. pose proof (zget_insert bs j b' i Hj) as Hz.
  case_decide as Hij.
  - subst i. rewrite decide_True by done. symmetry. by eapply (unused_blocks d' _ _ j).
  - rewrite decide_False by congruence. rewrite <- Hd, (state_of_entry _ _ _ _ i Hoe), Hbi. simpl.
    symmetry. eapply (unused_blocks d' _ _ i); try done. by rewrite Hz.
Qed.

(** The blocks of a piece that is not being downloaded. *)
Lemma state_open s x p j :
  invariant s -> piece_at x s = Some p -> download_state p = piece_open -> state_of x j s = state_none.
Proof.
  intros Hi Hp Ho. by rewrite (state_of_view s x None) by (apply Hi || by eapply open_view).
Qed.

Lemma state_in {s0 s it d bs p x j b n} : at_block s0 s it d bs p x j b n -> state_of x j s = bstate b.
Proof. intros Hab. eapply block_now_state; [apply Hab|exact (at_block_now Hab)]. Qed.

(** An operation that leaves all blocks alone. *)
Lemma only_block_id s x j st : state_of x j s = st -> only_block s s x j st.
Proof. intros <-. apply only_block_refl. Qed.

(** The number of peers a block is requested from. *)
Definition peers_of (x j : Z) (s : picker) : Z :=
  match entry_at x s with
  | Some d => from_option num_peers 0 (zget (slice s d) j)
  | None => 0
  end.

Lemma peers_of_entry s it d bs j :
  on_entry s it d bs -> peers_of (dp_index d) j s = from_option num_peers 0 (zget bs j).
Proof.
  intros Hoe. unfold peers_of. rewrite (entry_at_view _ _ _ (oe_shape _ _ _ _ Hoe) (on_entry_view _ _ _ _ Hoe)).
  simpl. by rewrite (oe_slice _ _ _ _ Hoe).
Qed.

Lemma peers_open s x p j :
  invariant s -> piece_at x s = Some p -> download_state p = piece_open -> peers_of x j s = 0.
Proof.
  intros Hi Hp Ho. unfold peers_of. rewrite (entry_at_view s x None); [done|apply Hi|by eapply open_view].
Qed.

Lemma peers_in {s0 s it d bs p x j b n} : at_block s0 s it d bs p x j b n -> peers_of x j s = num_peers b.
Proof. intros [_ _ _ Hoe <- _ _ _ _ Hb]. by rewrite (peers_of_entry _ _ _ _ _ Hoe), Hb. Qed.
