(* ===== verification/PickerHaveSpec.v ===== *)
(** * Having a piece, or not

    [we_have] and [we_dont_have] take a piece out of the pick list and put it
    back, move the cursors and count. *)

From Stdlib Require Import ZArith Lia.
From stdpp Require Import base numbers list sorting.
From S2P Require Import Prelude PickerState PickerList PickerOps PickerQuery PickerListSpec.
From S2P Require Import PickerMoveSpec PickerUpdateSpec PickerDownloadsSpec PickerInvariant PickerFrame.
From S2P Require Import PickerStateSpec PickerBlockSpec.

(** ** Leaving the list *)

(** A piece that is not in the list may change. *)
Lemma absent_put s x p p' :
  piece_at x s = Some p -> lists_at s x (-1) -> lists_at (put_piece x p' s) x (-1).
Proof.
  intros Hp Hl Hd. destruct (Hl Hd) as [bk Hbk]. exists bk.
  pose proof (displaced_absent _ _ _ _ Hbk ltac:(lia)) as Hx. destruct Hbk as [[H1 H2 H3 H4] Hk Hxk].
  assert (forall y, y <> x -> piece_at y (put_piece x p' s) = piece_at y s) as Hat.
  { intros y Hy. rewrite piece_at_put by eauto. by rewrite decide_False. }
  split; [split| |done]; try done.
  - intros i y Hy Hne Hi. destruct (H3 i y Hy Hne Hi) as (q & Hq & Hqi). unfold index_at. rewrite Hat; [by exists q|].
    intros ->. apply Hx. by eapply zget_elem.
  - intros j y Hj Hy. unfold priority_of. rewrite Hat by done. by apply Hk.
Qed.

(** The end of [we_have]: the piece, that was in the list or not, is taken
    out. *)
Lemma leave_list s x p prev :
  typed s -> lists_at s x prev -> -1 <= prev -> piece_at x s = Some p ->
  let s1 := put_piece x (set_have p) s in
  exists s', runs (if prev =? -1 then mret tt
                   else dirty ← get_dirty; if (dirty : bool) then mret tt else remove prev (index p)) s1 tt s' /\
    moved s1 s' /\ list_ok s'.
Proof.
  intros Ht Hl Hprev Hp s1.
  assert (piece_at x s1 = Some (set_have p)) as Hp1 by (unfold s1; rewrite piece_at_put, decide_True by eauto; done).
  assert (priority_of x s1 = Some (-1)) as Hk1.
  { rewrite (priority_of_at _ _ _ Hp1). unfold priority. by rewrite orb_true_r. }
  destruct (Z.eqb_spec prev (-1)) as [->|Hne].
  { exists s1. split_and!; [done|done|]. eapply lists_at_done; [by apply (absent_put s x p)|done]. }
  destruct (m_dirty s) eqn:Hdirty.
  { exists s1. split_and!; [|done|intros ?; change (m_dirty s1) with (m_dirty s) in *; congruence].
    eapply runs_bind; [apply runs_gets|]. change (m_dirty s1) with (m_dirty s). rewrite Hdirty. apply runs_ret. }
  destruct (Hl Hdirty) as [bk Hbk]. pose proof (shaped_short _ _ Ht (di_shaped _ _ _ _ Hbk)) as Hshort.
  pose proof (shaped_nodup _ _ (di_shaped _ _ _ _ Hbk)) as Hnd.
  destruct (displaced_split _ _ _ _ Hbk ltac:(lia)) as (before & l1 & l2 & after & -> & -> & (p0 & Hp0 & Hix & _) & Hrest).
  rewrite Hp in Hp0. injection Hp0 as <-. set (i := zlen (concat before ++ l1)) in *.
  pose proof Hbk as [[H1 H2 H3 H4] Hk Hxk].
  assert (m_pieces s = (concat before ++ l1) ++ x :: l2 ++ concat after) as Hm.
  { rewrite H1, concat_app. simpl. by rewrite <- !app_assoc. }
  assert (shaped_but s1 (before ++ (l1 ++ x :: l2) :: after) i) as Hsb.
  { split; [done|done| |done]. intros j y Hy Hy1 Hj. pose proof (zget_Some_bound _ _ _ Hy).
    destruct (H3 j y Hy Hy1) as (q & Hq & Hqi); [lia|]. exists q. split; [|done].
    unfold s1. rewrite piece_at_put by eauto. rewrite decide_False; [done|]. intros <-. apply Hj.
    eapply (indexed_once s (-1) j i x H3); try done; [lia|lia|]. rewrite Hm. by apply zget_mid. }
  destruct (remove_spec s1 before l1 x l2 after Hsb) as (s2 & bk2 & Hr & Hsh2 & Hmv & Hb2).
  { unfold short_list in *. exact Hshort. }
  exists s2. split_and!; [|done|].
  - eapply runs_bind; [apply runs_gets|]. change (m_dirty s1) with (m_dirty s). rewrite Hdirty. cbv beta iota.
    rewrite Hix. exact Hr.
  - intros _. exists bk2. split; [done|]. intros j y Hj. rewrite (Hb2 j Hj), Hrest by done.
    rewrite (moved_priority _ _ y Hmv). destruct (decide (y = x)) as [->|Hyx].
    + rewrite Hk1. split; [by intros [_ ?]|intros [= ?]; lia].
    + rewrite Hk by done. unfold priority_of, s1. rewrite piece_at_put by eauto. rewrite decide_False by done. tauto.
Qed.

(** ** Counting *)

Lemma count_insert (f : piece_pos -> bool) l x p p' :
  zget l x = Some p ->
  zlen (filter (fun p => f p = true) (<[Z.to_nat x := p']> l)) =
  zlen (filter (fun p => f p = true) l) - (if f p then 1 else 0) + (if f p' then 1 else 0).
Proof.
  intros H. unfold zget in H. case_decide; [|done].
  apply list_elem_of_split_length in H as (l1 & l2 & -> & Hx). rewrite Hx.
  rewrite insert_app_r_alt by lia. rewrite Nat.sub_diag. simpl.
  rewrite !filter_app, !filter_cons, !length_app. destruct (f p), (f p'); simpl; lia.
Qed.

Lemma differ_put x p s : is_Some (piece_at x s) -> differ_at (m_piece_map s) (m_piece_map (put_piece x p s)) x.
Proof.
  intros H. split; [apply length_insert|]. intros i Hi.
  pose proof (piece_at_put x p s i H) as Hat. rewrite decide_False in Hat by done. exact Hat.
Qed.

(** ** What the other pieces see *)

Record others_kept (x : Z) (s s' : picker) : Prop := {
  ok_num : num_pieces s' = num_pieces s;
  ok_pieces : forall y p, y <> x -> piece_at y s = Some p -> exists p', piece_at y s' = Some p' /\ same_piece p p';
  ok_views : views_kept s s' x;
  ok_seeds : m_seeds s' = m_seeds s;
  ok_bpp : m_blocks_per_piece s' = m_blocks_per_piece s;
  ok_last : m_blocks_in_last_piece s' = m_blocks_in_last_piece s;
}.

Lemma touched_others x s s' : touched x s s' -> others_kept x s s'.
Proof.
  intros Ht. pose proof Ht as [_ _ _ Hf]. apply fixed_inv in Hf as ((H1 & H2 & H3 & _) & _).
  split; [by eapply touched_num|apply Ht|apply Ht|done..].
Qed.

Lemma others_trans x s1 s2 s3 : others_kept x s1 s2 -> others_kept x s2 s3 -> others_kept x s1 s3.
Proof.
  intros [A B C D I J] [E F G H K L]. split; [congruence| |by eapply views_kept_trans|congruence..].
  intros y p Hy Hp. destruct (B y p Hy Hp) as (p2 & Hp2 & H12). destruct (F y p2 Hy Hp2) as (p3 & Hp3 & H23).
  exists p3. split; [done|]. by transitivity p2.
Qed.

Lemma others_put x p s : is_Some (piece_at x s) -> others_kept x s (put_piece x p s).
Proof.
  intros Hx. split; [unfold num_pieces; cbn; by rewrite length_insert| |by intros y o _|done..].
  intros y q Hy Hq. exists q. rewrite piece_at_put by done. by rewrite decide_False.
Qed.

Lemma others_blocks x s s' y : others_kept x s s' -> blocks_in_piece y s' = blocks_in_piece y s.
Proof. intros [A _ _ _ B C]. unfold blocks_in_piece. by rewrite A, B, C. Qed.

(** We have the piece now; nothing else of it that others see has changed. *)
Definition became_had (s s' : picker) (x : Z) : Prop :=
  exists p p', piece_at x s = Some p /\ piece_at x s' = Some p' /\ have p' = true /\
    peer_count p' = peer_count p /\ piece_prio p' = piece_prio p.

Lemma became_had_after s s1 s' x p1 p' :
  touched x s s1 -> piece_at x s1 = Some p1 -> piece_at x s' = Some p' -> have p' = true ->
  peer_count p' = peer_count p1 -> piece_prio p' = piece_prio p1 -> became_had s s' x.
Proof.
  intros Ht Hp1 Hp' Hh Hc Hpr. destruct (same_wanted_at _ _ _ _ (to_wanted _ _ _ Ht) Hp1) as (p & Hp & Hpc & Hpp & _).
  exists p, p'. split_and!; [done..|congruence|congruence].
Qed.

(** The invariant after the piece [x] is had or not any more. *)
Lemma others_invariant x s s' :
  invariant s -> others_kept x s s' -> typed s' -> list_ok s' -> cursors_ok s' -> counters_ok s' -> dl_ok s' ->
  (forall p, piece_at x s' = Some p -> exists o, dl_view s' x o /\ piece_ok (blocks_in_piece x s') p o) ->
  invariant s'.
Proof.
  intros Hi [Hn Ho Hv _ Hb Hlast] Hty Hl Hc Hct Hdl Hx. split; try done; [by rewrite Hb, Hlast; apply Hi|].
  intros y p' Hp'. destruct (decide (y = x)) as [->|Hy]; [by apply Hx|].
  assert (exists p, piece_at y s = Some p) as [p Hp].
  { apply zget_is_Some. apply zget_Some_bound in Hp'. unfold num_pieces in Hn. lia. }
  destruct (Ho y p Hy Hp) as (p2 & Hp2 & Hsame). rewrite Hp' in Hp2. injection Hp2 as <-.
  destruct (in_pieces _ Hi y p Hp) as (o & Hvo & Hok). exists o. split; [by apply Hv|].
  assert (blocks_in_piece y s' = blocks_in_piece y s) as ->
    by (unfold blocks_in_piece; rewrite Hn, Hb, Hlast; done).
  destruct o as [[[q d] bs]|]; simpl in *.
  - destruct (same_queue _ _ Hsame) as (G1 & G2 & G3). eapply piece_ok_same; [exact Hok|done..].
  - destruct Hsame as (_ & -> & _). done.
Qed.

Lemma moved_others x s s' : moved s s' -> others_kept x s s'.
Proof. intros Hm. by apply touched_others, moved_touched. Qed.

Lemma moved_cursors s s' : moved s s' -> cursors_ok s -> cursors_ok s'.
Proof. intros Hm. destruct (moved_touched 0 s s' Hm) as [Hw _ _ Hf]. by apply wanted_cursors. Qed.

Lemma moved_counters s s' : moved s s' -> counters_ok s -> counters_ok s'.
Proof. intros Hm. destruct (moved_touched 0 s s' Hm) as [Hw _ _ Hf]. by apply wanted_counters. Qed.

(** ** [we_have] *)

(** The cursors and the counters set. *)
Definition set_counts (nf nhf c r nh np : Z) (s : picker) : picker :=
  set_m_num_passed np (set_m_num_have nh (set_m_reverse_cursor r (set_m_cursor c
    (set_m_num_have_filtered nhf (set_m_num_filtered nf s))))).

Lemma others_counts x nf nhf c r nh np s : others_kept x s (set_counts nf nhf c r nh np s).
Proof. split; [done| |by intros y o _|done..]. intros y p _ Hp. by exists p. Qed.

Lemma dl_ok_counts nf nhf c r nh np s : dl_ok s -> dl_ok (set_counts nf nhf c r nh np s).
Proof. intros [n Hs]. exists n. by destruct Hs; split. Qed.

Lemma typed_counts nf nhf c r nh np s : typed s -> typed (set_counts nf nhf c r nh np s).
Proof. by intros []; split. Qed.

(** The cursors depend on the pieces and the cursors only. *)
Lemma cursors_lose_set x s t :
  m_piece_map s = m_piece_map t -> m_cursor s = m_cursor t -> m_reverse_cursor s = m_reverse_cursor t ->
  cursors_lose x s =
  set_m_reverse_cursor (m_reverse_cursor (cursors_lose x t)) (set_m_cursor (m_cursor (cursors_lose x t)) s).
Proof.
  intros Hm Hc Hr. unfold cursors_lose. rewrite Hm, Hc, Hr.
  repeat case_match; destruct s; cbn in *; by subst.
Qed.

Lemma cursors_gain_set x s t :
  m_piece_map s = m_piece_map t -> m_cursor s = m_cursor t -> m_reverse_cursor s = m_reverse_cursor t ->
  cursors_gain x s =
  set_m_reverse_cursor (m_reverse_cursor (cursors_gain x t)) (set_m_cursor (m_cursor (cursors_gain x t)) s).
Proof.
  intros Hm Hc Hr. unfold cursors_gain, num_pieces. rewrite Hc.
  destruct (x <? m_cursor t); cbn; rewrite Hr; destruct (m_reverse_cursor t <=? x); cbn;
    rewrite ?Hc, ?Hr, ?Hm; repeat match goal with |- context [if ?b then _ else _] => destruct b; cbn end;
    destruct s; cbn in *; by subst.
Qed.

(** Losing a piece that was not wanted does not move the cursors. *)
Lemma cursors_lose_unwanted l s x p :
  zget l x = Some p -> unwanted p = true ->
  first_wanted l 0 (m_cursor s) -> last_wanted l (zlen l) (m_reverse_cursor s) ->
  m_cursor (cursors_lose x s) = m_cursor s /\ m_reverse_cursor (cursors_lose x s) = m_reverse_cursor s.
Proof.
  intros Hp Hw (_ & _ & H1) (H2 & _ & H3). pose proof (zget_Some_bound _ _ _ Hp).
  unfold cursors_lose. rewrite (proj2 (Z.eqb_neq (m_cursor s) x)).
  2:{ intros He. rewrite He in H1. rewrite (H1 p Hp) in Hw. done. }
  rewrite andb_false_r, (proj2 (Z.eqb_neq (m_reverse_cursor s - 1) x)); [done|].
  intros He. rewrite He in H3. rewrite (H3 ltac:(lia) p Hp) in Hw. done.
Qed.

(** A piece that was not wanted and is not does not move them. *)
Lemma cursors_unwanted s x p p' :
  cursors_ok s -> piece_at x s = Some p -> unwanted p = true -> unwanted p' = true -> cursors_ok (put_piece x p' s).
Proof.
  intros [Hc Hr] Hp Hwp Hw. pose proof (differ_put x p' s ltac:(eauto)) as Hd.
  assert (zget (m_piece_map (put_piece x p' s)) x = Some p') as Hp'.
  { change (piece_at x (put_piece x p' s) = Some p'). rewrite piece_at_put, decide_True by eauto. done. }
  pose proof (zget_Some_bound _ _ _ Hp). split.
  - apply (first_lose (m_piece_map s) _ x p'); try done. cbn. intros He. destruct Hc as (_ & _ & C3).
    rewrite He in C3. rewrite (C3 p Hp) in Hwp. done.
  - apply (last_lose (m_piece_map s) _ x p'); try done. cbn. intros He. destruct Hr as (_ & _ & C3).
    rewrite He in C3. rewrite (C3 ltac:(lia) p Hp) in Hwp. done.
Qed.

(** The cursors after the piece at [x] has become unwanted, whether it was
    wanted or not. *)
Lemma cursors_lose_at s x p p' :
  cursors_ok s -> piece_at x s = Some p -> unwanted p' = true ->
  let s' := put_piece x p' s in
  first_wanted (m_piece_map s') 0 (m_cursor (cursors_lose x s')) /\
  last_wanted (m_piece_map s') (num_pieces s') (m_reverse_cursor (cursors_lose x s')).
Proof.
  intros [Hc Hr] Hp Hw s'. pose proof (differ_put x p' s ltac:(eauto)) as Hd. fold s' in Hd.
  assert (zget (m_piece_map s') x = Some p') as Hp'.
  { change (piece_at x s' = Some p'). unfold s'. rewrite piece_at_put, decide_True by eauto. done. }
  unfold num_pieces. destruct (unwanted p) eqn:Hwp.
  - destruct (cursors_lose_unwanted (m_piece_map s) s' x p) as [-> ->]; [done..|].
    by apply (cursors_unwanted s x p p').
  - apply (cursors_lose_spec (m_piece_map s) (m_piece_map s') s' x p p'); try done.
Qed.

(** The first half of [we_have]: the entry of the piece, if it has one, is
    erased. *)
Lemma drop_entry s x p (passed : downloading_piece -> M unit) :
  invariant s -> piece_at x s = Some p ->
  (forall d s0, exists np, runs (passed d) s0 tt (set_m_num_passed np s0)) ->
  exists s1 p1, runs (
      let st := download_queue p in
      if decide (st = piece_open) then mret tt
      else
        it ← query (find_dl_piece st x);
        d ← query (dl_deref it);
        _ ← passed d;
        erase_download_piece it) s tt s1 /\
    touched x s s1 /\ dl_ok s1 /\ dl_view s1 x None /\ piece_at x s1 = Some p1 /\
    download_state p1 = piece_open /\ index p1 = index p /\ same_wanted p p1 /\ m_dirty s1 = m_dirty s /\
    lists_at s1 x (priority (m_seeds s) p).
Proof.
  intros Hi Hp Hpass. cbv zeta. pose proof (list_ok_at _ _ _ (in_list _ Hi) (priority_of_at x s p Hp)) as Hl.
  destruct (decide (download_queue p = piece_open)) as [Ho|Ho].
  - apply queue_open in Ho. exists s, p. split_and!; try done; [apply Hi|by eapply open_view].
  - rewrite queue_open in Ho. destruct (entry_of s x p Hi Hp Ho) as (it & d & bs & Hr & Hq & Hoe & <- & _).
    destruct (Hpass d s) as [np Hrp]. destruct (entry_num_passed s it d bs np Hoe) as [Hoe1 Hqu].
    set (s0 := set_m_num_passed np s) in *.
    destruct (erase_on_entry s0 it d bs p Hoe1) as (s1 & Hr1 & Hdl & Hv & Hp1 & Ht1 & Hd1 & Hl1); try done.
    exists s1, (with_download_state piece_open p). split_and!; try done.
    + eapply runs_bind; [exact Hr|]. cbv beta. eapply runs_bind; [by eapply on_entry_deref|]. cbv beta.
      eapply runs_bind; [exact Hrp|exact Hr1].
    + transitivity s0; [apply Hqu|done].
    + apply Hl1. eapply lists_at_view; [apply Hqu|exact Hl].
Qed.

Lemma dec_passed_run b s : exists np, runs (when b dec_num_passed) s tt (set_m_num_passed np s).
Proof.
  destruct b; [by exists (m_num_passed s - 1)|]. exists (m_num_passed s). by destruct s.
Qed.

Lemma typed_put_piece x s p : typed s -> typed_piece p -> typed (put_piece x p s).
Proof.
  intros [H1 H2 H3] Hp. split; [by apply Forall_insert|done|]. unfold num_pieces in *. cbn. by rewrite length_insert.
Qed.

(** Counters of the pieces once [x] is [p']. *)
Lemma counts_put x s p p' : piece_at x s = Some p -> forall f,
  count_pieces f (put_piece x p' s) = count_pieces f s - (if f p then 1 else 0) + (if f p' then 1 else 0).
Proof. intros Hp f. unfold count_pieces. by apply count_insert. Qed.

Lemma counters_have s x p c r np :
  counters_ok s -> piece_at x s = Some p -> have p = false ->
  counters_ok (put_piece x (set_have p)
    (set_counts (m_num_filtered s - (if filtered p then 1 else 0))
       (m_num_have_filtered s + (if filtered p then 1 else 0)) c r (m_num_have s + 1) np s)).
Proof.
  intros (C1 & C2 & C3) Hp Hh. set (s' := set_counts _ _ _ _ _ _ s). unfold counters_ok.
  rewrite !(counts_put x s' p (set_have p) Hp). rewrite Hh, !andb_false_r, !andb_true_r.
  change (filtered (set_have p)) with (filtered p). change (have (set_have p)) with true.
  change (count_pieces have s') with (count_pieces have s).
  change (count_pieces (fun p => filtered p && negb (have p)) s')
    with (count_pieces (fun p => filtered p && negb (have p)) s).
  change (count_pieces (fun p => filtered p && have p) s') with (count_pieces (fun p => filtered p && have p) s).
  rewrite <- C1, <- C2, <- C3. cbn. destruct (filtered p); simpl; lia.
Qed.

Lemma we_have_spec s x p :
  invariant s -> piece_at x s = Some p -> have p = false ->
  exists s' p', runs (we_have x) s tt s' /\ invariant s' /\ others_kept x s s' /\
    piece_at x s' = Some p' /\ have p' = true /\ peer_count p' = peer_count p /\ piece_prio p' = piece_prio p /\
    m_num_have s' = m_num_have s + 1 /\ m_num_filtered s' = m_num_filtered s - (if filtered p then 1 else 0).
Proof.
  intros Hi Hp Hh. set (k := priority (m_seeds s) p).
  destruct (drop_entry s x p (fun d => when (dp_passed_hash_check d) dec_num_passed) Hi Hp)
    as (s1 & p1 & Hr1 & Ht1 & Hdl1 & Hv1 & Hp1 & Ho1 & Hix1 & (Hc1 & Hpr1 & Hh1) & Hd1 & Hl1).
  { intros d s0. apply dec_passed_run. }
  fold k in Hl1. pose proof Ht1 as [Hw1 _ _ Hf1].
  assert (typed s1) as Hty1 by (eapply wanted_typed; [exact Hw1|exact Hf1|apply Hi]).
  pose proof (wanted_cursors _ _ Hw1 Hf1 (in_cursors _ Hi)) as Hcu1.
  pose proof (wanted_counters _ _ Hw1 Hf1 (in_counters _ Hi)) as Hct1.
  set (s2 := put_piece x (set_have p1) s1).
  set (c := m_cursor (cursors_lose x s2)). set (r := m_reverse_cursor (cursors_lose x s2)).
  set (nf := m_num_filtered s1 - (if filtered p then 1 else 0)).
  set (nhf := m_num_have_filtered s1 + (if filtered p then 1 else 0)).
  set (s1' := set_counts nf nhf c r (m_num_have s1 + 1) (m_num_passed s1 + 1) s1).
  set (s3 := put_piece x (set_have p1) s1').
  assert (lists_at s1' x k) as Hl1' by (by apply (lists_at_view s1)).
  assert (-1 <= k) as Hk by (exact (priority_of_ge _ _ _ (in_typed _ Hi) (priority_of_at x s p Hp))).
  destruct (leave_list s1' x p1 k) as (s4 & Hr4 & Hmv4 & Hl4); try done; [by apply typed_counts|].
  fold s3 in Hr4, Hmv4.
  assert (unwanted (set_have p1) = true) as Hun by done.
  destruct (cursors_lose_at s1 x p1 (set_have p1) Hcu1 Hp1 Hun) as [Hfc Hlc]. fold s2 c r in Hfc, Hlc.
  assert (cursors_ok s3) as Hcu3 by (by split).
  assert (filtered p1 = filtered p) as Hfp by (unfold filtered; by rewrite Hpr1).
  assert (counters_ok s3) as Hct3.
  { unfold s3, s1', nf, nhf. rewrite <- Hfp. apply counters_have; [done|done|congruence]. }
  assert (piece_at x s3 = Some (set_have p1)) as Hp3 by (unfold s3; rewrite piece_at_put, decide_True by eauto; done).
  destruct (moved_piece _ _ _ _ Hmv4 Hp3) as (p4 & Hp4 & Hsc4 & Hsd4 & Hsp4 & Hsh4).
  assert (others_kept x s s4) as Hok.
  { eapply others_trans; [by apply touched_others|]. eapply others_trans; [|by apply moved_others].
    eapply others_trans; [apply others_counts|]. apply (others_put x (set_have p1) s1'). by exists p1. }
  pose proof Hmv4 as [_ Hrest4].
  assert (m_num_have s4 = m_num_have s1 + 1 /\ m_num_filtered s4 = nf) as [Hnh4 Hnf4] by (rewrite Hrest4; done).
  apply fixed_inv in Hf1 as ((F1 & F2 & F3 & F4) & F5 & F6 & F7 & F8 & F9).
  exists s4, p4. split_and!; try done.
  - unfold we_have. eapply runs_bind; [by apply runs_get_piece|]. cbv beta zeta.
    eapply runs_bind; [by apply runs_get_priority, priority_of_at|]. cbv beta. rewrite Hh.
    eapply runs_bind; [exact Hr1|].
    eapply (runs_bind _ _ _ tt (set_m_num_have_filtered nhf (set_m_num_filtered nf s1))).
    { unfold nhf, nf. destruct (filtered p); simpl; [done|]. rewrite Z.sub_0_r, Z.add_0_r. by destruct s1. }
    eapply runs_bind; [apply runs_modify|]. eapply runs_bind; [by apply runs_modify_piece; exact Hp1|].
    eapply runs_bind; [apply runs_modify|]. rewrite (cursors_lose_set x _ s2) by done.
    rewrite <- Hix1. exact Hr4.
  - pose proof (typed_piece_at _ _ _ Hty1 Hp1) as Htp1.
    apply (others_invariant x s); try done.
    + eapply moved_typed; [exact Hmv4|]. by apply typed_put_piece; [apply typed_counts|].
    + by eapply moved_cursors.
    + by eapply moved_counters.
    + eapply dl_ok_moved; [exact Hmv4|]. by apply dl_ok_put, dl_ok_counts.
    + intros q Hq. rewrite Hp4 in Hq. injection Hq as <-. exists None. split.
      * eapply (moved_views s3); [exact Hmv4|exact Hv1].
      * simpl. by rewrite Hsd4.
  - by rewrite Hsc4.
  - by rewrite Hsp4.
  - by rewrite Hnh4, F8.
  - rewrite Hnf4. unfold nf. by rewrite F4.
Qed.

(** ** [we_dont_have] *)

Lemma counters_lost s x p c r np :
  counters_ok s -> piece_at x s = Some p -> have p = true ->
  counters_ok (put_piece x (set_not_have p)
    (set_counts (m_num_filtered s + (if filtered p then 1 else 0))
       (m_num_have_filtered s - (if filtered p then 1 else 0)) c r (m_num_have s - 1) np s)).
Proof.
  intros (C1 & C2 & C3) Hp Hh. set (s' := set_counts _ _ _ _ _ _ s). unfold counters_ok.
  rewrite !(counts_put x s' p (set_not_have p) Hp). rewrite Hh, !andb_false_r, !andb_true_r.
  change (filtered (set_not_have p)) with (filtered p). change (have (set_not_have p)) with false.
  change (count_pieces have s') with (count_pieces have s).
  change (count_pieces (fun p => filtered p && negb (have p)) s')
    with (count_pieces (fun p => filtered p && negb (have p)) s).
  change (count_pieces (fun p => filtered p && have p) s') with (count_pieces (fun p => filtered p && have p) s).
  rewrite <- C1, <- C2, <- C3. cbn. destruct (filtered p); simpl; lia.
Qed.

(** The cursors once the piece is not had. *)
Lemma cursors_lost s x p :
  cursors_ok s -> piece_at x s = Some p -> have p = true ->
  let s0 := if filtered p then s else cursors_gain x s in
  let s' := put_piece x (set_not_have p) s in
  first_wanted (m_piece_map s') 0 (m_cursor s0) /\ last_wanted (m_piece_map s') (num_pieces s') (m_reverse_cursor s0).
Proof.
  intros Hc Hp Hh s0 s'. assert (unwanted p = true) as Hu by (unfold unwanted; by rewrite Hh).
  unfold s0. destruct (filtered p) eqn:Hf.
  - apply (cursors_unwanted s x p (set_not_have p)); try done.
  - pose proof (differ_put x (set_not_have p) s ltac:(eauto)) as Hd. destruct Hc as [Hc Hr].
    apply (cursors_gain_spec (m_piece_map s) (m_piece_map s') s x p (set_not_have p)); try done.
    change (piece_at x s' = Some (set_not_have p)). unfold s'. rewrite piece_at_put, decide_True by eauto. done.
Qed.

Section random.
Context (random_values : nat -> Z).

(** The end of [we_dont_have]: the piece joins the list if it has a
    priority. *)
Lemma join_list s x :
  typed s -> lists_at s x (-1) -> is_Some (priority_of x s) ->
  exists s', runs (
    dirty ← get_dirty;
    if (dirty : bool) then mret tt
    else prio ← get_priority x; when (0 <=? prio) (add random_values x)) s tt s' /\ moved s s' /\ list_ok s'.
Proof.
  intros Ht Hl [k Hk]. pose proof (priority_of_ge _ _ _ Ht Hk). destruct (m_dirty s) eqn:Hd.
  { exists s. split_and!; [|done|intros ?; congruence]. eapply runs_bind; [apply runs_gets|]. by rewrite Hd. }
  destruct (decide (k = -1)) as [->|Hne].
  - exists s. split_and!; [|done|by eapply lists_at_done]. eapply runs_bind; [apply runs_gets|]. rewrite Hd.
    eapply runs_bind; [by apply runs_get_priority|]. done.
  - destruct (settle_spec random_values s x (-1)) as (s' & Hr & Hmv & Hok); [done..|by exists k|].
    exists s'. split_and!; [|done|done]. eapply runs_bind; [apply runs_gets|]. rewrite Hd.
    eapply runs_bind; [by apply runs_get_priority|]. cbv beta. by rewrite (proj2 (Z.leb_le 0 k)) by lia.
Qed.

Lemma we_dont_have_spec s x p :
  invariant s -> piece_at x s = Some p -> have p = true ->
  exists s' p', runs (we_dont_have random_values x) s tt s' /\ invariant s' /\ others_kept x s s' /\
    piece_at x s' = Some p' /\ have p' = false /\ peer_count p' = peer_count p /\ piece_prio p' = piece_prio p /\
    m_num_have s' = m_num_have s - 1 /\ m_num_filtered s' = m_num_filtered s + (if filtered p then 1 else 0) /\ download_state p' = piece_open.
Proof.
  intros Hi Hp Hh. destruct (in_pieces _ Hi x p Hp) as ([[[q d] bs]|] & Hv & Hok); [destruct Hok as (_ & ? & _); congruence|].
  simpl in Hok. set (s0 := if filtered p then s else cursors_gain x s).
  set (nf := m_num_filtered s + (if filtered p then 1 else 0)).
  set (nhf := m_num_have_filtered s - (if filtered p then 1 else 0)).
  set (s1 := set_counts nf nhf (m_cursor s0) (m_reverse_cursor s0) (m_num_have s - 1) (m_num_passed s - 1) s).
  set (p2 := set_not_have p). set (s2 := put_piece x p2 s1).
  assert (priority (m_seeds s) p = -1) as Hk by (unfold priority; by rewrite Hh, orb_true_r).
  pose proof (list_ok_at _ _ _ (in_list _ Hi) (priority_of_at x s p Hp)) as Hl. rewrite Hk in Hl.
  assert (lists_at s2 x (-1)) as Hl2 by (apply (absent_put s1 x p); [done|]; by apply (lists_at_view s)).
  pose proof (typed_piece_at _ _ _ (in_typed _ Hi) Hp) as Htp.
  assert (typed s2) as Ht2 by (apply typed_put_piece; [apply typed_counts, Hi|done]).
  assert (piece_at x s2 = Some p2) as Hp2 by (unfold s2; rewrite piece_at_put by (by exists p); by rewrite decide_True).
  destruct (join_list s2 x Ht2 Hl2) as (s3 & Hr3 & Hmv & Hl3); [by eapply priority_of_some|].
  destruct (moved_piece _ _ _ _ Hmv Hp2) as (p3 & Hp3 & Hc3 & Hd3 & Hpr3 & Hh3).
  pose proof Hmv as [_ Hrest].
  assert (others_kept x s s3) as Hok3.
  { eapply others_trans; [apply others_counts|]. eapply others_trans; [|by apply moved_others].
    apply (others_put x p2 s1). by exists p. }
  exists s3, p3. split_and!; try done.
  - unfold we_dont_have. eapply runs_bind; [by apply runs_get_piece|]. cbv beta. rewrite Hh.
    eapply runs_bind; [apply runs_modify|].
    eapply (runs_bind _ _ _ tt (set_m_reverse_cursor (m_reverse_cursor s0) (set_m_cursor (m_cursor s0)
      (set_m_num_have_filtered nhf (set_m_num_filtered nf (set_m_num_passed (m_num_passed s - 1) s)))))).
    { unfold s0, nhf, nf. destruct (filtered p); [done|]. unfold runs, modify. rewrite Z.sub_0_r, Z.add_0_r.
      by rewrite (cursors_gain_set x _ s). }
    eapply runs_bind; [apply runs_modify|]. eapply runs_bind; [apply runs_modify_piece; exact Hp|]. exact Hr3.
  - apply (others_invariant x s); try done.
    + by eapply moved_typed.
    + eapply moved_cursors; [exact Hmv|]. exact (cursors_lost s x p (in_cursors _ Hi) Hp Hh).
    + eapply moved_counters; [exact Hmv|]. apply counters_lost; [apply Hi|done|done].
    + eapply dl_ok_moved; [exact Hmv|]. apply dl_ok_put, dl_ok_counts, Hi.
    + intros q Hq. rewrite Hp3 in Hq. injection Hq as <-. exists None. split.
      * eapply (moved_views s2); [exact Hmv|exact Hv].
      * simpl. by rewrite Hd3.
  - by rewrite Hrest.
  - by rewrite Hrest.
  - by rewrite Hd3.
Qed.
End random.
