(* ===== verification/PickerWriteSpec.v ===== *)
(** * Writing, finishing and giving up blocks

    The operations a block goes through after it was requested, and those
    that give a piece up.  Each keeps the invariant; an entry no block of
    which is used is erased. *)

From Stdlib Require Import ZArith Lia.
From stdpp Require Import base numbers list sorting.
From S2P Require Import Prelude PickerState PickerList PickerOps PickerListSpec PickerDownloadsSpec.
From S2P Require Import PickerInvariant PickerFrame PickerStateSpec PickerBlockSpec PickerHaveSpec.

(** ** Frames *)

(** An entry whose counts and blocks agree, while its piece may be in the
    wrong list. *)
Record in_flight (s0 s : picker) (it : dl_iter) (d : downloading_piece) (bs : list block_info)
  (p : piece_pos) (x n : Z) : Prop := {
  fl_inv : invariant s0;
  fl_touched : touched x s0 s;
  fl_list : list_ok s;
  fl_entry : on_entry s it d bs;
  fl_index : dp_index d = x;
  fl_piece : piece_at x s = Some p;
  fl_num : n = blocks_in_piece x s0;
  fl_queue : download_queue p = it_queue it;
  fl_have : have p = false;
  fl_state : download_state p <> piece_open;
  fl_counts : counts_ok d (take (Z.to_nat n) bs);
}.

Lemma fl_typed {s0 s it d bs p x n} : in_flight s0 s it d bs p x n -> typed s.
Proof. intros [Hi Ht _ _ _ _ _ _ _ _ _]. destruct Ht; eapply wanted_typed; [done..|apply Hi]. Qed.

(** A block was changed and the entry with it. *)
Lemma fly {s0 s it d bs p x j b n} s3 d3 bs3 :
  at_block s0 s it d bs p x j b n -> quiet x s s3 -> on_entry s3 it d3 bs3 -> dp_index d3 = x ->
  counts_ok d3 (take (Z.to_nat n) bs3) -> in_flight s0 s3 it d3 bs3 p x n.
Proof.
  intros Hab Hqu Hoe Hd Hco. pose proof (ab_state Hab). destruct Hab as [Hi Ht Hl _ _ Hp Hn (Hq & Hh & _ & _) _ _].
  split; try done.
  - transitivity s; [done|apply Hqu].
  - by eapply quiet_list_ok.
  - by rewrite (quiet_piece x s s3).
Qed.

Lemma fly_quiet {s0 s it d bs p x n} s3 d3 :
  in_flight s0 s it d bs p x n -> quiet x s s3 -> on_entry s3 it d3 bs -> dp_index d3 = x ->
  dp_requested d3 = dp_requested d -> dp_writing d3 = dp_writing d -> dp_finished d3 = dp_finished d ->
  in_flight s0 s3 it d3 bs p x n.
Proof.
  intros [Hi Ht Hl _ _ Hp Hn Hq Hh Ho [C1 C2 C3 C4]] Hqu Hoe Hd H1 H2 H3. split; try done.
  - transitivity s; [done|apply Hqu].
  - by eapply quiet_list_ok.
  - by rewrite (quiet_piece x s s3).
  - split; congruence.
Qed.

(** The piece is in the right list as well. *)
Lemma land_invariant {s0 s it d bs p x n} :
  in_flight s0 s it d bs p x n -> placed (it_queue it) p d n -> invariant s.
Proof.
  intros [Hi Ht Hl Hoe <- Hp -> Hq Hh Ho Hco] He.
  eapply (entry_invariant s0); [done|done|done|exact Hoe|exact Hp|].
  rewrite (touched_blocks (dp_index d) s0 s) by done. by split_and!.
Qed.

Section random.
Context (random_values : nat -> Z).

Lemma fly_settle {s0 s it d bs p x n} :
  in_flight s0 s it d bs p x n ->
  exists s' it' p', runs (update_piece_state random_values it) s it' s' /\ in_flight s0 s' it' d bs p' x n /\
    (used d <> 0 -> invariant s').
Proof.
  intros Hfl. pose proof (fl_typed Hfl) as Hty. destruct Hfl as [Hi Ht Hl Hoe <- Hp -> Hq Hh Ho Hco].
  destruct (update_piece_state_spec random_values s it d bs p Hty Hl Hoe Hp Hq Ho)
    as (s' & it' & p' & Hr & Hoe' & Hq' & Ht' & Hl' & Hp' & Hs').
  rewrite (touched_blocks (dp_index d) s0 s) in * by done.
  assert (touched (dp_index d) s0 s') as Ht2 by (by etransitivity).
  destruct (same_queue _ _ Hs') as (Q1 & Q2 & Q3).
  assert (in_flight s0 s' it' d bs p' (dp_index d) (blocks_in_piece (dp_index d) s0)) as Hfl'.
  { split; try done; [congruence|by rewrite Q3|]. destruct Hs' as (_ & -> & _). cbn. unfold settled_state. by case_decide. }
  exists s', it', p'. split_and!; [done|done|]. intros Hu.
  eapply (entry_invariant s0); [done|done|done|exact Hoe'|exact Hp'|].
  rewrite (touched_blocks (dp_index d) s0 s') by done. eapply settled_ok; [exact Hs'|exact Hq'|done|done|done].
Qed.

(** *** Erasing *)

(** The piece is not being downloaded any more. *)
Lemma erased_invariant s0 s x p :
  invariant s0 -> touched x s0 s -> list_ok s -> dl_ok s -> dl_view s x None -> piece_at x s = Some p ->
  download_state p = piece_open -> invariant s.
Proof.
  intros Hi Ht Hl Hdl Hv Hp Ho. eapply (touched_invariant x s0); [done..|].
  intros q Hq. rewrite Hp in Hq. injection Hq as <-. by exists None.
Qed.

Lemma fly_erase {s0 s it d bs p x n} k :
  in_flight s0 s it d bs p x n -> lists_at s x k ->
  exists s', runs (erase_download_piece it) s tt s' /\ touched x s0 s' /\ dl_ok s' /\ dl_view s' x None /\
    typed s' /\ piece_at x s' = Some (with_download_state piece_open p) /\ lists_at s' x k.
Proof.
  intros Hfl Hk. pose proof (fl_typed Hfl) as Hty. destruct Hfl as [Hi Ht Hl Hoe <- Hp -> Hq Hh Ho Hco].
  destruct (erase_on_entry s it d bs p Hoe Hp Hq) as (s' & Hr & Hdl & Hv & Hp' & Ht' & _ & Hk').
  exists s'. split_and!; try done; [by etransitivity| |by apply Hk'].
  destruct Ht'. by eapply wanted_typed.
Qed.

(** [restore_piece] and [erase_if_unused]. *)
Lemma fly_restore {s0 s it d bs p x n} :
  in_flight s0 s it d bs p x n ->
  exists s', runs (prev_priority ← get_priority x;
                   _ ← erase_download_piece it;
                   reposition random_values prev_priority x) s tt s' /\
    invariant s' /\ touched x s0 s' /\ dl_view s' x None.
Proof.
  intros Hfl. pose proof (fl_piece _ _ _ _ _ _ _ _ Hfl) as Hp. pose proof (priority_of_at _ _ _ Hp) as Hk.
  pose proof (list_ok_at _ _ _ (fl_list _ _ _ _ _ _ _ _ Hfl) Hk) as Hl.
  destruct (fly_erase _ Hfl Hl) as (s1 & Hr1 & Ht1 & Hdl1 & Hv1 & Hty1 & Hp1 & Hl1).
  destruct (reposition_spec random_values s1 x (priority (m_seeds s) p) Hty1) as (s2 & Hr2 & Hmv2 & Hl2); [|..].
  { by eapply priority_of_some. }
  { exact (priority_of_ge _ _ _ (fl_typed Hfl) Hk). }
  { done. }
  destruct (moved_piece _ _ _ _ Hmv2 Hp1) as (p2 & Hp2 & Hs2).
  assert (touched x s0 s2) as Ht2 by (transitivity s1; [done|by apply moved_touched]).
  exists s2. split_and!; [| |done|by eapply (moved_views s1)].
  - eapply runs_bind; [by apply runs_get_priority|]. cbv beta. eapply runs_bind; [exact Hr1|exact Hr2].
  - eapply (erased_invariant s0 s2 x p2); try done; [apply Hfl|by eapply dl_ok_moved|by eapply (moved_views s1)|].
    by destruct Hs2 as (_ & -> & _).
Qed.

Lemma fly_settle_or_erase {s0 s it d bs p x n} :
  in_flight s0 s it d bs p x n ->
  exists s', runs (it ← update_piece_state random_values it; erase_if_unused random_values it x) s tt s' /\
    invariant s' /\ touched x s0 s' /\
    (if decide (used d = 0) then dl_view s' x None else exists it', on_entry s' it' d bs).
Proof.
  intros Hfl. destruct (fly_settle Hfl) as (s1 & it1 & p1 & Hr1 & Hfl1 & Hinv).
  assert (dp_finished d + dp_writing d + dp_requested d = used d) as Hu by (unfold used; lia).
  case_decide as H0.
  - destruct (fly_restore Hfl1) as (s2 & Hr2 & Hi2 & Ht2 & Hv2). exists s2. split_and!; try done.
    eapply runs_bind; [exact Hr1|]. unfold erase_if_unused.
    eapply runs_bind; [eapply on_entry_deref, Hfl1|]. cbv beta. rewrite Hu, H0. exact Hr2.
  - exists s1. split_and!; [|by apply Hinv|apply Hfl1|exists it1; apply Hfl1].
    eapply runs_bind; [exact Hr1|]. unfold erase_if_unused.
    eapply runs_bind; [eapply on_entry_deref, Hfl1|]. cbv beta. rewrite Hu, (proj2 (Z.eqb_neq _ _)) by done. done.
Qed.

(** *** [mark_as_writing] *)

Lemma downloading_open p : downloading p = false <-> download_state p = piece_open.
Proof. unfold downloading. rewrite negb_false_iff, bool_decide_eq_true. done. Qed.

Lemma mark_as_writing_open s x j peer p :
  invariant s -> piece_at x s = Some p -> download_state p = piece_open -> have p = false ->
  0 <= j < blocks_in_piece x s -> slots_left s ->
  exists s', runs (mark_as_writing random_values (PB x j) peer) s true s' /\ invariant s' /\
    touched x s s' /\ opened_block s s' x j (BI peer 0 state_writing).
Proof.
  intros Hi Hp Ho Hh Hj Hleft. pose proof (blocks_bound s x Hi) as Hb.
  destruct (open_start random_values s x p piece_downloading)
    as (s1 & it & k & Hr1 & Hoe1 & Hclose); try done; [by left|].
  set (d := new_entry x k) in *. set (bs := replicate _ _) in Hoe1.
  assert (zget bs j = Some default_block_info) as Hbj by (apply zget_replicate; lia).
  destruct (entry_block s1 it d bs d j default_block_info (fun _ => BI peer 0 state_writing) Hoe1 eq_refl Hbj)
    as (s2 & Hr2 & Hoe2 & Hqu2).
  destruct (entry_modify s2 it d _ (dp_with_writing 1) Hoe2 eq_refl eq_refl) as (s3 & Hr3 & Hoe3 & Hqu3).
  destruct (Hclose s3 _ _ (transitivity Hqu2 Hqu3) Hoe3) as (s4 & it4 & Hr4 & Hi4 & Ht4 & Hoe4); try done.
  { eapply (counts_change d _ bs _ j default_block_info); try done. apply counts_new. }
  exists s4. split_and!; [|done|done|].
  - unfold mark_as_writing. cbn [piece_index block_index].
    eapply runs_bind; [by apply runs_get_piece|]. cbv beta. rewrite (proj2 (downloading_open p) Ho), Hh.
    eapply runs_bind; [exact Hr1|]. eapply runs_bind; [eapply on_entry_deref, Hoe1|].
    eapply runs_bind; [exact Hr2|]. eapply runs_bind; [exact Hr3|]. eapply runs_bind; [exact Hr4|apply runs_ret].
  - by eexists it4, _.
Qed.

(** The counts of an entry and the state of one of its blocks. *)
Lemma ab_counts {s0 s it d bs p x j b n} :
  at_block s0 s it d bs p x j b n ->
  n < 2 ^ 15 /\ used d <= n /\ one b state_requested <= dp_requested d /\ one b state_writing <= dp_writing d /\
  one b state_finished <= dp_finished d /\
  used d + 1 <= n + one b state_requested + one b state_writing + one b state_finished.
Proof.
  intros Hab. pose proof (blocks_bound _ x (ab_inv Hab)). pose proof (bpp_bound _ (ab_inv Hab)).
  destruct Hab as [_ _ _ _ _ _ Hn (_ & _ & _ & Hco) Hj Hb].
  pose proof (counts_bound _ _ _ Hco ltac:(lia)) as (? & ? & ? & ?).
  pose proof (counts_one _ _ _ _ _ Hco Hj Hb) as (? & ? & ? & ?). lia.
Qed.

Lemma one_nonneg b st : 0 <= one b st <= 1.
Proof. unfold one. case_decide; lia. Qed.

(** A block moves to another state, and the counts with it. *)
Lemma ab_counted {s0 s it d bs p x j b n} d' b' :
  at_block s0 s it d bs p x j b n -> peers_ok b' ->
  dp_requested d' = dp_requested d - one b state_requested + one b' state_requested ->
  dp_writing d' = dp_writing d - one b state_writing + one b' state_writing ->
  dp_finished d' = dp_finished d - one b state_finished + one b' state_finished ->
  counts_ok d' (take (Z.to_nat n) (<[Z.to_nat j := b']> bs)).
Proof.
  intros [_ _ _ _ _ _ _ (_ & _ & _ & Hco) Hj Hb] Hp H1 H2 H3. by eapply (counts_change d d' bs n j b b').
Qed.

Lemma ab_result {s0 s it d bs p x j b n} s' it' d' b' :
  at_block s0 s it d bs p x j b n -> on_entry s' it' d' (<[Z.to_nat j := b']> bs) -> dp_index d' = x ->
  block_now s' x j b' /\ blocks_kept s s' x j.
Proof.
  intros Hab Hoe' Hd'. pose proof (zget_Some_bound _ _ _ (ab_block Hab)) as Hj.
  destruct Hab as [_ _ _ Hoe Hd _ _ _ _ _]. split.
  - eapply block_now_entry; [exact Hoe'|done|]. rewrite zget_insert by done. by rewrite decide_True.
  - by eapply blocks_kept_insert.
Qed.

(** An optional change of the entry. *)
Lemma entry_when (c : bool) s it d bs x f :
  on_entry s it d bs -> dp_index d = x -> dp_index (f d) = dp_index d -> dp_info_idx (f d) = dp_info_idx d ->
  let d' := if c then f d else d in
  exists s', runs (when c (dl_modify it f)) s tt s' /\ on_entry s' it d' bs /\ quiet x s s' /\
    dp_index d' = x /\ dp_info_idx d = dp_info_idx d'.
Proof.
  intros Hoe <- Hx Hi. destruct c; [|by exists s]. destruct (entry_modify s it d bs f Hoe Hx Hi) as (s' & ? & ? & ?).
  by exists s'.
Qed.

Lemma ab_fly {s0 s it d bs p x j b n} s3 d3 b3 :
  at_block s0 s it d bs p x j b n -> quiet x s s3 -> on_entry s3 it d3 (<[Z.to_nat j := b3]> bs) ->
  dp_index d3 = x -> peers_ok b3 ->
  dp_requested d3 = dp_requested d - one b state_requested + one b3 state_requested ->
  dp_writing d3 = dp_writing d - one b state_writing + one b3 state_writing ->
  dp_finished d3 = dp_finished d - one b state_finished + one b3 state_finished ->
  in_flight s0 s3 it d3 (<[Z.to_nat j := b3]> bs) p x n.
Proof. intros Hab Hqu Hoe Hd Hp H1 H2 H3. eapply (fly s3 d3); try done. by eapply ab_counted. Qed.

(** Only the peer of the block changes. *)
Lemma change_peer {s it d bs p x j b n} peer :
  at_block s s it d bs p x j b n ->
  exists s', runs (modify_block d j (with_peer peer)) s tt s' /\ invariant s' /\ touched x s s' /\
    block_now s' x j (with_peer peer b) /\ blocks_kept s s' x j /\ flags_kept s s' x.
Proof.
  intros Hab. destruct (ab_change (with_peer peer) Hab) as (s1 & Hr1 & Hoe1 & Hqu1 & _).
  pose proof (ab_peers Hab) as Hpe.
  assert (in_flight s s1 it d (<[Z.to_nat j := with_peer peer b]> bs) p x n) as Hfl.
  { eapply ab_fly; try done; [by eapply ab_index|unfold one; cbn; lia..]. }
  destruct (ab_result s1 it d _ Hab Hoe1 (ab_index Hab)) as [Hnow Hkept].
  exists s1. split_and!; [done| |apply Hqu1|done|done|eapply flags_kept_entry; [apply Hab|by eapply ab_index|exact Hoe1|by eapply ab_index|done]].
  eapply land_invariant; [exact Hfl|]. by destruct Hab as [_ _ _ _ _ _ _ (_ & _ & ? & _) _ _].
Qed.

(** The body of [mark_as_writing], for a block that is neither written nor
    finished. *)
Definition write_block (it : dl_iter) (d : downloading_piece) (j peer : Z) (b : block_info) : M bool :=
  _ ← modify_block d j (with_peer peer);
  _ ← when (bool_decide (bstate b = state_requested)) (dl_modify it (fun d => dp_with_requested (dp_requested d - 1) d));
  if negb (can_request b) then mret false
  else
    _ ← dl_modify it (fun d => dp_with_writing (dp_writing d + 1) d);
    _ ← modify_block d j (fun b => with_num_peers 0 (with_bstate state_writing b));
    _ ← update_piece_state random_values it;
    mret true.

Lemma write_block_free {s it d bs p x j b} peer :
  at_block s s it d bs p x j b (blocks_in_piece x s) -> can_request b = true ->
  exists s', runs (write_block it d j peer b) s true s' /\ invariant s' /\
    touched x s s' /\ blocks_kept s s' x j /\ flags_kept s s' x /\ block_now s' x j (BI peer 0 state_writing).
Proof.
  intros Hab Hcan. pose proof (ab_index Hab) as Hd. pose proof (zget_Some_bound _ _ _ (ab_block Hab)) as Hjl.
  destruct (ab_change (with_peer peer) Hab) as (s1 & Hr1 & Hoe1 & Hqu1 & _).
  destruct (entry_when (bool_decide (bstate b = state_requested)) s1 it d _ x
    (fun d => dp_with_requested (dp_requested d - 1) d) Hoe1 Hd eq_refl eq_refl) as (s2 & Hr2 & Hoe2 & Hqu2 & Hd2 & Hi2).
  set (d2 := if bool_decide _ then _ else _) in *.
  destruct (entry_modify s2 it d2 _ (fun d => dp_with_writing (dp_writing d + 1) d) Hoe2 eq_refl eq_refl)
    as (s3 & Hr3 & Hoe3 & Hqu3). set (d3 := dp_with_writing (dp_writing d2 + 1) d2) in *. rewrite Hd2 in Hqu3.
  destruct (again_block (fun b => with_num_peers 0 (with_bstate state_writing b)) Hoe3 Hd2 Hi2 Hjl)
    as (s4 & Hr4 & Hoe4 & Hqu4). cbn beta in Hoe4.
  change (with_num_peers _ _) with (BI peer 0 state_writing) in Hoe4.
  destruct (ab_counts Hab) as (C1 & C2 & C3 & C4 & C5 & C6). unfold used in C2, C6.
  assert (dp_requested d3 = dp_requested d - one b state_requested /\ dp_writing d3 = dp_writing d + 1 /\
    dp_finished d3 = dp_finished d) as (R3 & W3 & F3).
  { pose proof (one_nonneg b state_requested). pose proof (one_nonneg b state_finished).
    pose proof (one_nonneg b state_writing). 
    assert (one b state_writing = 0 /\ one b state_finished = 0) as [O1 O2].
    { unfold one. by destruct (can_request_inv b Hcan) as [-> | ->]. }
    unfold d3, d2, one in *. destruct (bool_decide_reflect (bstate b = state_requested)) as [E|E]; cbn.
    all: rewrite ?bits15_small; rewrite ?decide_True, ?decide_False in * by done; lia. }
  assert (in_flight s s4 it d3 (<[Z.to_nat j := BI peer 0 state_writing]> bs) p x (blocks_in_piece x s)) as Hfl.
  { apply (ab_fly s4 d3 (BI peer 0 state_writing) Hab); try done.
    - transitivity s1; [done|]. transitivity s2; [done|]. by transitivity s3.
    - rewrite R3. unfold one. simpl. lia.
    - rewrite W3. unfold one. destruct (can_request_inv b Hcan) as [-> | ->]; simpl; lia.
    - rewrite F3. unfold one. destruct (can_request_inv b Hcan) as [-> | ->]; simpl; lia. }
  destruct (fly_settle Hfl) as (s5 & it5 & p5 & Hr5 & Hfl5 & Hinv).
  destruct (ab_result s5 it5 d3 _ Hab (fl_entry _ _ _ _ _ _ _ _ Hfl5) (fl_index _ _ _ _ _ _ _ _ Hfl5)) as [Hn5 Hk5].
  assert (flags d3 = flags d) as Hf3 by (unfold d3, d2; by destruct (bool_decide _)).
  exists s5. split_and!; [|apply Hinv|apply Hfl5|done| |done].
  - unfold write_block. rewrite Hcan. step Hr1. step Hr2. cbn [negb]. step Hr3. step Hr4. step Hr5. apply runs_ret.
  - unfold used. pose proof (one_nonneg b state_writing). pose proof (one_nonneg b state_finished). lia.
  - eapply flags_kept_entry; [apply Hab|done|apply Hfl5|apply Hfl5|done].
Qed.

Lemma mark_as_writing_entry s x j peer p b :
  invariant s -> piece_at x s = Some p -> download_state p <> piece_open ->
  0 <= j < blocks_in_piece x s -> block_now s x j b ->
  exists s', runs (mark_as_writing random_values (PB x j) peer) s (can_request b) s' /\ invariant s' /\
    touched x s s' /\ blocks_kept s s' x j /\ flags_kept s s' x /\
    block_now s' x j (if can_request b then BI peer 0 state_writing else with_peer peer b).
Proof.
  intros Hi Hp Ho Hj Hnow.
  destruct (at_block_of s x j p Hi Hp Ho Hj) as (it & d & bs & b0 & Hr & Hq & Hab).
  pose proof (block_now_unique _ _ _ _ _ (in_downloads _ Hi) Hnow (at_block_now Hab)) as <-.
  assert (forall v t, runs (write_block it d j peer b) s v t -> runs (mark_as_writing random_values (PB x j) peer) s v t) as Hrun.
  { intros v t H. unfold mark_as_writing. cbn [piece_index block_index].
    eapply runs_bind; [by apply runs_get_piece|]. cbv beta.
    assert (downloading p = true) as -> by (apply not_false_iff_true; by rewrite downloading_open). cbn [negb].
    step Hr. eapply runs_bind; [eapply on_entry_deref, Hab|]. cbv beta.
    eapply runs_bind; [eapply on_entry_block; [apply Hab|done|apply (ab_block Hab)]|]. cbv beta.
    unfold write_block, can_request in H. rewrite negb_involutive in H. exact H. }
  destruct (can_request b) eqn:Hcan.
  - destruct (write_block_free peer Hab Hcan) as (s1 & Hr1 & ?). exists s1. split; [by apply Hrun|done].
  - destruct (change_peer peer Hab) as (s1 & Hr1 & Hi1 & Ht1 & Hb1 & Hk1 & Hf1). exists s1. split_and!; try done.
    apply Hrun. unfold write_block. step Hr1. rewrite Hcan, bool_decide_eq_false_2; [apply runs_ret|].
    intros E. unfold can_request in Hcan. by rewrite E in Hcan.
Qed.

(** ** [mark_as_downloading] and [mark_as_writing] *)

(** Whether a block can be requested, and what becomes of it. *)
Definition free_block (st : block_state) : bool :=
  match st with state_none | state_requested => true | _ => false end.

Definition requested (st : block_state) : block_state := if free_block st then state_requested else st.
Definition written (st : block_state) : block_state := if free_block st then state_writing else st.

Lemma can_request_free b : can_request b = free_block (bstate b).
Proof. unfold can_request. by destruct (bstate b). Qed.

(** What the block is afterwards. *)
Definition request_of (peer : Z) (b : block_info) : block_info :=
  if free_block (bstate b) then BI peer (num_peers b + 1) state_requested else b.
Definition write_of (peer : Z) (b : block_info) : block_info :=
  if free_block (bstate b) then BI peer 0 state_writing else with_peer peer b.

Lemma known_block_open s x p j :
  invariant s -> piece_at x s = Some p -> download_state p = piece_open -> known_block x j s = default_block_info.
Proof. intros Hi Hp Ho. by rewrite (known_block_view s x None) by (apply Hi || by eapply open_view). Qed.

Lemma known_block_in {s0 s it d bs p x j b n} : at_block s0 s it d bs p x j b n -> known_block x j s = b.
Proof. intros Hab. eapply known_block_now; [apply Hab|exact (at_block_now Hab)]. Qed.

Lemma mark_as_downloading_changes s x j peer reverse p :
  invariant s -> piece_at x s = Some p -> 0 <= j < blocks_in_piece x s -> have p = false ->
  (download_state p = piece_open -> slots_left s) -> peers_of x j s + 1 < 2 ^ 14 ->
  exists s', runs (mark_as_downloading random_values (PB x j) peer reverse) s (free_block (state_of x j s)) s' /\
    invariant s' /\ touched x s s' /\ only_changed s s' x j (request_of peer (known_block x j s)).
Proof.
  intros Hi Hp Hj Hh Hleft Hpe. rewrite state_of_block. destruct (decide (download_state p = piece_open)) as [Ho|Ho].
  - rewrite (known_block_open s x p) by done.
    destruct (mark_as_downloading_open random_values s x j peer reverse p) as (s' & Hr & Hi' & Ht & Hb); try done; [by apply Hleft|].
    exists s'. split_and!; try done. apply opened_changed; try done. by eapply open_view.
  - destruct (at_block_of s x j p Hi Hp Ho Hj) as (it & d & bs & b & _ & _ & Hab).
    pose proof (at_block_now Hab) as Hnow. rewrite (known_block_in Hab). rewrite (peers_in Hab) in Hpe.
    destruct (mark_as_downloading_entry random_values s x j peer reverse p b) as (s' & Hr & Hi' & Ht & Hk & Hf & Hb); try done.
    unfold request_of. rewrite <- can_request_free. exists s'. split_and!; try done. eapply kept_changed; done || apply Hi'.
Qed.

Lemma mark_as_writing_changes s x j peer p :
  invariant s -> piece_at x s = Some p -> 0 <= j < blocks_in_piece x s -> have p = false ->
  (download_state p = piece_open -> slots_left s) ->
  exists s', runs (mark_as_writing random_values (PB x j) peer) s (free_block (state_of x j s)) s' /\
    invariant s' /\ touched x s s' /\ only_changed s s' x j (write_of peer (known_block x j s)).
Proof.
  intros Hi Hp Hj Hh Hleft. rewrite state_of_block. destruct (decide (download_state p = piece_open)) as [Ho|Ho].
  - rewrite (known_block_open s x p) by done.
    destruct (mark_as_writing_open s x j peer p) as (s' & Hr & Hi' & Ht & Hb); try done; [by apply Hleft|].
    exists s'. split_and!; try done. apply opened_changed; try done. by eapply open_view.
  - destruct (at_block_of s x j p Hi Hp Ho Hj) as (it & d & bs & b & _ & _ & Hab).
    pose proof (at_block_now Hab) as Hnow. rewrite (known_block_in Hab).
    destruct (mark_as_writing_entry s x j peer p b) as (s' & Hr & Hi' & Ht & Hk & Hf & Hb); try done.
    unfold write_of. rewrite <- can_request_free. exists s'. split_and!; try done. eapply kept_changed; done || apply Hi'.
Qed.

(** The states alone. *)
Lemma mark_as_downloading_spec s x j peer reverse p :
  invariant s -> piece_at x s = Some p -> 0 <= j < blocks_in_piece x s -> have p = false ->
  (download_state p = piece_open -> slots_left s) -> peers_of x j s + 1 < 2 ^ 14 ->
  exists s', runs (mark_as_downloading random_values (PB x j) peer reverse) s (free_block (state_of x j s)) s' /\
    invariant s' /\ touched x s s' /\ only_block s s' x j (requested (state_of x j s)).
Proof.
  intros Hi Hp Hj Hh Hl Hpe. destruct (mark_as_downloading_changes s x j peer reverse p Hi Hp Hj Hh Hl Hpe) as (s' & ? & ? & ? & H).
  exists s'. split_and!; try done. apply only_changed_block in H. rewrite state_of_block. unfold requested, request_of in *. by destruct (free_block (bstate (known_block x j s))).
Qed.

Lemma mark_as_writing_spec s x j peer p :
  invariant s -> piece_at x s = Some p -> 0 <= j < blocks_in_piece x s -> have p = false ->
  (download_state p = piece_open -> slots_left s) ->
  exists s', runs (mark_as_writing random_values (PB x j) peer) s (free_block (state_of x j s)) s' /\
    invariant s' /\ touched x s s' /\ only_block s s' x j (written (state_of x j s)).
Proof.
  intros Hi Hp Hj Hh Hl. destruct (mark_as_writing_changes s x j peer p Hi Hp Hj Hh Hl) as (s' & ? & ? & ? & H).
  exists s'. split_and!; try done. apply only_changed_block in H. rewrite state_of_block. unfold written, write_of in *. by destruct (free_block (bstate (known_block x j s))).
Qed.
End random.
