(* ===== verification/PickerFinishSpec.v ===== *)
(** * Giving up blocks

    [mark_as_canceled], [write_failed] and [abort_download] give a block back.
    The piece is not downloaded any more when none of its blocks is used. *)

From Stdlib Require Import ZArith Lia.
From stdpp Require Import base numbers sorting list.
From S2P Require Import Prelude PickerState PickerList PickerOps PickerListSpec PickerDownloadsSpec.
From S2P Require Import PickerInvariant PickerFrame PickerStateSpec PickerBlockSpec PickerHaveSpec.
From S2P Require Import PickerWriteSpec.

Section random.
Context (random_values : nat -> Z).

(** The end of these operations. *)
Lemma give_back {s it d bs p x j b s3 d3 b3} :
  let n := blocks_in_piece x s in
  at_block s s it d bs p x j b n -> in_flight s s3 it d3 (<[Z.to_nat j := b3]> bs) p x n ->
  exists s', runs (it ← update_piece_state random_values it; erase_if_unused random_values it x) s3 tt s' /\
    invariant s' /\ touched x s s' /\ only_block s s' x j (bstate b3).
Proof.
  intros n Hab Hfl. destruct (fly_settle_or_erase random_values Hfl) as (s' & Hr & Hi' & Ht & Hend).
  exists s'. split_and!; [done..|]. case_decide as Hu.
  - eapply erased_only; [exact Hab|done|apply Hi'|done|apply Hfl|done].
  - destruct Hend as [it' Hoe]. eapply changed_only; [exact Hab|done|exact Hoe|apply Hfl].
Qed.

(** ** [mark_as_canceled] *)

Definition canceled (st : block_state) : block_state :=
  match st with state_writing => state_none | _ => st end.

(** A written block is free again. *)
Lemma cancel_writing {s it d bs p x j b} peer :
  at_block s s it d bs p x j b (blocks_in_piece x s) -> bstate b = state_writing ->
  exists s', runs (
    _ ← modify_block d j (with_peer peer);
    _ ← dl_modify it (fun d => dp_with_writing (dp_writing d - 1) d);
    _ ← modify_block d j (with_bstate state_none);
    it ← update_piece_state random_values it;
    erase_if_unused random_values it x) s tt s' /\
    invariant s' /\ touched x s s' /\ only_block s s' x j state_none.
Proof.
  intros Hab Hb. pose proof (ab_index Hab) as Hd. pose proof (zget_Some_bound _ _ _ (ab_block Hab)) as Hj.
  destruct (ab_change (with_peer peer) Hab) as (s1 & Hr1 & Hoe1 & Hqu1 & _).
  destruct (entry_modify s1 it d _ (fun d => dp_with_writing (dp_writing d - 1) d) Hoe1 eq_refl eq_refl)
    as (s2 & Hr2 & Hoe2 & Hqu2). rewrite Hd in Hqu2. set (d2 := dp_with_writing _ d) in *.
  destruct (again_block (with_bstate state_none) Hoe2 Hd eq_refl Hj) as (s3 & Hr3 & Hoe3 & Hqu3).
  destruct (ab_counts Hab) as (C1 & C2 & C3 & C4 & C5 & _). pose proof (ab_peers Hab) as Hpe.
  unfold used, peers_ok, one in *. rewrite Hb in *. simpl in *.
  assert (dp_writing d2 = dp_writing d - 1) as W by (unfold d2; cbn; apply bits15_small; lia).
  assert (in_flight s s3 it d2 (<[Z.to_nat j := with_bstate state_none (with_peer peer b)]> bs) p x (blocks_in_piece x s)) as Hfl.
  { apply (ab_fly s3 d2 _ Hab); try done; unfold one; rewrite ?Hb, ?W; simpl; try (cbn; lia).
    transitivity s1; [done|]. by transitivity s2. }
  destruct (give_back Hab Hfl) as (s4 & Hr4 & Hi4 & Ht4 & Ho4). exists s4. split_and!; try done.
  step Hr1. step Hr2. step Hr3. exact Hr4.
Qed.

Lemma mark_as_canceled_spec s x j peer p :
  invariant s -> piece_at x s = Some p -> 0 <= j < blocks_in_piece x s ->
  exists s', runs (mark_as_canceled random_values (PB x j) peer) s tt s' /\ invariant s' /\ touched x s s' /\
    only_block s s' x j (canceled (state_of x j s)).
Proof.
  intros Hi Hp Hj. destruct (decide (download_state p = piece_open)) as [Ho|Ho].
  { rewrite (state_open s x p) by done. exists s. split_and!; [|done|done|by apply only_block_id; eapply state_open].
    unfold mark_as_canceled. cbn [piece_index]. step runs_get_piece. by rewrite decide_True by (by apply queue_open). }
  destruct (at_block_of s x j p Hi Hp Ho Hj) as (it & d & bs & b & Hr & Hq & Hab).
  rewrite (state_in Hab).
  assert (forall v t, runs (
      if bool_decide (bstate b = state_finished) then mret tt
      else
        _ ← modify_block d j (with_peer peer);
        if bool_decide (bstate b = state_writing) then
          _ ← dl_modify it (fun d => dp_with_writing (dp_writing d - 1) d);
          _ ← modify_block d j (with_bstate state_none);
          it ← update_piece_state random_values it;
          erase_if_unused random_values it x
        else mret tt) s v t -> runs (mark_as_canceled random_values (PB x j) peer) s v t) as Hrun.
  { intros v t H. unfold mark_as_canceled. cbn [piece_index block_index].
    step runs_get_piece. rewrite decide_False by (by rewrite queue_open). step Hr.
    eapply runs_bind; [eapply on_entry_deref, Hab|]. cbv beta.
    eapply runs_bind; [eapply on_entry_block; [apply Hab|done|apply (ab_block Hab)]|]. cbv beta. exact H. }
  assert (bstate b <> state_finished -> bstate b <> state_writing -> exists s1,
    runs (mark_as_canceled random_values (PB x j) peer) s tt s1 /\ invariant s1 /\ touched x s s1 /\
    only_block s s1 x j (bstate b)) as Hpeer.
  { intros Hf Hw. destruct (change_peer peer Hab) as (s1 & Hr1 & Hi1 & Ht1 & Hb1 & Hk1 & _). exists s1. split_and!; try done.
    + apply Hrun. rewrite bool_decide_eq_false_2 by done. step Hr1. by rewrite bool_decide_eq_false_2.
    + change (bstate b) with (bstate (with_peer peer b)). eapply (kept_only s x p j); try done. apply Hi1. }
  destruct (bstate b) eqn:Hb; simpl; [by apply Hpeer..| |].
  - destruct (cancel_writing peer Hab Hb) as (s1 & Hr1 & Hi1 & Ht1 & Hb1). exists s1. split_and!; try done.
    apply Hrun. exact Hr1.
  - exists s. split_and!; [by apply Hrun|done|done|]. apply only_block_id. by rewrite (state_in Hab).
Qed.

(** ** [write_failed] *)

Definition same_counts (d d' : downloading_piece) : Prop :=
  dp_index d' = dp_index d /\ dp_info_idx d' = dp_info_idx d /\ dp_requested d' = dp_requested d /\
  dp_writing d' = dp_writing d /\ dp_finished d' = dp_finished d.

(** The passed hash check is taken back. *)
Lemma clear_passed (c : bool) s it d bs x :
  on_entry s it d bs -> dp_index d = x ->
  exists s' d', runs (when c (_ ← dl_modify it (dp_with_passed false); dec_num_passed)) s tt s' /\
    on_entry s' it d' bs /\ quiet x s s' /\ same_counts d d' /\
    (c = dp_passed_hash_check d -> dp_passed_hash_check d' = false).
Proof.
  intros Hoe <-. destruct c; [|by exists s, d].
  destruct (entry_modify s it d bs (dp_with_passed false) Hoe eq_refl eq_refl) as (s1 & Hr1 & Hoe1 & Hqu1).
  destruct (entry_num_passed s1 it _ bs (m_num_passed s1 - 1) Hoe1) as [Hoe2 Hqu2].
  exists (set_m_num_passed (m_num_passed s1 - 1) s1), (dp_with_passed false d). split_and!; [|done|by transitivity s1|done|done].
  step Hr1. done.
Qed.

Definition write_failure (st : block_state) : block_state :=
  match st with state_finished => state_finished | _ => state_none end.

(** The body of [write_failed], for a block that is not finished. *)
Lemma fail_block {s it d bs p x j b} :
  at_block s s it d bs p x j b (blocks_in_piece x s) -> bstate b = state_none \/ bstate b = state_writing ->
  exists s', runs (
    _ ← when (bool_decide (bstate b = state_writing)) (dl_modify it (fun d => dp_with_writing (dp_writing d - 1) d));
    _ ← modify_block d j (fun b => with_bstate state_none (with_peer 0 b));
    _ ← when (dp_passed_hash_check d) (_ ← dl_modify it (dp_with_passed false); dec_num_passed);
    _ ← dl_modify it (dp_with_locked true);
    it ← update_piece_state random_values it;
    erase_if_unused random_values it x) s tt s' /\
    invariant s' /\ touched x s s' /\ only_block s s' x j state_none.
Proof.
  intros Hab Hb. pose proof (ab_index Hab) as Hd. pose proof (zget_Some_bound _ _ _ (ab_block Hab)) as Hj.
  destruct (entry_when (bool_decide (bstate b = state_writing)) s it d bs x
    (fun d => dp_with_writing (dp_writing d - 1) d) ltac:(apply Hab) Hd eq_refl eq_refl) as (s1 & Hr1 & Hoe1 & Hqu1 & Hd1 & Hi1).
  set (d1 := if bool_decide _ then _ else _) in *.
  destruct (entry_block s1 it d1 bs d j b (fun b => with_bstate state_none (with_peer 0 b)) Hoe1 Hi1 (ab_block Hab))
    as (s2 & Hr2 & Hoe2 & Hqu2). rewrite Hd1 in Hqu2. cbn beta in Hoe2.
  destruct (clear_passed (dp_passed_hash_check d) s2 it d1 _ x Hoe2 Hd1) as (s3 & d3 & Hr3 & Hoe3 & Hqu3 & (Hd3 & _ & K1 & K2 & K3) & _).
  destruct (entry_modify s3 it d3 _ (dp_with_locked true) Hoe3 eq_refl eq_refl) as (s4 & Hr4 & Hoe4 & Hqu4).
  rewrite Hd3, Hd1 in Hqu4. set (d4 := dp_with_locked true d3) in *.
  destruct (ab_counts Hab) as (C1 & C2 & C3 & C4 & C5 & _). pose proof (ab_peers Hab) as Hpe.
  unfold used in C2. assert (dp_writing d1 = dp_writing d - one b state_writing /\ dp_requested d1 = dp_requested d /\
    dp_finished d1 = dp_finished d) as (W1 & R1 & F1).
  { pose proof (one_nonneg b state_requested). pose proof (one_nonneg b state_finished).
    unfold d1, one in *. destruct (bool_decide_reflect (bstate b = state_writing)) as [E|E]; cbn;
      rewrite ?bits15_small; rewrite ?decide_True, ?decide_False in * by done; lia. }
  assert (in_flight s s4 it d4 (<[Z.to_nat j := with_bstate state_none (with_peer 0 b)]> bs) p x (blocks_in_piece x s)) as Hfl.
  { apply (ab_fly s4 d4 _ Hab); try done.
    - transitivity s1; [done|]. transitivity s2; [done|]. by transitivity s3.
    - unfold d4; cbn; congruence.
    - unfold peers_ok in *. destruct Hb as [Hb|Hb]; rewrite Hb in Hpe; exact Hpe.
    - unfold d4; cbn. rewrite K1, R1. unfold one. destruct Hb as [-> | ->]; simpl; lia.
    - unfold d4; cbn. rewrite K2, W1. unfold one. destruct Hb as [-> | ->]; simpl; lia.
    - unfold d4; cbn. rewrite K3, F1. unfold one. destruct Hb as [-> | ->]; simpl; lia. }
  destruct (give_back Hab Hfl) as (s5 & Hr5 & Hi5 & Ht5 & Ho5). exists s5. split_and!; try done.
  step Hr1. step Hr2. step Hr3. step Hr4. exact Hr5.
Qed.

Lemma write_failed_spec s x j p :
  invariant s -> piece_at x s = Some p -> 0 <= j < blocks_in_piece x s -> state_of x j s <> state_requested ->
  exists s', runs (write_failed random_values (PB x j)) s tt s' /\ invariant s' /\ touched x s s' /\
    only_block s s' x j (write_failure (state_of x j s)).
Proof.
  intros Hi Hp Hj Hnr. destruct (decide (download_state p = piece_open)) as [Ho|Ho].
  { rewrite (state_open s x p) by done. exists s. split_and!; [|done|done|by apply only_block_id; eapply state_open].
    unfold write_failed. cbn [piece_index]. step runs_get_piece. by rewrite decide_True by (by apply queue_open). }
  destruct (at_block_of s x j p Hi Hp Ho Hj) as (it & d & bs & b & Hr & Hq & Hab). rewrite (state_in Hab) in *.
  assert (forall v t, runs (
      if bool_decide (bstate b = state_finished) then mret tt
      else
        _ ← when (bool_decide (bstate b = state_writing)) (dl_modify it (fun d => dp_with_writing (dp_writing d - 1) d));
        _ ← modify_block d j (fun b => with_bstate state_none (with_peer 0 b));
        _ ← when (dp_passed_hash_check d) (_ ← dl_modify it (dp_with_passed false); dec_num_passed);
        _ ← dl_modify it (dp_with_locked true);
        it ← update_piece_state random_values it;
        erase_if_unused random_values it x) s v t -> runs (write_failed random_values (PB x j)) s v t) as Hrun.
  { intros v t H. unfold write_failed. cbn [piece_index block_index].
    step runs_get_piece. rewrite decide_False by (by rewrite queue_open). step Hr.
    eapply runs_bind; [eapply on_entry_end, Hab|]. cbv beta iota.
    eapply runs_bind; [eapply on_entry_deref, Hab|]. cbv beta.
    eapply runs_bind; [eapply on_entry_block; [apply Hab|done|apply (ab_block Hab)]|]. cbv beta. exact H. }
  destruct (decide (bstate b = state_finished)) as [Hf|Hf].
  - exists s. split_and!; [apply Hrun|done|done|apply only_block_id]; by rewrite ?(state_in Hab), Hf.
  - destruct (fail_block Hab) as (s1 & Hr1 & Hi1 & Ht1 & Ho1); [by destruct (bstate b); auto|].
    exists s1. split_and!; [|done|done|by destruct (bstate b)]. apply Hrun. by rewrite bool_decide_eq_false_2.
Qed.

(** ** [abort_download] *)

Definition aborted (st : block_state) (peers : Z) : block_state :=
  if decide (st = state_requested) then if 1 <? peers then state_requested else state_none else st.

(** The first change of the block. *)
Definition leave_block (peer_ : Z) (b : block_info) : block_info :=
  let b := if 0 <? num_peers b then with_num_peers (num_peers b - 1) b else b in
  if peer b =? peer_ then with_peer 0 b else b.

Lemma leave_block_peers peer_ b :
  bstate b = state_requested -> peers_ok b -> num_peers (leave_block peer_ b) = num_peers b - 1 /\
  bstate (leave_block peer_ b) = state_requested.
Proof.
  intros Hb Hp. unfold peers_ok in Hp. rewrite Hb in Hp. simpl in Hp. unfold leave_block.
  rewrite (proj2 (Z.ltb_lt 0 (num_peers b))) by lia. cbv zeta. unfold with_num_peers, bits14. cbn [peer num_peers].
  assert ((num_peers b - 1) mod 2 ^ 14 = num_peers b - 1) as -> by (apply Z.mod_small; lia).
  destruct (peer b =? peer_); cbn; by rewrite Hb.
Qed.

(** The second half of [abort_download]. *)
Definition abort_rest (it : dl_iter) (d : downloading_piece) (j x prev_prio : Z) : M unit :=
  _ ← modify_block d j (fun b => with_bstate state_none (with_peer 0 b));
  _ ← dl_modify it (fun d => dp_with_requested (dp_requested d - 1) d);
  d ← query (dl_deref it);
  if dp_requested d + dp_finished d + dp_writing d =? 0 then
    _ ← erase_download_piece it;
    prio ← get_priority x;
    dirty ← get_dirty;
    if (dirty : bool) then mret tt
    else if (prev_prio =? -1) && (0 <=? prio) then add random_values x
    else when (0 <=? prev_prio) (update_piece_pos random_values prev_prio x)
  else _ ← update_piece_state random_values it; mret tt.

(** The entry is erased, and the piece moved from where [prev_prio] put it. *)
Lemma fly_abort {s0 s it d bs p x n} :
  in_flight s0 s it d bs p x n ->
  exists s', runs (
      _ ← erase_download_piece it;
      prio ← get_priority x;
      dirty ← get_dirty;
      if (dirty : bool) then mret tt
      else if (priority (m_seeds s0) p =? -1) && (0 <=? prio) then add random_values x
      else when (0 <=? priority (m_seeds s0) p) (update_piece_pos random_values (priority (m_seeds s0) p) x)) s tt s' /\
    invariant s' /\ touched x s0 s' /\ dl_view s' x None.
Proof.
  intros Hfl. pose proof (fl_piece _ _ _ _ _ _ _ _ Hfl) as Hp. pose proof (priority_of_at x s p Hp) as Hk.
  assert (m_seeds s = m_seeds s0) as Hsd.
  { pose proof (fl_touched _ _ _ _ _ _ _ _ Hfl) as [_ _ _ Hf]. by apply fixed_inv in Hf as ((? & _) & _). }
  pose proof (priority_of_ge _ _ _ (fl_typed Hfl) Hk) as Hge. rewrite Hsd in Hge, Hk.
  destruct (fly_erase (priority (m_seeds s0) p) Hfl) as (s4 & Hr4 & Ht4 & Hdl4 & Hv4 & Hty4 & Hp4 & Hl4).
  { by apply list_ok_at; [apply Hfl|]. }
  destruct (settle_abort_spec random_values s4 x (priority (m_seeds s0) p) Hty4 Hl4 Hge) as (s5 & Hr5 & Hmv5 & Hl5).
  { by eapply priority_of_some. }
  destruct (moved_piece _ _ _ _ Hmv5 Hp4) as (p5 & Hp5 & Hs5).
  assert (touched x s0 s5) as Ht5 by (transitivity s4; [done|by apply moved_touched]).
  exists s5. split_and!; [| |done|by eapply (moved_views s4)].
  - step Hr4. exact Hr5.
  - eapply (erased_invariant s0 s5 x p5); try done; [apply Hfl|by eapply dl_ok_moved|by eapply (moved_views s4)|].
    by destruct Hs5 as (_ & -> & _).
Qed.

(** The request of the last peer is taken back. *)
Lemma abort_last {s it d bs p x j b} s1 b1 :
  at_block s s it d bs p x j b (blocks_in_piece x s) -> bstate b = state_requested -> num_peers b1 = 0 ->
  quiet x s s1 -> on_entry s1 it d (<[Z.to_nat j := b1]> bs) ->
  exists s', runs (abort_rest it d j x (priority (m_seeds s) p)) s1 tt s' /\
    invariant s' /\ touched x s s' /\ only_block s s' x j state_none.
Proof.
  intros Hab Hb Hnp Hqu1 Hoe1. pose proof (ab_index Hab) as Hd. pose proof (zget_Some_bound _ _ _ (ab_block Hab)) as Hj.
  destruct (again_block (fun b => with_bstate state_none (with_peer 0 b)) Hoe1 Hd eq_refl Hj) as (s2 & Hr2 & Hoe2 & Hqu2).
  destruct (entry_modify s2 it d _ (fun d => dp_with_requested (dp_requested d - 1) d) Hoe2 eq_refl eq_refl)
    as (s3 & Hr3 & Hoe3 & Hqu3). rewrite Hd in Hqu3. set (d3 := dp_with_requested _ d) in *.
  set (b3 := with_bstate state_none (with_peer 0 b1)) in *.
  destruct (ab_counts Hab) as (C1 & C2 & C3 & C4 & C5 & _). unfold used, one in *. rewrite Hb in *. simpl in *.
  assert (dp_requested d3 = dp_requested d - 1) as W by (unfold d3; cbn; apply bits15_small; lia).
  assert (in_flight s s3 it d3 (<[Z.to_nat j := b3]> bs) p x (blocks_in_piece x s)) as Hfl.
  { apply (ab_fly s3 d3 _ Hab); try done; unfold one; rewrite ?Hb, ?W; simpl; try (cbn; lia).
    transitivity s1; [done|]. by transitivity s2. }
  destruct (Z.eqb_spec (dp_requested d3 + dp_finished d3 + dp_writing d3) 0) as [Hz|Hz].
  - destruct (fly_abort Hfl) as (s5 & Hr5 & Hi5 & Ht5 & Hv5). exists s5. split_and!; [|done|done|].
    + unfold abort_rest. step Hr2. step Hr3. eapply runs_bind; [eapply on_entry_deref, Hoe3|]. cbv beta.
      rewrite (proj2 (Z.eqb_eq _ _) Hz). exact Hr5.
    + change state_none with (bstate b3).
      eapply erased_only; [exact Hab|done|apply Hi5|done|apply Hfl|unfold used; lia].
  - destruct (fly_settle random_values Hfl) as (s4 & it4 & p4 & Hr4 & Hfl4 & Hinv). exists s4. split_and!.
    + unfold abort_rest. step Hr2. step Hr3. eapply runs_bind; [eapply on_entry_deref, Hoe3|]. cbv beta.
      rewrite (proj2 (Z.eqb_neq _ _) Hz). by step Hr4.
    + apply Hinv. unfold used. lia.
    + apply Hfl4.
    + change state_none with (bstate b3). eapply changed_only; [exact Hab|apply Hfl4|apply Hfl4|apply Hfl4].
Qed.

Lemma abort_download_spec s x j peer_ p :
  invariant s -> piece_at x s = Some p -> 0 <= j < blocks_in_piece x s ->
  exists s', runs (abort_download random_values (PB x j) peer_) s tt s' /\ invariant s' /\ touched x s s' /\
    only_block s s' x j (aborted (state_of x j s) (peers_of x j s)).
Proof.
  intros Hi Hp Hj. destruct (decide (download_state p = piece_open)) as [Ho|Ho].
  { rewrite (state_open s x p) by done. exists s. split_and!; [|done|done|by apply only_block_id; eapply state_open].
    unfold abort_download. cbn [piece_index]. step runs_get_piece. by rewrite decide_True by (by apply queue_open). }
  destruct (at_block_of s x j p Hi Hp Ho Hj) as (it & d & bs & b & Hr & Hq & Hab).
  rewrite (state_in Hab), (peers_in Hab). unfold abort_download. cbn [piece_index block_index].
  destruct (decide (bstate b = state_requested)) as [Hb|Hb].
  2:{ exists s. split_and!; [|done|done|].
      - step runs_get_piece. rewrite decide_False by (by rewrite queue_open). step Hr.
        eapply runs_bind; [eapply on_entry_deref, Hab|]. cbv beta.
        eapply runs_bind; [eapply on_entry_block; [apply Hab|done|apply (ab_block Hab)]|]. cbv beta.
        by rewrite decide_True.
      - apply only_block_id. rewrite (state_in Hab). unfold aborted. by rewrite decide_False. }
  destruct (leave_block_peers peer_ b Hb (ab_peers Hab)) as [Hnp Hbs].
  destruct (ab_change (leave_block peer_) Hab) as (s1 & Hr1 & Hoe1 & Hqu1 & Hb1).
  assert (forall s' v, runs (if 0 <? num_peers b - 1 then mret tt else abort_rest it d j x (priority (m_seeds s) p)) s1 v s' ->
    runs (abort_download random_values (PB x j) peer_) s v s') as Hrun.
  { intros s' v H. unfold abort_download. cbn [piece_index block_index].
    step runs_get_piece. rewrite decide_False by (by rewrite queue_open). step Hr.
    eapply runs_bind; [eapply on_entry_deref, Hab|]. cbv beta.
    eapply runs_bind; [eapply on_entry_block; [apply Hab|done|apply (ab_block Hab)]|]. cbv beta.
    rewrite decide_False by tauto. eapply runs_bind; [by apply runs_get_priority, priority_of_at|].
    step Hr1.
    eapply runs_bind; [eapply on_entry_block; [exact Hoe1|done|exact Hb1]|]. cbv beta. rewrite Hnp. exact H. }
  unfold aborted. rewrite Hb, decide_True by done.
  destruct (Z.ltb_spec 1 (num_peers b)) as [Hn|Hn].
  - exists s1. set (b1 := leave_block peer_ b) in *. pose proof (ab_index Hab) as Hd.
    assert (peers_ok b1) as Hp1.
    { pose proof (ab_peers Hab) as Hpe. unfold peers_ok in *. rewrite Hbs. rewrite Hb in Hpe. simpl in *. lia. }
    assert (in_flight s s1 it d (<[Z.to_nat j := b1]> bs) p x (blocks_in_piece x s)) as Hfl.
    { apply (ab_fly s1 d _ Hab); try done; unfold one; rewrite ?Hb, ?Hbs; lia. }
    split_and!; [|  |apply Hqu1|].
    + apply Hrun. by rewrite (proj2 (Z.ltb_lt 0 _)) by lia.
    + eapply land_invariant; [exact Hfl|]. by destruct Hab as [_ _ _ _ _ _ _ (_ & _ & ? & _) _ _].
    + rewrite <- Hbs. eapply changed_only; [exact Hab|apply Hqu1|exact Hoe1|done].
  - pose proof (ab_peers Hab) as Hpe. unfold peers_ok in Hpe. rewrite Hb in Hpe. simpl in Hpe.
    destruct (abort_last s1 (leave_block peer_ b) Hab Hb) as (s2 & Hr2 & H2); [lia|done|done|].
    exists s2. split; [|done]. apply Hrun. by rewrite (proj2 (Z.ltb_ge 0 _)) by lia.
Qed.
End random.

(** * Finishing blocks

    [mark_as_finished] counts a block as finished; when all blocks are and
    the piece has passed its hash check, the piece is had.  [piece_passed] and
    [lock_piece] set and take back the hash check. *)

(** ** All blocks *)

Lemma tally_all st l : tally st l = zlen l <-> Forall (fun b => bstate b = st) l.
Proof.
  unfold tally. induction l as [|b l IH]; [by split|]. rewrite filter_cons, Forall_cons. simpl.
  pose proof (length_filter (fun b => bstate b = st) l). case_decide as Hb; simpl.
  - rewrite <- IH. split; [intros ?; split; [done|lia]|intros [_ ?]; lia].
  - split; [intros ?; exfalso; lia|by intros [? _]].
Qed.

(** An entry counts [n] finished blocks when all are. *)
Lemma all_finished d bs n :
  counts_ok d (take (Z.to_nat n) bs) -> 0 <= n <= zlen bs ->
  dp_finished d = n <-> forall i b, 0 <= i < n -> zget bs i = Some b -> bstate b = state_finished.
Proof.
  intros [_ _ Hf _] Hn. rewrite Hf. assert (zlen (take (Z.to_nat n) bs) = n) as Hl by (rewrite length_take; lia).
  rewrite <- Hl at 2. rewrite tally_all, Forall_lookup. split.
  - intros H i b Hi Hb. unfold zget in Hb. rewrite decide_True in Hb by lia. apply (H (Z.to_nat i)).
    rewrite lookup_take_lt by lia. done.
  - intros H i b Hb. apply lookup_take_Some in Hb as [Hb Hi]. apply (H (Z.of_nat i)); [lia|].
    unfold zget. rewrite decide_True by lia. by rewrite Nat2Z.id.
Qed.

(** Finishing the block [j] completes the piece [x], whose hash has been
    checked. *)
Definition passed_at (x : Z) (s : picker) : bool :=
  match entry_at x s with Some d => dp_passed_hash_check d | None => false end.

Definition completes (s : picker) (x j : Z) : Prop :=
  passed_at x s = true /\ forall i, 0 <= i < blocks_in_piece x s -> i <> j -> state_of x i s = state_finished.

Lemma passed_in {s0 s it d bs p x j b n} : at_block s0 s it d bs p x j b n -> passed_at x s = dp_passed_hash_check d.
Proof.
  intros [_ _ _ Hoe <- _ _ _ _ _]. unfold passed_at.
  by rewrite (entry_at_view _ _ _ (oe_shape _ _ _ _ Hoe) (on_entry_view _ _ _ _ Hoe)).
Qed.

Lemma passed_open s x p : invariant s -> piece_at x s = Some p -> download_state p = piece_open -> passed_at x s = false.
Proof. intros Hi Hp Ho. unfold passed_at. rewrite (entry_at_view s x None); [done|apply Hi|by eapply open_view]. Qed.

(** The test at the end of [mark_as_finished]. *)
Lemma completes_in {s it d bs p x j b} d' b' :
  let n := blocks_in_piece x s in
  at_block s s it d bs p x j b n -> counts_ok d' (take (Z.to_nat n) (<[Z.to_nat j := b']> bs)) ->
  bstate b' = state_finished ->
  dp_finished d' = n <-> forall i, 0 <= i < n -> i <> j -> state_of x i s = state_finished.
Proof.
  intros n Hab Hco Hb'. pose proof (zget_Some_bound _ _ _ (ab_block Hab)) as Hj.
  pose proof (blocks_bound s x (ab_inv Hab)) as Hn. fold n in Hn.
  destruct Hab as [_ _ _ Hoe Hd _ _ _ Hjn _]. pose proof (on_entry_length _ _ _ _ Hoe) as Hlen.
  rewrite (all_finished _ _ n Hco) by (rewrite length_insert; lia).
  split.
  - intros H i Hi Hne. rewrite <- Hd, (state_of_entry _ _ _ _ i Hoe).
    destruct (zget_is_Some bs i) as [bi Hbi]; [lia|]. rewrite Hbi. simpl. apply (H i); [done|].
    rewrite zget_insert by done. by rewrite decide_False.
  - intros H i bi Hi. rewrite zget_insert by done. case_decide as Hij; [by intros [= <-]|].
    intros Hbi. rewrite <- (H i) by done || congruence.
    by rewrite <- Hd, (state_of_entry _ _ _ _ i Hoe), Hbi.
Qed.

Section random.
Context (random_values : nat -> Z).

(** ** [mark_as_finished] *)

Lemma finish_counts {s it d bs p x j b} :
  at_block s s it d bs p x j b (blocks_in_piece x s) -> bstate b = state_none \/ bstate b = state_writing ->
  let d2 := dp_with_finished (dp_finished d + 1) d in
  let d3 := if bool_decide (bstate b = state_writing) then dp_with_writing (dp_writing d2 - 1) d2 else d2 in
  one b state_requested = 0 /\ one b state_finished = 0 /\
  dp_writing d3 = dp_writing d - one b state_writing /\ dp_requested d3 = dp_requested d /\
  dp_finished d3 = dp_finished d + 1 /\ dp_passed_hash_check d3 = dp_passed_hash_check d /\ used d3 <> 0.
Proof.
  intros Hab Hb d2 d3. destruct (ab_counts Hab) as (C1 & C2 & C3 & C4 & C5 & C6).
  unfold used, one in *. assert (bstate b <> state_requested /\ bstate b <> state_finished) as [N1 N2].
  { by destruct Hb as [-> | ->]. }
  rewrite !(decide_False (P := bstate b = state_requested)), !(decide_False (P := bstate b = state_finished)) in * by done.
  unfold d3, d2 in *. destruct (bool_decide_reflect (bstate b = state_writing)) as [E|E]; cbn.
  - rewrite decide_True in * by done. rewrite !bits15_small by lia. split_and!; done || lia.
  - rewrite decide_False in * by done. rewrite !bits15_small by lia. split_and!; done || lia.
Qed.

(** The block is finished, its entry counts it and the piece is in the right
    list. *)
Lemma count_finished {s it d bs p x j b} peer_ :
  at_block s s it d bs p x j b (blocks_in_piece x s) -> bstate b = state_none \/ bstate b = state_writing ->
  exists s' it' p' d' b', in_flight s s' it' d' (<[Z.to_nat j := b']> bs) p' x (blocks_in_piece x s) /\
    invariant s' /\ bstate b' = state_finished /\ dp_passed_hash_check d' = dp_passed_hash_check d /\
    forall A (m : dl_iter -> M A) v t, runs (m it') s' v t -> runs (
      _ ← when (negb (bool_decide (bstate b = state_writing)) || negb (peer_ =? 0))
            (modify_block d j (with_peer peer_));
      _ ← dl_modify it (fun d => dp_with_finished (dp_finished d + 1) d);
      _ ← when (bool_decide (bstate b = state_writing)) (dl_modify it (fun d => dp_with_writing (dp_writing d - 1) d));
      _ ← modify_block d j (with_bstate state_finished);
      it ← update_piece_state random_values it;
      m it) s v t.
Proof.
  intros Hab Hb. pose proof (ab_index Hab) as Hd. pose proof (zget_Some_bound _ _ _ (ab_block Hab)) as Hj.
  set (c := negb _ || _). set (b1 := if c then with_peer peer_ b else b).
  assert (exists s1, runs (when c (modify_block d j (with_peer peer_))) s tt s1 /\
    on_entry s1 it d (<[Z.to_nat j := b1]> bs) /\ quiet x s s1) as (s1 & Hr1 & Hoe1 & Hqu1).
  { unfold b1. destruct c.
    - destruct (ab_change (with_peer peer_) Hab) as (s1 & ? & ? & ? & _). by exists s1.
    - exists s. split_and!; [done| |done]. rewrite list_insert_id; [apply Hab|].
      pose proof (ab_block Hab) as Hbl. unfold zget in Hbl. by rewrite decide_True in Hbl by lia. }
  destruct (entry_modify s1 it d _ (fun d => dp_with_finished (dp_finished d + 1) d) Hoe1 eq_refl eq_refl)
    as (s2 & Hr2 & Hoe2 & Hqu2). rewrite Hd in Hqu2. set (d2 := dp_with_finished _ d) in *.
  destruct (entry_when (bool_decide (bstate b = state_writing)) s2 it d2 _ x
    (fun d => dp_with_writing (dp_writing d - 1) d) Hoe2 Hd eq_refl eq_refl) as (s3 & Hr3 & Hoe3 & Hqu3 & Hd3 & Hi3).
  set (d3 := if bool_decide _ then _ else _) in *.
  destruct (again_block (with_bstate state_finished) Hoe3 Hd3 Hi3 Hj) as (s4 & Hr4 & Hoe4 & Hqu4).
  set (b4 := with_bstate state_finished b1) in *.
  destruct (finish_counts Hab Hb) as (O1 & O2 & W & R & F & P & U). fold d2 d3 in W, R, F, P, U.
  pose proof (ab_peers Hab) as Hpe.
  assert (in_flight s s4 it d3 (<[Z.to_nat j := b4]> bs) p x (blocks_in_piece x s)) as Hfl.
  { apply (ab_fly s4 d3 _ Hab); try done.
    - transitivity s1; [done|]. transitivity s2; [done|]. by transitivity s3.
    - unfold peers_ok in *. assert (num_peers b4 = num_peers b) as E by (unfold b4, b1; by destruct c).
      change (num_peers b4 = 0). rewrite E. by destruct Hb as [Hb|Hb]; rewrite Hb in Hpe.
    - rewrite R, O1. unfold one. simpl. lia.
    - rewrite W. unfold one. simpl. lia.
    - rewrite F, O2. unfold one. simpl. lia. }
  destruct (fly_settle random_values Hfl) as (s5 & it5 & p5 & Hr5 & Hfl5 & Hinv).
  exists s5, it5, p5, d3, b4. split_and!; [done|by apply Hinv|done|done|].
  intros A m v t Hm. step Hr1. step Hr2. step Hr3. step Hr4. step Hr5. exact Hm.
Qed.

(** What [mark_as_finished] does to the piece. *)
Definition finished_block (s s' : picker) (x j : Z) : Prop :=
  (completes s x j /\ state_of x j s <> state_finished /\ became_had s s' x) \/
  (~ (completes s x j /\ state_of x j s <> state_finished) /\ touched x s s' /\ only_block s s' x j state_finished).

Lemma finish_entry {s it d bs p x j b} peer_ :
  at_block s s it d bs p x j b (blocks_in_piece x s) -> bstate b = state_none \/ bstate b = state_writing ->
  exists s', runs (
      _ ← when (negb (bool_decide (bstate b = state_writing)) || negb (peer_ =? 0))
            (modify_block d j (with_peer peer_));
      _ ← dl_modify it (fun d => dp_with_finished (dp_finished d + 1) d);
      _ ← when (bool_decide (bstate b = state_writing)) (dl_modify it (fun d => dp_with_writing (dp_writing d - 1) d));
      _ ← modify_block d j (with_bstate state_finished);
      it ← update_piece_state random_values it;
      d ← query (dl_deref it);
      n ← gets (blocks_in_piece (dp_index d));
      if dp_finished d <? n then mret tt
      else when (dp_passed_hash_check d) (we_have (dp_index d))) s tt s' /\
    invariant s' /\ others_kept x s s' /\ finished_block s s' x j.
Proof.
  intros Hab Hb. destruct (count_finished peer_ Hab Hb) as (s5 & it5 & p5 & d5 & b5 & Hfl & Hi5 & Hb5 & P5 & Hrun).
  assert (state_of x j s <> state_finished) as Hnf by (rewrite (state_in Hab); by destruct Hb as [-> | ->]).
  pose proof (completes_in _ _ Hab (fl_counts _ _ _ _ _ _ _ _ Hfl) Hb5) as Hall.
  pose proof (passed_in Hab) as Hpass. rewrite <- P5 in Hpass.
  pose proof (fl_touched _ _ _ _ _ _ _ _ Hfl) as Ht5. pose proof (fl_index _ _ _ _ _ _ _ _ Hfl) as Hd5.
  pose proof (blocks_bound s x (ab_inv Hab)) as Hn.
  destruct (counts_bound _ _ _ (fl_counts _ _ _ _ _ _ _ _ Hfl)) as (? & ? & ? & Hu); [lia|]. unfold used in Hu.
  assert (only_block s s5 x j state_finished) as Ho5.
  { rewrite <- Hb5. eapply changed_only; [exact Hab|done|apply Hfl|done]. }
  assert (forall v t, runs (if dp_finished d5 <? blocks_in_piece x s then mret tt
    else when (dp_passed_hash_check d5) (we_have x)) s5 v t -> runs (
      d ← query (dl_deref it5);
      n ← gets (blocks_in_piece (dp_index d));
      if dp_finished d <? n then mret tt
      else when (dp_passed_hash_check d) (we_have (dp_index d))) s5 v t) as Hend.
  { intros v t H'. eapply runs_bind; [eapply on_entry_deref, Hfl|]. cbv beta. eapply runs_bind; [apply runs_gets|].
    by rewrite Hd5, (touched_blocks x s s5) by done. }
  destruct (Z.ltb_spec (dp_finished d5) (blocks_in_piece x s)) as [Hlt|Hge].
  { exists s5. split_and!; [by apply Hrun, Hend|done|by apply touched_others|]. right. split_and!; [|done|done].
    intros [[_ Hc] _]. apply Hall in Hc. lia. }
  destruct (dp_passed_hash_check d5) eqn:Hp5.
  - destruct (we_have_spec s5 x p5 Hi5 (fl_piece _ _ _ _ _ _ _ _ Hfl) (fl_have _ _ _ _ _ _ _ _ Hfl))
      as (s6 & p6 & Hr6 & Hi6 & Ho6 & Hp6 & Hh6 & Hc6 & Hpr6 & _).
    exists s6. split_and!; [by apply Hrun, Hend|done|eapply others_trans; [by apply touched_others|done]|].
    left. split_and!; [|done|eapply became_had_after; [exact Ht5|apply (fl_piece _ _ _ _ _ _ _ _ Hfl)|done..]].
    split; [done|]. apply Hall. lia.
  - exists s5. split_and!; [by apply Hrun, Hend|done|by apply touched_others|]. right. split_and!; [|done|done].
    intros [[Hc _] _]. congruence.
Qed.

(** The piece is not being downloaded. *)
Lemma mark_as_finished_open s x j peer_ p :
  invariant s -> piece_at x s = Some p -> download_state p = piece_open -> have p = false ->
  0 <= j < blocks_in_piece x s -> slots_left s ->
  exists s', runs (mark_as_finished random_values (PB x j) peer_) s tt s' /\ invariant s' /\
    touched x s s' /\ only_block s s' x j state_finished.
Proof.
  intros Hi Hp Ho Hh Hj Hleft. pose proof (blocks_bound s x Hi) as Hb.
  destruct (open_start random_values s x p piece_downloading)
    as (s1 & it & k & Hr1 & Hoe1 & Hclose); try done; [by left|].
  set (d := new_entry x k) in *. set (bs := replicate _ _) in Hoe1.
  assert (zget bs j = Some default_block_info) as Hbj by (apply zget_replicate; lia).
  pose proof (zget_Some_bound _ _ _ Hbj) as Hjb.
  destruct (entry_block s1 it d bs d j default_block_info (with_peer peer_) Hoe1 eq_refl Hbj)
    as (s2 & Hr2 & Hoe2 & Hqu2).
  destruct (entry_modify s2 it d _ (fun d => dp_with_finished (dp_finished d + 1) d) Hoe2 eq_refl eq_refl)
    as (s3 & Hr3 & Hoe3 & Hqu3).
  destruct (again_block (with_bstate state_finished) Hoe3 (x := x) eq_refl (d := d) eq_refl Hjb) as (s4 & Hr4 & Hoe4 & Hqu4).
  destruct (Hclose s4 _ _ (transitivity Hqu2 (transitivity Hqu3 Hqu4)) Hoe4) as (s5 & it5 & Hr5 & Hi5 & Ht5 & Hoe5); try done.
  { eapply (counts_change d _ bs _ j default_block_info); try done. apply counts_new. }
  exists s5. split_and!; [|done|done|].
  - unfold mark_as_finished. cbn [piece_index block_index].
    step runs_get_piece. rewrite decide_True by (by apply queue_open). rewrite Hh.
    step Hr1. eapply runs_bind; [eapply on_entry_deref, Hoe1|]. cbv beta.
    step Hr2. step Hr3. step Hr4. by step Hr5.
  - change state_finished with (bstate (with_bstate state_finished (with_peer peer_ default_block_info))).
    apply opened_only; try done; [by eapply open_view|]. by eexists it5, _.
Qed.

Lemma mark_as_finished_spec s x j peer_ p :
  invariant s -> piece_at x s = Some p -> 0 <= j < blocks_in_piece x s -> have p = false ->
  state_of x j s <> state_requested -> (download_state p = piece_open -> slots_left s) ->
  exists s', runs (mark_as_finished random_values (PB x j) peer_) s tt s' /\ invariant s' /\
    others_kept x s s' /\ finished_block s s' x j.
Proof.
  intros Hi Hp Hj Hh Hnr Hleft. destruct (decide (download_state p = piece_open)) as [Ho|Ho].
  { destruct (mark_as_finished_open s x j peer_ p) as (s' & Hr & Hi' & Ht & Hb); try done; [by apply Hleft|].
    exists s'. split_and!; [done|done|by apply touched_others|]. right. split_and!; [|done|done].
    intros [[Hc _] _]. by rewrite (passed_open s x p) in Hc. }
  destruct (at_block_of s x j p Hi Hp Ho Hj) as (it & d & bs & b & Hr & Hq & Hab).
  assert (forall v t, runs (
      if bool_decide (bstate b = state_finished) then mret tt
      else
      _ ← when (negb (bool_decide (bstate b = state_writing)) || negb (peer_ =? 0))
            (modify_block d j (with_peer peer_));
      _ ← dl_modify it (fun d => dp_with_finished (dp_finished d + 1) d);
      _ ← when (bool_decide (bstate b = state_writing)) (dl_modify it (fun d => dp_with_writing (dp_writing d - 1) d));
      _ ← modify_block d j (with_bstate state_finished);
      it ← update_piece_state random_values it;
      d ← query (dl_deref it);
      n ← gets (blocks_in_piece (dp_index d));
      if dp_finished d <? n then mret tt
      else when (dp_passed_hash_check d) (we_have (dp_index d))) s v t ->
    runs (mark_as_finished random_values (PB x j) peer_) s v t) as Hrun.
  { intros v t H. unfold mark_as_finished. cbn [piece_index block_index].
    step runs_get_piece. rewrite decide_False by (by rewrite queue_open). step Hr.
    eapply runs_bind; [eapply on_entry_deref, Hab|]. cbv beta.
    eapply runs_bind; [eapply on_entry_block; [apply Hab|done|apply (ab_block Hab)]|]. cbv beta. exact H. }
  pose proof (state_in Hab) as Hst. rewrite Hst in Hnr.
  destruct (decide (bstate b = state_finished)) as [Hf|Hf].
  - exists s. split_and!; [|done|by apply touched_others|].
    + apply Hrun. by rewrite bool_decide_eq_true_2.
    + right. split_and!; [intros [_ Hn]; congruence|done|apply only_block_id; congruence].
  - destruct (finish_entry peer_ Hab) as (s' & Hr' & H'); [by destruct (bstate b); auto|].
    exists s'. split; [|done]. apply Hrun. by rewrite bool_decide_eq_false_2.
Qed.
End random.
