(* ===== verification/PickerRefcountSpec.v ===== *)
(** * Counting the peers that have a piece

    The availability of a piece is its count plus the seeds.  The operations
    that add and remove the pieces of a peer change the availability of these
    pieces by one, whether they count a piece, count a seed or break a seed up
    into counts, and keep the invariant. *)

From Stdlib Require Import ZArith Lia.
From stdpp Require Import base numbers sorting list.
From S2P Require Import Prelude Bitfield BitfieldSpec PickerState PickerList PickerOps PickerQuery.
From S2P Require Import PickerListSpec PickerDownloadsSpec PickerInvariant PickerFrame PickerStateSpec.
From S2P Require Import PickerBlockSpec PickerHaveSpec.

(** ** Frames *)

(** The piece but for its count and position. *)
Definition same_download (p p' : piece_pos) : Prop :=
  download_state p' = download_state p /\ piece_prio p' = piece_prio p /\ have p' = have p.

#[export] Instance same_download_refl : Reflexive same_download.
Proof. by intros p. Qed.

#[export] Instance same_download_trans : Transitive same_download.
Proof. intros p q r (?&?&?) (?&?&?). split_and!; congruence. Qed.

(** What is not counted. *)
Definition uncounted (s : picker) :=
  (m_num_passed s, m_downloads s, m_block_info s, m_free_block_infos s, m_blocks_per_piece s, m_blocks_in_last_piece s,
   m_num_filtered s, m_num_have_filtered s, m_cursor s, m_reverse_cursor s, m_num_have s, m_num_pad_files s).

Record counted (s s' : picker) : Prop := {
  ct_pieces : Forall2 same_download (m_piece_map s) (m_piece_map s');
  ct_rest : uncounted s' = uncounted s;
}.

#[export] Instance counted_refl : Reflexive counted.
Proof. intros s. by split. Qed.

#[export] Instance counted_trans : Transitive counted.
Proof. intros s1 s2 s3 [A B] [C D]. split; [by transitivity (m_piece_map s2)|congruence]. Qed.

Lemma moved_counted s s' : moved s s' -> counted s s'.
Proof.
  intros [Hm Hr]. split; [|by rewrite Hr]. eapply Forall2_impl; [exact Hm|]. by intros p q (? & ? & ? & ?).
Qed.

Lemma counted_num s s' : counted s s' -> num_pieces s' = num_pieces s.
Proof. intros [H _]. unfold num_pieces. by rewrite (Forall2_length _ _ _ H). Qed.

Lemma counted_piece s s' x p :
  counted s s' -> piece_at x s = Some p -> exists p', piece_at x s' = Some p' /\ same_download p p'.
Proof.
  intros [H _] Hp. unfold piece_at, zget in *. case_decide; [|done].
  destruct (Forall2_lookup_l _ _ _ _ _ H Hp) as (p' & ? & ?). eauto.
Qed.

Lemma counted_piece_back s s' x p' :
  counted s s' -> piece_at x s' = Some p' -> exists p, piece_at x s = Some p /\ same_download p p'.
Proof.
  intros [H _] Hp. unfold piece_at, zget in *. case_decide; [|done].
  destruct (Forall2_lookup_r _ _ _ _ _ H Hp) as (p & ? & ?). eauto.
Qed.

(** Counting changes neither what is wanted nor the entries. *)
Lemma same_download_cursors l l' c r :
  Forall2 same_download l l' -> first_wanted l 0 c -> last_wanted l (zlen l) r ->
  first_wanted l' 0 c /\ last_wanted l' (zlen l') r.
Proof.
  intros Hl (F1 & F2 & F3) (L1 & L2 & L3). pose proof (Forall2_length _ _ _ Hl) as Hlen.
  assert (forall i p', zget l' i = Some p' -> exists p, zget l i = Some p /\ unwanted p' = unwanted p) as Hat.
  { intros i p' Hp. unfold zget in *. case_decide; [|done].
    destruct (Forall2_lookup_r _ _ _ _ _ Hl Hp) as (p & Hp2 & _ & Hpr & Hh).
    exists p. split; [done|]. unfold unwanted, filtered. by rewrite Hpr, Hh. }
  split; split_and!; try lia.
  - intros i p Hi (q & Hq & ->)%Hat. by eapply F2.
  - intros p (q & Hq & ->)%Hat. by apply F3.
  - intros i p Hi (q & Hq & ->)%Hat. eapply L2; [|exact Hq]. lia.
  - intros H0 p (q & Hq & ->)%Hat. by apply L3.
Qed.

Lemma counted_count s s' f :
  counted s s' -> (forall p p', same_download p p' -> f p' = f p) -> count_pieces f s' = count_pieces f s.
Proof.
  intros [Hl _] Hf. unfold count_pieces. f_equal. induction Hl as [|p p' l l' Hp _ IH]; [done|].
  rewrite !filter_cons, (Hf p p' Hp). case_decide; simpl; congruence.
Qed.

Lemma counted_invariant s s' :
  invariant s -> counted s s' -> typed s' -> list_ok s' -> invariant s'.
Proof.
  intros Hi Hc Hty Hl. pose proof Hc as [Hp [= E1 E2 E3 E4 E5 E6 E7 E8 E9 E10 E11]].
  pose proof (counted_num _ _ Hc) as Hn. destruct Hi as [_ _ [Hc1 Hc2] (C1 & C2 & C3) [n Hs] Hlast Hpcs].
  split; [done|done| | | |congruence|].
  - unfold cursors_ok, num_pieces. rewrite E9, E10. by apply (same_download_cursors (m_piece_map s)).
  - unfold counters_ok. rewrite E7, E8, E11, C1, C2, C3.
    split_and!; symmetry; apply counted_count; try done; intros p p' (_ & Hpr & Hh); unfold filtered; by rewrite ?Hpr, Hh.
  - exists n. destruct Hs as [H1 H2 H3 H4 H5 H6 H7 H8]. split; rewrite ?Hn; congruence || (by rewrite ?E2, ?E4).
  - intros x p' Hp'. destruct (counted_piece_back _ _ _ _ Hc Hp') as (p & Hpx & Hd & Hpr & Hh).
    destruct (Hpcs x p Hpx) as (o & Hv & Hok). exists o. split.
    + unfold dl_view, in_queue, slice, downloads_of in *. by rewrite E2, E3, E5.
    + unfold blocks_in_piece. rewrite Hn, E5, E6. destruct o as [[[q d] bs]|]; simpl in *; [|congruence].
      unfold download_queue, placed, expected_queue, filtered in *. by rewrite Hd, Hh, Hpr.
Qed.

(** ** Availability *)

(** The availability of every piece [y] changes by [f y]. *)
Record recounted (f : Z -> Z) (s s' : picker) : Prop := {
  rc_counted : counted s s';
  rc_typed : typed s';
  rc_avail : forall y, get_availability_of y s' = (fun a => a + f y) <$> get_availability_of y s;
}.

Definition at_piece (x k y : Z) : Z := if decide (y = x) then k else 0.

Lemma recounted_refl s : typed s -> recounted (fun _ => 0) s s.
Proof.
  intros Ht. split; [done|done|]. intros y. destruct (get_availability_of y s); simpl; [f_equal; lia|done].
Qed.

Lemma recounted_trans f g s1 s2 s3 :
  recounted f s1 s2 -> recounted g s2 s3 -> recounted (fun y => f y + g y) s1 s3.
Proof.
  intros [A B C] [D E F]. split; [by transitivity s2|done|]. intros y. rewrite F, C.
  destruct (get_availability_of y s1); simpl; [f_equal; lia|done].
Qed.

Lemma recounted_ext f g s s' : recounted f s s' -> (forall y, f y = g y) -> recounted g s s'.
Proof. intros [A B C] H. split; [done|done|]. intros y. by rewrite <- H. Qed.

Lemma availability_at x s p : piece_at x s = Some p -> get_availability_of x s = Some (peer_count p + m_seeds s).
Proof. intros H. unfold get_availability_of. by rewrite H. Qed.

Lemma recounted_moved s s' : typed s -> moved s s' -> recounted (fun _ => 0) s s'.
Proof.
  intros Ht Hm. split; [by apply moved_counted|by eapply moved_typed|]. intros y. unfold get_availability_of.
  rewrite (moved_seeds _ _ Hm). destruct (piece_at y s) as [p|] eqn:Hp; simpl.
  - destruct (moved_piece _ _ _ _ Hm Hp) as (p' & -> & Hc & _). simpl. rewrite Hc. f_equal. lia.
  - destruct (piece_at y s') as [p'|] eqn:Hp'; [|done].
    destruct (counted_piece_back _ _ _ _ (moved_counted _ _ Hm) Hp') as (p & Hp2 & _). congruence.
Qed.

Lemma put_count s x p c :
  typed s -> piece_at x s = Some p -> 0 <= c < 2 ^ 16 ->
  recounted (at_piece x (c - peer_count p)) s (put_piece x (with_peer_count c p) s).
Proof.
  intros Ht Hp Hc. assert (same_download p (with_peer_count c p)) as Hs by done.
  assert (u16 c = c) as Hu by (apply Z.mod_small; lia). split.
  - split; [|done]. unfold put_piece. cbn. pose proof Hp as Hp'. unfold piece_at, zget in Hp'. case_decide; [|done].
    rewrite <- (list_insert_id (m_piece_map s) (Z.to_nat x) p) at 1 by done. by apply Forall2_insert.
  - apply typed_put_piece; [done|]. pose proof (typed_piece_at _ _ _ Ht Hp) as [_ H2]. split; [|done].
    cbn. rewrite Hu. lia.
  - intros y. unfold get_availability_of, at_piece. rewrite piece_at_put by eauto. change (m_seeds (put_piece _ _ _)) with (m_seeds s).
    destruct (decide (x = y)) as [->|Hne].
    + rewrite Hp, decide_True by done. simpl. f_equal. rewrite Hu. lia.
    + rewrite decide_False by done. destruct (piece_at y s); simpl; [f_equal; lia|done].
Qed.

(** No piece has [2 ^ 16] peers. *)
Definition crowd_ok (s : picker) : Prop := forall y a, get_availability_of y s = Some a -> a < 2 ^ 16.

Lemma recounted_piece f s s' x p :
  recounted f s s' -> piece_at x s = Some p ->
  exists p', piece_at x s' = Some p' /\ same_download p p' /\ peer_count p' + m_seeds s' = peer_count p + m_seeds s + f x.
Proof.
  intros [Hc _ Ha] Hp. destruct (counted_piece _ _ _ _ Hc Hp) as (p' & Hp' & Hs). exists p'. split_and!; [done|done|].
  specialize (Ha x). rewrite (availability_at _ _ _ Hp), (availability_at _ _ _ Hp') in Ha. simpl in Ha. congruence.
Qed.

Section random.
Context (random_values : nat -> Z).

(** ** One piece *)

Lemma inc_refcount_spec s x p :
  invariant s -> piece_at x s = Some p -> peer_count p + 1 < 2 ^ 16 ->
  exists s', runs (inc_refcount random_values x) s tt s' /\ invariant s' /\ recounted (at_piece x 1) s s'.
Proof.
  intros Hi Hp Hc. pose proof (in_typed _ Hi) as Ht. pose proof (priority_of_at x s p Hp) as Hk.
  pose proof (typed_piece_at _ _ _ Ht Hp) as [Hc0 _].
  pose proof (put_count s x p (peer_count p + 1) Ht Hp ltac:(lia)) as Hrc. set (s1 := put_piece x _ s) in *.
  destruct (reposition_spec random_values s1 x (priority (m_seeds s) p) (rc_typed _ _ _ Hrc)) as (s2 & Hr2 & Hmv & Hl).
  { eapply priority_of_some. unfold s1. rewrite piece_at_put, decide_True by eauto. done. }
  { exact (priority_of_ge _ _ _ Ht Hk). }
  { eapply lists_at_put; [exact Hp|done|]. by apply list_ok_at; [apply Hi|]. }
  pose proof (recounted_trans _ _ _ _ _ Hrc (recounted_moved s1 s2 (rc_typed _ _ _ Hrc) Hmv)) as Hrc2.
  exists s2. split_and!.
  - unfold inc_refcount. eapply runs_bind; [by apply runs_get_priority|]. cbv beta.
    eapply runs_bind; [by apply runs_modify_piece|]. exact Hr2.
  - by eapply counted_invariant; [exact Hi|apply Hrc2|apply Hrc2|].
  - eapply recounted_ext; [exact Hrc2|]. intros y. unfold at_piece. case_decide; lia.
Qed.

(** ** All pieces *)

(** All counts change by [k] and the seeds by [j]. *)
Definition shift_counts (k j : Z) (s : picker) : picker :=
  set_m_dirty true (set_m_piece_map (map (fun p => with_peer_count (peer_count p + k) p) (m_piece_map s))
    (set_m_seeds (m_seeds s + j) s)).

Lemma piece_at_map f s s' x : m_piece_map s' = map f (m_piece_map s) -> piece_at x s' = f <$> piece_at x s.
Proof. intros H. unfold piece_at, zget. rewrite H. case_decide; [|done]. by rewrite <- list_lookup_fmap. Qed.

Lemma shift_counts_spec k j s :
  typed s -> (forall x p, piece_at x s = Some p -> 0 <= peer_count p + k < 2 ^ 16) -> 0 <= m_seeds s + j ->
  recounted (fun _ => k + j) s (shift_counts k j s).
Proof.
  intros Ht Hc Hj. split.
  - split; [|done]. cbn. apply Forall2_fmap_r, Forall_Forall2_diag, Forall_true. done.
  - destruct Ht as [H1 H2 H3]. split; [|done|unfold num_pieces in *; cbn; by rewrite length_map].
    cbn. apply Forall_map, Forall_lookup. intros i p Hp. assert (piece_at (Z.of_nat i) s = Some p) as Hat.
    { unfold piece_at, zget. rewrite decide_True by lia. by rewrite Nat2Z.id. }
    specialize (Hc _ _ Hat). destruct (proj1 (Forall_lookup _ _) H1 i p Hp) as [_ Hpr]. split; [|done].
    cbn. unfold u16. rewrite Z.mod_small by done. lia.
  - intros y. unfold get_availability_of. rewrite (piece_at_map _ s (shift_counts k j s) y eq_refl).
    change (m_seeds (shift_counts k j s)) with (m_seeds s + j).
    destruct (piece_at y s) as [p|] eqn:Hp; [|done]. simpl. f_equal. specialize (Hc _ _ Hp).
    unfold u16. rewrite Z.mod_small by done. lia.
Qed.

Lemma recounted_dirty f s s' : recounted f s s' -> recounted f s (set_m_dirty true s').
Proof. intros [A B C]. split; [by destruct A; split|by destruct B; split|done]. Qed.

Lemma recounted_dirty_l f s s' : recounted f (set_m_dirty true s) s' -> recounted f s s'.
Proof. intros [A B C]. split; [by destruct A; split|done|done]. Qed.

(** Seeds matter to the priorities only when there are none. *)
Lemma list_ok_seeds s n :
  list_ok s -> (forall y p, piece_at y s = Some p -> priority n p = priority (m_seeds s) p) -> list_ok (set_m_seeds n s).
Proof.
  intros Hl Hk Hd. destruct (Hl Hd) as [bk [[H1 H2 H3 H4] H5]]. exists bk. split; [by split|].
  intros j y Hj. rewrite H5 by done. unfold priority_of. change (piece_at y (set_m_seeds n s)) with (piece_at y s).
  destruct (piece_at y s) as [p|] eqn:Hp; [|done]. simpl. by rewrite (Hk y p Hp).
Qed.

Lemma seeds_priority n m p : 0 <= peer_count p -> 0 < n -> 0 < m -> priority n p = priority m p.
Proof.
  intros Hc Hn Hm. unfold priority. rewrite !(proj2 (Z.eqb_neq (peer_count p + _) 0)) by lia. done.
Qed.

Lemma set_seeds_spec s n : typed s -> 0 <= n -> recounted (fun _ => n - m_seeds s) s (set_m_seeds n s).
Proof.
  intros [H1 H2 H3] Hn. split; [done|by split|]. intros y. unfold get_availability_of.
  change (piece_at y (set_m_seeds n s)) with (piece_at y s). destruct (piece_at y s); [|done]. simpl. f_equal. lia.
Qed.

Lemma inc_refcount_all_spec s :
  invariant s -> m_seeds s + 1 < 2 ^ 31 ->
  exists s', runs inc_refcount_all s tt s' /\ invariant s' /\ recounted (fun _ => 1) s s'.
Proof.
  intros Hi Hmax. pose proof (in_typed _ Hi) as Ht. pose proof (ty_seeds _ Ht) as Hs.
  pose proof (set_seeds_spec s (m_seeds s + 1) Ht ltac:(lia)) as Hrc.
  apply (recounted_ext _ (fun _ => 1)) in Hrc; [|lia]. set (s1 := set_m_seeds (m_seeds s + 1) s) in *.
  destruct (Z.eqb_spec (m_seeds s1) 1) as [H1|H1].
  - exists (set_m_dirty true s1). pose proof (recounted_dirty _ _ _ Hrc) as Hrc1. split_and!; [| |done].
    + eapply runs_bind; [apply runs_gets|]. cbv beta. rewrite is_int_true by lia.
      unfold runs, modify. cbv zeta. fold s1. by rewrite (proj2 (Z.eqb_eq _ _) H1).
    + eapply counted_invariant; [exact Hi|apply Hrc1|apply Hrc1|done].
  - exists s1. split_and!; [| |done].
    + eapply runs_bind; [apply runs_gets|]. cbv beta. rewrite is_int_true by lia.
      unfold runs, modify. cbv zeta. fold s1. by rewrite (proj2 (Z.eqb_neq _ _) H1).
    + eapply counted_invariant; [exact Hi|apply Hrc|apply Hrc|]. apply list_ok_seeds; [apply Hi|].
      intros y p Hp. destruct (typed_piece_at _ _ _ Ht Hp) as [[Hc _] _]. cbn in H1. apply seeds_priority; lia.
Qed.

(** A peer that has everything leaves: every piece has a peer. *)
Lemma dec_refcount_all_spec s :
  invariant s -> (forall y a, get_availability_of y s = Some a -> 0 < a) ->
  exists s', runs dec_refcount_all s tt s' /\ invariant s' /\ recounted (fun _ => -1) s s'.
Proof.
  intros Hi Ha. pose proof (in_typed _ Hi) as Ht. pose proof (ty_seeds _ Ht) as Hs.
  unfold runs, dec_refcount_all, modify. destruct (Z.ltb_spec 0 (m_seeds s)) as [H0|H0].
  - pose proof (set_seeds_spec s (m_seeds s - 1) Ht ltac:(lia)) as Hrc.
    apply (recounted_ext _ (fun _ => -1)) in Hrc; [|lia]. set (s1 := set_m_seeds (m_seeds s - 1) s) in *.
    cbv zeta. destruct (Z.eqb_spec (m_seeds s1) 0) as [H1|H1].
    + exists (set_m_dirty true s1). pose proof (recounted_dirty _ _ _ Hrc) as Hrc1. split_and!; [done| |done].
      eapply counted_invariant; [exact Hi|apply Hrc1|apply Hrc1|done].
    + exists s1. split_and!; [done| |done].
      eapply counted_invariant; [exact Hi|apply Hrc|apply Hrc|]. apply list_ok_seeds; [apply Hi|].
      intros y p Hp. destruct (typed_piece_at _ _ _ Ht Hp) as [[Hc _] _]. cbn in H1. apply seeds_priority; lia.
  - assert (m_seeds s = 0) as Hz by lia.
    assert (set_m_dirty true (set_m_piece_map (map (fun p => with_peer_count (peer_count p - 1) p) (m_piece_map s)) s)
      = shift_counts (-1) 0 s) as ->.
    { unfold shift_counts. rewrite Hz. change (0 + 0) with 0. rewrite <- Hz. by destruct s. }
    assert (recounted (fun _ => -1 + 0) s (shift_counts (-1) 0 s)) as Hrc.
    { apply shift_counts_spec; [done| |lia]. intros x p Hp. destruct (typed_piece_at _ _ _ Ht Hp) as [[Hc1 Hc2] _].
      specialize (Ha x _ (availability_at _ _ _ Hp)). lia. }
    exists (shift_counts (-1) 0 s). split_and!; [done| |done].
    eapply counted_invariant; [exact Hi|apply Hrc|apply Hrc|done].
Qed.

(** ** Breaking up a seed *)

Lemma break_for_spec s x p :
  typed s -> crowd_ok s -> piece_at x s = Some p -> 0 < peer_count p + m_seeds s ->
  exists s' p', runs (break_for x) s tt s' /\ recounted (fun _ => 0) s s' /\ piece_at x s' = Some p' /\
    0 < peer_count p' /\ (s' = s \/ m_dirty s' = true).
Proof.
  intros Ht Hcr Hp Ha. unfold break_for. destruct (typed_piece_at _ _ _ Ht Hp) as [[Hc _] _].
  destruct (Z.eqb_spec (peer_count p) 0) as [H0|H0].
  - assert (recounted (fun _ => 1 + -1) s (shift_counts 1 (-1) s)) as Hrc.
    { apply shift_counts_spec; [done| |lia]. intros y q Hq. specialize (Hcr y _ (availability_at _ _ _ Hq)).
      destruct (typed_piece_at _ _ _ Ht Hq) as [[Hc1 _] _]. lia. }
    exists (shift_counts 1 (-1) s), (with_peer_count (peer_count p + 1) p). split_and!; [|done| | |by right].
    + step runs_get_piece. by rewrite (proj2 (Z.eqb_eq _ _) H0).
    + rewrite (piece_at_map _ s (shift_counts 1 (-1) s) x eq_refl), Hp. done.
    + cbn. by rewrite H0.
  - exists s, p. split_and!; [|by apply recounted_refl|done|lia|by left].
    step runs_get_piece. by rewrite (proj2 (Z.eqb_neq _ _) H0).
Qed.

(** A piece that has a counted peer loses one: a piece that was not in the
    list stays out of it. *)
Lemma lose_count s x p prev :
  typed s -> list_ok s -> piece_at x s = Some p -> 0 < peer_count p ->
  (m_dirty s = false -> prev = priority (m_seeds s) p) ->
  exists s', runs (
      _ ← modify_piece x (fun p => with_peer_count (peer_count p - 1) p);
      dirty ← get_dirty;
      when (negb dirty && (0 <=? prev)) (update_piece_pos random_values prev x)) s tt s' /\
    recounted (at_piece x (-1)) s s' /\ list_ok s' /\ m_dirty s' = m_dirty s.
Proof.
  intros Ht Hl Hp Hc Hprev. pose proof (typed_piece_at _ _ _ Ht Hp) as Htp. pose proof Htp as [[_ Hc2] _].
  pose proof (put_count s x p (peer_count p - 1) Ht Hp ltac:(lia)) as Hrc. set (s1 := put_piece x _ s) in *.
  apply (recounted_ext _ (at_piece x (-1))) in Hrc; [|intros y; unfold at_piece; case_decide; lia].
  assert (piece_at x s1 = Some (with_peer_count (peer_count p - 1) p)) as Hp1.
  { unfold s1. rewrite piece_at_put, decide_True by eauto. done. }
  destruct (m_dirty s) eqn:Hd.
  { exists s1. split_and!; [|done|intros Hd1; change (m_dirty s1) with (m_dirty s) in Hd1; congruence|done].
    eapply runs_bind; [by apply runs_modify_piece|]. eapply runs_bind; [apply runs_gets|].
    change (m_dirty (put_piece _ _ s)) with (m_dirty s). by rewrite Hd. }
  rewrite (Hprev eq_refl). set (k := priority (m_seeds s) p). pose proof (priority_of_at x s p Hp) as Hk. fold k in Hk.
  pose proof (priority_of_ge _ _ _ Ht Hk) as Hge.
  destruct (settle_update_spec random_values s1 x k (negb (m_dirty s1) && (0 <=? k)) (rc_typed _ _ _ Hrc))
    as (s2 & Hr2 & Hmv & Hl2); [|done|by eapply priority_of_some| |by rewrite andb_comm|].
  { eapply lists_at_put; [exact Hp|done|]. by apply list_ok_at. }
  { intros Hn. rewrite (priority_of_at _ _ _ Hp1). f_equal. unfold k in Hn. apply (priority_none _ _ Htp) in Hn.
    apply priority_none; [by apply (typed_piece_at s1 x); [apply Hrc|]|].
    pose proof (ty_seeds _ Ht). rewrite (proj2 (Z.eqb_neq (peer_count p + m_seeds s) 0)) in Hn by lia.
    rewrite orb_false_r in Hn. change (filtered (with_peer_count _ p)) with (filtered p).
    change (have (with_peer_count _ p)) with (have p). change (download_state (with_peer_count _ p)) with (download_state p).
    destruct (filtered p); [done|]. destruct (have p); [done|]. simpl in *. by rewrite <- orb_assoc, Hn, orb_true_r. }
  exists s2. split_and!; [| |done|].
  - eapply runs_bind; [by apply runs_modify_piece|]. eapply runs_bind; [apply runs_gets|]. exact Hr2.
  - eapply recounted_ext; [eapply (recounted_trans _ _ s s1 s2); [exact Hrc|by apply recounted_moved; [apply Hrc|]]|].
    intros y. simpl. lia.
  - rewrite (moved_dirty _ _ Hmv). done.
Qed.

Lemma dec_refcount_spec s x p :
  invariant s -> crowd_ok s -> piece_at x s = Some p -> 0 < peer_count p + m_seeds s ->
  exists s', runs (dec_refcount random_values x) s tt s' /\ invariant s' /\ recounted (at_piece x (-1)) s s'.
Proof.
  intros Hi Hcr Hp Ha. destruct (break_for_spec s x p (in_typed _ Hi) Hcr Hp Ha) as (s1 & p1 & Hr1 & Hrc1 & Hp1 & Hc1 & Hs1).
  assert (list_ok s1) as Hl1 by (destruct Hs1 as [->|Hd]; [apply Hi|intros ?; congruence]).
  destruct (lose_count s1 x p1 (priority (m_seeds s1) p1) (rc_typed _ _ _ Hrc1) Hl1 Hp1 Hc1)
    as (s2 & Hr2 & Hrc2 & Hl2 & _); [done|].
  pose proof (recounted_trans _ _ _ _ _ Hrc1 Hrc2) as Hrc. exists s2. split_and!.
  - unfold dec_refcount. step Hr1. eapply runs_bind; [by apply runs_get_priority, priority_of_at|]. exact Hr2.
  - eapply counted_invariant; [exact Hi|apply Hrc|apply Hrc|done].
  - eapply recounted_ext; [exact Hrc|]. intros y. simpl. lia.
Qed.

(** ** The pieces of a peer *)

(** How often a piece occurs. *)
Definition occurrences (l : list Z) (y : Z) : Z := zlen (filter (fun x => x = y) l).

Lemma occurrences_cons x l y : occurrences (x :: l) y = at_piece x 1 y + occurrences l y.
Proof. unfold occurrences, at_piece. rewrite filter_cons. repeat case_decide; simpl; subst; lia || done. Qed.

Lemma occurrences_nonneg l y : 0 <= occurrences l y.
Proof. unfold occurrences. lia. Qed.

(** The counts stay below [2 ^ 16]. *)
Definition room_for (f : Z -> Z) (s : picker) : Prop := forall y a, get_availability_of y s = Some a -> a + f y < 2 ^ 16.

Lemma room_after f g s s' : recounted f s s' -> room_for (fun y => f y + g y) s -> room_for g s'.
Proof.
  intros [_ _ Ha] Hr y a. rewrite Ha. destruct (get_availability_of y s) as [b|] eqn:E; [|done].
  simpl. intros [= <-]. specialize (Hr y b E). simpl in Hr. lia.
Qed.

Lemma room_ext f g s : (forall y, f y = g y) -> room_for f s -> room_for g s.
Proof. intros H Hr y a Ha. rewrite <- H. by apply Hr. Qed.

Lemma inc_each_spec l : forall s,
  typed s -> list_ok s -> m_dirty s = false -> room_for (occurrences l) s -> Forall (fun x => is_Some (piece_at x s)) l ->
  exists s', runs (inc_each random_values l) s tt s' /\ recounted (occurrences l) s s' /\ list_ok s'.
Proof.
  induction l as [|x l IH]; intros s Ht Hl Hd Hroom Hb.
  { exists s. split_and!; [done| |done]. by apply recounted_refl. }
  apply Forall_cons in Hb as [[p Hp] Hb]. pose proof (priority_of_at x s p Hp) as Hk.
  pose proof (typed_piece_at _ _ _ Ht Hp) as [[Hc _] _]. pose proof (ty_seeds _ Ht).
  pose proof (Hroom x _ (availability_at _ _ _ Hp)) as Hx. rewrite occurrences_cons in Hx.
  unfold at_piece in Hx. rewrite decide_True in Hx by done. pose proof (occurrences_nonneg l x).
  pose proof (put_count s x p (peer_count p + 1) Ht Hp ltac:(lia)) as Hrc. set (s1 := put_piece x _ s) in *.
  apply (recounted_ext _ (at_piece x 1)) in Hrc; [|intros y; unfold at_piece; case_decide; lia].
  assert (piece_at x s1 = Some (with_peer_count (peer_count p + 1) p)) as Hp1.
  { unfold s1. rewrite piece_at_put, decide_True by eauto. done. }
  pose proof (priority_of_at _ _ _ Hp1) as Hk1. set (k := priority (m_seeds s) p) in *. set (k1 := priority (m_seeds s1) _) in *.
  assert (lists_at s1 x k) as Hl1 by (eapply lists_at_put; [exact Hp|done|]; by apply list_ok_at).
  pose proof (priority_of_ge _ _ _ Ht Hk) as Hge.
  assert (exists s2, runs (if k =? k1 then mret tt else if 0 <=? k then update_piece_pos random_values k x
    else add random_values x) s1 tt s2 /\ moved s1 s2 /\ list_ok s2) as (s2 & Hr2 & Hmv & Hl2).
  { destruct (Z.eqb_spec k k1) as [E|E].
    - exists s1. split_and!; [done|done|]. rewrite E in Hl1. by eapply lists_at_done.
    - destruct (settle_spec random_values s1 x k) as (s2 & Hr2 & Hmv & Hl2); [apply Hrc|done|done|done|by eapply priority_of_some|].
      exists s2. split; [|by apply Hl2 || done]. destruct (Z.leb_spec 0 k).
      + by rewrite (proj2 (Z.eqb_neq k (-1))) in Hr2 by lia.
      + by rewrite (proj2 (Z.eqb_eq k (-1))) in Hr2 by lia. }
  pose proof (recounted_trans _ _ _ _ _ Hrc (recounted_moved s1 s2 (rc_typed _ _ _ Hrc) Hmv)) as Hrc2.
  apply (recounted_ext _ (at_piece x 1)) in Hrc2; [|intros y; simpl; lia].
  destruct (IH s2) as (s3 & Hr3 & Hrc3 & Hl3); [apply Hrc2|done|by rewrite (moved_dirty _ _ Hmv)| | |].
  { eapply room_after; [exact Hrc2|]. eapply room_ext; [|exact Hroom]. apply occurrences_cons. }
  { eapply Forall_impl; [exact Hb|]. intros y [q Hq].
    destruct (counted_piece _ _ _ _ (rc_counted _ _ _ Hrc2) Hq) as (q' & ? & _). by exists q'. }
  exists s3. split_and!; [|eapply recounted_ext; [by eapply recounted_trans|]; intros y; by rewrite occurrences_cons|done].
  simpl. eapply runs_bind; [by apply runs_get_priority|]. cbv beta. eapply runs_bind; [by apply runs_modify_piece|].
  eapply runs_bind; [by apply runs_get_priority|]. cbv beta. eapply runs_bind; [exact Hr2|exact Hr3].
Qed.

(** Every piece has at least as many peers. *)
Definition peers_for (f : Z -> Z) (s : picker) : Prop := forall y a, get_availability_of y s = Some a -> f y <= a.

Lemma peers_after f g s s' : recounted f s s' -> peers_for (fun y => g y - f y) s -> peers_for g s'.
Proof.
  intros [_ _ Ha] Hr y a. rewrite Ha. destruct (get_availability_of y s) as [b|] eqn:E; [|done].
  simpl. intros [= <-]. specialize (Hr y b E). simpl in Hr. lia.
Qed.

Lemma peers_ext f g s : (forall y, f y = g y) -> peers_for f s -> peers_for g s.
Proof. intros H Hr y a Ha. rewrite <- H. by apply Hr. Qed.

Lemma crowd_after f s s' : recounted f s s' -> (forall y, f y <= 0) -> crowd_ok s -> crowd_ok s'.
Proof.
  intros [_ _ Ha] Hf Hc y a. rewrite Ha. destruct (get_availability_of y s) as [b|] eqn:E; [|done].
  simpl. intros [= <-]. specialize (Hc y b E). specialize (Hf y). lia.
Qed.

Lemma present_after f s s' l :
  recounted f s s' -> Forall (fun x => is_Some (piece_at x s)) l -> Forall (fun x => is_Some (piece_at x s')) l.
Proof.
  intros Hrc H. eapply Forall_impl; [exact H|]. intros y [q Hq].
  destruct (counted_piece _ _ _ _ (rc_counted _ _ _ Hrc) Hq) as (q' & ? & _). by exists q'.
Qed.

Lemma dec_each_spec l : forall s,
  typed s -> list_ok s -> crowd_ok s -> peers_for (occurrences l) s -> Forall (fun x => is_Some (piece_at x s)) l ->
  exists s', runs (dec_each random_values l) s tt s' /\ recounted (fun y => - occurrences l y) s s' /\ list_ok s'.
Proof.
  induction l as [|x l IH]; intros s Ht Hl Hcr Hpe Hb.
  { exists s. split_and!; [done| |done]. by apply recounted_refl. }
  apply Forall_cons in Hb as [[p Hp] Hb]. pose proof (priority_of_at x s p Hp) as Hk.
  pose proof (Hpe x _ (availability_at _ _ _ Hp)) as Hx. rewrite occurrences_cons in Hx.
  unfold at_piece in Hx. rewrite decide_True in Hx by done. pose proof (occurrences_nonneg l x).
  destruct (break_for_spec s x p Ht Hcr Hp ltac:(lia)) as (s1 & p1 & Hr1 & Hrc1 & Hp1 & Hc1 & Hs1).
  assert (list_ok s1) as Hl1 by (destruct Hs1 as [->|Hd]; [done|intros ?; congruence]).
  destruct (lose_count s1 x p1 (priority (m_seeds s) p) (rc_typed _ _ _ Hrc1) Hl1 Hp1 Hc1)
    as (s2 & Hr2 & Hrc2 & Hl2 & _).
  { intros Hd. destruct Hs1 as [->|?]; [|congruence]. rewrite Hp in Hp1. by injection Hp1 as <-. }
  pose proof (recounted_trans _ _ _ _ _ Hrc1 Hrc2) as Hrc.
  apply (recounted_ext _ (at_piece x (-1))) in Hrc; [|intros y; simpl; lia].
  destruct (IH s2) as (s3 & Hr3 & Hrc3 & Hl3); [apply Hrc|done| | |by eapply present_after|].
  { eapply crowd_after; [exact Hrc| |done]. intros y. unfold at_piece. case_decide; lia. }
  { eapply peers_after; [exact Hrc|]. eapply peers_ext; [|exact Hpe]. intros y. rewrite occurrences_cons.
    unfold at_piece. case_decide; lia. }
  exists s3. split_and!; [| |done].
  - simpl. eapply runs_bind; [by apply runs_get_priority|]. cbv beta. step Hr1.
    eapply (runs_bind3 (modify_piece x _)); [exact Hr2|exact Hr3].
  - eapply recounted_ext; [by eapply recounted_trans|]. intros y. rewrite occurrences_cons. unfold at_piece. simpl. case_decide; lia.
Qed.

(** *** The bits *)

(** The indices of the set bits, from [idx]. *)
Fixpoint set_bits (bits : list bool) (idx : Z) : list Z :=
  match bits with
  | [] => []
  | b :: bits => if b then idx :: set_bits bits (idx + 1) else set_bits bits (idx + 1)
  end.

Lemma collect_set_all bits idx size num acc l n :
  collect_set bits idx size num acc = (l, n) -> n < size -> l = acc ++ set_bits bits idx.
Proof.
  revert idx num acc. induction bits as [|b bits IH]; intros idx num acc; simpl.
  { intros [= <- <-] _. by rewrite app_nil_r. }
  destruct b; [|by apply IH].
  destruct (Z.leb_spec size (num + 1)) as [Hle|Hlt]; [intros [= _ <-]; lia|].
  rewrite (proj2 (Z.ltb_lt num size)) by lia. intros H Hn. rewrite (IH _ _ _ H Hn). by rewrite <- app_assoc.
Qed.

Definition bit_at (bits : list bool) (idx y : Z) : Z := if zget bits (y - idx) is Some true then 1 else 0.

Lemma set_bits_occurrences bits idx y : occurrences (set_bits bits idx) y = bit_at bits idx y.
Proof.
  revert idx. induction bits as [|b bits IH]; intros idx.
  { unfold bit_at, zget. simpl. by case_decide. }
  assert (bit_at (b :: bits) idx y = (if b then at_piece idx 1 y else 0) + bit_at bits (idx + 1) y) as ->.
  { unfold bit_at, at_piece. unfold zget at 1. destruct (decide (y = idx)) as [->|Hne].
    - rewrite Z.sub_diag, decide_True by lia. simpl. unfold zget. rewrite decide_False by lia. by destruct b.
    - unfold zget. repeat case_decide; try lia; [|by destruct b].
      replace (Z.to_nat (y - idx)) with (S (Z.to_nat (y - (idx + 1)))) by lia. simpl. by destruct b. }
  simpl. destruct b; [rewrite occurrences_cons|]; by rewrite IH.
Qed.

Lemma set_bits_range bits idx : Forall (fun x => idx <= x < idx + zlen bits) (set_bits bits idx).
Proof.
  revert idx. induction bits as [|b bits IH]; intros idx; [constructor|]. simpl.
  assert (Forall (fun x => idx <= x < idx + zlen (b :: bits)) (set_bits bits (idx + 1))) as H.
  { eapply Forall_impl; [apply IH|]. simpl. intros x. lia. }
  destruct b; [|exact H]. constructor; [simpl; lia|exact H].
Qed.

(** The loops over all bits change the counts and leave the list alone. *)
Lemma inc_bits_spec bits : forall idx updated s,
  typed s -> room_for (occurrences (set_bits bits idx)) s -> Forall (fun x => is_Some (piece_at x s)) (set_bits bits idx) ->
  exists s', runs (inc_bits bits idx updated) s (updated || negb (bool_decide (set_bits bits idx = []))) s' /\
    recounted (occurrences (set_bits bits idx)) s s' /\ m_dirty s' = m_dirty s /\ (set_bits bits idx = [] -> s' = s).
Proof.
  induction bits as [|b bits IH]; intros idx updated s Ht Hroom Hb; simpl.
  { exists s. split_and!; [by rewrite orb_false_r|by apply recounted_refl|done|done]. }
  destruct b; [|by apply IH]. simpl in Hroom, Hb. apply Forall_cons in Hb as [[p Hp] Hb].
  pose proof (typed_piece_at _ _ _ Ht Hp) as [[Hc _] _]. pose proof (ty_seeds _ Ht).
  pose proof (Hroom idx _ (availability_at _ _ _ Hp)) as Hx. rewrite occurrences_cons in Hx.
  unfold at_piece in Hx. rewrite decide_True in Hx by done. pose proof (occurrences_nonneg (set_bits bits (idx + 1)) idx).
  pose proof (put_count s idx p (peer_count p + 1) Ht Hp ltac:(lia)) as Hrc. set (s1 := put_piece idx _ s) in *.
  apply (recounted_ext _ (at_piece idx 1)) in Hrc; [|intros y; unfold at_piece; case_decide; lia].
  destruct (IH (idx + 1) true s1) as (s2 & Hr2 & Hrc2 & Hd2 & _); [apply Hrc| |by eapply present_after|].
  { eapply room_after; [exact Hrc|]. eapply room_ext; [|exact Hroom]. apply occurrences_cons. }
  exists s2. split_and!; [|eapply recounted_ext; [by eapply recounted_trans|]; intros y; by rewrite occurrences_cons|done|done].
  rewrite orb_true_r. eapply runs_bind; [by apply runs_modify_piece|exact Hr2].
Qed.

Lemma dec_bits_spec bits : forall idx updated s,
  typed s -> crowd_ok s -> peers_for (occurrences (set_bits bits idx)) s ->
  Forall (fun x => is_Some (piece_at x s)) (set_bits bits idx) ->
  exists s', runs (dec_bits bits idx updated) s (updated || negb (bool_decide (set_bits bits idx = []))) s' /\
    recounted (fun y => - occurrences (set_bits bits idx) y) s s' /\ (m_dirty s = true -> m_dirty s' = true) /\
    (set_bits bits idx = [] -> s' = s).
Proof.
  induction bits as [|b bits IH]; intros idx updated s Ht Hcr Hpe Hb; simpl.
  { exists s. split_and!; [by rewrite orb_false_r|by apply recounted_refl|done|done]. }
  destruct b; [|by apply IH]. simpl in Hpe, Hb. apply Forall_cons in Hb as [[p Hp] Hb].
  pose proof (Hpe idx _ (availability_at _ _ _ Hp)) as Hx. rewrite occurrences_cons in Hx.
  unfold at_piece in Hx. rewrite decide_True in Hx by done. pose proof (occurrences_nonneg (set_bits bits (idx + 1)) idx).
  destruct (break_for_spec s idx p Ht Hcr Hp ltac:(lia)) as (s1 & p1 & Hr1 & Hrc1 & Hp1 & Hc1 & Hs1).
  pose proof (typed_piece_at _ _ _ (rc_typed _ _ _ Hrc1) Hp1) as [[_ Hc2] _].
  pose proof (put_count s1 idx p1 (peer_count p1 - 1) (rc_typed _ _ _ Hrc1) Hp1 ltac:(lia)) as Hrc2. set (s2 := put_piece idx _ s1) in *.
  pose proof (recounted_trans _ _ _ _ _ Hrc1 Hrc2) as Hrc.
  apply (recounted_ext _ (at_piece idx (-1))) in Hrc; [|intros y; unfold at_piece; case_decide; lia].
  destruct (IH (idx + 1) true s2) as (s3 & Hr3 & Hrc3 & Hd3 & _); [apply Hrc| | |by eapply present_after|].
  { eapply crowd_after; [exact Hrc| |done]. intros y. unfold at_piece. case_decide; lia. }
  { eapply peers_after; [exact Hrc|]. eapply peers_ext; [|exact Hpe]. intros y. rewrite occurrences_cons.
    unfold at_piece. case_decide; lia. }
  exists s3. split_and!; [| | |done].
  - rewrite orb_true_r. eapply runs_bind; [exact Hr1|]. cbv beta. eapply runs_bind; [by apply runs_modify_piece|exact Hr3].
  - eapply recounted_ext; [by eapply recounted_trans|]. intros y. rewrite occurrences_cons. unfold at_piece. simpl. case_decide; lia.
  - intros Hd. apply Hd3. change (m_dirty s2) with (m_dirty s1). destruct Hs1 as [->|?]; done.
Qed.
End random.

(** * The pieces of a peer

    [inc_refcount] and [dec_refcount] of a bitfield: the availability of the
    pieces whose bit is set changes by one, on each of the paths the code
    takes. *)

Lemma recounted_ext_in f g s s' :
  recounted f s s' -> (forall y, 0 <= y < num_pieces s -> f y = g y) -> recounted g s s'.
Proof.
  intros [A B C] H. split; [done|done|]. intros y. rewrite C.
  destruct (get_availability_of y s) as [a|] eqn:E; [|done]. simpl. f_equal. f_equal. apply H.
  unfold get_availability_of in E. destruct (piece_at y s) as [p|] eqn:Hp; [|done]. by apply zget_Some_bound in Hp.
Qed.

Lemma no_bits l idx y : forallb negb l = true -> bit_at l idx y = 0.
Proof.
  intros H. rewrite forallb_forall in H. unfold bit_at. destruct (zget l (y - idx)) as [[]|] eqn:E; [|done..].
  apply zget_elem, list_elem_of_In in E. by apply H in E.
Qed.

Lemma every_bit l y : forallb id l = true -> 0 <= y < zlen l -> bit_at l 0 y = 1.
Proof.
  intros H Hy. rewrite forallb_forall in H. unfold bit_at. rewrite Z.sub_0_r. destruct (zget_is_Some l y Hy) as [b Hb].
  rewrite Hb. apply zget_elem, list_elem_of_In, H in Hb. by destruct b.
Qed.

Lemma bits_present s l : zlen l = num_pieces s -> Forall (fun x => is_Some (piece_at x s)) (set_bits l 0).
Proof.
  intros Hl. eapply Forall_impl; [apply set_bits_range|]. intros x Hx. apply zget_is_Some.
  simpl in Hx. unfold num_pieces in Hl. lia.
Qed.

Lemma set_bits_nil l idx : set_bits l idx = [] -> forall y, bit_at l idx y = 0.
Proof. intros H y. by rewrite <- set_bits_occurrences, H. Qed.

(** Marking the list dirty when something changed. *)
Lemma mark_dirty f s s' (c : bool) :
  invariant s -> recounted f s s' -> (c = false -> s' = s) -> (m_dirty s = true -> m_dirty s' = true) ->
  exists s2, runs (set_dirty_if c) s' tt s2 /\ invariant s2 /\ recounted f s s2.
Proof.
  intros Hi Hrc Hc Hd. destruct (m_dirty s') eqn:Hd'.
  - exists s'. split_and!; [|eapply counted_invariant; [exact Hi|apply Hrc|apply Hrc|intros ?; congruence]|done].
    unfold set_dirty_if. eapply runs_bind; [apply runs_gets|]. by rewrite Hd'.
  - destruct c.
    + exists (set_m_dirty true s'). pose proof (recounted_dirty _ _ _ Hrc) as Hrc'.
      split_and!; [|eapply counted_invariant; [exact Hi|apply Hrc'|apply Hrc'|done]|done].
      unfold set_dirty_if. eapply runs_bind; [apply runs_gets|]. by rewrite Hd'.
    + specialize (Hc eq_refl). subst s'. exists s. split_and!; [|done|done].
      unfold set_dirty_if. eapply runs_bind; [apply runs_gets|]. by rewrite Hd'.
Qed.

Section random.
Context (random_values : nat -> Z).

(** The start of both operations. *)
Lemma few_bits_spec bits n dirty l :
  few_bits bits n dirty = Some l -> dirty = false /\ l = set_bits bits 0.
Proof.
  unfold few_bits. destruct dirty; [done|].
  destruct (collect_set bits 0 (Z.min 50 (n / 2)) 0 []) as [l' num] eqn:E.
  destruct (Z.ltb_spec num (Z.min 50 (n / 2))) as [Hlt|]; [|done]. intros [= <-]. split; [done|].
  by eapply (collect_set_all _ _ _ _ []).
Qed.

(** Both operations: nothing for a peer without pieces, a seed for a peer that
    has all, and a loop for any other. *)
Lemma bits_run (all_bits : M unit) (each : list Z -> M unit) (loop : list bool -> Z -> bool -> M bool) s b s' :
  let l := bit_list b in
  bf_wf b -> bf_size b = num_pieces s ->
  (forallb negb l = true -> s' = s) ->
  (forallb negb l = false -> forallb id l = true -> runs all_bits s tt s') ->
  (forallb negb l = false -> forallb id l = false ->
   runs (match few_bits l (bf_size b) (m_dirty s) with
         | Some k => each k
         | None => updated ← loop l 0 false; set_dirty_if updated
         end) s tt s') ->
  runs (none ← lift (none_set b);
        if (none : bool) then mret tt
        else
          all ← lift (all_set b);
          n ← gets num_pieces;
          if (all : bool) && (bf_size b =? n) then all_bits
          else
            dirty ← get_dirty;
            bits ← lift (bf_bits b);
            match few_bits bits (bf_size b) dirty with
            | Some k => each k
            | None => updated ← loop bits 0 false; set_dirty_if updated
            end) s tt s'.
Proof.
  intros l Hb Hsz Hnone Hall Hloop. pose proof (wf_loose _ Hb) as Hlo.
  eapply runs_bind; [by apply runs_lift, none_set_spec|]. fold l. cbv beta.
  destruct (forallb negb l) eqn:E1; [by rewrite Hnone|].
  eapply runs_bind; [by apply runs_lift, all_set_spec|]. fold l. cbv beta.
  eapply runs_bind; [apply runs_gets|]. cbv beta. rewrite Hsz, Z.eqb_refl, andb_true_r.
  destruct (forallb id l) eqn:E2; [by apply Hall|].
  eapply runs_bind; [apply runs_gets|]. eapply runs_bind; [by apply runs_lift, bf_bits_spec|]. cbv beta. fold l.
  rewrite <- Hsz. by apply Hloop.
Qed.

Lemma inc_refcount_bits_spec s b :
  invariant s -> m_seeds s + 1 < 2 ^ 31 -> bf_wf b -> bf_size b = num_pieces s -> room_for (bit_at (bit_list b) 0) s ->
  exists s', runs (inc_refcount_bits random_values b) s tt s' /\ invariant s' /\ recounted (bit_at (bit_list b) 0) s s'.
Proof.
  intros Hi Hmax Hb Hsz Hroom. pose proof (length_bit_list b (wf_loose _ Hb)) as Hlen.
  assert (Hrun := fun s' => bits_run inc_refcount_all (inc_each random_values) inc_bits s b s' Hb Hsz).
  fold (inc_refcount_bits random_values b) in Hrun.
  set (l := bit_list b) in *. pose proof (in_typed _ Hi) as Ht.
  assert (room_for (occurrences (set_bits l 0)) s) as Hroom' by (eapply room_ext; [|exact Hroom]; intros y; by rewrite set_bits_occurrences).
  destruct (forallb negb l) eqn:Hnone.
  { exists s. split_and!; [by apply Hrun|done|]. eapply recounted_ext; [by apply recounted_refl|]. intros y. by rewrite no_bits. }
  destruct (forallb id l) eqn:Hall.
  { destruct (inc_refcount_all_spec s Hi Hmax) as (s' & Hr & Hi' & Hrc). exists s'. split_and!; [by apply Hrun|done|].
    eapply recounted_ext_in; [exact Hrc|]. intros y Hy. rewrite every_bit by (done || lia). done. }
  destruct (few_bits l (bf_size b) (m_dirty s)) as [k|] eqn:E.
  - apply few_bits_spec in E as [Hd ->].
    destruct (inc_each_spec random_values (set_bits l 0) s Ht (in_list _ Hi) Hd Hroom') as (s' & Hr & Hrc & Hl); [by apply bits_present; lia|].
    exists s'. split_and!; [by apply Hrun|eapply counted_invariant; [exact Hi|apply Hrc|apply Hrc|done]|].
    eapply recounted_ext; [exact Hrc|]. intros y. apply set_bits_occurrences.
  - destruct (inc_bits_spec l 0 false s Ht Hroom') as (s1 & Hr1 & Hrc & Hd & Hnil); [by apply bits_present; lia|].
    destruct (mark_dirty _ s s1 (false || negb (bool_decide (set_bits l 0 = []))) Hi Hrc) as (s' & Hr' & Hi' & Hrc').
    { intros Hc. apply Hnil. cbn [orb] in Hc. apply negb_false_iff in Hc. by apply bool_decide_eq_true in Hc. }
    { congruence. }
    exists s'. split_and!; [|done|eapply recounted_ext; [exact Hrc'|]; intros y; apply set_bits_occurrences].
    apply Hrun; [done..|]. intros _ _. eapply runs_bind; [exact Hr1|exact Hr'].
Qed.

(** The peer has the pieces it takes away. *)
Lemma dec_refcount_bits_spec s b :
  invariant s -> crowd_ok s -> bf_wf b -> bf_size b = num_pieces s -> peers_for (bit_at (bit_list b) 0) s ->
  exists s', runs (dec_refcount_bits random_values b) s tt s' /\ invariant s' /\
    recounted (fun y => - bit_at (bit_list b) 0 y) s s'.
Proof.
  intros Hi Hcr Hb Hsz Hpe. pose proof (length_bit_list b (wf_loose _ Hb)) as Hlen.
  assert (Hrun := fun s' => bits_run dec_refcount_all (dec_each random_values) dec_bits s b s' Hb Hsz).
  fold (dec_refcount_bits random_values b) in Hrun.
  set (l := bit_list b) in *. pose proof (in_typed _ Hi) as Ht.
  assert (peers_for (occurrences (set_bits l 0)) s) as Hpe' by (eapply peers_ext; [|exact Hpe]; intros y; by rewrite set_bits_occurrences).
  destruct (forallb negb l) eqn:Hnone.
  { exists s. split_and!; [by apply Hrun|done|]. eapply recounted_ext; [by apply recounted_refl|]. intros y. by rewrite no_bits. }
  destruct (forallb id l) eqn:Hall.
  { destruct (dec_refcount_all_spec s Hi) as (s' & Hr & Hi' & Hrc).
    { intros y a Ha. specialize (Hpe y a Ha). unfold get_availability_of in Ha. destruct (piece_at y s) as [p|] eqn:Hp; [|done].
      apply zget_Some_bound in Hp. rewrite every_bit in Hpe by (done || unfold num_pieces in *; lia). lia. }
    exists s'. split_and!; [by apply Hrun|done|].
    eapply recounted_ext_in; [exact Hrc|]. intros y Hy. rewrite every_bit by (done || lia). done. }
  destruct (few_bits l (bf_size b) (m_dirty s)) as [k|] eqn:E.
  - apply few_bits_spec in E as [Hd ->].
    destruct (dec_each_spec random_values (set_bits l 0) s Ht (in_list _ Hi) Hcr Hpe') as (s' & Hr & Hrc & Hl); [by apply bits_present; lia|].
    exists s'. split_and!; [by apply Hrun|eapply counted_invariant; [exact Hi|apply Hrc|apply Hrc|done]|].
    eapply recounted_ext; [exact Hrc|]. intros y. simpl. by rewrite set_bits_occurrences.
  - destruct (dec_bits_spec l 0 false s Ht Hcr Hpe') as (s1 & Hr1 & Hrc & Hd & Hnil); [by apply bits_present; lia|].
    destruct (mark_dirty _ s s1 (false || negb (bool_decide (set_bits l 0 = []))) Hi Hrc) as (s' & Hr' & Hi' & Hrc').
    { intros Hc. apply Hnil. cbn [orb] in Hc. apply negb_false_iff in Hc. by apply bool_decide_eq_true in Hc. }
    { done. }
    exists s'. split_and!; [|done|eapply recounted_ext; [exact Hrc'|]; intros y; simpl; by rewrite set_bits_occurrences].
    apply Hrun; [done..|]. intros _ _. eapply runs_bind; [exact Hr1|exact Hr'].
Qed.
End random.
