(* ===== verification/PickerPieceSpec.v ===== *)
(** * Operations on whole pieces

    Locking and passing a piece, restoring it, its priority, and the
    rebuilding of the pick list. *)

From Stdlib Require Import ZArith Lia.
From stdpp Require Import base numbers list sorting.
From S2P Require Import Prelude PickerState PickerList PickerOps PickerQuery PickerListSpec.
From S2P Require Import PickerDownloadsSpec PickerInvariant PickerRebuildSpec PickerFrame PickerStateSpec.
From S2P Require Import PickerBlockSpec PickerHaveSpec PickerWriteSpec PickerFinishSpec.

(** ** The blocks stay *)

(** No block of any piece changes its state. *)
Definition same_blocks (s s' : picker) : Prop :=
  forall y i, 0 <= y < num_pieces s -> 0 <= i < blocks_in_piece y s -> state_of y i s' = state_of y i s.

Lemma same_blocks_entry s s' x it it' d d' bs :
  invariant s -> views_kept s s' x -> on_entry s it d bs -> dp_index d = x -> on_entry s' it' d' bs -> dp_index d' = x ->
  same_blocks s s'.
Proof.
  intros Hi Hv Hoe Hd Hoe' Hd' y i Hy Hib. destruct (decide (y = x)) as [->|Hne].
  - rewrite <- Hd' at 1. rewrite (state_of_entry _ _ _ _ i Hoe'), <- Hd. by rewrite (state_of_entry _ _ _ _ i Hoe).
  - eapply state_of_other; [exact Hi|exact Hv|apply Hoe'|done|done].
Qed.

(** An entry of a settled piece that changes in its flags only. *)
Lemma flags_invariant s0 s it d d' bs p x n :
  invariant s0 -> piece_at x s0 = Some p -> n = blocks_in_piece x s0 -> piece_ok n p (Some (it_queue it, d, bs)) ->
  quiet x s0 s -> on_entry s it d' bs -> dp_index d' = x -> same_counts d d' -> invariant s.
Proof.
  intros Hi Hp -> (Hq & Hh & [He Hu] & [C1 C2 C3 C4]) Hqu Hoe <- (_ & _ & K1 & K2 & K3).
  eapply (entry_invariant s0); [done|apply Hqu|eapply quiet_list_ok; [done|apply Hi]|exact Hoe|by rewrite (quiet_piece (dp_index d') s0 s)|].
  rewrite (touched_blocks (dp_index d') s0 s) by apply Hqu.
  unfold piece_ok, placed, used, expected_queue, used in *. rewrite K1, K2, K3. split_and!; try done. split; congruence.
Qed.

Section random.
Context (random_values : nat -> Z).

(** ** [lock_piece] *)

Definition locked_at (x : Z) (s : picker) : bool :=
  match entry_at x s with Some d => dp_locked d | None => false end.

Lemma entry_in s it d bs : on_entry s it d bs -> entry_at (dp_index d) s = Some d.
Proof. intros Hoe. by rewrite (entry_at_view _ _ _ (oe_shape _ _ _ _ Hoe) (on_entry_view _ _ _ _ Hoe)). Qed.

Lemma same_blocks_refl s : same_blocks s s.
Proof. by intros y i _ _. Qed.

Lemma lock_piece_spec s x p :
  invariant s -> piece_at x s = Some p ->
  exists s', runs (lock_piece x) s tt s' /\ invariant s' /\ touched x s s' /\ same_blocks s s' /\
    (download_state p <> piece_open -> locked_at x s' = true /\ passed_at x s' = false).
Proof.
  intros Hi Hp. unfold lock_piece. destruct (decide (download_state p = piece_open)) as [Ho|Ho].
  { exists s. split_and!; [|done|done|done|done].
    step runs_get_piece. cbv zeta. by rewrite decide_True by (by apply queue_open). }
  destruct (entry_of s x p Hi Hp Ho) as (it & d & bs & Hr & Hq & Hoe & Hd & Hok).
  destruct (clear_passed (dp_passed_hash_check d) s it d bs x Hoe Hd) as (s1 & d1 & Hr1 & Hoe1 & Hqu1 & Hsc & Hpass).
  pose proof Hsc as (Hd1 & Hi1 & K1 & K2 & K3).
  destruct (entry_modify s1 it d1 bs (dp_with_locked true) Hoe1 eq_refl eq_refl) as (s2 & Hr2 & Hoe2 & Hqu2).
  rewrite Hd1, Hd in Hqu2. assert (quiet x s s2) as Hqu by (by transitivity s1).
  specialize (Hpass eq_refl).
  exists s2. split_and!.
  - step runs_get_piece. cbv zeta. rewrite decide_False by (by rewrite queue_open). step Hr.
    eapply runs_bind; [by eapply on_entry_end|]. cbv beta iota. eapply runs_bind; [by eapply on_entry_deref|]. cbv beta.
    step Hr1. exact Hr2.
  - eapply (flags_invariant s s2 it d); [done|exact Hp|done|by rewrite Hq|exact Hqu|exact Hoe2|simpl; congruence|done].
  - apply Hqu.
  - eapply same_blocks_entry; [done|apply Hqu|exact Hoe|done|exact Hoe2|simpl; congruence].
  - intros _. assert (dp_index (dp_with_locked true d1) = x) as Hx by (simpl; congruence).
    pose proof (entry_in _ _ _ _ Hoe2) as He. rewrite Hx in He. unfold locked_at, passed_at. by rewrite He.
Qed.

(** ** [restore_piece] *)

Lemma entry_flight s it d bs p x :
  invariant s -> piece_at x s = Some p -> download_state p <> piece_open -> on_entry s it d bs -> dp_index d = x ->
  it_queue it = download_queue p -> piece_ok (blocks_in_piece x s) p (Some (download_queue p, d, bs)) ->
  in_flight s s it d bs p x (blocks_in_piece x s).
Proof. intros Hi Hp Ho Hoe Hd Hq (_ & Hh & _ & Hco). by split; try done; apply Hi. Qed.

(** All blocks of the piece [x] are free. *)
Definition blocks_freed (s s' : picker) (x : Z) : Prop :=
  forall y i, 0 <= y < num_pieces s -> 0 <= i < blocks_in_piece y s ->
    state_of y i s' = if decide (y = x) then state_none else state_of y i s.

Lemma freed_view s s' x :
  invariant s -> views_kept s s' x -> dl_ok s' -> dl_view s' x None -> blocks_freed s s' x.
Proof.
  intros Hi Hv Hdl Hx y i Hy Hib. case_decide as E; [subst y; by rewrite (state_of_view s' x None)|].
  by eapply state_of_other.
Qed.

Lemma restore_piece_spec s x p :
  invariant s -> piece_at x s = Some p ->
  exists s', runs (restore_piece random_values x) s tt s' /\ invariant s' /\ touched x s s' /\ blocks_freed s s' x /\
    option_map downloading (piece_at x s') = Some false.
Proof.
  intros Hi Hp. unfold restore_piece. destruct (decide (download_state p = piece_open)) as [Ho|Ho].
  { exists s. split_and!; [|done|done| |].
    - step runs_get_piece. cbv zeta. by rewrite decide_True by (by apply queue_open).
    - apply freed_view; [done|by intros ??|apply Hi|by eapply open_view].
    - rewrite Hp. simpl. by rewrite (proj2 (downloading_open p) Ho). }
  destruct (entry_of s x p Hi Hp Ho) as (it & d & bs & Hr & Hq & Hoe & Hd & Hok).
  pose proof (entry_flight s it d bs p x Hi Hp Ho Hoe Hd Hq Hok) as Hfl.
  destruct (entry_modify s it d bs (dp_with_locked false) Hoe eq_refl eq_refl) as (s1 & Hr1 & Hoe1 & Hqu1). rewrite Hd in Hqu1.
  pose proof (fly_quiet s1 (dp_with_locked false d) Hfl Hqu1 Hoe1 Hd eq_refl eq_refl eq_refl) as Hfl1.
  destruct (fly_restore random_values Hfl1) as (s2 & Hr2 & Hi2 & Ht2 & Hv2).
  exists s2. split_and!; [|done|done|apply freed_view; [done|apply Ht2|apply Hi2|done]|].
  - step runs_get_piece. cbv zeta. rewrite decide_False by (by rewrite queue_open). step Hr. step Hr1. exact Hr2.
  - destruct (zget_is_Some (m_piece_map s2) x) as [p2 Hp2].
    { pose proof (touched_num _ _ _ Ht2) as Hn. apply zget_Some_bound in Hp. unfold num_pieces in Hn. lia. }
    change (piece_at x s2 = Some p2) in Hp2. rewrite Hp2. simpl. f_equal. apply downloading_open.
    destruct (in_pieces _ Hi2 x p2 Hp2) as (o & Hv & Hok2). destruct o as [[[q e] l]|]; [|done].
    destruct Hv as (Hin & He & _). by apply Hv2 in Hin.
Qed.

(** ** [piece_passed] *)

(** The piece is had if all its blocks are finished. *)
Definition all_finished_at (x : Z) (s : picker) : Prop :=
  forall i, 0 <= i < blocks_in_piece x s -> state_of x i s = state_finished.

Lemma piece_passed_spec s x p :
  invariant s -> piece_at x s = Some p -> download_state p <> piece_open ->
  exists s', runs (piece_passed x) s tt s' /\ invariant s' /\ others_kept x s s' /\
    (locked_at x s = true -> s' = s) /\
    (locked_at x s = false -> all_finished_at x s -> became_had s s' x) /\
    (locked_at x s = false -> ~ all_finished_at x s -> touched x s s' /\ same_blocks s s' /\ passed_at x s' = true).
Proof.
  intros Hi Hp Ho. destruct (entry_of s x p Hi Hp Ho) as (it & d & bs & Hr & Hq & Hoe & Hd & Hok).
  pose proof Hok as (_ & Hh & _ & Hco). pose proof (blocks_bound s x Hi) as Hbb.
  pose proof (on_entry_length _ _ _ _ Hoe) as Hlen.
  assert (locked_at x s = dp_locked d) as Hlk by (unfold locked_at; rewrite <- Hd; by rewrite (entry_in _ _ _ _ Hoe)).
  assert (all_finished_at x s <-> dp_finished d = blocks_in_piece x s) as Hall.
  { rewrite (all_finished _ _ _ Hco) by lia. unfold all_finished_at. split.
    - intros H i b Hib Hb. rewrite <- (H i Hib), <- Hd, (state_of_entry _ _ _ _ i Hoe). by rewrite Hb.
    - intros H i Hib. rewrite <- Hd, (state_of_entry _ _ _ _ i Hoe). destruct (zget_is_Some bs i) as [b Hb]; [lia|].
      rewrite Hb. simpl. by apply (H i). }
  assert (forall v t, runs (if dp_locked d then mret tt else
      _ ← dl_modify it (dp_with_passed true);
      _ ← modify (fun s => set_m_num_passed (m_num_passed s + 1) s);
      n ← gets (blocks_in_piece x);
      if dp_finished d <? n then mret tt else we_have x) s v t -> runs (piece_passed x) s v t) as Hrun.
  { intros v t H. unfold piece_passed. step runs_get_piece. cbv zeta. rewrite decide_False by (by rewrite queue_open).
    step Hr. eapply runs_bind; [by eapply on_entry_deref|]. exact H. }
  rewrite Hlk. destruct (dp_locked d) eqn:El.
  { exists s. split_and!; [by apply Hrun|done|by apply touched_others|done|done|done]. }
  destruct (entry_modify s it d bs (dp_with_passed true) Hoe eq_refl eq_refl) as (s1 & Hr1 & Hoe1 & Hqu1). rewrite Hd in Hqu1.
  destruct (entry_num_passed s1 it _ bs (m_num_passed s1 + 1) Hoe1) as [Hoe2 Hqu2]. set (s2 := set_m_num_passed _ s1) in *.
  assert (dp_index (dp_with_passed true d) = x) as Hx by done. rewrite Hx in Hqu2.
  assert (quiet x s s2) as Hqu by (by transitivity s1).
  assert (invariant s2) as Hi2 by (eapply (flags_invariant s s2 it d (dp_with_passed true d)); try done; by rewrite Hq).
  assert (piece_at x s2 = Some p) as Hp2 by (by rewrite (quiet_piece x s s2)).
  assert (forall v t, runs (if dp_finished d <? blocks_in_piece x s then mret tt else we_have x) s2 v t ->
    runs (piece_passed x) s v t) as Hrun2.
  { intros v t H. apply Hrun. step Hr1. eapply runs_bind; [apply runs_modify|]. cbv beta. eapply runs_bind; [apply runs_gets|].
    cbv beta. fold s2. rewrite (touched_blocks x s s2) by apply Hqu. exact H. }
  destruct (counts_bound _ _ _ Hco) as (? & ? & ? & Hub); [lia|]. unfold used in Hub.
  destruct (Z.ltb_spec (dp_finished d) (blocks_in_piece x s)) as [Hlt|Hge].
  - exists s2. split_and!; [by apply Hrun2|done|apply touched_others, Hqu|done| |].
    + intros _ Hc. apply Hall in Hc. lia.
    + intros _ _. split_and!; [apply Hqu| |unfold passed_at; rewrite <- Hx; by rewrite (entry_in _ _ _ _ Hoe2)].
      eapply same_blocks_entry; [done|apply Hqu|exact Hoe|done|exact Hoe2|done].
  - destruct (we_have_spec s2 x p Hi2 Hp2 Hh) as (s3 & p3 & Hr3 & Hi3 & Hk3 & Hp3 & Hh3 & Hc3 & Hpr3 & _).
    exists s3. split_and!; [by apply Hrun2|done|eapply others_trans; [apply touched_others, Hqu|done]|done| |].
    { intros _ _. eapply became_had_after; [apply Hqu|done..]. }
    intros _ Hc. exfalso. apply Hc, Hall. lia.
Qed.

(** ** [set_piece_priority] *)

(** The counters and cursors after the filter of the piece was changed. *)
Definition refilter (x new : Z) (p : piece_pos) (s : picker) : picker :=
  if (new =? filter_priority) && negb (filtered p) then
    if have p then set_m_num_have_filtered (m_num_have_filtered s + 1) s
    else cursors_lose x (set_m_num_filtered (m_num_filtered s + 1) s)
  else if negb (new =? filter_priority) && filtered p then
    if have p then set_m_num_have_filtered (m_num_have_filtered s - 1) s
    else cursors_gain x (set_m_num_filtered (m_num_filtered s - 1) s)
  else s.

Definition flag (b : bool) : Z := if b then 1 else 0.

Lemma filtered_prio new p : 0 <= new < 8 -> filtered (with_piece_prio new p) = (new =? filter_priority).
Proof. intros H. unfold filtered, with_piece_prio. cbn [piece_prio]. by rewrite Z.mod_small. Qed.

Lemma refilter_counts x new p s :
  refilter x new p s = set_counts
    (m_num_filtered s - flag (filtered p && negb (have p)) + flag ((new =? filter_priority) && negb (have p)))
    (m_num_have_filtered s - flag (filtered p && have p) + flag ((new =? filter_priority) && have p))
    (m_cursor (refilter x new p s)) (m_reverse_cursor (refilter x new p s)) (m_num_have s) (m_num_passed s) s.
Proof.
  unfold refilter, flag.
  destruct (new =? filter_priority) eqn:E1, (filtered p) eqn:E2, (have p) eqn:E3; simpl;
    rewrite ?Z.sub_add, ?Z.sub_0_r, ?Z.add_0_r; try (by destruct s).
  - rewrite (cursors_lose_set x _ s) by done. by destruct s.
  - rewrite (cursors_gain_set x _ s) by done. by destruct s.
Qed.

Lemma refilter_run x new p s :
  runs (if (new =? filter_priority) && negb (filtered p) then
          _ ← modify (if have p
                      then fun s => set_m_num_have_filtered (m_num_have_filtered s + 1) s
                      else fun s => cursors_lose x (set_m_num_filtered (m_num_filtered s + 1) s));
          mret true
        else if negb (new =? filter_priority) && filtered p then
          _ ← modify (if have p
                      then fun s => set_m_num_have_filtered (m_num_have_filtered s - 1) s
                      else fun s => cursors_gain x (set_m_num_filtered (m_num_filtered s - 1) s));
          mret true
        else mret false) s (negb (Bool.eqb (new =? filter_priority) (filtered p))) (refilter x new p s).
Proof. unfold refilter. by destruct (new =? filter_priority), (filtered p), (have p). Qed.

(** A piece that is wanted as it was does not move the cursors. *)
Lemma cursors_same s x p p' :
  cursors_ok s -> piece_at x s = Some p -> unwanted p' = unwanted p -> cursors_ok (put_piece x p' s).
Proof.
  intros [(F1 & F2 & F3) (L1 & L2 & L3)] Hp Hu. unfold cursors_ok, num_pieces in *.
  pose proof (differ_put x p' s ltac:(eauto)) as [Hlen Hat].
  assert (forall i q, zget (m_piece_map (put_piece x p' s)) i = Some q -> exists q0, zget (m_piece_map s) i = Some q0 /\ unwanted q = unwanted q0) as Hback.
  { intros i q Hq. destruct (decide (i = x)) as [->|Hne]; [|rewrite <- (Hat i Hne); by exists q].
    pose proof (piece_at_put x p' s x ltac:(eauto)) as H. rewrite decide_True in H by done. unfold piece_at in H. rewrite Hq in H.
    injection H as <-. by exists p. }
  change (m_cursor (put_piece x p' s)) with (m_cursor s). change (m_reverse_cursor (put_piece x p' s)) with (m_reverse_cursor s).
  split; split_and!; try lia.
  - intros i q Hi (q0 & Hq0 & ->)%Hback. by eapply F2.
  - intros q (q0 & Hq0 & ->)%Hback. by apply F3.
  - intros i q Hi (q0 & Hq0 & ->)%Hback. eapply L2; [|exact Hq0]. lia.
  - intros H0 q (q0 & Hq0 & ->)%Hback. by apply L3.
Qed.

Lemma refilter_cursors s x p new :
  cursors_ok s -> piece_at x s = Some p -> 0 <= new < 8 ->
  let p' := with_piece_prio new p in let l' := m_piece_map (put_piece x p' s) in
  first_wanted l' 0 (m_cursor (refilter x new p s)) /\ last_wanted l' (zlen l') (m_reverse_cursor (refilter x new p s)).
Proof.
  intros Hc Hp Hnew p' l'. pose proof (filtered_prio new p Hnew) as Hf. fold p' in Hf.
  assert (have p' = have p) as Hh by done. pose proof (differ_put x p' s ltac:(eauto)) as Hd. fold l' in Hd.
  assert (zget l' x = Some p') as Hp'.
  { change (piece_at x (put_piece x p' s) = Some p'). rewrite piece_at_put, decide_True by eauto. done. }
  assert (unwanted p' = unwanted p -> first_wanted l' 0 (m_cursor s) /\ last_wanted l' (zlen l') (m_reverse_cursor s)) as Hsame.
  { intros Hu. apply (cursors_same s x p p' Hc Hp Hu). }
  unfold refilter. rewrite <- Hf. unfold unwanted in Hsame. rewrite Hh in Hsame. pose proof Hc as [Hc1 Hc2]. unfold num_pieces in Hc2.
  destruct (filtered p') eqn:E1, (filtered p) eqn:E2, (have p) eqn:E3; simpl; simpl in Hsame; try (by apply Hsame).
  - eapply (cursors_lose_spec (m_piece_map s) l' (set_m_num_filtered _ s) x p p'); try done;
      unfold unwanted; rewrite ?Hh, ?E1, ?E2, ?E3; done.
  - eapply (cursors_gain_spec (m_piece_map s) l' (set_m_num_filtered _ s) x p p'); try done;
      unfold unwanted; rewrite ?Hh, ?E1, ?E2, ?E3; done.
Qed.

Lemma refilter_counters s x p new c r :
  counters_ok s -> piece_at x s = Some p -> 0 <= new < 8 ->
  counters_ok (put_piece x (with_piece_prio new p) (set_counts
    (m_num_filtered s - flag (filtered p && negb (have p)) + flag ((new =? filter_priority) && negb (have p)))
    (m_num_have_filtered s - flag (filtered p && have p) + flag ((new =? filter_priority) && have p))
    c r (m_num_have s) (m_num_passed s) s)).
Proof.
  intros (C1 & C2 & C3) Hp Hnew. set (t := set_counts _ _ _ _ _ _ s). set (p' := with_piece_prio new p).
  assert (filtered p' = (new =? filter_priority)) as Hf by (by apply filtered_prio).
  unfold counters_ok. rewrite !(counts_put x t p p' Hp), Hf.
  change (have p') with (have p). change (count_pieces have t) with (count_pieces have s).
  change (count_pieces (fun p => filtered p && negb (have p)) t) with (count_pieces (fun p => filtered p && negb (have p)) s).
  change (count_pieces (fun p => filtered p && have p) t) with (count_pieces (fun p => filtered p && have p) s).
  rewrite <- C1, <- C2, <- C3. unfold t, set_counts. cbn. unfold flag. split_and!; [destruct (have p); lia|done|done].
Qed.

(** The end of [set_piece_priority]: a piece that is being downloaded goes to
    the list its filter asks for. *)
Lemma resettle s x p o :
  typed s -> list_ok s -> dl_ok s -> piece_at x s = Some p -> dl_view s x o ->
  match o with
  | None => download_state p = piece_open
  | Some (q, d, bs) => download_queue p = q /\ have p = false /\ download_state p <> piece_open /\ used d <> 0 /\
      counts_ok d (take (Z.to_nat (blocks_in_piece x s)) bs)
  end ->
  exists s' p' o', runs (when (downloading p)
          (it ← query (find_dl_piece (download_queue p) x);
           e ← query (is_end it);
           if (e : bool) then mret tt else _ ← update_piece_state random_values it; mret tt)) s tt s' /\
    touched x s s' /\ list_ok s' /\ dl_ok s' /\ piece_at x s' = Some p' /\ dl_view s' x o' /\
    piece_ok (blocks_in_piece x s) p' o' /\ piece_prio p' = piece_prio p /\ peer_count p' = peer_count p /\ have p' = have p /\
    option_map (fun '(_, d, bs) => (d, bs)) o' = option_map (fun '(_, d, bs) => (d, bs)) o.
Proof.
  intros Hty Hl Hdl Hp Hv Ho. destruct o as [[[q d] bs]|].
  - destruct Ho as (Hq & Hh & Ho & Hu & Hco). assert (downloading p = true) as -> by (apply not_false_iff_true; by rewrite downloading_open).
    pose proof Hv as (_ & <- & _).
    destruct (find_on_entry s q d bs Hdl) as (it & Hr & Hiq & Hoe); [apply Hty|done|].
    destruct (update_piece_state_spec random_values s it d bs p Hty Hl Hoe Hp) as (s' & it' & p' & Hr' & Hoe' & Hq' & Ht' & Hl' & Hp' & Hs');
      [congruence|done|].
    exists s', p', (Some (it_queue it', d, bs)). pose proof Hs' as (S1 & S2 & S3 & S4). split_and!; try done.
    + simpl. subst q. step Hr. eapply runs_bind; [by eapply on_entry_end|]. cbv beta iota. by step Hr'.
    + apply Hoe'.
    + by apply on_entry_view.
    + by eapply settled_ok.
  - exists s, p, None. rewrite (proj2 (downloading_open p) Ho). by split_and!.
Qed.

(** The piece with its new priority, at its new place. *)
Lemma repriority s x p new :
  invariant s -> piece_at x s = Some p -> 0 <= new < 8 ->
  let p1 := with_piece_prio new p in let s2 := put_piece x p1 (refilter x new p s) in
  exists s3 p3, runs (reposition random_values (priority (m_seeds s) p) x) s2 tt s3 /\
    typed s3 /\ list_ok s3 /\ dl_ok s3 /\ cursors_ok s3 /\ counters_ok s3 /\ others_kept x s s3 /\
    blocks_in_piece x s3 = blocks_in_piece x s /\ m_blocks_per_piece s3 = m_blocks_per_piece s /\
    m_blocks_in_last_piece s3 = m_blocks_in_last_piece s /\ piece_at x s3 = Some p3 /\ same_piece p1 p3 /\
    forall o, dl_view s x o -> dl_view s3 x o.
Proof.
  intros Hi Hp Hnew p1 s2. set (s1 := refilter x new p s) in *.
  pose proof (refilter_counts x new p s) as E. fold s1 in E.
  set (nf := _ - _ + _) in E at 1. set (nhf := _ - _ + _) in E. set (c := m_cursor s1) in E. set (r := m_reverse_cursor s1) in E.
  pose proof (typed_piece_at _ _ _ (in_typed _ Hi) Hp) as [Hpc Hpp].
  assert (piece_at x s1 = Some p) as Hp1 by (rewrite E; exact Hp).
  assert (piece_at x s2 = Some p1) as Hp2 by (unfold s2; rewrite piece_at_put, decide_True by eauto; done).
  assert (typed s2) as Ht2.
  { apply typed_put_piece; [rewrite E; apply typed_counts, Hi|]. split; [done|]. unfold p1. cbn. rewrite Z.mod_small; lia. }
  pose proof (priority_of_at x s p Hp) as Hk. pose proof (priority_of_ge _ _ _ (in_typed _ Hi) Hk) as Hge.
  destruct (reposition_spec random_values s2 x (priority (m_seeds s) p) Ht2) as (s3 & Hr3 & Hmv & Hl3); [by eapply priority_of_some|done| |].
  { apply (lists_at_put s1 x p p1); [done|done|]. apply (lists_at_view s); [rewrite E; done|]. by apply list_ok_at; [apply Hi|]. }
  destruct (moved_piece _ _ _ _ Hmv Hp2) as (p3 & Hp3 & Hs3). pose proof Hmv as [_ Hrest].
  assert (m_blocks_per_piece s3 = m_blocks_per_piece s /\ m_blocks_in_last_piece s3 = m_blocks_in_last_piece s) as [Hb1 Hb2].
  { rewrite Hrest. unfold s2. by rewrite E. }
  exists s3, p3. split_and!; try done.
  - by eapply moved_typed.
  - eapply dl_ok_moved; [exact Hmv|]. apply dl_ok_put. rewrite E. apply dl_ok_counts, Hi.
  - eapply moved_cursors; [exact Hmv|].
    unfold s2. pose proof (refilter_cursors s x p new (in_cursors _ Hi) Hp Hnew) as Hcur. fold s1 c r in Hcur. rewrite E. exact Hcur.
  - eapply moved_counters; [exact Hmv|]. unfold s2. rewrite E. apply (refilter_counters s x p new c r (in_counters _ Hi) Hp Hnew).
  - eapply others_trans; [|by apply moved_others]. apply (others_trans x s s1 s2).
    + rewrite E. apply others_counts.
    + apply (others_put x p1 s1). by exists p.
  - unfold blocks_in_piece, num_pieces. rewrite Hb1, Hb2, (moved_num _ _ Hmv). unfold s2. rewrite E. cbn. by rewrite length_insert.
  - intros o Hv. eapply (moved_views s2); [exact Hmv|]. unfold s2. rewrite E. destruct o as [[[q d] bs]|]; exact Hv.
Qed.

Lemma set_piece_priority_spec s x p new :
  invariant s -> piece_at x s = Some p -> 0 <= new < 8 ->
  exists s' p', runs (set_piece_priority random_values x new) s (negb (Bool.eqb (new =? filter_priority) (filtered p))) s' /\
    invariant s' /\ others_kept x s s' /\ same_blocks s s' /\ piece_at x s' = Some p' /\
    piece_prio p' = new /\ peer_count p' = peer_count p /\ have p' = have p.
Proof.
  intros Hi Hp Hnew. destruct (Z.eqb_spec new (piece_prio p)) as [He|Hne].
  { exists s, p. split_and!; try done; [|by apply touched_others].
    unfold set_piece_priority. step runs_get_piece. rewrite (proj2 (Z.eqb_eq _ _) He). unfold filtered. rewrite He.
    by rewrite Bool.eqb_reflx. }
  destruct (repriority s x p new Hi Hp Hnew) as (s3 & p3 & Hr3 & Ht3 & Hl3 & Hdl3 & Hcu3 & Hct3 & Hok3 & Hblocks & Hb1 & Hb2 & Hp3 & (S1 & S2 & S3 & S4) & Hv3).
  destruct (in_pieces _ Hi x p Hp) as (o & Hv & Hpo).
  destruct (resettle s3 x p3 o) as (s4 & p4 & o4 & Hr4 & Ht4 & Hl4 & Hdl4 & Hp4 & Hv4 & Hok4 & Q1 & Q2 & Q3 & Q4); auto.
  { rewrite Hblocks. destruct o as [[[q d] bs]|]; [|by rewrite S2]. destruct Hpo as (G1 & G2 & [G3 G4] & G5).
    unfold download_queue in *. rewrite S2, S4. split_and!; try done. intros Ho. cbn in Ho. rewrite Ho in G1. rewrite <- G1 in G3.
    symmetry in G3. by apply expected_not_open in G3. }
  pose proof Ht4 as [Hw4 _ _ Hf4].
  assert (others_kept x s s4) as Hok by (eapply others_trans; [exact Hok3|by apply touched_others]).
  assert (invariant s4) as Hi4.
  { pose proof (fixed_inv _ _ Hf4) as ((_ & F1 & F2 & _) & _). apply (others_invariant x s); try done.
    - by eapply wanted_typed.
    - by eapply wanted_cursors.
    - by eapply wanted_counters.
    - intros q Hq. rewrite Hp4 in Hq. injection Hq as <-. exists o4. split; [done|].
      by rewrite (touched_blocks x s3 s4), Hblocks in * by done. }
  exists s4, p4. split_and!; try done.
  - unfold set_piece_priority. step runs_get_piece. rewrite (proj2 (Z.eqb_neq _ _) Hne).
    eapply runs_bind; [by apply runs_get_priority, priority_of_at|]. cbv beta. eapply runs_bind; [apply refilter_run|]. cbv beta.
    eapply runs_bind; [apply runs_modify_piece; rewrite refilter_counts; exact Hp|]. cbv beta. step Hr3. step runs_get_piece. step Hr4. apply runs_ret.
  - intros y i Hy Hib. destruct (decide (y = x)) as [->|Hyx].
    + rewrite (state_of_view s x o i), (state_of_view s4 x o4 i) by (done || apply Hi).
      destruct o as [[[q d] bs]|], o4 as [[[q4 d4] bs4]|]; try done. by injection Q4 as -> ->.
    + eapply (state_of_other s s4 x); try done. apply Hok.
  - rewrite Q1, S3. cbn. by rewrite Z.mod_small.
  - by rewrite Q2, S1.
  - by rewrite Q3, S4.
Qed.

(** ** [update_pieces] *)

(** The pick list is rebuilt: afterwards it is not dirty, so [in_list] says
    that it holds the pieces with a priority, ordered by priority. *)
Lemma update_pieces_spec s :
  invariant s -> exists s', runs (update_pieces random_values) s tt s' /\ invariant s' /\ m_dirty s' = false /\
    others_kept (-1) s s' /\ same_blocks s s' /\
    forall x p, piece_at x s = Some p -> exists p', piece_at x s' = Some p' /\ same_piece p p'.
Proof.
  intros Hi. destruct (update_pieces_run random_values s (in_typed _ Hi)) as (s1 & bk & Hr & Hmv & Hl).
  set (s' := set_m_dirty false s1) in *.
  assert (others_kept (-1) s s') as Hok.
  { by destruct (moved_others (-1) s s1 Hmv); split. }
  assert (forall y, 0 <= y -> y <> -1) as Hne by lia.
  assert (dl_ok s') as Hdl by (destruct (dl_ok_moved _ _ Hmv (in_downloads _ Hi)) as [n Hs]; exists n; by destruct Hs; split).
  exists s'. split_and!; [done| |done|done| |].
  - apply (others_invariant (-1) s); try done.
    + by destruct (moved_typed _ _ Hmv (in_typed _ Hi)); split.
    + intros _. exists bk. destruct Hl as [[H1 H2 H3 H4] H5]. by split; [split|].
    + exact (moved_cursors _ _ Hmv (in_cursors _ Hi)).
    + exact (moved_counters _ _ Hmv (in_counters _ Hi)).
  - intros y i Hy _. eapply (state_of_other s s' (-1)); [done|apply Hok|done|lia|done].
  - intros x p Hp. exact (moved_piece _ _ _ _ Hmv Hp).
Qed.

(** ** [clear_peer] *)

Definition forget_peer (peer_ : Z) (b : block_info) : block_info := if peer b =? peer_ then with_peer 0 b else b.

Lemma forget_peer_same peer_ b : bstate (forget_peer peer_ b) = bstate b /\ num_peers (forget_peer peer_ b) = num_peers b.
Proof. unfold forget_peer. by destruct (peer b =? peer_). Qed.

Lemma forget_tally peer_ st l : tally st (map (forget_peer peer_) l) = tally st l.
Proof.
  unfold tally. f_equal. induction l as [|b l IH]; [done|]. simpl. rewrite !filter_cons.
  destruct (forget_peer_same peer_ b) as [-> _]. case_decide; simpl; congruence.
Qed.

Lemma clear_peer_spec s peer_ :
  invariant s -> exists s', runs (clear_peer peer_) s tt s' /\ invariant s' /\ same_blocks s s' /\
    s' = set_m_block_info (map (forget_peer peer_) (m_block_info s)) s /\ (peer_ <> 0 -> Forall (fun b => peer b <> peer_) (m_block_info s')).
Proof.
  intros Hi. set (s' := set_m_block_info (map (forget_peer peer_) (m_block_info s)) s).
  assert (forall d, slice s' d = map (forget_peer peer_) (slice s d)) as Hsl.
  { intros d. unfold slice. cbn. by rewrite map_drop, map_take || (rewrite <- fmap_drop, <- fmap_take; done). }
  assert (forall x o, dl_view s x o -> dl_view s' x (match o with Some (q, d, bs) => Some (q, d, map (forget_peer peer_) bs) | None => None end)) as Hv.
  { intros x [[[q d] bs]|] H; [|exact H]. destruct H as (H1 & H2 & ->). by split_and!. }
  assert (dl_ok s') as Hdl.
  { destruct (in_downloads _ Hi) as [n Hs]. exists n. destruct Hs as [H1 H2 H3 H4 H5 H6 H7 H8]. split; try done. cbn. by rewrite length_map. }
  assert (invariant s') as Hi'.
  { destruct Hi as [I1 I2 I3 I4 I5 I6 I7]. split; try done; [by destruct I1; split| |].
    - intros Hd. destruct (I2 Hd) as [bk [[H1 H2 H3 H4] H5]]. exists bk. by split; [split|].
    - intros x p Hp. destruct (I7 x p Hp) as (o & Ho & Hok). eexists. split; [by apply Hv|].
      destruct o as [[[q d] bs]|]; [|exact Hok]. destruct Hok as (K1 & K2 & K3 & [K4 K5 K6 K7]). split_and!; try done.
      change (blocks_in_piece x s') with (blocks_in_piece x s). rewrite <- fmap_take.
      split; rewrite ?forget_tally; try done. apply Forall_fmap. eapply Forall_impl; [exact K7|].
      intros b. unfold peers_ok. simpl. by destruct (forget_peer_same peer_ b) as [-> ->]. }
  exists s'. split_and!; [done|done| |done|].
  - intros y i Hy Hib. destruct (zget_is_Some (m_piece_map s) y Hy) as [p Hp]. destruct (in_pieces _ Hi y p Hp) as (o & Ho & _).
    rewrite (state_of_view s y o) by (done || apply Hi). rewrite (state_of_view s' y _ i Hdl (Hv y o Ho)).
    destruct o as [[[q d] bs]|]; [|done]. unfold zget. case_decide; [|done]. rewrite list_lookup_fmap.
    destruct (bs !! Z.to_nat i); [|done]. simpl. by destruct (forget_peer_same peer_ b) as [-> _].
  - intros Hne. cbn. apply Forall_map, Forall_true. intros b. unfold forget_peer. destruct (Z.eqb_spec (peer b) peer_); [done|done].
Qed.

(** ** [init] *)

Lemma count_pieces_fresh l f :
  (forall p, p ∈ l -> f p = false) -> zlen (filter (fun p : piece_pos => f p = true) l) = 0.
Proof.
  intros H. induction l as [|p l IH]; [done|]. rewrite filter_cons, decide_False.
  - apply IH. intros q Hq. apply H. by right.
  - rewrite H by (by left). done.
Qed.

(** The counts of the blocks of a piece, as [init] is given them. *)
Definition init_ok (blocks_per_piece blocks_in_last_piece total_num_pieces : Z) : Prop :=
  0 < blocks_per_piece < 2 ^ 15 /\ 0 <= blocks_in_last_piece <= blocks_per_piece /\ 0 <= total_num_pieces < we_have_index.

Lemma init_spec bpp last n :
  init_ok bpp last n ->
  let s := init bpp last n new_picker in
  invariant s /\ num_pieces s = n /\ (forall x p, piece_at x s = Some p -> p = with_index 0 (new_piece_pos 0 0)) /\
  (forall x j, state_of x j s = state_none) /\ m_dirty s = true.
Proof.
  intros (Hb & Hl & Hn) s. set (p0 := with_index 0 (new_piece_pos 0 0)).
  assert (m_piece_map s = replicate (Z.to_nat n) p0) as Hm.
  { change (m_piece_map s) with (map (fun p => with_index 0 (with_download_state piece_open (with_peer_count 0 p)))
      (take (Z.to_nat n) [] ++ replicate (Z.to_nat n - 0) (new_piece_pos 0 0))).
    rewrite take_nil, Nat.sub_0_r. apply (fmap_replicate (fun p => with_index 0 (with_download_state piece_open (with_peer_count 0 p)))). }
  assert (forall p, p ∈ m_piece_map s -> p = p0) as Hall by (intros p; rewrite Hm; by intros [? _]%elem_of_replicate).
  assert (forall x p, piece_at x s = Some p -> p = p0) as Hat by (intros x p Hp; by eapply Hall, zget_elem).
  assert (num_pieces s = n) as Hnum by (unfold num_pieces; rewrite Hm, length_replicate; lia).
  assert (m_blocks_per_piece s = bpp /\ m_blocks_in_last_piece s = if last =? 0 then bpp else last) as [E1 E2].
  { change (m_blocks_per_piece s) with (u16 bpp). change (m_blocks_in_last_piece s) with (if u16 last =? 0 then u16 bpp else u16 last).
    unfold u16. rewrite !Z.mod_small by lia. done. }
  assert (forall d q, ~ in_queue s q d) as Hno.
  { intros d q (l & Hq & Hd). assert (d ∈ concat (m_downloads s)) as H by (apply (in_queue_concat s q d); by exists l). by apply not_elem_of_nil in H. }
  assert (dl_ok s) as Hdl.
  { exists 0%nat. split; try done; rewrite ?E1; try lia; by repeat constructor. }
  split_and!; [|done|done| |done].
  - split; [split; [apply Forall_forall; intros p ->%Hall; done|done|lia]|done| |..].
    + apply cursors_scan. unfold num_pieces. done.
    + unfold counters_ok, count_pieces. rewrite !count_pieces_fresh; [done|intros p ->%Hall; done..].
    + done.
    + rewrite E1, E2. destruct (Z.eqb_spec last 0); lia.
    + intros x p ->%Hat. exists None. split; [|done]. intros q d Hq. by apply Hno in Hq.
  - intros x j. rewrite (state_of_view s x None); [done|done|]. intros q d Hq. by apply Hno in Hq.
Qed.
End random.
