(* ===== verification/PickerCheckSpec.v ===== *)
(** * The invariant and the debug checks

    [check_invariant] and [check_piece_state] are the assertions a debug build
    makes of the picker: [invariant] implies that none of them fires. *)

From Stdlib Require Import ZArith Lia.
From stdpp Require Import base numbers sorting list.
From S2P Require Import Prelude Bitfield BitfieldSpec PickerState PickerList PickerOps PickerQuery.
From S2P Require Import PickerListSpec PickerUpdateSpec PickerDownloadsSpec PickerInvariant PickerFrame.
From S2P Require Import PickerStateSpec PickerBlockSpec PickerRefcountSpec.

Section checks.
Context (s : picker) (Hi : invariant s).

(** ** The lists of the pieces being downloaded *)

Lemma queue_at st l : downloads_of st s = Some l -> forall d, d ∈ l <-> in_queue s st d.
Proof.
  intros Hl d. split; [intros Hd; by exists l|]. intros (l' & Hl' & Hd). congruence.
Qed.

Lemma check_list_sorted n l :
  dl_shape s n -> StronglySorted dp_lt l -> (forall d, d ∈ l -> d ∈ concat (m_downloads s)) -> check_list l s = true.
Proof.
  intros Hs. induction l as [|d l IH]; intros Hl Hin; [done|]. destruct l as [|e l]; [done|].
  apply StronglySorted_inv in Hl as [Hl Hd]. cbn [check_list]. rewrite !andb_true_iff. split_and!.
  - apply Forall_cons in Hd as [Hd _]. unfold dp_lt in Hd. lia.
  - unfold blocks_allocated. apply Z.leb_le. assert (d ∈ concat (m_downloads s)) as Hc by (apply Hin; by left).
    pose proof (entry_slot s n d Hs Hc) as Hslot. rewrite (ds_blocks _ _ Hs). pose proof (ds_bpp _ _ Hs). nia.
  - apply IH; [done|]. intros x Hx. apply Hin. by right.
Qed.

Lemma check_piece_state_ok : check_piece_state s = true.
Proof.
  destruct (in_downloads _ Hi) as [n Hs]. unfold check_piece_state. apply forallb_forall. intros l Hl%list_elem_of_In.
  eapply check_list_sorted; [exact Hs| |].
  - pose proof (ds_sorted _ _ Hs) as H. rewrite Forall_forall in H. by apply H.
  - intros d Hd. apply list_elem_of_In, in_concat. exists l. by rewrite <- !list_elem_of_In.
Qed.

Lemma queue_is_Some st :
  st ∈ [piece_downloading; piece_full; piece_finished; piece_zero_prio] ->
  st <> piece_open /\ is_Some (downloads_of st s).
Proof.
  intros Hst. destruct (in_downloads _ Hi) as [n Hs]. pose proof (ds_four _ _ Hs) as H4.
  rewrite !elem_of_cons in Hst. unfold downloads_of.
  split; [|apply lookup_lt_is_Some; rewrite H4]; destruct Hst as [->|[->|[->|[->|Hst]]]];
    first [done|simpl; lia|by apply elem_of_nil in Hst].
Qed.

(** ** The blocks *)

Lemma blocks_of_slice d n : n <= m_blocks_per_piece s -> blocks_of d n s = take (Z.to_nat n) (slice s d).
Proof. intros Hn. unfold blocks_of, slice. rewrite take_take. f_equal. lia. Qed.

Lemma forallb_peers l : Forall peers_ok l ->
  forallb (fun b => if decide (bstate b = state_requested) then 0 <? num_peers b else num_peers b =? 0) l = true.
Proof.
  intros H. apply forallb_forall. intros b Hb%list_elem_of_In. rewrite Forall_forall in H. specialize (H b Hb).
  unfold peers_ok in H. case_decide; lia.
Qed.

Lemma check_downloading_ok st d :
  st <> piece_open -> in_queue s st d -> check_downloading st d s = true.
Proof.
  intros Hst Hq. destruct (in_downloads _ Hi) as [n Hs]. pose proof (in_queue_concat _ _ _ Hq) as Hc.
  pose proof (ds_index _ _ Hs) as Hx. rewrite Forall_forall in Hx. specialize (Hx d Hc).
  destruct (zget_is_Some (m_piece_map s) (dp_index d)) as [p Hp]; [exact Hx|].
  destruct (in_pieces _ Hi _ p Hp) as (o & Hv & Hok).
  assert (dl_view s (dp_index d) (Some (st, d, slice s d))) as Hv' by done.
  destruct o as [[[q d'] bs]|]; [|by apply Hv in Hq].
  destruct (view_unique s _ _ _ _ _ _ _ (in_downloads _ Hi) Hv Hv') as (-> & -> & ->).
  pose proof (blocks_bound s (dp_index d) Hi) as Hb. unfold check_downloading. change (piece_at (dp_index d) s = Some p) in Hp.
  rewrite Hp. cbv zeta. rewrite blocks_of_slice by lia. set (N := blocks_in_piece (dp_index d) s) in *.
  destruct Hok as (Hdq & Hh & [He Hu] & [C1 C2 C3 C4]). set (l := take (Z.to_nat N) (slice s d)) in *.
  unfold count_states. fold (tally state_none l) (tally state_requested l) (tally state_writing l) (tally state_finished l).
  pose proof (tally_total l) as Htot. pose proof (tally_nonneg state_none l). pose proof (tally_nonneg state_requested l).
  assert (zlen l = N) as Hl.
  { unfold l. rewrite length_take. pose proof (slice_length s n d Hs Hc). lia. }
  rewrite <- C1, <- C2, <- C3 in *. unfold used in Hu.
  rewrite (bool_decide_eq_true_2 _ Hdq), (forallb_peers l C4), !Z.eqb_refl. cbn [andb]. rewrite !andb_true_r.
  unfold expected_queue, used in He. clear Hdq. destruct (filtered p) eqn:Hf; [by rewrite He|].
  destruct (Z.ltb_spec (dp_requested d + dp_finished d + dp_writing d) N); [rewrite He; simpl; lia|].
  rewrite He. destruct (Z.ltb_spec 0 (dp_requested d)); simpl; lia.
Qed.

Lemma check_downloads_ok : check_downloads s = true.
Proof.
  unfold check_downloads. apply forallb_forall. intros st Hst%list_elem_of_In.
  destruct (queue_is_Some st Hst) as [Hne [l Hl]].
  rewrite Hl. apply forallb_forall. intros d Hd%list_elem_of_In. apply check_downloading_ok; [done|]. by exists l.
Qed.

(** ** The cursors and counters *)

Lemma check_cursors_ok : check_cursors s = true.
Proof.
  pose proof (in_cursors _ Hi) as Hc. pose proof (cursors_order s Hc) as Ho. pose proof Hc as [(F1 & _) (L1 & _)].
  apply cursors_scan in Hc as [E1 E2]. unfold check_cursors. rewrite <- E1, <- E2, !Z.eqb_refl. unfold num_pieces in *.
  rewrite !andb_true_iff, orb_true_iff, !andb_true_iff. split_and!; try done; lia.
Qed.

Lemma check_counters_ok : check_counters s = true.
Proof.
  destruct (in_counters _ Hi) as (C1 & C2 & C3). pose proof (ty_seeds _ (in_typed _ Hi)) as Hs.
  unfold check_counters. rewrite C1, C2, C3, !Z.eqb_refl, !andb_true_r. lia.
Qed.

(** ** The pick list *)

Lemma verify_priorities_ok bk pre k :
  m_pieces s = pre ++ concat bk ->
  (forall j y, y ∈ bucket bk j -> 0 <= j -> priority_of y s = Some (k + j)) ->
  verify_priorities (bounds (zlen pre) bk) (zlen pre) k s = true.
Proof.
  revert pre k. induction bk as [|b bk IH]; intros pre k Hm Hk; [done|]. cbn [bounds verify_priorities].
  rewrite andb_true_iff. split.
  - unfold verify_priority. rewrite !andb_true_iff. split; [split; apply Z.leb_le; [lia|rewrite Hm, length_app; cbn [concat]; rewrite length_app; lia]|].
    apply forallb_forall. intros y Hy%list_elem_of_In. rewrite Nat2Z.id, Hm, drop_app_length in Hy. simpl in Hy.
    replace (Z.to_nat (zlen pre + zlen b - zlen pre)) with (length b) in Hy by lia. rewrite take_app_length in Hy.
    rewrite (Hk 0 y); [|exact Hy|done]. lia.
  - assert (zlen pre + zlen b = zlen (pre ++ b)) as -> by (rewrite length_app; lia). apply IH.
    + rewrite Hm. simpl. by rewrite app_assoc.
    + intros j y Hy Hj. rewrite <- Z.add_assoc. apply Hk; [|lia]. unfold bucket in *.
      by rewrite (Z.add_comm 1 j), zget_cons_S.
Qed.

Lemma last_bounds a bk : List.last (bounds a bk) (if decide (bk = []) then a + zlen (concat bk) else 0) = a + zlen (concat bk).
Proof.
  revert a. induction bk as [|b bk IH]; intros a; [done|]. cbn [bounds]. rewrite decide_False by done.
  destruct bk as [|c bk]; [simpl; rewrite app_nil_r; lia|]. specialize (IH (a + zlen b)). rewrite decide_False in IH by done.
  simpl in *. rewrite IH. rewrite !length_app. lia.
Qed.

Lemma listed_elem bk y : listed s bk -> y ∈ m_pieces s <-> exists j, 0 <= j /\ priority_of y s = Some j.
Proof.
  intros [[H1 _ _ _] H5]. rewrite H1. split.
  - intros Hy. apply list_elem_of_In, in_concat in Hy as (b & Hb & Hy). apply list_elem_of_In, list_elem_of_lookup in Hb as [j Hj].
    apply list_elem_of_In in Hy. exists (Z.of_nat j). split; [lia|]. apply H5; [lia|]. unfold bucket, zget.
    rewrite decide_True by lia. by rewrite Nat2Z.id, Hj.
  - intros (j & Hj & Hk). apply H5 in Hk; [|done]. unfold bucket, zget in Hk. rewrite decide_True in Hk by done.
    destruct (bk !! Z.to_nat j) as [b|] eqn:E; [|by apply not_elem_of_nil in Hk].
    apply list_elem_of_In, in_concat. exists b. rewrite <- !list_elem_of_In. split; [by eapply list_elem_of_lookup_2|done].
Qed.

Lemma check_list_part_ok bk : listed s bk -> bk <> [] ->
  negb (bool_decide (m_priority_boundries s = [])) && verify_priorities (m_priority_boundries s) 0 0 s &&
    (List.last (m_priority_boundries s) 0 =? zlen (m_pieces s)) &&
    forallb (fun i => match priority_of i s with Some p => 0 <=? p | None => false end) (m_pieces s) = true.
Proof.
  intros Hl Hne. pose proof Hl as [[H1 H2 H3 H4] H5]. rewrite H2, !andb_true_iff. split_and!.
  - rewrite bool_decide_eq_false_2; [done|]. by destruct bk.
  - apply (verify_priorities_ok bk [] 0); [done|]. intros j y Hy Hj. simpl. by apply H5.
  - pose proof (last_bounds 0 bk) as H. rewrite decide_False in H by done. rewrite H, H1. lia.
  - apply forallb_forall. intros y Hy%list_elem_of_In. apply (listed_elem bk y Hl) in Hy as (j & Hj & ->). lia.
Qed.

(** ** The pieces *)

Lemma check_state_ok i p : piece_at i s = Some p -> negb (have p && downloading p) = true.
Proof.
  intros Hp. destruct (in_pieces _ Hi _ _ Hp) as ([[[q d] bs]|] & _ & Hok).
  - destruct Hok as (_ & -> & _). done.
  - unfold downloading. rewrite Hok, bool_decide_eq_true_2 by done. by rewrite andb_false_r.
Qed.

(** The residue of the priority tells the download state. *)
Lemma priority_residue seeds p :
  (priority seeds p =? -1) ||
  (priority seeds p mod prio_factor =? (if negb (downloading p) then 1 else if reverse_state p then 2 else 0)) = true.
Proof.
  unfold priority. destruct (filtered p || have p || (peer_count p + seeds =? 0) ||
    bool_decide (download_state p = piece_full) || bool_decide (download_state p = piece_finished)); [done|].
  unfold prio_factor, priority_levels. set (m := (peer_count p + 1) * (8 - piece_prio p)).
  apply orb_true_iff. right. apply Z.eqb_eq. unfold downloading, reverse_state.
  destruct (download_state p); simpl; symmetry;
    solve [eapply (Z.mod_unique_pos _ 3 m); lia|eapply (Z.mod_unique_pos _ 3 (m - 1)); lia].
Qed.

Lemma check_position_ok i p bk :
  piece_at i s = Some p -> listed s bk ->
  (priority (m_seeds s) p <? zlen (m_priority_boundries s)) &&
  (if 0 <=? priority (m_seeds s) p then is_true_at (x ← zget (m_pieces s) (index p); Some (x =? i))
   else negb (bool_decide (i ∈ m_pieces s))) = true.
Proof.
  intros Hp Hl. assert (priority_of i s = Some (priority (m_seeds s) p)) as Hk by (unfold priority_of; by rewrite Hp).
  set (k := priority (m_seeds s) p) in *. pose proof (listed_elem bk i Hl) as Hin. pose proof Hl as [[H1 H2 H3 H4] H5].
  rewrite H2, length_bounds. destruct (Z.leb_spec 0 k) as [Hk0|Hk0].
  - apply H5 in Hk; [|done]. destruct (Z.ltb_spec k (zlen bk)) as [_|Hge].
    2:{ rewrite bucket_beyond in Hk by lia. by apply elem_of_nil in Hk. }
    assert (i ∈ m_pieces s) as (n & Hn)%elem_zget by (apply Hin; exists k; split; [done|by apply H5]).
    pose proof (zget_Some_bound _ _ _ Hp). pose proof (zget_Some_bound _ _ _ Hn).
    destruct (H3 n i) as (p' & Hp' & <- & _); [done|lia|lia|]. rewrite Hp in Hp'. injection Hp' as <-.
    rewrite Hn. simpl. lia.
  - destruct (Z.ltb_spec k (zlen bk)); [|lia]. rewrite bool_decide_eq_false_2; [done|].
    intros (j & Hj & Hk')%Hin. rewrite Hk in Hk'. injection Hk' as ->. lia.
Qed.

Lemma filter_index_none (l : list downloading_piece) x :
  (forall d, d ∈ l -> dp_index d <> x) -> filter (fun e => dp_index e = x) l = [].
Proof.
  intros H. destruct (filter _ l) as [|d k] eqn:E; [done|].
  assert (d ∈ filter (fun e => dp_index e = x) l) as [? Hd]%list_elem_of_filter by (rewrite E; by left). by apply H in Hd.
Qed.

Lemma filter_index_once (l : list downloading_piece) d :
  NoDup (map dp_index l) -> d ∈ l -> filter (fun e => dp_index e = dp_index d) l = [d].
Proof.
  induction l as [|e l IH]; intros Hn Hd; [by apply elem_of_nil in Hd|].
  cbn [map] in Hn. apply NoDup_cons in Hn as [He Hn].
  rewrite filter_cons. apply elem_of_cons in Hd as [->|Hd].
  - rewrite decide_True by done. f_equal. apply filter_index_none.
    intros x Hx Hxe. apply He. rewrite <- Hxe. by apply list_elem_of_fmap_2.
  - rewrite decide_False by (intros E; apply He; rewrite E; by apply list_elem_of_fmap_2). by apply IH.
Qed.

Lemma check_entries_ok i p st :
  piece_at i s = Some p ->
  st ∈ [piece_downloading; piece_full; piece_finished; piece_zero_prio] ->
  match downloads_of st s with
  | Some l => zlen (filter (fun d => dp_index d = i) l) =? (if decide (download_queue p = st) then 1 else 0)
  | None => false
  end = true.
Proof.
  intros Hp Hst. destruct (in_downloads _ Hi) as [n Hs].
  destruct (queue_is_Some st Hst) as [Hne [l Hl]]. rewrite Hl.
  destruct (in_pieces _ Hi _ _ Hp) as (o & Hv & Hok).
  assert (forall d, in_queue s st d -> dp_index d = i -> exists bs, o = Some (st, d, bs)) as Hone.
  { intros d Hd Hx. assert (dl_view s i (Some (st, d, slice s d))) as Hv' by done.
    destruct o as [[[q d'] bs]|]; [|by apply Hv in Hd].
    destruct (view_unique s _ _ _ _ _ _ _ (in_downloads _ Hi) Hv Hv') as (-> & -> & ->). by eexists. }
  apply Z.eqb_eq. case_decide as Hq.
  - destruct o as [[[q d] bs]|]; [|rewrite <- Hq in Hne; unfold download_queue in Hne; by rewrite Hok in Hne].
    destruct Hok as (Hq' & _). destruct Hv as ((l' & Hl' & Hd) & <- & _). rewrite <- Hq', Hq, Hl in Hl'. injection Hl' as <-.
    rewrite (filter_index_once l d); [done| |done].
    pose proof (ds_once _ _ Hs) as Hn. rewrite (concat_queue s st l Hl), map_app in Hn. by apply NoDup_app in Hn as [Hn _].
  - assert (filter (fun d => dp_index d = i) l = []) as ->; [|done].
    apply filter_index_none. intros d Hd Hx. apply Hq.
    destruct (Hone d) as [bs ->]; [by exists l|done|]. apply Hok.
Qed.

Lemma check_piece_ok i p :
  piece_at i s = Some p -> check_piece i p s = true.
Proof.
  intros Hp. unfold check_piece. rewrite (check_state_ok _ _ Hp), priority_residue. cbn [andb].
  apply andb_true_iff. split.
  - destruct (m_dirty s) eqn:Hd; [done|]. destruct (in_list _ Hi Hd) as [bk Hl]. by eapply check_position_ok.
  - apply forallb_forall. intros st Hst%list_elem_of_In. by eapply check_entries_ok.
Qed.

Lemma check_pieces_ok pre l :
  m_piece_map s = pre ++ l -> check_pieces l (zlen pre) s = true.
Proof.
  revert pre. induction l as [|p l IH]; intros pre Hm; [done|]. cbn [check_pieces]. rewrite check_piece_ok.
  - replace (zlen pre + 1) with (zlen (pre ++ [p])) by (rewrite length_app; simpl; lia). apply IH. by rewrite Hm, <- app_assoc.
  - unfold piece_at. rewrite Hm. by apply zget_mid.
Qed.

(** None of the assertions of the debug checks fires.  [init] leaves the picker
    dirty with no boundary, and the first [update_pieces] makes one. *)
Lemma check_invariant_ok :
  (m_dirty s = false -> m_priority_boundries s <> []) -> check_invariant s = true.
Proof.
  intros Hb. unfold check_invariant. rewrite check_piece_state_ok, check_downloads_ok, check_cursors_ok, check_counters_ok.
  rewrite (check_pieces_ok []) by done. cbn [andb]. rewrite !andb_true_r. destruct (m_dirty s) eqn:Hd; [done|].
  destruct (in_list _ Hi Hd) as [bk Hl]. apply (check_list_part_ok bk Hl). intros ->. apply (Hb eq_refl).
  by rewrite (sh_bounds _ _ _ (ls_shaped _ _ Hl)).
Qed.
End checks.

(** * The order of the pick list, and the widths of the counts

    What the invariant says to a reader of the lists: the pick list is sorted
    by priority and holds each piece that can be picked once, the counts of a
    downloading piece fit in their bit fields, and a peer that joins and leaves
    changes nothing. *)

(** ** The pick list *)

(** [x] is picked before [y], or could be. *)
Definition before (s : picker) (x y : Z) : Prop :=
  exists j k, priority_of x s = Some j /\ priority_of y s = Some k /\ j <= k.

Lemma concat_sorted s bk : forall k,
  (forall j y, 0 <= j -> y ∈ bucket bk j -> priority_of y s = Some (k + j)) -> StronglySorted (before s) (concat bk).
Proof.
  induction bk as [|b bk IH]; intros k Hk; [constructor|].
  assert (forall y, y ∈ b -> priority_of y s = Some k) as Hb.
  { intros y Hy. rewrite <- (Z.add_0_r k). apply Hk; [done|]. exact Hy. }
  assert (forall j y, 0 <= j -> y ∈ bucket bk j -> priority_of y s = Some (k + 1 + j)) as Hbk.
  { intros j y Hj Hy. replace (k + 1 + j) with (k + (j + 1)) by lia. apply Hk; [lia|]. unfold bucket in *. by rewrite zget_cons_S. }
  cbn [concat]. apply StronglySorted_app. split_and!; [| |by apply (IH (k + 1))].
  - intros x y Hx Hy. apply in_bucket in Hy as (j & Hj & Hy). exists k, (k + 1 + j). split_and!; [by apply Hb|apply Hbk; [lia|done]|lia].
  - clear IH Hk Hbk. induction b as [|x b IH]; [constructor|]. constructor.
    + apply IH. intros y Hy. apply Hb. by right.
    + apply Forall_forall. intros y Hy. exists k, k. split_and!; [apply Hb; by left|apply Hb; by right|lia].
Qed.

Lemma before_sorted s s' l :
  (forall x, priority_of x s' = priority_of x s) -> StronglySorted (before s') l -> StronglySorted (before s) l.
Proof.
  intros Hp. induction 1 as [|x l _ IH Hl]; constructor; [done|]. eapply Forall_impl; [exact Hl|].
  intros y (j & k & Hj & Hk & Hle). rewrite Hp in Hj, Hk. by exists j, k.
Qed.

Lemma list_exact s :
  invariant s -> m_dirty s = false ->
  StronglySorted (before s) (m_pieces s) /\ NoDup (m_pieces s) /\
  (forall x, x ∈ m_pieces s <-> exists k, 0 <= k /\ priority_of x s = Some k) /\
  (forall i x, zget (m_pieces s) i = Some x -> option_map index (piece_at x s) = Some i).
Proof.
  intros Hi Hd. destruct (in_list _ Hi Hd) as [bk Hl]. pose proof Hl as [Hs Hk]. pose proof Hs as [Hm _ Hx Hv]. split_and!.
  - rewrite Hm. apply (concat_sorted s bk 0). intros j y Hj Hy. by apply Hk.
  - by eapply shaped_nodup.
  - intros x. by apply (listed_elem s bk).
  - intros i x Hix. pose proof (zget_elem _ _ _ Hix) as Hin. destruct (shaped_valid s bk x Hs Hin) as (p & Hp & _).
    pose proof (zget_Some_bound _ _ _ Hp). pose proof (zget_Some_bound _ _ _ Hix).
    destruct (Hx i x Hix) as (p' & Hp' & Hii & _); [lia|lia|]. by rewrite Hp', <- Hii.
Qed.

(** ** A peer joins and leaves *)

Lemma zget_availability s y : zget (get_availability s) y = get_availability_of y s.
Proof.
  unfold get_availability, get_availability_of, piece_at, zget. case_decide; [|done]. rewrite list_lookup_fmap.
  by destruct (m_piece_map s !! Z.to_nat y).
Qed.

Lemma bit_at_range l y : 0 <= bit_at l 0 y <= 1.
Proof. unfold bit_at. destruct (zget l (y - 0)) as [[]|]; lia. Qed.

Lemma avail_nonneg s y a : typed s -> get_availability_of y s = Some a -> 0 <= a.
Proof.
  intros Ht Ha. unfold get_availability_of in Ha. destruct (piece_at y s) as [p|] eqn:Hp; [|done]. injection Ha as <-.
  destruct (typed_piece_at _ _ _ Ht Hp) as [? _]. pose proof (ty_seeds _ Ht). lia.
Qed.

Lemma join_leave random_values s b :
  invariant s -> m_seeds s + 1 < 2 ^ 31 -> bf_wf b -> bf_size b = num_pieces s -> room_for (bit_at (bit_list b) 0) s ->
  exists s1 s2, runs (inc_refcount_bits random_values b) s tt s1 /\ runs (dec_refcount_bits random_values b) s1 tt s2 /\
    invariant s2 /\ recounted (fun _ => 0) s s2.
Proof.
  intros Hi Hmax Hb Hsz Hroom. destruct (inc_refcount_bits_spec random_values s b Hi Hmax Hb Hsz Hroom) as (s1 & Hr1 & Hi1 & Hc1).
  assert (num_pieces s1 = num_pieces s) as Hn by (apply counted_num, Hc1).
  assert (forall y a', get_availability_of y s1 = Some a' -> exists a, get_availability_of y s = Some a /\ a' = a + bit_at (bit_list b) 0 y) as Hav.
  { intros y a' Ha'. rewrite (rc_avail _ _ _ Hc1) in Ha'. destruct (get_availability_of y s) as [a|]; [|done].
    injection Ha' as <-. by exists a. }
  destruct (dec_refcount_bits_spec random_values s1 b Hi1) as (s2 & Hr2 & Hi2 & Hc2); [|done|congruence| |].
  - intros y a' (a & Ha & ->)%Hav. by apply Hroom.
  - intros y a' (a & Ha & ->)%Hav. pose proof (avail_nonneg s y a (in_typed _ Hi) Ha). lia.
  - exists s1, s2. split_and!; [done|done|done|]. eapply recounted_ext; [eapply recounted_trans; [exact Hc1|exact Hc2]|].
    intros y. simpl. lia.
Qed.
