(* ===== verification/PickerMachine.v ===== *)
(** * The picker as a state machine

    [op] lists the public operations that change a picker, [exec] runs one and
    [enabled] says when its caller may.  [view] is what the rest of the program
    knows of a picker: the state of every block, the availability, whether we
    have a piece and its priority; [v_step] is what an operation does to it. *)

From Stdlib Require Import ZArith Lia.
From stdpp Require Import base functions numbers list.
From S2P Require Import Prelude Bitfield BitfieldSpec PickerState PickerList PickerOps PickerQuery.
From S2P Require Import PickerListSpec PickerUpdateSpec PickerDownloadsSpec PickerInvariant PickerFrame.
From S2P Require Import PickerBlockSpec PickerHaveSpec PickerWriteSpec PickerFinishSpec.
From S2P Require Import PickerRefcountSpec PickerPieceSpec.

(** ** The operations *)

Inductive op :=
| IncRefcountAll | DecRefcountAll
| IncRefcount (x : Z) | DecRefcount (x : Z)
| IncRefcountBits (bits : bitfield) | DecRefcountBits (bits : bitfield)
| WeHave (x : Z) | WeDontHave (x : Z)
| SetPiecePriority (x new : Z) | UpdatePieces
| MarkAsDownloading (b : piece_block) (peer : Z) (reverse : bool)
| MarkAsWriting (b : piece_block) (peer : Z)
| MarkAsFinished (b : piece_block) (peer : Z)
| MarkAsCanceled (b : piece_block) (peer : Z)
| WriteFailed (b : piece_block)
| AbortDownload (b : piece_block) (peer : Z)
| LockPiece (x : Z) | RestorePiece (x : Z) | PiecePassed (x : Z)
| ClearPeer (peer : Z).

(** The result of the operations that return nothing. *)
Definition unit_op (m : M unit) : M bool := _ ← m; mret true.

Definition exec (random_values : nat -> Z) (o : op) : M bool :=
  match o with
  | IncRefcountAll => unit_op inc_refcount_all
  | DecRefcountAll => unit_op dec_refcount_all
  | IncRefcount x => unit_op (inc_refcount random_values x)
  | DecRefcount x => unit_op (dec_refcount random_values x)
  | IncRefcountBits b => unit_op (inc_refcount_bits random_values b)
  | DecRefcountBits b => unit_op (dec_refcount_bits random_values b)
  | WeHave x => unit_op (we_have x)
  | WeDontHave x => unit_op (we_dont_have random_values x)
  | SetPiecePriority x new => set_piece_priority random_values x new
  | UpdatePieces => unit_op (update_pieces random_values)
  | MarkAsDownloading b peer reverse => mark_as_downloading random_values b peer reverse
  | MarkAsWriting b peer => mark_as_writing random_values b peer
  | MarkAsFinished b peer => unit_op (mark_as_finished random_values b peer)
  | MarkAsCanceled b peer => unit_op (mark_as_canceled random_values b peer)
  | WriteFailed b => unit_op (write_failed random_values b)
  | AbortDownload b peer => unit_op (abort_download random_values b peer)
  | LockPiece x => unit_op (lock_piece x)
  | RestorePiece x => unit_op (restore_piece random_values x)
  | PiecePassed x => unit_op (piece_passed x)
  | ClearPeer peer => unit_op (clear_peer peer)
  end.

Definition wanted_block (b : piece_block) (s : picker) : Prop :=
  0 <= block_index b < blocks_in_piece (piece_index b) s /\
  exists p, piece_at (piece_index b) s = Some p /\ have p = false.

Definition real_block (b : piece_block) (s : picker) : Prop :=
  0 <= block_index b < blocks_in_piece (piece_index b) s /\ is_Some (piece_at (piece_index b) s).

Definition block_is (b : piece_block) (st : block_state) (s : picker) : Prop :=
  state_of (piece_index b) (block_index b) s = st.

(** What the assertions at the head of each operation ask of its caller, and
    that the counts of peers and seeds fit in their members. *)
Definition enabled (o : op) (s : picker) : Prop :=
  match o with
  | UpdatePieces | ClearPeer _ => True
  | IncRefcountAll => m_seeds s + 1 < 2 ^ 31
  | DecRefcountAll => forall y a, get_availability_of y s = Some a -> 0 < a
  | IncRefcount x => exists p, piece_at x s = Some p /\ peer_count p + 1 < 2 ^ 16
  | DecRefcount x => crowd_ok s /\ exists p, piece_at x s = Some p /\ 0 < peer_count p + m_seeds s
  | IncRefcountBits b => m_seeds s + 1 < 2 ^ 31 /\ bf_wf b /\ bf_size b = num_pieces s /\ room_for (bit_at (bit_list b) 0) s
  | DecRefcountBits b => crowd_ok s /\ bf_wf b /\ bf_size b = num_pieces s /\ peers_for (bit_at (bit_list b) 0) s
  | WeHave x | LockPiece x | RestorePiece x | PiecePassed x => is_Some (piece_at x s)
  | WeDontHave x => exists p, piece_at x s = Some p /\ have p = true
  | SetPiecePriority x new => is_Some (piece_at x s) /\ 0 <= new < 8
  | MarkAsDownloading b _ _ => wanted_block b s /\ peers_of (piece_index b) (block_index b) s + 1 < 2 ^ 14
  | MarkAsWriting b _ => wanted_block b s
  | MarkAsFinished b _ => wanted_block b s /\ ~ block_is b state_requested s
  | MarkAsCanceled b _ | AbortDownload b _ => real_block b s
  | WriteFailed b => real_block b s /\ ~ block_is b state_requested s
  end.

(** ** What the rest of the program sees *)

Record view := View {
  v_num : Z;                           (* the number of pieces *)
  v_size : Z -> Z;                     (* the blocks of a piece *)
  v_block : Z -> Z -> block_state;
  v_avail : Z -> Z;                    (* the peers that have a piece *)
  v_have : Z -> bool;
  v_prio : Z -> Z;
}.

Definition with_block (b : piece_block) (st : block_state) (v : view) : view :=
  View (v_num v) (v_size v)
    (<[piece_index b := <[block_index b := st]> (v_block v (piece_index b))]> (v_block v))
    (v_avail v) (v_have v) (v_prio v).

(** All the blocks of a piece are free again. *)
Definition with_none (x : Z) (v : view) : view :=
  View (v_num v) (v_size v) (<[x := fun _ => state_none]> (v_block v)) (v_avail v) (v_have v) (v_prio v).

Definition with_have (x : Z) (h : bool) (v : view) : view :=
  let v := with_none x v in View (v_num v) (v_size v) (v_block v) (v_avail v) (<[x := h]> (v_have v)) (v_prio v).

Definition with_avail (f : Z -> Z) (v : view) : view :=
  View (v_num v) (v_size v) (v_block v) (fun x => v_avail v x + f x) (v_have v) (v_prio v).

Definition with_prio (x new : Z) (v : view) : view :=
  View (v_num v) (v_size v) (v_block v) (v_avail v) (v_have v) (<[x := new]> (v_prio v)).

Definition v_at (b : piece_block) (v : view) : block_state := v_block v (piece_index b) (block_index b).

(** Every block of the piece is in the state, but for the block [j]. *)
Definition v_all_but (x j : Z) (v : view) : Prop :=
  forall i, 0 <= i < v_size v x -> i <> j -> v_block v x i = state_finished.

Inductive v_step : op -> view -> bool -> view -> Prop :=
| VIncAll v : v_step IncRefcountAll v true (with_avail (fun _ => 1) v)
| VDecAll v : v_step DecRefcountAll v true (with_avail (fun _ => -1) v)
| VInc x v : v_step (IncRefcount x) v true (with_avail (at_piece x 1) v)
| VDec x v : v_step (DecRefcount x) v true (with_avail (at_piece x (-1)) v)
| VIncBits b v : v_step (IncRefcountBits b) v true (with_avail (bit_at (bit_list b) 0) v)
| VDecBits b v : v_step (DecRefcountBits b) v true (with_avail (fun y => - bit_at (bit_list b) 0 y) v)
| VHave x v : v_step (WeHave x) v true (with_have x true v)
| VDontHave x v : v_step (WeDontHave x) v true (with_have x false v)
| VPriority x new v :
    v_step (SetPiecePriority x new) v
      (negb (Bool.eqb (new =? filter_priority) (v_prio v x =? filter_priority))) (with_prio x new v)
| VUpdate v : v_step UpdatePieces v true v
| VDownloading b peer reverse v :
    v_step (MarkAsDownloading b peer reverse) v (free_block (v_at b v)) (with_block b (requested (v_at b v)) v)
| VWriting b peer v :
    v_step (MarkAsWriting b peer) v (free_block (v_at b v)) (with_block b (written (v_at b v)) v)
| VFinished b peer v : v_step (MarkAsFinished b peer) v true (with_block b state_finished v)
| VCompleted b peer v :
    v_all_but (piece_index b) (block_index b) v ->
    v_step (MarkAsFinished b peer) v true (with_have (piece_index b) true v)
| VCanceled b peer v : v_step (MarkAsCanceled b peer) v true (with_block b (canceled (v_at b v)) v)
| VFailed b v : v_step (WriteFailed b) v true (with_block b (write_failure (v_at b v)) v)
| VAborted b peer n v : v_step (AbortDownload b peer) v true (with_block b (aborted (v_at b v) n) v)
| VLock x v : v_step (LockPiece x) v true v
| VRestore x v : v_step (RestorePiece x) v true (with_none x v)
| VPassed x v : v_step (PiecePassed x) v true v
| VPassedHave x v : v_all_but x (-1) v -> v_step (PiecePassed x) v true (with_have x true v)
| VClearPeer peer v : v_step (ClearPeer peer) v true v.

(** The view of a picker, on its pieces and blocks. *)
Record shows (s : picker) (v : view) : Prop := {
  sw_num : num_pieces s = v_num v;
  sw_size : forall x, blocks_in_piece x s = v_size v x;
  sw_block : forall x j, 0 <= x < num_pieces s -> 0 <= j < blocks_in_piece x s -> state_of x j s = v_block v x j;
  sw_avail : forall x p, piece_at x s = Some p -> peer_count p + m_seeds s = v_avail v x;
  sw_have : forall x p, piece_at x s = Some p -> have p = v_have v x;
  sw_prio : forall x p, piece_at x s = Some p -> piece_prio p = v_prio v x;
}.

(** ** Frames and views *)

Lemma shows_block s v b : shows s v -> real_block b s -> state_of (piece_index b) (block_index b) s = v_at b v.
Proof. intros Hv [Hj [p Hp]]. apply (sw_block _ _ Hv); [by apply zget_Some_bound in Hp|done]. Qed.

Lemma wanted_real b s : wanted_block b s -> real_block b s.
Proof. intros [Hj (p & Hp & _)]. split; [done|by exists p]. Qed.

(** Pieces whose view is kept. *)
Lemma wanted_back s s' x p' :
  Forall2 same_wanted (m_piece_map s) (m_piece_map s') -> piece_at x s' = Some p' ->
  exists p, piece_at x s = Some p /\ same_wanted p p'.
Proof. intros Hl Hp. by eapply same_wanted_at. Qed.

Lemma shows_touched x j s s' v st :
  touched x s s' -> only_block s s' x j st -> shows s v -> shows s' (with_block (PB x j) st v).
Proof.
  intros Ht Ho [V1 V2 V3 V4 V5 V6]. pose proof (touched_num _ _ _ Ht) as Hn.
  assert (forall y, blocks_in_piece y s' = blocks_in_piece y s) as Hb by (intros y; by eapply touched_blocks).
  destruct Ht as [Hw _ _ Hf]. apply fixed_inv in Hf as ((Hs & _) & _).
  split; cbn.
  - by rewrite Hn.
  - intros y. by rewrite Hb.
  - intros y i Hy Hi. rewrite Hn in Hy. rewrite Hb in Hi. rewrite Ho by done. case_decide as Hxi.
    + destruct Hxi as [-> ->]. by rewrite !fn_lookup_insert.
    + rewrite V3 by done. destruct (decide (y = x)) as [->|Hne]; [|by rewrite fn_lookup_insert_ne].
      rewrite fn_lookup_insert, fn_lookup_insert_ne; [done|]. intros ->. by apply Hxi.
  - intros y q (p & Hp & Hc & _)%(wanted_back s); [|done]. rewrite Hs, Hc. by apply V4.
  - intros y q (p & Hp & _ & _ & Hh)%(wanted_back s); [|done]. rewrite Hh. by apply V5.
  - intros y q (p & Hp & _ & Hpr & _)%(wanted_back s); [|done]. rewrite Hpr. by apply V6.
Qed.

(** The view after an operation, piece by piece. *)
Lemma shows_intro s s' v v' :
  shows s v -> num_pieces s' = num_pieces s -> v_num v' = v_num v -> v_size v' = v_size v ->
  (forall y, blocks_in_piece y s' = blocks_in_piece y s) ->
  (forall y i, 0 <= y < num_pieces s -> 0 <= i < blocks_in_piece y s -> state_of y i s' = v_block v' y i) ->
  (forall y p, piece_at y s = Some p -> exists p', piece_at y s' = Some p' /\
    peer_count p' + m_seeds s' = v_avail v' y /\ have p' = v_have v' y /\ piece_prio p' = v_prio v' y) ->
  shows s' v'.
Proof.
  intros [V1 V2 V3 V4 V5 V6] Hn E1 E2 Hb Hst Hp.
  assert (forall y q, piece_at y s' = Some q ->
    peer_count q + m_seeds s' = v_avail v' y /\ have q = v_have v' y /\ piece_prio q = v_prio v' y) as Hq.
  { intros y q Hq. destruct (zget_is_Some (m_piece_map s) y) as [p Hpy].
    - apply zget_Some_bound in Hq. unfold num_pieces in Hn. lia.
    - destruct (Hp y p Hpy) as (p' & Hp' & H). unfold piece_at in *. rewrite Hq in Hp'. by injection Hp' as <-. }
  split; try (intros y q ?%Hq; tauto).
  - by rewrite Hn, E1.
  - intros y. by rewrite Hb, E2.
  - intros y i Hy Hi. rewrite Hn in Hy. rewrite Hb in Hi. by apply Hst.
Qed.

(** An operation on the piece [x] alone. *)
Lemma shows_others x s s' v v' p p' :
  invariant s -> invariant s' -> shows s v -> others_kept x s s' -> piece_at x s = Some p -> piece_at x s' = Some p' ->
  v_num v' = v_num v -> v_size v' = v_size v -> v_avail v' = v_avail v ->
  (forall y, y <> x -> v_block v' y = v_block v y /\ v_have v' y = v_have v y /\ v_prio v' y = v_prio v y) ->
  peer_count p' = peer_count p -> have p' = v_have v' x -> piece_prio p' = v_prio v' x ->
  (forall i, 0 <= i < blocks_in_piece x s -> state_of x i s' = v_block v' x i) ->
  shows s' v'.
Proof.
  intros Hi Hi' Hv Ho Hp Hp' E1 E2 E3 Hne Hc Hh Hpr Hst. pose proof Hv as [V1 V2 V3 V4 V5 V6].
  apply (shows_intro s s' v v'); [done|apply Ho|done|done| | |].
  - intros y. by eapply others_blocks.
  - intros y i Hy Hb. destruct (decide (y = x)) as [->|Hyx]; [by apply Hst|].
    rewrite (state_of_other s s' x y i Hi (ok_views _ _ _ Ho) (in_downloads _ Hi') Hyx Hy).
    rewrite (proj1 (Hne y Hyx)). by apply V3.
  - intros y q Hq. rewrite E3. destruct (decide (y = x)) as [->|Hyx].
    + rewrite Hp in Hq. injection Hq as <-. exists p'. split_and!; try done. rewrite Hc, (ok_seeds _ _ _ Ho). by apply V4.
    + destruct (ok_pieces _ _ _ Ho y q Hyx Hq) as (q' & Hq' & Hqc & _ & Hqp & Hqh). exists q'.
      destruct (Hne y Hyx) as (_ & -> & ->). rewrite Hqc, Hqp, Hqh, (ok_seeds _ _ _ Ho). split_and!; [done| | |].
      * by apply V4.
      * by apply V5.
      * by apply V6.
Qed.

Lemma shows_had x h s s' v p p' :
  invariant s -> invariant s' -> shows s v -> others_kept x s s' -> piece_at x s = Some p -> piece_at x s' = Some p' ->
  peer_count p' = peer_count p -> piece_prio p' = piece_prio p -> have p' = h ->
  (have p' = true \/ download_state p' = piece_open) -> shows s' (with_have x h v).
Proof.
  intros Hi Hi' Hv Ho Hp Hp' Hc Hpr Hh Hopen. eapply (shows_others x s s' v); eauto.
  - intros y Hy. cbn. by rewrite !fn_lookup_insert_ne by congruence.
  - cbn. by rewrite fn_lookup_insert.
  - rewrite Hpr. by apply (sw_prio _ _ Hv).
  - intros i Hi2. cbn. rewrite fn_lookup_insert. destruct (in_pieces _ Hi' _ _ Hp') as ([[[q d] bs]|] & Ho' & Hok).
    + destruct Hok as (Hq & Hnh & _ & _). destruct Hopen as [Hopen|Hopen]; [congruence|].
      by apply (state_open s' x p').
    + by rewrite (state_of_view s' x None i (in_downloads _ Hi') Ho').
Qed.

Lemma touched_seen x s s' v y p :
  shows s v -> touched x s s' -> piece_at y s = Some p ->
  exists p', piece_at y s' = Some p' /\ peer_count p' + m_seeds s' = v_avail v y /\ have p' = v_have v y /\
    piece_prio p' = v_prio v y.
Proof.
  intros [V1 V2 V3 V4 V5 V6] Ht Hp. pose proof Ht as [Hw _ _ Hf]. apply fixed_inv in Hf as ((Hsd & _) & _).
  destruct (zget_is_Some (m_piece_map s') y) as [p' Hp'].
  { apply zget_Some_bound in Hp. pose proof (touched_num _ _ _ Ht). unfold num_pieces in *. lia. }
  destruct (wanted_back s s' y p' Hw Hp') as (p2 & Hp2 & Hc & Hpr & Hh). rewrite Hp in Hp2. injection Hp2 as <-.
  exists p'. rewrite Hc, Hpr, Hh, Hsd. split_and!; auto.
Qed.

(** An operation that changes no block and no other thing the view shows. *)
Lemma shows_same x s s' v : shows s v -> touched x s s' -> same_blocks s s' -> shows s' v.
Proof.
  intros Hv Ht Hs. apply (shows_intro s s' v v); try done.
  - by eapply touched_num.
  - intros y. by eapply touched_blocks.
  - intros y i Hy Hb. rewrite Hs by done. by apply (sw_block _ _ Hv).
  - intros y p Hp. exact (touched_seen x s s' v y p Hv Ht Hp).
Qed.

Lemma shows_freed x s s' v : shows s v -> touched x s s' -> blocks_freed s s' x -> shows s' (with_none x v).
Proof.
  intros Hv Ht Hs. apply (shows_intro s s' v); try done.
  - by eapply touched_num.
  - intros y. by eapply touched_blocks.
  - intros y i Hy Hb. rewrite Hs by done. cbn. case_decide as Hyx; [subst y; by rewrite fn_lookup_insert|].
    rewrite fn_lookup_insert_ne by congruence. by apply (sw_block _ _ Hv).
  - intros y p Hp. exact (touched_seen x s s' v y p Hv Ht Hp).
Qed.

(** An operation on the availability. *)
Lemma shows_recounted f s s' v : invariant s -> shows s v -> recounted f s s' -> shows s' (with_avail f v).
Proof.
  intros Hi Hv Hr. pose proof Hv as [V1 V2 V3 V4 V5 V6]. pose proof Hr as [Hc _ _]. pose proof Hc as [_ [= E1 E2 E3 E4 E5 E6 _ _ _ _ _]].
  assert (num_pieces s' = num_pieces s) as Hn by (by apply counted_num).
  apply (shows_intro s s' v); try done.
  - intros y. unfold blocks_in_piece. by rewrite Hn, E5, E6.
  - intros y i Hy Hb. cbn. rewrite <- V3 by done. unfold state_of, entry_at, slice. by rewrite E2, E3, E5.
  - intros y p Hp. destruct (recounted_piece f s s' y p Hr Hp) as (p' & Hp' & (_ & Hpr & Hh) & Ha). exists p'.
    cbn. rewrite Hpr, Hh, Ha. split_and!; [done| | |]; auto. f_equal. auto.
Qed.

(** ** Slots for the blocks *)

(** A picker of up to 65535 pieces never runs out of slots: they are numbered
    in 16 bits, and each is held by one piece. *)
Lemma slots_enough s x p :
  invariant s -> num_pieces s <= 65535 -> piece_at x s = Some p -> download_state p = piece_open -> slots_left s.
Proof.
  intros Hi Hn Hp Ho. destruct (in_downloads _ Hi) as [n Hs]. unfold slots_left.
  destruct (m_free_block_infos s) as [|f fs] eqn:Hf; [right|by left].
  pose proof (ds_bpp _ _ Hs). rewrite (ds_blocks _ _ Hs), Z.div_mul by lia.
  pose proof (ds_slots _ _ Hs) as Hperm. rewrite Hf, app_nil_r in Hperm. apply Permutation_length in Hperm.
  rewrite length_map, length_seqZ in Hperm.
  assert (x ∉ map dp_index (concat (m_downloads s))) as Hx.
  { intros (d & -> & Hd)%list_elem_of_fmap. destruct (concat_in_queue s d (ds_four _ _ Hs) Hd) as [q Hq].
    destruct (in_pieces _ Hi _ _ Hp) as ([[[q' d'] bs]|] & Hv & Hok); [|by apply Hv in Hq].
    destruct Hok as (Hq' & _ & [He Hu] & _). destruct Hv as (Hv & _). unfold download_queue in Hq'. rewrite Ho in Hq'.
    subst q'. destruct Hv as (l & Hl & _). unfold downloads_of in Hl. apply lookup_lt_Some in Hl.
    rewrite (ds_four _ _ Hs) in Hl. simpl in Hl. lia. }
  pose proof (zget_Some_bound _ _ _ Hp) as Hxb.
  pose proof (nodup_bounded (x :: map dp_index (concat (m_downloads s))) (length (m_piece_map s))) as Hle.
  simpl in Hle. rewrite length_map in Hle. unfold num_pieces in *.
  assert (S (length (concat (m_downloads s))) <= length (m_piece_map s))%nat; [|lia].
  apply Hle; [constructor; [done|apply (ds_once _ _ Hs)]|].
  intros y [->|(d & -> & Hd)%list_elem_of_fmap]%elem_of_cons; [lia|].
  pose proof (ds_index _ _ Hs) as Hix. rewrite Forall_forall in Hix. by apply Hix.
Qed.

(** ** One operation *)

Section random.
Context (random_values : nat -> Z).

(** [o] runs in [s], keeps the invariant and does to the view what [v_step] says. *)
Definition steps (o : op) (s : picker) (v : view) : Prop :=
  exists r s' v', runs (exec random_values o) s r s' /\ invariant s' /\ v_step o v r v' /\ shows s' v'.

Lemma runs_unit m s s' : runs m s tt s' -> runs (unit_op m) s true s'.
Proof. intros H. unfold unit_op. step H. apply runs_ret. Qed.

Lemma steps_unit o m s v s' v' :
  exec random_values o = unit_op m -> runs m s tt s' -> invariant s' -> v_step o v true v' -> shows s' v' -> steps o s v.
Proof. intros He Hr Hi Hv Hs. exists true, s', v'. rewrite He. split_and!; [by apply runs_unit|done..]. Qed.

Lemma availability_steps o s v :
  invariant s -> shows s v -> enabled o s ->
  match o with
  | IncRefcountAll | DecRefcountAll | IncRefcount _ | DecRefcount _ | IncRefcountBits _ | DecRefcountBits _ => True
  | _ => False
  end -> steps o s v.
Proof.
  intros Hi Hv He Ho. destruct o; try done; cbn [enabled] in He.
  - destruct (inc_refcount_all_spec s Hi He) as (s' & Hr & Hi' & Hc).
    eapply steps_unit; [done|exact Hr|done|constructor|exact (shows_recounted _ s s' v Hi Hv Hc)].
  - destruct (dec_refcount_all_spec s Hi He) as (s' & Hr & Hi' & Hc).
    eapply steps_unit; [done|exact Hr|done|constructor|exact (shows_recounted _ s s' v Hi Hv Hc)].
  - destruct He as (p & Hp & Hc). destruct (inc_refcount_spec random_values s x p Hi Hp Hc) as (s' & Hr & Hi' & Hct).
    eapply steps_unit; [done|exact Hr|done|constructor|exact (shows_recounted _ s s' v Hi Hv Hct)].
  - destruct He as (Hcr & p & Hp & Hc).
    destruct (dec_refcount_spec random_values s x p Hi Hcr Hp Hc) as (s' & Hr & Hi' & Hct).
    eapply steps_unit; [done|exact Hr|done|constructor|exact (shows_recounted _ s s' v Hi Hv Hct)].
  - destruct He as (Hmax & Hb & Hn & Hroom).
    destruct (inc_refcount_bits_spec random_values s bits Hi Hmax Hb Hn Hroom) as (s' & Hr & Hi' & Hct).
    eapply steps_unit; [done|exact Hr|done|constructor|exact (shows_recounted _ s s' v Hi Hv Hct)].
  - destruct He as (Hcr & Hb & Hn & Hroom).
    destruct (dec_refcount_bits_spec random_values s bits Hi Hcr Hb Hn Hroom) as (s' & Hr & Hi' & Hct).
    eapply steps_unit; [done|exact Hr|done|constructor|exact (shows_recounted _ s s' v Hi Hv Hct)].
Qed.

Lemma shows_became x s s' v :
  invariant s -> invariant s' -> shows s v -> others_kept x s s' -> became_had s s' x -> shows s' (with_have x true v).
Proof.
  intros Hi Hi' Hv Ho (p & p' & Hp & Hp' & Hh & Hc & Hpr). eapply (shows_had x true s s' v p p'); eauto.
Qed.

Lemma we_have_steps s v x : invariant s -> shows s v -> enabled (WeHave x) s -> steps (WeHave x) s v.
Proof.
  intros Hi Hv [p Hp]. destruct (have p) eqn:Hh.
  - eapply (steps_unit (WeHave x) (we_have x) s v s); [done| |done|constructor|].
    + unfold we_have. step runs_get_piece. cbv zeta. eapply runs_bind; [eapply runs_get_priority; unfold priority_of; by rewrite Hp|].
      rewrite Hh. apply runs_ret.
    + eapply (shows_had x true s s v p p); eauto. apply touched_others. reflexivity.
  - destruct (we_have_spec s x p Hi Hp Hh) as (s' & p' & Hr & Hi' & Ho & Hp' & Hh' & Hc & Hpr & _).
    eapply steps_unit; [done|exact Hr|done|constructor|]. eapply (shows_had x true s s' v p p'); eauto.
Qed.

Lemma we_dont_have_steps s v x : invariant s -> shows s v -> enabled (WeDontHave x) s -> steps (WeDontHave x) s v.
Proof.
  intros Hi Hv (p & Hp & Hh).
  destruct (we_dont_have_spec random_values s x p Hi Hp Hh) as (s' & p' & Hr & Hi' & Ho & Hp' & Hh' & Hc & Hpr & _ & _ & Hd).
  eapply steps_unit; [done|exact Hr|done|constructor|]. eapply (shows_had x false s s' v p p'); eauto.
Qed.

Lemma priority_steps s v x new : invariant s -> shows s v -> enabled (SetPiecePriority x new) s -> steps (SetPiecePriority x new) s v.
Proof.
  intros Hi Hv [[p Hp] Hn].
  destruct (set_piece_priority_spec random_values s x p new Hi Hp Hn) as (s' & p' & Hr & Hi' & Ho & Hb & Hp' & Hpr & Hc & Hh).
  exists (negb (Bool.eqb (new =? filter_priority) (v_prio v x =? filter_priority))), s', (with_prio x new v).
  split_and!; [|done|constructor|].
  - rewrite <- (sw_prio _ _ Hv x p Hp). exact Hr.
  - eapply (shows_others x s s' v _ p p'); eauto.
    + intros y Hy. cbn. by rewrite fn_lookup_insert_ne by congruence.
    + cbn. rewrite Hh. by apply (sw_have _ _ Hv).
    + cbn. by rewrite fn_lookup_insert.
    + intros i Hib. cbn. pose proof (zget_Some_bound _ _ _ Hp) as Hx. rewrite Hb by done. by apply (sw_block _ _ Hv).
Qed.

(** The operations on a block. *)
Lemma block_steps o s v x j st r s' :
  runs (exec random_values o) s r s' -> invariant s' -> shows s v -> touched x s s' -> only_block s s' x j st ->
  v_step o v r (with_block (PB x j) st v) -> steps o s v.
Proof. intros Hr Hi Hv Ht Ho Hs. exists r, s', (with_block (PB x j) st v). split_and!; [done..|by eapply shows_touched]. Qed.

Lemma marking_steps o s v :
  invariant s -> num_pieces s <= 65535 -> shows s v -> enabled o s ->
  match o with MarkAsDownloading _ _ _ | MarkAsWriting _ _ | MarkAsFinished _ _ => True | _ => False end -> steps o s v.
Proof.
  intros Hi Hn Hv He Ho. assert (forall b, wanted_block b s -> exists p, piece_at (piece_index b) s = Some p /\ have p = false /\
    (download_state p = piece_open -> slots_left s) /\ state_of (piece_index b) (block_index b) s = v_at b v) as Hb.
  { intros b Hb. pose proof Hb as [_ (p & Hp & Hh)]. exists p. split_and!; [done|done| |by apply shows_block, wanted_real].
    intros Hop. by eapply slots_enough. }
  destruct o as [| | | | | | | | | |[x j] peer rev|[x j] peer|[x j] peer| | | | | | |]; try done; cbn [enabled] in He.
  - destruct He as [Hw Hpeers]. destruct (Hb _ Hw) as (p & Hp & Hh & Hs & Hst). destruct Hw as [Hj _]. cbn in *.
    destruct (mark_as_downloading_spec random_values s x j peer rev p Hi Hp Hj Hh Hs Hpeers) as (s' & Hr & Hi' & Ht & Hob).
    rewrite Hst in *. eapply block_steps; [exact Hr|done|done|done|done|constructor].
  - destruct (Hb _ He) as (p & Hp & Hh & Hs & Hst). destruct He as [Hj _]. cbn in *.
    destruct (mark_as_writing_spec random_values s x j peer p Hi Hp Hj Hh Hs) as (s' & Hr & Hi' & Ht & Hob).
    rewrite Hst in *. eapply block_steps; [exact Hr|done|done|done|done|constructor].
  - destruct He as [Hw Hne]. destruct (Hb _ Hw) as (p & Hp & Hh & Hs & Hst). destruct Hw as [Hj _]. cbn in *.
    destruct (mark_as_finished_spec random_values s x j peer p Hi Hp Hj Hh Hne Hs) as (s' & Hr & Hi' & Hk & Hf).
    apply runs_unit in Hr. destruct Hf as [([_ Hc] & _ & Hbh)|(_ & Ht & Hob)].
    + exists true, s', (with_have x true v). split_and!; [exact Hr|done| |exact (shows_became x s s' v Hi Hi' Hv Hk Hbh)].
      apply (VCompleted (PB x j)). intros i Hib Hij. cbn in *. rewrite <- (sw_size _ _ Hv) in Hib.
      rewrite <- (sw_block _ _ Hv); [by apply Hc|by apply zget_Some_bound in Hp|done].
    + eapply block_steps; [exact Hr|done|done|done|done|constructor].
Qed.

Lemma releasing_steps o s v :
  invariant s -> shows s v -> enabled o s ->
  match o with MarkAsCanceled _ _ | WriteFailed _ | AbortDownload _ _ => True | _ => False end -> steps o s v.
Proof.
  intros Hi Hv He Ho.
  destruct o as [| | | | | | | | | | | | |[x j] peer|[x j]|[x j] peer| | | |]; try done; cbn [enabled] in He.
  - pose proof (shows_block _ _ _ Hv He) as Hst. destruct He as [Hj [p Hp]]. cbn in *.
    destruct (mark_as_canceled_spec random_values s x j peer p Hi Hp Hj) as (s' & Hr & Hi' & Ht & Hob).
    rewrite Hst in *. eapply block_steps; [apply (runs_unit _ _ _ Hr)|done|done|done|done|constructor].
  - destruct He as [He Hne]. pose proof (shows_block _ _ _ Hv He) as Hst. destruct He as [Hj [p Hp]]. cbn in *.
    destruct (write_failed_spec random_values s x j p Hi Hp Hj Hne) as (s' & Hr & Hi' & Ht & Hob).
    rewrite Hst in *. eapply block_steps; [apply (runs_unit _ _ _ Hr)|done|done|done|done|constructor].
  - pose proof (shows_block _ _ _ Hv He) as Hst. destruct He as [Hj [p Hp]]. cbn in *.
    destruct (abort_download_spec random_values s x j peer p Hi Hp Hj) as (s' & Hr & Hi' & Ht & Hob).
    rewrite Hst in *. eapply block_steps; [apply (runs_unit _ _ _ Hr)|done|done|done|done|constructor].
Qed.

Lemma piece_passed_steps s v x : invariant s -> shows s v -> enabled (PiecePassed x) s -> steps (PiecePassed x) s v.
Proof.
  intros Hi Hv [p Hp]. destruct (decide (download_state p = piece_open)) as [Ho|Ho].
  { eapply (steps_unit (PiecePassed x) (piece_passed x) s v s); [done| |done|apply VPassed|done].
    unfold piece_passed. step runs_get_piece. cbv zeta. rewrite decide_True by (by apply queue_open). apply runs_ret. }
  destruct (piece_passed_spec s x p Hi Hp Ho) as (s' & Hr & Hi' & Hk & H1 & H2 & H3).
  destruct (locked_at x s) eqn:El.
  { rewrite (H1 eq_refl) in *. eapply steps_unit; [done|exact Hr|done|apply VPassed|done]. }
  assert (all_finished_at x s \/ ~ all_finished_at x s) as [Hall|Hall].
  { destruct (forallb (fun i => bool_decide (state_of x i s = state_finished)) (seqZ 0 (blocks_in_piece x s))) eqn:E.
    - left. intros i Hib. rewrite forallb_forall in E. specialize (E i). apply bool_decide_eq_true in E; [done|].
      apply list_elem_of_In, elem_of_seqZ. lia.
    - right. intros H. apply not_true_iff_false in E. apply E, forallb_forall. intros i Hin%list_elem_of_In.
      apply bool_decide_eq_true, H. apply elem_of_seqZ in Hin. lia. }
  - eapply steps_unit; [done|exact Hr|done| |exact (shows_became x s s' v Hi Hi' Hv Hk (H2 eq_refl Hall))].
    apply VPassedHave. intros i Hib _. rewrite <- (sw_size _ _ Hv) in Hib.
    rewrite <- (sw_block _ _ Hv); [by apply Hall|by apply zget_Some_bound in Hp|done].
  - destruct (H3 eq_refl Hall) as (Ht & Hs & _).
    eapply steps_unit; [done|exact Hr|done|apply VPassed|by eapply (shows_same x s)].
Qed.

Lemma other_steps o s v :
  invariant s -> shows s v -> enabled o s ->
  match o with UpdatePieces | LockPiece _ | RestorePiece _ | ClearPeer _ => True | _ => False end -> steps o s v.
Proof.
  intros Hi Hv He Ho. destruct o; try done; cbn [enabled] in He.
  - destruct (update_pieces_spec random_values s Hi) as (s' & Hr & Hi' & _ & Hk & Hs & Hp).
    eapply steps_unit; [done|exact Hr|done|constructor|]. apply (shows_intro s s' v v); try done; [apply Hk| | |].
    + intros y. by eapply others_blocks.
    + intros y i Hy Hb. rewrite Hs by done. by apply (sw_block _ _ Hv).
    + intros y p Hpy. destruct (Hp y p Hpy) as (p' & Hp' & Hc & _ & Hpr & Hh). exists p'.
      rewrite Hc, Hpr, Hh, (ok_seeds _ _ _ Hk). split_and!; [done|by apply (sw_avail _ _ Hv)|by apply (sw_have _ _ Hv)|by apply (sw_prio _ _ Hv)].
  - destruct He as [p Hp]. destruct (lock_piece_spec s x p Hi Hp) as (s' & Hr & Hi' & Ht & Hs & _).
    eapply steps_unit; [done|exact Hr|done|constructor|exact (shows_same x s s' v Hv Ht Hs)].
  - destruct He as [p Hp]. destruct (restore_piece_spec random_values s x p Hi Hp) as (s' & Hr & Hi' & Ht & Hf & _).
    eapply steps_unit; [done|exact Hr|done|constructor|exact (shows_freed x s s' v Hv Ht Hf)].
  - destruct (clear_peer_spec s peer Hi) as (s' & Hr & Hi' & Hs & E & _).
    eapply steps_unit; [done|exact Hr|done|constructor|]. apply (shows_intro s s' v v); try done; try (by rewrite E).
    + intros y i Hy Hb. rewrite Hs by done. by apply (sw_block _ _ Hv).
    + intros y p Hpy. exists p. rewrite E. split_and!;
        [exact Hpy|by apply (sw_avail _ _ Hv)|by apply (sw_have _ _ Hv)|by apply (sw_prio _ _ Hv)].
Qed.

(** Every operation its caller may run does what [v_step] says. *)
Lemma op_steps o s v : invariant s -> num_pieces s <= 65535 -> shows s v -> enabled o s -> steps o s v.
Proof.
  intros Hi Hn Hv He. destruct o;
    first [by apply availability_steps|by apply we_have_steps|by apply we_dont_have_steps|by apply priority_steps
          |by apply marking_steps|by apply releasing_steps|by apply piece_passed_steps|by apply other_steps].
Qed.

Lemma v_step_num o v r v' : v_step o v r v' -> v_num v' = v_num v.
Proof. by destruct 1. Qed.
End random.
