(* ===== verification/PickerReach.v ===== *)
(** * The boundaries are never empty

    The constructor makes one boundary and no operation takes it away:
    [m_priority_boundries] only grows.  [Keeps m] is found operation by
    operation, from the instances of the operations it is made of. *)

From Stdlib Require Import ZArith Lia.
From stdpp Require Import base numbers functions list.
From S2P Require Import Prelude Bitfield PickerState PickerList PickerOps PickerQuery PickerListSpec.
From S2P Require Import PickerInvariant PickerFrame PickerBlockSpec PickerRefcountSpec PickerPieceSpec.
From S2P Require Import PickerCheckSpec PickerMachine.

Definition has_boundry (s : picker) : Prop := m_priority_boundries s <> [].

Class Keeps {A} (m : M A) : Prop := keeps s a s' : runs m s a s' -> has_boundry s -> has_boundry s'.

(** ** The monad *)

#[export] Instance keeps_ret {A} (a : A) : Keeps (mret a).
Proof. by intros s b s' [= _ <-]. Qed.

#[export] Instance keeps_bind {A B} (m : M A) (f : A -> M B) : Keeps m -> (forall x, Keeps (f x)) -> Keeps (m ≫= f).
Proof.
  intros Hm Hf s b s' Hr Hs. unfold runs, mbind, M_bind in Hr. destruct (m s) as [[x s1]|] eqn:E; [|done].
  eapply Hf; [exact Hr|]. by eapply Hm.
Qed.

#[export] Instance keeps_undefined {A} : Keeps (undefined (A := A)).
Proof. done. Qed.

#[export] Instance keeps_gets {A} (f : picker -> A) : Keeps (gets f).
Proof. by intros s b s' [= _ <-]. Qed.

#[export] Instance keeps_query {A} (f : picker -> option A) : Keeps (query f).
Proof. intros s b s' Hr Hs. unfold runs, query in Hr. destruct (f s); [by injection Hr as _ <-|done]. Qed.

#[export] Instance keeps_lift {A} (o : option A) : Keeps (lift o).
Proof. intros s b s' Hr Hs. unfold runs, lift in Hr. destruct o; [by injection Hr as _ <-|done]. Qed.

Lemma keeps_modify f : (forall s, has_boundry s -> has_boundry (f s)) -> Keeps (modify f).
Proof. intros Hf s b s' [= _ <-]. apply Hf. Qed.

(** Functions that leave the boundaries alone. *)
Lemma keeps_same f : (forall s, m_priority_boundries (f s) = m_priority_boundries s) -> Keeps (modify f).
Proof. intros Hf. apply keeps_modify. intros s. unfold has_boundry. by rewrite Hf. Qed.

Ltac same_boundries := intros ?; cbv zeta; repeat case_match; done.
#[export] Hint Extern 5 (Keeps (modify _)) => apply keeps_same; same_boundries : typeclass_instances.
#[export] Hint Extern 2 (Keeps (if ?b then _ else _)) => destruct b : typeclass_instances.
#[export] Hint Extern 2 (Keeps (match ?b with _ => _ end)) => destruct b : typeclass_instances.
#[export] Hint Extern 2 (Keeps (let x := _ in _)) => cbv zeta : typeclass_instances.

(** A partial change of the state that is a function where it is defined. *)
Lemma keeps_partial {A} (m : M A) :
  (forall s a s', m s = Some (a, s') -> m_priority_boundries s' = m_priority_boundries s) -> Keeps m.
Proof. intros Hm s a s' Hr. unfold has_boundry. by rewrite (Hm s a s' Hr). Qed.

Ltac unfold_run H :=
  repeat match type of H with
  | context [match ?x with _ => _ end] => destruct x; cbn in H; try done
  end; by simplify_eq.

#[export] Instance keeps_modify_piece i f : Keeps (modify_piece i f).
Proof. apply keeps_partial. intros s a s' H. unfold modify_piece, mbind, option_bind in H. unfold_run H. Qed.
#[export] Instance keeps_set_pieces_at i x : Keeps (set_pieces_at i x).
Proof. apply keeps_partial. intros s a s' H. unfold set_pieces_at, mbind, option_bind in H. unfold_run H. Qed.
#[export] Instance keeps_set_downloads st l : Keeps (set_downloads st l).
Proof. apply keeps_partial. intros s a s' H. unfold set_downloads in H. unfold_run H. Qed.
#[export] Instance keeps_modify_block d j f : Keeps (modify_block d j f).
Proof. apply keeps_partial. intros s a s' H. unfold modify_block, mbind, option_bind in H. unfold_run H. Qed.
#[export] Instance keeps_alloc_blocks : Keeps alloc_blocks.
Proof. apply keeps_partial. intros s a s' H. unfold alloc_blocks in H. unfold_run H. Qed.
#[export] Instance keeps_pop_back : Keeps pop_back_pieces.
Proof. apply keeps_partial. intros s a s' H. unfold pop_back_pieces in H. unfold_run H. Qed.

#[export] Instance keeps_set_boundry i x : Keeps (set_boundry i x).
Proof.
  intros s a s' Hr Hs. unfold runs, set_boundry, mbind, option_bind in Hr.
  destruct (zset (m_priority_boundries s) i x) as [l|] eqn:E; [|done]. injection Hr as _ <-. unfold has_boundry in *. cbn.
  unfold zset in E. repeat case_match; try done. injection E as <-. intros Hnil. apply Hs.
  apply length_zero_iff_nil. rewrite <- (length_insert (m_priority_boundries s) (Z.to_nat i) x). by rewrite Hnil.
Qed.

(** The operations are unfolded down to the ones above; a loop is proved by
    induction, with its hypothesis as an instance. *)

#[export] Instance keeps_get_piece i : Keeps (get_piece i) := keeps_query _.
#[export] Instance keeps_get_priority i : Keeps (get_priority i) := keeps_query _.
#[export] Instance keeps_get_pieces_at i : Keeps (get_pieces_at i) := keeps_query _.
#[export] Instance keeps_get_boundry i : Keeps (get_boundry i) := keeps_query _.
#[export] Instance keeps_num_boundries : Keeps num_boundries := keeps_gets _.
#[export] Instance keeps_get_dirty : Keeps get_dirty := keeps_gets _.

#[export] Instance keeps_when b m : Keeps m -> Keeps (when b m).
Proof. unfold when. typeclasses eauto. Qed.

(** ** The pick list *)

Lemma resize_to_some {A} n (x : A) l : 0 < n -> resize_to n x l <> [].
Proof.
  intros Hn H. apply (f_equal length) in H. unfold resize_to in H.
  rewrite length_app, length_take, length_replicate in H. simpl in H. lia.
Qed.

#[export] Instance keeps_priority_range prio : Keeps (priority_range prio).
Proof. unfold priority_range. typeclasses eauto. Qed.
#[export] Instance keeps_place x i : Keeps (place x i).
Proof. unfold place. typeclasses eauto. Qed.

#[export] Instance keeps_grow prio : Keeps (grow_boundries prio).
Proof.
  intros s a s' Hr Hs. unfold grow_boundries in Hr. unfold runs, mbind, M_bind, num_boundries, gets in Hr.
  destruct (Z.leb_spec (zlen (m_priority_boundries s)) prio); [|by injection Hr as _ <-].
  injection Hr as _ <-. apply resize_to_some. lia.
Qed.

#[export] Instance keeps_add_skip fuel : forall prio i, Keeps (add_skip fuel prio i).
Proof. induction fuel; intros; cbn [add_skip]; typeclasses eauto. Qed.
#[export] Instance keeps_add_shift fuel : forall x prio i, Keeps (add_shift fuel x prio i).
Proof. induction fuel; intros; cbn [add_shift]; typeclasses eauto. Qed.
#[export] Instance keeps_remove_skip fuel : forall prio i, Keeps (remove_skip fuel prio i).
Proof. induction fuel; intros; cbn [remove_skip]; typeclasses eauto. Qed.
#[export] Instance keeps_remove_shift fuel : forall prio i, Keeps (remove_shift fuel prio i).
Proof. induction fuel; intros; cbn [remove_shift]; typeclasses eauto. Qed.
#[export] Instance keeps_update_down fuel : forall prio k x i, Keeps (update_down fuel prio k x i).
Proof. induction fuel; intros; cbn [update_down]; typeclasses eauto. Qed.
#[export] Instance keeps_update_up fuel : forall prio k x i, Keeps (update_up fuel prio k x i).
Proof. induction fuel; intros; cbn [update_up]; typeclasses eauto. Qed.
#[export] Instance keeps_remove prio i : Keeps (remove prio i).
Proof. unfold remove. typeclasses eauto. Qed.

Section random.
Context (random_values : nat -> Z).

#[export] Instance keeps_random : Keeps (random random_values).
Proof. apply keeps_partial. by intros s a s' [= _ <-]. Qed.
#[export] Instance keeps_randint i : Keeps (randint random_values i).
Proof. unfold randint. typeclasses eauto. Qed.
#[export] Instance keeps_add x : Keeps (add random_values x).
Proof. unfold add. typeclasses eauto. Qed.
#[export] Instance keeps_shuffle prio i : Keeps (shuffle random_values prio i).
Proof. unfold shuffle. typeclasses eauto. Qed.
#[export] Instance keeps_update prio i : Keeps (update random_values prio i).
Proof. unfold update. typeclasses eauto. Qed.

Lemma keeps_grow_counts prio :
  Keeps (modify (fun s => if zlen (m_priority_boundries s) <=? prio
    then set_m_priority_boundries (resize_to (prio + 1) 0 (m_priority_boundries s)) s else s)).
Proof.
  apply keeps_modify. intros s Hs. destruct (Z.leb_spec (zlen (m_priority_boundries s)) prio); [|done].
  apply resize_to_some. lia.
Qed.

#[export] Instance keeps_count n : forall i, Keeps (count_priorities n i).
Proof. pose proof keeps_grow_counts. induction n; intros; cbn [count_priorities]; typeclasses eauto. Qed.
#[export] Instance keeps_place_pieces n : forall i, Keeps (place_pieces n i).
Proof. induction n; intros; cbn [place_pieces]; typeclasses eauto. Qed.
#[export] Instance keeps_random_shuffle d : forall i, Keeps (random_shuffle random_values d i).
Proof. induction d as [|[|d] IH]; intros; cbn [random_shuffle]; typeclasses eauto. Qed.
#[export] Instance keeps_shuffle_ranges l : forall i, Keeps (shuffle_ranges random_values l i).
Proof. induction l; intros; cbn [shuffle_ranges]; typeclasses eauto. Qed.
#[export] Instance keeps_index_pieces l : forall i, Keeps (index_pieces l i).
Proof. induction l; intros; cbn [index_pieces]; typeclasses eauto. Qed.

#[export] Instance keeps_update_pieces : Keeps (update_pieces random_values).
Proof.
  unfold update_pieces. apply keeps_bind; [|intros _; apply keeps_bind].
  - apply keeps_modify. intros s Hs. unfold has_boundry in *. by destruct (m_priority_boundries s) eqn:E; rewrite ?E.
  - apply keeps_modify. intros s Hs. unfold has_boundry in *. cbn. by destruct (m_priority_boundries s).
  - intros _. assert (Keeps (modify (fun s => set_m_priority_boundries (running_sum 0 (m_priority_boundries s)) s))).
    { apply keeps_modify. intros s Hs. unfold has_boundry in *. cbn. by destruct (m_priority_boundries s). }
    typeclasses eauto.
Qed.

(** ** The operations *)

#[export] Instance keeps_update_piece_pos prio x : Keeps (update_piece_pos random_values prio x).
Proof. unfold update_piece_pos. typeclasses eauto. Qed.
#[export] Instance keeps_reposition prio x : Keeps (reposition random_values prio x).
Proof. unfold reposition. typeclasses eauto. Qed.
#[export] Instance keeps_dl_modify it f : Keeps (dl_modify it f).
Proof. unfold dl_modify. typeclasses eauto. Qed.
#[export] Instance keeps_erase it : Keeps (erase_download_piece it).
Proof. unfold erase_download_piece. typeclasses eauto. Qed.
#[export] Instance keeps_reset_blocks n : forall d j, Keeps (reset_blocks n d j).
Proof. induction n; intros; cbn [reset_blocks]; typeclasses eauto. Qed.
#[export] Instance keeps_add_download x : Keeps (add_download_piece x).
Proof. unfold add_download_piece. typeclasses eauto. Qed.
#[export] Instance keeps_open x st : Keeps (open_download random_values x st).
Proof. unfold open_download. typeclasses eauto. Qed.
#[export] Instance keeps_change_reverse x f : Keeps (change_reverse random_values x f).
Proof. unfold change_reverse. typeclasses eauto. Qed.
#[export] Instance keeps_update_state it : Keeps (update_piece_state random_values it).
Proof. unfold update_piece_state. typeclasses eauto. Qed.
#[export] Instance keeps_erase_unused it x : Keeps (erase_if_unused random_values it x).
Proof. unfold erase_if_unused. typeclasses eauto. Qed.
#[export] Instance keeps_set_dirty_if b : Keeps (set_dirty_if b).
Proof. unfold set_dirty_if. typeclasses eauto. Qed.
#[export] Instance keeps_break_for x : Keeps (break_for x).
Proof. unfold break_for, break_one_seed. typeclasses eauto. Qed.
#[export] Instance keeps_dec_num_passed : Keeps dec_num_passed.
Proof. unfold dec_num_passed. typeclasses eauto. Qed.
#[export] Instance keeps_inc_all : Keeps inc_refcount_all.
Proof. unfold inc_refcount_all. typeclasses eauto. Qed.
#[export] Instance keeps_dec_all : Keeps dec_refcount_all.
Proof. unfold dec_refcount_all. typeclasses eauto. Qed.
#[export] Instance keeps_inc_each l : Keeps (inc_each random_values l).
Proof. induction l; cbn [inc_each]; typeclasses eauto. Qed.
#[export] Instance keeps_dec_each l : Keeps (dec_each random_values l).
Proof. induction l; cbn [dec_each]; typeclasses eauto. Qed.
#[export] Instance keeps_inc_bits l : forall i b, Keeps (inc_bits l i b).
Proof. induction l; intros; cbn [inc_bits]; typeclasses eauto. Qed.
#[export] Instance keeps_dec_bits l : forall i b, Keeps (dec_bits l i b).
Proof. induction l; intros; cbn [dec_bits]; typeclasses eauto. Qed.

Lemma cursors_lose_boundries x s : m_priority_boundries (cursors_lose x s) = m_priority_boundries s.
Proof. unfold cursors_lose. repeat case_match; done. Qed.
Lemma cursors_gain_boundries x s : m_priority_boundries (cursors_gain x s) = m_priority_boundries s.
Proof. unfold cursors_gain. cbv zeta. repeat case_match; done. Qed.

Ltac keep_cursors := apply keeps_same; intros ?; cbn beta; repeat case_match; rewrite ?cursors_lose_boundries, ?cursors_gain_boundries; done.
#[local] Hint Extern 6 (Keeps (modify _)) => keep_cursors : typeclass_instances.

#[export] Instance keeps_we_have x : Keeps (we_have x).
Proof. unfold we_have. typeclasses eauto. Qed.

#[export] Instance keeps_exec o : Keeps (exec random_values o).
Proof.
  destruct o; cbn [exec]; unfold unit_op, inc_refcount, dec_refcount, inc_refcount_bits, dec_refcount_bits, we_dont_have,
    set_piece_priority, mark_as_downloading, mark_as_writing, mark_as_finished, mark_as_canceled, write_failed, abort_download,
    lock_piece, restore_piece, piece_passed, clear_peer; typeclasses eauto.
Qed.
End random.

(** * Runs of the picker

    The pickers an owner can reach with operations it may run: each keeps the
    invariant, passes the debug checks and shows a view that the abstract
    machine reaches with the same operations. *)

(** ** The views that can be reached *)

Definition v_init (num : Z) (size : Z -> Z) : view :=
  View num size (fun _ _ => state_none) (fun _ => 0) (fun _ => false) (fun _ => 4).

Inductive v_reachable : view -> Prop :=
| v_reach_init num size : v_reachable (v_init num size)
| v_reach_step o v r v' : v_reachable v -> v_step o v r v' -> v_reachable v'.

Section random.
Context (random_values : nat -> Z).

(** [init], then operations that were enabled when they ran. *)
Inductive reachable : picker -> Prop :=
| reach_init bpp last n : init_ok bpp last n -> n <= 65535 -> reachable (init bpp last n new_picker)
| reach_step o s r s' : reachable s -> enabled o s -> runs (exec random_values o) s r s' -> reachable s'.

Lemma init_shows bpp last n :
  init_ok bpp last n -> let s := init bpp last n new_picker in shows s (v_init (num_pieces s) (fun x => blocks_in_piece x s)).
Proof.
  intros Hok s. destruct (init_spec bpp last n Hok) as (_ & Hn & Hp & _). fold s in Hn, Hp.
  split; try done; try (intros x p ->%Hp; done).
Qed.

Record reached (s : picker) : Prop := {
  re_invariant : invariant s;
  re_num : num_pieces s <= 65535;
  re_boundry : has_boundry s;
  re_view : exists v, v_reachable v /\ shows s v;
}.

Lemma reachable_reached s : reachable s -> reached s.
Proof.
  induction 1 as [bpp last n Hok Hn|o s r s' Hs [Hi Hn Hb (v & Hv & Hsh)] He Hr].
  - destruct (init_spec bpp last n Hok) as (Hi & Hnum & _). split; [done|lia|done|].
    eexists. split; [|by apply init_shows]. constructor.
  - destruct (op_steps random_values o s v Hi Hn Hsh He) as (r1 & s1 & v1 & Hr1 & Hi1 & Hst & Hsh1).
    destruct (runs_func _ _ _ _ _ _ Hr Hr1) as [<- <-]. split; [done| | |].
    + by rewrite (sw_num _ _ Hsh1), (v_step_num _ _ _ _ Hst), <- (sw_num _ _ Hsh).
    + exact (keeps_exec random_values o s r s' Hr Hb).
    + exists v1. split; [by econstructor|done].
Qed.

(** The next operation runs. *)
Lemma reached_step o s v :
  reached s -> shows s v -> enabled o s ->
  exists r s' v', runs (exec random_values o) s r s' /\ invariant s' /\ v_step o v r v' /\ shows s' v'.
Proof. intros Hr Hv He. by apply op_steps; [apply Hr|apply Hr|..]. Qed.

Lemma reached_checks s : reached s -> check_invariant s = true.
Proof. intros Hr. apply check_invariant_ok; [apply Hr|]. intros _. apply Hr. Qed.
End random.
