(* ===== verification/PickerQuerySpec.v ===== *)
(** * What the queries of the picker answer

    On a picker that satisfies the invariant each query finds the entry of its
    piece, and answers for the states of the blocks; [distributed_copies]
    counts the copies of the rarest pieces. *)

From Stdlib Require Import ZArith Lia.
From stdpp Require Import base numbers list.
From S2P Require Import Prelude Bitfield PickerState PickerList PickerOps PickerPick PickerQuery.
From S2P Require Import PickerListSpec PickerDownloadsSpec PickerInvariant PickerFrame PickerStateSpec.
From S2P Require Import PickerBlockSpec PickerHaveSpec PickerFinishSpec PickerPieceSpec.

Lemma query_runs {A} (f : picker -> option A) s a s' : runs (query f) s a s' -> f s = Some a.
Proof. unfold runs, query. destruct (f s); [by intros [= -> _]|done]. Qed.

(** ** The blocks *)

Lemma block_of_spec s x j p :
  invariant s -> piece_at x s = Some p -> download_state p <> piece_open -> 0 <= j < blocks_in_piece x s ->
  exists b, block_of (PB x j) s = Some b /\ bstate b = state_of x j s /\ num_peers b = peers_of x j s /\
    have p = false.
Proof.
  intros Hi Hp Ho Hj. destruct (at_block_of s x j p Hi Hp Ho Hj) as (it & d & bs & b & Hr & Hq & Hab).
  pose proof Hab as [_ _ _ Hoe _ _ _ (_ & Hh & _) _ _].
  exists b. split_and!; [|by rewrite (state_in Hab)|by rewrite (peers_in Hab)|done].
  unfold block_of. cbn [piece_index block_index]. rewrite Hp. cbn [mbind option_bind].
  rewrite (query_runs _ _ _ _ Hr). cbn [mbind option_bind].
  rewrite (query_runs _ _ _ _ (on_entry_deref _ _ _ _ Hoe)). cbn [mbind option_bind].
  exact (query_runs _ _ _ _ (on_entry_block _ _ _ _ d j b Hoe eq_refl (ab_block Hab))).
Qed.

(** The four queries at once. *)
Lemma block_queries s x j p :
  invariant s -> piece_at x s = Some p -> 0 <= j < blocks_in_piece x s ->
  let st := state_of x j s in
  is_requested (PB x j) s = Some (bool_decide (st = state_requested)) /\
  is_downloaded (PB x j) s = Some (have p || bool_decide (st = state_finished) || bool_decide (st = state_writing)) /\
  is_finished (PB x j) s = Some (have p || bool_decide (st = state_finished)) /\
  num_peers_of (PB x j) s = Some (peers_of x j s).
Proof.
  intros Hi Hp Hj st. unfold is_requested, is_downloaded, is_finished, num_peers_of. cbn [piece_index block_index].
  rewrite Hp. cbn [mbind option_bind]. destruct (decide (download_state p = piece_open)) as [Ho|Ho].
  - rewrite !(decide_True (P := download_queue p = piece_open)) by (by apply queue_open).
    unfold st. rewrite (state_open s x p j), (peers_open s x p j) by done. unfold downloading.
    rewrite (bool_decide_eq_true_2 (download_state p = piece_open)) by done.
    split_and!; try done; fold (have p); by destruct (have p).
  - rewrite !(decide_False (P := download_queue p = piece_open)) by (by rewrite queue_open).
    destruct (block_of_spec s x j p Hi Hp Ho Hj) as (b & Hb & Hst & Hpe & Hh). fold st in Hst. fold (have p).
    rewrite Hb, Hh. cbn [mbind option_bind]. unfold downloading.
    rewrite (bool_decide_eq_false_2 (download_state p = piece_open)) by done. cbn [negb orb].
    by rewrite Hst, Hpe.
Qed.

(** ** The pieces *)

(** The blocks of a piece that are finished or being written. *)
Definition downloaded_blocks (x : Z) (s : picker) : Z :=
  zlen (filter (fun j => state_of x j s = state_finished \/ state_of x j s = state_writing) (seqZ 0 (blocks_in_piece x s))).

Lemma tally_two (l : list block_info) :
  tally state_finished l + tally state_writing l =
  zlen (filter (fun b => bstate b = state_finished \/ bstate b = state_writing) l).
Proof.
  unfold tally. induction l as [|b l IH]; [done|]. rewrite !filter_cons.
  destruct (bstate b) eqn:E; repeat case_decide; simpl in *; try lia; try tauto; try congruence;
    exfalso; match goal with H : ~ _ |- _ => apply H; auto end.
Qed.

Lemma filter_by_index {A} (P : A -> Prop) `{DP : !forall x, Decision (P x)} (Q : Z -> Prop) `{DQ : !forall j, Decision (Q j)} l k :
  (forall j b, 0 <= j -> zget l j = Some b -> Q (k + j) <-> P b) ->
  length (filter Q (seqZ k (zlen l))) = length (filter P l).
Proof.
  revert k. induction l as [|b l IH]; intros k Hq; [done|].
  rewrite seqZ_cons by (simpl; lia). replace (Z.pred (zlen (b :: l))) with (zlen l) by (simpl; lia).
  rewrite !filter_cons. specialize (IH (Z.succ k)). pose proof (Hq 0 b ltac:(lia) (zget_cons_0 b l)) as Hb. rewrite Z.add_0_r in Hb.
  assert (length (filter Q (seqZ (Z.succ k) (zlen l))) = length (filter P l)) as Hl.
  { apply IH. intros j c Hj Hc. replace (Z.succ k + j) with (k + (j + 1)) by lia. apply Hq; [lia|]. by rewrite zget_cons_S. }
  repeat case_decide; simpl; tauto || lia.
Qed.

Lemma piece_queries s x p :
  invariant s -> piece_at x s = Some p ->
  is_piece_finished x s = Some (have p || bool_decide (downloaded_blocks x s = blocks_in_piece x s)) /\
  has_piece_passed x s = Some (have p || passed_at x s).
Proof.
  intros Hi Hp. unfold is_piece_finished, has_piece_passed. rewrite Hp. cbn [mbind option_bind]. fold (have p).
  pose proof (blocks_bound s x Hi) as Hbb. destruct (decide (download_state p = piece_open)) as [Ho|Ho].
  - rewrite !(decide_True (P := download_queue p = piece_open)) by (by apply queue_open).
    rewrite (passed_open s x p) by done. rewrite bool_decide_eq_false_2; [by destruct (have p)|].
    assert (downloaded_blocks x s = 0) as ->; [|lia]. unfold downloaded_blocks.
    destruct (filter _ _) as [|j l] eqn:E; [done|]. exfalso.
    assert (j ∈ j :: l) as Hj by (by left). rewrite <- E in Hj. apply list_elem_of_filter in Hj as [Hj _].
    rewrite (state_open s x p j) in Hj by done. by destruct Hj.
  - rewrite !(decide_False (P := download_queue p = piece_open)) by (by rewrite queue_open).
    destruct (entry_of s x p Hi Hp Ho) as (it & d & bs & Hr & Hq & Hoe & Hd & Hok).
    pose proof Hok as (_ & -> & _ & Hco). cbn [orb]. rewrite (query_runs _ _ _ _ Hr). cbn [mbind option_bind].
    rewrite (query_runs _ _ _ _ (on_entry_deref _ _ _ _ Hoe)). cbn [mbind option_bind].
    split; [|unfold passed_at; by rewrite <- Hd, (entry_in _ _ _ _ Hoe)]. f_equal.
    pose proof (on_entry_length _ _ _ _ Hoe) as Hlen. set (n := blocks_in_piece x s) in *.
    assert (downloaded_blocks x s = dp_finished d + dp_writing d) as ->.
    { rewrite (co_finished _ _ Hco), (co_writing _ _ Hco), tally_two. unfold downloaded_blocks. fold n. f_equal.
      assert (zlen (take (Z.to_nat n) bs) = n) as Hl by (rewrite length_take; lia). rewrite <- Hl at 1.
      apply filter_by_index. intros j b Hj Hb. simpl.
      assert (zget bs j = Some b) as Hb'.
      { unfold zget in *. rewrite decide_True in * by lia. rewrite lookup_take_Some in Hb. tauto. }
      by rewrite Z.add_0_l, <- Hd, (state_of_entry _ _ _ _ j Hoe), Hb'. }
    destruct (counts_bound _ _ _ Hco) as (? & ? & ? & Hu); [lia|]. unfold used in Hu.
    case_bool_decide; [rewrite (proj2 (Z.ltb_ge _ _)) by lia; done|rewrite (proj2 (Z.ltb_lt _ _)) by lia; done].
Qed.

(** ** The copies of the torrent *)

(** The copies of a piece that are around, ours among them. *)
Definition copies (p : piece_pos) : Z := if have p then peer_count p + 1 else peer_count p.

Definition more_copies (m : Z) (l : list piece_pos) : Z := zlen (filter (fun p => m < copies p) l).

(** What the loop of [distributed_copies] has counted. *)
Definition copies_counted (l : list piece_pos) (acc : Z * Z * Z) : Prop :=
  let '(m, i, f) := acc in
  m <= max_peer_count /\ Forall (fun p => m <= copies p) l /\ f = more_copies m l /\ i + f = zlen l /\
  (m = max_peer_count \/ exists p, p ∈ l /\ copies p = m).

Lemma more_copies_app m l p : more_copies m (l ++ [p]) = more_copies m l + (if decide (m < copies p) then 1 else 0).
Proof. unfold more_copies. rewrite filter_app, length_app, filter_cons. case_decide; simpl; lia. Qed.

Lemma more_copies_all m l : Forall (fun p => m < copies p) l -> more_copies m l = zlen l.
Proof. induction 1 as [|p l Hp _ IH]; [done|]. unfold more_copies in *. rewrite filter_cons, decide_True by done. simpl. lia. Qed.

Lemma copies_step_spec l p acc : copies_counted l acc -> copies_counted (l ++ [p]) (copies_step p acc).
Proof.
  destruct acc as [[m i] f]. intros (Hm & Hl & -> & Hi & Ha). unfold copies_step. fold (copies p). cbv zeta.
  destruct (Z.ltb_spec (copies p) m) as [Hlt|Hge]; [|destruct (Z.eqb_spec (copies p) m) as [He|Hne]]; unfold copies_counted.
  - split_and!; [lia| | | |].
    + apply Forall_app. split; [|by constructor]. eapply Forall_impl; [exact Hl|]. intros q Hq. simpl in *. lia.
    + rewrite more_copies_app, decide_False by lia. rewrite (more_copies_all (copies p)); [lia|].
      eapply Forall_impl; [exact Hl|]. intros q Hq. simpl in *. lia.
    + rewrite length_app. simpl. lia.
    + right. exists p. split; [|done]. apply elem_of_app. right. by left.
  - split_and!; [done| | | |].
    + apply Forall_app. split; [done|]. constructor; [lia|done].
    + rewrite more_copies_app, decide_False by lia. lia.
    + rewrite length_app. simpl. lia.
    + destruct Ha as [Ha|(q & Hq & Hqm)]; [by left|right]. exists q. split; [|done]. apply elem_of_app. by left.
  - split_and!; [done| | | |].
    + apply Forall_app. split; [done|]. constructor; [lia|done].
    + rewrite more_copies_app, decide_True by lia. lia.
    + rewrite length_app. simpl. lia.
    + destruct Ha as [Ha|(q & Hq & Hqm)]; [by left|right]. exists q. split; [|done]. apply elem_of_app. by left.
Qed.

Lemma copies_fold l : forall pre acc,
  copies_counted pre acc -> copies_counted (pre ++ l) (fold_left (fun acc p => copies_step p acc) l acc).
Proof.
  induction l as [|p l IH]; intros pre acc H; [by rewrite app_nil_r|]. cbn [fold_left].
  replace (pre ++ p :: l) with ((pre ++ [p]) ++ l) by (by rewrite <- app_assoc). apply IH. by apply copies_step_spec.
Qed.

(** The rarest piece has [m] copies: the integer part; the fraction is how
    many of a thousand pieces have more. *)
Lemma distributed_copies_spec s :
  num_pieces s <> 0 -> (exists p, p ∈ m_piece_map s /\ copies p <= max_peer_count) ->
  exists m, (forall p, p ∈ m_piece_map s -> m <= copies p) /\ (exists p, p ∈ m_piece_map s /\ copies p = m) /\
    distributed_copies s = (m + m_seeds s, more_copies m (m_piece_map s) * 1000 / num_pieces s).
Proof.
  intros Hn (p & Hp & Hcp). unfold distributed_copies. rewrite (proj2 (Z.eqb_neq _ _)) by done.
  pose proof (copies_fold (m_piece_map s) [] (max_peer_count, 0, 0)) as H. simpl in H.
  destruct (fold_left _ (m_piece_map s) _) as [[m i] f]. unfold copies_counted in H.
  destruct H as (Hm & Hl & -> & Hi & Ha); [split_and!; try done; by left|].
  rewrite Forall_forall in Hl. exists m. split_and!; [done| |].
  - destruct Ha as [->|Ha]; [|done]. exists p. split; [done|]. specialize (Hl p Hp). simpl in Hl. lia.
  - f_equal. apply Z.quot_div_nonneg; [unfold more_copies; lia|unfold num_pieces in *; lia].
Qed.
