(* ===== verification/PickerPickSpec.v ===== *)
(** * Which blocks are picked

    The functions [pick_pieces] calls to add the blocks of a piece.  Each is
    total on a picker that satisfies the invariant, and only adds blocks that
    are [pickable]: free blocks of a piece that the peer has, that we do not
    have and that is not filtered. *)

From Stdlib Require Import ZArith Lia.
From stdpp Require Import base numbers list.
From S2P Require Import Prelude Bitfield BitfieldSpec PickerState PickerList PickerOps PickerPick.
From S2P Require Import PickerListSpec PickerDownloadsSpec PickerInvariant PickerFrame PickerStateSpec.
From S2P Require Import PickerBlockSpec PickerPieceSpec PickerQuerySpec.

Section pick.
Context (s : picker) (Hi : invariant s) (pieces : bitfield) (Hbits : bf_loose pieces) (Hsize : bf_size pieces = num_pieces s).
Context (peer_ : Z).

(** ** Pieces and blocks that can be picked *)

(** The peer has the piece, we want it and do not have it. *)
Definition free_piece (x : Z) : Prop :=
  get_bit pieces x = Some true /\ exists p, piece_at x s = Some p /\ have p = false /\ filtered p = false.

Definition pickable (b : piece_block) : Prop :=
  free_piece (piece_index b) /\ 0 <= block_index b < blocks_in_piece (piece_index b) s /\
  state_of (piece_index b) (block_index b) s = state_none.

(** A free piece of which no block was requested. *)
Definition unopened (x : Z) : Prop := free_piece x /\ exists p, piece_at x s = Some p /\ download_state p = piece_open.

Lemma unopened_pickable x j : unopened x -> 0 <= j < blocks_in_piece x s -> pickable (PB x j).
Proof. intros [Hf (p & Hp & Ho)] Hj. split_and!; [done|apply Hj..|]. by apply (state_open s x p). Qed.

Lemma bit_total x : is_Some (piece_at x s) -> exists b, get_bit pieces x = Some b.
Proof.
  intros [p Hp]. apply zget_Some_bound in Hp. unfold num_pieces in Hsize.
  destruct (zget_is_Some (bit_list pieces) x) as [b Hb]; [rewrite (length_bit_list pieces Hbits); lia|].
  exists b. rewrite (get_bit_spec pieces x) by (done || lia). done.
Qed.

Lemma is_piece_free_total x :
  is_Some (piece_at x s) -> exists b, is_piece_free x pieces s = Some b /\ (b = true -> free_piece x).
Proof.
  intros Hp. destruct (bit_total x Hp) as [b Hb]. destruct Hp as [p Hp]. unfold is_piece_free. rewrite Hb. cbn [mbind option_bind].
  destruct b; [|by exists false]. rewrite Hp. cbn [mbind option_bind]. eexists. split; [done|].
  intros [Hh%negb_true_iff Hf%negb_true_iff]%andb_true_iff. split; [done|]. by exists p.
Qed.

Lemma can_pick_total x :
  is_Some (piece_at x s) -> exists b, can_pick x pieces s = Some b /\ (b = true -> unopened x).
Proof.
  intros Hp. destruct (bit_total x Hp) as [b Hb]. destruct Hp as [p Hp]. unfold can_pick. rewrite Hb. cbn [mbind option_bind].
  destruct b; [|by exists false]. rewrite Hp. cbn [mbind option_bind]. eexists. split; [done|].
  intros [[Hh%negb_true_iff Hd%negb_true_iff]%andb_true_iff Hf%negb_true_iff]%andb_true_iff.
  split; [split; [done|by exists p]|]. exists p. split; [done|]. by apply PickerWriteSpec.downloading_open.
Qed.

Lemma too_low_total o x : is_Some (piece_at x s) -> is_Some (too_low o x s).
Proof. intros [p Hp]. unfold too_low, piece_priority. destruct (opt_time_critical_mode o); [rewrite Hp|]; by eexists. Qed.

(** ** The picks so far *)

Context (P : piece_block -> Prop) (HP : forall b, pickable b -> P b).

Definition picks_ok (k : picks) : Prop :=
  Forall P (interesting k) /\ Forall P (backup k) /\ Forall P (backup2 k).

Lemma push_interesting_ok b k : P b -> picks_ok k -> picks_ok (push_interesting b k).
Proof. intros Hb (H1 & H2 & H3). split_and!; [apply Forall_app; split; [done|by constructor]|done|done]. Qed.

Lemma push_backup2_ok b k : P b -> picks_ok k -> picks_ok (push_backup2 b k).
Proof. intros Hb (H1 & H2 & H3). split_and!; [done|done|apply Forall_app; split; [done|by constructor]]. Qed.

Lemma set_num_blocks_ok n k : picks_ok k -> picks_ok (set_num_blocks n k).
Proof. done. Qed.

Lemma set_flag_ok f k : picks_ok k -> picks_ok (set_flag f k).
Proof. done. Qed.

Lemma count_stat_ok c k : picks_ok k -> picks_ok (count_stat c k).
Proof. done. Qed.

Lemma append_ok (l m : list piece_block) n d b n' :
  append_blocks l m n = (d, b, n') -> Forall P l -> Forall P m -> Forall P d /\ Forall P b.
Proof.
  intros H Hl Hm. destruct m as [|x m]; [by injection H as <- <- _|]. unfold append_blocks in H. injection H as <- <- _.
  split; [apply Forall_app; split; [done|by apply Forall_take]|by apply Forall_drop].
Qed.

Lemma append_backup_ok k : picks_ok k -> picks_ok (append_backup k).
Proof.
  intros (H1 & H2 & H3). unfold append_backup. destruct (append_blocks _ _ _) as [[d b] n] eqn:E.
  by destruct (append_ok _ _ _ _ _ _ E H1 H2).
Qed.

Lemma append_backup2_ok k : picks_ok k -> picks_ok (append_backup2 k).
Proof.
  intros (H1 & H2 & H3). unfold append_backup2. destruct (append_blocks _ _ _) as [[d b] n] eqn:E.
  by destruct (append_ok _ _ _ _ _ _ E H1 H3).
Qed.

(** [k'] adds to [k] blocks that satisfy [P], and the number of blocks asked for is not raised. *)
Definition picked (k k' : picks) : Prop := picks_ok k -> picks_ok k' /\ num_blocks k' <= num_blocks k.

Lemma picked_refl k : picked k k.
Proof. by split. Qed.

Lemma picked_trans k1 k2 k3 : picked k1 k2 -> picked k2 k3 -> picked k1 k3.
Proof. intros H1 H2 Hk. destruct (H1 Hk) as [Hk2 ?]. destruct (H2 Hk2) as [? ?]. split; [done|lia]. Qed.

(** ** The blocks of a piece that is being downloaded *)

Definition has_entry (d : downloading_piece) : Prop := exists it bs, on_entry s it d bs.

Lemma entry_block_at d j :
  has_entry d -> 0 <= j < blocks_in_piece (dp_index d) s ->
  exists b, block_at d j s = Some b /\ bstate b = state_of (dp_index d) j s.
Proof.
  intros (it & bs & Hoe) Hj. pose proof (on_entry_length _ _ _ _ Hoe) as Hl. pose proof (blocks_bound s (dp_index d) Hi) as Hb.
  destruct (zget_is_Some bs j) as [b Hbj]; [lia|]. exists b. split.
  - exact (query_runs _ _ _ _ (on_entry_block _ _ _ _ d j b Hoe eq_refl Hbj)).
  - by rewrite (state_of_entry _ _ _ _ j Hoe), Hbj.
Qed.

Lemma requested_loop_total d n : forall j r,
  has_entry d -> 0 <= j -> j + Z.of_nat n <= blocks_in_piece (dp_index d) s ->
  0 <= contiguous_blocks r <= j -> 0 <= first_block r ->
  exists r', requested_loop s d peer_ n j r = Some r' /\
    0 <= contiguous_blocks r' <= j + Z.of_nat n /\ 0 <= first_block r'.
Proof.
  induction n as [|n IH]; intros j r He Hj Hn Hc Hf; [exists r; split; [done|lia]|]. cbn [requested_loop].
  destruct (entry_block_at d j He) as (b & -> & _); [lia|]. cbn [mbind option_bind].
  destruct (IH (j + 1) (requested_step peer_ j b r)) as (r' & -> & ? & ?); [done|lia|lia|..].
  - unfold requested_step. case_decide; [cbn; lia|]. destruct (_ <? _); cbn; lia.
  - unfold requested_step. case_decide; [cbn; lia|]. destruct (_ <? _); cbn; lia.
  - exists r'. split; [done|]. lia.
Qed.

Lemma requested_from_total d :
  has_entry d -> exists e ea mc fb, requested_from s d (blocks_in_piece (dp_index d) s) peer_ = Some (e, ea, mc, fb) /\ 0 <= fb.
Proof.
  intros He. pose proof (blocks_bound s (dp_index d) Hi) as Hb. unfold requested_from.
  destruct (requested_loop_total d (Z.to_nat (blocks_in_piece (dp_index d) s)) 0 (Req true true 0 0 0)) as (r & -> & Hc & Hf);
    [done|lia|lia|cbn; lia|cbn; lia|]. cbn [mbind option_bind].
  destruct (_ <? _); eexists _, _, _, _; (split; [done|lia]).
Qed.

Lemma add_free_blocks_total d n : forall j first prefer k,
  let count := blocks_in_piece (dp_index d) s in
  has_entry d -> free_piece (dp_index d) -> 0 <= j -> 0 <= first ->
  exists r k', add_free_blocks s d n j count first prefer k = Some (r, k') /\ picked k k'.
Proof.
  induction n as [|n IH]; intros j first prefer k count He Hf Hj Hfi; [exists false, k; split; [done|apply picked_refl]|].
  cbn [add_free_blocks].
  pose proof (blocks_bound s (dp_index d) Hi) as Hb. fold count in Hb.
  pose proof (Z.rem_bound_pos (j + first) count ltac:(lia) ltac:(lia)) as Hr.
  destruct (entry_block_at d (Z.rem (j + first) count) He) as (b & -> & Hst); [done|]. cbn [mbind option_bind].
  case_decide as Hne; [apply IH; [done|done|lia|done]|]. cbv zeta.
  set (k1 := set_num_blocks _ (push_interesting _ k)).
  assert (picked k k1) as Hk1.
  { intros Hk. split; [|cbn; lia]. apply set_num_blocks_ok, push_interesting_ok; [|done]. apply HP.
    split_and!; [done|apply Hr..|]. cbn. rewrite <- Hst. by destruct (decide (bstate b = state_none)). }
  destruct (0 <? prefer).
  - destruct (IH (j + 1) first (prefer - 1) k1) as (r & k' & ? & Hp); [done|done|lia|done|].
    exists r, k'. split; [done|]. by eapply picked_trans.
  - destruct (num_blocks k1 <=? 0); [by exists true, k1|].
    destruct (IH (j + 1) first prefer k1) as (r & k' & ? & Hp); [done|done|lia|done|].
    exists r, k'. split; [done|]. by eapply picked_trans.
Qed.

Lemma add_backup_blocks_total d n : forall j first k,
  let count := blocks_in_piece (dp_index d) s in
  has_entry d -> free_piece (dp_index d) -> 0 <= j -> 0 <= first ->
  exists k', add_backup_blocks s d n j count first k = Some k' /\ picked k k'.
Proof.
  induction n as [|n IH]; intros j first k count He Hf Hj Hfi; [exists k; split; [done|apply picked_refl]|].
  cbn [add_backup_blocks]. pose proof (blocks_bound s (dp_index d) Hi) as Hb. fold count in Hb.
  pose proof (Z.rem_bound_pos (j + first) count ltac:(lia) ltac:(lia)) as Hr.
  destruct (entry_block_at d (Z.rem (j + first) count) He) as (b & -> & Hst); [done|]. cbn [mbind option_bind]. cbv zeta.
  set (k1 := if decide _ then k else _).
  assert (picked k k1) as Hk1.
  { unfold k1. case_decide as Hne; [apply picked_refl|]. intros Hk. split; [|cbn; lia]. apply push_backup2_ok; [|done]. apply HP.
    split_and!; [done|apply Hr..|]. cbn. rewrite <- Hst. by destruct (decide (bstate b = state_none)). }
  destruct (IH (j + 1) first k1) as (k' & ? & Hp); [done|done|lia|done|].
  exists k'. split; [done|]. by eapply picked_trans.
Qed.

Lemma add_blocks_downloading_total d prefer o k :
  has_entry d -> is_Some (piece_at (dp_index d) s) -> (get_bit pieces (dp_index d) = Some true -> free_piece (dp_index d)) ->
  0 < num_blocks k ->
  exists k', add_blocks_downloading s d pieces prefer peer_ o k = Some k' /\ picked k k'.
Proof.
  intros He Hp Hf Hn. unfold add_blocks_downloading. destruct (bit_total _ Hp) as [b Hb]. rewrite Hb in *. cbn [mbind option_bind].
  assert (exists k', Some k = Some k' /\ picked k k') as Hsame by (exists k; split; [done|apply picked_refl]).
  destruct b; cbn [negb]; [|done]. specialize (Hf eq_refl). destruct (dp_locked d); [done|].
  destruct (requested_from_total d He) as (e & ea & mc & fb & -> & Hfb). cbn [mbind option_bind]. cbv zeta.
  set (first := if prefer =? 0 then 0 else fb). assert (0 <= first) as Hfi by (unfold first; destruct (prefer =? 0); lia).
  destruct (opt_on_parole o && negb e); [done|]. destruct (_ && _ && _).
  - destruct (_ <=? _); [done|]. apply add_backup_blocks_total; [done|done|lia|done].
  - destruct (add_free_blocks_total d (Z.to_nat (blocks_in_piece (dp_index d) s)) 0 first prefer k) as (r & k1 & -> & Hk1);
      [done|done|lia|done|]. cbn [mbind option_bind]. eexists. split; [done|].
    destruct (Z.leb_spec (num_blocks k1) 0); [|done]. intros Hk. destruct (Hk1 Hk) as [? ?]. split; [done|cbn; lia].
Qed.

(** ** The blocks of a piece no block of which was requested *)

Lemma push_blocks_spec n x : forall j k,
  unopened x -> 0 <= j -> j + Z.of_nat n <= blocks_in_piece x s ->
  picks_ok k -> picks_ok (push_blocks n x j k) /\ num_blocks (push_blocks n x j k) = num_blocks k.
Proof.
  induction n as [|n IH]; intros j k Hx Hj Hn Hk; [done|]. cbn [push_blocks].
  apply (IH (j + 1) (push_interesting (PB x j) k)); [done|lia|lia|]. apply push_interesting_ok; [|done]. apply HP, unopened_pickable; [done|lia].
Qed.

(** The bookkeeping of a loop leaves the picks alone. *)
Definition quiet_mark (f : picks -> picks) : Prop :=
  forall k, (picks_ok k -> picks_ok (f k)) /\ num_blocks (f k) = num_blocks k.

Lemma push_until_spec stop stat n x : forall j prefer k,
  quiet_mark stat -> unopened x -> 0 <= j -> j + Z.of_nat n <= blocks_in_piece x s ->
  exists prefer' k', push_until stop stat n x j prefer k = (prefer', k') /\ picked k k' /\
    num_blocks k' <= num_blocks k - (if decide (n = O) then 0 else 1) /\ prefer - Z.of_nat n <= prefer' <= prefer.
Proof.
  induction n as [|n IH]; intros j prefer k Hst Hx Hj Hn.
  { exists prefer, k. split_and!; [done|apply picked_refl| |lia|lia]. rewrite decide_True by done. lia. }
  cbn [push_until]. cbv zeta. destruct (Hst k) as [Hs1 Hs2].
  set (k1 := set_num_blocks _ (push_interesting _ (stat k))).
  assert (num_blocks k1 = num_blocks k - 1) as Hnum by (unfold k1; cbn; lia).
  assert (picked k k1) as Hk1.
  { intros Hk. split; [|lia]. apply set_num_blocks_ok, push_interesting_ok; [|by apply Hs1].
    apply HP, unopened_pickable; [done|lia]. }
  rewrite decide_False by lia. destruct (stop (prefer - 1) (num_blocks k1)).
  - exists (prefer - 1), k1. split_and!; [done|done|lia..].
  - destruct (IH (j + 1) (prefer - 1) k1) as (p' & k' & -> & Hk' & Hle & Hp'); [done|done|lia|lia|].
    exists p', k'. split_and!; [done|by eapply picked_trans|destruct (decide (n = O)); lia|lia|lia].
Qed.

Lemma push_pieces_spec stop stat flag n : forall i prefer k,
  quiet_mark stat -> quiet_mark flag -> (forall x, i <= x < i + Z.of_nat n -> unopened x) ->
  exists prefer' k', push_pieces stop stat flag s n i prefer k = (prefer', k') /\ picked k k' /\
    num_blocks k' <= num_blocks k - (if decide (n = O) then 0 else 1) /\
    prefer - Z.of_nat n * m_blocks_per_piece s <= prefer' <= prefer.
Proof.
  induction n as [|n IH]; intros i prefer k Hst Hfl Hx.
  { exists prefer, k. split_and!; [done|apply picked_refl| |lia|lia]. rewrite decide_True by done. lia. }
  cbn [push_pieces]. pose proof (blocks_bound s i Hi) as Hb. destruct (Hfl k) as [Hf1 Hf2].
  destruct (push_until_spec stop stat (Z.to_nat (blocks_in_piece i s)) i 0 prefer (flag k)) as (p1 & k1 & -> & Hk1 & Hle1 & Hp1);
    [done|apply Hx; lia|lia|lia|]. rewrite decide_False in Hle1 by lia.
  destruct (IH (i + 1) p1 k1) as (p2 & k2 & -> & Hk2 & Hle2 & Hp2); [done|done|intros x Hxx; apply Hx; lia|].
  exists p2, k2. split_and!; [done| |rewrite decide_False by lia; destruct (decide (n = O)); lia|lia|lia].
  eapply picked_trans; [|exact Hk2]. intros Hk. destruct (Hk1 (Hf1 Hk)) as [? ?]. split; [done|lia].
Qed.

Lemma expand_down_total fuel : forall lower start,
  0 <= lower <= start -> start < num_pieces s -> start - lower < Z.of_nat fuel ->
  exists a, expand_down fuel s pieces lower start = Some a /\ lower <= a <= start /\ (forall x, a <= x < start -> unopened x).
Proof.
  induction fuel as [|fuel IH]; intros lower start Hl Hs Hf; [lia|]. cbn [expand_down].
  assert (exists a, Some start = Some a /\ lower <= a <= start /\ (forall x, a <= x < start -> unopened x)) as Hstop
    by (exists start; split_and!; [done|lia|lia|lia]).
  destruct (Z.leb_spec lower (start - 1)); [|done].
  destruct (can_pick_total (start - 1)) as (b & -> & Hb); [apply zget_is_Some; unfold num_pieces in *; lia|].
  cbn [mbind option_bind]. destruct b; [|done].
  destruct (IH lower (start - 1)) as (a & Ha & Hr & Hx); [lia|lia|lia|]. exists a. split_and!; [done|lia|lia|].
  intros x Hxr. destruct (decide (x = start - 1)) as [->|]; [by apply Hb|apply Hx; lia].
Qed.

Lemma expand_up_total fuel : forall upper e,
  0 <= e -> upper <= num_pieces s -> upper - e < Z.of_nat fuel -> 0 < Z.of_nat fuel ->
  exists b, expand_up fuel s pieces upper e = Some b /\ e <= b <= Z.max e upper /\ (forall x, e <= x < b -> unopened x).
Proof.
  induction fuel as [|fuel IH]; intros upper e He Hu Hf H0; [lia|]. cbn [expand_up].
  assert (exists b, Some e = Some b /\ e <= b <= Z.max e upper /\ (forall x, e <= x < b -> unopened x)) as Hstop
    by (exists e; split_and!; [done|lia|lia|lia]).
  destruct (Z.ltb_spec e upper); [|done].
  destruct (can_pick_total e) as (c & -> & Hc); [apply zget_is_Some; unfold num_pieces in *; lia|].
  cbn [mbind option_bind]. destruct c; [|done].
  destruct (IH upper (e + 1)) as (b & Hb & Hr & Hx); [lia|lia|lia|lia|]. exists b. split_and!; [done|lia|lia|].
  intros x Hxr. destruct (decide (x = e)) as [->|]; [by apply Hc|apply Hx; lia].
Qed.

(** The division by the number of whole pieces is only done when pieces are
    aligned: with a negative count of contiguous blocks it can be by zero. *)
Record expandable (o : options) (prefer : Z) : Prop := {
  ex_aligned : opt_align_expanded_pieces o = true -> 0 <= prefer;
  ex_low : - m_blocks_per_piece s <= prefer;
  ex_high : prefer + m_blocks_per_piece s + num_pieces s < 2 ^ 31;
}.

(** The counts of blocks to keep together a caller may ask for: sums with
    them are values of [int]. *)
Definition prefer_ok (prefer : Z) : Prop := 0 <= prefer /\ prefer + m_blocks_per_piece s + num_pieces s < 2 ^ 31.

Lemma prefer_expandable o prefer : prefer_ok prefer -> expandable o prefer.
Proof. intros [H1 H2]. pose proof (bpp_bound _ Hi). by split; [|lia|]. Qed.

(** The number of whole pieces. *)
Lemma whole_bounds c b : 0 < b -> - b <= c ->
  -1 <= Z.quot (c + b - 1) b /\ Z.quot (c + b - 1) b <= Z.max 0 (c + b - 1) /\
  (0 < c -> 1 <= Z.quot (c + b - 1) b /\ Z.quot (c + b - 1) b * b < c + b).
Proof.
  intros Hb Hc. destruct (Z.leb_spec 0 (c + b - 1)) as [Hr|Hr].
  - rewrite Z.quot_div_nonneg by lia. pose proof (Z.mul_div_le (c + b - 1) b Hb).
    pose proof (Z.div_pos (c + b - 1) b Hr Hb). split_and!; [lia|nia|]. intros Hc1. split; [|lia]. apply Z.div_le_lower_bound; lia.
  - assert (c + b - 1 = -1) as -> by lia. destruct (decide (b = 1)) as [->|]; [replace (Z.quot (-1) 1) with (-1) by done; lia|].
    assert (Z.quot (-1) b = 0) as -> by (apply Z.quot_small_iff; lia). lia.
Qed.

Lemma expand_piece_total x contiguous o :
  unopened x -> expandable o contiguous ->
  exists a b, expand_piece s x contiguous pieces o = Some (a, b) /\ 0 <= a <= x /\ x < b <= num_pieces s /\
    (forall y, a <= y < b -> unopened y) /\
    (opt_align_expanded_pieces o = false -> 0 < contiguous -> (b - a) * m_blocks_per_piece s < contiguous + m_blocks_per_piece s).
Proof.
  intros Hx [He Hlo Hhi]. pose proof Hx as [_ (p & Hp & _)]. apply zget_Some_bound in Hp. fold (num_pieces s) in Hp.
  unfold expand_piece. destruct (Z.eqb_spec contiguous 0) as [H0|H0].
  { exists x, (x + 1). split_and!; [done|lia|lia|lia|lia| |lia]. intros y Hy. by assert (y = x) as -> by lia. }
  destruct (in_downloads _ Hi) as [n Hs]. pose proof (ds_bpp _ _ Hs) as Hb. rewrite (proj2 (Z.eqb_neq _ _)) by lia.
  cbv zeta. set (bpp := m_blocks_per_piece s) in *. rewrite is_int_true by lia. set (whole := Z.quot (contiguous + bpp - 1) bpp).
  assert (-1 <= whole /\ whole < 2 ^ 31 - num_pieces s /\ (0 < contiguous -> 1 <= whole /\ whole * bpp < contiguous + bpp)) as (Hw1 & Hw2 & Hw3).
  { unfold whole. pose proof (whole_bounds contiguous bpp ltac:(lia) Hlo) as (W1 & W2 & W3). split_and!; [done|lia|done]. }
  assert (opt_align_expanded_pieces o = true -> 0 < whole) as Hw.
  { intros Ha. specialize (He Ha). unfold whole. rewrite Z.quot_div_nonneg by lia. apply Z.div_str_pos. lia. }
  set (lower := if opt_align_expanded_pieces o then _ else Z.max 0 (x - whole + 1)).
  assert (negb true || (opt_align_expanded_pieces o && (whole =? 0)) = false) as ->.
  { destruct (opt_align_expanded_pieces o); [|done]. specialize (Hw eq_refl). simpl. lia. }
  assert (0 <= lower <= x \/ lower = x - whole + 1 /\ x < lower) as Hlow.
  { unfold lower. destruct (opt_align_expanded_pieces o).
    - left. specialize (Hw eq_refl). pose proof (Z.rem_bound_pos x whole ltac:(lia) Hw). pose proof (Z.rem_le x whole ltac:(lia) Hw). lia.
    - lia. }
  assert (exists a, expand_down (S (length (m_piece_map s))) s pieces lower x = Some a /\ 0 <= a <= x /\
    (opt_align_expanded_pieces o = false -> 1 <= whole -> x - whole + 1 <= a) /\ forall y, a <= y < x -> unopened y) as (a & -> & Ha & Haw & Hay).
  { destruct Hlow as [Hlow|[_ Hlow]].
    - destruct (expand_down_total (S (length (m_piece_map s))) lower x) as (a & ? & ? & ?); [lia|lia|unfold num_pieces in *; lia|].
      exists a. split_and!; [done|lia|lia| |done]. intros Hal Hw1'. unfold lower in *. rewrite Hal in *. lia.
    - exists x. cbn [expand_down]. rewrite (proj2 (Z.leb_gt _ _)) by lia. split_and!; [done|lia|lia|lia|lia]. }
  cbn [mbind option_bind]. rewrite (is_int_true (_ + whole)) by (destruct (opt_align_expanded_pieces o); lia). cbn [negb].
  set (upper := Z.min (num_pieces s) _).
  destruct (expand_up_total (S (length (m_piece_map s))) upper (x + 1)) as (b & -> & Hb' & Hby); [lia|unfold upper; lia| |lia|].
  { unfold upper, num_pieces. lia. }
  cbn [mbind option_bind]. exists a, b. split_and!; [done|lia|lia|lia|unfold upper in Hb'; lia| |].
  2:{ intros Hal Hc. destruct (Hw3 Hc) as [Hw4 Hw5]. specialize (Haw Hal Hw4). unfold upper in Hb'. rewrite Hal in Hb'. assert (b - a <= whole) by lia. nia. }
  intros y Hy. destruct (decide (y < x)); [apply Hay; lia|]. destruct (decide (y = x)) as [->|]; [done|apply Hby; lia].
Qed.

(** ** The blocks of a piece *)

Lemma entry_found x p :
  piece_at x s = Some p -> download_queue p = piece_downloading ->
  exists it d, find_dl_piece piece_downloading x s = Some it /\ dl_deref it s = Some d /\ has_entry d /\ dp_index d = x.
Proof.
  intros Hp Hq. assert (download_state p <> piece_open) as Ho by (intros H; by rewrite (proj2 (queue_open p) H) in Hq).
  destruct (entry_of s x p Hi Hp Ho) as (it & d & bs & Hr & _ & Hoe & Hd & _). rewrite Hq in Hr. apply query_runs in Hr.
  pose proof (query_runs _ _ _ _ (on_entry_deref _ _ _ _ Hoe)) as Hdd.
  exists it, d. split_and!; [done..|by exists it, bs|done].
Qed.

Lemma id_quiet : quiet_mark id.
Proof. done. Qed.

Lemma add_blocks_total x prefer ignore o k :
  free_piece x -> expandable o prefer -> 0 < num_blocks k ->
  exists k', add_blocks s x pieces prefer peer_ ignore o k = Some k' /\ picked k k'.
Proof.
  intros Hf He Hn. pose proof Hf as [Hbit (p & Hp & Hh & Hfil)]. unfold add_blocks.
  assert (exists k', Some k = Some k' /\ picked k k') as Hsame by (exists k; split; [done|apply picked_refl]).
  case_bool_decide; [done|]. rewrite Hp. cbn [mbind option_bind].
  destruct (decide (download_queue p = piece_downloading)) as [Hq|Hq].
  { destruct (opt_prioritize_partials o); [done|].
    destruct (entry_found x p Hp Hq) as (it & d & -> & Hd & Hed & Hx). cbn [mbind option_bind]. rewrite Hd. cbn [mbind option_bind].
    subst x. apply add_blocks_downloading_total; [done|by eexists|done|done]. }
  destruct (decide (download_queue p = piece_open)) as [Ho|Ho]; [|done].
  assert (unopened x) as Hx by (split; [done|]; exists p; split; [done|by apply queue_open]).
  pose proof (blocks_bound s x Hi) as Hb. destruct (Z.eqb_spec prefer 0) as [_|H0].
  - eexists. split; [done|]. intros Hk. cbv zeta. set (n := Z.min _ _).
    destruct (push_blocks_spec (Z.to_nat n) x 0 k Hx) as [Hk' Hn']; [lia|lia|done|].
    split; [by apply set_num_blocks_ok|]. cbn [num_blocks set_num_blocks]. rewrite Hn'. lia.
  - destruct (expand_piece_total x prefer o Hx He) as (a & b & -> & Ha & Hb' & Hy & _). cbn [mbind option_bind].
    destruct (push_pieces_spec (fun prefer num => (prefer =? 0) && (num <=? 0)) id id (Z.to_nat (b - a)) a prefer k)
      as (p' & k' & -> & Hk' & Hle & _); [apply id_quiet..|intros y Hyr; apply Hy; lia|].
    eexists. split; [done|]. intros Hk. destruct (Hk' Hk) as [Hok ?]. split; [by apply set_num_blocks_ok|].
    cbn [num_blocks set_num_blocks]. lia.
Qed.

(** ** The loops over pieces *)

Definition phase_ok (r : phase) : Prop :=
  match r with Done k => picks_ok k | Cont k => picks_ok k /\ 0 < num_blocks k end.

(** The phase [f] returns, and its picks are right. *)
Definition phased (f : option phase) : Prop := exists r, f = Some r /\ phase_ok r.

Lemma phased_ret k : picks_ok k -> 0 < num_blocks k -> phased (Some (Cont k)).
Proof. by eexists. Qed.

Lemma phased_bind (f : option phase) (g : picks -> option phase) :
  phased f -> (forall k, picks_ok k -> 0 < num_blocks k -> phased (g k)) ->
  phased (r ← f; match r with Done k => Some (Done k) | Cont k => g k end).
Proof.
  intros (r & -> & Hr) Hg. cbn [mbind option_bind]. destruct r as [k|k]; [by exists (Done k)|]. destruct Hr. by apply Hg.
Qed.

Lemma return_phase k : picks_ok k -> phase_ok (return_if_filled k).
Proof. intros Hk. unfold return_if_filled. destruct (Z.leb_spec (num_blocks k) 0); [done|by split]. Qed.

Lemma pick_one_total flag o prefer ignore x k :
  is_Some (piece_at x s) -> expandable o prefer -> picks_ok k -> 0 < num_blocks k ->
  phased (pick_one s pieces peer_ flag o prefer ignore x k).
Proof.
  intros Hx He Hk Hn. unfold pick_one. destruct (is_piece_free_total x Hx) as (b & -> & Hb). cbn [mbind option_bind].
  destruct b; cbn [negb]; [|by apply phased_ret].
  destruct (add_blocks_total x prefer ignore o (set_flag flag k)) as (k' & -> & Hk'); [by apply Hb|done|done|].
  cbn [mbind option_bind]. eexists. split; [done|]. apply return_phase. by apply Hk'.
Qed.

(** The pieces a loop is given exist. *)
Definition present (l : list Z) : Prop := Forall (fun x => is_Some (piece_at x s)) l.

Lemma piece_priority_total x : is_Some (piece_at x s) -> is_Some (piece_priority x s).
Proof. intros [p Hp]. unfold piece_priority. rewrite Hp. by eexists. Qed.

Lemma pick_suggested_total o prefer l : forall k,
  present l -> expandable o prefer -> picks_ok k -> 0 < num_blocks k -> phased (pick_suggested s pieces peer_ o prefer l k).
Proof.
  induction l as [|x l IH]; intros k Hl He Hk Hn; [by apply phased_ret|]. apply Forall_cons in Hl as [Hx Hl]. cbn [pick_suggested].
  destruct (too_low_total o x Hx) as [low ->]. cbn [mbind option_bind]. destruct low; [by apply IH|].
  apply phased_bind; [by apply pick_one_total|]. intros k' Hk' Hn'. by apply IH.
Qed.

Context (suggested : list Z).

Lemma pick_top_total flag o prefer l : forall k,
  present l -> expandable o prefer -> picks_ok k -> 0 < num_blocks k ->
  phased (pick_top s pieces peer_ suggested flag o prefer l k).
Proof.
  induction l as [|x l IH]; intros k Hl He Hk Hn; [by apply phased_ret|]. apply Forall_cons in Hl as [Hx Hl]. cbn [pick_top].
  destruct (piece_priority_total x Hx) as [p ->]. cbn [mbind option_bind]. destruct (p =? priority_levels - 1); cbn [negb]; [|by apply phased_ret].
  apply phased_bind; [by apply pick_one_total|]. intros k' Hk' Hn'. by apply IH.
Qed.

Lemma pick_rarest_total o prefer l : forall k,
  present l -> expandable o prefer -> picks_ok k -> 0 < num_blocks k ->
  phased (pick_rarest s pieces peer_ suggested o prefer l k).
Proof.
  induction l as [|x l IH]; intros k Hl He Hk Hn; [by apply phased_ret|]. apply Forall_cons in Hl as [Hx Hl]. cbn [pick_rarest].
  destruct (too_low_total o x Hx) as [low ->]. cbn [mbind option_bind]. cbv zeta. destruct low; [by apply phased_ret|].
  apply phased_bind; [by apply pick_one_total|]. intros k' Hk' Hn'. by apply IH.
Qed.

Lemma pick_sequence_total flag o prefer stride n : forall i k,
  (forall t, 0 <= t < Z.of_nat n -> 0 <= i + t * stride < num_pieces s) ->
  expandable o prefer -> picks_ok k -> 0 < num_blocks k ->
  phased (pick_sequence s pieces peer_ suggested flag o prefer n i stride k).
Proof.
  induction n as [|n IH]; intros i k Hr He Hk Hn; [by apply phased_ret|]. cbn [pick_sequence]. cbv zeta.
  assert (is_Some (piece_at i s)) as Hx by (apply zget_is_Some; pose proof (Hr 0 ltac:(lia)); unfold num_pieces in *; lia).
  assert (forall t, 0 <= t < Z.of_nat n -> 0 <= i + stride + t * stride < num_pieces s) as Hr'.
  { intros t Ht. specialize (Hr (t + 1) ltac:(lia)). nia. }
  destruct (is_piece_free_total i Hx) as (b & Hb & _). destruct (piece_priority_total i Hx) as [q Hq].
  rewrite Hb. cbn [mbind option_bind].
  assert (exists q', (if (b : bool) then piece_priority i s else Some 0) = Some q') as [q' Hq'] by (destruct b; eauto).
  rewrite Hq'. cbn [mbind option_bind]. destruct (negb b || (q' =? priority_levels - 1)); [by apply IH|].
  apply phased_bind; [by apply pick_one_total|]. intros k' Hk' Hn'. by apply IH.
Qed.

Lemma pick_bucket_total o prefer n : forall p k,
  present (m_pieces s) -> 0 <= p - Z.of_nat n + 1 -> p < zlen (m_pieces s) -> expandable o prefer ->
  picks_ok k -> 0 < num_blocks k -> phased (pick_bucket_reverse s pieces peer_ suggested o prefer n p k).
Proof.
  induction n as [|n IH]; intros p k Hl H0 Hp He Hk Hn; [by apply phased_ret|]. cbn [pick_bucket_reverse].
  destruct (zget_is_Some (m_pieces s) p) as [x Hx]; [lia|]. rewrite Hx. cbn [mbind option_bind].
  assert (is_Some (piece_at x s)) as Hpx.
  { unfold present in Hl. rewrite Forall_forall in Hl. apply Hl. by eapply zget_elem. }
  apply phased_bind; [by apply pick_one_total|]. intros k' Hk' Hn'. apply IH; done || lia.
Qed.

Lemma bounds_at bk : forall a i, 0 <= i < zlen bk -> exists e, zget (bounds a bk) i = Some e /\ a <= e <= a + zlen (concat bk).
Proof.
  induction bk as [|b bk IH]; intros a i Hi0; [simpl in Hi0; lia|]. cbn [bounds concat]. rewrite length_app.
  destruct (decide (i = 0)) as [->|Hne]; [exists (a + zlen b); split; [by apply zget_cons_0|lia]|].
  destruct (IH (a + zlen b) (i - 1)) as (e & He & ?); [simpl in Hi0; lia|]. exists e. split; [|lia].
  replace i with (i - 1 + 1) by lia. by rewrite zget_cons_S by lia.
Qed.

Lemma pick_reverse_total o prefer bk n : forall i k,
  listed s bk -> present (m_pieces s) -> i = Z.of_nat n - 1 -> i < zlen bk -> expandable o prefer ->
  picks_ok k -> 0 < num_blocks k -> phased (pick_reverse s pieces peer_ suggested o prefer n i k).
Proof.
  induction n as [|n IH]; intros i k Hls Hl Hin Hib He Hk Hn; [by apply phased_ret|]. cbn [pick_reverse].
  pose proof Hls as [[Hm Hb _ _] _]. rewrite Hb.
  destruct (bounds_at bk 0 i) as (e & Hee & ?); [lia|].
  assert (exists st, (if i =? 0 then Some 0 else zget (bounds 0 bk) (i - 1)) = Some st /\ 0 <= st) as (st & -> & Hst).
  { destruct (Z.eqb_spec i 0); [by exists 0|]. destruct (bounds_at bk 0 (i - 1)) as (st & ? & ?); [lia|]. exists st. split; [done|lia]. }
  cbn [mbind option_bind]. rewrite Hee. cbn [mbind option_bind]. rewrite <- Hm in *.
  destruct (decide (e <= st)).
  { replace (Z.to_nat (e - st)) with 0%nat by lia. cbn [pick_bucket_reverse mbind option_bind]. apply IH; done || lia. }
  apply phased_bind; [apply pick_bucket_total; done || lia|]. intros k' Hk' Hn'. apply IH; done || lia.
Qed.

(** The partial pieces. *)
Definition partial_ok (d : downloading_piece) : Prop := has_entry d /\ free_piece (dp_index d).

Lemma eligible_total o l : forall k,
  Forall (fun d => has_entry d /\ is_Some (piece_at (dp_index d) s)) l -> picks_ok k ->
  exists l' k', eligible_partials s pieces o l k = Some (l', k') /\ Forall partial_ok l' /\ picks_ok k' /\
    num_blocks k' = num_blocks k.
Proof.
  induction l as [|d l IH]; intros k Hl Hk; [by exists [], k|]. apply Forall_cons in Hl as [[He Hp] Hl]. cbn [eligible_partials].
  cbv zeta. destruct (too_low_total o _ Hp) as [low ->]. cbn [mbind option_bind].
  destruct (is_piece_free_total _ Hp) as (b & Hb & Hf).
  destruct (IH (count_stat partial_loops k) Hl Hk) as (l' & k' & Hr & Hl' & Hk' & Hn').
  destruct low; cbn [mbind option_bind]; [|rewrite Hb; cbn [mbind option_bind]]; rewrite Hr; cbn [mbind option_bind].
  - exists l', k'. by split_and!.
  - destruct b; [|by exists l', k'; split_and!]. exists (d :: l'), k'. split_and!; [done| |done|done].
    constructor; [|done]. split; [done|by apply Hf].
Qed.

Lemma pick_partials_total o prefer l : forall k,
  Forall partial_ok l -> picks_ok k -> 0 < num_blocks k -> phased (pick_partials s pieces peer_ o prefer l k).
Proof.
  induction l as [|d l IH]; intros k Hl Hk Hn; [by apply phased_ret|]. apply Forall_cons in Hl as [[He Hf] Hl]. cbn [pick_partials].
  destruct (add_blocks_downloading_total d prefer o (set_flag f_prioritize_partials k)) as (k' & -> & Hk');
    [done|by destruct Hf as [_ (p & Hp & _)]; eexists|done|done|].
  cbn [mbind option_bind]. destruct (Hk' Hk) as [Hok _]. destruct (Z.leb_spec (num_blocks k') 0); [by exists (Done k')|].
  destruct (_ && _); [by apply phased_ret|by apply IH].
Qed.

(** ** The loop that starts at a random piece *)

(** How many pieces are left before the search is back at [start]. *)
Definition gap (start p : Z) : Z := (start - 1 - p) mod num_pieces s.

Lemma gap_bound start p : 0 <= p < num_pieces s -> 0 <= gap start p < num_pieces s.
Proof. intros Hp. apply Z.mod_pos_bound. lia. Qed.

Lemma gap_next start p :
  0 <= start < num_pieces s -> 0 <= p < num_pieces s ->
  let p' := if p + 1 =? num_pieces s then 0 else p + 1 in
  0 <= p' < num_pieces s /\ (p' <> start -> gap start p' = gap start p - 1).
Proof.
  intros Hs Hp p'. unfold gap. set (n := num_pieces s) in *.
  pose proof (Z.mod_pos_bound (start - 1 - p) n ltac:(lia)) as Hb.
  assert (0 <= p' < n) as Hp' by (unfold p'; destruct (Z.eqb_spec (p + 1) n); lia). split_and!; [lia|lia|].
  intros Hne. assert ((start - 1 - p') mod n = (start - 2 - p) mod n) as ->.
  { unfold p'. destruct (Z.eqb_spec (p + 1) n); [|f_equal; lia]. rewrite <- (Z_mod_plus_full (start - 2 - p) 1 n). f_equal. lia. }
  assert (start - 1 - p <> 0 /\ start - 1 - p <> - n) as [H0 H1].
  { unfold p' in Hne. destruct (Z.eqb_spec (p + 1) n); lia. }
  destruct (Z.ltb_spec (start - 1 - p) 0).
  - rewrite <- (Z_mod_plus_full (start - 1 - p) 1 n), <- (Z_mod_plus_full (start - 2 - p) 1 n), !Z.mod_small by lia. lia.
  - rewrite !Z.mod_small by lia. lia.
Qed.

Lemma next_random_total start fuel : forall p k,
  0 <= start < num_pieces s -> 0 <= p < num_pieces s -> gap start p < Z.of_nat fuel -> picks_ok k ->
  exists found k', next_random s pieces suggested fuel start p k = Some (found, k') /\ picks_ok k' /\
    num_blocks k' = num_blocks k /\
    match found with
    | None => True
    | Some q => 0 <= q < num_pieces s /\ free_piece q /\ gap start q <= gap start p
    end.
Proof.
  induction fuel as [|fuel IH]; intros p k Hs Hp Hg Hk; [pose proof (gap_bound start p Hp); lia|]. cbn [next_random].
  destruct (is_piece_free_total p) as (b & -> & Hb); [apply zget_is_Some; unfold num_pieces in *; lia|]. cbn [mbind option_bind].
  destruct (negb b || bool_decide (p ∈ suggested)) eqn:E.
  - cbv zeta. destruct (gap_next start p Hs Hp) as (Hp' & Hne). pose proof (gap_bound start p Hp) as Hgp.
    set (p' := if p + 1 =? num_pieces s then 0 else p + 1) in *.
    destruct (Z.eqb_spec p' start) as [He|He]; [by eexists None, _|].
    destruct (IH p' (count_stat rand_start_loops k)) as (f & k' & Hr & Hk' & Hn' & Hf); [done|done|rewrite (Hne He); lia|done|].
    exists f, k'. split_and!; [done|done|done|]. destruct f as [q|]; [|done]. destruct Hf as (? & ? & ?). rewrite (Hne He) in *.
    split_and!; [lia|lia|done|lia].
  - apply orb_false_iff in E as [Eb%negb_false_iff _]. exists (Some p), k. split_and!; [done|done|done|lia|lia|by apply Hb|lia].
Qed.

Lemma count_stat_quiet c : quiet_mark (count_stat c).
Proof. done. Qed.

Lemma set_flag_quiet f : quiet_mark (set_flag f).
Proof. done. Qed.

(** One round: the blocks of the piece [q] are added, and the search goes on
    behind it. *)
Lemma random_round o q prefer k :
  opt_align_expanded_pieces o = false -> expandable o prefer -> 0 <= q < num_pieces s -> free_piece q -> picks_ok k -> 0 < num_blocks k ->
  exists q' prefer' k',
    (p ← piece_at q s;
     if (1 <? prefer) && negb (downloading p) then
       '(start, end_) ← expand_piece s q prefer pieces o;
       let '(prefer, k) :=
         push_pieces (fun prefer num => (prefer <=? 0) && (num <=? 0)) (count_stat rand_loops) (set_flag f_random_pieces) s
           (Z.to_nat (end_ - start)) start prefer k in
       Some (end_, prefer, k)
     else
       k ← add_blocks s q pieces prefer peer_ [] o (set_flag f_random_pieces k);
       Some (q + 1, prefer, k)) = Some (q', prefer', k') /\
    picks_ok k' /\ q < q' <= num_pieces s /\ num_blocks k' <= num_blocks k /\ (q' = q + 1 \/ num_blocks k' < num_blocks k) /\
    expandable o prefer'.
Proof.
  intros Ha He Hq Hf Hk Hn. pose proof Hf as [_ (p & Hp & _)].
  rewrite Hp. cbn [mbind option_bind]. destruct ((1 <? prefer) && negb (downloading p)) eqn:E.
  - apply andb_true_iff in E as [Hp1 Hd%negb_true_iff]. assert (unopened q) as Hu.
    { split; [done|]. exists p. split; [done|]. by apply PickerWriteSpec.downloading_open. }
    destruct (expand_piece_total q prefer o Hu He) as (a & b & -> & Hra & Hrb & Hy & Hlen). specialize (Hlen Ha ltac:(lia)). cbn [mbind option_bind].
    destruct (push_pieces_spec (fun prefer num => (prefer <=? 0) && (num <=? 0)) (count_stat rand_loops) (set_flag f_random_pieces)
      (Z.to_nat (b - a)) a prefer k) as (p' & k' & -> & Hk' & Hle & Hp'); [done|done|intros y Hyr; apply Hy; lia|].
    rewrite decide_False in Hle by lia. destruct (Hk' Hk) as [Hok _].
    exists b, p', k'. split_and!; [done|done|lia|lia|lia|right; lia|]. destruct He. split; [congruence|lia|lia].
  - destruct (add_blocks_total q prefer [] o (set_flag f_random_pieces k)) as (k' & -> & Hk'); [done|done|done|].
    cbn [mbind option_bind]. destruct (Hk' Hk) as [Hok Hle]. exists (q + 1), prefer, k'. cbn in Hle. split_and!; [done|done|lia|lia|done|by left|done].
Qed.

Lemma pick_random_total o start fuel : forall p prefer k,
  opt_align_expanded_pieces o = false -> expandable o prefer -> 0 <= start < num_pieces s -> 0 <= p < num_pieces s ->
  Z.max 0 (num_blocks k) * num_pieces s + gap start p < Z.of_nat fuel -> picks_ok k ->
  exists k', pick_random s pieces peer_ suggested fuel o start p prefer k = Some k' /\ picks_ok k'.
Proof.
  induction fuel as [|fuel IH]; intros p prefer k Ha He Hs Hp Hg Hk; [pose proof (gap_bound start p Hp); nia|]. cbn [pick_random].
  destruct (Z.leb_spec (num_blocks k) 0) as [|Hn]; [by exists k|].
  pose proof (gap_bound start p Hp) as Hgp.
  destruct (next_random_total start (S (length (m_piece_map s))) p k) as (f & k1 & -> & Hk1 & Hn1 & Hf);
    [done|done|unfold num_pieces in *; lia|done|]. cbn [mbind option_bind]. destruct f as [q|]; [|by exists k1].
  destruct Hf as (Hq & Hfq & Hgq).
  destruct (random_round o q prefer k1) as (q' & prefer' & k2 & Hround & Hk2 & Hq' & Hle & Hor & He2); [done|done|done|done|done|lia|].
  destruct (piece_at q s) as [pp|] eqn:Hpp; [|done]. cbn [mbind option_bind] in Hround |- *. rewrite Hround. cbn [mbind option_bind].
  cbv zeta. destruct (gap_next start q Hs Hq) as (_ & Hnext). pose proof (gap_bound start q Hq) as Hgq'.
  set (q2 := if q' =? num_pieces s then 0 else q').
  assert (0 <= q2 < num_pieces s) as Hq2 by (unfold q2; destruct (Z.eqb_spec q' (num_pieces s)); lia).
  destruct (Z.eqb_spec q2 start) as [Hst|Hst]; [by exists k2|].
  apply IH; [done|done|done|done| |done]. pose proof (gap_bound start q2 Hq2) as Hgq2.
  destruct Hor as [->|Hlt]; [|nia]. unfold q2 in *. rewrite (Hnext Hst). nia.
Qed.

(** ** The end game *)

(** A block that is requested from another peer. *)
Definition busy (b : piece_block) : Prop :=
  get_bit pieces (piece_index b) = Some true /\ 0 <= block_index b < blocks_in_piece (piece_index b) s /\
  exists d bi, entry_at (piece_index b) s = Some d /\ block_at d (block_index b) s = Some bi /\
    bstate bi = state_requested /\ peer bi <> peer_.

Lemma busy_partials_total o l : forall size,
  Forall (fun d => has_entry d /\ is_Some (piece_at (dp_index d) s)) l ->
  exists l', busy_partials s pieces o l size = Some l' /\
    Forall (fun d => has_entry d /\ is_Some (piece_at (dp_index d) s) /\ get_bit pieces (dp_index d) = Some true) l'.
Proof.
  induction l as [|d l IH]; intros size Hl; [by exists []|]. apply Forall_cons in Hl as [[He Hp] Hl]. cbn [busy_partials].
  destruct size as [|size]; [by exists []|]. destruct (bit_total _ Hp) as [b Hb]. destruct (too_low_total o _ Hp) as [low Hlow].
  rewrite Hb. cbn [mbind option_bind].
  assert (exists w, (if (b : bool) then too_low o (dp_index d) s else Some true) = Some w) as [w Hw] by (destruct b; eauto).
  rewrite Hw. cbn [mbind option_bind]. destruct w; [by apply IH|].
  destruct (IH size Hl) as (l' & -> & Hl'). cbn [mbind option_bind]. exists (d :: l'). split; [done|].
  constructor; [|done]. split_and!; [done|done|]. destruct b; [done|]. by injection Hw.
Qed.

Lemma busy_blocks_total d n : forall j,
  has_entry d -> is_Some (piece_at (dp_index d) s) -> get_bit pieces (dp_index d) = Some true ->
  0 <= j -> j + Z.of_nat n <= blocks_in_piece (dp_index d) s ->
  exists l, busy_blocks s peer_ d n j = Some l /\ Forall busy l.
Proof.
  induction n as [|n IH]; intros j He Hp Hb Hj Hn; [by exists []|]. cbn [busy_blocks].
  destruct (entry_block_at d j He) as (b & Hbj & _); [lia|]. rewrite Hbj. cbn [mbind option_bind].
  destruct (IH (j + 1)) as (l & -> & Hl); [done|done|done|lia|lia|]. cbn [mbind option_bind]. eexists. split; [done|].
  destruct (bool_decide (bstate b = state_requested)) eqn:E; [|done]. apply bool_decide_eq_true in E.
  destruct (Z.eqb_spec (peer b) peer_); [done|]. constructor; [|done]. split_and!; [done|cbn; lia|cbn; lia|].
  exists d, b. destruct He as (it & bs & Hoe). split_and!; [by apply (entry_in s it d bs)|done..].
Qed.
End pick.
