(* ===== verification/PickerPickRun.v ===== *)
(** * [pick_pieces]

    [pick_pieces] runs on every picker that satisfies the invariant: the phases
    one after the other, the pick list rebuilt between them when it is dirty.
    The blocks it adds are pickable, but for the one of the end game, which is
    requested from another peer. *)

From Stdlib Require Import ZArith Lia.
From stdpp Require Import base numbers list.
From S2P Require Import Prelude Bitfield BitfieldSpec PickerState PickerList PickerOps PickerPick.
From S2P Require Import PickerListSpec PickerUpdateSpec PickerDownloadsSpec PickerInvariant.
From S2P Require Import PickerRebuildSpec PickerFrame PickerStateSpec PickerBlockSpec PickerHaveSpec.
From S2P Require Import PickerPieceSpec PickerQuerySpec PickerPickSpec.

(** ** What the picks depend on *)

(** The pick list may have been rebuilt and random numbers drawn. *)
Definition content (s : picker) := (m_downloads s, m_block_info s, m_blocks_per_piece s, m_blocks_in_last_piece s).

Record settled (s s' : picker) : Prop := {
  se_pieces : Forall2 same_piece (m_piece_map s) (m_piece_map s');
  se_content : content s' = content s;
  se_invariant : invariant s';
  se_counters : (counters s', m_free_block_infos s') = (counters s, m_free_block_infos s);
}.

Lemma settled_refl s : invariant s -> settled s s.
Proof. intros Hi. by split. Qed.

Lemma settled_trans s1 s2 s3 : settled s1 s2 -> settled s2 s3 -> settled s1 s3.
Proof. intros [A B C D] [E F G H]. split; [by transitivity (m_piece_map s2)|congruence|done|congruence]. Qed.

Lemma settled_num s s' : settled s s' -> num_pieces s' = num_pieces s.
Proof. intros [H _ _]. unfold num_pieces. by rewrite (Forall2_length _ _ _ H). Qed.

Lemma settled_blocks s s' x : settled s s' -> blocks_in_piece x s' = blocks_in_piece x s.
Proof. intros Hs. unfold blocks_in_piece. rewrite (settled_num _ _ Hs). by destruct Hs as [_ [= _ _ -> ->] _]. Qed.

Lemma settled_state s s' x j : settled s s' -> state_of x j s' = state_of x j s.
Proof. intros [_ [= H1 H2 H3 _] _]. unfold state_of, entry_at, slice. by rewrite H1, H2, H3. Qed.

Lemma settled_piece s s' x p' : settled s s' -> piece_at x s' = Some p' -> exists p, piece_at x s = Some p /\ same_piece p p'.
Proof.
  intros [Hl _ _] Hp. unfold piece_at, zget in *. case_decide; [|done].
  destruct (Forall2_lookup_r _ _ _ _ _ Hl Hp) as (p & ? & ?). eauto.
Qed.

Lemma settled_present s s' l : settled s s' -> present s l -> present s' l.
Proof.
  intros Hs Hl. pose proof (settled_num _ _ Hs) as Hn. eapply Forall_impl; [exact Hl|]. intros x [p Hp]. apply zget_is_Some.
  apply zget_Some_bound in Hp. unfold num_pieces in Hn. lia.
Qed.

Lemma settled_pickable s s' pieces b : settled s s' -> pickable s' pieces b -> pickable s pieces b.
Proof.
  intros Hs ([Hb (p' & Hp' & Hh & Hf)] & Hj & Hst). destruct (settled_piece _ _ _ _ Hs Hp') as (p & Hp & _ & _ & Hpr & Hhh).
  split_and!; [split; [done|]; exists p; unfold filtered in *; rewrite <- Hpr, <- Hhh; done|apply Hj| |].
  - rewrite <- (settled_blocks _ _ _ Hs). apply Hj.
  - by rewrite <- (settled_state _ _ _ _ Hs).
Qed.

Lemma settled_busy s s' pieces peer_ b : settled s s' -> busy s' pieces peer_ b -> busy s pieces peer_ b.
Proof.
  intros Hs (Hb & Hj & d & bi & Hd & Hbi & ?). rewrite (settled_blocks _ _ _ Hs) in Hj. destruct Hs as [_ [= H1 H2 H3 _] _].
  split_and!; [done|apply Hj..|]. exists d, bi. unfold entry_at, block_at in *. rewrite H1 in Hd. rewrite H2, H3 in Hbi. done.
Qed.

Lemma moved_settled s s' : invariant s -> moved s s' -> invariant s' -> settled s s'.
Proof. intros Hi [Hm Hr] Hi'. split; [done| |done|]; by rewrite Hr. Qed.

Lemma rng_settled s n : invariant s -> settled s (set_rng n s).
Proof.
  intros Hi. split; [done|done| |done]. destruct Hi as [I1 I2 I3 I4 I5 I6 I7]. split; try done; [by destruct I1; split| |].
  - intros Hd. destruct (I2 Hd) as [bk [[H1 H2 H3 H4] H5]]. exists bk. by split; [split|].
  - destruct I5 as [m Hs]. exists m. by destruct Hs; split.
Qed.

Lemma listed_present s bk : listed s bk -> present s (m_pieces s).
Proof.
  intros [Hs _]. apply Forall_forall. intros x Hx. destruct (shaped_valid s bk x Hs Hx) as (p & Hp & _). by eexists.
Qed.

(** The pieces being downloaded have entries. *)
Lemma entries_in s st l :
  invariant s -> downloads_of st s = Some l ->
  Forall (fun d => has_entry s d /\ is_Some (piece_at (dp_index d) s)) l.
Proof.
  intros Hi Hl. apply Forall_forall. intros d Hd. assert (in_queue s st d) as Hq by (by exists l).
  destruct (in_downloads _ Hi) as [n Hs]. pose proof (ds_index _ _ Hs) as Hx. rewrite Forall_forall in Hx.
  split; [|apply zget_is_Some, Hx; by eapply in_queue_concat].
  destruct (find_on_entry s st d (slice s d) (in_downloads _ Hi)) as (it & _ & _ & Hoe); [apply Hi|by split_and!|by eexists it, _].
Qed.

Section random.
Context (random_values : nat -> Z).
Context (sort : (downloading_piece -> downloading_piece -> bool) -> list downloading_piece -> list downloading_piece).
(** [std::sort] permutes the range it is given. *)
Context (Hsort : forall f l, sort f l ≡ₚ l).

Lemma update_pieces_settled s :
  invariant s -> exists s', runs (update_pieces random_values) s tt s' /\ m_dirty s' = false /\ settled s s' /\
    moved (set_m_dirty false s) s' /\ forall x, priority_of x s' = priority_of x s.
Proof.
  intros Hi. destruct (update_pieces_spec random_values s Hi) as (s' & Hr & Hi' & Hd & _).
  destruct (update_pieces_run random_values s (in_typed _ Hi)) as (s1 & bk & Hr1 & Hm & _).
  destruct (runs_func _ _ _ _ _ _ Hr Hr1) as [_ ->]. exists (set_m_dirty false s1). split_and!; [done|done|split; [| |done|]| |].
  - by destruct Hm.
  - by destruct Hm as [_ ->].
  - by destruct Hm as [_ ->].
  - destruct Hm as [Hm Hrest]. split; [exact Hm|]. by rewrite Hrest.
  - intros x. exact (moved_priority _ _ x Hm).
Qed.

Lemma clean_pieces_spec s :
  invariant s -> exists s', runs (clean_pieces random_values) s tt s' /\ settled s s' /\ exists bk, listed s' bk.
Proof.
  intros Hi. unfold clean_pieces. destruct (m_dirty s) eqn:Hd.
  - destruct (update_pieces_settled s Hi) as (s' & Hr & Hd' & Hs & _). exists s'. split_and!; [|done|by apply (in_list _ (se_invariant _ _ Hs))].
    eapply runs_bind; [apply runs_gets|]. rewrite Hd. exact Hr.
  - exists s. split_and!; [|by apply settled_refl|by apply (in_list _ Hi)].
    eapply runs_bind; [apply runs_gets|]. rewrite Hd. apply runs_ret.
Qed.

(** ** The phases *)

Section phases.
Context (s0 : picker) (Hi0 : invariant s0) (pieces : bitfield) (Hbits : bf_loose pieces) (Hsize : bf_size pieces = num_pieces s0).
Context (peer_ : Z) (P : piece_block -> Prop) (HP : forall b, pickable s0 pieces b -> P b).

Lemma settled_size s : settled s0 s -> bf_size pieces = num_pieces s.
Proof. intros Hs. by rewrite (settled_num _ _ Hs). Qed.

Lemma settled_P s : settled s0 s -> forall b, pickable s pieces b -> P b.
Proof. intros Hs b Hb. by eapply HP, settled_pickable. Qed.

(** A phase, as an operation: it leaves the picker settled. *)
Definition phased_op (m : M phase) (s : picker) : Prop :=
  exists r s', runs m s r s' /\ settled s0 s' /\ phase_ok P r.

Lemma phased_query s f : settled s0 s -> phased P (f s) -> phased_op (query f) s.
Proof. intros Hs (r & Hr & Hok). exists r, s. split_and!; [by apply runs_query|done|done]. Qed.

Lemma phased_then (m : M phase) (g : picks -> M phase) s :
  phased_op m s -> (forall k s', settled s0 s' -> picks_ok P k -> 0 < num_blocks k -> phased_op (g k) s') ->
  phased_op (r ← m; match r with Done k => mret (Done k) | Cont k => g k end) s.
Proof.
  intros (r & s1 & Hr & Hs1 & Hok) Hg. destruct r as [k|k].
  - exists (Done k), s1. split_and!; [by step Hr|done|done].
  - destruct Hok as [Hk Hn]. destruct (Hg k s1 Hs1 Hk Hn) as (r & s2 & Hr2 & ? & ?).
    exists r, s2. split_and!; [by step Hr|done|done].
Qed.

Lemma phased_clean (m : M phase) s :
  settled s0 s -> (forall s' bk, settled s0 s' -> listed s' bk -> phased_op m s') -> phased_op (_ ← clean_pieces random_values; m) s.
Proof.
  intros Hs Hm. destruct (clean_pieces_spec s (se_invariant _ _ Hs)) as (s1 & Hr & Hs1 & bk & Hl).
  destruct (Hm s1 bk (settled_trans _ _ _ Hs Hs1) Hl) as (r & s2 & Hr2 & ? & ?). exists r, s2. split_and!; [by step Hr|done|done].
Qed.

Lemma partials_phase o prefer s k :
  settled s0 s -> picks_ok P k -> 0 < num_blocks k ->
  exists r, runs (pick_from_partials sort o pieces prefer peer_ k) s r s /\ phase_ok P r.
Proof.
  intros Hs Hk Hn. pose proof (se_invariant _ _ Hs) as Hi. pose proof (settled_size s Hs) as Hsz. pose proof (settled_P s Hs) as HPs.
  destruct (in_downloads _ Hi) as [n Hd]. pose proof (ds_four _ _ Hd) as H4.
  destruct (lookup_lt_is_Some_2 (m_downloads s) 0) as [l Hl]; [lia|].
  destruct (eligible_total s pieces Hbits Hsz P o l k) as (l1 & k1 & He & Hl1 & Hk1 & Hn1); [by apply (entries_in s piece_downloading)|done|].
  set (l2 := if opt_rarest_first o then sort (fun a b => match partial_compare_rarest_first s a b with Some r => r | None => false end) l1 else l1).
  set (k2 := if opt_rarest_first o then set_flag f_rarest_first_partials k1 else k1).
  assert (Forall (partial_ok s pieces) l2) as Hl2.
  { unfold l2. destruct (opt_rarest_first o); [|done]. by rewrite Hsort. }
  assert (picks_ok P k2 /\ 0 < num_blocks k2) as [Hk2 Hn2] by (unfold k2; destruct (opt_rarest_first o); split; done || (cbn; lia)).
  destruct (pick_partials_total s Hi pieces Hbits Hsz peer_ P HPs o prefer l2 k2) as (r & Hr & Hok); [done..|].
  assert (forall v t, runs (match r with Done k => mret (Done k) | Cont k => let k := append_backup k in
      if num_blocks k <=? 0 then mret (Done k) else mret (return_if_filled (append_backup2 k)) end) s v t ->
    runs (pick_from_partials sort o pieces prefer peer_ k) s v t) as Hrun.
  { intros v t H. unfold pick_from_partials. step (runs_query (downloads_of piece_downloading) s l Hl). step (runs_query (fun s => eligible_partials s pieces o l k) s _ He).
    eapply runs_bind; [apply runs_gets|]. cbv beta.
    assert ((if opt_rarest_first o then (sort (fun a b => match partial_compare_rarest_first s a b with Some r => r | None => false end) l1,
      set_flag f_rarest_first_partials k1) else (l1, k1)) = (l2, k2)) as -> by (unfold l2, k2; by destruct (opt_rarest_first o)).
    step (runs_query (fun s => pick_partials s pieces peer_ o prefer l2 k2) s r Hr). exact H. }
  destruct r as [k3|k3]; [exists (Done k3); split; [by apply Hrun|done]|]. destruct Hok as [Hk3 Hn3].
  pose proof (append_backup_ok P _ Hk3) as Hk4. cbv zeta in Hrun. destruct (Z.leb_spec (num_blocks (append_backup k3)) 0).
  - exists (Done (append_backup k3)). split; [by apply Hrun|done].
  - exists (return_if_filled (append_backup2 (append_backup k3))). split; [by apply Hrun|].
    by apply return_phase, append_backup2_ok.
Qed.

(** The orders in which the pieces can be tried: only one of them rebuilds the
    pick list when it has to, and the random one divides by the number of
    pieces. *)
Definition order_ok (o : options) : Prop :=
  opt_sequential o = true \/ opt_rarest_first o = true \/
  (if opt_time_critical_mode o then m_dirty s0 = false
   else opt_align_expanded_pieces o = false /\ 0 < num_pieces s0).

(** The room that the counts of blocks to keep together need does not change. *)
Lemma settled_expandable s o prefer : settled s0 s -> prefer_ok s0 prefer -> expandable s o prefer.
Proof.
  intros Hs Hp. apply prefer_expandable; [apply Hs|]. unfold prefer_ok. rewrite (settled_num _ _ Hs).
  by destruct Hs as [_ [= _ _ -> _] _].
Qed.

Definition phase_picks (r : phase) : picks := match r with Done k | Cont k => k end.

Lemma phased_picks m s : phased_op m s -> exists r s', runs m s r s' /\ settled s0 s' /\ picks_ok P (phase_picks r).
Proof. intros (r & s' & Hr & Hs & Hok). exists r, s'. split_and!; [done|done|]. destruct r; [done|by destruct Hok]. Qed.

Lemma order_phase o prefer suggested k :
  order_ok o -> prefer_ok s0 prefer -> picks_ok P k -> 0 < num_blocks k ->
  exists r s', runs (pick_by_order random_values o pieces prefer peer_ suggested k) s0 r s' /\ settled s0 s' /\ picks_ok P (phase_picks r).
Proof.
  intros Ho Hp Hk Hn. pose proof (fun s Hs => settled_expandable s o prefer Hs Hp) as He. unfold pick_by_order.
  pose proof (settled_refl s0 Hi0) as H0. destruct (opt_sequential o) eqn:Eseq.
  { apply phased_picks, phased_clean; [done|]. intros s bk Hs Hl. pose proof (se_invariant _ _ Hs) as Hi. pose proof (settled_size s Hs) as Hsz.
    pose proof (settled_P s Hs) as HPs. pose proof (listed_present _ _ Hl) as Hpr. pose proof (He s Hs) as Hes.
    apply phased_then; [apply phased_query; [done|by apply pick_top_total]|]. intros k1 s1 Hs1 Hk1 Hn1.
    destruct (opt_time_critical_mode o); [exists (Cont k1), s1; by split_and!; [apply runs_ret|..]|].
    pose proof (se_invariant _ _ Hs1) as Hi1. pose proof (settled_size s1 Hs1) as Hsz1. pose proof (settled_P s1 Hs1) as HPs1. pose proof (He s1 Hs1) as Hes1.
    apply phased_query; [done|]. destruct (in_cursors _ Hi1) as [(F1 & F2 & F3) (L1 & L2 & L3)].
    destruct (opt_reverse o); apply pick_sequence_total; try done; intros t Ht; unfold num_pieces in *; lia. }
  destruct Ho as [Ho|Ho]; [congruence|]. destruct (opt_rarest_first o) eqn:Er.
  { apply phased_picks, phased_clean; [done|]. intros s bk Hs Hl. pose proof (se_invariant _ _ Hs) as Hi. pose proof (settled_size s Hs) as Hsz.
    pose proof (settled_P s Hs) as HPs. pose proof (listed_present _ _ Hl) as Hpr. pose proof (He s Hs) as Hes. apply phased_query; [done|].
    destruct (_ && _); [|by apply pick_rarest_total]. pose proof Hl as [[_ Hb _ _] _].
    eapply pick_reverse_total; try done; rewrite Hb, length_bounds; lia. }
  destruct Ho as [Ho|Ho]; [congruence|]. destruct (opt_time_critical_mode o).
  - destruct (in_list _ Hi0 Ho) as [bk Hl]. apply phased_picks, phased_query; [done|]. apply pick_top_total; auto. by eapply listed_present.
  - destruct Ho as [Ha Hnum]. destruct (runs_randint random_values (num_pieces s0) s0) as (r & Hr & Hrr);
      [pose proof (ty_num _ (in_typed _ Hi0)); unfold we_have_index in *; lia|].
    set (s1 := set_rng (S (rng s0)) s0) in *. pose proof (rng_settled s0 (S (rng s0)) Hi0) as Hs1. fold s1 in Hs1.
    pose proof (gap_bound s0 r r ltac:(lia)) as Hg.
    destruct (pick_random_total s1 (se_invariant _ _ Hs1) pieces Hbits (settled_size s1 Hs1) peer_ P (settled_P s1 Hs1) suggested o r
      (Z.to_nat ((num_blocks k + 1) * (num_pieces s0 + 1))) r prefer k) as (k' & Hk' & Hok); auto; try done.
    { change (gap s1 r r) with (gap s0 r r). change (num_pieces s1) with (num_pieces s0). nia. }
    exists (Cont k'), s1. split_and!; [|done|done]. eapply runs_bind; [apply runs_gets|]. step Hrr.
    step (runs_query (fun s => pick_random s pieces peer_ suggested (Z.to_nat ((num_blocks k + 1) * (num_pieces s0 + 1))) o r r prefer k)
      s1 k' Hk'). apply runs_ret.
Qed.

(** ** The end game *)

Definition partial_busy (s : picker) (d : downloading_piece) : Prop :=
  has_entry s d /\ is_Some (piece_at (dp_index d) s) /\ get_bit pieces (dp_index d) = Some true.

Lemma settled_partial s s' d : settled s s' -> partial_busy s d -> partial_busy s' d.
Proof.
  intros Hs ((it & bs & [_ Hpt Hsl]) & Hp & Hb). pose proof (settled_num _ _ Hs) as Hn. split_and!; [| |done].
  - exists it, bs. pose proof Hs as [_ [= H1 H2 H3 _] Hi]. split; [apply Hi| |].
    + unfold points_at, downloads_of in *. by rewrite H1.
    + unfold slice in *. by rewrite H2, H3.
  - destruct Hp as [p Hp]. apply zget_is_Some. apply zget_Some_bound in Hp. unfold num_pieces in Hn. lia.
Qed.

Lemma drop_partial_spec l i :
  0 <= i < zlen l -> exists l', drop_partial l i = Some l' /\ S (length l') = length l /\ forall d, d ∈ l' -> d ∈ l.
Proof.
  intros Hi. unfold drop_partial. destruct (zget_is_Some l (zlen l - 1)) as [d Hd]; [lia|]. rewrite Hd. cbn [mbind option_bind].
  unfold zset. rewrite decide_True by lia. cbn [mbind option_bind]. eexists. split_and!; [done| |].
  - rewrite length_take, length_insert. lia.
  - intros e He. apply elem_of_take in He as (n & He & _). apply list_lookup_insert_Some in He as [(_ & -> & _)|[_ He]].
    + by eapply zget_elem.
    + by eapply list_elem_of_lookup_2.
Qed.

Lemma busy_blocks_length s d n : forall j l, busy_blocks s peer_ d n j = Some l -> (length l <= n)%nat.
Proof.
  induction n as [|n IH]; intros j l H; [by injection H as <-|]. cbn [busy_blocks] in H.
  destruct (block_at d j s); [|done]. cbn [mbind option_bind] in H. destruct (busy_blocks s peer_ d n (j + 1)) as [l'|] eqn:E; [|done].
  cbn [mbind option_bind] in H. specialize (IH _ _ E). destruct (_ && _); injection H as <-; simpl; lia.
Qed.

Definition end_ok (b : piece_block) : Prop := P b \/ busy s0 pieces peer_ b.

Lemma end_game_spec fuel : forall s l k,
  settled s0 s -> Forall (partial_busy s) l -> (length l < fuel)%nat -> zlen l < 2 ^ 32 -> Forall P (interesting k) ->
  exists k' s', runs (end_game random_values fuel peer_ l k) s k' s' /\ settled s0 s' /\ Forall end_ok (interesting k').
Proof.
  induction fuel as [|fuel IH]; intros s l k Hs Hl Hf Hz Hk; [lia|]. cbn [end_game].
  assert (Forall end_ok (interesting k)) as Hok by (eapply Forall_impl; [exact Hk|]; by left).
  destruct l as [|d0 l]; [exists k, s; split_and!; [apply runs_ret|done|done]|]. set (L := d0 :: l) in *. cbv zeta.
  destruct (runs_randint random_values (zlen L) s) as (i & Hir & Hri); [unfold L in *; simpl in *; lia|].
  set (s1 := set_rng (S (rng s)) s) in *. assert (settled s0 s1) as Hs1.
  { eapply settled_trans; [exact Hs|]. apply rng_settled, Hs. }
  pose proof (se_invariant _ _ Hs1) as Hi1. destruct (zget_is_Some L i Hir) as [d Hd].
  assert (settled s s1) as Hss1 by (apply rng_settled, Hs).
  assert (Forall (partial_busy s1) L) as Hl1 by (eapply Forall_impl; [exact Hl|]; intros e; by apply settled_partial).
  assert (partial_busy s1 d) as (He & Hp & Hb) by (rewrite Forall_forall in Hl1; by eapply Hl1, zget_elem).
  pose proof (blocks_bound s1 (dp_index d) Hi1) as Hbb.
  destruct (busy_blocks_total s1 Hi1 pieces peer_ d (Z.to_nat (blocks_in_piece (dp_index d) s1)) 0) as (temp & Ht & Hbusy);
    [done|done|done|lia|lia|].
  assert (forall v t, runs (match temp with
    | _ :: _ => r ← randint random_values (zlen temp); b ← lift (zget temp r);
        let k := push_interesting b (set_flag f_end_game (count_stat busy_loops k)) in mret (set_num_blocks (num_blocks k - 1) k)
    | [] => partials ← lift (drop_partial L i); end_game random_values fuel peer_ partials (count_stat busy_loops k)
    end) s1 v t -> runs (piece ← randint random_values (zlen L);
      d ← lift (zget L piece); n ← gets (blocks_in_piece (dp_index d));
      temp ← query (fun s => busy_blocks s peer_ d (Z.to_nat n) 0);
      match temp with
      | _ :: _ => r ← randint random_values (zlen temp); b ← lift (zget temp r);
          let k := push_interesting b (set_flag f_end_game (count_stat busy_loops k)) in mret (set_num_blocks (num_blocks k - 1) k)
      | [] => partials ← lift (drop_partial L piece); end_game random_values fuel peer_ partials (count_stat busy_loops k)
      end) s v t) as Hrun.
  { intros v t H. step Hri. step (runs_lift _ s1 d Hd). eapply runs_bind; [apply runs_gets|]. cbv beta.
    step (runs_query (fun s => busy_blocks s peer_ d (Z.to_nat (blocks_in_piece (dp_index d) s1)) 0) s1 temp Ht). exact H. }
  destruct temp as [|b0 temp].
  - destruct (drop_partial_spec L i Hir) as (l' & Hd' & Hlen & Hsub).
    destruct (IH s1 l' (count_stat busy_loops k)) as (k' & s' & Hr & ? & ?); [done| |lia|lia|done|].
    + apply Forall_forall. intros e Hel%Hsub. rewrite Forall_forall in Hl1. by apply Hl1.
    + exists k', s'. split_and!; [|done|done]. apply Hrun. step (runs_lift _ s1 l' Hd'). exact Hr.
  - destruct (runs_randint random_values (zlen (b0 :: temp)) s1) as (r & Hrr & Hrun2).
    { pose proof (busy_blocks_length s1 d _ 0 _ Ht) as Hlen. destruct (in_downloads _ Hi1) as [m Hsh].
      pose proof (ds_bpp _ _ Hsh). simpl in *. lia. }
    destruct (zget_is_Some (b0 :: temp) r Hrr) as [b Hbr].
    set (k1 := push_interesting b (set_flag f_end_game (count_stat busy_loops k))).
    exists (set_num_blocks (num_blocks k1 - 1) k1), (set_rng (S (rng s1)) s1). split_and!.
    + apply Hrun. step Hrun2. step (runs_lift _ (set_rng (S (rng s1)) s1) b Hbr). apply runs_ret.
    + eapply settled_trans; [exact Hs1|]. by apply rng_settled.
    + cbn. apply Forall_app. split; [done|]. constructor; [|done]. right. eapply settled_busy; [exact Hs1|].
      rewrite Forall_forall in Hbusy. by eapply Hbusy, zget_elem.
Qed.

Lemma busy_partials_length s o l : forall n l', busy_partials s pieces o l n = Some l' -> (length l' <= n)%nat.
Proof.
  induction l as [|d l IH]; intros n l' H; [injection H as <-; simpl; lia|]. cbn [busy_partials] in H.
  destruct n as [|n]; [by injection H as <-|]. destruct (get_bit pieces (dp_index d)) as [b|]; [|done]. cbn [mbind option_bind] in H.
  destruct (if (b : bool) then too_low o (dp_index d) s else Some true) as [w|]; [|done]. cbn [mbind option_bind] in H.
  destruct w; [by apply IH|]. destruct (busy_partials s pieces o l n) as [r|] eqn:E; [|done]. cbn [mbind option_bind] in H.
  injection H as <-. specialize (IH _ _ E). simpl. lia.
Qed.

Lemma end_ok_picks k : picks_ok P k -> Forall end_ok (interesting k).
Proof. intros [H _]. eapply Forall_impl; [exact H|]. by left. Qed.

(** An operation that ends with picks that are right. *)
Definition ends (m : M picks) (s : picker) : Prop :=
  exists k' s', runs m s k' s' /\ settled s0 s' /\ Forall end_ok (interesting k').

Lemma ends_ret k s : settled s0 s -> picks_ok P k -> ends (mret k) s.
Proof. intros Hs Hk. exists k, s. split_and!; [apply runs_ret|done|by apply end_ok_picks]. Qed.

Lemma rest_phase o s k : settled s0 s -> picks_ok P k -> ends (pick_rest random_values o pieces peer_ k) s.
Proof.
  intros Hs Hk. unfold pick_rest. destruct (num_blocks k <=? 0); [by apply ends_ret|]. cbv zeta.
  assert (picks_ok P (append_backup (set_flag f_backup1 k))) as Hk1 by (by apply append_backup_ok).
  set (k1 := append_backup _) in *. destruct (num_blocks k1 <=? 0); [by apply ends_ret|].
  assert (picks_ok P (append_backup2 (set_flag f_backup2 k1))) as Hk2 by (by apply append_backup2_ok).
  set (k2 := append_backup2 _) in *. destruct (num_blocks k2 <=? 0); [by apply ends_ret|].
  destruct (opt_on_parole o); [by apply ends_ret|]. pose proof (se_invariant _ _ Hs) as Hi.
  destruct (in_downloads _ Hi) as [n Hd]. pose proof (ds_four _ _ Hd) as H4.
  destruct (lookup_lt_is_Some_2 (m_downloads s) 0) as [partial Hp]; [lia|].
  destruct (lookup_lt_is_Some_2 (m_downloads s) 1) as [full Hf]; [lia|].
  set (size := Z.min 200 (zlen partial + zlen full)).
  assert (forall v t, runs (if size =? 0 then mret k2 else
      l ← query (fun s => busy_partials s pieces o full (Z.to_nat size)); end_game random_values (S (length l)) peer_ l k2) s v t ->
    runs (partial ← query (downloads_of piece_downloading); full ← query (downloads_of piece_full);
      let partials_size := Z.min 200 (zlen partial + zlen full) in
      if partials_size =? 0 then mret k2 else
      l ← query (fun s => busy_partials s pieces o full (Z.to_nat partials_size)); end_game random_values (S (length l)) peer_ l k2) s v t) as Hrun.
  { intros v t H. step (runs_query (downloads_of piece_downloading) s _ Hp). step (runs_query (downloads_of piece_full) s _ Hf). exact H. }
  destruct (size =? 0).
  { exists k2, s. split_and!; [by apply Hrun|done|by apply end_ok_picks]. }
  destruct (busy_partials_total s pieces Hbits (settled_size s Hs) o full (Z.to_nat size)) as (l & Hl & Hok);
    [by apply (entries_in s piece_full)|]. pose proof (busy_partials_length s o full _ _ Hl) as Hlen.
  destruct (end_game_spec (S (length l)) s l k2) as (k' & s' & Hr & ? & ?); [done|exact Hok|lia|lia|apply Hk2|].
  exists k', s'. split_and!; [|done|done]. apply Hrun.
  step (runs_query (fun s => busy_partials s pieces o full (Z.to_nat size)) s l Hl). exact Hr.
Qed.
End phases.

(** ** [pick_pieces] *)

(** The options after the test of the partial pieces. *)
Lemma order_prioritize s o : order_ok s o -> order_ok s (with_prioritize_partials o).
Proof. done. Qed.

(** The phases in their order. *)
Lemma phases_run s pieces P peer_ o prefer suggested k :
  invariant s -> bf_loose pieces -> bf_size pieces = num_pieces s -> (forall b, pickable s pieces b -> P b) ->
  order_ok s o -> prefer_ok s prefer -> present s suggested -> picks_ok P k -> 0 < num_blocks k ->
  ends s pieces peer_ P (
    r ← (if opt_prioritize_partials o then pick_from_partials sort o pieces prefer peer_ k else mret (Cont k));
    match r with
    | Done k => mret k
    | Cont k =>
        r ← query (fun s => pick_suggested s pieces peer_ o prefer suggested k);
        match r with
        | Done k => mret k
        | Cont k =>
            r ← pick_by_order random_values o pieces prefer peer_ suggested k;
            match r with
            | Done k => mret k
            | Cont k => pick_rest random_values o pieces peer_ k
            end
        end
    end) s.
Proof.
  intros Hi Hb Hsz HP Ho Hp Hsu Hk Hn. pose proof (settled_refl s Hi) as H0.
  assert (exists r, runs (if opt_prioritize_partials o then pick_from_partials sort o pieces prefer peer_ k else mret (Cont k)) s r s /\
    phase_ok P r) as (r & Hr & Hok).
  { destruct (opt_prioritize_partials o); [by apply (partials_phase s)|]. exists (Cont k). split; [apply runs_ret|done]. }
  destruct r as [k1|k1].
  { exists k1, s. split_and!; [by step Hr|done|by apply end_ok_picks]. }
  destruct Hok as [Hk1 Hn1]. destruct (pick_suggested_total s Hi pieces Hb Hsz peer_ P HP o prefer suggested k1) as (r & Hr2 & Hok);
    [done|by apply prefer_expandable|done|done|].
  pose proof (runs_query (fun s => pick_suggested s pieces peer_ o prefer suggested k1) s r Hr2) as Hr2'.
  destruct r as [k2|k2].
  { exists k2, s. split_and!; [step Hr; by step Hr2'|done|by apply end_ok_picks]. }
  destruct Hok as [Hk2 Hn2].
  destruct (order_phase s Hi pieces Hb Hsz peer_ P HP o prefer suggested k2 Ho Hp Hk2 Hn2) as (r & s1 & Hr3 & Hs1 & Hok).
  destruct r as [k3|k3]; cbn [phase_picks] in Hok.
  { exists k3, s1. split_and!; [step Hr; step Hr2'; by step Hr3|done|by apply end_ok_picks]. }
  destruct (rest_phase s pieces Hb Hsz peer_ P o s1 k3 Hs1 Hok) as (k4 & s2 & Hr4 & ? & ?).
  exists k4, s2. split_and!; [step Hr; step Hr2'; by step Hr3|done|done].
Qed.

(** The two products [pick_pieces] compares are values of [int]. *)
Definition partials_ok (s : picker) (num_peers : Z) : Prop :=
  - 2 ^ 31 <= num_peers * 3 < 2 ^ 31 /\
  forall l, downloads_of piece_downloading s = Some l ->
    - 2 ^ 31 <= (zlen l - m_num_pad_files s) * m_blocks_per_piece s < 2 ^ 31.

Lemma many_partials_total s num_peers l :
  partials_ok s num_peers -> downloads_of piece_downloading s = Some l ->
  is_Some (many_partials num_peers (zlen l - m_num_pad_files s) (m_blocks_per_piece s)).
Proof.
  intros [Hn Hl] H. unfold many_partials. rewrite (is_int_true _ Hn), (is_int_true _ (Hl l H)). simpl. case_match; by eexists.
Qed.

(** The picks of [pick_pieces]: the blocks it was given, and new ones that are
    pickable or, in the end game, busy. *)
Lemma pick_pieces_spec s pieces interesting_blocks n prefer peer_ o suggested num_peers :
  invariant s -> bf_loose pieces -> bf_size pieces = num_pieces s -> order_ok s o -> prefer_ok s prefer ->
  present s suggested -> 0 < n -> partials_ok s num_peers ->
  exists k s', runs (pick_pieces random_values sort pieces interesting_blocks n prefer peer_ o suggested num_peers) s k s' /\
    settled s s' /\
    Forall (fun b => b ∈ interesting_blocks \/ pickable s pieces b \/ busy s pieces peer_ b) (interesting k).
Proof.
  intros Hi Hb Hsz Ho Hp Hsu Hn Hpp. set (P := fun b => b ∈ interesting_blocks \/ pickable s pieces b).
  destruct (in_downloads _ Hi) as [m Hd]. pose proof (ds_four _ _ Hd) as H4.
  destruct (lookup_lt_is_Some_2 (m_downloads s) 0) as [partial Hl]; [lia|].
  destruct (many_partials_total s num_peers partial Hpp Hl) as [many Hmany].
  set (o1 := if many then with_prioritize_partials o else o). set (prefer1 := if many then 0 else prefer).
  set (k0 := let k := Picks interesting_blocks [] [] n 0 [] in let k := if many then set_flag f_partial_ratio k else k in
             if prefer1 =? 0 then k else set_flag f_prefer_contiguous k).
  assert (picks_ok P k0 /\ num_blocks k0 = n) as [Hk0 Hn0].
  { assert (picks_ok P (Picks interesting_blocks [] [] n 0 [])) as H.
    { split_and!; [|done|done]. apply Forall_forall. by left. }
    unfold k0. cbv zeta. by destruct many, (prefer1 =? 0). }
  destruct (phases_run s pieces P peer_ o1 prefer1 suggested k0) as (k & s' & Hr & Hs & Hok); try done.
  { by right. }
  { unfold o1. by destruct many. }
  { unfold prefer1. destruct many; [|done]. unfold prefer_ok in *. lia. }
  { lia. }
  exists k, s'. split_and!; [|done|].
  - unfold pick_pieces. step (runs_query (downloads_of piece_downloading) s _ Hl). eapply runs_bind; [apply runs_gets|]. cbv beta.
    eapply runs_bind; [apply runs_gets|]. cbv beta zeta. step (runs_lift _ s many Hmany). exact Hr.
  - eapply Forall_impl; [exact Hok|]. intros b [[?|?]|?]; tauto.
Qed.
End random.
