(* ===== verification/PickerTheorems.v ===== *)
(** * What the piece picker promises

    The properties of [piece_picker]: what its operations do to a picker that
    its owner can reach, what it picks, what its queries answer, and the order
    of its pick list; at the end, two runs that leave the invariant.  First a picker to try them on.

    Six pieces of four blocks, the last one of two, some of them announced by
    peers, one being downloaded: the state the witnesses of the picker's
    properties use, reached by operations that were enabled when they ran. *)

From Stdlib Require Import ZArith Lia.
From stdpp Require Import base numbers sorting list.
From S2P Require Import Prelude Bitfield BitfieldSpec BitfieldRefine PickerState PickerList PickerOps.
From S2P Require Import PickerPick PickerQuery PickerListSpec PickerUpdateSpec PickerDownloadsSpec.
From S2P Require Import PickerInvariant PickerFrame PickerBlockSpec PickerHaveSpec PickerWriteSpec.
From S2P Require Import PickerFinishSpec PickerRefcountSpec PickerPieceSpec PickerCheckSpec PickerMachine.
From S2P Require Import PickerReach PickerQuerySpec PickerPickSpec PickerPickRun.

(** The values of [random()]. *)
Definition sample_random (n : nat) : Z := Z.of_nat n * 7919 + 13.

(** The picker after an operation that is enabled. *)
Definition after (o : op) (s : picker) : picker :=
  match exec sample_random o s with Some (_, s') => s' | None => s end.

Lemma reach_after o s : reachable sample_random s -> enabled o s -> reachable sample_random (after o s).
Proof.
  intros Hs He. pose proof (reachable_reached _ _ Hs) as Hr. destruct (re_view _ Hr) as (v & _ & Hv).
  destruct (reached_step sample_random o s v Hr Hv He) as (r & s' & _ & Hrun & _).
  eapply reach_step; [exact Hs|exact He|]. unfold after. rewrite Hrun. exact Hrun.
Qed.

Definition new_torrent : picker := init 4 2 6 new_picker.

(** Pieces 0, 3 and 5 have peers, and the pick list was built. *)
Definition announced : picker :=
  after UpdatePieces (after (IncRefcount 5) (after (IncRefcount 3) (after (IncRefcount 3) (after (IncRefcount 0) new_torrent)))).

(** Block 0 of piece 3 is being written, block 1 was requested. *)
Definition sample : picker :=
  after (MarkAsWriting (PB 3 0) 77) (after (MarkAsDownloading (PB 3 1) 77 false) (after (MarkAsDownloading (PB 3 0) 77 false) announced)).

(** All the blocks of piece 5 are finished but the last. *)
Definition nearly : picker := after (MarkAsFinished (PB 5 0) 77) sample.

Lemma new_torrent_reachable : reachable sample_random new_torrent.
Proof. apply reach_init; [repeat split; vm_compute; congruence|vm_compute; congruence]. Qed.

Ltac enabled_at := repeat split; eexists; repeat split; vm_compute; reflexivity.

Lemma announced_reachable : reachable sample_random announced.
Proof. do 5 (apply reach_after; [|first [exact I|enabled_at]]). exact new_torrent_reachable. Qed.

Lemma wanted_block_at b s p :
  piece_at (piece_index b) s = Some p -> have p = false ->
  (0 <=? block_index b) && (block_index b <? blocks_in_piece (piece_index b) s) = true -> wanted_block b s.
Proof. intros Hp Hh Hb. split; [lia|by exists p]. Qed.

Ltac wanted_at := eapply wanted_block_at; vm_compute; reflexivity.

Lemma sample_reachable : reachable sample_random sample.
Proof.
  apply reach_after; [apply reach_after; [apply reach_after; [exact announced_reachable|]|]|].
  - split; [wanted_at|vm_compute; reflexivity].
  - split; [wanted_at|vm_compute; reflexivity].
  - wanted_at.
Qed.

Lemma nearly_reachable : reachable sample_random nearly.
Proof.
  apply reach_after; [exact sample_reachable|]. split; [wanted_at|].
  vm_compute. congruence.
Qed.

Lemma sample_invariant : invariant sample.
Proof. exact (re_invariant _ (reachable_reached _ _ sample_reachable)). Qed.

Lemma nearly_invariant : invariant nearly.
Proof. exact (re_invariant _ (reachable_reached _ _ nearly_reachable)). Qed.

(** The peer that has every piece but the last two. *)
Definition peer_bits : bitfield := BF (Some (6, [240])).

Lemma peer_bits_wf : bf_wf peer_bits.
Proof.
  destruct (bf_run_spec (fun _ _ => 0) [OpAssign [240] 6]) with (k := 0%nat) (b := bf_empty) (l := @nil bool) as (b & Hb & Hwf & _).
  - by intros.
  - apply represents_empty.
  - repeat split; vm_compute; congruence || (repeat constructor; vm_compute; congruence).
  - vm_compute in Hb. injection Hb as <-. exact Hwf.
Qed.

(** ** Properties *)

(** C7 (refinement): the picker implements the abstract machine [v_step].  A
    picker that was reached from [init] with enabled operations shows a view
    that the machine reaches, and in it every enabled operation runs, without
    undefined behaviour, to a picker that shows what the machine says: the
    states of all blocks, the availability of every piece, whether we have it
    and its priority. *)
Theorem picker_refines random_values s :
  reachable random_values s ->
  (exists v, v_reachable v /\ shows s v) /\
  forall o v, shows s v -> enabled o s ->
    exists r s' v', runs (exec random_values o) s r s' /\ reachable random_values s' /\ v_step o v r v' /\ shows s' v'.
Proof.
  intros Hs. pose proof (reachable_reached _ _ Hs) as Hr. split; [apply Hr|]. intros o v Hv He.
  destruct (reached_step random_values o s v Hr Hv He) as (r & s' & v' & Hrun & _ & Hst & Hv').
  exists r, s', v'. split_and!; [done|by eapply reach_step|done|done].
Qed.

Lemma picker_refines_witness :
  exists r s', runs (exec sample_random (MarkAsFinished (PB 3 0) 77)) sample r s' /\ state_of 3 0 s' = state_finished.
Proof.
  destruct (picker_refines sample_random sample sample_reachable) as [(v & _ & Hv) H].
  destruct (H (MarkAsFinished (PB 3 0) 77) v Hv) as (r & s' & v' & Hrun & _).
  - split; [wanted_at|]. intros Hb. vm_compute in Hb. discriminate.
  - exists r, s'. split; [exact Hrun|]. assert (s' = after (MarkAsFinished (PB 3 0) 77) sample) as -> by (unfold after; rewrite Hrun; reflexivity).
    vm_compute. reflexivity.
Defined.

(** C8 (invariant): in every picker that can be reached the debug checks of
    the source hold: [check_invariant] and [check_piece_state] pass. *)
Theorem picker_checks random_values s :
  reachable random_values s -> check_invariant s = true /\ check_piece_state s = true.
Proof.
  intros Hs. pose proof (reachable_reached _ _ Hs) as Hr. split; [by apply reached_checks|]. apply check_piece_state_ok, Hr.
Qed.

Lemma picker_checks_witness : check_invariant sample = true /\ check_piece_state sample = true.
Proof. apply (picker_checks sample_random sample). exact sample_reachable. Defined.

(** C9 (safety): where [order_ok], [prefer_ok] and [partials_ok] hold,
    [pick_pieces] returns and only adds blocks that are free, of a piece that
    the peer has, that we do not have and that is not filtered; or, in the end
    game, a block that is requested from another peer.  The pieces, the blocks
    and every counter stay; only the pick list may have been rebuilt and random
    numbers drawn.

    [order_ok] says which orders: sequential and rarest first always; the time
    critical order when the pick list is clean; the random order when pieces
    are not aligned (C15 is the run without that) and there is a piece.
    [prefer_ok] and [partials_ok] say that the sums and products with the
    number of blocks to keep together, of peers and of partial pieces are
    values of [int].  The suggested pieces exist and a block is asked for. *)
Theorem pick_pieces_safe random_values sort s pieces interesting_blocks n prefer peer_ o suggested num_peers :
  (forall f l, sort f l ≡ₚ l) ->
  invariant s -> bf_loose pieces -> bf_size pieces = num_pieces s -> order_ok s o -> prefer_ok s prefer ->
  present s suggested -> 0 < n -> partials_ok s num_peers ->
  exists k s', runs (pick_pieces random_values sort pieces interesting_blocks n prefer peer_ o suggested num_peers) s k s' /\
    settled s s' /\
    forall b, b ∈ interesting k -> b ∈ interesting_blocks \/ pickable s pieces b \/ busy s pieces peer_ b.
Proof.
  intros Hsort Hi Hb Hsz Ho Hp Hsu Hn Hpp.
  destruct (pick_pieces_spec random_values sort Hsort s pieces interesting_blocks n prefer peer_ o suggested num_peers)
    as (k & s' & Hr & Hs & Hok); try done.
  exists k, s'. split_and!; [done|done|]. by rewrite Forall_forall in Hok.
Qed.

Lemma pick_pieces_safe_witness :
  exists k s', runs (pick_pieces sample_random (fun _ l => l) peer_bits [] 3 0 99 (options_of 1) [] 100) sample k s' /\
    interesting k = [PB 0 0; PB 0 1; PB 0 2].
Proof.
  destruct (pick_pieces_safe sample_random (fun _ l => l) sample peer_bits [] 3 0 99 (options_of 1) [] 100) as (k & s' & Hr & _).
  - intros f l. reflexivity.
  - exact sample_invariant.
  - apply peer_bits_wf.
  - reflexivity.
  - right. left. reflexivity.
  - split; vm_compute; congruence.
  - constructor.
  - reflexivity.
  - split; [split; vm_compute; congruence|]. intros l Hl. vm_compute in Hl. injection Hl as <-. split; vm_compute; congruence.
  - exists k, s'. split; [exact Hr|]. vm_compute in Hr. injection Hr as <- _. reflexivity.
Defined.

(** C10 (functional): [mark_as_downloading] and [mark_as_writing] on a block of
    a piece that we do not have return whether the block was free or only
    requested.  Exactly then the first makes it a block requested from the peer,
    with one more peer, and the second a block that the peer's data is being
    written to; otherwise the first changes nothing of it and the second only
    its peer.  No other block, no flag of a hash check ([only_changed]), no
    counter or cursor ([counters]) and nothing of another piece but its position
    in the pick list ([touched]) changes; the invariant is kept.  There are at
    most 65535 pieces, so that a slot is left for the blocks, and the peers of
    the block fit their 14 bits. *)
Theorem mark_block random_values s x j peer reverse p :
  invariant s -> num_pieces s <= 65535 -> piece_at x s = Some p -> have p = false -> 0 <= j < blocks_in_piece x s ->
  peers_of x j s + 1 < 2 ^ 14 ->
  let b := known_block x j s in
  let free := free_block (bstate b) in
  (exists s', runs (mark_as_downloading random_values (PB x j) peer reverse) s free s' /\ invariant s' /\ touched x s s' /\
     counters s' = counters s /\ only_changed s s' x j (if free then BI peer (num_peers b + 1) state_requested else b)) /\
  (exists s', runs (mark_as_writing random_values (PB x j) peer) s free s' /\ invariant s' /\ touched x s s' /\
     counters s' = counters s /\ only_changed s s' x j (if free then BI peer 0 state_writing else with_peer peer b)).
Proof.
  intros Hi Hn Hp Hh Hj Hpe b free. assert (download_state p = piece_open -> slots_left s) as Hs by (by apply (slots_enough s x p)).
  unfold free, b. split.
  - destruct (mark_as_downloading_changes random_values s x j peer reverse p) as (s' & Hr & ? & ? & ?); try done.
    rewrite state_of_block in Hr. exists s'. split_and!; try done. exact (steady_mark_as_downloading _ _ _ _ _ _ _ Hr).
  - destruct (mark_as_writing_changes random_values s x j peer p) as (s' & Hr & ? & ? & ?); try done.
    rewrite state_of_block in Hr. exists s'. split_and!; try done. exact (steady_mark_as_writing _ _ _ _ _ _ Hr).
Qed.

Lemma mark_block_witness :
  exists s', runs (mark_as_writing sample_random (PB 3 1) 80) sample true s' /\ known_block 3 1 s' = BI 80 0 state_writing.
Proof.
  edestruct (mark_block sample_random sample 3 1 80 false) as [_ (s' & Hr & _ & _ & _ & [Ho _])].
  - exact sample_invariant.
  - vm_compute. discriminate.
  - vm_compute. reflexivity.
  - vm_compute. reflexivity.
  - split; vm_compute; congruence.
  - vm_compute. reflexivity.
  - exists s'. split; [exact Hr|]. rewrite (Ho 3 1); [reflexivity|split; vm_compute; congruence..].
Defined.

(** [mark_as_finished] on a block that was free or being
    written makes it finished and changes no other block; but when it was the
    last block of a piece that has already passed the hash check, we have the
    piece.  A block that is already finished changes nothing. *)
Theorem mark_finished random_values s x j peer p :
  invariant s -> num_pieces s <= 65535 -> piece_at x s = Some p -> have p = false -> 0 <= j < blocks_in_piece x s ->
  state_of x j s <> state_requested ->
  exists s', runs (mark_as_finished random_values (PB x j) peer) s tt s' /\ invariant s' /\ others_kept x s s' /\
    ((completes s x j /\ state_of x j s <> state_finished /\ became_had s s' x) \/
     (~ (completes s x j /\ state_of x j s <> state_finished) /\ touched x s s' /\ only_block s s' x j state_finished)).
Proof.
  intros Hi Hn Hp Hh Hj Hne. apply (mark_as_finished_spec random_values s x j peer p); try done. by apply (slots_enough s x p).
Qed.

Lemma mark_finished_witness :
  exists s', runs (mark_as_finished sample_random (PB 3 0) 77) sample tt s' /\ state_of 3 0 s' = state_finished.
Proof.
  edestruct (mark_finished sample_random sample 3 0 77) as (s' & Hr & _ & _ & [([Hc _] & _)|(_ & _ & Ho)]).
  - exact sample_invariant.
  - vm_compute. discriminate.
  - vm_compute. reflexivity.
  - vm_compute. reflexivity.
  - split; vm_compute; congruence.
  - vm_compute. discriminate.
  - vm_compute in Hc. discriminate.
  - exists s'. split; [exact Hr|]. rewrite (Ho 3 0); [reflexivity|split; vm_compute; congruence..].
Defined.

(** What is undone when a block fails.  [mark_as_canceled] frees a
    block that was being written, [write_failed] one that was not finished,
    and [abort_download] a block that was requested from one peer only (its
    state stays when other peers were asked too); each returns on every block,
    and changes no other block, piece or counter. *)
Theorem release_block random_values s x j peer p :
  invariant s -> piece_at x s = Some p -> 0 <= j < blocks_in_piece x s ->
  (exists s', runs (mark_as_canceled random_values (PB x j) peer) s tt s' /\ invariant s' /\ touched x s s' /\
     only_block s s' x j (if decide (state_of x j s = state_writing) then state_none else state_of x j s)) /\
  (state_of x j s <> state_requested ->
   exists s', runs (write_failed random_values (PB x j)) s tt s' /\ invariant s' /\ touched x s s' /\
     only_block s s' x j (if decide (state_of x j s = state_finished) then state_finished else state_none)) /\
  (exists s', runs (abort_download random_values (PB x j) peer) s tt s' /\ invariant s' /\ touched x s s' /\
     only_block s s' x j (if decide (state_of x j s = state_requested /\ peers_of x j s <= 1) then state_none else state_of x j s)).
Proof.
  intros Hi Hp Hj. split_and!.
  - destruct (mark_as_canceled_spec random_values s x j peer p Hi Hp Hj) as (s' & ? & ? & ? & Ho). exists s'.
    split_and!; try done. by destruct (state_of x j s).
  - intros Hne. destruct (write_failed_spec random_values s x j p Hi Hp Hj Hne) as (s' & ? & ? & ? & Ho). exists s'.
    split_and!; try done. by destruct (state_of x j s).
  - destruct (abort_download_spec random_values s x j peer p Hi Hp Hj) as (s' & ? & ? & ? & Ho). exists s'.
    split_and!; try done. unfold aborted in Ho. case_decide as Hr; [|by rewrite decide_False by tauto].
    destruct (Z.ltb_spec 1 (peers_of x j s)); [rewrite decide_False by lia; by rewrite Hr|by rewrite decide_True by (split; [done|lia])].
Qed.

Lemma release_block_witness :
  exists s', runs (abort_download sample_random (PB 3 1) 77) sample tt s' /\ state_of 3 1 s' = state_none.
Proof.
  edestruct (release_block sample_random sample 3 1 77) as (_ & _ & s' & Hr & _ & _ & Ho).
  - exact sample_invariant.
  - vm_compute. reflexivity.
  - split; vm_compute; congruence.
  - exists s'. split; [exact Hr|]. rewrite (Ho 3 1); [vm_compute; reflexivity|split; vm_compute; congruence..].
Defined.

(** [we_have] makes a piece had, [we_dont_have] undoes it:
    the number of pieces we have and of filtered pieces we miss follow, the
    availability and priority of the piece and all other pieces are kept. *)
Theorem have_pieces random_values s x p :
  invariant s -> piece_at x s = Some p ->
  let filter := if filtered p then 1 else 0 in
  (have p = false -> exists s' p', runs (we_have x) s tt s' /\ invariant s' /\ others_kept x s s' /\
     piece_at x s' = Some p' /\ have p' = true /\ peer_count p' = peer_count p /\ piece_prio p' = piece_prio p /\
     m_num_have s' = m_num_have s + 1 /\ m_num_filtered s' = m_num_filtered s - filter) /\
  (have p = true -> exists s' p', runs (we_dont_have random_values x) s tt s' /\ invariant s' /\ others_kept x s s' /\
     piece_at x s' = Some p' /\ have p' = false /\ peer_count p' = peer_count p /\ piece_prio p' = piece_prio p /\
     m_num_have s' = m_num_have s - 1 /\ m_num_filtered s' = m_num_filtered s + filter).
Proof.
  intros Hi Hp filter. split; [by apply we_have_spec|]. intros Hh.
  destruct (we_dont_have_spec random_values s x p Hi Hp Hh) as (s' & p' & H). exists s', p'. tauto.
Qed.

Lemma have_pieces_witness : exists s', runs (we_have 3) sample tt s' /\ m_num_have s' = 1.
Proof.
  edestruct (have_pieces sample_random sample 3) as [H _].
  - exact sample_invariant.
  - vm_compute. reflexivity.
  - destruct H as (s' & p' & Hr & _ & _ & _ & _ & _ & _ & Hn & _); [vm_compute; reflexivity|].
    exists s'. split; [exact Hr|]. rewrite Hn. vm_compute. reflexivity.
Defined.

(** C12 (functional): the bitfield of a peer is counted.  [inc_refcount] raises
    the availability (the count of the piece and the seeds) of the pieces whose
    bit is set by one and of no other, [dec_refcount] lowers it, whichever of
    the ways the source counts in is taken: the seeds for a full bitfield, piece
    by piece for one with few bits on a clean list, or all counts at once and a
    dirty list.  Nothing but counts, the seeds, the pick list and whether it is
    dirty changes ([counted]).  The availability keeps within the 16 bits of a
    count, does not go below zero, and the seeds are a value of [int]. *)
Theorem refcount_bits random_values s b :
  invariant s -> bf_wf b -> bf_size b = num_pieces s ->
  let bit y := if zget (bit_list b) y is Some true then 1 else 0 in
  (m_seeds s + 1 < 2 ^ 31 -> (forall y a, get_availability_of y s = Some a -> a + bit y < 2 ^ 16) ->
   exists s', runs (inc_refcount_bits random_values b) s tt s' /\ invariant s' /\ counted s s' /\
     forall y, get_availability_of y s' = (fun a => a + bit y) <$> get_availability_of y s) /\
  ((forall y a, get_availability_of y s = Some a -> bit y <= a < 2 ^ 16) ->
   exists s', runs (dec_refcount_bits random_values b) s tt s' /\ invariant s' /\ counted s s' /\
     forall y, get_availability_of y s' = (fun a => a - bit y) <$> get_availability_of y s).
Proof.
  intros Hi Hb Hsz bit. assert (forall y, bit_at (bit_list b) 0 y = bit y) as Hbit.
  { intros y. unfold bit_at, bit. by rewrite Z.sub_0_r. }
  split; [intros Hmax H|intros H].
  - destruct (inc_refcount_bits_spec random_values s b Hi Hmax Hb Hsz) as (s' & Hr & Hi' & [Hc _ Ha]).
    + intros y a Ha. rewrite Hbit. by apply H.
    + exists s'. split_and!; [done|done|done|]. intros y. by rewrite Ha, Hbit.
  - destruct (dec_refcount_bits_spec random_values s b Hi) as (s' & Hr & Hi' & [Hc _ Ha]); [|done|done| |].
    + intros y a Ha. by destruct (H y a Ha).
    + intros y a Ha. rewrite Hbit. by destruct (H y a Ha).
    + exists s'. split_and!; [done|done|done|]. intros y. rewrite Ha. destruct (get_availability_of y s); [|done]. simpl. by rewrite Hbit.
Qed.

(** Every availability of the picker, checked. *)
Lemma all_availability s (Q : Z -> Z -> Prop) :
  (forall y, y ∈ seqZ 0 (num_pieces s) -> exists a, get_availability_of y s = Some a /\ Q y a) ->
  forall y a, get_availability_of y s = Some a -> Q y a.
Proof.
  intros H y a Ha. destruct (H y) as (a' & Ha' & HQ); [|congruence].
  unfold get_availability_of in Ha. destruct (piece_at y s) as [p|] eqn:Hp; [|done]. apply zget_Some_bound in Hp.
  apply elem_of_seqZ. unfold num_pieces. lia.
Qed.

Ltac availability_at := apply all_availability; vm_compute; intros y Hy;
  repeat (apply elem_of_cons in Hy as [->|Hy]; [eexists; split; [vm_compute; reflexivity|vm_compute; repeat split; congruence]|]);
  by apply elem_of_nil in Hy.

Lemma refcount_bits_witness :
  exists s', runs (inc_refcount_bits sample_random peer_bits) sample tt s' /\ get_availability_of 3 s' = Some 3.
Proof.
  destruct (refcount_bits sample_random sample peer_bits) as [H _].
  - exact sample_invariant.
  - exact peer_bits_wf.
  - vm_compute. reflexivity.
  - destruct H as (s' & Hr & _ & _ & Ha); [vm_compute; reflexivity|availability_at|]. exists s'. split; [exact Hr|]. rewrite Ha. vm_compute. reflexivity.
Defined.

(** A peer that joins with a bitfield and leaves with the same
    one leaves every availability as it was, and nothing else of the pieces is
    changed, even when the second call has to break up a seed. *)
Theorem peer_joins_and_leaves random_values s b :
  invariant s -> m_seeds s + 1 < 2 ^ 31 -> bf_wf b -> bf_size b = num_pieces s ->
  (forall y a, get_availability_of y s = Some a -> a + 1 < 2 ^ 16) ->
  exists s', runs (_ ← inc_refcount_bits random_values b; dec_refcount_bits random_values b) s tt s' /\ invariant s' /\
    counted s s' /\ get_availability s' = get_availability s.
Proof.
  intros Hi Hmax Hb Hsz Hroom. destruct (join_leave random_values s b Hi Hmax Hb Hsz) as (s1 & s2 & Hr1 & Hr2 & Hi2 & [Hc _ Ha]).
  { intros y a Hya. pose proof (bit_at_range (bit_list b) y). specialize (Hroom y a Hya). lia. }
  exists s2. split_and!; [by step Hr1|done|done|]. apply zlist_eq. intros y _.
  rewrite !zget_availability, Ha. destruct (get_availability_of y s); [|done]. simpl. f_equal. lia.
Qed.

Lemma peer_joins_and_leaves_witness :
  exists s', runs (_ ← inc_refcount_bits sample_random peer_bits; dec_refcount_bits sample_random peer_bits) sample tt s' /\
    get_availability s' = [1; 0; 0; 2; 0; 1].
Proof.
  destruct (peer_joins_and_leaves sample_random sample peer_bits) as (s' & Hr & _ & _ & Ha).
  - exact sample_invariant.
  - vm_compute. reflexivity.
  - exact peer_bits_wf.
  - vm_compute. reflexivity.
  - availability_at.
  - exists s'. split; [exact Hr|]. rewrite Ha. vm_compute. reflexivity.
Defined.

(** [set_piece_priority] gives the piece its new priority and
    returns whether that changed whether it is filtered; blocks, availability
    and what we have stay, and a piece that is being downloaded moves to the
    list its new state asks for (the invariant is kept). *)
Theorem piece_priority_set random_values s x p new :
  invariant s -> piece_at x s = Some p -> 0 <= new < 8 ->
  exists s' p', runs (set_piece_priority random_values x new) s (negb (Bool.eqb (new =? 0) (piece_prio p =? 0))) s' /\
    invariant s' /\ others_kept x s s' /\ same_blocks s s' /\ piece_at x s' = Some p' /\
    piece_prio p' = new /\ peer_count p' = peer_count p /\ have p' = have p.
Proof. intros Hi Hp Hn. by apply set_piece_priority_spec. Qed.

Lemma piece_priority_set_witness :
  exists s', runs (set_piece_priority sample_random 3 0) sample true s' /\ state_of 3 1 s' = state_requested.
Proof.
  edestruct (piece_priority_set sample_random sample 3) with (new := 0) as (s' & p' & Hr & _ & _ & Hs & _).
  - exact sample_invariant.
  - vm_compute. reflexivity.
  - split; vm_compute; congruence.
  - exists s'. split; [exact Hr|]. rewrite Hs; [vm_compute; reflexivity|split; vm_compute; congruence..].
Defined.

(** Unless it is dirty, the pick list is sorted by priority,
    holds every piece whose priority is not -1 exactly once and no other
    piece, and every piece of it knows its position. *)
Theorem pick_list_exact s :
  invariant s -> m_dirty s = false ->
  StronglySorted (before s) (m_pieces s) /\ NoDup (m_pieces s) /\
  (forall x, x ∈ m_pieces s <-> exists k, 0 <= k /\ priority_of x s = Some k) /\
  (forall i x, zget (m_pieces s) i = Some x -> option_map index (piece_at x s) = Some i).
Proof. apply list_exact. Qed.

Lemma pick_list_exact_witness : NoDup [5; 0; 3] /\ option_map index (piece_at 3 sample) = Some 2.
Proof.
  destruct (pick_list_exact sample) as (_ & Hn & _ & Hi).
  - exact sample_invariant.
  - vm_compute. reflexivity.
  - split; [exact Hn|]. apply Hi. vm_compute. reflexivity.
Defined.

(** C11 (functional): [update_pieces] rebuilds the pick list from the pieces
    alone, whatever it held and whatever the random numbers: it is sorted by
    priority and holds each piece that can be picked once.  The list is clean,
    and nothing else has changed ([moved]): every member but the pick list, its
    boundaries and the random numbers drawn is the one it was, and so is every
    piece but for its position in the list. *)
Theorem update_pieces_rebuilds random_values s :
  invariant s ->
  exists s', runs (update_pieces random_values) s tt s' /\ invariant s' /\ m_dirty s' = false /\
    moved (set_m_dirty false s) s' /\
    StronglySorted (before s) (m_pieces s') /\ NoDup (m_pieces s') /\
    (forall x, x ∈ m_pieces s' <-> exists k, 0 <= k /\ priority_of x s = Some k).
Proof.
  intros Hi. destruct (update_pieces_settled random_values s Hi) as (s' & Hr & Hd & Hs & Hm & Hpr).
  destruct (list_exact s' (se_invariant _ _ Hs) Hd) as (H1 & H2 & H3 & _).
  exists s'. split_and!; [done|apply Hs|done|done| |done|].
  - by eapply before_sorted.
  - intros x. rewrite H3. by setoid_rewrite Hpr.
Qed.

Lemma update_pieces_rebuilds_witness :
  exists s', runs (update_pieces sample_random) new_torrent tt s' /\ m_dirty s' = false.
Proof.
  destruct (update_pieces_rebuilds sample_random new_torrent) as (s' & Hr & _ & Hd & _).
  - exact (re_invariant _ (reachable_reached _ _ new_torrent_reachable)).
  - exists s'. split; [exact Hr|exact Hd].
Defined.

(** The hash check of a piece.  [lock_piece] marks a piece
    that is being downloaded; [piece_passed] on a piece that is not locked makes
    us have it when all its blocks are finished, and records that it passed
    when they are not; on a locked piece it does nothing; [restore_piece] frees
    all the blocks of a piece that failed. *)
Theorem piece_checked random_values s x p :
  invariant s -> piece_at x s = Some p -> download_state p <> piece_open ->
  (exists s', runs (lock_piece x) s tt s' /\ invariant s' /\ touched x s s' /\ same_blocks s s' /\
     locked_at x s' = true /\ passed_at x s' = false) /\
  (exists s', runs (piece_passed x) s tt s' /\ invariant s' /\ others_kept x s s' /\
     (locked_at x s = true -> s' = s) /\
     (locked_at x s = false -> all_finished_at x s -> became_had s s' x) /\
     (locked_at x s = false -> ~ all_finished_at x s -> touched x s s' /\ same_blocks s s' /\ passed_at x s' = true)) /\
  (exists s', runs (restore_piece random_values x) s tt s' /\ invariant s' /\ touched x s s' /\
     forall y i, 0 <= y < num_pieces s -> 0 <= i < blocks_in_piece y s ->
       state_of y i s' = if decide (y = x) then state_none else state_of y i s).
Proof.
  intros Hi Hp Ho. split_and!.
  - destruct (lock_piece_spec s x p Hi Hp) as (s' & ? & ? & ? & ? & Hl). exists s'. destruct (Hl Ho). by split_and!.
  - by apply (piece_passed_spec s x p).
  - destruct (restore_piece_spec random_values s x p Hi Hp) as (s' & ? & ? & ? & ? & _). by exists s'.
Qed.

Lemma piece_checked_witness :
  exists s', runs (restore_piece sample_random 3) sample tt s' /\ state_of 3 1 s' = state_none.
Proof.
  edestruct (piece_checked sample_random sample 3) as (_ & _ & s' & Hr & _ & _ & Hs).
  - exact sample_invariant.
  - vm_compute. reflexivity.
  - vm_compute. discriminate.
  - exists s'. split; [exact Hr|]. rewrite Hs; [vm_compute; reflexivity|split; vm_compute; congruence..].
Defined.

(** What the queries answer: [is_requested], [is_downloaded],
    [is_finished] and [num_peers] for the state of the block, a piece we have
    counting as finished; [is_piece_finished] when every block is finished or
    being written; [has_piece_passed] for the hash check.  None of them meets
    undefined behaviour. *)
Theorem query_answers s x p :
  invariant s -> piece_at x s = Some p ->
  (forall j, 0 <= j < blocks_in_piece x s ->
     let st := state_of x j s in
     is_requested (PB x j) s = Some (bool_decide (st = state_requested)) /\
     is_downloaded (PB x j) s = Some (have p || bool_decide (st = state_finished) || bool_decide (st = state_writing)) /\
     is_finished (PB x j) s = Some (have p || bool_decide (st = state_finished)) /\
     num_peers_of (PB x j) s = Some (peers_of x j s)) /\
  is_piece_finished x s = Some (have p || bool_decide (downloaded_blocks x s = blocks_in_piece x s)) /\
  has_piece_passed x s = Some (have p || passed_at x s).
Proof. intros Hi Hp. split; [intros j Hj; by apply (block_queries s x j p)|by apply piece_queries]. Qed.

Lemma query_answers_witness : is_requested (PB 3 1) sample = Some true /\ is_piece_finished 3 sample = Some false.
Proof.
  edestruct (query_answers sample 3) as (H & H2 & _).
  - exact sample_invariant.
  - vm_compute. reflexivity.
  - split; [rewrite (proj1 (H 1 ltac:(split; vm_compute; congruence)))|rewrite H2]; vm_compute; reflexivity.
Defined.

(** [distributed_copies] returns the number of copies of the
    rarest piece, ours among them, and how many of a thousand pieces there are
    more copies of. *)
Theorem distributed_copies_counts s :
  num_pieces s <> 0 -> (exists p, p ∈ m_piece_map s /\ copies p <= max_peer_count) ->
  exists m, (forall p, p ∈ m_piece_map s -> m <= copies p) /\ (exists p, p ∈ m_piece_map s /\ copies p = m) /\
    distributed_copies s = (m + m_seeds s, more_copies m (m_piece_map s) * 1000 / num_pieces s).
Proof. apply distributed_copies_spec. Qed.

Lemma distributed_copies_counts_witness :
  exists m, m <= 0 /\ distributed_copies sample = (m + m_seeds sample, more_copies m (m_piece_map sample) * 1000 / 6).
Proof.
  assert (PP 0 piece_open 4 0 ∈ m_piece_map sample) as Hin by (vm_compute; apply elem_of_cons; right; apply elem_of_cons; by left).
  destruct (distributed_copies_counts sample) as (m & Hm & _ & Hd).
  - vm_compute. discriminate.
  - exists (PP 0 piece_open 4 0). split; [exact Hin|vm_compute; congruence].
  - exists m. split; [exact (Hm _ Hin)|exact Hd].
Defined.

(** C13 (termination): when pieces are not aligned ([align_expanded_pieces] is
    not asked for; C15 is the run when it is), the loop of [pick_pieces] that
    starts at a random piece ends, for a number of blocks to keep together that
    is at least [- m_blocks_per_piece] and leaves the sums with it values of
    [int] ([expandable]): a round either takes a block of those still asked for or comes one
    piece closer to the start, so [(num_blocks + 1) * (num_pieces + 1)] rounds
    are enough, although expanding a piece can jump over the start. *)
Theorem pick_random_terminates s pieces peer_ suggested o start prefer k :
  invariant s -> bf_loose pieces -> bf_size pieces = num_pieces s -> opt_align_expanded_pieces o = false ->
  expandable s o prefer -> 0 <= start < num_pieces s -> 0 <= num_blocks k ->
  is_Some (pick_random s pieces peer_ suggested (Z.to_nat ((num_blocks k + 1) * (num_pieces s + 1))) o start start prefer k).
Proof.
  intros Hi Hb Hsz Ha He Hs Hn.
  destruct (pick_random_total s Hi pieces Hb Hsz peer_ (fun _ => True) (fun _ _ => I) suggested o start
    (Z.to_nat ((num_blocks k + 1) * (num_pieces s + 1))) start prefer k) as (k' & Hk' & _); try done.
  - pose proof (gap_bound s start start Hs). nia.
  - by split_and!; apply Forall_true.
Qed.

Lemma pick_random_terminates_witness :
  is_Some (pick_random sample peer_bits 9 [] 56 (options_of 0) 2 2 4 (Picks [] [] [] 7 0 [])).
Proof.
  apply (pick_random_terminates sample peer_bits 9 [] (options_of 0) 2 4 (Picks [] [] [] 7 0 [])).
  - exact sample_invariant.
  - apply peer_bits_wf.
  - vm_compute. reflexivity.
  - reflexivity.
  - split; vm_compute; congruence.
  - split; vm_compute; congruence.
  - vm_compute. discriminate.
Defined.

(** ** Where the picker leaves its invariant

    Two runs outside what [enabled] and [order_ok] allow, from a picker that
    can be reached: each is a case the source accepts and does not handle. *)

(** A peer that has every piece. *)
Definition all_bits : bitfield := BF (Some (6, [252])).

Lemma all_bits_wf : bf_wf all_bits.
Proof.
  destruct (bf_run_spec (fun _ _ => 0) [OpResize 6 true]) with (k := 0%nat) (b := bf_empty) (l := @nil bool) as (b & Hb & Hwf & _).
  - by intros.
  - apply represents_empty.
  - by repeat split.
  - vm_compute in Hb. injection Hb as <-. exact Hwf.
Qed.

(** The number of whole pieces that [expand_piece] divides by is zero for every
    small negative number of blocks. *)
Lemma no_whole_pieces s piece c bits o :
  opt_align_expanded_pieces o = true -> 1 - 2 * m_blocks_per_piece s < c < 0 -> expand_piece s piece c bits o = None.
Proof.
  intros Ho Hc. unfold expand_piece. rewrite Ho. destruct (Z.eqb_spec c 0); [lia|].
  destruct (Z.eqb_spec (m_blocks_per_piece s) 0); [done|].
  assert (Z.quot (c + m_blocks_per_piece s - 1) (m_blocks_per_piece s) = 0) as ->; [apply Z.quot_small_iff; lia|].
  by rewrite orb_true_r.
Qed.

(** C14 (error): [we_dont_have] on a piece that is being downloaded breaks the
    invariant of a picker that can be reached: it erases the entry of the piece
    but leaves the piece where its old priority put it in the pick list, which
    is not marked dirty, so the debug check of the source fails. *)
Theorem we_dont_have_downloading :
  exists s x p s', reachable sample_random s /\ piece_at x s = Some p /\ have p = false /\ download_state p <> piece_open /\
    runs (we_dont_have sample_random x) s tt s' /\ m_dirty s' = false /\ check_invariant s' = false.
Proof.
  destruct (we_dont_have sample_random 3 sample) as [[[] s']|] eqn:E; [|vm_compute in E; discriminate].
  eexists sample, 3, _, s'. split; [exact sample_reachable|]. split; [vm_compute; reflexivity|].
  do 2 (split; [vm_compute; congruence|]). split; [exact E|].
  vm_compute in E. injection E as <-. split; vm_compute; reflexivity.
Qed.

(** C15 (error): with aligned pieces the random order of [pick_pieces] can
    divide by zero in a picker that can be reached, for a peer that has every
    piece and a request for ten blocks: its loop counts the blocks to keep
    together below zero and gives the negative number to [expand_piece], which
    for every such number down to [2 - 2 * m_blocks_per_piece] divides by a
    number of whole pieces that is zero. *)
Theorem pick_random_divides_by_zero :
  (forall s piece c bits o, opt_align_expanded_pieces o = true -> 1 - 2 * m_blocks_per_piece s < c < 0 ->
     expand_piece s piece c bits o = None) /\
  exists s pieces o, reachable sample_random s /\ bf_wf pieces /\ bf_size pieces = num_pieces s /\
    opt_align_expanded_pieces o = true /\
    pick_pieces sample_random (fun _ l => l) pieces [] 10 5 99 o [] 100 s = None.
Proof.
  split; [exact no_whole_pieces|]. exists announced, all_bits, (options_of 64).
  split; [exact announced_reachable|]. split; [exact all_bits_wf|].
  split_and!; vm_compute; reflexivity.
Qed.
