(* ===== verification/Bandwidth.v ===== *)
(** * The bandwidth limiter (bandwidth_limit, bandwidth_queue_entry, bandwidth_manager)

    A request for bandwidth points at the channels that limit it, and many
    requests point at the same channel: a channel is an address of the store
    [chans], and [None] is an access that is not defined (an address without a
    channel, a signed [int] that overflows, a write past an array).  The calls
    of [bandwidth_socket::assign_bandwidth] are the list of peers and amounts
    an operation returns, in order; they are made after the manager was
    changed.  [is_disconnecting] of a peer is an argument. *)

From Stdlib Require Import ZArith Lia.
From stdpp Require Import base numbers list gmap.
From S2P Require Import Prelude.

(** ** Channels *)

(** [boost::integer_traits<boost::int32_t>::const_max] *)
Definition inf : Z := 2147483647.

(** The value of a signed [int] operation; overflow is undefined. *)
Definition checked_int (x : Z) : option Z := if (- 2 ^ 31 <=? x) && (x <? 2 ^ 31) then Some x else None.

Record bandwidth_channel := Channel {
  tmp : Z;
  distribute_quota : Z;
  m_quota_left : Z;
  m_limit : Z;
}.

Definition new_channel : bandwidth_channel := Channel 0 0 0 0.

Definition set_tmp (x : Z) (c : bandwidth_channel) : bandwidth_channel :=
  Channel x (distribute_quota c) (m_quota_left c) (m_limit c).
Definition set_quota (x : Z) (c : bandwidth_channel) : bandwidth_channel :=
  Channel (tmp c) (distribute_quota c) x (m_limit c).

(** [throttle(limit)] *)
Definition throttle (limit : Z) (c : bandwidth_channel) : bandwidth_channel :=
  Channel (tmp c) (distribute_quota c) (m_quota_left c) limit.

Definition quota_left (c : bandwidth_channel) : Z :=
  if m_limit c =? 0 then inf else Z.max (to_int (m_quota_left c)) 0.

Definition update_quota (dt_milliseconds : Z) (c : bandwidth_channel) : bandwidth_channel :=
  if m_limit c =? 0 then c
  else
    let to_add := Z.quot (m_limit c * dt_milliseconds + 500) 1000 in
    let quota :=
      if inf - m_quota_left c <? to_add then inf
      else
        let quota := m_quota_left c + to_add in
        let quota := if m_limit c <? Z.quot quota 3 then m_limit c * 3 else quota in
        Z.min quota inf in
    Channel (tmp c) (to_int (Z.max quota 0)) quota (m_limit c).

Definition return_quota (amount : Z) (c : bandwidth_channel) : bandwidth_channel :=
  if m_limit c =? 0 then c else set_quota (m_quota_left c + amount) c.

Definition use_quota (amount : Z) (c : bandwidth_channel) : bandwidth_channel :=
  if m_limit c =? 0 then c else set_quota (m_quota_left c - amount) c.

Definition need_queueing (amount : Z) (c : bandwidth_channel) : bool * bandwidth_channel :=
  if m_quota_left c - amount <? m_limit c then (true, c)
  else (false, set_quota (m_quota_left c - amount) c).

(** ** Requests *)

(** [channel] is the array up to its first null pointer. *)
Record bw_request := Request {
  peer : Z;
  priority : Z;
  assigned : Z;
  request_size : Z;
  ttl : Z;
  channel : list Z;
}.

Definition new_request (pe blk prio : Z) (chan : list Z) : bw_request := Request pe prio 0 blk 20 chan.

Definition set_assigned (x : Z) (r : bw_request) : bw_request :=
  Request (peer r) (priority r) x (request_size r) (ttl r) (channel r).
Definition dec_ttl (r : bw_request) : bw_request :=
  Request (peer r) (priority r) (assigned r) (request_size r) (ttl r - 1) (channel r).

Definition max_bandwidth_channels : Z := 10.

#[local] Abbreviation store := (gmap Z bandwidth_channel).

(** A loop over some of the channels of a request. *)
Fixpoint each_channel (f : bandwidth_channel -> option bandwidth_channel) (l : list Z) (st : store) : option store :=
  match l with
  | [] => Some st
  | c :: l => ch ← st !! c; ch ← f ch; each_channel f l (<[c := ch]> st)
  end.

(** The loop of [assign_bandwidth] that finds the most limiting channel. *)
Fixpoint limit_quota (prio : Z) (l : list Z) (st : store) (quota : Z) : option Z :=
  match l with
  | [] => Some quota
  | c :: l =>
      ch ← st !! c;
      if m_limit ch =? 0 then limit_quota prio l st quota
      else if tmp ch =? 0 then limit_quota prio l st quota
      else limit_quota prio l st (Z.min (to_int (Z.quot (distribute_quota ch * prio) (tmp ch))) quota)
  end.

(** The channels the two loops of [assign_bandwidth] visit. *)
Definition first_channels (r : bw_request) : list Z := take 5 (channel r).

(** [bw_request::assign_bandwidth()] *)
Definition assign_bandwidth (r : bw_request) (st : store) : option (Z * bw_request * store) :=
  let quota := request_size r - assigned r in
  let r := dec_ttl r in
  if quota =? 0 then Some (quota, r, st)
  else
    quota ← limit_quota (priority r) (first_channels r) st quota;
    st ← each_channel (fun c => Some (use_quota quota c)) (first_channels r) st;
    Some (quota, set_assigned (assigned r + quota) r, st).

(** ** The manager *)

Record bandwidth_manager := Manager {
  m_queue : list bw_request;
  m_queued_bytes : Z;
  m_abort : bool;
  chans : store;
}.

Definition new_manager (st : store) : bandwidth_manager := Manager [] 0 false st.

(** What the peers are told: the requests are answered last first. *)
Definition answers (tm : list bw_request) : list (Z * Z) := map (fun r => (peer r, assigned r)) (rev tm).

Definition close (m : bandwidth_manager) : list (Z * Z) * bandwidth_manager :=
  (answers (m_queue m), Manager [] 0 true (chans m)).

Definition queue_size (m : bandwidth_manager) : Z := zlen (m_queue m).
Definition queued_bytes (m : bandwidth_manager) : Z := m_queued_bytes m.

Definition is_queued (pe : Z) (m : bandwidth_manager) : bool := existsb (fun r => peer r =? pe) (m_queue m).

(** The bytes a request still waits for. *)
Definition remaining (r : bw_request) : Z := request_size r - assigned r.

Definition check_invariant (m : bandwidth_manager) : bool :=
  foldr (fun r x => remaining r + x) 0 (m_queue m) =? m_queued_bytes m.

(** The loop of [request_bandwidth]: the channels that have to be waited for. *)
Fixpoint pick_channels (blk : Z) (chan l : list Z) (st : store) : option (list Z * store) :=
  match chan with
  | [] => Some (l, st)
  | c :: chan =>
      ch ← st !! c;
      let '(wait, ch) := need_queueing blk ch in
      let st := <[c := ch]> st in
      if wait then
        if zlen l <? max_bandwidth_channels then pick_channels blk chan (l ++ [c]) st else None
      else pick_channels blk chan l st
  end.

Definition request_bandwidth (pe blk prio : Z) (chan : list Z) (m : bandwidth_manager) : option (Z * bandwidth_manager) :=
  if m_abort m then Some (0, m)
  else if zlen chan =? 0 then Some (blk, m)
  else
    '(l, st) ← pick_channels blk chan [] (chans m);
    if zlen l =? 0 then Some (blk, Manager (m_queue m) (m_queued_bytes m) (m_abort m) st)
    else Some (0, Manager (m_queue m ++ [new_request pe blk prio l]) (m_queued_bytes m + blk) (m_abort m) st).

(** The first loop of [update_quotas]: the requests of the peers that
    disconnect leave the queue; the channels of the others are cleared. *)
Fixpoint drop_peers (is_disconnecting : Z -> bool) (queue : list bw_request) (m : bandwidth_manager) (tm : list bw_request)
  : option (bandwidth_manager * list bw_request) :=
  match queue with
  | [] => Some (m, tm)
  | r :: queue =>
      if is_disconnecting (peer r) then
        st ← each_channel (fun c => Some (return_quota (assigned r) c)) (channel r) (chans m);
        drop_peers is_disconnecting queue
          (Manager (m_queue m) (m_queued_bytes m - remaining r) (m_abort m) st) (tm ++ [set_assigned 0 r])
      else
        st ← each_channel (fun c => Some (set_tmp 0 c)) (channel r) (chans m);
        drop_peers is_disconnecting queue
          (Manager (m_queue m ++ [r]) (m_queued_bytes m) (m_abort m) st) tm
  end.

(** The second loop: the sum of the priorities in each channel. *)
Fixpoint add_priorities (prio : Z) (l : list Z) (st : store) (channels : list Z) : option (store * list Z) :=
  match l with
  | [] => Some (st, channels)
  | c :: l =>
      ch ← st !! c;
      let channels := if tmp ch =? 0 then channels ++ [c] else channels in
      x ← checked_int (tmp ch + prio);
      add_priorities prio l (<[c := set_tmp x ch]> st) channels
  end.

Fixpoint sum_priorities (queue : list bw_request) (st : store) (channels : list Z) : option (store * list Z) :=
  match queue with
  | [] => Some (st, channels)
  | r :: queue =>
      '(st, channels) ← add_priorities (priority r) (channel r) st channels;
      sum_priorities queue st channels
  end.

(** The last loop: [m] holds the requests that were looked at and stay. *)
Fixpoint hand_out (queue : list bw_request) (m : bandwidth_manager) (tm : list bw_request)
  : option (bandwidth_manager * list bw_request) :=
  match queue with
  | [] => Some (m, tm)
  | r :: queue =>
      '(a, r, st) ← assign_bandwidth r (chans m);
      if (assigned r =? request_size r) || ((ttl r <=? 0) && (0 <? assigned r)) then
        hand_out queue (Manager (m_queue m) (m_queued_bytes m - (a + remaining r)) (m_abort m) st) (tm ++ [r])
      else hand_out queue (Manager (m_queue m ++ [r]) (m_queued_bytes m - a) (m_abort m) st) tm
  end.

(** [update_quotas] up to the calls of the peers, with the requests that are
    answered. *)
Definition distribute (is_disconnecting : Z -> bool) (dt : Z) (m : bandwidth_manager)
  : option (bandwidth_manager * list bw_request) :=
  let dt_milliseconds := if 3000 <? dt then 3000 else dt in
  '(m, tm) ← drop_peers is_disconnecting (m_queue m) (Manager [] (m_queued_bytes m) (m_abort m) (chans m)) [];
  '(st, channels) ← sum_priorities (m_queue m) (chans m) [];
  st ← each_channel (fun c => Some (update_quota (to_int dt_milliseconds) c)) channels st;
  hand_out (m_queue m) (Manager [] (m_queued_bytes m) (m_abort m) st) tm.

(** [update_quotas(dt)], with [dt] in milliseconds *)
Definition update_quotas (is_disconnecting : Z -> bool) (dt : Z) (m : bandwidth_manager)
  : option (list (Z * Z) * bandwidth_manager) :=
  if m_abort m then Some ([], m)
  else match m_queue m with
       | [] => Some ([], m)
       | _ =>
           '(m, tm) ← distribute is_disconnecting dt m;
           Some (answers tm, m)
       end.
