(* ===== verification/BandwidthSpec.v ===== *)
(** * One step of the bandwidth limiter

    What a loop over the channels of a request does to the store, and the share
    of a request in its channels: [limit_quota] is the minimum of the shares,
    and depends on the budgets and loads alone, which handing out bandwidth
    does not change. *)

From Stdlib Require Import ZArith Lia.
From stdpp Require Import base numbers list gmap.
From S2P Require Import Prelude Bandwidth.

#[local] Abbreviation store := (gmap Z bandwidth_channel).

(** ** Conversions *)

Lemma checked_int_ok x : - 2 ^ 31 <= x < 2 ^ 31 -> checked_int x = Some x.
Proof. intros H. unfold checked_int. rewrite (proj2 (Z.leb_le _ _)), (proj2 (Z.ltb_lt _ _)) by lia. done. Qed.

(** ** How often a channel is listed *)

Fixpoint occ (c : Z) (l : list Z) : Z :=
  match l with [] => 0 | x :: l => (if decide (x = c) then 1 else 0) + occ c l end.

Lemma occ_nonneg c l : 0 <= occ c l.
Proof. induction l; simpl; [lia|]. case_decide; lia. Qed.

Lemma occ_app c l k : occ c (l ++ k) = occ c l + occ c k.
Proof. induction l; simpl; lia. Qed.

Lemma occ_pos c l : c ∈ l <-> 0 < occ c l.
Proof.
  induction l as [|x l IH]; simpl; [split; [by intros ?%elem_of_nil|lia]|].
  rewrite elem_of_cons, IH. pose proof (occ_nonneg c l). case_decide; split; intros; intuition (congruence || lia).
Qed.

Lemma occ_zero c l : c ∉ l <-> occ c l = 0.
Proof. rewrite occ_pos. pose proof (occ_nonneg c l). lia. Qed.

Lemma occ_take c n l : occ c (take n l) <= occ c l.
Proof. rewrite <- (take_drop n l) at 2. rewrite occ_app. pose proof (occ_nonneg c (drop n l)). lia. Qed.

Lemma occ_NoDup c l : NoDup l -> occ c l = if decide (c ∈ l) then 1 else 0.
Proof.
  induction 1 as [|x l Hx Hl IH]; simpl; [done|]. rewrite IH. destruct (decide (x = c)) as [->|Hne].
  - rewrite decide_False by done. rewrite decide_True by (by left). done.
  - destruct (decide (c ∈ l)); [rewrite decide_True by (by right)|rewrite decide_False by (by intros [?|?]%elem_of_cons; congruence)]; done.
Qed.

(** ** Loops over channels *)

Definition present (st : store) (l : list Z) : Prop := forall c, c ∈ l -> is_Some (st !! c).

Lemma present_cons st c l : present st (c :: l) <-> is_Some (st !! c) /\ present st l.
Proof.
  split; [intros H; split; [apply H; by left|intros x Hx; apply H; by right]|].
  intros [Hc Hl] x [->|Hx]%elem_of_cons; [done|by apply Hl].
Qed.

Lemma present_insert st c ch l : present st l -> present (<[c := ch]> st) l.
Proof. intros H x Hx. destruct (decide (x = c)) as [->|]; [rewrite lookup_insert_eq; eauto|rewrite lookup_insert_ne by done; by apply H]. Qed.

(** [f] at every listed channel is [g n] where it is listed [n] times. *)
Lemma each_channel_spec f (g : Z -> bandwidth_channel -> bandwidth_channel) l st :
  (forall ch, g 0 ch = ch) -> (forall n ch, 0 <= n -> g (1 + n) ch = g n (f ch)) -> present st l ->
  exists st', each_channel (fun c => Some (f c)) l st = Some st' /\ forall c, st' !! c = g (occ c l) <$> st !! c.
Proof.
  intros Hg0 Hg. revert st. induction l as [|x l IH]; intros st Hp; simpl.
  { exists st. split; [done|]. intros c. destruct (st !! c); simpl; [by rewrite Hg0|done]. }
  apply present_cons in Hp as [[ch Hch] Hp]. rewrite Hch. simpl.
  destruct (IH (<[x := f ch]> st)) as (st' & -> & Hst'); [by apply present_insert|]. exists st'. split; [done|].
  intros c. rewrite Hst'. pose proof (occ_nonneg c l). destruct (decide (x = c)) as [->|Hne].
  - rewrite lookup_insert_eq, Hch. simpl. by rewrite Hg.
  - by rewrite lookup_insert_ne.
Qed.

(** [n] bytes less, or more, for a channel that has a limit. *)
Lemma use_quota_0 ch : use_quota 0 ch = ch.
Proof. unfold use_quota, set_quota. destruct ch; simpl. destruct (_ =? 0); [done|]. by rewrite Z.sub_0_r. Qed.

Lemma use_quota_add a b ch : use_quota (a + b) ch = use_quota b (use_quota a ch).
Proof. unfold use_quota. destruct (Z.eqb_spec (m_limit ch) 0) as [E|E]; [by rewrite E|]. simpl. rewrite (proj2 (Z.eqb_neq _ _)) by done. unfold set_quota; simpl. f_equal. lia. Qed.

Lemma return_use a ch : return_quota a ch = use_quota (- a) ch.
Proof. unfold return_quota, use_quota. destruct (_ =? 0); [done|]. f_equal. lia. Qed.

Lemma each_use a l st :
  present st l ->
  exists st', each_channel (fun c => Some (use_quota a c)) l st = Some st' /\ forall c, st' !! c = use_quota (occ c l * a) <$> st !! c.
Proof.
  apply (each_channel_spec (use_quota a) (fun n => use_quota (n * a))); [intros ch; apply use_quota_0|].
  intros n ch _. rewrite <- use_quota_add. f_equal. lia.
Qed.

Lemma each_return a l st :
  present st l ->
  exists st', each_channel (fun c => Some (return_quota a c)) l st = Some st' /\ forall c, st' !! c = return_quota (occ c l * a) <$> st !! c.
Proof.
  apply (each_channel_spec (return_quota a) (fun n => return_quota (n * a))); [intros ch; by rewrite return_use, use_quota_0|].
  intros n ch _. rewrite !return_use, <- use_quota_add. f_equal. lia.
Qed.

Lemma each_clear l st :
  present st l ->
  exists st', each_channel (fun c => Some (set_tmp 0 c)) l st = Some st' /\
    forall c, st' !! c = (fun ch => if decide (c ∈ l) then set_tmp 0 ch else ch) <$> st !! c.
Proof.
  intros Hp. destruct (each_channel_spec (set_tmp 0) (fun n ch => if 0 <? n then set_tmp 0 ch else ch) l st) as (st' & E & H); [done| |done|].
  - intros n ch Hn. rewrite (proj2 (Z.ltb_lt 0 (1 + n))) by lia. by destruct (0 <? n).
  - exists st'. split; [done|]. intros c. rewrite H. destruct (st !! c); [|done]. simpl. f_equal.
    destruct (decide (c ∈ l)) as [Hc|Hc]; [apply occ_pos in Hc; by rewrite (proj2 (Z.ltb_lt _ _))|apply occ_zero in Hc; by rewrite Hc].
Qed.

Lemma each_once f l st :
  NoDup l -> present st l ->
  exists st', each_channel (fun c => Some (f c)) l st = Some st' /\
    forall c, st' !! c = (fun ch => if decide (c ∈ l) then f ch else ch) <$> st !! c.
Proof.
  intros Hnd Hp. destruct (each_channel_spec f (fun n => Nat.iter (Z.to_nat n) f) l st) as (st' & E & H); [done| |done|].
  - intros n ch Hn. replace (Z.to_nat (1 + n)) with (S (Z.to_nat n)) by lia. apply Nat.iter_succ_r.
  - exists st'. split; [done|]. intros c. rewrite H. destruct (st !! c); [|done]. simpl. rewrite occ_NoDup by done. by case_decide.
Qed.

(** ** The share of a request *)

(** The bytes a channel grants to a request of a priority. *)
Definition share (prio : Z) (ch : bandwidth_channel) : Z := distribute_quota ch * prio / tmp ch.

Definition limits (ch : bandwidth_channel) : bool := negb (m_limit ch =? 0) && negb (tmp ch =? 0).

Fixpoint fair (prio : Z) (l : list Z) (st : store) (quota : Z) : Z :=
  match l with
  | [] => quota
  | c :: l =>
      match st !! c with
      | Some ch => fair prio l st (if limits ch then Z.min (share prio ch) quota else quota)
      | None => fair prio l st quota
      end
  end.

Definition grant (st : store) (r : bw_request) : Z := fair (priority r) (first_channels r) st (remaining r).

(** What the share of a request depends on. *)
Definition terms (ch : bandwidth_channel) : Z * Z * Z := (tmp ch, distribute_quota ch, m_limit ch).
Definition same_terms (st st' : store) : Prop := forall c, terms <$> st !! c = terms <$> st' !! c.

#[export] Instance same_terms_equiv : Equivalence same_terms.
Proof.
  split; [by intros st c|by intros st st' H c|]. intros s1 s2 s3 H1 H2 c. by rewrite H1.
Qed.

#[export] Instance fair_proper prio l : Proper (same_terms ==> eq ==> eq) (fair prio l).
Proof.
  intros st st' Hst q ? <-. revert q. induction l as [|c l IH]; intros q; simpl; [done|].
  specialize (Hst c). destruct (st !! c) as [ch|], (st' !! c) as [ch'|]; simpl in Hst; try done.
  injection Hst as H1 H2 H3. unfold limits, share. rewrite H1, H2, H3. apply IH.
Qed.

#[export] Instance grant_proper : Proper (same_terms ==> eq ==> eq) grant.
Proof. intros st st' Hst r ? <-. unfold grant. by rewrite Hst. Qed.

Lemma use_terms a ch : terms (use_quota a ch) = terms ch.
Proof. unfold use_quota. by destruct (_ =? 0). Qed.

Lemma same_terms_used (st st' : store) (f : Z -> Z) :
  (forall c, st' !! c = use_quota (f c) <$> st !! c) -> same_terms st st'.
Proof. intros H c. rewrite H. destruct (st !! c); [|done]. simpl. by rewrite use_terms. Qed.

Lemma fair_le prio l st q : fair prio l st q <= q.
Proof.
  revert q. induction l as [|c l IH]; intros q; simpl; [lia|]. destruct (st !! c) as [ch|]; [|apply IH].
  destruct (limits ch); [|apply IH]. etransitivity; [apply IH|]. lia.
Qed.

Lemma fair_share prio l st q c ch :
  c ∈ l -> st !! c = Some ch -> limits ch = true -> fair prio l st q <= share prio ch.
Proof.
  intros Hc Hch Hl. revert q. induction l as [|x l IH]; intros q; [by apply elem_of_nil in Hc|]. simpl.
  apply elem_of_cons in Hc as [<-|Hc]; [rewrite Hch, Hl; etransitivity; [apply fair_le|lia]|].
  destruct (st !! x) as [ch'|]; by apply IH.
Qed.

(** The share is that of the most limiting channel. *)
Lemma fair_attained prio l st q :
  fair prio l st q = q \/ exists c ch, c ∈ l /\ st !! c = Some ch /\ limits ch = true /\ fair prio l st q = share prio ch.
Proof.
  revert q. induction l as [|x l IH]; intros q; simpl; [by left|]. destruct (st !! x) as [ch|] eqn:Hx.
  - destruct (limits ch) eqn:Hl.
    + destruct (IH (Z.min (share prio ch) q)) as [->|(c & ch' & ? & ? & ? & ->)]; [|right; exists c, ch'; split_and!; try done; by right].
      destruct (Z.min_spec (share prio ch) q) as [[_ ->]|[_ ->]]; [right; exists x, ch; split_and!; try done; by left|by left].
    + destruct (IH q) as [->|(c & ch' & ? & ? & ? & ->)]; [by left|right; exists c, ch'; split_and!; try done; by right].
  - destruct (IH q) as [->|(c & ch' & ? & ? & ? & ->)]; [by left|right; exists c, ch'; split_and!; try done; by right].
Qed.

(** The budget of a channel is an [int], and the priorities of its requests are
    summed in [tmp]. *)
Definition sums (prio : Z) (l : list Z) (st : store) : Prop :=
  forall c ch, c ∈ l -> st !! c = Some ch -> m_limit ch <> 0 ->
    0 <= distribute_quota ch < 2 ^ 31 /\ (tmp ch = 0 \/ prio <= tmp ch).

Lemma share_range prio ch :
  0 < prio -> 0 <= distribute_quota ch < 2 ^ 31 -> prio <= tmp ch -> 0 <= share prio ch < 2 ^ 31.
Proof.
  intros Hp Hd Ht. unfold share. split; [apply Z.div_pos; nia|]. apply Z.div_lt_upper_bound; nia.
Qed.

Lemma limit_quota_fair prio l st q :
  0 < prio -> present st l -> sums prio l st -> limit_quota prio l st q = Some (fair prio l st q).
Proof.
  intros Hp. revert q. induction l as [|c l IH]; intros q Hpr Hs; simpl; [done|].
  apply present_cons in Hpr as [[ch Hch] Hpr]. rewrite Hch. simpl.
  assert (sums prio l st) as Hs' by (intros x chx Hx; apply Hs; by right). unfold limits.
  destruct (Z.eqb_spec (m_limit ch) 0) as [H0|H0]; [by apply IH|].
  destruct (Z.eqb_spec (tmp ch) 0) as [Ht|Ht]; [by apply IH|]. simpl.
  destruct (Hs c ch) as [Hd [?|Hle]]; [by left|done|done|lia|].
  rewrite Z.quot_div_nonneg by nia. fold (share prio ch).
  rewrite to_int_small by (pose proof (share_range prio ch Hp Hd Hle); lia). by apply IH.
Qed.

Lemma fair_nonneg prio l st q : 0 < prio -> sums prio l st -> 0 <= q -> 0 <= fair prio l st q.
Proof.
  intros Hp Hs Hq. destruct (fair_attained prio l st q) as [->|(c & ch & Hc & Hch & Hl & ->)]; [done|].
  unfold limits in Hl. apply andb_true_iff in Hl as [H0 Ht].
  apply negb_true_iff, Z.eqb_neq in H0. apply negb_true_iff, Z.eqb_neq in Ht.
  destruct (Hs c ch Hc Hch H0) as [Hd [?|Hle]]; [lia|]. by apply share_range.
Qed.

(** ** One request *)

(** A request after a round. *)
Definition served (st : store) (r : bw_request) : bw_request := set_assigned (assigned r + grant st r) (dec_ttl r).

Lemma present_take st r : present st (channel r) -> present st (first_channels r).
Proof. intros H c Hc. apply H. unfold first_channels in Hc. rewrite <- (take_drop 5 (channel r)). apply elem_of_app. by left. Qed.

Lemma assign_bandwidth_spec r st :
  0 < remaining r -> 0 < priority r -> present st (channel r) -> sums (priority r) (first_channels r) st ->
  exists st', assign_bandwidth r st = Some (grant st r, served st r, st') /\
    forall c, st' !! c = use_quota (occ c (first_channels r) * grant st r) <$> st !! c.
Proof.
  intros Hr Hp Hpr Hs. unfold assign_bandwidth. fold (remaining r). rewrite (proj2 (Z.eqb_neq _ _)) by lia.
  change (priority (dec_ttl r)) with (priority r). change (first_channels (dec_ttl r)) with (first_channels r).
  rewrite limit_quota_fair by (done || by apply present_take). fold (grant st r). simpl.
  destruct (each_use (grant st r) (first_channels r) st) as (st' & -> & H); [by apply present_take|]. by exists st'.
Qed.
