(* ===== verification/BandwidthRound.v ===== *)
(** * A round of the bandwidth manager

    [update_quotas] in equations: the requests of disconnecting peers give
    their bytes back ([refund]), every channel that is waited for gets its new
    quota and the sum of the priorities that share it ([prepared]), and every
    other request gets its [grant] ([distribute_spec]). *)

From Stdlib Require Import ZArith Lia.
From stdpp Require Import base numbers list gmap.
From S2P Require Import Prelude Bandwidth BandwidthSpec.

#[local] Abbreviation store := (gmap Z bandwidth_channel).

(** ** The invariant *)

Record req_ok (st : store) (r : bw_request) : Prop := {
  rq_assigned : 0 <= assigned r < request_size r;
  rq_prio : 0 < priority r;
  rq_chan : 0 < zlen (channel r) <= max_bandwidth_channels;
  rq_nodup : NoDup (channel r);
  rq_present : present st (channel r);
}.

Definition chan_ok (ch : bandwidth_channel) : Prop := 0 <= m_limit ch < inf.

Record manager_ok (m : bandwidth_manager) : Prop := {
  mo_queue : Forall (req_ok (chans m)) (m_queue m);
  mo_bytes : m_queued_bytes m = zsum remaining (m_queue m);
  mo_chans : forall c ch, chans m !! c = Some ch -> chan_ok ch;
}.

Lemma check_invariant_iff m : check_invariant m = true <-> m_queued_bytes m = zsum remaining (m_queue m).
Proof.
  unfold check_invariant. rewrite Z.eqb_eq. assert (foldr (fun r x => remaining r + x) 0 (m_queue m) = zsum remaining (m_queue m)) as ->; [|lia].
  by induction (m_queue m) as [|r l IH]; simpl; [|rewrite IH].
Qed.

Definition same_dom (st st' : store) : Prop := forall c, is_Some (st !! c) <-> is_Some (st' !! c).

#[export] Instance same_dom_equiv : Equivalence same_dom.
Proof. split; [by intros st c|by intros st st' H c|by intros s1 s2 s3 H1 H2 c; etransitivity; [apply H1|apply H2]]. Qed.

(** A store whose channels are the images of another's has the same addresses. *)
Ltac dom_map := match goal with H : forall c, ?st' !! c = _ <$> ?st !! c |- same_dom ?st ?st' => intros c; by rewrite H, fmap_is_Some end.

Lemma same_terms_dom st st' : same_terms st st' -> same_dom st st'.
Proof. intros H c. rewrite <- !(fmap_is_Some terms). by rewrite H. Qed.

Lemma same_dom_present st st' l : same_dom st st' -> present st l -> present st' l.
Proof. intros Hd Hp c Hc. by apply Hd, Hp. Qed.

Lemma same_dom_req st st' r : same_dom st st' -> req_ok st r -> req_ok st' r.
Proof. intros Hd []. split; try done. by eapply same_dom_present. Qed.

Lemma same_dom_queue st st' l : same_dom st st' -> Forall (req_ok st) l -> Forall (req_ok st') l.
Proof. intros Hd Hl. eapply Forall_impl; [exact Hl|]. intros r. by apply same_dom_req. Qed.

(** ** The channels of a queue *)

Definition chans_of (queue : list bw_request) : list Z := concat (map channel queue).

(** The priorities that share a channel. *)
Definition load (c : Z) (queue : list bw_request) : Z := zsum (fun r => occ c (channel r) * priority r) queue.

Lemma load_pos st c queue : Forall (req_ok st) queue -> c ∈ chans_of queue -> 0 < load c queue.
Proof.
  unfold chans_of, load. induction 1 as [|r queue Hr Hq IH]; simpl; [by intros ?%elem_of_nil|].
  assert (0 <= zsum (fun r => occ c (channel r) * priority r) queue) as H.
  { apply zsum_nonneg. intros r' Hr'. pose proof (occ_nonneg c (channel r')).
    rewrite Forall_forall in Hq. pose proof (rq_prio _ _ (Hq r' Hr')). nia. }
  pose proof (rq_prio _ _ Hr). pose proof (occ_nonneg c (channel r)).
  intros [Hc|Hc]%elem_of_app; [apply occ_pos in Hc; nia|]. specialize (IH Hc). nia.
Qed.

Lemma chans_of_present st queue : Forall (req_ok st) queue -> present st (chans_of queue).
Proof.
  unfold chans_of. induction 1 as [|r queue Hr Hq IH]; simpl; intros c; [by intros ?%elem_of_nil|].
  intros [Hc|Hc]%elem_of_app; [by apply (rq_present _ _ Hr)|by apply IH].
Qed.

Lemma load_zero c queue : c ∉ chans_of queue -> load c queue = 0.
Proof.
  unfold chans_of, load. induction queue as [|r queue IH]; simpl; [done|]. intros Hc. rewrite elem_of_app in Hc.
  rewrite IH by tauto. assert (occ c (channel r) = 0) as -> by (apply occ_zero; tauto). lia.
Qed.

(** ** The first loop *)

(** The bytes that go back to a channel. *)
Definition refund (c : Z) (gone : list bw_request) : Z := zsum (fun r => occ c (channel r) * assigned r) gone.

Definition cleared (c : Z) (l : list Z) (ch : bandwidth_channel) : bandwidth_channel :=
  if decide (c ∈ l) then set_tmp 0 ch else ch.

Lemma cleared_app c l k ch : cleared c k (cleared c l ch) = cleared c (l ++ k) ch.
Proof.
  unfold cleared. destruct (decide (c ∈ l)), (decide (c ∈ k)); destruct (decide (c ∈ l ++ k)) as [H|H]; rewrite elem_of_app in H; done || tauto.
Qed.

Lemma cleared_return c l a ch : return_quota a (cleared c l ch) = cleared c l (return_quota a ch).
Proof. unfold cleared. case_decide; [|done]. unfold return_quota. simpl. by destruct (_ =? 0). Qed.

Lemma return_quota_add a b ch : return_quota b (return_quota a ch) = return_quota (a + b) ch.
Proof. rewrite !return_use, <- use_quota_add. f_equal. lia. Qed.

Section round.
Context (is_disconnecting : Z -> bool).
#[local] Abbreviation gone queue := (filter (fun r => is_disconnecting (peer r) = true) queue).
#[local] Abbreviation live queue := (filter (fun r => ~ is_disconnecting (peer r) = true) queue).

Lemma drop_peers_spec queue m tm :
  Forall (fun r => present (chans m) (channel r)) queue ->
  exists st', drop_peers is_disconnecting queue m tm =
      Some (Manager (m_queue m ++ live queue) (m_queued_bytes m - zsum remaining (gone queue)) (m_abort m) st',
            tm ++ map (set_assigned 0) (gone queue)) /\
    forall c, st' !! c = (fun ch => cleared c (chans_of (live queue)) (return_quota (refund c (gone queue)) ch)) <$> chans m !! c.
Proof.
  revert m tm. induction queue as [|r queue IH]; intros m tm Hp.
  { exists (chans m). cbn [drop_peers]. rewrite !filter_nil. simpl. rewrite Z.sub_0_r, !app_nil_r. split; [by destruct m|].
    intros c. destruct (chans m !! c) as [ch|]; [|done]. simpl. unfold cleared. rewrite decide_False by apply not_elem_of_nil.
    unfold refund. simpl. by rewrite return_use, use_quota_0. }
  apply Forall_cons in Hp as [Hr Hp]. cbn [drop_peers]. rewrite !filter_cons. destruct (is_disconnecting (peer r)) eqn:Hd.
  - rewrite (decide_True (P := true = true)) by done. rewrite (decide_False (P := true <> true)) by (intros H; by apply H).
    destruct (each_return (assigned r) (channel r) (chans m) Hr) as (st1 & -> & H1). cbn [mbind option_bind].
    edestruct (IH (Manager (m_queue m) (m_queued_bytes m - remaining r) (m_abort m) st1) (tm ++ [set_assigned 0 r])) as (st' & E & H').
    { eapply Forall_impl; [exact Hp|]. intros r' Hr'. simpl. eapply same_dom_present; [|exact Hr']. dom_map. }
    exists st'. rewrite E. cbn [m_queue m_queued_bytes m_abort chans map zsum] in *. split.
    { rewrite <- app_assoc. simpl. do 3 f_equal. lia. }
    intros c. rewrite H', H1. destruct (chans m !! c) as [ch|]; [|done]. simpl. by rewrite return_quota_add.
  - rewrite (decide_False (P := false = true)), (decide_True (P := false <> true)) by done.
    destruct (each_clear (channel r) (chans m) Hr) as (st1 & -> & H1). cbn [mbind option_bind].
    edestruct (IH (Manager (m_queue m ++ [r]) (m_queued_bytes m) (m_abort m) st1) tm) as (st' & E & H').
    { eapply Forall_impl; [exact Hp|]. intros r' Hr'. simpl. eapply same_dom_present; [|exact Hr']. dom_map. }
    exists st'. rewrite E. cbn [m_queue m_queued_bytes m_abort chans] in *. split; [by rewrite <- app_assoc|].
    intros c. rewrite H', H1. destruct (chans m !! c) as [ch|]; [|done]. simpl. f_equal.
    fold (cleared c (channel r) ch). rewrite cleared_return. unfold chans_of. simpl. by rewrite <- cleared_app.
Qed.
End round.

(** ** The second loop *)

Definition add_tmp (x : Z) (ch : bandwidth_channel) : bandwidth_channel := set_tmp (tmp ch + x) ch.

Lemma add_tmp_0 ch : add_tmp 0 ch = ch.
Proof. unfold add_tmp, set_tmp. rewrite Z.add_0_r. by destruct ch. Qed.

Lemma add_tmp_add a b ch : add_tmp b (add_tmp a ch) = add_tmp (a + b) ch.
Proof. unfold add_tmp, set_tmp. simpl. f_equal. lia. Qed.

(** [chs] are the channels of [live] that a priority was added to. *)
Definition tracked (live : list Z) (st : store) (chs : list Z) : Prop :=
  NoDup chs /\ (forall c, c ∈ chs -> c ∈ live) /\
  forall c ch, c ∈ live -> st !! c = Some ch -> 0 <= tmp ch /\ (c ∈ chs <-> 0 < tmp ch).

Lemma tracked_step live st chs x ch prio :
  0 < prio -> x ∈ live -> st !! x = Some ch -> tracked live st chs ->
  tracked live (<[x := add_tmp prio ch]> st) (if tmp ch =? 0 then chs ++ [x] else chs).
Proof.
  intros Hprio Hl Hch (Hnd & Hin & Ht). destruct (Ht x ch Hl Hch) as [Htmp Hx].
  assert (forall c, c ∈ (if tmp ch =? 0 then chs ++ [x] else chs) <-> c ∈ chs \/ c = x) as Hc.
  { intros c. destruct (Z.eqb_spec (tmp ch) 0); [by rewrite elem_of_app, list_elem_of_singleton|].
    split; [by left|]. intros [?| ->]; [done|]. apply Hx. lia. }
  split_and!.
  - destruct (Z.eqb_spec (tmp ch) 0) as [H0|]; [|done]. apply NoDup_app. split_and!; [done| |by apply NoDup_singleton].
    intros y Hy Hy'%list_elem_of_singleton. subst y. apply Hx in Hy. lia.
  - intros c [?| ->]%Hc; [by apply Hin|done].
  - intros c ch' Hcl Hch'. rewrite Hc. destruct (decide (c = x)) as [->|Hne].
    + rewrite lookup_insert_eq in Hch'. injection Hch' as <-. simpl. split; [lia|]. split; [lia|by right].
    + rewrite lookup_insert_ne in Hch' by done. destruct (Ht c ch' Hcl Hch') as [? Hiff]. split; [done|]. rewrite <- Hiff. tauto.
Qed.

Lemma add_priorities_spec live prio l st chs :
  0 < prio -> (forall c, c ∈ l -> c ∈ live) -> present st l -> tracked live st chs ->
  (forall c ch, c ∈ l -> st !! c = Some ch -> tmp ch + occ c l * prio < 2 ^ 31) ->
  exists st' chs', add_priorities prio l st chs = Some (st', chs') /\ tracked live st' chs' /\
    forall c, st' !! c = add_tmp (occ c l * prio) <$> st !! c.
Proof.
  intros Hprio. revert st chs. induction l as [|x l IH]; intros st chs Hl Hp Ht Hlim; simpl.
  { exists st, chs. split_and!; try done. intros c. destruct (st !! c); [|done]. simpl. by rewrite add_tmp_0. }
  apply present_cons in Hp as [[ch Hch] Hp]. rewrite Hch. simpl.
  assert (x ∈ live) as Hx by (apply Hl; by left). destruct (proj2 (proj2 Ht) x ch Hx Hch) as [Htmp _].
  pose proof (occ_nonneg x l). specialize (Hlim x ch ltac:(by left) Hch) as Hlimx. simpl in Hlimx. rewrite decide_True in Hlimx by done.
  rewrite checked_int_ok by nia. simpl.
  edestruct (IH _ _ (fun c Hc => Hl c ltac:(by right)) (present_insert _ x (add_tmp prio ch) _ Hp) (tracked_step _ _ _ _ _ _ Hprio Hx Hch Ht))
    as (st' & chs' & E & Ht' & H').
  - intros c ch' Hc. destruct (decide (c = x)) as [->|Hne]; [rewrite lookup_insert_eq; intros [= <-]; simpl; lia|].
    rewrite lookup_insert_ne by done. intros Hch'. specialize (Hlim c ch' ltac:(by right) Hch'). simpl in Hlim.
    rewrite decide_False in Hlim by done. lia.
  - exists st', chs'. split; [exact E|]. split; [done|]. intros c. rewrite H'. destruct (decide (x = c)) as [->|Hne].
    + rewrite lookup_insert_eq, Hch. simpl. rewrite add_tmp_add. do 2 f_equal. lia.
    + by rewrite lookup_insert_ne.
Qed.

Lemma load_nonneg st c queue : Forall (req_ok st) queue -> 0 <= load c queue.
Proof.
  intros H. apply zsum_nonneg. intros r Hr. rewrite Forall_forall in H. pose proof (rq_prio _ _ (H r Hr)).
  pose proof (occ_nonneg c (channel r)). nia.
Qed.

Lemma sum_priorities_spec live queue st chs :
  Forall (req_ok st) queue -> (forall c, c ∈ chans_of queue -> c ∈ live) -> tracked live st chs ->
  (forall c ch, st !! c = Some ch -> c ∈ chans_of queue -> tmp ch + load c queue < 2 ^ 31) ->
  exists st' chs', sum_priorities queue st chs = Some (st', chs') /\ tracked live st' chs' /\
    forall c, st' !! c = add_tmp (load c queue) <$> st !! c.
Proof.
  revert st chs. induction queue as [|r queue IH]; intros st chs Hq Hl Ht Hlim.
  { exists st, chs. split_and!; try done. intros c. destruct (st !! c); [|done]. simpl. by rewrite add_tmp_0. }
  pose proof Hq as [Hr Hq']%Forall_cons. unfold chans_of in Hl, Hlim. cbn [map concat] in Hl, Hlim.
  assert (forall c, load c (r :: queue) = occ c (channel r) * priority r + load c queue) as Hload by done.
  assert (forall c, 0 <= load c queue) as Hn by (intros c; by eapply load_nonneg).
  destruct (add_priorities_spec live (priority r) (channel r) st chs) as (st1 & chs1 & E1 & Ht1 & H1).
  - apply Hr.
  - intros c Hc. apply Hl, elem_of_app. by left.
  - apply Hr.
  - done.
  - intros c ch Hc Hch. specialize (Hlim c ch Hch ltac:(apply elem_of_app; by left)). rewrite Hload in Hlim. specialize (Hn c). lia.
  - destruct (IH st1 chs1) as (st' & chs' & E & Ht' & H').
    + eapply same_dom_queue; [|exact Hq']. dom_map.
    + intros c Hc. apply Hl, elem_of_app. by right.
    + done.
    + intros c ch. rewrite H1. destruct (st !! c) as [ch0|] eqn:Hch; [|done]. intros [= <-] Hc. simpl.
      specialize (Hlim c ch0 Hch ltac:(apply elem_of_app; by right)). rewrite Hload in Hlim. lia.
    + exists st', chs'. cbn [sum_priorities]. rewrite E1. simpl. split_and!; [done|done|].
      intros c. rewrite H', H1. destruct (st !! c); [|done]. simpl. by rewrite add_tmp_add.
Qed.

(** ** The last loop *)

(** A request is answered when it is complete, or when it has waited long
    enough and has something. *)
Definition complete (r : bw_request) : Prop := assigned r = request_size r \/ (ttl r <= 0 /\ 0 < assigned r).

#[export] Instance complete_dec r : Decision (complete r).
Proof. apply _. Defined.

(** The bytes a channel gives to a queue. *)
Definition spent (c : Z) (queue : list bw_request) (st : store) : Z :=
  zsum (fun r => occ c (first_channels r) * grant st r) queue.

Lemma complete_test r :
  (assigned r =? request_size r) || ((ttl r <=? 0) && (0 <? assigned r)) = bool_decide (complete r).
Proof. unfold complete. case_bool_decide; lia. Qed.

(** Budgets and loads, as the last loop needs them. *)
Definition ready (st : store) (queue : list bw_request) : Prop :=
  forall r, r ∈ queue -> req_ok st r /\ sums (priority r) (first_channels r) st.

Lemma sums_terms prio l st st' : same_terms st st' -> sums prio l st -> sums prio l st'.
Proof.
  intros Ht H c ch' Hc Hch' Hl. specialize (Ht c). rewrite Hch' in Ht. destruct (st !! c) as [ch|] eqn:Hch; [|done].
  injection Ht as E1 E2 E3. rewrite <- E1, <- E2. by apply (H c); [| |rewrite E3].
Qed.

Lemma grant_range st r : req_ok st r -> sums (priority r) (first_channels r) st -> 0 <= grant st r <= remaining r.
Proof.
  intros [] Hs. split; [|apply fair_le]. apply fair_nonneg; [done|done|]. unfold remaining. lia.
Qed.

Lemma hand_out_spec st0 queue m tm :
  ready st0 queue -> same_terms st0 (chans m) ->
  let rs := map (served st0) queue in
  exists st', hand_out queue m tm =
      Some (Manager (m_queue m ++ filter (fun r => ~ complete r) rs)
              (m_queued_bytes m - zsum remaining queue + zsum remaining (filter (fun r => ~ complete r) rs)) (m_abort m) st',
            tm ++ filter complete rs) /\
    forall c, st' !! c = use_quota (spent c queue st0) <$> chans m !! c.
Proof.
  revert m tm. induction queue as [|r queue IH]; intros m tm Hq Ht; cbn zeta.
  { exists (chans m). cbn [hand_out map]. rewrite !filter_nil. simpl. rewrite !app_nil_r, Z.sub_0_r, Z.add_0_r. split; [by destruct m|].
    intros c. destruct (chans m !! c); [|done]. simpl. by rewrite use_quota_0. }
  destruct (Hq r ltac:(by left)) as [Hr Hs]. pose proof (rq_assigned _ _ Hr). cbn [hand_out map].
  destruct (assign_bandwidth_spec r (chans m)) as (st1 & -> & H1).
  { unfold remaining. lia. } { apply Hr. } { eapply same_dom_present; [by apply same_terms_dom|apply Hr]. } { by eapply sums_terms. }
  assert (grant (chans m) r = grant st0 r) as Hg by (by rewrite Ht). unfold served at 1. rewrite Hg. cbn [mbind option_bind] in *.
  rewrite Hg in H1. fold (served st0 r). rewrite complete_test.
  set (m1 := Manager _ (_ - (_ + _)) _ _). set (m2 := Manager _ (m_queued_bytes m - grant st0 r) _ _).
  assert (forall m' tm', chans m' = st1 -> exists st', hand_out queue m' tm' =
      Some (Manager (m_queue m' ++ filter (fun r => ~ complete r) (map (served st0) queue))
         (m_queued_bytes m' - zsum remaining queue + zsum remaining (filter (fun r => ~ complete r) (map (served st0) queue))) (m_abort m') st',
         tm' ++ filter complete (map (served st0) queue)) /\
      forall c, st' !! c = use_quota (spent c (r :: queue) st0) <$> chans m !! c) as IH'.
  { intros m' tm' Hm'. destruct (IH m' tm') as (st' & E & H').
    - intros r' Hr'. apply Hq. by right.
    - rewrite Hm'. etransitivity; [exact Ht|]. exact (same_terms_used _ _ (fun c => occ c (first_channels r) * grant st0 r) H1).
    - exists st'. split; [exact E|]. intros c. rewrite H', Hm', H1. destruct (chans m !! c); [|done]. simpl.
      unfold spent. simpl. by rewrite use_quota_add. }
  assert (remaining (served st0 r) = remaining r - grant st0 r) as Hrem by (unfold served, remaining; simpl; lia).
  rewrite !filter_cons. destruct (decide (complete (served st0 r))) as [Hc|Hc].
  - rewrite bool_decide_true by done. rewrite decide_False by tauto.
    destruct (IH' m1 (tm ++ [served st0 r])) as (st' & -> & H'); [done|]. exists st'. split; [|done].
    unfold m1. cbn [m_queue m_queued_bytes m_abort zsum]. rewrite <- app_assoc. do 3 f_equal. lia.
  - rewrite bool_decide_false by done. rewrite decide_True by done.
    destruct (IH' m2 tm) as (st' & -> & H'); [done|]. exists st'. split; [|done].
    unfold m2. cbn [m_queue m_queued_bytes m_abort zsum]. rewrite <- app_assoc. simpl. do 3 f_equal. lia.
Qed.

(** ** The round *)

Lemma update_quota_tmp dt x ch : update_quota dt (set_tmp x ch) = set_tmp x (update_quota dt ch).
Proof. unfold update_quota. simpl. by destruct (_ =? 0). Qed.

Lemma update_quota_limit dt ch : m_limit (update_quota dt ch) = m_limit ch.
Proof. unfold update_quota. by destruct (_ =? 0). Qed.

(** The bytes a channel can give in a round. *)
Lemma update_quota_budget dt ch :
  m_limit ch <> 0 -> distribute_quota (update_quota dt ch) = Z.max (m_quota_left (update_quota dt ch)) 0 /\
    0 <= distribute_quota (update_quota dt ch) < 2 ^ 31.
Proof.
  intros H. unfold update_quota. rewrite (proj2 (Z.eqb_neq _ _)) by done. cbn [distribute_quota m_quota_left].
  set (q := if _ <? _ then _ else _). assert (q <= inf) as Hq by (unfold q; destruct (_ <? _); lia).
  unfold inf in Hq. rewrite to_int_small by lia. lia.
Qed.

Section distribute.
Context (is_disconnecting : Z -> bool) (dt : Z).
#[local] Abbreviation gone queue := (filter (fun r => is_disconnecting (peer r) = true) queue).
#[local] Abbreviation live queue := (filter (fun r => ~ is_disconnecting (peer r) = true) queue).

(** A channel when the last loop starts. *)
Definition prepare (queue : list bw_request) (c : Z) (ch : bandwidth_channel) : bandwidth_channel :=
  let ch := return_quota (refund c (gone queue)) ch in
  if decide (c ∈ chans_of (live queue)) then update_quota (Z.min dt 3000) (set_tmp (load c (live queue)) ch) else ch.

Definition prepared (queue : list bw_request) (st : store) : store := map_imap (fun c ch => Some (prepare queue c ch)) st.

Lemma prepared_lookup queue st c : prepared queue st !! c = prepare queue c <$> st !! c.
Proof. unfold prepared. rewrite map_lookup_imap. by destruct (st !! c). Qed.

(** The priorities a channel serves do not overflow an [int]. *)
Definition loads_fit (queue : list bw_request) : Prop := forall c, load c (live queue) < 2 ^ 31.

Lemma live_ok st queue : Forall (req_ok st) queue -> Forall (req_ok st) (live queue).
Proof. rewrite !Forall_forall. intros H r Hr. apply H. by apply list_elem_of_filter in Hr as [_ ?]. Qed.

Lemma elem_chans_of c r queue : r ∈ queue -> c ∈ channel r -> c ∈ chans_of queue.
Proof.
  intros Hr Hc. unfold chans_of. apply list_elem_of_In, in_concat. exists (channel r).
  split; [apply list_elem_of_In, list_elem_of_fmap; by exists r|by apply list_elem_of_In].
Qed.

Lemma load_ge st c r queue : Forall (req_ok st) queue -> r ∈ queue -> occ c (channel r) * priority r <= load c queue.
Proof.
  intros Hq Hr. unfold load. apply (zsum_elem (fun r => occ c (channel r) * priority r)); [|done].
  intros r' Hr'. rewrite Forall_forall in Hq. pose proof (rq_prio _ _ (Hq r' Hr')). pose proof (occ_nonneg c (channel r')). nia.
Qed.

Lemma prepared_ready st queue : Forall (req_ok st) queue -> ready (prepared queue st) (live queue).
Proof.
  intros Hq r Hr. pose proof (live_ok st queue Hq) as Hl. rewrite Forall_forall in Hl. pose proof (Hl r Hr) as Hrok. split.
  { eapply same_dom_req; [|exact Hrok]. intros c. by rewrite prepared_lookup, fmap_is_Some. }
  intros c ch Hc. rewrite prepared_lookup. destruct (st !! c) as [ch0|] eqn:Hst; [|done]. intros [= <-]. unfold prepare.
  assert (c ∈ channel r) as Hcr by (unfold first_channels in Hc; rewrite <- (take_drop 5 (channel r)); apply elem_of_app; by left).
  rewrite decide_True by (by apply (elem_chans_of c r)). rewrite update_quota_tmp. cbn [set_tmp m_limit distribute_quota tmp].
  rewrite update_quota_limit. intros H0. split; [by apply update_quota_budget|]. right.
  pose proof (load_ge st c r (live queue) (live_ok st queue Hq) Hr). apply occ_pos in Hcr. pose proof (rq_prio _ _ Hrok). nia.
Qed.

(** The share of a request in a prepared channel, by the channel's budget and
    load. *)
Lemma prepared_share m r c ch :
  manager_ok m -> r ∈ live (m_queue m) -> c ∈ first_channels r -> prepared (m_queue m) (chans m) !! c = Some ch -> m_limit ch <> 0 ->
  limits ch = true /\ share (priority r) ch = Z.max (m_quota_left ch) 0 * priority r / load c (live (m_queue m)).
Proof.
  intros Hm Hr Hc. rewrite prepared_lookup. destruct (chans m !! c) as [ch0|]; [|done]. intros [= <-]. unfold prepare.
  assert (c ∈ channel r) as Hcr by (unfold first_channels in Hc; rewrite <- (take_drop 5 (channel r)); apply elem_of_app; by left).
  assert (c ∈ chans_of (live (m_queue m))) as Hin by (by apply (elem_chans_of c r)).
  rewrite decide_True by done. rewrite update_quota_tmp. cbn [set_tmp m_limit]. rewrite update_quota_limit. intros H0.
  pose proof (load_pos _ _ _ (live_ok _ _ (mo_queue _ Hm)) Hin). destruct (update_quota_budget (Z.min dt 3000) _ H0) as [Hb _].
  unfold limits, share. cbn [set_tmp m_limit tmp distribute_quota m_quota_left]. rewrite update_quota_limit, Hb. split; [|done].
  destruct (Z.eqb_spec (m_limit (return_quota (refund c (gone (m_queue m))) ch0)) 0); [done|].
  by rewrite (proj2 (Z.eqb_neq _ _)) by lia.
Qed.

Lemma distribute_spec m :
  manager_ok m -> 0 <= dt -> loads_fit (m_queue m) ->
  let st := prepared (m_queue m) (chans m) in
  let rs := map (served st) (live (m_queue m)) in
  exists st', distribute is_disconnecting dt m =
      Some (Manager (filter (fun r => ~ complete r) rs) (zsum remaining (filter (fun r => ~ complete r) rs)) (m_abort m) st',
            map (set_assigned 0) (gone (m_queue m)) ++ filter complete rs) /\
    forall c, st' !! c = use_quota (spent c (live (m_queue m)) st) <$> st !! c.
Proof.
  intros [Hq Hb Hch] Hdt Hfit st rs. unfold distribute.
  destruct (drop_peers_spec is_disconnecting (m_queue m) (Manager [] (m_queued_bytes m) (m_abort m) (chans m)) []) as (st1 & -> & H1).
  { eapply Forall_impl; [exact Hq|]. intros r Hr. apply Hr. }
  cbn [mbind option_bind m_queue chans m_queued_bytes m_abort app] in *. set (l := live (m_queue m)) in *.
  assert (Forall (req_ok (chans m)) l) as Hl by (by apply live_ok).
  assert (forall c ch, c ∈ chans_of l -> st1 !! c = Some ch -> tmp ch = 0) as Hz.
  { intros c ch Hc. rewrite H1. destruct (chans m !! c); [|done]. intros [= <-]. unfold cleared. by rewrite decide_True. }
  assert (tracked (chans_of l) st1 []) as Ht.
  { split_and!; [by apply NoDup_nil|by intros c ?%elem_of_nil|]. intros c ch Hc Hc1. rewrite (Hz c ch Hc Hc1). split; [lia|].
    split; [by intros ?%elem_of_nil|lia]. }
  destruct (sum_priorities_spec (chans_of l) l st1 []) as (st2 & chs & -> & (Hnd & Hin & Htr) & H2).
  { eapply same_dom_queue; [|exact Hl]. dom_map. } { done. } { done. }
  { intros c ch Hc1 Hc. rewrite (Hz c ch Hc Hc1). apply Hfit. }
  cbn [mbind option_bind].
  assert (forall c ch, st2 !! c = Some ch -> (c ∈ chs <-> c ∈ chans_of l)) as Hchs.
  { intros c ch Hc2. split; [apply Hin|]. intros Hc. apply (Htr c ch Hc Hc2). rewrite H2 in Hc2.
    destruct (st1 !! c) as [ch1|] eqn:E1; [|done]. injection Hc2 as <-. simpl. rewrite (Hz c ch1 Hc E1). by eapply load_pos. }
  assert (to_int (if 3000 <? dt then 3000 else dt) = Z.min dt 3000) as ->.
  { destruct (Z.ltb_spec 3000 dt); rewrite to_int_small by lia; lia. }
  destruct (each_once (update_quota (Z.min dt 3000)) chs st2 Hnd) as (st3 & -> & H3).
  { assert (same_dom (chans m) st2) as Hd by (transitivity st1; dom_map).
    intros c Hc. apply Hd, (chans_of_present _ l); [done|by apply Hin]. }
  cbn [mbind option_bind]. assert (st3 = st) as ->.
  { apply map_eq. intros c. unfold st. rewrite prepared_lookup, H3, H2, H1. destruct (chans m !! c) as [ch|] eqn:Hc; [|done]. simpl. f_equal.
    specialize (Hchs c). rewrite H2, H1, Hc in Hchs. specialize (Hchs _ eq_refl). fold l.
    unfold prepare, cleared. fold l. destruct (decide (c ∈ chs)), (decide (c ∈ chans_of l)) as [Hcl|Hcl]; try tauto.
    rewrite (load_zero c l) by done. apply add_tmp_0. }
  destruct (hand_out_spec st l (Manager [] (m_queued_bytes m - zsum remaining (gone (m_queue m))) (m_abort m) st)
    (map (set_assigned 0) (gone (m_queue m)))) as (st' & -> & H'); [by apply prepared_ready|done|].
  exists st'. split; [|exact H']. cbn [m_queue m_queued_bytes m_abort]. fold rs. do 3 f_equal.
  rewrite Hb, (zsum_filter remaining (fun r => is_disconnecting (peer r) = true) (m_queue m)). fold l. simpl. lia.
Qed.
End distribute.
