(* ===== verification/BandwidthRun.v ===== *)
(** * Runs of the bandwidth manager

    [bw_op] are the operations the rest of the program performs on a manager
    and its channels, [bw_exec] runs one and returns the requests it answers,
    those answered at once included.  [delivered c] is what the peers got
    through a channel; [funds c] is what the channel still holds for them.  An
    operation never adds more to both than the quota it grants the channel. *)

From Stdlib Require Import ZArith Lia.
From stdpp Require Import base numbers list gmap.
From S2P Require Import Prelude Bandwidth BandwidthSpec BandwidthRound.

#[local] Abbreviation store := (gmap Z bandwidth_channel).

(** ** Operations *)

Inductive bw_op :=
  | Ask (pe blk prio : Z) (chan : list Z)
  | Round (is_disconnecting : Z -> bool) (dt : Z)
  | Close
  | Throttle (c limit : Z)
  | Overhead (c amount : Z).   (* [session_impl::use_quota_overhead] *)

Definition on_channel (f : bandwidth_channel -> bandwidth_channel) (c : Z) (m : bandwidth_manager) : option bandwidth_manager :=
  ch ← chans m !! c; Some (Manager (m_queue m) (m_queued_bytes m) (m_abort m) (<[c := f ch]> (chans m))).

(** The requests answered, and the manager after the operation. *)
Definition bw_exec (o : bw_op) (m : bandwidth_manager) : option (list bw_request * bandwidth_manager) :=
  match o with
  | Ask pe blk prio chan =>
      '(now, m) ← request_bandwidth pe blk prio chan m;
      Some (if now =? 0 then [] else [set_assigned now (new_request pe blk prio chan)], m)
  | Round is_disconnecting dt =>
      if m_abort m then Some ([], m)
      else match m_queue m with
           | [] => Some ([], m)
           | _ => '(m, tm) ← distribute is_disconnecting dt m; Some (tm, m)
           end
  | Close => Some (m_queue m, snd (close m))
  | Throttle c limit => m ← on_channel (throttle limit) c m; Some ([], m)
  | Overhead c amount => m ← on_channel (use_quota amount) c m; Some ([], m)
  end.

(** A round answers the peers of these requests, the last one first. *)
Lemma update_quotas_exec is_disconnecting dt m :
  update_quotas is_disconnecting dt m = (fun x => (answers (fst x), snd x)) <$> bw_exec (Round is_disconnecting dt) m.
Proof.
  unfold update_quotas. cbn [bw_exec]. destruct (m_abort m); [done|]. destruct (m_queue m); [done|].
  by destruct (distribute _ _ _) as [[m' tm]|].
Qed.

Definition enabled (o : bw_op) (m : bandwidth_manager) : Prop :=
  match o with
  | Ask pe blk prio chan =>
      0 < blk /\ 0 < prio /\ NoDup chan /\ zlen chan <= max_bandwidth_channels /\ present (chans m) chan
  | Round is_disconnecting dt => 0 <= dt /\ loads_fit is_disconnecting (m_queue m)
  | Close => True
  | Throttle c limit => is_Some (chans m !! c) /\ 0 <= limit < inf
  | Overhead c amount => is_Some (chans m !! c) /\ 0 <= amount
  end.

(** ** Asking for bandwidth *)

Definition waits (blk : Z) (st : store) (c : Z) : Prop :=
  match st !! c with Some ch => m_quota_left ch - blk < m_limit ch | None => False end.

#[export] Instance waits_dec blk st c : Decision (waits blk st c).
Proof. unfold waits. destruct (st !! c); apply _. Defined.

(** What a channel gives at once. *)
Definition advance (blk : Z) (chan : list Z) (st : store) (c : Z) (ch : bandwidth_channel) : bandwidth_channel :=
  if decide (c ∈ chan /\ ~ waits blk st c) then set_quota (m_quota_left ch - blk) ch else ch.

Lemma pick_channels_spec blk chan l st :
  NoDup chan -> present st chan -> zlen l + zlen chan <= max_bandwidth_channels ->
  exists st', pick_channels blk chan l st = Some (l ++ filter (waits blk st) chan, st') /\
    forall c, st' !! c = advance blk chan st c <$> st !! c.
Proof.
  intros Hnd. revert l st. induction Hnd as [|x chan Hx Hnd IH]; intros l st Hp Hlen.
  { exists st. simpl. rewrite app_nil_r. split; [done|]. intros c. destruct (st !! c); [|done]. simpl.
    unfold advance. rewrite decide_False; [done|]. by intros [?%elem_of_nil _]. }
  apply present_cons in Hp as [[ch Hch] Hp]. cbn [pick_channels]. rewrite Hch. cbn [mbind option_bind].
  assert (waits blk st x <-> m_quota_left ch - blk < m_limit ch) as Hw by (unfold waits; by rewrite Hch).
  assert (forall st', (forall c, c <> x -> st' !! c = st !! c) -> filter (waits blk st') chan = filter (waits blk st) chan) as Hsame.
  { intros st' H. apply filter_elem_ext. intros c Hc. unfold waits. rewrite H; [done|]. by intros ->. }
  rewrite zlen_cons in Hlen. unfold need_queueing. destruct (Z.ltb_spec (m_quota_left ch - blk) (m_limit ch)) as [Hlt|Hge].
  - rewrite (proj2 (Z.ltb_lt _ _)) by lia. rewrite insert_id by done.
    destruct (IH (l ++ [x]) st) as (st' & -> & H'); [done|rewrite zlen_app, zlen_cons; simpl length; lia|].
    exists st'. rewrite filter_cons, decide_True by tauto. rewrite <- app_assoc. split; [done|].
    intros c. rewrite H'. destruct (st !! c); [|done]. simpl. f_equal. unfold advance.
    destruct (decide (c = x)) as [->|Hne]; [rewrite !decide_False by (intros [??]; tauto); done|].
    apply decide_ext. rewrite elem_of_cons. tauto.
  - destruct (IH l (<[x := set_quota (m_quota_left ch - blk) ch]> st)) as (st' & -> & H'); [by apply present_insert|lia|].
    exists st'. rewrite filter_cons, decide_False by (rewrite Hw; lia).
    rewrite Hsame by (intros c Hc; by rewrite lookup_insert_ne). split; [done|].
    intros c. rewrite H'. unfold advance. destruct (decide (c = x)) as [->|Hne].
    + rewrite lookup_insert_eq, Hch. simpl. rewrite decide_False by tauto. rewrite decide_True; [done|].
      split; [by left|]. rewrite Hw. lia.
    + rewrite lookup_insert_ne by done. destruct (st !! c) eqn:Hc; [|done]. simpl. f_equal.
      apply decide_ext. rewrite elem_of_cons. unfold waits. rewrite lookup_insert_ne by done. tauto.
Qed.

(** ** The invariant is kept *)

Lemma use_quota_limit a ch : m_limit (use_quota a ch) = m_limit ch.
Proof. unfold use_quota. by destruct (_ =? 0). Qed.

Lemma prepare_limit is_disconnecting dt queue c ch : m_limit (prepare is_disconnecting dt queue c ch) = m_limit ch.
Proof. unfold prepare. rewrite return_use. case_decide; [rewrite update_quota_limit|]; simpl; apply use_quota_limit. Qed.

Lemma served_ok st st0 r :
  req_ok st r -> sums (priority r) (first_channels r) st0 -> ~ complete (served st0 r) -> req_ok st (served st0 r).
Proof.
  intros [] Hs Hc. split; simpl; try done. pose proof (fair_le (priority r) (first_channels r) st0 (remaining r)) as Hle.
  assert (0 <= grant st0 r) by (apply fair_nonneg; [done|done|unfold remaining; lia]). fold (grant st0 r) in Hle.
  unfold remaining in Hle. assert (assigned r + grant st0 r <> request_size r) by (intros E; apply Hc; by left). lia.
Qed.

Lemma round_ok is_disconnecting dt m :
  manager_ok m -> 0 <= dt -> loads_fit is_disconnecting (m_queue m) ->
  exists tm m', distribute is_disconnecting dt m = Some (m', tm) /\ manager_ok m'.
Proof.
  intros Hm Hdt Hfit. pose proof Hm as [Hq Hb Hch].
  destruct (distribute_spec is_disconnecting dt m Hm Hdt Hfit) as (st' & -> & H').
  pose proof (prepared_ready is_disconnecting dt (chans m) (m_queue m) Hq) as Hready.
  set (st := prepared _ _ _ _) in *. eexists _, _. split; [done|]. split; simpl; [|done|].
  - apply Forall_forall. intros r [Hc Hr]%list_elem_of_filter. apply list_elem_of_fmap in Hr as (r0 & -> & Hr0).
    destruct (Hready r0 Hr0) as [Hok Hs]. apply served_ok; [|done|done]. eapply same_dom_req; [|exact Hok]. dom_map.
  - intros c ch. rewrite H'. unfold st. rewrite prepared_lookup. destruct (chans m !! c) as [ch0|] eqn:Hc; [|done]. intros [= <-].
    unfold chan_ok. rewrite use_quota_limit, prepare_limit. by apply (Hch c).
Qed.

Lemma ask_spec pe blk prio chan m :
  enabled (Ask pe blk prio chan) m -> m_abort m = false ->
  exists st', request_bandwidth pe blk prio chan m =
      Some (match filter (waits blk (chans m)) chan with
            | [] => (blk, Manager (m_queue m) (m_queued_bytes m) (m_abort m) st')
            | l => (0, Manager (m_queue m ++ [new_request pe blk prio l]) (m_queued_bytes m + blk) (m_abort m) st')
            end) /\
    forall c, st' !! c = advance blk chan (chans m) c <$> chans m !! c.
Proof.
  intros (Hblk & Hprio & Hnd & Hlen & Hp) Ha. unfold request_bandwidth. rewrite Ha.
  destruct (pick_channels_spec blk chan [] (chans m) Hnd Hp) as (st' & E & H'); [done|].
  destruct (Z.eqb_spec (zlen chan) 0) as [H0|H0].
  - exists (chans m). destruct chan; [|rewrite zlen_cons in H0; lia]. simpl. split; [destruct m; simpl in *; by subst|].
    intros c. destruct (chans m !! c); [|done]. simpl. unfold advance. rewrite decide_False; [done|]. by intros [?%elem_of_nil _].
  - exists st'. rewrite E. cbn [mbind option_bind app]. split; [|done]. destruct (filter _ chan) as [|x l]; [done|].
    rewrite (proj2 (Z.eqb_neq _ _)); [done|]. rewrite zlen_cons. lia.
Qed.

Lemma advance_limit blk chan st c ch : m_limit (advance blk chan st c ch) = m_limit ch.
Proof. unfold advance. by case_decide. Qed.

Lemma new_request_ok st pe blk prio l :
  0 < blk -> 0 < prio -> NoDup l -> l <> [] -> zlen l <= max_bandwidth_channels -> present st l -> req_ok st (new_request pe blk prio l).
Proof. intros. split; simpl; try done. destruct l; [done|]. rewrite zlen_cons in *. lia. Qed.

Lemma ask_ok pe blk prio chan m :
  manager_ok m -> enabled (Ask pe blk prio chan) m ->
  exists rs m', bw_exec (Ask pe blk prio chan) m = Some (rs, m') /\ manager_ok m'.
Proof.
  intros Hm He. pose proof Hm as [Hq Hb Hch]. destruct (m_abort m) eqn:Ha.
  { eexists _, m. cbn [bw_exec]. unfold request_bandwidth. rewrite Ha. by split. }
  destruct (ask_spec _ _ _ _ _ He Ha) as (st' & E & H'). destruct He as (Hblk & Hprio & Hnd & Hlen & Hp).
  assert (same_dom (chans m) st') as Hd by dom_map.
  assert (forall c ch, st' !! c = Some ch -> chan_ok ch) as Hch'.
  { intros c ch. rewrite H'. destruct (chans m !! c) as [ch0|] eqn:Hc; [|done]. intros [= <-]. unfold chan_ok. rewrite advance_limit. by apply (Hch c). }
  cbn [bw_exec]. rewrite E. destruct (filter (waits blk (chans m)) chan) as [|x l] eqn:Hf; cbn [mbind option_bind].
  - eexists _, _. split; [done|]. split; simpl; [by eapply same_dom_queue|done|done].
  - eexists _, _. split; [done|]. split; simpl; [|rewrite zsum_app; simpl; unfold remaining at 2; simpl; lia|done].
    apply Forall_app. split; [by eapply same_dom_queue|]. apply Forall_singleton. eapply same_dom_req; [exact Hd|].
    assert (x :: l `sublist_of` chan) as Hsub by (rewrite <- Hf; apply sublist_filter).
    apply new_request_ok; [done|done| |done| |].
    + by eapply sublist_NoDup.
    + apply sublist_length in Hsub. lia.
    + intros c Hc. apply Hp. by eapply elem_of_sublist.
Qed.

Lemma on_channel_ok f c m :
  manager_ok m -> is_Some (chans m !! c) -> (forall ch, chan_ok ch -> chan_ok (f ch)) ->
  exists m', on_channel f c m = Some m' /\ manager_ok m' /\ m_queue m' = m_queue m /\ m_abort m' = m_abort m /\
    exists ch, chans m !! c = Some ch /\ chans m' = <[c := f ch]> (chans m).
Proof.
  intros [Hq Hb Hch] [ch Hc] Hf. unfold on_channel. rewrite Hc. simpl. eexists. split; [done|]. split_and!; simpl; [|done|done|by exists ch].
  split; simpl; [|done|].
  - eapply Forall_impl; [exact Hq|]. intros r []. split; try done. by apply present_insert.
  - intros x chx. destruct (decide (x = c)) as [->|Hne]; [rewrite lookup_insert_eq; intros [= <-]; by apply Hf, (Hch c)|].
    rewrite lookup_insert_ne by done. apply Hch.
Qed.

Lemma exec_ok o m : manager_ok m -> enabled o m -> exists rs m', bw_exec o m = Some (rs, m') /\ manager_ok m'.
Proof.
  intros Hm He. destruct o as [pe blk prio chan|d dt| |c limit|c amount].
  - by apply ask_ok.
  - destruct He as [Hdt Hfit]. cbn [bw_exec]. destruct (m_abort m); [by eexists _, _|].
    destruct (round_ok d dt m Hm Hdt Hfit) as (tm & m' & -> & Hm'). destruct (m_queue m); by eexists _, _.
  - eexists _, _. split; [done|]. destruct Hm. split; simpl; [by constructor|done|done].
  - destruct He as [Hc Hl]. cbn [bw_exec]. destruct (on_channel_ok (throttle limit) c m Hm Hc) as (m' & -> & Hm' & _); [done|by eexists _, _].
  - destruct He as [Hc Hl]. cbn [bw_exec]. destruct (on_channel_ok (use_quota amount) c m Hm Hc) as (m' & -> & Hm' & _); [|by eexists _, _].
    intros ch Hch. unfold chan_ok. by rewrite use_quota_limit.
Qed.

(** ** Every request is answered once *)

Lemma map_peer_served st rs : map peer (map (served st) rs) = map peer rs.
Proof. rewrite map_map. done. Qed.

Lemma distribute_peers is_disconnecting dt m m' tm :
  manager_ok m -> 0 <= dt -> loads_fit is_disconnecting (m_queue m) -> distribute is_disconnecting dt m = Some (m', tm) ->
  map peer tm ++ map peer (m_queue m') ≡ₚ map peer (m_queue m) /\ m_abort m' = m_abort m /\
  Forall (fun r => 0 <= assigned r <= request_size r) tm.
Proof.
  intros Hm Hdt Hfit E. destruct (distribute_spec is_disconnecting dt m Hm Hdt Hfit) as (st' & E' & _).
  rewrite E in E'. injection E' as -> ->. cbn [m_queue m_abort]. set (st := prepared _ _ _ _). set (rs := map (served st) _).
  pose proof (mo_queue _ Hm) as Hq. rewrite Forall_forall in Hq. split_and!; [|done|].
  - rewrite !map_app, <- app_assoc, <- (map_app peer (filter complete rs)), filter_app_complement. unfold rs. rewrite map_peer_served, map_map.
    change (map (fun r => peer (set_assigned 0 r)) (filter (fun r => is_disconnecting (peer r) = true) (m_queue m)))
      with (map peer (filter (fun r => is_disconnecting (peer r) = true) (m_queue m))).
    rewrite <- map_app. by rewrite filter_app_complement.
  - apply Forall_app. split; apply Forall_forall; intros r Hr.
    + apply list_elem_of_fmap in Hr as (r0 & -> & [_ Hr0]%list_elem_of_filter). pose proof (rq_assigned _ _ (Hq r0 Hr0)). simpl. lia.
    + apply list_elem_of_filter in Hr as [_ Hr]. apply list_elem_of_fmap in Hr as (r0 & -> & Hr0).
      destruct (prepared_ready is_disconnecting dt (chans m) (m_queue m) (mo_queue _ Hm) r0 Hr0) as [Hok Hs].
      pose proof (grant_range _ _ Hok Hs) as Hg. fold st in Hg. pose proof (rq_assigned _ _ Hok). unfold remaining in Hg. simpl. lia.
Qed.

(** The peer an operation has to answer. *)
Definition asks (o : bw_op) (m : bandwidth_manager) : list Z :=
  match o with Ask pe _ _ _ => if m_abort m then [] else [pe] | _ => [] end.

Definition aborts (o : bw_op) : bool := match o with Close => true | _ => false end.

Lemma exec_answers o m rs m' :
  manager_ok m -> enabled o m -> bw_exec o m = Some (rs, m') ->
  map peer rs ++ map peer (m_queue m') ≡ₚ map peer (m_queue m) ++ asks o m /\
  m_abort m' = m_abort m || aborts o /\ Forall (fun r => 0 <= assigned r <= request_size r) rs.
Proof.
  intros Hm He E. destruct o as [pe blk prio chan|d dt| |c limit|c amount]; cbn [asks aborts]; rewrite ?app_nil_r, ?orb_false_r.
  - destruct (m_abort m) eqn:Ha.
    { cbn [bw_exec] in E. unfold request_bandwidth in E. rewrite Ha in E. injection E as <- <-. simpl. by rewrite app_nil_r. }
    destruct (ask_spec _ _ _ _ _ He Ha) as (st' & E' & _). destruct He as (Hblk & _). cbn [bw_exec] in E. rewrite E' in E.
    destruct (filter (waits blk (chans m)) chan); cbn [mbind option_bind] in E.
    + rewrite (proj2 (Z.eqb_neq _ _)) in E by lia. injection E as <- <-. simpl. split_and!; [|done|apply Forall_singleton; simpl; lia].
      apply Permutation_cons_append.
    + injection E as <- <-. simpl. rewrite map_app. by split_and!.
  - destruct He as [Hdt Hfit]. cbn [bw_exec] in E. destruct (m_abort m) eqn:Ha; [injection E as <- <-; by split_and!|].
    destruct (m_queue m) as [|r q] eqn:Hq; [injection E as <- <-; simpl; rewrite Hq; by split_and!|].
    destruct (distribute d dt m) as [[m1 tm]|] eqn:E1; [|done]. injection E as <- <-. rewrite <- Hq in *.
    destruct (distribute_peers d dt m m1 tm Hm Hdt Hfit E1) as (H1 & H2 & H3). rewrite Ha in H2. by split_and!.
  - injection E as <- <-. simpl. rewrite app_nil_r, orb_true_r. split_and!; [done|done|].
    pose proof (mo_queue _ Hm) as Hq. eapply Forall_impl; [exact Hq|]. intros r Hr. pose proof (rq_assigned _ _ Hr). simpl. lia.
  - destruct He as [Hc _]. cbn [bw_exec] in E. unfold on_channel in E. destruct (chans m !! c); [|done]. injection E as <- <-. by split_and!.
  - destruct He as [Hc _]. cbn [bw_exec] in E. unfold on_channel in E. destruct (chans m !! c); [|done]. injection E as <- <-. by split_and!.
Qed.
