(* ===== verification/BandwidthRate.v ===== *)
(** * The rate of a channel

    A round hands out at most the budget of a channel ([spent_budget]), so what
    a channel delivered and what it still holds never grows by more than the
    quota the rounds add to it ([exec_funds]): over any run the bytes its peers
    get are limited by its rate. *)

From Stdlib Require Import ZArith Lia.
From stdpp Require Import base numbers gmap list.
From S2P Require Import Prelude Bandwidth BandwidthSpec BandwidthRound BandwidthRun.

#[local] Abbreviation store := (gmap Z bandwidth_channel).

(** The bytes the requests through a channel were assigned. *)
Definition delivered (c : Z) (rs : list bw_request) : Z :=
  zsum (fun r => if decide (c ∈ channel r) then assigned r else 0) rs.

Definition quota_of (c : Z) (st : store) : Z := match st !! c with Some ch => m_quota_left ch | None => 0 end.

(** What a channel has left, and what waits for its peers. *)
Definition funds (c : Z) (m : bandwidth_manager) : Z := Z.max (quota_of c (chans m)) 0 + delivered c (m_queue m).

Lemma delivered_app c rs rs' : delivered c (rs ++ rs') = delivered c rs + delivered c rs'.
Proof. apply zsum_app. Qed.

Lemma delivered_nonneg st c rs : Forall (req_ok st) rs -> 0 <= delivered c rs.
Proof.
  rewrite Forall_forall. intros H. apply zsum_nonneg. intros r Hr. pose proof (rq_assigned _ _ (H r Hr)). case_decide; lia.
Qed.

(** ** A round *)

Lemma share_sum c D L rs :
  0 <= D -> 0 < L -> (forall r, r ∈ rs -> 0 < priority r) ->
  L * zsum (fun r => occ c (channel r) * (D * priority r / L)) rs <= D * load c rs.
Proof.
  intros HD HL Hp. unfold load. rewrite <- !zsum_mul. apply zsum_le. intros r Hr.
  pose proof (occ_nonneg c (channel r)). pose proof (Z.mul_div_le (D * priority r) L HL). nia.
Qed.

(** The grants of a round fit the budget of the channel. *)
Lemma spent_budget st rs c ch :
  ready st rs -> st !! c = Some ch -> m_limit ch <> 0 -> 0 <= distribute_quota ch -> tmp ch = load c rs -> c ∈ chans_of rs ->
  0 <= spent c rs st <= distribute_quota ch.
Proof.
  intros Hr Hc Hlim HD Ht Hin.
  assert (Forall (req_ok st) rs) as Hok by (apply Forall_forall; intros r Hrs; by apply Hr).
  assert (0 < load c rs) as HL by (by eapply load_pos).
  assert (forall r, r ∈ rs -> 0 <= grant st r) as Hg by (intros r Hrs; destruct (Hr r Hrs); by apply grant_range).
  unfold spent. split.
  { apply zsum_nonneg. intros r Hrs. pose proof (occ_nonneg c (first_channels r)). specialize (Hg r Hrs). nia. }
  etransitivity.
  { apply (zsum_le _ (fun r => occ c (channel r) * (distribute_quota ch * priority r / load c rs))). intros r Hrs.
    destruct (Hr r Hrs) as [Hrok Hs]. pose proof (occ_nonneg c (first_channels r)).
    pose proof (occ_nonneg c (channel r)). pose proof (occ_take c 5 (channel r)) as Ho. fold (first_channels r) in Ho.
    assert (0 <= distribute_quota ch * priority r / load c rs) by (apply Z.div_pos; [pose proof (rq_prio _ _ Hrok); nia|done]).
    destruct (decide (c ∈ first_channels r)) as [Hcr|Hcr]; [|apply occ_zero in Hcr; rewrite Hcr, Z.mul_0_l; by apply Z.mul_nonneg_nonneg].
    assert (grant st r <= share (priority r) ch) as Hle.
    { apply (fair_share _ _ _ _ c); [done|done|]. unfold limits. rewrite Ht. destruct (Z.eqb_spec (m_limit ch) 0), (Z.eqb_spec (load c rs) 0); done || lia. }
    unfold share in Hle. rewrite Ht in Hle. specialize (Hg r Hrs). by apply Z.mul_le_mono_nonneg. }
  pose proof (share_sum c (distribute_quota ch) (load c rs) rs HD HL) as Hsum.
  assert (forall r, r ∈ rs -> 0 < priority r) as Hp by (intros r Hrs; apply (Hr r Hrs)).
  specialize (Hsum Hp). nia.
Qed.

Lemma update_quota_le dt ch :
  0 <= dt -> 0 <= m_limit ch -> m_quota_left (update_quota dt ch) <= m_quota_left ch + (m_limit ch * dt + 500) / 1000.
Proof.
  intros Hdt Hl. unfold update_quota. assert (0 <= (m_limit ch * dt + 500) / 1000) by (apply Z.div_pos; nia).
  destruct (Z.eqb_spec (m_limit ch) 0); [lia|]. rewrite Z.quot_div_nonneg by nia. cbn [m_quota_left].
  set (a := (m_limit ch * dt + 500) / 1000) in *. destruct (Z.ltb_spec (inf - m_quota_left ch) a); [lia|].
  destruct (Z.ltb_spec (m_limit ch) (Z.quot (m_quota_left ch + a) 3)) as [Hlt|]; [|lia].
  assert (m_limit ch * 3 <= m_quota_left ch + a); [|lia].
  destruct (Z.le_gt_cases 0 (m_quota_left ch + a)); [rewrite Z.quot_div_nonneg in Hlt by lia; zdiv|].
  assert (Z.quot (m_quota_left ch + a) 3 <= 0) by (apply Z.quot_le_upper_bound; lia). lia.
Qed.

(** A request with at most as many channels as [assign_bandwidth] looks at. *)
Definition few_channels (r : bw_request) : Prop := zlen (channel r) <= 5.

Lemma few_first r : few_channels r -> first_channels r = channel r.
Proof. intros H. unfold first_channels. apply take_ge. unfold few_channels in H. lia. Qed.

Lemma refund_gone st c rs : Forall (req_ok st) rs -> refund c rs <= delivered c rs.
Proof.
  rewrite Forall_forall. intros H. apply zsum_le. intros r Hr. rewrite occ_NoDup by apply (H r Hr). case_decide; lia.
Qed.

(** A request that is listed by the channel got at least its grant from it. *)
Lemma spent_grants st c rs :
  ready st rs -> Forall few_channels rs -> zsum (fun r => if decide (c ∈ channel r) then grant st r else 0) rs <= spent c rs st.
Proof.
  intros Hr Hf. apply zsum_le. intros r Hrs. rewrite Forall_forall in Hf. rewrite few_first by (by apply Hf).
  destruct (Hr r Hrs) as [Hrok Hs]. rewrite occ_NoDup by apply Hrok. case_decide; lia.
Qed.

Lemma spent_absent c rs st : c ∉ chans_of rs -> spent c rs st = 0.
Proof.
  intros Hc. apply zsum_zero. intros r Hr. assert (occ c (first_channels r) = 0) as ->; [|lia].
  apply occ_zero. intros Hin. apply Hc, (elem_chans_of c r); [done|].
  unfold first_channels in Hin. rewrite <- (take_drop 5 (channel r)). apply elem_of_app. by left.
Qed.

Section round.
Context (is_disconnecting : Z -> bool) (dt : Z) (m : bandwidth_manager) (Hm : manager_ok m) (Hdt : 0 <= dt).
#[local] Abbreviation queue := (m_queue m).
#[local] Abbreviation gone := (filter (fun r => is_disconnecting (peer r) = true) queue).
#[local] Abbreviation live := (filter (fun r => ~ is_disconnecting (peer r) = true) queue).
#[local] Abbreviation st := (prepared is_disconnecting dt queue (chans m)).

(** The quota of a channel after a round: it never falls below zero for the
    bytes that were handed out. *)
Lemma round_quota c ch :
  chans m !! c = Some ch -> 0 < m_limit ch ->
  let q := m_quota_left (prepare is_disconnecting dt queue c ch) in
  0 <= spent c live st <= Z.max q 0 /\ q <= m_quota_left ch + refund c gone + (m_limit ch * Z.min dt 3000 + 500) / 1000.
Proof.
  intros Hc Hl. assert (0 <= (m_limit ch * Z.min dt 3000 + 500) / 1000) as Hcr by (apply Z.div_pos; nia).
  pose proof (mo_queue _ Hm) as Hq. pose proof (prepared_ready is_disconnecting dt (chans m) queue Hq) as Hr.
  assert (m_quota_left (return_quota (refund c gone) ch) = m_quota_left ch + refund c gone) as Hret.
  { unfold return_quota. rewrite (proj2 (Z.eqb_neq _ _)) by lia. done. }
  unfold prepare. set (ch1 := return_quota (refund c gone) ch) in *.
  assert (m_limit ch1 = m_limit ch) as Hl1 by (unfold ch1; by rewrite return_use, use_quota_limit).
  destruct (decide (c ∈ chans_of live)) as [Hin|Hin]; cbv zeta; [|rewrite spent_absent, Hret by done; lia].
  assert (st !! c = Some (update_quota (Z.min dt 3000) (set_tmp (load c live) ch1))) as Hst.
  { rewrite prepared_lookup, Hc. simpl. unfold prepare. fold ch1. by rewrite decide_True. }
  rewrite update_quota_tmp in *. cbn [set_tmp m_quota_left].
  destruct (update_quota_budget (Z.min dt 3000) ch1) as [Hbud Hbr]; [lia|]. split.
  - rewrite <- Hbud. apply (spent_budget st live c _ Hr Hst); simpl; [rewrite update_quota_limit; lia|lia|done|done].
  - rewrite <- Hl1, <- Hret. apply update_quota_le; lia.
Qed.

Lemma round_funds c ch tm m' :
  loads_fit is_disconnecting queue -> Forall few_channels queue -> chans m !! c = Some ch -> 0 < m_limit ch ->
  distribute is_disconnecting dt m = Some (m', tm) ->
  delivered c tm + funds c m' <= funds c m + (m_limit ch * Z.min dt 3000 + 500) / 1000.
Proof.
  intros Hfit Hfew Hc Hl E. pose proof (mo_queue _ Hm) as Hq.
  destruct (distribute_spec is_disconnecting dt m Hm Hdt Hfit) as (st' & E' & H'). rewrite E in E'. injection E' as -> ->.
  destruct (round_quota c ch Hc Hl) as [Hs Hle]. set (rs := map (served st) live) in *.
  assert (quota_of c st' = m_quota_left (prepare is_disconnecting dt queue c ch) - spent c live st) as Hquota.
  { unfold quota_of. rewrite H', prepared_lookup, Hc. simpl. unfold use_quota. rewrite prepare_limit, (proj2 (Z.eqb_neq _ _)) by lia. done. }
  assert (delivered c (map (set_assigned 0) gone) = 0) as Hgone.
  { unfold delivered. rewrite zsum_map. apply zsum_zero. intros r _. simpl. by case_decide. }
  assert (delivered c (filter complete rs) + delivered c (filter (fun r => ~ complete r) rs) = delivered c rs) as Hsplit.
  { unfold delivered. by rewrite <- zsum_filter. }
  assert (delivered c rs = delivered c live + zsum (fun r => if decide (c ∈ channel r) then grant st r else 0) live) as Hrs.
  { unfold delivered, rs. rewrite zsum_map, <- zsum_add. apply zsum_ext. intros r _. simpl. case_decide; lia. }
  assert (delivered c queue = delivered c gone + delivered c live) as Hqueue by (unfold delivered; apply zsum_filter).
  assert (zsum (fun r => if decide (c ∈ channel r) then grant st r else 0) live <= spent c live st) as Hg.
  { apply spent_grants; [by apply prepared_ready|]. rewrite Forall_forall in Hfew |- *. intros r [_ Hr]%list_elem_of_filter. by apply Hfew. }
  assert (refund c gone <= delivered c gone) as Href.
  { apply (refund_gone (chans m)). rewrite Forall_forall in Hq |- *. intros r [_ Hr]%list_elem_of_filter. by apply Hq. }
  assert (0 <= delivered c gone) as Hdg.
  { apply (delivered_nonneg (chans m)). rewrite Forall_forall in Hq |- *. intros r [_ Hr]%list_elem_of_filter. by apply Hq. }
  assert (0 <= (m_limit ch * Z.min dt 3000 + 500) / 1000) as Hcr by (apply Z.div_pos; nia).
  unfold funds. cbn [chans m_queue]. rewrite delivered_app, Hgone, Hquota, Hqueue. unfold quota_of. rewrite Hc. lia.
Qed.
End round.

(** ** Any operation *)

(** The channel [c] has a limit, at most [L], and every request is limited by
    all of its channels. *)
Record rated (c L : Z) (m : bandwidth_manager) : Prop := {
  ra_ok : manager_ok m;
  ra_few : Forall few_channels (m_queue m);
  ra_limit : exists ch, chans m !! c = Some ch /\ 0 < m_limit ch <= L;
}.

(** The operation leaves it so. *)
Definition keeps_rate (c L : Z) (o : bw_op) : Prop :=
  match o with
  | Throttle c' limit => c' = c -> 0 < limit <= L
  | Ask _ _ _ chan => zlen chan <= 5
  | _ => True
  end.

(** A thousand times the bytes an operation adds to the channel. *)
Definition credit (L : Z) (o : bw_op) : Z := match o with Round _ dt => L * Z.min dt 3000 + 500 | _ => 0 end.

Definition gains (c L : Z) (o : bw_op) (m : bandwidth_manager) : Prop :=
  forall rs m', bw_exec o m = Some (rs, m') ->
    rated c L m' /\ 1000 * (delivered c rs + funds c m') <= 1000 * funds c m + credit L o.

Lemma exec_manager_ok o m rs m' : manager_ok m -> enabled o m -> bw_exec o m = Some (rs, m') -> manager_ok m'.
Proof. intros Hm He E. destruct (exec_ok o m Hm He) as (rs0 & m0 & E0 & Hm0). rewrite E in E0. by injection E0 as <- <-. Qed.

Lemma stay_gains c L o m : rated c L m -> 0 <= credit L o -> bw_exec o m = Some ([], m) -> gains c L o m.
Proof. intros Hr Hc E rs m' E'. rewrite E in E'. injection E' as <- <-. split; [done|]. unfold delivered at 1. simpl. lia. Qed.

Lemma round_gains c L d dt m : rated c L m -> enabled (Round d dt) m -> gains c L (Round d dt) m.
Proof.
  intros Hr He. pose proof He as [Hdt Hfit]. pose proof Hr as [Hm Hfew (ch & Hc & Hl)].
  assert (0 <= L * Z.min dt 3000 + 500) as Hcr by nia.
  destruct (m_abort m) eqn:Ha; [apply stay_gains; [done|done|]; cbn [bw_exec]; by rewrite Ha|].
  destruct (m_queue m) as [|r q] eqn:Hq; [apply stay_gains; [done|done|]; cbn [bw_exec]; by rewrite Ha, Hq|].
  intros tm m' E. pose proof (exec_manager_ok _ _ _ _ Hm He E) as Hm'.
  cbn [bw_exec] in E. rewrite Ha, Hq in E. destruct (distribute d dt m) as [[m1 tm1]|] eqn:E1; [|done]. injection E as -> ->.
  rewrite <- Hq in *. pose proof (round_funds d dt m Hm Hdt c ch tm m' Hfit Hfew Hc ltac:(lia) E1) as Hf.
  destruct (distribute_spec d dt m Hm Hdt Hfit) as (st' & E' & H'). rewrite E1 in E'. injection E' as -> ->.
  split.
  - split; [done| |].
    + simpl. apply Forall_forall. intros r0 [_ Hr0]%list_elem_of_filter. apply list_elem_of_fmap in Hr0 as (r1 & -> & [_ Hr1]%list_elem_of_filter).
      rewrite Forall_forall in Hfew. exact (Hfew r1 Hr1).
    + simpl. rewrite H', prepared_lookup, Hc. eexists. split; [done|]. by rewrite use_quota_limit, prepare_limit.
  - assert ((m_limit ch * Z.min dt 3000 + 500) / 1000 * 1000 <= L * Z.min dt 3000 + 500); [|simpl credit; lia].
    assert (m_limit ch * Z.min dt 3000 <= L * Z.min dt 3000) by (apply Z.mul_le_mono_nonneg_r; lia). zdiv.
Qed.

Lemma ask_gains c L pe blk prio chan m :
  rated c L m -> enabled (Ask pe blk prio chan) m -> zlen chan <= 5 -> gains c L (Ask pe blk prio chan) m.
Proof.
  intros Hr He Hlen. pose proof Hr as [Hm Hfew (ch & Hc & Hl)]. destruct (m_abort m) eqn:Ha.
  { apply stay_gains; [done|done|]. cbn [bw_exec]. unfold request_bandwidth. by rewrite Ha. }
  intros rs m' E. pose proof (exec_manager_ok _ _ _ _ Hm He E) as Hm'.
  destruct (ask_spec _ _ _ _ _ He Ha) as (st' & E' & H'). destruct He as (Hblk & Hprio & Hnd & Hlen' & Hp).
  assert (st' !! c = Some (advance blk chan (chans m) c ch)) as Hc' by (by rewrite H', Hc).
  cbn [bw_exec] in E. rewrite E' in E. unfold funds. unfold quota_of at 2. rewrite Hc.
  destruct (filter (waits blk (chans m)) chan) as [|x l] eqn:Hf; cbn [mbind option_bind] in E.
  - rewrite (proj2 (Z.eqb_neq _ _)) in E by lia. injection E as <- <-. cbn [m_queue chans]. unfold quota_of. rewrite Hc'. split.
    + split; [done|done|]. eexists. split; [done|]. by rewrite advance_limit.
    + unfold delivered at 1, advance. simpl. destruct (decide (c ∈ chan)) as [Hin|Hin]; [|rewrite decide_False by tauto; lia].
      assert (~ waits blk (chans m) c) as Hw.
      { intros Hw. assert (c ∈ filter (waits blk (chans m)) chan) as Hin' by (by apply list_elem_of_filter). rewrite Hf in Hin'. by apply elem_of_nil in Hin'. }
      rewrite decide_True by done. unfold waits in Hw. rewrite Hc in Hw. simpl. lia.
  - injection E as <- <-. cbn [m_queue chans]. unfold quota_of. rewrite Hc'. split.
    + split; [done| |eexists; split; [done|]; by rewrite advance_limit].
      apply Forall_app. split; [done|]. apply Forall_singleton. unfold few_channels. cbn [channel new_request].
      assert (x :: l `sublist_of` chan) as Hs by (rewrite <- Hf; apply sublist_filter). apply sublist_length in Hs. lia.
    + rewrite delivered_app. unfold delivered at 1 3. simpl. assert (m_quota_left (advance blk chan (chans m) c ch) <= m_quota_left ch).
      { unfold advance. case_decide; simpl; lia. }
      case_decide; lia.
Qed.

(** A change of one channel that does not raise its quota. *)
Lemma channel_gains c L f c' m rs m' :
  rated c L m -> is_Some (chans m !! c') ->
  (forall ch, chan_ok ch -> chan_ok (f ch) /\ m_quota_left (f ch) <= m_quota_left ch) ->
  (forall ch, c' = c -> 0 < m_limit ch <= L -> 0 < m_limit (f ch) <= L) ->
  (m ← on_channel f c' m; Some ([] : list bw_request, m)) = Some (rs, m') ->
  rated c L m' /\ 1000 * (delivered c rs + funds c m') <= 1000 * funds c m.
Proof.
  intros [Hm Hfew (ch & Hc & Hl)] Hc' Hf Hfl E.
  destruct (on_channel_ok f c' m Hm Hc') as (m1 & E1 & Hm1 & Hq1 & _ & ch' & Hch' & Hst); [intros ch0 H0; by apply Hf|].
  rewrite E1 in E. injection E as <- <-. unfold funds, quota_of. rewrite Hq1, Hst, Hc.
  split; [split; [done|by rewrite Hq1|rewrite Hst]|]; destruct (decide (c' = c)) as [->|Hne].
  - rewrite lookup_insert_eq. rewrite Hch' in Hc. injection Hc as ->. eexists. split; [done|]. by apply Hfl.
  - rewrite lookup_insert_ne by done. by exists ch.
  - rewrite lookup_insert_eq. rewrite Hch' in Hc. injection Hc as ->. unfold delivered at 1. simpl.
    destruct (Hf ch); [by apply (mo_chans _ Hm c)|]. lia.
  - rewrite lookup_insert_ne, Hc by done. unfold delivered at 1. simpl. lia.
Qed.

Lemma exec_gains c L o m : rated c L m -> enabled o m -> keeps_rate c L o -> gains c L o m.
Proof.
  intros Hr He Hk. pose proof Hr as [Hm Hfew (ch & Hc & Hl)]. destruct o as [pe blk prio chan|d dt| |c' limit|c' amount].
  - by apply ask_gains.
  - by apply round_gains.
  - intros rs m' E. pose proof (exec_manager_ok _ _ _ _ Hm He E) as Hm'. injection E as <- <-. split; [split; [done|by constructor|by exists ch]|].
    unfold funds, close. cbn [snd chans m_queue credit]. unfold delivered at 2. simpl. lia.
  - intros rs m' E. cbn [credit]. rewrite Z.add_0_r. destruct He as [Hc' Hlim]. apply (channel_gains c L (throttle limit) c' m rs m'); try done.
    intros ch0 Heq _. by apply Hk.
  - intros rs m' E. cbn [credit]. rewrite Z.add_0_r. destruct He as [Hc' Ha].
    apply (channel_gains c L (use_quota amount) c' m rs m'); try done.
    + intros ch0 H0. unfold chan_ok. rewrite use_quota_limit. split; [done|]. unfold use_quota. destruct (_ =? 0); simpl; lia.
    + intros ch0 _. by rewrite use_quota_limit.
Qed.

(** ** Runs *)

Fixpoint bw_run (ops : list bw_op) (m : bandwidth_manager) : option (list bw_request * bandwidth_manager) :=
  match ops with
  | [] => Some ([], m)
  | o :: ops =>
      '(rs, m) ← bw_exec o m;
      '(rs', m) ← bw_run ops m;
      Some (rs ++ rs', m)
  end.

(** Each operation is enabled where it runs. *)
Fixpoint allowed (ops : list bw_op) (m : bandwidth_manager) : Prop :=
  match ops with
  | [] => True
  | o :: ops => enabled o m /\ forall rs m', bw_exec o m = Some (rs, m') -> allowed ops m'
  end.

Lemma run_ok ops m : manager_ok m -> allowed ops m -> exists rs m', bw_run ops m = Some (rs, m') /\ manager_ok m'.
Proof.
  revert m. induction ops as [|o ops IH]; intros m Hm; [by eexists _, _|]. intros [He Hops].
  destruct (exec_ok o m Hm He) as (rs & m1 & E & Hm1). destruct (IH m1 Hm1 (Hops _ _ E)) as (rs' & m' & E' & Hm').
  exists (rs ++ rs'), m'. cbn [bw_run]. rewrite E. simpl. by rewrite E'.
Qed.

Lemma run_gains c L ops m rs m' :
  rated c L m -> allowed ops m -> Forall (keeps_rate c L) ops -> bw_run ops m = Some (rs, m') ->
  1000 * (delivered c rs + funds c m') <= 1000 * funds c m + zsum (credit L) ops.
Proof.
  revert m rs. induction ops as [|o ops IH]; intros m rs Hr Ha Hk E; cbn [bw_run] in E.
  { injection E as <- <-. unfold delivered at 1. simpl. lia. }
  destruct Ha as [He Ha]. apply Forall_cons in Hk as [Hk Hks]. destruct (bw_exec o m) as [[rs1 m1]|] eqn:E1; [|done].
  cbn [mbind option_bind] in E. destruct (bw_run ops m1) as [[rs2 m2]|] eqn:E2; [|done]. injection E as <- <-.
  destruct (exec_gains c L o m Hr He Hk rs1 m1 E1) as [Hr1 Hg1]. pose proof (IH m1 rs2 Hr1 (Ha _ _ eq_refl) Hks E2) as Hg2.
  rewrite delivered_app. simpl. lia.
Qed.

(** The peers that asked before the manager was closed. *)
Fixpoint asked (ops : list bw_op) : list Z :=
  match ops with
  | [] => []
  | Ask pe _ _ _ :: ops => pe :: asked ops
  | Close :: _ => []
  | _ :: ops => asked ops
  end.

Lemma run_answers ops m rs m' :
  manager_ok m -> allowed ops m -> bw_run ops m = Some (rs, m') ->
  map peer rs ++ map peer (m_queue m') ≡ₚ map peer (m_queue m) ++ (if m_abort m then [] else asked ops) /\
  Forall (fun r => 0 <= assigned r <= request_size r) rs.
Proof.
  revert m rs. induction ops as [|o ops IH]; intros m rs Hm Ha E; cbn [bw_run] in E.
  { injection E as <- <-. simpl. destruct (m_abort m); by rewrite app_nil_r. }
  destruct Ha as [He Ha]. destruct (bw_exec o m) as [[rs1 m1]|] eqn:E1; [|done].
  cbn [mbind option_bind] in E. destruct (bw_run ops m1) as [[rs2 m2]|] eqn:E2; [|done]. injection E as <- <-.
  destruct (exec_answers o m rs1 m1 Hm He E1) as (H1 & H2 & H3).
  destruct (IH m1 rs2 (exec_manager_ok _ _ _ _ Hm He E1) (Ha _ _ eq_refl) E2) as (H4 & H5). split; [|by apply Forall_app].
  rewrite map_app, <- app_assoc, H4, H2, app_assoc, H1, <- app_assoc. apply Permutation_app_head.
  unfold asks. destruct (m_abort m), o; simpl; rewrite ?app_nil_r; done.
Qed.

Lemma occ_length c l : occ c l <= zlen l.
Proof. induction l; simpl; [lia|]. case_decide; lia. Qed.

(** The sum of the priorities of a queue bounds every load. *)
Lemma loads_fit_bound is_disconnecting queue :
  Forall (fun r => 0 <= priority r) queue -> zsum (fun r => zlen (channel r) * priority r) queue < 2 ^ 31 ->
  loads_fit is_disconnecting queue.
Proof.
  rewrite Forall_forall. intros Hp Hs c. eapply Z.le_lt_trans; [|exact Hs].
  rewrite (zsum_filter _ (fun r => is_disconnecting (peer r) = true) queue).
  assert (0 <= zsum (fun r => zlen (channel r) * priority r) (filter (fun r => is_disconnecting (peer r) = true) queue)).
  { apply zsum_nonneg. intros r [_ Hr]%list_elem_of_filter. specialize (Hp r Hr). nia. }
  enough (load c (filter (fun r => ~ is_disconnecting (peer r) = true) queue) <=
    zsum (fun r => zlen (channel r) * priority r) (filter (fun r => ~ is_disconnecting (peer r) = true) queue)) by lia.
  apply zsum_le. intros r [_ Hr]%list_elem_of_filter. specialize (Hp r Hr). pose proof (occ_length c (channel r)). nia.
Qed.

(** * Waiting for bandwidth

    A request of a peer that stays connected keeps its place in the queue or is
    answered ([exec_waits]); once a round can give it a byte it is answered
    before its [ttl] runs out ([run_waits]). *)

(** [r'] is the request [r] later on. *)
Record heir (r r' : bw_request) : Prop := {
  heir_peer : peer r' = peer r;
  heir_priority : priority r' = priority r;
  heir_size : request_size r' = request_size r;
  heir_channel : channel r' = channel r;
  heir_assigned : assigned r <= assigned r';
}.

#[export] Instance heir_preorder : PreOrder heir.
Proof. split; [done|]. intros r s t [] []. split; congruence || lia. Qed.

(** What an operation does to a request: the manager stays open, and the peer
    connected. *)
Definition stays (pe : Z) (o : bw_op) : Prop :=
  match o with Round d _ => d pe = false | Close => False | _ => True end.

Definition turn (o : bw_op) : Z := match o with Round _ _ => 1 | _ => 0 end.

(** The round has a byte for the request in each of its (first five) channels. *)
Definition feeds (r : bw_request) (o : bw_op) (m : bandwidth_manager) : Prop :=
  match o with
  | Round d dt =>
      forall c ch, c ∈ first_channels r -> prepared d dt (m_queue m) (chans m) !! c = Some ch -> m_limit ch <> 0 ->
        load c (filter (fun r => ~ d (peer r) = true) (m_queue m)) <= Z.max (m_quota_left ch) 0 * priority r
  | _ => False
  end.

Fixpoint fed (r : bw_request) (ops : list bw_op) (m : bandwidth_manager) : Prop :=
  match ops with
  | [] => False
  | o :: ops => feeds r o m \/ match bw_exec o m with Some (_, m') => fed r ops m' | None => False end
  end.

(** A request that waits after a round still has rounds or nothing. *)
Definition patient (r : bw_request) : Prop := 0 < ttl r \/ assigned r = 0.

Lemma feeds_heir r r' o m : heir r r' -> feeds r o m -> feeds r' o m.
Proof. intros [_ Hp _ Hc _]. destruct o; [done| |done..]. unfold feeds, first_channels. by rewrite Hp, Hc. Qed.

Lemma fed_heir r r' ops m : heir r r' -> fed r ops m -> fed r' ops m.
Proof.
  intros Hh. revert m. induction ops as [|o ops IH]; intros m; [done|]. cbn [fed].
  intros [Hf|Hf]; [left; by eapply feeds_heir|right]. destruct (bw_exec o m) as [[rs m']|]; [|done]. by apply IH.
Qed.

Lemma fed_turns r ops m : fed r ops m -> 0 < zsum turn ops.
Proof.
  assert (forall ops, 0 <= zsum turn ops) as Hz by (intros l; apply zsum_nonneg; intros []; simpl; lia).
  revert m. induction ops as [|o ops IH]; intros m; [done|]. cbn [fed zsum map foldr]. pose proof (Hz ops). unfold zsum in *. simpl.
  intros [Hf|Hf]; [destruct o; try done; simpl; lia|]. destruct (bw_exec o m) as [[rs m']|]; [|done].
  specialize (IH m' Hf). destruct o; simpl; lia.
Qed.

(** What becomes of a request in an operation. *)
Definition waits_through (r : bw_request) (o : bw_op) (m : bandwidth_manager) (rs : list bw_request) (m' : bandwidth_manager) : Prop :=
  exists r', heir r r' /\ (feeds r o m -> 0 < assigned r') /\
    ((r' ∈ rs /\ 0 < assigned r') \/
     (r' ∈ m_queue m' /\ ttl r' = ttl r - turn o /\ (patient r \/ 0 < turn o -> patient r'))).

Lemma waits_same r o m rs m' : r ∈ m_queue m' -> turn o = 0 -> ~ feeds r o m -> waits_through r o m rs m'.
Proof.
  intros Hr Ht Hf. exists r. split; [done|]. split; [tauto|]. right. split_and!; [done|lia|]. intros [?|?]; [done|lia].
Qed.

Lemma feeds_grant r d dt m :
  manager_ok m -> r ∈ filter (fun r => ~ d (peer r) = true) (m_queue m) -> feeds r (Round d dt) m ->
  0 < grant (prepared d dt (m_queue m) (chans m)) r.
Proof.
  intros Hm Hr Hf. unfold feeds in Hf.
  destruct (prepared_ready d dt (chans m) (m_queue m) (mo_queue _ Hm) r Hr) as [Hok _].
  destruct (fair_attained (priority r) (first_channels r) (prepared d dt (m_queue m) (chans m)) (remaining r)) as [E|(c & ch & Hc & Hch & Hl & E)];
    unfold grant; rewrite E.
  - pose proof (rq_assigned _ _ Hok). unfold remaining. lia.
  - assert (m_limit ch <> 0) as H0 by (unfold limits in Hl; destruct (Z.eqb_spec (m_limit ch) 0); done).
    destruct (prepared_share d dt m r c ch Hm Hr Hc Hch H0) as [_ ->]. specialize (Hf c ch Hc Hch H0).
    assert (0 < load c (filter (fun r => ~ d (peer r) = true) (m_queue m))) as Hload.
    { eapply load_pos; [apply live_ok, mo_queue, Hm|]. apply (elem_chans_of c r); [done|].
      unfold first_channels in Hc. rewrite <- (take_drop 5 (channel r)). apply elem_of_app. by left. }
    assert (1 <= Z.max (m_quota_left ch) 0 * priority r / load c (filter (fun r => ~ d (peer r) = true) (m_queue m))); [|lia].
    apply Z.div_le_lower_bound; lia.
Qed.

Lemma round_waits r d dt m rs m' :
  manager_ok m -> m_abort m = false -> enabled (Round d dt) m -> r ∈ m_queue m -> d (peer r) = false ->
  bw_exec (Round d dt) m = Some (rs, m') -> waits_through r (Round d dt) m rs m'.
Proof.
  intros Hm Ha [Hdt Hfit] Hr Hd E. cbn [bw_exec] in E. rewrite Ha in E.
  assert (r ∈ filter (fun r => ~ d (peer r) = true) (m_queue m)) as Hlive by (apply list_elem_of_filter; split; [by rewrite Hd|done]).
  destruct (distribute_spec d dt m Hm Hdt Hfit) as (st' & E' & _). destruct (m_queue m) as [|r0 q] eqn:Hq; [by apply elem_of_nil in Hr|].
  rewrite <- Hq in *. rewrite E' in E. injection E as <- <-. cbn [m_queue].
  destruct (prepared_ready d dt (chans m) (m_queue m) (mo_queue _ Hm) r Hlive) as [Hok Hs].
  pose proof (grant_range _ _ Hok Hs) as Hg. pose proof (rq_assigned _ _ Hok). unfold remaining in Hg.
  set (st := prepared d dt (m_queue m) (chans m)) in *. set (r' := served st r).
  assert (r' ∈ map (served st) (filter (fun r => ~ d (peer r) = true) (m_queue m))) as Hin by (apply list_elem_of_fmap; by exists r).
  exists r'. split; [split; simpl; done || lia|]. split.
  - intros Hf. pose proof (feeds_grant r d dt m Hm Hlive Hf) as Hpos. fold st in Hpos. simpl. lia.
  - destruct (decide (complete r')) as [Hc|Hc]; [left|right].
    + split; [apply elem_of_app; right; by apply list_elem_of_filter|]. destruct Hc as [E|[_ ?]]; [|done]. rewrite E. simpl. lia.
    + split; [by apply list_elem_of_filter|]. split; [done|]. intros _. unfold complete in Hc. unfold patient.
      destruct (Z.lt_ge_cases 0 (ttl r')); [by left|right]. simpl in *. lia.
Qed.

Lemma exec_waits r o m rs m' :
  manager_ok m -> m_abort m = false -> enabled o m -> r ∈ m_queue m -> stays (peer r) o ->
  bw_exec o m = Some (rs, m') -> waits_through r o m rs m' /\ m_abort m' = false.
Proof.
  intros Hm Ha He Hr Hs E. destruct (exec_answers o m rs m' Hm He E) as (_ & Ha' & _). rewrite Ha in Ha'.
  split; [|rewrite Ha'; by destruct o]. destruct o as [pe blk prio chan|d dt| |c limit|c amount]; [|by apply round_waits|done|..].
  - apply waits_same; [|done|by intros ?]. cbn [bw_exec] in E. destruct (ask_spec _ _ _ _ _ He Ha) as (st' & E' & _). rewrite E' in E.
    destruct (filter _ chan); injection E as <- <-; simpl; [done|]. apply elem_of_app. by left.
  - apply waits_same; [|done|by intros ?]. cbn [bw_exec] in E. unfold on_channel in E. destruct (chans m !! c); [|done]. by injection E as <- <-.
  - apply waits_same; [|done|by intros ?]. cbn [bw_exec] in E. unfold on_channel in E. destruct (chans m !! c); [|done]. by injection E as <- <-.
Qed.

(** What becomes of a request in a run. *)
Lemma run_waits ops r m rs m' :
  manager_ok m -> m_abort m = false -> allowed ops m -> r ∈ m_queue m -> Forall (stays (peer r)) ops ->
  bw_run ops m = Some (rs, m') ->
  exists r', heir r r' /\ ((r' ∈ rs /\ 0 < assigned r') \/
    (r' ∈ m_queue m' /\ ttl r' = ttl r - zsum turn ops /\ (patient r \/ 0 < zsum turn ops -> patient r') /\
     (fed r ops m -> 0 < assigned r'))).
Proof.
  revert r m rs. induction ops as [|o ops IH]; intros r m rs Hm Ha Hal Hr Hs E.
  { injection E as <- <-. exists r. split; [done|]. right. split_and!; [done|unfold zsum; simpl; lia| |done]. intros [?|?]; [done|].
    unfold zsum in *; simpl in *; lia. }
  cbn [bw_run] in E. destruct Hal as [He Hal]. destruct (bw_exec o m) as [[rs1 m1]|] eqn:E1; [|done]. cbn [mbind option_bind] in E.
  destruct (bw_run ops m1) as [[rs2 m2]|] eqn:E2; [|done]. injection E as <- <-. apply Forall_cons in Hs as [Ho Hs].
  destruct (exec_waits r o m rs1 m1 Hm Ha He Hr Ho E1) as [(r1 & Hh & Hfeeds & Hor) Ha1].
  destruct Hor as [[Hin Hpos]|(Hin & Httl & Hpat)].
  { exists r1. split; [done|]. left. split; [apply elem_of_app; by left|done]. }
  destruct (IH r1 m1 rs2) as (r2 & Hh2 & Hor); [by eapply exec_manager_ok|done|by eapply Hal|done|by rewrite (heir_peer _ _ Hh)|done|].
  exists r2. split; [by etransitivity|]. assert (zsum turn (o :: ops) = turn o + zsum turn ops) as -> by done.
  destruct Hor as [[Hin2 Hpos]|(Hin2 & Httl2 & Hpat2 & Hfed)]; [left; split; [apply elem_of_app; by right|done]|right].
  assert (0 <= turn o) by (by destruct o). assert (0 <= zsum turn ops) by (apply zsum_nonneg; intros []; simpl; lia).
  split_and!; [done|lia| |].
  - intros [Hp|Hp]; [by apply Hpat2; left; apply Hpat; left|]. apply Hpat2.
    destruct (Z.lt_ge_cases 0 (zsum turn ops)); [by right|left]. apply Hpat. right. lia.
  - cbn [fed]. rewrite E1. pose proof (heir_assigned _ _ Hh2). intros [Hf|Hf]; [specialize (Hfeeds Hf); lia|].
    apply Hfed. by eapply fed_heir.
Qed.

(** ** The rounds a request has *)

Definition in_time (r : bw_request) : Prop := ttl r <= 20.

Lemma exec_in_time o m rs m' :
  manager_ok m -> enabled o m -> bw_exec o m = Some (rs, m') -> Forall in_time (m_queue m) -> Forall in_time (m_queue m').
Proof.
  intros Hm He E Ht. destruct o as [pe blk prio chan|d dt| |c limit|c amount].
  - destruct (m_abort m) eqn:Ha.
    { cbn [bw_exec] in E. unfold request_bandwidth in E. rewrite Ha in E. by injection E as <- <-. }
    destruct (ask_spec _ _ _ _ _ He Ha) as (st' & E' & _). cbn [bw_exec] in E. rewrite E' in E.
    destruct (filter _ chan); injection E as <- <-; simpl; [done|]. apply Forall_app. split; [done|]. by apply Forall_singleton.
  - destruct He as [Hdt Hfit]. cbn [bw_exec] in E. destruct (m_abort m); [by injection E as <- <-|].
    destruct (distribute_spec d dt m Hm Hdt Hfit) as (st' & E' & _).
    destruct (m_queue m) as [|r0 q] eqn:Hq; [injection E as <- <-; by rewrite Hq|]. rewrite <- Hq in *. rewrite E' in E. injection E as <- <-.
    apply Forall_forall. intros r [_ Hr]%list_elem_of_filter. apply list_elem_of_fmap in Hr as (r1 & -> & [_ Hr1]%list_elem_of_filter).
    rewrite Forall_forall in Ht. specialize (Ht r1 Hr1). unfold in_time in *. simpl. lia.
  - injection E as <- <-. constructor.
  - cbn [bw_exec] in E. unfold on_channel in E. destruct (chans m !! c); [|done]. by injection E as <- <-.
  - cbn [bw_exec] in E. unfold on_channel in E. destruct (chans m !! c); [|done]. by injection E as <- <-.
Qed.

Lemma run_in_time ops m rs m' :
  manager_ok m -> allowed ops m -> bw_run ops m = Some (rs, m') -> Forall in_time (m_queue m) -> Forall in_time (m_queue m').
Proof.
  revert m rs. induction ops as [|o ops IH]; intros m rs Hm Hal E; cbn [bw_run] in E; [by injection E as <- <-|].
  destruct Hal as [He Hal]. destruct (bw_exec o m) as [[rs1 m1]|] eqn:E1; [|done]. cbn [mbind option_bind] in E.
  destruct (bw_run ops m1) as [[rs2 m2]|] eqn:E2; [|done]. injection E as <- <-. intros Ht.
  eapply (IH m1 rs2); [by eapply exec_manager_ok|by eapply Hal|done|by eapply exec_in_time].
Qed.
