(* ===== verification/BandwidthTheorems.v ===== *)
(** * What the bandwidth manager promises

    The properties of [bandwidth_manager]: it answers every request once, a
    round shares a channel by priority, no channel exceeds its rate, and what
    happens to a request with more than five channels. *)

From Stdlib Require Import ZArith Lia.
From stdpp Require Import base numbers list gmap.
From S2P Require Import Prelude Bandwidth BandwidthSpec BandwidthRound BandwidthRun BandwidthRate.

#[local] Abbreviation store := (gmap Z bandwidth_channel).

Lemma new_manager_ok (st : store) : (forall c ch, st !! c = Some ch -> chan_ok ch) -> manager_ok (new_manager st).
Proof. intros H. split; [by constructor|done|done]. Qed.

(** ** Runs to try the properties on *)

(** Two channels, of 1000 and 500 bytes per second, and six. *)
Definition two_channels : store := list_to_map [(1, throttle 1000 new_channel); (2, throttle 500 new_channel)].
Definition six_channels : store :=
  list_to_map [(1, throttle 50000 new_channel); (2, throttle 50000 new_channel); (3, throttle 50000 new_channel);
    (4, throttle 50000 new_channel); (5, throttle 50000 new_channel); (6, throttle 1 new_channel)].

Definition two_peers : list bw_op :=
  [Ask 7 600 1 [1]; Ask 8 600 3 [1; 2]; Round (fun _ => false) 1000; Round (fun pe => pe =? 7) 500; Round (fun _ => false) 900].

Lemma present_check (st : store) l : forallb (fun c => bool_decide (is_Some (st !! c))) l = true -> present st l.
Proof. rewrite forallb_forall. intros H c Hc. by apply (bool_decide_unpack _), Is_true_true, H, list_elem_of_In. Qed.

Lemma chans_check (st : store) :
  forallb (fun x => (0 <=? m_limit (snd x)) && (m_limit (snd x) <? inf)) (map_to_list st) = true ->
  forall c ch, st !! c = Some ch -> chan_ok ch.
Proof.
  rewrite forallb_forall. intros H c ch Hc%elem_of_map_to_list%list_elem_of_In. apply H in Hc. simpl in Hc.
  apply andb_true_iff in Hc as [?%Z.leb_le ?%Z.ltb_lt]. by split.
Qed.

Ltac ask_at := split_and!; [reflexivity|reflexivity|apply (bool_decide_unpack _); vm_compute; exact I|vm_compute; congruence|
  apply present_check; vm_compute; reflexivity].
Ltac round_at := split; [vm_compute; congruence|apply loads_fit_bound; [repeat constructor; vm_compute; congruence|vm_compute; reflexivity]].
Ltac allowed_at := repeat (split; [first [ask_at|round_at]|let E := fresh in intros ? ? E; vm_compute in E; injection E as <- <-]); exact I.

Lemma two_peers_allowed : allowed two_peers (new_manager two_channels).
Proof. unfold two_peers. allowed_at. Qed.

(** C16 (invariant): from a new manager any sequence of operations whose
    arguments are in range runs, the debug check of [m_queued_bytes] holds, a
    request that waits was assigned less than it asked for and one that is
    answered at most that, and every peer that asked before the manager was
    closed was answered once or waits once. *)
Theorem bandwidth_runs st ops :
  (forall c ch, st !! c = Some ch -> chan_ok ch) -> allowed ops (new_manager st) ->
  exists rs m, bw_run ops (new_manager st) = Some (rs, m) /\ check_invariant m = true /\
    Forall (fun r => 0 <= assigned r < request_size r) (m_queue m) /\
    Forall (fun r => 0 <= assigned r <= request_size r) rs /\
    map peer rs ++ map peer (m_queue m) ≡ₚ asked ops.
Proof.
  intros Hst Ha. pose proof (new_manager_ok st Hst) as Hm. destruct (run_ok ops _ Hm Ha) as (rs & m & E & Hm').
  destruct (run_answers ops _ rs m Hm Ha E) as [Hp Hrs]. exists rs, m. split_and!; [done| | |done|done].
  - apply check_invariant_iff, Hm'.
  - eapply Forall_impl; [apply Hm'|]. intros r Hr. apply Hr.
Qed.

Lemma bandwidth_runs_witness :
  exists rs m, bw_run two_peers (new_manager two_channels) = Some (rs, m) /\ map peer rs ++ map peer (m_queue m) ≡ₚ [7; 8].
Proof.
  destruct (bandwidth_runs two_channels two_peers) as (rs & m & E & _ & _ & _ & Hp).
  - apply chans_check. vm_compute. reflexivity.
  - exact two_peers_allowed.
  - exists rs, m. split; [exact E|exact Hp].
Defined.

(** C17 (liveness): a request is answered.  When a request waits in a manager
    that can be reached, then in any further run in which the manager stays open
    and the peer connected, with at least twenty rounds, one of which has a byte
    for it in each of its channels, it is answered, and with something. *)
Theorem bandwidth_answers st before rs m r after :
  (forall c ch, st !! c = Some ch -> chan_ok ch) -> allowed before (new_manager st) ->
  bw_run before (new_manager st) = Some (rs, m) -> m_abort m = false -> r ∈ m_queue m ->
  allowed after m -> Forall (stays (peer r)) after -> 20 <= zsum turn after -> fed r after m ->
  exists rs' m', bw_run after m = Some (rs', m') /\ exists r', r' ∈ rs' /\ heir r r' /\ 0 < assigned r'.
Proof.
  intros Hst Hb Eb Ho Hr Ha Hs Hn Hfed. pose proof (new_manager_ok st Hst) as H0.
  destruct (run_ok before _ H0 Hb) as (rs0 & m0 & E0 & Hm). rewrite Eb in E0. injection E0 as <- <-.
  assert (in_time r) as Ht by (eapply Forall_forall; [eapply (run_in_time before _ rs m H0 Hb Eb); constructor|done]).
  destruct (run_ok after m Hm Ha) as (rs' & m' & E & _). exists rs', m'. split; [done|].
  destruct (run_waits after r m rs' m' Hm Ho Ha Hr Hs E) as (r' & Hh & [[Hin Hpos]|(_ & Httl & Hpat & Hf)]); [by exists r'|].
  specialize (Hf Hfed). unfold in_time in Ht. destruct Hpat as [?|?]; [right; by eapply fed_turns|lia|lia].
Qed.

(** Twenty rounds of a tenth of a second, after two peers asked. *)
Definition asking : list bw_op := [Ask 7 600 1 [1]; Ask 8 6000 3 [1; 2]].
Definition twenty_rounds : list bw_op := replicate 20 (Round (fun _ => false) 100).

Lemma bandwidth_answers_witness :
  exists rs m rs' m', bw_run asking (new_manager two_channels) = Some (rs, m) /\ bw_run twenty_rounds m = Some (rs', m') /\
    exists r', r' ∈ rs' /\ peer r' = 8 /\ 0 < assigned r' < 6000.
Proof.
  destruct (bw_run asking (new_manager two_channels)) as [[rs m]|] eqn:E; [|vm_compute in E; discriminate].
  destruct (bandwidth_answers two_channels asking rs m (new_request 8 6000 3 [1; 2]) twenty_rounds) as (rs' & m' & E' & r' & Hin & Hh & Hpos).
  - apply chans_check. vm_compute. reflexivity.
  - unfold asking. allowed_at.
  - exact E.
  - vm_compute in E. injection E as <- <-. reflexivity.
  - vm_compute in E. injection E as <- <-. right. left.
  - vm_compute in E. injection E as <- <-. unfold twenty_rounds. cbn [replicate]. allowed_at.
  - repeat constructor.
  - vm_compute. discriminate.
  - vm_compute in E. injection E as <- <-. left. intros c ch Hc Hch Hl.
    cbn in Hc. apply elem_of_cons in Hc as [->|Hc]; [vm_compute in Hch; injection Hch as <-; vm_compute; discriminate|].
    apply list_elem_of_singleton in Hc as ->. vm_compute in Hch. injection Hch as <-. vm_compute. discriminate.
  - exists rs, m, rs', m'. split; [done|]. split; [exact E'|]. exists r'. split; [exact Hin|].
    split; [exact (heir_peer _ _ Hh)|]. split; [exact Hpos|].
    vm_compute in E. injection E as <- <-. vm_compute in E'. injection E' as <- <-.
    repeat (apply elem_of_cons in Hin as [->|Hin]; [first [vm_compute; reflexivity|by destruct Hh]|]). by apply elem_of_nil in Hin.
Defined.



Lemma update_quotas_round is_disconnecting dt m :
  m_abort m = false -> m_queue m <> [] ->
  update_quotas is_disconnecting dt m = '(m, tm) ← distribute is_disconnecting dt m; Some (answers tm, m).
Proof. intros Ha Hq. unfold update_quotas. rewrite Ha. by destruct (m_queue m). Qed.

(** C19 (functional): what [update_quotas] does when the manager is not closed
    and requests wait.  The requests of disconnecting peers are answered with
    nothing.  Every other request is assigned its grant: all that it still
    waits for, or the share that the most limiting of its (first five) channels
    gives its priority of the budget of the round.  The requests that are then
    complete, or have waited twenty rounds and have something, are answered,
    and the others stay in order. *)
Theorem bandwidth_share is_disconnecting dt m :
  manager_ok m -> m_abort m = false -> m_queue m <> [] -> 0 <= dt -> loads_fit is_disconnecting (m_queue m) ->
  let st := prepared is_disconnecting dt (m_queue m) (chans m) in
  let gone := filter (fun r => is_disconnecting (peer r) = true) (m_queue m) in
  let live := filter (fun r => ~ is_disconnecting (peer r) = true) (m_queue m) in
  let rs := map (served st) live in
  exists m', update_quotas is_disconnecting dt m = Some (answers (map (set_assigned 0) gone ++ filter complete rs), m') /\
    m_queue m' = filter (fun r => ~ complete r) rs /\
    forall r, r ∈ live ->
      let budget ch := Z.max (m_quota_left ch) 0 in
      0 <= grant st r <= remaining r /\
      (forall c ch, c ∈ first_channels r -> st !! c = Some ch -> m_limit ch <> 0 ->
         grant st r <= budget ch * priority r / load c live) /\
      (grant st r = remaining r \/
       exists c ch, c ∈ first_channels r /\ st !! c = Some ch /\ m_limit ch <> 0 /\ grant st r = budget ch * priority r / load c live).
Proof.
  intros Hm Ha Hq Hdt Hfit st gone live rs. destruct (distribute_spec is_disconnecting dt m Hm Hdt Hfit) as (st' & E & _).
  eexists. split; [rewrite update_quotas_round, E by done; reflexivity|]. split; [done|]. intros r Hr budget.
  destruct (prepared_ready is_disconnecting dt (chans m) (m_queue m) (mo_queue _ Hm) r Hr) as [Hok Hs]. fold st in Hok, Hs.
  assert (forall c ch, c ∈ first_channels r -> st !! c = Some ch -> m_limit ch <> 0 ->
    limits ch = true /\ share (priority r) ch = budget ch * priority r / load c live) as Hshare.
  { intros c ch Hc Hch Hl. by apply (prepared_share is_disconnecting dt m r). }
  split; [by apply grant_range|]. split.
  - intros c ch Hc Hch Hl. destruct (Hshare c ch Hc Hch Hl) as [Hlim <-]. by apply (fair_share _ _ _ _ c).
  - destruct (fair_attained (priority r) (first_channels r) st (remaining r)) as [?|(c & ch & Hc & Hch & Hl & Hg)]; [by left|right].
    exists c, ch. assert (m_limit ch <> 0) as H0 by (unfold limits in Hl; destruct (Z.eqb_spec (m_limit ch) 0); done).
    destruct (Hshare c ch Hc Hch H0) as [_ <-]. by split_and!.
Qed.

(** The manager of the run of two peers when the first round starts. *)
Definition two_waiting : bandwidth_manager :=
  match bw_run (take 2 two_peers) (new_manager two_channels) with Some (_, m) => m | None => new_manager two_channels end.

Lemma two_waiting_ok : manager_ok two_waiting.
Proof.
  destruct (run_ok (take 2 two_peers) (new_manager two_channels)) as (rs & m & E & Hm).
  - apply new_manager_ok, chans_check. vm_compute. reflexivity.
  - unfold two_peers, take. allowed_at.
  - unfold two_waiting. by rewrite E.
Qed.

Lemma bandwidth_share_witness :
  exists m', update_quotas (fun _ => false) 1000 two_waiting = Some ([], m') /\ map assigned (m_queue m') = [250; 500].
Proof.
  destruct (bandwidth_share (fun _ => false) 1000 two_waiting) as (m' & E & Hq & _).
  - exact two_waiting_ok.
  - vm_compute. reflexivity.
  - vm_compute. discriminate.
  - vm_compute. discriminate.
  - apply loads_fit_bound; [repeat constructor; vm_compute; congruence|vm_compute; reflexivity].
  - exists m'. split; [rewrite E; vm_compute; reflexivity|]. rewrite Hq. vm_compute. reflexivity.
Defined.

(** The limit of the sixth channel of a request is not kept.  A
    request can have ten channels, but [assign_bandwidth] visits five: there is
    a run in which a channel has a limit of one byte per second all the time
    and a peer gets 40000 bytes through it in a round of one second, more than
    the bound that holds for requests with at most five channels. *)
Theorem sixth_channel_ignored :
  exists st ops c rs m, allowed ops (new_manager st) /\ (forall c ch, st !! c = Some ch -> chan_ok ch) /\
    option_map m_limit (st !! c) = Some 1 /\ Forall (fun o => match o with Throttle _ _ => False | _ => True end) ops /\
    bw_run ops (new_manager st) = Some (rs, m) /\ delivered c rs = 40000 /\ zsum (credit 1) ops = 1500.
Proof.
  set (ops := [Ask 7 40000 1 [1; 2; 3; 4; 5; 6]; Round (fun _ => false) 1000]).
  destruct (bw_run ops (new_manager six_channels)) as [[rs m]|] eqn:E; [|vm_compute in E; discriminate].
  exists six_channels, ops, 6, rs, m. split; [unfold ops; allowed_at|]. split; [apply chans_check; vm_compute; reflexivity|].
  split; [vm_compute; reflexivity|]. split; [by repeat constructor|]. split; [done|].
  vm_compute in E. injection E as <- _. split; vm_compute; reflexivity.
Qed.
