(* ===== verification/PacketBuffer.v ===== *)
(** * The packet buffer of uTP (packet_buffer.hpp, packet_buffer.cpp)

    A circular buffer of pointers indexed by 16-bit sequence numbers, which
    grows by powers of two.  A pointer is a number and the null pointer is 0;
    [m_first] and [m_last] are 32-bit unsigned numbers, and [m_capacity] and
    [m_size] have 64 bits, so [m_first + m_capacity] does not wrap.  An access
    outside [m_storage] is [None].  [compare_less_wrap] is from
    utp_stream.cpp. *)

From Stdlib Require Import ZArith Lia.
From stdpp Require Import base numbers list.
From S2P Require Import Prelude.

Definition compare_less_wrap (lhs rhs mask : Z) : bool :=
  let dist_down := Z.land (u32 (lhs - rhs)) mask in
  let dist_up := Z.land (u32 (rhs - lhs)) mask in
  dist_up <? dist_down.

Record packet_buffer := Buffer {
  m_storage : list Z;
  m_capacity : Z;
  m_size : Z;
  m_first : Z;
  m_last : Z;
}.

Definition new_buffer : packet_buffer := Buffer [] 0 0 0 0.

Definition with_first (x : Z) (b : packet_buffer) : packet_buffer :=
  Buffer (m_storage b) (m_capacity b) (m_size b) x (m_last b).
Definition with_last (x : Z) (b : packet_buffer) : packet_buffer :=
  Buffer (m_storage b) (m_capacity b) (m_size b) (m_first b) x.
Definition with_size (x : Z) (b : packet_buffer) : packet_buffer :=
  Buffer (m_storage b) (m_capacity b) x (m_first b) (m_last b).
Definition with_storage (l : list Z) (b : packet_buffer) : packet_buffer :=
  Buffer l (m_capacity b) (m_size b) (m_first b) (m_last b).

Definition span (b : packet_buffer) : Z := Z.land (u32 (m_last b - m_first b)) 65535.

(** [m_storage[i & (m_capacity - 1)]] *)
Definition slot (b : packet_buffer) (i : Z) : Z := Z.land i (m_capacity b - 1).

Definition check_invariant (b : packet_buffer) : bool :=
  zlen (filter (fun v => v <> 0) (m_storage b)) =? m_size b.

(** The size [reserve] allocates; every round doubles it. *)
Fixpoint grow (fuel : nat) (new_size size : Z) : Z :=
  match fuel with
  | O => new_size
  | S fuel => if new_size <? size then grow fuel (Z.shiftl new_size 1) size else new_size
  end.

(** The loop of [reserve] that copies [n] slots from index [i]. *)
Fixpoint copy_slots (n : nat) (i : Z) (b : packet_buffer) (new_size : Z) (storage : list Z) : option (list Z) :=
  match n with
  | O => Some storage
  | S n =>
      v ← zget (m_storage b) (slot b i);
      storage ← zset storage (Z.land i (new_size - 1)) v;
      copy_slots n (i + 1) b new_size storage
  end.

Definition reserve (size : Z) (b : packet_buffer) : option packet_buffer :=
  let new_size := grow (Z.to_nat size) (if m_capacity b =? 0 then 16 else m_capacity b) size in
  storage ← copy_slots (Z.to_nat (m_capacity b)) (m_first b) b new_size (replicate (Z.to_nat new_size) 0);
  Some (Buffer storage new_size (m_size b) (m_first b) (m_last b)).

Definition at_ (b : packet_buffer) (idx : Z) : option Z :=
  if m_first b + m_capacity b <=? idx then Some 0
  else if compare_less_wrap idx (m_first b) 65535 then Some 0
  else zget (m_storage b) (slot b idx).

(** The loops that move [m_first] up and [m_last] down to a used slot. *)
Fixpoint seek (n : nat) (b : packet_buffer) (step x : Z) : option Z :=
  match n with
  | O => Some x
  | S n =>
      v ← zget (m_storage b) (slot b x);
      if v =? 0 then seek n b step (u32 (x + step)) else Some x
  end.

Definition remove (idx : Z) (b : packet_buffer) : option (Z * packet_buffer) :=
  if m_first b + m_capacity b <=? idx then Some (0, b)
  else if compare_less_wrap idx (m_first b) 65535 then Some (0, b)
  else
    old_value ← zget (m_storage b) (slot b idx);
    storage ← zset (m_storage b) (slot b idx) 0;
    let b := with_storage storage b in
    let b :=
      if old_value =? 0 then b
      else
        let b := with_size (m_size b - 1) b in
        if m_size b =? 0 then with_last (m_first b) b else b in
    b ← (if (idx =? m_first b) && negb (m_size b =? 0) then
           first ← seek (Z.to_nat (m_capacity b)) b 1 (u32 (m_first b + 1));
           Some (with_first (Z.land first 65535) b)
         else Some b);
    b ← (if (Z.land (u32 (idx + 1)) 65535 =? m_last b) && negb (m_size b =? 0) then
           last ← seek (Z.to_nat (m_capacity b)) b (-1) (u32 (m_last b - 1));
           Some (with_last (Z.land (u32 (last + 1)) 65535) b)
         else Some b);
    Some (old_value, b).

(** The loop of [insert] that counts the free slots below [m_first]. *)
Fixpoint free_below (n : nat) (i stop free_space : Z) (b : packet_buffer) : option Z :=
  match n with
  | O => Some free_space
  | S n =>
      if i =? stop then Some free_space
      else
        v ← zget (m_storage b) (slot b i);
        if v =? 0 then free_below n (slot b (u32 (i - 1))) stop (free_space + 1) b else Some free_space
  end.

(** The first part of [insert]: make room, and move [m_first] and [m_last]. *)
Definition make_room (idx : Z) (b : packet_buffer) : option packet_buffer :=
  if m_size b =? 0 then Some (with_last (Z.land (u32 (idx + 1)) 65535) (with_first idx b))
  else
    b ← (if compare_less_wrap idx (m_first b) 65535 then
           free_space ← free_below (Z.to_nat (m_capacity b)) (slot b (u32 (m_first b - 1))) (slot b (m_first b)) 0 b;
           let back := Z.land (u32 (m_first b - idx)) 65535 in
           b ← (if free_space <? back then reserve (back + m_capacity b - free_space) b else Some b);
           Some (with_first idx b)
         else if m_first b + m_capacity b <=? idx then reserve (idx - m_first b + 1) b
         else if idx <? m_first b then
           let wrapped := Z.land (m_first b + m_capacity b) 65535 in
           if (wrapped <=? idx) && (m_capacity b <? 65535) then reserve (m_capacity b + (idx + 1 - wrapped)) b
           else Some b
         else Some b);
    Some (if compare_less_wrap (m_last b) (Z.land (u32 (idx + 1)) 65535) 65535
          then with_last (Z.land (u32 (idx + 1)) 65535) b else b).

Definition insert (idx value : Z) (b : packet_buffer) : option (Z * packet_buffer) :=
  if value =? 0 then remove idx b
  else
    b ← make_room idx b;
    b ← (if m_capacity b =? 0 then reserve 16 b else Some b);
    old_value ← zget (m_storage b) (slot b idx);
    storage ← zset (m_storage b) (slot b idx) value;
    let b := with_storage storage b in
    let b := if m_size b =? 0 then with_first idx b else b in
    Some (old_value, if old_value =? 0 then with_size (m_size b + 1) b else b).
