(* ===== verification/PacketBufferSpec.v ===== *)
(** * The packet buffer as a map

    [window b m]: the slots of the buffer are the map [m] from sequence numbers
    to pointers, for the numbers a capacity away from [m_first], and nothing is
    outside [m_first] to [m_last].  [holds] adds that the window is tight and
    counted.  Distances are taken around the circle of 2^16 numbers. *)

From Stdlib Require Import ZArith Lia.
From stdpp Require Import base numbers list gmap.
From S2P Require Import Prelude PacketBuffer.

(** ** The circle of sequence numbers *)

Definition seq16 (i : Z) : Prop := 0 <= i < 65536.

(** How far [i] is above [a]. *)
Definition dist (a i : Z) : Z := (i - a) mod 65536.

Lemma dist_range a i : 0 <= dist a i < 65536.
Proof. apply Z.mod_pos_bound. lia. Qed.

Lemma dist_cases a i : seq16 a -> seq16 i -> (a <= i /\ dist a i = i - a) \/ (i < a /\ dist a i = i - a + 65536).
Proof. unfold seq16, dist. intros. destruct (Z.le_gt_cases a i); [left|right]; split; try done; zdiv. Qed.

Lemma dist_self a : dist a a = 0.
Proof. unfold dist. by rewrite Z.sub_diag. Qed.

Lemma dist_mod a i : dist a (i mod 65536) = dist a i.
Proof. unfold dist. by rewrite Zminus_mod_idemp_l. Qed.

Lemma dist_inj a i j : seq16 i -> seq16 j -> dist a i = dist a j -> i = j.
Proof. unfold dist, seq16. intros. zdiv. Qed.

Lemma land_16 x : Z.land (u32 x) 65535 = x mod 65536.
Proof.
  change 65535 with (Z.ones 16). rewrite Z.land_ones by lia. unfold u32. change (2 ^ 16) with 65536.
  symmetry. apply Znumtheory.Zmod_div_mod; [lia|lia|]. by exists 65536.
Qed.

Lemma compare_dist l r : seq16 l -> seq16 r -> compare_less_wrap l r 65535 = (32768 <? dist r l).
Proof.
  intros Hl Hr. unfold compare_less_wrap. rewrite !land_16. fold (dist r l) (dist l r).
  destruct (dist_cases l r Hl Hr) as [[? ->]|[? ->]], (dist_cases r l Hr Hl) as [[? ->]|[? ->]]; unfold seq16 in *; lia.
Qed.

(** ** Capacities *)

Definition power (cap : Z) : Prop := exists k, 4 <= k <= 15 /\ cap = 2 ^ k.

Lemma power_range cap : power cap -> 16 <= cap <= 32768.
Proof.
  intros (k & Hk & ->). split; [change 16 with (2 ^ 4)|change 32768 with (2 ^ 15)]; apply Z.pow_le_mono_r; lia.
Qed.

Lemma power_divides cap : power cap -> (cap | 65536).
Proof.
  intros (k & Hk & ->). exists (2 ^ (16 - k)). change 65536 with (2 ^ 16). rewrite <- Z.pow_add_r by lia. f_equal. lia.
Qed.

Lemma power_mod16 cap x : power cap -> (x mod 65536) mod cap = x mod cap.
Proof. intros H. pose proof (power_range _ H). symmetry. apply Znumtheory.Zmod_div_mod; [lia|lia|by apply power_divides]. Qed.

Lemma power_mod32 cap x : power cap -> (u32 x) mod cap = x mod cap.
Proof.
  intros H. pose proof (power_range _ H). symmetry. apply Znumtheory.Zmod_div_mod; [lia|unfold u32; lia|].
  etransitivity; [by apply power_divides|]. by exists 65536.
Qed.

Lemma slot_mod b i : power (m_capacity b) -> slot b i = i mod m_capacity b.
Proof.
  intros (k & Hk & E). unfold slot. rewrite E. replace (2 ^ k - 1) with (Z.ones k) by (rewrite Z.ones_equiv; lia).
  apply Z.land_ones. lia.
Qed.

(** Two numbers of a window in the same slot are equal. *)
Lemma slot_inj cap a i j :
  power cap -> seq16 i -> seq16 j -> dist a i < cap -> dist a j < cap -> i mod cap = j mod cap -> i = j.
Proof.
  intros Hc Hi Hj Hdi Hdj E. apply (dist_inj a); [done|done|]. pose proof (power_range _ Hc).
  assert (forall x, dist a x mod cap = (x - a) mod cap) as Hd by (intros x; by apply power_mod16).
  pose proof (Hd i) as E1. pose proof (Hd j) as E2. rewrite Z.mod_small in E1, E2 by (pose proof (dist_range a i); pose proof (dist_range a j); lia).
  rewrite E1, E2. rewrite <- (Zminus_mod_idemp_l i), <- (Zminus_mod_idemp_l j). by rewrite E.
Qed.

Lemma dist_slot cap a i : power cap -> (a + dist a i) mod cap = i mod cap.
Proof.
  intros H. rewrite <- (power_mod16 _ (_ + _)) by done. unfold dist. rewrite Zplus_mod_idemp_r.
  replace (a + (i - a)) with i by lia. by rewrite power_mod16.
Qed.

(** The number of a window that a slot belongs to. *)
Lemma slot_owner cap a s : power cap -> 0 <= s < cap -> exists i, seq16 i /\ dist a i < cap /\ i mod cap = s.
Proof.
  intros Hc Hs. pose proof (power_range _ Hc). exists ((a + (s - a) mod cap) mod 65536).
  assert (0 <= (s - a) mod cap < cap) by (apply Z.mod_pos_bound; lia). split_and!.
  - apply Z.mod_pos_bound. lia.
  - rewrite dist_mod. unfold dist. rewrite Z.add_simpl_l, Z.mod_small by lia. lia.
  - rewrite power_mod16 by done. rewrite Zplus_mod_idemp_r. replace (a + (s - a)) with s by lia. by apply Z.mod_small.
Qed.

(** ** The invariant *)

Record window (b : packet_buffer) (m : gmap Z Z) : Prop := {
  wi_len : zlen (m_storage b) = m_capacity b;
  wi_cap : power (m_capacity b);
  wi_first : seq16 (m_first b);
  wi_last : seq16 (m_last b);
  wi_some : forall i v, m !! i = Some v -> seq16 i /\ v <> 0 /\ dist (m_first b) i < dist (m_first b) (m_last b);
  wi_slot : forall i, seq16 i -> dist (m_first b) i < m_capacity b -> zget (m_storage b) (i mod m_capacity b) = Some (default 0 (m !! i));
  wi_span : dist (m_first b) (m_last b) <= m_capacity b;
}.

Record holds (b : packet_buffer) (m : gmap Z Z) : Prop := {
  ho_window : window b m;
  ho_size : m_size b = Z.of_nat (size m);
  ho_first : m <> ∅ -> is_Some (m !! m_first b);
  ho_last : m <> ∅ -> is_Some (m !! ((m_last b - 1) mod 65536));
}.

(** Reading a slot. *)
Lemma window_get b m i :
  window b m -> seq16 i -> dist (m_first b) i < m_capacity b -> zget (m_storage b) (slot b i) = Some (default 0 (m !! i)).
Proof. intros [] Hi Hd. rewrite slot_mod by done. auto. Qed.

(** Every slot can be read. *)
Lemma window_readable b m x : window b m -> is_Some (zget (m_storage b) (slot b x)).
Proof.
  intros []. pose proof (power_range _ wi_cap0). rewrite slot_mod by done. apply zget_is_Some. rewrite wi_len0. apply Z.mod_pos_bound. lia.
Qed.

(** Writing a slot of the window: [m'] is [m] but for the number [i]. *)
Lemma window_write b (m m' : gmap Z Z) i v :
  window b m -> seq16 i -> dist (m_first b) i < m_capacity b ->
  (forall j, j <> i -> m' !! j = m !! j) -> default 0 (m' !! i) = v ->
  (forall w, m' !! i = Some w -> w <> 0 /\ dist (m_first b) i < dist (m_first b) (m_last b)) ->
  exists l, zset (m_storage b) (slot b i) v = Some l /\ window (with_storage l b) m'.
Proof.
  intros [Hlen Hcap Hf Hl Hs Hslot Hsp] Hi Hd Hm Hv Hw. pose proof (power_range _ Hcap).
  rewrite slot_mod by done. assert (0 <= i mod m_capacity b < m_capacity b) as Hr by (apply Z.mod_pos_bound; lia).
  destruct (zset (m_storage b) (i mod m_capacity b) v) as [l|] eqn:Hz; [|unfold zset in Hz; by rewrite decide_True in Hz by lia].
  exists l. split; [done|]. split; simpl; try done.
  - by rewrite (zset_length _ _ _ _ Hz).
  - intros j w Hj. destruct (decide (j = i)) as [->|Hne]; [destruct (Hw w Hj); by split_and!|]. rewrite Hm in Hj by done. by apply Hs.
  - intros j Hj Hdj. rewrite (zget_zset _ _ _ _ _ Hz). destruct (decide (j = i)) as [->|Hne]; [rewrite decide_True by done; by rewrite Hv|].
    rewrite decide_False; [rewrite Hm by done; by apply Hslot|].
    intros E. apply Hne. apply (slot_inj (m_capacity b) (m_first b)); done || lia.
Qed.

Lemma window_put b m i v :
  window b m -> seq16 i -> dist (m_first b) i < dist (m_first b) (m_last b) -> v <> 0 ->
  exists l, zset (m_storage b) (slot b i) v = Some l /\ window (with_storage l b) (<[i := v]> m).
Proof.
  intros Hw Hi Hd Hv. apply (window_write b m); [done|done|pose proof (wi_span _ _ Hw); lia| | |].
  - intros j Hj. by rewrite lookup_insert_ne.
  - by rewrite lookup_insert_eq.
  - intros w. rewrite lookup_insert_eq. by intros [= <-].
Qed.

Lemma window_clear b m i :
  window b m -> seq16 i -> dist (m_first b) i < m_capacity b ->
  exists l, zset (m_storage b) (slot b i) 0 = Some l /\ window (with_storage l b) (delete i m).
Proof.
  intros Hw Hi Hd. apply (window_write b m); [done|done|done| | |].
  - intros j Hj. by rewrite lookup_delete_ne.
  - by rewrite lookup_delete_eq.
  - intros w. by rewrite lookup_delete_eq.
Qed.

(** A number with a pointer is inside the span. *)
Lemma window_span b m i : window b m -> is_Some (m !! i) -> dist (m_first b) i < dist (m_first b) (m_last b) <= m_capacity b.
Proof. intros Hw [v Hv]. destruct (wi_some _ _ Hw i v Hv) as (_ & _ & ?). by pose proof (wi_span _ _ Hw). Qed.

(** ** Loops *)

(** The pointer in the slot of any number. *)
Definition cell (b : packet_buffer) (x : Z) : Z := default 0 (zget (m_storage b) (x mod m_capacity b)).

Lemma cell_get b m x : window b m -> zget (m_storage b) (slot b x) = Some (cell b x).
Proof.
  intros Hw. destruct (window_readable b m x Hw) as [v Hv]. unfold cell. rewrite <- slot_mod by apply Hw. by rewrite Hv.
Qed.

Lemma cell_u32 b m x : window b m -> cell b (u32 x) = cell b x.
Proof. intros Hw. unfold cell. by rewrite power_mod32 by apply Hw. Qed.

Lemma cell_map b m i : window b m -> seq16 i -> dist (m_first b) i < m_capacity b -> cell b i = default 0 (m !! i).
Proof. intros Hw Hi Hd. unfold cell. by rewrite (wi_slot _ _ Hw). Qed.

Lemma u32_add x y : u32 (u32 x + y) = u32 (x + y).
Proof. unfold u32. by rewrite Zplus_mod_idemp_l. Qed.

(** A loop that looks for a used slot finds the first one. *)
Lemma seek_spec b m step n x d :
  window b m -> 0 <= d < Z.of_nat n -> cell b (x + step * d) <> 0 ->
  exists e, 0 <= e <= d /\ seek n b step (u32 x) = Some (u32 (x + step * e)) /\ cell b (x + step * e) <> 0 /\
    forall f, 0 <= f < e -> cell b (x + step * f) = 0.
Proof.
  intros Hw. revert x d. induction n as [|n IH]; intros x d Hd Hc; [lia|]. cbn [seek].
  rewrite (cell_get b m) by done. cbn [mbind option_bind]. rewrite (cell_u32 b m) by done.
  destruct (Z.eqb_spec (cell b x) 0) as [H0|H0].
  - destruct (decide (d = 0)) as [->|Hd0]; [by rewrite Z.mul_0_r, Z.add_0_r in Hc|]. rewrite u32_add.
    destruct (IH (x + step) (d - 1)) as (e & He & -> & Hce & Hf); [lia|by replace (x + step + step * (d - 1)) with (x + step * d) by lia|].
    exists (e + 1). replace (x + step * (e + 1)) with (x + step + step * e) by lia. split_and!; [lia|lia|done|done|].
    intros f Hlt. destruct (decide (f = 0)) as [->|]; [by rewrite Z.mul_0_r, Z.add_0_r|].
    replace (x + step * f) with (x + step + step * (f - 1)) by lia. apply Hf. lia.
  - exists 0. rewrite Z.mul_0_r, Z.add_0_r. split_and!; [lia|lia|done|done|lia].
Qed.

Lemma slot_slot b m x : window b m -> slot b (slot b x) = slot b x.
Proof.
  intros Hw. rewrite !slot_mod by apply Hw. pose proof (power_range _ (wi_cap _ _ Hw)). apply Z.mod_mod. lia.
Qed.

Lemma slot_pred b m x : window b m -> slot b (u32 (slot b x - 1)) = slot b (x - 1).
Proof.
  intros Hw. rewrite !slot_mod by apply Hw. rewrite power_mod32 by apply Hw. by rewrite Zminus_mod_idemp_l.
Qed.

(** The free slots from [x] down, to the first pointer or to the slot of
    [x - n]. *)
Lemma free_below_spec b m n x free :
  window b m -> (forall e, 0 <= e < Z.of_nat n -> slot b (x - e) <> slot b (x - Z.of_nat n)) ->
  exists e, 0 <= e <= Z.of_nat n /\ free_below (S n) (slot b x) (slot b (x - Z.of_nat n)) free b = Some (free + e) /\
    (forall f, 0 <= f < e -> cell b (x - f) = 0) /\ (e = Z.of_nat n \/ cell b (x - e) <> 0).
Proof.
  intros Hw. revert x free. induction n as [|n IH]; intros x free Hne.
  { exists 0. cbn [free_below]. rewrite Z.sub_0_r, Z.eqb_refl, Z.add_0_r. split_and!; [lia|lia|done|lia|by left]. }
  remember (S n) as n' eqn:Hn. cbn [free_below]. subst n'.
  rewrite (proj2 (Z.eqb_neq _ _)) by (specialize (Hne 0 ltac:(lia)); by rewrite Z.sub_0_r in Hne).
  rewrite (slot_slot b m), (cell_get b m) by done. cbn [mbind option_bind]. destruct (Z.eqb_spec (cell b x) 0) as [H0|H0].
  - rewrite (slot_pred b m) by done. replace (x - Z.of_nat (S n)) with (x - 1 - Z.of_nat n) by lia.
    destruct (IH (x - 1) (free + 1)) as (e & He & E & Hz & Hstop).
    { intros e He. replace (x - 1 - e) with (x - (e + 1)) by lia. replace (x - 1 - Z.of_nat n) with (x - Z.of_nat (S n)) by lia. apply Hne. lia. }
    exists (e + 1). rewrite E. split_and!; [lia|lia|f_equal; lia| |].
    + intros f Hf. destruct (decide (f = 0)) as [->|]; [by rewrite Z.sub_0_r|]. replace (x - f) with (x - 1 - (f - 1)) by lia. apply Hz. lia.
    + replace (x - (e + 1)) with (x - 1 - e) by lia. destruct Hstop; [left; lia|by right].
  - exists 0. rewrite Z.sub_0_r, Z.add_0_r. split_and!; [lia|lia|done|lia|by right].
Qed.

(** ** Growing *)

Lemma buffer_grow_spec fuel new size k :
  4 <= k <= 15 -> new = 2 ^ k -> size <= 2 ^ 15 -> size - new < Z.of_nat fuel ->
  power (grow fuel new size) /\ size <= grow fuel new size /\ new <= grow fuel new size.
Proof.
  revert new k. induction fuel as [|fuel IH]; intros new k Hk -> Hsize Hfuel; cbn [grow].
  { split_and!; [by exists k|lia|lia]. }
  destruct (Z.ltb_spec (2 ^ k) size) as [Hlt|Hge]; [|split_and!; [by exists k|lia|lia]].
  assert (Z.shiftl (2 ^ k) 1 = 2 ^ (k + 1)) as -> by (rewrite Z.shiftl_mul_pow2, <- Z.pow_add_r by lia; done).
  assert (0 < 2 ^ k) by (by apply Z.pow_pos_nonneg; lia). rewrite Z.pow_add_r by lia. change (2 ^ 1) with 2.
  assert (k < 15) by (apply (Z.pow_lt_mono_r_iff 2); lia).
  destruct (IH (2 ^ k * 2) (k + 1)) as (H1 & H2 & H3); [lia|rewrite Z.pow_add_r by lia; done|done|lia|]. split_and!; [done|done|lia].
Qed.

Lemma land_power x c : power c -> Z.land x (c - 1) = x mod c.
Proof. intros (k & Hk & ->). replace (2 ^ k - 1) with (Z.ones k) by (rewrite Z.ones_equiv; lia). apply Z.land_ones. lia. Qed.

Lemma mod_step i d c : 0 < c -> 0 < d < c -> (i + d) mod c <> i mod c.
Proof.
  intros Hc Hd E. assert ((i + d - i) mod c = 0) as H by (rewrite Zminus_mod, E, Z.sub_diag; apply Z.mod_0_l; lia).
  rewrite Z.add_simpl_l, Z.mod_small in H by lia. lia.
Qed.

(** The copied slots: those of the numbers from [i] on. *)
Lemma copy_slots_spec b m n i new storage :
  window b m -> power new -> zlen storage = new -> Z.of_nat n <= new ->
  exists l, copy_slots n i b new storage = Some l /\ zlen l = new /\
    (forall d, 0 <= d < Z.of_nat n -> zget l ((i + d) mod new) = Some (cell b (i + d))) /\
    (forall s, (forall d, 0 <= d < Z.of_nat n -> (i + d) mod new <> s) -> zget l s = zget storage s).
Proof.
  intros Hw Hnew. pose proof (power_range _ Hnew). revert i storage. induction n as [|n IH]; intros i storage Hlen Hn; cbn [copy_slots].
  { exists storage. split_and!; [done|done|lia|done]. }
  rewrite (cell_get b m) by done. cbn [mbind option_bind]. rewrite land_power by done.
  assert (0 <= i mod new < new) as Hi by (apply Z.mod_pos_bound; lia).
  destruct (zset storage (i mod new) (cell b i)) as [st1|] eqn:Hz; [|unfold zset in Hz; by rewrite decide_True in Hz by lia].
  cbn [mbind option_bind]. destruct (IH (i + 1) st1) as (l & -> & Hl & Hin & Hout); [by rewrite (zset_length _ _ _ _ Hz)|lia|].
  exists l. split_and!; [done|done| |].
  - intros d Hd. destruct (decide (d = 0)) as [->|Hne].
    + rewrite Z.add_0_r, Hout, (zget_zset _ _ _ _ _ Hz), decide_True; [done|done|].
      intros d Hd'. replace (i + 1 + d) with (i + (d + 1)) by lia. apply mod_step; lia.
    + replace (i + d) with (i + 1 + (d - 1)) by lia. apply Hin. lia.
  - intros s Hs. rewrite Hout, (zget_zset _ _ _ _ _ Hz), decide_False; [done| |].
    + specialize (Hs 0 ltac:(lia)). by rewrite Z.add_0_r in Hs.
    + intros d Hd. replace (i + 1 + d) with (i + (d + 1)) by lia. apply Hs. lia.
Qed.

(** [reserve] keeps the map, and makes the window as large as it is asked. *)
Lemma buffer_reserve_spec b m size :
  window b m -> size <= 32768 ->
  exists b', reserve size b = Some b' /\ window b' m /\ size <= m_capacity b' /\ m_capacity b <= m_capacity b' /\
    m_size b' = m_size b /\ m_first b' = m_first b /\ m_last b' = m_last b.
Proof.
  intros Hw Hsize. pose proof Hw as [Hlen Hcap Hf Hl Hs Hslot Hsp]. pose proof (power_range _ Hcap) as Hr. pose proof Hcap as (k & Hk & Ek).
  unfold reserve. rewrite (proj2 (Z.eqb_neq _ _)) by lia.
  destruct (buffer_grow_spec (Z.to_nat size) (m_capacity b) size k Hk Ek) as (Hp & Hge & Hge'); [done|lia|].
  set (new := grow _ _ _) in *. pose proof (power_range _ Hp).
  destruct (copy_slots_spec b m (Z.to_nat (m_capacity b)) (m_first b) new (replicate (Z.to_nat new) 0)) as (l & -> & Hll & Hin & Hout);
    [done|done|rewrite length_replicate; lia|lia|].
  rewrite Z2Nat.id in * by lia. eexists. split; [done|]. split_and!; simpl; try done.
  split; simpl; try done; [|lia]. intros i Hi Hd.
  pose proof (dist_slot new (m_first b) i Hp) as E. pose proof (dist_range (m_first b) i) as Hdr.
  destruct (Z.lt_ge_cases (dist (m_first b) i) (m_capacity b)) as [Hlt|Hge2].
  - rewrite <- E, Hin by lia. f_equal. rewrite <- (cell_map b m i) by done. unfold cell. by rewrite dist_slot.
  - rewrite Hout.
    + unfold zget. pose proof (Z.mod_pos_bound i new ltac:(lia)). rewrite decide_True by lia. rewrite lookup_replicate_2 by lia.
      destruct (m !! i) as [v|] eqn:Hm; [|done]. destruct (Hs i v Hm) as (_ & _ & ?). lia.
    + intros d Hd2 E2. rewrite <- E in E2. apply (mod_step (m_first b + d) (dist (m_first b) i - d) new); [lia|lia|].
      rewrite E2. f_equal. lia.
Qed.

(** ** Moving the ends *)

Lemma window_move b m f l :
  window b m -> seq16 f -> seq16 l -> (forall j, is_Some (m !! j) -> dist f j < dist f l) -> dist f l <= m_capacity b ->
  window (with_last l (with_first f b)) m.
Proof.
  intros Hw Hf Hl Hj Hle. pose proof Hw as [Hlen Hcap _ _ Hs Hslot _]. pose proof (power_range _ Hcap).
  split; simpl; try done.
  - intros i v Hi. destruct (Hs i v Hi) as (? & ? & _). split_and!; [done|done|]. apply Hj. by exists v.
  - intros i Hi Hd. destruct (slot_owner (m_capacity b) (m_first b) (i mod m_capacity b) Hcap) as (j & Hjs & Hjd & E); [by apply Z.mod_pos_bound; lia|].
    rewrite <- E, Hslot by done. destruct (decide (j = i)) as [->|Hne]; [done|].
    destruct (m !! j) as [w|] eqn:Hmj.
    { exfalso. apply Hne. apply (slot_inj (m_capacity b) f); try done. specialize (Hj j (mk_is_Some _ _ Hmj)). lia. }
    destruct (m !! i) as [w|] eqn:Hmi; [|done].
    exfalso. apply Hne. apply (slot_inj (m_capacity b) (m_first b)); try done.
    pose proof (window_span b m i Hw (mk_is_Some _ _ Hmi)). lia.
Qed.

Lemma window_first b m f :
  window b m -> seq16 f -> (forall j, is_Some (m !! j) -> dist f j < dist f (m_last b)) -> dist f (m_last b) <= m_capacity b ->
  window (with_first f b) m.
Proof. intros Hw Hf Hj Hle. exact (window_move b m f (m_last b) Hw Hf (wi_last _ _ Hw) Hj Hle). Qed.

Lemma window_last b m l :
  window b m -> seq16 l -> (forall j, is_Some (m !! j) -> dist (m_first b) j < dist (m_first b) l) -> dist (m_first b) l <= m_capacity b ->
  window (with_last l b) m.
Proof.
  intros Hw Hl Hj Hle. pose proof (window_move b m (m_first b) l Hw (wi_first _ _ Hw) Hl Hj Hle) as H. by destruct b.
Qed.

Lemma seq16_mod x : seq16 (x mod 65536).
Proof. unfold seq16. apply Z.mod_pos_bound. lia. Qed.

(** Distances from a number that is [d] above another. *)
Lemma dist_shift a d i : 0 <= d <= dist a i -> dist ((a + d) mod 65536) i = dist a i - d.
Proof. unfold dist. intros H. rewrite Zminus_mod_idemp_r. replace (i - (a + d)) with (i - a - d) by lia. zdiv. Qed.

Lemma dist_add a d : 0 <= d < 65536 -> dist a ((a + d) mod 65536) = d.
Proof. intros H. rewrite dist_mod. unfold dist. rewrite Z.add_simpl_l. by apply Z.mod_small. Qed.

Lemma add_dist a i : seq16 i -> (a + dist a i) mod 65536 = i.
Proof. unfold seq16, dist. intros H. rewrite Zplus_mod_idemp_r. replace (a + (i - a)) with i by lia. by apply Z.mod_small. Qed.

Lemma cell_mod16 b m x : window b m -> cell b (x mod 65536) = cell b x.
Proof. intros Hw. unfold cell. by rewrite power_mod16 by apply Hw. Qed.

(** The slot a distance above [m_first]. *)
Lemma cell_above b m d :
  window b m -> 0 <= d < m_capacity b -> cell b (m_first b + d) = default 0 (m !! ((m_first b + d) mod 65536)).
Proof.
  intros Hw Hd. pose proof (power_range _ (wi_cap _ _ Hw)). rewrite <- (cell_mod16 b m) by done.
  apply cell_map; [done|apply seq16_mod|]. rewrite dist_add; lia.
Qed.

Lemma cell_some b m d :
  window b m -> 0 <= d < m_capacity b -> cell b (m_first b + d) <> 0 -> is_Some (m !! ((m_first b + d) mod 65536)).
Proof. intros Hw Hd. rewrite (cell_above b m) by done. destruct (m !! _); [done|]. done. Qed.

Lemma some_cell b m j : window b m -> is_Some (m !! j) -> cell b (m_first b + dist (m_first b) j) <> 0.
Proof.
  intros Hw Hj. pose proof (window_span b m j Hw Hj). pose proof (dist_range (m_first b) j). destruct Hj as [v Hv].
  destruct (wi_some _ _ Hw j v Hv) as (Hs & Hne & _). rewrite (cell_above b m) by (done || lia). by rewrite add_dist, Hv.
Qed.
