(* ===== verification/PacketBufferRefine.v ===== *)
(** * The operations of the packet buffer on the map

    [at_], [remove] and [insert] are lookup, delete and insert of the map, as
    long as the number is one the buffer can place: [in_reach] for the first
    two and [has_room] for [insert]. *)

From Stdlib Require Import ZArith Lia.
From stdpp Require Import base numbers gmap list.
From S2P Require Import Prelude PacketBuffer PacketBufferSpec.

(** ** Looking up *)

(** A number that wrapped around is not compared with the capacity. *)
Definition in_reach (b : packet_buffer) (idx : Z) : Prop :=
  seq16 idx /\ (idx < m_first b -> dist (m_first b) idx <= 32768 -> dist (m_first b) idx < m_capacity b).

(** The tests [at_] and [remove] start with. *)
Lemma reach_cases b m idx :
  window b m -> in_reach b idx ->
  ((m_first b + m_capacity b <=? idx) || compare_less_wrap idx (m_first b) 65535 = true /\ m !! idx = None) \/
  ((m_first b + m_capacity b <=? idx) = false /\ compare_less_wrap idx (m_first b) 65535 = false /\ dist (m_first b) idx < m_capacity b).
Proof.
  intros Hw [Hi Hr]. pose proof Hw as [_ Hcap Hf _ _ _ Hsp]. pose proof (power_range _ Hcap).
  assert (m_capacity b <= dist (m_first b) idx -> m !! idx = None) as Hnone.
  { intros Hge. destruct (m !! idx) eqn:Hm; [|done]. pose proof (window_span b m idx Hw (mk_is_Some _ _ Hm)). lia. }
  rewrite compare_dist by done. destruct (dist_cases (m_first b) idx Hf Hi) as [[Hle Hd]|[Hlt Hd]].
  - destruct (Z.leb_spec (m_first b + m_capacity b) idx); [left; split; [done|apply Hnone; lia]|]. right. lia.
  - specialize (Hr Hlt). destruct (Z.leb_spec (m_first b + m_capacity b) idx); [lia|]. simpl.
    destruct (Z.ltb_spec 32768 (dist (m_first b) idx)); [left; split; [done|apply Hnone; lia]|right]. lia.
Qed.

Lemma buffer_at_spec b m idx : window b m -> in_reach b idx -> at_ b idx = Some (default 0 (m !! idx)).
Proof.
  intros Hw Hr. unfold at_. destruct (reach_cases b m idx Hw Hr) as [[Ht ->]|(-> & -> & Hd)].
  - by destruct (_ <=? _); simpl in Ht; [|rewrite Ht].
  - apply (window_get b m); [done|apply Hr|done].
Qed.

(** ** The ends after a removal *)

Lemma seek_first b m :
  window b m -> m <> ∅ -> m !! m_first b = None ->
  exists x, seek (Z.to_nat (m_capacity b)) b 1 (u32 (m_first b + 1)) = Some x /\
    let f := Z.land x 65535 in window (with_first f b) m /\ is_Some (m !! f).
Proof.
  intros Hw (j & v & Hv)%map_choose Hf. pose proof (power_range _ (wi_cap _ _ Hw)) as Hcap.
  assert (forall i, is_Some (m !! i) -> 0 < dist (m_first b) i) as Hpos.
  { intros i [w Hi]. pose proof (dist_range (m_first b) i). destruct (wi_some _ _ Hw i w Hi) as (Hs & _).
    assert (dist (m_first b) i <> 0); [|lia]. intros H0. rewrite <- (dist_self (m_first b)) in H0.
    apply dist_inj in H0; [|done|apply Hw]. by rewrite H0, Hf in Hi. }
  assert (is_Some (m !! j)) as Hj by (by exists v). pose proof (window_span b m j Hw Hj) as Hsp. specialize (Hpos j Hj) as Hj0.
  destruct (seek_spec b m 1 (Z.to_nat (m_capacity b)) (m_first b + 1) (dist (m_first b) j - 1)) as (e & He & -> & Hc & Hz); [done|lia| |].
  { replace (m_first b + 1 + 1 * (dist (m_first b) j - 1)) with (m_first b + dist (m_first b) j) by lia. by apply (some_cell b m). }
  eexists. split; [done|]. cbv zeta. rewrite land_16. replace (m_first b + 1 + 1 * e) with (m_first b + (1 + e)) in * by lia.
  assert (forall i, is_Some (m !! i) -> 1 + e <= dist (m_first b) i) as Hge.
  { intros i Hi. destruct (Z.le_gt_cases (1 + e) (dist (m_first b) i)); [done|]. exfalso. specialize (Hpos i Hi).
    apply (some_cell b m i Hw Hi). rewrite <- (Hz (dist (m_first b) i - 1)) by lia. f_equal. lia. }
  pose proof (wi_span _ _ Hw). split; [|by apply cell_some; [|lia|]].
  apply window_first; [done|apply seq16_mod| |rewrite dist_shift; lia].
  intros i Hi. specialize (Hge i Hi). pose proof (window_span b m i Hw Hi). rewrite !dist_shift; lia.
Qed.

Lemma seek_last b m :
  window b m -> m <> ∅ ->
  exists x, seek (Z.to_nat (m_capacity b)) b (-1) (u32 (m_last b - 1)) = Some x /\
    let l := Z.land (u32 (x + 1)) 65535 in window (with_last l b) m /\ is_Some (m !! ((l - 1) mod 65536)).
Proof.
  intros Hw (j & v & Hv)%map_choose. pose proof (power_range _ (wi_cap _ _ Hw)) as Hcap.
  assert (is_Some (m !! j)) as Hj by (by exists v). pose proof (window_span b m j Hw Hj) as Hsp.
  pose proof (dist_range (m_first b) j). set (s := dist (m_first b) (m_last b)) in *.
  assert (forall x, cell b (m_last b - 1 + -1 * x) = cell b (m_first b + (s - 1 - x))) as Hcell.
  { intros x. rewrite <- (cell_mod16 b m), <- (cell_mod16 b m (m_first b + _)) by done. f_equal.
    rewrite <- (add_dist (m_first b) (m_last b)) at 1 by apply Hw. fold s.
    replace (m_first b + (s - 1 - x)) with (m_first b + s + (- 1 - x)) by lia.
    rewrite <- (Zplus_mod_idemp_l (m_first b + s)). f_equal. lia. }
  destruct (seek_spec b m (-1) (Z.to_nat (m_capacity b)) (m_last b - 1) (s - 1 - dist (m_first b) j)) as (e & He & -> & Hc & Hz); [done|lia| |].
  { rewrite Hcell. replace (s - 1 - (s - 1 - dist (m_first b) j)) with (dist (m_first b) j) by lia. by apply (some_cell b m). }
  eexists. split; [done|]. cbv zeta. rewrite land_16. rewrite Hcell in Hc.
  assert ((u32 (m_last b - 1 + -1 * e) + 1) mod 65536 = (m_first b + (s - e)) mod 65536) as ->.
  { unfold u32. rewrite <- Zplus_mod_idemp_l. rewrite <- (Znumtheory.Zmod_div_mod 65536) by (lia || by exists 65536).
    rewrite Zplus_mod_idemp_l. rewrite <- (add_dist (m_first b) (m_last b)) at 1 by apply Hw. fold s.
    replace (m_first b + (s - e)) with (m_first b + s + - e) by lia. rewrite <- (Zplus_mod_idemp_l (m_first b + s)). f_equal. lia. }
  assert (forall i, is_Some (m !! i) -> dist (m_first b) i < s - e) as Hlt.
  { intros i Hi. destruct (Z.lt_ge_cases (dist (m_first b) i) (s - e)); [done|]. exfalso. pose proof (window_span b m i Hw Hi).
    apply (some_cell b m i Hw Hi). rewrite <- (Hz (s - 1 - dist (m_first b) i)) by lia. rewrite Hcell. f_equal. lia. }
  split.
  - apply window_last; [done|apply seq16_mod| |rewrite dist_add; lia]. intros i Hi. rewrite dist_add by lia. by apply Hlt.
  - rewrite Zminus_mod_idemp_l. replace (m_first b + (s - e) - 1) with (m_first b + (s - 1 - e)) by lia. apply cell_some; [done|lia|done].
Qed.

(** ** Removing *)

Lemma some_default b m i : window b m -> default 0 (m !! i) = 0 -> m !! i = None.
Proof. intros Hw. destruct (m !! i) as [v|] eqn:Hm; [|done]. simpl. intros ->. by destruct (wi_some _ _ Hw i 0 Hm) as (_ & ? & _). Qed.

Lemma window_size b m x : window b m -> window (with_size x b) m.
Proof. intros []. by split. Qed.

Lemma window_empty_span b f : window b ∅ -> seq16 f -> window (with_last f (with_first f b)) ∅.
Proof.
  intros Hw Hf. pose proof (power_range _ (wi_cap _ _ Hw)). apply window_move; try done; [by intros j [? ?]|rewrite dist_self; lia].
Qed.

Lemma last_pred idx l : seq16 idx -> seq16 l -> (idx + 1) mod 65536 = l -> (l - 1) mod 65536 = idx.
Proof. unfold seq16. intros Hi Hl <-. zdiv. Qed.

(** The two ends after the slot of [idx] was cleared and counted. *)
Definition trim (idx : Z) (b : packet_buffer) : option packet_buffer :=
  b ← (if (idx =? m_first b) && negb (m_size b =? 0) then
         first ← seek (Z.to_nat (m_capacity b)) b 1 (u32 (m_first b + 1));
         Some (with_first (Z.land first 65535) b)
       else Some b);
  if (Z.land (u32 (idx + 1)) 65535 =? m_last b) && negb (m_size b =? 0) then
    last ← seek (Z.to_nat (m_capacity b)) b (-1) (u32 (m_last b - 1));
    Some (with_last (Z.land (u32 (last + 1)) 65535) b)
  else Some b.

Lemma trim_spec idx b m :
  window b m -> seq16 idx -> m_size b = Z.of_nat (size m) -> m !! idx = None ->
  (idx <> m_first b -> m <> ∅ -> is_Some (m !! m_first b)) ->
  ((idx + 1) mod 65536 <> m_last b -> m <> ∅ -> is_Some (m !! ((m_last b - 1) mod 65536))) ->
  exists b', trim idx b = Some b' /\ holds b' m.
Proof.
  intros Hw Hi Hsize Hnone Hfirst Hlast. unfold trim. assert (m_size b = 0 <-> m = ∅) as Hs0.
  { rewrite Hsize. rewrite <- map_size_empty_iff. lia. }
  destruct (Z.eqb_spec (m_size b) 0) as [H0|H0].
  { rewrite andb_false_r. cbn [mbind option_bind]. rewrite (proj2 (Z.eqb_eq _ _) H0), andb_false_r. exists b. split; [done|].
    apply Hs0 in H0. by split. }
  assert (m <> ∅) as Hne by tauto. rewrite !andb_true_r.
  assert (exists b1, (if idx =? m_first b then
      first ← seek (Z.to_nat (m_capacity b)) b 1 (u32 (m_first b + 1)); Some (with_first (Z.land first 65535) b) else Some b) = Some b1 /\
      window b1 m /\ is_Some (m !! m_first b1) /\ m_last b1 = m_last b /\ m_size b1 = m_size b) as (b1 & -> & Hw1 & Hf1 & Hl1 & Hsz1).
  { destruct (Z.eqb_spec idx (m_first b)) as [->|Hd]; [|exists b; split_and!; [done|done|by apply Hfirst|done|done]].
    destruct (seek_first b m Hw Hne Hnone) as (x & -> & Hw1 & Hf1). eexists. by split_and!. }
  cbn [mbind option_bind]. rewrite Hsz1, Hl1, land_16, (proj2 (Z.eqb_neq _ _) H0), andb_true_r.
  destruct (Z.eqb_spec ((idx + 1) mod 65536) (m_last b)) as [Hd|Hd].
  - destruct (seek_last b1 m Hw1 Hne) as (x & E & Hw2 & Hl2). rewrite Hl1 in E. rewrite E. eexists. split; [done|]. split; [done| |done|done].
    simpl. by rewrite Hsz1.
  - exists b1. split; [done|]. split; [done|by rewrite Hsz1|done|]. intros _. rewrite Hl1. by apply Hlast.
Qed.

Lemma remove_trim idx b :
  remove idx b =
  if (m_first b + m_capacity b <=? idx) || compare_less_wrap idx (m_first b) 65535 then Some (0, b)
  else
    old_value ← zget (m_storage b) (slot b idx);
    storage ← zset (m_storage b) (slot b idx) 0;
    let b := with_storage storage b in
    let b := if old_value =? 0 then b
             else let b := with_size (m_size b - 1) b in if m_size b =? 0 then with_last (m_first b) b else b in
    b ← trim idx b; Some (old_value, b).
Proof.
  unfold remove, trim. destruct (_ <=? idx); [done|]. simpl. destruct (compare_less_wrap _ _ _); [done|].
  destruct (zget _ _) as [v|]; [|done]. cbn [mbind option_bind]. destruct (zset _ _ _) as [l|]; [|done]. cbn [mbind option_bind].
  set (b1 := if v =? 0 then _ else _). clearbody b1. by destruct (if (idx =? m_first b1) && _ then _ else Some b1).
Qed.

Lemma buffer_remove_spec b m idx :
  holds b m -> in_reach b idx ->
  exists b', remove idx b = Some (default 0 (m !! idx), b') /\ holds b' (delete idx m).
Proof.
  intros Hh Hr. pose proof Hh as [Hw Hsize Hf Hl]. pose proof (proj1 Hr) as Hi. rewrite remove_trim.
  destruct (reach_cases b m idx Hw Hr) as [[-> Hnone]|(-> & -> & Hd)].
  { exists b. rewrite Hnone. split; [done|]. by rewrite delete_id. }
  simpl. rewrite (window_get b m) by done. cbn [mbind option_bind].
  destruct (window_clear b m idx Hw Hi Hd) as (l & -> & Hw1). cbn [mbind option_bind]. set (b1 := with_storage l b) in *.
  assert (delete idx m !! idx = None) as Hnone by apply lookup_delete_eq.
  destruct (Z.eqb_spec (default 0 (m !! idx)) 0) as [H0|H0].
  - assert (m !! idx = None) as Hn by (by eapply some_default). rewrite delete_id in * by done.
    destruct (trim_spec idx b1 m) as (b' & -> & Hh'); try done. by exists b'.
  - destruct (m !! idx) as [v|] eqn:Hv; [|done]. simpl in H0.
    assert (Z.of_nat (size (delete idx m)) = m_size b - 1) as Hsz.
    { rewrite Hsize, map_size_delete, Hv. assert (size m <> 0%nat); [|lia].
      apply map_size_non_empty_iff. intros ->. by rewrite lookup_empty in Hv. }
    change (m_size (with_size (m_size b1 - 1) b1)) with (m_size b - 1). change (m_size b1) with (m_size b).
    destruct (Z.eqb_spec (m_size b - 1) 0) as [H1|H1].
    + assert (delete idx m = ∅) as He by (apply map_size_empty_iff; lia). rewrite He in *.
      set (b2 := with_last _ _).
      assert (window b2 ∅) as Hw2.
      { pose proof (window_empty_span (with_size (m_size b - 1) b1) (m_first b) (window_size _ _ _ Hw1) (wi_first _ _ Hw)) as H.
        by destruct b. }
      destruct (trim_spec idx b2 ∅) as (b' & -> & Hh'); try done. by exists b'.
    + destruct (trim_spec idx (with_size (m_size b - 1) b1) (delete idx m)) as (b' & -> & Hh'); [by apply window_size|done|done|done| | |by exists b'].
      * intros Hne Hm. rewrite lookup_delete_ne by done. apply Hf. intros ->. by rewrite lookup_empty in Hv.
      * intros Hne Hm. simpl in *. rewrite lookup_delete_ne; [apply Hl; intros ->; by rewrite lookup_empty in Hv|].
        intros E. apply Hne. rewrite E. rewrite Zplus_mod_idemp_l. replace (m_last b - 1 + 1) with (m_last b) by lia.
        apply Z.mod_small, (wi_last _ _ Hw).
Qed.

(** ** Inserting *)

Lemma dist_trans x y z : dist x y + dist y z < 65536 -> dist x z = dist x y + dist y z.
Proof.
  unfold dist. intros H. replace (z - x) with ((y - x) + (z - y)) by lia. rewrite Zplus_mod. apply Z.mod_small.
  pose proof (Z.mod_pos_bound (y - x) 65536). pose proof (Z.mod_pos_bound (z - y) 65536). lia.
Qed.

Lemma dist_back x y : seq16 x -> seq16 y -> x <> y -> dist y x = 65536 - dist x y.
Proof. intros Hx Hy Hne. destruct (dist_cases x y Hx Hy) as [[? ->]|[? ->]], (dist_cases y x Hy Hx) as [[? ->]|[? ->]]; lia. Qed.

(** A number above [m_first]: less than half the circle away, and when it
    wrapped around the window has reached the end of the numbers. *)
Definition forward (b : packet_buffer) (idx : Z) : Prop :=
  dist (m_first b) idx < 32768 /\ (idx < m_first b -> 65536 <= m_first b + m_capacity b).

(** A number below [m_first], with all pointers in half the circle above it. *)
Definition backward (b : packet_buffer) (idx : Z) : Prop :=
  32768 < dist (m_first b) idx /\ dist idx (m_first b) + dist (m_first b) (m_last b) <= 32768.

Definition has_room (b : packet_buffer) (idx : Z) : Prop :=
  seq16 idx /\ (m_size b = 0 \/ forward b idx \/ backward b idx).

(** What [make_room] leaves: [idx] in the window, at an end of the span or
    between the ends. *)
Record roomy (b : packet_buffer) (m : gmap Z Z) (idx size : Z) : Prop := {
  rm_window : window b m;
  rm_size : m_size b = size;
  rm_in : dist (m_first b) idx < dist (m_first b) (m_last b);
  rm_first : is_Some (m !! m_first b) \/ m_first b = idx;
  rm_last : is_Some (m !! ((m_last b - 1) mod 65536)) \/ (m_last b - 1) mod 65536 = idx;
}.

(** The free slots below [m_first] are all that are outside the span. *)
Lemma free_slots b m :
  window b m -> is_Some (m !! m_first b) -> is_Some (m !! ((m_last b - 1) mod 65536)) ->
  free_below (Z.to_nat (m_capacity b)) (slot b (u32 (m_first b - 1))) (slot b (m_first b)) 0 b =
    Some (m_capacity b - dist (m_first b) (m_last b)).
Proof.
  intros Hw Hf Hl. pose proof (power_range _ (wi_cap _ _ Hw)) as Hc. set (cap := m_capacity b) in *. set (s := dist (m_first b) (m_last b)).
  pose proof (window_span b m _ Hw Hf) as Hsf. rewrite dist_self in Hsf. fold s cap in Hsf.
  assert (slot b (u32 (m_first b - 1)) = slot b (m_first b - 1)) as ->.
  { rewrite !slot_mod by apply Hw. apply power_mod32, Hw. }
  replace (Z.to_nat cap) with (S (Z.to_nat (cap - 1))) by lia.
  assert (slot b (m_first b) = slot b (m_first b - 1 - Z.of_nat (Z.to_nat (cap - 1)))) as E.
  { rewrite !slot_mod by apply Hw. fold cap. replace (m_first b - 1 - Z.of_nat (Z.to_nat (cap - 1))) with (m_first b + (-1) * cap) by lia.
    symmetry. apply Z.mod_add. lia. }
  rewrite E. destruct (free_below_spec b m (Z.to_nat (cap - 1)) (m_first b - 1) 0 Hw) as (e & He & -> & Hz & Hstop).
  { intros e He. rewrite <- E, !slot_mod by apply Hw. fold cap. intros Heq.
    apply (mod_step (m_first b - cap) (cap - 1 - e) cap); [lia|lia|].
    replace (m_first b - cap + (cap - 1 - e)) with (m_first b - 1 - e) by lia. rewrite Heq.
    replace (m_first b - cap) with (m_first b + (-1) * cap) by lia. symmetry. apply Z.mod_add. lia. }
  rewrite Z2Nat.id in * by lia. f_equal.
  assert (forall x, cell b (m_first b - 1 - x) = cell b (m_first b + (cap - 1 - x))) as Hcell.
  { intros x. unfold cell. fold cap. replace (m_first b + (cap - 1 - x)) with (m_first b - 1 - x + 1 * cap) by lia. rewrite Z.mod_add by lia. done. }
  assert (dist (m_first b) ((m_last b - 1) mod 65536) = s - 1) as Hd.
  { rewrite dist_mod. unfold s, dist in *. replace (m_last b - 1 - m_first b) with (m_last b - m_first b - 1) by lia. zdiv. }
  assert (e <= cap - s) as Hle.
  { destruct (Z.le_gt_cases e (cap - s)); [done|]. exfalso. apply (some_cell b m _ Hw Hl). rewrite Hd.
    rewrite <- (Hz (cap - s)) by lia. rewrite Hcell. f_equal. lia. }
  destruct Hstop as [->|Hstop]; [lia|]. rewrite Hcell in Hstop. apply (cell_some b m) in Hstop; [|done|fold cap; lia].
  pose proof (window_span b m _ Hw Hstop) as H2. rewrite dist_add in H2 by lia. fold s in H2. lia.
Qed.

Lemma backward_room b m idx :
  window b m -> is_Some (m !! m_first b) -> is_Some (m !! ((m_last b - 1) mod 65536)) -> m_size b <> 0 -> seq16 idx -> backward b idx ->
  exists b', make_room idx b = Some b' /\ roomy b' m idx (m_size b).
Proof.
  intros Hw Hf Hl Hs Hi [Hd Hhalf]. pose proof (wi_first _ _ Hw) as Hfs. pose proof (wi_last _ _ Hw) as Hls. pose proof (wi_cap _ _ Hw) as Hcap.
  assert (idx <> m_first b) as Hne by (intros ->; rewrite dist_self in Hd; lia).
  pose proof (window_span b m _ Hw Hf) as Hsf. rewrite dist_self in Hsf.
  unfold make_room. rewrite (proj2 (Z.eqb_neq _ _)) by done. rewrite compare_dist, (proj2 (Z.ltb_lt _ _)) by done.
  rewrite (free_slots b m) by done. cbn [mbind option_bind]. rewrite !land_16. fold (dist idx (m_first b)).
  set (g := dist idx (m_first b)) in *. set (s := dist (m_first b) (m_last b)) in *.
  assert (exists b1, (if m_capacity b - s <? g then reserve (g + m_capacity b - (m_capacity b - s)) b else Some b) = Some b1 /\
    window b1 m /\ g + s <= m_capacity b1 /\ m_size b1 = m_size b /\ m_first b1 = m_first b /\ m_last b1 = m_last b)
    as (b1 & -> & Hw1 & Hge & Hs1 & Hf1 & Hl1).
  { destruct (Z.ltb_spec (m_capacity b - s) g); [|exists b; split_and!; try done; lia].
    destruct (buffer_reserve_spec b m (g + m_capacity b - (m_capacity b - s)) Hw) as (b1 & E & Hw1 & Hge & _ & H1 & H2 & H3); [lia|].
    exists b1. split_and!; try done; lia. }
  cbn [mbind option_bind]. change (m_last (with_first idx b1)) with (m_last b1). rewrite Hl1.
  assert (forall i, g + dist (m_first b) i < 65536 -> dist idx i = g + dist (m_first b) i) as Hdi by (intros i Hlt; by apply dist_trans).
  assert (dist idx (m_last b) = g + s) as Hdl by (apply Hdi; fold s; lia).
  assert (dist idx ((idx + 1) mod 65536) = 1) as Hd1 by (apply dist_add; lia).
  assert (1 <= g) by (unfold g; rewrite (dist_back (m_first b) idx) by (done || by intros ->); pose proof (dist_range (m_first b) idx); lia).
  assert (dist ((idx + 1) mod 65536) (m_last b) = g + s - 1) as Hdl1 by (rewrite dist_shift; lia).
  rewrite compare_dist, Hdl1, (proj2 (Z.ltb_ge _ _)) by (apply seq16_mod || done || lia). eexists. split; [done|]. split; simpl.
  - apply window_first; [done|done| |rewrite Hl1, Hdl; lia]. intros i Hsi. rewrite Hl1, Hdl. pose proof (window_span b m i Hw Hsi). fold s in H0.
    rewrite Hdi; lia.
  - done.
  - rewrite Hl1, Hdl, dist_self. lia.
  - by right.
  - left. by rewrite Hl1.
Qed.

Lemma forward_room b m idx :
  window b m -> is_Some (m !! m_first b) -> is_Some (m !! ((m_last b - 1) mod 65536)) -> m_size b <> 0 -> seq16 idx -> forward b idx ->
  exists b', make_room idx b = Some b' /\ roomy b' m idx (m_size b).
Proof.
  intros Hw Hf Hl Hs Hi [Hd Hwrap]. pose proof (wi_first _ _ Hw) as Hfs. pose proof (wi_last _ _ Hw) as Hls.
  pose proof (power_range _ (wi_cap _ _ Hw)) as Hc. pose proof (window_span b m _ Hw Hf) as Hsf. rewrite dist_self in Hsf.
  set (d := dist (m_first b) idx) in *. set (s := dist (m_first b) (m_last b)) in *. pose proof (dist_range (m_first b) idx) as Hdr. fold d in Hdr.
  unfold make_room. rewrite (proj2 (Z.eqb_neq _ _)) by done. rewrite compare_dist, (proj2 (Z.ltb_ge _ _)) by (done || fold d; lia).
  match goal with |- context [mbind (M := option) _ ?e] => assert (exists b1, e = Some b1 /\ window b1 m /\ d < m_capacity b1 /\ s <= m_capacity b1 /\
    m_size b1 = m_size b /\ m_first b1 = m_first b /\ m_last b1 = m_last b) as (b1 & -> & Hw1 & Hge & Hge2 & Hs1 & Hf1 & Hl1) end.
  { assert (forall size, size = d + 1 -> exists b1, reserve size b = Some b1 /\ window b1 m /\ d < m_capacity b1 /\ s <= m_capacity b1 /\
      m_size b1 = m_size b /\ m_first b1 = m_first b /\ m_last b1 = m_last b) as Hres.
    { intros size ->. destruct (buffer_reserve_spec b m (d + 1) Hw) as (b1 & E & Hw1 & ? & ? & ? & ? & ?); [lia|]. exists b1. split_and!; done || lia. }
    assert (d < m_capacity b -> exists b1, Some b = Some b1 /\ window b1 m /\ d < m_capacity b1 /\ s <= m_capacity b1 /\
      m_size b1 = m_size b /\ m_first b1 = m_first b /\ m_last b1 = m_last b) as Hsame by (intros; exists b; split_and!; done || lia).
    destruct (dist_cases (m_first b) idx Hfs Hi) as [[Hle Hde]|[Hlt Hde]]; fold d in Hde.
    - destruct (Z.leb_spec (m_first b + m_capacity b) idx); [apply Hres; lia|].
      rewrite (proj2 (Z.ltb_ge _ _)) by lia. apply Hsame. lia.
    - specialize (Hwrap Hlt). unfold seq16 in *. rewrite (proj2 (Z.leb_gt _ _)), (proj2 (Z.ltb_lt _ _)) by lia.
      assert (Z.land (m_first b + m_capacity b) 65535 = m_first b + m_capacity b - 65536) as ->.
      { change 65535 with (Z.ones 16). rewrite Z.land_ones by lia. change (2 ^ 16) with 65536. zdiv. }
      rewrite (proj2 (Z.ltb_lt (m_capacity b) 65535)), andb_true_r by lia.
      destruct (Z.leb_spec (m_first b + m_capacity b - 65536) idx); [apply Hres; lia|apply Hsame; lia]. }
  cbn [mbind option_bind]. rewrite Hl1, land_16.
  assert (dist (m_first b) ((idx + 1) mod 65536) = d + 1) as Hd1.
  { rewrite dist_mod. unfold d, dist in *. replace (idx + 1 - m_first b) with (idx - m_first b + 1) by lia. zdiv. }
  rewrite compare_dist by (done || apply seq16_mod). destruct (Z.ltb_spec 32768 (dist ((idx + 1) mod 65536) (m_last b))) as [Hless|Hless].
  - assert (s < d + 1) as Hlt.
    { destruct (Z.lt_ge_cases s (d + 1)); [done|]. exfalso.
      assert (dist (m_first b) ((idx + 1) mod 65536) + dist ((idx + 1) mod 65536) (m_last b) = s) as E; [|rewrite Hd1 in E; lia].
      rewrite Hd1. assert ((idx + 1) mod 65536 = (m_first b + (d + 1)) mod 65536) as ->.
      { rewrite <- (add_dist (m_first b) idx) at 1 by done. fold d. rewrite Zplus_mod_idemp_l. f_equal. lia. }
      rewrite dist_shift; fold s; lia. }
    eexists. split; [done|]. split; simpl; rewrite ?Hf1, ?Hd1; [|done|fold d; lia|by left|].
    + apply window_last; [done|apply seq16_mod| |]; rewrite Hf1, Hd1; [|lia]. intros i Hsi. pose proof (window_span b m i Hw Hsi). fold s in H. lia.
    + right. rewrite Zminus_mod_idemp_l. replace (idx + 1 - 1) with idx by lia. by apply Z.mod_small.
  - assert (d + 1 <= s) as Hle.
    { destruct (Z.le_gt_cases (d + 1) s); [done|]. exfalso.
      assert (dist (m_last b) ((idx + 1) mod 65536) = d + 1 - s) as E.
      { rewrite <- (add_dist (m_first b) (m_last b)) by done. fold s. rewrite dist_shift; rewrite ?Hd1; lia. }
      rewrite (dist_back (m_last b)) in Hless; [lia|done|apply seq16_mod|]. intros Heq. rewrite <- Heq, dist_self in E. lia. }
    exists b1. split; [done|]. split; rewrite ?Hf1, ?Hl1; [done|done|fold d s; lia|by left|by left].
Qed.

Lemma empty_room b idx :
  window b ∅ -> m_size b = 0 -> seq16 idx -> exists b', make_room idx b = Some b' /\ roomy b' ∅ idx 0 /\ m_first b' = idx.
Proof.
  intros Hw Hs Hi. pose proof (power_range _ (wi_cap _ _ Hw)). unfold make_room. rewrite (proj2 (Z.eqb_eq _ _) Hs), land_16.
  assert (dist idx ((idx + 1) mod 65536) = 1) as Hd by (apply dist_add; lia).
  eexists. split; [done|]. split; [|done]. split; simpl; [|done|rewrite Hd, dist_self; lia|by right|].
  - apply window_move; [done|done|apply seq16_mod|by intros j [? ?]|rewrite Hd; lia].
  - right. rewrite Zminus_mod_idemp_l. replace (idx + 1 - 1) with idx by lia. by apply Z.mod_small.
Qed.

(** Writing the pointer into the room made for it. *)
Lemma put_roomy b m idx value size :
  roomy b m idx size -> seq16 idx -> value <> 0 -> size = Z.of_nat (base.size m) -> (size = 0 -> m_first b = idx) ->
  exists l, zget (m_storage b) (slot b idx) = Some (default 0 (m !! idx)) /\ zset (m_storage b) (slot b idx) value = Some l /\
    let b := with_storage l b in
    let b := if m_size b =? 0 then with_first idx b else b in
    holds (if default 0 (m !! idx) =? 0 then with_size (m_size b + 1) b else b) (<[idx := value]> m).
Proof.
  intros [Hw Hsz Hin Hf Hl] Hi Hv Hm Hempty. destruct (window_put b m idx value Hw Hi Hin Hv) as (l & E & Hw').
  exists l. split; [apply window_get; [done|done|pose proof (wi_span _ _ Hw); lia]|]. split; [exact E|]. cbv zeta.
  assert ((if m_size (with_storage l b) =? 0 then with_first idx (with_storage l b) else with_storage l b) = with_storage l b) as ->.
  { destruct (Z.eqb_spec (m_size (with_storage l b)) 0) as [H0|]; [|done]. simpl in H0. rewrite Hsz in H0. rewrite <- Hempty by done. by destruct b. }
  assert (forall x, window (with_size x (with_storage l b)) (<[idx := value]> m)) as Hw2 by (intros x; by apply window_size).
  assert (is_Some (<[idx := value]> m !! m_first b) /\ is_Some (<[idx := value]> m !! ((m_last b - 1) mod 65536))) as [He1 He2].
  { rewrite !lookup_insert_is_Some'. split; [destruct Hf as [|Hf]; [by right|by left]|destruct Hl as [|Hl]; [by right|by left]]. }
  destruct (Z.eqb_spec (default 0 (m !! idx)) 0) as [H0|H0].
  - split; [apply Hw2| |by intros _|by intros _]. apply (some_default b) in H0; [|done]. simpl. rewrite Hsz, Hm, map_size_insert_None by done. lia.
  - split; [exact Hw'| |by intros _|by intros _]. destruct (m !! idx) as [w|] eqn:Hmi; [|done]. simpl. rewrite Hsz, Hm. by rewrite map_size_insert_Some by done.
Qed.

Lemma buffer_insert_spec b m idx value :
  holds b m -> has_room b idx -> value <> 0 ->
  exists b', insert idx value b = Some (default 0 (m !! idx), b') /\ holds b' (<[idx := value]> m).
Proof.
  intros [Hw Hsize Hf Hl] [Hi Hroom] Hv.
  assert (exists b1, make_room idx b = Some b1 /\ roomy b1 m idx (m_size b) /\ (m_size b = 0 -> m_first b1 = idx)) as (b1 & E & Hr & Hempty).
  { destruct (Z.eq_dec (m_size b) 0) as [H0|H0].
    - assert (m = ∅) as -> by (apply map_size_empty_iff; lia). destruct (empty_room b idx Hw H0 Hi) as (b1 & ? & ? & ?). exists b1. by rewrite H0.
    - assert (m <> ∅) as Hm by (intros ->; rewrite map_size_empty in Hsize; lia).
      destruct Hroom as [?|[Hfw|Hbw]]; [done| |].
      + destruct (forward_room b m idx) as (b1 & ? & ?); try done; [by apply Hf|by apply Hl|]. by exists b1.
      + destruct (backward_room b m idx) as (b1 & ? & ?); try done; [by apply Hf|by apply Hl|]. by exists b1. }
  unfold insert. rewrite (proj2 (Z.eqb_neq _ _)) by done. rewrite E. cbn [mbind option_bind].
  pose proof (power_range _ (wi_cap _ _ (rm_window _ _ _ _ Hr))). rewrite (proj2 (Z.eqb_neq (m_capacity b1) 0)) by lia. cbn [mbind option_bind].
  destruct (put_roomy b1 m idx value _ Hr Hi Hv Hsize Hempty) as (l & -> & -> & Hh). cbn [mbind option_bind]. by eexists.
Qed.

(** * Runs of the packet buffer

    A buffer starts without storage ([new_buffer]); [represents] adds it to the
    buffers that [holds] describes.  A sequence of operations the buffer has
    room for refines the same operations on the map. *)

Definition represents (b : packet_buffer) (m : gmap Z Z) : Prop := holds b m \/ (b = new_buffer /\ m = ∅).

(** ** The debug check *)

(** The number whose pointer a slot holds. *)
Definition owner (b : packet_buffer) (s : Z) : Z := (m_first b + (s - m_first b) mod m_capacity b) mod 65536.

Lemma owner_spec b m s :
  window b m -> 0 <= s < m_capacity b -> owner b s mod m_capacity b = s /\ dist (m_first b) (owner b s) < m_capacity b.
Proof.
  intros Hw Hs. pose proof (wi_cap _ _ Hw) as Hc. pose proof (power_range _ Hc). unfold owner. rewrite power_mod16 by done.
  pose proof (Z.mod_pos_bound (s - m_first b) (m_capacity b)). rewrite dist_add by lia. split; [|lia].
  rewrite Zplus_mod_idemp_r. replace (m_first b + (s - m_first b)) with s by lia. by apply Z.mod_small.
Qed.

Lemma storage_owners b m :
  window b m -> m_storage b = map (fun s => default 0 (m !! owner b s)) (seqZ 0 (m_capacity b)).
Proof.
  intros Hw. pose proof (power_range _ (wi_cap _ _ Hw)). apply zlist_eq. intros s Hs. pose proof (wi_len _ _ Hw) as Hlen.
  destruct (Z.lt_ge_cases s (m_capacity b)) as [Hlt|Hge].
  - destruct (owner_spec b m s Hw) as [Ho Hd]; [done|]. rewrite <- Ho at 1. rewrite (wi_slot _ _ Hw) by (apply seq16_mod || done).
    unfold zget. rewrite decide_True by done. rewrite list_lookup_fmap, lookup_seqZ_lt by lia. simpl.
    by rewrite Z2Nat.id, Z.add_0_l by lia.
  - rewrite !zget_ge; [done| |lia]. rewrite length_map, length_seqZ. lia.
Qed.

Lemma used_slots b m : window b m -> zlen (filter (fun v => v <> 0) (m_storage b)) = Z.of_nat (size m).
Proof.
  intros Hw. rewrite (storage_owners b m) by done. f_equal. set (l := seqZ 0 (m_capacity b)).
  assert (length (filter (fun v => v <> 0) (map (fun s => default 0 (m !! owner b s)) l)) =
    length (filter (fun i => is_Some (m !! i)) (map (owner b) l))) as ->.
  { assert (forall i, default 0 (m !! i) <> 0 <-> is_Some (m !! i)) as Hi.
    { intros i. split; [by destruct (m !! i)|]. intros [v Hv]. rewrite Hv. by apply (wi_some _ _ Hw i). }
    induction l as [|s l IH]; [done|]. cbn [map]. rewrite !filter_cons. specialize (Hi (owner b s)).
    destruct (decide (is_Some (m !! owner b s))), (decide (default 0 (m !! owner b s) <> 0)); simpl; tauto || congruence. }
  rewrite <- length_map_to_list, <- (length_fmap fst). apply Permutation_length, NoDup_Permutation.
  - apply NoDup_filter. apply NoDup_fmap_2_strong; [|apply NoDup_seqZ].
    intros x y Hx%elem_of_seqZ Hy%elem_of_seqZ E. destruct (owner_spec b m x Hw) as [<- _]; [lia|].
    destruct (owner_spec b m y Hw) as [<- _]; [lia|]. by rewrite E.
  - apply NoDup_fst_map_to_list.
  - intros i. rewrite list_elem_of_filter, !list_elem_of_fmap. split.
    + intros [[v Hv] _]. exists (i, v). split; [done|]. by apply elem_of_map_to_list.
    + intros ((i' & v) & -> & Hv%elem_of_map_to_list). simpl. split; [by exists v|].
      pose proof (window_span b m i' Hw (mk_is_Some _ _ Hv)) as Hsp. destruct (wi_some _ _ Hw i' v Hv) as (Hs16 & _).
      pose proof (power_range _ (wi_cap _ _ Hw)). exists (i' mod m_capacity b).
      assert (0 <= i' mod m_capacity b < m_capacity b) as Hr by (apply Z.mod_pos_bound; lia). split; [|apply elem_of_seqZ; lia].
      destruct (owner_spec b m _ Hw Hr) as [Ho Hd]. symmetry.
      apply (slot_inj (m_capacity b) (m_first b)); try done; [apply Hw|apply seq16_mod|lia].
Qed.

Lemma represents_check b m : represents b m -> check_invariant b = true.
Proof.
  intros [[Hw Hs _ _]|[-> ->]]; [|done]. unfold check_invariant. rewrite (used_slots b m Hw), Hs. apply Z.eqb_refl.
Qed.

(** ** A buffer without storage *)

Lemma at_new idx : seq16 idx -> at_ new_buffer idx = Some 0.
Proof. unfold seq16. intros H. unfold at_. rewrite (proj2 (Z.leb_le _ _)); [done|]. simpl. lia. Qed.

Lemma remove_new idx : seq16 idx -> remove idx new_buffer = Some (0, new_buffer).
Proof. unfold seq16. intros H. unfold remove. rewrite (proj2 (Z.leb_le _ _)); [done|]. simpl. lia. Qed.

Lemma insert_new idx value :
  seq16 idx -> value <> 0 -> exists b, insert idx value new_buffer = Some (0, b) /\ holds b {[idx := value]}.
Proof.
  intros Hi Hv. set (b0 := Buffer (replicate 16 0) 16 0 idx ((idx + 1) mod 65536)).
  assert (dist idx ((idx + 1) mod 65536) = 1) as Hd by (apply dist_add; lia).
  assert (window b0 ∅) as Hw.
  { assert (power 16) by (by exists 4). split; simpl; [done|done|done|apply seq16_mod|done| |rewrite Hd; lia].
    intros i _ _. unfold zget. pose proof (Z.mod_pos_bound i 16). rewrite decide_True by lia. rewrite lookup_empty. simpl.
    change [0; 0; 0; 0; 0; 0; 0; 0; 0; 0; 0; 0; 0; 0; 0; 0] with (replicate 16 0). apply lookup_replicate_2. lia. }
  assert (roomy b0 ∅ idx 0) as Hr.
  { split; simpl; [done|done|rewrite Hd, dist_self; lia|by right|]. right. rewrite Zminus_mod_idemp_l.
    replace (idx + 1 - 1) with idx by lia. by apply Z.mod_small. }
  unfold insert. rewrite (proj2 (Z.eqb_neq _ _)) by done. unfold make_room. cbn [m_size new_buffer Z.eqb]. rewrite land_16.
  cbn [mbind option_bind]. change (m_capacity (with_last _ (with_first _ new_buffer)) =? 0) with true. cbn iota.
  change (reserve 16 (with_last ((idx + 1) mod 65536) (with_first idx new_buffer))) with (Some b0). cbn [mbind option_bind].
  destruct (put_roomy b0 ∅ idx value 0 Hr Hi Hv) as (l & -> & -> & Hh); [by rewrite map_size_empty|done|].
  cbn [mbind option_bind]. eexists. split; [done|exact Hh].
Qed.

(** ** Sequences of operations *)

Inductive pb_op := Insert (idx value : Z) | Remove (idx : Z).

Definition pb_step (o : pb_op) (b : packet_buffer) : option (Z * packet_buffer) :=
  match o with Insert idx value => insert idx value b | Remove idx => remove idx b end.

Definition map_step (o : pb_op) (m : gmap Z Z) : gmap Z Z :=
  match o with Insert idx value => <[idx := value]> m | Remove idx => delete idx m end.

Definition pb_index (o : pb_op) : Z := match o with Insert idx _ | Remove idx => idx end.

(** The buffer can place the number of the operation. *)
Definition placed (o : pb_op) (b : packet_buffer) : Prop :=
  match o with Insert idx value => has_room b idx /\ value <> 0 | Remove idx => in_reach b idx end.

Lemma step_refines o b m :
  represents b m -> placed o b -> exists b', pb_step o b = Some (default 0 (m !! pb_index o), b') /\ represents b' (map_step o m).
Proof.
  intros [Hh|[-> ->]] Hp; destruct o as [idx value|idx]; cbn [pb_step map_step pb_index placed] in *.
  - destruct Hp as [Hr Hv]. destruct (buffer_insert_spec b m idx value Hh Hr Hv) as (b' & E & H). exists b'. split; [done|by left].
  - destruct (buffer_remove_spec b m idx Hh Hp) as (b' & E & H). exists b'. split; [done|by left].
  - destruct Hp as [[Hi _] Hv]. destruct (insert_new idx value Hi Hv) as (b' & E & H). exists b'. split; [done|by left].
  - destruct Hp as [Hi _]. exists new_buffer. rewrite remove_new by done. split; [done|]. right. by rewrite delete_empty.
Qed.

Fixpoint pb_run (ops : list pb_op) (b : packet_buffer) : option (list Z * packet_buffer) :=
  match ops with
  | [] => Some ([], b)
  | o :: ops => '(v, b) ← pb_step o b; '(vs, b) ← pb_run ops b; Some (v :: vs, b)
  end.

Fixpoint map_run (ops : list pb_op) (m : gmap Z Z) : list Z * gmap Z Z :=
  match ops with
  | [] => ([], m)
  | o :: ops => let '(vs, m') := map_run ops (map_step o m) in (default 0 (m !! pb_index o) :: vs, m')
  end.

Fixpoint all_placed (ops : list pb_op) (b : packet_buffer) : Prop :=
  match ops with
  | [] => True
  | o :: ops => placed o b /\ forall v b', pb_step o b = Some (v, b') -> all_placed ops b'
  end.

Lemma run_refines ops b m :
  represents b m -> all_placed ops b ->
  exists b', pb_run ops b = Some (fst (map_run ops m), b') /\ represents b' (snd (map_run ops m)).
Proof.
  revert b m. induction ops as [|o ops IH]; intros b m Hr; [by exists b|]. intros [Hp Hops].
  destruct (step_refines o b m Hr Hp) as (b1 & E & Hr1). destruct (IH b1 _ Hr1 (Hops _ _ E)) as (b2 & E2 & Hr2).
  exists b2. cbn [pb_run map_run]. rewrite E. cbn [mbind option_bind]. rewrite E2. by destruct (map_run ops (map_step o m)).
Qed.

(** What a buffer answers for its map. *)
Lemma represents_at b m idx : represents b m -> in_reach b idx -> at_ b idx = Some (default 0 (m !! idx)).
Proof.
  intros [[Hw _ _ _]|[-> ->]] Hi; [by apply buffer_at_spec|]. rewrite at_new by apply Hi. by rewrite lookup_empty.
Qed.

Lemma represents_count b m : represents b m -> m_size b = Z.of_nat (size m).
Proof. intros [[_ Hs _ _]|[-> ->]]; done. Qed.

Lemma represents_span b m i : represents b m -> is_Some (m !! i) -> is_Some (m !! m_first b) /\ dist (m_first b) i < span b.
Proof.
  intros [[Hw _ Hf _]|[_ ->]] Hi; [|by destruct Hi]. split; [apply Hf; intros ->; by destruct Hi|].
  unfold span. rewrite land_16. fold (dist (m_first b) (m_last b)). by apply (window_span b m).
Qed.
