(* ===== verification/PacketBufferTheorems.v ===== *)
(** * What the packet buffer promises

    The properties of [packet_buffer]: it is a map from sequence numbers to
    packets, and where it is not. *)

From Stdlib Require Import ZArith Lia.
From stdpp Require Import base numbers list gmap.
From S2P Require Import Prelude PacketBuffer PacketBufferSpec PacketBufferRefine.

(** C20 (refinement): any sequence of insertions and removals that the buffer
    has room for, from a buffer without storage, runs without an access outside
    the storage and is the same sequence on a map from sequence numbers to
    pointers: every operation returns the pointer the map had, the size is that
    of the map, the debug check holds, [at_] looks up the map, the cursor is
    the number of a pointer and the span covers them all, across the wrap of
    the sequence numbers. *)
Theorem packet_buffer_refines ops :
  all_placed ops new_buffer ->
  exists b, pb_run ops new_buffer = Some (fst (map_run ops ∅), b) /\
    let m := snd (map_run ops ∅) in
    m_size b = Z.of_nat (size m) /\ check_invariant b = true /\
    (forall i, in_reach b i -> at_ b i = Some (default 0 (m !! i))) /\
    (forall i, is_Some (m !! i) -> is_Some (m !! m_first b) /\ dist (m_first b) i < span b).
Proof.
  intros Ha. destruct (run_refines ops new_buffer ∅ (or_intror (conj eq_refl eq_refl)) Ha) as (b & E & Hr).
  exists b. split; [exact E|]. cbv zeta. split_and!.
  - by apply represents_count.
  - by eapply represents_check.
  - intros i. by apply represents_at.
  - intros i. by apply represents_span.
Qed.

(** Packets around the wrap of the sequence numbers. *)
Definition around : list pb_op :=
  [Insert 65530 1; Insert 65533 2; Insert 2 3; Insert 40 4; Remove 65530; Insert 65520 5; Remove 65533; Insert 65531 6].

Ltac placed_at :=
  first
  [ split; [split; [by vm_compute|]|done];
    first [left; vm_compute; reflexivity
          |right; left; split; [vm_compute; reflexivity|vm_compute; congruence]
          |right; right; split; vm_compute; congruence]
  | split; [by vm_compute|]; vm_compute; congruence ].
Ltac run_placed := repeat (split; [placed_at|let E := fresh in intros ? ? E; vm_compute in E; injection E as <- <-]); exact I.

Lemma packet_buffer_refines_witness :
  exists b, pb_run around new_buffer = Some ([0; 0; 0; 0; 1; 0; 2; 0], b) /\ m_size b = 4 /\ at_ b 40 = Some 4.
Proof.
  destruct (packet_buffer_refines around) as (b & E & Hs & _ & Ha & _).
  - unfold around. run_placed.
  - exists b. split; [exact E|]. split; [rewrite Hs; vm_compute; reflexivity|]. rewrite Ha.
    + vm_compute. reflexivity.
    + vm_compute in E. injection E as <-. split; [by vm_compute|]. intros _ _. vm_compute. reflexivity.
Defined.

(** A number that wrapped around is placed without making room.
    From a buffer that only holds number 65519, with 16 slots, [insert] of
    number 0, 17 above it, does not grow the buffer: the packet is found at the
    number 65520 too, which was never inserted, and inserting 65520 replaces it
    and loses the packet of number 0. *)
Theorem wrapped_insert_collides :
  exists ops b, all_placed ops new_buffer /\ pb_run ops new_buffer = Some ([0], b) /\ snd (map_run ops ∅) = {[65519 := 100]} /\
    dist (m_first b) 0 = 17 /\ m_capacity b = 16 /\
    exists b1, insert 0 200 b = Some (0, b1) /\ m_capacity b1 = 16 /\ at_ b1 65520 = Some 200 /\
      exists b2, insert 65520 300 b1 = Some (200, b2) /\ at_ b2 0 = Some 300.
Proof.
  exists [Insert 65519 100]. destruct (pb_run [Insert 65519 100] new_buffer) as [[vs b]|] eqn:E; [|vm_compute in E; discriminate].
  exists b. split; [run_placed|]. vm_compute in E. injection E as <- <-. split; [done|].
  split; [reflexivity|]. split; [vm_compute; reflexivity|]. split; [reflexivity|].
  eexists. split; [vm_compute; reflexivity|]. split; [reflexivity|]. split; [vm_compute; reflexivity|].
  eexists. split; [vm_compute; reflexivity|]. vm_compute. reflexivity.
Qed.
