(* ===== verification/FileStorage.v ===== *)
(** * The files of a torrent (file_storage.cpp, file_storage.hpp, and the paths of file.cpp)

    Strings are lists of bytes, an iterator of [m_files] is an index, and
    [None] is an access outside a vector.  The fields of 48 bits of an entry
    are reduced when they are written.  A file hash is a pointer, 0 when there
    is none; paths are those of a POSIX system. *)

From Stdlib Require Import ZArith Lia.
From stdpp Require Import base numbers list.
From S2P Require Import Prelude.

(** ** Paths *)

#[local] Abbreviation bytes := (list Z).
#[local] Abbreviation slash := 47%Z.

(** [std::string::c_str()], up to the first null. *)
Fixpoint c_str (s : bytes) : bytes := match s with [] => [] | x :: s => if x =? 0 then [] else x :: c_str s end.

Definition is_complete (f : bytes) : bool := match f with x :: _ => x =? slash | [] => false end.

(** The position [filename_cstr] returns: behind the last separator. *)
Fixpoint filename_pos (i : Z) (s : bytes) (pos : Z) : Z :=
  match s with [] => pos | x :: s => filename_pos (i + 1) s (if x =? slash then i + 1 else pos) end.
Definition filename_cstr (f : bytes) : Z := filename_pos 0 f 0.

Definition is_separator (x : Z) : bool := (x =? slash) || (x =? 92).

Definition is_root_path (f : bytes) : bool := bool_decide (f = [slash]).

Definition has_parent_path (f : bytes) : bool :=
  if bool_decide (f = []) then false
  else if is_root_path f then false
  else existsb is_separator (if is_separator (List.last f 0) then removelast f else f).

(** The elements of a path, each with a null behind it. *)
Fixpoint split_elements (element s : bytes) : bytes :=
  match s with
  | [] => match element with [] => [] | _ => element ++ [0] end
  | x :: s =>
      if x =? slash then match element with [] => [] | _ => element ++ [0] end ++ split_elements [] s
      else split_elements (element ++ [x]) s
  end.

Definition split_path (f : bytes) : bytes := match f with [] => [] | _ => split_elements [] (c_str f) ++ [0] end.

Definition append_path (branch leaf : bytes) : bytes :=
  if bool_decide (branch = []) || bool_decide (branch = [46]) then leaf
  else match leaf with
       | [] => branch
       | _ => branch ++ (if List.last branch 0 =? slash then [] else [slash]) ++ leaf
       end.

(** ** The state *)

Definition u48 (x : Z) : Z := x mod 2 ^ 48.
Definition u64 (x : Z) : Z := x mod 2 ^ 64.

(** The name of an entry: owned and ended by a null, or borrowed. *)
Inductive name_ref := NullName | OwnedName (s : bytes) | BorrowedName (s : bytes).

Definition name_is_owned : Z := 4095.
Definition not_a_symlink : Z := 32767.

Record internal_file_entry := FileEntry {
  fe_offset : Z;
  symlink_index : Z;
  no_root_dir : bool;
  fe_size : Z;
  pad_file : bool;
  hidden_attribute : bool;
  executable_attribute : bool;
  symlink_attribute : bool;
  fe_name : name_ref;
  path_index : Z;
}.

Definition new_entry : internal_file_entry := FileEntry 0 not_a_symlink false 0 false false false false NullName (-1).

Definition set_offset (x : Z) (e : internal_file_entry) : internal_file_entry :=
  FileEntry (u48 x) (symlink_index e) (no_root_dir e) (fe_size e) (pad_file e) (hidden_attribute e) (executable_attribute e)
    (symlink_attribute e) (fe_name e) (path_index e).
Definition set_size (x : Z) (e : internal_file_entry) : internal_file_entry :=
  FileEntry (fe_offset e) (symlink_index e) (no_root_dir e) (u48 x) (pad_file e) (hidden_attribute e) (executable_attribute e)
    (symlink_attribute e) (fe_name e) (path_index e).
Definition set_path_index (x : Z) (e : internal_file_entry) : internal_file_entry :=
  FileEntry (fe_offset e) (symlink_index e) (no_root_dir e) (fe_size e) (pad_file e) (hidden_attribute e) (executable_attribute e)
    (symlink_attribute e) (fe_name e) x.
Definition set_no_root_dir (x : bool) (e : internal_file_entry) : internal_file_entry :=
  FileEntry (fe_offset e) (symlink_index e) x (fe_size e) (pad_file e) (hidden_attribute e) (executable_attribute e)
    (symlink_attribute e) (fe_name e) (path_index e).
Definition set_name (x : name_ref) (e : internal_file_entry) : internal_file_entry :=
  FileEntry (fe_offset e) (symlink_index e) (no_root_dir e) (fe_size e) (pad_file e) (hidden_attribute e) (executable_attribute e)
    (symlink_attribute e) x (path_index e).
Definition set_flags (pad hidden executable symlink : bool) (e : internal_file_entry) : internal_file_entry :=
  FileEntry (fe_offset e) (symlink_index e) (no_root_dir e) (fe_size e) pad hidden executable symlink (fe_name e) (path_index e).
Definition set_symlink_index (x : Z) (e : internal_file_entry) : internal_file_entry :=
  FileEntry (fe_offset e) x (no_root_dir e) (fe_size e) (pad_file e) (hidden_attribute e) (executable_attribute e)
    (symlink_attribute e) (fe_name e) (path_index e).

(** [set_name(n)] and [set_name(n, true, len)] *)
Definition copied_name (n : bytes) : name_ref := OwnedName (c_str n).
Definition borrowed_name (n : bytes) : name_ref := BorrowedName (take (Z.to_nat (Z.min (zlen n) (name_is_owned - 1))) n).

(** [filename()] *)
Definition filename (e : internal_file_entry) : bytes :=
  match fe_name e with NullName => [] | OwnedName s => s | BorrowedName s => s end.

(** [operator=]: the name is copied. *)
Definition assign_entry (fe : internal_file_entry) : internal_file_entry := set_name (copied_name (filename fe)) fe.

Record file_storage := FileStorage {
  m_piece_length : Z;
  m_num_pieces : Z;
  m_files : list internal_file_entry;
  m_file_hashes : list Z;
  m_symlinks : list bytes;
  m_mtime : list Z;
  m_file_base : list Z;
  m_paths : list bytes;
  m_name : bytes;
  m_total_size : Z;
  m_num_files : Z;
}.

Definition new_file_storage : file_storage := FileStorage 0 0 [] [] [] [] [] [] [] 0 0.

Definition with_files (x : list internal_file_entry) (st : file_storage) : file_storage :=
  FileStorage (m_piece_length st) (m_num_pieces st) x (m_file_hashes st) (m_symlinks st) (m_mtime st) (m_file_base st)
    (m_paths st) (m_name st) (m_total_size st) (m_num_files st).
Definition with_paths (x : list bytes) (st : file_storage) : file_storage :=
  FileStorage (m_piece_length st) (m_num_pieces st) (m_files st) (m_file_hashes st) (m_symlinks st) (m_mtime st) (m_file_base st)
    x (m_name st) (m_total_size st) (m_num_files st).
Definition with_name (x : bytes) (st : file_storage) : file_storage :=
  FileStorage (m_piece_length st) (m_num_pieces st) (m_files st) (m_file_hashes st) (m_symlinks st) (m_mtime st) (m_file_base st)
    (m_paths st) x (m_total_size st) (m_num_files st).
Definition with_arrays (hashes mtime base : list Z) (st : file_storage) : file_storage :=
  FileStorage (m_piece_length st) (m_num_pieces st) (m_files st) hashes (m_symlinks st) mtime base
    (m_paths st) (m_name st) (m_total_size st) (m_num_files st).
Definition with_symlinks (x : list bytes) (st : file_storage) : file_storage :=
  FileStorage (m_piece_length st) (m_num_pieces st) (m_files st) (m_file_hashes st) x (m_mtime st) (m_file_base st)
    (m_paths st) (m_name st) (m_total_size st) (m_num_files st).
Definition with_sizes (total num : Z) (st : file_storage) : file_storage :=
  FileStorage (m_piece_length st) (m_num_pieces st) (m_files st) (m_file_hashes st) (m_symlinks st) (m_mtime st) (m_file_base st)
    (m_paths st) (m_name st) total num.
Definition set_piece_length (x : Z) (st : file_storage) : file_storage :=
  FileStorage x (m_num_pieces st) (m_files st) (m_file_hashes st) (m_symlinks st) (m_mtime st) (m_file_base st)
    (m_paths st) (m_name st) (m_total_size st) (m_num_files st).
Definition set_num_pieces (x : Z) (st : file_storage) : file_storage :=
  FileStorage (m_piece_length st) x (m_files st) (m_file_hashes st) (m_symlinks st) (m_mtime st) (m_file_base st)
    (m_paths st) (m_name st) (m_total_size st) (m_num_files st).

(** [std::vector::resize(n, x)] *)
Definition vec_resize (n : Z) (x : Z) (l : list Z) : list Z := take (Z.to_nat n) l ++ replicate (Z.to_nat (n - zlen l)) x.

(** ** Queries *)

Definition num_files (st : file_storage) : Z := zlen (m_files st).

Definition piece_size (index : Z) (st : file_storage) : Z :=
  if index =? m_num_pieces st - 1
  then to_int (m_total_size st - (m_num_pieces st - 1) * m_piece_length st)
  else m_piece_length st.

(** An element of an array that may be shorter than [m_files]. *)
Definition array_at (index : Z) (l : list Z) : option Z := if zlen l <=? index then Some 0 else zget l index.

Definition file_base (index : Z) (st : file_storage) : option Z := array_at index (m_file_base st).
Definition mtime (index : Z) (st : file_storage) : option Z := array_at index (m_mtime st).
Definition file_hash (index : Z) (st : file_storage) : option Z := array_at index (m_file_hashes st).

Definition symlink (index : Z) (st : file_storage) : option bytes :=
  e ← zget (m_files st) index; zget (m_symlinks st) (symlink_index e).

Definition file_path (index : Z) (save_path : bytes) (st : file_storage) : option bytes :=
  e ← zget (m_files st) index;
  if path_index e =? -2 then Some (filename e)
  else if path_index e =? -1 then Some (append_path save_path (filename e))
  else
    p ← zget (m_paths st) (path_index e);
    if no_root_dir e then Some (append_path (append_path save_path p) (filename e))
    else Some (append_path (append_path (append_path save_path (m_name st)) p) (filename e)).

Definition file_size (index : Z) (st : file_storage) : option Z := fe_size <$> zget (m_files st) index.
Definition file_offset (index : Z) (st : file_storage) : option Z := fe_offset <$> zget (m_files st) index.
Definition pad_file_at (index : Z) (st : file_storage) : option bool := pad_file <$> zget (m_files st) index.
Definition file_absolute_path (index : Z) (st : file_storage) : option bool := (fun e => path_index e =? -2) <$> zget (m_files st) index.

Definition file_flags (index : Z) (st : file_storage) : option Z :=
  (fun e => Z.lor (Z.lor (Z.lor (if pad_file e then 1 else 0) (if hidden_attribute e then 2 else 0))
    (if executable_attribute e then 4 else 0)) (if symlink_attribute e then 8 else 0)) <$> zget (m_files st) index.

(** ** Between pieces and files *)

Record file_slice := Slice { file_index : Z; slice_offset : Z; slice_size : Z }.
Record peer_request := PeerRequest { pr_piece : Z; pr_start : Z; pr_length : Z }.

(** [std::upper_bound] with [compare_file_offset]: the first file that starts
    after the offset. *)
Fixpoint files_after (offset : Z) (l : list internal_file_entry) : Z :=
  match l with [] => 0 | e :: l => if offset <? fe_offset e then 0 else 1 + files_after offset l end.

Definition file_index_at_offset (offset : Z) (st : file_storage) : option Z :=
  let i := files_after (u48 offset) (m_files st) in
  if i =? 0 then None else Some (i - 1).

(** The loop of [map_block]; [l] are the files from [i] on. *)
Fixpoint map_files (l : list internal_file_entry) (i file_offset size : Z) (st : file_storage) : option (list file_slice) :=
  if size <=? 0 then Some []
  else
    match l with
    | [] => None
    | e :: l =>
        if file_offset <? fe_size e then
          base ← file_base i st;
          let n := Z.min (u64 (fe_size e - file_offset)) (u64 size) in
          ret ← map_files l (i + 1) (file_offset + n - fe_size e) (size - to_int n) st;
          Some (Slice i (file_offset + base) n :: ret)
        else map_files l (i + 1) (file_offset - fe_size e) size st
    end.

Definition map_block (piece offset size : Z) (st : file_storage) : option (list file_slice) :=
  match m_files st with
  | [] => Some []
  | _ =>
      let target := u48 (piece * m_piece_length st + offset) in
      let size := if m_total_size st <? target + size then to_int (m_total_size st - target) else size in
      let i := files_after target (m_files st) in
      if i =? 0 then None
      else
        e ← zget (m_files st) (i - 1);
        map_files (drop (Z.to_nat (i - 1)) (m_files st)) (i - 1) (target - fe_offset e) size st
  end.

Definition map_file (file file_offset size : Z) (st : file_storage) : option peer_request :=
  if (file <? 0) || (num_files st <=? file) then Some (PeerRequest (m_num_pieces st) 0 0)
  else
    e ← zget (m_files st) file;
    let offset := file_offset + fe_offset e in
    if m_total_size st <=? offset then Some (PeerRequest (m_num_pieces st) 0 0)
    else
      Some (PeerRequest (to_int (Z.quot offset (m_piece_length st))) (to_int (Z.rem offset (m_piece_length st)))
        (if m_total_size st <? offset + size then to_int (m_total_size st - offset) else size)).

(** ** Adding files *)

Fixpoint trim_left (s : bytes) : bytes := match s with x :: s' => if x =? slash then trim_left s' else s | [] => [] end.
Definition trim_right (s : bytes) : bytes := rev (trim_left (rev s)).

(** The last path in the list that is [p]. *)
Fixpoint find_path (p : bytes) (i : Z) (l : list bytes) : option Z :=
  match l with
  | [] => None
  | q :: l => match find_path p (i + 1) l with Some j => Some j | None => if bool_decide (q = p) then Some i else None end
  end.

Definition get_or_add_path (branch_path : bytes) (paths : list bytes) : Z * list bytes :=
  let p := trim_right branch_path in
  match find_path p 0 paths with Some i => (i, paths) | None => (zlen paths, paths ++ [p]) end.

(** The part of a path that [m_paths] has, and whether it lacks the name of
    the torrent. *)
Definition branch_of (name path : bytes) (branch_len : Z) : bytes * bool :=
  let branch := take (Z.to_nat branch_len) path in
  if (zlen name <=? branch_len) && bool_decide (take (length name) path = name)
     && bool_decide (zget path (zlen name) = Some slash)
  then (trim_left (drop (length name) branch), false)
  else (branch, true).

Definition update_path_index (e : internal_file_entry) (path : bytes) (named : bool) (st : file_storage)
  : internal_file_entry * file_storage :=
  if is_complete path then (set_path_index (-2) (set_name (copied_name path) e), st)
  else
    let leaf := filename_cstr (c_str path) in
    let name e := if named then set_name (copied_name (drop (Z.to_nat leaf) path)) e else e in
    if leaf <=? 0 then (set_path_index (-1) (name e), st)
    else
      let '(branch, no_root) := branch_of (m_name st) path leaf in
      let '(i, paths) := get_or_add_path branch (m_paths st) in
      (name (set_path_index i (set_no_root_dir no_root e)), with_paths paths st).

(** A file added to an array that has an element for some of the files. *)
Definition put_last (n x : Z) (l : list Z) : option (list Z) :=
  if x =? 0 then Some l else zset (if zlen l <? n then vec_resize n 0 l else l) (n - 1) x.

Definition add_file_borrow (name : option bytes) (path : bytes) (size flags filehash mtime : Z) (symlink_path : bytes)
    (st : file_storage) : option file_storage :=
  let st :=
    if negb (has_parent_path path) then with_name path st
    else if bool_decide (m_files st = []) then with_name (c_str (split_path path)) st else st in
  let '(e, st) := update_path_index new_entry path (bool_decide (name = None)) st in
  let e := match name with Some n => set_name (borrowed_name n) e | None => e end in
  let e := set_offset (m_total_size st) (set_size size e) in
  let linked := negb (bool_decide (symlink_path = [])) && (zlen (m_symlinks st) <? not_a_symlink - 1) in
  let e := set_flags (Z.testbit flags 0) (Z.testbit flags 1) (Z.testbit flags 2) (Z.testbit flags 3 && linked) e in
  let n := zlen (m_files st) + 1 in
  hashes ← put_last n filehash (m_file_hashes st);
  let '(e, st) :=
    if linked then (set_symlink_index (zlen (m_symlinks st)) e, with_symlinks (m_symlinks st ++ [symlink_path]) st) else (e, st) in
  mtimes ← put_last n mtime (m_mtime st);
  Some (with_sizes (m_total_size st + fe_size e) (m_num_files st + 1)
    (with_arrays hashes mtimes (m_file_base st) (with_files (m_files st ++ [e]) st))).

Definition rename_file (index : Z) (new_filename : bytes) (st : file_storage) : option file_storage :=
  e ← zget (m_files st) index;
  let '(e, st) := update_path_index e new_filename true st in
  files ← zset (m_files st) index e;
  Some (with_files files st).

Definition set_file_base (index off : Z) (st : file_storage) : option file_storage :=
  base ← zset (if zlen (m_file_base st) <=? index then vec_resize (index + 1) 0 (m_file_base st) else m_file_base st) index off;
  Some (with_arrays (m_file_hashes st) (m_mtime st) base st).
