(* ===== verification/FileOptimize.v ===== *)
(** * Reordering and padding the files of a torrent (file_storage::optimize)

    The loop of [optimize] moves an index over a list of files that grows; it
    gets fuel, and [None] is an access outside a vector, a
    division by zero or too little fuel. *)

From Stdlib Require Import ZArith Lia.
From stdpp Require Import base numbers list.
From S2P Require Import Prelude FileStorage.

(** [std::iter_swap(l.begin() + i, l.begin() + j)] *)
Definition iter_swap {A} (assign : A -> A) (i j : Z) (l : list A) : option (list A) :=
  x ← zget l i;
  y ← zget l j;
  l ← zset l i (assign y);
  zset l j (assign x).

(** The swap of an array that is not empty, in [reorder_file]. *)
Definition swap_array (index dst : Z) (l : list Z) : option (list Z) :=
  match l with
  | [] => Some []
  | _ => iter_swap id dst index (if zlen l <? index then vec_resize (index + 1) 0 l else l)
  end.

Definition reorder_file (index dst : Z) (st : file_storage) : option file_storage :=
  files ← iter_swap assign_entry index dst (m_files st);
  mtime ← swap_array index dst (m_mtime st);
  hashes ← swap_array index dst (m_file_hashes st);
  base ← swap_array index dst (m_file_base st);
  Some (with_arrays hashes mtime base (with_files files st)).

(** [snprintf("%d")] of a counter *)
Fixpoint decimal_digits (fuel : nat) (n : Z) (acc : list Z) : list Z :=
  match fuel with
  | O => acc
  | S fuel => let acc := (48 + n mod 10) :: acc in if n <? 10 then acc else decimal_digits fuel (n / 10) acc
  end.
Definition pad_name (n : Z) : list Z := decimal_digits 10 n [].

Definition grow_array (n : Z) (l : list Z) : list Z := match l with [] => [] | _ => vec_resize n 0 l end.

(** [add_pad_file(size, i, offset, counter)] at index [i] *)
Definition add_pad_file (size i offset counter : Z) (st : file_storage) : option (file_storage * Z * Z) :=
  let index := zlen (m_files st) in
  let '(p, paths) := get_or_add_path [46; 112; 97; 100] (m_paths st) in
  let e := set_flags true false false false
    (set_name (copied_name (pad_name counter)) (set_path_index p (set_offset offset (set_size size new_entry)))) in
  let st := with_sizes (m_total_size st) (m_num_files st + 1) (with_paths paths (with_files (m_files st ++ [e]) st)) in
  let st := with_arrays (grow_array (index + 1) (m_file_hashes st)) (grow_array (index + 1) (m_mtime st))
    (grow_array (index + 1) (m_file_base st)) st in
  st ← (if index =? i then Some st else reorder_file index i st);
  Some (st, offset + size, counter + 1).

(** [std::max_element] with [compare_file_entry_size]: the index of the first
    largest file of [l], which starts at [i]; [best] is the largest so far. *)
Fixpoint max_element (i : Z) (l : list internal_file_entry) (best : Z * Z) : Z :=
  match l with
  | [] => fst best
  | e :: l => max_element (i + 1) l (if snd best <? fe_size e then (i, fe_size e) else best)
  end.

(** The largest file from [i] on that has at most [pad_size] bytes. *)
Fixpoint best_fit (pad_size i : Z) (l : list internal_file_entry) (best : option (Z * Z)) : option Z :=
  match l with
  | [] => fst <$> best
  | e :: l =>
      best_fit pad_size (i + 1) l
        (if u32 pad_size <? fe_size e then best
         else match best with
              | None => Some (i, fe_size e)
              | Some (_, n) => if n <? fe_size e then Some (i, fe_size e) else best
              end)
  end.

Definition move_here (index i : Z) (st : file_storage) : option file_storage :=
  if index =? i then Some st else reorder_file index i st.

(** [i->offset = off; off += i->size] *)
Definition place (i off : Z) (st : file_storage) : option (file_storage * Z) :=
  e ← zget (m_files st) i;
  files ← zset (m_files st) i (set_offset off e);
  Some (with_files files st, off + fe_size e).

Section optimize.
Context (pad_file_limit alignment : Z) (tail_padding : bool).

(** A file is placed, and the tail padding behind it. *)
Definition place_padded (i off counter : Z) (st : file_storage) : option (Z * Z * Z * file_storage) :=
  '(st, off) ← place i off st;
  e ← zget (m_files st) i;
  if tail_padding && (u32 pad_file_limit <? fe_size e) && negb (Z.rem off alignment =? 0) then
    '(st, off, counter) ← add_pad_file (to_int (alignment - Z.rem off alignment)) (i + 1) off counter st;
    Some (i + 2, off, counter, st)
  else Some (i + 1, off, counter, st).

(** One round of the loop. *)
Definition optimize_step (i off counter : Z) (st : file_storage) : option (Z * Z * Z * file_storage) :=
  e ← zget (m_files st) i;
  if alignment =? 0 then None
  else if Z.rem off alignment =? 0 then
    st ← move_here (max_element (i + 1) (drop (Z.to_nat (i + 1)) (m_files st)) (i, fe_size e)) i st;
    place_padded i off counter st
  else if (0 <=? pad_file_limit) && (u32 pad_file_limit <? fe_size e) && negb (pad_file e) then
    let pad_size := to_int (alignment - Z.rem off alignment) in
    match (if 0 <? pad_file_limit then best_fit pad_size (i + 1) (drop (Z.to_nat (i + 1)) (m_files st)) None else None) with
    | Some index =>
        st ← reorder_file index i st;
        '(st, off) ← place i off st;
        Some (i + 1, off, counter, st)
    | None =>
        '(st, off, counter) ← add_pad_file pad_size i off counter st;
        Some (i + 1, off, counter, st)
    end
  else place_padded i off counter st.

Fixpoint optimize_loop (fuel : nat) (i off counter : Z) (st : file_storage) : option (file_storage * Z) :=
  match fuel with
  | O => None
  | S fuel =>
      if zlen (m_files st) <=? i then Some (st, off)
      else
        '(i, off, counter, st) ← optimize_step i off counter st;
        optimize_loop fuel i off counter st
  end.
End optimize.

(** Every file is placed once, with a pad file before or behind it at most. *)
Definition optimize (pad_file_limit alignment : Z) (tail_padding : bool) (st : file_storage) : option file_storage :=
  let alignment := if alignment =? -1 then m_piece_length st else alignment in
  '(st, off) ← optimize_loop pad_file_limit alignment tail_padding (2 * length (m_files st) + 1) 0 0 0 st;
  Some (with_sizes off (m_num_files st) st).
