(* ===== verification/FileStorageSpec.v ===== *)
(** * Offsets of the files of a torrent

    The files of a storage follow each other from offset 0 ([storage_ok]);
    [place] is the file and position of a byte of the torrent. *)

From Stdlib Require Import ZArith Lia.
From stdpp Require Import base numbers list.
From S2P Require Import Prelude FileStorage.

#[local] Abbreviation total := (zsum fe_size).

Section storage.
Implicit Types (l P C : list internal_file_entry) (e : internal_file_entry) (st : file_storage).

Fixpoint contiguous (off : Z) l : Prop :=
  match l with [] => True | e :: l => fe_offset e = off /\ 0 <= fe_size e /\ contiguous (off + fe_size e) l end.

Record storage_ok st : Prop := {
  so_files : contiguous 0 (m_files st);
  so_total : m_total_size st = total (m_files st);
  so_bound : m_total_size st < 2 ^ 48;
}.

Lemma total_cons e l : total (e :: l) = fe_size e + total l.
Proof. done. Qed.

Lemma contiguous_app off P C : contiguous off (P ++ C) <-> contiguous off P /\ contiguous (off + total P) C.
Proof.
  revert off. induction P as [|p P IH]; intros off; cbn [app contiguous]; [rewrite Z.add_0_r; tauto|].
  rewrite IH, total_cons. replace (off + fe_size p + total P) with (off + (fe_size p + total P)) by lia. tauto.
Qed.

Lemma contiguous_sizes off l : contiguous off l -> 0 <= total l /\ Forall (fun e => 0 <= fe_size e) l.
Proof.
  revert off. induction l as [|e l IH]; intros off; [by intros _; split; [|constructor]|]. intros (_ & He & Hl).
  destruct (IH _ Hl) as [H1 H2]. rewrite total_cons. split; [lia|by constructor].
Qed.

Lemma contiguous_offsets off l : contiguous off l -> Forall (fun e => off <= fe_offset e /\ 0 <= fe_size e /\ fe_offset e + fe_size e <= off + total l) l.
Proof.
  revert off. induction l as [|e l IH]; intros off; [by constructor|]. intros (Ho & He & Hl). rewrite total_cons.
  destruct (contiguous_sizes _ _ Hl) as [Ht _]. constructor; [lia|]. eapply Forall_impl; [by apply IH|]. simpl. lia.
Qed.

Lemma files_after_app t P C :
  Forall (fun e => fe_offset e <= t) P -> (forall e, head C = Some e -> t < fe_offset e) -> files_after t (P ++ C) = zlen P.
Proof.
  intros HP HC. induction HP as [|p P Hp HP IH].
  - destruct C as [|c C]; [done|]. simpl. by rewrite (proj2 (Z.ltb_lt _ _) (HC c eq_refl)).
  - cbn [app files_after]. rewrite (proj2 (Z.ltb_ge _ _) Hp), IH. by rewrite zlen_cons.
Qed.

Lemma files_after_at off t P e C :
  contiguous off (P ++ e :: C) -> fe_offset e <= t < fe_offset e + fe_size e -> files_after t (P ++ e :: C) = zlen P + 1.
Proof.
  intros [HP (Ho & He & HC)]%contiguous_app Ht. change (e :: C) with ([e] ++ C). rewrite app_assoc, files_after_app; [zlia| |].
  - apply Forall_app. split; [|apply Forall_singleton; lia]. eapply Forall_impl; [apply contiguous_offsets, HP|]. simpl. lia.
  - intros c Hc. destruct C as [|c' C]; [done|]. cbn [head] in Hc. injection Hc as ->. destruct HC as (Hc & _). lia.
Qed.

Lemma file_base_Some i st : 0 <= i -> exists b, file_base i st = Some b.
Proof.
  intros Hi. unfold file_base, array_at. destruct (Z.leb_spec (zlen (m_file_base st)) i); [by eexists|]. by apply zget_is_Some.
Qed.

(** The file that has a byte of the torrent, and the position of the byte in
    it. *)
Definition place (st : file_storage) (t : Z) : option (Z * Z) :=
  i ← file_index_at_offset t st; e ← zget (m_files st) i; b ← file_base i st; Some (i, t - fe_offset e + b).

Lemma place_at st P e C b t :
  storage_ok st -> m_files st = P ++ e :: C -> fe_offset e <= t < fe_offset e + fe_size e -> file_base (zlen P) st = Some b ->
  place st t = Some (zlen P, t - fe_offset e + b).
Proof.
  intros [Hc Ht Hb] Hl Hrange Hbase. assert (0 <= t < 2 ^ 48) as Ht48.
  { rewrite Hl in Hc. pose proof (contiguous_offsets _ _ Hc) as Ho. apply Forall_app in Ho as [_ [Ho _]%Forall_cons]. rewrite Ht, Hl in Hb. lia. }
  unfold place, file_index_at_offset, u48. rewrite Z.mod_small by done. rewrite Hl in Hc |- *.
  rewrite (files_after_at 0 t P e C Hc Hrange). destruct (Z.eqb_spec (zlen P + 1) 0); [lia|]. cbn [mbind option_bind].
  rewrite zget_mid by lia. cbn [mbind option_bind]. replace (zlen P + 1 - 1) with (zlen P) by lia. by rewrite Hbase.
Qed.

(** ** The slices of a block *)

Definition slice_bytes (s : file_slice) : list (Z * Z) := (fun k => (file_index s, slice_offset s + k)) <$> seqZ 0 (slice_size s).

(** A slice is a part of its file that is not empty. *)
Definition slice_ok st (s : file_slice) : Prop :=
  0 < slice_size s /\ exists e b, zget (m_files st) (file_index s) = Some e /\ file_base (file_index s) st = Some b /\
    b <= slice_offset s /\ slice_offset s - b + slice_size s <= fe_size e.

Definition slices_of st (t size : Z) (ret : list file_slice) : Prop :=
  Forall (slice_ok st) ret /\ Some <$> concat (map slice_bytes ret) = place st <$> seqZ t size.

Lemma fmap_seqZ_ext {B} (f g : Z -> B) m m' n :
  (forall k, 0 <= k < n -> f (m + k) = g (m' + k)) -> f <$> seqZ m n = g <$> seqZ m' n.
Proof.
  intros Hfg. apply list_eq. intros i. rewrite !list_lookup_fmap. destruct (decide (Z.of_nat i < n)) as [Hi|Hi].
  - rewrite !lookup_seqZ_lt by lia. simpl. f_equal. apply Hfg. lia.
  - by rewrite !lookup_seqZ_ge by lia.
Qed.

Lemma slice_place st P e C b fo n :
  storage_ok st -> m_files st = P ++ e :: C -> file_base (zlen P) st = Some b -> 0 <= fo -> fo + n <= fe_size e ->
  Some <$> slice_bytes (Slice (zlen P) (fo + b) n) = place st <$> seqZ (fe_offset e + fo) n.
Proof.
  intros Hok Hl Hb Hfo Hn. unfold slice_bytes. cbn [file_index slice_offset slice_size]. rewrite <- list_fmap_compose.
  apply fmap_seqZ_ext. intros k Hk. simpl. symmetry. rewrite (place_at st P e C b); [|done|done|lia|done].
  do 2 f_equal. lia.
Qed.

Lemma map_files_spec st l P fo size :
  storage_ok st -> m_files st = P ++ l -> 0 <= fo -> size < 2 ^ 31 -> total P + fo + size <= m_total_size st ->
  exists ret, map_files l (zlen P) fo size st = Some ret /\ slices_of st (total P + fo) size ret.
Proof.
  intros Hok. revert P fo size. induction l as [|e l IH]; intros P fo size Hl Hfo Hs Hle; cbn [map_files].
  - rewrite app_nil_r in Hl. rewrite (so_total _ Hok), Hl in Hle. destruct (Z.leb_spec size 0); [|lia].
    exists []. split; [done|]. split; [done|]. by rewrite seqZ_nil by lia.
  - pose proof (so_files _ Hok) as Hc. rewrite Hl in Hc. apply contiguous_app in Hc as [_ (Ho & He & _)]. rewrite Z.add_0_l in Ho.
    destruct (Z.leb_spec size 0); [exists []; split; [done|]; split; [done|]; by rewrite seqZ_nil by lia|].
    assert (m_files st = (P ++ [e]) ++ l) as Hl' by (by rewrite <- app_assoc).
    assert (zlen P + 1 = zlen (P ++ [e])) as Hlen by zlia.
    assert (total (P ++ [e]) = total P + fe_size e) as Htot by (rewrite zsum_app; unfold zsum at 2; simpl; lia).
    destruct (Z.ltb_spec fo (fe_size e)) as [Hlt|Hge].
    + destruct (file_base_Some (zlen P) st) as [b Hb]; [lia|]. rewrite Hb. cbn [mbind option_bind].
      pose proof (so_bound _ Hok) as H48. pose proof (so_total _ Hok) as Htt.
      assert (fe_size e < 2 ^ 48) as He48.
      { rewrite Htt, Hl, zsum_app, total_cons in H48. pose proof (so_files _ Hok) as Hc. rewrite Hl in Hc.
        apply contiguous_app in Hc as [HP (_ & _ & Hc)]. apply contiguous_sizes in HP, Hc. lia. }
      unfold u64. rewrite !Z.mod_small by lia. set (n := Z.min (fe_size e - fo) size). rewrite to_int_small by (unfold n; lia).
      destruct (Z.le_gt_cases size (fe_size e - fo)) as [Hin|Hout].
      * assert (n = size) as -> by (unfold n; lia). rewrite Z.sub_diag. exists [Slice (zlen P) (fo + b) size].
        split; [by destruct l|]. split.
        { apply Forall_singleton. split; [done|]. exists e, b. rewrite Hl, zget_mid by done. split_and!; simpl; done || lia. }
        cbn [map concat]. rewrite app_nil_r, <- Ho. apply slice_place with l; done || lia.
      * assert (n = fe_size e - fo) as -> by (unfold n; lia).
        destruct (IH (P ++ [e]) (fo + (fe_size e - fo) - fe_size e) (size - (fe_size e - fo))) as (ret & E & Hret & Hbytes); [done|lia|lia|lia|].
        rewrite Hlen, E. eexists. split; [done|]. split.
        { constructor; [|done]. split; [simpl; lia|]. exists e, b. rewrite Hl, zget_mid by done. split_and!; simpl; done || lia. }
        cbn [map concat]. rewrite fmap_app, Hbytes, (slice_place st P e l b fo (fe_size e - fo)) by (done || lia).
        rewrite <- fmap_app. f_equal. replace size with ((fe_size e - fo) + (size - (fe_size e - fo))) at 2 by lia.
        rewrite seqZ_app by lia. f_equal; f_equal; lia.
    + destruct (IH (P ++ [e]) (fo - fe_size e) size) as (ret & E & Hret); [done|lia|lia|lia|].
      exists ret. rewrite Hlen. split; [done|]. by replace (total P + fo) with (total (P ++ [e]) + (fo - fe_size e)) by lia.
Qed.

Lemma locate off l t :
  contiguous off l -> off <= t < off + total l -> exists P e C, l = P ++ e :: C /\ fe_offset e <= t < fe_offset e + fe_size e.
Proof.
  revert off. induction l as [|e l IH]; intros off; [unfold zsum; simpl; lia|]. intros (Ho & He & Hl) Ht. rewrite total_cons in Ht.
  destruct (Z.lt_ge_cases t (off + fe_size e)); [exists [], e, l; split; [done|lia]|].
  destruct (IH _ Hl) as (P & e' & C & -> & H'); [lia|]. by exists (e :: P), e', C.
Qed.

Lemma files_after_range t l : 0 <= files_after t l <= zlen l.
Proof. induction l as [|e l IH]; [done|]. cbn [files_after]. rewrite zlen_cons. case_match; lia. Qed.

(** The part of a block that is inside the torrent. *)
Definition block_size st (t size : Z) : Z := Z.min size (m_total_size st - t).

Lemma map_block_spec piece offset size st :
  storage_ok st -> let t := piece * m_piece_length st + offset in
  0 <= t <= m_total_size st -> 0 <= size < 2 ^ 31 ->
  exists ret, map_block piece offset size st = Some ret /\ slices_of st t (block_size st t size) ret.
Proof.
  intros Hok t Ht Hs. pose proof (so_bound _ Hok) as H48. unfold map_block. fold t. unfold u48. rewrite Z.mod_small by lia.
  set (n := if m_total_size st <? t + size then to_int (m_total_size st - t) else size).
  assert (n = block_size st t size) as <-.
  { unfold n, block_size. destruct (Z.ltb_spec (m_total_size st) (t + size)); [rewrite to_int_small by lia|]; lia. }
  assert (n <= m_total_size st - t /\ 0 <= n < 2 ^ 31) as [Hn Hn0].
  { unfold n. destruct (Z.ltb_spec (m_total_size st) (t + size)); [rewrite to_int_small by lia|]; lia. }
  pose proof (so_files _ Hok) as Hc. destruct (m_files st) as [|e0 l0] eqn:Hl0.
  { exists []. split; [done|]. split; [done|]. rewrite seqZ_nil; [done|]. pose proof (so_total _ Hok) as Htt. rewrite Hl0 in Htt.
    unfold zsum in Htt; simpl in Htt. lia. }
  rewrite <- Hl0 in Hc |- *. destruct (Z.lt_ge_cases t (m_total_size st)) as [Hlt|Hge].
  - rewrite (so_total _ Hok) in Hlt. destruct (locate 0 (m_files st) t Hc) as (P & e & C & Hl & Hin); [lia|].
    rewrite Hl in Hc |- *. rewrite (files_after_at 0 t P e C Hc Hin). destruct (Z.eqb_spec (zlen P + 1) 0); [lia|].
    replace (zlen P + 1 - 1) with (zlen P) by lia. rewrite zget_mid by done. cbn [mbind option_bind].
    rewrite Nat2Z.id, drop_app_length. apply contiguous_app in Hc as [_ (Ho & _)]. rewrite Z.add_0_l in Ho.
    destruct (map_files_spec st (e :: C) P (t - fe_offset e) n Hok Hl) as (ret & E & Hret); [lia|lia|lia|].
    exists ret. split; [exact E|]. by replace t with (total P + (t - fe_offset e)) at 1 by lia.
  - pose proof (files_after_range t (m_files st)) as Hr. assert (1 <= files_after t (m_files st)) as H1.
    { rewrite Hl0 in Hc |- *. destruct Hc as (Ho & _). cbn [files_after]. rewrite (proj2 (Z.ltb_ge _ _)) by lia.
      pose proof (files_after_range t l0). lia. }
    destruct (Z.eqb_spec (files_after t (m_files st)) 0); [lia|].
    destruct (zget_is_Some (m_files st) (files_after t (m_files st) - 1)) as [e ->]; [lia|]. cbn [mbind option_bind].
    exists []. assert (n = 0) as -> by lia. split; [by destruct (drop _ _)|]. split; [done|]. by rewrite seqZ_nil by lia.
Qed.

(** ** The block of a slice *)

Lemma map_file_spec file off size st e :
  storage_ok st -> 0 < m_piece_length st < 2 ^ 31 -> m_total_size st < 2 ^ 31 * m_piece_length st ->
  zget (m_files st) file = Some e -> 0 <= off -> 0 <= size < 2 ^ 31 ->
  exists r, map_file file off size st = Some r /\
    if off + fe_offset e <? m_total_size st then
      pr_piece r * m_piece_length st + pr_start r = off + fe_offset e /\ 0 <= pr_start r < m_piece_length st /\
      pr_length r = block_size st (off + fe_offset e) size
    else r = PeerRequest (m_num_pieces st) 0 0.
Proof.
  intros Hok Hp Htot He Hoff Hs. unfold map_file, num_files. pose proof (zget_Some_bound _ _ _ He) as Hb.
  rewrite (proj2 (Z.ltb_ge _ _)), (proj2 (Z.leb_gt _ _)) by lia. cbn [orb]. rewrite He. cbn [mbind option_bind].
  pose proof (so_files _ Hok) as Hc. pose proof (contiguous_offsets _ _ Hc) as Ho. rewrite Forall_forall in Ho.
  destruct (Ho e (zget_elem _ _ _ He)) as (Ho1 & Ho2 & _).
  destruct (Z.leb_spec (m_total_size st) (off + fe_offset e)) as [Hle|Hlt];
    [rewrite (proj2 (Z.ltb_ge (off + fe_offset e) _)) by lia; by eexists|].
  rewrite (proj2 (Z.ltb_lt (off + fe_offset e) (m_total_size st))) by lia.
  eexists. split; [done|]. cbn [pr_piece pr_start pr_length]. set (t := off + fe_offset e) in *.
  rewrite Z.quot_div_nonneg, Z.rem_mod_nonneg by lia. pose proof (Z.mod_pos_bound t (m_piece_length st)).
  assert (0 <= t / m_piece_length st < 2 ^ 31) by (split; [apply Z.div_pos; lia|apply Z.div_lt_upper_bound; lia]).
  rewrite !to_int_small by lia. split; [rewrite (Z.mul_comm (t / _)); symmetry; apply Z.div_mod; lia|]. split; [lia|].
  unfold block_size. destruct (Z.ltb_spec (m_total_size st) (t + size)); [pose proof (so_bound _ Hok); rewrite to_int_small by lia|]; lia.
Qed.

(** A range inside a file is mapped to the slice it is. *)
Lemma map_file_block P e C off size st b :
  storage_ok st -> 0 < m_piece_length st < 2 ^ 31 -> m_total_size st < 2 ^ 31 * m_piece_length st ->
  m_files st = P ++ e :: C -> file_base (zlen P) st = Some b -> 0 <= off -> 0 < size < 2 ^ 31 -> off + size <= fe_size e ->
  exists r, map_file (zlen P) off size st = Some r /\
    map_block (pr_piece r) (pr_start r) (pr_length r) st = Some [Slice (zlen P) (off + b) size].
Proof.
  intros Hok Hp Htot Hl Hb Hoff Hs Hin. pose proof (so_files _ Hok) as Hc. rewrite Hl in Hc.
  pose proof Hc as [HP (Ho & _ & HC)]%contiguous_app. apply contiguous_sizes in HP, HC. pose proof (so_total _ Hok) as Htt.
  rewrite Hl, zsum_app, total_cons in Htt. pose proof (so_bound _ Hok) as H48.
  destruct (map_file_spec (zlen P) off size st e Hok Hp Htot) as (r & E & Hr); [by rewrite Hl, zget_mid|lia|lia|].
  rewrite (proj2 (Z.ltb_lt _ _)) in Hr by lia. destruct Hr as (Ht & Hstart & Hlen). exists r. split; [done|].
  assert (pr_length r = size) as -> by (rewrite Hlen; unfold block_size; lia).
  unfold map_block. rewrite Ht. unfold u48. rewrite Z.mod_small by lia.
  rewrite (proj2 (Z.ltb_ge _ _)) by lia. destruct (m_files st) as [|e0 l0] eqn:Hl0; [by destruct P|]. rewrite Hl.
  rewrite (files_after_at 0 _ P e C Hc) by lia. destruct (Z.eqb_spec (zlen P + 1) 0); [lia|].
  replace (zlen P + 1 - 1) with (zlen P) by lia. rewrite zget_mid by done. cbn [mbind option_bind].
  rewrite Nat2Z.id, drop_app_length. cbn [map_files]. rewrite (proj2 (Z.leb_gt _ _)), (proj2 (Z.ltb_lt _ _)) by lia.
  rewrite Hb. cbn [mbind option_bind]. unfold u64. rewrite !Z.mod_small by lia. rewrite Z.min_r by lia. rewrite to_int_small by lia.
  rewrite Z.sub_diag. replace (off + fe_offset e - fe_offset e) with off by lia. by destruct C.
Qed.
End storage.
