(* ===== verification/FileOptimizeSpec.v ===== *)
(** * Moving files and adding pad files

    [rows] lists what a storage knows of each file, but for its offset; moving
    files permutes the rows ([reorder_spec]), and a pad file is one more row
    ([add_pad_spec]). *)

From Stdlib Require Import ZArith Lia.
From stdpp Require Import base numbers list.
From S2P Require Import Prelude FileStorage FileOptimize FileStorageSpec.

(** ** Two elements swapped *)

Definition swapped {A} (i j : Z) (l l' : list A) : Prop :=
  exists P x M y C, l = P ++ x :: M ++ y :: C /\ l' = P ++ y :: M ++ x :: C /\ zlen P = i /\ zlen P + 1 + zlen M = j.

Section swapped.
Context {A : Type}.
Implicit Types (l : list A).

Lemma split_two i j l : 0 <= i < j -> j < zlen l -> exists P x M y C, l = P ++ x :: M ++ y :: C /\ zlen P = i /\ zlen P + 1 + zlen M = j.
Proof.
  intros Hi Hj. destruct (zget_is_Some l j) as [y Hy]; [lia|]. unfold zget in Hy. rewrite decide_True in Hy by lia.
  apply list_elem_of_split_length in Hy as (P & C & -> & HP). destruct (zget_is_Some P i) as [x Hx]; [lia|].
  unfold zget in Hx. rewrite decide_True in Hx by lia. apply list_elem_of_split_length in Hx as (Q & M & -> & HQ).
  exists Q, x, M, y, C. rewrite <- app_assoc. rewrite length_app in HP. simpl in HP. split_and!; [done|lia|lia].
Qed.

Lemma swapped_perm i j l l' : swapped i j l l' -> l' ≡ₚ l.
Proof.
  intros (P & x & M & y & C & -> & -> & _). apply Permutation_app_head. rewrite <- !Permutation_middle. apply Permutation_swap.
Qed.

Lemma swapped_length i j l l' : swapped i j l l' -> length l' = length l.
Proof. intros H. by rewrite (swapped_perm _ _ _ _ H). Qed.

Lemma swapped_replicate i j n (x : A) : 0 <= i < j -> j < Z.of_nat n -> swapped i j (replicate n x) (replicate n x).
Proof.
  intros Hi Hj. destruct (split_two i j (replicate n x)) as (P & a & M & b & C & E & HP & HM); [done|by rewrite length_replicate|].
  assert (Forall (eq x) (replicate n x)) as H by (by apply Forall_replicate). rewrite E in H |- *.
  rewrite Forall_app, Forall_cons, Forall_app, Forall_cons in H. destruct H as (_ & <- & _ & <- & _). by exists P, x, M, x, C.
Qed.

Lemma swapped_zip {B} i j l l' (k k' : list B) :
  length l = length k -> swapped i j l l' -> swapped i j k k' -> swapped i j (zip l k) (zip l' k').
Proof.
  intros Hlen (P & x & M & y & C & -> & -> & HP & HM) (P2 & x2 & M2 & y2 & C2 & -> & -> & HP2 & HM2).
  exists (zip P P2), (x, x2), (zip M M2), (y, y2), (zip C C2).
  rewrite !zip_with_app by lia. cbn [zip_with]. rewrite !zip_with_app by lia. cbn [zip_with].
  rewrite !length_zip_with. split_and!; done || lia.
Qed.

Lemma swapped_fmap {B} (f : A -> B) i j l l' : swapped i j l l' -> swapped i j (f <$> l) (f <$> l').
Proof.
  intros (P & x & M & y & C & -> & -> & HP & HM). exists (f <$> P), (f x), (f <$> M), (f y), (f <$> C).
  rewrite !fmap_app, !fmap_cons, !fmap_app, !fmap_cons, !length_fmap. by split_and!.
Qed.

Lemma iter_swap_forward (f : A -> A) P x M y C i j :
  zlen P = i -> zlen P + 1 + zlen M = j -> iter_swap f i j (P ++ x :: M ++ y :: C) = Some (P ++ f y :: M ++ f x :: C).
Proof.
  intros <- <-. unfold iter_swap. rewrite (zget_mid P x _ (zlen P)) by done. cbn [mbind option_bind].
  rewrite app_comm_cons, app_assoc, zget_mid by zlia. cbn [mbind option_bind]. rewrite <- app_assoc, <- app_comm_cons.
  rewrite zset_mid by done. cbn [mbind option_bind]. rewrite app_comm_cons, app_assoc, zset_mid by zlia. by rewrite <- app_assoc.
Qed.

Lemma iter_swap_backward (f : A -> A) P x M y C i j :
  zlen P = i -> zlen P + 1 + zlen M = j -> iter_swap f j i (P ++ x :: M ++ y :: C) = Some (P ++ f y :: M ++ f x :: C).
Proof.
  intros <- <-. unfold iter_swap. rewrite (zget_mid P x _ (zlen P)) by done.
  rewrite app_comm_cons, app_assoc, zget_mid by zlia. cbn [mbind option_bind]. rewrite zset_mid by zlia. cbn [mbind option_bind].
  rewrite <- app_assoc, <- app_comm_cons, zset_mid by done. done.
Qed.
End swapped.

(** ** The rows of a storage *)

Definition key e : internal_file_entry := set_offset 0 (assign_entry e).

Definition fill (n : nat) (l : list Z) : list Z := match l with [] => replicate n 0 | _ => l end.

Definition rows st : list (internal_file_entry * (Z * (Z * Z))) :=
  let n := length (m_files st) in
  zip (key <$> m_files st) (zip (fill n (m_mtime st)) (zip (fill n (m_file_hashes st)) (fill n (m_file_base st)))).

(** An array has an element for each file, or none. *)
Definition full_array (n : nat) (l : list Z) : Prop := l = [] \/ length l = n.
Definition full st : Prop :=
  let n := length (m_files st) in full_array n (m_mtime st) /\ full_array n (m_file_hashes st) /\ full_array n (m_file_base st).

Lemma length_fill n l : full_array n l -> length (fill n l) = n.
Proof. intros [->|<-]; [apply length_replicate|]. by destruct l. Qed.

Lemma c_str_idemp s : c_str (c_str s) = c_str s.
Proof. induction s as [|x s IH]; [done|]. simpl. destruct (x =? 0) eqn:E; [done|]. simpl. by rewrite E, IH. Qed.

Lemma key_assign e : key (assign_entry e) = key e.
Proof. unfold key, assign_entry, copied_name. destruct e; simpl. unfold set_offset, set_name, filename. simpl. by rewrite c_str_idemp. Qed.

Lemma key_offset off e : key (set_offset off e) = key e.
Proof. done. Qed.

Lemma swap_array_full n l i j :
  full_array n l -> 0 <= i < j -> j < Z.of_nat n ->
  exists l', swap_array j i l = Some l' /\ full_array n l' /\ swapped i j (fill n l) (fill n l').
Proof.
  intros Hl Hi Hj. unfold swap_array. destruct l as [|a l].
  - exists []. split; [done|]. split; [by left|]. by apply swapped_replicate.
  - destruct Hl as [?|Hl]; [done|]. rewrite (proj2 (Z.ltb_ge _ _)) by lia.
    destruct (split_two i j (a :: l)) as (P & x & M & y & C & E & HP & HM); [done|lia|].
    assert (swapped i j (a :: l) (P ++ y :: M ++ x :: C)) as Hsw by (rewrite E; by exists P, x, M, y, C).
    eexists. split; [rewrite E; by apply (iter_swap_forward id P x M y C)|]. unfold id. pose proof (swapped_length _ _ _ _ Hsw) as Hlen.
    split; [right; by rewrite <- Hl, Hlen|]. cbn [fill]. by destruct P.
Qed.

(** ** The operations *)

(** What moving files does not change. *)
Definition rest st : Z * Z * list (list Z) * list (list Z) * list Z * Z * Z :=
  (m_piece_length st, m_num_pieces st, m_symlinks st, m_paths st, m_name st, m_total_size st, m_num_files st).

Lemma rows_swapped i j st st' :
  full st -> length (m_files st') = length (m_files st) ->
  swapped i j (key <$> m_files st) (key <$> m_files st') ->
  swapped i j (fill (length (m_files st)) (m_mtime st)) (fill (length (m_files st)) (m_mtime st')) ->
  swapped i j (fill (length (m_files st)) (m_file_hashes st)) (fill (length (m_files st)) (m_file_hashes st')) ->
  swapped i j (fill (length (m_files st)) (m_file_base st)) (fill (length (m_files st)) (m_file_base st')) ->
  rows st' ≡ₚ rows st.
Proof.
  intros (H1 & H2 & H3) Hlen Hf Hm Hh Hb. unfold rows. rewrite Hlen. apply (swapped_perm i j).
  repeat (apply swapped_zip; [|done|]); rewrite ?length_zip_with, ?length_fmap, ?length_fill by done; done || lia.
Qed.

Lemma reorder_spec st D x M y C :
  full st -> m_files st = D ++ x :: M ++ y :: C ->
  exists st', reorder_file (zlen D + 1 + zlen M) (zlen D) st = Some st' /\
    m_files st' = D ++ assign_entry y :: M ++ assign_entry x :: C /\ full st' /\ rows st' ≡ₚ rows st /\ rest st' = rest st.
Proof.
  intros Hfull Hl. pose proof Hfull as (Hm & Hh & Hb). unfold reorder_file. rewrite Hl, iter_swap_backward by done. cbn [mbind option_bind].
  assert (0 <= zlen D < zlen D + 1 + zlen M) as Hij by lia.
  assert (zlen D + 1 + zlen M < Z.of_nat (length (m_files st))) as Hj by (rewrite Hl; zlia).
  destruct (swap_array_full _ _ _ _ Hm Hij Hj) as (m' & -> & Hm' & Sm). cbn [mbind option_bind].
  destruct (swap_array_full _ _ _ _ Hh Hij Hj) as (h' & -> & Hh' & Sh). cbn [mbind option_bind].
  destruct (swap_array_full _ _ _ _ Hb Hij Hj) as (b' & -> & Hb' & Sb). cbn [mbind option_bind].
  assert (length (D ++ assign_entry y :: M ++ assign_entry x :: C) = length (m_files st)) as Hlen.
  { rewrite Hl, !length_app. simpl. rewrite !length_app. done. }
  eexists. split; [done|]. split; [done|]. split; [unfold full; cbn [with_arrays with_files m_files m_mtime m_file_hashes m_file_base]; by rewrite Hlen|].
  split; [|done]. apply (rows_swapped (zlen D) (zlen D + 1 + zlen M)); [done|done| |done..].
  cbn [with_arrays with_files m_files]. rewrite Hl. exists (key <$> D), (key x), (key <$> M), (key y), (key <$> C).
  rewrite !fmap_app, !fmap_cons, !fmap_app, !fmap_cons, !key_assign, !length_fmap. by split_and!.
Qed.

Lemma file_place_spec st D e R off :
  full st -> m_files st = D ++ e :: R ->
  exists st', FileOptimize.place (zlen D) off st = Some (st', off + fe_size e) /\
    m_files st' = D ++ set_offset off e :: R /\ full st' /\ rows st' = rows st /\ rest st' = rest st.
Proof.
  intros Hfull Hl. unfold FileOptimize.place. rewrite Hl, zget_mid by done. cbn [mbind option_bind]. rewrite zset_mid by done. cbn [mbind option_bind].
  assert (length (D ++ set_offset off e :: R) = length (m_files st)) as Hlen by (by rewrite Hl, !length_app).
  eexists. split; [done|]. split; [done|]. split; [unfold full in *; cbn [with_files m_files m_mtime m_file_hashes m_file_base]; by rewrite Hlen|].
  split; [|done]. unfold rows. cbn [with_files m_files m_mtime m_file_hashes m_file_base]. rewrite Hlen, Hl, !fmap_app, !fmap_cons.
  by rewrite key_offset.
Qed.

(** The row of a pad file. *)
Definition pad_row (limit : Z) (r : internal_file_entry * (Z * (Z * Z))) : Prop :=
  pad_file (fst r) = true /\ 0 < fe_size (fst r) < limit /\ snd r = (0, (0, 0)).

Lemma grow_array_full n l : full_array n l -> full_array (S n) (grow_array (Z.of_nat n + 1) l) /\
  fill (S n) (grow_array (Z.of_nat n + 1) l) = fill n l ++ [0].
Proof.
  intros [->|Hl]; [split; [by left|]; exact (replicate_S_end n 0)|].
  destruct l as [|a l]; [split; [by left|]; exact (replicate_S_end n 0)|]. cbn [grow_array]. unfold vec_resize.
  rewrite (take_ge (a :: l)) by lia. replace (Z.to_nat (Z.of_nat n + 1 - zlen (a :: l))) with 1%nat by lia. cbn [replicate].
  split; [right; rewrite length_app; simpl in *; lia|done].
Qed.

(** The storage with a new file at the end. *)
Lemma rows_snoc st st' e :
  full st -> m_files st' = m_files st ++ [e] ->
  (forall (f : file_storage -> list Z), f = m_mtime \/ f = m_file_hashes \/ f = m_file_base ->
    f st' = grow_array (zlen (m_files st) + 1) (f st)) ->
  full st' /\ rows st' = rows st ++ [(key e, (0, (0, 0)))].
Proof.
  intros (Hm & Hh & Hb) Hl Hf. set (n := length (m_files st)) in *.
  assert (length (m_files st') = S n) as Hn by (rewrite Hl, length_app; simpl; lia).
  destruct (grow_array_full _ _ Hm) as [Fm Em], (grow_array_full _ _ Hh) as [Fh Eh], (grow_array_full _ _ Hb) as [Fb Eb].
  rewrite <- (Hf m_mtime), <- (Hf m_file_hashes), <- (Hf m_file_base) in * by tauto.
  split; [unfold full; by rewrite Hn|]. unfold rows. rewrite Hn, Hl, Em, Eh, Eb, fmap_app. fold n.
  rewrite !zip_with_app; [done|..]; rewrite ?length_zip_with, ?length_fmap, ?length_fill by done; unfold n; lia.
Qed.

(** The rest of a storage after [n] pad files were added. *)
Record frame (n : Z) st st' : Prop := {
  frame_piece_length : m_piece_length st' = m_piece_length st;
  frame_num_pieces : m_num_pieces st' = m_num_pieces st;
  frame_symlinks : m_symlinks st' = m_symlinks st;
  frame_name : m_name st' = m_name st;
  frame_total : m_total_size st' = m_total_size st;
  frame_num_files : m_num_files st' = m_num_files st + n;
  frame_paths : exists more, m_paths st' = m_paths st ++ more;
}.

Lemma frame_refl st : frame 0 st st.
Proof. split; try done; [lia|]. exists []. by rewrite app_nil_r. Qed.

Lemma frame_trans n k s1 s2 s3 : frame n s1 s2 -> frame k s2 s3 -> frame (n + k) s1 s3.
Proof.
  intros [] []. split; [congruence..|lia|]. destruct frame_paths0 as [m1 H1], frame_paths1 as [m2 H2].
  exists (m1 ++ m2). by rewrite H2, H1, app_assoc.
Qed.

Lemma rest_frame st st' : rest st' = rest st -> frame 0 st st'.
Proof. unfold rest. intros [= E1 E2 E3 E4 E5 E6 E7]. split; try done; [lia|]. exists []. by rewrite app_nil_r. Qed.

Lemma get_or_add_path_prefix p paths : exists more, snd (get_or_add_path p paths) = paths ++ more.
Proof. unfold get_or_add_path. destruct (find_path _ _ _); [exists []; by rewrite app_nil_r|by eexists]. Qed.

Lemma add_pad_spec st D R size off c limit :
  full st -> m_files st = D ++ R -> 0 < size < limit -> limit <= 2 ^ 48 ->
  exists st' R' pad r, add_pad_file size (zlen D) off c st = Some (st', off + size, c + 1) /\
    m_files st' = D ++ pad :: R' /\ fe_size pad = size /\ fe_offset pad = u48 off /\ pad_file pad = true /\
    fe_size <$> R' ≡ₚ fe_size <$> R /\ full st' /\ rows st' ≡ₚ rows st ++ [r] /\ pad_row limit r /\ frame 1 st st'.
Proof.
  intros Hfull Hl Hs Hlim. unfold add_pad_file. set (n := zlen (m_files st)).
  destruct (get_or_add_path_prefix [46; 112; 97; 100] (m_paths st)) as [more Hmore].
  destruct (get_or_add_path [46; 112; 97; 100] (m_paths st)) as [p paths]. cbn [snd] in Hmore. subst paths.
  set (pad := set_flags _ _ _ _ _). set (st1 := with_arrays _ _ _ _).
  assert (fe_size pad = size) as Hsz by (unfold pad; simpl; unfold u48; apply Z.mod_small; lia).
  destruct (rows_snoc st st1 pad Hfull) as [Hfull1 Hrows1]; [done|by intros f [->|[->| ->]]|].
  assert (pad_row limit (key pad, (0, (0, 0)))) as Hpad by (split; [done|]; split; [|done]; change (0 < fe_size pad < limit); lia).
  assert (frame 1 st st1) as Hframe by (split; try done; by exists more).
  destruct (Z.eqb_spec n (zlen D)) as [Hn|Hn].
  - assert (R = []) as -> by (unfold n in Hn; rewrite Hl in Hn; destruct R; [done|zlia]). rewrite app_nil_r in Hl.
    cbn [mbind option_bind]. exists st1, [], pad, (key pad, (0, (0, 0))). rewrite Hrows1.
    split_and!; try done. unfold st1. simpl. by rewrite Hl.
  - destruct R as [|x M]; [exfalso; apply Hn; unfold n; by rewrite Hl, app_nil_r|].
    assert (m_files st1 = D ++ x :: M ++ pad :: []) as Hl1 by (unfold st1; simpl; by rewrite Hl, <- app_assoc).
    destruct (reorder_spec st1 D x M pad [] Hfull1 Hl1) as (st' & E & Hfiles & Hfull' & Hrows & Hrest).
    assert (n = zlen D + 1 + zlen M) as -> by (unfold n; rewrite Hl; zlia). rewrite E. cbn [mbind option_bind].
    exists st', (M ++ [assign_entry x]), (assign_entry pad), (key pad, (0, (0, 0))). split_and!; try done.
    + by rewrite fmap_app, fmap_cons, <- Permutation_cons_append.
    + by rewrite Hrows, Hrows1.
    + replace 1 with (1 + 0) by lia. eapply frame_trans; [exact Hframe|by apply rest_frame].
Qed.

(** * The loop of [optimize]

    [progress] is the invariant of the loop: the files that were placed follow
    each other and are laid out as asked, the rows are those of the start and
    pad files.  Each round places a file or aligns the next one. *)

#[local] Abbreviation entries := (list internal_file_entry).
#[local] Abbreviation total := (zsum fe_size).

(** ** Where the largest and the best file are *)

Lemma max_element_range i (l : entries) best :
  max_element i l best = fst best \/ i <= max_element i l best < i + zlen l.
Proof.
  revert i best. induction l as [|e l IH]; intros i best; cbn [max_element]; [by left|]. rewrite zlen_cons.
  destruct (IH (i + 1) (if snd best <? fe_size e then (i, fe_size e) else best)) as [-> | H]; [|right; lia].
  case_match; [right; simpl; lia|by left].
Qed.

Lemma best_fit_spec n i (l : entries) best r :
  best_fit n i l best = Some r ->
  (exists b, best = Some b /\ r = fst b) \/ exists y, zget l (r - i) = Some y /\ fe_size y <= u32 n.
Proof.
  revert i best. induction l as [|e l IH]; intros i best; cbn [best_fit].
  { destruct best as [b|]; [|done]. intros [= <-]. left. by exists b. }
  intros [(b & Hb & ->)|(y & Hy & Hn)]%IH.
  - destruct (Z.ltb_spec (u32 n) (fe_size e)); [left; by exists b|].
    assert (best = Some b \/ b = (i, fe_size e)) as [->| ->] by (destruct best as [[k m]|]; [destruct (m <? fe_size e)|]; naive_solver).
    + left. by exists b.
    + right. exists e. simpl. rewrite Z.sub_diag. done.
  - right. exists y. split; [|done]. pose proof (zget_Some_bound _ _ _ Hy). replace (r - i) with (r - (i + 1) + 1) by lia.
    by rewrite zget_cons_S by lia.
Qed.

Lemma zget_split {A} (l : list A) k y : zget l k = Some y -> exists M C, l = M ++ y :: C /\ zlen M = k.
Proof.
  intros Hy. pose proof (zget_Some_bound _ _ _ Hy). unfold zget in Hy. rewrite decide_True in Hy by lia.
  apply list_elem_of_split_length in Hy as (M & C & -> & HM). exists M, C. split; [done|lia].
Qed.

Section loop.
Context (limit alignment : Z) (tail : bool).
Hypothesis (Hal : 0 < alignment < 2 ^ 31) (Hlim : limit < 2 ^ 31).

#[local] Abbreviation aligned x := (x mod alignment = 0).

(** ** How files are laid out *)

(** The limit is none, zero, or no less than the alignment. *)
Definition strict : Prop := limit < 0 \/ limit = 0 \/ alignment <= limit.

Definition starts_ok (e : internal_file_entry) : Prop :=
  strict -> 0 <= limit -> pad_file e = false -> limit < fe_size e -> aligned (fe_offset e).
Definition ends_ok (e : internal_file_entry) : Prop :=
  strict -> tail = true -> u32 limit < fe_size e -> aligned (fe_offset e + fe_size e).

(** Files in place: each starts where it should, and ends there too or is
    followed by a pad file that does. *)
Inductive laid_out : entries -> Prop :=
  | laid_nil : laid_out []
  | laid_file D e : laid_out D -> starts_ok e -> ends_ok e -> laid_out (D ++ [e])
  | laid_padded D e p : laid_out D -> starts_ok e -> pad_file p = true -> aligned (fe_offset p + fe_size p) -> laid_out (D ++ [e; p]).

(** ** The invariant *)

(** Rounds left: a file that is not aligned may need one more. *)
Definition rounds_left (R : entries) (off : Z) : Z := 2 * zlen R + (if off mod alignment =? 0 then 0 else 1).

Record progress (st0 : file_storage) (D R : entries) (off : Z) (st : file_storage) : Prop := {
  pr_files : m_files st = D ++ R;
  pr_placed : contiguous 0 D;
  pr_off : total D = off;
  pr_sizes : Forall (fun e => 0 <= fe_size e) R;
  pr_full : full st;
  pr_rows : exists pads, rows st ≡ₚ rows st0 ++ pads /\ Forall (pad_row alignment) pads /\
    (limit < 0 -> tail = false -> pads = []) /\ frame (zlen pads) st0 st;
  pr_bound : off + total R + alignment * rounds_left R off < 2 ^ 48;
}.

Lemma rounds_left_nonneg R off : 0 <= rounds_left R off.
Proof. unfold rounds_left. case_match; lia. Qed.

Lemma sizes_nonneg (R : entries) : Forall (fun e => 0 <= fe_size e) R -> 0 <= total R.
Proof. rewrite Forall_forall. intros H. by apply zsum_nonneg. Qed.

Lemma progress_off st0 D R off st : progress st0 D R off st -> 0 <= off < 2 ^ 48.
Proof.
  intros []. apply contiguous_sizes in pr_placed0 as [? _]. pose proof (sizes_nonneg _ pr_sizes0).
  pose proof (rounds_left_nonneg R off). split; [lia|]. nia.
Qed.

(** Files of the same sizes in another order. *)
Lemma sizes_perm (R R' : entries) :
  fe_size <$> R' ≡ₚ fe_size <$> R -> Forall (fun e => 0 <= fe_size e) R ->
  Forall (fun e => 0 <= fe_size e) R' /\ total R' = total R /\ zlen R' = zlen R.
Proof.
  intros Hp HR. assert (forall l, total l = zsum (fun x => x) (fe_size <$> l)) as Ht by (intros l; induction l as [|e l IH]; [done|]; simpl; by rewrite IH).
  split; [|split].
  - assert (Forall (fun n => 0 <= n) (fe_size <$> R')) as H by (rewrite Hp; by apply Forall_fmap). exact (proj1 (Forall_fmap _ _ _) H).
  - rewrite !Ht. clear -Hp. induction Hp; simpl; lia.
  - apply Permutation_length in Hp. rewrite !length_fmap in Hp. lia.
Qed.

(** A file moved to the front of the files that are not placed. *)
Lemma progress_move st0 D e R off st index :
  progress st0 D (e :: R) off st -> zlen D <= index < zlen D + 1 + zlen R ->
  exists y R' st', move_here index (zlen D) st = Some st' /\ progress st0 D (y :: R') off st' /\ zlen R' = zlen R /\
    (if index =? zlen D then fe_size y = fe_size e else exists y0, zget R (index - zlen D - 1) = Some y0 /\ fe_size y = fe_size y0).
Proof using Hal.
  intros Hpr Hi. unfold move_here. destruct (Z.eqb_spec index (zlen D)) as [->|Hne]; [by exists e, R, st|].
  destruct (zget_is_Some R (index - zlen D - 1)) as [y Hy]; [lia|]. pose proof (zget_split _ _ _ Hy) as (M & C & -> & HM).
  destruct Hpr as [Hf Hpl Hoff Hsz Hfull (pads & Hrows & Hpads & Hnone & Hframe) Hb].
  destruct (reorder_spec st D e M y C Hfull Hf) as (st' & E & Hf' & Hfull' & Hrows' & Hrest).
  exists (assign_entry y), (M ++ assign_entry e :: C), st'. replace index with (zlen D + 1 + zlen M) by lia. split; [done|].
  assert (fe_size <$> assign_entry y :: M ++ assign_entry e :: C ≡ₚ fe_size <$> e :: M ++ y :: C) as Hp.
  { rewrite !fmap_cons, !fmap_app, !fmap_cons. change (fe_size (assign_entry y)) with (fe_size y). change (fe_size (assign_entry e)) with (fe_size e).
    rewrite <- !Permutation_middle. apply Permutation_swap. }
  destruct (sizes_perm _ _ Hp Hsz) as (Hsz' & Htot & Hlen). split; [|split].
  - split; try done.
    + exists pads. rewrite Hrows'. split_and!; try done. replace (zlen pads) with (zlen pads + 0) by lia.
      eapply frame_trans; [exact Hframe|by apply rest_frame].
    + unfold rounds_left in *. rewrite Htot, Hlen. exact Hb.
  - rewrite !zlen_cons in Hlen. lia.
  - exists y. by replace (zlen D + 1 + zlen M - zlen D - 1) with (index - zlen D - 1) by lia.
Qed.

(** What is known of a file in place. *)
Lemma placed_entry st0 D e R off st :
  progress st0 D (e :: R) off st ->
  fe_offset (set_offset off e) = off /\ 0 <= fe_size e /\ contiguous 0 (D ++ [set_offset off e]) /\
  total (D ++ [set_offset off e]) = off + fe_size e.
Proof using Hal.
  intros Hpr. pose proof (progress_off _ _ _ _ _ Hpr) as Ho. destruct Hpr as [_ Hpl Hoff [Hs _]%Forall_cons _ _ _].
  assert (fe_offset (set_offset off e) = off) as Hoe by (simpl; apply Z.mod_small; lia). split_and!; [done|done| |].
  - apply contiguous_app. split; [done|]. split_and!; [lia|done|done].
  - rewrite zsum_app. simpl. lia.
Qed.

(** The index moves past the file and nothing else happens. *)
Lemma progress_place st0 D e R off st :
  progress st0 D (e :: R) off st ->
  exists st', FileOptimize.place (zlen D) off st = Some (st', off + fe_size e) /\
    progress st0 (D ++ [set_offset off e]) R (off + fe_size e) st' /\
    rounds_left R (off + fe_size e) < rounds_left (e :: R) off.
Proof using Hal.
  intros Hpr. destruct (placed_entry _ _ _ _ _ _ Hpr) as (Hoe & Hse & Hcont & Htot).
  destruct Hpr as [Hf Hpl Hoff Hsz Hfull (pads & Hrows & Hpads & Hnone & Hframe) Hb].
  destruct (file_place_spec st D e R off Hfull Hf) as (st' & E & Hf' & Hfull' & Hrows' & Hrest). exists st'. split; [done|].
  assert (rounds_left R (off + fe_size e) < rounds_left (e :: R) off) as Hr by (unfold rounds_left; rewrite zlen_cons; repeat case_match; lia).
  split; [|done]. split; try done.
  - by rewrite Hf', <- app_assoc.
  - by apply Forall_cons in Hsz as [_ ?].
  - exists pads. rewrite Hrows'. split_and!; try done. replace (zlen pads) with (zlen pads + 0) by lia.
    eapply frame_trans; [exact Hframe|by apply rest_frame].
  - simpl in Hb. nia.
Qed.

(** A pad file up to the next aligned offset. *)
Lemma progress_pad st0 D R off c st :
  progress st0 D R off st -> off mod alignment <> 0 -> 0 <= limit \/ tail = true ->
  exists st' R' pad, let off' := off + (alignment - off mod alignment) in
    add_pad_file (to_int (alignment - Z.rem off alignment)) (zlen D) off c st = Some (st', off', c + 1) /\
    progress st0 (D ++ [pad]) R' off' st' /\ rounds_left R' off' < rounds_left R off /\
    pad_file pad = true /\ aligned (fe_offset pad + fe_size pad) /\ aligned off'.
Proof using Hal.
  intros Hpr Hna Hor. pose proof (progress_off _ _ _ _ _ Hpr) as Ho. pose proof (Z.mod_pos_bound off alignment) as Hm.
  destruct Hpr as [Hf Hpl Hoff Hsz Hfull (pads & Hrows & Hpads & Hnone & Hframe) Hb].
  rewrite Z.rem_mod_nonneg by lia. set (n := alignment - off mod alignment). rewrite to_int_small by (unfold n; lia).
  destruct (add_pad_spec st D R n off c alignment Hfull Hf) as (st' & R' & pad & r & E & Hf' & Hsize & Hoffs & Hpad & Hperm & Hfull' & Hrows' & Hrow & Hfr);
    [unfold n; lia|lia|].
  destruct (sizes_perm R R' Hperm Hsz) as (Hsz' & Htot & Hlen). assert (fe_offset pad = off) as Hpo by (rewrite Hoffs; apply Z.mod_small; lia).
  assert ((off + n) mod alignment = 0) as Haligned.
  { unfold n. replace (off + (alignment - off mod alignment)) with (alignment * (off / alignment + 1)); [rewrite Z.mul_comm; apply Z.mod_mul; lia|].
    pose proof (Z.div_mod off alignment). lia. }
  assert (rounds_left R' (off + n) + 1 = rounds_left R off) as Hrl.
  { unfold rounds_left. rewrite Hlen, Haligned, Z.eqb_refl, (proj2 (Z.eqb_neq _ _) Hna). lia. }
  exists st', R', pad. cbv zeta. fold n. split_and!; [done| |lia|done|by rewrite Hpo, Hsize|done].
  split; try done.
  - by rewrite Hf', <- app_assoc.
  - apply contiguous_app. split; [done|]. split_and!; [lia|unfold n in *; lia|done].
  - rewrite zsum_app. simpl. lia.
  - exists (pads ++ [r]). split_and!.
    + by rewrite Hrows', Hrows, <- app_assoc.
    + apply Forall_app. split; [done|by apply Forall_singleton].
    + intros ? Ht. destruct Hor; [lia|congruence].
    + rewrite zlen_app. by apply (frame_trans _ _ _ _ _ Hframe).
  - rewrite Htot. rewrite <- Hrl in Hb. unfold n in *. nia.
Qed.

(** What a round does. *)
Definition advances (st0 st : file_storage) (R : entries) (off : Z) (res : option (Z * Z * Z * file_storage)) : Prop :=
  exists D' R' off' c' st', res = Some (zlen D', off', c', st') /\ progress st0 D' R' off' st' /\ laid_out D' /\
    rounds_left R' off' < rounds_left R off.

Lemma place_padded_spec st0 D e R off c st :
  progress st0 D (e :: R) off st -> laid_out D -> starts_ok (set_offset off e) ->
  advances st0 st (e :: R) off (place_padded limit alignment tail (zlen D) off c st).
Proof using Hal.
  intros Hpr Hlaid Hst. destruct (placed_entry _ _ _ _ _ _ Hpr) as (Hoe & Hse & _ & _).
  destruct (progress_place _ _ _ _ _ _ Hpr) as (st1 & E & Hpr1 & Hr1). unfold place_padded. rewrite E. cbn [mbind option_bind].
  rewrite (pr_files _ _ _ _ _ Hpr1), <- app_assoc. cbn [app]. rewrite zget_mid by done. cbn [mbind option_bind].
  change (fe_size (set_offset off e)) with (fe_size e). set (off1 := off + fe_size e) in *.
  pose proof (progress_off _ _ _ _ _ Hpr1) as Ho1. rewrite Z.rem_mod_nonneg by lia.
  destruct (tail && (u32 limit <? fe_size e) && negb (off1 mod alignment =? 0)) eqn:Htail.
  - apply andb_true_iff in Htail as [[Ht _]%andb_true_iff Hna%negb_true_iff%Z.eqb_neq].
    destruct (progress_pad _ _ _ _ c _ Hpr1 Hna) as (st2 & R2 & pad & E2 & Hpr2 & Hr2 & Hpad & Hend & _); [by right|].
    rewrite <- Z.rem_mod_nonneg by lia. replace (zlen D + 1) with (zlen (D ++ [set_offset off e])) by zlia. rewrite E2. cbn [mbind option_bind].
    exists ((D ++ [set_offset off e]) ++ [pad]), R2. do 3 eexists. split; [do 4 f_equal; zlia|]. split; [done|]. split; [|lia].
    rewrite <- app_assoc. by apply laid_padded.
  - exists (D ++ [set_offset off e]), R. do 3 eexists. split; [do 4 f_equal; zlia|]. split; [done|]. split; [|done].
    apply laid_file; [done|done|]. intros _ -> Hbig. change (fe_size (set_offset off e)) with (fe_size e) in *. rewrite Hoe. fold off1.
    rewrite (proj2 (Z.ltb_lt _ _) Hbig) in Htail. cbn [andb] in Htail. by apply negb_false_iff, Z.eqb_eq in Htail.
Qed.

Lemma drop_placed (D : entries) e R : drop (Z.to_nat (zlen D + 1)) (D ++ e :: R) = R.
Proof.
  replace (Z.to_nat (zlen D + 1)) with (length (D ++ [e])) by (rewrite length_app; simpl; lia).
  change (e :: R) with ([e] ++ R). rewrite app_assoc. apply drop_app_length.
Qed.

(** A file that is aligned: the largest one comes here. *)
Lemma step_aligned st0 D e R off c st :
  progress st0 D (e :: R) off st -> laid_out D -> off mod alignment = 0 ->
  advances st0 st (e :: R) off
    (st ← move_here (max_element (zlen D + 1) R (zlen D, fe_size e)) (zlen D) st; place_padded limit alignment tail (zlen D) off c st).
Proof using Hal.
  intros Hpr Hlaid Ha. pose proof (max_element_range (zlen D + 1) R (zlen D, fe_size e)) as Hmax. cbn [fst] in Hmax.
  destruct (progress_move st0 D e R off st (max_element (zlen D + 1) R (zlen D, fe_size e)) Hpr) as (y & R' & st1 & -> & Hpr1 & Hlen & _); [lia|].
  cbn [mbind option_bind]. destruct (placed_entry _ _ _ _ _ _ Hpr1) as (Hoy & _).
  destruct (place_padded_spec st0 D y R' off c st1 Hpr1 Hlaid) as (D2 & R2 & off2 & c2 & st2 & E & Hpr2 & Hlaid2 & Hr2).
  { intros _ _ _ _. by rewrite Hoy. }
  exists D2, R2, off2, c2, st2. split_and!; [done..|]. unfold rounds_left in *. rewrite !zlen_cons, Hlen in *. done.
Qed.

(** A smaller file fills the space in front of a file that is to be aligned. *)
Lemma step_fill st0 D e R off c st index :
  progress st0 D (e :: R) off st -> laid_out D -> 0 < limit ->
  best_fit (to_int (alignment - Z.rem off alignment)) (zlen D + 1) R None = Some index ->
  advances st0 st (e :: R) off
    (st ← reorder_file index (zlen D) st; '(st, off) ← FileOptimize.place (zlen D) off st; Some (zlen D + 1, off, c, st)).
Proof using Hal Hlim.
  intros Hpr Hlaid Hl Hfit. pose proof (progress_off _ _ _ _ _ Hpr) as Ho. pose proof (Z.mod_pos_bound off alignment).
  apply best_fit_spec in Hfit as [(b & ? & _)|(y & Hy & Hsize)]; [done|]. pose proof (zget_Some_bound _ _ _ Hy).
  rewrite Z.rem_mod_nonneg, to_int_small, u32_small in Hsize by (try rewrite to_int_small; lia).
  destruct (progress_move st0 D e R off st index Hpr) as (y1 & R' & st1 & E & Hpr1 & Hlen & Hsz); [lia|].
  unfold move_here in E. destruct (Z.eqb_spec index (zlen D)); [lia|]. rewrite E. cbn [mbind option_bind].
  destruct Hsz as (y0 & Hy0 & Hsz). replace (index - zlen D - 1) with (index - (zlen D + 1)) in Hy0 by lia. rewrite Hy in Hy0. injection Hy0 as <-.
  destruct (progress_place _ _ _ _ _ _ Hpr1) as (st2 & E2 & Hpr2 & Hr2). rewrite E2. cbn [mbind option_bind].
  exists (D ++ [set_offset off y1]), R'. do 3 eexists. split; [do 4 f_equal; zlia|]. split; [exact Hpr2|]. split.
  - apply laid_file; [done|..].
    + intros [?|[?|?]] _ _ Hbig; [lia|lia|]. change (fe_size (set_offset off y1)) with (fe_size y1) in Hbig. lia.
    + intros [?|[?|?]] _ Hbig; [lia|lia|]. change (fe_size (set_offset off y1)) with (fe_size y1) in Hbig. rewrite u32_small in Hbig by lia. lia.
  - unfold rounds_left in *. rewrite !zlen_cons, Hlen in *. done.
Qed.

Lemma optimize_step_spec st0 D e R off c st :
  progress st0 D (e :: R) off st -> laid_out D ->
  advances st0 st (e :: R) off (optimize_step limit alignment tail (zlen D) off c st).
Proof using Hal Hlim.
  intros Hpr Hlaid. unfold optimize_step. pose proof (progress_off _ _ _ _ _ Hpr) as Ho.
  rewrite (pr_files _ _ _ _ _ Hpr), zget_mid by done. cbn [mbind option_bind]. destruct (Z.eqb_spec alignment 0); [lia|].
  rewrite drop_placed. destruct (Z.eqb_spec (Z.rem off alignment) 0) as [Ha|Ha]; rewrite Z.rem_mod_nonneg in Ha by lia.
  { by apply step_aligned. }
  destruct ((0 <=? limit) && (u32 limit <? fe_size e) && negb (pad_file e)) eqn:Hcond.
  - apply andb_true_iff in Hcond as [[Hl%Z.leb_le _]%andb_true_iff _].
    destruct (if 0 <? limit then _ else _) as [index|] eqn:Hfit.
    + destruct (Z.ltb_spec 0 limit); [|done]. by apply step_fill.
    + destruct (progress_pad _ _ _ _ c _ Hpr Ha) as (st1 & R1 & pad & E & Hpr1 & Hr1 & Hpad & Hend & _); [by left|].
      rewrite E. cbn [mbind option_bind]. exists (D ++ [pad]), R1. do 3 eexists. split; [do 4 f_equal; zlia|]. split; [done|].
      split; [|done]. apply laid_file; [done|intros _ _ Hp; congruence|by intros _ _ _].
  - apply place_padded_spec; [done|done|]. intros _ Hl Hp Hbig. change (fe_size (set_offset off e)) with (fe_size e) in *.
    change (pad_file (set_offset off e)) with (pad_file e) in Hp. rewrite (proj2 (Z.leb_le _ _) Hl), Hp, u32_small in Hcond by lia.
    rewrite (proj2 (Z.ltb_lt _ _) Hbig) in Hcond. done.
Qed.

(** ** The whole loop *)

Lemma optimize_loop_spec fuel st0 D R off c st :
  progress st0 D R off st -> laid_out D -> rounds_left R off < Z.of_nat fuel ->
  exists D' off' st', optimize_loop limit alignment tail fuel (zlen D) off c st = Some (st', off') /\
    progress st0 D' [] off' st' /\ laid_out D'.
Proof using Hal Hlim.
  revert D R off c st. induction fuel as [|fuel IH]; intros D R off c st Hpr Hlaid Hfuel.
  { pose proof (rounds_left_nonneg R off). lia. }
  cbn [optimize_loop]. rewrite (pr_files _ _ _ _ _ Hpr). destruct R as [|e R].
  - rewrite app_nil_r, Z.leb_refl. by exists D, off, st.
  - rewrite (proj2 (Z.leb_gt _ _)) by zlia.
    destruct (optimize_step_spec st0 D e R off c st Hpr Hlaid) as (D1 & R1 & off1 & c1 & st1 & E & Hpr1 & Hlaid1 & Hr1).
    rewrite E. cbn [mbind option_bind]. apply (IH D1 R1); [done|done|lia].
Qed.

Lemma progress_start st0 :
  full st0 -> Forall (fun e => 0 <= fe_size e) (m_files st0) ->
  total (m_files st0) + alignment * (2 * zlen (m_files st0)) < 2 ^ 48 -> progress st0 [] (m_files st0) 0 st0.
Proof using Hal.
  intros Hfull Hs Hb. split; try done.
  - exists []. rewrite app_nil_r. split_and!; [done|constructor|done|apply frame_refl].
  - unfold rounds_left. rewrite Z.mod_0_l by lia. simpl. lia.
Qed.
End loop.
