(* ===== verification/FileStorageTheorems.v ===== *)
(** * What the file storage promises

    The properties of [file_storage]: a block is the slices of the files it
    overlaps, [map_file] goes back, and what [optimize] does and does not do.
    First the runs of its operations: every operation keeps the invariant [storage_ok]; [optimize] lays the files
    out anew ([optimize_spec]). *)

From Stdlib Require Import ZArith Lia.
From stdpp Require Import base numbers list.
From S2P Require Import Prelude FileStorage FileOptimize FileStorageSpec FileOptimizeSpec.

#[local] Abbreviation total := (zsum fe_size).

(** ** Optimising *)

Definition alignment_of (alignment : Z) (st : file_storage) : Z := if alignment =? -1 then m_piece_length st else alignment.

(** What [optimize] makes of a storage. *)
Record optimized (limit alignment : Z) (tail : bool) (st st' : file_storage) : Prop := {
  op_ok : storage_ok st';
  op_full : full st';
  op_laid : laid_out limit alignment tail (m_files st');
  op_rows : exists pads, rows st' ≡ₚ rows st ++ pads /\ Forall (pad_row alignment) pads /\ (limit < 0 -> tail = false -> pads = []) /\
    m_num_files st' = m_num_files st + zlen pads;
  op_paths : exists more, m_paths st' = m_paths st ++ more;
  op_name : m_name st' = m_name st /\ m_symlinks st' = m_symlinks st;
  op_pieces : m_piece_length st' = m_piece_length st /\ m_num_pieces st' = m_num_pieces st;
}.

Lemma optimize_spec limit alignment tail st :
  storage_ok st -> full st -> limit < 2 ^ 31 -> let al := alignment_of alignment st in
  0 < al < 2 ^ 31 -> m_total_size st + al * (2 * num_files st) < 2 ^ 48 ->
  exists st', optimize limit alignment tail st = Some st' /\ optimized limit al tail st st'.
Proof.
  intros [Hc Ht Hb] Hfull Hlim al Hal Hbound. unfold optimize. fold (alignment_of alignment st). fold al.
  destruct (contiguous_sizes _ _ Hc) as [_ Hsizes]. unfold num_files in Hbound.
  pose proof (progress_start limit al tail Hal st Hfull Hsizes ltac:(lia)) as Hpr.
  destruct (optimize_loop_spec limit al tail Hal Hlim (2 * length (m_files st) + 1) st [] (m_files st) 0 0 st Hpr) as (D & off & st' & E & Hpr' & Hlaid);
    [constructor|unfold rounds_left; rewrite Z.mod_0_l by lia; simpl; lia|].
  cbn [length] in E. change (Z.of_nat 0) with 0 in E. rewrite E. cbn [mbind option_bind]. eexists. split; [done|].
  pose proof (progress_off _ _ _ Hal _ _ _ _ _ Hpr') as Hoff. destruct Hpr' as [Hf Hpl Htot _ Hfull' (pads & Hrows & Hpads & Hnone & Hfr) _].
  rewrite app_nil_r in Hf. destruct Hfr. split; try done.
  - split; cbn [with_sizes m_files m_total_size]; [by rewrite Hf|by rewrite Hf|lia].
  - cbn [with_sizes m_files]. by rewrite Hf.
  - by exists pads.
Qed.

(** ** Operations *)

Inductive fs_op :=
  | AddFile (name : option (list Z)) (path : list Z) (size flags filehash mtime : Z) (symlink_path : list Z)
  | RenameFile (index : Z) (new_filename : list Z)
  | SetFileBase (index off : Z)
  | SetPieceLength (n : Z)
  | SetNumPieces (n : Z)
  | Optimize (pad_file_limit alignment : Z) (tail_padding : bool).

Definition fs_exec (o : fs_op) (st : file_storage) : option file_storage :=
  match o with
  | AddFile name path size flags filehash mtime symlink_path => add_file_borrow name path size flags filehash mtime symlink_path st
  | RenameFile index new_filename => rename_file index new_filename st
  | SetFileBase index off => set_file_base index off st
  | SetPieceLength n => Some (set_piece_length n st)
  | SetNumPieces n => Some (set_num_pieces n st)
  | Optimize pad_file_limit alignment tail_padding => optimize pad_file_limit alignment tail_padding st
  end.

(** The sizes fit the 48 bits of an entry, indices are those of files, and the
    arrays are complete when files are moved. *)
Definition fs_enabled (o : fs_op) (st : file_storage) : Prop :=
  match o with
  | AddFile _ _ size _ _ _ _ => 0 <= size /\ m_total_size st + size < 2 ^ 48
  | RenameFile index _ | SetFileBase index _ => 0 <= index < num_files st
  | Optimize limit alignment _ =>
      full st /\ limit < 2 ^ 31 /\ 0 < alignment_of alignment st < 2 ^ 31 /\
      m_total_size st + alignment_of alignment st * (2 * num_files st) < 2 ^ 48
  | _ => True
  end.

Fixpoint fs_run (ops : list fs_op) (st : file_storage) : option file_storage :=
  match ops with [] => Some st | o :: ops => st ← fs_exec o st; fs_run ops st end.

Fixpoint fs_allowed (ops : list fs_op) (st : file_storage) : Prop :=
  match ops with
  | [] => True
  | o :: ops => fs_enabled o st /\ forall st', fs_exec o st = Some st' -> fs_allowed ops st'
  end.

(** ** The invariant is kept *)

Lemma length_vec_resize n x l : zlen l <= n -> zlen (vec_resize n x l) = n.
Proof. intros H. unfold vec_resize. rewrite length_app, length_replicate, take_ge by lia. lia. Qed.

Lemma put_last_Some n x l : 0 < n -> exists l', put_last n x l = Some l'.
Proof.
  intros Hn. unfold put_last. destruct (x =? 0); [by eexists|]. unfold zset. rewrite decide_True; [by eexists|].
  destruct (Z.ltb_spec (zlen l) n); [rewrite length_vec_resize by lia|]; lia.
Qed.

Lemma update_path_index_entry e path named st :
  let '(e', st') := update_path_index e path named st in
  fe_offset e' = fe_offset e /\ fe_size e' = fe_size e /\ m_files st' = m_files st /\ m_total_size st' = m_total_size st.
Proof.
  unfold update_path_index. destruct (is_complete path); [done|]. cbv zeta. destruct (_ <=? 0); [by destruct named|].
  destruct (branch_of _ _ _) as [b nr]. destruct (get_or_add_path _ _) as [i paths]. by destruct named.
Qed.

Lemma contiguous_replace off P e e' C :
  fe_offset e' = fe_offset e -> fe_size e' = fe_size e ->
  contiguous off (P ++ e :: C) -> contiguous off (P ++ e' :: C) /\ total (P ++ e' :: C) = total (P ++ e :: C).
Proof.
  intros Ho Hs. rewrite !contiguous_app. cbn [contiguous]. rewrite Ho, Hs, !zsum_app. simpl. rewrite Hs. tauto.
Qed.

Lemma add_file_ok name path size flags filehash mtime symlink_path st :
  storage_ok st -> 0 <= size -> m_total_size st + size < 2 ^ 48 ->
  exists st' e, add_file_borrow name path size flags filehash mtime symlink_path st = Some st' /\
    m_files st' = m_files st ++ [e] /\ fe_size e = size /\ fe_offset e = m_total_size st /\ m_total_size st' = m_total_size st + size.
Proof.
  intros Hok Hs Hb. pose proof (so_files _ Hok) as Hc. apply contiguous_sizes in Hc as [Hc _]. rewrite <- (so_total _ Hok) in Hc.
  unfold add_file_borrow. set (st0 := if negb _ then _ else _).
  assert (m_files st0 = m_files st /\ m_total_size st0 = m_total_size st) as [E1 E2] by (unfold st0; repeat case_match; done).
  pose proof (update_path_index_entry new_entry path (bool_decide (name = None)) st0) as Hu.
  destruct (update_path_index new_entry path (bool_decide (name = None)) st0) as [e st1]. destruct Hu as (_ & _ & E3 & E4).
  cbv zeta. set (linked := negb _ && _).
  destruct (put_last_Some (zlen (m_files st1) + 1) filehash (m_file_hashes st1)) as [hashes ->]; [lia|]. cbn [mbind option_bind].
  destruct linked; cbn [m_mtime with_symlinks];
    (destruct (put_last_Some (zlen (m_files st1) + 1) mtime (m_mtime st1)) as [mtimes ->]; [lia|]);
    cbn [mbind option_bind]; (eexists _, _; split; [done|]; cbn [with_sizes with_arrays with_files with_symlinks m_files m_total_size]);
    rewrite E3, E1; (split; [done|]); cbn; unfold u48; rewrite E4, E2, !Z.mod_small by lia; done.
Qed.

Lemma fs_exec_ok o st : storage_ok st -> fs_enabled o st -> exists st', fs_exec o st = Some st' /\ storage_ok st'.
Proof.
  intros Hok He. destruct o as [name path size flags filehash mtime symlink_path|index n|index off|n|n|limit alignment tail]; cbn [fs_exec].
  - destruct He as [Hs Hb]. destruct (add_file_ok name path size flags filehash mtime symlink_path st Hok Hs Hb) as (st' & e & E & Hf & Hsz & Ho & Ht).
    exists st'. split; [done|]. destruct Hok as [Hc Htot _]. split; [|rewrite Ht, Hf, zsum_app; simpl; lia|lia].
    rewrite Hf. apply contiguous_app. split; [done|]. split_and!; [lia|lia|done].
  - unfold num_files in He. unfold rename_file. destruct (zget_is_Some (m_files st) index He) as [e Hz]. rewrite Hz. cbn [mbind option_bind].
    pose proof (update_path_index_entry e n true st) as Hu. destruct (update_path_index e n true st) as [e' st1].
    destruct Hu as (Ho & Hs & E3 & E4). rewrite E3. destruct (zget_split _ _ _ Hz) as (P & C & Hl & HP).
    rewrite Hl, zset_mid by done. cbn [mbind option_bind]. eexists. split; [done|]. destruct Hok as [Hc Htot Hb]. rewrite Hl in Hc, Htot.
    destruct (contiguous_replace 0 P e e' C Ho Hs Hc) as [Hc' Ht']. split; cbn [with_files m_files m_total_size]; [done|by rewrite E4, Ht'|by rewrite E4].
  - cbn [fs_enabled] in He. unfold num_files in He. unfold set_file_base, zset. rewrite decide_True; [eexists; split; [done|]; by destruct Hok|].
    destruct (Z.leb_spec (zlen (m_file_base st)) index); [rewrite length_vec_resize by lia|]; lia.
  - eexists. split; [done|]. by destruct Hok.
  - eexists. split; [done|]. by destruct Hok.
  - destruct He as (Hfull & Hlim & Hal & Hb). destruct (optimize_spec limit alignment tail st Hok Hfull Hlim Hal Hb) as (st' & E & Hop).
    exists st'. split; [done|]. apply Hop.
Qed.

Lemma fs_run_ok ops st : storage_ok st -> fs_allowed ops st -> exists st', fs_run ops st = Some st' /\ storage_ok st'.
Proof.
  revert st. induction ops as [|o ops IH]; intros st Hok; [by exists st|]. intros [He Hops].
  destruct (fs_exec_ok o st Hok He) as (st1 & E & Hok1). cbn [fs_run]. rewrite E. apply IH; [done|by apply Hops].
Qed.

Lemma fs_allowed_app ops1 ops2 st :
  fs_allowed (ops1 ++ ops2) st -> fs_allowed ops1 st /\ forall st', fs_run ops1 st = Some st' -> fs_allowed ops2 st'.
Proof.
  revert st. induction ops1 as [|o ops1 IH]; intros st; cbn [app fs_allowed fs_run].
  - intros H. split; [done|]. by intros st' [= <-].
  - intros [He Hops]. split; [split; [done|]; intros st' E; by apply IH, Hops|].
    intros st' E. destruct (fs_exec o st) as [st1|]; [|done]. cbn [mbind option_bind] in E. by apply (IH st1 (Hops st1 eq_refl)).
Qed.

Lemma new_storage_ok : storage_ok new_file_storage.
Proof. by split. Qed.

(** ** The pieces of a torrent *)

(** The number of pieces is the one that is needed. *)
Definition pieces_fit (st : file_storage) : Prop :=
  0 < m_piece_length st < 2 ^ 31 /\ 0 < m_num_pieces st /\
  (m_num_pieces st - 1) * m_piece_length st < m_total_size st <= m_num_pieces st * m_piece_length st.

Lemma piece_size_spec st i : pieces_fit st -> 0 <= i < m_num_pieces st ->
  piece_size i st = Z.min (m_piece_length st) (m_total_size st - i * m_piece_length st).
Proof.
  intros (Hp & Hn & Ht) Hi. unfold piece_size. destruct (Z.eqb_spec i (m_num_pieces st - 1)) as [->|Hne].
  - rewrite to_int_small; nia.
  - nia.
Qed.

Lemma seqZ_pieces p n total : 0 <= p -> 0 <= n -> (n - 1) * p <= total <= n * p ->
  concat ((fun i => seqZ (i * p) (Z.min p (total - i * p))) <$> seqZ 0 n) = seqZ 0 total.
Proof.
  intros Hp Hn. revert total. pattern n. apply natlike_ind; [|clear n Hn; intros n Hn IH|done]; intros total Ht.
  - by rewrite !seqZ_nil by lia.
  - replace (Z.succ n) with (n + 1) in * by lia. rewrite seqZ_app by lia. rewrite fmap_app, concat_app.
    assert (concat ((fun i => seqZ (i * p) (Z.min p (total - i * p))) <$> seqZ 0 n) = seqZ 0 (n * p)) as ->.
    { rewrite <- (IH (n * p)) by lia. f_equal. apply fmap_seqZ_ext. intros k Hk. f_equal. nia. }
    transitivity (seqZ 0 (n * p) ++ seqZ (0 + n * p) (total - n * p)); [f_equal|rewrite <- seqZ_app by nia; f_equal; lia].
    change (seqZ (0 + n) 1) with [0 + n]. cbn [fmap list_fmap concat]. rewrite app_nil_r. f_equal; lia.
Qed.

Lemma pieces_choice st ps :
  storage_ok st -> pieces_fit st -> Forall (fun i => 0 <= i < m_num_pieces st) ps ->
  exists rets, Forall2 (fun i ret => map_block i 0 (piece_size i st) st = Some ret) ps rets /\
    Some <$> concat (map slice_bytes (concat rets)) =
      place st <$> concat ((fun i => seqZ (i * m_piece_length st) (Z.min (m_piece_length st) (m_total_size st - i * m_piece_length st))) <$> ps).
Proof.
  intros Hok Hfit Hps. pose proof Hfit as (Hp & Hn & Htot). induction Hps as [|i ps Hi Hps (rets & Hrets & Hbytes)].
  { exists []. by split. }
  destruct (map_block_spec i 0 (piece_size i st) st Hok) as (ret & E & _ & Hret); rewrite ?(piece_size_spec st i Hfit Hi); [nia|nia|].
  exists (ret :: rets). split; [by constructor|]. cbn [concat map fmap list_fmap]. rewrite map_app, concat_app, !fmap_app. f_equal; [|exact Hbytes].
  rewrite Hret. f_equal. unfold block_size. rewrite (piece_size_spec st i Hfit Hi). f_equal; lia.
Qed.

(** ** Strings to try the properties on *)

Definition file_a : list Z := [116; 47; 97].      (* t/a *)
Definition file_b : list Z := [116; 47; 98].
Definition file_c : list Z := [116; 47; 120; 47; 99].   (* t/x/c *)

Definition plain_file (path : list Z) (size mtime : Z) : fs_op := AddFile None path size 0 0 mtime [].

Definition three_files : list fs_op := [plain_file file_a 18 0; plain_file file_b 0 0; plain_file file_c 30 0; SetPieceLength 20; SetNumPieces 3; SetFileBase 2 7].

Ltac run_allowed := repeat (split; [vm_compute; repeat split; congruence|let E := fresh in intros ? E; vm_compute in E; injection E as <-]); exact I.

Lemma three_files_allowed : fs_allowed three_files new_file_storage.
Proof. unfold three_files, plain_file. run_allowed. Qed.

(** C21 (functional): in a storage that was built by any sequence of operations
    whose sizes fit, [map_block] of a range that starts inside the torrent
    returns the slices of the files the range overlaps: each is not empty and
    inside its file, and the bytes of the slices, one after the other, are
    those of the range, up to the end of the torrent.  The slices of all the
    pieces hold every byte of the torrent once. *)
Theorem map_block_bytes ops :
  fs_allowed ops new_file_storage ->
  exists st, fs_run ops new_file_storage = Some st /\
    (forall piece offset size, let t := piece * m_piece_length st + offset in
       0 <= t <= m_total_size st -> 0 <= size < 2 ^ 31 ->
       exists ret, map_block piece offset size st = Some ret /\ Forall (slice_ok st) ret /\
         Some <$> concat (map slice_bytes ret) = place st <$> seqZ t (Z.min size (m_total_size st - t))) /\
    (pieces_fit st ->
       exists rets, Forall2 (fun i ret => map_block i 0 (piece_size i st) st = Some ret) (seqZ 0 (m_num_pieces st)) rets /\
         Some <$> concat (map slice_bytes (concat rets)) = place st <$> seqZ 0 (m_total_size st)).
Proof.
  intros Ha. destruct (fs_run_ok ops _ new_storage_ok Ha) as (st & E & Hok). exists st. split; [done|]. split.
  { intros piece offset size t Ht Hs. by apply map_block_spec. }
  intros Hfit. pose proof Hfit as (Hp & Hn & Htot).
  destruct (pieces_choice st (seqZ 0 (m_num_pieces st)) Hok Hfit) as (rets & Hrets & Hbytes);
    [apply Forall_forall; intros i [? ?]%elem_of_seqZ; lia|].
  exists rets. split; [done|]. rewrite Hbytes. f_equal. apply seqZ_pieces; lia.
Qed.

Lemma map_block_bytes_witness :
  exists st, fs_run three_files new_file_storage = Some st /\
    map_block 0 15 10 st = Some [Slice 0 15 3; Slice 2 7 7] /\
    Some <$> concat (map slice_bytes [Slice 0 15 3; Slice 2 7 7]) = place st <$> seqZ 15 10.
Proof.
  destruct (map_block_bytes three_files three_files_allowed) as (st & E & Hb & _).
  vm_compute in E. injection E as <-. eexists. split; [vm_compute; reflexivity|].
  destruct (Hb 0 15 10) as (ret & Hret & _ & Hbytes); [vm_compute; split; congruence|vm_compute; split; congruence|].
  split; [vm_compute; reflexivity|]. vm_compute in Hret. injection Hret as <-. exact Hbytes.
Defined.

(** [map_file] and [map_block] are inverse.  In a storage that
    was built by any sequence of operations, and whose pieces can be counted in
    an [int], the request of a range inside a file names the bytes of the
    torrent the range has, and [map_block] of the request is one slice, the
    range itself.  A range past the end of the torrent, or in a file there is
    not, is the empty request after the last piece. *)
Theorem map_file_map_block ops :
  fs_allowed ops new_file_storage ->
  exists st, fs_run ops new_file_storage = Some st /\
    (0 < m_piece_length st < 2 ^ 31 -> m_total_size st < 2 ^ 31 * m_piece_length st ->
     forall file e b off size,
       zget (m_files st) file = Some e -> file_base file st = Some b -> 0 <= off -> 0 < size < 2 ^ 31 -> off + size <= fe_size e ->
       exists r, map_file file off size st = Some r /\
         pr_piece r * m_piece_length st + pr_start r = fe_offset e + off /\ 0 <= pr_start r < m_piece_length st /\ pr_length r = size /\
         map_block (pr_piece r) (pr_start r) (pr_length r) st = Some [Slice file (off + b) size]) /\
    (forall file off size, ~ (0 <= file < num_files st) -> map_file file off size st = Some (PeerRequest (m_num_pieces st) 0 0)) /\
    (forall file e off size, zget (m_files st) file = Some e -> m_total_size st <= fe_offset e + off ->
       map_file file off size st = Some (PeerRequest (m_num_pieces st) 0 0)).
Proof.
  intros Ha. destruct (fs_run_ok ops _ new_storage_ok Ha) as (st & E & Hok). exists st. split; [done|]. split; [|split].
  - intros Hp Htot file e b off size He Hb Hoff Hs Hin. destruct (zget_split _ _ _ He) as (P & C & Hl & <-).
    destruct (map_file_block P e C off size st b Hok Hp Htot Hl Hb Hoff Hs Hin) as (r & E1 & E2). exists r. split; [done|].
    destruct (map_file_spec (zlen P) off size st e Hok Hp Htot He Hoff) as (r' & E1' & Hr); [lia|]. rewrite E1 in E1'. injection E1' as <-.
    pose proof (so_files _ Hok) as Hc. apply contiguous_offsets in Hc. rewrite Forall_forall in Hc.
    specialize (Hc e (zget_elem _ _ _ He)). rewrite <- (so_total _ Hok) in Hc.
    rewrite (proj2 (Z.ltb_lt _ _)) in Hr by lia. destruct Hr as (H1 & H2 & H3). split_and!; [lia|lia|lia| |done].
    rewrite H3. unfold block_size. lia.
  - intros file off size Hn. unfold map_file. destruct ((file <? 0) || (num_files st <=? file)) eqn:E1; [done|].
    apply orb_false_iff in E1 as [?%Z.ltb_ge ?%Z.leb_gt]. exfalso. apply Hn. lia.
  - intros file e off size He Hle. unfold map_file, num_files. pose proof (zget_Some_bound _ _ _ He).
    rewrite (proj2 (Z.ltb_ge _ _)), (proj2 (Z.leb_gt _ _)) by lia. cbn [orb]. rewrite He. cbn [mbind option_bind].
    by rewrite (proj2 (Z.leb_le _ _)) by lia.
Qed.

Lemma map_file_map_block_witness :
  exists st, fs_run three_files new_file_storage = Some st /\
    map_file 2 5 9 st = Some (PeerRequest 1 3 9) /\ map_block 1 3 9 st = Some [Slice 2 12 9].
Proof.
  destruct (map_file_map_block three_files three_files_allowed) as (st & E & H & _). vm_compute in E. injection E as <-.
  eexists. split; [vm_compute; reflexivity|].
  destruct (H ltac:(vm_compute; split; congruence) ltac:(vm_compute; congruence) 2 (FileEntry 18 32767 false 30 false false false false (OwnedName [99]) 1) 7 5 9)
    as (r & E & _ & _ & _ & Hb); [vm_compute; reflexivity|vm_compute; reflexivity|vm_compute; congruence|vm_compute; split; congruence|vm_compute; congruence|].
  split; [vm_compute; reflexivity|]. vm_compute in E. injection E as <-. exact Hb.
Defined.

(** C22 (termination): [optimize] ends, and keeps the files: in a storage that was
    built by any sequence of operations, whose arrays of times, hashes and
    bases are empty or complete, the files afterwards are those before, each
    with its name, path, attributes, time, hash and base, in some order, and pad
    files smaller than the alignment, none without a limit or tail padding; they
    follow each other without gaps.  When the limit is zero or no less than the
    alignment, every file that is larger than it starts aligned, and with tail
    padding ends aligned or with a pad file that does. *)
Theorem optimize_lays_out ops limit alignment tail :
  fs_allowed (ops ++ [Optimize limit alignment tail]) new_file_storage ->
  exists st st', fs_run ops new_file_storage = Some st /\ optimize limit alignment tail st = Some st' /\
    storage_ok st' /\ laid_out limit (alignment_of alignment st) tail (m_files st') /\
    (exists pads more, rows st' ≡ₚ rows st ++ pads /\ Forall (pad_row (alignment_of alignment st)) pads /\
       (limit < 0 -> tail = false -> pads = []) /\ m_num_files st' = m_num_files st + zlen pads /\ m_paths st' = m_paths st ++ more) /\
    m_piece_length st' = m_piece_length st /\ m_num_pieces st' = m_num_pieces st /\ m_name st' = m_name st /\ m_symlinks st' = m_symlinks st.
Proof.
  intros Ha. apply fs_allowed_app in Ha as [Ha Hlast]. destruct (fs_run_ok ops _ new_storage_ok Ha) as (st & E & Hok).
  destruct (Hlast st E) as [(Hfull & Hlim & Hal & Hb) _]. destruct (optimize_spec limit alignment tail st Hok Hfull Hlim Hal Hb) as (st' & E' & Hop).
  exists st, st'. destruct Hop as [H1 _ H2 (pads & H3 & H4 & H5 & H6) [more H7] [H8 H9] [H10 H11]].
  split_and!; try done. by exists pads, more.
Qed.

Definition padded : list fs_op := [plain_file file_a 18 3; plain_file file_b 40 4; plain_file file_c 30 5; SetPieceLength 16].

Lemma optimize_lays_out_witness :
  exists st st', fs_run padded new_file_storage = Some st /\ optimize 16 (-1) false st = Some st' /\
    map fe_size (m_files st') = [40; 8; 30; 2; 18] /\ m_mtime st' = [4; 0; 5; 0; 3] /\ laid_out 16 16 false (m_files st').
Proof.
  destruct (optimize_lays_out padded 16 (-1) false) as (st & st' & E & E' & _ & Hlaid & _).
  - unfold padded, plain_file. cbn [app]. repeat (split; [first [vm_compute; repeat split; congruence|
      vm_compute; split; [split; [right; reflexivity|split; left; reflexivity]|repeat split; congruence]]|
      let E := fresh in intros ? E; vm_compute in E; injection E as <-]); exact I.
  - vm_compute in E. injection E as <-. vm_compute in E'. injection E' as <-. eexists _, _. split; [vm_compute; reflexivity|].
    split; [vm_compute; reflexivity|]. split; [reflexivity|]. split; [reflexivity|]. exact Hlaid.
Defined.

(** Two faults of [optimize].  [reorder_file] swaps past the end of
    [m_mtime] when only the first of two files that change places has a time:
    it resizes the array when its size is less than the index, not when it is
    equal.  And a file that is larger than the limit is not aligned when the
    limit is less than the alignment: it is put in the space before another
    file. *)
Theorem optimize_faults :
  (exists st, fs_run [plain_file file_a 1 5; plain_file file_b 2 0; SetPieceLength 16] new_file_storage = Some st /\
     storage_ok st /\ m_mtime st = [5] /\ optimize (-1) (-1) false st = None) /\
  (exists st st' e, fs_run [plain_file file_a 18 0; plain_file file_b 17 0; plain_file file_c 10 0; SetPieceLength 16] new_file_storage = Some st /\
     optimize 4 (-1) false st = Some st' /\ e ∈ m_files st' /\ pad_file e = false /\ fe_size e = 10 /\ fe_offset e = 18 /\ fe_offset e mod 16 = 2).
Proof.
  split.
  - eexists. split; [vm_compute; reflexivity|]. split; [|split; vm_compute; reflexivity]. by split; vm_compute.
  - eexists _, _, _. split; [vm_compute; reflexivity|]. split; [vm_compute; reflexivity|]. split; [right; left|]. by vm_compute.
Qed.
