(* ===== verification/PartFile.v ===== *)
(** * The part file (part_file.cpp, part_file.hpp, and the integers of io.hpp)

    A part file keeps pieces that no wanted file has whole, in slots behind a
    header that says which piece is in which slot.  [disk] is the file system:
    the contents of the files by path.  Reading returns the bytes there are and
    writing extends the file with zeros, as [pread] and [pwrite] do; system
    calls are taken not to fail, but for [rename] where there is no file or no
    directory to move it to.  The mutex is held by each operation until its
    input or output, so operations are steps.  [None] is an access outside an
    array. *)

From Stdlib Require Import ZArith Lia.
From stdpp Require Import base numbers list gmap.
From S2P Require Import Prelude.

#[local] Abbreviation bytes := (list Z).
#[local] Abbreviation path := (list Z).

(** ** Files *)

(** [pwrite]: the file is extended with zeros up to the offset. *)
Definition file_write (off : Z) (bs content : bytes) : bytes :=
  let padded := content ++ replicate (Z.to_nat (off - zlen content)) 0 in
  take (Z.to_nat off) padded ++ bs ++ drop (Z.to_nat (off + zlen bs)) padded.

(** [pread] *)
Definition file_read (off n : Z) (content : bytes) : bytes := take (Z.to_nat n) (drop (Z.to_nat off) content).

(** [combine_path] of file.cpp *)
Definition combine_path (lhs rhs : path) : path :=
  if bool_decide (lhs = []) || bool_decide (lhs = [46]) then rhs
  else if bool_decide (rhs = []) || bool_decide (rhs = [46]) then lhs
  else lhs ++ (if List.last lhs 0 =? 47 then [] else [47]) ++ rhs.

(** ** Integers in the header, the first byte the highest *)

Definition write_uint32 (x : Z) : bytes :=
  let v := u32 x in [v / 2 ^ 24 mod 256; v / 2 ^ 16 mod 256; v / 2 ^ 8 mod 256; v mod 256].

Definition read_uint32 (l : bytes) : option (Z * bytes) :=
  match l with a :: b :: c :: d :: l => Some (((a * 256 + b) * 256 + c) * 256 + d, l) | _ => None end.

(** ** The state *)

Record part_file := PartFile {
  m_path : path;
  m_name : path;
  m_free_slots : list Z;
  m_num_allocated : Z;
  m_max_pieces : Z;
  m_piece_size : Z;
  m_header_size : Z;
  m_dirty_metadata : bool;
  m_piece_map : gmap Z Z;
  disk : gmap path bytes;
}.

Definition round_up (n : Z) : Z := Z.land (n + 1023) (Z.lnot 1023).

Definition with_slots (free : list Z) (allocated : Z) (map : gmap Z Z) (st : part_file) : part_file :=
  PartFile (m_path st) (m_name st) free allocated (m_max_pieces st) (m_piece_size st) (m_header_size st) true map (disk st).
Definition with_disk (d : gmap path bytes) (st : part_file) : part_file :=
  PartFile (m_path st) (m_name st) (m_free_slots st) (m_num_allocated st) (m_max_pieces st) (m_piece_size st) (m_header_size st)
    (m_dirty_metadata st) (m_piece_map st) d.
Definition with_path (p : path) (st : part_file) : part_file :=
  PartFile p (m_name st) (m_free_slots st) (m_num_allocated st) (m_max_pieces st) (m_piece_size st) (m_header_size st)
    (m_dirty_metadata st) (m_piece_map st) (disk st).

Definition file_path (st : part_file) : path := combine_path (m_path st) (m_name st).

(** The contents of the file; opening it for writing creates it. *)
Definition content (st : part_file) : bytes := default [] (disk st !! file_path st).
Definition set_content (c : bytes) (st : part_file) : part_file := with_disk (<[file_path st := c]> (disk st)) st.

(** ** Opening a part file *)

(** The loop over the slots of the header. *)
Fixpoint read_slots (n : nat) (i num_pieces : Z) (ptr : bytes) (allocated : Z) (free_slots : list bool) (map : gmap Z Z)
  : option (Z * list bool * gmap Z Z) :=
  match n with
  | O => Some (allocated, free_slots, map)
  | S n =>
      '(slot, ptr) ← read_uint32 ptr;
      let slot := to_int slot in
      if u32 slot =? 4294967295 then read_slots n (i + 1) num_pieces ptr allocated free_slots map
      else if num_pieces <=? slot then read_slots n (i + 1) num_pieces ptr allocated free_slots map
      else
        let allocated := if allocated <=? slot then slot + 1 else allocated in
        free_slots ← zset free_slots slot false;
        read_slots n (i + 1) num_pieces ptr allocated free_slots (<[i := slot]> map)
  end.

(** The loop that collects the holes. *)
Fixpoint holes (i : Z) (free_slots : list bool) : list Z :=
  match free_slots with [] => [] | b :: l => (if b then [i] else []) ++ holes (i + 1) l end.

(** [part_file(path, name, num_pieces, piece_size)] *)
Definition open_part_file (p name : path) (num_pieces piece_size : Z) (d : gmap path bytes) : option part_file :=
  let header_size := round_up ((2 + num_pieces) * 4) in
  let empty := PartFile p name [] 0 num_pieces piece_size header_size false ∅ d in
  match d !! combine_path p name with
  | None => Some empty
  | Some c =>
      let header := file_read 0 header_size c in
      if zlen header <? header_size then Some empty
      else
        '(n, ptr) ← read_uint32 header;
        '(sz, ptr) ← read_uint32 ptr;
        if negb (num_pieces =? to_int n) || negb (piece_size =? to_int sz) then Some empty
        else
          '(allocated, free_slots, map) ← read_slots (Z.to_nat num_pieces) 0 num_pieces ptr 0 (replicate (Z.to_nat num_pieces) true) ∅;
          Some (PartFile p name (holes 0 (take (Z.to_nat allocated) free_slots)) allocated num_pieces piece_size header_size false map d)
  end.

(** ** Operations *)

Definition allocate_slot (piece : Z) (st : part_file) : Z * part_file :=
  match m_free_slots st with
  | slot :: free => (slot, with_slots free (m_num_allocated st) (<[piece := slot]> (m_piece_map st)) st)
  | [] =>
      let slot := m_num_allocated st in
      (slot, with_slots [] (slot + 1) (<[piece := slot]> (m_piece_map st)) st)
  end.

Definition slot_offset (slot : Z) (st : part_file) : Z := m_header_size st + slot * m_piece_size st.

Definition writev (bs : bytes) (piece offset : Z) (st : part_file) : Z * part_file :=
  let '(slot, st) := match m_piece_map st !! piece with Some slot => (slot, st) | None => allocate_slot piece st end in
  (zlen bs, set_content (file_write (slot_offset slot st + offset) bs (content st)) st).

(** The bytes read, or the error [no_such_file_or_directory]. *)
Definition readv (n piece offset : Z) (st : part_file) : option bytes * part_file :=
  match m_piece_map st !! piece with
  | None => (None, st)
  | Some slot => (Some (file_read (slot_offset slot st + offset) n (content st)), set_content (content st) st)
  end.

Definition free_piece (piece : Z) (st : part_file) : part_file :=
  match m_piece_map st !! piece with
  | None => st
  | Some slot => with_slots (m_free_slots st ++ [slot]) (m_num_allocated st) (delete piece (m_piece_map st)) st
  end.

(** The header [flush_metadata_impl] writes. *)
Definition header_slots (st : part_file) : bytes :=
  concat (map (fun piece => write_uint32 (default (-1) (m_piece_map st !! piece))) (seqZ 0 (m_max_pieces st))).

Definition header (st : part_file) : bytes :=
  let h := write_uint32 (m_max_pieces st) ++ write_uint32 (m_piece_size st) ++ header_slots st in
  h ++ replicate (Z.to_nat (m_header_size st - zlen h)) 0.

Definition flush_metadata (st : part_file) : part_file :=
  if negb (m_dirty_metadata st) then st
  else if bool_decide (m_piece_map st = ∅) then with_disk (delete (file_path st) (disk st)) st
  else set_content (file_write 0 (header st) (content st)) st.

(** [~part_file()]: what is left on disk. *)
Definition close_part_file (st : part_file) : gmap path bytes := disk (flush_metadata st).

(** [rename]: it fails with [no_such_file_or_directory] when the file or the
    directory of its new path is missing. *)
Definition rename_path (old new : path) (is_dir : bool) (d : gmap path bytes) : option (gmap path bytes) :=
  match d !! old with Some c => if is_dir then Some (<[new := c]> (delete old d)) else None | None => None end.

(** [is_dir]: whether there is a directory [p].  The error of [rename] is
    cleared and [m_path] set all the same. *)
Definition move_partfile (p : path) (is_dir : bool) (st : part_file) : part_file :=
  let st := flush_metadata st in
  let st :=
    if bool_decide (m_piece_map st = ∅) then st
    else
      match rename_path (file_path st) (combine_path p (m_name st)) is_dir (disk st) with
      | Some d => with_disk d st
      | None => st
      end in
  with_path p st.

(** The loop of [export_file]: [dest] is the file that is written.  It ends
    when nothing can be read. *)
Fixpoint export_pieces (n : nat) (piece piece_offset file_offset size : Z) (dest : bytes) (st : part_file) : bytes * part_file :=
  match n with
  | O => (dest, st)
  | S n =>
      let block_to_copy := to_int (Z.min (m_piece_size st - piece_offset) size) in
      match m_piece_map st !! piece with
      | None => export_pieces n (piece + 1) 0 (file_offset + block_to_copy) (size - block_to_copy) dest st
      | Some slot =>
          let bs := file_read (slot_offset slot st + piece_offset) block_to_copy (content st) in
          if zlen bs =? 0 then (dest, st)
          else
            let dest := file_write file_offset bs dest in
            let st := if block_to_copy =? m_piece_size st then free_piece piece st else st in
            export_pieces n (piece + 1) 0 (file_offset + block_to_copy) (size - block_to_copy) dest st
      end
  end.

Definition export_file (offset size : Z) (dest : bytes) (st : part_file) : bytes * part_file :=
  let piece := to_int (Z.quot offset (m_piece_size st)) in
  let end_ := to_int (Z.quot (offset + size + m_piece_size st - 1) (m_piece_size st)) in
  export_pieces (Z.to_nat (end_ - piece)) piece (offset - piece * m_piece_size st) 0 size dest st.
