(* ===== verification/PartFileSpec.v ===== *)
(** * The bytes of a part file

    What writing and reading a file does to its bytes, and that the header is
    read back as the map of slots it was written from ([open_header]). *)

From Stdlib Require Import ZArith Lia.
From stdpp Require Import base numbers gmap list.
From S2P Require Import Prelude PartFile.

(** ** Files *)

Lemma zget_take {A} n (l : list A) i : i < Z.of_nat n -> zget (take n l) i = zget l i.
Proof. intros Hi. unfold zget. case_decide; [|done]. apply lookup_take_lt. lia. Qed.

Lemma zget_dropped {A} n (l : list A) i : 0 <= i -> zget (drop n l) i = zget l (Z.of_nat n + i).
Proof. intros Hi. unfold zget. rewrite !decide_True by lia. rewrite lookup_drop. f_equal. lia. Qed.

Lemma zget_read off n c k : 0 <= off -> 0 <= k < n -> zget (file_read off n c) k = zget c (off + k).
Proof. intros Ho Hk. unfold file_read. rewrite zget_take by lia. rewrite zget_dropped by lia. f_equal. lia. Qed.

Section write.
Context (off : Z) (bs c : list Z) (Hoff : 0 <= off).

Let padded := c ++ replicate (Z.to_nat (off - zlen c)) 0.

Lemma padded_length : off <= zlen padded /\ zlen c <= zlen padded.
Proof using Hoff. unfold padded. rewrite length_app, length_replicate. lia. Qed.

(** The bytes that were written. *)
Lemma zget_written k : 0 <= k < zlen bs -> zget (file_write off bs c) (off + k) = zget bs k.
Proof using Hoff.
  intros Hk. pose proof padded_length. unfold file_write. fold padded.
  assert (zlen (take (Z.to_nat off) padded) = off) as Hl by (rewrite length_take; lia).
  rewrite zget_app_r, Hl by lia. rewrite zget_app_l by lia. f_equal. lia.
Qed.

(** The bytes that were there, elsewhere. *)
Lemma zget_unwritten i b : ~ (off <= i < off + zlen bs) -> zget c i = Some b -> zget (file_write off bs c) i = Some b.
Proof using Hoff.
  intros Hi Hb. pose proof padded_length. pose proof (zget_Some_bound _ _ _ Hb).
  assert (zget padded i = Some b) as Hp by (unfold padded; by rewrite zget_app_l by lia). unfold file_write. fold padded.
  assert (zlen (take (Z.to_nat off) padded) = off) as Hl by (rewrite length_take; lia).
  destruct (Z.lt_ge_cases i off); [rewrite zget_app_l by lia; by rewrite zget_take by lia|].
  rewrite zget_app_r, Hl by lia. rewrite zget_app_r by lia. rewrite zget_dropped by lia. rewrite <- Hp. f_equal. lia.
Qed.

Lemma length_write : zlen c <= zlen (file_write off bs c) /\ off + zlen bs <= zlen (file_write off bs c).
Proof using Hoff.
  pose proof padded_length. unfold file_write. fold padded. rewrite !length_app, length_take, length_drop. lia.
Qed.
End write.

(** The first bytes are kept by a write behind them. *)
Lemma read_start off bs c n : 0 <= n <= off -> n <= zlen c -> file_read 0 n (file_write off bs c) = file_read 0 n c.
Proof.
  intros Hn Hc. pose proof (length_write off bs c ltac:(lia)) as [Hl _]. apply zlist_eq. intros i Hi.
  destruct (Z.lt_ge_cases i n) as [Hin|Hin].
  - rewrite !zget_read by lia. destruct (zget_is_Some c (0 + i)) as [b Hb]; [lia|]. rewrite Hb. apply zget_unwritten; done || lia.
  - unfold file_read. rewrite !zget_ge; [done|rewrite length_take, length_drop; lia..].
Qed.

Lemma read_written bs c : file_read 0 (zlen bs) (file_write 0 bs c) = bs.
Proof.
  apply zlist_eq. intros i Hi. destruct (Z.lt_ge_cases i (zlen bs)) as [Hin|Hin].
  - rewrite zget_read by lia. by apply zget_written.
  - unfold file_read. rewrite !zget_ge; [done|lia|rewrite length_take, length_drop; lia].
Qed.

(** ** Integers *)

Lemma length_write_uint32 x : zlen (write_uint32 x) = 4.
Proof. done. Qed.

Lemma read_write_uint32 x l : read_uint32 (write_uint32 x ++ l) = Some (u32 x, l).
Proof.
  unfold write_uint32, read_uint32. cbn [app]. do 2 f_equal. set (v := u32 x).
  assert (0 <= v < 2 ^ 32) by (apply Z.mod_pos_bound; lia).
  assert (v / 2 ^ 24 mod 256 = v / 2 ^ 24) as -> by (apply Z.mod_small; split; [apply Z.div_pos; lia|apply Z.div_lt_upper_bound; lia]).
  replace (v / 2 ^ 16) with (v / 2 ^ 8 / 2 ^ 8) by (by rewrite Z.div_div by lia).
  replace (v / 2 ^ 24) with (v / 2 ^ 8 / 2 ^ 8 / 2 ^ 8) by (by rewrite !Z.div_div by lia).
  pose proof (Z.div_mod v 256). pose proof (Z.div_mod (v / 2 ^ 8) 256). pose proof (Z.div_mod (v / 2 ^ 8 / 2 ^ 8) 256).
  change (2 ^ 8) with 256 in *. lia.
Qed.

Lemma to_int_u32 x : - 2 ^ 31 <= x < 2 ^ 31 -> to_int (u32 x) = x.
Proof.
  intros Hx. unfold to_int, u32. rewrite Z.add_mod_idemp_l by lia. rewrite Z.mod_small; lia.
Qed.

Lemma round_up_eq n : round_up n = (n + 1023) / 1024 * 1024.
Proof.
  unfold round_up. change 1023 with (Z.ones 10) at 2. rewrite <- Z.ldiff_land, Z.ldiff_ones_r by lia.
  by rewrite Z.shiftl_mul_pow2, Z.shiftr_div_pow2 by lia.
Qed.

Lemma round_up_spec n : 0 <= n -> n <= round_up n < n + 1024.
Proof. intros Hn. rewrite round_up_eq. zdiv. Qed.

(** ** The slots of the header *)

Section slots.
Context (num : Z) (Hnum : 0 <= num < 2 ^ 31).

(** What the loop over the first [i] slots has found. *)
Record found (i allocated : Z) (free : list bool) (m : gmap Z Z) : Prop := {
  found_length : zlen free = num;
  found_allocated : 0 <= allocated <= num;
  found_key : forall p s, m !! p = Some s -> 0 <= p < i /\ 0 <= s < allocated;
  found_free : forall s b, zget free s = Some b -> (b = false <-> exists p, m !! p = Some s);
}.

Lemma found_skip i allocated free m : found i allocated free m -> found (i + 1) allocated free m.
Proof. intros [Hl Ha Hk Hf]. split; [done..| |done]. intros p s Hp. specialize (Hk p s Hp). lia. Qed.

Lemma found_slot i allocated free m slot free' :
  found i allocated free m -> 0 <= i -> 0 <= slot < num -> zset free slot false = Some free' ->
  found (i + 1) (if allocated <=? slot then slot + 1 else allocated) free' (<[i := slot]> m).
Proof.
  intros [Hl Ha Hk Hf] Hi Hs E. split.
  - by rewrite (zset_length _ _ _ _ E).
  - destruct (Z.leb_spec allocated slot); lia.
  - intros p s [[<- <-]|[Hp Hm]]%lookup_insert_Some; [destruct (Z.leb_spec allocated slot); lia|].
    specialize (Hk p s Hm). destruct (Z.leb_spec allocated slot); lia.
  - intros s b Hb. rewrite (zget_zset _ _ _ _ s E) in Hb. destruct (decide (slot = s)) as [<-|Hne].
    + injection Hb as <-. split; [|done]. intros _. exists i. by rewrite lookup_insert_eq.
    + rewrite (Hf s b Hb). split; intros [p Hp]; exists p.
      * rewrite lookup_insert_ne; [done|]. intros ->. specialize (Hk p s Hp). lia.
      * apply lookup_insert_Some in Hp as [[_ ?]|[_ ?]]; [by subst|done].
Qed.

Lemma read_slots_found n i ptr allocated free m allocated' free' m' :
  found i allocated free m -> 0 <= i -> read_slots n i num ptr allocated free m = Some (allocated', free', m') ->
  found (i + Z.of_nat n) allocated' free' m'.
Proof using Hnum.
  revert i ptr allocated free m. induction n as [|n IH]; intros i ptr allocated free m Hf Hi E; simpl in E.
  { injection E as <- <- <-. by rewrite Z.add_0_r. }
  destruct (read_uint32 ptr) as [[slot rest]|]; [|done]. cbn in E.
  replace (i + Z.of_nat (S n)) with (i + 1 + Z.of_nat n) by lia.
  destruct (_ =? _); [eapply IH; [by apply found_skip|lia|done]|].
  destruct (Z.leb_spec num (to_int slot)); [eapply IH; [by apply found_skip|lia|done]|].
  destruct (zset free _ false) as [free1|] eqn:E1; [|done]. cbn in E.
  assert (0 <= to_int slot) as Hs by (unfold zset in E1; case_decide; [lia|done]).
  eapply IH; [eapply found_slot; done|lia|done].
Qed.

(** The loop reads the slots that were written. *)
Lemma read_slots_written (m : gmap Z Z) n i rest allocated free m0 :
  (forall p s, m !! p = Some s -> 0 <= s < num) -> zlen free = num ->
  exists allocated' free' m',
    read_slots n i num (concat (map (fun piece => write_uint32 (default (-1) (m !! piece))) (seqZ i (Z.of_nat n))) ++ rest) allocated free m0
      = Some (allocated', free', m') /\
    forall p, m' !! p = if decide (i <= p < i + Z.of_nat n) then union (m !! p) (m0 !! p) else m0 !! p.
Proof using Hnum.
  intros Hm. revert i allocated free m0. induction n as [|n IH]; intros i allocated free m0 Hl.
  { exists allocated, free, m0. split; [done|]. intros p. by rewrite decide_False by lia. }
  rewrite seqZ_cons by lia. cbn [map concat read_slots]. rewrite <- app_assoc, read_write_uint32. cbn.
  replace (Z.pred (Z.of_nat (S n))) with (Z.of_nat n) by lia. change (Z.succ i) with (i + 1).
  destruct (m !! i) as [s|] eqn:Es; cbn [default from_option id].
  - pose proof (Hm i s Es) as Hs. rewrite to_int_u32 by lia. rewrite u32_small by lia.
    destruct (Z.eqb_spec s 4294967295); [lia|]. destruct (Z.leb_spec num s); [lia|].
    unfold zset. rewrite decide_True by lia. cbn.
    destruct (IH (i + 1) (if allocated <=? s then s + 1 else allocated) (<[Z.to_nat s:=false]> free) (<[i := s]> m0)) as (a' & f' & m' & -> & Hm').
    { by rewrite length_insert. }
    exists a', f', m'. split; [done|]. intros p. rewrite Hm'. destruct (decide (p = i)) as [->|Hne].
    + rewrite decide_False, decide_True by lia. rewrite lookup_insert_eq, Es. by destruct (m0 !! i).
    + rewrite lookup_insert_ne by done. by repeat case_decide; try lia.
  - change (u32 (to_int (u32 (-1))) =? 4294967295) with true. cbn.
    destruct (IH (i + 1) allocated free m0 Hl) as (a' & f' & m' & -> & Hm'). exists a', f', m'. split; [done|].
    intros p. rewrite Hm'. destruct (decide (p = i)) as [->|Hne]; [|by repeat case_decide; try lia].
    rewrite decide_False, decide_True by lia. rewrite Es. by destruct (m0 !! i).
Qed.
End slots.

(** ** The holes *)

Lemma elem_holes free i s : s ∈ holes i free <-> i <= s /\ zget free (s - i) = Some true.
Proof.
  revert i. induction free as [|b l IH]; intros i; simpl.
  - split; [by intros ?%elem_of_nil|]. unfold zget. intros [_ H]. by case_decide.
  - rewrite elem_of_app, IH. destruct (Z.eq_dec s i) as [->|Hne].
    + rewrite Z.sub_diag, zget_cons_0. destruct b; set_unfold; intuition (congruence || lia).
    + replace (zget (b :: l) (s - i)) with (if decide (s < i) then None else zget l (s - (i + 1))); cycle 1.
      { case_decide; [unfold zget; by rewrite decide_False by lia|]. rewrite <- (zget_cons_S b l) by lia. f_equal. lia. }
      case_decide; destruct b; set_unfold; intuition (congruence || lia).
Qed.

Lemma NoDup_holes free i : NoDup (holes i free).
Proof.
  revert i. induction free as [|b l IH]; intros i; simpl; [constructor|]. apply NoDup_app. split; [destruct b; repeat constructor; set_solver|].
  split; [|done]. intros s Hs [Hi _]%elem_holes. destruct b; set_unfold; intuition lia.
Qed.

(** * The part file against a map of bytes

    The specification of a part file is a map from the pieces it has to the
    bytes of them that were written.  Every operation keeps the invariant
    [part_file_ok] and the relation [holds] to the specification. *)

(** ** The invariant *)

(** What opening the file again would find. *)
Definition reopens (st : part_file) : Prop :=
  exists st', open_part_file (m_path st) (m_name st) (m_max_pieces st) (m_piece_size st) (disk st) = Some st' /\
    m_piece_map st' = m_piece_map st.

Record part_file_ok (st : part_file) : Prop := {
  ok_max : 0 < m_max_pieces st < 2 ^ 28;
  ok_piece_size : 0 < m_piece_size st < 2 ^ 31;
  ok_header : m_header_size st = round_up ((2 + m_max_pieces st) * 4);
  ok_key : forall p s, m_piece_map st !! p = Some s -> 0 <= p < m_max_pieces st /\ 0 <= s < m_num_allocated st;
  ok_inj : forall p q s, m_piece_map st !! p = Some s -> m_piece_map st !! q = Some s -> p = q;
  ok_allocated : 0 <= m_num_allocated st <= m_max_pieces st;
  ok_slots : forall s, 0 <= s < m_num_allocated st <-> s ∈ m_free_slots st \/ exists p, m_piece_map st !! p = Some s;
  ok_nodup : NoDup (m_free_slots st);
  ok_disjoint : forall p s, s ∈ m_free_slots st -> m_piece_map st !! p <> Some s;
  ok_clean : m_dirty_metadata st = false -> reopens st;
}.

(** ** The specification *)

(** The bytes of a piece by their offset. *)
Abbreviation known := (gmap Z (Z -> option Z)).

Definition holds (st : part_file) (A : known) : Prop :=
  forall p, match m_piece_map st !! p, A !! p with
  | Some s, Some f => forall k b, f k = Some b -> 0 <= k < m_piece_size st /\ zget (content st) (slot_offset s st + k) = Some b
  | None, None => True
  | _, _ => False
  end.

Definition overlay (off : Z) (bs : list Z) (f : Z -> option Z) (k : Z) : option Z :=
  if decide (off <= k < off + zlen bs) then zget bs (k - off) else f k.

Lemma holds_Some st A p s : holds st A -> m_piece_map st !! p = Some s ->
  exists f, A !! p = Some f /\ forall k b, f k = Some b -> 0 <= k < m_piece_size st /\ zget (content st) (slot_offset s st + k) = Some b.
Proof. intros H E. specialize (H p). rewrite E in H. destruct (A !! p) as [f|]; [|done]. by exists f. Qed.

Lemma holds_None st A p : holds st A -> (m_piece_map st !! p = None <-> A !! p = None).
Proof. intros H. specialize (H p). by destruct (m_piece_map st !! p), (A !! p). Qed.

(** ** The contents of the file *)

Lemma content_set c st : content (set_content c st) = c.
Proof. unfold content, set_content, file_path. cbn. by rewrite lookup_insert_eq. Qed.

Lemma set_content_same st c : disk st !! file_path st = Some c -> set_content (content st) st = st.
Proof. intros E. unfold set_content, content. rewrite E. cbn. rewrite insert_id by done. by destruct st. Qed.

Lemma slot_offset_bounds st p s : part_file_ok st -> m_piece_map st !! p = Some s ->
  8 <= m_header_size st <= slot_offset s st.
Proof.
  intros Hok E. pose proof (ok_key _ Hok p s E). pose proof (ok_max _ Hok). pose proof (ok_piece_size _ Hok).
  pose proof (round_up_spec ((2 + m_max_pieces st) * 4)). rewrite (ok_header _ Hok). unfold slot_offset. rewrite (ok_header _ Hok). nia.
Qed.

(** Pieces in different slots do not overlap. *)
Lemma slots_apart st p q s t k : part_file_ok st -> m_piece_map st !! p = Some s -> m_piece_map st !! q = Some t -> p <> q ->
  0 <= k < m_piece_size st -> slot_offset s st + k < slot_offset t st \/ slot_offset t st + m_piece_size st <= slot_offset s st + k.
Proof.
  intros Hok Es Et Hne Hk. assert (s <> t) by (intros ->; by pose proof (ok_inj _ Hok _ _ _ Es Et)).
  unfold slot_offset. nia.
Qed.

(** ** The header *)

Lemma length_slots (m : gmap Z Z) l : zlen (concat (map (fun p => write_uint32 (default (-1) (m !! p))) l)) = 4 * zlen l.
Proof. induction l; cbn [map concat]; [done|]. rewrite zlen_app, IHl, zlen_cons, length_write_uint32. lia. Qed.

Lemma length_header st : part_file_ok st -> zlen (header st) = m_header_size st.
Proof.
  intros Hok. pose proof (ok_max _ Hok). pose proof (round_up_spec ((2 + m_max_pieces st) * 4)).
  unfold header, header_slots. rewrite zlen_app, length_replicate, !zlen_app, !length_write_uint32, length_slots, length_seqZ.
  rewrite (ok_header _ Hok). lia.
Qed.

(** Opening a file whose header was written finds the map. *)
Lemma open_header st d c :
  part_file_ok st -> d !! combine_path (m_path st) (m_name st) = Some c -> file_read 0 (m_header_size st) c = header st ->
  exists st', open_part_file (m_path st) (m_name st) (m_max_pieces st) (m_piece_size st) d = Some st' /\ m_piece_map st' = m_piece_map st.
Proof.
  intros Hok E Ehead. pose proof (ok_max _ Hok). pose proof (ok_piece_size _ Hok). unfold open_part_file. rewrite E, <- (ok_header _ Hok), Ehead.
  rewrite (length_header _ Hok), Z.ltb_irrefl. unfold header at 1. rewrite <- !app_assoc, read_write_uint32. cbn [mbind option_bind].
  rewrite read_write_uint32. cbn [mbind option_bind]. rewrite !to_int_u32, !Z.eqb_refl by lia. cbn [negb orb]. unfold header_slots.
  destruct (read_slots_written (m_max_pieces st) ltac:(lia) (m_piece_map st) (Z.to_nat (m_max_pieces st)) 0
    (replicate (Z.to_nat (m_header_size st - zlen (write_uint32 (m_max_pieces st) ++ write_uint32 (m_piece_size st) ++ header_slots st))) 0)
    0 (replicate (Z.to_nat (m_max_pieces st)) true) ∅) as (a & f & m & Er & Hm).
  - intros p s Es. pose proof (ok_key _ Hok p s Es). pose proof (ok_allocated _ Hok). lia.
  - rewrite length_replicate. lia.
  - rewrite Z2Nat.id in Er by lia. unfold header_slots in Er. rewrite Er. cbn. eexists. split; [done|]. cbn. apply map_eq. intros p. rewrite Hm.
    rewrite lookup_empty. case_decide; [by destruct (_ !! p)|]. destruct (m_piece_map st !! p) as [s|] eqn:Es; [|done].
    pose proof (ok_key _ Hok p s Es). lia.
Qed.

(** What opening gives depends on the header. *)
Lemma open_same_header p p' name num size d d' c c' st :
  d !! combine_path p name = Some c -> d' !! combine_path p' name = Some c' ->
  file_read 0 (round_up ((2 + num) * 4)) c' = file_read 0 (round_up ((2 + num) * 4)) c ->
  open_part_file p name num size d = Some st -> exists st', open_part_file p' name num size d' = Some st' /\ m_piece_map st' = m_piece_map st.
Proof.
  intros E E' Eh. unfold open_part_file. rewrite E, E', Eh. set (h := file_read _ _ c). clearbody h.
  destruct (_ <? _); [intros [= <-]; by eexists|]. destruct (read_uint32 h) as [[n ptr]|]; [|done]. cbn.
  destruct (read_uint32 ptr) as [[sz ptr']|]; [|done]. cbn. destruct (_ || _); [intros [= <-]; by eexists|].
  destruct (read_slots _ _ _ _ _ _ _) as [[[a f] m]|]; [|done]. cbn. intros [= <-]. by eexists.
Qed.

Lemma open_absent p name num size d : d !! combine_path p name = None ->
  exists st, open_part_file p name num size d = Some st /\ m_piece_map st = ∅.
Proof. intros E. unfold open_part_file. rewrite E. by eexists. Qed.

Lemma open_same_file p p' name num size d d' st :
  d' !! combine_path p' name = d !! combine_path p name -> open_part_file p name num size d = Some st ->
  exists st', open_part_file p' name num size d' = Some st' /\ m_piece_map st' = m_piece_map st.
Proof.
  intros E Ho. destruct (d !! combine_path p name) as [c|] eqn:Ec; [exact (open_same_header _ _ _ _ _ _ _ _ _ _ Ec E eq_refl Ho)|].
  destruct (open_absent p' name num size d' E) as (st' & E' & Hm). exists st'. split; [done|]. unfold open_part_file in Ho. rewrite Ec in Ho. by injection Ho as <-.
Qed.

Lemma open_mapped p name num size d st :
  open_part_file p name num size d = Some st -> m_piece_map st <> ∅ ->
  exists c, d !! combine_path p name = Some c /\ round_up ((2 + num) * 4) <= zlen c.
Proof.
  unfold open_part_file. destruct (d !! _) as [c|]; [|by intros [= <-]]. intros E Hne. exists c. split; [done|].
  destruct (Z.ltb_spec (zlen (file_read 0 (round_up ((2 + num) * 4)) c)) (round_up ((2 + num) * 4))) as [|Hl]; [injection E as <-; done|].
  unfold file_read in Hl. rewrite length_take, length_drop in Hl. lia.
Qed.

(** A clean part file with pieces has its file, and its header. *)
Lemma clean_file st p s : part_file_ok st -> m_dirty_metadata st = false -> m_piece_map st !! p = Some s ->
  exists c, disk st !! file_path st = Some c /\ m_header_size st <= zlen c.
Proof.
  intros Hok Hd Es. destruct (ok_clean _ Hok Hd) as (st' & E & Hm). rewrite (ok_header _ Hok). eapply open_mapped; [exact E|].
  rewrite Hm. intros Hm0. by rewrite Hm0, lookup_empty in Es.
Qed.
