(* ===== verification/PartFileOps.v ===== *)
(** * The operations of a part file keep the invariant

    Each operation keeps [part_file_ok] and takes a state that [holds] a map
    of bytes to one that holds the map the specification gives. *)

From Stdlib Require Import ZArith Lia.
From stdpp Require Import base numbers gmap list.
From S2P Require Import Prelude PartFile PartFileSpec.

(** ** Slots *)

Lemma ok_room st p : part_file_ok st -> 0 <= p < m_max_pieces st -> m_piece_map st !! p = None -> m_free_slots st = [] ->
  m_num_allocated st < m_max_pieces st.
Proof.
  intros Hok Hp En Ef. pose proof (ok_max _ Hok). pose proof (ok_allocated _ Hok).
  assert (seqZ 0 (m_num_allocated st) ⊆+ (map_to_list (m_piece_map st)).*2) as Hsub.
  { apply NoDup_submseteq; [apply NoDup_seqZ|]. intros s Hs%elem_of_seqZ.
    destruct (proj1 (ok_slots _ Hok s)) as [Hf|[q Hq]]; [lia|by rewrite Ef in Hf; apply elem_of_nil in Hf|].
    apply list_elem_of_fmap. exists (q, s). split; [done|]. by apply elem_of_map_to_list. }
  apply submseteq_length in Hsub. rewrite length_seqZ, length_fmap, length_map_to_list, <- size_dom in Hsub.
  assert (size (dom (m_piece_map st) ∪ {[ p ]}) <= size (list_to_set (C:=gset Z) (seqZ 0 (m_max_pieces st))))%nat as Hsize.
  { apply subseteq_size. intros q [[s Hq]%elem_of_dom|Hq%elem_of_singleton]%elem_of_union; apply elem_of_list_to_set, elem_of_seqZ; [|subst; lia].
    pose proof (ok_key _ Hok q s Hq). lia. }
  rewrite size_union, size_singleton, size_list_to_set, length_seqZ in Hsize; [lia|apply NoDup_seqZ|].
  apply disjoint_singleton_r. by apply not_elem_of_dom.
Qed.

Lemma allocate_slot_spec piece st A s st' :
  part_file_ok st -> holds st A -> 0 <= piece < m_max_pieces st -> m_piece_map st !! piece = None -> allocate_slot piece st = (s, st') ->
  part_file_ok st' /\ holds st' (<[piece := fun _ => None]> A) /\ m_piece_map st' !! piece = Some s /\
  exists free allocated, st' = with_slots free allocated (<[piece := s]> (m_piece_map st)) st.
Proof.
  intros Hok HA Hp En E. pose proof (ok_room st piece Hok Hp En) as Hroom. destruct Hok as [Hmax Hps Hh Hk Hi Ha Hs Hn Hd Hc].
  assert (exists free allocated, st' = with_slots free allocated (<[piece := s]> (m_piece_map st)) st /\
    m_num_allocated st <= allocated <= m_max_pieces st /\ 0 <= s < allocated /\ (forall p, m_piece_map st !! p <> Some s) /\ s ∉ free /\ NoDup free /\
    (forall t, t ∈ free -> t ∈ m_free_slots st) /\ (forall t, 0 <= t < allocated <-> t ∈ free \/ t = s \/ exists p, m_piece_map st !! p = Some t))
    as (free & al & -> & Hal & Hsl & Hnew & Hnf & Hnd & Hsub & Hall).
  { unfold allocate_slot in E. destruct (m_free_slots st) as [|t free] eqn:Ef; injection E as <- <-.
    - exists [], (m_num_allocated st + 1). split; [done|]. specialize (Hroom eq_refl). split; [lia|]. split; [lia|].
      split; [intros p Hp'; pose proof (Hk p _ Hp'); lia|]. split; [apply not_elem_of_nil|]. split; [constructor|]. split; [done|].
      intros t. specialize (Hs t). destruct (Z.eq_dec t (m_num_allocated st)) as [->|Hne]; [split; [by auto|lia]|].
      split; [intros Ht; destruct (proj1 Hs) as [?|?]; [lia|by left|by auto]|].
      intros [Ht|[?|Ht]]; [by apply elem_of_nil in Ht|done|]. assert (0 <= t < m_num_allocated st) by (apply Hs; by right). lia.
    - exists free, (m_num_allocated st). apply NoDup_cons in Hn as [Hnt Hn]. split; [done|]. split; [lia|].
      split; [apply Hs; left; set_solver|]. split; [intros p; apply Hd; set_solver|]. split; [done|]. split; [done|]. split; [set_solver|].
      intros u. rewrite Hs. set_unfold. tauto. }
  split; [|split; [|split; [by apply lookup_insert_eq|by exists free, al]]].
  - split; cbn; try done; try lia.
    + intros p t [[<- <-]|[_ Ht]]%lookup_insert_Some; [lia|]. specialize (Hk p t Ht). lia.
    + intros p q t [[<- <-]|[Hp1 Ht1]]%lookup_insert_Some [[<- E2]|[Hp2 Ht2]]%lookup_insert_Some; try done.
      * by specialize (Hnew q). * subst t. by specialize (Hnew p). * by eapply Hi.
    + intros t. rewrite Hall. split; (intros [?|Ht]; [by left|right]).
      * destruct Ht as [->|[p Ht]]; [exists piece; by apply lookup_insert_eq|]. exists p. rewrite lookup_insert_ne; [done|]. intros ->. congruence.
      * destruct Ht as [p [[_ <-]|[_ Ht]]%lookup_insert_Some]; [by left|right; by exists p].
    + intros p t Ht [[_ <-]|[_ Hm]]%lookup_insert_Some; [done|]. by eapply Hd; [apply Hsub|].
  - intros p. cbn. destruct (decide (piece = p)) as [<-|Hne]; [rewrite !lookup_insert_eq; by intros k b [=]|]. rewrite !lookup_insert_ne by done. apply HA.
Qed.

(** ** Writing the file *)

(** What does not touch the slots keeps the invariant when the header is kept. *)
Lemma ok_content st c p s :
  part_file_ok st -> m_piece_map st !! p = Some s ->
  (m_dirty_metadata st = false -> file_read 0 (m_header_size st) c = file_read 0 (m_header_size st) (content st)) ->
  part_file_ok (set_content c st).
Proof.
  intros Hok Es Hc. split; try apply Hok. intros Hd. cbn in Hd. destruct (clean_file st p s Hok Hd Es) as (c0 & E0 & Hl).
  destruct (ok_clean _ Hok Hd) as (st' & E & Hm). specialize (Hc Hd). unfold content in Hc. rewrite E0, (ok_header _ Hok) in Hc. cbn in Hc.
  destruct (open_same_header (m_path st) (m_path st) (m_name st) (m_max_pieces st) (m_piece_size st) (disk st) (disk (set_content c st)) c0 c st' E0) as (st2 & E2 & Hm2);
    [cbn; by rewrite lookup_insert_eq|done|done|].
  exists st2. split; [exact E2|]. by rewrite Hm2, Hm.
Qed.

Lemma write_slot_spec st A piece s off bs :
  part_file_ok st -> holds st A -> m_piece_map st !! piece = Some s -> 0 <= off -> off + zlen bs <= m_piece_size st ->
  let st' := set_content (file_write (slot_offset s st + off) bs (content st)) st in
  part_file_ok st' /\ holds st' (<[piece := overlay off bs (default (fun _ => None) (A !! piece))]> A).
Proof.
  intros Hok HA Es Hoff Hl st'. pose proof (slot_offset_bounds st piece s Hok Es) as Hb. split.
  - eapply ok_content; [done..|]. intros Hd. destruct (clean_file st piece s Hok Hd Es) as (c & Ec & Hc).
    apply read_start; [lia|]. unfold content. by rewrite Ec.
  - intros p. cbn. destruct (holds_Some st A piece s HA Es) as (f & Ef & Hf). destruct (decide (piece = p)) as [<-|Hne].
    + rewrite lookup_insert_eq, Es, Ef. cbn. unfold overlay. intros k b Hk. change (slot_offset s st') with (slot_offset s st). unfold st'. rewrite content_set.
      case_decide as Hin; [split; [lia|]|].
      * replace (slot_offset s st + k) with (slot_offset s st + off + (k - off)) by lia. rewrite zget_written by lia. done.
      * destruct (Hf k b Hk) as [Hkp Hg]. split; [done|]. apply zget_unwritten; [lia|lia|done].
    + rewrite lookup_insert_ne by done. destruct (m_piece_map st !! p) as [t|] eqn:Et; [|by apply (holds_None st A p HA) in Et as ->].
      destruct (holds_Some st A p t HA Et) as (g & -> & Hg). intros k b Hk. destruct (Hg k b Hk) as [Hkp Hgb]. split; [done|].
      change (slot_offset t st') with (slot_offset t st). unfold st'. rewrite content_set.
      pose proof (slots_apart st p piece t s k Hok Et Es ltac:(done) Hkp). apply zget_unwritten; [lia|lia|done].
Qed.

Lemma writev_spec st A piece off bs :
  part_file_ok st -> holds st A -> 0 <= piece < m_max_pieces st -> 0 <= off -> off + zlen bs <= m_piece_size st ->
  part_file_ok (writev bs piece off st).2 /\ holds (writev bs piece off st).2 (<[piece := overlay off bs (default (fun _ => None) (A !! piece))]> A).
Proof.
  intros Hok HA Hp Hoff Hl. unfold writev. destruct (m_piece_map st !! piece) as [s|] eqn:Es; [by apply write_slot_spec|].
  destruct (allocate_slot piece st) as [s st'] eqn:E. destruct (allocate_slot_spec piece st A s st' Hok HA Hp Es E) as (Hok' & HA' & Es' & free & al & ->).
  destruct (write_slot_spec _ _ piece s off bs Hok' HA' Es' Hoff Hl) as [Hok2 HA2]. split; [done|].
  rewrite insert_insert_eq, lookup_insert_eq in HA2. by rewrite (proj1 (holds_None st A piece HA) Es).
Qed.

(** ** Reading *)

Lemma content_read st : content (set_content (content st) st) = content st.
Proof. apply content_set. Qed.

Lemma readv_spec st A piece off n :
  part_file_ok st -> holds st A -> 0 <= off -> 0 <= n ->
  part_file_ok (readv n piece off st).2 /\ holds (readv n piece off st).2 A /\
  match A !! piece with
  | None => (readv n piece off st).1 = None
  | Some f => exists bs, (readv n piece off st).1 = Some bs /\ zlen bs <= n /\ forall k b, 0 <= k < n -> f (off + k) = Some b -> zget bs k = Some b
  end.
Proof.
  intros Hok HA Hoff Hn. unfold readv. destruct (m_piece_map st !! piece) as [s|] eqn:Es; cbn.
  - split; [eapply ok_content; done|]. split; [intros p; cbn; rewrite content_read; apply HA|].
    destruct (holds_Some st A piece s HA Es) as (f & -> & Hf). eexists. split; [done|]. split; [unfold file_read; rewrite length_take; lia|].
    intros k b Hk Hb. destruct (Hf _ _ Hb) as [_ Hg]. pose proof (slot_offset_bounds st piece s Hok Es).
    rewrite zget_read by lia. by rewrite <- Z.add_assoc.
  - by rewrite (proj1 (holds_None st A piece HA) Es).
Qed.

(** ** Freeing a piece *)

Lemma free_piece_spec st A piece : part_file_ok st -> holds st A ->
  part_file_ok (free_piece piece st) /\ holds (free_piece piece st) (delete piece A).
Proof.
  intros Hok HA. unfold free_piece. destruct (m_piece_map st !! piece) as [s|] eqn:Es; cycle 1.
  { split; [done|]. by rewrite delete_id by (by apply (holds_None st A piece HA)). }
  split; [|intros p; cbn; destruct (decide (piece = p)) as [<-|Hne]; [by rewrite !lookup_delete_eq|rewrite !lookup_delete_ne by done; apply HA]].
  destruct Hok as [Hmax Hps Hh Hk Hi Ha Hs Hn Hd Hc]. split; cbn; try done.
  - intros p t [_ Ht]%lookup_delete_Some. by apply Hk.
  - intros p q t [_ Ht]%lookup_delete_Some [_ Ht']%lookup_delete_Some. by eapply Hi.
  - intros t. rewrite Hs. setoid_rewrite lookup_delete_Some. setoid_rewrite elem_of_app. setoid_rewrite list_elem_of_singleton. split.
    + intros [?|[p Hp]]; [by left; left|]. destruct (decide (p = piece)) as [->|]; [left; right; congruence|right; exists p; done].
    + intros [[?| ->]|[p [_ Hp]]]; [by left|right; by exists piece|right; by exists p].
  - apply NoDup_app. split; [done|]. split; [|apply NoDup_singleton]. intros t Ht ->%list_elem_of_singleton. by eapply Hd.
  - intros p t [Ht| ->%list_elem_of_singleton]%elem_of_app [Hne Hm]%lookup_delete_Some; [by eapply Hd|]. apply Hne. by eapply Hi.
Qed.

(** * Flushing, opening again and moving a part file

    The header that is flushed is enough to open the file again with the same
    pieces. *)

#[local] Arguments header : simpl never.

(** ** Flushing *)

(** What flushing leaves alone. *)
Lemma flush_frame st :
  flush_metadata st = with_disk (disk (flush_metadata st)) st.
Proof. unfold flush_metadata, set_content. destruct st. repeat case_match; done. Qed.

Lemma flush_disk st : part_file_ok st -> reopens (flush_metadata st).
Proof.
  intros Hok. unfold flush_metadata. destruct (m_dirty_metadata st) eqn:Ed; cbn [negb]; [|by apply (ok_clean _ Hok)].
  destruct (bool_decide_reflect (m_piece_map st = ∅)) as [Hm|Hm].
  - unfold reopens, open_part_file, file_path. cbn. rewrite lookup_delete_eq. by eexists.
  - eapply (open_header st _ (file_write 0 (header st) (content st)) Hok); [apply lookup_insert_eq|]. rewrite <- (length_header st Hok). apply read_written.
Qed.

Lemma flush_content st A : part_file_ok st -> holds st A -> holds (flush_metadata st) A.
Proof.
  intros Hok HA. unfold flush_metadata. destruct (m_dirty_metadata st); cbn [negb]; [|done].
  destruct (bool_decide_reflect (m_piece_map st = ∅)) as [Hm|Hm]; intros p; cbn.
  - pose proof (HA p) as Hp. rewrite Hm, lookup_empty in Hp |- *. done.
  - destruct (m_piece_map st !! p) as [s|] eqn:Es; [|by apply (holds_None st A p HA) in Es as ->].
    destruct (holds_Some st A p s HA Es) as (f & -> & Hf). intros k b Hk. destruct (Hf k b Hk) as [Hkp Hg]. split; [done|].
    rewrite content_set. pose proof (slot_offset_bounds st p s Hok Es). apply zget_unwritten; [lia| |done].
    rewrite length_header by done. change (slot_offset s (set_content _ st)) with (slot_offset s st). lia.
Qed.

Lemma flush_spec st A : part_file_ok st -> holds st A ->
  part_file_ok (flush_metadata st) /\ holds (flush_metadata st) A /\ reopens (flush_metadata st).
Proof.
  intros Hok HA. pose proof (flush_disk st Hok). split; [|by auto using flush_content]. rewrite flush_frame in *.
  split; try apply Hok. by intros _.
Qed.

(** ** Opening *)

(** A part file that is opened is well formed unless its header gives two
    pieces the same slot. *)
Lemma open_ok p name num size d st :
  0 < num < 2 ^ 28 -> 0 < size < 2 ^ 31 -> open_part_file p name num size d = Some st ->
  (forall i j s, m_piece_map st !! i = Some s -> m_piece_map st !! j = Some s -> i = j) ->
  part_file_ok st /\ m_path st = p /\ m_name st = name /\ m_max_pieces st = num /\ m_piece_size st = size /\ disk st = d.
Proof.
  intros Hn Hsz E Hinj. pose proof E as E0. unfold open_part_file in E.
  assert (forall st', PartFile p name [] 0 num size (round_up ((2 + num) * 4)) false ∅ d = st' ->
    open_part_file p name num size d = Some st' -> part_file_ok st' /\ m_path st' = p /\ m_name st' = name /\ m_max_pieces st' = num /\ m_piece_size st' = size /\ disk st' = d) as Hempty.
  { intros st' <- Ho. split; [|done]. split; cbn; try done; try lia.
    - intros s. split; [lia|]. intros [Hs|[q Hq]]; [by apply elem_of_nil in Hs|by rewrite lookup_empty in Hq].
    - constructor.
    - intros _. by eexists. }
  destruct (d !! combine_path p name) as [c|]; [|injection E as <-; by apply Hempty].
  destruct (_ <? _); [injection E as <-; by apply Hempty|]. destruct (read_uint32 _) as [[n ptr]|]; [|done]. cbn in E.
  destruct (read_uint32 ptr) as [[sz ptr']|]; [|done]. cbn in E. destruct (_ || _); [injection E as <-; by apply Hempty|].
  destruct (read_slots _ _ _ _ _ _ _) as [[[a f] m]|] eqn:Er; [|done]. cbn in E. injection E as <-.
  apply (read_slots_found num) in Er as [Hl Ha Hk Hf]; [|lia| |lia]; cycle 1.
  { split; [rewrite length_replicate; lia|lia|by intros ? ? ?%lookup_empty_Some|]. intros s b Hb. unfold zget in Hb. case_decide; [|done].
    apply lookup_replicate in Hb as [-> _]. split; [done|]. by intros [? ?%lookup_empty_Some]. }
  rewrite Z.add_0_l, Z2Nat.id in Hk by lia. cbn [m_piece_map m_num_allocated] in *.
  assert (forall s, s ∈ holes 0 (take (Z.to_nat a) f) <-> 0 <= s < a /\ zget f s = Some true) as Hholes.
  { intros s. rewrite elem_holes, Z.sub_0_r. destruct (Z.lt_ge_cases s a) as [Hs|Hs].
    - rewrite zget_take by lia. intuition lia.
    - rewrite zget_ge by (rewrite length_take; lia). intuition (congruence || lia). }
  split; [|done]. split; cbn [m_max_pieces m_piece_size m_header_size m_piece_map m_free_slots m_num_allocated m_dirty_metadata]; try done.
  - intros s. rewrite Hholes. split.
    + intros Hs. destruct (zget_is_Some f s) as [b Hb]; [lia|]. destruct b; [by left|right]. by apply (Hf s false Hb).
    + intros [[? _]|[q Hq]]; [done|]. by apply (Hk q s).
  - apply NoDup_holes.
  - intros q s [_ Hs]%Hholes Hq. enough (true = false) by done. apply (Hf s true Hs). by exists q.
  - intros _. by eexists.
Qed.

(** Closing the file and opening it again. *)
Lemma reopen_spec st A : part_file_ok st -> holds st A ->
  exists st', open_part_file (m_path st) (m_name st) (m_max_pieces st) (m_piece_size st) (close_part_file st) = Some st' /\
    part_file_ok st' /\ holds st' A /\ m_piece_size st' = m_piece_size st.
Proof.
  intros Hok HA. destruct (flush_spec st A Hok HA) as (Hok1 & HA1 & st' & E & Hm). rewrite flush_frame in Hm, E. cbn in Hm, E. exists st'. split; [exact E|].
  destruct (open_ok _ _ _ _ _ _ (ok_max _ Hok) (ok_piece_size _ Hok) E) as (Hok' & Hp & Hname & Hmax & Hsz & Hdisk).
  { rewrite Hm. apply (ok_inj _ Hok). }
  split; [done|]. split; [|done]. intros p. pose proof (HA1 p) as H1. rewrite flush_frame in H1. cbn in H1. rewrite Hm, Hsz.
  unfold content, slot_offset, file_path in *. cbn in H1. by rewrite Hp, Hname, Hdisk, (ok_header _ Hok'), Hmax, Hsz, <- (ok_header _ Hok).
Qed.

(** ** Moving *)

(** Moving to where nothing is (or not moving), to a directory that exists when
    there is a piece to move. *)
Record can_move (q : list Z) (is_dir : bool) (st : part_file) : Prop := {
  cm_place : combine_path q (m_name st) = file_path st \/ disk st !! combine_path q (m_name st) = None;
  cm_dir : m_piece_map st = ∅ \/ is_dir = true;
}.

Lemma flush_can_move q is_dir st : can_move q is_dir st -> can_move q is_dir (flush_metadata st).
Proof.
  intros [Hq Hd]. split; [|by rewrite flush_frame]. destruct Hq as [Hq|Hq]; [left; by rewrite flush_frame|]. destruct (decide (combine_path q (m_name st) = file_path st)) as [Heq|Hne]; [left; by rewrite flush_frame|].
  right. unfold flush_metadata. repeat case_match; cbn; rewrite ?lookup_delete_ne, ?lookup_insert_ne by done; done.
Qed.

Lemma ok_moved st d q : part_file_ok st -> (reopens st -> reopens (with_path q (with_disk d st))) -> reopens st ->
  part_file_ok (with_path q (with_disk d st)).
Proof. intros Hok Hr H. split; try apply Hok. intros _. by apply Hr. Qed.

Lemma move_partfile_spec st A q is_dir : part_file_ok st -> holds st A -> can_move q is_dir st ->
  part_file_ok (move_partfile q is_dir st) /\ holds (move_partfile q is_dir st) A.
Proof.
  intros Hok HA [Hq Hd]%flush_can_move. destruct (flush_spec st A Hok HA) as (Hok1 & HA1 & Hr). unfold move_partfile.
  set (st1 := flush_metadata st) in *. clearbody st1. clear st Hok HA. destruct (bool_decide_reflect (m_piece_map st1 = ∅)) as [Hm|Hm].
  - split; [|intros p; pose proof (HA1 p) as Hp; cbn; rewrite Hm, lookup_empty in Hp |- *; done].
    replace st1 with (with_disk (disk st1) st1) by (by destruct st1). apply ok_moved; [done| |done]. intros (st' & E & Hm').
    unfold reopens. cbn. destruct Hq as [Hq|Hq]; [|rewrite Hm; by apply open_absent].
    rewrite <- Hm'. eapply open_same_file; [|exact E]. by rewrite Hq.
  - assert (exists c, disk st1 !! file_path st1 = Some c) as [c Ec].
    { destruct Hr as (st' & E & Hm'). rewrite <- Hm' in Hm. destruct (open_mapped _ _ _ _ _ _ E Hm) as (c & Ec & _). by exists c. }
    destruct Hd as [Hd| ->]; [done|]. unfold rename_path. rewrite Ec. split.
    + apply ok_moved; [done| |done]. intros (st' & E & Hm'). unfold reopens. cbn. rewrite <- Hm'. eapply open_same_file; [|exact E]. by rewrite lookup_insert_eq.
    + intros p. pose proof (HA1 p) as Hp. cbn. unfold content in *. rewrite Ec in Hp. unfold file_path at 1. cbn. by rewrite lookup_insert_eq.
Qed.

(** * Exporting the pieces of a file

    [export_file] copies what it has of a range of the torrent into a file and
    frees the pieces that are copied whole. *)

(** The bytes of the torrent the map knows, by their offset in it. *)
Definition torrent_byte (size : Z) (A : known) (i : Z) : option Z := A !! (i / size) ≫= fun f => f (i mod size).

(** The pieces that are left: those not whole in the range. *)
Definition inside (size lo hi p : Z) : Prop := lo <= p * size /\ (p + 1) * size <= hi.
#[export] Instance inside_dec size lo hi p : Decision (inside size lo hi p) := ltac:(unfold inside; apply _).

Definition exported (size lo hi : Z) (A : known) : known := filter (fun pf => ~ inside size lo hi pf.1) A.

Lemma exported_lookup size lo hi A p : exported size lo hi A !! p = if decide (inside size lo hi p) then None else A !! p.
Proof.
  unfold exported. destruct (A !! p) as [f|] eqn:E.
  - case_decide; [by apply map_lookup_filter_None_2; right; intros ? ? []|by apply map_lookup_filter_Some_2].
  - by rewrite map_lookup_filter_None_2 by auto; case_decide.
Qed.

(** Every piece of the range the file has has the byte the export starts at. *)
Definition export_ready (size lo hi : Z) (A : known) : Prop :=
  forall p f, A !! p = Some f -> lo < (p + 1) * size -> Z.max lo (p * size) < hi -> exists b, torrent_byte size A (Z.max lo (p * size)) = Some b.

Lemma torrent_byte_piece size A p k : 0 <= k < size -> torrent_byte size A (p * size + k) = A !! p ≫= fun f => f k.
Proof.
  intros Hk. unfold torrent_byte. rewrite Z.add_comm, Z.div_add, Z.mod_add, Z.div_small, Z.mod_small by lia. done.
Qed.

(** What is left after the piece [lo] is in. *)
Definition after_piece (size lo hi p : Z) (A : known) : known := if bool_decide (inside size lo hi p) then delete p A else A.

(** One block of the loop: what it leaves to do. *)
Lemma exported_step size lo hi mid p A :
  0 < size -> p * size <= lo < (p + 1) * size -> mid = Z.min hi ((p + 1) * size) -> lo < hi ->
  exported size mid hi (after_piece size lo hi p A) = exported size lo hi A.
Proof.
  intros Hs Hlo -> Hhi. unfold after_piece. apply map_eq. intros q. rewrite !exported_lookup.
  assert (q <> p -> (inside size (Z.min hi ((p + 1) * size)) hi q <-> inside size lo hi q)) as Hne.
  { intros Hq. unfold inside. destruct (Z.lt_ge_cases q p); nia. }
  destruct (decide (q = p)) as [->|Hq].
  - rewrite decide_False by (unfold inside; nia). case_bool_decide; [by rewrite lookup_delete_eq, decide_True|by rewrite decide_False].
  - specialize (Hne Hq). do 2 (case_decide; [|try tauto]); try tauto; case_bool_decide; by rewrite ?lookup_delete_ne by done.
Qed.

Lemma exported_empty size lo A : 0 < size -> exported size lo lo A = A.
Proof. intros Hs. apply map_eq. intros p. rewrite exported_lookup, decide_False; [done|]. unfold inside. nia. Qed.

(** ** The loop *)

(** What a block of a piece the file has writes to [dest]. *)
Lemma export_block st A piece s lo hi fo dest :
  part_file_ok st -> holds st A -> m_piece_map st !! piece = Some s ->
  piece * m_piece_size st <= lo < (piece + 1) * m_piece_size st -> lo < hi -> export_ready (m_piece_size st) lo hi A -> 0 <= fo ->
  let block := Z.min ((piece + 1) * m_piece_size st) hi - lo in
  let bs := file_read (slot_offset s st + (lo - piece * m_piece_size st)) block (content st) in
  zlen bs <> 0 /\ (forall i b, i < fo -> zget dest i = Some b -> zget (file_write fo bs dest) i = Some b) /\
  forall j b, 0 <= j < block -> torrent_byte (m_piece_size st) A (lo + j) = Some b -> zget (file_write fo bs dest) (fo + j) = Some b.
Proof.
  intros Hok HA Es Hlo Hhi Hready Hfo block bs. pose proof (slot_offset_bounds st piece s Hok Es). destruct (holds_Some st A piece s HA Es) as (f & Ef & Hf).
  assert (forall j b, 0 <= j < block -> torrent_byte (m_piece_size st) A (lo + j) = Some b -> zget bs j = Some b) as Hbs.
  { intros j b Hj Hb. replace (lo + j) with (piece * m_piece_size st + (lo - piece * m_piece_size st + j)) in Hb by lia.
    rewrite torrent_byte_piece, Ef in Hb by (unfold block in Hj; lia). cbn in Hb. destruct (Hf _ _ Hb) as [_ Hg].
    unfold bs. rewrite zget_read by lia. rewrite <- Hg. f_equal. lia. }
  destruct (Hready piece f Ef) as [b0 Hb0]; [lia|lia|]. rewrite Z.max_l in Hb0 by lia.
  split; [|split].
  - pose proof (zget_Some_bound _ _ _ (Hbs 0 b0 ltac:(unfold block; lia) ltac:(by rewrite Z.add_0_r))). lia.
  - intros i b Hi Hb. apply zget_unwritten; [done|lia|done].
  - intros j b Hj Hb. pose proof (Hbs j b Hj Hb) as Hg. pose proof (zget_Some_bound _ _ _ Hg). by rewrite zget_written by lia.
Qed.

Definition copied (size lo hi fo : Z) (A : known) (dest dest' : list Z) : Prop :=
  (forall i b, i < fo -> zget dest i = Some b -> zget dest' i = Some b) /\
  forall j b, 0 <= j < hi - lo -> torrent_byte size A (lo + j) = Some b -> zget dest' (fo + j) = Some b.

Lemma torrent_byte_after size lo hi p A i : 0 < size -> (p + 1) * size <= i -> torrent_byte size (after_piece size lo hi p A) i = torrent_byte size A i.
Proof.
  intros Hs Hi. unfold torrent_byte, after_piece. case_bool_decide; [|done]. rewrite lookup_delete_ne; [done|]. intros ->. zdiv.
Qed.

Lemma ready_after size lo hi p A : 0 < size -> p * size <= lo < (p + 1) * size -> export_ready size lo hi A ->
  export_ready size (Z.min ((p + 1) * size) hi) hi (after_piece size lo hi p A).
Proof.
  intros Hs Hlo Hr q f Eq Hq1 Hq2. assert (A !! q = Some f) as Eq0.
  { revert Eq. unfold after_piece. case_bool_decide; [|done]. by intros [_ ?]%lookup_delete_Some. }
  assert (p < q) by nia. rewrite torrent_byte_after by nia. destruct (Hr q f Eq0) as [b Hb]; [nia|nia|]. exists b. rewrite <- Hb. f_equal. nia.
Qed.

Lemma copied_after size lo hi fo p A dest dest1 dest2 : 0 < size -> p * size <= lo < (p + 1) * size -> lo < hi ->
  let mid := Z.min ((p + 1) * size) hi in
  copied size lo mid fo A dest dest1 -> copied size mid hi (fo + (mid - lo)) (after_piece size lo hi p A) dest1 dest2 ->
  copied size lo hi fo A dest dest2.
Proof.
  intros Hs Hlo Hhi mid [H1 H1'] [H2 H2']. split.
  - intros i b Hi Hb. apply H2; [lia|]. by apply H1.
  - intros j b Hj Hb. destruct (Z.lt_ge_cases j (mid - lo)); [apply H2; [lia|by apply H1'; [lia|]]|].
    replace (fo + j) with (fo + (mid - lo) + (j - (mid - lo))) by lia. apply H2'; [lia|]. rewrite torrent_byte_after by lia.
    rewrite <- Hb. f_equal. lia.
Qed.

Lemma free_after st A size lo hi p (b : bool) :
  part_file_ok st -> holds st A -> bool_decide (inside size lo hi p) = b ->
  part_file_ok (if b then free_piece p st else st) /\ holds (if b then free_piece p st else st) (after_piece size lo hi p A) /\
  m_piece_size (if b then free_piece p st else st) = m_piece_size st.
Proof.
  intros Hok HA <-. unfold after_piece. case_bool_decide; [|done]. destruct (free_piece_spec st A p Hok HA). split; [done|]. split; [done|].
  unfold free_piece. by destruct (_ !! _).
Qed.

Lemma export_pieces_spec n : forall piece lo hi po fo dest st A,
  part_file_ok st -> holds st A -> 0 <= po < m_piece_size st -> 0 <= fo -> (n <> O -> lo = piece * m_piece_size st + po /\ lo < hi) ->
  (Z.of_nat n - 1) * m_piece_size st - po < hi - lo <= Z.of_nat n * m_piece_size st - po -> lo <= hi -> export_ready (m_piece_size st) lo hi A ->
  part_file_ok (export_pieces n piece po fo (hi - lo) dest st).2 /\
  holds (export_pieces n piece po fo (hi - lo) dest st).2 (exported (m_piece_size st) lo hi A) /\
  copied (m_piece_size st) lo hi fo A dest (export_pieces n piece po fo (hi - lo) dest st).1.
Proof.
  induction n as [|n IH]; intros piece lo hi po fo dest st A Hok HA Hpo Hfo Hlo Hn Hle Hready.
  { assert (lo = hi) as <- by lia. rewrite exported_empty by lia. split; [done|]. split; [done|]. split; [done|lia]. }
  destruct Hlo as [Hlo Hhi]; [done|]. set (ps := m_piece_size st) in *. pose proof (ok_piece_size _ Hok) as Hps. fold ps in Hps.
  set (mid := Z.min ((piece + 1) * ps) hi). set (block := to_int (Z.min (ps - po) (hi - lo))).
  assert (block = mid - lo) as Hblock by (unfold block, mid; rewrite to_int_small; lia).
  assert (bool_decide (inside ps lo hi piece) = (block =? ps)) as Hin.
  { unfold inside. case_bool_decide; destruct (Z.eqb_spec block ps); try done; lia. }
  assert (forall dest1, let st1 := if block =? ps then free_piece piece st else st in copied ps lo mid fo A dest dest1 ->
    let r := export_pieces n (piece + 1) 0 (fo + block) (hi - lo - block) dest1 st1 in
    part_file_ok r.2 /\ holds r.2 (exported ps lo hi A) /\ copied ps lo hi fo A dest r.1) as Hrest.
  { intros dest1 st1 Hcopy. destruct (free_after st A ps lo hi piece _ Hok HA Hin) as (Hok1 & HA1 & Hps1). fold st1 in Hok1, HA1, Hps1. fold ps in Hps1.
    replace (hi - lo - block) with (hi - mid) by lia. destruct (IH (piece + 1) mid hi 0 (fo + block) dest1 st1 (after_piece ps lo hi piece A) Hok1 HA1) as (Hok2 & HA2 & Hc2);
      rewrite ?Hps1; [lia|lia|intros Hne; assert (ps <= Z.of_nat n * ps) by nia; lia|split; [|lia]; destruct n; [lia|assert (mid = (piece + 1) * ps) by nia; lia]|lia|apply ready_after; lia || done|].
    rewrite Hps1 in HA2, Hc2. split; [done|]. split; [by rewrite (exported_step ps lo hi mid piece A) in HA2 by lia|].
    apply (copied_after ps lo hi fo piece A dest dest1); [lia..|done|]. fold mid. by rewrite <- Hblock. }
  cbn [export_pieces]. fold ps block. destruct (m_piece_map st !! piece) as [s|] eqn:Es.
  - destruct (export_block st A piece s lo hi fo dest Hok HA Es) as (Hne & Hc1 & Hc2); fold ps; [lia|lia|done|lia|]. fold ps mid in Hne, Hc1, Hc2.
    rewrite <- Hblock in Hne, Hc1, Hc2. replace (lo - piece * ps) with po in Hne, Hc1, Hc2 by lia.
    rewrite (proj2 (Z.eqb_neq _ _) Hne). apply Hrest. split; [done|]. by rewrite <- Hblock.
  - specialize (Hrest dest). assert ((if block =? ps then free_piece piece st else st) = st) as E1 by (unfold free_piece; rewrite Es; by case_match).
    cbn zeta in Hrest. rewrite E1 in Hrest. apply Hrest. split; [done|]. intros j b Hj. replace (lo + j) with (piece * ps + (po + j)) by lia.
    rewrite torrent_byte_piece by lia. by rewrite (proj1 (holds_None st A piece HA) Es).
Qed.

(** [export_file] of a range of the torrent. *)
Lemma export_file_spec st A offset size :
  part_file_ok st -> holds st A -> 0 <= offset -> 0 < size -> offset + size <= m_max_pieces st * m_piece_size st ->
  export_ready (m_piece_size st) offset (offset + size) A ->
  part_file_ok (export_file offset size [] st).2 /\
  holds (export_file offset size [] st).2 (exported (m_piece_size st) offset (offset + size) A) /\
  forall j b, 0 <= j < size -> torrent_byte (m_piece_size st) A (offset + j) = Some b -> zget (export_file offset size [] st).1 j = Some b.
Proof.
  intros Hok HA Ho Hs Hle Hready. pose proof (ok_piece_size _ Hok) as Hps. pose proof (ok_max _ Hok) as Hmax. unfold export_file.
  set (ps := m_piece_size st) in *. rewrite !Z.quot_div_nonneg by lia.
  assert (0 <= offset / ps < 2 ^ 30) as Hp by (split; [apply Z.div_pos; lia|apply Z.div_lt_upper_bound; nia]).
  set (e := (offset + size + ps - 1) / ps). assert (0 <= e < 2 ^ 30) as He by (split; [apply Z.div_pos; lia|apply Z.div_lt_upper_bound; nia]).
  rewrite !to_int_small by lia. pose proof (Z.div_mod offset ps ltac:(lia)). pose proof (Z.mod_pos_bound offset ps ltac:(lia)).
  assert (e * ps <= offset + size + ps - 1 < (e + 1) * ps) as Hee by (unfold e; zdiv).
  destruct (export_pieces_spec (Z.to_nat (e - offset / ps)) (offset / ps) offset (offset + size) (offset - offset / ps * ps) 0 [] st A Hok HA) as (H1 & H2 & _ & H3);
    fold ps; [lia|lia|lia|nia|lia|done|]. replace (offset + size - offset) with size in * by lia. fold ps in H2, H3. by split_and!.
Qed.
