(* ===== verification/PartFileTheorems.v ===== *)
(** * What a part file promises

    Runs of operations of a part file, closing it and opening it again
    included, against a map of the bytes that were written, and what the part
    file does not do. *)

From Stdlib Require Import ZArith Lia.
From stdpp Require Import base numbers list gmap.
From S2P Require Import Prelude PartFile PartFileSpec PartFileOps.

(** ** Runs *)

Inductive part_op :=
  | Write (piece offset : Z) (bs : list Z)
  | Read (piece offset n : Z)
  | Free (piece : Z)
  | Flush
  | Move (path : list Z) (is_dir : bool)
  | Reopen
  | Export (offset size : Z).

Inductive answer := Done | Written (n : Z) | Missing | Bytes (bs : list Z).

Definition part_step (op : part_op) (st : part_file) : option (part_file * answer) :=
  match op with
  | Write piece offset bs => let '(n, st) := writev bs piece offset st in Some (st, Written n)
  | Read piece offset n => let '(r, st) := readv n piece offset st in Some (st, match r with Some bs => Bytes bs | None => Missing end)
  | Free piece => Some (free_piece piece st, Done)
  | Flush => Some (flush_metadata st, Done)
  | Move path is_dir => Some (move_partfile path is_dir st, Done)
  | Reopen =>
      st ← open_part_file (m_path st) (m_name st) (m_max_pieces st) (m_piece_size st) (close_part_file st);
      Some (st, Done)
  | Export offset size => let '(dest, st) := export_file offset size [] st in Some (st, Bytes dest)
  end.

Fixpoint run (ops : list part_op) (st : part_file) : option (part_file * list answer) :=
  match ops with
  | [] => Some (st, [])
  | op :: ops => '(st, a) ← part_step op st; '(st, l) ← run ops st; Some (st, a :: l)
  end.

(** ** What is promised of them *)

Definition apply_op (size : Z) (op : part_op) (A : known) : known :=
  match op with
  | Write piece offset bs => <[piece := overlay offset bs (default (fun _ => None) (A !! piece))]> A
  | Free piece => delete piece A
  | Export offset n => exported size offset (offset + n) A
  | Read _ _ _ | Flush | Move _ _ | Reopen => A
  end.

Definition promise (size : Z) (op : part_op) (A : known) (a : answer) : Prop :=
  match op with
  | Write _ _ bs => a = Written (zlen bs)
  | Read piece offset n =>
      match A !! piece with
      | None => a = Missing
      | Some f => exists bs, a = Bytes bs /\ zlen bs <= n /\ forall k b, 0 <= k < n -> f (offset + k) = Some b -> zget bs k = Some b
      end
  | Export offset n => exists dest, a = Bytes dest /\ forall j b, 0 <= j < n -> torrent_byte size A (offset + j) = Some b -> zget dest j = Some b
  | Free _ | Flush | Move _ _ | Reopen => a = Done
  end.

Fixpoint promises (size : Z) (ops : list part_op) (A : known) (l : list answer) : Prop :=
  match ops, l with
  | [], [] => True
  | op :: ops, a :: l => promise size op A a /\ promises size ops (apply_op size op A) l
  | _, _ => False
  end.

(** What the caller has to see to. *)
Definition allowed (op : part_op) (A : known) (st : part_file) : Prop :=
  match op with
  | Write piece offset bs => 0 <= piece < m_max_pieces st /\ 0 <= offset /\ offset + zlen bs <= m_piece_size st
  | Read piece offset n => 0 <= offset /\ 0 <= n
  | Move path is_dir => can_move path is_dir st
  | Export offset n =>
      0 <= offset /\ 0 < n /\ offset + n <= m_max_pieces st * m_piece_size st /\ export_ready (m_piece_size st) offset (offset + n) A
  | Free _ | Flush | Reopen => True
  end.

Fixpoint run_allowed (size : Z) (ops : list part_op) (A : known) (st : part_file) : Prop :=
  match ops with
  | [] => True
  | op :: ops => allowed op A st /\ forall st' a, part_step op st = Some (st', a) -> run_allowed size ops (apply_op size op A) st'
  end.

(** ** A step keeps its promise *)

Lemma export_piece_size n piece po fo size dest st :
  m_piece_size (export_pieces n piece po fo size dest st).2 = m_piece_size st.
Proof.
  revert piece po fo size dest st. induction n as [|n IH]; intros; cbn [export_pieces]; [done|].
  destruct (m_piece_map st !! piece) as [s|] eqn:Es; [|by rewrite IH]. case_match; [done|]. rewrite IH. case_match; [|done].
  unfold free_piece. by rewrite Es.
Qed.

Lemma writev_piece_size bs piece off st : m_piece_size (writev bs piece off st).2 = m_piece_size st.
Proof. unfold writev, allocate_slot. destruct (m_piece_map st !! piece); [done|]. by destruct (m_free_slots st). Qed.

Lemma readv_piece_size n piece off st : m_piece_size (readv n piece off st).2 = m_piece_size st.
Proof. unfold readv. by destruct (m_piece_map st !! piece). Qed.

Lemma move_piece_size q is_dir st : m_piece_size (move_partfile q is_dir st) = m_piece_size st.
Proof. unfold move_partfile. cbn. rewrite flush_frame. cbn. by repeat case_match. Qed.

Lemma step_spec op A st :
  part_file_ok st -> holds st A -> allowed op A st ->
  exists st' a, part_step op st = Some (st', a) /\ part_file_ok st' /\ holds st' (apply_op (m_piece_size st) op A) /\
    m_piece_size st' = m_piece_size st /\ promise (m_piece_size st) op A a.
Proof.
  intros Hok HA Hop. destruct op as [piece off bs|piece off n|piece| |q is_dir| |off n]; cbn in *.
  - destruct Hop as (Hp & Ho & Hl). destruct (writev_spec st A piece off bs Hok HA Hp Ho Hl) as [Hok' HA'].
    pose proof (writev_piece_size bs piece off st) as Hsz. assert ((writev bs piece off st).1 = zlen bs) as Hret by (unfold writev, allocate_slot; by repeat case_match).
    destruct (writev bs piece off st) as [n st']. cbn in *. subst n. by eexists _, _.
  - destruct Hop as [Ho Hn]. destruct (readv_spec st A piece off n Hok HA Ho Hn) as (Hok' & HA' & Hr). pose proof (readv_piece_size n piece off st) as Hsz.
    destruct (readv n piece off st) as [r st']. cbn in *. eexists _, _. do 4 (split; [done|]).
    destruct (A !! piece) as [f|]; [|by subst r]. destruct Hr as (bs & -> & Hbs). by exists bs.
  - destruct (free_piece_spec st A piece Hok HA). eexists _, _. do 3 (split; [done|]). split; [|done]. unfold free_piece. by destruct (m_piece_map st !! piece).
  - destruct (flush_spec st A Hok HA) as (Hok' & HA' & _). eexists _, _. do 3 (split; [done|]). split; [|done]. by rewrite flush_frame.
  - destruct (move_partfile_spec st A q is_dir Hok HA Hop). eexists _, _. do 3 (split; [done|]). split; [|done]. apply move_piece_size.
  - destruct (reopen_spec st A Hok HA) as (st' & E & Hok' & HA' & Hsz). rewrite E. cbn. by eexists _, _.
  - destruct Hop as (Ho & Hn & Hle & Hready). destruct (export_file_spec st A off n Hok HA Ho Hn Hle Hready) as (Hok' & HA' & Hc).
    assert (m_piece_size (export_file off n [] st).2 = m_piece_size st) as Hsz by apply export_piece_size.
    destruct (export_file off n [] st) as [dest st']. cbn in *. eexists _, _. do 4 (split; [done|]). by exists dest.
Qed.

Lemma run_spec ops : forall A st, part_file_ok st -> holds st A -> run_allowed (m_piece_size st) ops A st ->
  exists st' l, run ops st = Some (st', l) /\ promises (m_piece_size st) ops A l.
Proof.
  induction ops as [|op ops IH]; intros A st Hok HA Hall; [by exists st, []|]. destruct Hall as [Hop Hall].
  destruct (step_spec op A st Hok HA Hop) as (st1 & a & E & Hok1 & HA1 & Hsz & Hpr). specialize (Hall st1 a E).
  rewrite <- Hsz in HA1, Hall at 1. destruct (IH _ st1 Hok1 HA1) as (st2 & l & E2 & Hl); [by rewrite Hsz in *|].
  exists st2, (a :: l). cbn. rewrite E. cbn. rewrite E2. split; [done|]. split; [done|]. by rewrite <- Hsz.
Qed.

(** ** Strings to try the properties on *)

Definition dir : list Z := [100].           (* d *)
Definition other_dir : list Z := [101].     (* e *)
Definition parts : list Z := [46; 112].     (* .p *)

(** Three pieces of four bytes, in a directory with nothing in it. *)
Definition fresh : part_file := default (PartFile [] [] [] 0 0 0 0 false ∅ ∅) (open_part_file dir parts 3 4 ∅).

Definition piece_ops : list part_op :=
  [Write 1 0 [1; 2; 3; 4]; Write 0 2 [9; 9]; Read 0 2 2; Flush; Read 2 0 4; Reopen; Write 2 0 [5; 6]; Move other_dir true; Reopen; Export 4 6; Read 2 0 2; Read 1 0 4].

(** A test of [export_ready]. *)
Definition ready_test (size lo hi : Z) (A : known) : bool :=
  forallb (fun pf => let i := Z.max lo (pf.1 * size) in
    ((pf.1 + 1) * size <=? lo) || (hi <=? i) || match torrent_byte size A i with Some _ => true | None => false end) (map_to_list A).

Lemma ready_test_spec size lo hi A : ready_test size lo hi A = true -> export_ready size lo hi A.
Proof.
  intros H p f E Hlo Hhi. unfold ready_test in H. rewrite forallb_forall in H. specialize (H (p, f)). cbn in H.
  rewrite (proj2 (Z.leb_gt _ _) Hlo), (proj2 (Z.leb_gt _ _) Hhi) in H.
  destruct (torrent_byte _ _ _) as [b|]; [by exists b|]. enough (false = true) by done. apply H. apply list_elem_of_In. by apply elem_of_map_to_list.
Qed.

Ltac op_allowed :=
  lazymatch goal with
  | |- allowed (Move _ _) _ _ => split; right; vm_compute; reflexivity
  | |- allowed (Export _ _) _ _ => split; [lia|split; [lia|split; [vm_compute; congruence|apply ready_test_spec; vm_compute; reflexivity]]]
  | |- _ => vm_compute; repeat split; congruence
  end.
Ltac run_allowed := repeat (split; [op_allowed|let E := fresh in intros ? ? E; vm_compute in E; injection E as <- <-]); exact I.

(** ** The properties *)

(** C23 (refinement):
    Any run of writing, reading, freeing, flushing, moving, exporting and
    closing and opening again, from a part file that is opened with no pieces,
    returns, never leaves an array and keeps every byte that was written to a
    piece that was not freed: reading a piece gives at least the bytes written
    to it, an error if it has none, and exporting a range gives every byte of
    it that is known and frees the pieces that are whole in it.  Moves are to a
    directory that exists, when there is a piece to move, and has no file of
    that name ([can_move]). *)
Theorem part_file_refines p name num size d st ops :
  0 < num < 2 ^ 28 -> 0 < size < 2 ^ 31 -> open_part_file p name num size d = Some st -> m_piece_map st = ∅ -> run_allowed size ops ∅ st ->
  exists st' answers, run ops st = Some (st', answers) /\ promises size ops ∅ answers.
Proof.
  intros Hn Hs E Hm Hall. destruct (open_ok p name num size d st Hn Hs E) as (Hok & _ & _ & _ & Hsz & _).
  { intros i j s. by rewrite Hm. }
  rewrite <- Hsz in *. apply run_spec; [done| |done]. intros q. by rewrite Hm, !lookup_empty.
Qed.

Lemma part_file_refines_witness :
  exists st' answers, run piece_ops fresh = Some (st', answers) /\ promises 4 piece_ops ∅ answers.
Proof.
  apply (part_file_refines dir parts 3 4 ∅); [lia|lia|by vm_compute|by vm_compute|]. run_allowed.
Defined.

(** The operations that leave the second piece in the first slot. *)
Definition stuck_ops : list part_op := [Write 1 0 [1; 2; 3; 4]; Write 0 0 [7; 7]; Export 2 6; Read 1 0 4].

Lemma read_slots_negative n num slot rest allocated free m :
  2 ^ 31 <= slot < 2 ^ 32 - 1 -> 0 <= num ->
  read_slots (S n) 0 num (write_uint32 slot ++ rest) allocated free m = None.
Proof.
  intros Hs Hn. cbn [read_slots]. rewrite read_write_uint32, u32_small by lia. cbn.
  assert (to_int slot = slot - 2 ^ 32) as ->.
  { unfold to_int. rewrite <- (Z.mod_add _ (-1)) by lia. rewrite Z.mod_small; lia. }
  replace (u32 (slot - 2 ^ 32)) with slot by (unfold u32; rewrite <- (Z.mod_add _ 1), Z.mod_small; lia).
  destruct (Z.eqb_spec slot 4294967295); [lia|]. destruct (Z.leb_spec num (slot - 2 ^ 32)); [lia|]. cbn.
  unfold zset. by rewrite decide_False by lia.
Qed.

Lemma open_negative p name num size slot rest d :
  0 < num < 2 ^ 28 -> 0 < size < 2 ^ 31 -> 2 ^ 31 <= slot < 2 ^ 32 - 1 -> (2 + num) * 4 + 1024 <= zlen rest ->
  d !! combine_path p name = Some (write_uint32 num ++ write_uint32 size ++ write_uint32 slot ++ rest) ->
  open_part_file p name num size d = None.
Proof.
  intros Hn Hs Hslot Hl E. unfold open_part_file. rewrite E. pose proof (round_up_spec ((2 + num) * 4) ltac:(lia)) as Hr.
  set (hs := round_up ((2 + num) * 4)) in *. set (h := file_read 0 hs _).
  assert (h = write_uint32 num ++ write_uint32 size ++ write_uint32 slot ++ take (Z.to_nat hs - 12) rest) as ->.
  { unfold h, file_read. change (drop (Z.to_nat 0) ?l) with l. rewrite !take_app_ge by (unfold write_uint32; cbn; lia). unfold write_uint32. cbn [length]. do 4 f_equal. lia. }
  destruct (Z.ltb_spec (zlen (write_uint32 num ++ write_uint32 size ++ write_uint32 slot ++ take (Z.to_nat hs - 12) rest)) hs) as [Hlt|_].
  { rewrite !zlen_app, !length_write_uint32, length_take in Hlt. lia. }
  rewrite read_write_uint32. cbn [mbind option_bind]. rewrite read_write_uint32. cbn [mbind option_bind]. rewrite !to_int_u32, !Z.eqb_refl by lia. cbn [negb orb].
  destruct (Z.to_nat num) as [|n] eqn:En; [lia|]. by rewrite read_slots_negative by lia.
Qed.

Lemma export_stuck st dest offset size s :
  0 <= offset -> 0 < size -> 0 < m_piece_size st < 2 ^ 31 -> offset + size < 2 ^ 31 ->
  m_piece_map st !! (offset / m_piece_size st) = Some s -> zlen (content st) <= slot_offset s st + offset mod m_piece_size st ->
  export_file offset size dest st = (dest, st).
Proof.
  intros Ho Hs Hps Hi E Hc. unfold export_file. set (ps := m_piece_size st) in *. rewrite !Z.quot_div_nonneg by lia.
  pose proof (Z.div_mod offset ps ltac:(lia)). pose proof (Z.mod_pos_bound offset ps ltac:(lia)).
  assert (0 <= offset / ps <= offset) as Hp by (split; [apply Z.div_pos; lia|apply Z.div_le_upper_bound; nia]).
  assert (offset / ps < (offset + size + ps - 1) / ps <= offset + size) as He.
  { split; [|apply Z.div_le_upper_bound; nia]. apply (Z.lt_le_trans _ (offset / ps + 1)); [lia|]. apply Z.div_le_lower_bound; nia. }
  rewrite !to_int_small by lia. destruct (Z.to_nat _) as [|n] eqn:En; [lia|]. cbn [export_pieces]. rewrite E. fold ps.
  unfold file_read. rewrite drop_ge by lia. by rewrite take_nil.
Qed.

(** C24 (error):
    Opening trusts the file: a header of the right sizes with a first slot of
    2^31 or more, the mark of a piece that is not there excepted, makes the
    constructor write in front of an array.  Exporting ends, without an error,
    at the first piece of which nothing can be read where it starts: a piece
    behind it that is whole is not exported.  Flushing never forgets that
    there is something to flush. *)
Theorem part_file_faults :
  (forall p name num size slot rest d,
    0 < num < 2 ^ 28 -> 0 < size < 2 ^ 31 -> 2 ^ 31 <= slot < 2 ^ 32 - 1 -> (2 + num) * 4 + 1024 <= zlen rest ->
    d !! combine_path p name = Some (write_uint32 num ++ write_uint32 size ++ write_uint32 slot ++ rest) ->
    open_part_file p name num size d = None) /\
  (forall st dest offset size s,
    0 <= offset -> 0 < size -> 0 < m_piece_size st < 2 ^ 31 -> offset + size < 2 ^ 31 ->
    m_piece_map st !! (offset / m_piece_size st) = Some s ->
    zlen (content st) <= slot_offset s st + offset mod m_piece_size st ->
    export_file offset size dest st = (dest, st)) /\
  snd <$> run stuck_ops fresh = Some [Written 4; Written 2; Bytes []; Bytes [1; 2; 3; 4]] /\
  (forall st, m_dirty_metadata (flush_metadata st) = m_dirty_metadata st).
Proof.
  split; [|split; [|split; [vm_compute; reflexivity|intros st; by rewrite flush_frame]]].
  - apply open_negative.
  - apply export_stuck.
Qed.
