(* ===== verification/IpFilter.v ===== *)
(** * Address and port filters (ip_filter.hpp, ip_filter.cpp)

    [filter_impl] is a template over the type of addresses: the class [Address]
    has the operations it uses, and its two instances are the byte arrays of
    IPv4 and IPv6 and 16-bit ports.  Its [std::set] of ranges is the list of
    its elements in order, and an iterator is a position in it, [end()] the
    length; an access at [end()], an erasure of a range that is none and the
    bad cast that [to_v4] and [to_v6] throw are [None].  Flags are 32-bit
    unsigned; [access] returns them as [int]. *)

From Stdlib Require Import ZArith Lia.
From stdpp Require Import base numbers list.
From S2P Require Import Prelude.

(** ** Addresses *)

Class Address (A : Type) := {
  addr_lt : A -> A -> bool;
  addr_eqb : A -> A -> bool;
  addr_zero : A;
  plus_one : A -> A;
  minus_one : A -> A;
  max_addr : A;
}.

(** [boost::array<unsigned char, n>] *)
Record bytes_type (n : nat) := Bytes { byte_list : list Z }.
Arguments Bytes {n}.
Arguments byte_list {n}.

(** The order of arrays compares the first bytes that differ. *)
Fixpoint bytes_lt (l k : list Z) : bool :=
  match l, k with
  | x :: l, y :: k => if x <? y then true else if y <? x then false else bytes_lt l k
  | _, _ => false
  end.

(** The loops of [plus_one] and [minus_one], on the bytes from the last to the
    first. *)
Fixpoint carry (l : list Z) : list Z :=
  match l with [] => [] | x :: l => if x <? 255 then x + 1 :: l else 0 :: carry l end.
Fixpoint borrow (l : list Z) : list Z :=
  match l with [] => [] | x :: l => if 0 <? x then x - 1 :: l else 255 :: borrow l end.

#[export] Instance bytes_address (n : nat) : Address (bytes_type n) := {
  addr_lt a b := bytes_lt (byte_list a) (byte_list b);
  addr_eqb a b := bool_decide (byte_list a = byte_list b);
  addr_zero := Bytes (replicate n 0);
  plus_one a := Bytes (rev (carry (rev (byte_list a))));
  minus_one a := Bytes (rev (borrow (rev (byte_list a))));
  max_addr := Bytes (replicate n 255);
}.

(** [boost::uint16_t] *)
Record port_type := Port { port_number : Z }.

#[export] Instance port_address : Address port_type := {
  addr_lt a b := port_number a <? port_number b;
  addr_eqb a b := port_number a =? port_number b;
  addr_zero := Port 0;
  plus_one a := Port ((port_number a + 1) mod 2 ^ 16);
  minus_one a := Port ((port_number a - 1) mod 2 ^ 16);
  max_addr := Port (2 ^ 16 - 1);
}.

(** ** The filter of one type of addresses *)

Record range (A : Type) := Range { start : A; access : Z }.
Arguments Range {A}.
Arguments start {A}.
Arguments access {A}.

Record ip_range (A : Type) := IpRange { r_first : A; r_last : A; r_flags : Z }.
Arguments IpRange {A}.
Arguments r_first {A}.
Arguments r_last {A}.
Arguments r_flags {A}.

Section filter.
Context {A : Type} `{Address A}.
Implicit Types (l : list (range A)).

(** [filter_impl()] *)
Definition new_filter : list (range A) := [Range addr_zero 0].

(** [upper_bound(x)]: the first range that starts above [x]. *)
Fixpoint upper_bound (x : A) l : Z :=
  match l with [] => 0 | r :: l => if addr_lt x (start r) then 0 else 1 + upper_bound x l end.

(** [lower_bound(x)]: the first range that does not start below [x]. *)
Fixpoint lower_bound (x : A) l : Z :=
  match l with [] => 0 | r :: l => if addr_lt (start r) x then 1 + lower_bound x l else 0 end.

(** [insert(hint, r)]: the position of [r], and whether it is new; a range that
    starts at the same address stays. *)
Definition set_insert (r : range A) l : Z * bool * list (range A) :=
  let i := lower_bound (start r) l in
  match zget l i with
  | Some r' => if addr_lt (start r) (start r')
               then (i, true, take (Z.to_nat i) l ++ r :: drop (Z.to_nat i) l) else (i, false, l)
  | None => (i, true, l ++ [r])
  end.

(** [erase(i, j)] *)
Definition set_erase (i j : Z) l : option (list (range A)) :=
  if (0 <=? i) && (i <=? j) && (j <=? zlen l) then Some (take (Z.to_nat i) l ++ drop (Z.to_nat j) l) else None.

(** Where an iterator is after an insertion at [i]. *)
Definition moved_by (i : Z) (new : bool) (j : Z) : Z := if new && (i <=? j) then j + 1 else j.

(** The iterators after the new range, or a range before with the same flags,
    is found at the first address. *)
Definition find_first (first : A) (flags i j first_access : Z) (starts : bool) l : option (Z * Z * Z * list (range A)) :=
  if negb starts && negb (first_access =? flags) then
    let '(i, new, l) := set_insert (Range first flags) l in Some (i, moved_by i new j, first_access, l)
  else if i =? 0 then Some (i, j, first_access, l)
  else
    prior ← zget l (i - 1);
    Some (if access prior =? flags then (i - 1, j, access prior, l) else (i, j, first_access, l)).

(** The ranges after [i] up to [j] go, and the flags of the rule start. *)
Definition clear_rule (first : A) (flags i j first_access : Z) l : option (Z * list (range A)) :=
  '(j, l) ← (if i =? j then Some (j, l) else l' ← set_erase (i + 1) j l; Some (i + 1, l'));
  ri ← zget l i;
  if addr_eqb (start ri) first then l ← zset l i (Range first flags); Some (j, l)
  else if negb (first_access =? flags) then
    let '(i, new, l) := set_insert (Range first flags) l in Some (moved_by i new j, l)
  else Some (j, l).

(** [add_rule] up to line 193: the ranges from [first] on, up to [j], have the
    flags. *)
Definition cover (first last : A) (flags : Z) l : option (Z * Z * list (range A)) :=
  let i := upper_bound first l in
  let j := upper_bound last l in
  let i := if i =? 0 then i else i - 1 in
  ri ← zget l i;
  rj ← zget l (j - 1);
  '(i, j, first_access, l) ← find_first first flags i j (access ri) (addr_eqb (start ri) first) l;
  '(j, l) ← clear_rule first flags i j first_access l;
  Some (j, access rj, l).

(** The rest of [add_rule]: the ranges after [last]. *)
Definition close_rule (last : A) (flags : Z) (j last_access : Z) l : option (list (range A)) :=
  let gap :=
    match zget l j with
    | Some rj => negb (addr_eqb (minus_one (start rj)) last)
    | None => negb (addr_eqb last max_addr)
    end in
  let '(j, l) :=
    if gap && negb (last_access =? flags)
    then let '(j, _, l) := set_insert (Range (plus_one last) last_access) l in (j, l)
    else (j, l) in
  match zget l j with
  | Some rj => if access rj =? flags then set_erase j (j + 1) l else Some l
  | None => Some l
  end.

Definition add_rule (first last : A) (flags : Z) l : option (list (range A)) :=
  '(j, last_access, l) ← cover first last flags l;
  close_rule last flags j last_access l.

(** [access(addr)] *)
Definition access_of (x : A) l : option Z :=
  let i := upper_bound x l in
  let i := if i =? 0 then i else i - 1 in
  r ← zget l i; Some (access r).

Fixpoint export_filter l : list (ip_range A) :=
  match l with
  | [] => []
  | r :: l =>
      IpRange (start r) (match l with [] => max_addr | r' :: _ => minus_one (start r') end) (access r) :: export_filter l
  end.
End filter.

(** ** The filters of the program *)

(** [libtorrent::address] *)
Inductive address := V4 (a : bytes_type 4) | V6 (a : bytes_type 16).

Record ip_filter := IpFilter {
  m_filter4 : list (range (bytes_type 4));
  m_filter6 : list (range (bytes_type 16));
}.

Definition new_ip_filter : ip_filter := IpFilter new_filter new_filter.

Definition ip_add_rule (first last : address) (flags : Z) (f : ip_filter) : option ip_filter :=
  match first, last with
  | V4 a, V4 b => l ← add_rule a b flags (m_filter4 f); Some (IpFilter l (m_filter6 f))
  | V6 a, V6 b => l ← add_rule a b flags (m_filter6 f); Some (IpFilter (m_filter4 f) l)
  | _, _ => None
  end.

Definition ip_access (x : address) (f : ip_filter) : option Z :=
  n ← match x with V4 a => access_of a (m_filter4 f) | V6 a => access_of a (m_filter6 f) end;
  Some (to_int n).

Definition ip_export (f : ip_filter) : list (ip_range (bytes_type 4)) * list (ip_range (bytes_type 16)) :=
  (export_filter (m_filter4 f), export_filter (m_filter6 f)).

(** [port_filter] *)
Definition new_port_filter : list (range port_type) := new_filter.
Definition port_add_rule (first last : port_type) (flags : Z) (f : list (range port_type)) : option (list (range port_type)) :=
  add_rule first last flags f.
Definition port_access (x : port_type) (f : list (range port_type)) : option Z := n ← access_of x f; Some (to_int n).
