(* ===== verification/IpFilterSpec.v ===== *)
(** * Addresses as numbers

    [AddressLaws] is what [filter_impl] relies on: the order of the addresses
    is that of numbers below a bound, the least is zero and the greatest the
    last, and [plus_one] and [minus_one] go around.  Byte arrays satisfy it as
    big-endian numbers, ports as they are. *)

From Stdlib Require Import ZArith Lia.
From stdpp Require Import base numbers list.
From S2P Require Import Prelude IpFilter.

Class AddressLaws (A : Type) `{Address A} := {
  bound : Z;
  value : A -> Z;
  valid : A -> Prop;
  value_range a : valid a -> 0 <= value a < bound;
  value_inj a b : valid a -> valid b -> value a = value b -> a = b;
  lt_value a b : valid a -> valid b -> addr_lt a b = (value a <? value b);
  eqb_value a b : valid a -> valid b -> addr_eqb a b = (value a =? value b);
  zero_valid : valid addr_zero;
  zero_value : value addr_zero = 0;
  max_valid : valid max_addr;
  max_value : value max_addr = bound - 1;
  plus_valid a : valid a -> valid (plus_one a);
  plus_value a : valid a -> value (plus_one a) = (value a + 1) mod bound;
  minus_valid a : valid a -> valid (minus_one a);
  minus_value a : valid a -> value (minus_one a) = (value a - 1) mod bound;
}.

(** ** Ports *)

#[export] Program Instance port_laws : AddressLaws port_type := {
  bound := 2 ^ 16;
  value := port_number;
  valid a := 0 <= port_number a < 2 ^ 16;
}.
Next Obligation. done. Qed.
Next Obligation. intros [a] [b]. simpl. intros. by subst. Qed.
Next Obligation. done. Qed.
Next Obligation. done. Qed.
Next Obligation. done. Qed.
Next Obligation. done. Qed.
Next Obligation. done. Qed.
Next Obligation. done. Qed.
Next Obligation. intros a _. simpl. apply Z.mod_pos_bound. lia. Qed.
Next Obligation. done. Qed.
Next Obligation. intros a _. simpl. apply Z.mod_pos_bound. lia. Qed.
Next Obligation. done. Qed.

(** ** Byte arrays *)

Definition byte (x : Z) : Prop := 0 <= x < 256.

(** The number of bytes from the last one to the first. *)
Fixpoint le (l : list Z) : Z := match l with [] => 0 | x :: l => x + 256 * le l end.

Definition be (l : list Z) : Z := le (rev l).

Lemma le_app l k : le (l ++ k) = le l + 256 ^ zlen l * le k.
Proof.
  induction l as [|x l IH]; cbn [le app length]; [rewrite Z.pow_0_r; lia|]. rewrite IH.
  replace (Z.of_nat (S (length l))) with (zlen l + 1) by lia. rewrite Z.pow_add_r by lia. lia.
Qed.

Lemma le_range l : Forall byte l -> 0 <= le l < 256 ^ zlen l.
Proof.
  induction 1 as [|x l Hx Hl IH]; cbn [le length]; [done|]. unfold byte in Hx.
  replace (Z.of_nat (S (length l))) with (zlen l + 1) by lia. rewrite Z.pow_add_r by lia. lia.
Qed.

Lemma be_cons x l : be (x :: l) = x * 256 ^ zlen l + be l.
Proof. unfold be. simpl. rewrite le_app, length_rev. simpl. lia. Qed.

Lemma be_range l : Forall byte l -> 0 <= be l < 256 ^ zlen l.
Proof. intros H. unfold be. rewrite <- (length_rev l). apply le_range. by apply List.Forall_rev. Qed.

Lemma bytes_lt_be l k : length l = length k -> Forall byte l -> Forall byte k -> bytes_lt l k = (be l <? be k).
Proof.
  revert k. induction l as [|x l IH]; intros [|y k] Hlen Hl Hk; try done. injection Hlen as Hlen.
  apply Forall_cons in Hl as [Hx Hl]. apply Forall_cons in Hk as [Hy Hk]. rewrite !be_cons. cbn [bytes_lt].
  pose proof (be_range l Hl). pose proof (be_range k Hk). rewrite Hlen in *. unfold byte in *.
  destruct (Z.ltb_spec x y); [symmetry; apply Z.ltb_lt; nia|]. destruct (Z.ltb_spec y x); [symmetry; apply Z.ltb_ge; nia|].
  assert (x = y) as -> by lia. rewrite IH by done. destruct (Z.ltb_spec (be l) (be k)), (Z.ltb_spec (y * 256 ^ zlen k + be l) (y * 256 ^ zlen k + be k)); done || lia.
Qed.

Lemma be_inj l k : length l = length k -> Forall byte l -> Forall byte k -> be l = be k -> l = k.
Proof.
  revert k. induction l as [|x l IH]; intros [|y k] Hlen Hl Hk; try done. injection Hlen as Hlen.
  apply Forall_cons in Hl as [Hx Hl]. apply Forall_cons in Hk as [Hy Hk]. rewrite !be_cons. intros E.
  pose proof (be_range l Hl). pose proof (be_range k Hk). rewrite Hlen in *.
  assert (x = y) as -> by nia. f_equal. apply IH; done || lia.
Qed.

Lemma carry_spec l : Forall byte l -> Forall byte (carry l) /\ length (carry l) = length l /\ le (carry l) = (le l + 1) mod 256 ^ zlen l.
Proof.
  induction 1 as [|x l Hx Hl IH]; [done|]. destruct IH as (IH1 & IH2 & IH3). cbn [carry]. pose proof (le_range l Hl) as Hr. unfold byte in *.
  cbn [length le]. replace (Z.of_nat (S (length l))) with (zlen l + 1) by lia. rewrite Z.pow_add_r by lia. change (256 ^ 1) with 256.
  destruct (Z.ltb_spec x 255).
  - split; [constructor; [lia|done]|]. split; [done|]. cbn [le]. rewrite Z.mod_small; lia.
  - assert (x = 255) as -> by lia. split; [constructor; [lia|done]|]. split; [simpl; congruence|]. cbn [le]. rewrite IH3.
    replace (255 + 256 * le l + 1) with (256 * (le l + 1)) by lia. rewrite (Z.mul_comm (256 ^ zlen l)). rewrite Zmult_mod_distr_l. lia.
Qed.

Lemma borrow_spec l : Forall byte l -> Forall byte (borrow l) /\ length (borrow l) = length l /\ le (borrow l) = (le l - 1) mod 256 ^ zlen l.
Proof.
  induction 1 as [|x l Hx Hl IH]; [done|]. destruct IH as (IH1 & IH2 & IH3). cbn [borrow]. pose proof (le_range l Hl) as Hr. unfold byte in *.
  cbn [length le]. replace (Z.of_nat (S (length l))) with (zlen l + 1) by lia. rewrite Z.pow_add_r by lia. change (256 ^ 1) with 256.
  destruct (Z.ltb_spec 0 x).
  - split; [constructor; [lia|done]|]. split; [done|]. cbn [le]. rewrite Z.mod_small; lia.
  - assert (x = 0) as -> by lia. split; [constructor; [lia|done]|]. split; [simpl; congruence|]. cbn [le]. rewrite IH3.
    replace (0 + 256 * le l - 1) with (255 + 256 * (le l - 1)) by lia. rewrite (Z.mul_comm (256 ^ zlen l)).
    pose proof (Z.mod_pos_bound (le l - 1) (256 ^ zlen l)). pose proof (Z.div_mod (le l - 1) (256 ^ zlen l)).
    apply (Z.mod_unique_pos _ _ ((le l - 1) / 256 ^ zlen l)); lia.
Qed.

Lemma le_replicate n x : byte x -> le (replicate n x) * 255 = x * (256 ^ Z.of_nat n - 1).
Proof.
  intros Hx. induction n as [|n IH]; [simpl; lia|]. cbn [replicate le]. rewrite Nat2Z.inj_succ, Z.pow_succ_r by lia. lia.
Qed.

Lemma rev_replicate {A} n (x : A) : rev (replicate n x) = replicate n x.
Proof. rewrite <- reverse_replicate at 2. unfold reverse. by rewrite rev_append_rev, app_nil_r. Qed.

#[export] Program Instance bytes_laws (n : nat) : AddressLaws (bytes_type n) := {
  bound := 256 ^ Z.of_nat n;
  value a := be (byte_list a);
  valid a := length (byte_list a) = n /\ Forall byte (byte_list a);
}.
Next Obligation. intros n [l] [Hl H]; simpl in *; subst n. by apply be_range. Qed.
Next Obligation. intros n [l] [k] [Hl Hbl] [Hk Hbk]. simpl in *. intros E. f_equal. apply be_inj; congruence. Qed.
Next Obligation. intros n [l] [k] [Hl Hbl] [Hk Hbk]. simpl in *. apply bytes_lt_be; congruence. Qed.
Next Obligation.
  intros n [l] [k] [Hl Hbl] [Hk Hbk]. simpl in *. case_bool_decide as E; [by rewrite E, Z.eqb_refl|].
  symmetry. apply Z.eqb_neq. intros Hv. apply E, be_inj; congruence.
Qed.
Next Obligation. intros n. simpl. rewrite length_replicate. split; [done|]. by apply Forall_replicate. Qed.
Next Obligation. intros n. simpl. unfold be. rewrite rev_replicate. pose proof (le_replicate n 0 ltac:(done)). lia. Qed.
Next Obligation. intros n. simpl. rewrite length_replicate. split; [done|]. by apply Forall_replicate. Qed.
Next Obligation. intros n. simpl. unfold be. rewrite rev_replicate. pose proof (le_replicate n 255 ltac:(done)). lia. Qed.
Next Obligation.
  intros n [l] [Hl Hb]; simpl in *; subst n. destruct (carry_spec (rev l)) as (H1 & H2 & _); [by apply List.Forall_rev|].
  rewrite length_rev, H2, length_rev. split; [done|by apply List.Forall_rev].
Qed.
Next Obligation.
  intros n [l] [Hl Hb]; simpl in *; subst n. destruct (carry_spec (rev l)) as (_ & _ & H3); [by apply List.Forall_rev|].
  unfold be. by rewrite rev_involutive, H3, length_rev.
Qed.
Next Obligation.
  intros n [l] [Hl Hb]; simpl in *; subst n. destruct (borrow_spec (rev l)) as (H1 & H2 & _); [by apply List.Forall_rev|].
  rewrite length_rev, H2, length_rev. split; [done|by apply List.Forall_rev].
Qed.
Next Obligation.
  intros n [l] [Hl Hb]; simpl in *; subst n. destruct (borrow_spec (rev l)) as (_ & _ & H3); [by apply List.Forall_rev|].
  unfold be. by rewrite rev_involutive, H3, length_rev.
Qed.

(** * The ranges of an address filter

    What a list of ranges means, [flags_at], and the invariant of the list,
    [wf]: the starts ascend from zero and neighbours have different flags. *)

Section ranges.
Context {A : Type} `{HL : AddressLaws A}.
Implicit Types (l P Q B C : list (range A)) (r s q c : range A).

(** The number a range starts at. *)
Definition pos r : Z := value (start r).
Definition ok r : Prop := valid (start r).

(** The flags a list of ranges gives the address [x]: those of the last range
    that starts at [x] or before it. *)
Definition flags_at (d : Z) l (x : Z) : Z := fold_left (fun d r => if pos r <=? x then access r else d) l d.

Definition follows r s : Prop := pos r < pos s /\ access r <> access s.

Fixpoint chain l : Prop :=
  match l with r :: (s :: _) as l' => follows r s /\ chain l' | _ => True end.

(** The invariant of the filter. *)
Definition wf l : Prop := chain l /\ Forall ok l /\ (exists r, zget l 0 = Some r /\ pos r = 0).

(** ** Flags *)

Lemma flags_at_app d P C x : flags_at d (P ++ C) x = flags_at (flags_at d P x) C x.
Proof. apply fold_left_app. Qed.

Lemma flags_at_above d C x : Forall (fun r => x < pos r) C -> flags_at d C x = d.
Proof.
  unfold flags_at. revert d. induction C as [|r C IH]; [done|]. intros d [Hr HC]%Forall_cons. cbn [fold_left].
  destruct (Z.leb_spec (pos r) x); [lia|]. by apply IH.
Qed.

Lemma flags_at_last d P r x : pos r <= x -> flags_at d (P ++ [r]) x = access r.
Proof. intros Hr. rewrite flags_at_app. unfold flags_at at 1. cbn [fold_left]. destruct (Z.leb_spec (pos r) x); [done|lia]. Qed.

Lemma flags_at_cons d r C x : flags_at d (r :: C) x = flags_at (if pos r <=? x then access r else d) C x.
Proof. done. Qed.

(** ** Chains *)

Lemma chain_tail r C : chain (r :: C) -> chain C.
Proof. destruct C as [|s C]; [done|by intros [_ ?]]. Qed.

Lemma chain_app P r C : chain (P ++ r :: C) <-> chain (P ++ [r]) /\ chain (r :: C).
Proof.
  induction P as [|p P IH]; [simpl; tauto|]. destruct P as [|p' P]; [cbn [app chain]; tauto|].
  change (follows p p' /\ chain ((p' :: P) ++ r :: C) <-> (follows p p' /\ chain ((p' :: P) ++ [r])) /\ chain (r :: C)). tauto.
Qed.

Lemma chain_above r C : chain (r :: C) -> Forall (fun s => pos r < pos s) C.
Proof.
  revert r. induction C as [|s C IH]; intros r; [by constructor|]. intros [[Hlt _] HC]. constructor; [done|].
  eapply Forall_impl; [apply IH, HC|]. simpl. lia.
Qed.

Lemma chain_below P r : chain (P ++ [r]) -> Forall (fun s => pos s < pos r) P.
Proof.
  induction P as [|p P IH]; [by constructor|]. intros Hc. constructor; [|by apply IH, (chain_tail p)].
  pose proof (chain_above _ _ Hc) as Hf. apply Forall_app in Hf as [_ [Hf _]%Forall_cons]. exact Hf.
Qed.

Lemma chain_left P C : chain (P ++ C) -> chain P.
Proof.
  destruct P as [|q P _] using rev_ind; [done|]. destruct C as [|c C]; [by rewrite app_nil_r|].
  rewrite <- app_assoc. cbn [app]. rewrite chain_app. tauto.
Qed.

Lemma chain_right P C : chain (P ++ C) -> chain C.
Proof. induction P as [|p P IH]; [done|]. intros Hc. by apply IH, (chain_tail p). Qed.

(** A chain continues in the same way after another last range. *)
Lemma chain_last P r s : chain (P ++ [r]) -> pos s = pos r -> (forall p, last P = Some p -> access p <> access s) -> chain (P ++ [s]).
Proof.
  destruct P as [|p P _] using rev_ind; [done|]. rewrite <- !app_assoc. cbn [app]. intros [HP [[Hlt _] _]]%chain_app Hs Ha.
  apply chain_app. split; [done|]. repeat split; [lia|]. apply Ha. by rewrite last_snoc.
Qed.

Lemma chain_snoc P r s : chain (P ++ [r]) -> follows r s -> chain (P ++ [r; s]).
Proof. intros HP Hs. rewrite chain_app. split; [done|by split]. Qed.

(** The ranges up to an address, and those above it. *)
Lemma chain_split l x : chain l -> exists P C, l = P ++ C /\ Forall (fun r => pos r <= x) P /\ Forall (fun r => x < pos r) C.
Proof.
  induction l as [|r l IH]; intros Hc; [by exists [], []|].
  destruct (Z.le_gt_cases (pos r) x) as [Hr|Hr].
  - destruct (IH (chain_tail _ _ Hc)) as (P & C & -> & HP & HC). exists (r :: P), C. repeat split; [by constructor|done].
  - exists [], (r :: l). repeat split; [constructor|]. constructor; [lia|].
    eapply Forall_impl; [apply chain_above, Hc|]. simpl. lia.
Qed.

(** ** The operations of the set *)

Lemma upper_bound_app x P C :
  valid x -> Forall ok (P ++ C) -> Forall (fun r => pos r <= value x) P -> Forall (fun r => value x < pos r) C ->
  upper_bound x (P ++ C) = zlen P.
Proof.
  intros Hx Hok HP HC. induction P as [|p P IH].
  - destruct C as [|c C]; [done|]. apply Forall_cons in Hok as [Hok _], HC as [HC _]. simpl.
    rewrite lt_value by done. unfold pos in HC. by rewrite (proj2 (Z.ltb_lt _ _) HC).
  - apply Forall_cons in HP as [Hp HP], Hok as [Hok HOK]. cbn [app upper_bound]. rewrite lt_value by done.
    unfold pos in Hp. rewrite (proj2 (Z.ltb_ge _ _) Hp), IH by done. by rewrite zlen_cons.
Qed.

Lemma lower_bound_app x P C :
  valid x -> Forall ok (P ++ C) -> Forall (fun r => pos r < value x) P -> Forall (fun r => value x <= pos r) C ->
  lower_bound x (P ++ C) = zlen P.
Proof.
  intros Hx Hok HP HC. induction P as [|p P IH].
  - destruct C as [|c C]; [done|]. apply Forall_cons in Hok as [Hok _], HC as [HC _]. simpl.
    rewrite lt_value by done. unfold pos in HC. by rewrite (proj2 (Z.ltb_ge _ _) HC).
  - apply Forall_cons in HP as [Hp HP], Hok as [Hok HOK]. cbn [app lower_bound]. rewrite lt_value by done.
    unfold pos in Hp. rewrite (proj2 (Z.ltb_lt _ _) Hp), IH by done. by rewrite zlen_cons.
Qed.

Lemma take_drop_zlen P C : take (Z.to_nat (zlen P)) (P ++ C) = P /\ drop (Z.to_nat (zlen P)) (P ++ C) = C.
Proof. by rewrite Nat2Z.id, take_app_length, drop_app_length. Qed.

Lemma set_insert_app r P C :
  ok r -> Forall ok (P ++ C) -> Forall (fun s => pos s < pos r) P -> Forall (fun s => pos r < pos s) C ->
  set_insert r (P ++ C) = (zlen P, true, P ++ r :: C).
Proof.
  intros Hr Hok HP HC. unfold set_insert. rewrite lower_bound_app; [|done..|eapply Forall_impl; [exact HC|]; unfold pos; simpl; lia].
  destruct C as [|c C]; [by rewrite app_nil_r, zget_ge by lia|]. rewrite zget_mid by done.
  apply Forall_app in Hok as [_ [Hc _]%Forall_cons]. apply Forall_cons in HC as [HC _].
  rewrite lt_value by done. unfold pos in HC. rewrite (proj2 (Z.ltb_lt _ _) HC).
  by destruct (take_drop_zlen P (c :: C)) as [-> ->].
Qed.

Lemma set_erase_app P B C i j : i = zlen P -> j = zlen P + zlen B -> set_erase i j (P ++ B ++ C) = Some (P ++ C).
Proof.
  intros -> ->. unfold set_erase. rewrite (proj2 (Z.leb_le 0 _)), (proj2 (Z.leb_le (zlen P) _)) by lia.
  rewrite (proj2 (Z.leb_le (zlen P + zlen B) _)) by zlia. simpl. f_equal.
  destruct (take_drop_zlen P (B ++ C)) as [-> _]. f_equal. rewrite app_assoc, <- zlen_app. apply take_drop_zlen.
Qed.

Lemma flags_at_access d l x r P C :
  l = P ++ r :: C -> pos r <= x -> Forall (fun s => x < pos s) C -> flags_at d l x = access r.
Proof.
  intros -> Hr HC. rewrite flags_at_app, flags_at_cons, (proj2 (Z.leb_le _ _) Hr). by apply flags_at_above.
Qed.

(** [access] finds the flags of an address. *)
Lemma access_of_spec l x : wf l -> valid x -> access_of x l = Some (flags_at 0 l (value x)).
Proof.
  intros (Hc & Hok & r0 & Hr0 & Hz) Hx. pose proof (value_range x Hx).
  destruct (chain_split l (value x) Hc) as (P & C & -> & HP & HC). unfold access_of. rewrite upper_bound_app by done.
  destruct P as [|r P _] using rev_ind.
  { destruct C as [|c C]; [done|]. rewrite zget_mid in Hr0 by done. simplify_eq. apply Forall_cons in HC as [HC _]. lia. }
  rewrite zlen_app, zlen_cons. rewrite (proj2 (Z.eqb_neq _ _)) by zlia. rewrite <- app_assoc. cbn [app]. rewrite zget_mid by zlia. simpl.
  apply Forall_app in HP as [_ [HP _]%Forall_cons]. by rewrite (flags_at_access 0 _ _ r P C).
Qed.
End ranges.

(** * The ranges an address filter exports

    [describes E g]: the ranges of [E] cover the addresses, each with the
    flags [g] gives it.  [export_filter] describes the filter, in ascending
    order, and no list that does is shorter. *)

Section export.
Context {A : Type} `{HL : AddressLaws A}.
Implicit Types (l P C : list (range A)) (r s c : range A) (e : ip_range A) (E : list (ip_range A)).

Definition within e (x : A) : Prop := value (r_first e) <= value x <= value (r_last e).

Definition describes E (g : A -> option Z) : Prop :=
  (forall x, valid x -> exists e, e ∈ E /\ within e x) /\
  (forall e x, e ∈ E -> valid x -> within e x -> g x = Some (r_flags e)).

(** Each range ends before the next starts. *)
Fixpoint ascending E : Prop :=
  match E with
  | e :: (e' :: _) as E' => value (r_first e) <= value (r_last e) < value (r_first e') /\ ascending E'
  | _ => True
  end.

(** Where a range ends, by the ranges after it. *)
Definition range_end C : A := match C with [] => max_addr | c :: _ => minus_one (start c) end.

Lemma export_elem l e :
  e ∈ export_filter l <-> exists P r C, l = P ++ r :: C /\ e = IpRange (start r) (range_end C) (access r).
Proof.
  split.
  - induction l as [|r l IH]; cbn [export_filter]; [by intros ?%elem_of_nil|].
    intros [->|He]%elem_of_cons; [by exists [], r, l|]. destruct (IH He) as (P & r' & C & -> & ->). by exists (r :: P), r', C.
  - intros (P & r & C & -> & ->). induction P as [|p P IH]; cbn [app export_filter]; apply elem_of_cons; [by left|by right].
Qed.

Lemma range_end_value r C : chain (r :: C) -> Forall ok (r :: C) ->
  value (range_end C) = match C with [] => bound - 1 | c :: _ => pos c - 1 end.
Proof.
  destruct C as [|c C]; intros Hc Hok; [apply max_value|]. simpl. destruct Hc as [[Hlt _] _].
  apply Forall_cons in Hok as [Hr [Hok _]%Forall_cons]. rewrite minus_value by done.
  pose proof (value_range _ Hok). pose proof (value_range _ Hr). unfold pos in *. apply Z.mod_small. lia.
Qed.

Lemma range_end_after r C x : chain (r :: C) -> Forall ok (r :: C) -> x < bound ->
  x <= value (range_end C) <-> Forall (fun c => x < pos c) C.
Proof.
  intros Hc Hok Hx. rewrite (range_end_value r) by done. destruct C as [|c C]; [split; [done|lia]|]. split.
  - intros Hle. constructor; [lia|]. eapply Forall_impl; [apply chain_above, (chain_tail r), Hc|]. simpl. lia.
  - intros [? _]%Forall_cons. lia.
Qed.

(** ** The export describes the filter *)

Lemma wf_part l P r C : wf l -> l = P ++ r :: C -> chain (r :: C) /\ Forall ok (r :: C).
Proof. intros (Hc & Hok & _) ->. apply Forall_app in Hok. split; [by apply chain_right in Hc|tauto]. Qed.

Lemma export_describes l : wf l -> describes (export_filter l) (fun x => access_of x l).
Proof.
  intros Hwf. split.
  - intros x Hx. pose proof (value_range _ Hx). pose proof Hwf as (Hc & Hok & r0 & Hr0 & Hz).
    destruct (chain_split l (value x) Hc) as (P & C & Hl & HP & HC). destruct P as [|r P _] using rev_ind.
    { subst l. destruct C as [|c C]; [done|]. cbn [app] in Hr0. rewrite zget_cons_0 in Hr0. simplify_eq. apply Forall_cons in HC as [? _]. lia. }
    rewrite <- app_assoc in Hl. destruct (wf_part l P r C Hwf Hl) as [Hcr Hokr]. apply Forall_app in HP as [_ [HP _]%Forall_cons].
    eexists. split; [apply export_elem; by exists P, r, C|]. split; [done|]. simpl. apply (range_end_after r); [done|done|lia|done].
  - intros e x (P & r & C & Hl & ->)%export_elem Hx [Hf He]. simpl in *. pose proof (value_range _ Hx).
    destruct (wf_part l P r C Hwf Hl) as [Hcr Hokr]. rewrite access_of_spec by done. f_equal.
    apply (flags_at_access _ _ _ _ P C); [done|done|]. apply (range_end_after r); [done|done|lia|done].
Qed.

Lemma export_ascending l : chain l -> Forall ok l -> ascending (export_filter l).
Proof.
  induction l as [|r l IH]; [done|]. intros Hc Hok. pose proof (range_end_value r l Hc Hok) as Hend.
  destruct l as [|s l]; [done|]. cbn [export_filter ascending r_first r_last] in *. unfold range_end in Hend. rewrite Hend.
  destruct Hc as [[Hlt _] Hc]. apply Forall_cons in Hok as [_ Hok]. split; [unfold pos in *; lia|]. by apply IH.
Qed.

(** ** No description is shorter *)

Lemma export_length l : length (export_filter l) = length l.
Proof. induction l as [|r l IH]; [done|]. cbn. by rewrite IH. Qed.

Lemma describes_choice l E g : Forall ok l -> describes E g ->
  exists es, Forall2 (fun r e => e ∈ E /\ within e (start r)) l es.
Proof.
  intros Hok [Hcov _]. induction Hok as [|r l Hr Hok [es Hes]]; [by exists []|].
  destruct (Hcov _ Hr) as (e & He & Hin). exists (e :: es). by constructor.
Qed.

Lemma choice_distinct l es E :
  chain l -> Forall ok l -> Forall2 (fun r e => e ∈ E /\ within e (start r)) l es ->
  (forall e r, e ∈ E -> r ∈ l -> within e (start r) -> access r = r_flags e) -> NoDup es.
Proof.
  intros Hc Hok Hes. induction Hes as [|r e l es [He Hin] Hes IH]; [constructor|]. intros Hacc.
  constructor; [|apply IH; [by apply (chain_tail r)|by apply Forall_cons in Hok as [_ ?]|intros; apply Hacc; [done|by right|done]]].
  intros Hin'. apply list_elem_of_lookup in Hin' as [i Hi]. destruct (Forall2_lookup_r _ _ _ _ _ Hes Hi) as (s & Hs & _ & [_ Hs2]).
  destruct l as [|c C]; [done|]. destruct Hc as [[Hlt Hne] Hc].
  assert (pos c <= pos s) as Hcs.
  { apply list_elem_of_lookup_2, elem_of_cons in Hs as [->|Hs]; [lia|]. pose proof (chain_above _ _ Hc) as Ha.
    rewrite Forall_forall in Ha. specialize (Ha _ Hs). lia. }
  apply Hne. rewrite (Hacc e r), (Hacc e c); [done|done|by right; left| |done|by left|done].
  destruct Hin as [Hin _]. unfold within, pos in *. lia.
Qed.

Lemma export_minimal l E : wf l -> describes E (fun x => access_of x l) -> (length (export_filter l) <= length E)%nat.
Proof.
  intros Hwf HE. pose proof Hwf as (Hc & Hok & _). rewrite export_length.
  destruct (describes_choice l E _ Hok HE) as [es Hes]. rewrite (Forall2_length _ _ _ Hes).
  apply submseteq_length, NoDup_submseteq.
  - apply (choice_distinct l es E Hc Hok Hes). intros e r He Hr Hin. destruct HE as [_ HE].
    apply list_elem_of_split in Hr as (P & C & Hl). destruct (wf_part l P r C Hwf Hl) as [Hcr Hokr].
    pose proof (proj1 (Forall_cons _ _ _) Hokr) as [Hr _]. specialize (HE _ _ He Hr Hin). rewrite access_of_spec in HE by done.
    injection HE as <-. symmetry. apply (flags_at_access _ _ _ _ P C); [done|done|]. by apply chain_above.
  - intros e He. apply list_elem_of_lookup in He as [i Hi]. by destruct (Forall2_lookup_r _ _ _ _ _ Hes Hi) as (r & _ & ? & _).
Qed.

(** ** The export, against the flags of the addresses *)

Lemma describes_ext E (g h : A -> option Z) : (forall x, valid x -> g x = h x) -> describes E g -> describes E h.
Proof. intros Hgh [Hcov Hin]. split; [done|]. intros e x He Hx Hw. rewrite <- Hgh by done. by apply Hin. Qed.

Lemma export_spec l (g : A -> option Z) : wf l -> (forall x, valid x -> access_of x l = g x) ->
  ascending (export_filter l) /\ describes (export_filter l) g /\
  forall E, describes E g -> (length (export_filter l) <= length E)%nat.
Proof.
  intros Hwf Hg. split; [apply export_ascending; apply Hwf|]. split; [apply (describes_ext _ _ _ Hg), export_describes, Hwf|].
  intros E HE. apply export_minimal; [done|]. apply (describes_ext _ g); [|done]. intros x Hx. by rewrite Hg.
Qed.
End export.
