(* ===== verification/IpFilterRule.v ===== *)
(** * Adding a rule to an address filter

    [cover_spec] and [close_rule_spec] are the two halves of
    [filter_impl::add_rule]; together they keep the invariant and change the
    flags of the addresses of the rule, and of no others. *)

From Stdlib Require Import ZArith Lia.
From stdpp Require Import base numbers list.
From S2P Require Import Prelude IpFilter IpFilterSpec.

Section rule.
Context {A : Type} `{HL : AddressLaws A}.
Implicit Types (l P Q B C : list (range A)) (r s q c : range A).

(** ** The ranges a rule meets *)

(** The ranges before the rule, the one [r] it starts in, those it covers and
    those after it. *)
Record meets (f e : Z) l P r B C : Prop := {
  meets_eq : l = P ++ r :: B ++ C;
  meets_start : pos r <= f;
  meets_before : Forall (fun s => pos s <= f) P;
  meets_covered : Forall (fun s => f < pos s <= e) B;
  meets_after : Forall (fun s => e < pos s) C;
}.

Lemma wf_meets l f e : wf l -> 0 <= f <= e -> exists P r B C, meets f e l P r B C.
Proof.
  intros (Hc & Hok & r0 & Hr0 & Hz) Hfe.
  destruct (chain_split l e Hc) as (D & C & -> & HD & HC).
  destruct (chain_split D f (chain_left _ _ Hc)) as (P & B & -> & HP & HB).
  destruct P as [|r P _] using rev_ind.
  - destruct (B ++ C) as [|b D] eqn:E; cbn [app] in Hr0; rewrite E in Hr0; [done|].
    rewrite zget_cons_0 in Hr0. simplify_eq.
    assert (f < pos r0); [|lia]. destruct B as [|b B]; simplify_list_eq.
    + apply Forall_cons in HC as [HC _]. lia.
    + by apply Forall_cons in HB as [HB _].
  - apply Forall_app in HP as [HP [Hr _]%Forall_cons]. apply Forall_app in HD as [_ HD].
    exists P, r, B, C. split; [by rewrite <- !app_assoc|done|done|by apply Forall_and|done].
Qed.

(** The last range that starts in a rule. *)
Lemma last_access_spec r B : exists s, last (r :: B) = Some s.
Proof. by destruct (last_is_Some (r :: B)) as [_ [s Hs]]; eauto. Qed.

Lemma zget_last P r B C s : last (r :: B) = Some s -> zget (P ++ r :: B ++ C) (zlen P + zlen B) = Some s.
Proof.
  intros (D & E)%last_Some. replace (P ++ r :: B ++ C) with ((P ++ D) ++ s :: C).
  - apply zget_mid. assert (zlen (r :: B) = zlen (D ++ [s])) by congruence. zlia.
  - rewrite app_comm_cons, E. by rewrite <- !app_assoc.
Qed.

Lemma flags_at_meets d f e l P r B C s x :
  meets f e l P r B C -> f <= e -> last (r :: B) = Some s -> e < x -> flags_at d l x = flags_at (access s) C x.
Proof.
  intros [-> Hr HP HB HC] Hfe (D & E)%last_Some Hx. replace (P ++ r :: B ++ C) with ((P ++ D) ++ [s] ++ C).
  - rewrite app_assoc, flags_at_app. f_equal. apply flags_at_last. assert (s ∈ r :: B) as Hs.
    { rewrite E, elem_of_app, list_elem_of_singleton. by right. }
    apply elem_of_cons in Hs as [->|Hs]; [lia|]. rewrite Forall_forall in HB. specialize (HB _ Hs). lia.
  - rewrite (app_comm_cons B), E. by rewrite <- !app_assoc.
Qed.

(** ** The ranges from the first address on *)

(** What [cover] leaves: the ranges up to [q], which has the flags of the rule
    and starts in it or before, and those after the rule. *)
Record covered (f : Z) (flags : Z) l Q q : Prop := {
  covered_flags : access q = flags;
  covered_start : pos q <= f;
  covered_chain : chain (Q ++ [q]);
  covered_ok : Forall ok (Q ++ [q]);
  covered_head : exists r, zget (Q ++ [q]) 0 = Some r /\ pos r = 0;
  covered_at x : flags_at 0 (Q ++ [q]) x = if f <=? x then flags else flags_at 0 l x;
}.

(** Clearing from a range that has the flags of the rule, or starts it. *)
Lemma clear_from first flags P q B C fa i j :
  i = zlen P -> j = i + 1 + zlen B -> ok q -> valid first ->
  pos q = value first \/ fa = flags ->
  clear_rule first flags i j fa (P ++ q :: B ++ C) =
    Some (i + 1, P ++ (if pos q =? value first then Range first flags else q) :: C).
Proof.
  intros -> -> Hq Hf Hor. unfold clear_rule. destruct (Z.eqb_spec (zlen P) (zlen P + 1 + zlen B)); [lia|].
  change (q :: B ++ C) with ([q] ++ B ++ C). rewrite app_assoc, set_erase_app by zlia. cbn [mbind option_bind].
  rewrite <- app_assoc. cbn [app]. rewrite zget_mid by done. cbn [mbind option_bind].
  rewrite eqb_value by done. fold (pos q). destruct (Z.eqb_spec (pos q) (value first)).
  - by rewrite zset_mid.
  - destruct Hor as [?| ->]; [done|]. by rewrite Z.eqb_refl.
Qed.

Section cover.
Context (first last : A) (flags : Z) (l P B C : list (range A)) (r s : range A).
Hypothesis (Hwf : wf l) (Hfirst : valid first) (Hlast : valid last) (Hle : value first <= value last).
Hypothesis (Hm : meets (value first) (value last) l P r B C) (Hs : list.last (r :: B) = Some s).

Lemma cover_ok : Forall ok P /\ ok r /\ Forall ok B /\ Forall ok C.
Proof using Hwf Hm.
  destruct Hwf as (_ & Hok & _), Hm as [-> _ _ _ _]. by rewrite !Forall_app, Forall_cons, Forall_app in Hok.
Qed.

Lemma cover_chain : chain (P ++ [r]) /\ chain (r :: B ++ C).
Proof using Hwf Hm. destruct Hwf as (Hc & _), Hm as [-> _ _ _ _]. by apply chain_app. Qed.

Lemma cover_upper_first : upper_bound first l = zlen P + 1.
Proof using Hwf Hm Hfirst Hle.
  destruct Hwf as (_ & Hok & _), Hm as [-> Hr HP HB HC]. change (r :: B ++ C) with ([r] ++ (B ++ C)) in *.
  rewrite app_assoc in *. rewrite upper_bound_app; [zlia|done..| |].
  - apply Forall_app. by split; [|apply Forall_singleton].
  - apply Forall_app. split; (eapply Forall_impl; [eassumption|]); simpl; lia.
Qed.

Lemma cover_upper_last : upper_bound last l = zlen P + 1 + zlen B.
Proof using Hwf Hm Hlast Hle.
  destruct Hwf as (_ & Hok & _), Hm as [-> Hr HP HB HC]. rewrite app_comm_cons, app_assoc in *.
  rewrite upper_bound_app; [zlia|done..| |done].
  rewrite Forall_app, Forall_cons. repeat split; [|lia|]; (eapply Forall_impl; [eassumption|]); simpl; lia.
Qed.

Lemma cover_head : exists r0, zget (P ++ [r]) 0 = Some r0 /\ pos r0 = 0.
Proof using Hwf Hm.
  destruct Hwf as (_ & _ & r0 & Hr0 & Hz), Hm as [-> _ _ _ _]. exists r0. split; [|done].
  by destruct P as [|p P']; rewrite ?zget_cons_0 in *.
Qed.

Lemma cover_starts : addr_eqb (start r) first = (pos r =? value first).
Proof using Hwf Hm Hfirst Hle. apply eqb_value; [apply cover_ok|done]. Qed.


Lemma cover_found i j fa l1 j' l2 :
  find_first first flags (zlen P) (zlen P + 1 + zlen B) (access r) (pos r =? value first) l = Some (i, j, fa, l1) ->
  clear_rule first flags i j fa l1 = Some (j', l2) ->
  cover first last flags l = Some (j', access s, l2).
Proof using All.
  intros Hf Hc. unfold cover. rewrite cover_upper_first, cover_upper_last.
  destruct (Z.eqb_spec (zlen P + 1) 0); [lia|]. replace (zlen P + 1 - 1) with (zlen P) by lia.
  replace (zlen P + 1 + zlen B - 1) with (zlen P + zlen B) by lia.
  assert (zget l (zlen P) = Some r) as -> by (rewrite (meets_eq _ _ _ _ _ _ _ Hm); by apply zget_mid). cbn [mbind option_bind].
  assert (zget l (zlen P + zlen B) = Some s) as -> by (rewrite (meets_eq _ _ _ _ _ _ _ Hm); by apply zget_last). cbn [mbind option_bind].
  rewrite cover_starts, Hf. cbn [mbind option_bind]. by rewrite Hc.
Qed.

Lemma cover_flags_before x : x < value first -> flags_at 0 (P ++ [r]) x = flags_at 0 l x.
Proof using Hm Hle Hwf.
  intros Hx. destruct Hm as [-> Hr HP HB HC]. change (r :: B ++ C) with ([r] ++ B ++ C). rewrite app_assoc, (flags_at_app _ (P ++ [r])).
  symmetry. apply flags_at_above. apply Forall_app.
  split; (eapply Forall_impl; [eassumption|]); simpl; lia.
Qed.

(** The rule starts inside a range with other flags: a new range. *)
Lemma cover_inside :
  pos r <> value first -> access r <> flags ->
  cover first last flags l = Some (zlen (P ++ [r]) + 1, access s, (P ++ [r]) ++ Range first flags :: C) /\
  covered (value first) flags l (P ++ [r]) (Range first flags).
Proof using All.
  intros Hne Ha. destruct cover_ok as (HokP & Hokr & HokB & HokC). pose proof (meets_start _ _ _ _ _ _ _ Hm) as Hr.
  assert (Forall (fun q => pos q < value first) (P ++ [r])) as Hbelow.
  { rewrite Forall_app, Forall_singleton. split; [|lia].
    eapply Forall_impl; [apply chain_below, cover_chain|]. simpl. lia. }
  split.
  - eapply cover_found.
    + unfold find_first. rewrite (proj2 (Z.eqb_neq _ _) Hne), (proj2 (Z.eqb_neq _ _) Ha). cbn [negb andb].
      rewrite (meets_eq _ _ _ _ _ _ _ Hm). change (r :: B ++ C) with ([r] ++ B ++ C). rewrite app_assoc, set_insert_app; [done|done|..].
      * rewrite !Forall_app, Forall_singleton. done.
      * done.
      * destruct Hm as [_ _ _ HB HC]. apply Forall_app. split; (eapply Forall_impl; [eassumption|]); unfold pos; simpl; lia.
    + unfold moved_by. cbn [andb]. destruct (Z.leb_spec (zlen (P ++ [r])) (zlen P + 1 + zlen B)); [|zlia].
      rewrite clear_from; [|done|zlia|done|done|by left]. by case_match.
  - split; [done|done|..].
    + rewrite <- app_assoc. apply chain_snoc; [apply cover_chain|]. split; [unfold pos in *; simpl; lia|done].
    + by rewrite !Forall_app, !Forall_singleton.
    + destruct cover_head as (r0 & Hr0 & Hz). exists r0. split; [|done].
      by rewrite zget_app_l by (apply zget_Some_bound in Hr0; lia).
    + intros x. destruct (Z.leb_spec (value first) x); [by apply flags_at_last|].
      rewrite flags_at_app, flags_at_above; [by apply cover_flags_before|]. by apply Forall_singleton.
Qed.

Lemma find_none :
  pos r = value first \/ access r = flags -> (forall p, list.last P = Some p -> access p <> flags) ->
  find_first first flags (zlen P) (zlen P + 1 + zlen B) (access r) (pos r =? value first) l =
    Some (zlen P, zlen P + 1 + zlen B, access r, l).
Proof using Hm.
  intros Hor Hp. unfold find_first.
  assert (negb (pos r =? value first) && negb (access r =? flags) = false) as ->.
  { destruct Hor as [->| ->]; rewrite Z.eqb_refl; [done|apply andb_false_r]. }
  destruct P as [|p D _] using rev_ind; [done|]. destruct (Z.eqb_spec (zlen (D ++ [p])) 0); [zlia|].
  rewrite (meets_eq _ _ _ _ _ _ _ Hm), <- app_assoc. cbn [app]. rewrite zget_mid by zlia. cbn [mbind option_bind].
  destruct (Z.eqb_spec (access p) flags); [|done]. exfalso. apply (Hp p); [by rewrite last_snoc|done].
Qed.

(** The rule starts with a range, or in one that has its flags. *)
Lemma cover_at q :
  q = (if pos r =? value first then Range first flags else r) ->
  pos r = value first \/ access r = flags -> (forall p, list.last P = Some p -> access p <> flags) ->
  cover first last flags l = Some (zlen P + 1, access s, P ++ q :: C) /\ covered (value first) flags l P q.
Proof using All.
  intros Hq Hor Hp. destruct cover_ok as (HokP & Hokr & HokB & HokC).
  assert (pos q = pos r /\ access q = flags /\ ok q) as (Hqr & Hqf & Hqok).
  { subst q. destruct (Z.eqb_spec (pos r) (value first)) as [E|E]; [done|]. destruct Hor; done. }
  split.
  - eapply cover_found; [by apply find_none|]. rewrite (meets_eq _ _ _ _ _ _ _ Hm), clear_from by done. by subst q.
  - split; [done|rewrite Hqr; apply Hm|..].
    + apply (chain_last _ r); [apply cover_chain|done|]. intros p Hlast'. rewrite Hqf. by apply Hp.
    + by rewrite Forall_app, Forall_singleton.
    + destruct cover_head as (r0 & Hr0 & Hz). destruct P as [|p D]; [|by exists r0].
      exists q. split; [done|]. cbn [app] in Hr0. rewrite zget_cons_0 in Hr0. simplify_eq. congruence.
    + intros x. destruct (Z.leb_spec (value first) x); [rewrite <- Hqf; apply flags_at_last; pose proof (meets_start _ _ _ _ _ _ _ Hm); lia|].
      rewrite <- cover_flags_before by done. rewrite !flags_at_app, !flags_at_cons, Hqr.
      destruct (Z.leb_spec (pos r) x) as [Hx|]; [|done]. destruct Hor; [lia|congruence].
Qed.

(** The rule starts with a range, after one that has its flags: it is
    joined to it. *)
Lemma cover_prior D p :
  P = D ++ [p] -> access p = flags -> pos r = value first ->
  cover first last flags l = Some (zlen D + 1, access s, D ++ p :: C) /\ covered (value first) flags l D p.
Proof using All.
  intros HP Hp Hr. destruct cover_ok as (HokP & Hokr & HokB & HokC). pose proof (meets_eq _ _ _ _ _ _ _ Hm) as Hl.
  pose proof cover_found as Hfound. pose proof cover_flags_before as Hbefore. pose proof cover_head as Hhead.
  pose proof cover_chain as [HcP HcB]. rewrite HP in *. apply Forall_app in HokP as [HokD HokP].
  pose proof (proj1 (Forall_singleton _ _) HokP) as Hokp. pose proof (chain_below _ _ HcP) as Hb.
  apply Forall_app in Hb as [_ [Hpr _]%Forall_cons]. split.
  - eapply Hfound.
    + unfold find_first. rewrite Hr, Z.eqb_refl. cbn [negb andb]. destruct (Z.eqb_spec (zlen (D ++ [p])) 0); [zlia|].
      rewrite Hl, <- app_assoc at 1. cbn [app]. rewrite zget_mid by zlia. cbn [mbind option_bind].
      by rewrite Hp, Z.eqb_refl.
    + rewrite Hl, <- app_assoc. cbn [app]. rewrite app_comm_cons. rewrite clear_from; [|zlia|zlia|done|done|by right].
      rewrite (proj2 (Z.eqb_neq (pos p) (value first))) by lia. do 2 f_equal. zlia.
  - split; [done|lia|by apply (chain_left _ [r])|by apply Forall_app|..].
    + destruct Hhead as (r0 & Hr0 & Hz). exists r0. split; [|done]. by rewrite zget_app_l in Hr0 by zlia.
    + intros x. destruct (Z.leb_spec (value first) x); [rewrite <- Hp; apply flags_at_last; lia|].
      rewrite <- Hbefore, (flags_at_app _ (D ++ [p])) by done. symmetry. apply flags_at_above. apply Forall_singleton. lia.
Qed.

Lemma cover_spec :
  exists Q q, cover first last flags l = Some (zlen Q + 1, access s, Q ++ q :: C) /\ covered (value first) flags l Q q.
Proof using All.
  destruct (Z.eq_dec (pos r) (value first)) as [Hr|Hr].
  - destruct (list.last P) as [p|] eqn:Hp; [destruct (Z.eq_dec (access p) flags) as [Ha|Ha]|].
    + apply last_Some in Hp as [D HD]. exists D, p. by apply cover_prior.
    + eexists P, _. apply cover_at; [done|by left|]. intros p' Hp'. by simplify_eq.
    + eexists P, _. apply cover_at; [done|by left|]. intros p' Hp'. by simplify_eq.
  - destruct (Z.eq_dec (access r) flags) as [Ha|Ha].
    + eexists P, _. apply cover_at; [done|by right|]. intros p [D HD]%last_Some. rewrite <- Ha.
      destruct cover_chain as [Hc _]. rewrite HD, <- app_assoc in Hc. by apply chain_right in Hc as [[_ ?] _].
    + eexists _, _. by apply cover_inside.
Qed.
End cover.

(** ** The ranges after the last address *)

(** What [close_rule] makes of the ranges [C] after the rule, when the range
    before them has the flags of the rule. *)
Record closed (e : Z) (flags : Z) q (s : range A) C C' : Prop := {
  closed_chain : chain (q :: C');
  closed_ok : Forall ok C';
  closed_after : Forall (fun c => e < pos c) C';
  closed_at x : e < x < bound -> flags_at flags C' x = flags_at (access s) C x;
}.

Section close.
Context (last : A) (flags : Z) (Q C : list (range A)) (q s : range A).
Hypothesis (Hlast : valid last) (Hq : access q = flags) (Hqe : pos q <= value last).
Hypothesis (HokQ : Forall ok (Q ++ [q])) (HQ : Forall (fun c => pos c <= value last) (Q ++ [q])).
Hypothesis (HokC : Forall ok C) (HC : Forall (fun c => value last < pos c) C) (Hc : chain (s :: C)).

Lemma close_chain : (forall c, head C = Some c -> access c <> flags) -> chain (q :: C).
Proof using All.
  destruct C as [|c D]; [done|]. intros Hh. destruct Hc as [_ HD]. split; [|done].
  apply Forall_cons in HC as [HC' _]. split; [lia|]. rewrite Hq. intros E. by apply (Hh c).
Qed.

Lemma close_keeps : (forall c, head C = Some c -> access c <> flags) ->
  (access s = flags \/ forall x, value last < x < bound -> exists c, head C = Some c /\ pos c <= x) ->
  closed (value last) flags q s C C.
Proof using All.
  intros Hh Hor. split; [by apply close_chain|done|done|]. intros x Hx. destruct Hor as [->|Hor]; [done|].
  destruct (Hor x Hx) as (c & Hhc & Hcx). destruct C as [|c' D]; [done|]. simpl in Hhc. simplify_eq.
  by rewrite !flags_at_cons, (proj2 (Z.leb_le _ _) Hcx).
Qed.

Lemma close_gap_value c : ok c -> value last < pos c ->
  negb (addr_eqb (minus_one (start c)) last) = negb (pos c =? value last + 1).
Proof using Hlast.
  intros Hok Hpos. rewrite eqb_value by (done || by apply minus_valid). rewrite minus_value by done.
  pose proof (value_range _ Hok). pose proof (value_range _ Hlast). unfold pos in *. rewrite Z.mod_small by lia.
  destruct (Z.eqb_spec (value (start c) - 1) (value last)), (Z.eqb_spec (value (start c)) (value last + 1)); done || lia.
Qed.

Lemma plus_last : value last + 1 < bound -> valid (plus_one last) /\ value (plus_one last) = value last + 1.
Proof using Hlast.
  intros Hb. split; [by apply plus_valid|]. pose proof (value_range _ Hlast). rewrite plus_value by done. apply Z.mod_small. lia.
Qed.

(** There are addresses of the old range after the rule: they keep its flags. *)
Lemma close_inserts :
  value last + 1 < bound -> Forall (fun c => value last + 1 < pos c) C -> access s <> flags ->
  set_insert (Range (plus_one last) (access s)) (Q ++ q :: C) =
    (zlen Q + 1, true, Q ++ q :: Range (plus_one last) (access s) :: C) /\
  closed (value last) flags q s C (Range (plus_one last) (access s) :: C).
Proof using All.
  intros Hb Hgap Hs. destruct (plus_last Hb) as [Hv He]. set (n := Range (plus_one last) (access s)).
  assert (pos n = value last + 1) as Hn by exact He. split.
  - change (Q ++ q :: C) with (Q ++ [q] ++ C). rewrite app_assoc, set_insert_app; [|done|by apply Forall_app|..].
    + rewrite <- app_assoc, zlen_app. done.
    + eapply Forall_impl; [exact HQ|]. simpl. lia.
    + eapply Forall_impl; [exact Hgap|]. simpl. lia.
  - split.
    + split; [split; [lia|by rewrite Hq]|]. destruct C as [|c D]; [done|]. destruct Hc as [[_ ?] HD].
      apply Forall_cons in Hgap as [? _]. split; [split; [lia|done]|done].
    + by constructor.
    + constructor; [lia|done].
    + intros x Hx. rewrite flags_at_cons, Hn. by rewrite (proj2 (Z.leb_le _ _)) by lia.
Qed.

Lemma close_erases c D :
  C = c :: D -> pos c = value last + 1 -> access c = flags -> closed (value last) flags q s C D.
Proof using All.
  intros E Hp Ha. rewrite E in *. apply Forall_cons in HokC as [_ HokD], HC as [_ HD]. destruct Hc as [_ Hcd]. split; [|done|done|].
  - destruct D as [|d D']; [done|]. destruct Hcd as [[? ?] ?]. apply Forall_cons in HD as [? _].
    split; [split; [lia|congruence]|done].
  - intros x Hx. rewrite flags_at_cons, Hp, Ha. by rewrite (proj2 (Z.leb_le _ _)) by lia.
Qed.

(** Whether [close_rule] finds addresses between [last] and the next range. *)
Definition close_gap : bool :=
  match C with c :: _ => negb (pos c =? value last + 1) | [] => negb (value last =? bound - 1) end.

Lemma close_gap_bound : close_gap = true -> value last + 1 < bound /\ Forall (fun c => value last + 1 < pos c) C.
Proof using All.
  unfold close_gap. pose proof (value_range _ Hlast). destruct C as [|c D].
  - intros Hg%negb_true_iff%Z.eqb_neq. split; [lia|done].
  - intros Hg%negb_true_iff%Z.eqb_neq. apply Forall_cons in HokC as [Hok _], HC as [Hp _]. pose proof (value_range _ Hok).
    assert (value last + 1 < pos c) as Hpc by lia. split; [unfold pos in *; lia|]. constructor; [done|].
    eapply Forall_impl; [apply chain_above, (chain_tail s), Hc|]. simpl. lia.
Qed.

Lemma close_found :
  match zget (Q ++ q :: C) (zlen Q + 1) with
  | Some rj => negb (addr_eqb (minus_one (start rj)) last)
  | None => negb (addr_eqb last max_addr)
  end = close_gap.
Proof using All.
  change (Q ++ q :: C) with (Q ++ [q] ++ C). rewrite app_assoc. unfold close_gap. destruct C as [|c D].
  - rewrite app_nil_r, zget_ge by zlia. rewrite eqb_value, max_value by (done || apply max_valid). done.
  - rewrite zget_mid by zlia. apply Forall_cons in HokC as [Hok _], HC as [Hp _]. by apply close_gap_value.
Qed.

Lemma close_rule_spec :
  exists C', close_rule last flags (zlen Q + 1) (access s) (Q ++ q :: C) = Some (Q ++ q :: C') /\
    closed (value last) flags q s C C'.
Proof using All.
  unfold close_rule. rewrite close_found.
  assert (forall D, zget (Q ++ q :: D) (zlen Q + 1) = head D) as Hget.
  { intros D. change (Q ++ q :: D) with (Q ++ [q] ++ D). rewrite app_assoc.
    destruct D as [|d D]; [apply zget_ge|apply zget_mid]; zlia. }
  destruct close_gap eqn:Hgap; cbn [andb].
  - destruct (close_gap_bound Hgap) as [Hb HC1]. destruct (Z.eqb_spec (access s) flags) as [Hs|Hs]; cbn [negb].
    + assert (forall c, head C = Some c -> access c <> flags) as Hh.
      { intros c. destruct C as [|c' D]; [done|]. cbn [head]. intros [= ->]. destruct Hc as [[_ ?] _]. congruence. }
      exists C. split; [|by apply close_keeps; [|left]]. rewrite Hget. destruct (head C) as [c|] eqn:E; [|done].
      by rewrite (proj2 (Z.eqb_neq _ _) (Hh c eq_refl)).
    + destruct (close_inserts Hb HC1 Hs) as [-> Hclosed]. eexists. split; [|exact Hclosed].
      rewrite Hget. cbn [head access]. by rewrite (proj2 (Z.eqb_neq _ _) Hs).
  - rewrite Hget. unfold close_gap in Hgap. pose proof close_keeps as Hkeeps. pose proof close_erases as Herases.
    destruct C as [|c D]; cbn [head].
    + exists []. split; [done|]. apply Hkeeps; [done|]. right. intros x Hx.
      apply negb_false_iff, Z.eqb_eq in Hgap. lia.
    + apply negb_false_iff, Z.eqb_eq in Hgap. destruct (Z.eqb_spec (access c) flags) as [Ha|Ha].
      * exists D. split; [|by apply Herases with c].
        change (Q ++ q :: c :: D) with (Q ++ [q] ++ [c] ++ D). rewrite app_assoc, set_erase_app by zlia. by rewrite <- app_assoc.
      * exists (c :: D). split; [done|]. apply Hkeeps; [by intros c' [= ->]|].
        right. intros x Hx. exists c. split; [done|]. lia.
Qed.
End close.

(** ** The whole rule *)

Definition inside (f e x : Z) : bool := (f <=? x) && (x <=? e).

(** [add_rule] never fails on a rule from [first] to an address that is not
    before it; it keeps the invariant and sets the flags of the rule. *)
Lemma add_rule_spec first last flags l :
  wf l -> valid first -> valid last -> value first <= value last ->
  exists l', add_rule first last flags l = Some l' /\ wf l' /\
    forall x, 0 <= x < bound ->
      flags_at 0 l' x = if inside (value first) (value last) x then flags else flags_at 0 l x.
Proof.
  intros Hwf Hf Hl Hle. pose proof (value_range _ Hf).
  destruct (wf_meets l (value first) (value last) Hwf) as (P & r & B & C & Hm); [lia|].
  destruct (last_access_spec r B) as [s Hs].
  destruct (cover_spec first last flags l P B C r s Hwf Hf Hl Hle Hm Hs) as (Q & q & Hcover & Hcov).
  destruct Hcov as [Hqf Hqs HQc HQok HQh HQat].
  destruct (cover_ok _ _ _ _ _ _ _ Hwf Hm) as (_ & _ & _ & HokC).
  assert (Forall (fun c => pos c <= value last) (Q ++ [q])) as HQle.
  { apply Forall_app. split; [|apply Forall_singleton; lia]. eapply Forall_impl; [apply chain_below, HQc|]. simpl. lia. }
  assert (chain (s :: C)) as HsC.
  { destruct (cover_chain _ _ _ _ _ _ _ Hwf Hm) as [_ Hc]. apply last_Some in Hs as [D HD].
    rewrite app_comm_cons, HD, <- app_assoc in Hc. by apply chain_right in Hc. }
  destruct (close_rule_spec last flags Q C q s) as (C' & Hclose & Hclosed); [done..|lia|done|done|done|apply Hm|done|].
  destruct Hclosed as [Hcc Hok Hafter Hat].
  exists (Q ++ q :: C'). split; [unfold add_rule; by rewrite Hcover|]. split; [split; [|split]|].
  - apply chain_app. done.
  - change (q :: C') with ([q] ++ C'). rewrite app_assoc. by apply Forall_app.
  - destruct HQh as (r0 & Hr0 & Hz). exists r0. split; [|done]. change (q :: C') with ([q] ++ C').
    rewrite app_assoc, zget_app_l; [done|]. apply zget_Some_bound in Hr0. lia.
  - intros x Hx. change (q :: C') with ([q] ++ C'). rewrite app_assoc, flags_at_app, HQat. unfold inside.
    destruct (Z.leb_spec x (value last)).
    + rewrite flags_at_above by (eapply Forall_impl; [exact Hafter|]; simpl; lia). rewrite andb_true_r. done.
    + rewrite andb_false_r, (proj2 (Z.leb_le _ _)) by lia. rewrite Hat by lia. symmetry. by eapply flags_at_meets.
Qed.
End rule.
