(* ===== verification/IpFilterTheorems.v ===== *)
(** * What the address filter promises

    The properties of [ip_filter]: the last rule that holds an address decides
    its flags, and the export is the shortest list of ranges. *)

From Stdlib Require Import ZArith Lia.
From stdpp Require Import base numbers list.
From S2P Require Import Prelude IpFilter IpFilterSpec IpFilterRule.

(** ** Rules *)

Record rule := Rule { rule_first : address; rule_last : address; rule_flags : Z }.

Definition valid_address (x : address) : Prop := match x with V4 a => valid a | V6 a => valid a end.

(** Addresses are ordered within their family. *)
Definition address_leb (x y : address) : bool :=
  match x, y with V4 a, V4 b => value a <=? value b | V6 a, V6 b => value a <=? value b | _, _ => false end.

Definition valid_rule (r : rule) : Prop :=
  valid_address (rule_first r) /\ valid_address (rule_last r) /\ address_leb (rule_first r) (rule_last r) = true.

Definition in_rule (r : rule) (x : address) : bool := address_leb (rule_first r) x && address_leb x (rule_last r).

Fixpoint run_rules (rs : list rule) (f : ip_filter) : option ip_filter :=
  match rs with [] => Some f | r :: rs => f ← ip_add_rule (rule_first r) (rule_last r) (rule_flags r) f; run_rules rs f end.

(** The flags of the last rule that holds the address. *)
Definition last_rule (n : Z) (rs : list rule) (x : address) : Z :=
  fold_left (fun n r => if in_rule r x then rule_flags r else n) rs n.

(** ** The filter and its rules *)

Definition wf_filter (f : ip_filter) : Prop := wf (m_filter4 f) /\ wf (m_filter6 f).

Definition flags_of (f : ip_filter) (x : address) : Z :=
  match x with V4 a => flags_at 0 (m_filter4 f) (value a) | V6 a => flags_at 0 (m_filter6 f) (value a) end.

Lemma new_filter_wf `{AddressLaws A} : wf (new_filter : list (range A)).
Proof.
  split; [done|]. split; [by constructor; [apply zero_valid|]|]. eexists. split; [done|]. apply zero_value.
Qed.

Lemma new_flags x : flags_of new_ip_filter x = 0.
Proof. destruct x as [a|a]; cbn; by case_match. Qed.

Lemma ip_access_spec f x : wf_filter f -> valid_address x -> ip_access x f = Some (to_int (flags_of f x)).
Proof. intros [H4 H6] Hx. unfold ip_access. destruct x as [a|a]; rewrite access_of_spec by done; reflexivity. Qed.

Lemma ip_add_rule_spec r f : wf_filter f -> valid_rule r ->
  exists f', ip_add_rule (rule_first r) (rule_last r) (rule_flags r) f = Some f' /\ wf_filter f' /\
    forall x, valid_address x -> flags_of f' x = if in_rule r x then rule_flags r else flags_of f x.
Proof.
  intros [H4 H6] (Hf & Hl & Hle). destruct r as [[a|a] [b|b] n]; cbn [rule_first rule_last rule_flags address_leb] in *; try done;
    apply Z.leb_le in Hle; cbn [ip_add_rule].
  - destruct (add_rule_spec a b n _ H4 Hf Hl Hle) as (l & -> & Hwf & Hat). eexists. split; [done|]. split; [by split|].
    intros [x|x] Hx; [|done]. by apply Hat, value_range.
  - destruct (add_rule_spec a b n _ H6 Hf Hl Hle) as (l & -> & Hwf & Hat). eexists. split; [done|]. split; [by split|].
    intros [x|x] Hx; [done|]. by apply Hat, value_range.
Qed.

Lemma run_rules_spec rs f : wf_filter f -> Forall valid_rule rs ->
  exists f', run_rules rs f = Some f' /\ wf_filter f' /\
    forall x, valid_address x -> flags_of f' x = last_rule (flags_of f x) rs x.
Proof.
  intros Hf Hrs. revert f Hf. induction Hrs as [|r rs Hr Hrs IH]; intros f Hf; [by exists f|].
  destruct (ip_add_rule_spec r f Hf Hr) as (f1 & E & Hf1 & Hat1). destruct (IH f1 Hf1) as (f2 & E2 & Hf2 & Hat2).
  exists f2. cbn [run_rules]. rewrite E. split; [done|]. split; [done|]. intros x Hx. rewrite Hat2, Hat1 by done. done.
Qed.

Lemma new_ip_filter_spec rs : Forall valid_rule rs ->
  exists f, run_rules rs new_ip_filter = Some f /\ wf_filter f /\ forall x, valid_address x -> flags_of f x = last_rule 0 rs x.
Proof.
  intros Hrs. destruct (run_rules_spec rs new_ip_filter) as (f & E & Hf & Hat); [split; apply new_filter_wf|done|].
  exists f. split; [done|]. split; [done|]. intros x Hx. by rewrite Hat, new_flags.
Qed.

(** C25 (refinement): after any rules, each from an address to one of its family
    that is not before it, [access] of an address is the flags of the last rule
    that holds it, 0 when none does: [add_rule] never reaches past the ends of
    the set, and a rule over two families throws. *)
Theorem ip_filter_rules rs :
  Forall valid_rule rs ->
  exists f, run_rules rs new_ip_filter = Some f /\
    (forall x, valid_address x -> ip_access x f = Some (to_int (last_rule 0 rs x))) /\
    (forall a b n, ip_add_rule (V4 a) (V6 b) n f = None /\ ip_add_rule (V6 b) (V4 a) n f = None).
Proof.
  intros Hrs. destruct (new_ip_filter_spec rs Hrs) as (f & E & Hf & Hat).
  exists f. split; [done|]. split; [|done]. intros x Hx. by rewrite ip_access_spec, Hat.
Qed.

(** Two overlapping rules of one family and one of the other. *)
Definition v4 (a b c d : Z) : address := V4 (Bytes [a; b; c; d]).
Definition v6_low (x : Z) : address := V6 (Bytes (replicate 15 0 ++ [x])).
Definition overlapping : list rule :=
  [Rule (v4 10 0 0 0) (v4 10 0 0 255) 1; Rule (v4 10 0 0 128) (v4 11 0 0 0) 0; Rule (v6_low 3) (v6_low 9) 1; Rule (v4 9 255 255 255) (v4 9 255 255 255) 1].

Ltac valid_address := split; [done|]; cbn; repeat (constructor; [unfold byte; lia|]); constructor.

Lemma overlapping_valid : Forall valid_rule overlapping.
Proof.
  unfold overlapping. repeat (constructor; [split; [valid_address|split; [valid_address|vm_compute; reflexivity]]|]).
  constructor.
Qed.

Lemma ip_filter_rules_witness :
  Forall valid_rule overlapping /\
  exists f, run_rules overlapping new_ip_filter = Some f /\ ip_access (v4 10 0 0 127) f = Some 1 /\ ip_access (v4 10 0 0 128) f = Some 0.
Proof.
  split; [exact overlapping_valid|]. destruct (ip_filter_rules overlapping overlapping_valid) as (f & E & Ha & _).
  exists f. split; [exact E|]. split; rewrite Ha by valid_address; vm_compute; reflexivity.
Defined.

(** C26 (functional): the export is, in each family, a list of ranges in
    ascending order that holds every address once with the flags it was given
    by the rules, and no list of ranges that does so is shorter, as the header
    says ("the minimum number of ranges possible"). *)
Theorem export_filter_minimal rs :
  Forall valid_rule rs ->
  exists f, run_rules rs new_ip_filter = Some f /\
    let '(e4, e6) := ip_export f in
    (ascending e4 /\ describes e4 (fun a => Some (last_rule 0 rs (V4 a))) /\
      forall e, describes e (fun a => Some (last_rule 0 rs (V4 a))) -> (length e4 <= length e)%nat) /\
    (ascending e6 /\ describes e6 (fun a => Some (last_rule 0 rs (V6 a))) /\
      forall e, describes e (fun a => Some (last_rule 0 rs (V6 a))) -> (length e6 <= length e)%nat).
Proof.
  intros Hrs. destruct (new_ip_filter_spec rs Hrs) as (f & E & [H4 H6] & Hat). exists f. split; [done|]. cbn [ip_export]. split.
  - apply export_spec; [done|]. intros a Ha. rewrite access_of_spec by done. f_equal. by apply (Hat (V4 a)).
  - apply export_spec; [done|]. intros a Ha. rewrite access_of_spec by done. f_equal. by apply (Hat (V6 a)).
Qed.

Lemma export_filter_minimal_witness :
  Forall valid_rule overlapping /\
  exists f, run_rules overlapping new_ip_filter = Some f /\
    fst (ip_export f) =
      [IpRange (Bytes [0; 0; 0; 0]) (Bytes [9; 255; 255; 254]) 0; IpRange (Bytes [9; 255; 255; 255]) (Bytes [10; 0; 0; 127]) 1;
       IpRange (Bytes [10; 0; 0; 128]) (Bytes [255; 255; 255; 255]) 0] /\
    describes (fst (ip_export f)) (fun a => Some (last_rule 0 overlapping (V4 a))).
Proof.
  split; [exact overlapping_valid|]. destruct (export_filter_minimal overlapping overlapping_valid) as (f & E & [(_ & Hd & _) _]).
  exists f. split; [exact E|]. split; [|exact Hd]. vm_compute in E. injection E as <-. vm_compute. reflexivity.
Defined.
