(* ===== verification/NodeId.v ===== *)
(** * Node ids of the DHT (node_id.cpp, node_entry.cpp, node_entry.hpp)

    A node id is a string of 20 bytes, the first the highest of a number of 160
    bits; the address of a node is an IPv4 address.  What a node entry has, how
    near two ids are, and how an id is tied to an address. *)

From Stdlib Require Import ZArith Lia.
From stdpp Require Import base numbers list.
From S2P Require Import Prelude.

#[local] Abbreviation node_id := Z.

Definition id_byte (id : node_id) (i : Z) : Z := id / 2 ^ (8 * (19 - i)) mod 256.

(** [operator<<=] of sha1_hash.hpp *)
Definition shift_id (id : node_id) (n : Z) : node_id := Z.shiftl id n mod 2 ^ 160.

(** ** Distances *)

(** The loop over the bits of the first byte that differs, from the highest. *)
Fixpoint high_bit (b : nat) (t : Z) : Z := if 2 ^ Z.of_nat b <=? t then Z.of_nat b else match b with O => 0 | S b => high_bit b t end.

(** The loop over the bytes; [n] bytes are left. *)
Fixpoint distance_bytes (n : nat) (n1 n2 : node_id) : Z :=
  match n with
  | O => 0
  | S byte =>
      let t := Z.lxor (id_byte n1 (19 - Z.of_nat byte)) (id_byte n2 (19 - Z.of_nat byte)) in
      if t =? 0 then distance_bytes byte n1 n2 else Z.of_nat byte * 8 + high_bit 7 t
  end.

Definition distance_exp (n1 n2 : node_id) : Z := distance_bytes 20 n1 n2.

(** The loop of [compare_ref]. *)
Fixpoint compare_bytes (n : nat) (n1 n2 ref : node_id) : bool :=
  match n with
  | O => false
  | S byte =>
      let i := 19 - Z.of_nat byte in
      let lhs := Z.lxor (id_byte n1 i) (id_byte ref i) in
      let rhs := Z.lxor (id_byte n2 i) (id_byte ref i) in
      if lhs <? rhs then true else if rhs <? lhs then false else compare_bytes byte n1 n2 ref
  end.

Definition compare_ref (n1 n2 ref : node_id) : bool := compare_bytes 20 n1 n2 ref.

(** ** Addresses *)

Definition ip_byte (a i : Z) : Z := a / 2 ^ (8 * (3 - i)) mod 256.

(** [is_local] of broadcast_socket.cpp *)
Definition is_local (ip : Z) : bool :=
  (Z.land ip 0xff000000 =? 0x0a000000) || (Z.land ip 0xfff00000 =? 0xac100000) || (Z.land ip 0xffff0000 =? 0xc0a80000) ||
  (Z.land ip 0xffff0000 =? 0xa9fe0000) || (Z.land ip 0xff000000 =? 0x7f000000).

(** The loop [for (; a > 0; a >>= 1)]: the bits of a byte. *)
Fixpoint bits_of (n : nat) (a : Z) : Z := match n with O => 0 | S n => if 0 <? a then 1 + bits_of n (Z.shiftr a 1) else 0 end.

(** [common_bits] of two addresses; [n] bytes are left. *)
Fixpoint common_bits (n : nat) (a1 a2 : Z) : Z :=
  match n with
  | O => 4 * 8
  | S n' =>
      let i := 4 - Z.of_nat n in
      let a := Z.lxor (ip_byte a1 i) (ip_byte a2 i) in
      if a =? 0 then common_bits n' a1 a2 else i * 8 + 8 - bits_of 8 a
  end.

Definition cidr_distance (a1 a2 : Z) : Z := 4 * 8 - common_bits 4 a1 a2.

(** ** Ids from addresses *)

Section generate.
(** [crc32c_32] of the bytes of an address. *)
Context (crc32c_32 : list Z -> Z).

(** The CRC of the address and the random number. *)
Definition address_crc (ip r : Z) : Z :=
  crc32c_32 [Z.lor (Z.land (ip_byte ip 0) 0x03) (Z.shiftl (Z.land r 0x7) 5); Z.land (ip_byte ip 1) 0x0f; Z.land (ip_byte ip 2) 0x3f;
             Z.land (ip_byte ip 3) 0xff].

Fixpoint of_bytes (acc : Z) (l : list Z) : Z := match l with [] => acc | b :: l => of_bytes (acc * 256 + b) l end.

(** [random i] is the result of the [i]-th call of [random()]. *)
Definition generate_id_impl (ip r : Z) (random : Z -> Z) : node_id :=
  let c := address_crc ip r in
  of_bytes 0 ([Z.land (Z.shiftr c 24) 0xff; Z.land (Z.shiftr c 16) 0xff; Z.lor (Z.land (Z.shiftr c 8) 0xf8) (Z.land (random 0) 0x7)] ++
              map (fun i => Z.land (random (i - 2)) 0xff) (seqZ 3 16) ++ [Z.land r 0xff]).

Definition verify_id (nid : node_id) (source_ip : Z) (random : Z -> Z) : bool :=
  if is_local source_ip then true
  else
    let h := generate_id_impl source_ip (id_byte nid 19) random in
    (id_byte nid 0 =? id_byte h 0) && (id_byte nid 1 =? id_byte h 1) && (Z.land (id_byte nid 2) 0xf8 =? Z.land (id_byte h 2) 0xf8).
End generate.

(** ** Node entries *)

(** [min_time()] *)
Definition min_time : Z := - 2 ^ 63.

Record node_entry := NodeEntry {
  ne_last_queried : Z;
  ne_id : node_id;
  ne_a : Z;
  ne_p : Z;
  ne_rtt : Z;
  ne_timeout_count : Z;
}.

#[export] Instance node_entry_eq_dec : EqDecision node_entry.
Proof. solve_decision. Defined.

Definition ep (n : node_entry) : Z * Z := (ne_a n, ne_p n).
Definition pinged (n : node_entry) : bool := negb (ne_timeout_count n =? 0xff).
Definition confirmed (n : node_entry) : bool := ne_timeout_count n =? 0.
Definition fail_count (n : node_entry) : Z := if pinged n then ne_timeout_count n else 0.

Definition with_timeout (c : Z) (n : node_entry) : node_entry := NodeEntry (ne_last_queried n) (ne_id n) (ne_a n) (ne_p n) (ne_rtt n) c.
Definition with_rtt (r : Z) (n : node_entry) : node_entry := NodeEntry (ne_last_queried n) (ne_id n) (ne_a n) (ne_p n) r (ne_timeout_count n).
Definition with_queried (now : Z) (n : node_entry) : node_entry := NodeEntry now (ne_id n) (ne_a n) (ne_p n) (ne_rtt n) (ne_timeout_count n).

Definition set_pinged (n : node_entry) : node_entry := if ne_timeout_count n =? 0xff then with_timeout 0 n else n.
Definition timed_out (n : node_entry) : node_entry :=
  if pinged n && (ne_timeout_count n <? 0xfe) then with_timeout (ne_timeout_count n + 1) n else n.

Definition update_rtt (new_rtt : Z) (n : node_entry) : node_entry :=
  if new_rtt =? 0xffff then n
  else if ne_rtt n =? 0xffff then with_rtt new_rtt n
  else with_rtt ((Z.quot (ne_rtt n * 2) 3 + Z.quot new_rtt 3) mod 2 ^ 16) n.

(** [node_entry(id, ep, rtt, pinged)] at the time [now]. *)
Definition new_node_entry (id : node_id) (ep : Z * Z) (roundtriptime : Z) (pinged : bool) (now : Z) : node_entry :=
  NodeEntry (if pinged then now else min_time) id ep.1 ep.2 (Z.land roundtriptime 0xffff) (if pinged then 0 else 0xff).

Definition matching_prefix (n : node_entry) (mask prefix offset : Z) : bool :=
  Z.land (id_byte (shift_id (ne_id n) offset) 0) mask =? prefix.

(** ** The metric of node ids

    The byte loops of node_id.cpp against the exclusive or of two ids as a
    number, and what the fields of a node entry keep to. *)

(** ** Bytes *)

Definition id_range (x : Z) : Prop := 0 <= x < 2 ^ 160.

(** The byte the loop looks at when [n] more are left. *)
Lemma id_byte_at x n : id_byte x (19 - n) = x / 2 ^ (8 * n) mod 256.
Proof. unfold id_byte. do 3 f_equal. lia. Qed.

Lemma lxor_byte x y n : 0 <= n -> Z.lxor (id_byte x (19 - n)) (id_byte y (19 - n)) = Z.lxor x y / 2 ^ (8 * n) mod 256.
Proof.
  intros Hn. rewrite !id_byte_at. change 256 with (2 ^ 8). rewrite <- !Z.shiftr_div_pow2, <- !Z.land_ones by lia.
  rewrite Z.shiftr_lxor. apply Z.bits_inj'. intros i Hi. rewrite !Z.lxor_spec, !Z.land_spec, !Z.lxor_spec.
  by destruct (Z.testbit (Z.ones 8) i); rewrite ?andb_true_r, ?andb_false_r.
Qed.

(** The low [n + 1] bytes are the byte [n] and the low [n]. *)
Lemma low_bytes x n : 0 <= n -> x mod 2 ^ (8 * (n + 1)) = 2 ^ (8 * n) * (x / 2 ^ (8 * n) mod 256) + x mod 2 ^ (8 * n).
Proof.
  intros Hn. replace (8 * (n + 1)) with (8 * n + 8) by lia. rewrite Z.pow_add_r by lia. rewrite Z.rem_mul_r by lia. change (2 ^ 8) with 256. lia.
Qed.

Lemma high_bit_spec b t : 0 <= t < 2 ^ (Z.of_nat b + 1) -> high_bit b t = Z.log2 t.
Proof.
  revert t. induction b as [|b IH]; intros t Ht; cbn [high_bit].
  - destruct (Z.eq_dec t 0) as [->|]; [done|]. replace t with 1 by (change (2 ^ (Z.of_nat 0 + 1)) with 2 in Ht; lia). done.
  - destruct (Z.leb_spec (2 ^ Z.of_nat (S b)) t) as [Hle|Hlt].
    + symmetry. apply Z.log2_unique; [lia|]. rewrite <- Z.add_1_r. lia.
    + apply IH. split; [lia|]. by replace (Z.of_nat b + 1) with (Z.of_nat (S b)) by lia.
Qed.

(** ** The loops *)

Lemma distance_bytes_spec n x y : distance_bytes n x y = Z.log2 (Z.lxor x y mod 2 ^ (8 * Z.of_nat n)).
Proof.
  induction n as [|n IH]; cbn [distance_bytes]; [by rewrite Z.mod_1_r|].
  rewrite lxor_byte by lia. replace (Z.of_nat (S n)) with (Z.of_nat n + 1) by lia. rewrite low_bytes by lia.
  set (t := Z.lxor x y / 2 ^ (8 * Z.of_nat n) mod 256). set (low := Z.lxor x y mod 2 ^ (8 * Z.of_nat n)) in *.
  assert (0 <= t < 256) as Ht by (apply Z.mod_pos_bound; lia).
  assert (0 <= low < 2 ^ (8 * Z.of_nat n)) as Hl by (apply Z.mod_pos_bound; lia).
  destruct (Z.eqb_spec t 0) as [->|Hne]; [by rewrite Z.mul_0_r|]. rewrite high_bit_spec by (cbn; lia).
  symmetry. pose proof (Z.log2_spec t ltac:(lia)). pose proof (Z.log2_nonneg t). apply Z.log2_unique; [lia|].
  replace (Z.of_nat n * 8 + Z.log2 t) with (8 * Z.of_nat n + Z.log2 t) by lia. rewrite <- Z.add_succ_r, !Z.pow_add_r by lia. nia.
Qed.

Lemma lxor_range x y : id_range x -> id_range y -> id_range (Z.lxor x y).
Proof.
  unfold id_range. intros Hx Hy. split; [apply Z.lxor_nonneg; lia|]. destruct (Z.eq_dec (Z.lxor x y) 0) as [->|Hne]; [done|].
  apply Z.log2_lt_pow2; [pose proof (proj2 (Z.lxor_nonneg x y)); lia|]. eapply Z.le_lt_trans; [apply Z.log2_lxor; lia|].
  apply Z.max_lub_lt; (destruct (Z.eq_dec x 0) as [->|], (Z.eq_dec y 0) as [->|]; try done; apply Z.log2_lt_pow2; lia).
Qed.

Lemma distance_exp_spec x y : id_range x -> id_range y -> distance_exp x y = Z.log2 (Z.lxor x y).
Proof.
  intros Hx Hy. unfold distance_exp. rewrite distance_bytes_spec. f_equal. apply Z.mod_small. by apply lxor_range.
Qed.

Lemma distance_exp_bound x y : 0 <= distance_exp x y <= 159.
Proof.
  unfold distance_exp. rewrite distance_bytes_spec. split; [apply Z.log2_nonneg|].
  pose proof (Z.mod_pos_bound (Z.lxor x y) (2 ^ (8 * Z.of_nat 20)) ltac:(lia)) as Hm. set (m := _ mod _) in *. clearbody m.
  destruct (Z.eq_dec m 0) as [->|]; [done|]. enough (Z.log2 m < 160) by lia. apply Z.log2_lt_pow2; [lia|]. apply Hm.
Qed.

Lemma compare_bytes_spec n x y ref :
  compare_bytes n x y ref = (Z.lxor x ref mod 2 ^ (8 * Z.of_nat n) <? Z.lxor y ref mod 2 ^ (8 * Z.of_nat n)).
Proof.
  induction n as [|n IH]; cbn [compare_bytes]; [by rewrite !Z.mod_1_r|].
  rewrite !lxor_byte by lia. replace (Z.of_nat (S n)) with (Z.of_nat n + 1) by lia. rewrite !low_bytes by lia. rewrite IH.
  set (t := Z.lxor x ref / 2 ^ (8 * Z.of_nat n) mod 256). set (u := Z.lxor y ref / 2 ^ (8 * Z.of_nat n) mod 256).
  assert (0 <= Z.lxor x ref mod 2 ^ (8 * Z.of_nat n) < 2 ^ (8 * Z.of_nat n)) by (apply Z.mod_pos_bound; lia).
  assert (0 <= Z.lxor y ref mod 2 ^ (8 * Z.of_nat n) < 2 ^ (8 * Z.of_nat n)) by (apply Z.mod_pos_bound; lia).
  destruct (Z.ltb_spec t u); [symmetry; apply Z.ltb_lt; nia|]. destruct (Z.ltb_spec u t); [symmetry; apply Z.ltb_ge; nia|].
  replace u with t by lia. apply eq_bool_prop_intro. rewrite !Is_true_true, !Z.ltb_lt. lia.
Qed.

Lemma compare_ref_spec x y ref : id_range x -> id_range y -> id_range ref ->
  compare_ref x y ref = (Z.lxor x ref <? Z.lxor y ref).
Proof.
  intros Hx Hy Hr. unfold compare_ref. rewrite compare_bytes_spec. pose proof (lxor_range x ref Hx Hr). pose proof (lxor_range y ref Hy Hr).
  unfold id_range in *. by rewrite !Z.mod_small by (cbn; lia).
Qed.

(** ** Ids from addresses *)

Lemma of_bytes_app acc l k : of_bytes acc (l ++ k) = of_bytes (of_bytes acc l) k.
Proof. revert acc. induction l as [|b l IH]; intros acc; [done|apply IH]. Qed.

Lemma of_bytes_split acc l : Forall (fun b => 0 <= b < 256) l ->
  of_bytes acc l = acc * 256 ^ zlen l + of_bytes 0 l /\ 0 <= of_bytes 0 l < 256 ^ zlen l.
Proof.
  intros Hl. revert acc. induction Hl as [|b l Hb Hl IH]; intros acc; cbn [of_bytes]; [change (256 ^ zlen (@nil Z)) with 1; lia|].
  rewrite zlen_cons, Z.pow_add_r by lia. destruct (IH (acc * 256 + b)) as [-> Hr]. destruct (IH (0 * 256 + b)) as [-> _].
  change (256 ^ 1) with 256. set (w := 256 ^ zlen l) in *. nia.
Qed.

Lemma id_byte_of_bytes l k b : zlen (l ++ b :: k) = 20 -> Forall (fun b => 0 <= b < 256) (l ++ b :: k) ->
  id_byte (of_bytes 0 (l ++ b :: k)) (zlen l) = b.
Proof.
  intros Hlen [_ [Hb Hk]%Forall_cons]%Forall_app. rewrite of_bytes_app. cbn [of_bytes]. destruct (of_bytes_split (of_bytes 0 l * 256 + b) k Hk) as [-> Hr].
  rewrite zlen_app, zlen_cons in Hlen. unfold id_byte. replace (8 * (19 - zlen l)) with (8 * zlen k) by lia.
  replace (2 ^ (8 * zlen k)) with (256 ^ zlen k) by (change 256 with (2 ^ 8); by rewrite <- Z.pow_mul_r by lia).
  rewrite Z.div_add_l by lia. rewrite (Z.div_small (of_bytes 0 k)), Z.add_0_r by lia. rewrite Z.add_comm, Z.mod_add, Z.mod_small; lia.
Qed.

Lemma land_byte x m : 0 <= m < 256 -> 0 <= Z.land x m < 256.
Proof.
  intros Hm. split; [apply Z.land_nonneg; lia|]. destruct (Z.eq_dec (Z.land x m) 0) as [->|Hne]; [done|].
  assert (0 <= Z.land x m) by (apply Z.land_nonneg; lia). enough (Z.land x m = Z.land x m mod 256) as -> by (apply Z.mod_pos_bound; lia).
  change 256 with (2 ^ 8) in *. rewrite <- Z.land_ones by lia. rewrite <- Z.land_assoc. f_equal. rewrite Z.land_ones by lia. by rewrite Z.mod_small.
Qed.

Lemma lor_byte x y : 0 <= x < 256 -> 0 <= y < 256 -> 0 <= Z.lor x y < 256.
Proof.
  intros Hx Hy. assert (Z.lor x y = Z.lor x y mod 2 ^ 8) as ->; [|by apply Z.mod_pos_bound].
  rewrite <- Z.land_ones, Z.land_lor_distr_l, !Z.land_ones by lia. by rewrite !Z.mod_small by (cbn; lia).
Qed.

Section generate.
Context (crc32c_32 : list Z -> Z) (ip r : Z) (random : Z -> Z).

Definition generated_bytes : list Z :=
  let c := address_crc crc32c_32 ip r in
  [Z.land (Z.shiftr c 24) 0xff; Z.land (Z.shiftr c 16) 0xff; Z.lor (Z.land (Z.shiftr c 8) 0xf8) (Z.land (random 0) 0x7)] ++
  map (fun i => Z.land (random (i - 2)) 0xff) (seqZ 3 16) ++ [Z.land r 0xff].

Lemma generated_range : Forall (fun b => 0 <= b < 256) generated_bytes.
Proof.
  unfold generated_bytes. repeat (apply Forall_cons; split); try (apply land_byte; lia).
  - apply lor_byte; apply land_byte; lia.
  - constructor.
Qed.

Lemma length_generated : zlen generated_bytes = 20.
Proof. unfold generated_bytes. by rewrite !zlen_app, length_map, length_seqZ. Qed.

(** The bytes of a generated id that are checked, and the one that is the
    random number. *)
Lemma generated_byte i b : zget generated_bytes i = Some b -> id_byte (generate_id_impl crc32c_32 ip r random) i = b.
Proof.
  intros Hb. pose proof (zget_Some_bound _ _ _ Hb) as Hi. unfold zget in Hb. rewrite decide_True in Hb by lia.
  apply list_elem_of_split_length in Hb as (l & k & E & Hl). change (generate_id_impl crc32c_32 ip r random) with (of_bytes 0 generated_bytes).
  pose proof generated_range as Hr. pose proof length_generated as Hlen. rewrite E in Hr, Hlen |- *. replace i with (zlen l) by lia. by apply id_byte_of_bytes.
Qed.
End generate.

Lemma land_twice x m : Z.land (Z.land x m) m = Z.land x m.
Proof. by rewrite <- Z.land_assoc, Z.land_diag. Qed.

(** An id that is generated for an address passes the check of it. *)
Lemma verify_generated crc32c_32 ip r random random' :
  verify_id crc32c_32 (generate_id_impl crc32c_32 ip r random) ip random' = true.
Proof.
  unfold verify_id. destruct (is_local ip); [done|]. set (nid := generate_id_impl crc32c_32 ip r random).
  assert (id_byte nid 19 = Z.land r 0xff) as -> by by apply generated_byte.
  assert (address_crc crc32c_32 ip (Z.land r 0xff) = address_crc crc32c_32 ip r) as Ec by (unfold address_crc; by rewrite <- Z.land_assoc).
  pose proof (generated_byte crc32c_32 ip r random) as Hn. pose proof (generated_byte crc32c_32 ip (Z.land r 0xff) random') as Hh.
  unfold generated_bytes in Hh. rewrite Ec in Hh. rewrite (Hh 0 _ eq_refl), (Hh 1 _ eq_refl), (Hh 2 _ eq_refl). unfold nid.
  rewrite (Hn 0 _ eq_refl), (Hn 1 _ eq_refl), (Hn 2 _ eq_refl), !Z.eqb_refl. cbn [andb].
  rewrite !Z.land_lor_distr_l, <- !Z.land_assoc. change (Z.land 7 248) with 0. by rewrite !Z.land_0_r, !Z.lor_0_r, Z.eqb_refl.
Qed.

(** ** Node entries *)

Record entry_range (n : node_entry) : Prop := {
  er_id : id_range (ne_id n);
  er_rtt : 0 <= ne_rtt n < 2 ^ 16;
  er_timeout : 0 <= ne_timeout_count n < 2 ^ 8;
}.

(** What a node is known by. *)
Definition node_key (n : node_entry) : Z * (Z * Z) := (ne_id n, ep n).

Lemma update_rtt_key r n : node_key (update_rtt r n) = node_key n.
Proof. unfold update_rtt. by repeat case_match. Qed.

Lemma update_rtt_range r n : 0 <= r < 2 ^ 16 -> entry_range n -> entry_range (update_rtt r n).
Proof. intros Hr [Hi Hn Ht]. unfold update_rtt. repeat case_match; (split; [done| |done]); cbn; try done. apply Z.mod_pos_bound. lia. Qed.

Lemma update_rtt_timeout r n : ne_timeout_count (update_rtt r n) = ne_timeout_count n.
Proof. unfold update_rtt. by repeat case_match. Qed.

Lemma timed_out_key n : node_key (timed_out n) = node_key n.
Proof. unfold timed_out. by case_match. Qed.

Lemma timed_out_range n : entry_range n -> entry_range (timed_out n).
Proof.
  intros [Hi Hn Ht]. unfold timed_out. destruct (pinged n); cbn; [|done]. destruct (Z.ltb_spec (ne_timeout_count n) 254); [|done]. split; cbn; lia || done.
Qed.

Lemma new_node_range i e r b now : id_range i -> entry_range (new_node_entry i e r b now).
Proof.
  intros Hi. split; cbn; [done| |by destruct b]. change 65535 with (Z.ones 16). rewrite Z.land_ones by lia. apply Z.mod_pos_bound. lia.
Qed.
