(* ===== verification/RoutingTable.v ===== *)
(** * The routing table of the DHT (kademlia/routing_table.cpp)

    A vector of buckets, each with its live nodes and its replacements, and
    the multiset of the addresses in them.  A pointer or an iterator to a node
    is the bucket, which of its two vectors, and the index.  [None] is a
    dereferenced end, an access outside a vector, an address that is not in the
    multiset when it is erased, or a loop that does not end. *)

From Stdlib Require Import ZArith Lia.
From stdpp Require Import base numbers list gmultiset.
From S2P Require Import Prelude NodeId.

(** ** The state *)

(** The fields of [dht_settings] that are read. *)
Record dht_settings := Settings {
  enforce_node_id : bool;
  restrict_routing_ips : bool;
  extended_routing_table : bool;
  max_fail_count : Z;
}.

Record routing_table_node := Bucket { replacements : list node_entry; live_nodes : list node_entry }.

Record routing_table := Table {
  m_settings : dht_settings;
  m_buckets : list routing_table_node;
  m_id : Z;
  m_depth : Z;
  m_router_nodes : list (Z * Z);
  m_ips : gmultiset Z;
  m_bucket_size : Z;
}.

Definition with_buckets (l : list routing_table_node) (t : routing_table) : routing_table :=
  Table (m_settings t) l (m_id t) (m_depth t) (m_router_nodes t) (m_ips t) (m_bucket_size t).
Definition with_ips (ips : gmultiset Z) (t : routing_table) : routing_table :=
  Table (m_settings t) (m_buckets t) (m_id t) (m_depth t) (m_router_nodes t) ips (m_bucket_size t).
Definition with_depth (d : Z) (t : routing_table) : routing_table :=
  Table (m_settings t) (m_buckets t) (m_id t) d (m_router_nodes t) (m_ips t) (m_bucket_size t).

(** Which vector of a bucket. *)
Definition nodes_of (live : bool) (b : routing_table_node) : list node_entry := if live then live_nodes b else replacements b.
Definition set_nodes (live : bool) (l : list node_entry) (b : routing_table_node) : routing_table_node :=
  if live then Bucket (replacements b) l else Bucket l (live_nodes b).

Definition set_bucket (i : nat) (live : bool) (l : list node_entry) (t : routing_table) : routing_table :=
  with_buckets (alter (set_nodes live l) i (m_buckets t)) t.

(** [*j = n] through a pointer. *)
Definition set_node (i : nat) (live : bool) (k : nat) (n : node_entry) (t : routing_table) : routing_table :=
  with_buckets (alter (fun b => set_nodes live (<[k := n]> (nodes_of live b)) b) i (m_buckets t)) t.

(** [m_ips.insert] and [erase_one] *)
Definition insert_ip (ip : Z) (t : routing_table) : routing_table := with_ips ({[+ ip +]} ⊎ m_ips t) t.
Definition erase_one (ip : Z) (t : routing_table) : option routing_table :=
  if decide (ip ∈ m_ips t) then Some (with_ips (m_ips t ∖ {[+ ip +]}) t) else None.

(** ** Small queries *)

Definition new_routing_table (id bucket_size : Z) (settings : dht_settings) : routing_table :=
  Table settings [] id 0 [] ∅ bucket_size.

Definition bucket_limit (bucket : Z) (t : routing_table) : Z :=
  if negb (extended_routing_table (m_settings t)) then m_bucket_size t
  else match zget [16; 8; 4; 2] bucket with Some x => m_bucket_size t * x | None => m_bucket_size t end.

Definition count_live (t : routing_table) : Z := zsum (fun b => zlen (live_nodes b)) (m_buckets t).

(** [size()] *)
Definition size (t : routing_table) : Z * Z * Z :=
  (count_live t, zsum (fun b => zlen (replacements b)) (m_buckets t),
   zsum (fun b => zlen (filter (fun n => confirmed n = true) (live_nodes b))) (m_buckets t)).

(** The loop of [num_global_nodes]. *)
Fixpoint deepest (l : list routing_table_node) (bucket size bucket_size : Z) : Z * Z :=
  match l with
  | [] => (bucket, size)
  | b :: l => let size := zlen (live_nodes b) in if size <? bucket_size then (bucket, size) else deepest l (bucket + 1) size bucket_size
  end.

(** The shifts stay inside 64 bits while fewer than fifty buckets are full. *)
Definition num_global_nodes (t : routing_table) : Z :=
  let '(deepest_bucket, deepest_size) := deepest (m_buckets t) 0 0 (m_bucket_size t) in
  if deepest_bucket =? 0 then 1 + deepest_size
  else if deepest_size <? Z.quot (m_bucket_size t) 2 then Z.shiftl 1 deepest_bucket * m_bucket_size t
  else Z.shiftl 2 deepest_bucket * deepest_size.

(** The two loops of [depth]; [live] is the vector of sizes. *)
Fixpoint deeper (n : nat) (d half : Z) (live : list Z) : Z :=
  match n with
  | O => d
  | S n => match zget live (d + 1) with Some x => if half <=? x then deeper n (d + 1) half live else d | None => d end
  end.

Fixpoint shallower (n : nat) (d half : Z) (live : list Z) : Z :=
  match n with
  | O => d
  | S n =>
      if 0 <? d then match zget live (d - 1) with Some x => if x <? half then shallower n (d - 1) half live else d | None => d end
      else d
  end.

Definition depth (t : routing_table) : Z * routing_table :=
  let n := length (m_buckets t) in
  let live := map (fun b => zlen (live_nodes b)) (m_buckets t) in
  let d := if Z.of_nat n <=? m_depth t then Z.of_nat n - 1 else m_depth t in
  if d <? 0 then (d, with_depth d t)
  else
    let d := deeper n d (Z.quot (m_bucket_size t) 2) live in
    let d := shallower n d (Z.quot (m_bucket_size t) 2) live in
    (d, with_depth d t).

Definition is_full (bucket : Z) (t : routing_table) : bool :=
  match zget (m_buckets t) bucket with
  | Some b => (bucket_limit bucket t <=? zlen (live_nodes b)) && (m_bucket_size t <=? zlen (replacements b))
  | None => false
  end.

(** ** Finding nodes and buckets *)

(** The number of the bucket an id goes into, of [num_buckets]. *)
Definition bucket_index (own id : Z) (num_buckets : nat) : nat := Z.to_nat (Z.min (159 - distance_exp own id) (Z.of_nat num_buckets - 1)).

Definition find_bucket (id : Z) (t : routing_table) : nat * routing_table :=
  let t := match m_buckets t with [] => with_buckets [Bucket [] []] t | _ => t end in
  (bucket_index (m_id t) id (length (m_buckets t)), t).

Definition compare_ip_cidr (lhs rhs : node_entry) : bool := cidr_distance (ne_a lhs) (ne_a rhs) <=? 8.

(** A pointer to a node: its bucket, whether it is live, its index. *)
Abbreviation node_ptr := (nat * bool * nat)%type.

(** [find_node(ep, bucket)] *)
Fixpoint find_endpoint (e : Z * Z) (i : nat) (l : list routing_table_node) : option (node_ptr * node_entry) :=
  match l with
  | [] => None
  | b :: l =>
      match list_find (fun n => ep n = e) (replacements b) with
      | Some (k, n) => Some ((i, false, k), n)
      | None =>
          match list_find (fun n => ep n = e) (live_nodes b) with
          | Some (k, n) => Some ((i, true, k), n)
          | None => find_endpoint e (S i) l
          end
      end
  end.

Definition remove_node (w : node_ptr) (n : node_entry) (t : routing_table) : option routing_table :=
  let '(i, live, k) := w in
  t ← erase_one (ne_a n) t;
  b ← m_buckets t !! i;
  Some (set_bucket i live (delete k (nodes_of live b)) t).

(** [std::max_element]: the first of the largest, with its index. *)
Definition max_step {A} (f : A -> Z) (best x : A) : A := if f best <? f x then x else best.
Definition max_element {A} (f : A -> Z) (l : list A) : option A := match l with [] => None | x :: l => Some (foldl (max_step f) x l) end.

Definition indexed {A} (l : list A) : list (nat * A) := zip (seq 0 (length l)) l.

(** ** Adding a node *)

Inductive add_node_status_t := failed_to_add | node_added | need_bucket_split.

(** The branch of a node whose address is in the table: a result, or the table
    to go on with. *)
Definition known_address (e : node_entry) (t : routing_table) : option ((add_node_status_t * routing_table) + routing_table) :=
  if decide (ne_a e ∈ m_ips t) then
    match find_endpoint (ep e) 0 (m_buckets t) with
    | None => if restrict_routing_ips (m_settings t) then Some (inl (failed_to_add, t)) else Some (inr t)
    | Some ((i, live, k) as w, existing) =>
        if ne_id existing =? ne_id e then
          let n := with_timeout 0 existing in
          let n := if pinged e then with_queried (ne_last_queried e) (update_rtt (ne_rtt e) n) else n in
          Some (inl (node_added, set_node i live k n t))
        else if negb (pinged e) then if restrict_routing_ips (m_settings t) then Some (inl (failed_to_add, t)) else Some (inr t)
        else t ← remove_node w existing t; Some (inr t)
    end
  else Some (inr t).

(** [mask <<= 1] on 32 bits until the bit 0x80 is set; the number of shifts. *)
Fixpoint mask_shift (n : nat) (mask : Z) : option Z :=
  match n with
  | O => None
  | S n => if Z.land mask 0x80 =? 0 then option_map (Z.add 1) (mask_shift n (u32 (Z.shiftl mask 1))) else Some 0
  end.

(** The prefixes that have been seen. *)
Inductive slot := slot_end | slot_node (k : nat) | slot_placeholder.

(** The loop over the live nodes that collects duplicate prefixes. *)
Fixpoint duplicates (l : list (nat * node_entry)) (mask shift offset : Z) (prefix : list slot) (nodes : list nat) : option (list nat) :=
  match l with
  | [] => Some nodes
  | (k, n) :: l =>
      let this_prefix := Z.shiftr (Z.land (id_byte (shift_id (ne_id n) offset) 0) mask) shift in
      s ← zget prefix this_prefix;
      match s with
      | slot_end => duplicates l mask shift offset prefix nodes
      | slot_placeholder => duplicates l mask shift offset prefix (nodes ++ [k])
      | slot_node k' =>
          prefix ← zset prefix this_prefix slot_placeholder;
          duplicates l mask shift offset prefix (nodes ++ [k; k'])
      end
  end.

(** [*j = e], with the addresses. *)
Definition replace_live (i k : nat) (j e : node_entry) (t : routing_table) : option routing_table :=
  t ← erase_one (ne_a j) t;
  Some (insert_ip (ne_a e) (set_node i true k e t)).

(** The part of [add_node_impl] that looks for a node to replace by a node that
    was pinged: the table with the node replaced, if there is one. *)
Definition replace_node (e : node_entry) (i : nat) (b : list node_entry) (t : routing_table) : option (option routing_table) :=
  match list_find (fun n => pinged n = false) b with
  | Some (k, j) => t ← replace_live i k j e t; Some (Some t)
  | None =>
      '(k, j) ← max_element (fun kn => fail_count kn.2) (indexed b);
      if 0 <? fail_count j then t ← replace_live i k j e t; Some (Some t)
      else
        let mask := u32 (bucket_limit (Z.of_nat i) t - 1) in
        shift ← mask_shift 33 mask;
        let mask := Z.land (Z.shiftl 0xff shift) 0xff in
        let offset := if Nat.eqb (S i) (length (m_buckets t)) then Z.of_nat i else Z.of_nat i + 1 in
        let candidate_prefix := Z.land (id_byte (shift_id (ne_id e) offset) 0) mask in
        let nodes := filter (fun kn => matching_prefix kn.2 mask candidate_prefix offset = true) (indexed b) in
        '(force_replace, nodes) ←
          (if bool_decide (nodes = []) then
             d ← duplicates (indexed b) mask shift offset (replicate (Z.to_nat (Z.shiftl 1 (8 - shift))) slot_end) [];
             Some (if bool_decide (d = []) then (false, indexed b) else (true, omap (fun k => pair k <$> b !! k) d))
           else Some (false, nodes));
        '(k, j) ← max_element (fun kn => ne_rtt kn.2) nodes;
        if force_replace || (ne_rtt e <? ne_rtt j) then t ← replace_live i k j e t; Some (Some t) else Some None
  end.

(** The part that puts a node into the replacements. *)
Definition add_replacement (e : node_entry) (i : nat) (t : routing_table) : option routing_table :=
  b ← m_buckets t !! i;
  match list_find (fun n => ne_id n = ne_id e) (replacements b) with
  | Some (k, j) => Some (if decide (ep j = ep e) then set_node i false k (set_pinged j) t else t)
  | None =>
      t ←
        (if m_bucket_size t <=? zlen (replacements b) then
           '(k, j) ←
             match list_find (fun n => pinged n = false) (replacements b) with
             | Some kj => Some kj
             | None => pair O <$> replacements b !! O
             end;
           t ← erase_one (ne_a j) t;
           Some (set_bucket i false (delete k (replacements b)) t)
         else Some t);
      b ← m_buckets t !! i;
      Some (insert_ip (ne_a e) (set_bucket i false (replacements b ++ [e]) t))
  end.

(** Whether a node that goes into bucket [i] can split it. *)
Definition can_split (e : node_entry) (i : nat) (t : routing_table) : bool :=
  Nat.eqb (S i) (length (m_buckets t)) && (Z.of_nat (length (m_buckets t)) <? 159) && (fail_count e =? 0) &&
  match i with O => true | S i => match m_buckets t !! i with Some b => 1 <? zlen (live_nodes b) | None => false end end.

(** From the label [ip_ok]. *)
Definition place_node (e : node_entry) (i : nat) (t : routing_table) : option (add_node_status_t * routing_table) :=
  b ← m_buckets t !! i;
  let split := can_split e i t in
  let limit := if split then bucket_limit (Z.of_nat i + 1) t else bucket_limit (Z.of_nat i) t in
  if zlen (live_nodes b) <? limit then Some (node_added, insert_ip (ne_a e) (set_bucket i true (live_nodes b ++ [e]) t))
  else
    r ← (if pinged e && (fail_count e =? 0) then replace_node e i (live_nodes b) t else Some None);
    match r with
    | Some t => Some (node_added, t)
    | None => if split then Some (need_bucket_split, t) else t ← add_replacement e i t; Some (node_added, t)
    end.

(** A node that is in the replacements is pulled out: the result, or the node
    and the table to go on with. *)
Definition pull_replacement (e : node_entry) (i : nat) (t : routing_table)
  : option ((add_node_status_t * routing_table) + (node_entry * routing_table)) :=
  b ← m_buckets t !! i;
  match list_find (fun n => ne_id n = ne_id e) (replacements b) with
  | None => Some (inr (e, t))
  | Some (k, j) =>
      if decide (ep j = ep e) then
        let e := update_rtt (ne_rtt e) (with_timeout 0 j) in
        t ← erase_one (ne_a e) t;
        Some (inr (e, set_bucket i false (delete k (replacements b)) t))
      else Some (inl (failed_to_add, t))
  end.

Definition close_ip (e : node_entry) (i : nat) (t : routing_table) : bool :=
  match m_buckets t !! i with
  | Some b => existsb (fun n => compare_ip_cidr n e) (live_nodes b ++ replacements b)
  | None => false
  end.

(** From the second half of [add_node_impl]. *)
Definition insert_node (e : node_entry) (t : routing_table) : option (add_node_status_t * routing_table) :=
  let '(i, t) := find_bucket (ne_id e) t in
  b ← m_buckets t !! i;
  match list_find (fun n => ne_id n = ne_id e) (live_nodes b) with
  | Some (k, j) =>
      if decide (ep j = ep e) then Some (node_added, set_node i true k (update_rtt (ne_rtt e) (with_timeout 0 j)) t)
      else Some (failed_to_add, t)
  | None =>
      r ← pull_replacement e i t;
      match r with
      | inl r => Some r
      | inr (e, t) => if restrict_routing_ips (m_settings t) && close_ip e i t then Some (failed_to_add, t) else place_node e i t
      end
  end.

Definition add_node_impl (e : node_entry) (t : routing_table) : option (add_node_status_t * routing_table) :=
  if decide (ep e ∈ m_router_nodes t) then Some (failed_to_add, t)
  else if ne_id e =? m_id t then Some (failed_to_add, t)
  else
    r ← known_address e t;
    match r with inl r => Some r | inr t => insert_node e t end.

(** ** Splitting the last bucket *)

(** The loop over the replacements of the bucket: [b] and [nb] are the live
    nodes of the two buckets, [limit] and [new_limit] their sizes. *)
Fixpoint split_replacements (far : node_entry -> bool) (limit new_limit : Z) (rb b nb keep nrb : list node_entry)
  : list node_entry * list node_entry * list node_entry * list node_entry :=
  match rb with
  | [] => (b, nb, keep, nrb)
  | j :: rb =>
      if far j then
        if limit <=? zlen b then split_replacements far limit new_limit rb b nb (keep ++ [j]) nrb
        else split_replacements far limit new_limit rb (b ++ [j]) nb keep nrb
      else if zlen nb <? new_limit then split_replacements far limit new_limit rb b (nb ++ [j]) keep nrb
      else split_replacements far limit new_limit rb b nb keep (nrb ++ [j])
  end.

Definition split_bucket (t : routing_table) : option routing_table :=
  let i := (length (m_buckets t) - 1)%nat in
  old ← m_buckets t !! i;
  let limit := bucket_limit (Z.of_nat i) t in
  let new_limit := bucket_limit (Z.of_nat i + 1) t in
  let far n := 159 - Z.of_nat i <=? distance_exp (m_id t) (ne_id n) in
  let b := filter (fun n => far n = true) (live_nodes old) in
  let nb := filter (fun n => far n = false) (live_nodes old) in
  let rb := replacements old ++ drop (Z.to_nat limit) b in
  let b := take (Z.to_nat limit) b in
  let '(b, nb, rb, nrb) := split_replacements far limit new_limit rb b nb [] [] in
  Some (with_buckets (<[i := Bucket rb b]> (m_buckets t) ++ [Bucket nrb nb]) t).

(** The loop of [add_node]; it ends within 51 rounds. *)
Fixpoint split_and_add (n : nat) (e : node_entry) (t : routing_table) : option (bool * routing_table) :=
  match n with
  | O => None
  | S n =>
      t ← split_bucket t;
      if 50 <? zlen (m_buckets t) then
        '(s, t) ← add_node_impl e t;
        Some (match s with node_added => true | _ => false end, t)
      else
        new ← m_buckets t !! (length (m_buckets t) - 1)%nat;
        if bucket_limit (zlen (m_buckets t) - 1) t <? zlen (live_nodes new) then split_and_add n e t
        else
          '(s, t) ← add_node_impl e t;
          match s with
          | failed_to_add => Some (false, t)
          | node_added => Some (true, t)
          | need_bucket_split => split_and_add n e t
          end
  end.

Definition add_node (e : node_entry) (t : routing_table) : option (bool * routing_table) :=
  '(s, t) ← add_node_impl e t;
  match s with
  | failed_to_add => Some (false, t)
  | node_added => Some (true, t)
  | need_bucket_split => split_and_add 51 e t
  end.

(** ** The other operations *)

Fixpoint add_nodes (l : list node_entry) (t : routing_table) : option routing_table :=
  match l with [] => Some t | e :: l => '(_, t) ← add_node e t; add_nodes l t end.

Definition update_node_id (id : Z) (t : routing_table) : option routing_table :=
  let old := m_buckets t in
  add_nodes (concat (map live_nodes old) ++ concat (map replacements old))
    (Table (m_settings t) [] id (m_depth t) (m_router_nodes t) ∅ (m_bucket_size t)).

Definition add_router_node (router : Z * Z) (t : routing_table) : routing_table :=
  Table (m_settings t) (m_buckets t) (m_id t) (m_depth t) (if decide (router ∈ m_router_nodes t) then m_router_nodes t else router :: m_router_nodes t)
    (m_ips t) (m_bucket_size t).

Section operations.
Context (crc32c_32 : list Z -> Z).

Definition verify_node_address (t : routing_table) (id addr : Z) (random : Z -> Z) : bool :=
  negb (enforce_node_id (m_settings t)) || verify_id crc32c_32 id addr random.

Definition heard_about (id : Z) (e : Z * Z) (now : Z) (random : Z -> Z) (t : routing_table) : option routing_table :=
  if verify_node_address t id e.1 random then '(_, t) ← add_node (new_node_entry id e 0xffff false now) t; Some t else Some t.

Definition node_seen (id : Z) (e : Z * Z) (rtt now : Z) (random : Z -> Z) (t : routing_table) : option (bool * routing_table) :=
  if verify_node_address t id e.1 random then add_node (new_node_entry id e rtt true now) t else Some (false, t).
End operations.

Section sorting.
(** [std::sort] with a comparison. *)
Context (sort : (node_entry -> node_entry -> bool) -> list node_entry -> list node_entry).

Definition node_failed (nid : Z) (e : Z * Z) (t : routing_table) : option routing_table :=
  if nid =? m_id t then Some t
  else
    let '(i, t) := find_bucket nid t in
    b ← m_buckets t !! i;
    match list_find (fun n => ne_id n = nid) (live_nodes b) with
    | None =>
        match list_find (fun n => ne_id n = nid) (replacements b) with
        | None => Some t
        | Some (k, j) => Some (if decide (ep j = e) then set_node i false k (timed_out j) t else t)
        end
    | Some (k, j) =>
        if decide (ep j = e) then
          match replacements b with
          | [] =>
              let j := timed_out j in
              if (max_fail_count (m_settings t) <=? fail_count j) || negb (pinged j) then
                t ← erase_one (ne_a j) t;
                Some (set_bucket i true (delete k (live_nodes b)) t)
              else Some (set_node i true k j t)
          | _ :: _ =>
              t ← erase_one (ne_a j) t;
              let rb := sort (fun x y => ne_rtt x <? ne_rtt y) (replacements b) in
              '(k', j') ← match list_find (fun n => pinged n = true) rb with Some kj => Some kj | None => pair O <$> rb !! O end;
              Some (set_bucket i false (delete k' rb) (set_bucket i true (delete k (live_nodes b) ++ [j']) t))
          end
        else Some t
    end.

(** The nodes of a bucket that [find_node] takes. *)
Definition wanted (include_failed : bool) (b : routing_table_node) : list node_entry :=
  if include_failed then live_nodes b else filter (fun n => confirmed n = true) (live_nodes b).

(** A loop of [find_node] over buckets: the nodes, and whether it is done. *)
Fixpoint collect (target : Z) (include_failed : bool) (count : Z) (bs : list routing_table_node) (l : list node_entry) : list node_entry * bool :=
  match bs with
  | [] => (l, false)
  | b :: bs =>
      let l' := l ++ wanted include_failed b in
      if zlen l' =? count then (l', true)
      else if count <? zlen l' then
        (take (Z.to_nat count) (l ++ sort (fun x y => compare_ref (ne_id x) (ne_id y) target) (wanted include_failed b)), true)
      else collect target include_failed count bs l'
  end.

Definition find_node (target : Z) (include_failed : bool) (count : Z) (t : routing_table) : list node_entry * routing_table :=
  let count := if count =? 0 then m_bucket_size t else count in
  let '(i, t) := find_bucket target t in
  let '(l, done) := collect target include_failed count (drop i (m_buckets t)) [] in
  if done then (l, t) else ((collect target include_failed count (rev (take i (m_buckets t))) l).1, t).
End sorting.

(** The scan of [next_refresh] over a bucket: the candidate, and whether the
    scan is over. *)
Fixpoint scan_refresh (own : Z) (i : nat) (l : list (nat * node_entry)) (candidate : option (nat * nat * node_entry))
  : option (nat * nat * node_entry) * bool :=
  match l with
  | [] => (candidate, false)
  | (k, j) :: l =>
      if ne_id j =? own then scan_refresh own i l candidate
      else if ne_last_queried j =? min_time then (Some (i, k, j), true)
      else
        let better := match candidate with None => true | Some (_, _, c) => ne_last_queried j <? ne_last_queried c end in
        scan_refresh own i l (if better then Some (i, k, j) else candidate)
  end.

(** The scan over the buckets, from the last; [n] are left. *)
Fixpoint scan_buckets (own : Z) (n : nat) (l : list routing_table_node) (candidate : option (nat * nat * node_entry)) : option (nat * nat * node_entry) :=
  match n with
  | O => candidate
  | S n =>
      match l !! n with
      | None => candidate
      | Some b => let '(c, out) := scan_refresh own n (indexed (live_nodes b)) candidate in if out then c else scan_buckets own n l c
      end
  end.

Definition next_refresh (now : Z) (t : routing_table) : option node_entry * routing_table :=
  match scan_buckets (m_id t) (length (m_buckets t)) (m_buckets t) None with
  | None => (None, t)
  | Some (i, k, c) => let c := with_queried now c in (Some c, set_node i true k c t)
  end.

(** ** The debug check *)

Definition all_nodes (t : routing_table) : list node_entry := concat (map (fun b => replacements b ++ live_nodes b) (m_buckets t)).

Definition check_invariant (t : routing_table) : bool := bool_decide (m_ips t = list_to_set_disj (ne_a <$> all_nodes t)).
