(* ===== verification/RoutingTableSpec.v ===== *)
(** * The invariant of the routing table, and its edits

    [table_ok]: a node is in the bucket of its distance, no id is twice in a
    bucket, the multiset has the addresses of the nodes, and buckets keep their
    sizes.  Every operation is made of a few edits of one bucket, each of which
    keeps the invariant. *)

From Stdlib Require Import ZArith Lia.
From stdpp Require Import base numbers sets gmultiset sorting list.
From S2P Require Import Prelude NodeId RoutingTable.

(** ** The invariant *)

Definition bucket_nodes (b : routing_table_node) : list node_entry := replacements b ++ live_nodes b.

(** What the operations leave alone. *)
Definition frame (t : routing_table) := (m_settings t, m_id t, m_bucket_size t, m_router_nodes t, length (m_buckets t)).

Definition keys (t : routing_table) : list (Z * (Z * Z)) := node_key <$> all_nodes t.

Record node_ok (t : routing_table) (i : nat) (n : node_entry) : Prop := {
  node_range : entry_range n;
  node_not_own : ne_id n <> m_id t;
  node_bucket : bucket_index (m_id t) (ne_id n) (length (m_buckets t)) = i;
}.

Record table_wf (t : routing_table) : Prop := {
  wf_size : 2 <= m_bucket_size t <= 16;
  wf_own : id_range (m_id t);
  wf_count : (length (m_buckets t) <= 159)%nat;
  wf_node : forall i b n, m_buckets t !! i = Some b -> n ∈ bucket_nodes b -> node_ok t i n;
  wf_ids : forall i b, m_buckets t !! i = Some b -> NoDup (ne_id <$> bucket_nodes b);
  wf_ips : m_ips t = list_to_set_disj (ne_a <$> all_nodes t);
  wf_unique : restrict_routing_ips (m_settings t) = true -> forall ip, (multiplicity ip (m_ips t) <= 1)%nat;
}.

(** The sizes of the live buckets, the last one of a table of more than fifty
    excepted. *)
Definition sized (i : nat) (t : routing_table) : Prop := (S i < length (m_buckets t))%nat \/ (length (m_buckets t) <= 50)%nat.

Definition live_ok (t : routing_table) : Prop :=
  forall i b, m_buckets t !! i = Some b -> sized i t -> zlen (live_nodes b) <= bucket_limit (Z.of_nat i) t.

Definition table_ok (t : routing_table) : Prop := table_wf t /\ live_ok t.

(** [std::sort] with a comparison by a key sorts by the key. *)
Definition sorts (sort : (node_entry -> node_entry -> bool) -> list node_entry -> list node_entry) : Prop :=
  forall f g, (forall x y, f x y = (g x <? g y)) -> forall l, sort f l ≡ₚ l /\ StronglySorted (fun x y => g x <= g y) (sort f l).

(** ** Lists *)

Lemma alter_lookup {A} (f : A -> A) (i : nat) (l : list A) x : l !! i = Some x -> alter f i l = <[i := f x]> l.
Proof.
  intros Hx. apply list_eq. intros j. destruct (decide (i = j)) as [<-|Hne].
  - rewrite list_lookup_alter_eq, list_lookup_insert_eq, Hx by (by eapply lookup_lt_Some). done.
  - by rewrite list_lookup_alter_ne, list_lookup_insert_ne.
Qed.

Lemma perm_insert {A} (l : list A) (k : nat) x y : l !! k = Some x -> <[k := y]> l ≡ₚ y :: delete k l.
Proof.
  intros Hx. pose proof (lookup_lt_Some _ _ _ Hx). rewrite (delete_Permutation (<[k := y]> l) k y) by (by apply list_lookup_insert_eq).
  f_equiv. rewrite !delete_take_drop. by rewrite take_insert_ge, drop_insert_lt by lia.
Qed.

Lemma all_nodes_bucket t i b : m_buckets t !! i = Some b ->
  exists rest, all_nodes t ≡ₚ bucket_nodes b ++ rest /\
    forall b', concat (map bucket_nodes (<[i := b']> (m_buckets t))) ≡ₚ bucket_nodes b' ++ rest.
Proof.
  intros Hb. exists (concat (map bucket_nodes (delete i (m_buckets t)))). split.
  - unfold all_nodes. fold bucket_nodes. change (map _ (m_buckets t)) with (bucket_nodes <$> m_buckets t). rewrite (delete_Permutation _ i b Hb) at 1. done.
  - intros b'. change (map bucket_nodes (<[i := b']> (m_buckets t))) with (bucket_nodes <$> <[i := b']> (m_buckets t)).
    by rewrite (perm_insert _ i b b' Hb).
Qed.

Lemma elem_all_nodes t n : n ∈ all_nodes t <-> exists i b, m_buckets t !! i = Some b /\ n ∈ bucket_nodes b.
Proof.
  unfold all_nodes. rewrite list_elem_of_In, in_concat. split.
  - intros (l & Hl & Hn). apply in_map_iff in Hl as (b & <- & Hb). apply list_elem_of_In, list_elem_of_lookup in Hb as [i Hi].
    exists i, b. split; [done|]. by apply list_elem_of_In.
  - intros (i & b & Hi & Hn). exists (bucket_nodes b). split; [|by apply list_elem_of_In]. apply in_map_iff. exists b. split; [done|].
    apply list_elem_of_In. by eapply list_elem_of_lookup_2.
Qed.

(** ** Edits of a bucket *)

Definition edit (i : nat) (b : routing_table_node) (ips : gmultiset Z) (t : routing_table) : routing_table :=
  with_ips ips (with_buckets (<[i := b]> (m_buckets t)) t).

Lemma frame_edit i b ips t : frame (edit i b ips t) = frame t.
Proof. unfold frame, edit. cbn. by rewrite length_insert. Qed.

Lemma bucket_limit_frame k t t' : frame t' = frame t -> bucket_limit k t' = bucket_limit k t.
Proof. intros [= Hs _ Hb _ _]. unfold bucket_limit. by rewrite Hs, Hb. Qed.

Lemma edit_wf t i b b' ips :
  table_wf t -> m_buckets t !! i = Some b ->
  (forall n, n ∈ bucket_nodes b' -> node_ok t i n) -> NoDup (ne_id <$> bucket_nodes b') ->
  m_ips t ⊎ list_to_set_disj (ne_a <$> bucket_nodes b') = ips ⊎ list_to_set_disj (ne_a <$> bucket_nodes b) ->
  (restrict_routing_ips (m_settings t) = true -> forall ip, (multiplicity ip ips <= 1)%nat) ->
  table_wf (edit i b' ips t).
Proof.
  intros [Hs Ho Hc Hn Hi Hip Hu] Hb Hn' Hi' Hip' Hu'. assert (forall j b1, m_buckets (edit i b' ips t) !! j = Some b1 ->
    (j = i /\ b1 = b') \/ m_buckets t !! j = Some b1) as Hcase.
  { cbn. intros j b1 H. apply list_lookup_insert_Some in H as [(<- & <- & _)|[_ H]]; [by left|by right]. }
  assert (forall j n, node_ok t j n -> node_ok (edit i b' ips t) j n) as Hok.
  { intros j n [Hr Hself Hbi]. split; [done|done|]. cbn. by rewrite length_insert. }
  split; cbn; [done|done|by rewrite length_insert| | | |done].
  - intros j b1 n [[-> ->]|H]%Hcase Hel; apply Hok; [by apply Hn'|by eapply Hn].
  - intros j b1 [[-> ->]|H]%Hcase; [done|by eapply Hi].
  - destruct (all_nodes_bucket t i b Hb) as (rest & Hrest & Hrest'). specialize (Hrest' b'). unfold all_nodes. cbn. fold bucket_nodes.
    rewrite Hrest', fmap_app, list_to_set_disj_app. rewrite Hip, Hrest, fmap_app, list_to_set_disj_app in Hip'. multiset_solver.
Qed.

Lemma edit_live t i b' ips : live_ok t -> (sized i t -> zlen (live_nodes b') <= bucket_limit (Z.of_nat i) t) -> live_ok (edit i b' ips t).
Proof.
  intros Hl Hle j b1 H Hlen. unfold sized in *. cbn in H, Hlen. rewrite length_insert in Hlen.
  change (bucket_limit (Z.of_nat j) (edit i b' ips t)) with (bucket_limit (Z.of_nat j) t).
  apply list_lookup_insert_Some in H as [(<- & <- & _)|[_ H]]; [by apply Hle|by apply (Hl j b1)].
Qed.

Lemma edit_keys t i b b' ips : m_buckets t !! i = Some b ->
  exists rest, keys t ≡ₚ (node_key <$> bucket_nodes b) ++ rest /\ keys (edit i b' ips t) ≡ₚ (node_key <$> bucket_nodes b') ++ rest.
Proof.
  intros Hb. destruct (all_nodes_bucket t i b Hb) as (rest & Hrest & Hrest'). exists (node_key <$> rest). unfold keys. split.
  - by rewrite Hrest, fmap_app.
  - unfold all_nodes. cbn. fold bucket_nodes. by rewrite (Hrest' b'), fmap_app.
Qed.

Lemma wf_elem_ips t i b n : table_wf t -> m_buckets t !! i = Some b -> n ∈ bucket_nodes b -> ne_a n ∈ m_ips t.
Proof.
  intros Hwf Hb Hn. rewrite (wf_ips _ Hwf), elem_of_list_to_set_disj. apply list_elem_of_fmap. exists n. split; [done|].
  apply elem_all_nodes. by exists i, b.
Qed.

Section edits.
Context (t : routing_table) (i : nat) (b b' : routing_table_node).
Context (Hok : table_ok t) (Hb : m_buckets t !! i = Some b).
Context (Hsize : sized i t -> zlen (live_nodes b') <= bucket_limit (Z.of_nat i) t).

(** A node is taken out. *)
Lemma edit_remove n : bucket_nodes b ≡ₚ n :: bucket_nodes b' ->
  erase_one (ne_a n) t = Some (with_ips (m_ips t ∖ {[+ ne_a n +]}) t) /\
  table_ok (edit i b' (m_ips t ∖ {[+ ne_a n +]}) t) /\ keys t ≡ₚ node_key n :: keys (edit i b' (m_ips t ∖ {[+ ne_a n +]}) t).
Proof using Hok Hb Hsize.
  intros Hp. destruct Hok as [Hwf Hl]. assert (ne_a n ∈ m_ips t) as Hin by (eapply wf_elem_ips; [done..|]; rewrite Hp; set_solver).
  split; [unfold erase_one; by rewrite decide_True by done|]. split; [split; [|by apply edit_live]|].
  - apply (edit_wf t i b); [done|done| | | |].
    + intros m Hm. eapply wf_node; [done..|]. rewrite Hp. set_solver.
    + pose proof (wf_ids _ Hwf i b Hb) as Hnd. rewrite Hp in Hnd. by apply NoDup_cons in Hnd as [_ Hnd].
    + rewrite Hp. cbn [fmap list_fmap]. rewrite list_to_set_disj_cons. multiset_solver.
    + intros Hr ip. pose proof (wf_unique _ Hwf Hr ip). rewrite multiplicity_difference. lia.
  - destruct (edit_keys t i b b' (m_ips t ∖ {[+ ne_a n +]}) Hb) as (rest & -> & ->). by rewrite Hp.
Qed.

(** A node is put in. *)
Lemma edit_add e : bucket_nodes b' ≡ₚ e :: bucket_nodes b -> node_ok t i e -> ne_id e ∉ ne_id <$> bucket_nodes b ->
  (restrict_routing_ips (m_settings t) = true -> ne_a e ∉ m_ips t) ->
  table_ok (edit i b' ({[+ ne_a e +]} ⊎ m_ips t) t) /\ keys (edit i b' ({[+ ne_a e +]} ⊎ m_ips t) t) ≡ₚ node_key e :: keys t.
Proof using Hok Hb Hsize.
  intros Hp He Hid Hip. destruct Hok as [Hwf Hl]. split; [split; [|by apply edit_live]|].
  - apply (edit_wf t i b); [done|done| | | |].
    + intros m. rewrite Hp. intros [->|Hm]%elem_of_cons; [done|]. by eapply wf_node.
    + rewrite Hp. cbn [fmap list_fmap]. apply NoDup_cons. split; [done|]. by eapply wf_ids.
    + rewrite Hp. cbn [fmap list_fmap]. rewrite list_to_set_disj_cons. multiset_solver.
    + intros Hr ip. specialize (Hip Hr). pose proof (wf_unique _ Hwf Hr ip). rewrite not_elem_of_multiplicity in Hip.
      rewrite multiplicity_disj_union, multiplicity_singleton. case_decide; [subst|]; lia.
  - destruct (edit_keys t i b b' ({[+ ne_a e +]} ⊎ m_ips t) Hb) as (rest & -> & ->). by rewrite Hp.
Qed.

(** A node is changed. *)
Lemma edit_modify n n' r : bucket_nodes b ≡ₚ n :: r -> bucket_nodes b' ≡ₚ n' :: r -> node_key n' = node_key n -> entry_range n' ->
  table_ok (edit i b' (m_ips t) t) /\ keys (edit i b' (m_ips t) t) ≡ₚ keys t.
Proof using Hok Hb Hsize.
  intros Hp Hp' Hkey Hr. destruct Hok as [Hwf Hl]. injection Hkey as Hid Ha Hport. split; [split; [|by apply edit_live]|].
  - assert (node_ok t i n) as Hn by (eapply wf_node; [done..|]; rewrite Hp; set_solver).
    apply (edit_wf t i b); [done|done| | | |by eapply wf_unique].
    + intros m. rewrite Hp'. intros [->|Hm]%elem_of_cons; [|eapply wf_node; [done..|]; rewrite Hp; set_solver].
      destruct Hn as [_ Hs Hbi]. split; [done|by rewrite Hid|by rewrite Hid].
    + pose proof (wf_ids _ Hwf i b Hb) as Hnd. rewrite Hp in Hnd. rewrite Hp'. cbn [fmap list_fmap] in *. by rewrite Hid.
    + rewrite Hp, Hp'. cbn [fmap list_fmap]. by rewrite Ha.
  - destruct (edit_keys t i b b' (m_ips t) Hb) as (rest & -> & ->). rewrite Hp, Hp'. cbn [fmap list_fmap]. unfold node_key, ep. by rewrite Hid, Ha, Hport.
Qed.
End edits.

Lemma edit_edit i b b' ips ips' t : edit i b' ips' (edit i b ips t) = edit i b' ips' t.
Proof. unfold edit. cbn. by rewrite list_insert_insert_eq. Qed.

(** A node takes the place of another. *)
Lemma edit_swap t i b b' n e r :
  table_ok t -> m_buckets t !! i = Some b -> (sized i t -> zlen (live_nodes b') <= bucket_limit (Z.of_nat i) t) ->
  bucket_nodes b ≡ₚ n :: r -> bucket_nodes b' ≡ₚ e :: r -> node_ok t i e -> ne_id e ∉ ne_id <$> bucket_nodes b ->
  (restrict_routing_ips (m_settings t) = true -> ne_a e ∉ m_ips t) ->
  let t' := edit i b' ({[+ ne_a e +]} ⊎ m_ips t ∖ {[+ ne_a n +]}) t in
  erase_one (ne_a n) t = Some (with_ips (m_ips t ∖ {[+ ne_a n +]}) t) /\ table_ok t' /\
  exists rest, keys t ≡ₚ node_key n :: rest /\ keys t' ≡ₚ node_key e :: rest.
Proof.
  intros [Hwf Hl] Hb Hsize Hp Hp' He Hid Hip t'. assert (ne_a n ∈ m_ips t) as Hin by (eapply wf_elem_ips; [done..|]; rewrite Hp; set_solver).
  split; [unfold erase_one; by rewrite decide_True by done|]. split; [split; [|by apply edit_live]|].
  - apply (edit_wf t i b); [done|done| | | |].
    + intros m. rewrite Hp'. intros [->|Hm]%elem_of_cons; [done|]. eapply wf_node; [done..|]. rewrite Hp. set_solver.
    + pose proof (wf_ids _ Hwf i b Hb) as Hnd. rewrite Hp in Hnd, Hid. rewrite Hp'. cbn [fmap list_fmap] in *.
      apply NoDup_cons in Hnd as [_ Hnd]. apply NoDup_cons. split; [|done]. set_solver.
    + rewrite Hp, Hp'. cbn [fmap list_fmap]. rewrite !list_to_set_disj_cons. rewrite (gmultiset_disj_union_difference' _ _ Hin) at 1. multiset_solver.
    + intros Hr ip. specialize (Hip Hr). pose proof (wf_unique _ Hwf Hr ip). rewrite not_elem_of_multiplicity in Hip.
      rewrite multiplicity_disj_union, multiplicity_difference, multiplicity_singleton. case_decide; [subst|]; lia.
  - destruct (edit_keys t i b b' ({[+ ne_a e +]} ⊎ m_ips t ∖ {[+ ne_a n +]}) Hb) as (rest & Hk & Hk'). exists ((node_key <$> r) ++ rest).
    split; [by rewrite Hk, Hp|]. unfold t'. by rewrite Hk', Hp'.
Qed.

(** ** What an addition does to the nodes *)

(** The nodes after it are the nodes before it and the new one; every node is
    kept but those of the same endpoint and the victim. *)
Definition effect (key : Z * (Z * Z)) (victim : option (Z * (Z * Z))) (t t' : routing_table) : Prop :=
  (forall k, k ∈ keys t' -> k ∈ keys t \/ k = key) /\
  (forall k, k ∈ keys t -> k ∈ keys t' \/ k.2 = key.2 \/ Some k = victim).

Lemma effect_perm key t t' : keys t' ≡ₚ keys t -> effect key None t t'.
Proof. intros Hp. split; intros k; rewrite Hp; auto. Qed.

Lemma effect_remove key k0 t t' : keys t ≡ₚ k0 :: keys t' -> k0.2 = key.2 -> effect key None t t'.
Proof. intros Hp Hk. split; intros k; rewrite Hp; set_unfold; [auto|]. intros [->|?]; auto. Qed.

Lemma effect_add key t t' : keys t' ≡ₚ key :: keys t -> effect key None t t'.
Proof. intros Hp. split; intros k; rewrite Hp; set_unfold; intuition. Qed.

Lemma effect_swap key k0 r t t' : keys t ≡ₚ k0 :: r -> keys t' ≡ₚ key :: r -> effect key (Some k0) t t'.
Proof. intros Hp Hp'. split; intros k; rewrite Hp, Hp'; set_unfold; intuition congruence. Qed.

Lemma effect_trans key v t1 t2 t3 : effect key None t1 t2 -> effect key v t2 t3 -> effect key v t1 t3.
Proof.
  intros [H1 H1'] [H2 H2']. split.
  - intros k [Hk|?]%H2; [by apply H1|by right].
  - intros k [Hk|[?|?]]%H1'; [by apply H2'|by right; left|done].
Qed.

(** * Adding a node to its bucket

    Each branch of [add_node_impl] keeps the invariant, and what it does to the
    nodes of the table. *)

(** ** Pointers *)

Lemma with_ips_same t : with_ips (m_ips t) t = t.
Proof. by destruct t. Qed.

Lemma set_bucket_edit t i b live l : m_buckets t !! i = Some b -> set_bucket i live l t = edit i (set_nodes live l b) (m_ips t) t.
Proof. intros Hb. unfold set_bucket, edit. rewrite (alter_lookup _ _ _ b Hb). by destruct t. Qed.

Lemma set_node_edit t i b live k n : m_buckets t !! i = Some b ->
  set_node i live k n t = edit i (set_nodes live (<[k := n]> (nodes_of live b)) b) (m_ips t) t.
Proof. intros Hb. unfold set_node, edit. rewrite (alter_lookup _ _ _ b Hb). by destruct t. Qed.

Lemma insert_ip_edit ip i b ips t : insert_ip ip (edit i b ips t) = edit i b ({[+ ip +]} ⊎ ips) t.
Proof. done. Qed.

Lemma edit_ips i b ips ips' t : edit i b ips (with_ips ips' t) = edit i b ips t.
Proof. done. Qed.

Lemma edit_lookup t i b b' ips : m_buckets t !! i = Some b -> m_buckets (edit i b' ips t) !! i = Some b'.
Proof. intros Hb. cbn. apply list_lookup_insert_eq. by eapply lookup_lt_Some. Qed.

(** The nodes of a bucket with one of a vector replaced, removed or added. *)
Lemma nodes_set live b k n m : nodes_of live b !! k = Some n ->
  exists r, bucket_nodes b ≡ₚ n :: r /\ bucket_nodes (set_nodes live (<[k := m]> (nodes_of live b)) b) ≡ₚ m :: r /\
    bucket_nodes (set_nodes live (delete k (nodes_of live b)) b) ≡ₚ r.
Proof.
  intros Hk. unfold bucket_nodes. destruct live; cbn in *.
  - exists (replacements b ++ delete k (live_nodes b)). rewrite (perm_insert _ _ _ m Hk), (delete_Permutation _ _ _ Hk) at 1.
    split; [by rewrite Permutation_middle|]. by rewrite Permutation_middle.
  - exists (delete k (replacements b) ++ live_nodes b). rewrite (perm_insert _ _ _ m Hk), (delete_Permutation _ _ _ Hk) at 1. done.
Qed.

Lemma nodes_push live b n : bucket_nodes (set_nodes live (nodes_of live b ++ [n]) b) ≡ₚ n :: bucket_nodes b.
Proof. unfold bucket_nodes. destruct live; cbn; [by rewrite app_assoc, Permutation_app_comm|by rewrite <- app_assoc, Permutation_middle]. Qed.

Lemma nodes_of_elem live b k n : nodes_of live b !! k = Some n -> n ∈ bucket_nodes b.
Proof. intros Hk%list_elem_of_lookup_2. unfold bucket_nodes. destruct live; set_solver. Qed.

(** Changing a node in place. *)
Lemma set_node_spec t i b live k n m :
  table_ok t -> m_buckets t !! i = Some b -> nodes_of live b !! k = Some n -> node_key m = node_key n -> entry_range m ->
  table_ok (set_node i live k m t) /\ frame (set_node i live k m t) = frame t /\ keys (set_node i live k m t) ≡ₚ keys t.
Proof.
  intros Hok Hb Hk Hkey Hr. rewrite (set_node_edit t i b) by done. destruct (nodes_set live b k n m Hk) as (r & Hp & Hp' & _).
  destruct (edit_modify t i b (set_nodes live (<[k:=m]> (nodes_of live b)) b) Hok Hb) with (n := n) (n' := m) (r := r); try done.
  - intros Hs. destruct live; cbn; rewrite ?length_insert; by apply Hok.
  - split; [done|]. split; [apply frame_edit|done].
Qed.

Lemma node_elem_ok t i b live k n : table_ok t -> m_buckets t !! i = Some b -> nodes_of live b !! k = Some n -> node_ok t i n.
Proof. intros [Hwf _] Hb Hk. eapply wf_node; [done..|by eapply nodes_of_elem]. Qed.

Lemma key_elem t i b n : m_buckets t !! i = Some b -> n ∈ bucket_nodes b -> node_key n ∈ keys t.
Proof. intros Hb Hn. apply list_elem_of_fmap. exists n. split; [done|]. apply elem_all_nodes. by exists i, b. Qed.

(** ** Replacing a node *)

(** What a new node has to be. *)
Record addable (e : node_entry) (i : nat) (b : routing_table_node) (t : routing_table) : Prop := {
  ad_ok : table_ok t;
  ad_bucket : m_buckets t !! i = Some b;
  ad_node : node_ok t i e;
  ad_fresh : ne_id e ∉ ne_id <$> bucket_nodes b;
  ad_ip : restrict_routing_ips (m_settings t) = true -> ne_a e ∉ m_ips t;
}.

Lemma node_ok_frame t t' i n : frame t' = frame t -> node_ok t i n -> node_ok t' i n.
Proof. intros [= _ Hi _ _ Hl] [Hr Ho Hb]. split; [done|by rewrite Hi|by rewrite Hi, Hl]. Qed.

Lemma replace_live_spec e i b t k j : addable e i b t -> live_nodes b !! k = Some j ->
  exists t', replace_live i k j e t = Some t' /\ table_ok t' /\ frame t' = frame t /\ effect (node_key e) (Some (node_key j)) t t' /\ node_key e ∈ keys t'.
Proof.
  intros [Hok Hb He Hf Hip] Hk. destruct (nodes_set true b k j e Hk) as (r & Hp & Hp' & _).
  destruct (edit_swap t i b (set_nodes true (<[k:=e]> (live_nodes b)) b) j e r) as (Herase & Hok' & rest & Hk1 & Hk2); try done.
  { intros Hs. cbn. rewrite length_insert. by apply Hok. }
  unfold replace_live. rewrite Herase. cbn [mbind option_bind]. rewrite (set_node_edit _ i b true) by done. cbn [nodes_of].
  rewrite edit_ips, insert_ip_edit. cbn [m_ips with_ips]. eexists. split; [done|]. split; [done|]. split; [apply frame_edit|].
  split; [by eapply effect_swap|]. rewrite Hk2. set_solver.
Qed.

(** *** The choice of the node to replace *)

Lemma max_element_elem {A} (f : A -> Z) l x : max_element f l = Some x -> x ∈ l.
Proof.
  destruct l as [|y l]; [done|]. cbn. intros [= <-]. revert y. induction l as [|z l IH]; intros y; cbn; [set_solver|].
  specialize (IH (max_step f y z)). unfold max_step in *. case_match; set_solver.
Qed.

Lemma max_element_some {A} (f : A -> Z) l : l <> [] -> exists x, max_element f l = Some x.
Proof. destruct l; [done|]. by eexists. Qed.

Lemma elem_indexed {A} (l : list A) k x : (k, x) ∈ indexed l <-> l !! k = Some x.
Proof.
  unfold indexed. rewrite list_elem_of_lookup. split.
  - intros [m Hm]. rewrite lookup_zip_with in Hm. destruct (seq 0 (length l) !! m) eqn:E; [|done]. apply lookup_seq in E as [-> _].
    cbn in Hm. destruct (l !! m) eqn:E'; [|done]. cbn in Hm. by injection Hm as <- <-.
  - intros Hk. exists k. rewrite lookup_zip_with, Hk. rewrite lookup_seq_lt by (by eapply lookup_lt_Some). done.
Qed.

(** No prefix is ever marked as seen: the loop finds no duplicates. *)
Lemma duplicates_none l mask shift offset prefix nodes :
  Forall (fun s => s = slot_end) prefix ->
  (forall k n, (k, n) ∈ l -> 0 <= Z.shiftr (Z.land (id_byte (shift_id (ne_id n) offset) 0) mask) shift < zlen prefix) ->
  duplicates l mask shift offset prefix nodes = Some nodes.
Proof.
  intros Hp. revert nodes. induction l as [|[k n] l IH]; intros nodes Hl; cbn [duplicates]; [done|].
  destruct (zget_is_Some prefix _ (Hl k n ltac:(set_solver))) as [s Hs]. rewrite Hs. cbn.
  rewrite (Forall_forall _ prefix) in Hp. rewrite (Hp s (zget_elem _ _ _ Hs)). apply IH. intros k' n' Hin. apply (Hl k'). set_solver.
Qed.

Lemma mask_shift_range m : 1 <= m < 256 -> exists s, mask_shift 33 m = Some s /\ 0 <= s <= 7.
Proof.
  assert (forallb (fun m => match mask_shift 33 m with Some s => (0 <=? s) && (s <=? 7) | None => false end) (seqZ 1 255) = true) as H by by vm_compute.
  rewrite forallb_forall in H. intros Hm. specialize (H m). destruct (mask_shift 33 m) as [s|].
  - exists s. split; [done|]. assert ((0 <=? s) && (s <=? 7) = true) as Hs%andb_prop by (apply H, list_elem_of_In, elem_of_seqZ; lia).
    destruct Hs as [H1%Z.leb_le H2%Z.leb_le]. lia.
  - discriminate H. apply list_elem_of_In, elem_of_seqZ. lia.
Qed.

Lemma prefix_range id s : 0 <= s <= 7 ->
  0 <= Z.shiftr (Z.land (id_byte id 0) (Z.land (Z.shiftl 0xff s) 0xff)) s < Z.shiftl 1 (8 - s).
Proof.
  intros Hs. assert (0 <= id_byte id 0 < 256) by (apply Z.mod_pos_bound; lia). rewrite Z.land_assoc.
  set (x := Z.land _ 255). assert (0 <= x < 256) as Hx by (apply land_byte; lia). rewrite Z.shiftr_div_pow2, Z.shiftl_mul_pow2, Z.mul_1_l by lia.
  split; [apply Z.div_pos; lia|]. apply Z.div_lt_upper_bound; [lia|]. rewrite <- Z.pow_add_r by lia. replace (s + (8 - s)) with 8 by lia. lia.
Qed.

Lemma bucket_limit_range k t : table_wf t -> 2 <= bucket_limit k t <= 256.
Proof.
  intros Hwf. pose proof (wf_size _ Hwf). unfold bucket_limit. destruct (negb _); [lia|]. unfold zget. case_decide; [|lia].
  destruct (_ !! _) as [x|] eqn:E; [|lia]. apply list_elem_of_lookup_2 in E. set_unfold. intuition lia.
Qed.
