(* ===== verification/RoutingTableInsert.v ===== *)
(** * [add_node_impl]

    The branches of the function in order: a node whose address is known, a
    node that is in its bucket, a node to replace, the replacements. *)

From Stdlib Require Import ZArith Lia.
From stdpp Require Import base numbers sets gmultiset list.
From S2P Require Import Prelude NodeId RoutingTable RoutingTableSpec.

(** What an addition promises of the table after it. *)
Definition adds (e : node_entry) (t t' : routing_table) : Prop :=
  table_ok t' /\ frame t' = frame t /\ node_key e ∈ keys t' /\ exists v, effect (node_key e) v t t'.

Lemma replace_live_adds e i b t k j : addable e i b t -> live_nodes b !! k = Some j -> exists t', replace_live i k j e t = Some t' /\ adds e t t'.
Proof.
  intros Ha Hk. destruct (replace_live_spec e i b t k j Ha Hk) as (t' & E & Hok & Hf & Heff & Hin). exists t'. split; [done|].
  split; [done|]. split; [done|]. split; [done|]. by eexists.
Qed.

Lemma replace_node_spec e i b t : addable e i b t -> live_nodes b <> [] ->
  exists r, replace_node e i (live_nodes b) t = Some r /\ match r with Some t' => adds e t t' | None => True end.
Proof.
  intros Ha Hne. assert (forall k j, live_nodes b !! k = Some j -> exists r, (t ← replace_live i k j e t; Some (Some t)) = Some r /\
    match r with Some t' => adds e t t' | None => True end) as Hlive.
  { intros k j Hk. destruct (replace_live_adds e i b t k j Ha Hk) as (t' & E & Had). rewrite E. by exists (Some t'). }
  unfold replace_node. destruct (list_find _ (live_nodes b)) as [[k j]|] eqn:Ef; [apply list_find_Some in Ef as (Hk & _ & _); by apply Hlive|].
  destruct (max_element_some (fun kn => fail_count kn.2) (indexed (live_nodes b))) as [[k j] Em].
  { destruct (live_nodes b); [done|]. discriminate. }
  rewrite Em. cbn [mbind option_bind]. apply max_element_elem, elem_indexed in Em. case_match; [by apply Hlive|].
  pose proof (bucket_limit_range (Z.of_nat i) t (proj1 (ad_ok _ _ _ _ Ha))) as Hlim. rewrite u32_small by lia.
  destruct (mask_shift_range (bucket_limit (Z.of_nat i) t - 1)) as (shift & -> & Hs); [lia|]. cbn [mbind option_bind].
  set (mask := Z.land (Z.shiftl 255 shift) 255). set (offset := if Nat.eqb _ _ then _ else _). set (nodes := filter _ _).
  rewrite duplicates_none; cycle 1.
  { by apply Forall_replicate. }
  { intros k' n _. rewrite length_replicate, Z2Nat.id by (apply Z.shiftl_nonneg; lia). by apply prefix_range. }
  cbn [mbind option_bind]. rewrite (bool_decide_eq_true_2 ([] = [])) by done.
  assert (exists l, (if bool_decide (nodes = []) then Some (false, indexed (live_nodes b)) else Some (false, nodes)) = Some (false, l) /\ l <> [] /\
    forall k j, (k, j) ∈ l -> live_nodes b !! k = Some j) as (l & El & Hl & Hsub).
  { case_bool_decide; eexists; (split; [done|]).
    - split; [destruct (live_nodes b); [done|discriminate]|]. intros k' j' Hin. by apply elem_indexed.
    - split; [done|]. intros k' j' [_ Hin]%list_elem_of_filter. by apply elem_indexed. }
  rewrite El. cbn [mbind option_bind orb]. destruct (max_element_some (fun kn => ne_rtt kn.2) l Hl) as [[k' j'] Em']. rewrite Em'. cbn [mbind option_bind].
  destruct (ne_rtt e <? ne_rtt j'); [apply Hlive, Hsub; by eapply max_element_elem|by exists None].
Qed.

(** ** The replacements *)

Lemma add_replacement_spec e i b t : addable e i b t -> exists t', add_replacement e i t = Some t' /\ adds e t t'.
Proof.
  intros [Hok Hb He Hf Hip]. unfold add_replacement. rewrite Hb. cbn [mbind option_bind].
  destruct (list_find _ (replacements b)) as [[k j]|] eqn:Ef.
  { exfalso. apply list_find_Some in Ef as (Hk & Hid & _). apply Hf, list_elem_of_fmap. exists j. split; [done|]. by apply (nodes_of_elem false b k). }
  clear Ef. destruct (Z.leb_spec (m_bucket_size t) (zlen (replacements b))) as [Hfull|Hroom].
  - assert (exists k j, match list_find (fun n => pinged n = false) (replacements b) with Some kj => Some kj | None => pair O <$> replacements b !! O end = Some (k, j) /\
      replacements b !! k = Some j) as (k & j & Ekj & Hk).
    { destruct (list_find _ _) as [[k j]|] eqn:E; [apply list_find_Some in E as (Hk & _ & _); by exists k, j|].
      pose proof (wf_size _ (proj1 Hok)). destruct (replacements b) as [|n l]; [cbn in Hfull; lia|]. by exists O, n. }
    rewrite Ekj. cbn [mbind option_bind]. destruct (nodes_set false b k j e Hk) as (r & Hp & _ & Hpd). cbn [nodes_of] in Hpd.
    set (b1 := set_nodes false (delete k (replacements b)) b) in *. set (b2 := set_nodes false (replacements b1 ++ [e]) b1).
    destruct (edit_swap t i b b2 j e r) as (Herase & Hok' & rest & Hk1 & Hk2); try done.
    { by apply (proj2 Hok i b). }
    { unfold b2. change (replacements b1) with (nodes_of false b1). by rewrite nodes_push, Hpd. }
    rewrite Herase. cbn [mbind option_bind]. rewrite (set_bucket_edit _ i b) by done. fold b1. cbn [m_ips with_ips]. rewrite edit_ips.
    rewrite (edit_lookup t i b) by done. cbn [mbind option_bind]. rewrite (set_bucket_edit _ i b1) by (by eapply edit_lookup). fold b2.
    cbn [m_ips edit with_ips]. rewrite edit_edit, insert_ip_edit. eexists. split; [done|]. split; [done|]. split; [apply frame_edit|].
    split; [rewrite Hk2; set_solver|]. eexists. by eapply effect_swap.
  - cbn [mbind option_bind]. rewrite Hb. cbn [mbind option_bind]. rewrite (set_bucket_edit _ i b) by done. rewrite insert_ip_edit.
    destruct (edit_add t i b (set_nodes false (replacements b ++ [e]) b) Hok Hb) with (e := e) as [Hok' Hk]; try done.
    { by apply (proj2 Hok i b). }
    { apply (nodes_push false). }
    eexists. split; [done|]. split; [done|]. split; [apply frame_edit|]. split; [rewrite Hk; set_solver|]. exists None. by apply effect_add.
Qed.

(** ** Placing a node *)

(** What the last bucket is like when it has to be split. *)
Definition splittable (i : nat) (b : routing_table_node) (t : routing_table) : Prop :=
  S i = length (m_buckets t) /\ (length (m_buckets t) < 159)%nat /\ bucket_limit (Z.of_nat i + 1) t <= zlen (live_nodes b).

Lemma bucket_limit_step i t : table_wf t -> bucket_limit (Z.of_nat i + 1) t <= bucket_limit (Z.of_nat i) t.
Proof.
  intros Hwf. pose proof (wf_size _ Hwf). unfold bucket_limit. destruct (negb _); [lia|]. replace (Z.of_nat i + 1) with (Z.of_nat (S i)) by lia.
  unfold zget. rewrite !decide_True, !Nat2Z.id by lia. destruct i as [|[|[|[|i]]]]; simpl; lia.
Qed.

Lemma place_node_spec e i b t : addable e i b t ->
  exists s t', place_node e i t = Some (s, t') /\
  match s with failed_to_add => False | node_added => adds e t t' | need_bucket_split => t' = t /\ splittable i b t end.
Proof.
  intros Ha. pose proof Ha as [Hok Hb He Hf Hip]. unfold place_node. rewrite Hb. cbn [mbind option_bind].
  pose proof (bucket_limit_range (Z.of_nat i) t (proj1 Hok)). pose proof (bucket_limit_range (Z.of_nat i + 1) t (proj1 Hok)).
  pose proof (bucket_limit_step i t (proj1 Hok)) as Hstep. set (limit := if can_split e i t then _ else _).
  destruct (Z.ltb_spec (zlen (live_nodes b)) limit) as [Hlt|Hge].
  - rewrite (set_bucket_edit _ i b) by done. rewrite insert_ip_edit.
    destruct (edit_add t i b (set_nodes true (live_nodes b ++ [e]) b) Hok Hb) with (e := e) as [Hok' Hk]; try done.
    { intros _. cbn. rewrite length_app. cbn. unfold limit in Hlt. destruct (can_split e i t); lia. }
    { apply (nodes_push true). }
    eexists _, _. split; [done|]. split; [done|]. split; [apply frame_edit|]. split; [rewrite Hk; set_solver|]. exists None. by apply effect_add.
  - assert (live_nodes b <> []) as Hne by (intros E; rewrite E in Hge; unfold limit in Hge; cbn in Hge; destruct (can_split e i t); lia).
    assert (exists r, (if pinged e && (fail_count e =? 0) then replace_node e i (live_nodes b) t else Some None) = Some r /\
      match r with Some t' => adds e t t' | None => True end) as (r & Er & Hr).
    { destruct (_ && _); [by apply replace_node_spec|by exists None]. }
    rewrite Er. cbn [mbind option_bind]. destruct r as [t'|]; [by eexists _, _|]. destruct (can_split e i t) eqn:Ecs.
    + eexists _, _. split; [done|]. split; [done|]. unfold can_split in Ecs. apply andb_prop in Ecs as [[[Hl Hc]%andb_prop _]%andb_prop _].
      apply Nat.eqb_eq in Hl. apply Z.ltb_lt in Hc. split; [done|]. split; [lia|]. exact Hge.
    + destruct (add_replacement_spec e i b t Ha) as (t' & -> & Had). cbn. by eexists _, _.
Qed.

(** ** The bucket of a node *)

Definition config (t : routing_table) := (m_settings t, m_id t, m_bucket_size t, m_router_nodes t).

(** The buckets are kept, or the first one is made. *)
Definition grows (t t' : routing_table) : Prop :=
  config t' = config t /\ (m_buckets t <> [] -> length (m_buckets t') = length (m_buckets t)) /\ (m_buckets t = [] -> (length (m_buckets t') <= 1)%nat).

Lemma frame_grows t t' : frame t' = frame t -> grows t t'.
Proof. intros [= Hs Hi Hb Hr Hl]. split; [unfold config; congruence|]. split; [done|]. intros E. rewrite Hl, E. cbn. lia. Qed.

Lemma grows_frame t t1 t2 : grows t t1 -> frame t2 = frame t1 -> grows t t2.
Proof. intros (Hc & Hl & Hl') [= Hs Hi Hb Hr Hlen]. split; [rewrite <- Hc; unfold config; congruence|]. rewrite Hlen. done. Qed.

Lemma bucket_index_lt own id n : (0 < n)%nat -> (bucket_index own id n < n)%nat.
Proof. intros Hn. unfold bucket_index. pose proof (distance_exp_bound own id). lia. Qed.

Lemma find_bucket_spec id t : table_ok t ->
  exists t1 b, find_bucket id t = (bucket_index (m_id t) id (length (m_buckets t1)), t1) /\
    m_buckets t1 !! bucket_index (m_id t) id (length (m_buckets t1)) = Some b /\
    table_ok t1 /\ keys t1 = keys t /\ m_ips t1 = m_ips t /\ grows t t1 /\ m_buckets t1 <> [].
Proof.
  intros Hok. unfold find_bucket. destruct (m_buckets t) as [|b0 l] eqn:El.
  - exists (with_buckets [Bucket [] []] t), (Bucket [] []). split; [done|]. cbn.
    assert (bucket_index (m_id t) id 1 = O) as -> by (pose proof (bucket_index_lt (m_id t) id 1); lia). split; [done|].
    split; [|split; [unfold keys, all_nodes; by rewrite El|split; [done|split; [|done]]]].
    + destruct Hok as [Hwf Hl]. pose proof Hwf as [Hs Ho Hc Hn Hi Hip Hu]. assert (forall i b, [Bucket [] []] !! i = Some b -> b = Bucket [] []) as Hb.
      { intros [|i] b Hb; [by injection Hb|done]. }
      split; [split; cbn; try done; try lia|].
      * intros i b n ->%Hb Hn'. cbn in Hn'. by apply elem_of_nil in Hn'.
      * intros i b ->%Hb. constructor.
      * rewrite Hip. unfold all_nodes. by rewrite El.
      * intros i b ->%Hb _. pose proof (bucket_limit_range (Z.of_nat i) t Hwf). change (0 <= bucket_limit (Z.of_nat i) t). lia.
    + split; [done|]. by rewrite El.
  - assert (bucket_index (m_id t) id (length (b0 :: l)) < length (b0 :: l))%nat as Hlt by (apply bucket_index_lt; cbn; lia).
    destruct (lookup_lt_is_Some_2 _ _ Hlt) as [b Hb]. exists t, b. rewrite El. split; [done|]. split; [done|]. split; [done|]. split; [done|]. split; [done|].
    split; [|done]. split; [done|]. split; [done|]. intros E. congruence.
Qed.

(** ** A known address *)

Lemma find_endpoint_spec e i l i' live k n : find_endpoint e i l = Some ((i', live, k), n) ->
  exists m b, i' = (i + m)%nat /\ l !! m = Some b /\ nodes_of live b !! k = Some n /\ ep n = e.
Proof.
  revert i. induction l as [|b l IH]; intros i; cbn [find_endpoint]; [done|].
  destruct (list_find _ (replacements b)) as [[k0 n0]|] eqn:E1.
  { apply list_find_Some in E1 as (Hk & He & _). intros [= <- <- <- <-]. exists O, b. split; [lia|]. done. }
  destruct (list_find _ (live_nodes b)) as [[k0 n0]|] eqn:E2.
  { apply list_find_Some in E2 as (Hk & He & _). intros [= <- <- <- <-]. exists O, b. split; [lia|]. done. }
  intros (m & b' & -> & Hb & Hk)%IH. exists (S m), b'. split; [lia|]. done.
Qed.

Lemma delete_node_spec t i b live k n : table_ok t -> m_buckets t !! i = Some b -> nodes_of live b !! k = Some n ->
  let b' := set_nodes live (delete k (nodes_of live b)) b in
  let t' := edit i b' (m_ips t ∖ {[+ ne_a n +]}) t in
  erase_one (ne_a n) t = Some (with_ips (m_ips t ∖ {[+ ne_a n +]}) t) /\
  set_bucket i live (delete k (nodes_of live b)) (with_ips (m_ips t ∖ {[+ ne_a n +]}) t) = t' /\
  table_ok t' /\ keys t ≡ₚ node_key n :: keys t' /\ (restrict_routing_ips (m_settings t) = true -> ne_a n ∉ m_ips t').
Proof.
  intros Hok Hb Hk b' t'. destruct (nodes_set live b k n n Hk) as (r & Hp & _ & Hp').
  destruct (edit_remove t i b b' Hok Hb) with (n := n) as (He & Hok' & Hkeys); [| |].
  { intros Hs. pose proof (proj2 Hok i b Hb Hs). unfold b'. destruct live; cbn; [|done]. cbn in Hk. pose proof (lookup_lt_Some _ _ _ Hk).
    rewrite length_delete by done. lia. }
  { unfold b'. by rewrite Hp, Hp'. }
  split; [done|]. split; [by rewrite (set_bucket_edit _ i b)|]. split; [done|]. split; [done|].
  intros Hr. pose proof (wf_unique _ (proj1 Hok) Hr (ne_a n)). cbn. rewrite not_elem_of_multiplicity, multiplicity_difference, multiplicity_singleton_eq. lia.
Qed.

Lemma known_address_spec e t : table_ok t -> entry_range e ->
  exists r, known_address e t = Some r /\
  match r with
  | inl (s, t') => table_ok t' /\ frame t' = frame t /\ keys t' ≡ₚ keys t /\ match s with failed_to_add => True | node_added => node_key e ∈ keys t' | need_bucket_split => False end
  | inr t' => table_ok t' /\ frame t' = frame t /\ effect (node_key e) None t t' /\ (restrict_routing_ips (m_settings t) = true -> ne_a e ∉ m_ips t')
  end.
Proof.
  intros Hok Her. unfold known_address. destruct (decide (ne_a e ∈ m_ips t)) as [Hin|Hin]; cycle 1.
  { exists (inr t). split; [done|]. split; [done|]. split; [done|]. split; [by apply effect_perm|done]. }
  destruct (find_endpoint (ep e) 0 (m_buckets t)) as [[[[i live] k] n]|] eqn:Ef; cycle 1.
  { destruct (restrict_routing_ips (m_settings t)); [by exists (inl (failed_to_add, t))|]. exists (inr t). split; [done|]. split; [done|]. split; [done|].
    split; [by apply effect_perm|done]. }
  apply find_endpoint_spec in Ef as (m & b & -> & Hb & Hk & Hep). cbn [plus] in *. destruct (Z.eqb_spec (ne_id n) (ne_id e)) as [Hid|Hid].
  - pose proof (node_range _ _ _ (node_elem_ok t m b live k n Hok Hb Hk)) as Hr.
    set (n' := if pinged e then _ else _). assert (node_key n' = node_key n) as Hkey by (unfold n'; destruct (pinged e); [change (node_key (update_rtt (ne_rtt e) (with_timeout 0 n)) = node_key n); by rewrite update_rtt_key|done]).
    assert (entry_range n') as Hr'.
    { assert (entry_range (with_timeout 0 n)) as H0 by (destruct Hr; by split). unfold n'. destruct (pinged e); [|done].
      destruct (update_rtt_range (ne_rtt e) _ (er_rtt _ Her) H0) as [H1 H2 H3]. by split. }
    destruct (set_node_spec t m b live k n n' Hok Hb Hk Hkey Hr') as (Hok' & Hf & Hp). eexists (inl _). split; [done|]. cbn. split; [done|]. split; [done|].
    split; [done|]. rewrite Hp. replace (node_key e) with (node_key n) by (unfold node_key; congruence). by eapply key_elem, nodes_of_elem.
  - destruct (pinged e); cbn [negb].
    + unfold remove_node. destruct (delete_node_spec t m b live k n Hok Hb Hk) as (He & Hs & Hok' & Hkeys & Hu). rewrite He. cbn [mbind option_bind].
      change (m_buckets (with_ips _ t) !! m) with (m_buckets t !! m). rewrite Hb. cbn [mbind option_bind]. rewrite Hs. eexists (inr _). split; [done|].
      split; [done|]. split; [apply frame_edit|]. assert (ne_a n = ne_a e) as Ha by (unfold ep in Hep; congruence).
      split; [eapply effect_remove; [done|done]|by rewrite <- Ha].
    + destruct (restrict_routing_ips (m_settings t)) eqn:Er; [by exists (inl (failed_to_add, t))|]. exists (inr t). split; [done|]. split; [done|]. split; [done|].
      split; [by apply effect_perm|]. congruence.
Qed.

(** ** A node in its bucket *)

Lemma pull_replacement_spec e i b t :
  table_ok t -> m_buckets t !! i = Some b -> node_ok t i e -> ne_id e ∉ ne_id <$> live_nodes b ->
  (restrict_routing_ips (m_settings t) = true -> ne_a e ∉ m_ips t) ->
  exists r, pull_replacement e i t = Some r /\
  match r with
  | inl r => r = (failed_to_add, t)
  | inr (e', t') => (exists b', addable e' i b' t') /\ node_key e' = node_key e /\ frame t' = frame t /\ effect (node_key e) None t t'
  end.
Proof.
  intros Hok Hb He Hlive Hip. unfold pull_replacement. rewrite Hb. cbn [mbind option_bind].
  destruct (list_find _ (replacements b)) as [[k j]|] eqn:Ef; cycle 1.
  { exists (inr (e, t)). split; [done|]. split; [|split; [done|split; [done|by apply effect_perm]]]. exists b. split; try done.
    apply list_find_None in Ef. unfold bucket_nodes. rewrite fmap_app, not_elem_of_app. split; [|done]. intros (n & Hid & Hn)%list_elem_of_fmap.
    rewrite Forall_forall in Ef. by apply (Ef n Hn). }
  apply list_find_Some in Ef as (Hk & Hid & _). destruct (decide (ep j = ep e)) as [Hep|Hep]; [|by exists (inl (failed_to_add, t))].
  destruct (delete_node_spec t i b false k j Hok Hb Hk) as (Her & Hs & Hok' & Hkeys & Hu). cbn [nodes_of] in Hs.
  set (e' := update_rtt (ne_rtt e) (with_timeout 0 j)). assert (node_key e' = node_key j) as Hkey by (unfold e'; by rewrite update_rtt_key).
  assert (ne_a e' = ne_a j) as Ha by (unfold node_key, ep in Hkey; congruence). rewrite Ha, Her. cbn [mbind option_bind]. rewrite Hs.
  eexists (inr (_, _)). split; [done|]. assert (node_key j = node_key e) as Hje by (unfold node_key; congruence).
  split; [|split; [by rewrite Hkey|split; [apply frame_edit|eapply effect_remove; [done|by rewrite Hje]]]].
  eexists. split; [done|by eapply edit_lookup| | |by rewrite Ha].
  - apply (node_ok_frame t); [apply frame_edit|]. destruct (node_elem_ok t i b false k j Hok Hb Hk) as [Hr Ho Hbi].
    assert (ne_id e' = ne_id j) as Hi by (unfold node_key in Hkey; congruence). split; [|by rewrite Hi|by rewrite Hi].
    apply update_rtt_range; [apply He|]. destruct Hr. by split.
  - assert (ne_id e' = ne_id j) as -> by (unfold node_key in Hkey; congruence). destruct (nodes_set false b k j j Hk) as (r & Hp & _ & Hp').
    rewrite Hp'. pose proof (wf_ids _ (proj1 Hok) i b Hb) as Hnd. rewrite Hp in Hnd. cbn [fmap list_fmap] in Hnd. by apply NoDup_cons in Hnd as [Hnd _].
Qed.

(** What [add_node_impl] promises. *)
Definition add_result (e : node_entry) (t : routing_table) (s : add_node_status_t) (t' : routing_table) : Prop :=
  table_ok t' /\ grows t t' /\
  match s with
  | failed_to_add => effect (node_key e) None t t'
  | node_added => node_key e ∈ keys t' /\ exists v, effect (node_key e) v t t'
  | need_bucket_split => effect (node_key e) None t t' /\ exists i b, m_buckets t' !! i = Some b /\ splittable i b t'
  end.

Lemma insert_node_spec e t : table_ok t -> entry_range e -> ne_id e <> m_id t -> (restrict_routing_ips (m_settings t) = true -> ne_a e ∉ m_ips t) ->
  exists s t', insert_node e t = Some (s, t') /\ add_result e t s t'.
Proof.
  intros Hok Her Hown Hip. unfold insert_node. destruct (find_bucket_spec (ne_id e) t Hok) as (t1 & b & -> & Hb & Hok1 & Hk1 & Hips1 & Hg & _).
  set (i := bucket_index _ _ _) in *. rewrite Hb. cbn [mbind option_bind]. pose proof Hg as ([= Hs1 Hid1 _ _] & _).
  assert (effect (node_key e) None t t1) as Heff by (apply effect_perm; by rewrite Hk1).
  destruct (list_find _ (live_nodes b)) as [[k j]|] eqn:Ef.
  { apply list_find_Some in Ef as (Hk & Hid & _). destruct (decide (ep j = ep e)) as [Hep|]; [|by eexists _, _].
    pose proof (node_range _ _ _ (node_elem_ok t1 i b true k j Hok1 Hb Hk)) as Hr. set (n' := update_rtt (ne_rtt e) (with_timeout 0 j)).
    assert (node_key n' = node_key j) as Hkey by (unfold n'; by rewrite update_rtt_key).
    destruct (set_node_spec t1 i b true k j n' Hok1 Hb Hk Hkey) as (Hok' & Hf & Hp).
    { apply update_rtt_range; [apply Her|]. destruct Hr. by split. }
    eexists _, _. split; [done|]. split; [done|]. split; [by eapply grows_frame|]. split.
    - rewrite Hp. replace (node_key e) with (node_key j) by (unfold node_key; congruence). by eapply key_elem, (nodes_of_elem true).
    - exists None. eapply effect_trans; [done|]. by apply effect_perm. }
  assert (node_ok t1 i e) as He by (split; [done|by rewrite Hid1|by rewrite Hid1]).
  destruct (pull_replacement_spec e i b t1 Hok1 Hb He) as (r & Er & Hr).
  { apply list_find_None in Ef. intros (n & Hid & Hn)%list_elem_of_fmap. rewrite Forall_forall in Ef. by apply (Ef n Hn). }
  { rewrite Hs1, Hips1. done. }
  rewrite Er. cbn [mbind option_bind]. destruct r as [r|[e' t2]]; [subst r; by eexists _, _|].
  destruct Hr as ([b' Hadd] & Hkey & Hf2 & Heff2). pose proof (effect_trans _ _ _ _ _ Heff Heff2) as Heff12. pose proof (grows_frame _ _ _ Hg Hf2) as Hg2.
  destruct (_ && _); [eexists _, _; split; [done|]; split; [apply Hadd|done]|].
  destruct (place_node_spec e' i b' t2 Hadd) as (s & t3 & E3 & H3). exists s, t3. split; [done|]. destruct s; [done| |].
  - destruct H3 as (Hok3 & Hf3 & Hin & v & Heff3). rewrite Hkey in Hin, Heff3. split; [done|]. split; [by eapply grows_frame|]. split; [done|].
    exists v. by eapply effect_trans.
  - destruct H3 as [-> Hsp]. split; [apply Hadd|]. split; [done|]. split; [done|]. exists i, b'. split; [apply Hadd|done].
Qed.

Lemma add_node_impl_spec e t : table_ok t -> entry_range e -> exists s t', add_node_impl e t = Some (s, t') /\ add_result e t s t'.
Proof.
  intros Hok Her. unfold add_node_impl. assert (add_result e t failed_to_add t) as Hfail.
  { split; [done|]. split; [by apply frame_grows|by apply effect_perm]. }
  destruct (decide _); [by eexists _, _|]. destruct (Z.eqb_spec (ne_id e) (m_id t)) as [|Hown]; [by eexists _, _|].
  destruct (known_address_spec e t Hok Her) as (r & -> & Hr). cbn [mbind option_bind]. destruct r as [[s t1]|t1].
  - destruct Hr as (Hok1 & Hf & Hp & Hs). eexists _, _. split; [done|]. split; [done|]. split; [by apply frame_grows|].
    destruct s; [by apply effect_perm|split; [done|exists None; by apply effect_perm]|done].
  - destruct Hr as (Hok1 & Hf & Heff & Hip). pose proof (frame_grows _ _ Hf) as Hg. injection Hf as Hs Hid Hbs Hro Hlen.
    destruct (insert_node_spec e t1 Hok1 Her) as (s & t2 & E & Hok2 & Hg2 & H2); [by rewrite Hid|by rewrite Hs|]. exists s, t2. split; [done|].
    split; [done|]. split.
    { destruct Hg2 as (Hc2 & Hl2 & Hl2'). split; [rewrite Hc2; by apply Hg|]. rewrite <- Hlen, <- !length_zero_iff_nil. rewrite <- !length_zero_iff_nil in Hl2, Hl2'.
      rewrite <- Hlen. done. }
    destruct s; [by eapply effect_trans| |].
    + destruct H2 as [Hin [v Hv]]. split; [done|]. exists v. by eapply effect_trans.
    + destruct H2 as [Heff2 Hsp]. split; [by eapply effect_trans|done].
Qed.
