(* ===== verification/RoutingTableRun.v ===== *)
(** * Splitting the last bucket, and [add_node]

    A split loses no node and puts each into the bucket of its distance; the
    loop of [add_node] ends. *)

From Stdlib Require Import ZArith Lia.
From stdpp Require Import base numbers sets gmultiset list.
From S2P Require Import Prelude NodeId RoutingTable RoutingTableSpec RoutingTableInsert.

(** The sizes of all buckets but the last. *)
Definition inner_ok (t : routing_table) : Prop :=
  forall i b, m_buckets t !! i = Some b -> (S i < length (m_buckets t))%nat -> zlen (live_nodes b) <= bucket_limit (Z.of_nat i) t.

Lemma live_inner t : live_ok t -> inner_ok t.
Proof. intros H i b Hb Hi. apply H; [done|by left]. Qed.

(** ** The loop over the replacements *)

Lemma split_replacements_spec far limit new_limit rb : forall b nb keep nrb b' nb' keep' nrb',
  split_replacements far limit new_limit rb b nb keep nrb = (b', nb', keep', nrb') ->
  Forall (fun n => far n = true) (b ++ keep) -> Forall (fun n => far n = false) (nb ++ nrb) -> zlen b <= limit ->
  (keep' ++ b') ++ (nrb' ++ nb') ≡ₚ rb ++ (keep ++ b) ++ (nrb ++ nb) /\
  Forall (fun n => far n = true) (b' ++ keep') /\ Forall (fun n => far n = false) (nb' ++ nrb') /\ zlen b' <= limit.
Proof.
  induction rb as [|j rb IH]; intros b nb keep nrb b' nb' keep' nrb' E Hf Hn Hl; cbn in E; [by injection E as <- <- <- <-|].
  rewrite !Forall_app in *. destruct Hf as [Hf1 Hf2], Hn as [Hn1 Hn2].
  destruct (far j) eqn:Ej; [destruct (Z.leb_spec limit (zlen b))|destruct (Z.ltb_spec (zlen nb) new_limit)];
    (apply IH in E as (Hp & Hf' & Hn' & Hl'); [|rewrite !Forall_app; repeat split; try done; by constructor..|rewrite ?length_app; cbn; lia]);
    rewrite !Forall_app in *; (split; [rewrite Hp; solve_Permutation|tauto]).
Qed.

(** ** The bucket of a node after the split *)

Lemma bucket_index_inner own id n i : (S i < n)%nat -> bucket_index own id n = i -> bucket_index own id (S n) = i.
Proof. unfold bucket_index. pose proof (distance_exp_bound own id). lia. Qed.

Lemma bucket_index_far own id i : bucket_index own id (S i) = i -> 159 - Z.of_nat i <= distance_exp own id -> bucket_index own id (S (S i)) = i.
Proof. unfold bucket_index. pose proof (distance_exp_bound own id). lia. Qed.

Lemma bucket_index_near own id i : distance_exp own id < 159 - Z.of_nat i -> bucket_index own id (S (S i)) = S i.
Proof. unfold bucket_index. pose proof (distance_exp_bound own id). lia. Qed.

(** ** Splitting *)

Section split.
Context (t : routing_table) (i : nat) (old b nb : routing_table_node).
Context (Hwf : table_wf t) (Hlen : length (m_buckets t) = S i) (Hold : m_buckets t !! i = Some old).
Context (Hperm : bucket_nodes b ++ bucket_nodes nb ≡ₚ bucket_nodes old).
Context (Hfar : forall n, n ∈ bucket_nodes b -> 159 - Z.of_nat i <= distance_exp (m_id t) (ne_id n)).
Context (Hnear : forall n, n ∈ bucket_nodes nb -> distance_exp (m_id t) (ne_id n) < 159 - Z.of_nat i).

#[local] Notation t' := (with_buckets (<[i := b]> (m_buckets t) ++ [nb]) t).

Lemma split_lookup j c : m_buckets t' !! j = Some c -> (j = i /\ c = b) \/ (j = S i /\ c = nb) \/ ((j < i)%nat /\ m_buckets t !! j = Some c).
Proof using Hlen.
  cbn. intros H. apply lookup_app_Some in H as [H|[Hj H]].
  - apply list_lookup_insert_Some in H as [(<- & <- & _)|[Hne H]]; [by left|]. right; right. pose proof (lookup_lt_Some _ _ _ H). split; [lia|done].
  - rewrite length_insert in Hj, H. assert (j = S i) as ->.
    { apply lookup_lt_Some in H. cbn in H. lia. }
    replace (S i - length (m_buckets t))%nat with O in H by lia. injection H as <-. right. by left.
Qed.

Lemma split_all_nodes : all_nodes t' ≡ₚ all_nodes t.
Proof using Hold Hperm.
  destruct (all_nodes_bucket t i old Hold) as (rest & Hr & Hr'). specialize (Hr' b). unfold all_nodes at 1. cbn. fold bucket_nodes.
  rewrite map_app, concat_app, Hr', Hr, <- Hperm. cbn. rewrite app_nil_r. solve_Permutation.
Qed.

Lemma split_node j n c : m_buckets t' !! j = Some c -> n ∈ bucket_nodes c -> node_ok t' j n.
Proof using Hwf Hlen Hold Hperm Hfar Hnear.
  intros Hc Hn. assert (forall n, n ∈ bucket_nodes b ++ bucket_nodes nb -> node_ok t i n) as Hin by (intros m; rewrite Hperm; by apply wf_node).
  assert (length (m_buckets t') = S (S i)) as Hl by (cbn; rewrite length_app, length_insert; cbn; lia).
  assert (node_ok t (if decide (j = S i) then i else j) n /\ bucket_index (m_id t) (ne_id n) (S (S i)) = j) as [[Hr Ho Hb] Hb'].
  { apply split_lookup in Hc as [[-> ->]|[[-> ->]|[Hj Hc]]].
    - assert (node_ok t i n) as H by (apply Hin; set_solver). rewrite decide_False by lia. split; [done|]. destruct H as [_ _ H]. rewrite Hlen in H.
      apply bucket_index_far; [done|by apply Hfar].
    - rewrite decide_True by done. split; [apply Hin; set_solver|]. by apply bucket_index_near, Hnear.
    - rewrite decide_False by lia. assert (node_ok t j n) as H by by eapply wf_node. split; [done|]. destruct H as [_ _ H]. rewrite Hlen in H.
      by apply bucket_index_inner; [lia|]. }
  split; [done|done|]. by rewrite Hl.
Qed.

Lemma split_wf : (length (m_buckets t) < 159)%nat -> table_wf t'.
Proof using Hwf Hlen Hold Hperm Hfar Hnear.
  intros Hc. pose proof Hwf as [Hs Ho _ _ Hi Hip Hu].
  split; [done|done|cbn; rewrite length_app, length_insert; cbn; lia|intros; by eapply split_node| | |done].
  - intros j c Hj. pose proof (Hi i old Hold) as Hnd. rewrite <- Hperm, fmap_app in Hnd. apply NoDup_app in Hnd as (H1 & _ & H2).
    apply split_lookup in Hj as [[-> ->]|[[-> ->]|[_ Hj]]]; [done|done|by eapply Hi].
  - change (m_ips t') with (m_ips t). rewrite Hip. apply list_to_set_disj_perm. by rewrite split_all_nodes.
Qed.
End split.

Lemma filter_both {A} (f : A -> bool) l : filter (fun x => f x = true) l ++ filter (fun x => f x = false) l ≡ₚ l.
Proof.
  induction l as [|x l IH]; [done|]. rewrite !filter_cons. destruct (f x).
  - rewrite decide_True, decide_False by done. cbn. by rewrite IH.
  - rewrite decide_False, decide_True by done. by rewrite <- Permutation_middle, IH.
Qed.

Lemma split_bucket_spec t : table_wf t -> inner_ok t -> m_buckets t <> [] -> (length (m_buckets t) < 159)%nat ->
  exists t', split_bucket t = Some t' /\ table_wf t' /\ inner_ok t' /\ length (m_buckets t') = S (length (m_buckets t)) /\
    config t' = config t /\ keys t' ≡ₚ keys t.
Proof.
  intros Hwf Hin Hne Hc. destruct (m_buckets t) as [|x l] eqn:El; [done|]. rewrite <- El in *. set (i := (length (m_buckets t) - 1)%nat).
  assert (length (m_buckets t) = S i) as Hlen by (unfold i; rewrite El; cbn; lia).
  destruct (lookup_lt_is_Some_2 (m_buckets t) i) as [old Hold]; [lia|]. unfold split_bucket. fold i. rewrite Hold. cbn [mbind option_bind].
  set (far := fun n => 159 - Z.of_nat i <=? distance_exp (m_id t) (ne_id n)). set (limit := bucket_limit (Z.of_nat i) t).
  pose proof (bucket_limit_range (Z.of_nat i) t Hwf) as Hlim. fold limit in Hlim.
  destruct (split_replacements _ _ _ _ _ _ _ _) as [[[b nb] keep] nrb] eqn:E. apply split_replacements_spec in E as (Hp & Hf & Hn & Hl).
  2: { rewrite app_nil_r. apply Forall_take, Forall_forall. by intros n [? _]%list_elem_of_filter. }
  2: { rewrite app_nil_r. apply Forall_forall. by intros n [? _]%list_elem_of_filter. }
  2: { rewrite length_take. lia. }
  assert (bucket_nodes (Bucket keep b) ++ bucket_nodes (Bucket nrb nb) ≡ₚ bucket_nodes old) as Hperm.
  { unfold bucket_nodes. cbn [replacements live_nodes]. rewrite Hp. cbn [app]. pose proof (filter_both far (live_nodes old)) as Hboth. unfold far in Hboth.
    set (fb := filter (fun n => _ = true) _) in *. set (fn := filter (fun n => _ = false) _) in *. rewrite <- Hboth.
    rewrite <- (take_drop (Z.to_nat limit) fb) at 3. solve_Permutation. }
  assert (forall n, n ∈ bucket_nodes (Bucket keep b) -> 159 - Z.of_nat i <= distance_exp (m_id t) (ne_id n)) as Hfar.
  { intros n Hel. rewrite Forall_forall in Hf. apply Z.leb_le, (Hf n). unfold bucket_nodes in Hel. set_solver. }
  assert (forall n, n ∈ bucket_nodes (Bucket nrb nb) -> distance_exp (m_id t) (ne_id n) < 159 - Z.of_nat i) as Hnear.
  { intros n Hel. rewrite Forall_forall in Hn. apply Z.leb_gt, (Hn n). unfold bucket_nodes in Hel. set_solver. }
  eexists. split; [done|]. split; [by eapply split_wf|]. split; [|split; [cbn; rewrite length_app, length_insert; cbn; lia|split; [done|]]].
  - intros j c Hj Hlt. change (bucket_limit (Z.of_nat j) _) with (bucket_limit (Z.of_nat j) t). cbn in Hlt. rewrite length_app, length_insert in Hlt. cbn in Hlt.
    apply (split_lookup t i _ _ Hlen) in Hj as [[-> ->]|[[-> ->]|[Hj Hc']]]; [done|lia|]. apply Hin; [done|lia].
  - unfold keys. by rewrite (split_all_nodes t i old _ _ Hold Hperm).
Qed.

(** ** The loop of [add_node] *)

(** What adding a node promises. *)
Definition added (e : node_entry) (t : routing_table) (r : bool) (t' : routing_table) : Prop :=
  table_ok t' /\ config t' = config t /\
  if r then node_key e ∈ keys t' /\ exists v, effect (node_key e) v t t' else effect (node_key e) None t t'.

Lemma added_trans e t t1 r t' : config t1 = config t -> effect (node_key e) None t t1 -> added e t1 r t' -> added e t r t'.
Proof.
  intros Hc He (Hok & Hc' & Hr). split; [done|]. split; [congruence|]. destruct r; [|by eapply effect_trans].
  destruct Hr as [Hin [v Hv]]. split; [done|]. exists v. by eapply effect_trans.
Qed.

Lemma table_ok_last t : table_wf t -> inner_ok t ->
  (forall b, m_buckets t !! (length (m_buckets t) - 1)%nat = Some b -> (length (m_buckets t) <= 50)%nat -> zlen (live_nodes b) <= bucket_limit (zlen (m_buckets t) - 1) t) ->
  table_ok t.
Proof.
  intros Hwf Hin Hlast. split; [done|]. intros i b Hb Hs. pose proof (lookup_lt_Some _ _ _ Hb). destruct (decide (S i < length (m_buckets t))%nat); [by apply Hin|].
  destruct Hs as [|Hle]; [done|]. assert (i = (length (m_buckets t) - 1)%nat) as -> by lia. replace (Z.of_nat (length (m_buckets t) - 1)) with (zlen (m_buckets t) - 1) by lia.
  by apply Hlast.
Qed.

Lemma split_and_add_spec n : forall e t, table_wf t -> inner_ok t -> entry_range e -> m_buckets t <> [] -> (length (m_buckets t) < 159)%nat ->
  (51 <= n + length (m_buckets t))%nat -> (n <> O) -> exists r t', split_and_add n e t = Some (r, t') /\ added e t r t'.
Proof.
  induction n as [|n IH]; intros e t Hwf Hin He Hne Hlen Hn Hn0; [done|]. cbn [split_and_add].
  destruct (split_bucket_spec t Hwf Hin Hne Hlen) as (t1 & -> & Hwf1 & Hin1 & Hlen1 & Hc1 & Hk1). cbn [mbind option_bind].
  pose proof (effect_perm (node_key e) _ _ Hk1) as Heff1. assert (m_buckets t1 <> []) as Hne1 by (intros E; by rewrite E in Hlen1).
  destruct (Z.ltb_spec 50 (zlen (m_buckets t1))) as [Hbig|Hsmall].
  - destruct (add_node_impl_spec e t1) as (s & t2 & -> & Hok2 & (Hc2 & _) & H2); [by apply table_ok_last; [..|lia]|done|]. cbn.
    eexists _, _. split; [done|]. apply (added_trans e t t1); [done|done|]. split; [done|]. split; [done|]. destruct s; [exact H2|exact H2|by destruct H2].
  - destruct (lookup_lt_is_Some_2 (m_buckets t1) (length (m_buckets t1) - 1)) as [c Hc]; [lia|]. rewrite Hc. cbn [mbind option_bind].
    destruct (Z.ltb_spec (bucket_limit (zlen (m_buckets t1) - 1) t1) (zlen (live_nodes c))).
    + destruct (IH e t1) as (r & t2 & -> & H2); [done|done|done|done|lia|lia|lia|]. eexists _, _. split; [done|]. by eapply added_trans.
    + destruct (add_node_impl_spec e t1) as (s & t2 & -> & Hok2 & (Hc2 & Hg2 & _) & H2); [|done|].
      { apply table_ok_last; [done|done|]. intros c' Hc' _. rewrite Hc in Hc'. by injection Hc' as <-. }
      cbn [mbind option_bind]. specialize (Hg2 Hne1). destruct s.
      * eexists _, _. split; [done|]. apply (added_trans e t t1); [done|done|]. split; [done|]; split; [done|exact H2].
      * eexists _, _. split; [done|]. apply (added_trans e t t1); [done|done|]. split; [done|]; split; [done|exact H2].
      * destruct H2 as [Heff2 _]. destruct (IH e t2) as (r & t3 & -> & H3); [apply Hok2|apply live_inner, Hok2|done|intros E; rewrite E in Hg2; cbn in Hg2; lia|lia|lia|lia|].
        eexists _, _. split; [done|]. apply (added_trans e t t1); [done|done|]. by eapply added_trans.
Qed.

Lemma add_node_spec e t : table_ok t -> entry_range e -> exists r t', add_node e t = Some (r, t') /\ added e t r t'.
Proof.
  intros Hok He. unfold add_node. destruct (add_node_impl_spec e t Hok He) as (s & t1 & -> & Hok1 & (Hc1 & _) & H1). cbn [mbind option_bind]. destruct s.
  - eexists _, _. split; [done|]. split; [done|]; split; [done|exact H1].
  - eexists _, _. split; [done|]. split; [done|]; split; [done|exact H1].
  - destruct H1 as (Heff & i & b & Hb & Hi & Hl & _). destruct (split_and_add_spec 51 e t1) as (r & t2 & -> & H2); [apply Hok1|apply live_inner, Hok1|done| |done|lia|done|].
    { intros E. by rewrite E in Hb. }
    eexists _, _. split; [done|]. by eapply added_trans.
Qed.

(** * Runs of the routing table

    The operations that do not add a node, and runs of all of them from a new
    table. *)

(** ** A node that failed *)

Section failed.
Context (sort : (node_entry -> node_entry -> bool) -> list node_entry -> list node_entry).
Context (Hsort : sorts sort).

(** What failing promises: nothing is added, and only the node is lost. *)
Definition loses (key : Z * (Z * Z)) (t t' : routing_table) : Prop :=
  table_ok t' /\ config t' = config t /\ (forall k, k ∈ keys t' -> k ∈ keys t) /\ (forall k, k ∈ keys t -> k ∈ keys t' \/ k = key).

Lemma loses_perm key t t' : table_ok t' -> config t' = config t -> keys t' ≡ₚ keys t -> loses key t t'.
Proof. intros Hok Hc Hp. split; [done|]. split; [done|]. split; intros k; rewrite Hp; auto. Qed.

Lemma loses_remove key t t' : table_ok t' -> config t' = config t -> keys t ≡ₚ key :: keys t' -> loses key t t'.
Proof. intros Hok Hc Hp. split; [done|]. split; [done|]. split; intros k; rewrite Hp; set_unfold; intuition. Qed.

Lemma loses_trans key t t1 t2 : config t1 = config t -> keys t1 = keys t -> loses key t1 t2 -> loses key t t2.
Proof. intros Hc Hk (Hok & Hc2 & H1 & H2). rewrite Hk in *. split; [done|]. split; [congruence|done]. Qed.

Lemma frame_config t t' : frame t' = frame t -> config t' = config t.
Proof. intros [= Hs Hi Hb Hr _]. unfold config. congruence. Qed.

(** The node gives its place to a replacement. *)
Lemma promote_spec t i b k j rb k' j' :
  table_ok t -> m_buckets t !! i = Some b -> live_nodes b !! k = Some j -> rb ≡ₚ replacements b -> rb !! k' = Some j' ->
  exists t1, erase_one (ne_a j) t = Some t1 /\
    loses (node_key j) t (set_bucket i false (delete k' rb) (set_bucket i true (delete k (live_nodes b) ++ [j']) t1)).
Proof.
  intros Hok Hb Hk Hp Hk'. set (b1 := set_nodes true (delete k (live_nodes b) ++ [j']) b). set (b2 := set_nodes false (delete k' rb) b1).
  destruct (edit_remove t i b b2 Hok Hb) with (n := j) as (He & Hok' & Hkeys).
  { intros Hs. cbn. pose proof (proj2 Hok i b Hb Hs). pose proof (lookup_lt_Some _ _ _ Hk). rewrite length_app, length_delete by done. cbn. lia. }
  { unfold bucket_nodes. cbn. rewrite <- Hp, (delete_Permutation _ _ _ Hk), (delete_Permutation _ _ _ Hk') at 1. solve_Permutation. }
  rewrite He. eexists. split; [done|]. rewrite (set_bucket_edit _ i b true) by done. fold b1. cbn [m_ips with_ips]. rewrite edit_ips.
  rewrite (set_bucket_edit _ i b1 false) by (by eapply edit_lookup). fold b2. cbn [m_ips edit with_ips]. rewrite edit_edit.
  apply loses_remove; [done|by apply frame_config, frame_edit|done].
Qed.

Lemma node_failed_spec nid e t : table_ok t -> exists t', node_failed sort nid e t = Some t' /\ loses (nid, e) t t'.
Proof using Hsort.
  intros Hok. unfold node_failed. assert (loses (nid, e) t t) as Hsame by by apply loses_perm. destruct (nid =? m_id t); [by exists t|].
  destruct (find_bucket_spec nid t Hok) as (t1 & b & -> & Hb & Hok1 & Hk1 & _ & [Hc1 _] & _). rewrite Hb. cbn [mbind option_bind].
  set (i := bucket_index _ _ _) in *. enough (exists t', match list_find (fun n => ne_id n = nid) (live_nodes b) with | Some _ => _ | None => _ end = Some t' /\ loses (nid, e) t1 t')
    as (t' & E & Hl) by (rewrite E; exists t'; split; [done|by eapply loses_trans]).
  assert (loses (nid, e) t1 t1) as Hsame1 by by apply loses_perm.
  assert (forall live k j, nodes_of live b !! k = Some j -> loses (nid, e) t1 (set_node i live k (timed_out j) t1)) as Htime.
  { intros live k j Hk. destruct (set_node_spec t1 i b live k j (timed_out j) Hok1 Hb Hk) as (Hok2 & Hf2 & Hk2); [apply timed_out_key|apply timed_out_range; by eapply node_elem_ok|].
    apply loses_perm; [done|by apply frame_config|done]. }
  destruct (list_find _ (live_nodes b)) as [[k j]|] eqn:Ef.
  - apply list_find_Some in Ef as (Hk & Hid & _). destruct (decide (ep j = e)) as [Hep|]; [|by exists t1].
    assert (node_key j = (nid, e)) as Hkey by (unfold node_key; congruence). destruct (replacements b) as [|r0 rl] eqn:Er.
    + destruct (_ || _); [|eexists; split; [done|by apply (Htime true)]].
      assert (ne_a (timed_out j) = ne_a j) as -> by (pose proof (timed_out_key j) as H; unfold node_key, ep in H; congruence).
      destruct (delete_node_spec t1 i b true k j Hok1 Hb Hk) as (He & Hs & Hok2 & Hk2 & _). cbn [nodes_of] in Hs. rewrite He. cbn [mbind option_bind].
      rewrite Hs. eexists. split; [done|]. rewrite <- Hkey. apply loses_remove; [done|by apply frame_config, frame_edit|done].
    + assert (sort (fun x y => ne_rtt x <? ne_rtt y) (r0 :: rl) ≡ₚ replacements b) as Hp by (rewrite Er; by apply (Hsort _ ne_rtt)). set (rb := sort _ _) in *.
      assert (exists k' j', match list_find (fun n => pinged n = true) rb with Some kj => Some kj | None => pair O <$> rb !! O end = Some (k', j') /\ rb !! k' = Some j')
        as (k' & j' & Ekj & Hk').
      { destruct (list_find _ rb) as [[k' j']|] eqn:E; [apply list_find_Some in E as (H & _ & _); by exists k', j'|].
        destruct rb as [|x l]; [rewrite Er in Hp; by apply Permutation_nil_cons in Hp|by exists O, x]. }
      destruct (promote_spec t1 i b k j rb k' j' Hok1 Hb Hk Hp Hk') as (t2 & He & Hl). rewrite He. cbn [mbind option_bind]. rewrite Ekj. cbn [mbind option_bind].
      rewrite <- Hkey. by eexists.
  - destruct (list_find _ (replacements b)) as [[k j]|] eqn:Ef2; [|by exists t1]. apply list_find_Some in Ef2 as (Hk & Hid & _).
    destruct (decide (ep j = e)); [|by exists t1]. eexists. split; [done|]. by apply (Htime false).
Qed.
End failed.

(** ** A new node id *)

Lemma empty_table_ok t id : table_ok t -> id_range id ->
  table_ok (Table (m_settings t) [] id (m_depth t) (m_router_nodes t) ∅ (m_bucket_size t)).
Proof.
  intros [Hwf _] Hid. split; [split; cbn; try done; try lia|done].
  - apply (wf_size _ Hwf).
  - intros _ ip. rewrite multiplicity_empty. lia.
Qed.

Lemma add_nodes_spec l : forall t, table_ok t -> Forall entry_range l ->
  exists t', add_nodes l t = Some t' /\ table_ok t' /\ config t' = config t /\ (forall k, k ∈ keys t' -> k ∈ keys t \/ k ∈ node_key <$> l).
Proof.
  induction l as [|e l IH]; intros t Hok Hl; cbn [add_nodes]; [exists t; split; [done|]; split; [done|]; split; [done|auto]|].
  apply Forall_cons in Hl as [He Hl]. destruct (add_node_spec e t Hok He) as (r & t1 & -> & Hok1 & Hc1 & H1). cbn [mbind option_bind].
  destruct (IH t1 Hok1 Hl) as (t2 & -> & Hok2 & Hc2 & Hk2). exists t2. split; [done|]. split; [done|]. split; [congruence|].
  intros k [Hk|Hk]%Hk2; [|right; set_solver]. assert (k ∈ keys t \/ k = node_key e) as [?| ->]; [|by left|right; set_solver].
  destruct r; [destruct H1 as [_ [v [Hg _]]]|destruct H1 as [Hg _]]; by apply Hg.
Qed.

Lemma old_nodes t n : n ∈ concat (map live_nodes (m_buckets t)) ++ concat (map replacements (m_buckets t)) -> n ∈ all_nodes t.
Proof.
  rewrite elem_of_app, elem_all_nodes, !list_elem_of_In, !in_concat.
  intros [(l & Hl & Hn)|(l & Hl & Hn)]; apply in_map_iff in Hl as (b & <- & Hb); apply list_elem_of_In, list_elem_of_lookup in Hb as [i Hi];
    exists i, b; (split; [done|]); apply list_elem_of_In in Hn; unfold bucket_nodes; set_solver.
Qed.

Lemma update_node_id_spec id t : table_ok t -> id_range id ->
  exists t', update_node_id id t = Some t' /\ table_ok t' /\ m_id t' = id /\ m_settings t' = m_settings t /\ (forall k, k ∈ keys t' -> k ∈ keys t).
Proof.
  intros Hok Hid. unfold update_node_id. destruct (add_nodes_spec (concat (map live_nodes (m_buckets t)) ++ concat (map replacements (m_buckets t))) _ (empty_table_ok t id Hok Hid))
    as (t' & -> & Hok' & [= Hs Hi _ _] & Hk).
  { apply Forall_forall. intros n (i & b & Hb & Hn)%old_nodes%elem_all_nodes. by eapply wf_node; [apply Hok|..]. }
  exists t'. split; [done|]. split; [done|]. split; [done|]. split; [done|]. intros k [Hk'|Hk']%Hk; [by apply elem_of_nil in Hk'|].
  apply list_elem_of_fmap in Hk' as (n & -> & Hn%old_nodes). apply list_elem_of_fmap. by exists n.
Qed.

(** ** Refreshing *)

Definition points (t : routing_table) (c : option (nat * nat * node_entry)) : Prop :=
  match c with None => True | Some (i, k, n) => exists b, m_buckets t !! i = Some b /\ live_nodes b !! k = Some n end.

Lemma scan_refresh_spec t own i b l c : m_buckets t !! i = Some b -> (forall k n, (k, n) ∈ l -> live_nodes b !! k = Some n) -> points t c ->
  points t (scan_refresh own i l c).1.
Proof.
  intros Hb. revert c. induction l as [|[k j] l IH]; intros c Hl Hc; cbn [scan_refresh]; [done|].
  assert (points t (Some (i, k, j))) as Hj by (exists b; split; [done|]; apply Hl; set_solver).
  assert (forall k n, (k, n) ∈ l -> live_nodes b !! k = Some n) as Hl' by (intros k' n' H; apply Hl; set_solver).
  destruct (_ =? own); [by apply IH|]. destruct (_ =? min_time); [done|]. apply IH; [done|]. by destruct (match c with Some _ => _ | None => _ end).
Qed.

Lemma scan_buckets_spec t own n c : points t c -> points t (scan_buckets own n (m_buckets t) c).
Proof.
  revert c. induction n as [|n IH]; intros c Hc; cbn [scan_buckets]; [done|]. destruct (m_buckets t !! n) as [b|] eqn:Eb; [|done].
  pose proof (scan_refresh_spec t own n b (indexed (live_nodes b)) c Eb) as H. destruct (scan_refresh _ _ _ _) as [c' out]. cbn in H.
  assert (points t c') as Hc' by (apply H; [intros k m; apply elem_indexed|done]). destruct out; [done|by apply IH].
Qed.

Lemma next_refresh_spec now t : table_ok t ->
  table_ok (next_refresh now t).2 /\ config (next_refresh now t).2 = config t /\ keys (next_refresh now t).2 ≡ₚ keys t /\
  match (next_refresh now t).1 with Some n => node_key n ∈ keys t /\ ne_last_queried n = now | None => True end.
Proof.
  intros Hok. unfold next_refresh. pose proof (scan_buckets_spec t (m_id t) (length (m_buckets t)) None I) as Hp. destruct (scan_buckets _ _ _ _) as [[[i k] c]|]; [|done].
  destruct Hp as (b & Hb & Hk). pose proof (node_range _ _ _ (node_elem_ok t i b true k c Hok Hb Hk)) as [Hr1 Hr2 Hr3].
  destruct (set_node_spec t i b true k c (with_queried now c) Hok Hb Hk eq_refl) as (Hok' & Hf & Hkeys); [by split|]. cbn.
  split; [done|]. split; [by apply frame_config|]. split; [done|]. split; [|done]. change (node_key (with_queried now c)) with (node_key c). by eapply key_elem, (nodes_of_elem true).
Qed.
