(* ===== verification/RoutingTableFind.v ===== *)
(** * The nodes near a target

    What [find_node] takes of the buckets, and that a bucket is a ball of the
    metric: its nodes are nearer to each other than to any other node. *)

From Stdlib Require Import ZArith Lia.
From stdpp Require Import base numbers sets gmultiset sorting list.
From S2P Require Import Prelude NodeId RoutingTable RoutingTableSpec RoutingTableInsert.

(** ** Bits *)

Lemma bit_le v k : 0 <= v -> 0 <= k -> Z.testbit v k = true -> 2 ^ k <= v.
Proof.
  intros Hv Hk Hb. destruct (Z.lt_ge_cases v (2 ^ k)) as [Hlt|]; [|done]. rewrite <- (Z.mod_small v (2 ^ k)) in Hb by lia.
  by rewrite Z.mod_pow2_bits_high in Hb by lia.
Qed.

Lemma bits_lt v m : 0 <= v -> 0 <= m -> (forall k, m <= k -> Z.testbit v k = false) -> v < 2 ^ m.
Proof.
  intros Hv Hm Hb. destruct (Z.eq_dec v 0) as [->|]; [lia|]. apply Z.log2_lt_pow2; [lia|]. destruct (Z.lt_ge_cases (Z.log2 v) m) as [|Hge]; [done|].
  specialize (Hb _ Hge). rewrite Z.bit_log2 in Hb; [done|lia].
Qed.

Lemma bit_high v m k : 0 <= v < 2 ^ m -> 0 <= m <= k -> Z.testbit v k = false.
Proof. intros Hv Hk. rewrite <- (Z.mod_small v (2 ^ m)) by lia. by rewrite Z.mod_pow2_bits_high by lia. Qed.

(** ** Buckets are balls *)

Section metric.
Context (own : Z) (n : nat) (Hown : id_range own) (Hn : (0 < n <= 159)%nat).

#[local] Notation at_bucket x := (bucket_index own x n).

Lemma bucket_below x i : id_range x -> at_bucket x = i -> Z.lxor own x < 2 ^ (160 - Z.of_nat i).
Proof using Hown Hn.
  intros Hx Hi. pose proof (lxor_range own x Hown Hx) as [H0 _]. unfold bucket_index in Hi.
  pose proof (distance_exp_bound own x). rewrite distance_exp_spec in * by done.
  destruct (Z.eq_dec (Z.lxor own x) 0) as [->|]; [lia|]. apply Z.log2_lt_pow2; [lia|]. pose proof (Z.log2_nonneg (Z.lxor own x)). lia.
Qed.

Lemma bucket_bit x i : id_range x -> at_bucket x = i -> (i < n - 1)%nat -> Z.testbit (Z.lxor own x) (159 - Z.of_nat i) = true.
Proof using Hown Hn.
  intros Hx Hi Hlt. pose proof (lxor_range own x Hown Hx) as [H0 _]. unfold bucket_index in Hi.
  pose proof (distance_exp_bound own x). rewrite distance_exp_spec in * by done.
  pose proof (Z.log2_nonneg (Z.lxor own x)). replace (159 - Z.of_nat i) with (Z.log2 (Z.lxor own x)) by lia. apply Z.bit_log2.
  destruct (Z.eq_dec (Z.lxor own x) 0) as [E|]; [|lia]. rewrite E in Hi. cbn in Hi. lia.
Qed.

Lemma lxor_through x y : Z.lxor x y = Z.lxor (Z.lxor own x) (Z.lxor own y).
Proof. apply Z.bits_inj'. intros k Hk. rewrite !Z.lxor_spec. by destruct (Z.testbit own k), (Z.testbit x k), (Z.testbit y k). Qed.

Lemma bucket_near x y z i : id_range x -> id_range y -> id_range z -> at_bucket x = i -> at_bucket z = i -> at_bucket y <> i ->
  Z.lxor x z < Z.lxor y z.
Proof using Hown Hn.
  intros Hx Hy Hz Hi Hiz Hj. set (j := at_bucket y) in *. pose proof (bucket_below x i Hx Hi) as Bx. pose proof (bucket_below z i Hz Hiz) as Bz.
  pose proof (bucket_below y j Hy eq_refl) as By. pose proof (lxor_range own x Hown Hx) as [Rx _]. pose proof (lxor_range own z Hown Hz) as [Rz _].
  pose proof (lxor_range own y Hown Hy) as [Ry _]. pose proof (lxor_range x z Hx Hz) as [Rxz _]. pose proof (lxor_range y z Hy Hz) as [Ryz _].
  assert (i < n)%nat by (rewrite <- Hi; apply bucket_index_lt; lia). assert (j < n)%nat by (apply bucket_index_lt; lia).
  destruct (decide (i < j)%nat) as [Hlt|Hge].
  - pose proof (bucket_bit x i Hx Hi ltac:(lia)) as Tx. pose proof (bucket_bit z i Hz Hiz ltac:(lia)) as Tz.
    apply (Z.lt_le_trans _ (2 ^ (159 - Z.of_nat i))).
    + apply bits_lt; [done|lia|]. intros k Hk. rewrite lxor_through, Z.lxor_spec. destruct (Z.eq_dec k (159 - Z.of_nat i)) as [->|]; [by rewrite Tx, Tz|].
      by rewrite !(bit_high _ (160 - Z.of_nat i)) by lia.
    + apply bit_le; [done|lia|]. rewrite lxor_through, Z.lxor_spec, Tz. rewrite (bit_high (Z.lxor own y) (160 - Z.of_nat j)) by lia. done.
  - pose proof (bucket_bit y j Hy eq_refl ltac:(lia)) as Ty. apply (Z.lt_le_trans _ (2 ^ (160 - Z.of_nat i))).
    + apply bits_lt; [done|lia|]. intros k Hk. rewrite lxor_through, Z.lxor_spec. by rewrite !(bit_high _ (160 - Z.of_nat i)) by lia.
    + transitivity (2 ^ (159 - Z.of_nat j)); [apply Z.pow_le_mono_r; lia|]. apply bit_le; [done|lia|].
      rewrite lxor_through, Z.lxor_spec, Ty. rewrite (bit_high (Z.lxor own z) (160 - Z.of_nat i)) by lia. done.
Qed.
End metric.

(** ** Collecting nodes *)

Definition wanted_nodes (include_failed : bool) (bs : list routing_table_node) : list node_entry := concat (map (wanted include_failed) bs).

Section find.
Context (sort : (node_entry -> node_entry -> bool) -> list node_entry -> list node_entry) (Hsort : sorts sort).
Context (target : Z) (include_failed : bool) (count : Z).

Definition id_distance (n : node_entry) : Z := Z.lxor (ne_id n) target mod 2 ^ 160.

Lemma sort_distance l :
  sort (fun x y => compare_ref (ne_id x) (ne_id y) target) l ≡ₚ l /\
  StronglySorted (fun x y => id_distance x <= id_distance y) (sort (fun x y => compare_ref (ne_id x) (ne_id y) target) l).
Proof using Hsort. apply Hsort. intros x y. unfold compare_ref. by rewrite compare_bytes_spec. Qed.

(** What a loop over buckets leaves: all of their nodes, or [count] nodes. *)
Lemma collect_spec bs : forall l, zlen l < count ->
  let r := collect sort target include_failed count bs l in
  if r.2 then zlen r.1 = count /\ exists m rest, r.1 = l ++ m /\ m ++ rest ≡ₚ wanted_nodes include_failed bs
  else r.1 = l ++ wanted_nodes include_failed bs /\ zlen r.1 < count.
Proof using Hsort.
  induction bs as [|b bs IH]; intros l Hl; cbn [collect]; [split; [by rewrite app_nil_r|done]|].
  set (w := wanted include_failed b). change (wanted_nodes include_failed (b :: bs)) with (w ++ wanted_nodes include_failed bs).
  destruct (Z.eqb_spec (zlen (l ++ w)) count) as [He|He]; [split; [done|]; by exists w, (wanted_nodes include_failed bs)|].
  destruct (Z.ltb_spec count (zlen (l ++ w))) as [Hlt|Hge].
  - destruct (sort_distance w) as [Hp _]. set (sw := sort _ w) in *. assert (length sw = length w) as Hlen by by rewrite Hp.
    rewrite length_app in Hlt. cbn. split; [rewrite length_take, length_app; lia|]. exists (take (Z.to_nat count - length l) sw), (drop (Z.to_nat count - length l) sw ++ wanted_nodes include_failed bs).
    split; [rewrite take_app; f_equal; by rewrite take_ge by lia|]. by rewrite app_assoc, take_drop, Hp.
  - specialize (IH (l ++ w) ltac:(lia)). cbn in IH. destruct (collect _ _ _ _ _ _) as [r [|]]; cbn in *.
    + destruct IH as (Hr & m & rest & -> & Hm). split; [done|]. exists (w ++ m), rest. rewrite app_assoc. split; [done|]. by rewrite <- app_assoc, Hm.
    + destruct IH as [-> Hr]. split; [by rewrite app_assoc|done].
Qed.

(** The first bucket is taken whole, or its nearest nodes are. *)
Lemma collect_first b bs : 0 < count ->
  let r := collect sort target include_failed count (b :: bs) [] in
  (exists m, r.1 = wanted include_failed b ++ m) \/
  (r.2 = true /\ exists rest, r.1 ++ rest ≡ₚ wanted include_failed b /\ forall x y, x ∈ r.1 -> y ∈ rest -> id_distance x <= id_distance y).
Proof using Hsort.
  intros Hc. cbn [collect app]. set (w := wanted include_failed b). destruct (Z.eqb_spec (zlen w) count) as [He|He]; [left; exists []; by rewrite app_nil_r|].
  destruct (Z.ltb_spec count (zlen w)) as [Hlt|Hge].
  - right. split; [done|]. destruct (sort_distance w) as [Hp Hs]. cbn. set (sw := sort _ w) in *. exists (drop (Z.to_nat count) sw).
    split; [by rewrite take_drop|]. intros x y Hx Hy. rewrite <- (take_drop (Z.to_nat count) sw) in Hs.
    exact (StronglySorted_app_1_elem_of _ _ _ _ _ Hs Hx Hy).
  - left. pose proof (collect_spec bs w ltac:(lia)) as H. destruct (collect _ _ _ _ _ _) as [r [|]]; cbn in *; [destruct H as (_ & m & _ & -> & _); by exists m|].
    destruct H as [-> _]. by eexists.
Qed.

(** ** [find_node] *)

Lemma elem_wanted_nodes bs n : n ∈ wanted_nodes include_failed bs <-> exists j b, bs !! j = Some b /\ n ∈ wanted include_failed b.
Proof using Type.
  unfold wanted_nodes. rewrite list_elem_of_In, in_concat. split.
  - intros (w & Hw & Hn). apply in_map_iff in Hw as (b & <- & Hb). apply list_elem_of_In, list_elem_of_lookup in Hb as [j Hj]. exists j, b.
    split; [done|]. by apply list_elem_of_In.
  - intros (j & b & Hj & Hn). exists (wanted include_failed b). split; [|by apply list_elem_of_In]. apply in_map_iff. exists b. split; [done|].
    apply list_elem_of_In. by eapply list_elem_of_lookup_2.
Qed.

Lemma elem_others bs i n : n ∈ wanted_nodes include_failed (take i bs) ++ wanted_nodes include_failed (drop (S i) bs) ->
  exists j b, j <> i /\ bs !! j = Some b /\ n ∈ wanted include_failed b.
Proof using Type.
  rewrite elem_of_app, !elem_wanted_nodes. intros [(j & b & Hj & Hn)|(j & b & Hj & Hn)].
  - apply lookup_take_Some in Hj as [Hj Hlt]. exists j, b. split; [lia|done].
  - rewrite lookup_drop in Hj. exists (S i + j)%nat, b. split; [lia|done].
Qed.

Lemma find_bucket_wanted id t : wanted_nodes include_failed (m_buckets (find_bucket id t).2) = wanted_nodes include_failed (m_buckets t).
Proof using Type. unfold find_bucket. destruct (m_buckets t) eqn:E; cbn; [|by rewrite E]. by destruct include_failed. Qed.

Lemma wanted_nodes_app bs bs' : wanted_nodes include_failed (bs ++ bs') = wanted_nodes include_failed bs ++ wanted_nodes include_failed bs'.
Proof using Type. unfold wanted_nodes. by rewrite map_app, concat_app. Qed.

Lemma wanted_nodes_rev bs : wanted_nodes include_failed (rev bs) ≡ₚ wanted_nodes include_failed bs.
Proof using Type.
  induction bs as [|b bs IH]; [done|]. cbn [rev]. rewrite wanted_nodes_app, IH. cbn. rewrite app_nil_r. apply Permutation_app_comm.
Qed.

Lemma elem_wanted b n : n ∈ wanted include_failed b -> n ∈ bucket_nodes b.
Proof using Type. unfold wanted, bucket_nodes. rewrite elem_of_app. destruct include_failed; [by right|]. intros [_ H]%list_elem_of_filter. by right. Qed.

(** The two loops around bucket [i]. *)
Definition around (i : nat) (bs : list routing_table_node) : list node_entry :=
  let '(l, done) := collect sort target include_failed count (drop i bs) [] in
  if done then l else (collect sort target include_failed count (rev (take i bs)) l).1.

Lemma around_spec i b bs : bs !! i = Some b -> 0 < count ->
  exists rest, around i bs ++ rest ≡ₚ wanted_nodes include_failed bs /\ zlen (around i bs) = Z.min count (zlen (wanted_nodes include_failed bs)) /\
    ((exists m, around i bs = wanted include_failed b ++ m) \/
     exists near others, rest = near ++ others /\ around i bs ++ near ≡ₚ wanted include_failed b /\
       forall x y, x ∈ around i bs -> y ∈ near -> id_distance x <= id_distance y).
Proof using Hsort.
  intros Hb Hc. unfold around. pose proof (take_drop_middle bs i b Hb) as Hbs. rewrite (drop_S bs b i Hb).
  set (bs1 := take i bs) in *. set (bs2 := drop (S i) bs) in *. clearbody bs1 bs2. subst bs. clear Hb.
  pose proof (collect_spec (b :: bs2) [] Hc) as H1. pose proof (collect_first b bs2 Hc) as H2.
  change (wanted_nodes include_failed (b :: bs2)) with (wanted include_failed b ++ wanted_nodes include_failed bs2) in H1.
  assert (wanted_nodes include_failed (bs1 ++ b :: bs2) ≡ₚ wanted include_failed b ++ wanted_nodes include_failed bs2 ++ wanted_nodes include_failed bs1) as Hall.
  { rewrite wanted_nodes_app. change (wanted_nodes include_failed (b :: bs2)) with (wanted include_failed b ++ wanted_nodes include_failed bs2). solve_Permutation. }
  destruct (collect _ _ _ _ (b :: bs2) []) as [l [|]]; cbn in H1, H2.
  - destruct H1 as (Hl & m & rest & -> & Hm). cbn in *. destruct H2 as [[m' E]|(_ & near & Hnear & Hle)].
    + exists (rest ++ wanted_nodes include_failed bs1). split; [by rewrite app_assoc, Hm, Hall, <- app_assoc|]. split; [|left; by exists m'].
      rewrite Hall, app_assoc, length_app, <- Hm, length_app. lia.
    + exists (near ++ wanted_nodes include_failed bs2 ++ wanted_nodes include_failed bs1). split; [by rewrite app_assoc, Hnear, Hall|]. split; [|right; by eexists _, _].
      rewrite Hall, length_app, <- Hnear, length_app. lia.
  - destruct H1 as [-> Hl]. cbn in *. pose proof (collect_spec (rev bs1) (wanted include_failed b ++ wanted_nodes include_failed bs2) Hl) as H3. cbn in H3.
    destruct (collect _ _ _ _ (rev bs1) _) as [l [|]]; cbn in *.
    + destruct H3 as (Hlen & m & rest & -> & Hm). rewrite wanted_nodes_rev in Hm. exists rest. split; [by rewrite Hall, <- Hm, <- !app_assoc|].
      split; [rewrite Hall, <- Hm; rewrite !length_app in *; lia|]. left. rewrite <- app_assoc. by eexists.
    + destruct H3 as [-> Hlen]. exists []. split; [by rewrite app_nil_r, Hall, wanted_nodes_rev, <- app_assoc|].
      split; [rewrite Hall, !length_app, (Permutation_length (wanted_nodes_rev bs1)) in *; lia|]. left. rewrite <- app_assoc. by eexists.
Qed.
End find.

(** Whether a node is in the bucket of the target. *)
Definition same_bucket (t : routing_table) (target : Z) (n : node_entry) : Prop :=
  bucket_index (m_id t) (ne_id n) (length (m_buckets t)) = bucket_index (m_id t) target (length (m_buckets t)).

Lemma find_node_spec sort target include_failed count t : sorts sort -> table_ok t -> id_range target -> 0 <= count ->
  exists l t' rest, find_node sort target include_failed count t = (l, t') /\ table_ok t' /\ config t' = config t /\ keys t' = keys t /\
    l ++ rest ≡ₚ wanted_nodes include_failed (m_buckets t) /\
    zlen l = Z.min (if count =? 0 then m_bucket_size t else count) (zlen (wanted_nodes include_failed (m_buckets t))) /\
    forall x y, x ∈ l -> y ∈ rest -> same_bucket t' target x -> Z.lxor (ne_id x) target <= Z.lxor (ne_id y) target.
Proof.
  intros Hsort Hok Ht Hc. unfold find_node. set (c := if count =? 0 then _ else _).
  assert (0 < c) as Hc0 by (unfold c; pose proof (wf_size _ (proj1 Hok)); destruct (Z.eqb_spec count 0); lia).
  pose proof (find_bucket_wanted include_failed target t) as Hw. destruct (find_bucket_spec target t Hok) as (t1 & b & E & Hb & Hok1 & Hk1 & _ & [Hc1 _] & _).
  assert (m_id t1 = m_id t) as Hid by (injection Hc1; done). rewrite E in Hw |- *. cbn in Hw. set (i := bucket_index (m_id t) target (length (m_buckets t1))) in *.
  destruct (around_spec sort Hsort target include_failed c i b (m_buckets t1) Hb Hc0) as (rest & Hp & Hlen & Hnear). rewrite Hw in Hp, Hlen.
  exists (around sort target include_failed c i (m_buckets t1)), t1, rest. split; [unfold around; destruct (collect _ _ _ _ (drop i _) []) as [l [|]]; done|].
  split; [done|]. split; [done|]. split; [done|]. split; [done|]. split; [done|]. intros x y Hx Hy Hsame. unfold same_bucket in Hsame. rewrite Hid in Hsame.
  set (l := around _ _ _ _ _ _) in *. set (others := wanted_nodes include_failed (take i (m_buckets t1)) ++ wanted_nodes include_failed (drop (S i) (m_buckets t1))).
  assert (wanted_nodes include_failed (m_buckets t1) ≡ₚ wanted include_failed b ++ others) as Hall.
  { unfold others. rewrite <- (take_drop_middle (m_buckets t1) i b Hb) at 1. rewrite wanted_nodes_app.
    change (wanted_nodes include_failed (b :: ?l)) with (wanted include_failed b ++ wanted_nodes include_failed l). solve_Permutation. }
  rewrite <- Hw, Hall in Hp. assert (forall n, n ∈ l ++ rest -> exists j, node_ok t1 j n) as Hin.
  { intros n Hn. rewrite Hp, <- Hall in Hn. apply elem_wanted_nodes in Hn as (j & b' & Hj & Hn). exists j. eapply wf_node; [apply Hok1|done|by eapply elem_wanted]. }
  assert (y ∈ others -> Z.lxor (ne_id x) target <= Z.lxor (ne_id y) target) as Hfar.
  { intros (j & b' & Hne & Hj & Hyb)%elem_others. apply elem_wanted in Hyb. assert (node_ok t1 j y) as [Hry _ Hby] by (eapply wf_node; [apply Hok1|done..]).
    destruct (Hin x ltac:(set_solver)) as [jx [Hrx _ _]]. rewrite Hid in Hby. apply Z.lt_le_incl.
    apply (bucket_near (m_id t) (length (m_buckets t1)) (wf_own _ (proj1 Hok))) with (i := i); [|apply Hrx|apply Hry|done|done|done|congruence].
    pose proof (wf_count _ (proj1 Hok1)). pose proof (lookup_lt_Some _ _ _ Hb). lia. }
  destruct Hnear as [[m Em]|(near & oth & -> & Hnear & Hle)].
  - apply Hfar. rewrite Em, <- app_assoc in Hp. apply Permutation_app_inv_l in Hp. rewrite <- Hp. set_solver.
  - rewrite app_assoc, Hnear in Hp. apply Permutation_app_inv_l in Hp. apply elem_of_app in Hy as [Hy|Hy]; [|apply Hfar; by rewrite <- Hp].
    destruct (Hin x ltac:(set_solver)) as [jx [Hrx _ _]], (Hin y ltac:(set_solver)) as [jy [Hry _ _]]. specialize (Hle x y Hx Hy). unfold id_distance in Hle.
    pose proof (lxor_range (ne_id x) target (er_id _ Hrx) Ht). pose proof (lxor_range (ne_id y) target (er_id _ Hry) Ht). unfold id_range in *.
    by rewrite !Z.mod_small in Hle by lia.
Qed.
