(* ===== verification/RoutingTableTheorems.v ===== *)
(** * What the routing table promises

    Runs of operations keep the invariant, what seeing a node and looking for
    nodes do, the metric of the ids, and what the table does not do. *)

From Stdlib Require Import ZArith Lia.
From stdpp Require Import base numbers sets gmultiset sorting list.
From S2P Require Import Prelude NodeId RoutingTable RoutingTableSpec RoutingTableInsert RoutingTableRun.
From S2P Require Import RoutingTableFind.

(** ** Runs *)

Inductive table_op :=
  | NodeSeen (id : Z) (e : Z * Z) (rtt now : Z) (random : Z -> Z)
  | HeardAbout (id : Z) (e : Z * Z) (now : Z) (random : Z -> Z)
  | NodeFailed (id : Z) (e : Z * Z)
  | AddRouter (e : Z * Z)
  | UpdateId (id : Z)
  | NextRefresh (now : Z)
  | FindNode (target : Z) (include_failed : bool) (count : Z)
  | Depth.

Definition op_range (op : table_op) : Prop :=
  match op with
  | NodeSeen id _ _ _ _ | HeardAbout id _ _ _ | UpdateId id => id_range id
  | FindNode target _ count => id_range target /\ 0 <= count
  | _ => True
  end.

Section run.
Context (crc32c_32 : list Z -> Z).
Context (sort : (node_entry -> node_entry -> bool) -> list node_entry -> list node_entry).

Definition table_step (op : table_op) (t : routing_table) : option routing_table :=
  match op with
  | NodeSeen id e rtt now random => '(_, t) ← node_seen crc32c_32 id e rtt now random t; Some t
  | HeardAbout id e now random => heard_about crc32c_32 id e now random t
  | NodeFailed id e => node_failed sort id e t
  | AddRouter e => Some (add_router_node e t)
  | UpdateId id => update_node_id id t
  | NextRefresh now => Some (next_refresh now t).2
  | FindNode target include_failed count => Some (find_node sort target include_failed count t).2
  | Depth => Some (depth t).2
  end.

Fixpoint run_table (ops : list table_op) (t : routing_table) : option routing_table :=
  match ops with [] => Some t | op :: ops => t ← table_step op t; run_table ops t end.

(** ** A step keeps the invariant *)

Lemma with_depth_ok d t : table_ok t -> table_ok (with_depth d t).
Proof. intros [[Hs Ho Hc Hn Hi Hip Hu] Hl]. split; [split; done || (intros i b n Hb Hin; by destruct (Hn i b n Hb Hin))|done]. Qed.

Lemma add_router_ok e t : table_ok t -> table_ok (add_router_node e t).
Proof. intros [[Hs Ho Hc Hn Hi Hip Hu] Hl]. split; [split; done || (intros i b n Hb Hin; by destruct (Hn i b n Hb Hin))|done]. Qed.

Lemma depth_table t : exists d, (depth t).2 = with_depth d t.
Proof. unfold depth. case_match; by eexists. Qed.

Lemma node_seen_spec id e rtt now random t : table_ok t -> id_range id ->
  exists r t', node_seen crc32c_32 id e rtt now random t = Some (r, t') /\ added (new_node_entry id e rtt true now) t r t'.
Proof.
  intros Hok Hid. unfold node_seen. destruct (verify_node_address _ _ _ _ _).
  - apply add_node_spec; [done|by apply new_node_range].
  - exists false, t. split; [done|]. split; [done|]. split; [done|]. by apply effect_perm.
Qed.

Lemma heard_about_spec id e now random t : table_ok t -> id_range id ->
  exists t', heard_about crc32c_32 id e now random t = Some t' /\ table_ok t'.
Proof.
  intros Hok Hid. unfold heard_about. destruct (verify_node_address _ _ _ _ _); [|by exists t].
  destruct (add_node_spec (new_node_entry id e 0xffff false now) t Hok) as (r & t' & -> & Hok' & _); [by apply new_node_range|]. by exists t'.
Qed.

Lemma table_step_ok op t : sorts sort -> table_ok t -> op_range op -> exists t', table_step op t = Some t' /\ table_ok t'.
Proof.
  intros Hsort Hok Hop. destruct op as [id e rtt now random|id e now random|id e|e|id|now|target inc count|]; cbn [table_step op_range] in *.
  - destruct (node_seen_spec id e rtt now random t Hok Hop) as (r & t' & -> & Hok' & _). by exists t'.
  - by apply heard_about_spec.
  - destruct (node_failed_spec sort Hsort id e t Hok) as (t' & -> & Hok' & _). by exists t'.
  - eexists. split; [done|by apply add_router_ok].
  - destruct (update_node_id_spec id t Hok Hop) as (t' & -> & Hok' & _). by exists t'.
  - eexists. split; [done|by apply next_refresh_spec].
  - destruct Hop as [Ht Hc]. destruct (find_node_spec sort target inc count t Hsort Hok Ht Hc) as (l & t' & rest & -> & Hok' & _). by exists t'.
  - eexists. split; [done|]. destruct (depth_table t) as [d ->]. by apply with_depth_ok.
Qed.

Lemma run_table_ok ops : forall t, sorts sort -> table_ok t -> Forall op_range ops -> exists t', run_table ops t = Some t' /\ table_ok t'.
Proof.
  induction ops as [|op ops IH]; intros t Hsort Hok Hops; [by exists t|]. apply Forall_cons in Hops as [Hop Hops].
  destruct (table_step_ok op t Hsort Hok Hop) as (t1 & E & Hok1). cbn [run_table]. rewrite E. by apply IH.
Qed.
End run.

(** ** What the invariant says *)

Lemma new_table_ok id bucket_size settings : id_range id -> 2 <= bucket_size <= 16 -> table_ok (new_routing_table id bucket_size settings).
Proof.
  intros Hid Hs. split; [split; cbn; try done; try lia|done]. intros _ ip. rewrite multiplicity_empty. lia.
Qed.

Lemma check_ok t : table_ok t -> check_invariant t = true.
Proof. intros [Hwf _]. unfold check_invariant. apply bool_decide_eq_true_2, Hwf. Qed.

Lemma NoDup_concat {A B} (f : A -> list B) (l : list A) :
  (forall i x, l !! i = Some x -> NoDup (f x)) ->
  (forall i j x y b, l !! i = Some x -> l !! j = Some y -> b ∈ f x -> b ∈ f y -> i = j) -> NoDup (concat (map f l)).
Proof.
  induction l as [|x l IH]; intros Hnd Hdis; cbn; [constructor|]. apply NoDup_app. split; [by apply (Hnd O)|]. split.
  - intros b Hb Hin. rewrite list_elem_of_In, in_concat in Hin. destruct Hin as (m & Hm & Hbm). apply in_map_iff in Hm as (y & <- & Hy).
    apply list_elem_of_In, list_elem_of_lookup in Hy as [j Hj]. apply list_elem_of_In in Hbm. by specialize (Hdis O (S j) x y b eq_refl Hj Hb Hbm).
  - apply IH; [intros i y Hy; by apply (Hnd (S i))|]. intros i j y z b Hy Hz Hby Hbz. by specialize (Hdis (S i) (S j) y z b Hy Hz Hby Hbz) as [=].
Qed.

(** No id is twice in the table. *)
Lemma unique_ids t : table_ok t -> NoDup (ne_id <$> all_nodes t).
Proof.
  intros [Hwf _]. unfold all_nodes. change (list_fmap ?A ?B ne_id) with (map (A:=A) (B:=B) ne_id). change (ne_id <$> ?l) with (map ne_id l).
  rewrite concat_map, map_map. apply NoDup_concat; [intros i b Hb; by apply (wf_ids _ Hwf i)|].
  intros i j b c x Hb Hc Hxb Hxc. apply list_elem_of_fmap in Hxb as (n & -> & Hn), Hxc as (m & E & Hm).
  destruct (wf_node _ Hwf i b n Hb Hn) as [_ _ <-], (wf_node _ Hwf j c m Hc Hm) as [_ _ <-]. by rewrite E.
Qed.

Lemma multiplicity_list (l : list Z) : (forall x, (multiplicity x (list_to_set_disj (C:=gmultiset Z) l) <= 1)%nat) -> NoDup l.
Proof.
  induction l as [|x l IH]; intros H; constructor.
  - intros Hin. specialize (H x). rewrite list_to_set_disj_cons, multiplicity_disj_union, multiplicity_singleton_eq in H.
    rewrite <- elem_of_list_to_set_disj, elem_of_multiplicity in Hin. lia.
  - apply IH. intros y. specialize (H y). rewrite list_to_set_disj_cons, multiplicity_disj_union in H. lia.
Qed.

Lemma unique_addresses t : table_ok t -> restrict_routing_ips (m_settings t) = true -> NoDup (ne_a <$> all_nodes t).
Proof. intros [Hwf _] Hr. apply multiplicity_list. intros x. rewrite <- (wf_ips _ Hwf). by apply (wf_unique _ Hwf). Qed.

(** ** A table to try the properties on *)

(** A merge sort in the place of [std::sort]. *)
Definition not_after (f : node_entry -> node_entry -> bool) (x y : node_entry) : Prop := f y x = false.
#[export] Instance not_after_dec f : RelDecision (not_after f).
Proof. unfold not_after. intros x y. apply _. Defined.

Definition sample_sort (f : node_entry -> node_entry -> bool) (l : list node_entry) : list node_entry := merge_sort (not_after f) l.

Lemma sample_sorts : sorts sample_sort.
Proof.
  intros f g Hfg l. set (R := not_after f). split; [apply merge_sort_Permutation|].
  assert (forall x y, R x y <-> g x <= g y) as HR by (intros x y; unfold R, not_after; rewrite Hfg; apply Z.ltb_ge).
  assert (Transitive R) by (intros x y z; rewrite !HR; lia). assert (Total R) by (intros x y; rewrite !HR; lia).
  assert (StronglySorted R (sample_sort f l)) as Hs by (by apply StronglySorted_merge_sort).
  induction Hs as [|x m _ IH Hx]; constructor; [done|]. eapply Forall_impl; [exact Hx|]. intros y. apply HR.
Qed.

Definition no_crc (l : list Z) : Z := 0.
Definition no_random (i : Z) : Z := 0.

Definition plain_settings : dht_settings := Settings false false false 20.
Definition strict_settings : dht_settings := Settings false true true 20.

Definition seen (id ip : Z) : table_op := NodeSeen id (ip, 6881) 100 1 no_random.

(** Two nodes far from our id 0, one at distance 2^158, two next to it. *)
Definition five_nodes : list table_op :=
  [seen (2 ^ 159) 1000000; seen (2 ^ 158) 2000000; seen 1 3000000; seen (2 ^ 159 + 1) 4000000; seen 2 5000000].

Definition other_ops : list table_op :=
  [FindNode 7 true 0; HeardAbout 3 (6000000, 6881) 2 no_random; NodeFailed 1 (3000000, 6881); AddRouter (7000000, 6881); seen 9 7000000;
   NextRefresh 5; Depth; UpdateId (2 ^ 157); seen 2 5000000; NodeFailed (2 ^ 158) (2000000, 6881); FindNode (2 ^ 159) false 3].

Definition sample_table : routing_table :=
  default (new_routing_table 0 2 plain_settings) (run_table no_crc sample_sort five_nodes (new_routing_table 0 2 plain_settings)).

Lemma sample_table_ok : table_ok sample_table.
Proof.
  destruct (run_table_ok no_crc sample_sort five_nodes (new_routing_table 0 2 plain_settings) sample_sorts) as (t & E & Hok).
  - by apply new_table_ok.
  - by repeat constructor.
  - unfold sample_table. by rewrite E.
Qed.

(** ** The properties *)

(** C27 (invariant): from a new table, with a bucket size of 2 to 16, every
    sequence of operations runs without leaving a vector, erasing an address
    that is not there or looping for ever, and keeps the debug check of the
    source: [m_ips] has the address of every node, as often as it is in the
    table.  Every node is in the bucket of its distance from our id and is not
    ourselves, no id is twice in the table, no address is if the settings say
    so, and no bucket has more live nodes than its limit, the last of more than
    fifty excepted. *)
Theorem routing_table_invariant crc32c_32 sort id bucket_size settings ops :
  sorts sort -> id_range id -> 2 <= bucket_size <= 16 -> Forall op_range ops ->
  exists t, run_table crc32c_32 sort ops (new_routing_table id bucket_size settings) = Some t /\ table_ok t /\ check_invariant t = true /\
    (forall i b n, m_buckets t !! i = Some b -> n ∈ bucket_nodes b ->
      bucket_index (m_id t) (ne_id n) (length (m_buckets t)) = i /\ ne_id n <> m_id t) /\
    NoDup (ne_id <$> all_nodes t) /\ (restrict_routing_ips (m_settings t) = true -> NoDup (ne_a <$> all_nodes t)) /\
    (forall i b, m_buckets t !! i = Some b -> (S i < length (m_buckets t))%nat \/ (length (m_buckets t) <= 50)%nat ->
      zlen (live_nodes b) <= bucket_limit (Z.of_nat i) t).
Proof.
  intros Hsort Hid Hs Hops. destruct (run_table_ok crc32c_32 sort ops (new_routing_table id bucket_size settings) Hsort) as (t & E & Hok); [by apply new_table_ok|done|].
  exists t. split; [done|]. split; [done|]. split; [by apply check_ok|]. split; [|split; [by apply unique_ids|split; [by apply unique_addresses|apply Hok]]].
  intros i b n Hb Hn. by destruct (wf_node _ (proj1 Hok) i b n Hb Hn).
Qed.

Lemma routing_table_invariant_witness :
  exists t, run_table no_crc sample_sort (five_nodes ++ other_ops) (new_routing_table 0 2 strict_settings) = Some t /\ check_invariant t = true.
Proof.
  destruct (routing_table_invariant no_crc sample_sort 0 2 strict_settings (five_nodes ++ other_ops)) as (t & E & _ & Hc & _).
  - exact sample_sorts.
  - by split.
  - lia.
  - by repeat constructor.
  - exact (ex_intro _ t (conj E Hc)).
Defined.

(** C28 (functional): [node_seen] returns, in any table the operations can
    leave.  A router, our own id and an id that does not fit the address are
    not added.  If it returns true the node is in the table with its endpoint;
    the nodes of the table are those it had and this one; and none is lost but
    those with the same endpoint and, if it returns true, one victim. *)
Theorem node_seen_adds crc32c_32 id e rtt now random t :
  table_ok t -> id_range id ->
  exists r t', node_seen crc32c_32 id e rtt now random t = Some (r, t') /\ table_ok t' /\ m_settings t' = m_settings t /\
    (e ∈ m_router_nodes t \/ id = m_id t \/ enforce_node_id (m_settings t) = true /\ verify_id crc32c_32 id e.1 random = false ->
      r = false /\ t' = t) /\
    (r = true -> (id, e) ∈ keys t') /\
    (forall k, k ∈ keys t' -> k ∈ keys t \/ k = (id, e)) /\
    exists victim, (r = false -> victim = None) /\ forall k, k ∈ keys t -> k ∈ keys t' \/ k.2 = e \/ Some k = victim.
Proof.
  intros Hok Hid. destruct (node_seen_spec crc32c_32 id e rtt now random t Hok Hid) as (r & t' & E & Hok' & [= Hs _ _ _] & Hr).
  assert (node_key (new_node_entry id e rtt true now) = (id, e)) as Hkey by (unfold node_key, ep; by destruct e). rewrite Hkey in Hr.
  exists r, t'. split; [done|]. split; [done|]. split; [done|]. split.
  - intros Hno. unfold node_seen, verify_node_address in E. destruct (negb _ || _) eqn:Ev; [|by injection E as <- <-].
    destruct Hno as [Hno|[Hno|[He Hv]]]; [| |by rewrite He, Hv in Ev].
    + unfold add_node, add_node_impl in E. rewrite decide_True in E by (unfold ep; by destruct e). cbn in E. by injection E as <- <-.
    + unfold add_node, add_node_impl in E. destruct (decide _); [cbn in E; by injection E as <- <-|]. cbn [new_node_entry ne_id] in E.
      rewrite Hno, Z.eqb_refl in E. cbn in E. by injection E as <- <-.
  - destruct r; [destruct Hr as (Hin & v & Hg & Hl)|destruct Hr as [Hg Hl]]; (split; [done|]); (split; [done|]); [exists v|exists None]; by split.
Qed.

Lemma node_seen_adds_witness :
  exists r t', node_seen no_crc 3 (8000000, 6881) 50 2 no_random sample_table = Some (r, t') /\ check_invariant t' = true /\ (r = true -> (3, (8000000, 6881)) ∈ keys t').
Proof.
  destruct (node_seen_adds no_crc 3 (8000000, 6881) 50 2 no_random sample_table sample_table_ok) as (r & t' & E & Hok & _ & _ & Hin & _).
  - by split.
  - exact (ex_intro _ r (ex_intro _ t' (conj E (conj (check_ok t' Hok) Hin)))).
Defined.

(** C29 (functional): [find_node] returns as many of the wanted live nodes (all
    of them, or the confirmed ones) as asked for if there are that many, all
    if not, none twice; and no node it leaves out is nearer to the target than
    one it returns from the bucket the target belongs to. *)
Theorem find_node_near sort target include_failed count t :
  sorts sort -> table_ok t -> id_range target -> 0 <= count ->
  exists l t' rest, find_node sort target include_failed count t = (l, t') /\ table_ok t' /\ keys t' = keys t /\
    l ++ rest ≡ₚ wanted_nodes include_failed (m_buckets t) /\
    zlen l = Z.min (if count =? 0 then m_bucket_size t else count) (zlen (wanted_nodes include_failed (m_buckets t))) /\
    forall x y, x ∈ l -> y ∈ rest -> same_bucket t' target x -> Z.lxor (ne_id x) target <= Z.lxor (ne_id y) target.
Proof.
  intros Hsort Hok Ht Hc. destruct (find_node_spec sort target include_failed count t Hsort Hok Ht Hc) as (l & t' & rest & E & Hok' & _ & H). by exists l, t', rest.
Qed.

Lemma find_node_near_witness :
  exists l t', find_node sample_sort (2 ^ 159 + 1) false 1 sample_table = (l, t') /\ zlen l = 1.
Proof.
  destruct (find_node_near sample_sort (2 ^ 159 + 1) false 1 sample_table sample_sorts sample_table_ok) as (l & t' & rest & E & _ & _ & _ & Hl & _).
  - by split.
  - lia.
  - exists l, t'. split; [exact E|]. rewrite Hl. vm_compute. reflexivity.
Defined.

(** C30 (equivalence): the byte loops of [distance_exp] and [compare_ref] are
    the logarithm of the exclusive or of two ids and the comparison of the
    exclusive or with the reference; the exponent is at most 159. *)
Theorem id_metric x y ref :
  id_range x -> id_range y -> id_range ref ->
  distance_exp x y = Z.log2 (Z.lxor x y) /\ distance_exp x y <= 159 /\ compare_ref x y ref = (Z.lxor x ref <? Z.lxor y ref).
Proof.
  intros Hx Hy Hr. split; [by apply distance_exp_spec|]. split; [apply distance_exp_bound|by apply compare_ref_spec].
Qed.

Lemma id_metric_witness : distance_exp (2 ^ 159 + 5) 5 = 159 /\ compare_ref 6 9 4 = true.
Proof.
  destruct (id_metric (2 ^ 159 + 5) 5 0) as [-> _]; [by split..|]. destruct (id_metric 6 9 4) as (_ & _ & ->); [by split..|]. by split.
Defined.

(** The id that is generated for an address passes the check
    of that address, whatever the CRC and the random numbers. *)
Theorem generated_id_verifies crc32c_32 ip r random random' :
  verify_id crc32c_32 (generate_id_impl crc32c_32 ip r random) ip random' = true.
Proof. apply verify_generated. Qed.

(** C31 (error): the search for nodes with the same prefix in a full bucket
    never finds any, because no prefix is ever marked as seen.  [depth] of an
    empty table leaves a depth of -1, which no later call changes: in the table
    of five nodes it is -1 where it should be 2.  And [find_node] takes the
    buckets in their order, not the nearest nodes: it returns a node at
    distance 2^159 + 2^158 of the target and leaves one at 2^159 + 1. *)
Theorem routing_table_faults :
  (forall b shift offset, 0 <= shift <= 7 ->
    duplicates (indexed b) (Z.land (Z.shiftl 0xff shift) 0xff) shift offset (replicate (Z.to_nat (Z.shiftl 1 (8 - shift))) slot_end) [] = Some []) /\
  (forall t, m_buckets t = [] -> 0 <= m_depth t -> (depth t).1 = -1 /\ m_depth (depth t).2 = -1) /\ (forall t, m_depth t < 0 -> depth t = (m_depth t, t)) /\
  fst ∘ depth <$> run_table no_crc sample_sort five_nodes (new_routing_table 0 2 plain_settings) = Some 2 /\
  fst ∘ depth <$> run_table no_crc sample_sort (Depth :: five_nodes) (new_routing_table 0 2 plain_settings) = Some (-1) /\
  ne_id <$> (find_node sample_sort (2 ^ 159) false 3 sample_table).1 = [2 ^ 159; 2 ^ 159 + 1; 2 ^ 158] /\
  1 ∈ ne_id <$> all_nodes sample_table.
Proof.
  split; [|split; [|split; [|split; [by vm_compute|split; [by vm_compute|split; [by vm_compute|]]]]]].
  - intros b shift offset Hs. apply duplicates_none; [by apply Forall_replicate|]. intros k n _.
    rewrite length_replicate, Z2Nat.id by (apply Z.shiftl_nonneg; lia). by apply prefix_range.
  - intros t E Hd. unfold depth. rewrite E. change (Z.of_nat (length [])) with 0. by rewrite (proj2 (Z.leb_le 0 (m_depth t)) Hd).
  - intros t Hd. unfold depth. destruct (Z.leb_spec (zlen (m_buckets t)) (m_depth t)); [lia|]. rewrite (proj2 (Z.ltb_lt (m_depth t) 0) Hd). by destruct t.
  - apply (bool_decide_eq_true_1 (1 ∈ _)). by vm_compute.
Qed.
