(* ===== verification/PeerState.v ===== *)
(** * The state of the peer list (peer_list.hpp, torrent_peer.hpp, torrent_peer.cpp)

    The peers a torrent knows are [torrent_peer] objects an allocator hands
    out; the list, its cache of candidates and the connections hold pointers
    to them.  A pointer is a number, null is [None], and the heap maps the
    pointers that are allocated to the objects: following any other pointer is
    undefined, [None] in the monad.  Bit fields and the unsigned members keep
    the low bits of what is assigned to them; sizes and [int] members are
    integers, and a product that leaves the range of [int] is undefined.
    Addresses have no scope id, and peers are not I2P destinations. *)

From Stdlib Require Import ZArith Lia.
From stdpp Require Import base numbers gmap list.
From S2P Require Import Prelude IpFilter.

(** ** Addresses *)

#[export] Instance address_eq_dec : EqDecision address.
Proof. intros x y. unfold Decision. repeat decide equality. Defined.

(** The default address, [address()] *)
Definition any_address : address := V4 (Bytes [0; 0; 0; 0]).
Definition any_v6 : address := V6 (Bytes (replicate 16 0)).

(** [operator<] of boost::asio::ip::address: IPv4 first. *)
Definition address_lt (x y : address) : bool :=
  match x, y with
  | V4 a, V4 b => addr_lt a b
  | V6 a, V6 b => addr_lt a b
  | V4 _, V6 _ => true
  | V6 _, V4 _ => false
  end.

(** [tcp::endpoint] *)
Definition endpoint : Type := address * Z.

Definition endpoint_lt (x y : endpoint) : bool :=
  if address_lt x.1 y.1 then true else if address_lt y.1 x.1 then false else x.2 <? y.2.

Definition byte_at (n : nat) (l : list Z) : Z := nth n l 0.

Definition is_link_local (l : list Z) : bool := (byte_at 0 l =? 0xfe) && (Z.land (byte_at 1 l) 0xc0 =? 0x80).
Definition is_loopback_v6 (l : list Z) : bool := bool_decide (l = replicate 15 0 ++ [1]).
Definition is_multicast_link_local (l : list Z) : bool := (byte_at 0 l =? 0xff) && (Z.land (byte_at 1 l) 0x0f =? 0x02).

Definition to_ulong (l : list Z) : Z := foldl (fun acc b => acc * 256 + b) 0 l.

(** [is_local] of broadcast_socket.cpp *)
Definition is_local (a : address) : bool :=
  match a with
  | V6 b => is_loopback_v6 (byte_list b) || is_link_local (byte_list b) || is_multicast_link_local (byte_list b)
  | V4 b =>
      let ip := to_ulong (byte_list b) in
      (Z.land ip 0xff000000 =? 0x0a000000) || (Z.land ip 0xfff00000 =? 0xac100000) || (Z.land ip 0xffff0000 =? 0xc0a80000) ||
      (Z.land ip 0xffff0000 =? 0xa9fe0000) || (Z.land ip 0xff000000 =? 0x7f000000)
  end.

(** The votes of [external_ip]: the address each family has settled for. *)
Record external_ip := ExternalIp { vote_v4 : address; vote_v6 : address }.

(** [external_ip::external_address(ip)] *)
Definition external_address (e : external_ip) (a : address) : address :=
  match a with
  | V6 _ => if decide (vote_v6 e = any_address) then any_v6 else vote_v6 e
  | V4 _ => vote_v4 e
  end.

(** ** Peers *)

Record torrent_peer := TPeer {
  tp_addr : address;  (* the member [addr] of [ipv4_peer] and [ipv6_peer] *)
  prev_amount_upload : Z;  (* boost::uint32_t *)
  prev_amount_download : Z;  (* boost::uint32_t *)
  connection : option nat;  (* peer_connection_interface* *)
  peer_rank : Z;  (* boost::uint32_t *)
  last_optimistically_unchoked : Z;  (* boost::uint16_t *)
  last_connected : Z;  (* boost::uint16_t *)
  port : Z;  (* boost::uint16_t *)
  hashfails : Z;  (* boost::uint8_t *)
  failcount : Z;  (* : 5 *)
  connectable : bool;
  optimistically_unchoked : bool;
  seed : bool;
  fast_reconnects : Z;  (* : 4 *)
  trust_points : Z;  (* signed : 4 *)
  source : Z;  (* : 6 *)
  pe_support : bool;
  on_parole : bool;
  banned : bool;
  supports_utp : bool;
  confirmed_supports_utp : bool;
  supports_holepunch : bool;
  web_seed : bool;
}.

Definition with_prev_amount_upload (x : Z) (p : torrent_peer) : torrent_peer :=
  TPeer (tp_addr p) (u32 x) (prev_amount_download p) (connection p) (peer_rank p)
    (last_optimistically_unchoked p) (last_connected p) (port p) (hashfails p) (failcount p)
    (connectable p) (optimistically_unchoked p) (seed p) (fast_reconnects p) (trust_points p) (source p)
    (pe_support p) (on_parole p) (banned p) (supports_utp p) (confirmed_supports_utp p)
    (supports_holepunch p) (web_seed p).
Definition with_prev_amount_download (x : Z) (p : torrent_peer) : torrent_peer :=
  TPeer (tp_addr p) (prev_amount_upload p) (u32 x) (connection p) (peer_rank p)
    (last_optimistically_unchoked p) (last_connected p) (port p) (hashfails p) (failcount p)
    (connectable p) (optimistically_unchoked p) (seed p) (fast_reconnects p) (trust_points p) (source p)
    (pe_support p) (on_parole p) (banned p) (supports_utp p) (confirmed_supports_utp p)
    (supports_holepunch p) (web_seed p).
Definition with_connection (x : option nat) (p : torrent_peer) : torrent_peer :=
  TPeer (tp_addr p) (prev_amount_upload p) (prev_amount_download p) x (peer_rank p)
    (last_optimistically_unchoked p) (last_connected p) (port p) (hashfails p) (failcount p)
    (connectable p) (optimistically_unchoked p) (seed p) (fast_reconnects p) (trust_points p) (source p)
    (pe_support p) (on_parole p) (banned p) (supports_utp p) (confirmed_supports_utp p)
    (supports_holepunch p) (web_seed p).
Definition with_peer_rank (x : Z) (p : torrent_peer) : torrent_peer :=
  TPeer (tp_addr p) (prev_amount_upload p) (prev_amount_download p) (connection p) x
    (last_optimistically_unchoked p) (last_connected p) (port p) (hashfails p) (failcount p)
    (connectable p) (optimistically_unchoked p) (seed p) (fast_reconnects p) (trust_points p) (source p)
    (pe_support p) (on_parole p) (banned p) (supports_utp p) (confirmed_supports_utp p)
    (supports_holepunch p) (web_seed p).
Definition with_last_connected (x : Z) (p : torrent_peer) : torrent_peer :=
  TPeer (tp_addr p) (prev_amount_upload p) (prev_amount_download p) (connection p) (peer_rank p)
    (last_optimistically_unchoked p) (x mod 2 ^ 16) (port p) (hashfails p) (failcount p) (connectable p)
    (optimistically_unchoked p) (seed p) (fast_reconnects p) (trust_points p) (source p) (pe_support p)
    (on_parole p) (banned p) (supports_utp p) (confirmed_supports_utp p) (supports_holepunch p)
    (web_seed p).
Definition with_port (x : Z) (p : torrent_peer) : torrent_peer :=
  TPeer (tp_addr p) (prev_amount_upload p) (prev_amount_download p) (connection p) (peer_rank p)
    (last_optimistically_unchoked p) (last_connected p) (x mod 2 ^ 16) (hashfails p) (failcount p)
    (connectable p) (optimistically_unchoked p) (seed p) (fast_reconnects p) (trust_points p) (source p)
    (pe_support p) (on_parole p) (banned p) (supports_utp p) (confirmed_supports_utp p)
    (supports_holepunch p) (web_seed p).
Definition with_failcount (x : Z) (p : torrent_peer) : torrent_peer :=
  TPeer (tp_addr p) (prev_amount_upload p) (prev_amount_download p) (connection p) (peer_rank p)
    (last_optimistically_unchoked p) (last_connected p) (port p) (hashfails p) (x mod 2 ^ 5)
    (connectable p) (optimistically_unchoked p) (seed p) (fast_reconnects p) (trust_points p) (source p)
    (pe_support p) (on_parole p) (banned p) (supports_utp p) (confirmed_supports_utp p)
    (supports_holepunch p) (web_seed p).
Definition with_connectable (x : bool) (p : torrent_peer) : torrent_peer :=
  TPeer (tp_addr p) (prev_amount_upload p) (prev_amount_download p) (connection p) (peer_rank p)
    (last_optimistically_unchoked p) (last_connected p) (port p) (hashfails p) (failcount p) x
    (optimistically_unchoked p) (seed p) (fast_reconnects p) (trust_points p) (source p) (pe_support p)
    (on_parole p) (banned p) (supports_utp p) (confirmed_supports_utp p) (supports_holepunch p)
    (web_seed p).
Definition with_optimistically_unchoked (x : bool) (p : torrent_peer) : torrent_peer :=
  TPeer (tp_addr p) (prev_amount_upload p) (prev_amount_download p) (connection p) (peer_rank p)
    (last_optimistically_unchoked p) (last_connected p) (port p) (hashfails p) (failcount p)
    (connectable p) x (seed p) (fast_reconnects p) (trust_points p) (source p) (pe_support p)
    (on_parole p) (banned p) (supports_utp p) (confirmed_supports_utp p) (supports_holepunch p)
    (web_seed p).
Definition with_seed (x : bool) (p : torrent_peer) : torrent_peer :=
  TPeer (tp_addr p) (prev_amount_upload p) (prev_amount_download p) (connection p) (peer_rank p)
    (last_optimistically_unchoked p) (last_connected p) (port p) (hashfails p) (failcount p)
    (connectable p) (optimistically_unchoked p) x (fast_reconnects p) (trust_points p) (source p)
    (pe_support p) (on_parole p) (banned p) (supports_utp p) (confirmed_supports_utp p)
    (supports_holepunch p) (web_seed p).
Definition with_source (x : Z) (p : torrent_peer) : torrent_peer :=
  TPeer (tp_addr p) (prev_amount_upload p) (prev_amount_download p) (connection p) (peer_rank p)
    (last_optimistically_unchoked p) (last_connected p) (port p) (hashfails p) (failcount p)
    (connectable p) (optimistically_unchoked p) (seed p) (fast_reconnects p) (trust_points p)
    (x mod 2 ^ 6) (pe_support p) (on_parole p) (banned p) (supports_utp p) (confirmed_supports_utp p)
    (supports_holepunch p) (web_seed p).
Definition with_pe_support (x : bool) (p : torrent_peer) : torrent_peer :=
  TPeer (tp_addr p) (prev_amount_upload p) (prev_amount_download p) (connection p) (peer_rank p)
    (last_optimistically_unchoked p) (last_connected p) (port p) (hashfails p) (failcount p)
    (connectable p) (optimistically_unchoked p) (seed p) (fast_reconnects p) (trust_points p) (source p)
    x (on_parole p) (banned p) (supports_utp p) (confirmed_supports_utp p) (supports_holepunch p)
    (web_seed p).
Definition with_banned (x : bool) (p : torrent_peer) : torrent_peer :=
  TPeer (tp_addr p) (prev_amount_upload p) (prev_amount_download p) (connection p) (peer_rank p)
    (last_optimistically_unchoked p) (last_connected p) (port p) (hashfails p) (failcount p)
    (connectable p) (optimistically_unchoked p) (seed p) (fast_reconnects p) (trust_points p) (source p)
    (pe_support p) (on_parole p) x (supports_utp p) (confirmed_supports_utp p) (supports_holepunch p)
    (web_seed p).
Definition with_supports_utp (x : bool) (p : torrent_peer) : torrent_peer :=
  TPeer (tp_addr p) (prev_amount_upload p) (prev_amount_download p) (connection p) (peer_rank p)
    (last_optimistically_unchoked p) (last_connected p) (port p) (hashfails p) (failcount p)
    (connectable p) (optimistically_unchoked p) (seed p) (fast_reconnects p) (trust_points p) (source p)
    (pe_support p) (on_parole p) (banned p) x (confirmed_supports_utp p) (supports_holepunch p)
    (web_seed p).
Definition with_supports_holepunch (x : bool) (p : torrent_peer) : torrent_peer :=
  TPeer (tp_addr p) (prev_amount_upload p) (prev_amount_download p) (connection p) (peer_rank p)
    (last_optimistically_unchoked p) (last_connected p) (port p) (hashfails p) (failcount p)
    (connectable p) (optimistically_unchoked p) (seed p) (fast_reconnects p) (trust_points p) (source p)
    (pe_support p) (on_parole p) (banned p) (supports_utp p) (confirmed_supports_utp p) x (web_seed p).

Definition peer_endpoint (p : torrent_peer) : endpoint := (tp_addr p, port p).

(** The constructors of [ipv4_peer] and [ipv6_peer]. *)
Definition new_torrent_peer (ep : endpoint) (conn : bool) (src : Z) : torrent_peer :=
  TPeer ep.1 0 0 None 0 0 0 (ep.2 mod 2 ^ 16) 0 0 conn false false 0 0 (src mod 2 ^ 6) false false false true false false false.

(** [peer_info::peer_source_flags] *)
Definition src_tracker : Z := 0x1.
Definition src_dht : Z := 0x2.
Definition src_pex : Z := 0x4.
Definition src_lsd : Z := 0x8.
Definition src_resume_data : Z := 0x10.
Definition src_incoming : Z := 0x20.

(** [source_rank] of request_blocks.cpp *)
Definition source_rank (source_bitmask : Z) : Z :=
  let ret := 0 in
  let ret := if Z.testbit source_bitmask 0 then Z.lor ret (Z.shiftl 1 5) else ret in
  let ret := if Z.testbit source_bitmask 3 then Z.lor ret (Z.shiftl 1 4) else ret in
  let ret := if Z.testbit source_bitmask 1 then Z.lor ret (Z.shiftl 1 3) else ret in
  if Z.testbit source_bitmask 2 then Z.lor ret (Z.shiftl 1 2) else ret.

(** ** The priority of a peer *)

Fixpoint apply_mask (b mask : list Z) : list Z :=
  match b, mask with x :: b, m :: mask => Z.land x m :: apply_mask b mask | b, _ => b end.

Definition v4mask (i : nat) : list Z :=
  match i with O => [0xff; 0xff; 0x55; 0x55] | 1%nat => [0xff; 0xff; 0xff; 0x55] | _ => [0xff; 0xff; 0xff; 0xff] end.
Definition v6mask (i : nat) : list Z :=
  match i with
  | O => [0xff; 0xff; 0xff; 0xff; 0x55; 0x55; 0x55; 0x55]
  | 1%nat => [0xff; 0xff; 0xff; 0xff; 0xff; 0xff; 0x55; 0x55]
  | _ => [0xff; 0xff; 0xff; 0xff; 0xff; 0xff; 0xff; 0xff]
  end.

(** Which mask applies: the first [n] bytes are different, the first [m]. *)
Definition mask_index (n m : nat) (b1 b2 : list Z) : nat :=
  if decide (take n b1 <> take n b2) then 0 else if decide (take m b1 <> take m b2) then 1 else 2.

Section priority.
(** [crc32c_32] and [crc32c] of the bytes in memory. *)
Context (crc32c : list Z -> Z).

Definition hash_masked (n m : nat) (mask : nat -> list Z) (b1 b2 : list Z) : Z :=
  let i := mask_index n m b1 b2 in crc32c (apply_mask b1 (mask i) ++ apply_mask b2 (mask i)).

(** [None] is the exception of a bad cast, when the families differ. *)
Definition peer_priority (e1 e2 : endpoint) : option Z :=
  if decide (e1.1 = e2.1) then
    let '(e1, e2) := if e2.2 <? e1.2 then (e2, e1) else (e1, e2) in
    Some (crc32c [e1.2 / 256; e1.2 mod 256; e2.2 / 256; e2.2 mod 256])
  else
    let '(e1, e2) := if endpoint_lt e2 e1 then (e2, e1) else (e1, e2) in
    match e1.1, e2.1 with
    | V6 b1, V6 b2 => Some (hash_masked 4 6 v6mask (byte_list b1) (byte_list b2))
    | V4 b1, V4 b2 => Some (hash_masked 2 3 v4mask (byte_list b1) (byte_list b2))
    | _, _ => None
    end.
End priority.

(** ** Connections *)

Record peer_connection := Conn {
  remote : endpoint;
  local_endpoint : endpoint;
  is_outgoing : bool;
  fast_reconnect : bool;
  failed : bool;
  disconnecting : bool;
  peer_info : option nat;  (* m_peer_info *)
  attached : bool;  (* in [m_connections] of the torrent *)
  payload_download : Z;  (* of its statistics *)
  payload_upload : Z;  (* of its statistics *)
}.

Definition conn_with_failed (x : bool) (c : peer_connection) : peer_connection :=
  Conn (remote c) (local_endpoint c) (is_outgoing c) (fast_reconnect c) x (disconnecting c) (peer_info c)
    (attached c) (payload_download c) (payload_upload c).
Definition conn_with_disconnecting (x : bool) (c : peer_connection) : peer_connection :=
  Conn (remote c) (local_endpoint c) (is_outgoing c) (fast_reconnect c) (failed c) x (peer_info c)
    (attached c) (payload_download c) (payload_upload c).
Definition conn_with_peer_info (x : option nat) (c : peer_connection) : peer_connection :=
  Conn (remote c) (local_endpoint c) (is_outgoing c) (fast_reconnect c) (failed c) (disconnecting c) x
    (attached c) (payload_download c) (payload_upload c).
Definition conn_with_attached (x : bool) (c : peer_connection) : peer_connection :=
  Conn (remote c) (local_endpoint c) (is_outgoing c) (fast_reconnect c) (failed c) (disconnecting c)
    (peer_info c) x (payload_download c) (payload_upload c).
Definition conn_with_payload_download (x : Z) (c : peer_connection) : peer_connection :=
  Conn (remote c) (local_endpoint c) (is_outgoing c) (fast_reconnect c) (failed c) (disconnecting c)
    (peer_info c) (attached c) x (payload_upload c).
Definition conn_with_payload_upload (x : Z) (c : peer_connection) : peer_connection :=
  Conn (remote c) (local_endpoint c) (is_outgoing c) (fast_reconnect c) (failed c) (disconnecting c)
    (peer_info c) (attached c) (payload_download c) x.

(** ** The list *)

Record peer_list := PeerList {
  m_peers : list nat;
  m_locked_peer : option nat;
  m_num_seeds : Z;  (* : 31 *)
  m_finished : bool;
  m_round_robin : Z;
  m_candidate_cache : list nat;
  m_num_connect_candidates : Z;
  m_max_failcount : Z;
}.

Definition set_m_peers (x : list nat) (l : peer_list) : peer_list :=
  PeerList x (m_locked_peer l) (m_num_seeds l) (m_finished l) (m_round_robin l) (m_candidate_cache l)
    (m_num_connect_candidates l) (m_max_failcount l).
Definition set_m_locked_peer (x : option nat) (l : peer_list) : peer_list :=
  PeerList (m_peers l) x (m_num_seeds l) (m_finished l) (m_round_robin l) (m_candidate_cache l)
    (m_num_connect_candidates l) (m_max_failcount l).
Definition set_m_num_seeds (x : Z) (l : peer_list) : peer_list :=
  PeerList (m_peers l) (m_locked_peer l) (x mod 2 ^ 31) (m_finished l) (m_round_robin l) (m_candidate_cache l)
    (m_num_connect_candidates l) (m_max_failcount l).
Definition set_m_finished (x : bool) (l : peer_list) : peer_list :=
  PeerList (m_peers l) (m_locked_peer l) (m_num_seeds l) x (m_round_robin l) (m_candidate_cache l)
    (m_num_connect_candidates l) (m_max_failcount l).
Definition set_m_round_robin (x : Z) (l : peer_list) : peer_list :=
  PeerList (m_peers l) (m_locked_peer l) (m_num_seeds l) (m_finished l) x (m_candidate_cache l)
    (m_num_connect_candidates l) (m_max_failcount l).
Definition set_m_candidate_cache (x : list nat) (l : peer_list) : peer_list :=
  PeerList (m_peers l) (m_locked_peer l) (m_num_seeds l) (m_finished l) (m_round_robin l) x
    (m_num_connect_candidates l) (m_max_failcount l).
Definition set_m_num_connect_candidates (x : Z) (l : peer_list) : peer_list :=
  PeerList (m_peers l) (m_locked_peer l) (m_num_seeds l) (m_finished l) (m_round_robin l) (m_candidate_cache l)
    x (m_max_failcount l).
Definition set_m_max_failcount (x : Z) (l : peer_list) : peer_list :=
  PeerList (m_peers l) (m_locked_peer l) (m_num_seeds l) (m_finished l) (m_round_robin l) (m_candidate_cache l)
    (m_num_connect_candidates l) x.

(** [peer_list()] *)
Definition new_peer_list : peer_list := PeerList [] None 0 false 0 [] 0 3.

(** [torrent_state] but for [is_paused], which only asserts read. *)
Record torrent_state := TState {
  is_finished : bool;
  allow_multiple_connections_per_ip : bool;
  first_time_seen : bool;
  max_peerlist_size : Z;
  min_reconnect_time : Z;
  loop_counter : Z;
  ip : external_ip;
  listen_port : Z;  (* port *)
  max_failcount : Z;
  erased : list nat;
}.

Definition set_first_time_seen (x : bool) (s : torrent_state) : torrent_state :=
  TState (is_finished s) (allow_multiple_connections_per_ip s) x (max_peerlist_size s) (min_reconnect_time s)
    (loop_counter s) (ip s) (listen_port s) (max_failcount s) (erased s).
Definition set_loop_counter (x : Z) (s : torrent_state) : torrent_state :=
  TState (is_finished s) (allow_multiple_connections_per_ip s) (first_time_seen s) (max_peerlist_size s)
    (min_reconnect_time s) x (ip s) (listen_port s) (max_failcount s) (erased s).
Definition set_erased (x : list nat) (s : torrent_state) : torrent_state :=
  TState (is_finished s) (allow_multiple_connections_per_ip s) (first_time_seen s) (max_peerlist_size s)
    (min_reconnect_time s) (loop_counter s) (ip s) (listen_port s) (max_failcount s) x.

(** What [get_peer_list_state] returns: the settings, and nothing erased. *)
Definition fresh_state (s : torrent_state) : torrent_state := set_first_time_seen false (set_loop_counter 0 (set_erased [] s)).

(** ** The monad *)

Record world := World {
  the_list : peer_list;
  heap : gmap nat torrent_peer;  (* the peers that are allocated *)
  conns : gmap nat peer_connection;
  state : torrent_state;
  session_time : Z;
  cleared : list nat;  (* passed to [clear_peer] of the picker *)
}.

Add Printing Constructor world.

Definition in_the_list (x : peer_list) (w : world) : world :=
  World x (heap w) (conns w) (state w) (session_time w) (cleared w).
Definition in_heap (x : gmap nat torrent_peer) (w : world) : world :=
  World (the_list w) x (conns w) (state w) (session_time w) (cleared w).
Definition in_conns (x : gmap nat peer_connection) (w : world) : world :=
  World (the_list w) (heap w) x (state w) (session_time w) (cleared w).
Definition in_state (x : torrent_state) (w : world) : world :=
  World (the_list w) (heap w) (conns w) x (session_time w) (cleared w).
Definition in_cleared (x : list nat) (w : world) : world :=
  World (the_list w) (heap w) (conns w) (state w) (session_time w) x.

Definition M (A : Type) : Type := world -> option (A * world).

#[export] Instance M_ret : MRet M := fun A x w => Some (x, w).
#[export] Instance M_bind : MBind M := fun A B f m w =>
  match m w with Some (x, w') => f x w' | None => None end.

Definition gets {A} (f : world -> A) : M A := fun w => Some (f w, w).
Definition modify (f : world -> world) : M unit := fun w => Some (tt, f w).
Definition undefined {A} : M A := fun _ => None.
Definition lift {A} (o : option A) : M A := fun w => match o with Some x => Some (x, w) | None => None end.
Definition when (b : bool) (m : M unit) : M unit := if b then m else mret tt.

(** The value of an [int] expression. *)
Definition int (x : Z) : M Z := if decide (- 2 ^ 31 <= x < 2 ^ 31) then mret x else undefined.

Definition list_member {A} (f : peer_list -> A) : M A := gets (fun w => f (the_list w)).
Definition set_list (f : peer_list -> peer_list) : M unit := modify (fun w => in_the_list (f (the_list w)) w).
Definition state_member {A} (f : torrent_state -> A) : M A := gets (fun w => f (state w)).
Definition set_state (f : torrent_state -> torrent_state) : M unit := modify (fun w => in_state (f (state w)) w).

(** [*p] *)
Definition deref (l : nat) : M torrent_peer := fun w => match heap w !! l with Some p => Some (p, w) | None => None end.
Definition assign (l : nat) (f : torrent_peer -> torrent_peer) : M unit := fun w =>
  match heap w !! l with Some p => Some (tt, in_heap (<[l := f p]> (heap w)) w) | None => None end.

(** [free_peer_entry(p)] *)
Definition free_peer_entry (l : nat) : M unit := fun w =>
  match heap w !! l with Some _ => Some (tt, in_heap (delete l (heap w)) w) | None => None end.

Definition conn (c : nat) : M peer_connection := fun w => match conns w !! c with Some cn => Some (cn, w) | None => None end.
Definition set_conn (c : nat) (f : peer_connection -> peer_connection) : M unit := fun w =>
  match conns w !! c with Some cn => Some (tt, in_conns (<[c := f cn]> (conns w)) w) | None => None end.
