(* ===== verification/PeerList.v ===== *)
(** * The operations of the peer list (peer_list.cpp)

    Every operation of [peer_list], and of the torrent and the peer connection
    what runs around them: [disconnect] comes back to the list through
    [remove_peer] and [connection_closed].  An iterator of [m_peers] is an
    index, [end()] the number of peers.  [random_value] is what [random()]
    returns when peers are erased, [alloc] the address the allocator hands
    out, none when it has no memory. *)

From Stdlib Require Import ZArith Lia.
From stdpp Require Import base numbers gmap sorting list.
From S2P Require Import Prelude IpFilter PeerState.

(** ** Sequences *)

(** [erase(begin() + i)] *)
Definition erase_index {A} (i : Z) (l : list A) : list A := take (Z.to_nat i) l ++ drop (Z.to_nat (i + 1)) l.
(** [insert(begin() + i, x)] *)
Definition insert_index {A} (i : Z) (x : A) (l : list A) : list A := take (Z.to_nat i) l ++ x :: drop (Z.to_nat i) l.

(** [erase(find(begin(), end(), x))], when it is found. *)
Fixpoint erase_first (x : nat) (l : list nat) : list nat :=
  match l with [] => [] | y :: l => if decide (y = x) then l else y :: erase_first x l end.

(** The search of [lower_bound] and [upper_bound] halves the range. *)
Fixpoint partition_loop (fuel : nat) (before : nat -> M bool) (l : list nat) (first len : Z) : M Z :=
  match fuel with
  | O => undefined
  | S fuel =>
      if len <=? 0 then mret first
      else
        let half := Z.shiftr len 1 in
        x ← lift (zget l (first + half));
        b ← before x;
        if b : bool then partition_loop fuel before l (first + half + 1) (len - half - 1)
        else partition_loop fuel before l first half
  end.

Definition partition_point (before : nat -> M bool) (l : list nat) : M Z := partition_loop (S (length l)) before l 0 (zlen l).

Definition peers_size : M Z := list_member (fun l => zlen (m_peers l)).
Definition peer_at (i : Z) : M nat := fun w => match zget (m_peers (the_list w)) i with Some l => Some (l, w) | None => None end.

(** [lower_bound(begin(), end(), a, peer_address_compare())] *)
Definition lower_address (a : address) : M Z :=
  peers ← list_member m_peers;
  partition_point (fun l => p ← deref l; mret (address_lt (tp_addr p) a)) peers.
Definition upper_address (a : address) : M Z :=
  peers ← list_member m_peers;
  partition_point (fun l => p ← deref l; mret (negb (address_lt a (tp_addr p)))) peers.

Definition find_peers (a : address) : M (Z * Z) :=
  if decide (a = any_address) then n ← peers_size; mret (n, n)
  else first ← lower_address a; last ← upper_address a; mret (first, last).

(** [find_if(begin() + i, begin() + i + n, match_peer_endpoint(ep))] *)
Fixpoint find_endpoint (ep : endpoint) (i : Z) (n : nat) : M (option Z) :=
  match n with
  | O => mret None
  | S n =>
      l ← peer_at i; p ← deref l;
      if decide (peer_endpoint p = ep) then mret (Some i) else find_endpoint ep (i + 1) n
  end.

Definition find_remote (ep : endpoint) : M (option Z * Z) :=
  '(first, last) ← find_peers ep.1;
  r ← find_endpoint ep first (Z.to_nat (last - first));
  mret (r, last).

(** ** Candidates *)

Definition connect_candidate (finished : bool) (max_fail : Z) (p : torrent_peer) : bool :=
  negb (bool_decide (connection p <> None) || banned p || web_seed p || negb (connectable p) || (seed p && finished) ||
        (max_fail <=? failcount p)).

Definition is_connect_candidate (l : nat) : M bool :=
  p ← deref l; finished ← list_member m_finished; max_fail ← list_member m_max_failcount;
  mret (connect_candidate finished max_fail p).

Definition update_connect_candidates (delta : Z) : M unit :=
  if delta =? 0 then mret tt
  else
    set_list (fun l => set_m_num_connect_candidates (m_num_connect_candidates l + delta) l);;
    n ← list_member m_num_connect_candidates;
    when ((delta <? 0) && (n <? 0)) (set_list (set_m_num_connect_candidates 0)).

(** What follows a change of a peer that may have been a candidate. *)
Definition recount (was_conn_cand : bool) (l : nat) : M unit :=
  c ← is_connect_candidate l;
  when (negb (eqb was_conn_cand c)) (update_connect_candidates (if was_conn_cand then -1 else 1)).
Definition recount_lost (was_conn_cand : bool) (l : nat) : M unit :=
  c ← is_connect_candidate l;
  when (was_conn_cand && negb c) (update_connect_candidates (-1)).

Fixpoint count_candidates (peers : list nat) : M Z :=
  match peers with
  | [] => mret 0
  | l :: peers => c ← is_connect_candidate l; n ← count_candidates peers; mret ((if c : bool then 1 else 0) + n)
  end.

Definition recalculate_connect_candidates : M unit :=
  finished ← state_member is_finished; max_fail ← state_member max_failcount;
  set_list (set_m_num_connect_candidates 0);;
  set_list (set_m_finished finished);;
  set_list (set_m_max_failcount max_fail);;
  peers ← list_member m_peers;
  n ← count_candidates peers;
  set_list (set_m_num_connect_candidates n).

(** [if (m_finished != state->is_finished) recalculate_connect_candidates(state)] *)
Definition refresh_finished : M unit :=
  a ← list_member m_finished; b ← state_member is_finished;
  when (negb (eqb a b)) recalculate_connect_candidates.

Definition set_max_failcount : M unit :=
  a ← state_member max_failcount; b ← list_member m_max_failcount;
  when (negb (a =? b)) recalculate_connect_candidates.

(** ** Erasing peers *)

(** [erase_peer(iterator, state)] *)
Definition erase_peer_at (i : Z) : M unit :=
  l ← peer_at i;
  set_state (fun s => set_erased (erased s ++ [l]) s);;
  p ← deref l;
  when (seed p) (set_list (fun x => set_m_num_seeds (m_num_seeds x - 1) x));;
  c ← is_connect_candidate l;
  when c (update_connect_candidates (-1));;
  rr ← list_member m_round_robin;
  when (i <? rr) (set_list (set_m_round_robin (rr - 1)));;
  rr ← list_member m_round_robin; n ← peers_size;
  when (n <=? rr) (set_list (set_m_round_robin 0));;
  set_list (fun x => set_m_candidate_cache (erase_first l (m_candidate_cache x)) x);;
  free_peer_entry l;;
  set_list (fun x => set_m_peers (erase_index i (m_peers x)) x).

(** [erase_peer(torrent_peer*, state)] *)
Definition erase_peer (l : nat) : M unit :=
  p ← deref l;
  '(r, _) ← find_remote (peer_endpoint p);
  match r with None => mret tt | Some i => erase_peer_at i end.

Definition should_erase_immediately (l : nat) : M bool :=
  locked ← list_member m_locked_peer; p ← deref l;
  mret (negb (bool_decide (locked = Some l)) && (source p =? src_resume_data)).

Definition is_erase_candidate (l : nat) : M bool :=
  locked ← list_member m_locked_peer; p ← deref l; c ← is_connect_candidate l;
  mret (negb (bool_decide (locked = Some l)) && bool_decide (connection p = None) && negb c &&
        ((0 <? failcount p) || (source p =? src_resume_data))).

Definition is_force_erase_candidate (l : nat) : M bool :=
  locked ← list_member m_locked_peer; p ← deref l;
  mret (negb (bool_decide (locked = Some l)) && bool_decide (connection p = None)).

(** [compare_peer_erase]: whether [lhs] is better to erase. *)
Definition better_erase (lhs rhs : torrent_peer) : bool :=
  if negb (failcount lhs =? failcount rhs) then failcount rhs <? failcount lhs
  else
    let lhs_resume_data_source := source lhs =? src_resume_data in
    let rhs_resume_data_source := source rhs =? src_resume_data in
    if negb (eqb lhs_resume_data_source rhs_resume_data_source) then lhs_resume_data_source && negb rhs_resume_data_source
    else if negb (eqb (connectable lhs) (connectable rhs)) then negb (connectable lhs) && connectable rhs
    else trust_points lhs <? trust_points rhs.

Definition compare_peer_erase (lhs rhs : nat) : M bool :=
  p ← deref lhs; q ← deref rhs; mret (better_erase p q).

(** Whether the peer replaces the one at [best] as the one to erase; -1 is
    none. *)
Definition replaces (best : Z) (l : nat) : M bool :=
  if best =? -1 then mret true
  else b ← peer_at best; c ← compare_peer_erase b l; mret (negb c).

(** An iteration of the loop of [erase_peers]. *)
Definition erase_iteration (round_robin erase_candidate force_erase_candidate : Z) : M (Z * Z * Z) :=
  l ← peer_at round_robin;
  let current := round_robin in
  e ← is_erase_candidate l;
  e ← (if e : bool then replaces erase_candidate l else mret false);
  imm ← (if e : bool then should_erase_immediately l else mret false);
  if imm : bool then
    erase_peer_at current;;
    mret (round_robin, if current <? erase_candidate then erase_candidate - 1 else erase_candidate,
          if current <? force_erase_candidate then force_erase_candidate - 1 else force_erase_candidate)
  else
    f ← is_force_erase_candidate l;
    f ← (if f : bool then replaces force_erase_candidate l else mret false);
    mret (round_robin + 1, if e : bool then current else erase_candidate, if f : bool then current else force_erase_candidate).

Fixpoint erase_loop (iterations : nat) (low_watermark round_robin erase_candidate force_erase_candidate : Z) : M (Z * Z) :=
  match iterations with
  | O => mret (erase_candidate, force_erase_candidate)
  | S iterations =>
      n ← peers_size;
      if n <? low_watermark then mret (erase_candidate, force_erase_candidate)
      else
        let round_robin := if round_robin =? n then 0 else round_robin in
        '(rr, e, f) ← erase_iteration round_robin erase_candidate force_erase_candidate;
        erase_loop iterations low_watermark rr e f
  end.

Definition erase_peers (random_value : Z) (force_erase : bool) : M unit :=
  max_size ← state_member max_peerlist_size; n ← peers_size;
  if (max_size =? 0) || (n =? 0) then mret tt
  else
    refresh_finished;;
    prod ← int (max_size * 95);
    let low_watermark := Z.quot prod 100 in
    let low_watermark := if low_watermark =? max_size then low_watermark - 1 else low_watermark in
    '(e, f) ← erase_loop (Z.to_nat (Z.min n 300)) low_watermark (u32 random_value mod n) (-1) (-1);
    if -1 <? e then erase_peer_at e else when (force_erase && (-1 <? f)) (erase_peer_at f).

(** ** Single peers *)

Definition ban_peer (l : nat) : M bool :=
  c ← is_connect_candidate l;
  when c (update_connect_candidates (-1));;
  assign l (with_banned true);;
  mret true.

Definition set_connection (l c : nat) : M unit :=
  was ← is_connect_candidate l;
  assign l (with_connection (Some c));;
  when was (update_connect_candidates (-1)).

Definition inc_failcount (l : nat) : M unit :=
  p ← deref l;
  if failcount p =? 31 then mret tt
  else
    was ← is_connect_candidate l;
    assign l (fun p => with_failcount (failcount p + 1) p);;
    recount_lost was l.

Definition set_failcount (l : nat) (f : Z) : M unit :=
  was ← is_connect_candidate l;
  assign l (with_failcount f);;
  recount was l.

Definition set_seed (l : nat) (s : bool) : M unit :=
  p ← deref l;
  if eqb (seed p) s then mret tt
  else
    was ← is_connect_candidate l;
    assign l (with_seed s);;
    recount_lost was l;;
    if web_seed p then mret tt
    else set_list (fun x => set_m_num_seeds (m_num_seeds x + (if s then 1 else -1)) x).

Definition clear_peer_prio : M unit :=
  peers ← list_member m_peers;
  foldr (fun l m => assign l (with_peer_rank 0);; m) (mret tt) peers.

Definition has_peer (l : nat) : M bool := peers ← list_member m_peers; mret (bool_decide (l ∈ peers)).

Section peer_list.
(** The CRC of the bytes of addresses, and the allocator of the peers. *)
Context (crc32c : list Z -> Z) (alloc : gmap nat torrent_peer -> option nat).

(** ** Choosing candidates *)

(** [rank(external, external_port)] of the state: the priority is kept. *)
Definition rank (l : nat) : M Z :=
  p ← deref l;
  if peer_rank p =? 0 then
    external ← state_member ip; external_port ← state_member listen_port;
    r ← lift (peer_priority crc32c (external_address external (tp_addr p), external_port) (peer_endpoint p));
    assign l (with_peer_rank r);;
    mret r
  else mret (peer_rank p).

(** [compare_peer]: whether [lhs] is the better candidate. *)
Definition compare_peer (lhs rhs : nat) : M bool :=
  p ← deref lhs; q ← deref rhs;
  if negb (failcount p =? failcount q) then mret (failcount p <? failcount q)
  else
    let lhs_local := is_local (tp_addr p) in
    let rhs_local := is_local (tp_addr q) in
    if negb (eqb lhs_local rhs_local) then mret (lhs_local && negb rhs_local)
    else if negb (last_connected p =? last_connected q) then mret (last_connected p <? last_connected q)
    else
      let lhs_rank := source_rank (source p) in
      let rhs_rank := source_rank (source q) in
      if negb (lhs_rank =? rhs_rank) then mret (rhs_rank <? lhs_rank)
      else
        lhs_peer_rank ← rank lhs; rhs_peer_rank ← rank rhs;
        mret (rhs_peer_rank <? lhs_peer_rank).

Definition candidate_count : Z := 10.

(** The peer is put in its place in the cache, unless it is worse than ten
    that are in it. *)
Definition consider_candidate (l : nat) : M unit :=
  peers ← list_member m_candidate_cache;
  worse ← (if zlen peers =? candidate_count then b ← lift (last peers); compare_peer b l else mret false);
  if worse : bool then mret tt
  else
    when (candidate_count <=? zlen peers)
      (set_list (fun x => set_m_candidate_cache (take (Z.to_nat (candidate_count - 1)) (m_candidate_cache x)) x));;
    peers ← list_member m_candidate_cache;
    i ← partition_point (fun x => compare_peer x l) peers;
    set_list (fun x => set_m_candidate_cache (insert_index i l (m_candidate_cache x)) x).

(** Whether the peer was connected too short a time ago. *)
Definition too_soon (l : nat) : M bool :=
  p ← deref l; now ← gets session_time; min_time ← state_member min_reconnect_time;
  if last_connected p =? 0 then mret false
  else
    d ← int (now - last_connected p);
    t ← int ((failcount p + 1) * min_time);
    mret (d <? t).

(** An iteration of the loop of [find_connect_candidates]; the vector it fills
    is [m_candidate_cache].  The product with 0.95 is a [double], and compares
    as the exact one. *)
Definition candidate_iteration (erase_candidate : Z) : M Z :=
  set_state (fun s => set_loop_counter (loop_counter s + 1) s);;
  rr ← list_member m_round_robin; n ← peers_size;
  when (n <=? rr) (set_list (set_m_round_robin 0));;
  current ← list_member m_round_robin;
  l ← peer_at current;
  max_size ← state_member max_peerlist_size;
  e ← (if (19 * max_size <=? 20 * n) && (0 <? max_size) then is_erase_candidate l else mret false);
  e ← (if e : bool then replaces erase_candidate l else mret false);
  imm ← (if e : bool then should_erase_immediately l else mret false);
  if imm : bool then
    erase_peer_at current;;
    mret (if current <? erase_candidate then erase_candidate - 1 else erase_candidate)
  else
    let erase_candidate := if e : bool then current else erase_candidate in
    set_list (set_m_round_robin (current + 1));;
    c ← is_connect_candidate l;
    if negb c then mret erase_candidate
    else
      s ← too_soon l;
      if s : bool then mret erase_candidate
      else consider_candidate l;; mret erase_candidate.

Fixpoint candidate_loop (iterations : nat) (erase_candidate : Z) : M Z :=
  match iterations with
  | O => mret erase_candidate
  | S iterations => e ← candidate_iteration erase_candidate; candidate_loop iterations e
  end.

Definition find_connect_candidates : M unit :=
  refresh_finished;;
  rr ← list_member m_round_robin; n ← peers_size;
  when (n <=? rr) (set_list (set_m_round_robin 0));;
  e ← candidate_loop (Z.to_nat (Z.min n 300)) (-1);
  when (-1 <? e) (erase_peer_at e).

(** The loop that clears the cache of peers that are no candidates. *)
Fixpoint keep_candidates (cache : list nat) : M (list nat) :=
  match cache with
  | [] => mret []
  | l :: cache => c ← is_connect_candidate l; r ← keep_candidates cache; mret (if c : bool then l :: r else r)
  end.

Definition connect_one_peer : M (option nat) :=
  refresh_finished;;
  cache ← list_member m_candidate_cache;
  cache ← keep_candidates cache;
  set_list (set_m_candidate_cache cache);;
  when (bool_decide (cache = [])) find_connect_candidates;;
  cache ← list_member m_candidate_cache;
  match cache with
  | [] => mret None
  | l :: cache => set_list (set_m_candidate_cache cache);; mret (Some l)
  end.

(** ** Connections that close *)

(** [connection_closed(c, session_time, state)] *)
Definition connection_closed (c : nat) : M unit :=
  cn ← conn c;
  match peer_info cn with
  | None => mret tt
  | Some l =>
      assign l (with_connection None);;
      assign l (with_optimistically_unchoked false);;
      now ← gets session_time;
      when (negb (fast_reconnect cn)) (assign l (with_last_connected now));;
      when (failed cn) (assign l (fun p => if failcount p <? 31 then with_failcount (failcount p + 1) p else p));;
      cand ← is_connect_candidate l;
      when cand (update_connect_candidates 1);;
      multiple ← state_member allow_multiple_connections_per_ip;
      p ← deref l; locked ← list_member m_locked_peer;
      when (multiple && negb (connectable p) && negb (bool_decide (locked = Some l))) (erase_peer l)
  end.

(** A call of the list by the torrent, with a [torrent_state] of its own:
    [get_peer_list_state] before and [peers_erased] after it. *)
Definition with_list_state {A} (m : M A) : M A :=
  s ← gets state;
  set_state fresh_state;;
  a ← m;
  e ← state_member erased;
  modify (fun w => in_cleared (cleared w ++ e) w);;
  set_state (fun _ => s);;
  mret a.

(** [torrent::remove_peer]: what the peer list sees of it. *)
Definition remove_peer (c : nat) : M unit :=
  cn ← conn c;
  if negb (attached cn) then mret tt
  else
    match peer_info cn with
    | None => mret tt
    | Some l =>
        assign l (with_optimistically_unchoked false);;
        assign l (fun p => with_prev_amount_download (prev_amount_download p + Z.shiftr (payload_download cn) 10) p);;
        assign l (fun p => with_prev_amount_upload (prev_amount_upload p + Z.shiftr (payload_upload cn) 10) p)
    end;;
    with_list_state (connection_closed c);;
    set_conn c (conn_with_peer_info None);;
    set_conn c (conn_with_attached false).

(** [peer_connection::disconnect(ec, op, error)]: what the peer list sees. *)
Definition disconnect (c : nat) (error : Z) : M unit :=
  cn ← conn c;
  if disconnecting cn then mret tt
  else
    when (0 <? error) (set_conn c (conn_with_failed true));;
    remove_peer c;;
    set_conn c (conn_with_disconnecting true).

(** ** Filters *)

(** The loop of [apply_ip_filter] and [apply_port_filter]: [blocked] is the
    filter; the result are the addresses of the connections that are closed. *)
Fixpoint filter_loop (fuel : nat) (blocked : torrent_peer -> M bool) (i : Z) : M (list address) :=
  n ← peers_size;
  if n <=? i then mret []
  else
    match fuel with
    | O => undefined
    | S fuel =>
        l ← peer_at i; p ← deref l;
        b ← blocked p; locked ← list_member m_locked_peer;
        if negb b || bool_decide (locked = Some l) then filter_loop fuel blocked (i + 1)
        else
          match connection p with
          | None => erase_peer_at i;; filter_loop fuel blocked i
          | Some c =>
              cn ← conn c;
              disconnect c 0;;
              n' ← peers_size;
              when (negb (n' <? n)) (erase_peer_at i);;
              r ← filter_loop fuel blocked i;
              mret ((remote cn).1 :: r)
          end
    end.

(** [ip_filter::blocked] and [port_filter::blocked] are 1. *)
Definition ip_blocked (f : ip_filter) (p : torrent_peer) : M bool :=
  flags ← lift (ip_access (tp_addr p) f); mret (Z.testbit flags 0).
Definition port_blocked (f : list (range port_type)) (p : torrent_peer) : M bool :=
  flags ← lift (port_access (Port (port p)) f); mret (Z.testbit flags 0).

Definition apply_ip_filter (f : ip_filter) : M (list address) :=
  n ← peers_size; filter_loop (Z.to_nat n) (ip_blocked f) 0.
Definition apply_port_filter (f : list (range port_type)) : M (list address) :=
  n ← peers_size; filter_loop (Z.to_nat n) (port_blocked f) 0.

(** ** New peers *)

(** The peer goes in at [iter], and [m_round_robin] stays at its peer. *)
Definition insert_at (iter : Z) (l : nat) : M unit :=
  set_list (fun x => set_m_peers (insert_index iter l (m_peers x)) x);;
  rr ← list_member m_round_robin;
  when (iter <=? rr) (set_list (set_m_round_robin (rr + 1))).

(** [allocate_peer_entry] and the constructor. *)
Definition new_entry (ep : endpoint) (conn : bool) (src : Z) : M (option nat) :=
  h ← gets heap;
  match alloc h with
  | None => mret None
  | Some l => modify (fun w => in_heap (<[l := new_torrent_peer ep conn src]> (heap w)) w);; mret (Some l)
  end.

(** The flags of ut_pex messages. *)
Definition flag_encryption : nat := 0.
Definition flag_seed : nat := 1.
Definition flag_utp : nat := 2.
Definition flag_holepunch : nat := 3.
Definition has_flag (flags : Z) (k : nat) : bool := Z.testbit flags (Z.of_nat k).

(** The part of [insert_peer] after the list has room. *)
Definition insert_counted (l : nat) (iter : Z) (flags : Z) : M bool :=
  insert_at iter l;;
  when (has_flag flags flag_encryption) (assign l (with_pe_support true));;
  when (has_flag flags flag_seed)
    (assign l (with_seed true);; set_list (fun x => set_m_num_seeds (m_num_seeds x + 1) x));;
  when (has_flag flags flag_utp) (assign l (with_supports_utp true));;
  when (has_flag flags flag_holepunch) (assign l (with_supports_holepunch true));;
  c ← is_connect_candidate l;
  when c (update_connect_candidates 1);;
  mret true.

Definition insert_peer (random_value : Z) (l : nat) (iter : Z) (flags : Z) : M bool :=
  max_size ← state_member max_peerlist_size; n ← peers_size; p ← deref l;
  place ← (if negb (max_size =? 0) && (max_size <=? n) then
             if source p =? src_resume_data then mret None
             else
               erase_peers random_value false;;
               n ← peers_size;
               if max_size <=? n then mret None
               else i ← lower_address (tp_addr p); mret (Some i)
           else mret (Some iter));
  match place with
  | None => mret false
  | Some iter => insert_counted l iter flags
  end.

Definition update_peer (l : nat) (src flags : Z) (ep : endpoint) : M unit :=
  was ← is_connect_candidate l;
  assign l (with_connectable true);;
  assign l (with_port ep.2);;
  assign l (fun p => with_source (Z.lor (source p) src) p);;
  assign l (fun p => if (0 <? failcount p) && (src =? src_tracker) then with_failcount (failcount p - 1) p else p);;
  p ← deref l;
  when (has_flag flags flag_seed && bool_decide (connection p = None))
    (when (negb (seed p)) (set_list (fun x => set_m_num_seeds (m_num_seeds x + 1) x));; assign l (with_seed true));;
  when (has_flag flags flag_utp) (assign l (with_supports_utp true));;
  when (has_flag flags flag_holepunch) (assign l (with_supports_holepunch true));;
  recount was l.

(** Where the peer of an endpoint is, or the place it goes to. *)
Definition find_place (ep : endpoint) : M (Z + Z) :=
  multiple ← state_member allow_multiple_connections_per_ip;
  if multiple : bool then
    '(r, last) ← find_remote ep;
    mret (match r with Some i => inl i | None => inr last end)
  else
    i ← lower_address ep.1; n ← peers_size;
    if n <=? i then mret (inr i)
    else l ← peer_at i; p ← deref l; mret (if decide (tp_addr p = ep.1) then inl i else inr i).

Definition v6_link_local (a : address) : bool := match a with V6 b => is_link_local (byte_list b) | V4 _ => false end.

Definition add_peer (random_value : Z) (ep : endpoint) (src flags : Z) : M (option nat) :=
  if bool_decide (ep.1 = any_address) || (ep.2 =? 0) || v6_link_local ep.1 then mret None
  else
    r ← find_place ep;
    match r with
    | inr iter =>
        e ← new_entry ep true src;
        match e with
        | None => mret None
        | Some l =>
            ok ← insert_peer random_value l iter flags;
            if ok : bool then set_state (set_first_time_seen true);; mret (Some l)
            else free_peer_entry l;; mret None
        end
    | inl i =>
        l ← peer_at i;
        update_peer l src flags ep;;
        set_state (set_first_time_seen false);;
        mret (Some l)
    end.

(** ** Incoming connections *)

(** [m_locked_peer] protects the peer while its connection is closed. *)
Definition disconnect_locked (l c : nat) : M unit :=
  set_list (set_m_locked_peer (Some l));;
  disconnect c 0;;
  set_list (set_m_locked_peer None).

(** [new_connection] when the peer has a connection: whether it goes on. *)
Definition resolve_duplicate (l c old : nat) : M bool :=
  cn ← conn c; co ← conn old;
  if bool_decide (remote co = local_endpoint cn) || bool_decide (local_endpoint co = remote cn) then
    disconnect c 1;; disconnect old 1;; mret false
  else if eqb (is_outgoing co) (is_outgoing cn) then disconnect c 0;; mret false
  else
    let outgoing1 := is_outgoing cn in
    let our_port := if outgoing1 then (local_endpoint co).2 else (local_endpoint cn).2 in
    let other_port := if outgoing1 then (remote cn).2 else (remote co).2 in
    if our_port <? other_port then
      if negb outgoing1 then disconnect c 0;; mret false else disconnect_locked l old;; mret true
    else if outgoing1 then disconnect c 0;; mret false else disconnect_locked l old;; mret true.

(** The part of [new_connection] for a peer that is found: whether it goes on. *)
Definition known_peer (l c : nat) : M bool :=
  p ← deref l;
  if banned p then disconnect c 0;; mret false
  else
    go ← match connection p with None => mret true | Some old => resolve_duplicate l c old end;
    if negb go then mret false
    else
      cand ← is_connect_candidate l;
      when cand (update_connect_candidates (-1));;
      mret true.

(** The part of [new_connection] for a peer that is new. *)
Definition incoming_peer (random_value : Z) (c : nat) (ep : endpoint) (iter : Z) : M (option nat) :=
  max_size ← state_member max_peerlist_size; n ← peers_size;
  place ← (if negb (max_size =? 0) && (max_size <=? n) then
             erase_peers random_value true;;
             n ← peers_size;
             if max_size <=? n then disconnect c 0;; mret None
             else i ← lower_address ep.1; mret (Some i)
           else mret (Some iter));
  match place with
  | None => mret None
  | Some iter =>
      e ← new_entry ep false 0;
      match e with
      | None => mret None
      | Some l => insert_at iter l;; assign l (with_source src_incoming);; mret (Some l)
      end
  end.

(** The end of [new_connection]: the peer and the connection meet. *)
Definition attach (l c : nat) : M bool :=
  cn ← conn c; p ← deref l;
  set_conn c (conn_with_peer_info (Some l));;
  set_conn c (fun cn => conn_with_payload_upload (payload_upload cn + Z.shiftl (prev_amount_upload p) 10)
    (conn_with_payload_download (payload_download cn + Z.shiftl (prev_amount_download p) 10) cn));;
  assign l (with_prev_amount_download 0);;
  assign l (with_prev_amount_upload 0);;
  assign l (with_connection (Some c));;
  now ← gets session_time;
  when (negb (fast_reconnect cn)) (assign l (with_last_connected now));;
  mret true.

Definition new_connection (random_value : Z) (c : nat) : M bool :=
  cn ← conn c;
  r ← find_place (remote cn);
  match r with
  | inl i =>
      l ← peer_at i;
      go ← known_peer l c;
      if go : bool then attach l c else mret false
  | inr iter =>
      e ← incoming_peer random_value c (remote cn) iter;
      match e with None => mret false | Some l => attach l c end
  end.

(** ** [torrent::attach_peer] *)

(** What [attach_peer] reads of the torrent, of the session and of the
    connections, besides what is in the [world]. *)
Record torrent := Torrent {
  ssl_mismatch : bool;  (* an SSL torrent, and a connection without its certificate *)
  t_ip_filter : option ip_filter;  (* [m_ip_filter], when [m_apply_ip_filter] *)
  checking : bool;  (* checking files or resume data, with metadata *)
  has_connection : bool;  (* of the session, for the new connection *)
  is_aborted : bool;
  m_max_connections : Z;  (* : 24 *)
  m_num_connecting : Z;
  class_factors : list Z;  (* [connection_limit_factor] of the classes of the connection *)
  is_connecting : nat -> bool;
  connected_time : nat -> Z;
}.

(** [m_connections], sorted by the pointers. *)
Definition m_connections (w : world) : list nat :=
  merge_sort le (map fst (filter (fun x => attached x.2 = true) (map_to_list (conns w)))).

Definition is_disconnecting (w : world) (c : nat) : bool :=
  match conns w !! c with Some cn => disconnecting cn | None => false end.

(** The tests before the limit: whether the connection is turned away. *)
Definition turned_away (t : torrent) (cn : peer_connection) : M bool :=
  if ssl_mismatch t then mret true
  else
    blocked ← match t_ip_filter t with
              | None => mret false
              | Some f => flags ← lift (ip_access (remote cn).1 f); mret (Z.testbit flags 0)
              end;
    mret ((blocked : bool) || checking t || negb (has_connection t) || is_aborted t).

Definition connection_limit_factor (t : torrent) : Z :=
  let f := foldl Z.max 0 (class_factors t) in if f =? 0 then 100 else f.
Definition connection_limit (t : torrent) : Z := m_max_connections t * 100 / connection_limit_factor t.

Definition connecting_time_compare (t : torrent) (w : world) (lhs rhs : nat) : bool :=
  let lhs_connecting := is_connecting t lhs && negb (is_disconnecting w lhs) in
  let rhs_connecting := is_connecting t rhs && negb (is_disconnecting w rhs) in
  if lhs_connecting && negb rhs_connecting then false
  else if negb lhs_connecting && rhs_connecting then true
  else connected_time t rhs <? connected_time t lhs.

(** [std::max_element] *)
Definition max_element (less : nat -> nat -> bool) (l : list nat) : option nat :=
  match l with [] => None | x :: l => Some (foldl (fun m y => if less m y then y else m) x l) end.

(** At the limit: a connection that is being made goes, when there are many of
    them, or the new connection may have to replace another
    ([maybe_replace_peer]).  [None]: the new connection was closed. *)
Definition room_for_connection (t : torrent) (c : nat) : M (option bool) :=
  n ← gets (fun w => zlen (m_connections w));
  if n <? connection_limit t then mret (Some false)
  else if m_num_connecting t <=? m_max_connections t / 10 then mret (Some true)
  else
    i ← gets (fun w => max_element (connecting_time_compare t w) (m_connections w));
    match i with
    | None => disconnect c 0;; mret None
    | Some d =>
        dn ← conn d;
        if negb (is_connecting t d) || disconnecting dn then disconnect c 0;; mret None
        else disconnect d 0;; mret (Some false)
    end.

(** The part of [attach_peer] that gives the connection its peer and puts it
    into [m_connections]. *)
Definition attach_connection (random_value : Z) (c : nat) : M bool :=
  ok ← with_list_state (new_connection random_value c);
  if ok : bool then set_conn c (conn_with_attached true);; mret true
  else disconnect c 0;; mret false.

(** [peer_connection::peer_rank()] *)
Definition connection_rank (c : nat) : M Z :=
  cn ← conn c;
  match peer_info cn with None => mret 0 | Some l => rank l end.

(** The loop of [find_lowest_ranking_peer]. *)
Fixpoint lowest_loop (l : list nat) (lowest : option nat) : M (option nat) :=
  match l with
  | [] => mret lowest
  | c :: l =>
      cn ← conn c;
      if disconnecting cn then lowest_loop l lowest
      else
        match lowest with
        | None => lowest_loop l (Some c)
        | Some d =>
            lowest_rank ← connection_rank d; r ← connection_rank c;
            lowest_loop l (if r <? lowest_rank then Some c else lowest)
        end
  end.

Definition find_lowest_ranking_peer : M (option nat) :=
  l ← gets m_connections; lowest_loop l None.

(** [disconnect] of the new connection leaves the removal to [attach_peer] in
    the source, since the connection does not know its torrent yet; here it
    has removed it, and [remove_peer] finds nothing to do. *)
Definition replace_peer (c : nat) : M bool :=
  peer ← find_lowest_ranking_peer;
  lower ← match peer with
          | None => mret false
          | Some d => peer_rank ← connection_rank d; r ← connection_rank c; mret (peer_rank <? r)
          end;
  match peer with
  | Some d => if lower : bool then disconnect d 0;; mret true else disconnect c 0;; remove_peer c;; mret false
  | None => disconnect c 0;; remove_peer c;; mret false
  end.

Definition attach_peer (t : torrent) (random_value : Z) (c : nat) : M bool :=
  cn ← conn c;
  away ← turned_away t cn;
  if away : bool then disconnect c 0;; mret false
  else
    room ← room_for_connection t c;
    match room with
    | None => mret false
    | Some maybe_replace_peer =>
        ok ← attach_connection random_value c;
        if negb ok then mret false
        else if (maybe_replace_peer : bool) then replace_peer c else mret true
    end.

(** The part of [connect_to_peer] that makes the connection [cn] and enters it
    in [m_connections] and the list. *)
Definition make_connection (l c : nat) (cn : peer_connection) : M unit :=
  modify (fun w => in_conns (<[c := cn]> (conns w)) w);;
  p ← deref l;
  set_conn c (fun cn => conn_with_payload_upload (payload_upload cn + Z.shiftl (prev_amount_upload p) 10)
    (conn_with_payload_download (payload_download cn + Z.shiftl (prev_amount_download p) 10) cn));;
  assign l (with_prev_amount_download 0);;
  assign l (with_prev_amount_upload 0);;
  set_conn c (conn_with_attached true);;
  set_connection l c.

(** [torrent::connect_to_peer]: [m_abort] is whether the torrent is aborted,
    [no_transport] whether it returns because there is no proxy for the
    network of the peer or TCP is disabled. *)
Definition connect_to_peer (m_abort no_transport : bool) (l c : nat) (cn : peer_connection) : M bool :=
  if m_abort then mret false
  else
    now ← gets session_time;
    assign l (with_last_connected now);;
    if no_transport then mret false
    else make_connection l c cn;; mret true.

(** [update_peer_port] where another peer has the endpoint: whether it goes
    on. *)
Definition take_endpoint (new_port : Z) (l : nat) (src : Z) : M bool :=
  p ← deref l;
  '(r, _) ← find_remote (tp_addr p, new_port);
  match r with
  | None => mret true
  | Some i =>
      other ← peer_at i; pp ← deref other;
      match connection pp with
      | None => erase_peer_at i;; mret true
      | Some _ =>
          was ← is_connect_candidate other;
          assign other (with_connectable true);;
          assign other (fun p => with_source (Z.lor (source p) src) p);;
          cand ← is_connect_candidate other;
          when (negb was && cand) (update_connect_candidates 1);;
          match connection p with None => undefined | Some c => disconnect_locked l c end;;
          erase_peer l;;
          mret false
      end
  end.

Definition update_peer_port (new_port : Z) (l : nat) (src : Z) : M bool :=
  p ← deref l;
  if port p =? new_port then mret true
  else
    multiple ← state_member allow_multiple_connections_per_ip;
    go ← (if multiple : bool then take_endpoint new_port l src else mret true);
    if negb go then mret false
    else
      was ← is_connect_candidate l;
      assign l (with_port new_port);;
      assign l (fun p => with_source (Z.lor (source p) src) p);;
      assign l (with_connectable true);;
      recount was l;;
      mret true.
End peer_list.
