(* ===== verification/PeerListSpec.v ===== *)
(** * What the peer list keeps

    [wp m Q w]: the operation [m] started in [w] returns, without undefined
    behaviour, a value and a state that satisfy [Q].  [list_ok] is the
    invariant of the list and the heap, [conn_ok] that of the connections:
    what [check_invariant] asserts, and that every peer in the heap is in the
    list, once, or a web seed.  The lemmas of the second half say what keeps
    them: a change of one peer, its removal, a new peer. *)

From Stdlib Require Import ZArith Lia.
From stdpp Require Import base numbers gmap sorting list.
From S2P Require Import Prelude IpFilter IpFilterSpec IpFilterTheorems PeerState PeerList.

(** ** Weakest preconditions *)

Definition wp {A} (m : M A) (Q : A -> world -> Prop) (w : world) : Prop :=
  match m w with Some (a, w') => Q a w' | None => False end.

Lemma wp_ret {A} (a : A) (Q : A -> world -> Prop) w : Q a w -> wp (mret a) Q w.
Proof. done. Qed.

Lemma wp_bind {A B} (m : M A) (f : A -> M B) (Q : B -> world -> Prop) w : wp m (fun a => wp (f a) Q) w -> wp (m ≫= f) Q w.
Proof. unfold wp, mbind, M_bind. by destruct (m w) as [[a w']|]. Qed.

Lemma wp_mono {A} (m : M A) (Q R : A -> world -> Prop) w : wp m Q w -> (forall a w', Q a w' -> R a w') -> wp m R w.
Proof. unfold wp. destruct (m w) as [[a w']|]; auto. Qed.

Lemma wp_gets {A} (f : world -> A) (Q : A -> world -> Prop) w : Q (f w) w -> wp (gets f) Q w.
Proof. done. Qed.

Lemma wp_modify f (Q : unit -> world -> Prop) w : Q tt (f w) -> wp (modify f) Q w.
Proof. done. Qed.

Lemma wp_lift {A} (o : option A) a (Q : A -> world -> Prop) w : o = Some a -> Q a w -> wp (lift o) Q w.
Proof. unfold wp, lift. by intros ->. Qed.

Lemma wp_when b m (Q : unit -> world -> Prop) w : (b = true -> wp m Q w) -> (b = false -> Q tt w) -> wp (when b m) Q w.
Proof. destruct b; intros H1 H2; [by apply H1|by apply H2]. Qed.

Lemma wp_int x (Q : Z -> world -> Prop) w : - 2 ^ 31 <= x < 2 ^ 31 -> Q x w -> wp (int x) Q w.
Proof. intros Hx HQ. unfold int. by rewrite decide_True. Qed.

Lemma wp_deref l p (Q : torrent_peer -> world -> Prop) w : heap w !! l = Some p -> Q p w -> wp (deref l) Q w.
Proof. unfold wp, deref. by intros ->. Qed.

Lemma wp_assign l p f (Q : unit -> world -> Prop) w :
  heap w !! l = Some p -> Q tt (in_heap (<[l := f p]> (heap w)) w) -> wp (assign l f) Q w.
Proof. unfold wp, assign. by intros ->. Qed.

(** The peer that was assigned last. *)
Lemma wp_reassign l q f L h cs st t cl (Q : unit -> world -> Prop) :
  Q tt (World L (<[l := f q]> h) cs st t cl) -> wp (assign l f) Q (World L (<[l := q]> h) cs st t cl).
Proof. intros HQ. apply (wp_assign _ q); cbn [heap]; [apply lookup_insert_eq|]. unfold in_heap. cbn. by rewrite insert_insert_eq. Qed.

Lemma wp_when_reassign (b : bool) l q f L h cs st t cl (Q : unit -> world -> Prop) :
  Q tt (World L (<[l := if b then f q else q]> h) cs st t cl) -> wp (when b (assign l f)) Q (World L (<[l := q]> h) cs st t cl).
Proof. destruct b; intros HQ; [by apply wp_reassign|done]. Qed.

Lemma wp_free l p (Q : unit -> world -> Prop) w :
  heap w !! l = Some p -> Q tt (in_heap (delete l (heap w)) w) -> wp (free_peer_entry l) Q w.
Proof. unfold wp, free_peer_entry. by intros ->. Qed.

Lemma wp_conn c cn (Q : peer_connection -> world -> Prop) w : conns w !! c = Some cn -> Q cn w -> wp (conn c) Q w.
Proof. unfold wp, conn. by intros ->. Qed.

Lemma wp_set_conn c cn f (Q : unit -> world -> Prop) w :
  conns w !! c = Some cn -> Q tt (in_conns (<[c := f cn]> (conns w)) w) -> wp (set_conn c f) Q w.
Proof. unfold wp, set_conn. by intros ->. Qed.

Lemma wp_peer_at i l (Q : nat -> world -> Prop) w : zget (m_peers (the_list w)) i = Some l -> Q l w -> wp (peer_at i) Q w.
Proof. unfold wp, peer_at. by intros ->. Qed.

Lemma wp_candidate l p (Q : bool -> world -> Prop) w :
  heap w !! l = Some p -> Q (connect_candidate (m_finished (the_list w)) (m_max_failcount (the_list w)) p) w ->
  wp (is_connect_candidate l) Q w.
Proof. intros Hl HQ. unfold is_connect_candidate. apply wp_bind. by apply (wp_deref _ p). Qed.

(** One step of an operation: the next read or assignment. *)
Ltac wstep :=
  lazymatch goal with
  | |- wp (mbind _ _) _ _ => apply wp_bind
  | |- wp (mret _) _ _ => apply wp_ret
  | |- wp (gets _) _ _ => apply wp_gets
  | |- wp (list_member _) _ _ => apply wp_gets
  | |- wp (state_member _) _ _ => apply wp_gets
  | |- wp peers_size _ _ => apply wp_gets
  | |- wp (modify _) _ _ => apply wp_modify
  | |- wp (set_list _) _ _ => apply wp_modify
  | |- wp (set_state _) _ _ => apply wp_modify
  | |- wp (deref _) _ _ => eapply wp_deref; [first [by eauto | apply lookup_insert_eq]|]
  | |- wp (assign _ _) _ _ => first [apply wp_reassign | eapply wp_assign; [by eauto|]]
  | |- wp (free_peer_entry _) _ _ => eapply wp_free; [by eauto|]
  | |- wp (conn _) _ _ => eapply wp_conn; [by eauto|]
  | |- wp (set_conn _ _) _ _ => eapply wp_set_conn; [by eauto|]
  | |- wp (peer_at _) _ _ => eapply wp_peer_at; [by eauto|]
  | |- wp (is_connect_candidate _) _ _ => eapply wp_candidate; [first [by eauto | apply lookup_insert_eq]|]
  end; cbv beta.

(** The members of a state that was updated. *)
Ltac wsimpl :=
  cbn [the_list heap conns state session_time cleared in_the_list in_heap in_conns in_state in_cleared
       m_peers m_locked_peer m_num_seeds m_finished m_round_robin m_candidate_cache m_num_connect_candidates m_max_failcount
       set_m_peers set_m_locked_peer set_m_num_seeds set_m_finished set_m_round_robin set_m_candidate_cache
       set_m_num_connect_candidates set_m_max_failcount
       is_finished allow_multiple_connections_per_ip first_time_seen max_peerlist_size min_reconnect_time loop_counter ip
       listen_port max_failcount erased set_first_time_seen set_loop_counter set_erased fresh_state].
Tactic Notation "wsimpl" "in" hyp(H) :=
  cbn [the_list heap conns state session_time cleared in_the_list in_heap in_conns in_state in_cleared
       m_peers m_locked_peer m_num_seeds m_finished m_round_robin m_candidate_cache m_num_connect_candidates m_max_failcount
       set_m_peers set_m_locked_peer set_m_num_seeds set_m_finished set_m_round_robin set_m_candidate_cache
       set_m_num_connect_candidates set_m_max_failcount
       is_finished allow_multiple_connections_per_ip first_time_seen max_peerlist_size min_reconnect_time loop_counter ip
       listen_port max_failcount erased set_first_time_seen set_loop_counter set_erased fresh_state] in H.
Ltac wsteps := repeat (wstep; wsimpl).

(** ** The order of addresses *)

Definition addr_value (a : address) : Z := match a with V4 a => value a | V6 a => 2 ^ 32 + value a end.

Lemma address_lt_value a b : valid_address a -> valid_address b -> address_lt a b = (addr_value a <? addr_value b).
Proof.
  destruct a as [a|a], b as [b|b]; cbn [valid_address address_lt addr_value]; intros Ha Hb.
  - by apply lt_value.
  - pose proof (value_range a Ha). pose proof (value_range b Hb). change (@bound _ _ (bytes_laws 4)) with (2 ^ 32) in *.
    symmetry. apply Z.ltb_lt. lia.
  - pose proof (value_range a Ha). pose proof (value_range b Hb). change (@bound _ _ (bytes_laws 4)) with (2 ^ 32) in *.
    symmetry. apply Z.ltb_ge. lia.
  - rewrite (lt_value a b) by done. destruct (Z.ltb_spec (value a) (value b)), (Z.ltb_spec (2 ^ 32 + value a) (2 ^ 32 + value b)); done || lia.
Qed.

Lemma addr_value_inj a b : valid_address a -> valid_address b -> addr_value a = addr_value b -> a = b.
Proof.
  destruct a as [a|a], b as [b|b]; cbn [valid_address addr_value]; intros Ha Hb E.
  - f_equal. by apply value_inj.
  - pose proof (value_range a Ha). pose proof (value_range b Hb). change (@bound _ _ (bytes_laws 4)) with (2 ^ 32) in *. lia.
  - pose proof (value_range a Ha). pose proof (value_range b Hb). change (@bound _ _ (bytes_laws 4)) with (2 ^ 32) in *. lia.
  - f_equal. apply value_inj; [done..|lia].
Qed.

(** ** Sums and sequences *)

Lemma zsum_change (f g : nat -> Z) l x :
  NoDup l -> x ∈ l -> (forall y, y ∈ l -> y <> x -> g y = f y) -> zsum g l = zsum f l + (g x - f x).
Proof.
  intros Hnd Hx Hfg. apply list_elem_of_split in Hx as (l1 & l2 & ->). apply NoDup_app in Hnd as (_ & H1 & H2).
  apply NoDup_cons in H2 as [H2 _]. rewrite !zsum_app. cbn [zsum]. rewrite (zsum_ext g f l1), (zsum_ext g f l2).
  - lia.
  - intros y Hy. apply Hfg; [set_solver|]. by intros ->.
  - intros y Hy. apply Hfg; [set_solver|]. intros ->. apply (H1 x Hy). set_solver.
Qed.

Lemma erase_index_split {A} i (l : list A) x : zget l i = Some x ->
  exists l1 l2, l = l1 ++ x :: l2 /\ zlen l1 = i /\ erase_index i l = l1 ++ l2.
Proof.
  intros Hx. pose proof (zget_Some_bound _ _ _ Hx) as Hb. unfold zget in Hx. rewrite decide_True in Hx by lia.
  exists (take (Z.to_nat i) l), (drop (S (Z.to_nat i)) l). split; [by rewrite take_drop_middle|].
  split; [rewrite length_take; lia|]. unfold erase_index. by replace (Z.to_nat (i + 1)) with (S (Z.to_nat i)) by lia.
Qed.

Lemma insert_index_split {A} i (x : A) l : 0 <= i <= zlen l ->
  exists l1 l2, l = l1 ++ l2 /\ zlen l1 = i /\ insert_index i x l = l1 ++ x :: l2.
Proof.
  intros Hi. exists (take (Z.to_nat i) l), (drop (Z.to_nat i) l). rewrite take_drop. split; [done|].
  split; [rewrite length_take; lia|done].
Qed.

Lemma erase_first_sub x l y : y ∈ erase_first x l -> y ∈ l.
Proof. induction l as [|z l IH]; simpl; [done|]. case_decide; set_solver. Qed.

Lemma erase_first_nodup x l : NoDup l -> NoDup (erase_first x l) /\ x ∉ erase_first x l.
Proof.
  induction l as [|z l IH]; simpl; [set_solver|]. intros [Hz Hl]%NoDup_cons. specialize (IH Hl) as [IH1 IH2].
  case_decide as E; [by subst|]. split; [|set_solver]. apply NoDup_cons. split; [|done]. intros H. by apply erase_first_sub in H.
Qed.

Lemma erase_first_elem x l y : y <> x -> y ∈ l -> y ∈ erase_first x l.
Proof. intros Hy. induction l as [|z l IH]; simpl; [done|]. case_decide; set_solver. Qed.

Lemma erase_first_length x l : (length (erase_first x l) <= length l)%nat.
Proof. induction l as [|z l IH]; simpl; [done|]. case_decide; simpl; lia. Qed.

Lemma erase_first_absent x l : x ∉ l -> erase_first x l = l.
Proof. induction l as [|z l IH]; simpl; [done|]. intros H. rewrite decide_False by set_solver. f_equal. set_solver. Qed.

(** ** The invariant *)

Definition addr_of (h : gmap nat torrent_peer) (l : nat) : address := match h !! l with Some p => tp_addr p | None => any_address end.

(** What identifies a peer: its endpoint, or with one connection per address
    its address. *)
Definition peer_key (multiple : bool) (p : torrent_peer) : endpoint := (tp_addr p, if multiple then port p else 0).
Definition key_of (multiple : bool) (h : gmap nat torrent_peer) (l : nat) : endpoint :=
  match h !! l with Some p => peer_key multiple p | None => (any_address, 0) end.

Definition b2z (b : bool) : Z := if b then 1 else 0.
Definition counts (f : torrent_peer -> bool) (h : gmap nat torrent_peer) (l : nat) : Z :=
  match h !! l with Some p => b2z (f p) | None => 0 end.

Record list_ok (L : peer_list) (h : gmap nat torrent_peer) (multiple : bool) (pending : option nat) : Prop := {
  lo_live l : l ∈ m_peers L -> is_Some (h !! l);
  lo_all l p : h !! l = Some p -> l ∈ m_peers L <-> web_seed p = false /\ pending <> Some l;
  lo_web l p : h !! l = Some p -> web_seed p = true -> connectable p = true;
  lo_valid l : l ∈ m_peers L -> valid_address (addr_of h l) /\ addr_of h l <> any_address;
  lo_sorted : StronglySorted Z.le (map (fun l => addr_value (addr_of h l)) (m_peers L));
  lo_unique : NoDup (map (key_of multiple h) (m_peers L));
  lo_cands : m_num_connect_candidates L = zsum (counts (connect_candidate (m_finished L) (m_max_failcount L)) h) (m_peers L);
  lo_seeds : m_num_seeds L = zsum (counts seed h) (m_peers L) mod 2 ^ 31;
  lo_rr : 0 <= m_round_robin L <= zlen (m_peers L);
  lo_cache : NoDup (m_candidate_cache L) /\ forall l, l ∈ m_candidate_cache L -> l ∈ m_peers L;
  lo_ten : zlen (m_candidate_cache L) <= 10;
}.

Record conn_ok (h : gmap nat torrent_peer) (cs : gmap nat peer_connection) : Prop := {
  co_peer l p c : h !! l = Some p -> connection p = Some c ->
    exists cn, cs !! c = Some cn /\ peer_info cn = Some l /\ attached cn = true /\ disconnecting cn = false;
  co_conn c cn l : cs !! c = Some cn -> peer_info cn = Some l -> exists p, h !! l = Some p /\ connection p = Some c;
}.

Lemma lo_nodup L h m pd : list_ok L h m pd -> NoDup (m_peers L).
Proof. intros H. eapply NoDup_fmap_1, (lo_unique _ _ _ _ H). Qed.

Lemma counts_nonneg f h l : 0 <= counts f h l <= 1.
Proof. unfold counts, b2z. repeat case_match; lia. Qed.

Lemma lo_cands_nonneg L h m pd : list_ok L h m pd -> 0 <= m_num_connect_candidates L <= zlen (m_peers L).
Proof.
  intros H. rewrite (lo_cands _ _ _ _ H). split; [apply zsum_nonneg; intros; apply counts_nonneg|].
  induction (m_peers L) as [|l ls IH]; simpl; [done|]. pose proof (counts_nonneg (connect_candidate (m_finished L) (m_max_failcount L)) h l). lia.
Qed.

Lemma lo_get L h m pd i l : list_ok L h m pd -> zget (m_peers L) i = Some l -> exists p, h !! l = Some p /\ web_seed p = false.
Proof.
  intros H Hl. apply zget_elem in Hl. destruct (lo_live _ _ _ _ H l Hl) as [p Hp]. exists p. split; [done|].
  by destruct (proj1 (lo_all _ _ _ _ H l p Hp) Hl).
Qed.

(** ** One peer changes *)

Lemma addr_of_insert h l p p' l' : h !! l = Some p -> tp_addr p' = tp_addr p -> addr_of (<[l := p']> h) l' = addr_of h l'.
Proof.
  intros Hl Ha. unfold addr_of. destruct (decide (l' = l)) as [->|Hn]; [by rewrite lookup_insert_eq, Hl|by rewrite lookup_insert_ne by congruence].
Qed.

Lemma addrs_insert h l p p' ls : h !! l = Some p -> tp_addr p' = tp_addr p ->
  map (fun x => addr_value (addr_of (<[l := p']> h) x)) ls = map (fun x => addr_value (addr_of h x)) ls.
Proof. intros Hl Ha. apply map_ext. intros l'. by rewrite (addr_of_insert h l p). Qed.

Lemma counts_insert f h l p l' : counts f (<[l := p]> h) l' = if decide (l' = l) then b2z (f p) else counts f h l'.
Proof. unfold counts. case_decide as E; [by rewrite E, lookup_insert_eq|by rewrite lookup_insert_ne by congruence]. Qed.

Lemma counts_lookup f h l p : h !! l = Some p -> counts f h l = b2z (f p).
Proof. unfold counts. by intros ->. Qed.

Lemma zsum_counts_insert f h l p p' ls : NoDup ls -> h !! l = Some p ->
  zsum (counts f (<[l := p']> h)) ls = zsum (counts f h) ls + (if decide (l ∈ ls) then b2z (f p') - b2z (f p) else 0).
Proof.
  intros Hnd Hl. case_decide as Hin.
  - rewrite (zsum_change (counts f h) _ ls l); [|done|done|].
    + by rewrite counts_insert, decide_True, (counts_lookup f h l p).
    + intros y _ Hy. by rewrite counts_insert, decide_False.
  - rewrite Z.add_0_r. apply zsum_ext. intros y Hy. rewrite counts_insert, decide_False; [done|]. by intros ->.
Qed.

Lemma keys_insert m h l p p' ls : NoDup ls -> h !! l = Some p ->
  (l ∈ ls -> peer_key m p' = peer_key m p \/ forall l', l' ∈ ls -> l' <> l -> key_of m h l' <> peer_key m p') ->
  NoDup (map (key_of m h) ls) -> NoDup (map (key_of m (<[l := p']> h)) ls).
Proof.
  intros Hnd Hl Hk Hkeys.
  assert (forall l', l' <> l -> key_of m (<[l := p']> h) l' = key_of m h l') as Hne.
  { intros l' Hn. unfold key_of. by rewrite lookup_insert_ne by congruence. }
  destruct (decide (l ∈ ls)) as [Hin|Hin].
  2: { rewrite (map_ext_in _ (key_of m h)); [done|]. intros l' Hl'%list_elem_of_In. apply Hne. by intros ->. }
  specialize (Hk Hin). apply list_elem_of_split in Hin as (l1 & l2 & ->).
  assert (forall l', l' ∈ l1 ++ l2 -> l' <> l) as Hother.
  { intros l' Hl' ->. rewrite <- Permutation_middle in Hnd. by apply NoDup_cons in Hnd as [? _]. }
  rewrite map_app in *. cbn [map] in *. rewrite (map_ext_in _ (key_of m h) l1), (map_ext_in _ (key_of m h) l2).
  2: { intros l' Hl'%list_elem_of_In. apply Hne, Hother. set_solver. }
  2: { intros l' Hl'%list_elem_of_In. apply Hne, Hother. set_solver. }
  rewrite <- Permutation_middle in *. apply NoDup_cons in Hkeys as [Hk1 Hk2]. apply NoDup_cons. split; [|done].
  rewrite <- map_app in *. unfold key_of at 1. rewrite lookup_insert_eq. destruct Hk as [->|Hk].
  - unfold key_of at 1 in Hk1. by rewrite Hl in Hk1.
  - intros (l' & E & Hl')%list_elem_of_fmap. apply (Hk l'); [set_solver|by apply Hother|done].
Qed.

(** The members of the list but for the two counters. *)
Definition same_members (L L' : peer_list) : Prop :=
  m_peers L' = m_peers L /\ m_finished L' = m_finished L /\ m_max_failcount L' = m_max_failcount L /\
  m_round_robin L' = m_round_robin L /\ m_candidate_cache L' = m_candidate_cache L.

Definition cand_of (L : peer_list) (p : torrent_peer) : bool := connect_candidate (m_finished L) (m_max_failcount L) p.

Lemma lo_change L L' h m pd l p p' :
  list_ok L h m pd -> same_members L L' -> h !! l = Some p ->
  tp_addr p' = tp_addr p -> web_seed p' = web_seed p -> (web_seed p = true -> connectable p' = true) ->
  (l ∈ m_peers L -> peer_key m p' = peer_key m p \/ forall l', l' ∈ m_peers L -> l' <> l -> key_of m h l' <> peer_key m p') ->
  m_num_connect_candidates L' = m_num_connect_candidates L + (if decide (l ∈ m_peers L) then b2z (cand_of L p') - b2z (cand_of L p) else 0) ->
  m_num_seeds L' = (m_num_seeds L + (if decide (l ∈ m_peers L) then b2z (seed p') - b2z (seed p) else 0)) mod 2 ^ 31 ->
  list_ok L' (<[l := p']> h) m pd.
Proof.
  intros H (Ep & Ef & Em & Er & Ec) Hl Ha Hw Hcon Hk Hc Hs. pose proof (lo_nodup _ _ _ _ H) as Hnd.
  split; rewrite ?Ep, ?Ef, ?Em, ?Er, ?Ec.
  - intros l' Hl'. destruct (decide (l' = l)) as [->|Hn]; [by rewrite lookup_insert_eq|].
    rewrite lookup_insert_ne by congruence. by apply (lo_live _ _ _ _ H).
  - intros l' q. destruct (decide (l' = l)) as [->|Hn].
    + rewrite lookup_insert_eq. intros [= <-]. rewrite Hw. by apply (lo_all _ _ _ _ H).
    + rewrite lookup_insert_ne by congruence. apply (lo_all _ _ _ _ H).
  - intros l' q. destruct (decide (l' = l)) as [->|Hn].
    + rewrite lookup_insert_eq. intros [= <-]. by rewrite Hw.
    + rewrite lookup_insert_ne by congruence. apply (lo_web _ _ _ _ H).
  - intros l' Hl'. rewrite (addr_of_insert h l p) by done. by apply (lo_valid _ _ _ _ H).
  - rewrite (addrs_insert h l p) by done. apply (lo_sorted _ _ _ _ H).
  - by apply (keys_insert m h l p); [| | |apply (lo_unique _ _ _ _ H)].
  - rewrite (zsum_counts_insert _ h l p) by done. rewrite Hc, (lo_cands _ _ _ _ H). done.
  - rewrite (zsum_counts_insert _ h l p) by done. rewrite Hs, (lo_seeds _ _ _ _ H). by rewrite Zplus_mod_idemp_l.
  - apply (lo_rr _ _ _ _ H).
  - apply (lo_cache _ _ _ _ H).
  - apply (lo_ten _ _ _ _ H).
Qed.

(** ** Peers come and go *)

Lemma counts_ext f h h' ls : (forall l, l ∈ ls -> h' !! l = h !! l) -> zsum (counts f h') ls = zsum (counts f h) ls.
Proof. intros H. apply zsum_ext. intros l Hl. unfold counts. by rewrite H. Qed.

Lemma addrs_ext h h' ls : (forall l, l ∈ ls -> h' !! l = h !! l) ->
  map (fun x => addr_value (addr_of h' x)) ls = map (fun x => addr_value (addr_of h x)) ls.
Proof. intros H. apply map_ext_in. intros l Hl%list_elem_of_In. unfold addr_of. by rewrite H. Qed.

Lemma keys_ext m h h' ls : (forall l, l ∈ ls -> h' !! l = h !! l) -> map (key_of m h') ls = map (key_of m h) ls.
Proof. intros H. apply map_ext_in. intros l Hl%list_elem_of_In. unfold key_of. by rewrite H. Qed.

(** The heap changes elsewhere. *)
Lemma lo_elsewhere L h h' m pd pd' : list_ok L h m pd -> (forall l, l ∈ m_peers L -> h' !! l = h !! l) ->
  (forall l p, h' !! l = Some p -> l ∈ m_peers L <-> web_seed p = false /\ pd' <> Some l) ->
  (forall l p, h' !! l = Some p -> web_seed p = true -> connectable p = true) -> list_ok L h' m pd'.
Proof.
  intros H Hh Hall Hweb. split; [| |by eauto| | | | | |..].
  - intros l Hl. rewrite Hh by done. by apply (lo_live _ _ _ _ H).
  - apply Hall.
  - intros l Hl. unfold addr_of. rewrite Hh by done. by apply (lo_valid _ _ _ _ H).
  - rewrite (addrs_ext h h') by done. apply (lo_sorted _ _ _ _ H).
  - rewrite (keys_ext _ h h') by done. apply (lo_unique _ _ _ _ H).
  - rewrite (counts_ext _ h h') by done. apply (lo_cands _ _ _ _ H).
  - rewrite (counts_ext _ h h') by done. apply (lo_seeds _ _ _ _ H).
  - apply (lo_rr _ _ _ _ H).
  - apply (lo_cache _ _ _ _ H).
  - apply (lo_ten _ _ _ _ H).
Qed.

Lemma lo_pending L h m l p : list_ok L h m None -> h !! l = None -> web_seed p = false -> list_ok L (<[l := p]> h) m (Some l).
Proof.
  intros H Hl Hw. assert (l ∉ m_peers L) as Hn.
  { intros Hin. destruct (lo_live _ _ _ _ H l Hin) as [q Hq]. congruence. }
  apply (lo_elsewhere L h _ m None); [done| | |].
  - intros l' Hl'. apply lookup_insert_ne. by intros ->.
  - intros l' q. destruct (decide (l' = l)) as [->|Hne]; [rewrite lookup_insert_eq; intros [= <-]; naive_solver|].
    rewrite lookup_insert_ne by congruence. intros Hq. rewrite (lo_all _ _ _ _ H l' q Hq). naive_solver.
  - intros l' q. destruct (decide (l' = l)) as [->|Hne]; [rewrite lookup_insert_eq; intros [= <-]; congruence|].
    rewrite lookup_insert_ne by congruence. apply (lo_web _ _ _ _ H).
Qed.

Lemma lo_pending_out L h m l p : list_ok L h m (Some l) -> h !! l = Some p -> l ∉ m_peers L.
Proof. intros H Hl Hin. apply (lo_all _ _ _ _ H l p Hl) in Hin as [_ ?]. done. Qed.

Lemma lo_drop L h m l p : list_ok L h m (Some l) -> h !! l = Some p -> list_ok L (delete l h) m None.
Proof.
  intros H Hl. pose proof (lo_pending_out _ _ _ _ _ H Hl) as Hn. apply (lo_elsewhere L h _ m (Some l)); [done| | |].
  - intros l' Hl'. apply lookup_delete_ne. by intros ->.
  - intros l' q [Hne Hq]%lookup_delete_Some. rewrite (lo_all _ _ _ _ H l' q Hq). naive_solver.
  - intros l' q [Hne Hq]%lookup_delete_Some. by apply (lo_web _ _ _ _ H l').
Qed.

Lemma sorted_remove l1 x l2 : StronglySorted Z.le (l1 ++ x :: l2) -> StronglySorted Z.le (l1 ++ l2).
Proof.
  induction l1 as [|y l1 IH]; simpl; intros [Hs Hf]%StronglySorted_inv; [done|]. constructor; [by apply IH|].
  apply Forall_app in Hf as [H1 [_ H2]%Forall_cons]. by apply Forall_app.
Qed.

Lemma sorted_insert l1 x l2 : StronglySorted Z.le (l1 ++ l2) -> (forall y, y ∈ l1 -> y <= x) -> (forall y, y ∈ l2 -> x <= y) ->
  StronglySorted Z.le (l1 ++ x :: l2).
Proof.
  induction l1 as [|y l1 IH]; simpl.
  - intros Hs _ H. constructor; [done|]. by apply Forall_forall.
  - intros [Hs Hf]%StronglySorted_inv H1 H2. constructor; [apply IH; [done| |done]; set_solver|].
    apply Forall_app in Hf as [Hf1 Hf2]. apply Forall_app. split; [done|]. constructor; [apply H1; set_solver|done].
Qed.

(** Removing the peer [l] at a place of the list. *)
Lemma lo_erase L L' h m pd l1 l l2 p :
  list_ok L h m pd -> m_peers L = l1 ++ l :: l2 -> h !! l = Some p ->
  m_peers L' = l1 ++ l2 -> m_finished L' = m_finished L -> m_max_failcount L' = m_max_failcount L ->
  m_num_connect_candidates L' = m_num_connect_candidates L - b2z (cand_of L p) ->
  m_num_seeds L' = (m_num_seeds L - b2z (seed p)) mod 2 ^ 31 ->
  0 <= m_round_robin L' <= zlen (l1 ++ l2) -> m_candidate_cache L' = erase_first l (m_candidate_cache L) ->
  list_ok L' (delete l h) m pd.
Proof.
  intros H Ep Hl Ep' Ef Em Hc Hs Hr Ec. pose proof (lo_nodup _ _ _ _ H) as Hnd. rewrite Ep in Hnd.
  rewrite <- Permutation_middle in Hnd. apply NoDup_cons in Hnd as [Hnl Hnd].
  assert (forall l', l' ∈ l1 ++ l2 -> delete l h !! l' = h !! l') as Hh.
  { intros l' Hl'. apply lookup_delete_ne. by intros ->. }
  assert (forall l', l' ∈ l1 ++ l2 -> l' ∈ m_peers L) as Hsub by (rewrite Ep; set_solver).
  split; rewrite ?Ep', ?Ef, ?Em.
  - intros l' Hl'. rewrite Hh by done. by apply (lo_live _ _ _ _ H), Hsub.
  - intros l' q [Hne Hq]%lookup_delete_Some. rewrite <- (lo_all _ _ _ _ H l' q Hq), Ep. set_solver.
  - intros l' q [Hne Hq]%lookup_delete_Some. by apply (lo_web _ _ _ _ H l').
  - intros l' Hl'. unfold addr_of. rewrite Hh by done. by apply (lo_valid _ _ _ _ H), Hsub.
  - rewrite (addrs_ext h) by done. pose proof (lo_sorted _ _ _ _ H) as Hso. rewrite Ep, map_app in Hso.
    rewrite map_app. by eapply sorted_remove.
  - rewrite (keys_ext _ h) by done. pose proof (lo_unique _ _ _ _ H) as Hu. rewrite Ep, map_app in Hu. cbn [map] in Hu.
    rewrite <- Permutation_middle in Hu. apply NoDup_cons in Hu as [_ Hu]. by rewrite map_app.
  - rewrite (counts_ext _ h) by done. rewrite Hc, (lo_cands _ _ _ _ H), Ep, !zsum_app. cbn [zsum].
    rewrite (counts_lookup _ h l p) by done. unfold cand_of. lia.
  - rewrite (counts_ext _ h) by done. rewrite Hs, (lo_seeds _ _ _ _ H), Ep, !zsum_app. cbn [zsum].
    rewrite (counts_lookup _ h l p) by done. rewrite Zminus_mod_idemp_l. f_equal. lia.
  - done.
  - rewrite Ec. destruct (lo_cache _ _ _ _ H) as [Hc1 Hc2]. destruct (erase_first_nodup l _ Hc1) as [Hc3 Hc4]. split; [done|].
    intros l' Hl'. pose proof (erase_first_sub _ _ _ Hl') as Hin%Hc2. rewrite Ep in Hin. set_solver.
  - rewrite Ec. pose proof (lo_ten _ _ _ _ H). pose proof (erase_first_length l (m_candidate_cache L)). lia.
Qed.

(** Putting a peer that is in the heap into the list. *)
Lemma lo_insert L L' h m l1 l l2 p :
  list_ok L h m (Some l) -> m_peers L = l1 ++ l2 -> h !! l = Some p -> web_seed p = false ->
  valid_address (tp_addr p) -> tp_addr p <> any_address ->
  (forall x, x ∈ l1 -> addr_value (addr_of h x) <= addr_value (tp_addr p)) ->
  (forall x, x ∈ l2 -> addr_value (tp_addr p) <= addr_value (addr_of h x)) ->
  (forall x, x ∈ m_peers L -> key_of m h x <> peer_key m p) ->
  m_peers L' = l1 ++ l :: l2 -> m_finished L' = m_finished L -> m_max_failcount L' = m_max_failcount L ->
  m_num_connect_candidates L' = m_num_connect_candidates L + b2z (cand_of L p) ->
  m_num_seeds L' = (m_num_seeds L + b2z (seed p)) mod 2 ^ 31 ->
  0 <= m_round_robin L' <= zlen (l1 ++ l :: l2) -> m_candidate_cache L' = m_candidate_cache L ->
  list_ok L' h m None.
Proof.
  intros H Ep Hl Hw Hv Hz H1 H2 Hk Ep' Ef Em Hc Hs Hr Ec. pose proof (lo_pending_out _ _ _ _ _ H Hl) as Hn.
  assert (forall l', l' ∈ l1 ++ l :: l2 -> l' = l \/ l' ∈ m_peers L) as Hin by (rewrite Ep; set_solver).
  assert (addr_of h l = tp_addr p) as Ha by (unfold addr_of; by rewrite Hl).
  split; rewrite ?Ep', ?Ef, ?Em.
  - intros l' [->|Hl']%Hin; [done|by apply (lo_live _ _ _ _ H)].
  - intros l' q Hq. destruct (decide (l' = l)) as [->|Hne].
    + assert (q = p) as -> by congruence. split; [done|set_solver].
    + pose proof (lo_all _ _ _ _ H l' q Hq) as E. rewrite Ep in E. set_solver.
  - apply (lo_web _ _ _ _ H).
  - intros l' [->|Hl']%Hin; [by rewrite Ha|by apply (lo_valid _ _ _ _ H)].
  - pose proof (lo_sorted _ _ _ _ H) as Hso. rewrite Ep, map_app in Hso. rewrite map_app. cbn [map]. rewrite Ha.
    apply sorted_insert; [done| |]; intros y (x & -> & Hx)%list_elem_of_fmap; auto.
  - pose proof (lo_unique _ _ _ _ H) as Hu. rewrite Ep, map_app in Hu. rewrite map_app. cbn [map].
    rewrite <- Permutation_middle, <- map_app in *. apply NoDup_cons. split; [|done].
    intros (x & E & Hx)%list_elem_of_fmap. apply (Hk x); [by rewrite Ep|]. rewrite <- E. unfold key_of. by rewrite Hl.
  - rewrite Hc, (lo_cands _ _ _ _ H), Ep, !zsum_app. cbn [zsum]. rewrite (counts_lookup _ h l p) by done. unfold cand_of. lia.
  - rewrite Hs, (lo_seeds _ _ _ _ H), Ep, !zsum_app. cbn [zsum]. rewrite (counts_lookup _ h l p) by done.
    rewrite Zplus_mod_idemp_l. f_equal. lia.
  - done.
  - rewrite Ec. destruct (lo_cache _ _ _ _ H) as [Hc1 Hc2]. split; [done|]. intros l' Hl'%Hc2. rewrite Ep in Hl'. set_solver.
  - rewrite Ec. apply (lo_ten _ _ _ _ H).
Qed.

(** Only the cursor, the cache or the peer that is locked changes. *)
Lemma lo_cursor L L' h m pd : list_ok L h m pd -> m_peers L' = m_peers L -> m_finished L' = m_finished L ->
  m_max_failcount L' = m_max_failcount L -> m_num_connect_candidates L' = m_num_connect_candidates L ->
  m_num_seeds L' = m_num_seeds L -> 0 <= m_round_robin L' <= zlen (m_peers L) ->
  NoDup (m_candidate_cache L') /\ (forall l, l ∈ m_candidate_cache L' -> l ∈ m_peers L) -> zlen (m_candidate_cache L') <= 10 ->
  list_ok L' h m pd.
Proof.
  intros [] Ep Ef Em Ec Es Hr Hca Ht. split; rewrite ?Ep, ?Ef, ?Em, ?Ec, ?Es; done.
Qed.

(** ** Connections *)

Lemma co_same h cs l p p' : conn_ok h cs -> h !! l = Some p -> connection p' = connection p -> conn_ok (<[l := p']> h) cs.
Proof.
  intros [H1 H2] Hl Hc. split.
  - intros l' q c. destruct (decide (l' = l)) as [->|Hn]; [|rewrite lookup_insert_ne by congruence; apply H1].
    rewrite lookup_insert_eq. intros [= <-]. rewrite Hc. by apply H1.
  - intros c cn l' Hcn Hi. destruct (H2 c cn l' Hcn Hi) as (q & Hq & Hqc). destruct (decide (l' = l)) as [->|Hn].
    + exists p'. rewrite lookup_insert_eq. split; [done|]. rewrite Hc. congruence.
    + exists q. by rewrite lookup_insert_ne by congruence.
Qed.

Lemma co_delete h cs l p : conn_ok h cs -> h !! l = Some p -> connection p = None -> conn_ok (delete l h) cs.
Proof.
  intros [H1 H2] Hl Hc. split.
  - intros l' q c [Hn Hq]%lookup_delete_Some. by apply H1.
  - intros c cn l' Hcn Hi. destruct (H2 c cn l' Hcn Hi) as (q & Hq & Hqc). exists q. rewrite lookup_delete_ne; [done|]. intros ->. congruence.
Qed.

Lemma co_new h cs l p : conn_ok h cs -> h !! l = None -> connection p = None -> conn_ok (<[l := p]> h) cs.
Proof.
  intros [H1 H2] Hl Hc. split.
  - intros l' q c. destruct (decide (l' = l)) as [->|Hn]; [|rewrite lookup_insert_ne by congruence; apply H1].
    rewrite lookup_insert_eq. intros [= <-]. by rewrite Hc.
  - intros c cn l' Hcn Hi. destruct (H2 c cn l' Hcn Hi) as (q & Hq & Hqc). exists q. rewrite lookup_insert_ne; [done|]. intros ->. congruence.
Qed.

(** A connection without a peer changes. *)
Lemma co_conn_same h cs c cn cn' : conn_ok h cs -> cs !! c = Some cn -> peer_info cn = None -> peer_info cn' = None ->
  conn_ok h (<[c := cn']> cs).
Proof.
  intros [H1 H2] Hcn Hi Hi'. split.
  - intros l p c' Hl Hc'. destruct (H1 l p c' Hl Hc') as (cn1 & ? & ? & ?). exists cn1. rewrite lookup_insert_ne; [done|].
    intros ->. congruence.
  - intros c' cn1 l. destruct (decide (c' = c)) as [->|Hn]; [rewrite lookup_insert_eq; intros [= <-]; congruence|].
    rewrite lookup_insert_ne by congruence. apply H2.
Qed.

Lemma co_conn_new h cs c cn : conn_ok h cs -> cs !! c = None -> peer_info cn = None -> conn_ok h (<[c := cn]> cs).
Proof.
  intros [H1 H2] Hcn Hi. split.
  - intros l p c' Hl Hc'. destruct (H1 l p c' Hl Hc') as (cn1 & ? & ? & ?). exists cn1. rewrite lookup_insert_ne; [done|]. intros ->. congruence.
  - intros c' cn1 l. destruct (decide (c' = c)) as [->|Hn]; [rewrite lookup_insert_eq; intros [= <-]; congruence|].
    rewrite lookup_insert_ne by congruence. apply H2.
Qed.

(** A peer and its connection part; the peer may be freed. *)
Lemma co_close h cs l p c cn cn' h' : conn_ok h cs -> h !! l = Some p -> connection p = Some c -> cs !! c = Some cn -> peer_info cn' = None ->
  (forall l', l' <> l -> h' !! l' = h !! l') -> (forall q, h' !! l = Some q -> connection q = None) -> conn_ok h' (<[c := cn']> cs).
Proof.
  intros [H1 H2] Hl Hc Hcn Hi Hh Hq. destruct (H1 l p c Hl Hc) as (cn1 & Hcn1 & Hi1 & _). simplify_eq. split.
  - intros l' q c' Hl' Hc'. destruct (decide (l' = l)) as [->|Hn]; [rewrite (Hq q Hl') in Hc'; done|]. rewrite Hh in Hl' by done.
    destruct (H1 l' q c' Hl' Hc') as (cn1 & ? & ? & ?). exists cn1. rewrite lookup_insert_ne; [done|]. intros ->. congruence.
  - intros c' cn1 l'. destruct (decide (c' = c)) as [->|Hn]; [rewrite lookup_insert_eq; intros [= <-]; congruence|].
    rewrite lookup_insert_ne by congruence. intros Hcn' Hi'. destruct (H2 c' cn1 l' Hcn' Hi') as (q & Hq' & Hqc). exists q.
    rewrite Hh; [done|]. intros ->. congruence.
Qed.

(** A peer and a connection meet. *)
Lemma co_open h cs l p p' c cn' : conn_ok h cs -> h !! l = Some p -> connection p = None -> connection p' = Some c ->
  (forall cn, cs !! c = Some cn -> peer_info cn = None) ->
  peer_info cn' = Some l -> attached cn' = true -> disconnecting cn' = false -> conn_ok (<[l := p']> h) (<[c := cn']> cs).
Proof.
  intros [H1 H2] Hl Hc Hc' Hcn Hi Ha Hd. split.
  - intros l' q c1. destruct (decide (l' = l)) as [->|Hn].
    + rewrite lookup_insert_eq. intros [= <-]. rewrite Hc'. intros [= <-]. exists cn'. by rewrite lookup_insert_eq.
    + rewrite lookup_insert_ne by congruence. intros Hl' Hq. destruct (H1 l' q c1 Hl' Hq) as (cn1 & Hcn1 & Hi1 & ?). exists cn1.
      rewrite lookup_insert_ne; [done|]. intros ->. apply Hcn in Hcn1. congruence.
  - intros c1 cn1 l'. destruct (decide (c1 = c)) as [->|Hn].
    + rewrite lookup_insert_eq. intros [= <-]. rewrite Hi. intros [= <-]. exists p'. by rewrite lookup_insert_eq.
    + rewrite lookup_insert_ne by congruence. intros Hcn1 Hi1. destruct (H2 c1 cn1 l' Hcn1 Hi1) as (q & Hq & Hqc). exists q.
      rewrite lookup_insert_ne; [done|]. intros ->. congruence.
Qed.
