(* ===== verification/PeerListErase.v ===== *)
(** * Finding and erasing peers

    Binary searches on the addresses, the search of an endpoint, and the
    operations that free peers: [erase_peer] and the loop of [erase_peers]. *)

From Stdlib Require Import ZArith Lia.
From stdpp Require Import base numbers gmap sorting list.
From S2P Require Import Prelude IpFilter IpFilterSpec IpFilterTheorems PeerState PeerList PeerListSpec.

(** ** Binary search *)

(** The search returns [k] when [before] holds of the elements before [k]; [I]
    is what the comparisons keep. *)
Lemma wp_partition_loop before l (I : world -> Prop) k :
  (forall i x w, I w -> zget l i = Some x -> wp (before x) (fun b w' => I w' /\ b = (i <? k)) w) ->
  forall fuel first len w, I w -> 0 <= first -> first + len <= zlen l -> first <= k <= first + len -> 0 <= len < Z.of_nat fuel ->
  wp (partition_loop fuel before l first len) (fun r w' => r = k /\ I w') w.
Proof.
  intros Hb fuel. induction fuel as [|fuel IH]; intros first len w HI Hf Hl Hk Hlen; [lia|]. cbn [partition_loop].
  destruct (Z.leb_spec len 0); [apply wp_ret; split; [lia|done]|].
  assert (Z.shiftr len 1 = len / 2) as Eh by (rewrite Z.shiftr_div_pow2 by lia; done).
  assert (0 <= len / 2 < len) as Hh by zdiv. rewrite Eh.
  destruct (zget_is_Some l (first + len / 2)) as [x Hx]; [lia|]. wstep. apply (wp_lift _ x); [done|]. wstep.
  eapply wp_mono; [by apply Hb|]. intros b w' [HI' ->]. destruct (Z.ltb_spec (first + len / 2) k); apply IH; done || lia.
Qed.

Lemma wp_partition before l (I : world -> Prop) k w : I w -> 0 <= k <= zlen l ->
  (forall i x w, I w -> zget l i = Some x -> wp (before x) (fun b w' => I w' /\ b = (i <? k)) w) ->
  wp (partition_point before l) (fun r w' => r = k /\ I w') w.
Proof. intros HI Hk Hb. apply wp_partition_loop; done || lia. Qed.

Lemma sorted_split (l : list Z) v : StronglySorted Z.le l ->
  exists k, 0 <= k <= zlen l /\ forall i x, zget l i = Some x -> (x <? v) = (i <? k).
Proof.
  induction 1 as [|x l Hs (k & Hk & IH) Hf]; [exists 0; split; [done|]; intros i x Hx; by apply zget_Some_bound in Hx; zlia|].
  destruct (Z.ltb_spec x v) as [Hlt|Hge].
  - exists (1 + k). split; [zlia|]. intros i y Hy. pose proof (zget_Some_bound _ _ _ Hy). destruct (decide (i = 0)) as [->|Hi].
    + rewrite zget_cons_0 in Hy. injection Hy as ->. destruct (Z.ltb_spec y v), (Z.ltb_spec 0 (1 + k)); done || lia.
    + replace i with (i - 1 + 1) in Hy by lia. rewrite zget_cons_S in Hy by lia. rewrite (IH _ _ Hy).
      destruct (Z.ltb_spec (i - 1) k), (Z.ltb_spec i (1 + k)); done || lia.
  - exists 0. split; [zlia|]. intros i y Hy. pose proof (zget_Some_bound _ _ _ Hy).
    assert (x <= y) as Hxy.
    { apply zget_elem in Hy. apply elem_of_cons in Hy as [->|Hy]; [lia|]. by eapply Forall_forall in Hf. }
    destruct (Z.ltb_spec y v), (Z.ltb_spec i 0); done || lia.
Qed.

Lemma zget_map {A B} (f : A -> B) l i : zget (map f l) i = f <$> zget l i.
Proof. unfold zget. case_decide; [|done]. apply list_lookup_fmap. Qed.

Section search.
Context (L : peer_list) (h : gmap nat torrent_peer) (m : bool) (pd : option nat) (Hok : list_ok L h m pd).

(** [i] splits the addresses of the list at [v]: those before it are less. *)
Definition splits (i v : Z) : Prop :=
  0 <= i <= zlen (m_peers L) /\ forall j x, zget (m_peers L) j = Some x -> (addr_value (addr_of h x) <? v) = (j <? i).

Lemma splits_exists v : exists i, splits i v.
Proof.
  destruct (sorted_split _ v (lo_sorted _ _ _ _ Hok)) as (k & Hk & H). rewrite length_map in Hk. exists k. split; [done|].
  intros j x Hx. apply (H j). by rewrite zget_map, Hx.
Qed.

Lemma wp_address_search (before : nat -> M bool) v w (Q : Z -> world -> Prop) : the_list w = L -> heap w = h ->
  (forall l p w, l ∈ m_peers L -> the_list w = L -> heap w = h -> h !! l = Some p ->
     wp (before l) (fun b w' => w' = w /\ b = (addr_value (tp_addr p) <? v)) w) ->
  (forall k, splits k v -> Q k w) -> wp (peers ← list_member m_peers; partition_point before peers) Q w.
Proof.
  intros HL Hh Hb HQ. destruct (splits_exists v) as (k & Hk). wstep. apply wp_gets. rewrite HL.
  eapply wp_mono; [apply (wp_partition before (m_peers L) (fun w' => w' = w) k); [done|apply Hk|]|].
  - intros i x w' -> Hx. destruct (lo_get _ _ _ _ _ _ Hok Hx) as (p & Hp & _). eapply wp_mono; [by apply (Hb x p w); [eapply zget_elem| | |]|].
    intros b w' [-> ->]. split; [done|]. rewrite <- (proj2 Hk i x Hx). unfold addr_of. by rewrite Hp.
  - intros r w' [-> ->]. by apply HQ.
Qed.

Lemma wp_lower_address a w (Q : Z -> world -> Prop) : the_list w = L -> heap w = h -> valid_address a ->
  (forall k, splits k (addr_value a) -> Q k w) -> wp (lower_address a) Q w.
Proof.
  intros HL Hh Ha HQ. apply (wp_address_search _ (addr_value a)); [done..| |done]. intros l p w' Hin _ <- Hp. repeat wstep.
  split; [done|]. destruct (lo_valid _ _ _ _ Hok l Hin) as [Hv _]. unfold addr_of in Hv. rewrite Hp in Hv. by rewrite address_lt_value.
Qed.

Lemma wp_upper_address a w (Q : Z -> world -> Prop) : the_list w = L -> heap w = h -> valid_address a ->
  (forall k, splits k (addr_value a + 1) -> Q k w) -> wp (upper_address a) Q w.
Proof.
  intros HL Hh Ha HQ. apply (wp_address_search _ (addr_value a + 1)); [done..| |done]. intros l p w' Hin _ <- Hp. repeat wstep.
  split; [done|]. destruct (lo_valid _ _ _ _ Hok l Hin) as [Hv _]. unfold addr_of in Hv. rewrite Hp in Hv. rewrite address_lt_value by done.
  destruct (Z.ltb_spec (addr_value a) (addr_value (tp_addr p))), (Z.ltb_spec (addr_value (tp_addr p)) (addr_value a + 1)); done || lia.
Qed.

(** ** Endpoints *)

Definition has_endpoint (ep : endpoint) (j : Z) : Prop :=
  exists l p, zget (m_peers L) j = Some l /\ h !! l = Some p /\ peer_endpoint p = ep.

Lemma wp_find_endpoint ep n i w (Q : option Z -> world -> Prop) : the_list w = L -> heap w = h ->
  0 <= i -> i + Z.of_nat n <= zlen (m_peers L) ->
  (forall j, i <= j < i + Z.of_nat n -> has_endpoint ep j -> Q (Some j) w) ->
  ((forall j, i <= j < i + Z.of_nat n -> ~ has_endpoint ep j) -> Q None w) -> wp (find_endpoint ep i n) Q w.
Proof.
  intros HL Hh. revert i. induction n as [|n IH]; intros i Hi Hn HS HN; cbn [find_endpoint].
  - apply HN. lia.
  - destruct (zget_is_Some (m_peers L) i) as [l Hl]; [lia|]. destruct (lo_get _ _ _ _ _ _ Hok Hl) as (p & Hp & _).
    wstep. apply (wp_peer_at _ l); [by rewrite HL|]. wstep. apply (wp_deref _ p); [by rewrite Hh|]. case_decide as E.
    + apply HS; [lia|]. by exists l, p.
    + apply IH; [lia..| |].
      * intros j Hj. apply HS. lia.
      * intros Hnot. apply HN. intros j Hj. destruct (decide (j = i)) as [->|]; [|apply Hnot; lia].
        intros (l' & p' & Hl' & Hp' & Ep). simplify_eq.
Qed.

(** [i] is a place of the address: what is before is not greater, what is
    after not less. *)
Definition place (i : Z) (a : address) : Prop :=
  0 <= i <= zlen (m_peers L) /\
  forall j x, zget (m_peers L) j = Some x ->
    (j < i -> addr_value (addr_of h x) <= addr_value a) /\ (i <= j -> addr_value a <= addr_value (addr_of h x)).

Lemma splits_lower k a : splits k (addr_value a) -> place k a.
Proof.
  intros [Hk H]. split; [done|]. intros j x Hx. specialize (H j x Hx).
  destruct (Z.ltb_spec (addr_value (addr_of h x)) (addr_value a)), (Z.ltb_spec j k); done || lia.
Qed.

Lemma splits_upper k a : splits k (addr_value a + 1) -> place k a.
Proof.
  intros [Hk H]. split; [done|]. intros j x Hx. specialize (H j x Hx).
  destruct (Z.ltb_spec (addr_value (addr_of h x)) (addr_value a + 1)), (Z.ltb_spec j k); done || lia.
Qed.

Lemma wp_find_remote ep w (Q : option Z * Z -> world -> Prop) : the_list w = L -> heap w = h ->
  valid_address ep.1 -> ep.1 <> any_address ->
  (forall i last, has_endpoint ep i -> Q (Some i, last) w) ->
  (forall last, (forall i, ~ has_endpoint ep i) -> place last ep.1 -> Q (None, last) w) -> wp (find_remote ep) Q w.
Proof.
  intros HL Hh Hv Hz HS HN. unfold find_remote, find_peers. rewrite decide_False by done. wstep. wstep.
  apply wp_lower_address; [done..|]. intros k1 Hk1. wstep. apply wp_upper_address; [done..|]. intros k2 Hk2.
  assert (k1 <= k2) as Hle.
  { destruct Hk1 as [Hb1 H1], Hk2 as [Hb2 H2]. destruct (Z.le_gt_cases k1 k2) as [|Hgt]; [done|]. exfalso.
    destruct (zget_is_Some (m_peers L) k2) as [x Hx]; [lia|]. specialize (H1 _ _ Hx). specialize (H2 _ _ Hx).
    rewrite (proj2 (Z.ltb_lt k2 k1)) in H1 by lia. rewrite Z.ltb_irrefl in H2. lia. }
  wstep. wstep. apply wp_find_endpoint; [done|done|apply Hk1|destruct Hk1, Hk2; lia| |].
  - intros j Hj He. apply wp_ret. by apply HS.
  - intros Hnot. apply wp_ret. apply HN; [|by apply splits_upper]. intros j (l & p & Hl & Hp & Ep). apply (Hnot j); [|by exists l, p].
    rewrite Z2Nat.id by lia. destruct Hk1 as [_ H1], Hk2 as [_ H2]. specialize (H1 _ _ Hl). specialize (H2 _ _ Hl).
    assert (addr_of h l = ep.1) as Ea by (unfold addr_of; rewrite Hp; by rewrite <- Ep). rewrite Ea in H1, H2.
    rewrite Z.ltb_irrefl in H1. rewrite (proj2 (Z.ltb_lt (addr_value ep.1) _)) in H2 by lia.
    destruct (Z.ltb_spec j k1), (Z.ltb_spec j k2); done || lia.
Qed.
End search.

(** ** The counters *)

Lemma wp_update delta w (Q : unit -> world -> Prop) : 0 <= m_num_connect_candidates (the_list w) + delta ->
  Q tt (in_the_list (set_m_num_connect_candidates (m_num_connect_candidates (the_list w) + delta) (the_list w)) w) ->
  wp (update_connect_candidates delta) Q w.
Proof.
  intros Hn HQ. unfold update_connect_candidates. destruct (Z.eqb_spec delta 0) as [->|].
  - wstep. rewrite Z.add_0_r in HQ. by destruct w as [[]].
  - repeat wstep. cbn [the_list in_the_list set_m_num_connect_candidates m_num_connect_candidates].
    rewrite (proj2 (Z.ltb_ge (m_num_connect_candidates (the_list w) + delta) 0)) by lia. by rewrite andb_false_r.
Qed.

Lemma lo_cand_member L h m pd l p : list_ok L h m pd -> l ∈ m_peers L -> h !! l = Some p -> b2z (cand_of L p) <= m_num_connect_candidates L.
Proof.
  intros H Hin Hl. rewrite (lo_cands _ _ _ _ H), <- (counts_lookup _ h l p Hl). apply (zsum_elem (counts (cand_of L) h)); [|done].
  intros y _. apply counts_nonneg.
Qed.

(** A web seed, or a peer outside the list, is never counted. *)
Lemma web_not_candidate f n p : web_seed p = true -> connect_candidate f n p = false.
Proof. intros H. unfold connect_candidate. rewrite H. by rewrite !orb_true_r. Qed.

(** ** [erase_peer] *)

(** The list when its peer [l] at [i] is erased. *)
Record erased_list (i : Z) (l : nat) (L L' : peer_list) : Prop := {
  el_peers : m_peers L' = erase_index i (m_peers L);
  el_locked : m_locked_peer L' = m_locked_peer L;
  el_finished : m_finished L' = m_finished L;
  el_max : m_max_failcount L' = m_max_failcount L;
  el_cache : m_candidate_cache L' = erase_first l (m_candidate_cache L);
  el_rr : m_round_robin L' =
    (let rr := if i <? m_round_robin L then m_round_robin L - 1 else m_round_robin L in if zlen (m_peers L) <=? rr then 0 else rr);
}.

Definition erased_world (l : nat) (L' : peer_list) (w : world) : world :=
  World L' (delete l (heap w)) (conns w) (set_erased (erased (state w) ++ [l]) (state w)) (session_time w) (cleared w).

Lemma wp_erase_peer_at i l p m pd w (Q : unit -> world -> Prop) :
  list_ok (the_list w) (heap w) m pd -> zget (m_peers (the_list w)) i = Some l -> heap w !! l = Some p ->
  (forall L', erased_list i l (the_list w) L' -> list_ok L' (delete l (heap w)) m pd -> Q tt (erased_world l L' w)) ->
  wp (erase_peer_at i) Q w.
Proof.
  intros Hok Hi Hl HQ. pose proof (zget_Some_bound _ _ _ Hi) as Hb. pose proof (lo_rr _ _ _ _ Hok) as Hrr.
  pose proof (lo_cand_member _ _ _ _ _ _ Hok (zget_elem _ _ _ Hi) Hl) as Hc.
  destruct (erase_index_split _ _ _ Hi) as (l1 & l2 & Ep & Hl1 & Ee).
  destruct w as [L h cs st t cl]. cbn [the_list heap conns state session_time cleared] in *. unfold erase_peer_at. wstep. wstep.
  wstep. wstep. wstep. wstep. cbn [the_list heap in_state in_the_list].
  apply wp_bind. apply (wp_mono _ (fun _ w' => w' = World (set_m_num_seeds (m_num_seeds L - b2z (seed p)) L) h cs (set_erased (erased st ++ [l]) st) t cl)).
  { destruct (seed p) eqn:Es; cbn [when b2z]; wstep; [done|]. rewrite Z.sub_0_r. f_equal. unfold set_m_num_seeds.
    rewrite (lo_seeds _ _ _ _ Hok), Zmod_mod, <- (lo_seeds _ _ _ _ Hok). by destruct L. }
  intros [] w' ->. wstep. wstep. cbn [the_list heap set_m_num_seeds m_finished m_max_failcount].
  set (L1 := set_m_num_seeds (m_num_seeds L - b2z (seed p)) L).
  apply wp_bind. apply (wp_mono _ (fun _ w' => w' = World (set_m_num_connect_candidates (m_num_connect_candidates L - b2z (cand_of L p)) L1) h cs (set_erased (erased st ++ [l]) st) t cl)).
  { change (connect_candidate (m_finished L) (m_max_failcount L) p) with (cand_of L p). destruct (cand_of L p); cbn [when b2z] in *.
    - apply wp_update; [cbn; lia|done].
    - wstep. rewrite Z.sub_0_r. by destruct L. }
  intros [] w' ->. wstep. wstep. cbn [the_list set_m_num_connect_candidates m_round_robin L1 set_m_num_seeds].
  set (L2 := set_m_num_connect_candidates (m_num_connect_candidates L - b2z (cand_of L p)) L1).
  apply wp_bind. set (rr1 := if i <? m_round_robin L then m_round_robin L - 1 else m_round_robin L).
  apply (wp_mono _ (fun _ w' => w' = World (set_m_round_robin rr1 L2) h cs (set_erased (erased st ++ [l]) st) t cl)).
  { unfold rr1. destruct (i <? m_round_robin L); cbn [when]; wstep; [done|]. by destruct L. }
  intros [] w' ->. wstep. wstep. wstep. wstep. cbn [the_list set_m_round_robin m_round_robin m_peers L1 L2 set_m_num_seeds set_m_num_connect_candidates].
  apply wp_bind. set (rr2 := if zlen (m_peers L) <=? rr1 then 0 else rr1).
  apply (wp_mono _ (fun _ w' => w' = World (set_m_round_robin rr2 (set_m_round_robin rr1 L2)) h cs (set_erased (erased st ++ [l]) st) t cl)).
  { unfold rr2. destruct (zlen (m_peers L) <=? rr1); cbn [when]; wstep; [done|]. by destruct L. }
  intros [] w' ->. wsteps. apply HQ; [by split|]. eapply (lo_erase L _ h m pd l1 l l2 p); try done.
  unfold rr2, rr1. rewrite Ep in *. autorewrite with zlen in *.
  wsimpl. destruct (Z.ltb_spec i (m_round_robin L)); destruct (Z.leb_spec (zlen l1 + (1 + zlen l2)) (m_round_robin L - 1));
    destruct (Z.leb_spec (zlen l1 + (1 + zlen l2)) (m_round_robin L)); lia.
Qed.

Lemma map_inj {A B} (f : A -> B) l x y : NoDup (map f l) -> x ∈ l -> y ∈ l -> f x = f y -> x = y.
Proof.
  induction l as [|z l IH]; cbn [map]; [set_solver|]. intros [Hz Hl]%NoDup_cons Hx Hy E.
  apply elem_of_cons in Hx as [->|Hx], Hy as [->|Hy]; [done| | |by apply IH].
  - exfalso. apply Hz. rewrite E. by apply list_elem_of_fmap_2.
  - exfalso. apply Hz. rewrite <- E. by apply list_elem_of_fmap_2.
Qed.

Lemma lo_key_inj L h m pd l l' p p' : list_ok L h m pd -> l ∈ m_peers L -> l' ∈ m_peers L -> h !! l = Some p -> h !! l' = Some p' ->
  peer_key m p = peer_key m p' -> l = l'.
Proof.
  intros H Hin Hin' Hl Hl' E. apply (map_inj _ _ _ _ (lo_unique _ _ _ _ H) Hin Hin'). unfold key_of. by rewrite Hl, Hl'.
Qed.

Lemma endpoint_key m p p' : peer_endpoint p = peer_endpoint p' -> peer_key m p = peer_key m p'.
Proof. unfold peer_endpoint, peer_key. intros [= -> Ep]. by rewrite Ep. Qed.

Lemma lo_addr L h m pd l p : list_ok L h m pd -> l ∈ m_peers L -> h !! l = Some p -> valid_address (tp_addr p) /\ tp_addr p <> any_address.
Proof. intros H Hin Hl. pose proof (lo_valid _ _ _ _ H l Hin) as Hv. unfold addr_of in Hv. by rewrite Hl in Hv. Qed.

Lemma wp_erase_peer l p m pd w (Q : unit -> world -> Prop) :
  list_ok (the_list w) (heap w) m pd -> l ∈ m_peers (the_list w) -> heap w !! l = Some p ->
  (forall i L', zget (m_peers (the_list w)) i = Some l -> erased_list i l (the_list w) L' -> list_ok L' (delete l (heap w)) m pd ->
    Q tt (erased_world l L' w)) ->
  wp (erase_peer l) Q w.
Proof.
  intros Hok Hin Hl HQ. destruct (lo_addr _ _ _ _ _ _ Hok Hin Hl) as [Hv Hz]. unfold erase_peer. wsteps.
  apply (wp_find_remote _ _ m pd Hok); [done..| |].
  - intros i last (l' & p' & Hi & Hl' & E). assert (l' = l) as ->.
    { eapply (lo_key_inj _ _ _ _ l' l); [done|by eapply zget_elem|done..|]. by apply endpoint_key. }
    apply (wp_erase_peer_at i l p m pd); [done..|]. intros L'. by apply HQ.
  - intros last Hnot _. exfalso. destruct (elem_zget _ _ Hin) as [i Hi]. apply (Hnot i). by exists l, p.
Qed.

(** ** Weeding *)

(** What operations do that only erase peers: [rem] are the peers erased, all
    without a connection and with the property [P]; the ranks may be cached. *)
Record weeded (P : torrent_peer -> Prop) (rem : list nat) (w w' : world) : Prop := {
  we_rem l : l ∈ rem -> l ∈ m_peers (the_list w) /\ m_locked_peer (the_list w) <> Some l /\
    exists p, heap w !! l = Some p /\ connection p = None /\ P p;
  we_gone l : l ∈ rem -> heap w' !! l = None;
  we_kept l p : l ∉ rem -> heap w !! l = Some p -> exists r, heap w' !! l = Some (with_peer_rank r p);
  we_none l : heap w !! l = None -> heap w' !! l = None;
  we_peers : m_peers (the_list w') = filter (fun l => l ∉ rem) (m_peers (the_list w));
  we_locked : m_locked_peer (the_list w') = m_locked_peer (the_list w);
  we_erased : erased (state w') = erased (state w) ++ rem;
  we_state : fresh_state (state w') = fresh_state (state w);
  we_conns : conns w' = conns w;
  we_time : session_time w' = session_time w;
  we_cleared : cleared w' = cleared w;
}.

Lemma filter_everything {A} (P : A -> Prop) `{!forall x, Decision (P x)} (l : list A) : (forall x, x ∈ l -> P x) -> filter P l = l.
Proof.
  induction l as [|x l IH]; intros Hp; [done|]. rewrite filter_cons_True by (apply Hp; set_solver). f_equal. apply IH. set_solver.
Qed.

Lemma with_peer_rank_id p : with_peer_rank (peer_rank p) p = p.
Proof. by destruct p. Qed.

Lemma weeded_list P L' w : m_peers L' = m_peers (the_list w) -> m_locked_peer L' = m_locked_peer (the_list w) ->
  weeded P [] w (in_the_list L' w).
Proof.
  intros Hp Hl. split; cbn [the_list heap conns state session_time cleared in_the_list]; try done; [set_solver|set_solver|..].
  - intros l p _ H. exists (peer_rank p). by rewrite with_peer_rank_id.
  - rewrite Hp. symmetry. apply filter_everything. intros x _. set_solver.
  - by rewrite app_nil_r.
Qed.

Lemma weeded_refl P w : weeded P [] w w.
Proof. destruct w as [L h cs st t cl]. by apply (weeded_list P L (World L h cs st t cl)). Qed.

Lemma weeded_inv P rem w w' l p' : weeded P rem w w' -> heap w' !! l = Some p' ->
  l ∉ rem /\ exists p r, heap w !! l = Some p /\ p' = with_peer_rank r p.
Proof.
  intros H Hl. assert (l ∉ rem) as Hn by (intros Hin; pose proof (we_gone _ _ _ _ H l Hin); congruence). split; [done|].
  destruct (heap w !! l) as [p|] eqn:E; [|pose proof (we_none _ _ _ _ H l E); congruence].
  destruct (we_kept _ _ _ _ H l p Hn E) as [r Hr]. exists p, r. split; [done|]. congruence.
Qed.

Lemma weeded_trans (P : torrent_peer -> Prop) rem rem' w w1 w' : (forall p r, P (with_peer_rank r p) -> P p) ->
  weeded P rem w w1 -> weeded P rem' w1 w' -> weeded P (rem ++ rem') w w'.
Proof.
  intros HP H1 H2. split.
  - intros l [Hin|Hin]%elem_of_app; [by apply (we_rem _ _ _ _ H1)|].
    destruct (we_rem _ _ _ _ H2 l Hin) as (Hp & Hlk & p1 & Hl1 & Hc & Hpp).
    destruct (weeded_inv _ _ _ _ _ _ H1 Hl1) as (_ & p & r & Hl & ->). rewrite (we_peers _ _ _ _ H1) in Hp.
    rewrite (we_locked _ _ _ _ H1) in Hlk. apply list_elem_of_filter in Hp as [_ Hp]. split; [done|]. split; [done|]. exists p. eauto.
  - intros l [Hin|Hin]%elem_of_app; [by apply (we_none _ _ _ _ H2), (we_gone _ _ _ _ H1)|by apply (we_gone _ _ _ _ H2)].
  - intros l p [Hn1 Hn2]%not_elem_of_app Hl. destruct (we_kept _ _ _ _ H1 l p Hn1 Hl) as [r Hr].
    destruct (we_kept _ _ _ _ H2 l _ Hn2 Hr) as [r' Hr']. by exists r'.
  - intros l Hl. by apply (we_none _ _ _ _ H2), (we_none _ _ _ _ H1).
  - rewrite (we_peers _ _ _ _ H2), (we_peers _ _ _ _ H1), list_filter_filter. apply list_filter_iff. set_solver.
  - by rewrite (we_locked _ _ _ _ H2), (we_locked _ _ _ _ H1).
  - by rewrite (we_erased _ _ _ _ H2), (we_erased _ _ _ _ H1), app_assoc.
  - by rewrite (we_state _ _ _ _ H2), (we_state _ _ _ _ H1).
  - by rewrite (we_conns _ _ _ _ H2), (we_conns _ _ _ _ H1).
  - by rewrite (we_time _ _ _ _ H2), (we_time _ _ _ _ H1).
  - by rewrite (we_cleared _ _ _ _ H2), (we_cleared _ _ _ _ H1).
Qed.

Lemma weeded_weaken (P R : torrent_peer -> Prop) rem w w' : (forall p, P p -> R p) -> weeded P rem w w' -> weeded R rem w w'.
Proof. intros HPR []. split; try done. intros l Hl. destruct (we_rem0 l Hl) as (? & ? & p & ? & ? & ?). eauto 10. Qed.

Lemma weeded_conns P rem w w' : weeded P rem w w' -> conn_ok (heap w) (conns w) -> conn_ok (heap w') (conns w').
Proof.
  intros H [H1 H2]. rewrite (we_conns _ _ _ _ H). split.
  - intros l p' c Hl Hc. destruct (weeded_inv _ _ _ _ _ _ H Hl) as (_ & p & r & Hp & ->). by apply (H1 l p).
  - intros c cn l Hcn Hi. destruct (H2 c cn l Hcn Hi) as (p & Hp & Hc). destruct (decide (l ∈ rem)) as [Hin|Hn].
    + destruct (we_rem _ _ _ _ H l Hin) as (_ & _ & q & Hq & Hqc & _). congruence.
    + destruct (we_kept _ _ _ _ H l p Hn Hp) as [r Hr]. by eexists.
Qed.

(** Erasing one peer weeds it. *)
Lemma filter_erase i l (ls : list nat) : NoDup ls -> zget ls i = Some l -> erase_index i ls = filter (fun x => x ∉ [l]) ls.
Proof.
  intros Hnd Hi. destruct (erase_index_split _ _ _ Hi) as (l1 & l2 & -> & _ & ->). rewrite <- Permutation_middle in Hnd.
  apply NoDup_cons in Hnd as [Hn _]. rewrite filter_app, filter_cons_False by set_solver.
  rewrite !filter_everything; [done|..]; intros x Hx; apply not_elem_of_cons; split; set_solver.
Qed.

Lemma weeded_one (P : torrent_peer -> Prop) i l p L' w m pd : list_ok (the_list w) (heap w) m pd -> zget (m_peers (the_list w)) i = Some l ->
  heap w !! l = Some p -> connection p = None -> m_locked_peer (the_list w) <> Some l -> P p -> erased_list i l (the_list w) L' ->
  weeded P [l] w (erased_world l L' w).
Proof.
  intros Hok Hi Hl Hc Hlk HP He. split; unfold erased_world; cbn [the_list heap conns state session_time cleared]; try done.
  - intros x ->%list_elem_of_singleton. split; [by eapply zget_elem|]. split; [done|]. eauto.
  - intros x ->%list_elem_of_singleton. apply lookup_delete_eq.
  - intros x q Hx Hq. exists (peer_rank q). rewrite with_peer_rank_id, lookup_delete_ne; [done|]. set_solver.
  - intros x Hx. apply lookup_delete_None. by right.
  - rewrite (el_peers _ _ _ _ He). eapply filter_erase; [by eapply lo_nodup|done].
  - apply (el_locked _ _ _ _ He).
Qed.

(** ** Counting the candidates again *)

Lemma wp_count_candidates peers h f mx w (Q : Z -> world -> Prop) : heap w = h -> m_finished (the_list w) = f -> m_max_failcount (the_list w) = mx ->
  (forall l, l ∈ peers -> is_Some (h !! l)) -> Q (zsum (counts (connect_candidate f mx) h) peers) w -> wp (count_candidates peers) Q w.
Proof.
  intros Hh Hf Hm. revert Q. induction peers as [|l peers IH]; intros Q Hlive HQ; cbn [count_candidates]; [by wstep|].
  destruct (Hlive l) as [p Hp]; [set_solver|]. wstep. apply (wp_candidate _ p); [by rewrite Hh|]. wstep.
  apply IH; [intros x Hx; apply Hlive; set_solver|]. wstep. cbn [zsum] in HQ. rewrite (counts_lookup _ h l p Hp) in HQ. by rewrite Hf, Hm.
Qed.

(** The list after [recalculate_connect_candidates]. *)
Record recounted (st : torrent_state) (L L' : peer_list) : Prop := {
  rc_peers : m_peers L' = m_peers L;
  rc_locked : m_locked_peer L' = m_locked_peer L;
  rc_rr : m_round_robin L' = m_round_robin L;
  rc_cache : m_candidate_cache L' = m_candidate_cache L;
  rc_finished : m_finished L' = is_finished st;
}.

Lemma wp_recalculate m pd w (Q : unit -> world -> Prop) : list_ok (the_list w) (heap w) m pd ->
  (forall L', recounted (state w) (the_list w) L' -> m_max_failcount L' = max_failcount (state w) -> list_ok L' (heap w) m pd -> Q tt (in_the_list L' w)) ->
  wp recalculate_connect_candidates Q w.
Proof.
  intros Hok HQ. destruct w as [L h cs st t cl]. wsimpl in Hok. wsimpl in HQ. unfold recalculate_connect_candidates. wsteps.
  apply (wp_count_candidates _ h (is_finished st) (max_failcount st)); [done..|apply (lo_live _ _ _ _ Hok)|].
  wsteps. apply HQ; [by split|done|]. destruct Hok. split; wsimpl; done.
Qed.

Lemma wp_refresh m pd w (Q : unit -> world -> Prop) : list_ok (the_list w) (heap w) m pd ->
  (forall L', recounted (state w) (the_list w) L' -> list_ok L' (heap w) m pd -> Q tt (in_the_list L' w)) -> wp refresh_finished Q w.
Proof.
  intros Hok HQ. unfold refresh_finished. wsteps. apply wp_when; intros E.
  - apply (wp_recalculate m pd); [done|]. intros L' Hr _ HL'. by apply HQ.
  - apply negb_false_iff, eqb_prop in E. specialize (HQ (the_list w)). destruct w as [L h cs st t cl]. apply HQ; [by split|done].
Qed.

(** ** The loop of [erase_peers] *)

(** What [is_erase_candidate] asks of a peer that is not locked. *)
Definition erasable (f : bool) (mx : Z) (p : torrent_peer) : Prop :=
  connect_candidate f mx p = false /\ (0 < failcount p \/ source p = src_resume_data).

Lemma erasable_rank f mx p r : erasable f mx (with_peer_rank r p) -> erasable f mx p.
Proof. done. Qed.

(** A position the loop has been at: [u] peers from [cur] on are left. *)
Definition visited (n cur u i : Z) : Prop := (cur <= i -> cur + u <= i) /\ (i < cur -> cur + u <= i + n).

(** [e] is no peer, or one that was visited and can be erased. *)
Definition best_at (P : torrent_peer -> Prop) (w : world) (cur u e : Z) : Prop :=
  e = -1 \/ 0 <= e < zlen (m_peers (the_list w)) /\ visited (zlen (m_peers (the_list w))) cur u e /\
    exists l p, zget (m_peers (the_list w)) e = Some l /\ heap w !! l = Some p /\ connection p = None /\
      m_locked_peer (the_list w) <> Some l /\ P p.

Lemma best_next P w cur u e : 0 <= cur < zlen (m_peers (the_list w)) -> u <= zlen (m_peers (the_list w)) -> best_at P w cur u e ->
  best_at P w (cur + 1) (u - 1) e.
Proof. intros Hc Hu [->|(Hb & [H1 H2] & He)]; [by left|]. right. split; [done|]. split; [split; lia|done]. Qed.

Lemma best_wrap P w cur u e : cur = zlen (m_peers (the_list w)) -> best_at P w cur u e -> best_at P w 0 u e.
Proof. intros Hc [->|(Hb & [H1 H2] & He)]; [by left|]. right. split; [done|]. split; [split; lia|done]. Qed.

Lemma zget_erase {A} i (l : list A) j : 0 <= i < zlen l -> zget (erase_index i l) j = if decide (j < i) then zget l j else zget l (j + 1).
Proof.
  intros Hi. destruct (zget_is_Some l i Hi) as [x Hx]. destruct (erase_index_split _ _ _ Hx) as (l1 & l2 & -> & E & ->). subst i.
  case_decide; [by rewrite !zget_app_l by lia|]. rewrite !zget_app_r by lia.
  replace (j + 1 - zlen l1) with (j - zlen l1 + 1) by lia. by rewrite zget_cons_S by lia.
Qed.

Lemma zget_inj {A} (l : list A) i j x : NoDup l -> zget l i = Some x -> zget l j = Some x -> i = j.
Proof.
  intros Hnd Hi Hj. pose proof (zget_Some_bound _ _ _ Hi). pose proof (zget_Some_bound _ _ _ Hj). unfold zget in Hi, Hj.
  rewrite decide_True in Hi by lia. rewrite decide_True in Hj by lia. pose proof (NoDup_lookup _ _ _ _ Hnd Hi Hj). lia.
Qed.

Lemma zlen_erase {A} i (l : list A) : 0 <= i < zlen l -> zlen (erase_index i l) = zlen l - 1.
Proof.
  intros Hi. destruct (zget_is_Some l i Hi) as [x Hx]. destruct (erase_index_split _ _ _ Hx) as (l1 & l2 & -> & E & ->). zlia.
Qed.

Lemma best_erase P w cur u e l L' m pd : list_ok (the_list w) (heap w) m pd -> zget (m_peers (the_list w)) cur = Some l ->
  0 < u <= zlen (m_peers (the_list w)) -> erased_list cur l (the_list w) L' -> best_at P w cur u e ->
  best_at P (erased_world l L' w) cur (u - 1) (if cur <? e then e - 1 else e).
Proof.
  intros Hok Hl Hu He Hb. pose proof (zget_Some_bound _ _ _ Hl) as Hc. destruct Hb as [->|(Hb & [H1 H2] & le & p & Hle & Hp & Hpc & Hlk & HP)].
  { left. destruct (Z.ltb_spec cur (-1)); lia. }
  right. unfold erased_world; cbn [the_list heap]. rewrite (el_peers _ _ _ _ He), zlen_erase, zget_erase, (el_locked _ _ _ _ He) by done.
  assert (le <> l) as Hne.
  { intros ->. assert (e = cur) as ->; [|lia]. by apply (zget_inj _ _ _ l (lo_nodup _ _ _ _ Hok)). }
  split; [destruct (Z.ltb_spec cur e); lia|]. split; [destruct (Z.ltb_spec cur e); split; lia|]. exists le, p.
  rewrite lookup_delete_ne by congruence. split; [|done]. destruct (Z.ltb_spec cur e); case_decide; try lia; [|done].
  by replace (e - 1 + 1) with e by lia.
Qed.

Lemma wp_replaces best l p w (Q : bool -> world -> Prop) : heap w !! l = Some p ->
  (best = -1 \/ exists lb pb, zget (m_peers (the_list w)) best = Some lb /\ heap w !! lb = Some pb) ->
  (forall b, (best = -1 -> b = true) -> Q b w) -> wp (replaces best l) Q w.
Proof.
  intros Hp Hb HQ. unfold replaces. destruct (Z.eqb_spec best (-1)) as [E|E]; [wstep; auto|].
  destruct Hb as [?|(lb & pb & Hlb & Hpb)]; [done|]. unfold compare_peer_erase. wsteps. by apply HQ.
Qed.

Lemma best_replaces P w cur u e : best_at P w cur u e ->
  e = -1 \/ exists lb pb, zget (m_peers (the_list w)) e = Some lb /\ heap w !! lb = Some pb.
Proof. intros [->|(_ & _ & lb & pb & ? & ? & _)]; [by left|right; by exists lb, pb]. Qed.

Lemma best_here (P : torrent_peer -> Prop) w cur u l p : zget (m_peers (the_list w)) cur = Some l -> u <= zlen (m_peers (the_list w)) ->
  heap w !! l = Some p -> connection p = None -> m_locked_peer (the_list w) <> Some l -> P p -> best_at P w (cur + 1) (u - 1) cur.
Proof.
  intros Hl Hu Hp Hc Hlk HP. pose proof (zget_Some_bound _ _ _ Hl). right. split; [done|]. split; [split; lia|]. by exists l, p.
Qed.

Lemma wp_is_erase_candidate l p w (Q : bool -> world -> Prop) : heap w !! l = Some p ->
  (forall b, (b = true -> m_locked_peer (the_list w) <> Some l /\ connection p = None /\
     erasable (m_finished (the_list w)) (m_max_failcount (the_list w)) p) -> Q b w) -> wp (is_erase_candidate l) Q w.
Proof.
  intros Hl HQ. unfold is_erase_candidate. wsteps. apply HQ. intros Hb. unfold erasable.
  repeat (apply andb_true_iff in Hb as [Hb ?]). rewrite negb_true_iff, bool_decide_eq_false in Hb. repeat split; try done.
  - by eapply bool_decide_eq_true.
  - by apply negb_true_iff.
  - match goal with H : _ || _ = true |- _ => apply orb_true_iff in H as [?%Z.ltb_lt|?%Z.eqb_eq] end; auto.
Qed.

Lemma wp_is_force_erase_candidate l p w (Q : bool -> world -> Prop) : heap w !! l = Some p ->
  (forall b, (b = true <-> m_locked_peer (the_list w) <> Some l /\ connection p = None) -> Q b w) -> wp (is_force_erase_candidate l) Q w.
Proof.
  intros Hl HQ. unfold is_force_erase_candidate. wsteps. apply HQ. rewrite andb_true_iff, negb_true_iff, bool_decide_eq_false, bool_decide_eq_true. done.
Qed.

Lemma wp_should_erase l p w (Q : bool -> world -> Prop) : heap w !! l = Some p -> (forall b, Q b w) -> wp (should_erase_immediately l) Q w.
Proof. intros Hl HQ. unfold should_erase_immediately. wsteps. apply HQ. Qed.

(** A test that is only made when another holds. *)
Lemma wp_guarded (b : bool) (m : M bool) (Q : bool -> world -> Prop) w :
  (b = true -> wp m Q w) -> (b = false -> Q false w) -> wp (if b then m else mret false) Q w.
Proof. destruct b; intros H1 H2; [by apply H1|by apply H2]. Qed.

(** The state of the loop: [rem] are the peers erased since [w0], [u] those
    that are left to visit. *)
Record loop_inv (f : bool) (mx : Z) (m : bool) (pd : option nat) (w0 : world) (rem : list nat) (w : world) (cur u e fe : Z) : Prop := {
  li_ok : list_ok (the_list w) (heap w) m pd;
  li_weeded : weeded (erasable f mx) rem w0 w;
  li_finished : m_finished (the_list w) = f;
  li_max : m_max_failcount (the_list w) = mx;
  li_cur : 0 <= cur <= zlen (m_peers (the_list w));
  li_left : 0 <= u <= zlen (m_peers (the_list w));
  li_e : best_at (erasable f mx) w cur u e;
  li_f : best_at (fun _ => True) w cur u fe;
  li_none : fe = -1 -> rem = [] -> forall i l p, visited (zlen (m_peers (the_list w))) cur u i ->
    zget (m_peers (the_list w)) i = Some l -> heap w !! l = Some p -> connection p = None -> m_locked_peer (the_list w) = Some l;
}.

Lemma li_wrap f mx m pd w0 rem w cur u e fe : loop_inv f mx m pd w0 rem w cur u e fe ->
  loop_inv f mx m pd w0 rem w (if cur =? zlen (m_peers (the_list w)) then 0 else cur) u e fe.
Proof.
  intros [Ho Hw Hf Hm Hc Hl He Hfe Hn]. destruct (Z.eqb_spec cur (zlen (m_peers (the_list w)))) as [E|E]; [|by split].
  split; try done; [lia|by eapply best_wrap|by eapply best_wrap|]. intros H1 H2 i l p [Hv1 Hv2] Hi. pose proof (zget_Some_bound _ _ _ Hi).
  apply (Hn H1 H2 i l p); [split; lia|done].
Qed.

Lemma erase_iteration_spec f mx m pd w0 rem w cur u e fe : loop_inv f mx m pd w0 rem w cur u e fe ->
  cur < zlen (m_peers (the_list w)) -> 0 < u ->
  wp (erase_iteration cur e fe) (fun '(cur', e', fe') w' => exists rem', loop_inv f mx m pd w0 rem' w' cur' (u - 1) e' fe') w.
Proof.
  intros [Ho Hw Hf Hm Hc Hl He Hfe Hn] Hcur Hu. destruct (zget_is_Some (m_peers (the_list w)) cur) as [l Hi]; [lia|].
  destruct (lo_get _ _ _ _ _ _ Ho Hi) as (p & Hp & _). unfold erase_iteration. wstep. wstep. wstep.
  apply (wp_is_erase_candidate l p); [done|]. intros b Hb. rewrite Hf, Hm in Hb. wstep.
  apply (wp_mono _ (fun b' w' => w' = w /\ (b' = true -> b = true))).
  { apply wp_guarded; intros E; [|by split]. apply (wp_replaces e l p); [done|by eapply best_replaces|]. by intros b' _. }
  intros b' w' [-> Hb']. wstep. apply (wp_mono _ (fun b'' w' => w' = w /\ (b'' = true -> b' = true))).
  { apply wp_guarded; intros E; [|by split]. by apply (wp_should_erase l p). }
  intros imm w' [-> Himm]. destruct imm.
  - destruct (Hb (Hb' (Himm eq_refl))) as (Hlk & Hpc & Her). wstep. apply (wp_erase_peer_at cur l p m pd); [done..|].
    intros L' Hel HL'. wsteps. exists (rem ++ [l]).
    pose proof (weeded_one (erasable f mx) cur l p L' w m pd Ho Hi Hp Hpc Hlk Her Hel) as Hwo.
    split; unfold erased_world in *; cbn [the_list heap] in *; try done.
    + eapply weeded_trans; [apply erasable_rank|done|done].
    + by rewrite (el_finished _ _ _ _ Hel).
    + by rewrite (el_max _ _ _ _ Hel).
    + rewrite (el_peers _ _ _ _ Hel), zlen_erase by lia. lia.
    + rewrite (el_peers _ _ _ _ Hel), zlen_erase by lia. lia.
    + eapply (best_erase _ w); [done..|lia|done|done].
    + eapply (best_erase _ w); [done..|lia|done|done].
    + intros _ Hr. by apply app_eq_nil in Hr as [_ ?].
  - wstep. apply (wp_is_force_erase_candidate l p); [done|]. intros b2 Hb2. wstep.
    apply (wp_mono _ (fun b' w' => w' = w /\ (b' = true -> b2 = true) /\ (b2 = true -> fe = -1 -> b' = true))).
    { apply wp_guarded; intros E; [|split; [done|]; split; [done|congruence]]. apply (wp_replaces fe l p); [done|by eapply best_replaces|].
      intros b3 Hb3. split; [done|]. split; [done|auto]. }
    intros b3 w' (-> & Hb3 & Hb3'). wsteps. exists rem. split; try done; [lia|lia| | |].
    + destruct b'; [|apply best_next; [lia|lia|done]]. destruct (Hb (Hb' eq_refl)) as (Hlk & Hpc & Her). eapply (best_here _ w cur u l p); [done|lia|done..].
    + destruct b3; [|apply best_next; [lia|lia|done]]. destruct (proj1 Hb2 (Hb3 eq_refl)) as [Hlk Hpc]. eapply (best_here _ w cur u l p); [done|lia|done..].
    + intros Hfe1 Hr i l' p' [Hv1 Hv2] Hi' Hp' Hc'. pose proof (zget_Some_bound _ _ _ Hi').
      destruct b3; [lia|]. destruct (decide (i = cur)) as [->|Hne]; [|apply (Hn Hfe1 Hr i l' p'); [split; lia|done..]].
      simplify_eq. destruct (decide (m_locked_peer (the_list w) = Some l)) as [?|Hlk]; [done|].
      by specialize (Hb3' (proj2 Hb2 (conj Hlk Hc')) eq_refl).
Qed.

Lemma erase_loop_spec f mx m pd w0 low n : forall rem w cur u e fe, loop_inv f mx m pd w0 rem w cur u e fe -> Z.of_nat n <= u ->
  wp (erase_loop n low cur e fe) (fun '(e', fe') w' => exists rem' cur' u', loop_inv f mx m pd w0 rem' w' cur' u' e' fe' /\
    (u' = u - Z.of_nat n \/ zlen (m_peers (the_list w')) < low)) w.
Proof.
  induction n as [|n IH]; intros rem w cur u e fe Hli Hn; cbn [erase_loop].
  - wstep. exists rem, cur, u. split; [done|left; lia].
  - wsteps. destruct (Z.ltb_spec (zlen (m_peers (the_list w))) low) as [Hlow|Hlow]; [wstep; exists rem, cur, u; split; [done|by right]|].
    wstep. pose proof (li_left _ _ _ _ _ _ _ _ _ _ _ Hli). pose proof (li_cur _ _ _ _ _ _ _ _ _ _ _ Hli).
    eapply wp_mono; [eapply erase_iteration_spec; [by apply li_wrap| |lia]|].
    { destruct (Z.eqb_spec cur (zlen (m_peers (the_list w)))); lia. }
    intros [[cur' e'] fe'] w' (rem' & Hli'). eapply wp_mono; [apply (IH rem' w' cur' (u - 1)); [done|lia]|].
    intros [e2 fe2] w2 (rem2 & cur2 & u2 & H2 & Hu2). exists rem2, cur2, u2. split; [done|]. destruct Hu2; [left; lia|by right].
Qed.

(** ** [erase_peers] *)

(** What a peer is that [erase_peers] erases: one that is no candidate, or with
    [force_erase] any without a connection. *)
Definition weedable (force : bool) (L : peer_list) (p : torrent_peer) : Prop :=
  force = true \/ erasable (m_finished L) (m_max_failcount L) p.

Lemma weedable_rank force L p r : weedable force L (with_peer_rank r p) -> weedable force L p.
Proof. done. Qed.

(** Erasing the peer a loop has chosen. *)
Lemma best_erased (P R : torrent_peer -> Prop) m pd w0 rem w cur u e : list_ok (the_list w) (heap w) m pd -> weeded R rem w0 w ->
  best_at P w cur u e -> e <> -1 -> (forall p, P p -> R p) -> (forall p r, R (with_peer_rank r p) -> R p) ->
  wp (erase_peer_at e) (fun _ w' => exists l, weeded R (rem ++ [l]) w0 w' /\ list_ok (the_list w') (heap w') m pd /\
    m_finished (the_list w') = m_finished (the_list w) /\ m_max_failcount (the_list w') = m_max_failcount (the_list w) /\
    erased_list e l (the_list w) (the_list w') /\ w' = erased_world l (the_list w') w /\ zget (m_peers (the_list w)) e = Some l /\
    exists p, heap w !! l = Some p /\ P p) w.
Proof.
  intros Ho Hw [->|(Hb & _ & l & p & Hi & Hp & Hc & Hlk & HP)] He HPR HR; [done|].
  apply (wp_erase_peer_at e l p m pd); [done..|]. intros L' Hel HL'. exists l.
  split; [|split_and!; [done|apply (el_finished _ _ _ _ Hel)|apply (el_max _ _ _ _ Hel)|done|done|done|by exists p]].
  eapply weeded_trans; [done|done|]. by eapply (weeded_one R e l p L' w m pd); auto.
Qed.

Lemma weeded_none P w w' : weeded P [] w w' -> m_peers (the_list w') = m_peers (the_list w).
Proof. intros H. rewrite (we_peers _ _ _ _ H). apply filter_everything. set_solver. Qed.

(** Nothing was erased, nor chosen: no peer that was visited is without a
    connection. *)
Lemma loop_done f mx m pd w w' cur u e l p : loop_inv f mx m pd w [] w' cur u e (-1) -> u <= 0 ->
  l ∈ m_peers (the_list w) -> heap w !! l = Some p -> connection p = None -> m_locked_peer (the_list w) = Some l.
Proof.
  intros Hli Hu Hin Hp Hc. pose proof (li_weeded _ _ _ _ _ _ _ _ _ _ _ Hli) as Hw. pose proof (li_cur _ _ _ _ _ _ _ _ _ _ _ Hli).
  pose proof (weeded_none _ _ _ Hw) as Ep. destruct (elem_zget _ _ Hin) as [i Hi]. pose proof (zget_Some_bound _ _ _ Hi).
  destruct (we_kept _ _ _ _ Hw l p) as [r Hr]; [set_solver|done|]. rewrite <- (we_locked _ _ _ _ Hw).
  eapply (li_none _ _ _ _ _ _ _ _ _ _ _ Hli eq_refl eq_refl i l); [|by rewrite Ep|done|done]. rewrite Ep in *. split; lia.
Qed.

Lemma low_less max_size : 0 < max_size ->
  (if Z.quot (max_size * 95) 100 =? max_size then Z.quot (max_size * 95) 100 - 1 else Z.quot (max_size * 95) 100) < max_size.
Proof.
  intros H. destruct (Z.eqb_spec (Z.quot (max_size * 95) 100) max_size); [lia|].
  pose proof (Z.quot_le_upper_bound (max_size * 95) 100 max_size). lia.
Qed.

Lemma wp_erase_peers rnd force m pd w (Q : unit -> world -> Prop) :
  list_ok (the_list w) (heap w) m pd -> - 2 ^ 31 <= max_peerlist_size (state w) * 95 < 2 ^ 31 ->
  (forall rem w', weeded (weedable force (the_list w')) rem w w' -> list_ok (the_list w') (heap w') m pd ->
     (force = true -> 0 < max_peerlist_size (state w) <= zlen (m_peers (the_list w)) -> zlen (m_peers (the_list w)) <= 300 ->
      (exists l p, l ∈ m_peers (the_list w) /\ heap w !! l = Some p /\ connection p = None /\ m_locked_peer (the_list w) <> Some l) ->
      rem <> []) -> Q tt w') ->
  wp (erase_peers rnd force) Q w.
Proof.
  intros Ho Hmul HQ. unfold erase_peers. wsteps. case_match eqn:E0.
  { wstep. apply (HQ [] w); [apply weeded_refl|done|]. intros _ Hmax _ (l & p & Hl & _). apply orb_true_iff in E0 as [E%Z.eqb_eq|E%Z.eqb_eq]; lia. }
  apply orb_false_iff in E0 as [Emax%Z.eqb_neq En%Z.eqb_neq]. wstep. apply (wp_refresh m pd); [done|].
  intros L1 Hr HL1. wstep. apply wp_int; [done|]. wstep. set (w1 := in_the_list L1 w).
  assert (m_peers (the_list w1) = m_peers (the_list w)) as Ep by apply (rc_peers _ _ _ Hr).
  assert (weeded (erasable (m_finished L1) (m_max_failcount L1)) [] w w1) as Hw1 by (apply weeded_list; [apply (rc_peers _ _ _ Hr)|apply (rc_locked _ _ _ Hr)]).
  set (low := if _ =? _ then _ else _). set (n := zlen (m_peers (the_list w))) in *.
  assert (0 <= u32 rnd mod n < n) as Hrr by (apply Z.mod_pos_bound; lia).
  eapply wp_mono; [apply (erase_loop_spec (m_finished L1) (m_max_failcount L1) m pd w low (Z.to_nat (Z.min n 300)) [] w1 _ n (-1) (-1))|].
  { split; try done; [by rewrite Ep; fold n; lia|rewrite Ep; fold n; lia|by left|by left|].
    intros _ _ i l p [Hv1 Hv2] Hi. rewrite Ep in *. pose proof (zget_Some_bound _ _ _ Hi). fold n in Hv1, Hv2. lia. }
  { lia. }
  intros [e fe] w2 (rem & cur & u & Hli & Hu). pose proof (li_ok _ _ _ _ _ _ _ _ _ _ _ Hli) as Ho2.
  pose proof (li_weeded _ _ _ _ _ _ _ _ _ _ _ Hli) as Hw2. pose proof (li_finished _ _ _ _ _ _ _ _ _ _ _ Hli) as Ef2.
  pose proof (li_max _ _ _ _ _ _ _ _ _ _ _ Hli) as Em2.
  assert (forall w3, m_finished (the_list w3) = m_finished (the_list w2) -> m_max_failcount (the_list w3) = m_max_failcount (the_list w2) ->
    forall p, erasable (m_finished L1) (m_max_failcount L1) p -> weedable force (the_list w3) p) as Hwk.
  { intros w3 E3 E4 p Hp. right. rewrite E3, E4. by rewrite Ef2, Em2. }
  destruct (Z.ltb_spec (-1) e) as [He|He].
  - eapply wp_mono; [eapply (best_erased _ (erasable (m_finished L1) (m_max_failcount L1)) m pd w rem w2); [done|done|apply (li_e _ _ _ _ _ _ _ _ _ _ _ Hli)|lia|done|done]|].
    intros [] w3 (l & Hw3 & Ho3 & E3 & E4 & _). apply (HQ (rem ++ [l])); [by eapply weeded_weaken; [by apply Hwk|]|done|].
    intros _ _ _ _ Hnil. by apply app_eq_nil in Hnil as [_ ?].
  - assert (e = -1) as ->. { destruct (li_e _ _ _ _ _ _ _ _ _ _ _ Hli) as [?|[? _]]; lia. }
    apply wp_when; [intros [Ef Hf%Z.ltb_lt]%andb_true_iff|intros Hff%andb_false_iff].
    + eapply wp_mono; [eapply (best_erased (fun _ => True) (fun _ => True) m pd w rem w2); [done|by eapply weeded_weaken; [|done]|apply (li_f _ _ _ _ _ _ _ _ _ _ _ Hli)|lia|done|done]|].
      intros [] w3 (l & Hw3 & Ho3 & _). apply (HQ (rem ++ [l])); [eapply weeded_weaken; [|done]; intros p _; by left|done|].
      intros _ _ _ _ Hnil. by apply app_eq_nil in Hnil as [_ ?].
    + apply (HQ rem); [by eapply weeded_weaken; [by apply Hwk|]|done|]. intros -> Hmax H300 (l & p & Hin & Hp & Hc & Hlk) ->.
      destruct Hff as [?|Hff%Z.ltb_ge]; [done|]. assert (fe = -1) as ->. { destruct (li_f _ _ _ _ _ _ _ _ _ _ _ Hli) as [?|[? _]]; lia. }
      apply Hlk. apply (loop_done _ _ _ _ _ _ _ _ _ l p Hli); [|done..].
      destruct Hu as [Hu|Hu]; [lia|]. rewrite (weeded_none _ _ _ Hw2) in Hu. fold n in Hu. pose proof (low_less (max_peerlist_size (state w))). lia.
Qed.
