(* ===== verification/PeerListOps.v ===== *)
(** * The operations on peers and connections

    What each operation does to a peer, a connection and the list, and that it
    keeps [inv], the invariant.  A connection that closes calls back into the
    list and may free its peer; [closing] has the outcomes. *)

From Stdlib Require Import ZArith Lia.
From stdpp Require Import base numbers gmap sorting list.
From S2P Require Import Prelude IpFilter IpFilterSpec IpFilterTheorems PeerState PeerList PeerListSpec PeerListErase.

(** ** The invariant *)

Definition multiple (w : world) : bool := allow_multiple_connections_per_ip (state w).

(** The members of a peer fit their widths. *)
Record fits (p : torrent_peer) : Prop := {
  fit_upload : 0 <= prev_amount_upload p < 2 ^ 32;
  fit_download : 0 <= prev_amount_download p < 2 ^ 32;
  fit_connected : 0 <= last_connected p < 2 ^ 16;
  fit_port : 0 <= port p < 2 ^ 16;
  fit_failcount : 0 <= failcount p < 2 ^ 5;
  fit_source : 0 <= source p < 2 ^ 6;
}.

Record inv (w : world) : Prop := {
  inv_list : list_ok (the_list w) (heap w) (multiple w) None;
  inv_conns : conn_ok (heap w) (conns w);
  inv_fits l p : heap w !! l = Some p -> fits p;
}.

Lemma fits_assign p :
  fits p -> (forall x, fits (with_prev_amount_upload x p)) /\ (forall x, fits (with_prev_amount_download x p)) /\
  (forall x, fits (with_last_connected x p)) /\ (forall x, fits (with_port x p)) /\ (forall x, fits (with_failcount x p)) /\
  (forall x, fits (with_source x p)).
Proof.
  intros []. split_and!; intros x; split; try done; cbn; try (unfold u32); apply Z.mod_pos_bound; lia.
Qed.

Lemma fits_insert (h : gmap nat torrent_peer) l p : (forall l p, h !! l = Some p -> fits p) -> fits p -> forall l' p', <[l := p]> h !! l' = Some p' -> fits p'.
Proof. intros H Hp l' p' [[_ <-]|[_ H']]%lookup_insert_Some; eauto. Qed.

(** ** A change of one peer *)

(** The peer at [l] is [p'] now, and of the list only counters changed. *)
Definition changed (l : nat) (p' : torrent_peer) (w w' : world) : Prop :=
  exists L', w' = in_heap (<[l := p']> (heap w)) (in_the_list L' w) /\ same_members (the_list w) L' /\ m_locked_peer L' = m_locked_peer (the_list w).

Section change.
Context (L : peer_list) (h : gmap nat torrent_peer) (m : bool) (Hok : list_ok L h m None).
Context (l : nat) (p : torrent_peer) (Hl : h !! l = Some p).

Lemma web_or_member : web_seed p = true /\ l ∉ m_peers L \/ web_seed p = false /\ l ∈ m_peers L.
Proof. pose proof (lo_all _ _ _ _ Hok l p Hl) as H. destruct (web_seed p); [left|right]; naive_solver. Qed.

Lemma cand_room : b2z (cand_of L p) <= m_num_connect_candidates L.
Proof.
  destruct web_or_member as [[Hw _]|[_ Hin]]; [|by eapply lo_cand_member].
  unfold cand_of. rewrite web_not_candidate by done. pose proof (lo_cands_nonneg _ _ _ _ Hok). simpl. lia.
Qed.

Context (p' : torrent_peer) (Haddr : tp_addr p' = tp_addr p) (Hweb : web_seed p' = web_seed p) (Hcon : web_seed p = true -> connectable p' = true).
Context (Hkey : peer_key m p' = peer_key m p \/ forall l', l' ∈ m_peers L -> l' <> l -> key_of m h l' <> peer_key m p').

(** The counters follow. *)
Lemma lo_changed L' : same_members L L' ->
  m_num_connect_candidates L' = m_num_connect_candidates L + (b2z (cand_of L p') - b2z (cand_of L p)) ->
  m_num_seeds L' = (m_num_seeds L + (if web_seed p then 0 else b2z (seed p') - b2z (seed p))) mod 2 ^ 31 ->
  list_ok L' (<[l := p']> h) m None.
Proof.
  intros Hs Hc Hse. apply (lo_change L L' h m None l p p'); try done.
  - rewrite Hc. destruct web_or_member as [[Hw Hn]|[Hw Hin]]; [|by rewrite decide_True]. rewrite decide_False by done.
    unfold cand_of. rewrite !web_not_candidate by congruence. simpl. lia.
  - rewrite Hse. destruct web_or_member as [[Hw Hn]|[Hw Hin]]; rewrite Hw; [by rewrite decide_False|by rewrite decide_True].
Qed.

(** Neither counter does. *)
Lemma lo_unchanged : cand_of L p' = cand_of L p -> seed p' = seed p -> list_ok L (<[l := p']> h) m None.
Proof.
  intros Hc Hs. apply lo_changed; [done|rewrite Hc; lia|]. rewrite Hs, Z.sub_diag.
  replace (if web_seed p then 0 else 0) with 0 by (by destruct (web_seed p)). rewrite Z.add_0_r, (lo_seeds _ _ _ _ Hok). by rewrite Zmod_mod.
Qed.

(** Only the candidates do. *)
Lemma lo_recounted L' : same_members L L' -> m_num_connect_candidates L' = m_num_connect_candidates L + (b2z (cand_of L p') - b2z (cand_of L p)) ->
  m_num_seeds L' = m_num_seeds L -> seed p' = seed p -> list_ok L' (<[l := p']> h) m None.
Proof.
  intros Hm Hc Hse Hs. apply lo_changed; [done|done|]. rewrite Hs, Z.sub_diag, Hse.
  replace (if web_seed p then 0 else 0) with 0 by (by destruct (web_seed p)). rewrite Z.add_0_r, (lo_seeds _ _ _ _ Hok). by rewrite Zmod_mod.
Qed.
End change.

Lemma wp_uncount p w (Q : unit -> world -> Prop) : b2z (cand_of (the_list w) p) <= m_num_connect_candidates (the_list w) ->
  Q tt (in_the_list (set_m_num_connect_candidates (m_num_connect_candidates (the_list w) - b2z (cand_of (the_list w) p)) (the_list w)) w) ->
  wp (when (connect_candidate (m_finished (the_list w)) (m_max_failcount (the_list w)) p) (update_connect_candidates (-1))) Q w.
Proof.
  intros Hn HQ. change (connect_candidate _ _ p) with (cand_of (the_list w) p). destruct (cand_of (the_list w) p); cbn [when b2z] in *.
  - apply wp_update; [lia|done].
  - wstep. rewrite Z.sub_0_r in HQ. by destruct w as [[]].
Qed.

Lemma wp_recount was l p w (Q : unit -> world -> Prop) : heap w !! l = Some p -> b2z was <= m_num_connect_candidates (the_list w) ->
  Q tt (in_the_list (set_m_num_connect_candidates (m_num_connect_candidates (the_list w) + (b2z (cand_of (the_list w) p) - b2z was)) (the_list w)) w) ->
  wp (recount was l) Q w.
Proof.
  intros Hl Hn HQ. unfold recount. wsteps. change (connect_candidate _ _ p) with (cand_of (the_list w) p).
  destruct was, (cand_of (the_list w) p); cbn [b2z eqb negb when] in *.
  - wstep. rewrite Z.add_0_r in HQ. by destruct w as [[]].
  - apply wp_update; [lia|done].
  - apply wp_update; [lia|done].
  - wstep. rewrite Z.add_0_r in HQ. by destruct w as [[]].
Qed.

Lemma wp_recount_lost was l p w (Q : unit -> world -> Prop) : heap w !! l = Some p -> b2z was <= m_num_connect_candidates (the_list w) ->
  (cand_of (the_list w) p = true -> was = true) ->
  Q tt (in_the_list (set_m_num_connect_candidates (m_num_connect_candidates (the_list w) + (b2z (cand_of (the_list w) p) - b2z was)) (the_list w)) w) ->
  wp (recount_lost was l) Q w.
Proof.
  intros Hl Hn Hw HQ. unfold recount_lost. wsteps. change (connect_candidate _ _ p) with (cand_of (the_list w) p).
  destruct was, (cand_of (the_list w) p); cbn [b2z negb andb when] in *; [| |by specialize (Hw eq_refl)|].
  - wstep. rewrite Z.add_0_r in HQ. by destruct w as [[]].
  - apply wp_update; [lia|done].
  - wstep. rewrite Z.add_0_r in HQ. by destruct w as [[]].
Qed.

(** An operation on one peer that keeps its connection, its address and its
    key. *)
Lemma inv_changed l p p' w L' : inv w -> heap w !! l = Some p -> fits p' -> connection p' = connection p ->
  list_ok L' (<[l := p']> (heap w)) (multiple w) None -> same_members (the_list w) L' -> m_locked_peer L' = m_locked_peer (the_list w) ->
  changed l p' w (in_heap (<[l := p']> (heap w)) (in_the_list L' w)) /\ inv (in_heap (<[l := p']> (heap w)) (in_the_list L' w)).
Proof.
  intros [Ho Hc Hf] Hl Hp Hcp HL' Hs Hk. split; [by exists L'|]. split; wsimpl; [done|by eapply co_same|by apply fits_insert].
Qed.

(** ** Single peers *)

Lemma ban_peer_spec l p w : inv w -> heap w !! l = Some p ->
  wp (ban_peer l) (fun r w' => r = true /\ changed l (with_banned true p) w w' /\ inv w') w.
Proof.
  intros Hi Hl. destruct Hi as [Ho Hc Hf] eqn:Ei. clear Ei. unfold ban_peer. wsteps.
  pose proof (cand_room _ _ _ Ho l p Hl) as Hn. apply (wp_uncount p); [done|]. wsteps. split; [done|]. apply (inv_changed l p); [by split|done|by destruct (Hf l p Hl)|done| |done|done].
  apply (lo_recounted _ _ _ Ho l p); try done; [by apply (lo_web _ _ _ _ Ho l p)|by left|].
  wsimpl. assert (cand_of (the_list w) (with_banned true p) = false) as ->; [|simpl; lia].
  unfold cand_of, connect_candidate. cbn [banned with_banned]. by rewrite orb_true_r.
Qed.

Lemma set_failcount_spec l p f w : inv w -> heap w !! l = Some p ->
  wp (set_failcount l f) (fun _ w' => changed l (with_failcount f p) w w' /\ inv w') w.
Proof.
  intros [Ho Hc Hf] Hl. unfold set_failcount. wsteps.
  apply (wp_recount _ l (with_failcount f p)); wsimpl; [apply lookup_insert_eq|by apply (cand_room _ _ _ Ho l)|].
  apply (inv_changed l p); [by split|done|by apply (fits_assign p (Hf l p Hl))|done| |done|done].
  apply (lo_recounted _ _ _ Ho l p); try done; [by apply (lo_web _ _ _ _ Ho l p)|by left].
Qed.

Lemma inc_failcount_spec l p w : inv w -> heap w !! l = Some p ->
  wp (inc_failcount l) (fun _ w' => inv w' /\
    if failcount p =? 31 then w' = w else changed l (with_failcount (failcount p + 1) p) w w' /\
      failcount (with_failcount (failcount p + 1) p) = failcount p + 1) w.
Proof.
  intros [Ho Hc Hf] Hl. unfold inc_failcount. wsteps. destruct (Z.eqb_spec (failcount p) 31) as [E|E]; [by wsteps|].
  assert (failcount (with_failcount (failcount p + 1) p) = failcount p + 1) as Ef.
  { cbn [failcount with_failcount]. apply Z.mod_small. pose proof (fit_failcount _ (Hf l p Hl)). lia. }
  wsteps. apply (wp_recount_lost _ l (with_failcount (failcount p + 1) p)); wsimpl; [apply lookup_insert_eq|by apply (cand_room _ _ _ Ho l)| |].
  { unfold cand_of, connect_candidate. rewrite Ef. cbn [connection banned web_seed connectable seed with_failcount].
    rewrite !negb_true_iff, !orb_false_iff, !Z.leb_gt. intuition lia. }
  match goal with |- inv ?x /\ ?c /\ _ => enough (c /\ inv x) by tauto end. apply (inv_changed l p); [by split|done|by apply (fits_assign p (Hf l p Hl))|done| |done|done].
  apply (lo_recounted _ _ _ Ho l p); try done; [by apply (lo_web _ _ _ _ Ho l p)|by left].
Qed.

(** [set_seed] only counts the candidates that are lost. *)
Lemma set_seed_spec l p s w : inv w -> heap w !! l = Some p -> (s = false -> connection p <> None \/ web_seed p = true) ->
  wp (set_seed l s) (fun _ w' => changed l (with_seed s p) w w' /\ inv w') w.
Proof.
  intros [Ho Hc Hf] Hl Hs. unfold set_seed. wsteps. destruct (eqb (seed p) s) eqn:E.
  - apply eqb_prop in E as <-. wsteps. assert (with_seed (seed p) p = p) as -> by by destruct p. split; [|by split].
    exists (the_list w). rewrite insert_id by done. by destruct w as [[]].
  - wsteps. apply (wp_recount_lost _ l (with_seed s p)); wsimpl; [apply lookup_insert_eq|by apply (cand_room _ _ _ Ho l)| |].
    { change (connect_candidate _ _ p) with (cand_of (the_list w) p). destruct (cand_of (the_list w) p) eqn:Ec; [done|].
      unfold cand_of, connect_candidate in *. cbn [connection banned web_seed connectable seed failcount with_seed].
      destruct s.
      { destruct (seed p); [done|]. revert Ec.
        by destruct (bool_decide _), (banned p), (web_seed p), (connectable p), (m_finished (the_list w)), (_ <=? _). } destruct (Hs eq_refl) as [Hs'|Hs'].
      - rewrite bool_decide_eq_true_2 by done. done.
      - rewrite Hs'. by rewrite !orb_true_r. }
    wsteps. change (web_seed (with_seed s p)) with (web_seed p).
    assert (forall L', same_members (the_list w) L' -> m_locked_peer L' = m_locked_peer (the_list w) ->
      m_num_connect_candidates L' = m_num_connect_candidates (the_list w) + (b2z (cand_of (the_list w) (with_seed s p)) - b2z (cand_of (the_list w) p)) ->
      m_num_seeds L' = (m_num_seeds (the_list w) + (if web_seed p then 0 else b2z s - b2z (seed p))) mod 2 ^ 31 ->
      changed l (with_seed s p) w (in_heap (<[l := with_seed s p]> (heap w)) (in_the_list L' w)) /\
      inv (in_heap (<[l := with_seed s p]> (heap w)) (in_the_list L' w))) as Hfin.
    { intros L' Hm Hk Hca Hse. apply (inv_changed l p); [by split|done|by destruct (Hf l p Hl)|done| |done|done].
      apply (lo_changed _ _ _ Ho l p); try done; [by apply (lo_web _ _ _ _ Ho l p)|by left]. }
    destruct (web_seed p) eqn:Ew; wsteps; apply Hfin; try done; wsimpl.
    + by rewrite Z.add_0_r, (lo_seeds _ _ _ _ Ho), Zmod_mod.
    + f_equal. destruct (seed p), s; simpl in *; done || lia.
Qed.

(** ** Connections that close *)

(** The peer after [connection_closed]. *)
Definition closed_peer (now : Z) (cn : peer_connection) (p : torrent_peer) : torrent_peer :=
  let p := with_optimistically_unchoked false (with_connection None p) in
  let p := if fast_reconnect cn then p else with_last_connected now p in
  if failed cn then (if failcount p <? 31 then with_failcount (failcount p + 1) p else p) else p.

(** What connections come and go does not change of a peer. *)
Definition same_peer (p p' : torrent_peer) : Prop :=
  tp_addr p' = tp_addr p /\ port p' = port p /\ web_seed p' = web_seed p /\ seed p' = seed p /\ banned p' = banned p /\
  connectable p' = connectable p /\ source p' = source p.

Lemma closed_same now cn p : same_peer p (closed_peer now cn p) /\ connection (closed_peer now cn p) = None.
Proof. unfold closed_peer. repeat case_match; done. Qed.

Lemma closed_fits now cn p : fits p -> fits (closed_peer now cn p).
Proof.
  intros H. assert (fits (with_optimistically_unchoked false (with_connection None p))) as H0 by (by destruct H).
  unfold closed_peer. set (q := with_optimistically_unchoked false (with_connection None p)) in *.
  assert (fits (if fast_reconnect cn then q else with_last_connected now q)) as H1 by (case_match; [done|by apply (fits_assign q H0)]).
  set (q' := if fast_reconnect cn then q else with_last_connected now q) in *. case_match; [|done]. case_match; [|done]. by apply (fits_assign q' H1).
Qed.

Lemma same_peer_key m p p' : same_peer p p' -> peer_key m p' = peer_key m p.
Proof. intros (Ha & Hp & _). unfold peer_key. by rewrite Ha, Hp. Qed.

Lemma connected_not_candidate f n p c : connection p = Some c -> connect_candidate f n p = false.
Proof. intros H. unfold connect_candidate. rewrite bool_decide_eq_true_2; [done|]. congruence. Qed.

Lemma wp_connection_closed c cn l p w (Q : unit -> world -> Prop) :
  list_ok (the_list w) (heap w) (multiple w) None -> conns w !! c = Some cn -> peer_info cn = Some l ->
  heap w !! l = Some p -> connection p = Some c ->
  (forall L1, same_members (the_list w) L1 -> m_locked_peer L1 = m_locked_peer (the_list w) ->
    let h1 := <[l := closed_peer (session_time w) cn p]> (heap w) in
    list_ok L1 h1 (multiple w) None ->
    (multiple w && negb (connectable p) && negb (bool_decide (m_locked_peer (the_list w) = Some l)) = false ->
       Q tt (in_heap h1 (in_the_list L1 w))) /\
    (multiple w = true -> connectable p = false -> m_locked_peer (the_list w) <> Some l ->
       forall i L2, zget (m_peers L1) i = Some l -> erased_list i l L1 L2 -> list_ok L2 (delete l h1) (multiple w) None ->
       Q tt (erased_world l L2 (in_heap h1 (in_the_list L1 w))))) ->
  wp (connection_closed c) Q w.
Proof.
  intros Ho Hcn Hi Hl Hc HQ. destruct (closed_same (session_time w) cn p) as [Hsame Hnone]. set (p1 := closed_peer (session_time w) cn p) in *.
  destruct w as [L h cs st t cl]. wsimpl in Ho. wsimpl in Hcn. wsimpl in Hl. wsimpl in HQ. unfold connection_closed. wsteps. rewrite Hi. wsteps.
  set (w1 := fun q => World L (<[l := q]> h) cs st t cl). set (q0 := with_optimistically_unchoked false (with_connection None p)).
  set (q1 := if fast_reconnect cn then q0 else with_last_connected t q0).
  apply (wp_mono _ (fun _ w' => w' = w1 q1)).
  { unfold q1. apply wp_when; intros E; [apply negb_true_iff in E|apply negb_false_iff in E]; rewrite E; [by wsteps|done]. }
  intros [] w' ->. wstep. apply (wp_mono _ (fun _ w' => w' = w1 p1)).
  { apply wp_when; intros E; unfold p1, closed_peer; wsimpl; fold q0; fold q1; rewrite E; [|done]. by apply wp_reassign. }
  intros [] w' ->. unfold w1. wsteps. fold p1.
  set (L1 := set_m_num_connect_candidates (m_num_connect_candidates L + b2z (cand_of L p1)) L).
  apply (wp_mono _ (fun _ w' => w' = World L1 (<[l := p1]> h) cs st t cl)).
  { change (connect_candidate _ _ p1) with (cand_of L p1). pose proof (lo_cands_nonneg _ _ _ _ Ho). unfold L1.
    destruct (cand_of L p1); cbn [when b2z]; [apply wp_update; [wsimpl; lia|done]|]. wstep. rewrite Z.add_0_r. by destruct L. }
  assert (list_ok L1 (<[l := p1]> h) (multiple (World L h cs st t cl)) None) as HL1.
  { apply (lo_recounted _ _ _ Ho l p); try done; try apply Hsame; [|by left; apply same_peer_key|].
    - intros Hw. destruct Hsame as (_ & _ & _ & _ & _ & -> & _). by apply (lo_web _ _ _ _ Ho l p).
    - assert (cand_of L p = false) as -> by (by apply (connected_not_candidate _ _ p c)). unfold L1. wsimpl. cbn [b2z]. lia. }
  intros [] w' ->. destruct (HQ L1 ltac:(done) ltac:(done) HL1) as [HQ1 HQ2]. clear HQ. wsteps.
  destruct Hsame as (Ha & Hp & Hweb & Hs & Hb & Hcon & Hsrc).
  rewrite Hcon. apply wp_when; intros E; [|by apply HQ1]. apply andb_true_iff in E as [[Em Ecn]%andb_true_iff Elk].
  rewrite negb_true_iff in Ecn, Elk. apply bool_decide_eq_false in Elk.
  assert (l ∈ m_peers L) as Hin.
  { destruct (web_or_member _ _ _ Ho l p Hl) as [[Hw _]|[_ ?]]; [|done]. pose proof (lo_web _ _ _ _ Ho l p Hl Hw). congruence. }
  apply (wp_erase_peer l p1 (multiple (World L h cs st t cl)) None); [done|done|apply lookup_insert_eq|].
  intros i L2 Hi2 Hel Ho2. by apply (HQ2 Em Ecn Elk i).
Qed.

(** A call with a [torrent_state] of its own: what it erased goes to the
    picker. *)
Lemma wp_with_list_state {A} (m : M A) (Q : A -> world -> Prop) w :
  wp m (fun a w' => Q a (World (the_list w') (heap w') (conns w') (state w) (session_time w') (cleared w' ++ erased (state w'))))
    (in_state (fresh_state (state w)) w) -> wp (with_list_state m) Q w.
Proof. intros H. unfold with_list_state. wsteps. eapply wp_mono; [done|]. intros a w' HQ. by wsteps. Qed.

(** What [disconnect] does: the connection has no peer, or its peer is left
    without it, or it is freed because it can not be connected to. *)
Inductive closing (c : nat) (w w' : world) : Prop :=
| closing_alone cn cn' : conns w !! c = Some cn -> peer_info cn = None -> w' = in_conns (<[c := cn']> (conns w)) w -> closing c w w'
| closing_kept cn' l p p' L' : heap w !! l = Some p -> connection p = Some c -> same_peer p p' -> connection p' = None ->
    multiple w && negb (connectable p) && negb (bool_decide (m_locked_peer (the_list w) = Some l)) = false ->
    same_members (the_list w) L' -> m_locked_peer L' = m_locked_peer (the_list w) ->
    w' = World L' (<[l := p']> (heap w)) (<[c := cn']> (conns w)) (state w) (session_time w) (cleared w) -> closing c w w'
| closing_freed cn' i l p L1 L' : heap w !! l = Some p -> connection p = Some c ->
    multiple w = true -> connectable p = false -> m_locked_peer (the_list w) <> Some l ->
    same_members (the_list w) L1 -> m_locked_peer L1 = m_locked_peer (the_list w) ->
    zget (m_peers (the_list w)) i = Some l -> erased_list i l L1 L' ->
    w' = World L' (delete l (heap w)) (<[c := cn']> (conns w)) (state w) (session_time w) (cleared w ++ [l]) -> closing c w w'.

Lemma alone_conn w c cn : inv w -> conns w !! c = Some cn -> attached cn = false \/ disconnecting cn = true -> peer_info cn = None.
Proof.
  intros Hi Hcn H. destruct (peer_info cn) as [l|] eqn:E; [|done]. exfalso.
  destruct (co_conn _ _ (inv_conns _ Hi) c cn l Hcn E) as (p & Hl & Hc).
  destruct (co_peer _ _ (inv_conns _ Hi) l p c Hl Hc) as (cn1 & Hcn1 & _ & Ha & Hd). simplify_eq. destruct H; congruence.
Qed.

Lemma inv_alone w c cn cn' : inv w -> conns w !! c = Some cn -> peer_info cn = None -> peer_info cn' = None ->
  inv (in_conns (<[c := cn']> (conns w)) w).
Proof. intros [Ho Hc Hf] Hcn Hi Hi'. split; wsimpl; [done|by eapply co_conn_same|done]. Qed.

(** What the connection has moved is added to the peer's. *)
Definition banked (cn : peer_connection) (p : torrent_peer) : torrent_peer :=
  let p := with_optimistically_unchoked false p in
  let p := with_prev_amount_download (prev_amount_download p + Z.shiftr (payload_download cn) 10) p in
  with_prev_amount_upload (prev_amount_upload p + Z.shiftr (payload_upload cn) 10) p.

(** The peer is freed with its connection. *)
Definition frees (w : world) (l : nat) (p : torrent_peer) : bool :=
  multiple w && negb (connectable p) && negb (bool_decide (m_locked_peer (the_list w) = Some l)).

(** The peer after its connection has been closed. *)
Definition peer_after (w : world) (cn : peer_connection) (l : nat) (p : torrent_peer) : option torrent_peer :=
  if frees w l p then None else Some (closed_peer (session_time w) cn (banked cn p)).

(** [remove_peer] of a connection with a peer. *)
Lemma remove_peer_spec c cn l p w : inv w -> conns w !! c = Some cn -> attached cn = true -> peer_info cn = Some l ->
  heap w !! l = Some p -> connection p = Some c ->
  wp (remove_peer c) (fun _ w' => closing c w w' /\ inv w' /\ heap w' !! l = peer_after w cn l p /\
    exists cn', conns w' !! c = Some cn' /\ peer_info cn' = None) w.
Proof.
  unfold peer_after, frees. intros [Ho Hc Hf] Hcn Ha Hi Hl Hpc. destruct w as [L h cs st t cl]. wsimpl in Ho. wsimpl in Hc. wsimpl in Hf. wsimpl in Hcn. wsimpl in Hl.
  unfold remove_peer. wsteps. rewrite Ha. cbn [negb]. rewrite Hi. wsteps.
  change (with_prev_amount_upload _ _) with (banked cn p). set (p0 := banked cn p).
  assert (fits p0) as Hf0.
  { assert (fits (with_optimistically_unchoked false p)) as H0 by (by destruct (Hf l p Hl)).
    destruct (fits_assign _ H0) as (_ & H1 & _). specialize (H1 (prev_amount_download (with_optimistically_unchoked false p) + Z.shiftr (payload_download cn) 10)).
    by apply (fits_assign _ H1). }
  assert (list_ok L (<[l := p0]> h) (multiple (World L h cs st t cl)) None) as Ho0.
  { apply (lo_unchanged _ _ _ Ho l p); try done; [by apply (lo_web _ _ _ _ Ho l p)|by left]. }
  apply wp_with_list_state. wsimpl.
  apply (wp_connection_closed c cn l p0); wsimpl; [done|done|done|apply lookup_insert_eq|done|].
  intros L1 Hs Hlk. rewrite insert_insert_eq. intros Ho1. destruct (closed_same t cn p0) as [Hsame Hnone].
  pose proof (closed_fits t cn p0 Hf0) as Hf1. set (p1 := closed_peer t cn p0) in *. set (cn' := conn_with_attached false (conn_with_peer_info None cn)).
  split.
  - intros E. wsteps. wsimpl.
    eapply wp_set_conn; [apply lookup_insert_eq|]. wsimpl. rewrite insert_insert_eq. fold cn'. rewrite app_nil_r. split_and!.
    + by eapply (closing_kept _ _ _ cn' l p p1 L1).
    + split; wsimpl; [done| |by apply fits_insert].
      apply (co_close h cs l p c cn cn'); [done..| |]; [intros l' Hn; by rewrite lookup_insert_ne|].
      intros q. rewrite lookup_insert_eq. by intros [= <-].
    + change (multiple (World L h cs st t cl) && negb (connectable p) && negb (bool_decide (m_locked_peer L = Some l)) = false) in E.
      rewrite E. apply lookup_insert_eq.
    + exists cn'. by rewrite lookup_insert_eq.
  - intros Em Ecn Elk i L2 Hi2 Hel Ho2. wsteps. unfold erased_world. wsimpl. wsteps.
    eapply wp_set_conn; [apply lookup_insert_eq|]. wsimpl. rewrite insert_insert_eq. fold cn'. rewrite delete_insert_eq in *. split_and!.
    + eapply (closing_freed _ _ _ cn' i l p L1 L2); try done. wsimpl. by rewrite <- (proj1 Hs).
    + split; wsimpl; [done| |].
      * apply (co_close h cs l p c cn cn'); [done..| |]; [intros l' Hn; by rewrite lookup_delete_ne|]. intros q. by rewrite lookup_delete_eq.
      * intros l' q [_ Hq]%lookup_delete_Some. by eapply Hf.
    + change (multiple (World L h cs st t cl) = true) in Em. change (connectable p = false) in Ecn. rewrite Em, Ecn, bool_decide_eq_false_2 by done. apply lookup_delete_eq.
    + exists cn'. by rewrite lookup_insert_eq.
Qed.

(** Marking the connection before or afterwards does not matter. *)
Lemma closing_mark c w w' cn : closing c w w' -> closing c w (in_conns (<[c := cn]> (conns w')) w').
Proof.
  intros [cn0 cn' Hcn Hi ->|cn' l p p' L' ? ? ? ? ? ? ? ->|cn' i l p L1 L' ? ? ? ? ? ? ? ? ? ->]; wsimpl; rewrite insert_insert_eq.
  - by eapply closing_alone.
  - by eapply (closing_kept _ _ _ cn l p p' L').
  - by eapply (closing_freed _ _ _ cn i l p L1 L').
Qed.

Lemma closing_before c w w' cn cnf : conns w !! c = Some cn -> peer_info cnf = peer_info cn ->
  closing c (in_conns (<[c := cnf]> (conns w)) w) w' -> closing c w w'.
Proof.
  intros Hcn Hp [cn0 cn' Hcn0 Hi ->|cn' l p p' L' ? ? ? ? ? ? ? ->|cn' i l p L1 L' ? ? ? ? ? ? ? ? ? ->]; wsimpl; rewrite insert_insert_eq.
  - wsimpl in Hcn0. rewrite lookup_insert_eq in Hcn0. simplify_eq. apply (closing_alone _ _ _ cn cn'); [done|congruence|done].
  - by eapply (closing_kept _ _ _ cn' l p p' L').
  - by eapply (closing_freed _ _ _ cn' i l p L1 L').
Qed.

Lemma remove_alone_spec c cn w : conns w !! c = Some cn -> peer_info cn = None ->
  wp (remove_peer c) (fun _ w' => exists cn', peer_info cn' = None /\ disconnecting cn' = disconnecting cn /\ w' = in_conns (<[c := cn']> (conns w)) w) w.
Proof.
  intros Hcn Hi. unfold remove_peer. wsteps. destruct (attached cn); cbn [negb].
  - rewrite Hi. wsteps. apply wp_with_list_state. unfold connection_closed. wsteps. rewrite Hi. wsteps. wsimpl.
    eapply wp_set_conn; [wsimpl; apply lookup_insert_eq|]. wsimpl. rewrite insert_insert_eq, app_nil_r.
    by exists (conn_with_attached false (conn_with_peer_info None cn)).
  - wsteps. exists cn. rewrite insert_id by done. by destruct w.
Qed.

(** A mark on the connection of a peer. *)
Lemma co_mark h cs c cn cn' : conn_ok h cs -> cs !! c = Some cn -> peer_info cn' = peer_info cn -> attached cn' = attached cn ->
  disconnecting cn' = disconnecting cn -> conn_ok h (<[c := cn']> cs).
Proof.
  intros [H1 H2] Hcn Ei Ea Ed. split.
  - intros l p c' Hl Hc. destruct (H1 l p c' Hl Hc) as (cn1 & Hcn1 & Hi1 & Ha1 & Hd1).
    destruct (decide (c' = c)) as [->|Hn]; [|exists cn1; by rewrite lookup_insert_ne by congruence].
    exists cn'. rewrite lookup_insert_eq. simplify_eq. by rewrite Ei, Ea, Ed.
  - intros c' cn1 l. destruct (decide (c' = c)) as [->|Hn]; [|rewrite lookup_insert_ne by congruence; apply H2].
    rewrite lookup_insert_eq. intros [= <-] Hi. apply (H2 c cn); [done|congruence].
Qed.

Definition closed (c : nat) (w : world) : Prop := exists cn, conns w !! c = Some cn /\ disconnecting cn = true.

(** The connection with the mark of an error. *)
Definition marked (e : Z) (cn : peer_connection) : peer_connection := if 0 <? e then conn_with_failed true cn else cn.

Lemma disconnect_exact c e cn w : inv w -> conns w !! c = Some cn ->
  wp (disconnect c e) (fun _ w' => (closing c w w' /\ inv w' /\ closed c w') /\
    forall l p, peer_info cn = Some l -> heap w !! l = Some p -> heap w' !! l = peer_after w (marked e cn) l p) w.
Proof.
  intros Hi Hcn. unfold disconnect. wsteps. destruct (disconnecting cn) eqn:Ed.
  { wsteps. assert (peer_info cn = None) as Hn by (eapply alone_conn; eauto). split; [|congruence].
    split; [|split; [done|by exists cn]]. apply (closing_alone _ _ _ cn cn); [done|done|]. rewrite insert_id by done. by destruct w. }
  set (cnf := marked e cn). wstep.
  apply (wp_mono _ (fun _ w' => w' = in_conns (<[c := cnf]> (conns w)) w)).
  { unfold cnf, marked. apply wp_when; intros ->; [by wsteps|]. rewrite insert_id by done. by destruct w. }
  intros [] w1 ->. set (w1 := in_conns (<[c := cnf]> (conns w)) w).
  assert (peer_info cnf = peer_info cn /\ attached cnf = attached cn /\ disconnecting cnf = disconnecting cn) as (Ei & Ea & Edf).
  { unfold cnf, marked. by case_match. }
  assert (conns w1 !! c = Some cnf) as Hcnf by (unfold w1; wsimpl; apply lookup_insert_eq).
  assert (inv w1) as Hi1 by (destruct Hi as [Ho Hco Hf]; split; unfold w1; wsimpl; [done|by eapply co_mark|done]).
  wstep. destruct (peer_info cn) as [l|] eqn:Ep.
  - destruct (co_conn _ _ (inv_conns _ Hi) c cn l Hcn Ep) as (p & Hl & Hc).
    destruct (co_peer _ _ (inv_conns _ Hi) l p c Hl Hc) as (cn1 & Hcn1 & _ & Ha & _). simplify_eq.
    eapply wp_mono; [apply (remove_peer_spec c cnf l p w1); try done; congruence|].
    intros [] w2 (Hcl & Hi2 & Hpa & cn2 & Hcn2 & Hn2). eapply wp_set_conn; [done|].
    split; [|intros l0 p0 [= <-] Hl0; simplify_eq; exact Hpa].
    split; [|split; [by eapply inv_alone|by eexists; wsimpl; rewrite lookup_insert_eq]].
    apply closing_mark. eapply closing_before; [done| |done]. congruence.
  - eapply wp_mono; [by apply (remove_alone_spec c cnf w1)|]. intros [] w2 (cn2 & Hn2 & _ & ->).
    eapply wp_set_conn; [wsimpl; apply lookup_insert_eq|]. unfold w1. wsimpl. rewrite !insert_insert_eq.
    split; [|done]. split; [by eapply closing_alone|]. split; [by apply (inv_alone w c cn)|]. by eexists; wsimpl; rewrite lookup_insert_eq.
Qed.

Lemma disconnect_spec c e cn w : inv w -> conns w !! c = Some cn -> wp (disconnect c e) (fun _ w' => closing c w w' /\ inv w' /\ closed c w') w.
Proof. intros Hi Hcn. eapply wp_mono; [by apply (disconnect_exact c e cn w)|]. by intros [] w' [H _]. Qed.

Lemma conn_inj w l l' p p' c : inv w -> heap w !! l = Some p -> connection p = Some c -> heap w !! l' = Some p' -> connection p' = Some c -> l = l'.
Proof.
  intros Hi Hl Hc Hl' Hc'. destruct (co_peer _ _ (inv_conns _ Hi) l p c Hl Hc) as (cn & Hcn & E & _).
  destruct (co_peer _ _ (inv_conns _ Hi) l' p' c Hl' Hc') as (cn' & Hcn' & E' & _). congruence.
Qed.

Lemma inv_erased i l p w L' : inv w -> zget (m_peers (the_list w)) i = Some l -> heap w !! l = Some p -> connection p = None ->
  list_ok L' (delete l (heap w)) (multiple w) None -> inv (erased_world l L' w).
Proof.
  intros [Ho Hc Hf] Hi Hl Hcp HL'. split; [done|by eapply co_delete|].
  unfold erased_world. cbn [heap]. intros l' p' [_ Hp]%lookup_delete_Some. by eapply Hf.
Qed.

(** ** Filters *)

(** A peer that was freed is reported to the picker, now or by the caller. *)
Definition reported (w : world) (l : nat) : Prop := l ∈ erased (state w) \/ l ∈ cleared w.

(** The peers [ls] of the list are freed, their connections closed. *)
Record drops (gone : nat -> Prop) (w w' : world) : Prop := {
  dr_inv : inv w';
  dr_locked : m_locked_peer (the_list w') = m_locked_peer (the_list w);
  dr_peers l : l ∈ m_peers (the_list w') <-> l ∈ m_peers (the_list w) /\ ~ gone l;
  dr_kept l : ~ gone l -> heap w' !! l = heap w !! l;
  dr_gone l : gone l -> heap w' !! l = None;
  dr_reported l : gone l \/ reported w l -> reported w' l;
  dr_state : fresh_state (state w') = fresh_state (state w);
  dr_time : session_time w' = session_time w;
}.

Lemma drops_refl w : inv w -> drops (fun _ => False) w w.
Proof. intros Hi. split; naive_solver. Qed.

Lemma drops_trans (g1 g2 : nat -> Prop) w w1 w' : drops g1 w w1 -> drops g2 w1 w' -> (forall l, Decision (g1 l)) -> drops (fun l => g1 l \/ g2 l) w w'.
Proof.
  intros [] [] Hdec. split; try congruence; try done.
  - intros l. rewrite dr_peers1, dr_peers0. tauto.
  - intros l Hn. rewrite dr_kept1 by tauto. apply dr_kept0. tauto.
  - intros l Hg. destruct (Hdec l) as [H|H]; [|apply dr_gone1; tauto]. destruct (heap w' !! l) as [p|] eqn:E; [|done].
    exfalso. assert (~ g2 l) as Hn2 by (intros H2; pose proof (dr_gone1 l H2); congruence). rewrite dr_kept1, dr_gone0 in E by done. done.
  - intros l. specialize (dr_reported0 l). specialize (dr_reported1 l). tauto.
Qed.

Lemma drops_ext (g1 g2 : nat -> Prop) w w' : (forall l, g1 l <-> g2 l) -> drops g1 w w' -> drops g2 w w'.
Proof. intros Hg []. split; try done; intros l; specialize (Hg l); naive_solver. Qed.

Lemma filter_erased i l (ls : list nat) x : NoDup ls -> zget ls i = Some l -> x ∈ erase_index i ls <-> x ∈ ls /\ x <> l.
Proof.
  intros Hnd Hi. rewrite (filter_erase i l ls Hnd Hi), list_elem_of_filter, list_elem_of_singleton. tauto.
Qed.

Lemma drops_intro i l w w' : inv w -> inv w' -> zget (m_peers (the_list w)) i = Some l ->
  m_locked_peer (the_list w') = m_locked_peer (the_list w) -> m_peers (the_list w') = erase_index i (m_peers (the_list w)) ->
  heap w' = delete l (heap w) -> reported w' l -> (forall x, reported w x -> reported w' x) ->
  fresh_state (state w') = fresh_state (state w) -> session_time w' = session_time w -> drops (fun x => x = l) w w'.
Proof.
  intros Hi Hi' Hil Hk Hp Hh Hr Hr' Hs Ht. split; try done.
  - intros x. rewrite Hp, (filter_erased i l) by first [done|eapply lo_nodup, inv_list, Hi]. done.
  - intros x Hx. by rewrite Hh, lookup_delete_ne by congruence.
  - intros x ->. rewrite Hh. apply lookup_delete_eq.
  - intros x [->|?]; auto.
Qed.

Lemma drops_erased i l p w L' : inv w -> zget (m_peers (the_list w)) i = Some l -> heap w !! l = Some p -> connection p = None ->
  erased_list i l (the_list w) L' -> list_ok L' (delete l (heap w)) (multiple w) None -> drops (fun x => x = l) w (erased_world l L' w).
Proof.
  intros Hi Hil Hl Hc Hel HL'. apply (drops_intro i l); try done; [by eapply inv_erased|apply (el_locked _ _ _ _ Hel)|apply (el_peers _ _ _ _ Hel)| |];
    unfold reported, erased_world; cbn [state erased set_erased cleared]; [set_solver|]. intros x [?|?]; set_solver.
Qed.

(** A connection is closed, and its peer erased if it is still there. *)
Lemma drop_connected i l p c w : inv w -> m_locked_peer (the_list w) <> Some l -> zget (m_peers (the_list w)) i = Some l ->
  heap w !! l = Some p -> connection p = Some c ->
  wp (disconnect c 0) (fun _ w1 => wp (when (negb (zlen (m_peers (the_list w1)) <? zlen (m_peers (the_list w)))) (erase_peer_at i))
    (fun _ w' => drops (fun x => x = l) w w' /\ m_peers (the_list w') = erase_index i (m_peers (the_list w))) w1) w.
Proof.
  intros Hi Hlk Hil Hl Hc. destruct (co_peer _ _ (inv_conns _ Hi) l p c Hl Hc) as (cn & Hcn & Hpi & _). pose proof (zget_Some_bound _ _ _ Hil).
  eapply wp_mono; [by apply (disconnect_spec c 0 cn)|]. intros [] w1 (Hcl & Hi1 & _).
  destruct Hcl as [cn0 cn' Hcn0 Hi0 ->|cn' l0 p0 p' L' Hl0 Hc0 Hsame Hnone _ Hm Hk ->|cn' i0 l0 p0 L1 L' Hl0 Hc0 Hmul Hcon Hlk0 Hm Hk Hi0 Hel ->].
  - congruence.
  - assert (l0 = l) as -> by exact (conn_inj w l0 l p0 p c Hi Hl0 Hc0 Hl Hc). wsimpl. rewrite (proj1 Hm), Z.ltb_irrefl. cbn [negb when].
    apply (wp_erase_peer_at i l p' (multiple w) None); wsimpl; [apply (inv_list _ Hi1)|by rewrite (proj1 Hm)|apply lookup_insert_eq|].
    intros L2 Hel HL2. split; [|unfold erased_world; wsimpl; by rewrite (el_peers _ _ _ _ Hel), (proj1 Hm)]. apply (drops_intro i l); unfold erased_world; wsimpl; try done.
    + eapply (inv_erased i l p' _ L2 Hi1); wsimpl; [by rewrite (proj1 Hm)|apply lookup_insert_eq|done|done].
    + by rewrite (el_locked _ _ _ _ Hel).
    + by rewrite (el_peers _ _ _ _ Hel), (proj1 Hm).
    + apply delete_insert_eq.
    + left. wsimpl. set_solver.
    + intros x [?|?]; [left; wsimpl; set_solver|by right].
  - assert (l0 = l) as -> by exact (conn_inj w l0 l p0 p c Hi Hl0 Hc0 Hl Hc).
    assert (i0 = i) as -> by (eapply zget_inj; [eapply lo_nodup, inv_list, Hi|done|done]). wsimpl.
    rewrite (el_peers _ _ _ _ Hel), (proj1 Hm), zlen_erase by done. rewrite (proj2 (Z.ltb_lt _ _)) by lia. cbn [negb when]. wstep.
    split; [|wsimpl; by rewrite (el_peers _ _ _ _ Hel), (proj1 Hm)]. apply (drops_intro i l); wsimpl; try done.
    + by rewrite (el_locked _ _ _ _ Hel).
    + by rewrite (el_peers _ _ _ _ Hel), (proj1 Hm).
    + right. wsimpl. set_solver.
    + intros x [?|?]; [by left|right; wsimpl; set_solver].
Qed.

Section filter.
(** A filter that looks at the address and the port. *)
Context (blocked : torrent_peer -> M bool) (blk : torrent_peer -> bool).
Context (Hblk : forall p w, valid_address (tp_addr p) -> 0 <= port p < 2 ^ 16 -> wp (blocked p) (fun b w' => b = blk p /\ w' = w) w).

(** The peers of the list from [i] on that the filter blocks. *)
Definition blocked_from (i : Z) (w : world) (l : nat) : Prop :=
  exists j p, i <= j /\ zget (m_peers (the_list w)) j = Some l /\ heap w !! l = Some p /\ blk p = true.

Definition filtered (i : Z) (w w' : world) : Prop :=
  inv w' /\ m_locked_peer (the_list w') = None /\ exists g, (forall l, g l <-> blocked_from i w l) /\ drops g w w'.

Lemma blocked_next i w l p : zget (m_peers (the_list w)) i = Some l -> heap w !! l = Some p -> blk p = false ->
  forall x, blocked_from (i + 1) w x <-> blocked_from i w x.
Proof.
  intros Hl Hp Hb x. split; intros (j & q & Hj & Hx & Hq & Hqb); exists j, q; [split; [lia|done]|]. split; [|done].
  destruct (decide (j = i)) as [->|]; [congruence|lia].
Qed.

Lemma blocked_dropped i w l p w1 : zget (m_peers (the_list w)) i = Some l -> heap w !! l = Some p -> blk p = true ->
  m_peers (the_list w1) = erase_index i (m_peers (the_list w)) -> (forall x, x <> l -> heap w1 !! x = heap w !! x) -> NoDup (m_peers (the_list w)) ->
  forall x, x = l \/ blocked_from i w1 x <-> blocked_from i w x.
Proof.
  intros Hl Hp Hb Hp1 Hh Hnd x. pose proof (zget_Some_bound _ _ _ Hl). split.
  - intros [->|(j & q & Hj & Hx & Hq & Hqb)]; [exists i, p; split; [lia|done]|]. rewrite Hp1, zget_erase in Hx by lia. case_decide; [lia|].
    exists (j + 1), q. split; [lia|]. split; [done|]. split; [|done]. rewrite <- Hh; [done|]. intros ->.
    pose proof (zget_inj _ _ _ _ Hnd Hl Hx). lia.
  - intros (j & q & Hj & Hx & Hq & Hqb). destruct (decide (j = i)) as [->|Hn]; [left; congruence|]. right. exists (j - 1), q. split; [lia|].
    rewrite Hp1, zget_erase by lia. rewrite decide_False by lia. replace (j - 1 + 1) with j by lia. split; [done|]. split; [|done].
    rewrite Hh; [done|]. intros ->. pose proof (zget_inj _ _ _ _ Hnd Hl Hx). lia.
Qed.

Lemma filter_loop_spec fuel : forall i w, inv w -> m_locked_peer (the_list w) = None -> 0 <= i -> zlen (m_peers (the_list w)) - i <= Z.of_nat fuel ->
  wp (filter_loop fuel blocked i) (fun _ w' => filtered i w w') w.
Proof.
  induction fuel as [|fuel IH]; intros i w Hi Hk Hi0 Hf; cbn [filter_loop]; wsteps; destruct (Z.leb_spec (zlen (m_peers (the_list w))) i) as [Hle|Hgt]; try lia.
  1-2: wstep; split; [done|]; split; [done|]; exists (fun _ => False); split; [|by apply drops_refl];
    intros l; split; [done|]; intros (j & p & Hj & Hl & _); pose proof (zget_Some_bound _ _ _ Hl); lia.
  destruct (zget_is_Some (m_peers (the_list w)) i) as [l Hl]; [lia|]. destruct (lo_get _ _ _ _ _ _ (inv_list _ Hi) Hl) as (p & Hp & _).
  pose proof (lo_addr _ _ _ _ _ _ (inv_list _ Hi) (zget_elem _ _ _ Hl) Hp) as [Hv _].
  wsteps. eapply wp_mono; [apply Hblk; [done|apply fit_port, (inv_fits _ Hi l p Hp)]|]. intros b w' [-> ->]. wsteps. rewrite Hk.
  rewrite bool_decide_eq_false_2, orb_false_r by done. destruct (blk p) eqn:Eb; cbn [negb].
  2: { eapply wp_mono; [apply (IH (i + 1)); [done|done|lia|lia]|]. intros _ w' (Hi' & Hk' & g & Hg & Hd). split; [done|]. split; [done|].
       exists g. split; [|done]. intros x. rewrite Hg. by eapply blocked_next. }
  assert (forall w1, drops (fun x => x = l) w w1 -> m_peers (the_list w1) = erase_index i (m_peers (the_list w)) ->
    wp (filter_loop fuel blocked i) (fun _ w' => filtered i w w') w1) as Hnext.
  { intros w1 Hd Hp1. eapply wp_mono; [apply IH; [apply (dr_inv _ _ _ Hd)|by rewrite (dr_locked _ _ _ Hd)|done|rewrite Hp1, zlen_erase by lia; lia]|].
    intros _ w' (Hi' & Hk' & g & Hg & Hd'). split; [done|]. split; [done|]. exists (fun x => x = l \/ g x). split.
    - intros x. rewrite Hg. apply (blocked_dropped i w l p w1); try done; [by apply (dr_kept _ _ _ Hd)|eapply lo_nodup, inv_list, Hi].
    - eapply drops_trans; [done|done|]. intros x. apply _. }
  destruct (connection p) as [c|] eqn:Ec.
  - destruct (co_peer _ _ (inv_conns _ Hi) l p c Hp Ec) as (cn & Hcn & _). wsteps.
    eapply wp_mono; [apply (drop_connected i l p c w); try done; congruence|]. intros [] w1 Hw1. cbv beta in Hw1. wsteps.
    eapply wp_mono; [exact Hw1|]. intros [] w2 [Hd Hp2]. wstep. eapply wp_mono; [by apply Hnext|]. intros r w' H. by wstep.
  - wstep. apply (wp_erase_peer_at i l p (multiple w) None); [apply (inv_list _ Hi)|done|done|]. intros L' Hel HL'.
    apply Hnext; [by eapply drops_erased|apply (el_peers _ _ _ _ Hel)].
Qed.
End filter.
