(* ===== verification/PeerListAdd.v ===== *)
(** * Peers that are added

    [add_peer] and what it shares with [new_connection]: where a peer goes,
    the room that is made for it, and what happens to one that is known. *)

From Stdlib Require Import ZArith Lia.
From stdpp Require Import base numbers gmap sorting list.
From S2P Require Import Prelude IpFilter IpFilterSpec IpFilterTheorems PeerState PeerList PeerListSpec PeerListErase PeerListOps.

(** ** Finding the place of an endpoint *)

(** What a peer of the endpoint has as its key. *)
Definition endpoint_key_of (m : bool) (ep : endpoint) : endpoint := (ep.1, if m then ep.2 else 0).

Definition known (w : world) (i : Z) (ep : endpoint) : Prop :=
  exists l p, zget (m_peers (the_list w)) i = Some l /\ heap w !! l = Some p /\ peer_key (multiple w) p = endpoint_key_of (multiple w) ep.

Definition fresh_key (L : peer_list) (h : gmap nat torrent_peer) (m : bool) (k : endpoint) : Prop :=
  forall l, l ∈ m_peers L -> key_of m h l <> k.

Lemma lo_ordered L h m pd i j l l' : list_ok L h m pd -> zget (m_peers L) i = Some l -> zget (m_peers L) j = Some l' -> i <= j ->
  addr_value (addr_of h l) <= addr_value (addr_of h l').
Proof.
  intros Ho Hi Hj Hij. destruct (splits_exists _ _ _ _ Ho (addr_value (addr_of h l))) as (k & _ & Hk). pose proof (Hk _ _ Hi) as H1.
  pose proof (Hk _ _ Hj) as H2. rewrite Z.ltb_irrefl in H1. symmetry in H1. apply Z.ltb_ge in H1. rewrite (proj2 (Z.ltb_ge j k)) in H2 by lia.
  by apply Z.ltb_ge in H2.
Qed.

Lemma wp_find_place ep pd w (Q : Z + Z -> world -> Prop) :
  list_ok (the_list w) (heap w) (multiple w) pd -> valid_address ep.1 -> ep.1 <> any_address ->
  (forall i, known w i ep -> Q (inl i) w) ->
  (forall i, place (the_list w) (heap w) i ep.1 -> fresh_key (the_list w) (heap w) (multiple w) (endpoint_key_of (multiple w) ep) -> Q (inr i) w) ->
  wp (find_place ep) Q w.
Proof.
  intros Ho Hv Hz HL HR. unfold find_place. wsteps. fold (multiple w). destruct (multiple w) eqn:Em.
  - wstep. apply (wp_find_remote _ _ true pd Ho); [done..| |].
    + intros i last (l & p & Hl & Hp & E). wstep. apply HL. exists l, p. rewrite Em. unfold peer_key, endpoint_key_of. by rewrite <- E.
    + intros last Hnot Hpl. wstep. apply HR; [done|]. intros l Hin. unfold key_of. destruct (lo_live _ _ _ _ Ho l Hin) as [p Hp]. rewrite Hp.
      intros E. destruct (elem_zget _ _ Hin) as [i Hi]. apply (Hnot i). exists l, p. split; [done|]. split; [done|]. by destruct ep.
  - wstep. apply (wp_lower_address _ _ false pd Ho); [done..|]. intros k Hk. wsteps.
    destruct (Z.leb_spec (zlen (m_peers (the_list w))) k) as [Hn|Hn].
    + wstep. apply HR; [by apply splits_lower|]. intros l Hin E. destruct (lo_live _ _ _ _ Ho l Hin) as [p Hp]. unfold key_of in E. rewrite Hp in E.
      injection E as E. destruct (elem_zget _ _ Hin) as [i Hi]. pose proof (zget_Some_bound _ _ _ Hi). destruct Hk as [_ Hk]. specialize (Hk _ _ Hi).
      unfold addr_of in Hk. rewrite Hp, E, Z.ltb_irrefl in Hk. symmetry in Hk. apply Z.ltb_ge in Hk. lia.
    + destruct (zget_is_Some (m_peers (the_list w)) k) as [l Hl]; [destruct Hk; lia|]. destruct (lo_get _ _ _ _ _ _ Ho Hl) as (p & Hp & _). wsteps.
      case_decide as Ea.
      * apply HL. exists l, p. rewrite Em. unfold peer_key, endpoint_key_of. by rewrite Ea.
      * apply HR; [by apply splits_lower|]. intros l' Hin E. destruct (lo_live _ _ _ _ Ho l' Hin) as [p' Hp']. unfold key_of in E. rewrite Hp' in E.
        injection E as E. destruct (elem_zget _ _ Hin) as [j Hj]. pose proof (proj2 Hk _ _ Hj) as Hkj. unfold addr_of in Hkj. rewrite Hp', E, Z.ltb_irrefl in Hkj.
        symmetry in Hkj. apply Z.ltb_ge in Hkj. pose proof (proj2 Hk _ _ Hl) as Hkk. rewrite Z.ltb_irrefl in Hkk. apply Z.ltb_ge in Hkk.
        pose proof (lo_ordered _ _ _ _ k j l l' Ho Hl Hj Hkj) as Hle. unfold addr_of in Hkk, Hle. rewrite Hp in Hkk, Hle. rewrite Hp', E in Hle.
        apply Ea, addr_value_inj; [|done|lia]. by destruct (lo_addr _ _ _ _ _ _ Ho (zget_elem _ _ _ Hl) Hp).
Qed.


(** ** Inserting *)

Lemma lo_pending_change L h m l p p' : list_ok L h m (Some l) -> h !! l = Some p -> web_seed p' = false -> list_ok L (<[l := p']> h) m (Some l).
Proof.
  intros H Hl Hw. pose proof (lo_pending_out _ _ _ _ _ H Hl) as Hn. apply (lo_elsewhere L h _ m (Some l)); [done| | |].
  - intros l' Hl'. apply lookup_insert_ne. by intros ->.
  - intros l' q. destruct (decide (l' = l)) as [->|Hne]; [rewrite lookup_insert_eq; intros [= <-]; naive_solver|]. rewrite lookup_insert_ne by congruence. apply (lo_all _ _ _ _ H).
  - intros l' q. destruct (decide (l' = l)) as [->|Hne]; [rewrite lookup_insert_eq; intros [= <-]; congruence|]. rewrite lookup_insert_ne by congruence. apply (lo_web _ _ _ _ H l').
Qed.

Lemma place_elsewhere L h h' i a : place L h i a -> (forall l, l ∈ m_peers L -> h' !! l = h !! l) -> place L h' i a.
Proof. intros [Hi H] Hh. split; [done|]. intros j x Hx. unfold addr_of. rewrite Hh by (by eapply zget_elem). by apply H. Qed.

Lemma fresh_elsewhere L h h' m k : fresh_key L h m k -> (forall l, l ∈ m_peers L -> h' !! l = h !! l) -> fresh_key L h' m k.
Proof. intros H Hh l Hl. unfold key_of. rewrite Hh by done. by apply H. Qed.

(** The list when [l] is inserted at [i] and counted. *)
Record inserted (i : Z) (l : nat) (p : torrent_peer) (L L' : peer_list) : Prop := {
  is_peers : m_peers L' = insert_index i l (m_peers L);
  is_locked : m_locked_peer L' = m_locked_peer L;
  is_fin : m_finished L' = m_finished L;
  is_mx : m_max_failcount L' = m_max_failcount L;
  is_rr : m_round_robin L' = if i <=? m_round_robin L then m_round_robin L + 1 else m_round_robin L;
  is_cache : m_candidate_cache L' = m_candidate_cache L;
  is_cands : m_num_connect_candidates L' = m_num_connect_candidates L + b2z (cand_of L p);
  is_seeds : m_num_seeds L' = (m_num_seeds L + b2z (seed p)) mod 2 ^ 31;
}.

Lemma lo_inserted L L' h m i l p : list_ok L h m (Some l) -> h !! l = Some p -> web_seed p = false ->
  valid_address (tp_addr p) -> tp_addr p <> any_address -> place L h i (tp_addr p) -> fresh_key L h m (peer_key m p) ->
  inserted i l p L L' -> list_ok L' h m None.
Proof.
  intros H Hl Hw Hv Hz [Hi Hpl] Hk []. destruct (insert_index_split i l (m_peers L) Hi) as (l1 & l2 & Ep & E1 & E2).
  pose proof (lo_rr _ _ _ _ H) as Hrr. apply (lo_insert L L' h m l1 l l2 p); try done.
  - intros x Hx. destruct (elem_zget _ _ Hx) as [j Hj]. pose proof (zget_Some_bound _ _ _ Hj). apply (Hpl j x); [|lia]. rewrite Ep. by rewrite zget_app_l by lia.
  - intros x Hx. destruct (elem_zget _ _ Hx) as [j Hj]. pose proof (zget_Some_bound _ _ _ Hj). apply (Hpl (zlen l1 + j) x); [|lia].
    rewrite Ep, zget_app_r by lia. by replace (zlen l1 + j - zlen l1) with j by lia.
  - by rewrite is_peers0.
  - rewrite Ep in Hrr, Hi. autorewrite with zlen in *. destruct (Z.leb_spec i (m_round_robin L)); lia.
Qed.

Definition with_flags (flags : Z) (p : torrent_peer) : torrent_peer :=
  let p := if has_flag flags flag_encryption then with_pe_support true p else p in
  let p := if has_flag flags flag_seed then with_seed true p else p in
  let p := if has_flag flags flag_utp then with_supports_utp true p else p in
  if has_flag flags flag_holepunch then with_supports_holepunch true p else p.

Lemma with_flags_same flags p : tp_addr (with_flags flags p) = tp_addr p /\ port (with_flags flags p) = port p /\
  web_seed (with_flags flags p) = web_seed p /\ seed (with_flags flags p) = seed p || has_flag flags flag_seed /\
  connection (with_flags flags p) = connection p /\ (fits p -> fits (with_flags flags p)).
Proof.
  unfold with_flags. repeat case_match; cbn [with_pe_support with_seed with_supports_utp with_supports_holepunch tp_addr port web_seed seed connection];
    rewrite ?orb_true_r, ?orb_false_r; (split_and!; try done; intros []; by split).
Qed.

Lemma insert_finish_spec i l p flags w (Q : bool -> world -> Prop) :
  list_ok (the_list w) (heap w) (multiple w) (Some l) -> heap w !! l = Some p -> web_seed p = false -> seed p = false ->
  (forall L', inserted i l (with_flags flags p) (the_list w) L' -> Q true (in_heap (<[l := with_flags flags p]> (heap w)) (in_the_list L' w))) ->
  wp (insert_counted l i flags) Q w.
Proof.
  intros Ho Hl Hw Hs HQ. destruct w as [L h cs st t cl]. wsimpl in Ho. wsimpl in Hl. wsimpl in HQ.
  pose proof (lo_cands_nonneg _ _ _ _ Ho) as Hc. rewrite <- (insert_id h l p) by done. unfold insert_counted, insert_at. wsteps.
  set (L1 := set_m_peers (insert_index i l (m_peers L)) L).
  set (L2 := set_m_round_robin (if i <=? m_round_robin L then m_round_robin L + 1 else m_round_robin L) L1).
  apply (wp_mono _ (fun _ w' => w' = World L2 (<[l := p]> h) cs st t cl)).
  { unfold L2. apply wp_when; intros E; rewrite E; [by wsteps|]. by destruct L. }
  intros [] w' ->. wstep. apply wp_when_reassign. set (p1 := if has_flag flags flag_encryption then _ else _). wstep.
  set (p2 := if has_flag flags flag_seed then with_seed true p1 else p1).
  set (L3 := set_m_num_seeds (m_num_seeds L2 + b2z (has_flag flags flag_seed)) L2).
  apply (wp_mono _ (fun _ w' => w' = World L3 (<[l := p2]> h) cs st t cl)).
  { unfold L3, p2. apply wp_when; intros E; rewrite E; [by wsteps|]. rewrite Z.add_0_r. unfold set_m_num_seeds.
    replace (m_num_seeds L2 mod 2 ^ 31) with (m_num_seeds L2); [by destruct L|]. unfold L2, L1. wsimpl. by rewrite (lo_seeds _ _ _ _ Ho), Zmod_mod. }
  intros [] w' ->. wstep. apply wp_when_reassign. wstep. apply wp_when_reassign. fold (with_flags flags p).
  change (if has_flag flags flag_holepunch then _ else _) with (with_flags flags p). set (pf := with_flags flags p) in *. wsteps.
  apply (wp_mono _ (fun _ w' => w' = World (set_m_num_connect_candidates (m_num_connect_candidates L + b2z (cand_of L pf)) L3) (<[l := pf]> h) cs st t cl)).
  { change (connect_candidate (m_finished L3) (m_max_failcount L3) pf) with (cand_of L pf). change (m_num_connect_candidates L) with (m_num_connect_candidates L3) in *.
    destruct (cand_of L pf); cbn [when b2z]; [apply wp_update; wsimpl; [lia|done]|]. wstep. rewrite Z.add_0_r. by destruct L. }
  intros [] w' ->. wstep. refine (HQ _ _). destruct (with_flags_same flags p) as (_ & _ & _ & Esd & _). fold pf in Esd. rewrite Hs in Esd. simpl in Esd.
  split; try done. cbn -[Z.pow]. by rewrite Esd.
Qed.

(** The settings the operations multiply. *)
Definition settings_ok (st : torrent_state) : Prop := 0 <= max_peerlist_size st * 95 < 2 ^ 31.

Definition base (p : torrent_peer) : Prop := web_seed p = false /\ seed p = false /\ connection p = None.

Lemma weeded_max P rem w w' : weeded P rem w w' -> max_peerlist_size (state w') = max_peerlist_size (state w) /\ multiple w' = multiple w.
Proof.
  intros H. pose proof (we_state _ _ _ _ H) as E. unfold multiple.
  assert (max_peerlist_size (fresh_state (state w')) = max_peerlist_size (fresh_state (state w))) as E1 by by rewrite E.
  assert (allow_multiple_connections_per_ip (fresh_state (state w')) = allow_multiple_connections_per_ip (fresh_state (state w))) as E2 by by rewrite E.
  done.
Qed.

Lemma weeded_key P rem w w' m k : weeded P rem w w' -> fresh_key (the_list w) (heap w) m k -> fresh_key (the_list w') (heap w') m k.
Proof.
  intros H Hk l Hl. rewrite (we_peers _ _ _ _ H), list_elem_of_filter in Hl. destruct Hl as [Hn Hl]. specialize (Hk l Hl).
  unfold key_of in *. destruct (heap w !! l) as [p|] eqn:E.
  - destruct (we_kept _ _ _ _ H l p Hn E) as [r Hr]. by rewrite Hr.
  - by rewrite (we_none _ _ _ _ H l E).
Qed.

Lemma insert_peer_spec rnd i l p flags w : list_ok (the_list w) (heap w) (multiple w) (Some l) -> heap w !! l = Some p -> base p ->
  valid_address (tp_addr p) -> tp_addr p <> any_address -> place (the_list w) (heap w) i (tp_addr p) -> settings_ok (state w) ->
  wp (insert_peer rnd l i flags) (fun ok w' => exists rem w1 r, weeded (weedable false (the_list w1)) rem w w1 /\
    list_ok (the_list w1) (heap w1) (multiple w) (Some l) /\ heap w1 !! l = Some (with_peer_rank r p) /\
    if ok : bool then exists j L', inserted j l (with_flags flags (with_peer_rank r p)) (the_list w1) L' /\ place (the_list w1) (heap w1) j (tp_addr p) /\
        w' = in_heap (<[l := with_flags flags (with_peer_rank r p)]> (heap w1)) (in_the_list L' w1) /\
        (0 < max_peerlist_size (state w) -> zlen (m_peers L') <= max_peerlist_size (state w))
    else w' = w1 /\ 0 < max_peerlist_size (state w) <= zlen (m_peers (the_list w1))) w.
Proof.
  intros Ho Hl (Hweb & Hseed & Hc) Hv Hz Hpl Hst. unfold settings_ok in Hst. pose proof (lo_pending_out _ _ _ _ _ Ho Hl) as Hnl.
  unfold insert_peer. wsteps.
  set (post := fun (ok : bool) (w' : world) => exists rem w1 r, _).
  assert (forall rem w1 r, weeded (weedable false (the_list w1)) rem w w1 -> list_ok (the_list w1) (heap w1) (multiple w) (Some l) ->
    heap w1 !! l = Some (with_peer_rank r p) -> 0 < max_peerlist_size (state w) <= zlen (m_peers (the_list w1)) -> post false w1) as Hfull.
  { intros rem w1 r ????. by exists rem, w1, r. }
  assert (forall rem w1 r j, weeded (weedable false (the_list w1)) rem w w1 -> list_ok (the_list w1) (heap w1) (multiple w) (Some l) ->
    heap w1 !! l = Some (with_peer_rank r p) -> place (the_list w1) (heap w1) j (tp_addr p) ->
    (0 < max_peerlist_size (state w) -> zlen (m_peers (the_list w1)) < max_peerlist_size (state w)) ->
    wp (insert_counted l j flags) post w1) as Hins.
  { intros rem w1 r j Hw Ho1 Hl1 Hpj Hsz. apply (insert_finish_spec j l (with_peer_rank r p)); [|done..|].
    - by rewrite (proj2 (weeded_max _ _ _ _ Hw)).
    - intros L' Hins. exists rem, w1, r. split; [done|]. split; [done|]. split; [done|]. exists j, L'. split; [done|]. split; [done|]. split; [done|].
      intros Hmax. rewrite (is_peers _ _ _ _ _ Hins). destruct (insert_index_split j l (m_peers (the_list w1)) (proj1 Hpj)) as (l1 & l2 & Ep & _ & ->).
      specialize (Hsz Hmax). rewrite Ep in Hsz. zlia. }
  assert (weeded (weedable false (the_list w)) [] w w) as Hrefl by apply weeded_refl.
  assert (heap w !! l = Some (with_peer_rank (peer_rank p) p)) as Hlr by by rewrite with_peer_rank_id.
  case_match eqn:Efull.
  2: { wstep. apply andb_false_iff in Efull. apply (Hins [] w (peer_rank p) i); try done. intros Hmax.
       destruct Efull as [E%negb_false_iff%Z.eqb_eq|E%Z.leb_gt]; lia. }
  apply andb_true_iff in Efull as [Emax%negb_true_iff%Z.eqb_neq Esz%Z.leb_le]. destruct (source p =? src_resume_data).
  { wsteps. apply (Hfull [] w (peer_rank p)); done || lia. }
  wsteps. apply (wp_erase_peers rnd false (multiple w) (Some l)); [done|lia|]. intros rem w1 Hw Ho1 _. wsteps.
  assert (l ∉ rem) as Hlr1 by (intros Hin; by destruct (we_rem _ _ _ _ Hw l Hin) as [? _]).
  destruct (we_kept _ _ _ _ Hw l p Hlr1 Hl) as [r Hr].
  destruct (Z.leb_spec (max_peerlist_size (state w)) (zlen (m_peers (the_list w1)))) as [Hle|Hgt].
  - wsteps. apply (Hfull rem w1 r); done || lia.
  - wstep. apply (wp_lower_address _ _ _ _ Ho1); [done..|]. intros k Hk. wsteps. apply (Hins rem w1 r k); try done. by apply splits_lower.
Qed.

(** ** A peer that is known *)

Definition updated_peer (src flags : Z) (ep : endpoint) (p : torrent_peer) : torrent_peer :=
  let p := with_port ep.2 (with_connectable true p) in
  let p := with_source (Z.lor (source p) src) p in
  let p := if (0 <? failcount p) && (src =? src_tracker) then with_failcount (failcount p - 1) p else p in
  let p := if has_flag flags flag_seed && bool_decide (connection p = None) then with_seed true p else p in
  let p := if has_flag flags flag_utp then with_supports_utp true p else p in
  if has_flag flags flag_holepunch then with_supports_holepunch true p else p.

Lemma updated_same src flags ep p : tp_addr (updated_peer src flags ep p) = tp_addr p /\ port (updated_peer src flags ep p) = ep.2 mod 2 ^ 16 /\
  web_seed (updated_peer src flags ep p) = web_seed p /\ connectable (updated_peer src flags ep p) = true /\
  connection (updated_peer src flags ep p) = connection p /\
  seed (updated_peer src flags ep p) = seed p || (has_flag flags flag_seed && bool_decide (connection p = None)).
Proof.
  unfold updated_peer. set (p1 := with_port ep.2 (with_connectable true p)). set (p2 := with_source (Z.lor (source p1) src) p1).
  set (p3 := if (0 <? failcount p2) && (src =? src_tracker) then with_failcount (failcount p2 - 1) p2 else p2).
  assert (connection p3 = connection p /\ tp_addr p3 = tp_addr p /\ port p3 = ep.2 mod 2 ^ 16 /\ web_seed p3 = web_seed p /\
    connectable p3 = true /\ seed p3 = seed p) as (E1 & E2 & E3 & E4 & E5 & E6) by (unfold p3; by case_match).
  rewrite E1. repeat case_match; cbn [with_seed with_supports_utp with_supports_holepunch connection tp_addr port web_seed connectable seed];
    rewrite ?E1, ?E2, ?E3, ?E4, ?E5, ?E6, ?orb_true_r, ?orb_false_r; done.
Qed.

Lemma updated_fits src flags ep p : fits p -> fits (updated_peer src flags ep p).
Proof.
  intros H. unfold updated_peer. set (p1 := with_port ep.2 (with_connectable true p)). set (p2 := with_source (Z.lor (source p1) src) p1).
  set (p3 := if (0 <? failcount p2) && (src =? src_tracker) then with_failcount (failcount p2 - 1) p2 else p2).
  assert (fits (with_connectable true p)) as H0 by (by destruct H).
  assert (fits p1) as H1 by by apply (fits_assign _ H0). assert (fits p2) as H2 by by apply (fits_assign _ H1).
  assert (fits p3) as H3 by (unfold p3; case_match; [by apply (fits_assign _ H2)|done]).
  repeat case_match; destruct H3; by split.
Qed.

Lemma update_peer_spec l p src flags ep w : inv w -> heap w !! l = Some p -> l ∈ m_peers (the_list w) ->
  (multiple w = true -> port p = ep.2 mod 2 ^ 16) ->
  wp (update_peer l src flags ep) (fun _ w' => changed l (updated_peer src flags ep p) w w' /\ inv w') w.
Proof.
  intros Hi Hl Hin Hport. pose proof (inv_list _ Hi) as Ho. destruct (updated_same src flags ep p) as (Ea & Ep & Ew & Ec & Ecn & Es).
  assert (web_seed p = false) as Hw by by destruct (proj1 (lo_all _ _ _ _ Ho l p Hl) Hin).
  pose proof (cand_room _ _ _ Ho l p Hl) as Hroom.
  assert (forall L', same_members (the_list w) L' -> m_locked_peer L' = m_locked_peer (the_list w) ->
    m_num_connect_candidates L' = m_num_connect_candidates (the_list w) + (b2z (cand_of (the_list w) (updated_peer src flags ep p)) - b2z (cand_of (the_list w) p)) ->
    m_num_seeds L' = (m_num_seeds (the_list w) + (b2z (seed (updated_peer src flags ep p)) - b2z (seed p))) mod 2 ^ 31 ->
    changed l (updated_peer src flags ep p) w (in_heap (<[l := updated_peer src flags ep p]> (heap w)) (in_the_list L' w)) /\
    inv (in_heap (<[l := updated_peer src flags ep p]> (heap w)) (in_the_list L' w))) as Hfin.
  { intros L' Hm Hk Hca Hse. apply (inv_changed l p); [done|done|by apply updated_fits, (inv_fits _ Hi l)|done| |done|done].
    apply (lo_changed _ _ _ Ho l p); try done; [|by rewrite Hw]. left. unfold peer_key. rewrite Ea, Ep. destruct (multiple w); [by rewrite Hport|done]. }
  clear Ea Ep Ew Ec Ecn. destruct w as [L h cs st t cl]. wsimpl in Hl. wsimpl in Ho. wsimpl in Hroom. wsimpl in Hfin. unfold update_peer. wsteps.
  set (p1 := with_port ep.2 (with_connectable true p)). set (p2 := with_source (Z.lor (source p1) src) p1).
  set (p3 := if (0 <? failcount p2) && (src =? src_tracker) then with_failcount (failcount p2 - 1) p2 else p2).
  set (sf := has_flag flags flag_seed && bool_decide (connection p3 = None)).
  set (p4 := if sf then with_seed true p3 else p3).
  set (L1 := set_m_num_seeds (m_num_seeds L + (b2z (seed p4) - b2z (seed p3))) L).
  assert (L1 = set_m_num_seeds (m_num_seeds L + (b2z (seed p4) - b2z (seed p3))) L) as EL1 by done.
  assert (m_num_seeds L mod 2 ^ 31 = m_num_seeds L) as Emod by by rewrite (lo_seeds _ _ _ _ Ho), Zmod_mod.
  apply (wp_mono _ (fun _ w' => w' = World L1 (<[l := p4]> h) cs st t cl)).
  { apply wp_when; intros E; unfold L1, p4; rewrite E; cbn [seed with_seed].
    - wstep. apply (wp_mono _ (fun _ w' => w' = World (set_m_num_seeds (m_num_seeds L + (b2z true - b2z (seed p3))) L) (<[l := p3]> h) cs st t cl)).
      + apply wp_when; intros Esd; [apply negb_true_iff in Esd|apply negb_false_iff in Esd]; rewrite Esd; [by wsteps|].
        cbn [b2z]. rewrite Z.add_0_r. unfold set_m_num_seeds. rewrite Emod. by destruct L.
      + intros [] w' ->. by apply wp_reassign.
    - rewrite Z.sub_diag, Z.add_0_r. unfold set_m_num_seeds. rewrite Emod. by destruct L. }
  intros [] w' ->. wstep. apply wp_when_reassign. wstep. apply wp_when_reassign.
  change (if has_flag flags flag_holepunch then _ else _) with (updated_peer src flags ep p).
  apply (wp_recount _ l (updated_peer src flags ep p)); [apply lookup_insert_eq|done|]. apply Hfin; try done.
  wsimpl. assert (seed p3 = seed p) as E3 by (unfold p3; by case_match). rewrite <- E3. unfold L1. wsimpl. do 3 f_equal.
  unfold updated_peer. fold p1. fold p2. fold p3. fold sf. fold p4. by repeat case_match.
Qed.

(** ** [add_peer] *)

Section alloc.
Context (alloc : gmap nat torrent_peer -> option nat) (Halloc : forall h l, alloc h = Some l -> h !! l = None).

(** The peer [l] is in the list now, and [rem] are not, of which [P] holds. *)
Record grown (P : torrent_peer -> Prop) (rem : list nat) (l : nat) (p' : torrent_peer) (w w' : world) : Prop := {
  gr_fresh : heap w !! l = None;
  gr_new : heap w' !! l = Some p';
  gr_peers x : x ∈ m_peers (the_list w') <-> x = l \/ (x ∈ m_peers (the_list w) /\ x ∉ rem);
  gr_rem x : x ∈ rem -> x ∈ m_peers (the_list w) /\ m_locked_peer (the_list w) <> Some x /\ exists p, heap w !! x = Some p /\ connection p = None /\ P p;
  gr_kept x p : x ∉ rem -> heap w !! x = Some p -> exists r, heap w' !! x = Some (with_peer_rank r p);
  gr_erased : erased (state w') = erased (state w) ++ rem;
  gr_conns : conns w' = conns w;
  gr_locked : m_locked_peer (the_list w') = m_locked_peer (the_list w);
  gr_state : fresh_state (state w') = fresh_state (state w);
  gr_time : session_time w' = session_time w;
  gr_cleared : cleared w' = cleared w;
}.

Lemma weeded_unpend P rem l p w w1 : heap w !! l = None -> l ∉ rem -> weeded P rem (in_heap (<[l := p]> (heap w)) w) w1 ->
  weeded P rem w (in_heap (delete l (heap w1)) w1).
Proof.
  intros Hl Hn []. wsimpl in we_peers. wsimpl in we_locked. wsimpl in we_erased. wsimpl in we_state. wsimpl in we_conns. wsimpl in we_time. wsimpl in we_cleared.
  split; wsimpl; try done.
  - intros x Hx. destruct (we_rem x Hx) as (Hin & Hlk & q & Hq & Hc & HP). split; [done|]. split; [done|]. exists q. wsimpl in Hq.
    rewrite lookup_insert_ne in Hq by (by intros ->). done.
  - intros x Hx. apply lookup_delete_None. right. by apply we_gone.
  - intros x q Hx Hq. assert (x <> l) by (intros ->; congruence). destruct (we_kept x q Hx) as [r Hr]; [wsimpl; by rewrite lookup_insert_ne by congruence|].
    exists r. by rewrite lookup_delete_ne by congruence.
  - intros x Hx. destruct (decide (x = l)) as [->|Hne]; [apply lookup_delete_eq|]. rewrite lookup_delete_ne by congruence. apply we_none. wsimpl.
    by rewrite lookup_insert_ne by congruence.
Qed.

Lemma weeded_grown P rem l p w w1 j p' L' : heap w !! l = None -> l ∉ m_peers (the_list w) -> weeded P rem (in_heap (<[l := p]> (heap w)) w) w1 ->
  0 <= j <= zlen (m_peers (the_list w1)) -> m_peers L' = insert_index j l (m_peers (the_list w1)) -> m_locked_peer L' = m_locked_peer (the_list w1) ->
  grown P rem l p' w (in_heap (<[l := p']> (heap w1)) (in_the_list L' w1)).
Proof.
  intros Hl Hnp Hw Hj Hp Hk. assert (l ∉ rem) as Hn by (intros Hin; by destruct (we_rem _ _ _ _ Hw l Hin) as [? _]).
  pose proof (weeded_unpend _ _ _ _ _ _ Hl Hn Hw) as Hu. split; wsimpl; [done|apply lookup_insert_eq| | | | | | | | |].
  - intros x. rewrite Hp. destruct (insert_index_split j l (m_peers (the_list w1)) Hj) as (l1 & l2 & Ep & _ & ->).
    pose proof (we_peers _ _ _ _ Hu) as E. wsimpl in E. assert (x ∈ l1 ++ l2 <-> x ∈ m_peers (the_list w) /\ x ∉ rem) as Hx.
    { rewrite <- Ep, E, list_elem_of_filter. tauto. }
    set_solver.
  - apply (we_rem _ _ _ _ Hu).
  - intros x q Hx Hq. destruct (we_kept _ _ _ _ Hu x q Hx Hq) as [r Hr]. wsimpl in Hr. exists r.
    assert (x <> l) by (intros ->; congruence). rewrite lookup_insert_ne by congruence. by rewrite lookup_delete_ne in Hr by congruence.
  - apply (we_erased _ _ _ _ Hu).
  - apply (we_conns _ _ _ _ Hu).
  - rewrite Hk. apply (we_locked _ _ _ _ Hu).
  - apply (we_state _ _ _ _ Hu).
  - apply (we_time _ _ _ _ Hu).
  - apply (we_cleared _ _ _ _ Hu).
Qed.

Lemma new_base ep conn src : base (new_torrent_peer ep conn src).
Proof. done. Qed.

Lemma new_fits ep conn src : fits (new_torrent_peer ep conn src).
Proof. split; cbn; try done; apply Z.mod_pos_bound; lia. Qed.

Lemma weeded_inv_keeps P rem w w' : weeded P rem w w' -> (forall l p, heap w !! l = Some p -> fits p) -> forall l p, heap w' !! l = Some p -> fits p.
Proof.
  intros Hw Hf l p' Hl. destruct (weeded_inv _ _ _ _ _ _ Hw Hl) as (_ & p & r & Hp & ->). specialize (Hf l p Hp). by destruct Hf.
Qed.

Lemma inv_weeded P rem w w' : inv w -> weeded P rem w w' -> list_ok (the_list w') (heap w') (multiple w') None -> inv w'.
Proof.
  intros [Ho Hc Hf] Hw Ho'. split; [done|by eapply weeded_conns|]. by eapply weeded_inv_keeps.
Qed.

(** A new peer was inserted after the list was weeded. *)
Lemma inv_grown P rem l p p' w w1 j L' : inv w -> heap w !! l = None -> l ∉ m_peers (the_list w) ->
  weeded P rem (in_heap (<[l := p]> (heap w)) w) w1 -> list_ok (the_list w1) (heap w1) (multiple w) (Some l) -> is_Some (heap w1 !! l) ->
  inserted j l p' (the_list w1) L' -> place (the_list w1) (heap w1) j (tp_addr p) -> fits p' -> web_seed p' = false ->
  tp_addr p' = tp_addr p -> valid_address (tp_addr p) -> tp_addr p <> any_address -> connection p' = None ->
  fresh_key (the_list w) (heap w) (multiple w) (peer_key (multiple w) p') -> inv (in_heap (<[l := p']> (heap w1)) (in_the_list L' w1)).
Proof.
  intros Hi Hl Hnl Hw Ho1 [q Hq] Hins Hpl Hfp Hweb Ha Hv Hz Hc Hk.
  assert (l ∉ rem) as Hn by (intros Hin; by destruct (we_rem _ _ _ _ Hw l Hin) as [? _]).
  pose proof (weeded_unpend _ _ _ _ _ _ Hl Hn Hw) as Hu. pose proof (lo_pending_out _ _ _ _ _ Ho1 Hq) as Hn1.
  assert (multiple w1 = multiple w) as Em by (by rewrite (proj2 (weeded_max _ _ _ _ Hw))).
  assert (forall x, x ∈ m_peers (the_list w1) -> <[l := p']> (heap w1) !! x = heap w1 !! x) as Hh.
  { intros x Hx. apply lookup_insert_ne. by intros ->. }
  assert (heap (in_heap (<[l := p']> (heap w1)) (in_the_list L' w1)) = <[l := p']> (delete l (heap w1))) as Eh by (wsimpl; by rewrite insert_delete_eq).
  split.
  - unfold multiple in *. wsimpl. rewrite Em. eapply (lo_inserted (the_list w1) L' _ _ j l p'); [by eapply lo_pending_change|apply lookup_insert_eq|done|by rewrite Ha|by rewrite Ha| | |done].
    + rewrite Ha. by eapply place_elsewhere.
    + eapply fresh_elsewhere; [|exact Hh]. eapply weeded_key; [exact Hw|]. wsimpl. eapply fresh_elsewhere; [done|].
      intros x Hx. apply lookup_insert_ne. by intros ->.
  - rewrite Eh. wsimpl. apply co_new; [|apply lookup_delete_eq|done]. apply (weeded_conns _ _ _ _ Hu), (inv_conns _ Hi).
  - rewrite Eh. apply fits_insert; [|done]. eapply (weeded_inv_keeps _ _ _ _ Hu), (inv_fits _ Hi).
Qed.

(** The outcomes of [add_peer]. *)
Inductive added (ep : endpoint) (src flags : Z) (w : world) : option nat -> world -> Prop :=
| added_ignored : ep.1 = any_address \/ ep.2 = 0 \/ v6_link_local ep.1 = true -> added ep src flags w None w
| added_known i l p w1 : zget (m_peers (the_list w)) i = Some l -> heap w !! l = Some p ->
    peer_key (multiple w) p = endpoint_key_of (multiple w) ep -> changed l (updated_peer src flags ep p) w w1 ->
    added ep src flags w (Some l) (in_state (set_first_time_seen false (state w1)) w1)
| added_new rem l r w1 : fresh_key (the_list w) (heap w) (multiple w) (endpoint_key_of (multiple w) ep) ->
    grown (weedable false (the_list w1)) rem l (with_flags flags (with_peer_rank r (new_torrent_peer ep true src))) w w1 ->
    (0 < max_peerlist_size (state w) -> zlen (m_peers (the_list w1)) <= max_peerlist_size (state w)) ->
    added ep src flags w (Some l) (in_state (set_first_time_seen true (state w1)) w1)
| added_refused rem w1 : fresh_key (the_list w) (heap w) (multiple w) (endpoint_key_of (multiple w) ep) ->
    weeded (weedable false (the_list w1)) rem w w1 ->
    alloc (heap w) = None \/ 0 < max_peerlist_size (state w) <= zlen (m_peers (the_list w1)) -> added ep src flags w None w1.

Lemma inv_state w st : inv w -> allow_multiple_connections_per_ip st = multiple w -> inv (in_state st w).
Proof. intros [Ho Hc Hf] Hm. split; [|done|done]. unfold multiple in *. cbn. by rewrite Hm. Qed.

Lemma add_peer_spec rnd ep src flags w : inv w -> valid_address ep.1 -> 0 <= ep.2 < 2 ^ 16 -> settings_ok (state w) ->
  wp (add_peer alloc rnd ep src flags) (fun r w' => added ep src flags w r w' /\ inv w') w.
Proof.
  intros Hi Hv Hep Hst. pose proof (inv_list _ Hi) as Ho. unfold add_peer. case_match eqn:Eig.
  { wstep. split; [|done]. apply added_ignored. rewrite !orb_true_iff, bool_decide_eq_true, Z.eqb_eq in Eig. tauto. }
  rewrite !orb_false_iff, bool_decide_eq_false in Eig. destruct Eig as [[Hz Hp0] Hll].
  wstep. apply (wp_find_place _ None); [done..| |].
  - intros i (l & p & Hl & Hp & Hk). wsteps. eapply wp_mono; [apply (update_peer_spec l p src flags ep w); [done|done|by eapply zget_elem|]|].
    + intros Em. rewrite Em in Hk. injection Hk as _ ->. symmetry. by apply Z.mod_small.
    + intros [] w1 [Hch Hi1]. wsteps. split; [by eapply added_known|]. by apply inv_state.
  - intros i Hpl Hfr. unfold new_entry. wsteps. destruct (alloc (heap w)) as [l|] eqn:El.
    2: { wsteps. split; [|done]. apply (added_refused _ _ _ _ [] w); [done|apply weeded_refl|by left]. }
    apply Halloc in El. assert (l ∉ m_peers (the_list w)) as Hnl.
    { intros Hin. destruct (lo_live _ _ _ _ Ho l Hin) as [q Hq]. congruence. }
    wsteps. set (p := new_torrent_peer ep true src). set (w0 := in_heap (<[l := p]> (heap w)) w).
    assert (forall x, x ∈ m_peers (the_list w) -> heap w0 !! x = heap w !! x) as Hh0.
    { intros x Hx. unfold w0. wsimpl. apply lookup_insert_ne. by intros ->. }
    eapply wp_mono; [apply (insert_peer_spec rnd i l p flags w0)|].
    + by apply lo_pending.
    + unfold w0. wsimpl. apply lookup_insert_eq.
    + apply new_base.
    + done.
    + done.
    + by eapply place_elsewhere.
    + done.
    + intros ok w2 (rem & w1 & r & Hw & Ho1 & Hl1 & Hout). assert (multiple w1 = multiple w) as Em by (by rewrite (proj2 (weeded_max _ _ _ _ Hw))).
      assert (l ∉ rem) as Hnr by (intros Hin; by destruct (we_rem _ _ _ _ Hw l Hin) as [? _]).
      pose proof (weeded_unpend _ _ _ _ _ _ El Hnr Hw) as Hu. destruct ok.
      * destruct Hout as (j & L' & Hins & Hpj & -> & Hsz). wsteps. set (p' := with_flags flags (with_peer_rank r p)) in *.
        destruct (with_flags_same flags (with_peer_rank r p)) as (Ea & Ep & Ew & _ & Ec & Hf). fold p' in Ea, Ep, Ew, Ec, Hf.
        assert (fits p') as Hfp by (apply Hf; by destruct (new_fits ep true src)).
        split; [apply (added_new _ _ _ _ rem l r (in_heap (<[l := p']> (heap w1)) (in_the_list L' w1)))|].
        -- done.
        -- eapply weeded_grown; [done|done|by eapply weeded_weaken; [|done]; intros q; unfold weedable; wsimpl; rewrite (is_fin _ _ _ _ _ Hins), (is_mx _ _ _ _ _ Hins)|apply Hpj|apply (is_peers _ _ _ _ _ Hins)|apply (is_locked _ _ _ _ _ Hins)].
        -- done.
        -- apply inv_state; [|done]. eapply (inv_grown _ rem l p p' w w1 j); try done.
           assert (peer_key (multiple w) p' = endpoint_key_of (multiple w) ep) as ->; [|done].
           unfold peer_key, endpoint_key_of. rewrite Ea, Ep. cbn [with_peer_rank new_torrent_peer p tp_addr port]. by rewrite Z.mod_small.
      * destruct Hout as [-> Hfull]. wsteps. split.
        -- eapply (added_refused _ _ _ _ rem (in_heap (delete l (heap w1)) w1)); [done|done|by right].
        -- eapply inv_weeded; [done|done|]. change (list_ok (the_list w1) (delete l (heap w1)) (multiple w1) None). rewrite Em. by eapply lo_drop.
Qed.
End alloc.
