(* ===== verification/PeerListConn.v ===== *)
(** * Connections and their peers

    [new_connection] with the part of the torrent's [attach_peer] around it,
    [connect_to_peer] and [update_peer_port]: which of two connections to a
    peer stays, when a connection is refused, and that a peer that is freed on
    the way is reported to the piece picker ([keeps]). *)

From Stdlib Require Import ZArith Lia.
From stdpp Require Import base numbers gmap sorting list.
From S2P Require Import Prelude IpFilter IpFilterSpec IpFilterTheorems PeerState PeerList PeerListSpec PeerListErase PeerListOps PeerListAdd.

(** ** What every operation keeps *)

(** The invariant holds, and a peer that was freed is reported. *)
Record keeps (w w' : world) : Prop := {
  ke_inv : inv w';
  ke_reported x : reported w x -> reported w' x;
  ke_freed x p : heap w !! x = Some p -> heap w' !! x = None -> reported w' x;
  ke_state : fresh_state (state w') = fresh_state (state w);
  ke_time : session_time w' = session_time w;
  ke_locked : m_locked_peer (the_list w) = None -> m_locked_peer (the_list w') = None;
}.

Lemma keeps_refl w : inv w -> keeps w w.
Proof. intros H. split; try done. congruence. Qed.

Lemma keeps_trans w w1 w' : keeps w w1 -> keeps w1 w' -> keeps w w'.
Proof.
  intros [] []. split; try congruence; auto. intros x p Hx Hn. destruct (heap w1 !! x) as [q|] eqn:E; eauto.
Qed.

Lemma keeps_multiple w w' : keeps w w' -> multiple w' = multiple w.
Proof.
  intros H. unfold multiple.
  assert (allow_multiple_connections_per_ip (fresh_state (state w')) = allow_multiple_connections_per_ip (fresh_state (state w))) as E by by rewrite (ke_state _ _ H).
  exact E.
Qed.

(** No peer is freed. *)
Lemma keeps_live w w' : inv w' -> (forall x p, heap w !! x = Some p -> is_Some (heap w' !! x)) -> erased (state w') = erased (state w) ->
  cleared w' = cleared w -> fresh_state (state w') = fresh_state (state w) -> session_time w' = session_time w ->
  (m_locked_peer (the_list w) = None -> m_locked_peer (the_list w') = None) -> keeps w w'.
Proof.
  intros Hi Hh He Hc Hs Ht Hk. split; try done; [intros x; unfold reported; by rewrite He, Hc|].
  intros x p Hx Hn. destruct (Hh x p Hx). congruence.
Qed.

Lemma keeps_changed l p' w w' : changed l p' w w' -> inv w' -> keeps w w'.
Proof.
  intros (L' & -> & _ & Hk) Hi. apply keeps_live; try done; wsimpl; [|by rewrite Hk]. intros x p Hx.
  destruct (decide (x = l)) as [->|Hn]; [by rewrite lookup_insert_eq|by rewrite lookup_insert_ne by congruence].
Qed.

Lemma keeps_weeded P rem w w' : weeded P rem w w' -> inv w' -> keeps w w'.
Proof.
  intros H Hi. split; try done; [| |apply (we_state _ _ _ _ H)|apply (we_time _ _ _ _ H)|by rewrite (we_locked _ _ _ _ H)].
  - intros x. unfold reported. rewrite (we_erased _ _ _ _ H), (we_cleared _ _ _ _ H). set_solver.
  - intros x p Hx Hn. left. rewrite (we_erased _ _ _ _ H). destruct (decide (x ∈ rem)); [set_solver|].
    destruct (we_kept _ _ _ _ H x p) as [r Hr]; [done|done|]. congruence.
Qed.

Lemma closing_locked c w w' : closing c w w' -> m_locked_peer (the_list w') = m_locked_peer (the_list w).
Proof.
  intros [cn cn' _ _ ->|cn' l p p' L' _ _ _ _ _ _ Hk ->|cn' i l p L1 L' _ _ _ _ _ _ Hk _ Hel ->]; wsimpl; [done|done|]. by rewrite (el_locked _ _ _ _ Hel).
Qed.

Lemma keeps_closing c w w' : closing c w w' -> inv w' -> keeps w w'.
Proof.
  intros Hcl Hi. pose proof (closing_locked _ _ _ Hcl) as Hk. revert Hi Hk.
  destruct Hcl as [cn cn' _ _ ->|cn' l p p' L' Hl _ _ _ _ _ _ ->|cn' i l p L1 L' Hl _ _ _ _ _ _ _ _ ->]; intros Hi Hk.
  - apply keeps_live; try done; eauto.
  - apply keeps_live; try done; wsimpl; [|wsimpl in Hk; by rewrite Hk]. intros x q Hx.
    destruct (decide (x = l)) as [->|Hn]; [by rewrite lookup_insert_eq|by rewrite lookup_insert_ne by congruence].
  - split; try done; wsimpl; [intros x [?|?]; [by left|right; wsimpl; set_solver]| |wsimpl in Hk; by rewrite Hk]. intros x q Hx Hn.
    destruct (decide (x = l)) as [->|Hne]; [right; wsimpl; set_solver|]. rewrite lookup_delete_ne in Hn by congruence. congruence.
Qed.

Lemma keeps_erased l L' w : inv (erased_world l L' w) -> m_locked_peer L' = m_locked_peer (the_list w) -> keeps w (erased_world l L' w).
Proof.
  intros Hi Hk. split; try done; unfold reported, erased_world; cbn [state erased set_erased cleared heap the_list]; [set_solver| |by rewrite Hk].
  intros x p Hx Hn. destruct (decide (x = l)) as [->|Hne]; [set_solver|]. rewrite lookup_delete_ne in Hn by congruence. congruence.
Qed.

Lemma keeps_drops g w w' : (forall l, Decision (g l)) -> drops g w w' -> keeps w w'.
Proof.
  intros Hdec []. split; try done; [auto| |by rewrite dr_locked]. intros x p Hx Hn. apply dr_reported. destruct (Hdec x) as [?|Hg]; [by left|].
  rewrite dr_kept in Hn by done. congruence.
Qed.

(** A call with a [torrent_state] of its own reports what it erased. *)
Definition after_call (w w1 : world) : world :=
  World (the_list w1) (heap w1) (conns w1) (state w) (session_time w1) (cleared w1 ++ erased (state w1)).

Lemma inv_call w w1 : keeps (in_state (fresh_state (state w)) w) w1 -> inv (after_call w w1).
Proof.
  intros H. pose proof (keeps_multiple _ _ H) as Em. destruct (ke_inv _ _ H) as [Ho Hc Hf]. split; [|done|done].
  rewrite Em in Ho. done.
Qed.

Lemma keeps_call w w1 : keeps (in_state (fresh_state (state w)) w) w1 -> keeps w (after_call w w1).
Proof.
  intros H. pose proof (inv_call _ _ H) as Hi. destruct H as [_ Hr Hd Hs Ht]. unfold reported in *. cbn [state cleared heap in_state erased fresh_state] in *.
  split; try done; unfold reported, after_call; cbn [state cleared heap erased].
  - intros x [?|?]; [by left|]. right. destruct (Hr x); [by right|set_solver|set_solver].
  - intros x p Hx Hn. right. destruct (Hd x p Hx Hn); set_solver.
Qed.

Lemma inv_locked o w : inv w -> inv (in_the_list (set_m_locked_peer o (the_list w)) w).
Proof. intros [Ho Hc Hf]. split; [|done|done]. wsimpl. destruct Ho. by split. Qed.

(** ** A peer and its connection part *)

(** The connection of [l] was closed while [l] was locked. *)
Definition parted (l c : nat) (p p' : torrent_peer) (w w' : world) : Prop :=
  exists L' cn', w' = World L' (<[l := p']> (heap w)) (<[c := cn']> (conns w)) (state w) (session_time w) (cleared w) /\
    same_members (the_list w) L' /\ m_locked_peer L' = None /\ same_peer p p' /\ connection p' = None.

Lemma disconnect_locked_spec l c p w : inv w -> heap w !! l = Some p -> connection p = Some c ->
  wp (disconnect_locked l c) (fun _ w' => inv w' /\ closed c w' /\ exists p', parted l c p p' w w') w.
Proof.
  intros Hi Hl Hc. destruct (co_peer _ _ (inv_conns _ Hi) l p c Hl Hc) as (cn & Hcn & Hpi & _). unfold disconnect_locked. wsteps.
  set (w0 := in_the_list (set_m_locked_peer (Some l) (the_list w)) w). assert (inv w0) as Hi0 by by apply inv_locked.
  eapply wp_mono; [by apply (disconnect_spec c 0 cn w0)|]. intros [] w1 (Hcl & Hi1 & Hd1).
  destruct Hcl as [cn0 cn' Hcn0 Hpn ->|cn' l0 p0 p' L' Hl0 Hc0 Hsame Hnone _ Hm Hk ->|cn' i l0 p0 L1 L' Hl0 Hc0 _ _ Hk0 _ _ _ _ ->].
  - unfold w0 in Hcn0. wsimpl in Hcn0. congruence.
  - assert (l0 = l) as -> by exact (conn_inj w0 l0 l p0 p c Hi0 Hl0 Hc0 Hl Hc). assert (p0 = p) as -> by (unfold w0 in Hl0; wsimpl in Hl0; congruence).
    wsteps. pose proof (inv_locked None _ Hi1) as Hi2. split; [done|]. split; [done|]. exists p'. by exists (set_m_locked_peer None L'), cn'.
  - assert (l0 = l) as -> by exact (conn_inj w0 l0 l p0 p c Hi0 Hl0 Hc0 Hl Hc). done.
Qed.

Lemma parted_keeps l c p p' w w' : heap w !! l = Some p -> inv w' -> parted l c p p' w w' -> keeps w w'.
Proof.
  intros Hl Hi (L' & cn' & -> & _ & Hk & _). apply keeps_live; try done. wsimpl. intros x q Hx.
  destruct (decide (x = l)) as [->|Hn]; [by rewrite lookup_insert_eq|by rewrite lookup_insert_ne by congruence].
Qed.

Lemma disconnect_keeps c e cn w : inv w -> conns w !! c = Some cn ->
  wp (disconnect c e) (fun _ w' => keeps w w' /\ closing c w w' /\ closed c w') w.
Proof.
  intros Hi Hcn. eapply wp_mono; [by eapply disconnect_spec|]. intros [] w' (H1 & H2 & H3). split; [by eapply keeps_closing|done].
Qed.

(** Other connections are left alone. *)
Lemma closing_others c w w' c' : closing c w w' -> c' <> c -> conns w' !! c' = conns w !! c'.
Proof. intros [cn cn' _ _ ->|cn' l p p' L' _ _ _ _ _ _ _ ->|cn' i l p L1 L' _ _ _ _ _ _ _ _ _ ->] Hn; wsimpl; by rewrite lookup_insert_ne. Qed.

(** A peer whose connection [cn] was closed at [now]: a failure counts, up to
    the 31 that the field holds, the time is kept but for a fast reconnect, and
    what the connection has moved is added up in units of 1024 bytes. *)
Record left_by (now : Z) (cn : peer_connection) (p p' : torrent_peer) : Prop := {
  lb_same : same_peer p p';
  lb_connection : connection p' = None;
  lb_unchoked : optimistically_unchoked p' = false;
  lb_failcount : failcount p' = if failed cn then Z.min 31 (failcount p + 1) else failcount p;
  lb_time : last_connected p' = if fast_reconnect cn then last_connected p else now mod 2 ^ 16;
  lb_download : prev_amount_download p' = (prev_amount_download p + payload_download cn / 1024) mod 2 ^ 32;
  lb_upload : prev_amount_upload p' = (prev_amount_upload p + payload_upload cn / 1024) mod 2 ^ 32;
}.

Lemma closed_left_by now cn p : fits p -> left_by now cn p (closed_peer now cn (banked cn p)).
Proof.
  intros Hf. pose proof (fit_failcount _ Hf) as H. destruct (closed_same now cn (banked cn p)) as [Hs Hn].
  unfold closed_peer in *. split; [exact Hs|exact Hn|..]; destruct (fast_reconnect cn), (failed cn); cbn;
    try destruct (Z.ltb_spec (failcount p) 31); cbn; try done; try (unfold u32; by rewrite Z.shiftr_div_pow2 by lia); rewrite ?Z.mod_small by lia; lia.
Qed.

(** Closing a connection that has a peer. *)
Lemma disconnect_parts_spec c e cn l p w : inv w -> conns w !! c = Some cn -> peer_info cn = Some l -> heap w !! l = Some p ->
  wp (disconnect c e) (fun _ w' => keeps w w' /\ closed c w' /\
    (forall c', c' <> c -> conns w' !! c' = conns w !! c') /\ (forall l', l' <> l -> heap w' !! l' = heap w !! l') /\
    if frees w l p then heap w' !! l = None /\ l ∉ m_peers (the_list w') /\ l ∈ cleared w'
    else exists p', heap w' !! l = Some p' /\ left_by (session_time w) (marked e cn) p p') w.
Proof.
  intros Hi Hcn Hpi Hl. destruct (co_conn _ _ (inv_conns _ Hi) c cn l Hcn Hpi) as (p0 & Hl0 & Hc). assert (p0 = p) as -> by congruence.
  eapply wp_mono; [by apply (disconnect_exact c e cn w)|]. intros [] w' [(Hcl & Hi' & Hd) Hpa]. specialize (Hpa l p Hpi Hl).
  split; [by eapply keeps_closing|]. split; [done|]. split; [intros c' Hne; by eapply closing_others|].
  assert (forall l', l' <> l -> heap w' !! l' = heap w !! l') as Hothers.
  { intros l' Hne. destruct Hcl as [cn0 cn' Hcn0 Hp0 ->|cn' l0 q q' L' Hq Hc0 _ _ _ _ _ ->|cn' i l0 q L1 L' Hq Hc0 _ _ _ _ _ _ _ ->]; wsimpl; [done|..];
      assert (l0 = l) as -> by exact (conn_inj w l0 l q p c Hi Hq Hc0 Hl Hc); [by rewrite lookup_insert_ne|by rewrite lookup_delete_ne]. }
  split; [done|]. unfold peer_after in Hpa. destruct (frees w l p) eqn:Ef.
  - split; [done|]. split.
    + intros Hin. destruct (lo_live _ _ _ _ (inv_list _ Hi') l Hin). congruence.
    + destruct Hcl as [cn0 cn' Hcn0 Hp0 ->|cn' l0 q q' L' Hq Hc0 _ _ _ _ _ ->|cn' i l0 q L1 L' Hq Hc0 _ _ _ _ _ _ _ ->]; wsimpl in Hpa; [congruence|..];
        assert (l0 = l) as -> by exact (conn_inj w l0 l q p c Hi Hq Hc0 Hl Hc); [by rewrite lookup_insert_eq in Hpa|wsimpl; set_solver].
  - eexists. split; [exact Hpa|]. assert (fits p) as Hf by by apply (inv_fits _ Hi l). destruct (closed_left_by (session_time w) (marked e cn) p Hf). split; done.
Qed.

(** A connection without a peer is closed. *)
Lemma disconnect_alone_spec c e cn w : inv w -> conns w !! c = Some cn -> peer_info cn = None ->
  wp (disconnect c e) (fun _ w' => keeps w w' /\ closed c w' /\ exists cn', w' = in_conns (<[c := cn']> (conns w)) w) w.
Proof.
  intros Hi Hcn Hn. eapply wp_mono; [by eapply disconnect_keeps|]. intros [] w' (Hk & Hcl & Hd). split; [done|]. split; [done|].
  destruct Hcl as [cn0 cn' Hcn0 Hpn ->|cn' l p p' L' Hl Hc|cn' i l p L1 L' Hl Hc].
  - by exists cn'.
  - destruct (co_peer _ _ (inv_conns _ Hi) l p c Hl Hc) as (cn1 & ? & ? & _). congruence.
  - destruct (co_peer _ _ (inv_conns _ Hi) l p c Hl Hc) as (cn1 & ? & ? & _). congruence.
Qed.

(** ** Two connections to a peer *)

(** The connection is one to this client itself. *)
Definition self_connection (cn co : peer_connection) : bool :=
  bool_decide (remote co = local_endpoint cn) || bool_decide (local_endpoint co = remote cn).

(** Whether the new connection stays: the ports of the two ends that listen
    decide. *)
Definition keep_new (cn co : peer_connection) : bool :=
  negb (self_connection cn co) && negb (eqb (is_outgoing co) (is_outgoing cn)) &&
  let '(inc, out) := if is_outgoing cn then (co, cn) else (cn, co) in
  eqb (is_outgoing cn) ((local_endpoint inc).2 <? (remote out).2).

Lemma resolve_duplicate_spec l c old cn co p w : inv w -> heap w !! l = Some p -> connection p = Some old -> conns w !! old = Some co ->
  conns w !! c = Some cn -> peer_info cn = None ->
  wp (resolve_duplicate l c old) (fun go w' => go = keep_new cn co /\ keeps w w' /\
    if go then closed old w' /\ exists p', parted l old p p' w w'
    else closed c w' /\ if self_connection cn co then closed old w' else exists cn', w' = in_conns (<[c := cn']> (conns w)) w) w.
Proof.
  intros Hi Hl Hc Hco Hcn Hn. unfold resolve_duplicate, keep_new. wsteps. fold (self_connection cn co).
  destruct (co_peer _ _ (inv_conns _ Hi) l p old Hl Hc) as (co' & Hco' & Hpi & _). assert (c <> old) as Hne by congruence.
  assert (forall e, self_connection cn co = false -> wp (disconnect c e;; mret false) (fun go w' => go = false /\ keeps w w' /\
    if go : bool then closed old w' /\ exists p', parted l old p p' w w'
    else closed c w' /\ exists cn', w' = in_conns (<[c := cn']> (conns w)) w) w) as Hdrop.
  { intros e _. wstep. eapply wp_mono; [by apply (disconnect_alone_spec c e cn w)|]. intros [] w' (? & ? & ?). by wsteps. }
  assert (wp (disconnect_locked l old;; mret true) (fun go w' => go = true /\ keeps w w' /\
    if go : bool then closed old w' /\ exists p', parted l old p p' w w'
    else closed c w' /\ exists cn', w' = in_conns (<[c := cn']> (conns w)) w) w) as Hkeep.
  { wstep. eapply wp_mono; [by apply (disconnect_locked_spec l old p w)|]. intros [] w' (Hi' & Hd' & p' & Hp'). wsteps.
    split; [done|]. split; [by eapply parted_keeps|split; [done|by exists p']]. }
  destruct (self_connection cn co); cbn [negb andb].
  - wstep. eapply wp_mono; [by apply (disconnect_alone_spec c 1 cn w)|]. intros [] w1 (Hk1 & (cn1 & Hcn1 & Hd1) & cn' & ->).
    wstep. eapply wp_mono; [eapply (disconnect_keeps old 1 co); [apply (ke_inv _ _ Hk1)|wsimpl; by rewrite lookup_insert_ne]|].
    intros [] w2 (Hk2 & Hcl2 & Hd2). wsteps. split; [done|]. split; [by eapply keeps_trans|]. split; [|done]. exists cn1. split; [|done].
    by rewrite (closing_others _ _ _ _ Hcl2).
  - specialize (fun e => Hdrop e eq_refl). destruct (eqb (is_outgoing co) (is_outgoing cn)); cbn [negb andb]; [apply Hdrop|].
    destruct (is_outgoing cn); cbn [negb eqb]; [destruct ((local_endpoint co).2 <? (remote cn).2)|destruct ((local_endpoint cn).2 <? (remote co).2)];
      first [apply Hdrop|apply Hkeep].
Qed.

(** ** A peer and a connection meet *)

(** A peer that is connected is not counted. *)
Definition uncounted (p : torrent_peer) (L : peer_list) : peer_list :=
  set_m_num_connect_candidates (m_num_connect_candidates L - b2z (cand_of L p)) L.

Lemma uncounted_not L p : cand_of L p = false -> uncounted p L = L.
Proof. intros E. unfold uncounted. rewrite E. cbn [b2z]. rewrite Z.sub_0_r. by destruct L. Qed.

(** Whether the connection [c] to a known peer goes on. *)
Definition accepts (w : world) (cn : peer_connection) (p : torrent_peer) : bool :=
  negb (banned p) &&
  match connection p with
  | None => true
  | Some old => match conns w !! old with Some co => keep_new cn co | None => false end
  end.

(** The peer [l] is in the list, without a connection. *)
Definition idle (l : nat) (p : torrent_peer) (w : world) : Prop :=
  l ∈ m_peers (the_list w) /\ heap w !! l = Some p /\ connection p = None.

Lemma known_peer_spec l c cn p w : inv w -> l ∈ m_peers (the_list w) -> heap w !! l = Some p -> conns w !! c = Some cn -> peer_info cn = None ->
  wp (known_peer l c) (fun go w' => go = accepts w cn p /\
    if go then exists w1 p1, keeps w w1 /\ idle l p1 w1 /\ same_peer p p1 /\ conns w1 !! c = Some cn /\ w' = in_the_list (uncounted p1 (the_list w1)) w1
    else keeps w w' /\ closed c w') w.
Proof.
  intros Hi Hin Hl Hcn Hn. unfold known_peer, accepts. wsteps. destruct (banned p); cbn [negb andb].
  { wstep. eapply wp_mono; [by apply (disconnect_alone_spec c 0 cn w)|]. intros [] w' (? & ? & _). by wsteps. }
  assert (forall w1 p1, keeps w w1 -> idle l p1 w1 -> same_peer p p1 -> conns w1 !! c = Some cn ->
    wp (cand ← is_connect_candidate l; when cand (update_connect_candidates (-1));; mret true) (fun go w' => go = true /\
      if go then exists w1 p1, keeps w w1 /\ idle l p1 w1 /\ same_peer p p1 /\ conns w1 !! c = Some cn /\ w' = in_the_list (uncounted p1 (the_list w1)) w1
      else keeps w w' /\ closed c w') w1) as Hgo.
  { intros w1 p1 Hk Hid Hs Hc1. pose proof (inv_list _ (ke_inv _ _ Hk)) as Ho1. pose proof (proj1 (proj2 Hid)) as Hl1. wsteps.
    apply (wp_uncount p1); [by apply (cand_room _ _ _ Ho1 l)|]. wsteps. split; [done|]. by exists w1, p1. }
  destruct (connection p) as [old|] eqn:Ec.
  - destruct (co_peer _ _ (inv_conns _ Hi) l p old Hl Ec) as (co & Hco & Hpi & _). rewrite Hco. wstep.
    eapply wp_mono; [by apply (resolve_duplicate_spec l c old cn co p w)|]. intros go w1 (-> & Hk & H). destruct (keep_new cn co); cbn [negb]; [|destruct H; by wsteps].
    destruct H as (_ & p1 & L' & cn' & Ew & Hm & _ & Hs & Hc1). apply (Hgo w1 p1); [done| |done|].
    + rewrite Ew. split; wsimpl; [by rewrite (proj1 Hm)|]. by rewrite lookup_insert_eq.
    + rewrite Ew. wsimpl. rewrite lookup_insert_ne; [done|]. congruence.
  - wsteps. apply (Hgo w p); try done. by apply keeps_refl.
Qed.

Definition attached_peer (now : Z) (c : nat) (cn : peer_connection) (p : torrent_peer) : torrent_peer :=
  let p := with_connection (Some c) (with_prev_amount_upload 0 (with_prev_amount_download 0 p)) in
  if fast_reconnect cn then p else with_last_connected now p.

Definition attached_conn (l : nat) (p : torrent_peer) (cn : peer_connection) : peer_connection :=
  let cn := conn_with_peer_info (Some l) cn in
  conn_with_payload_upload (payload_upload cn + Z.shiftl (prev_amount_upload p) 10)
    (conn_with_payload_download (payload_download cn + Z.shiftl (prev_amount_download p) 10) cn).

Definition met (l c : nat) (p : torrent_peer) (cn : peer_connection) (w : world) : world :=
  World (uncounted p (the_list w)) (<[l := attached_peer (session_time w) c cn p]> (heap w)) (<[c := attached_conn l p cn]> (conns w))
    (state w) (session_time w) (cleared w).

Lemma attach_spec l c p cn w : heap w !! l = Some p -> conns w !! c = Some cn ->
  wp (attach l c) (fun ok w' => ok = true /\ w' = met l c p cn w) (in_the_list (uncounted p (the_list w)) w).
Proof.
  intros Hl Hcn. destruct w as [L h cs st t cl]. wsimpl in Hl. wsimpl in Hcn. wsimpl. unfold attach. wsteps.
  eapply wp_set_conn; [wsimpl; apply lookup_insert_eq|]. wsimpl. rewrite insert_insert_eq. wsteps.
  unfold met, attached_peer, attached_conn. wsimpl. destruct (fast_reconnect cn); cbn [negb when]; by wsteps.
Qed.

Lemma attached_same now c cn p : same_peer p (attached_peer now c cn p) /\ connection (attached_peer now c cn p) = Some c.
Proof. unfold attached_peer. by case_match. Qed.

Lemma attached_fits now c cn p : fits p -> fits (attached_peer now c cn p).
Proof.
  intros H. unfold attached_peer. set (q := with_connection _ _). assert (fits q) as Hq.
  { destruct (fits_assign _ H) as (_ & H1 & _). destruct (fits_assign _ (H1 0)) as (H2 & _). by destruct (H2 0). }
  case_match; [done|]. by apply (fits_assign q Hq).
Qed.

(** The torrent puts the connection into its list: they have met. *)
Lemma met_inv l c p cn w : inv w -> idle l p w -> conns w !! c = Some cn -> peer_info cn = None -> disconnecting cn = false ->
  inv (in_conns (<[c := conn_with_attached true (attached_conn l p cn)]> (conns w)) (met l c p cn w)).
Proof.
  intros [Ho Hc Hf] (Hin & Hl & Hp) Hcn Hn Hd. destruct (attached_same (session_time w) c cn p) as [Hs Hcp].
  split; unfold met; wsimpl; [| |by apply fits_insert; [|apply attached_fits, (Hf l)]].
  - assert (list_ok (uncounted p (the_list w)) (<[l := attached_peer (session_time w) c cn p]> (heap w)) (multiple w) None); [|done].
    destruct (proj1 (lo_all _ _ _ _ Ho l p Hl) Hin) as [Hw _].
    apply (lo_recounted _ _ _ Ho l p); try done; try apply Hs; [congruence|left; by apply same_peer_key|].
    unfold uncounted. wsimpl. unfold cand_of at 2. rewrite (connected_not_candidate _ _ _ c) by done. cbn [b2z]. lia.
  - eapply co_open; try done. intros cn0 Hcn0. congruence.
Qed.

Lemma met_keeps l c p cn w : inv w -> idle l p w -> conns w !! c = Some cn -> peer_info cn = None -> disconnecting cn = false ->
  keeps w (in_conns (<[c := conn_with_attached true (attached_conn l p cn)]> (conns w)) (met l c p cn w)).
Proof.
  intros Hi Hid Hcn Hn Hd. apply keeps_live; try done; [by apply met_inv|]. unfold met. wsimpl. intros x q Hx.
  destruct (decide (x = l)) as [->|Hne]; [by rewrite lookup_insert_eq|by rewrite lookup_insert_ne by congruence].
Qed.

(** ** Connections that come in *)

Lemma insert_at_spec i l p w (Q : unit -> world -> Prop) : list_ok (the_list w) (heap w) (multiple w) (Some l) -> heap w !! l = Some p ->
  cand_of (the_list w) p = false -> seed p = false -> (forall L', inserted i l p (the_list w) L' -> Q tt (in_the_list L' w)) -> wp (insert_at i l) Q w.
Proof.
  intros Ho Hl Hc Hs HQ. destruct w as [L h cs st t cl]. wsimpl in Ho. wsimpl in Hc. wsimpl in HQ. unfold insert_at. wsteps.
  assert (forall rr, rr = (if i <=? m_round_robin L then m_round_robin L + 1 else m_round_robin L) ->
    inserted i l p L (set_m_round_robin rr (set_m_peers (insert_index i l (m_peers L)) L))) as Hins.
  { intros rr ->. split; try done; wsimpl; [by rewrite Hc, Z.add_0_r|]. by rewrite Hs, Z.add_0_r, (lo_seeds _ _ _ _ Ho), Zmod_mod. }
  apply wp_when; intros E; rewrite E in Hins; [wsteps; by apply HQ, Hins|]. specialize (HQ _ (Hins _ eq_refl)). by destruct L.
Qed.

Definition incoming_entry (ep : endpoint) : torrent_peer := with_source src_incoming (new_torrent_peer ep false 0).

Section alloc.
Context (alloc : gmap nat torrent_peer -> option nat) (Halloc : forall h l, alloc h = Some l -> h !! l = None).

(** Why a connection is refused: there is no memory or no room. *)
Definition no_room (w : world) : Prop := alloc (heap w) = None \/ 0 < max_peerlist_size (state w) <= zlen (m_peers (the_list w)).

Lemma incoming_peer_spec rnd c cn ep i w : inv w -> valid_address ep.1 -> ep.1 <> any_address -> settings_ok (state w) ->
  place (the_list w) (heap w) i ep.1 -> fresh_key (the_list w) (heap w) (multiple w) (endpoint_key_of (multiple w) (ep.1, ep.2 mod 2 ^ 16)) ->
  conns w !! c = Some cn -> peer_info cn = None ->
  wp (incoming_peer alloc rnd c ep i) (fun r w' => keeps w w' /\
    match r with
    | Some l => idle l (incoming_entry ep) w' /\ conns w' = conns w /\
        (0 < max_peerlist_size (state w) -> zlen (m_peers (the_list w')) <= max_peerlist_size (state w))
    | None => no_room w' /\ exists cn', conns w' !! c = Some cn' /\ peer_info cn' = None
    end) w.
Proof.
  intros Hi Hv Hz Hst Hpl Hfr Hcn Hn. unfold incoming_peer. wsteps.
  set (post := fun (r : option nat) (w' : world) => keeps w w' /\ _).
  assert (forall rem w1 j, weeded (weedable true (the_list w1)) rem w w1 -> inv w1 -> place (the_list w1) (heap w1) j ep.1 ->
    (0 < max_peerlist_size (state w) -> zlen (m_peers (the_list w1)) < max_peerlist_size (state w)) ->
    wp (e ← new_entry alloc ep false 0;
        match e with None => mret None | Some l => insert_at j l;; assign l (with_source src_incoming);; mret (Some l) end) post w1) as Hnew.
  { intros rem w1 j Hw Hi1 Hpj Hsz. pose proof (keeps_weeded _ _ _ _ Hw Hi1) as Hk1. unfold new_entry. wsteps.
    destruct (alloc (heap w1)) as [l|] eqn:El.
    2: { wsteps. split; [done|]. split; [by left|]. exists cn. by rewrite (we_conns _ _ _ _ Hw). }
    apply Halloc in El. pose proof (inv_list _ Hi1) as Ho1. set (p := new_torrent_peer ep false 0).
    assert (l ∉ m_peers (the_list w1)) as Hnl by (intros Hin; destruct (lo_live _ _ _ _ Ho1 l Hin); congruence).
    set (w2 := in_heap (<[l := p]> (heap w1)) w1). assert (list_ok (the_list w2) (heap w2) (multiple w2) (Some l)) as Ho2 by by apply lo_pending.
    assert (heap w2 !! l = Some p) as Hl2 by apply lookup_insert_eq. wsteps. apply (insert_at_spec j l p w2); [done|done| |done|].
    { unfold cand_of, connect_candidate. by rewrite !orb_true_r. }
    intros L' Hins. wsteps. change (with_source src_incoming p) with (incoming_entry ep).
    change (post (Some l) (in_heap (<[l := incoming_entry ep]> (heap w1)) (in_the_list L' w1))).
    assert (inserted j l (incoming_entry ep) (the_list w1) L') as Hins' by (by destruct Hins).
    assert (inv (in_heap (<[l := incoming_entry ep]> (heap w1)) (in_the_list L' w1))) as Hi2.
    { assert (in_heap (<[l := incoming_entry ep]> (heap w2)) (in_the_list L' w2) = in_heap (<[l := incoming_entry ep]> (heap w1)) (in_the_list L' w1)) as <-.
      { unfold w2, in_heap. wsimpl. by rewrite insert_insert_eq. }
      eapply (inv_grown (fun _ => True) [] l p (incoming_entry ep) w1 w2 j L'); try done; [apply weeded_refl|by eapply place_elsewhere; [|intros x Hx; apply lookup_insert_ne; intros ->]| |].
      - apply (fits_assign p (new_fits ep false 0)).
      - eapply weeded_key; [done|]. assert (multiple w1 = multiple w) as -> by (by rewrite (proj2 (weeded_max _ _ _ _ Hw))). done. }
    split; [|split_and!].
    - eapply keeps_trans; [done|]. apply keeps_live; try done; wsimpl; [|by rewrite (is_locked _ _ _ _ _ Hins')]. intros x q Hx.
      destruct (decide (x = l)) as [->|Hne]; [by rewrite lookup_insert_eq|by rewrite lookup_insert_ne by congruence].
    - unfold idle. wsimpl. split; [|by rewrite lookup_insert_eq]. rewrite (is_peers _ _ _ _ _ Hins').
      destruct (insert_index_split j l _ (proj1 Hpj)) as (l1 & l2 & _ & _ & ->). set_solver.
    - apply (we_conns _ _ _ _ Hw).
    - intros Hmax. wsimpl. rewrite (is_peers _ _ _ _ _ Hins'). destruct (insert_index_split j l _ (proj1 Hpj)) as (l1 & l2 & Ep & _ & ->).
      specialize (Hsz Hmax). rewrite Ep in Hsz. zlia. }
  case_match eqn:Efull.
  2: { wstep. apply andb_false_iff in Efull. apply (Hnew [] w i); [apply weeded_refl|done|done|]. intros Hmax.
       destruct Efull as [E%negb_false_iff%Z.eqb_eq|E%Z.leb_gt]; lia. }
  apply andb_true_iff in Efull as [Emax%negb_true_iff%Z.eqb_neq Esz%Z.leb_le]. unfold settings_ok in Hst. wstep.
  apply (wp_erase_peers rnd true (multiple w) None); [apply (inv_list _ Hi)|lia|]. intros rem w1 Hw Ho1 _.
  assert (inv w1) as Hi1 by (eapply inv_weeded; [done|done|]; by rewrite (proj2 (weeded_max _ _ _ _ Hw))). wsteps.
  destruct (Z.leb_spec (max_peerlist_size (state w)) (zlen (m_peers (the_list w1)))) as [Hle|Hgt].
  - assert (conns w1 !! c = Some cn) as Hcn1 by by rewrite (we_conns _ _ _ _ Hw).
    wstep. eapply wp_mono; [by apply (disconnect_alone_spec c 0 cn w1)|]. intros [] w2 (Hk2 & (cn2 & Hcn2 & Hd2) & cn' & ->). wsteps.
    split; [eapply keeps_trans; [by eapply keeps_weeded|done]|]. split; [right; wsimpl; rewrite (proj1 (weeded_max _ _ _ _ Hw)); lia|].
    exists cn2. split; [done|]. eapply alone_conn; [apply (ke_inv _ _ Hk2)|done|by right].
  - wstep. apply (wp_lower_address _ _ _ _ Ho1); [done..|]. intros k Hk. wstep. apply (Hnew rem w1 k); try done. by apply splits_lower.
Qed.

(** The peer the list has for the endpoint. *)
Definition known_as (ep : endpoint) (w : world) (p : torrent_peer) : Prop :=
  exists l, l ∈ m_peers (the_list w) /\ heap w !! l = Some p /\ peer_key (multiple w) p = endpoint_key_of (multiple w) ep.

(** The connection of a peer that is known is accepted when [accepts] says so,
    that of one that is not unless there is no room. *)
Definition verdict (cn : peer_connection) (w w' : world) (ok : bool) : Prop :=
  (exists p, known_as (remote cn) w p /\ ok = accepts w cn p) \/
  (fresh_key (the_list w) (heap w) (multiple w) (endpoint_key_of (multiple w) (remote cn)) /\ (ok = false -> no_room w')).

Definition new_conn (w : world) (c : nat) (cn : peer_connection) : Prop :=
  conns w !! c = Some cn /\ peer_info cn = None /\ disconnecting cn = false /\
  valid_address (remote cn).1 /\ (remote cn).1 <> any_address /\ 0 <= (remote cn).2 < 2 ^ 16 /\ attached cn = false.

Lemma new_connection_spec rnd c cn w : inv w -> new_conn w c cn -> settings_ok (state w) ->
  wp (new_connection alloc rnd c) (fun ok w' => verdict cn w w' ok /\
    if ok then exists l p w1, keeps w w1 /\ idle l p w1 /\ conns w1 !! c = Some cn /\ banned p = false /\
      peer_key (multiple w) p = endpoint_key_of (multiple w) (remote cn) /\ w' = met l c p cn w1
    else keeps w w' /\ exists cn', conns w' !! c = Some cn' /\ peer_info cn' = None) w.
Proof.
  intros Hi (Hcn & Hn & Hd & Hv & Hz & Hp & _) Hst. pose proof (inv_list _ Hi) as Ho. unfold new_connection. wsteps.
  apply (wp_find_place _ None); [done..| |].
  - intros i (l & p & Hl & Hlp & Hk). wsteps. assert (l ∈ m_peers (the_list w)) as Hin by by eapply zget_elem.
    assert (verdict cn w w (accepts w cn p)) as Hver by (left; exists p; split; [by exists l|done]).
    eapply wp_mono; [by apply (known_peer_spec l c cn p w)|]. intros go w2 (-> & H). destruct (accepts w cn p) eqn:Eacc.
    + destruct H as (w1 & p1 & Hk1 & Hid & Hs & Hc1 & ->). eapply wp_mono; [by apply (attach_spec l c p1 cn w1); [apply Hid|]|].
      intros ok w2 [-> ->]. split; [left; exists p; split; [by exists l|done]|]. exists l, p1, w1. split_and!; try done.
      * unfold accepts in Eacc. apply andb_true_iff in Eacc as [Eb%negb_true_iff _]. by rewrite (proj1 (proj2 (proj2 (proj2 (proj2 Hs))))).
      * by rewrite (same_peer_key _ _ _ Hs).
    + wstep. split; [left; exists p; split; [by exists l|done]|]. destruct H as [Hk2 (cn' & Hcn' & Hd')]. split; [done|].
      exists cn'. split; [done|]. eapply alone_conn; [apply (ke_inv _ _ Hk2)|done|by right].
  - intros i Hpl Hfr. wstep. eapply wp_mono; [apply (incoming_peer_spec rnd c cn (remote cn) i w); try done; by rewrite Z.mod_small by lia; destruct (remote cn)|].
    intros r w1 (Hk1 & H). destruct r as [l|].
    + destruct H as (Hid & Ec & _). rewrite <- Ec in Hcn.
      assert (in_the_list (uncounted (incoming_entry (remote cn)) (the_list w1)) w1 = w1) as Ew.
      { rewrite uncounted_not; [by destruct w1|]. unfold cand_of, connect_candidate. by rewrite !orb_true_r. }
      pose proof (attach_spec l c (incoming_entry (remote cn)) cn w1 (proj1 (proj2 Hid)) Hcn) as Hat. rewrite Ew in Hat. eapply wp_mono; [exact Hat|].
      intros ok w2 [-> ->]. split; [right; by split|]. exists l, (incoming_entry (remote cn)), w1. split_and!; try done.
      unfold peer_key, endpoint_key_of. cbn [incoming_entry with_source new_torrent_peer tp_addr port]. by rewrite Z.mod_small.
    + wstep. destruct H as [Hroom H]. split; [right; by split|by split].
Qed.

Lemma no_room_call w w1 : keeps (in_state (fresh_state (state w)) w) w1 -> no_room w1 -> no_room (after_call w w1).
Proof.
  intros Hk. assert (max_peerlist_size (state w1) = max_peerlist_size (state w)) as E; [|unfold no_room; cbn [after_call heap state the_list]; by rewrite E].
  assert (max_peerlist_size (fresh_state (state w1)) = max_peerlist_size (fresh_state (state w))) as E by by rewrite (ke_state _ _ Hk). exact E.
Qed.

(** What [attach_connection] leaves: the connection has its peer, or is closed. *)
Definition attached_to (c : nat) (cn : peer_connection) (w w' : world) : Prop :=
  exists l p, l ∈ m_peers (the_list w') /\ heap w' !! l = Some p /\ connection p = Some c /\ banned p = false /\
    peer_key (multiple w) p = endpoint_key_of (multiple w) (remote cn).

Lemma attach_connection_spec rnd c cn w : inv w -> new_conn w c cn -> settings_ok (state w) ->
  wp (attach_connection alloc rnd c) (fun ok w' => keeps w w' /\ state w' = state w /\ verdict cn w w' ok /\
    if ok then attached_to c cn w w' else closed c w') w.
Proof.
  intros Hi Hnc Hst. unfold attach_connection. set (w0 := in_state (fresh_state (state w)) w).
  assert (inv w0) as Hi0 by by apply inv_state.
  wstep. apply wp_with_list_state. eapply wp_mono; [by apply (new_connection_spec rnd c cn w0)|].
  intros ok w1 (Hver & H). destruct ok.
  - destruct H as (l & p & w2 & Hk2 & Hid & Hc2 & Hb & Hkey & ->). destruct Hnc as (_ & Hn & Hd & _).
    pose proof (keeps_trans _ _ _ Hk2 (met_keeps l c p cn w2 (ke_inv _ _ Hk2) Hid Hc2 Hn Hd)) as Hk3. apply keeps_call in Hk3.
    wstep. eapply wp_set_conn; [unfold met; wsimpl; apply lookup_insert_eq|]. wsteps. unfold met in *. wsimpl in Hk3. wsimpl.
    unfold after_call in Hk3. wsimpl in Hk3. rewrite insert_insert_eq in *. split; [exact Hk3|]. split; [done|]. split; [|].
    + destruct Hver as [H|[H _]]; [by left|right]. by split.
    + destruct (attached_same (session_time w2) c cn p) as [Hs Hcp]. exists l, (attached_peer (session_time w2) c cn p). wsimpl.
      split_and!; [apply Hid|apply lookup_insert_eq|done|by rewrite (proj1 (proj2 (proj2 (proj2 (proj2 Hs)))))|by rewrite (same_peer_key _ _ _ Hs)].
  - destruct H as (Hk1 & cn' & Hcn' & Hn'). pose proof (keeps_call _ _ Hk1) as Hk. wsimpl. fold (after_call w w1). wstep.
    eapply wp_mono; [apply (disconnect_alone_spec c 0 cn' (after_call w w1)); [apply (ke_inv _ _ Hk)|done|done]|].
    intros [] w2 (Hk2 & Hcl & cn2 & ->). wsteps. split; [by eapply keeps_trans|]. split; [done|]. split; [|done].
    destruct Hver as [H|[H1 H2]]; [by left|right]. split; [done|]. intros _. by apply (no_room_call w w1 Hk1), H2.
Qed.
End alloc.

(** ** Connections that are made *)

(** [connect_to_peer] makes the connection for the peer it is given. *)
Definition outgoing_conn (w : world) (l c : nat) (cn : peer_connection) : Prop :=
  conns w !! c = None /\ peer_info cn = Some l /\ disconnecting cn = false.

Lemma make_connection_spec l c cn p w : inv w -> heap w !! l = Some p -> connection p = None -> outgoing_conn w l c cn ->
  wp (make_connection l c cn) (fun _ w' => keeps w w' /\ state w' = state w /\ m_peers (the_list w') = m_peers (the_list w) /\
    exists p', heap w' !! l = Some p' /\ same_peer p p' /\ connection p' = Some c /\ last_connected p' = last_connected p) w.
Proof.
  intros Hi Hl Hp (Hc & Hpi & Hd). pose proof (inv_list _ Hi) as Ho. pose proof (cand_room _ _ _ Ho l p Hl) as Hroom.
  destruct w as [L h cs st t cl]. wsimpl in Hl. wsimpl in Hc. wsimpl in Ho. wsimpl in Hroom. unfold make_connection. wstep. wstep. wsimpl. wsteps.
  eapply wp_set_conn; [wsimpl; apply lookup_insert_eq|]. wsimpl. rewrite insert_insert_eq. wsteps.
  eapply wp_set_conn; [wsimpl; apply lookup_insert_eq|]. wsimpl. rewrite insert_insert_eq. unfold set_connection. wsteps.
  set (p0 := with_prev_amount_upload 0 (with_prev_amount_download 0 p)). set (p' := with_connection (Some c) p0).
  set (cn' := conn_with_attached true _). change (connect_candidate _ _ p0) with (cand_of L p).
  apply (wp_mono _ (fun _ w' => w' = World (uncounted p L) (<[l := p']> h) (<[c := cn']> cs) st t cl)).
  { apply (wp_uncount p (World L (<[l := p']> h) (<[c := cn']> cs) st t cl)); wsimpl; [done|]. unfold uncounted. by wsimpl. }
  intros [] w' ->. wsimpl. split; [|split; [done|split; [done|exists p'; by rewrite lookup_insert_eq]]].
  assert (inv (World (uncounted p L) (<[l := p']> h) (<[c := cn']> cs) st t cl)) as Hi'.
  { destruct Hi as [_ Hco Hf]. wsimpl in Hco. wsimpl in Hf. split; wsimpl.
    - change (multiple _) with (multiple (World L h cs st t cl)). apply (lo_recounted _ _ _ Ho l p); try done; [by apply (lo_web _ _ _ _ Ho l p)|by left].
    - eapply co_open; try done. congruence.
    - apply fits_insert; [done|]. destruct (fits_assign _ (Hf l p Hl)) as (_ & H1 & _). destruct (fits_assign _ (H1 0)) as (H2 & _).
      by destruct (H2 0). }
  apply keeps_live; try done. wsimpl. intros x q Hx.
  destruct (decide (x = l)) as [->|Hne]; [by rewrite lookup_insert_eq|by rewrite lookup_insert_ne by congruence].
Qed.

(** The time of the try is kept, then the connection is made. *)
Lemma connect_to_peer_spec m_abort no_transport l c cn p w : inv w -> heap w !! l = Some p -> connection p = None -> outgoing_conn w l c cn ->
  wp (connect_to_peer m_abort no_transport l c cn) (fun ok w' => keeps w w' /\ state w' = state w /\ m_peers (the_list w') = m_peers (the_list w) /\
    ok = negb m_abort && negb no_transport /\
    exists p', heap w' !! l = Some p' /\ same_peer p p' /\ connection p' = (if ok then Some c else None) /\
      last_connected p' = if m_abort then last_connected p else session_time w mod 2 ^ 16) w.
Proof.
  intros Hi Hl Hp Hout. unfold connect_to_peer. destruct m_abort; cbn [negb andb].
  { wsteps. split; [by apply keeps_refl|]. do 3 (split; [done|]). by exists p. }
  wsteps. set (p1 := with_last_connected (session_time w) p). set (w1 := in_heap (<[l := p1]> (heap w)) w).
  assert (changed l p1 w w1 /\ inv w1) as [Hch Hi1].
  { assert (w1 = in_heap (<[l := p1]> (heap w)) (in_the_list (the_list w) w)) as -> by by destruct w.
    apply (inv_changed l p); try done; [by apply fits_assign, (inv_fits _ Hi l)|]. apply (lo_unchanged _ _ _ (inv_list _ Hi) l p); try done; [by apply (lo_web _ _ _ _ (inv_list _ Hi) l p)|by left]. }
  pose proof (keeps_changed _ _ _ _ Hch Hi1) as Hk1. assert (heap w1 !! l = Some p1) as Hl1 by apply lookup_insert_eq.
  destruct no_transport; cbn [negb].
  { wsteps. split; [done|]. do 3 (split; [done|]). by exists p1. }
  wstep. eapply wp_mono; [by apply (make_connection_spec l c cn p1 w1)|]. intros [] w' (Hk & Es & Em & p' & Hl' & Hs & Hc & Et). wsteps.
  split; [by eapply keeps_trans|]. do 3 (split; [done|]). exists p'. do 3 (split; [done|]). by rewrite Et.
Qed.

(** ** The port of a peer *)

Definition with_new_port (new_port src : Z) (p : torrent_peer) : torrent_peer :=
  let p := with_port new_port p in with_connectable true (with_source (Z.lor (source p) src) p).

Lemma new_port_fits new_port src p : fits p -> fits (with_new_port new_port src p).
Proof.
  intros H. unfold with_new_port. destruct (fits_assign _ H) as (_ & _ & _ & H1 & _). specialize (H1 new_port).
  destruct (fits_assign _ H1) as (_ & _ & _ & _ & _ & H2). by destruct (H2 (Z.lor (source (with_port new_port p)) src)).
Qed.

(** No other peer has the key. *)
Definition key_free (w : world) (l : nat) (k : endpoint) : Prop :=
  forall l', l' ∈ m_peers (the_list w) -> l' <> l -> key_of (multiple w) (heap w) l' <> k.

Lemma set_port_spec new_port src l p w : inv w -> heap w !! l = Some p -> l ∈ m_peers (the_list w) ->
  multiple w = false \/ key_free w l (tp_addr p, new_port mod 2 ^ 16) ->
  wp (was ← is_connect_candidate l; assign l (with_port new_port);; assign l (fun p => with_source (Z.lor (source p) src) p);;
      assign l (with_connectable true);; recount was l;; mret true)
    (fun ok w' => ok = true /\ changed l (with_new_port new_port src p) w w' /\ inv w') w.
Proof.
  intros Hi Hl Hin Hk. pose proof (inv_list _ Hi) as Ho. pose proof (cand_room _ _ _ Ho l p Hl) as Hroom. wsteps.
  change (with_connectable true _) with (with_new_port new_port src p). change (connect_candidate _ _ p) with (cand_of (the_list w) p).
  apply (wp_recount _ l (with_new_port new_port src p)); wsimpl; [apply lookup_insert_eq|done|]. wsteps. split; [done|].
  apply (inv_changed l p); [done|done|by apply new_port_fits, (inv_fits _ Hi l)|done| |done|done].
  apply (lo_recounted _ _ _ Ho l p); try done.
  unfold peer_key. cbn [with_new_port with_connectable with_source with_port tp_addr port].
  destruct Hk as [Em|Hk]; [rewrite Em; by left|]. destruct (multiple w) eqn:Em; [right|by left]. unfold key_free in Hk. by rewrite Em in Hk.
Qed.

(** [erase_peer] of a peer without a connection. *)
Lemma erase_peer_keeps l p w : inv w -> l ∈ m_peers (the_list w) -> heap w !! l = Some p -> connection p = None ->
  wp (erase_peer l) (fun _ w' => keeps w w' /\ exists L', w' = erased_world l L' w) w.
Proof.
  intros Hi Hin Hl Hc. apply (wp_erase_peer l p (multiple w) None); [apply (inv_list _ Hi)|done|done|].
  intros i L' Hil Hel HL'. split; [|by exists L']. apply keeps_erased; [by eapply inv_erased|apply (el_locked _ _ _ _ Hel)].
Qed.

(** The endpoint the peer [l] would have is another's. *)
Definition taken_by (w : world) (l : nat) (a : address) (new_port : Z) (other : nat) (q : torrent_peer) : Prop :=
  other <> l /\ other ∈ m_peers (the_list w) /\ heap w !! other = Some q /\ peer_endpoint q = (a, new_port).

Lemma take_endpoint_spec new_port src l c p w : inv w -> multiple w = true -> l ∈ m_peers (the_list w) -> heap w !! l = Some p ->
  connection p = Some c -> 0 <= new_port < 2 ^ 16 -> port p <> new_port ->
  wp (take_endpoint new_port l src) (fun go w' => keeps w w' /\
    if go then key_free w' l (tp_addr p, new_port) /\ l ∈ m_peers (the_list w') /\ heap w' !! l = Some p
    else heap w' !! l = None /\ exists other q, taken_by w l (tp_addr p) new_port other q /\ connection q <> None /\
      is_Some (heap w' !! other)) w.
Proof.
  intros Hi Em Hin Hl Hc Hnp Hport. pose proof (inv_list _ Hi) as Ho. destruct (lo_addr _ _ _ _ _ _ Ho Hin Hl) as [Hv Hz].
  unfold take_endpoint. wsteps. apply (wp_find_remote _ _ (multiple w) None Ho); [done..| |].
  - intros i last (other & q & Hoi & Hq & Eq). assert (other <> l) as Hne by (intros ->; unfold peer_endpoint in Eq; congruence). wsteps.
    pose proof (zget_elem _ _ _ Hoi) as Hoin.
    assert (key_of (multiple w) (heap w) other = (tp_addr p, new_port)) as Ek.
    { unfold key_of. rewrite Hq. unfold peer_key, peer_endpoint in *. rewrite Em. done. }
    destruct (connection q) as [oc|] eqn:Eoc.
    + wsteps. change (connect_candidate _ _ q) with (cand_of (the_list w) q).
      assert (cand_of (the_list w) q = false) as Ecq by by apply (connected_not_candidate _ _ _ oc). rewrite Ecq.
      set (q1 := with_source (Z.lor (source (with_connectable true q)) src) (with_connectable true q)).
      assert (connect_candidate (m_finished (the_list w)) (m_max_failcount (the_list w)) q1 = false) as -> by by apply (connected_not_candidate _ _ _ oc).
      cbn [negb andb when]. wstep. set (w1 := in_heap (<[other := q1]> (heap w)) w).
      assert (changed other q1 w (in_heap (<[other := q1]> (heap w)) (in_the_list (the_list w) w)) /\ inv (in_heap (<[other := q1]> (heap w)) (in_the_list (the_list w) w))) as [Hch1 Hi1].
      { apply (inv_changed other q); [done|done| |done| |done|done].
        - assert (fits (with_connectable true q)) as Hf0 by by destruct (inv_fits _ Hi other q Hq). by apply (fits_assign _ Hf0).
        - apply (lo_unchanged _ _ _ Ho other q); try done; [by left|]. rewrite Ecq. by apply (connected_not_candidate _ _ _ oc). }
      change (in_heap (<[other := q1]> (heap w)) (in_the_list (the_list w) w)) with w1 in Hch1, Hi1.
      assert (heap w1 !! l = Some p) as Hl1 by (unfold w1; wsimpl; by rewrite lookup_insert_ne). rewrite Hc. wstep.
      eapply wp_mono; [by apply (disconnect_locked_spec l c p w1)|]. intros [] w2 (Hi2 & _ & p2 & Hpart). pose proof (parted_keeps _ _ _ _ _ _ Hl1 Hi2 Hpart) as Hk2.
      destruct Hpart as (L' & cn' & -> & Hm & _ & Hs & Hc2). wstep.
      eapply wp_mono; [apply (erase_peer_keeps l p2 _ Hi2); wsimpl; [by rewrite (proj1 Hm)|apply lookup_insert_eq|done]|].
      intros [] w3 [Hk3 (L3 & ->)]. wsteps. split; [eapply keeps_trans; [by eapply keeps_changed|by eapply keeps_trans]|].
      unfold erased_world. wsimpl. split; [apply lookup_delete_eq|]. exists other, q. split; [done|]. split; [by rewrite Eoc|].
      rewrite lookup_delete_ne, lookup_insert_ne by congruence. unfold w1. wsimpl. by rewrite lookup_insert_eq.
    + wstep. apply (wp_erase_peer_at i other q (multiple w) None); [done..|]. intros L' Hel HL'. wsteps.
      split; [apply keeps_erased; [by eapply inv_erased|apply (el_locked _ _ _ _ Hel)]|]. pose proof (lo_nodup _ _ _ _ Ho) as Hnd. unfold erased_world. wsimpl.
      rewrite (el_peers _ _ _ _ Hel). split; [|rewrite filter_erased by done; split; [done|by rewrite lookup_delete_ne by congruence]].
      intros x Hx. unfold multiple. wsimpl. fold (multiple w). wsimpl in Hx. rewrite (el_peers _ _ _ _ Hel), filter_erased in Hx by done. destruct Hx as [Hx Hxo]. intros _ E.
      apply Hxo. destruct (lo_live _ _ _ _ Ho x Hx) as [px Hpx]. apply (lo_key_inj _ _ _ _ x other px q Ho Hx Hoin Hpx Hq).
      unfold key_of in E, Ek. cbn [heap] in E. rewrite lookup_delete_ne, Hpx in E by congruence. rewrite Hq in Ek. congruence.
  - intros last Hnot _. wsteps. split; [by apply keeps_refl|]. split; [|done]. intros x Hx _. rewrite Em. unfold key_of.
    destruct (lo_live _ _ _ _ Ho x Hx) as [px Hpx]. rewrite Hpx. intros E. destruct (elem_zget _ _ Hx) as [j Hj]. apply (Hnot j). by exists x, px.
Qed.

Lemma update_peer_port_spec new_port src l c p w : inv w -> l ∈ m_peers (the_list w) -> heap w !! l = Some p ->
  connection p = Some c -> 0 <= new_port < 2 ^ 16 ->
  wp (update_peer_port new_port l src) (fun ok w' => keeps w w' /\
    if ok then l ∈ m_peers (the_list w') /\ heap w' !! l = Some (if port p =? new_port then p else with_new_port new_port src p)
    else heap w' !! l = None /\ multiple w = true /\ exists other q, taken_by w l (tp_addr p) new_port other q /\ connection q <> None /\
      is_Some (heap w' !! other)) w.
Proof.
  intros Hi Hin Hl Hc Hnp. unfold update_peer_port. wsteps. destruct (Z.eqb_spec (port p) new_port) as [E|E].
  { wsteps. split; [by apply keeps_refl|done]. }
  wsteps. fold (multiple w). set (post := fun (ok : bool) (w' : world) => keeps w w' /\ _).
  assert (forall w1, keeps w w1 -> l ∈ m_peers (the_list w1) -> heap w1 !! l = Some p -> multiple w1 = false \/ key_free w1 l (tp_addr p, new_port mod 2 ^ 16) ->
    wp (was ← is_connect_candidate l; assign l (with_port new_port);; assign l (fun p => with_source (Z.lor (source p) src) p);;
      assign l (with_connectable true);; recount was l;; mret true) post w1) as Hset.
  { intros w1 Hk1 Hin1 Hl1 Hf. eapply wp_mono; [by apply (set_port_spec new_port src l p w1); [apply (ke_inv _ _ Hk1)|..]|].
    intros ok w2 (-> & Hch & Hi2). split; [eapply keeps_trans; [done|by eapply keeps_changed]|]. destruct Hch as (L' & -> & Hm & _). wsimpl.
    rewrite (proj1 Hm). split; [done|]. by rewrite lookup_insert_eq. }
  destruct (multiple w) eqn:Em.
  - eapply wp_mono; [by apply (take_endpoint_spec new_port src l c p w)|]. intros go w1 (Hk1 & H). destruct go; cbn [negb].
    + destruct H as (Hf & Hin1 & Hl1). apply Hset; try done. right. by rewrite Z.mod_small.
    + wsteps. split; [done|]. destruct H as [H1 H2]. split; [done|]. by split.
  - wsteps. apply Hset; try done; [by apply keeps_refl|by left].
Qed.
