(* ===== verification/PeerListFind.v ===== *)
(** * Choosing the peer to connect to

    [compare_peer] is a lexicographic order; the cache [find_connect_candidates]
    fills holds, in that order, the ten best of the peers its loop has seen,
    and [connect_one_peer] takes the first. *)

From Stdlib Require Import ZArith Lia.
From stdpp Require Import base numbers gmap sorting list.
From S2P Require Import Prelude IpFilter IpFilterSpec IpFilterTheorems PeerState PeerList PeerListSpec PeerListErase PeerListOps PeerListAdd PeerListConn.

(** ** Lexicographic order *)

Fixpoint lex_lt (a b : list Z) : bool :=
  match a, b with
  | x :: a, y :: b => if x =? y then lex_lt a b else x <? y
  | [], _ :: _ => true
  | _, [] => false
  end.

Lemma lex_irrefl a : lex_lt a a = false.
Proof. induction a as [|x a IH]; simpl; [done|]. by rewrite Z.eqb_refl. Qed.

Lemma lex_trans a b c : lex_lt a b = true -> lex_lt b c = true -> lex_lt a c = true.
Proof.
  revert b c. induction a as [|x a IH]; intros [|y b] [|z c]; simpl; try done.
  destruct (Z.eqb_spec x y), (Z.eqb_spec y z), (Z.eqb_spec x z); rewrite ?Z.ltb_lt; try lia; subst; try done. apply IH.
Qed.

Lemma lex_le_trans a b c : lex_lt b a = false -> lex_lt c b = false -> lex_lt c a = false.
Proof.
  revert b c. induction a as [|x a IH]; intros [|y b] [|z c]; simpl; try done.
  destruct (Z.eqb_spec y x), (Z.eqb_spec z y), (Z.eqb_spec z x); rewrite ?Z.ltb_ge; try lia; subst; try done. apply IH.
Qed.

Lemma lex_asym a b : lex_lt a b = true -> lex_lt b a = false.
Proof. intros H. destruct (lex_lt b a) eqn:E; [|done]. pose proof (lex_trans _ _ _ H E) as H'. by rewrite lex_irrefl in H'. Qed.

(** ** The best of a sequence *)

Section ranking.
Context (key : nat -> list Z).

Definition ahead (x y : nat) : Prop := lex_lt (key y) (key x) = false.

(** [l] is put before the first that is not better. *)
Fixpoint ranked_insert (l : nat) (s : list nat) : list nat :=
  match s with [] => [l] | x :: s' => if lex_lt (key x) (key l) then x :: ranked_insert l s' else l :: s end.

Definition top (seen : list nat) : list nat := foldl (fun c l => take 10 (ranked_insert l c)) [] seen.

Lemma ranked_perm l s : ranked_insert l s ≡ₚ l :: s.
Proof. induction s as [|x s IH]; simpl; [done|]. case_match; [|done]. rewrite IH. apply Permutation_swap. Qed.

Lemma ranked_length l s : length (ranked_insert l s) = S (length s).
Proof. by rewrite ranked_perm. Qed.

Lemma ranked_sorted l s : StronglySorted ahead s -> StronglySorted ahead (ranked_insert l s).
Proof.
  induction s as [|x s IH]; simpl; [by repeat constructor|]. intros [Hs Hf]%StronglySorted_inv. case_match eqn:E.
  - constructor; [by apply IH|]. rewrite ranked_perm. constructor; [by apply lex_asym|done].
  - constructor; [by constructor|]. constructor; [done|]. eapply Forall_impl; [exact Hf|]. intros y Hy. by eapply lex_le_trans.
Qed.

Lemma sorted_take (R : nat -> nat -> Prop) k s : StronglySorted R s -> StronglySorted R (take k s).
Proof.
  revert k. induction s as [|x s IH]; intros [|k] H; simpl; try constructor; apply StronglySorted_inv in H as [H1 H2]; [by apply IH|by apply Forall_take].
Qed.

(** The split of a sorted sequence that a binary search finds. *)
Lemma ranked_split l s : StronglySorted ahead s -> exists k, 0 <= k <= zlen s /\ insert_index k l s = ranked_insert l s /\
  forall i x, zget s i = Some x -> lex_lt (key x) (key l) = (i <? k).
Proof.
  induction s as [|x s IH].
  - intros _. exists 0. split; [done|]. split; [done|]. intros i y Hy. by apply zget_Some_bound in Hy; cbn in Hy; lia.
  - intros [Hs Hf]%StronglySorted_inv. simpl. destruct (lex_lt (key x) (key l)) eqn:E.
    + destruct (IH Hs) as (k & Hk & Hins & Hsp). exists (k + 1). split; [zlia|]. split.
      * rewrite <- Hins. unfold insert_index. by replace (Z.to_nat (k + 1)) with (S (Z.to_nat k)) by lia.
      * intros i y Hy. pose proof (zget_Some_bound _ _ _ Hy). destruct (Z.eq_dec i 0) as [->|Hne].
        -- rewrite zget_cons_0 in Hy. injection Hy as ->. rewrite E. symmetry. apply Z.ltb_lt. lia.
        -- replace i with (i - 1 + 1) in Hy by lia. rewrite zget_cons_S in Hy by lia. rewrite (Hsp _ _ Hy).
           destruct (Z.ltb_spec (i - 1) k), (Z.ltb_spec i (k + 1)); done || lia.
    + exists 0. split; [zlia|]. split; [done|]. intros i y Hy. pose proof (zget_Some_bound _ _ _ Hy). rewrite (proj2 (Z.ltb_ge i 0)) by lia.
      apply zget_elem, elem_of_cons in Hy as [->|Hy]; [done|]. eapply Forall_forall in Hf; [|exact Hy]. by eapply lex_le_trans.
Qed.

(** What the ten are: in order, seen, and no other is better. *)
Record topped (seen c : list nat) : Prop := {
  tp_sorted : StronglySorted ahead c;
  tp_sub x : x ∈ c -> x ∈ seen;
  tp_nodup : NoDup seen -> NoDup c;
  tp_ten : (length c <= 10)%nat;
  tp_best x y : x ∈ seen -> x ∉ c -> y ∈ c -> ahead y x;
  tp_full x : x ∈ seen -> x ∉ c -> length c = 10%nat;
  tp_some : c = [] -> seen = [];
}.

Lemma topped_snoc seen c l : topped seen c -> topped (seen ++ [l]) (take 10 (ranked_insert l c)).
Proof.
  intros [Hs Hsub Hnd Ht Hb Hfu Hn]. pose proof (ranked_sorted l c Hs) as Hs'. pose proof (ranked_perm l c) as Hp.
  assert (forall x, x ∈ take 10 (ranked_insert l c) -> x ∈ l :: c) as Htake by (intros x Hx; rewrite <- Hp, <- (take_drop 10 (ranked_insert l c)); set_solver).
  split.
  - by apply sorted_take.
  - intros x Hx%Htake. set_solver.
  - rewrite NoDup_app. intros (H1 & H2 & _). enough (NoDup (ranked_insert l c)) as Hn' by (rewrite <- (take_drop 10 (ranked_insert l c)) in Hn'; by apply NoDup_app in Hn' as [? _]).
    rewrite Hp. apply NoDup_cons. split; [|by apply Hnd]. intros Hl%Hsub. specialize (H2 l Hl). set_solver.
  - rewrite length_take. lia.
  - intros x y Hx Hnx Hy.
    destruct (decide (x ∈ ranked_insert l c)) as [Hin|Hnin].
    + rewrite <- (take_drop 10 (ranked_insert l c)) in Hin, Hs'. apply elem_of_app in Hin as [?|Hin]; [done|].
      eapply StronglySorted_app_1_elem_of; [exact Hs'|done|done].
    + rewrite Hp in Hnin. assert (x ∈ seen) as Hxs by set_solver. pose proof Hy as Hy0. apply Htake, elem_of_cons in Hy as [->|Hy]; [|apply Hb; set_solver].
      pose proof (Hfu x Hxs ltac:(set_solver)) as Hten. rewrite <- (take_drop 10 (ranked_insert l c)) in Hs', Hp.
      assert (exists z, z ∈ drop 10 (ranked_insert l c)) as [z Hz].
      { destruct (drop 10 (ranked_insert l c)) as [|z zs] eqn:Ed; [|exists z; set_solver].
        apply Permutation_length in Hp. rewrite app_nil_r, length_take in Hp. cbn [length] in Hp. lia. }
      apply lex_le_trans with (key z); [exact (StronglySorted_app_1_elem_of ahead _ _ _ _ Hs' Hy0 Hz)|].
      apply Hb; [done|set_solver|].
      assert (z ∈ l :: c) as [->|?]%elem_of_cons by (rewrite <- Hp; set_solver); [|done].
      destruct (drop 10 (ranked_insert l c)) as [|z zs] eqn:Ed; [set_solver|]. assert (zs = []) as ->.
      { apply Permutation_length in Hp. rewrite length_app, length_take, ranked_length in Hp. cbn [length] in Hp. destruct zs; [done|cbn [length] in Hp; lia]. }
      apply list_elem_of_singleton in Hz as <-. rewrite Permutation_app_comm in Hp. simpl in Hp. apply Permutation_cons_inv in Hp. rewrite <- Hp. done.
  - intros x Hx Hnx. destruct (decide (10 <= length (ranked_insert l c))%nat) as [?|Hlt]; [rewrite length_take; lia|].
    rewrite take_ge in Hnx by lia. rewrite Hp in Hnx. rewrite ranked_length in Hlt. rewrite (Hfu x) in Hlt; [lia|set_solver..].
  - intros E. destruct (ranked_insert l c) eqn:E2; [|done]. by apply Permutation_nil_cons in Hp.
Qed.
End ranking.

(** ** The priority of a peer *)

(** The votes are addresses of their family, or none. *)
Definition votes_ok (e : external_ip) : Prop :=
  (exists b, vote_v4 e = V4 b) /\ (vote_v6 e = any_address \/ exists b, vote_v6 e = V6 b).

Section find.
Context (crc32c : list Z -> Z).

Definition priority (st : torrent_state) (p : torrent_peer) : option Z :=
  peer_priority crc32c (external_address (ip st) (tp_addr p), listen_port st) (peer_endpoint p).

Lemma priority_defined st p : votes_ok (ip st) -> is_Some (priority st p).
Proof.
  intros [[b4 E4] H6].
  assert (forall a b : bytes_type 4, forall i j, is_Some (peer_priority crc32c (V4 a, i) (V4 b, j))) as Hp4.
  { intros a b i j. unfold peer_priority. cbn [fst snd]. repeat case_match; simplify_eq/=; eauto. }
  assert (forall a b : bytes_type 16, forall i j, is_Some (peer_priority crc32c (V6 a, i) (V6 b, j))) as Hp6.
  { intros a b i j. unfold peer_priority. cbn [fst snd]. repeat case_match; simplify_eq/=; eauto. }
  unfold priority, peer_endpoint, external_address. destruct (tp_addr p) as [a|a]; [by rewrite E4|].
  case_decide as E; [apply Hp6|]. destruct H6 as [?|[b ->]]; [done|apply Hp6].
Qed.

(** The rank [compare_peer] uses: the one that was kept, or the priority. *)
Definition peer_rank_of (st : torrent_state) (p : torrent_peer) : Z :=
  if peer_rank p =? 0 then default 0 (priority st p) else peer_rank p.

Definition order_key (st : torrent_state) (p : torrent_peer) : list Z :=
  [failcount p; if is_local (tp_addr p) then 0 else 1; last_connected p; - source_rank (source p); - peer_rank_of st p].

(** Only ranks that were not known are. *)
Definition reranked (w w' : world) : Prop :=
  exists h', w' = in_heap h' w /\ forall l,
    match heap w !! l with
    | None => h' !! l = None
    | Some p => exists r, h' !! l = Some (with_peer_rank r p) /\ peer_rank_of (state w) (with_peer_rank r p) = peer_rank_of (state w) p
    end.

Lemma reranked_refl w : reranked w w.
Proof.
  exists (heap w). split; [by destruct w|]. intros l. destruct (heap w !! l) as [p|]; [|done]. exists (peer_rank p). by rewrite with_peer_rank_id.
Qed.

Lemma reranked_trans w w1 w' : reranked w w1 -> reranked w1 w' -> reranked w w'.
Proof.
  intros (h1 & -> & H1) (h' & -> & H'). exists h'. split; [done|]. intros l. specialize (H1 l). specialize (H' l). wsimpl in H'.
  destruct (heap w !! l) as [p|]; [|by rewrite H1 in H']. destruct H1 as (r & Hr & Er). rewrite Hr in H'.
  destruct H' as (r' & Hr' & Er'). exists r'. split; [done|]. rewrite <- Er, <- Er'. done.
Qed.

Lemma reranked_lookup w w' l p : reranked w w' -> heap w !! l = Some p ->
  exists r, heap w' !! l = Some (with_peer_rank r p) /\ order_key (state w) (with_peer_rank r p) = order_key (state w) p.
Proof.
  intros (h' & -> & H) Hl. specialize (H l). rewrite Hl in H. destruct H as (r & Hr & Er). exists r. split; [done|]. unfold order_key. by rewrite Er.
Qed.

Lemma reranked_back w w' l p' : reranked w w' -> heap w' !! l = Some p' -> exists p r, heap w !! l = Some p /\ p' = with_peer_rank r p.
Proof.
  intros (h' & -> & H) Hl. specialize (H l). wsimpl in Hl. destruct (heap w !! l) as [p|]; [|congruence].
  destruct H as (r & Hr & _). exists p, r. split; [done|congruence].
Qed.

Lemma rank_spec l p w : votes_ok (ip (state w)) -> heap w !! l = Some p ->
  wp (rank crc32c l) (fun r w' => r = peer_rank_of (state w) p /\ reranked w w') w.
Proof.
  intros Hv Hl. unfold rank. wsteps. unfold peer_rank_of. destruct (Z.eqb_spec (peer_rank p) 0) as [E|E].
  - wsteps. destruct (priority_defined (state w) p Hv) as [r Hr]. rewrite Hr. apply (wp_lift _ r); [done|]. wsteps. split; [done|].
    exists (<[l := with_peer_rank r p]> (heap w)). split; [done|]. intros l'. destruct (decide (l' = l)) as [->|Hn].
    + rewrite Hl, lookup_insert_eq. exists r. split; [done|]. unfold peer_rank_of. change (priority _ (with_peer_rank r p)) with (priority (state w) p).
      rewrite Hr, E. cbn. by case_match.
    + rewrite lookup_insert_ne by congruence. destruct (heap w !! l') as [q|]; [|done]. exists (peer_rank q). by rewrite with_peer_rank_id.
  - wsteps. split; [done|apply reranked_refl].
Qed.

Lemma compare_peer_spec x y p q w : votes_ok (ip (state w)) -> heap w !! x = Some p -> heap w !! y = Some q ->
  wp (compare_peer crc32c x y) (fun b w' => b = lex_lt (order_key (state w) p) (order_key (state w) q) /\ reranked w w') w.
Proof.
  intros Hv Hx Hy. unfold compare_peer, order_key. wsteps. cbn [lex_lt].
  destruct (Z.eqb_spec (failcount p) (failcount q)) as [E1|E1]; cbn [negb]; [|wsteps; split; [done|apply reranked_refl]].
  destruct (is_local (tp_addr p)), (is_local (tp_addr q)); cbn [eqb negb andb Z.eqb Z.ltb Z.compare]; try (wsteps; split; [done|apply reranked_refl]).
  all: destruct (Z.eqb_spec (last_connected p) (last_connected q)) as [E2|E2]; cbn [negb]; [|wsteps; split; [done|apply reranked_refl]].
  all: destruct (Z.eqb_spec (source_rank (source p)) (source_rank (source q))) as [E3|E3]; cbn [negb];
    [rewrite E3, Z.eqb_refl|rewrite (proj2 (Z.eqb_neq _ _)) by lia; wstep; split;
      [destruct (Z.ltb_spec (source_rank (source q)) (source_rank (source p))), (Z.ltb_spec (- source_rank (source p)) (- source_rank (source q))); done || lia|apply reranked_refl]].
  all: wstep; eapply wp_mono; [by apply (rank_spec x p)|]; intros r w1 [-> H1]; wstep; destruct (reranked_lookup _ _ y q H1 Hy) as (ry & Hy1 & Ey);
    assert (state w1 = state w) as Es by (by destruct H1 as (? & -> & _));
    (eapply wp_mono; [apply (rank_spec y (with_peer_rank ry q)); [by rewrite Es|done]|]); intros r w2 [-> H2]; wstep; rewrite Es in *;
    (split; [|by eapply reranked_trans]); injection Ey as Ey; assert (peer_rank_of (state w) (with_peer_rank ry q) = peer_rank_of (state w) q) as -> by lia;
    destruct (Z.eqb_spec (- peer_rank_of (state w) p) (- peer_rank_of (state w) q)),
      (Z.ltb_spec (peer_rank_of (state w) q) (peer_rank_of (state w) p)), (Z.ltb_spec (- peer_rank_of (state w) p) (- peer_rank_of (state w) q)); done || lia.
Qed.

Definition rank_only (h h' : gmap nat torrent_peer) : Prop :=
  forall l, match h !! l with None => h' !! l = None | Some p => exists r, h' !! l = Some (with_peer_rank r p) end.

Lemma lo_rank_only L m pd h h' : list_ok L h m pd -> rank_only h h' -> list_ok L h' m pd.
Proof.
  intros Ho Hr. assert (forall l p', h' !! l = Some p' -> exists p r, h !! l = Some p /\ p' = with_peer_rank r p) as Hback.
  { intros l p' Hl. specialize (Hr l). destruct (h !! l) as [p|]; [|congruence]. destruct Hr as [r Hr]. exists p, r. split; [done|congruence]. }
  assert (forall l, l ∈ m_peers L -> exists p r, h !! l = Some p /\ h' !! l = Some (with_peer_rank r p)) as Hlive.
  { intros l Hl. destruct (lo_live _ _ _ _ Ho l Hl) as [p Hp]. specialize (Hr l). rewrite Hp in Hr. destruct Hr as [r Hr]. by exists p, r. }
  assert (forall f, (forall r p, f (with_peer_rank r p) = f p) -> zsum (counts f h') (m_peers L) = zsum (counts f h) (m_peers L)) as Hc.
  { intros f Hf. apply zsum_ext. intros l Hl. destruct (Hlive l Hl) as (p & r & Hp & Hp'). unfold counts. by rewrite Hp, Hp', Hf. }
  destruct Ho. split; try done.
  - intros l Hl. destruct (Hlive l Hl) as (p & r & _ & ->). done.
  - intros l p' (p & r & Hp & ->)%Hback. apply (lo_all l p Hp).
  - intros l p' (p & r & Hp & ->)%Hback. apply (lo_web l p Hp).
  - intros l Hl. destruct (Hlive l Hl) as (p & r & Hp & Hp'). specialize (lo_valid l Hl). unfold addr_of in *. by rewrite Hp' ; rewrite Hp in lo_valid.
  - erewrite map_ext_in; [exact lo_sorted|]. intros l Hl%list_elem_of_In. destruct (Hlive l Hl) as (p & r & Hp & Hp'). unfold addr_of. by rewrite Hp, Hp'.
  - erewrite map_ext_in; [exact lo_unique|]. intros l Hl%list_elem_of_In. destruct (Hlive l Hl) as (p & r & Hp & Hp'). unfold key_of. by rewrite Hp, Hp'.
  - by rewrite Hc.
  - by rewrite Hc.
Qed.

Lemma reranked_rank_only w w' : reranked w w' -> rank_only (heap w) (heap w').
Proof. intros (h' & -> & H) l. specialize (H l). destruct (heap w !! l); [|done]. destruct H as (r & ? & _). by exists r. Qed.

Lemma lo_reranked L m pd w w' : list_ok L (heap w) m pd -> reranked w w' -> list_ok L (heap w') m pd.
Proof. intros Ho Hr. by eapply lo_rank_only, reranked_rank_only. Qed.

Lemma rank_only_weeded P h' w : rank_only (heap w) h' -> weeded P [] w (in_heap h' w).
Proof.
  intros H. split; wsimpl; try done; [set_solver|set_solver|..].
  - intros l p _ Hl. specialize (H l). by rewrite Hl in H.
  - intros l Hl. specialize (H l). by rewrite Hl in H.
  - symmetry. apply filter_everything. set_solver.
  - by rewrite app_nil_r.
Qed.

Lemma reranked_weeded P w w' : reranked w w' -> weeded P [] w w'.
Proof. intros H. pose proof (reranked_rank_only _ _ H) as Hr. destruct H as (h' & -> & _). by apply rank_only_weeded. Qed.

(** ** The cache *)

Definition keyed (key : nat -> list Z) (w : world) : Prop := forall x q, heap w !! x = Some q -> order_key (state w) q = key x.

Lemma keyed_reranked key w w' : keyed key w -> reranked w w' -> keyed key w'.
Proof.
  intros Hk (h' & -> & H) x q Hx. wsimpl in Hx. wsimpl. specialize (H x). destruct (heap w !! x) as [p|] eqn:E; [|congruence].
  destruct H as (r & Hr & Er). assert (q = with_peer_rank r p) as -> by congruence. rewrite <- (Hk x p E). unfold order_key. by rewrite Er.
Qed.

Lemma insert_after key l c : (forall x, x ∈ c -> lex_lt (key x) (key l) = true) -> ranked_insert key l c = c ++ [l].
Proof. induction c as [|x c IH]; simpl; [done|]. intros H. rewrite H by set_solver. f_equal. apply IH. set_solver. Qed.

Lemma insert_before key l c b : lex_lt (key b) (key l) = false -> ranked_insert key l (c ++ [b]) = ranked_insert key l c ++ [b].
Proof. intros H. induction c as [|x c IH]; simpl; [by rewrite H|]. case_match; [|done]. simpl. by f_equal. Qed.

Lemma sorted_last key c b : StronglySorted (ahead key) c -> last c = Some b -> forall x, x ∈ c -> ahead key x b.
Proof.
  intros Hs Hb x Hx. apply last_Some in Hb as [c' ->]. apply elem_of_app in Hx as [Hx| ->%list_elem_of_singleton]; [|apply lex_irrefl].
  eapply StronglySorted_app_1_elem_of; [exact Hs|done|set_solver].
Qed.

Lemma reranked_list L w w' : reranked (in_the_list L w) w' -> exists w1, reranked w w1 /\ w' = in_the_list L w1.
Proof. intros (h' & -> & H). by exists (in_heap h' w); split; [exists h'|]. Qed.

Lemma reranked_the_list w w' : reranked w w' -> the_list w' = the_list w /\ state w' = state w.
Proof. by intros (h' & -> & _). Qed.

(** Two peers are compared by their keys, whatever was ranked before. *)
Lemma compare_keyed key x y p q L w w1 : votes_ok (ip (state w)) -> keyed key w -> heap w !! x = Some p -> heap w !! y = Some q -> reranked w w1 ->
  wp (compare_peer crc32c x y) (fun b w' => b = lex_lt (key x) (key y) /\ exists w2, reranked w w2 /\ w' = in_the_list L w2) (in_the_list L w1).
Proof.
  intros Hv Hk Hx Hy Hr. destruct (reranked_lookup _ _ x p Hr Hx) as (rx & Hx1 & _). destruct (reranked_lookup _ _ y q Hr Hy) as (ry & Hy1 & _).
  pose proof (keyed_reranked _ _ _ Hk Hr) as Hk1. destruct (reranked_the_list _ _ Hr) as [_ Es].
  eapply wp_mono; [apply (compare_peer_spec x y (with_peer_rank rx p) (with_peer_rank ry q)); [wsimpl; by rewrite Es|done|done]|].
  intros b w' [-> Hr']. destruct (reranked_list _ _ _ Hr') as (w2 & Hr2 & ->). wsimpl. rewrite (Hk1 x _ Hx1), (Hk1 y _ Hy1).
  split; [done|]. exists w2. split; [by eapply reranked_trans|done].
Qed.

Lemma consider_spec key l p w : votes_ok (ip (state w)) -> keyed key w -> heap w !! l = Some p ->
  StronglySorted (ahead key) (m_candidate_cache (the_list w)) -> zlen (m_candidate_cache (the_list w)) <= 10 ->
  (forall x, x ∈ m_candidate_cache (the_list w) -> is_Some (heap w !! x)) ->
  wp (consider_candidate crc32c l) (fun _ w' => exists w1, reranked w w1 /\
    w' = in_the_list (set_m_candidate_cache (take 10 (ranked_insert key l (m_candidate_cache (the_list w)))) (the_list w)) w1) w.
Proof.
  intros Hv Hkey Hl Hs Hten Hlive. set (c := m_candidate_cache (the_list w)) in *. unfold consider_candidate, candidate_count. wsteps. fold c.
  assert (forall c' w1, reranked w w1 -> StronglySorted (ahead key) c' -> (forall x, x ∈ c' -> x ∈ c) ->
    ranked_insert key l c' = take 10 (ranked_insert key l c) ->
    wp (partition_point (fun x => compare_peer crc32c x l) c')
      (fun i => wp (set_list (fun x => set_m_candidate_cache (insert_index i l (m_candidate_cache x)) x))
        (fun _ w' => exists w1, reranked w w1 /\ w' = in_the_list (set_m_candidate_cache (take 10 (ranked_insert key l c)) (the_list w)) w1))
      (in_the_list (set_m_candidate_cache c' (the_list w)) w1)) as Hplace.
  { intros c' w1 Hr1 Hs' Hsub <-. destruct (ranked_split key l c' Hs') as (k & Hk & <- & Hsp).
    eapply wp_mono; [apply (wp_partition _ _ (fun w2 => exists w3, reranked w w3 /\ w2 = in_the_list (set_m_candidate_cache c' (the_list w)) w3) k); [by exists w1|done|]|].
    - intros i x w2 (w3 & Hr3 & ->) Hx. destruct (Hlive x) as [q Hq]; [apply Hsub; by eapply zget_elem|].
      eapply wp_mono; [by apply (compare_keyed key x l q p _ w w3)|]. intros b w' (-> & w4 & Hr4 & ->). split; [by exists w4|by apply (Hsp i)].
    - intros r w2 (-> & w3 & Hr3 & ->). wsteps. by exists w3. }
  destruct (Z.eqb_spec (zlen c) 10) as [E|E].
  - destruct (last c) as [b|] eqn:Eb; [|apply last_None in Eb; rewrite Eb in E; done]. pose proof (sorted_last key c b Hs Eb) as Hlast.
    destruct (Hlive b) as [q Hq]; [by apply last_Some_elem_of|]. wstep. apply (wp_lift _ b); [done|].
    assert (in_the_list (the_list w) w = w) as Ew by by destruct w.
    pose proof (compare_keyed key b l q p (the_list w) w w Hv Hkey Hq Hl (reranked_refl w)) as Hcmp. rewrite Ew in Hcmp.
    eapply wp_mono; [exact Hcmp|]. intros worse w' (-> & w2 & Hr2 & ->). destruct (lex_lt (key b) (key l)) eqn:Ebl.
    + wsteps. exists w2. split; [done|]. rewrite insert_after, take_app_le, take_ge; [|lia..|].
      * unfold c. by destruct (the_list w).
      * intros x Hx. specialize (Hlast x Hx). unfold ahead in Hlast. destruct (lex_lt (key x) (key l)) eqn:Exl; [done|].
        pose proof (lex_le_trans _ _ _ Exl Hlast). congruence.
    + wsteps. rewrite E. apply wp_when; [intros _|done]. wsteps. fold c. apply last_Some in Eb as [c9 Eb].
      assert (take 9 c = c9) as E9 by (rewrite Eb, take_app_length' by (rewrite Eb in E; zlia); done).
      change (Z.to_nat (10 - 1)) with 9%nat. rewrite E9. apply (Hplace c9 w2 Hr2); [|intros x Hx; rewrite Eb; set_solver|].
      * rewrite <- E9. by apply sorted_take.
      * rewrite Eb, insert_before by done. rewrite take_app_length'; [done|]. rewrite ranked_length. rewrite Eb in E. zlia.
  - wsteps. rewrite (proj2 (Z.leb_gt 10 (zlen c))) by lia. cbn [when]. wsteps. fold c.
    assert (in_the_list (set_m_candidate_cache c (the_list w)) w = w) as Ew by (unfold c; by destruct w as [[]]).
    pose proof (Hplace c w (reranked_refl w) Hs ltac:(done)) as H. rewrite Ew in H. apply H. symmetry. apply take_ge. rewrite ranked_length. lia.
Qed.

(** ** The loop *)

Lemma int_member (f : torrent_state -> Z) st st' : (forall s, f (fresh_state s) = f s) -> fresh_state st' = fresh_state st -> f st' = f st.
Proof. intros H E. by rewrite <- (H st'), E, H. Qed.

(** Whether a peer was connected too short a time ago. *)
Definition soon (st : torrent_state) (now : Z) (p : torrent_peer) : bool :=
  negb (last_connected p =? 0) && (now - last_connected p <? (failcount p + 1) * min_reconnect_time st).

(** The settings and the times are in the range of [int]. *)
Definition times_ok (w : world) : Prop := 0 <= session_time w < 2 ^ 31 /\ 0 <= min_reconnect_time (state w) < 2 ^ 26.

Lemma too_soon_spec l p w (Q : bool -> world -> Prop) : times_ok w -> fits p -> heap w !! l = Some p ->
  Q (soon (state w) (session_time w) p) w -> wp (too_soon l) Q w.
Proof.
  intros [Ht Hm] Hf Hl HQ. unfold too_soon. wsteps. unfold soon in HQ. pose proof (fit_connected _ Hf). pose proof (fit_failcount _ Hf).
  destruct (last_connected p =? 0); [by wstep|]. wstep. apply wp_int; [lia|]. wstep. apply wp_int; [nia|]. by wstep.
Qed.

(** The peers the search is for. *)
Definition eligible (f : bool) (mx : Z) (st : torrent_state) (now : Z) (p : torrent_peer) : bool :=
  connect_candidate f mx p && negb (soon st now p).

Lemma visited_next n cur u i : 0 <= i < n -> 0 < u <= n -> visited n (cur + 1) (u - 1) i <-> visited n cur u i \/ i = cur.
Proof.
  intros Hi Hu. unfold visited. split; [intros [H1 H2]; destruct (Z.eq_dec i cur); [by right|left; split; lia]|intros [[H1 H2]| ->]; split; lia].
Qed.

Lemma visited_erase n cur u j : visited (n - 1) cur (u - 1) j <-> visited n cur u (if decide (j < cur) then j else j + 1).
Proof. unfold visited. case_decide; split; intros [H1 H2]; split; lia. Qed.

Section loop.
Context (w0 : world) (f : bool) (mx : Z) (m : bool) (key : nat -> list Z).
Let elig := eligible f mx (state w0) (session_time w0).

(** [seen] are the eligible peers the loop has come by, [e] is the peer to
    erase in the end. *)
Record find_inv (rem seen : list nat) (w : world) (u e : Z) : Prop := {
  fi_ok : list_ok (the_list w) (heap w) m None;
  fi_weeded : weeded (erasable f mx) rem w0 w;
  fi_finished : m_finished (the_list w) = f;
  fi_max : m_max_failcount (the_list w) = mx;
  fi_left : 0 <= u <= zlen (m_peers (the_list w));
  fi_e : best_at (erasable f mx) w (m_round_robin (the_list w)) u e;
  fi_keyed : keyed key w;
  fi_cache : m_candidate_cache (the_list w) = top key seen;
  fi_nodup : NoDup seen;
  fi_seen l : l ∈ seen -> exists i p, zget (m_peers (the_list w)) i = Some l /\ heap w !! l = Some p /\ elig p = true /\
    visited (zlen (m_peers (the_list w))) (m_round_robin (the_list w)) u i;
  fi_all i l p : visited (zlen (m_peers (the_list w))) (m_round_robin (the_list w)) u i -> zget (m_peers (the_list w)) i = Some l ->
    heap w !! l = Some p -> elig p = true -> l ∈ seen;
}.

Lemma topped_top seen : topped key seen (top key seen).
Proof.
  unfold top. induction seen as [|l seen IH] using rev_ind; [cbn [foldl]; split; [apply SSorted_nil|set_solver|intros _; apply NoDup_nil_2|cbn; lia|set_solver..]|].
  rewrite foldl_app. simpl. by apply topped_snoc.
Qed.

Lemma fi_counter rem seen w u e x : find_inv rem seen w u e -> find_inv rem seen (in_state (set_loop_counter x (state w)) w) u e.
Proof.
  intros []. split; wsimpl; try done. destruct fi_weeded0. by split.
Qed.

Lemma fi_wrap rem seen w u e : find_inv rem seen w u e -> m_round_robin (the_list w) = zlen (m_peers (the_list w)) ->
  find_inv rem seen (in_the_list (set_m_round_robin 0 (the_list w)) w) u e.
Proof.
  intros [] E. assert (forall i, 0 <= i < zlen (m_peers (the_list w)) -> visited (zlen (m_peers (the_list w))) 0 u i <->
    visited (zlen (m_peers (the_list w))) (m_round_robin (the_list w)) u i) as Hv by (intros i Hi; unfold visited; rewrite E; lia).
  split; wsimpl; try done.
  - eapply lo_cursor; try done; wsimpl; [lia|by destruct fi_ok0|by destruct fi_ok0].
  - destruct fi_weeded0. by split.
  - by eapply best_wrap.
  - intros l Hl. destruct (fi_seen0 l Hl) as (i & p & Hi & Hp & He & Hvi). exists i, p. split; [done|]. split; [done|]. split; [done|].
    apply Hv; [by eapply zget_Some_bound|done].
  - intros i l p Hvi Hi. apply (fi_all0 i); [|done]. apply Hv; [by eapply zget_Some_bound|done].
Qed.

Lemma fi_in rem seen w u e i l : find_inv rem seen w u e -> zget (m_peers (the_list w)) i = Some l -> l ∈ seen ->
  visited (zlen (m_peers (the_list w))) (m_round_robin (the_list w)) u i.
Proof.
  intros Hf Hi Hl. destruct (fi_seen _ _ _ _ _ Hf l Hl) as (j & p & Hj & _ & _ & Hv).
  by rewrite (zget_inj _ _ _ _ (lo_nodup _ _ _ _ (fi_ok _ _ _ _ _ Hf)) Hi Hj).
Qed.

Lemma fi_seen_live rem seen w u e : find_inv rem seen w u e -> forall x, x ∈ top key seen -> is_Some (heap w !! x).
Proof.
  intros Hf x Hx. apply (tp_sub _ _ _ (topped_top seen)) in Hx. destruct (fi_seen _ _ _ _ _ Hf x Hx) as (j & p & _ & Hp & _). eauto.
Qed.

(** The peer at the cursor is erased. *)
Lemma fi_erase rem seen w u e l p L' : find_inv rem seen w u e -> 0 < u -> zget (m_peers (the_list w)) (m_round_robin (the_list w)) = Some l ->
  heap w !! l = Some p -> connection p = None -> m_locked_peer (the_list w) <> Some l -> erasable f mx p ->
  erased_list (m_round_robin (the_list w)) l (the_list w) L' -> list_ok L' (delete l (heap w)) m None ->
  find_inv (rem ++ [l]) seen (erased_world l L' w) (u - 1) (if m_round_robin (the_list w) <? e then e - 1 else e).
Proof.
  intros Hf Hu Hl Hp Hc Hlk Her Hel HL'. pose proof Hf as []. pose proof (zget_Some_bound _ _ _ Hl) as Hb.
  pose proof (lo_nodup _ _ _ _ fi_ok0) as Hnd. set (cur := m_round_robin (the_list w)) in *.
  assert (m_round_robin L' = cur) as Ecur.
  { rewrite (el_rr _ _ _ _ Hel). fold cur. rewrite Z.ltb_irrefl. cbv zeta. by rewrite (proj2 (Z.leb_gt _ _)) by lia. }
  assert (l ∉ seen) as Hns.
  { intros Hin. pose proof (fi_in _ _ _ _ _ _ _ Hf Hl Hin) as [H1 H2]. fold cur in H1, H2. lia. }
  split; unfold erased_world; wsimpl; try done.
  - eapply weeded_trans; [apply erasable_rank|done|]. eapply (weeded_one (erasable f mx) cur l p L' w m None); done.
  - by rewrite (el_finished _ _ _ _ Hel).
  - by rewrite (el_max _ _ _ _ Hel).
  - rewrite (el_peers _ _ _ _ Hel), zlen_erase by lia. lia.
  - rewrite Ecur. eapply (best_erase _ w cur u e l L' m None); done || lia.
  - intros x q Hq. wsimpl in Hq. apply lookup_delete_Some in Hq as [_ Hq]. by apply fi_keyed0.
  - rewrite (el_cache _ _ _ _ Hel), fi_cache0. apply erase_first_absent. intros Hin%(tp_sub _ _ _ (topped_top seen)). done.
  - intros x Hx. destruct (fi_seen0 x Hx) as (i & q & Hi & Hq & He & Hv). assert (x <> l) as Hne by (by intros ->).
    assert (i <> cur) as Hic by (intros ->; congruence). exists (if decide (i < cur) then i else i - 1), q.
    rewrite (el_peers _ _ _ _ Hel), zget_erase, zlen_erase, lookup_delete_ne, Ecur by (lia || congruence).
    split; [repeat case_decide; try lia; [done|]; by replace (i - 1 + 1) with i by lia|]. split; [done|]. split; [done|].
    rewrite visited_erase. repeat case_decide; try lia; [done|]. by replace (i - 1 + 1) with i by lia.
  - intros i x q. rewrite (el_peers _ _ _ _ Hel), zget_erase, zlen_erase, Ecur, visited_erase by lia. intros Hv Hi [_ Hq]%lookup_delete_Some.
    intros Hel'. apply (fi_all0 (if decide (i < cur) then i else i + 1) x q); [done|by case_decide|done|done].
Qed.

(** The peer at the cursor is passed, and considered when it is eligible. *)
Lemma fi_step rem seen w w1 u e e' l p : find_inv rem seen w u e -> 0 < u -> zget (m_peers (the_list w)) (m_round_robin (the_list w)) = Some l ->
  heap w !! l = Some p -> best_at (erasable f mx) w (m_round_robin (the_list w) + 1) (u - 1) e' -> reranked w w1 ->
  let seen' := if elig p then seen ++ [l] else seen in
  find_inv rem seen' (in_the_list (set_m_candidate_cache (top key seen') (set_m_round_robin (m_round_robin (the_list w) + 1) (the_list w))) w1) (u - 1) e'.
Proof.
  intros Hf Hu Hl Hp He' Hr seen'. pose proof Hf as []. pose proof (zget_Some_bound _ _ _ Hl) as Hb. set (cur := m_round_robin (the_list w)) in *.
  destruct (reranked_the_list _ _ Hr) as [El Es]. assert (l ∉ seen) as Hns.
  { intros Hin. pose proof (fi_in _ _ _ _ _ _ _ Hf Hl Hin) as [H1 H2]. fold cur in H1, H2. lia. }
  assert (NoDup seen') as Hnd' by (unfold seen'; case_match; [apply NoDup_app; split; [done|]; split; [set_solver|apply NoDup_singleton]|done]).
  assert (forall x, x ∈ seen' -> exists i q, zget (m_peers (the_list w)) i = Some x /\ heap w !! x = Some q /\ elig q = true /\
    visited (zlen (m_peers (the_list w))) (cur + 1) (u - 1) i) as Hseen'.
  { intros x Hx. assert (x ∈ seen \/ (x = l /\ elig p = true)) as [Hx'|[-> Hel]] by (unfold seen' in Hx; case_match; set_solver).
    - destruct (fi_seen0 x Hx') as (i & q & Hi & Hq & He & Hv). exists i, q. split_and!; try done. apply visited_next; [by eapply zget_Some_bound|lia|by left].
    - exists cur, p. split_and!; try done. apply visited_next; [lia|lia|by right]. }
  split; wsimpl; try done.
  - eapply lo_cursor; [by eapply lo_reranked|done|done|done|done|done|wsimpl; lia| |].
    + wsimpl. pose proof (topped_top seen') as Ht. split; [by apply (tp_nodup _ _ _ Ht)|]. intros x Hx%(tp_sub _ _ _ Ht).
      destruct (Hseen' x Hx) as (i & q & Hi & _). by eapply zget_elem.
    + wsimpl. pose proof (tp_ten _ _ _ (topped_top seen')). lia.
  - rewrite <- (app_nil_r rem). eapply weeded_trans; [apply erasable_rank|done|].
    apply (weeded_trans _ [] [] w w1); [apply erasable_rank|by apply reranked_weeded|]. by apply weeded_list; rewrite El.
  - lia.
  - destruct He' as [->|(Hbe & Hve & le & pe & Hle & Hpe & Hce & Hlke & Here)]; [by left|right]. wsimpl. split; [done|]. split; [done|].
    destruct (reranked_lookup _ _ _ _ Hr Hpe) as (r & Hr' & _). exists le, (with_peer_rank r pe). done.
  - exact (keyed_reranked _ _ _ fi_keyed0 Hr).
  - intros x Hx. destruct (Hseen' x Hx) as (i & q & Hi & Hq & He & Hv). destruct (reranked_lookup _ _ _ _ Hr Hq) as (r & Hr' & _).
    by exists i, (with_peer_rank r q).
  - intros i x q Hv Hi Hq Hel. pose proof (zget_Some_bound _ _ _ Hi). apply visited_next in Hv as [Hv| ->]; [| |lia|lia].
    + destruct (reranked_back _ _ _ _ Hr Hq) as (q0 & r & Hq0 & ->). assert (x ∈ seen) as Hx by by apply (fi_all0 i x q0).
      unfold seen'. case_match; set_solver.
    + assert (x = l) as -> by congruence. destruct (reranked_back _ _ _ _ Hr Hq) as (q0 & r & Hq0 & ->). assert (q0 = p) as -> by congruence.
      unfold seen'. replace (elig p) with true by done. set_solver.
Qed.

(** The loop starts with nothing seen. *)
Lemma fi_start : list_ok (the_list w0) (heap w0) m None -> m_finished (the_list w0) = f -> m_max_failcount (the_list w0) = mx ->
  m_candidate_cache (the_list w0) = [] -> keyed key w0 -> find_inv [] [] w0 (zlen (m_peers (the_list w0))) (-1).
Proof.
  intros Ho Hfi Hmx Hc Hk. split; try done; [apply weeded_refl|lia|by left|apply NoDup_nil_2|set_solver|].
  intros i l p [H1 H2] Hi. pose proof (zget_Some_bound _ _ _ Hi). pose proof (lo_rr _ _ _ _ Ho). lia.
Qed.
Context (Htimes : times_ok w0) (Hvotes : votes_ok (ip (state w0))) (Hfits : forall l p, heap w0 !! l = Some p -> fits p).

Lemma fi_settings rem seen w u e : find_inv rem seen w u e ->
  ip (state w) = ip (state w0) /\ min_reconnect_time (state w) = min_reconnect_time (state w0) /\ session_time w = session_time w0.
Proof.
  intros Hf. pose proof (we_state _ _ _ _ (fi_weeded _ _ _ _ _ Hf)) as E. split_and!; [| |apply (we_time _ _ _ _ (fi_weeded _ _ _ _ _ Hf))].
  - assert (ip (fresh_state (state w)) = ip (fresh_state (state w0))) as E' by by rewrite E. exact E'.
  - assert (min_reconnect_time (fresh_state (state w)) = min_reconnect_time (fresh_state (state w0))) as E' by by rewrite E. exact E'.
Qed.

Lemma fi_fits rem seen w u e l p : find_inv rem seen w u e -> heap w !! l = Some p -> fits p.
Proof.
  intros Hf Hp. destruct (weeded_inv _ _ _ _ _ _ (fi_weeded _ _ _ _ _ Hf) Hp) as (_ & q & r & Hq & ->). by destruct (Hfits l q Hq).
Qed.

Lemma candidate_iteration_spec rem seen w u e : find_inv rem seen w u e -> 0 < u ->
  wp (candidate_iteration crc32c e) (fun e' w' => exists rem' seen', find_inv rem' seen' w' (u - 1) e') w.
Proof.
  intros Hf Hu. unfold candidate_iteration. wstep. wstep. wsimpl. apply (fi_counter _ _ _ _ _ (loop_counter (state w) + 1)) in Hf.
  set (w1 := in_state (set_loop_counter (loop_counter (state w) + 1) (state w)) w) in *. change (World _ _ _ _ _ _) with w1. wsteps.
  pose proof (lo_rr _ _ _ _ (fi_ok _ _ _ _ _ Hf)) as Hrr. pose proof (fi_left _ _ _ _ _ Hf) as Hleft.
  apply (wp_mono _ (fun _ w' => find_inv rem seen w' u e /\ m_round_robin (the_list w') < zlen (m_peers (the_list w')))).
  { apply wp_when; intros E; [apply Z.leb_le in E|apply Z.leb_gt in E].
    - wsteps. split; [apply (fi_wrap rem seen w1); [done|lia]|wsimpl; lia].
    - by split. }
  generalize (zlen (m_peers (the_list w1))). clear dependent w. intros n [] w [Hf Hcur]. pose proof (fi_left _ _ _ _ _ Hf) as Hleft.
  pose proof (lo_rr _ _ _ _ (fi_ok _ _ _ _ _ Hf)) as Hrr. destruct (zget_is_Some (m_peers (the_list w)) (m_round_robin (the_list w))) as [l Hl]; [lia|].
  destruct (lo_get _ _ _ _ _ _ (fi_ok _ _ _ _ _ Hf) Hl) as (p & Hp & _). set (cur := m_round_robin (the_list w)) in *. wsteps. fold cur. wsteps.
  apply (wp_mono _ (fun b w' => w' = w /\ (b = true -> m_locked_peer (the_list w) <> Some l /\ connection p = None /\ erasable f mx p))).
  { apply wp_guarded; intros _; [|by split]. apply (wp_is_erase_candidate l p); [done|]. intros b Hb.
    rewrite (fi_finished _ _ _ _ _ Hf), (fi_max _ _ _ _ _ Hf) in Hb. by split. }
  intros b w' [-> Hb]. wstep. apply (wp_mono _ (fun b' w' => w' = w /\ (b' = true -> b = true))).
  { apply wp_guarded; intros E; [|by split]. apply (wp_replaces e l p); [done|eapply best_replaces, (fi_e _ _ _ _ _ Hf)|]. by intros b' _. }
  intros b' w' [-> Hb']. wstep. apply (wp_mono _ (fun b'' w' => w' = w /\ (b'' = true -> b' = true))).
  { apply wp_guarded; intros E; [|by split]. by apply (wp_should_erase l p). }
  intros imm w' [-> Himm]. destruct imm.
  - destruct (Hb (Hb' (Himm eq_refl))) as (Hlk & Hc & Her). wstep. apply (wp_erase_peer_at cur l p m None); [apply (fi_ok _ _ _ _ _ Hf)|done..|].
    intros L' Hel HL'. wstep. exists (rem ++ [l]), seen. by eapply fi_erase.
  - set (e' := if b' then cur else e).
    assert (best_at (erasable f mx) w (cur + 1) (u - 1) e') as He'.
    { unfold e'. destruct b'; [|apply best_next; [lia|lia|apply (fi_e _ _ _ _ _ Hf)]]. destruct (Hb (Hb' eq_refl)) as (Hlk & Hc & Her).
      eapply (best_here _ w cur u l p); [done|lia|done..]. }
    pose proof (fun w1 => fi_step rem seen w w1 u e e' l p Hf Hu Hl Hp He') as Hstep. fold cur in Hstep. cbv zeta in Hstep.
    assert (elig p = false -> in_the_list (set_m_candidate_cache (top key seen) (set_m_round_robin (cur + 1) (the_list w))) w =
      in_the_list (set_m_round_robin (cur + 1) (the_list w)) w) as Eskip.
    { intros _. rewrite <- (fi_cache _ _ _ _ _ Hf). by destruct w as [[]]. }
    destruct (fi_settings _ _ _ _ _ Hf) as (Eip & Emin & Etime).
    wsteps. rewrite (fi_finished _ _ _ _ _ Hf), (fi_max _ _ _ _ _ Hf). destruct (connect_candidate f mx p) eqn:Ec; cbn [negb].
    + assert (times_ok w) as Htw by (unfold times_ok; by rewrite Etime, Emin). wstep. wsimpl. apply (too_soon_spec l p); [done|by eapply (fi_fits _ _ _ _ _ _ _ Hf)|done|]. wsimpl.
      assert (soon (state w) (session_time w) p = soon (state w0) (session_time w0) p) as -> by (unfold soon; by rewrite Emin, Etime).
      destruct (soon (state w0) (session_time w0) p) eqn:Es.
      * wstep. exists rem, seen. specialize (Hstep w (reranked_refl w)). unfold elig, eligible in Hstep, Eskip. rewrite Ec, Es in Hstep, Eskip.
        cbn [andb negb] in Hstep, Eskip. by rewrite (Eskip eq_refl) in Hstep.
      * assert (elig p = true) as Eel by (unfold elig, eligible; by rewrite Ec, Es). rewrite Eel in Hstep. clear Eskip.
        pose proof (topped_top seen) as Ht. wstep. set (w2 := in_the_list (set_m_round_robin (cur + 1) (the_list w)) w).
        eapply wp_mono; [apply (consider_spec key l p w2)|]; unfold w2; wsimpl; rewrite ?(fi_cache _ _ _ _ _ Hf).
        -- by rewrite Eip.
        -- apply (fi_keyed _ _ _ _ _ Hf).
        -- done.
        -- apply (tp_sorted _ _ _ Ht).
        -- pose proof (tp_ten _ _ _ Ht). lia.
        -- by apply (fi_seen_live _ _ _ _ _ Hf).
        -- intros [] w3 (w4 & Hr & ->). wstep. exists rem, (seen ++ [l]). destruct (reranked_list _ _ _ Hr) as (w5 & Hr5 & ->).
           specialize (Hstep w5 Hr5). unfold top in Hstep at 1. rewrite foldl_app in Hstep. exact Hstep.
    + wstep. exists rem, seen. specialize (Hstep w (reranked_refl w)). unfold elig, eligible in Hstep, Eskip. rewrite Ec in Hstep, Eskip.
      cbn [andb] in Hstep, Eskip. by rewrite (Eskip eq_refl) in Hstep.
Qed.

Lemma candidate_loop_spec n : forall rem seen w u e, find_inv rem seen w u e -> Z.of_nat n <= u ->
  wp (candidate_loop crc32c n e) (fun e' w' => exists rem' seen', find_inv rem' seen' w' (u - Z.of_nat n) e') w.
Proof.
  induction n as [|n IH]; intros rem seen w u e Hf Hn; cbn [candidate_loop].
  - wstep. exists rem, seen. by replace (u - Z.of_nat 0) with u by lia.
  - wstep. eapply wp_mono; [apply (candidate_iteration_spec rem seen w u e); [done|lia]|]. intros e' w' (rem' & seen' & Hf').
    eapply wp_mono; [apply (IH rem' seen' w' (u - 1)); [done|lia]|]. intros e2 w2 (rem2 & seen2 & H2). exists rem2, seen2.
    by replace (u - Z.of_nat (S n)) with (u - 1 - Z.of_nat n) by lia.
Qed.

End loop.

(** ** The search *)

(** What [find_connect_candidates] has done. *)
Record searched (m : bool) (w w' : world) (key : nat -> list Z) (rem seen : list nat) : Prop := {
  se_weeded : weeded (weedable false (the_list w')) rem w w';
  se_ok : list_ok (the_list w') (heap w') m None;
  se_finished : m_finished (the_list w') = is_finished (state w);
  se_keyed : keyed key w';
  se_cache : m_candidate_cache (the_list w') = top key seen;
  se_seen l : l ∈ seen -> exists p, l ∈ m_peers (the_list w') /\ heap w' !! l = Some p /\
    eligible (is_finished (state w)) (m_max_failcount (the_list w')) (state w) (session_time w) p = true;
  se_all l p : zlen (m_peers (the_list w)) <= 300 -> l ∈ m_peers (the_list w') -> heap w' !! l = Some p ->
    eligible (is_finished (state w)) (m_max_failcount (the_list w')) (state w) (session_time w) p = true -> l ∈ seen;
}.

Lemma eligible_candidate f mx st now p : eligible f mx st now p = true -> connect_candidate f mx p = true.
Proof. by intros [? _]%andb_true_iff. Qed.

Lemma find_connect_candidates_spec m w : list_ok (the_list w) (heap w) m None -> (forall l p, heap w !! l = Some p -> fits p) ->
  times_ok w -> votes_ok (ip (state w)) -> m_candidate_cache (the_list w) = [] ->
  wp (find_connect_candidates crc32c) (fun _ w' => exists key rem seen, searched m w w' key rem seen) w.
Proof.
  intros Ho Hfits Htimes Hvotes Hcache. unfold find_connect_candidates. wstep. apply (wp_refresh m None); [done|]. intros L1 Hr Ho1. wsteps.
  set (n := zlen (m_peers (the_list w))). assert (zlen (m_peers L1) = n) as En by by rewrite (rc_peers _ _ _ Hr).
  apply (wp_mono _ (fun _ w' => exists L2, w' = in_the_list L2 w /\ list_ok L2 (heap w) m None /\ m_peers L2 = m_peers L1 /\ m_locked_peer L2 = m_locked_peer L1 /\
    m_finished L2 = m_finished L1 /\ m_candidate_cache L2 = [])).
  { pose proof (lo_rr _ _ _ _ Ho1) as Hrr. apply wp_when; intros _.
    - wsteps. exists (set_m_round_robin 0 L1). split_and!; try done; [|wsimpl; by rewrite (rc_cache _ _ _ Hr)].
      eapply lo_cursor; try done; wsimpl; [lia|apply (lo_cache _ _ _ _ Ho1)|apply (lo_ten _ _ _ _ Ho1)].
    - exists L1. split_and!; try done. by rewrite (rc_cache _ _ _ Hr). }
  intros [] w' (L2 & -> & Ho2 & Ep2 & El2 & Ef2 & Ec2). set (w2 := in_the_list L2 w). rewrite En.
  set (key := fun l => match heap w !! l with Some p => order_key (state w) p | None => [] end).
  assert (keyed key w2) as Hk by (intros x q Hx; unfold key; wsimpl in Hx; unfold w2 in Hx; wsimpl in Hx; by rewrite Hx).
  assert (zlen (m_peers L2) = n) as En2 by by rewrite Ep2. assert (0 <= n) by (unfold n; lia).
  pose proof (fi_start w2 (m_finished L2) (m_max_failcount L2) m key Ho2 ltac:(done) ltac:(done) Ec2 Hk) as Hf. change (the_list w2) with L2 in Hf. rewrite En2 in Hf.
  wstep. eapply wp_mono; [eapply (candidate_loop_spec w2 (m_finished L2) (m_max_failcount L2) m key Htimes Hvotes Hfits _ [] [] w2 n (-1) Hf); lia|].
  intros e w3 (rem & seen & Hf3). assert (m_finished L2 = is_finished (state w)) as Efin by (rewrite Ef2; apply (rc_finished _ _ _ Hr)).
  assert (forall rem w4, weeded (erasable (m_finished L2) (m_max_failcount L2)) rem w2 w4 -> m_finished (the_list w4) = m_finished L2 -> m_max_failcount (the_list w4) = m_max_failcount L2 ->
    weeded (weedable false (the_list w4)) rem w w4) as Hww.
  { intros rem4 w4 Hw4 Ef4 Em4. apply (weeded_weaken (erasable (m_finished L2) (m_max_failcount L2))); [intros p Hp; right; by rewrite Ef4, Em4|].
    apply (weeded_trans _ [] rem4 w w2 w4); [apply erasable_rank| |done]. apply weeded_list; [by rewrite Ep2, (rc_peers _ _ _ Hr)|by rewrite El2, (rc_locked _ _ _ Hr)]. }
  pose proof (lo_rr _ _ _ _ (fi_ok _ _ _ _ _ _ _ _ _ _ Hf3)) as Hrr3.
  assert (forall i, 300 >= n -> 0 <= i < zlen (m_peers (the_list w3)) -> visited (zlen (m_peers (the_list w3))) (m_round_robin (the_list w3)) (n - Z.of_nat (Z.to_nat (Z.min n 300))) i) as Hvis.
  { intros i Hn Hi. unfold visited. lia. }
  pose proof Hf3 as []. apply wp_when; intros He; [apply Z.ltb_lt in He|apply Z.ltb_ge in He].
  - eapply wp_mono; [eapply (best_erased _ (erasable (m_finished L2) (m_max_failcount L2)) m None w2 rem w3); [done|done|exact fi_e0|lia|done|apply erasable_rank]|].
    intros [] w4 (l & Hw4 & Ho4 & Ef4 & Em4 & Hel & Ew4 & Hle & q & Hq & Her). exists key, (rem ++ [l]), seen.
    assert (m_max_failcount (the_list w4) = m_max_failcount L2) as Emx4 by by rewrite Em4.
    assert (l ∉ seen) as Hns.
    { intros Hin. destruct (fi_seen0 l Hin) as (i & p & _ & Hp & Hel' & _). apply eligible_candidate in Hel'. destruct Her as [Her _]. congruence. }
    assert (forall x p, x <> l -> heap w3 !! x = Some p -> heap w4 !! x = Some p) as Hh by (intros x p Hx Hp; rewrite Ew4; unfold erased_world; cbn [heap]; by rewrite lookup_delete_ne).
    assert (forall x p, heap w4 !! x = Some p -> heap w3 !! x = Some p /\ x <> l) as Hh'.
    { intros x p. rewrite Ew4. unfold erased_world. cbn [heap]. intros [? ?]%lookup_delete_Some. done. }
    assert (forall x, x ∈ m_peers (the_list w4) <-> x ∈ m_peers (the_list w3) /\ x <> l) as Hpe.
    { intros x. rewrite (el_peers _ _ _ _ Hel). apply filter_erased; [by eapply lo_nodup|done]. }
    split; try done.
    + by apply Hww; [|rewrite Ef4|].
    + by rewrite Ef4, fi_finished0.
    + intros x p [Hx _]%Hh'. rewrite <- (fi_keyed0 x p Hx), Ew4. done.
    + rewrite (el_cache _ _ _ _ Hel), fi_cache0. apply erase_first_absent. intros Hin%(tp_sub _ _ _ (topped_top key seen)). done.
    + intros x Hx. destruct (fi_seen0 x Hx) as (i & p & Hi & Hp & Hel' & _). assert (x <> l) by (by intros ->). exists p.
      split; [apply Hpe; split; [by eapply zget_elem|done]|]. split; [by apply Hh|]. rewrite <- Efin, Emx4. exact Hel'.
    + intros x p Hn [Hx _]%Hpe [Hp _]%Hh' Hel'. destruct (elem_zget _ _ Hx) as [i Hi]. apply (fi_all0 i x p); [|done|done|by rewrite <- Efin, Emx4 in Hel'].
      apply Hvis; [fold n in Hn; lia|by eapply zget_Some_bound].
  - exists key, rem, seen. split; try done; [by apply Hww|by rewrite fi_finished0| |].
    + intros l Hl. destruct (fi_seen0 l Hl) as (i & p & Hi & Hp & Hel & _). exists p. split; [by eapply zget_elem|]. split; [done|].
      rewrite <- Efin, fi_max0. exact Hel.
    + intros l p Hn Hl Hp Hel. destruct (elem_zget _ _ Hl) as [i Hi]. apply (fi_all0 i l p); [|done|done|by rewrite <- Efin, fi_max0 in Hel].
      apply Hvis; [fold n in Hn; lia|by eapply zget_Some_bound].
Qed.

(** ** [connect_one_peer] *)

Lemma order_key_fresh st st' p : fresh_state st' = fresh_state st -> order_key st' p = order_key st p.
Proof.
  intros E. assert (ip st' = ip st) as E1 by exact (f_equal ip E). assert (listen_port st' = listen_port st) as E2 by exact (f_equal listen_port E).
  unfold order_key, peer_rank_of, priority. by rewrite E1, E2.
Qed.

Definition cand_at (w : world) (l : nat) : bool := match heap w !! l with Some p => cand_of (the_list w) p | None => false end.

Lemma keep_candidates_spec w cache (Q : list nat -> world -> Prop) : (forall l, l ∈ cache -> is_Some (heap w !! l)) ->
  Q (filter (fun l => cand_at w l = true) cache) w -> wp (keep_candidates cache) Q w.
Proof.
  revert Q. induction cache as [|l cache IH]; intros Q Hlive HQ; cbn [keep_candidates]; [by wstep|].
  destruct (Hlive l) as [p Hp]; [set_solver|]. wsteps. apply IH; [intros x Hx; apply Hlive; set_solver|]. wstep.
  change (connect_candidate _ _ p) with (cand_of (the_list w) p). assert (cand_at w l = cand_of (the_list w) p) as E by (unfold cand_at; by rewrite Hp).
  destruct (cand_of (the_list w) p) eqn:Ec; [by rewrite filter_cons_True in HQ|rewrite filter_cons_False in HQ; [done|congruence]].
Qed.

Definition wanted (w w' : world) (p : torrent_peer) : bool :=
  eligible (is_finished (state w)) (m_max_failcount (the_list w')) (state w) (session_time w) p.

(** No eligible peer of the list is better than the one that is returned. *)
Definition best_choice (w w' : world) (r : option nat) : Prop :=
  match r with
  | Some l => exists p, heap w' !! l = Some p /\ wanted w w' p = true /\
      forall x q, x ∈ m_peers (the_list w') -> heap w' !! x = Some q -> wanted w w' q = true ->
        lex_lt (order_key (state w) q) (order_key (state w) p) = false
  | None => forall x q, x ∈ m_peers (the_list w') -> heap w' !! x = Some q -> wanted w w' q = false
  end.

Definition candidate_choice (w w' : world) (r : option nat) : Prop :=
  match r with
  | Some l => exists p, l ∈ m_peers (the_list w') /\ heap w' !! l = Some p /\
      connect_candidate (is_finished (state w)) (m_max_failcount (the_list w')) p = true
  | None => True
  end.

(** The first of the cache is taken. *)
Lemma take_first m L h l cache : list_ok L h m None -> m_candidate_cache L = l :: cache -> list_ok (set_m_candidate_cache cache L) h m None.
Proof.
  intros Ho E. destruct (lo_cache _ _ _ _ Ho) as [Hnd Hsub]. pose proof (lo_ten _ _ _ _ Ho) as Ht. rewrite E in Hnd, Hsub, Ht. apply NoDup_cons in Hnd as [_ Hnd].
  eapply lo_cursor; try done; wsimpl; [apply (lo_rr _ _ _ _ Ho)|split; [done|set_solver]|zlia].
Qed.

Lemma connect_one_peer_spec w : inv w -> times_ok w -> votes_ok (ip (state w)) ->
  wp (connect_one_peer crc32c) (fun r w' => keeps w w' /\ candidate_choice w w' r /\
    (m_candidate_cache (the_list w) = [] -> zlen (m_peers (the_list w)) <= 300 -> best_choice w w' r)) w.
Proof.
  intros Hi Htimes Hvotes. pose proof Hi as [Ho Hco Hfits]. unfold connect_one_peer. wstep. apply (wp_refresh (multiple w) None); [done|].
  intros L1 Hr Ho1. wsteps. destruct (lo_cache _ _ _ _ Ho1) as [Hnd Hsub].
  apply keep_candidates_spec; [intros l Hl; by apply (lo_live _ _ _ _ Ho1), Hsub|]. set (w1 := in_the_list L1 w).
  set (c := filter _ (m_candidate_cache L1)). wsteps. set (L2 := set_m_candidate_cache c L1).
  assert (list_ok L2 (heap w) (multiple w) None) as Ho2.
  { eapply lo_cursor; try done; wsimpl; [apply (lo_rr _ _ _ _ Ho1)|split; [by apply NoDup_filter|intros l [_ Hl]%list_elem_of_filter; by apply Hsub]|].
    pose proof (lo_ten _ _ _ _ Ho1). pose proof (length_filter (fun l => cand_at w1 l = true) (m_candidate_cache L1)). fold c in H0. unfold L2. wsimpl. lia. }
  set (w2 := in_the_list L2 w). assert (inv w2) as Hi2 by by split. assert (m_locked_peer L1 = m_locked_peer (the_list w)) as Ek1 by apply (rc_locked _ _ _ Hr).
  assert (keeps w w2) as Hk2 by (apply keeps_live; try done; unfold w2, L2; wsimpl; congruence).
  assert (m_finished L2 = is_finished (state w)) as Ef2 by apply (rc_finished _ _ _ Hr).
  destruct c as [|l c'] eqn:Ec.
  - rewrite bool_decide_eq_true_2 by done. cbn [when]. eapply wp_mono; [by apply (find_connect_candidates_spec (multiple w) w2)|].
    intros [] w3 (key & rem & seen & [Hw3 Ho3 Ef3 Hkey Hcache Hseen Hall]). assert (multiple w3 = multiple w) as Em by by rewrite (proj2 (weeded_max _ _ _ _ Hw3)).
    assert (inv w3) as Hi3 by (eapply (inv_weeded _ rem w2); [done|done|by rewrite Em]).
    pose proof (keeps_trans _ _ _ Hk2 (keeps_weeded _ _ _ _ Hw3 Hi3)) as Hk3. pose proof (topped_top key seen) as Ht.
    assert (zlen (m_peers L2) = zlen (m_peers (the_list w))) as En by (unfold L2; wsimpl; by rewrite (rc_peers _ _ _ Hr)).
    assert (forall x q, heap w3 !! x = Some q -> order_key (state w) q = key x) as Hkey'.
    { intros x q Hq. rewrite <- (Hkey x q Hq). symmetry. apply order_key_fresh. apply (we_state _ _ _ _ Hw3). }
    wsteps. destruct (m_candidate_cache (the_list w3)) as [|l c'] eqn:Ec3.
    + wsteps. split; [done|]. split; [done|]. intros _ Hn x q Hx Hq. destruct (wanted w w3 q) eqn:Ew; [|done]. exfalso.
      assert (x ∈ seen) as Hxs by (apply (Hall x q); [by rewrite <- En in Hn|done..]). rewrite (tp_some _ _ _ Ht (eq_sym Hcache)) in Hxs. set_solver.
    + assert (l ∈ seen) as Hls by (apply (tp_sub _ _ _ Ht); rewrite <- Hcache; set_solver). destruct (Hseen l Hls) as (p & Hlp & Hp & Hel). wsteps.
      pose proof (take_first _ _ _ _ _ Ho3 Ec3) as Ho4. split; [|split].
      * eapply keeps_trans; [exact Hk3|]. assert (inv (in_the_list (set_m_candidate_cache c' (the_list w3)) w3)) as Hi4.
        { destruct Hi3 as [_ Hc3 Hf3]. split; [|done|done]. unfold multiple in *. wsimpl. by rewrite Em. }
        apply keeps_live; try done; eauto.
      * exists p. wsimpl. split; [done|]. split; [done|]. by apply eligible_candidate in Hel.
      * intros _ Hn. exists p. wsimpl. split; [done|]. split; [done|]. intros x q Hx Hq Hqe. rewrite (Hkey' x q Hq), (Hkey' l p Hp).
        assert (x ∈ seen) as Hxs by (apply (Hall x q); [by rewrite <- En in Hn|done..]).
        pose proof (tp_sorted _ _ _ Ht) as Hs. pose proof (tp_best _ _ _ Ht) as Hb. rewrite <- Hcache in Hs, Hb.
        destruct (decide (x ∈ l :: c')) as [Hin|Hnin]; [|apply (Hb x l); [done|done|set_solver]].
        apply elem_of_cons in Hin as [->|Hin]; [apply lex_irrefl|]. apply StronglySorted_inv in Hs as [_ Hs]. by eapply Forall_forall in Hs.
  - rewrite bool_decide_eq_false_2 by done. cbn [when]. wsteps. pose proof (take_first (multiple w) L2 (heap w) l c' Ho2 ltac:(done)) as Ho3.
    assert (l ∈ c) as Hlc by (rewrite Ec; set_solver). unfold c in Hlc. apply list_elem_of_filter in Hlc as [Hcand Hlc].
    destruct (lo_live _ _ _ _ Ho1 l (Hsub l Hlc)) as [p Hp]. split; [|split].
    + apply keeps_live; try done; unfold w1; wsimpl; congruence.
    + exists p. split; [by apply Hsub|]. split; [done|]. unfold cand_at, w1 in Hcand. wsimpl in Hcand. rewrite Hp in Hcand. unfold cand_of in Hcand.
      rewrite (rc_finished _ _ _ Hr) in Hcand. exact Hcand.
    + intros E _. exfalso. rewrite (rc_cache _ _ _ Hr), E in Hlc. set_solver.
Qed.
End find.
