(* ===== verification/PeerListRun.v ===== *)
(** * Runs of the peer list

    The filters, and [attach_peer] from its tests to the peer it may replace;
    then the operations the torrent calls, as a type, when each may be called,
    and that from any state that is reachable each one runs without undefined
    behaviour and keeps the invariant.  A torrent begins with an empty list, in
    a heap that holds its web seeds; connections come and go. *)

From Stdlib Require Import ZArith Lia.
From stdpp Require Import base numbers gmap sorting list.
From S2P Require Import Prelude IpFilter IpFilterSpec IpFilterTheorems PeerState PeerList PeerListSpec PeerListErase PeerListOps PeerListAdd.
From S2P Require Import PeerListConn PeerListFind.

(** ** The filters *)

Lemma to_int_bit n : Z.testbit (to_int n) 0 = Z.testbit n 0.
Proof.
  unfold to_int. rewrite Z.bit0_odd, Z.odd_sub, <- !Z.bit0_odd, Z.mod_pow2_bits_low, !Z.bit0_odd, Z.odd_add by lia. by rewrite !xorb_false_r.
Qed.

(** What the filters block. *)
Definition ip_blk (f : ip_filter) (p : torrent_peer) : bool := Z.testbit (flags_of f (tp_addr p)) 0.
Definition port_blk (f : list (range port_type)) (p : torrent_peer) : bool := Z.testbit (flags_at 0 f (value (Port (port p)))) 0.

Lemma ip_blocked_spec f p w : wf_filter f -> valid_address (tp_addr p) -> wp (ip_blocked f p) (fun b w' => b = ip_blk f p /\ w' = w) w.
Proof.
  intros Hf Hv. unfold ip_blocked. wstep. apply (wp_lift _ (to_int (flags_of f (tp_addr p)))); [by apply ip_access_spec|]. wstep.
  by rewrite to_int_bit.
Qed.

Lemma port_blocked_spec f p w : wf f -> 0 <= port p < 2 ^ 16 -> wp (port_blocked f p) (fun b w' => b = port_blk f p /\ w' = w) w.
Proof.
  intros Hf Hp. unfold port_blocked. wstep. apply (wp_lift _ (to_int (flags_at 0 f (value (Port (port p)))))).
  - unfold port_access. rewrite access_of_spec; done.
  - wstep. by rewrite to_int_bit.
Qed.

(** The peers of the list that a filter blocks are freed, no others. *)
Definition applied (blk : torrent_peer -> bool) (w w' : world) : Prop :=
  forall l, l ∈ m_peers (the_list w') <-> l ∈ m_peers (the_list w) /\ exists p, heap w !! l = Some p /\ blk p = false /\ heap w' !! l = Some p.

Lemma filtered_applied blk w w' : inv w -> filtered blk 0 w w' -> keeps w w' /\ applied blk w w'.
Proof.
  intros Hi (Hi' & _ & g & Hg & Hd).
  assert (forall l, l ∈ m_peers (the_list w) -> exists p, heap w !! l = Some p /\ (g l <-> blk p = true)) as Hgl.
  { intros l Hl. destruct (lo_live _ _ _ _ (inv_list _ Hi) l Hl) as [p Hp]. exists p. split; [done|]. rewrite Hg. split.
    - intros (j & q & _ & _ & Hq & Hb). congruence.
    - intros Hb. destruct (elem_zget _ _ Hl) as [i Hil]. pose proof (zget_Some_bound _ _ _ Hil). exists i, p. split; [lia|done]. }
  assert (forall l, Decision (g l)) as Hdec.
  { intros l. destruct (decide (l ∈ m_peers (the_list w))) as [Hl|Hn].
    - destruct (heap w !! l) as [p|] eqn:E; [|right; intros H; destruct (Hgl l Hl) as (q & Hq & _); congruence].
      destruct (blk p) eqn:Eb; [left|right]; destruct (Hgl l Hl) as (q & Hq & Hiff); simplify_eq; [by apply Hiff|]. intros H%Hiff. congruence.
    - right. rewrite Hg. intros (j & q & _ & Hj & _). by apply Hn, (zget_elem _ j). }
  split; [by eapply keeps_drops|]. intros l. rewrite (dr_peers _ _ _ Hd). split.
  - intros [Hl Hn]. split; [done|]. destruct (Hgl l Hl) as (p & Hp & Hiff). exists p. split; [done|]. split; [|by rewrite (dr_kept _ _ _ Hd)].
    destruct (blk p); [|done]. exfalso. by apply Hn, Hiff.
  - intros [Hl (p & Hp & Hb & _)]. split; [done|]. destruct (Hgl l Hl) as (q & Hq & Hiff). intros H%Hiff. congruence.
Qed.

Lemma apply_filter_spec blocked blk w : inv w -> m_locked_peer (the_list w) = None ->
  (forall p w, valid_address (tp_addr p) -> 0 <= port p < 2 ^ 16 -> wp (blocked p) (fun b w' => b = blk p /\ w' = w) w) ->
  wp (n ← peers_size; filter_loop (Z.to_nat n) blocked 0) (fun _ w' => keeps w w' /\ applied blk w w') w.
Proof.
  intros Hi Hk Hb. wsteps. eapply wp_mono; [apply (filter_loop_spec blocked blk Hb); [done|done|lia|lia]|]. intros r w' H. by apply filtered_applied.
Qed.

(** ** The priorities and the failures *)

Lemma clear_ranks_spec ls w (Q : unit -> world -> Prop) : (forall l, l ∈ ls -> is_Some (heap w !! l)) ->
  (forall h, (forall l p, heap w !! l = Some p -> h !! l = Some (if decide (l ∈ ls) then with_peer_rank 0 p else p)) ->
    (forall l, heap w !! l = None -> h !! l = None) -> Q tt (in_heap h w)) ->
  wp (foldr (fun l m => assign l (with_peer_rank 0);; m) (mret tt) ls) Q w.
Proof.
  revert w Q. induction ls as [|l ls IH]; intros w Q Hlive HQ; cbn [foldr].
  - wstep. specialize (HQ (heap w)). destruct w. apply HQ; [|done]. intros x p. rewrite decide_False by set_solver. done.
  - destruct (Hlive l) as [p Hp]; [set_solver|]. wsteps. apply IH.
    + intros x Hx. wsimpl. destruct (decide (x = l)) as [->|Hn]; [by rewrite lookup_insert_eq|]. rewrite lookup_insert_ne by congruence. apply Hlive. set_solver.
    + intros h Hh Hn. wsimpl in Hh. wsimpl in Hn. wsimpl. apply HQ.
      * intros x q Hx. destruct (decide (x = l)) as [->|Hne].
        -- rewrite (Hh l (with_peer_rank 0 p)) by apply lookup_insert_eq. rewrite (decide_True (P := l ∈ l :: ls)) by set_solver. assert (q = p) as -> by congruence. by case_decide.
        -- rewrite (Hh x q) by (by rewrite lookup_insert_ne by congruence). repeat case_decide; set_solver.
      * intros x Hx. apply Hn. rewrite lookup_insert_ne; [done|]. intros ->. congruence.
Qed.

Lemma clear_peer_prio_spec w : inv w ->
  wp clear_peer_prio (fun _ w' => keeps w w' /\ state w' = state w /\
    forall l p, l ∈ m_peers (the_list w) -> heap w !! l = Some p -> heap w' !! l = Some (with_peer_rank 0 p)) w.
Proof.
  intros [Ho Hc Hf]. unfold clear_peer_prio. wsteps. apply clear_ranks_spec; [apply (lo_live _ _ _ _ Ho)|]. intros h Hh Hn.
  assert (rank_only (heap w) h) as Hr.
  { intros l. destruct (heap w !! l) as [p|] eqn:E; [|by apply Hn]. rewrite (Hh l p E). case_decide; [by exists 0|]. exists (peer_rank p). by rewrite with_peer_rank_id. }
  pose proof (rank_only_weeded (fun _ => True) h w Hr) as Hw. split; [|split; [done|]].
  - eapply keeps_weeded; [done|]. eapply (inv_weeded _ [] w); [by split|done|]. by apply (lo_rank_only _ _ _ (heap w)).
  - intros l p Hl Hp. wsimpl. rewrite (Hh l p Hp). by rewrite decide_True.
Qed.

Lemma set_max_failcount_spec w : inv w ->
  wp set_max_failcount (fun _ w' => keeps w w' /\ m_max_failcount (the_list w') = max_failcount (state w)) w.
Proof.
  intros Hi. pose proof Hi as [Ho Hc Hf]. unfold set_max_failcount. wsteps. apply wp_when; intros E.
  - apply (wp_recalculate (multiple w) None); [done|]. intros L' Hr Emx Ho'. split; [|done].
    apply keeps_live; try done. wsimpl. by rewrite (rc_locked _ _ _ Hr).
  - apply negb_false_iff, Z.eqb_eq in E. split; [by apply keeps_refl|done].
Qed.

(** ** Connections that come in *)

(** [max_element] returns an element that is less than none. *)
Lemma max_element_spec (less : nat -> nat -> bool) l :
  (forall x, less x x = false) -> (forall x y, less x y = true -> less y x = false) ->
  (forall x y z, less x y = false -> less y z = false -> less x z = false) ->
  match max_element less l with None => l = [] | Some m => m ∈ l /\ forall x, x ∈ l -> less m x = false end.
Proof.
  intros Hirr Hasym Htr. destruct l as [|x l]; [done|]. cbn [max_element].
  enough (forall seen m, m ∈ seen -> (forall x, x ∈ seen -> less m x = false) ->
    let r := foldl (fun m y => if less m y then y else m) m l in r ∈ seen ++ l /\ forall x, x ∈ seen ++ l -> less r x = false) as H.
  { apply (H [x] x); [set_solver|]. intros y ->%list_elem_of_singleton. apply Hirr. }
  induction l as [|y l IH]; intros seen m Hm Hmax; cbn [foldl]; [by rewrite app_nil_r|].
  specialize (IH (seen ++ [y])). rewrite <- app_assoc in IH. apply IH; destruct (less m y) eqn:E; set_solver.
Qed.

Lemma elem_of_connections w c : c ∈ m_connections w <-> exists cn, conns w !! c = Some cn /\ attached cn = true.
Proof.
  unfold m_connections. rewrite (merge_sort_Permutation Peano.le), list_elem_of_fmap. split.
  - intros ([c' cn] & -> & [Ha Hin]%list_elem_of_filter). exists cn. by rewrite elem_of_map_to_list in Hin.
  - intros (cn & Hc & Ha). exists (c, cn). split; [done|]. apply list_elem_of_filter. split; [done|]. by apply elem_of_map_to_list.
Qed.

(** The tests before the limit. *)
Definition away (t : torrent) (cn : peer_connection) : bool :=
  ssl_mismatch t || match t_ip_filter t with None => false | Some f => Z.testbit (flags_of f (remote cn).1) 0 end ||
  checking t || negb (has_connection t) || is_aborted t.

Definition filter_ok (t : torrent) : Prop := forall f, t_ip_filter t = Some f -> wf_filter f.

Lemma turned_away_spec t cn w : filter_ok t -> valid_address (remote cn).1 -> wp (turned_away t cn) (fun b w' => b = away t cn /\ w' = w) w.
Proof.
  intros Hf Hv. unfold turned_away, away. destruct (ssl_mismatch t); cbn [orb]; [by wsteps|]. wstep.
  destruct (t_ip_filter t) as [f|] eqn:E; [|by wsteps]. wstep.
  apply (wp_lift _ (to_int (flags_of f (remote cn).1))); [apply ip_access_spec; [by apply Hf|done]|]. wsteps. by rewrite to_int_bit.
Qed.

(** The torrent has as many connections as it may have, and many of them are
    being made. *)
Definition full (t : torrent) (w : world) : Prop := connection_limit t <= zlen (m_connections w).
Definition many_connecting (t : torrent) : Prop := m_max_connections t / 10 < m_num_connecting t.

(** A connection that is being made and not closed. *)
Definition half_open (t : torrent) (w : world) (d : nat) : Prop :=
  d ∈ m_connections w /\ is_connecting t d = true /\ is_disconnecting w d = false.

Lemma longest_spec t w :
  match max_element (connecting_time_compare t w) (m_connections w) with
  | None => m_connections w = []
  | Some d => d ∈ m_connections w /\ (half_open t w d \/ forall x, ~ half_open t w x) /\
      forall x, half_open t w d -> half_open t w x -> connected_time t d <= connected_time t x
  end.
Proof.
  set (less := connecting_time_compare t w).
  assert (forall x, less x x = false) as H1.
  { intros x. unfold less, connecting_time_compare. destruct (is_connecting t x && _); simpl; apply Z.ltb_irrefl. }
  assert (forall x y, less x y = true -> less y x = false) as H2.
  { intros x y. unfold less, connecting_time_compare. destruct (is_connecting t x && _), (is_connecting t y && _); simpl; try done; lia. }
  assert (forall x y z, less x y = false -> less y z = false -> less x z = false) as H3.
  { intros x y z. unfold less, connecting_time_compare.
    destruct (is_connecting t x && _), (is_connecting t y && _), (is_connecting t z && _); simpl; try done; lia. }
  pose proof (max_element_spec less (m_connections w) H1 H2 H3) as H. destruct (max_element less _) as [d|]; [|done].
  destruct H as [Hd Hmax]. split; [done|].
  assert (forall x, half_open t w x <-> x ∈ m_connections w /\ is_connecting t x && negb (is_disconnecting w x) = true) as Hh.
  { intros x. unfold half_open. rewrite andb_true_iff, negb_true_iff. tauto. }
  split.
  - rewrite Hh. destruct (is_connecting t d && _) eqn:E; [by left|]. right. intros x. rewrite Hh. intros [Hx Ex].
    specialize (Hmax x Hx). unfold less, connecting_time_compare in Hmax. rewrite E, Ex in Hmax. done.
  - intros x [_ Ed]%Hh [Hx Ex]%Hh. specialize (Hmax x Hx). unfold less, connecting_time_compare in Hmax. rewrite Ed, Ex in Hmax. simpl in Hmax. lia.
Qed.

(** What [room_for_connection] comes to: there is room, or the longest of many
    connections that are being made is closed, or [w'] has the new connection
    closed, or it may have to replace another. *)
Inductive room_made (t : torrent) (c : nat) (w w' : world) : option bool -> Prop :=
| room_free : ~ full t w -> w' = w -> room_made t c w w' (Some false)
| room_dropped d : full t w -> many_connecting t -> half_open t w d ->
    (forall x, half_open t w x -> connected_time t d <= connected_time t x) -> closing d w w' -> room_made t c w w' (Some false)
| room_replace : full t w -> ~ many_connecting t -> w' = w -> room_made t c w w' (Some true)
| room_none : full t w -> many_connecting t -> (forall x, ~ half_open t w x) -> closed c w' -> room_made t c w w' None.

Lemma closing_state c w w' : closing c w w' -> state w' = state w.
Proof. by intros [? ? ? ? ->|? ? ? ? ? ? ? ? ? ? ? ? ->|? ? ? ? ? ? ? ? ? ? ? ? ? ? ? ->]. Qed.

Lemma room_for_connection_spec t c cn w : inv w -> conns w !! c = Some cn ->
  wp (room_for_connection t c) (fun r w' => room_made t c w w' r /\ keeps w w' /\ state w' = state w) w.
Proof.
  intros Hi Hcn. unfold room_for_connection. wsteps. unfold full. destruct (Z.ltb_spec (zlen (m_connections w)) (connection_limit t)) as [Hlt|Hge].
  { wsteps. split; [|split; [by apply keeps_refl|done]]. apply room_free; [unfold full; lia|done]. }
  destruct (Z.leb_spec (m_num_connecting t) (m_max_connections t / 10)) as [Hfew|Hmany].
  { wsteps. split; [|split; [by apply keeps_refl|done]]. apply room_replace; [done|unfold many_connecting; lia|done]. }
  assert ((forall x, ~ half_open t w x) -> wp (disconnect c 0;; mret None) (fun r w' => room_made t c w w' r /\ keeps w w' /\ state w' = state w) w) as Hnone.
  { intros Hno. wstep. eapply wp_mono; [by apply (disconnect_keeps c 0 cn w)|]. intros [] w' (Hk & Hcl & Hc). wsteps. split; [by apply room_none|]. split; [done|by eapply closing_state]. }
  wsteps. pose proof (longest_spec t w) as Hl. destruct (max_element _ _) as [d|].
  2:{ apply Hnone. intros x [Hx _]. rewrite Hl in Hx. set_solver. }
  destruct Hl as (Hd & Hor & Hmin). pose proof (proj1 (elem_of_connections w d) Hd) as (dn & Hdn & Ha). wstep. wstep.
  assert (is_disconnecting w d = disconnecting dn) as Edis by (unfold is_disconnecting; by rewrite Hdn).
  destruct (negb (is_connecting t d) || disconnecting dn) eqn:E.
  - apply Hnone. destruct Hor as [(_ & E1 & E2)|Hno]; [|done]. rewrite Edis in E2. by rewrite E1, E2 in E.
  - apply orb_false_iff in E as [E1%negb_false_iff E2]. assert (half_open t w d) as Hh by (by split_and!; [|done|congruence]).
    wstep. eapply wp_mono; [by apply (disconnect_keeps d 0 dn w)|]. intros [] w' (Hk & Hcl & _). wsteps.
    split; [by apply (room_dropped t c w w' d); auto|]. split; [done|by eapply closing_state].
Qed.

(** *** Ranks *)

Lemma reranked_keeps crc32c w w' : inv w -> reranked crc32c w w' -> keeps w w'.
Proof.
  intros Hi Hr. pose proof (reranked_weeded crc32c (fun _ => True) _ _ Hr) as Hw. eapply keeps_weeded; [done|].
  eapply inv_weeded; [done|done|]. rewrite (proj1 (reranked_the_list _ _ _ Hr)). rewrite (proj2 (weeded_max _ _ _ _ Hw)).
  by eapply lo_reranked; [apply (inv_list _ Hi)|].
Qed.

Lemma reranked_conns crc32c w w' : reranked crc32c w w' -> conns w' = conns w /\ state w' = state w.
Proof. by intros (h & -> & _). Qed.

Section incoming.
Context (crc32c : list Z -> Z) (alloc : gmap nat torrent_peer -> option nat).
Context (Halloc : forall h l, alloc h = Some l -> h !! l = None).

(** The rank of a connection is that of its peer. *)
Definition rank_of (w : world) (c : nat) : Z :=
  match conns w !! c with
  | Some cn => match peer_info cn with
               | Some l => match heap w !! l with Some p => peer_rank_of crc32c (state w) p | None => 0 end
               | None => 0
               end
  | None => 0
  end.

Lemma rank_of_reranked w w' c : reranked crc32c w w' -> rank_of w' c = rank_of w c.
Proof.
  intros (h & -> & H). unfold rank_of. wsimpl. destruct (conns w !! c) as [cn|]; [|done]. destruct (peer_info cn) as [l|]; [|done].
  specialize (H l). destruct (heap w !! l) as [p|]; [|by rewrite H]. by destruct H as (r & -> & ->).
Qed.

Lemma is_disconnecting_reranked w w' c : reranked crc32c w w' -> is_disconnecting w' c = is_disconnecting w c.
Proof. by intros (h & -> & _). Qed.

Lemma connection_rank_spec c cn w : inv w -> votes_ok (ip (state w)) -> conns w !! c = Some cn ->
  wp (connection_rank crc32c c) (fun r w' => r = rank_of w c /\ reranked crc32c w w') w.
Proof.
  intros Hi Hv Hc. unfold connection_rank, rank_of. wsteps. rewrite Hc. destruct (peer_info cn) as [l|] eqn:E; [|wsteps; split; [done|apply reranked_refl]].
  destruct (co_conn _ _ (inv_conns _ Hi) c cn l Hc E) as (p & Hl & _). rewrite Hl. by apply rank_spec.
Qed.

(** The lowest of the connections of [l] and the one that was the lowest. *)
Definition lowest_of (w : world) (l : list nat) (d : nat) : Prop :=
  is_disconnecting w d = false /\ d ∈ l /\ forall x, x ∈ l -> is_disconnecting w x = false -> rank_of w d <= rank_of w x.

Lemma lowest_loop_spec l : forall seen lowest w, inv w -> votes_ok (ip (state w)) -> (forall x, x ∈ seen ++ l -> is_Some (conns w !! x)) ->
  match lowest with None => forall x, x ∈ seen -> is_disconnecting w x = true | Some d => lowest_of w seen d end ->
  wp (lowest_loop crc32c l lowest) (fun r w' => reranked crc32c w w' /\
    match r with None => forall x, x ∈ seen ++ l -> is_disconnecting w x = true | Some d => lowest_of w (seen ++ l) d end) w.
Proof.
  induction l as [|c l IH]; intros seen lowest w Hi Hv Hlive Hlow; cbn [lowest_loop].
  { wstep. rewrite app_nil_r. split; [apply reranked_refl|done]. }
  destruct (Hlive c) as [cn Hc]; [set_solver|]. assert (is_disconnecting w c = disconnecting cn) as Ed by (unfold is_disconnecting; by rewrite Hc).
  assert (forall lowest' w1, reranked crc32c w w1 -> match lowest' with None => forall x, x ∈ seen ++ [c] -> is_disconnecting w x = true | Some d => lowest_of w (seen ++ [c]) d end ->
    wp (lowest_loop crc32c l lowest') (fun r w' => reranked crc32c w w' /\
      match r with None => forall x, x ∈ seen ++ c :: l -> is_disconnecting w x = true | Some d => lowest_of w (seen ++ c :: l) d end) w1) as Hnext.
  { intros lowest' w1 Hr Hlow'. destruct (reranked_conns _ _ _ Hr) as [Ec Es].
    assert (forall d ls, lowest_of w1 ls d <-> lowest_of w ls d) as Hlo.
    { intros d ls. unfold lowest_of. rewrite (is_disconnecting_reranked _ _ d Hr), (rank_of_reranked _ _ d Hr).
      split; intros (H1 & H2 & H3); (split_and!; [done|done|]); intros x Hx Hn; specialize (H3 x Hx);
        rewrite (is_disconnecting_reranked _ _ x Hr), (rank_of_reranked _ _ x Hr) in *; auto. }
    specialize (IH (seen ++ [c]) lowest' w1). rewrite <- app_assoc in IH. cbn [app] in IH.
    eapply wp_mono; [apply IH|].
    - apply (ke_inv _ _ (reranked_keeps _ _ _ Hi Hr)).
    - by rewrite Es.
    - by rewrite Ec.
    - destruct lowest'; [by apply Hlo|]. intros x Hx. rewrite (is_disconnecting_reranked _ _ x Hr). by apply Hlow'.
    - intros r w' [Hr' H]. split; [by eapply reranked_trans|]. destruct r; [by apply Hlo|]. intros x Hx.
      rewrite <- (is_disconnecting_reranked _ _ x Hr). by apply H. }
  wsteps. destruct (disconnecting cn) eqn:Edc.
  { apply Hnext; [apply reranked_refl|]. destruct lowest as [d|]; [|set_solver]. destruct Hlow as (H1 & H2 & H3). split_and!; [done|set_solver|].
    intros x [Hx| ->%list_elem_of_singleton]%elem_of_app Hn; [by apply H3|congruence]. }
  destruct lowest as [d|].
  2:{ apply Hnext; [apply reranked_refl|]. split_and!; [done|set_solver|].
      intros x [Hx| ->%list_elem_of_singleton]%elem_of_app Hn; [|lia]. rewrite (Hlow x Hx) in Hn. done. }
  destruct Hlow as (H1 & H2 & H3). destruct (Hlive d) as [dn Hdn]; [set_solver|].
  wstep. eapply wp_mono; [by apply (connection_rank_spec d dn w)|]. intros rd w1 [-> Hr1]. destruct (reranked_conns _ _ _ Hr1) as [Ec Es].
  wstep. eapply wp_mono; [apply (connection_rank_spec c cn w1); [apply (ke_inv _ _ (reranked_keeps _ _ _ Hi Hr1))|by rewrite Es|by rewrite Ec]|].
  intros rc w2 [-> Hr2]. rewrite (rank_of_reranked _ _ c Hr1). apply Hnext; [by eapply reranked_trans|].
  destruct (Z.ltb_spec (rank_of w c) (rank_of w d)); (split_and!; [congruence|set_solver|]);
    intros x [Hx| ->%list_elem_of_singleton]%elem_of_app Hn; try lia; specialize (H3 x Hx Hn); lia.
Qed.

Lemma find_lowest_spec w : inv w -> votes_ok (ip (state w)) ->
  wp (find_lowest_ranking_peer crc32c) (fun r w' => reranked crc32c w w' /\
    match r with None => forall x, x ∈ m_connections w -> is_disconnecting w x = true | Some d => lowest_of w (m_connections w) d end) w.
Proof.
  intros Hi Hv. unfold find_lowest_ranking_peer. wstep. wstep. apply (lowest_loop_spec _ []); [done|done| |set_solver].
  intros x Hx. apply elem_of_connections in Hx as (cn & Hx & _). by eexists.
Qed.

(** *** Replacing a connection *)

(** Closing another connection leaves the peer of [c] alone. *)
Lemma closing_spares d c l p w w' : inv w -> inv w' -> l ∈ m_peers (the_list w) -> heap w !! l = Some p -> connection p = Some c -> d <> c ->
  closing d w w' -> heap w' !! l = Some p /\ l ∈ m_peers (the_list w') /\ state w' = state w.
Proof.
  intros Hi Hi' Hin Hl Hc Hne Hcl. assert (heap w' !! l = Some p /\ state w' = state w) as [Hl' Es].
  { destruct Hcl as [cn0 cn' _ _ ->|cn' l0 p0 p' L' Hl0 Hc0 _ _ _ _ _ ->|cn' i l0 p0 L1 L' Hl0 Hc0 _ _ _ _ _ _ _ ->]; wsimpl; [done|..];
      (split; [|done]); (destruct (decide (l0 = l)) as [->|Hn]; [congruence|]); [by rewrite lookup_insert_ne|by rewrite lookup_delete_ne]. }
  split_and!; [done| |done]. apply (lo_all _ _ _ _ (inv_list _ Hi') l p Hl'). by apply (lo_all _ _ _ _ (inv_list _ Hi) l p Hl).
Qed.

(** The connection has lost to the lowest of the others, or has outranked it. *)
Definition outranked (w : world) (c : nat) : Prop :=
  forall x, x ∈ m_connections w -> is_disconnecting w x = false -> rank_of w c <= rank_of w x.
Definition outranks (w w' : world) (c : nat) : Prop :=
  exists d, lowest_of w (m_connections w) d /\ rank_of w d < rank_of w c /\ closed d w'.

Lemma replace_peer_spec c l p w : inv w -> votes_ok (ip (state w)) -> l ∈ m_peers (the_list w) -> heap w !! l = Some p -> connection p = Some c ->
  wp (replace_peer crc32c c) (fun ok w' => keeps w w' /\ state w' = state w /\
    if ok then outranks w w' c /\ l ∈ m_peers (the_list w') /\ exists r, heap w' !! l = Some (with_peer_rank r p)
    else outranked w c /\ closed c w') w.
Proof.
  intros Hi Hv Hin Hl Hc. destruct (co_peer _ _ (inv_conns _ Hi) l p c Hl Hc) as (cn & Hcn & Hpi & Ha & Hd).
  assert (c ∈ m_connections w) as Hcm by (apply elem_of_connections; by exists cn).
  assert (is_disconnecting w c = false) as Hcd by (unfold is_disconnecting; by rewrite Hcn).
  unfold replace_peer. wstep. eapply wp_mono; [by apply find_lowest_spec|]. intros r w1 [Hr1 Hlow].
  destruct r as [d|]; [|rewrite (Hlow c Hcm) in Hcd; done]. pose proof Hlow as (Hdd & Hdm & Hdl).
  pose proof (proj1 (elem_of_connections w d) Hdm) as (dn & Hdn & _).
  destruct (reranked_conns _ _ _ Hr1) as [Ec1 Es1]. pose proof (reranked_keeps _ _ _ Hi Hr1) as Hk1.
  wstep. wstep. eapply wp_mono; [apply (connection_rank_spec d dn w1); [apply Hk1|by rewrite Es1|by rewrite Ec1]|]. intros rd w2 [-> Hr2].
  destruct (reranked_conns _ _ _ Hr2) as [Ec2 Es2]. pose proof (reranked_keeps _ _ _ (ke_inv _ _ Hk1) Hr2) as Hk2.
  wstep. eapply wp_mono; [apply (connection_rank_spec c cn w2); [apply Hk2|by rewrite Es2, Es1|by rewrite Ec2, Ec1]|]. intros rc w3 [-> Hr3].
  destruct (reranked_conns _ _ _ Hr3) as [Ec3 Es3]. pose proof (reranked_keeps _ _ _ (ke_inv _ _ Hk2) Hr3) as Hk3. wstep. wsimpl.
  pose proof (reranked_trans _ _ _ _ Hr1 Hr2) as Hr12. pose proof (reranked_trans _ _ _ _ Hr12 Hr3) as Hr.
  rewrite (rank_of_reranked _ _ d Hr1), (rank_of_reranked _ _ c Hr12).
  assert (keeps w w3) as Hk by (eapply keeps_trans; [done|]; by eapply keeps_trans).
  assert (conns w3 = conns w /\ state w3 = state w) as [Ec Es] by by eapply reranked_conns. pose proof (ke_inv _ _ Hk) as Hi3.
  destruct (Z.ltb_spec (rank_of w d) (rank_of w c)) as [Hlt|Hge].
  - wstep. eapply wp_mono; [apply (disconnect_keeps d 0 dn w3); [done|by rewrite Ec]|]. intros [] w4 (Hk4 & Hcl & Hd4). wsteps.
    assert (exists q, heap w3 !! l = Some (with_peer_rank q p)) as [q Hq].
    { destruct (reranked_lookup _ _ _ l p Hr Hl) as (q & Hq & _). by exists q. }
    destruct (closing_spares d c l (with_peer_rank q p) w3 w4) as (Hl4 & Hin4 & Es4); try done; [apply Hk4| |intros ->; lia|].
    { by rewrite (proj1 (reranked_the_list _ _ _ Hr)). }
    split; [by eapply keeps_trans|]. split; [congruence|]. split; [by exists d|]. split; [done|by exists q].
  - wstep. eapply wp_mono; [apply (disconnect_keeps c 0 cn w3); [done|by rewrite Ec]|]. intros [] w4 (Hk4 & Hcl & cn4 & Hcn4 & Hd4).
    assert (state w4 = state w3) as Es4 by by eapply closing_state.
    assert (peer_info cn4 = None) as Hn4 by (eapply alone_conn; [apply (ke_inv _ _ Hk4)|done|by right]).
    wstep. eapply wp_mono; [by apply (remove_alone_spec c cn4 w4)|]. intros [] w5 (cn5 & Hn5 & Hd5 & ->). wsteps.
    assert (keeps w4 (in_conns (<[c := cn5]> (conns w4)) w4)) as Hk5.
    { apply keeps_live; try done; eauto. by apply (inv_alone w4 c cn4 cn5 (ke_inv _ _ Hk4)). }
    split; [eapply keeps_trans; [done|]; by eapply keeps_trans|]. split; [wsimpl; congruence|]. split.
    + intros x Hx Hxd. specialize (Hdl x Hx Hxd). lia.
    + exists cn5. wsimpl. rewrite lookup_insert_eq. split; [done|congruence].
Qed.

(** *** [attach_peer] *)

(** Why the connection stays or goes: it is turned away, there is no room and
    none can be made, its peer is refused ([verdict]), or it has been given
    its peer and then, at the limit, outranks another connection or not. *)
Inductive attach_result (t : torrent) (c : nat) (cn : peer_connection) (w w' : world) : bool -> Prop :=
| result_away : away t cn = true -> attach_result t c cn w w' false
| result_no_room : away t cn = false -> room_made t c w w' None -> attach_result t c cn w w' false
| result_refused w1 b : away t cn = false -> room_made t c w w1 (Some b) -> verdict alloc cn w1 w' false -> attach_result t c cn w w' false
| result_attached w1 : away t cn = false -> room_made t c w w1 (Some false) -> verdict alloc cn w1 w' true -> attach_result t c cn w w' true
| result_replaced w1 w2 b : away t cn = false -> room_made t c w w1 (Some true) -> verdict alloc cn w1 w2 true -> keeps w2 w' ->
    (if b : bool then outranks w2 w' c else outranked w2 c) -> attach_result t c cn w w' b.

Lemma room_made_frame t c cn w w1 b : new_conn w c cn -> room_made t c w w1 (Some b) -> new_conn w1 c cn.
Proof.
  intros Hnc H. remember (Some b) as r eqn:Er. destruct H as [Hf ->|d Hf Hm Hh Hl Hcl|Hf Hm ->|]; try done.
  assert (d <> c) as Hne.
  { intros ->. destruct Hh as (Hin & _). apply elem_of_connections in Hin as (cn1 & Hc1 & Ha). destruct Hnc as (Hc & _ & _ & _ & _ & _ & Ha'). congruence. }
  destruct Hnc as [Hc Hrest]. split; [|done]. by rewrite (closing_others _ _ _ _ Hcl).
Qed.

Lemma attach_peer_spec t rnd c cn w : inv w -> new_conn w c cn -> settings_ok (state w) -> votes_ok (ip (state w)) -> filter_ok t ->
  wp (attach_peer crc32c alloc t rnd c) (fun ok w' => keeps w w' /\ state w' = state w /\ attach_result t c cn w w' ok /\
    if ok then attached_to c cn w w' else closed c w') w.
Proof.
  intros Hi Hnc Hst Hv Hf. pose proof Hnc as (Hcn & Hn & Hd & Hva & _). unfold attach_peer. wstep. wstep. wstep.
  eapply wp_mono; [by apply turned_away_spec|]. intros b w0 [-> ->]. destruct (away t cn) eqn:Eaway.
  { wstep. eapply wp_mono; [by apply (disconnect_alone_spec c 0 cn w)|]. intros [] w' (Hk & (cn1 & Hcl) & cn' & ->). wsteps.
    split; [done|]. split; [done|]. split; [by apply result_away|by exists cn1]. }
  wstep. eapply wp_mono; [by apply (room_for_connection_spec t c cn w)|]. intros r w1 (Hroom & Hk1 & Es1). destruct r as [b|].
  2:{ wstep. split; [done|]. split; [done|]. split; [by apply result_no_room|]. by inversion Hroom. }
  pose proof (room_made_frame t c cn w w1 b Hnc Hroom) as Hnc1.
  wstep. eapply wp_mono; [apply (attach_connection_spec alloc Halloc rnd c cn w1 (ke_inv _ _ Hk1)); [done|by rewrite Es1]|].
  intros ok w2 (Hk2 & Es2 & Hver & Hatt). pose proof (keeps_trans _ _ _ Hk1 Hk2) as Hk12. destruct ok; cbn [negb].
  2:{ wsteps. split; [done|]. split; [congruence|]. split; [by eapply result_refused|done]. }
  destruct Hatt as (l & p & Hin & Hl & Hc & Hb & Hkey). rewrite (keeps_multiple _ _ Hk1) in Hkey. destruct b.
  2:{ wsteps. split; [done|]. split; [congruence|]. split; [by eapply result_attached|by exists l, p]. }
  eapply wp_mono; [apply (replace_peer_spec c l p w2); try done; [apply Hk12|by rewrite Es2, Es1]|].
  intros ok w3 (Hk3 & Es3 & H). split; [by eapply keeps_trans|]. split; [congruence|]. destruct ok.
  - destruct H as (Hout & Hin3 & r & Hl3). split; [by eapply (result_replaced t c cn w w3 w1 w2 true)|]. by exists l, (with_peer_rank r p).
  - destruct H as (Hout & Hcl). split; [by eapply (result_replaced t c cn w w3 w1 w2 false)|done].
Qed.
End incoming.

(** ** Operations *)

Inductive op :=
| Add (random_value : Z) (ep : endpoint) (src flags : Z)
| Incoming (t : torrent) (random_value : Z) (c : nat) (cn : peer_connection)
| Connect (m_abort no_transport : bool) (l c : nat) (cn : peer_connection)
| ConnectOne
| Disconnect (c : nat) (error : Z)
| UpdatePort (new_port : Z) (l : nat) (src : Z)
| Ban (l : nat)
| IncFailcount (l : nat)
| SetFailcount (l : nat) (f : Z)
| SetSeed (l : nat) (s : bool)
| ApplyIpFilter (f : ip_filter)
| ApplyPortFilter (f : list (range port_type))
| ClearPrio
| MaxFailcount
| Settings (st : torrent_state)
| Time (t : Z).

Definition ignore {A} (m : M A) : M unit := _ ← m; mret tt.

Section run.
Context (crc32c : list Z -> Z) (alloc : gmap nat torrent_peer -> option nat).
Context (Halloc : forall h l, alloc h = Some l -> h !! l = None).

Definition new_conns (c : nat) (cn : peer_connection) : M unit := modify (fun w => in_conns (<[c := cn]> (conns w)) w).

Definition exec (o : op) : M unit :=
  match o with
  | Add rnd ep src flags => with_list_state (ignore (add_peer alloc rnd ep src flags))
  | Incoming t rnd c cn => new_conns c cn;; ignore (attach_peer crc32c alloc t rnd c)
  | Connect m_abort no_transport l c cn => ignore (connect_to_peer m_abort no_transport l c cn)
  | ConnectOne => with_list_state (ignore (connect_one_peer crc32c))
  | Disconnect c error => disconnect c error
  | UpdatePort new_port l src => with_list_state (ignore (update_peer_port new_port l src))
  | Ban l => ignore (ban_peer l)
  | IncFailcount l => inc_failcount l
  | SetFailcount l f => set_failcount l f
  | SetSeed l s => set_seed l s
  | ApplyIpFilter f => with_list_state (ignore (apply_ip_filter f))
  | ApplyPortFilter f => with_list_state (ignore (apply_port_filter f))
  | ClearPrio => clear_peer_prio
  | MaxFailcount => with_list_state (ignore set_max_failcount)
  | Settings st => set_state (fun _ => st)
  | Time t => modify (fun w => World (the_list w) (heap w) (conns w) (state w) t (cleared w))
  end.

(** When an operation is called: with addresses and ports that are valid, on
    peers and connections that exist, and with settings and filters in range.
    A connection that comes in is new, one that is made is for a peer without
    one; a peer is told to be no seed while it is connected; and when one
    connection per address is asked for, no two peers share an address. *)
Definition enabled (o : op) (w : world) : Prop :=
  match o with
  | Add _ ep _ _ => valid_address ep.1 /\ 0 <= ep.2 < 2 ^ 16 /\ settings_ok (state w)
  | Incoming t _ c cn =>
      conns w !! c = None /\ new_conn (in_conns (<[c := cn]> (conns w)) w) c cn /\ settings_ok (state w) /\
      votes_ok (ip (state w)) /\ filter_ok t
  | Connect _ _ l c cn => outgoing_conn w l c cn /\ exists p, heap w !! l = Some p /\ connection p = None
  | ConnectOne => times_ok w /\ votes_ok (ip (state w))
  | Disconnect c _ => is_Some (conns w !! c)
  | UpdatePort new_port l _ => 0 <= new_port < 2 ^ 16 /\ l ∈ m_peers (the_list w) /\ exists p, heap w !! l = Some p /\ connection p <> None
  | Ban l | IncFailcount l | SetFailcount l _ => is_Some (heap w !! l)
  | SetSeed l s => exists p, heap w !! l = Some p /\ (s = false -> connection p <> None \/ web_seed p = true)
  | ApplyIpFilter f => wf_filter f
  | ApplyPortFilter f => wf f
  | ClearPrio | MaxFailcount | Time _ => True
  | Settings st => erased st = [] /\ NoDup (map (key_of (allow_multiple_connections_per_ip st) (heap w)) (m_peers (the_list w)))
  end.

Lemma added_keeps ep src flags r w w' : added alloc ep src flags w r w' -> inv w' -> keeps w w'.
Proof.
  intros [_|i l p w1 _ Hl _ (L' & -> & _ & Hk)|rem l q w1 _ Hg _|rem w1 _ Hw _] Hi.
  - by apply keeps_refl.
  - apply keeps_live; try done; wsimpl; [|by rewrite Hk]. intros x p0 Hx.
    destruct (decide (x = l)) as [->|Hn]; [by rewrite lookup_insert_eq|by rewrite lookup_insert_ne by congruence].
  - destruct Hg. split; try done; unfold reported; wsimpl.
    + intros x. rewrite gr_erased, gr_cleared. set_solver.
    + intros x p Hx Hn. left. rewrite gr_erased. destruct (decide (x ∈ rem)) as [?|Hnr]; [set_solver|]. destruct (gr_kept x p Hnr Hx); congruence.
    + by rewrite gr_locked.
  - by eapply keeps_weeded.
Qed.

(** A state between two calls. *)
Record sound (w : world) : Prop := {
  so_inv : inv w;
  so_unlocked : m_locked_peer (the_list w) = None;
  so_erased : erased (state w) = [];
}.

(** What is freed is reported to the piece picker. *)
Definition frees_reported (w w' : world) : Prop :=
  (forall l, l ∈ cleared w -> l ∈ cleared w') /\ forall l p, heap w !! l = Some p -> heap w' !! l = None -> l ∈ cleared w'.

Lemma sound_keeps w w' : sound w -> keeps w w' -> state w' = state w -> sound w' /\ frees_reported w w'.
Proof.
  intros [Hi Hk He] H Es. split; [split; [apply (ke_inv _ _ H)|by apply (ke_locked _ _ H)|by rewrite Es]|].
  pose proof (ke_reported _ _ H) as Hr. pose proof (ke_freed _ _ H) as Hf. unfold reported in *. rewrite Es, He in *. split.
  - intros l Hl. destruct (Hr l); [by right|set_solver|done].
  - intros l p Hl Hn. destruct (Hf l p Hl Hn); [set_solver|done].
Qed.

Lemma sound_call {A} (m : M A) w : sound w -> wp m (fun _ w1 => keeps (in_state (fresh_state (state w)) w) w1) (in_state (fresh_state (state w)) w) ->
  wp (with_list_state (ignore m)) (fun _ w' => sound w' /\ frees_reported w w') w.
Proof.
  intros Hs H. apply wp_with_list_state. unfold ignore. wstep. eapply wp_mono; [exact H|]. intros a w1 Hk. wstep. cbn beta.
  apply (sound_keeps w (after_call w w1)); [done|by apply keeps_call|done].
Qed.

Lemma sound_changed l p w w' : sound w -> changed l p w w' -> inv w' -> sound w' /\ frees_reported w w'.
Proof. intros Hs Hch Hi. apply sound_keeps; [done|by eapply keeps_changed|]. by destruct Hch as (L' & -> & _). Qed.

Lemma sound_fresh w : sound w -> inv (in_state (fresh_state (state w)) w).
Proof. intros [Hi _ _]. by apply inv_state. Qed.

Lemma inv_new_conn c cn w : inv w -> conns w !! c = None -> peer_info cn = None -> inv (in_conns (<[c := cn]> (conns w)) w).
Proof. intros [Ho Hco Hf] Hc Hn. split; wsimpl; [done|by apply co_conn_new|done]. Qed.

Lemma exec_sound o w : sound w -> enabled o w -> wp (exec o) (fun _ w' => sound w' /\ frees_reported w w') w.
Proof.
  intros Hs He. pose proof (so_inv _ Hs) as Hi. pose proof (sound_fresh _ Hs) as Hi0.
  destruct o as [rnd ep src flags|t rnd c cn|m_abort no_transport l c cn| |c error|new_port l src|l|l|l fc|l s|f|f| | |st|t]; cbn [exec enabled] in *.
  - destruct He as (Hv & Hp & Hst). apply sound_call; [done|]. eapply wp_mono; [by apply (add_peer_spec alloc Halloc rnd ep src flags)|].
    intros r w1 [Ha Hi1]. by eapply added_keeps.
  - destruct He as (Hc & Hnc & Hst & Hv & Hf). set (w0 := in_conns (<[c := cn]> (conns w)) w) in *. unfold new_conns. wstep. wstep. unfold ignore. wstep. fold w0.
    assert (inv w0) as Hi1 by (apply inv_new_conn; [done|done|apply Hnc]).
    eapply wp_mono; [by apply (attach_peer_spec crc32c alloc Halloc t rnd c cn w0)|]. intros ok w1 (Hk & Es & _). wstep.
    apply sound_keeps; [done| |done]. destruct Hk. by split.
  - destruct He as (Hc & p & Hl & Hp). unfold ignore. wstep. eapply wp_mono; [by apply (connect_to_peer_spec m_abort no_transport l c cn p w)|].
    intros ok w1 (Hk & Es & _). wstep. by apply sound_keeps.
  - destruct He as (Ht & Hv). apply sound_call; [done|]. eapply wp_mono; [by apply connect_one_peer_spec|]. by intros r w1 [Hk _].
  - destruct He as [cn Hcn]. eapply wp_mono; [by apply (disconnect_keeps c error cn w)|]. intros [] w1 (Hk & Hcl & _). apply sound_keeps; [done|done|].
    by destruct Hcl as [cn0 cn' _ _ ->|cn' l p p' L' _ _ _ _ _ _ _ ->|cn' i l p L1 L' _ _ _ _ _ _ _ _ _ ->].
  - destruct He as (Hnp & Hin & p & Hl & Hp). destruct (connection p) as [c|] eqn:Ec; [|done]. apply sound_call; [done|].
    eapply wp_mono; [by apply (update_peer_port_spec new_port src l c p)|]. by intros ok w1 [Hk _].
  - destruct He as [p Hl]. unfold ignore. wstep. eapply wp_mono; [by apply (ban_peer_spec l p)|]. intros r w1 (_ & Hch & Hi1). wstep. by eapply sound_changed.
  - destruct He as [p Hl]. eapply wp_mono; [by apply (inc_failcount_spec l p)|]. intros [] w1 (Hi1 & H). destruct (failcount p =? 31).
    + subst w1. apply sound_keeps; [done|by apply keeps_refl|done].
    + destruct H as [Hch _]. by eapply sound_changed.
  - destruct He as [p Hl]. eapply wp_mono; [by apply (set_failcount_spec l p fc)|]. intros [] w1 (Hch & Hi1). by eapply sound_changed.
  - destruct He as (p & Hl & Hp). eapply wp_mono; [by apply (set_seed_spec l p s)|]. intros [] w1 (Hch & Hi1). by eapply sound_changed.
  - apply sound_call; [done|]. eapply wp_mono; [apply (apply_filter_spec _ (ip_blk f)); [done|apply (so_unlocked _ Hs)|intros; by apply ip_blocked_spec]|].
    by intros r w1 [Hk _].
  - apply sound_call; [done|]. eapply wp_mono; [apply (apply_filter_spec _ (port_blk f)); [done|apply (so_unlocked _ Hs)|intros; by apply port_blocked_spec]|].
    by intros r w1 [Hk _].
  - eapply wp_mono; [by apply clear_peer_prio_spec|]. intros [] w1 (Hk & Es & _). by apply sound_keeps.
  - apply sound_call; [done|]. eapply wp_mono; [by apply set_max_failcount_spec|]. by intros [] w1 [Hk _].
  - wstep. destruct He as [He Hu]. split; [|split; [done|wsimpl; intros l p ??; congruence]]. destruct Hi as [Ho Hco Hf]. split; wsimpl; [split; [|done|done]|apply Hs|done].
    unfold multiple. wsimpl. destruct Ho. by split.
  - wstep. split; [|split; [done|wsimpl; intros l p ??; congruence]]. destruct Hs as [[Ho Hco Hf] Hk Her]. by split; [split| |].
Qed.
End run.
