(* ===== verification/PeerListTheorems.v ===== *)
(** * What the peer list promises

    The properties of the peer list: runs of operations, and what adding a
    peer, a connection that comes in, a new port, a filter and the choice of a
    candidate do.  The samples at the end are the witnesses. *)

From Stdlib Require Import ZArith Lia.
From stdpp Require Import base numbers gmap sorting list.
From S2P Require Import Prelude IpFilter IpFilterSpec IpFilterTheorems PeerState PeerList PeerListSpec PeerListErase PeerListOps PeerListAdd.
From S2P Require Import PeerListConn PeerListFind PeerListRun.

(** ** Runs *)

(** The world of a torrent that has no peers yet. *)
Record initial (w : world) : Prop := {
  in_empty : the_list w = new_peer_list;
  in_unreported : erased (state w) = [];
  in_web_seeds l p : heap w !! l = Some p -> web_seed p = true /\ connectable p = true /\ connection p = None /\ fits p;
  in_unattached c cn : conns w !! c = Some cn -> peer_info cn = None;
}.

Lemma initial_sound w : initial w -> sound w.
Proof.
  intros [El He Hw Hc]. split; [split; [| |]|by rewrite El|done].
  - rewrite El. split; cbn; try (set_solver || lia || done).
    + intros l p Hl. destruct (Hw l p Hl) as (-> & _). set_solver.
    + apply SSorted_nil.
    + apply NoDup_nil_2.
    + split; [apply NoDup_nil_2|set_solver].
  - split.
    + intros l p c Hl Hp. destruct (Hw l p Hl) as (_ & _ & ? & _). congruence.
    + intros c cn l Hcn Hi. rewrite (Hc c cn Hcn) in Hi. done.
  - intros l p Hl. by destruct (Hw l p Hl) as (_ & _ & _ & ?).
Qed.

Section theorems.
Context (crc32c : list Z -> Z) (alloc : gmap nat torrent_peer -> option nat).
Context (Halloc : forall h l, alloc h = Some l -> h !! l = None).

Fixpoint exec_all (ops : list op) : M unit := match ops with [] => mret tt | o :: ops => exec crc32c alloc o;; exec_all ops end.

(** Each operation is enabled where it is called. *)
Fixpoint all_enabled (ops : list op) (w : world) : Prop :=
  match ops with
  | [] => True
  | o :: ops => enabled o w /\ forall w', exec crc32c alloc o w = Some (tt, w') -> all_enabled ops w'
  end.

Lemma wp_some {A} (m : M A) (Q : A -> world -> Prop) w : wp m Q w -> exists a w', m w = Some (a, w') /\ Q a w'.
Proof. unfold wp. destruct (m w) as [[a w']|]; [|done]. by exists a, w'. Qed.

Lemma frees_trans w w1 w' : frees_reported w w1 -> frees_reported w1 w' -> frees_reported w w'.
Proof.
  intros [H1 H2] [H3 H4]. split; [auto|]. intros l p Hl Hn. destruct (heap w1 !! l) as [q|] eqn:E; eauto.
Qed.

Lemma exec_all_sound ops w : sound w -> all_enabled ops w -> exists w', exec_all ops w = Some (tt, w') /\ sound w' /\ frees_reported w w'.
Proof.
  revert w. induction ops as [|o ops IH]; intros w Hs He; cbn [exec_all].
  - exists w. split; [done|]. split; [done|]. split; [done|]. intros l p Hl Hn. congruence.
  - destruct He as [He Hnext]. destruct (wp_some _ _ _ (exec_sound crc32c alloc Halloc o w Hs He)) as ([] & w1 & E1 & Hs1 & Hf1).
    destruct (IH w1 Hs1 (Hnext w1 E1)) as (w' & E' & Hs' & Hf'). exists w'. split; [|split; [done|by eapply frees_trans]].
    unfold mbind, M_bind. by rewrite E1.
Qed.

(** C32 (invariant): any sequence of operations, each called when it is enabled, runs
    from an empty list to its end without undefined behaviour: no peer that was
    freed and no connection that is gone is followed, no index leaves the list
    and no [int] overflows.  The list is then sorted by address, with no two
    peers of one endpoint, or of one address where one connection per address
    is allowed, the counts of candidates and seeds are exact, the cache holds
    peers of the list, peers and connections point at each other, no peer in
    the heap is lost, and every peer that was freed is reported to the picker. *)
Theorem peer_list_runs ops w : initial w -> all_enabled ops w ->
  exists w', exec_all ops w = Some (tt, w') /\ inv w' /\ frees_reported w w'.
Proof. intros Hi He. destruct (exec_all_sound ops w (initial_sound w Hi) He) as (w' & E & Hs & Hf). exists w'. by split; [|split; [apply Hs|]]. Qed.

(** ** Operations *)

(** C36 (functional): [add_peer] ignores an endpoint without a port or an address
    and one of the local link; a known endpoint, or address, updates its peer;
    else a new peer goes in, the list made room for when it is full by freeing
    peers that are no candidates; the peer is refused only without memory or
    room. *)
Theorem add_peer_adds rnd ep src flags w : inv w -> valid_address ep.1 -> 0 <= ep.2 < 2 ^ 16 -> settings_ok (state w) ->
  exists r w', add_peer alloc rnd ep src flags w = Some (r, w') /\ added alloc ep src flags w r w' /\ inv w'.
Proof. intros Hi Hv Hp Hst. by apply wp_some, (add_peer_spec alloc Halloc). Qed.

(** C34 (functional): [attach_peer] returns for every connection that comes in,
    and [attach_result] says what becomes of it.  It is turned away for want of
    a certificate, by the filter, while files are checked, or because the
    session is closing or does not know it; at the connection limit, when many
    connections are being made, the longest of these is closed first, and the
    new one if there is none; it is refused by the rule of [accepts] when its
    peer is known, and when it is not only for want of memory or room in the
    list; and at the limit, when few connections are being made, either the
    lowest ranking connection is closed, which ranks below it, or it is closed
    itself, no connection ranking below it.  When [attach_peer] returns true the
    connection has the peer of its endpoint, not banned, and no other peer; else
    it is closed and no peer has it.  Peers that are freed are reported. *)
Theorem attach_peer_attaches t rnd c cn w :
  inv w -> new_conn w c cn -> settings_ok (state w) -> votes_ok (ip (state w)) -> filter_ok t ->
  exists ok w', attach_peer crc32c alloc t rnd c w = Some (ok, w') /\ keeps w w' /\ attach_result crc32c alloc t c cn w w' ok /\
    if ok then attached_to c cn w w' /\ (forall l l' p p', heap w' !! l = Some p -> connection p = Some c ->
                 heap w' !! l' = Some p' -> connection p' = Some c -> l = l')
    else closed c w' /\ forall l p, heap w' !! l = Some p -> connection p <> Some c.
Proof.
  intros Hi Hnc Hst Hv Hf. destruct (wp_some _ _ _ (attach_peer_spec crc32c alloc Halloc t rnd c cn w Hi Hnc Hst Hv Hf)) as (ok & w' & E & Hk & _ & Hr & H).
  pose proof (ke_inv _ _ Hk) as Hi'. exists ok, w'. split; [done|]. split; [done|]. split; [done|]. destruct ok; split; [done| |done|].
  - intros l l' p p' Hl Hc Hl' Hc'. by eapply conn_inj.
  - intros l p Hl Hc. destruct H as (cn' & Hcn' & Hd). destruct (co_peer _ _ (inv_conns _ Hi') l p c Hl Hc) as (cn1 & Hcn1 & _ & _ & Hd1). congruence.
Qed.

(** C33 (functional): [disconnect] closes a connection and settles its peer, and
    no other connection or peer.  The peer counts a failure, when the
    connection failed or is closed with an error, but never more than 31; it
    keeps the time, but for a fast reconnect, and adds up what was moved
    ([left_by]).  Where several connections per address are allowed, a peer
    that cannot be connected to and is not locked leaves the list, is freed and
    is reported instead. *)
Theorem disconnect_parts c error cn l p w : inv w -> conns w !! c = Some cn -> peer_info cn = Some l -> heap w !! l = Some p ->
  exists w', disconnect c error w = Some (tt, w') /\ keeps w w' /\ closed c w' /\
    (forall c', c' <> c -> conns w' !! c' = conns w !! c') /\ (forall l', l' <> l -> heap w' !! l' = heap w !! l') /\
    if multiple w && negb (connectable p) && negb (bool_decide (m_locked_peer (the_list w) = Some l))
    then heap w' !! l = None /\ l ∉ m_peers (the_list w') /\ l ∈ cleared w'
    else exists p', heap w' !! l = Some p' /\ left_by (session_time w) (marked error cn) p p'.
Proof.
  intros Hi Hcn Hpi Hl. destruct (wp_some _ _ _ (disconnect_parts_spec c error cn l p w Hi Hcn Hpi Hl)) as ([] & w' & E & H). by exists w'.
Qed.

(** C38 (functional): [update_peer_port] gives the peer the port, so that it can be
    connected to, and frees a peer without a connection that had the endpoint;
    only when a connected peer has it, and several connections per address are
    allowed, the peer is freed and the other stays. *)
Theorem update_port_updates new_port src l c p w : inv w -> l ∈ m_peers (the_list w) -> heap w !! l = Some p ->
  connection p = Some c -> 0 <= new_port < 2 ^ 16 ->
  exists ok w', update_peer_port new_port l src w = Some (ok, w') /\ keeps w w' /\
    if ok then l ∈ m_peers (the_list w') /\ heap w' !! l = Some (if port p =? new_port then p else with_new_port new_port src p)
    else heap w' !! l = None /\ multiple w = true /\ exists other q, taken_by w l (tp_addr p) new_port other q /\ connection q <> None /\
      is_Some (heap w' !! other).
Proof. intros Hi Hin Hl Hc Hp. apply wp_some. by apply (update_peer_port_spec new_port src l c p). Qed.

(** C37 (refinement): after any rules of an address filter, [apply_ip_filter] leaves
    the peers whose last rule does not block them, as they were, and frees and
    reports all others, their connections closed. *)
Theorem apply_ip_filter_frees rs w : inv w -> m_locked_peer (the_list w) = None -> Forall valid_rule rs ->
  exists f r w', run_rules rs new_ip_filter = Some f /\ apply_ip_filter f w = Some (r, w') /\ keeps w w' /\
    forall l, l ∈ m_peers (the_list w') <->
      l ∈ m_peers (the_list w) /\ exists p, heap w !! l = Some p /\ Z.testbit (last_rule 0 rs (tp_addr p)) 0 = false /\ heap w' !! l = Some p.
Proof.
  intros Hi Hk Hrs. destruct (new_ip_filter_spec rs Hrs) as (f & E & Hf & Hat). exists f.
  assert (forall p w, valid_address (tp_addr p) -> 0 <= port p < 2 ^ 16 ->
    wp (ip_blocked f p) (fun b w' => b = Z.testbit (last_rule 0 rs (tp_addr p)) 0 /\ w' = w) w) as Hb.
  { intros p w1 Hv _. rewrite <- Hat by done. by apply ip_blocked_spec. }
  destruct (wp_some _ _ _ (apply_filter_spec (ip_blocked f) (fun p => Z.testbit (last_rule 0 rs (tp_addr p)) 0) w Hi Hk Hb)) as (r & w' & E' & Hke & Ha).
  by exists r, w'.
Qed.

(** C35 (functional): [connect_one_peer] returns a peer of the list that can be
    connected to.  When the cache is empty and the list has at most 300 peers
    no peer that can be connected to, and was not connected too short a time
    ago, comes before it in the order of [compare_peer], and none is returned
    only when there is none. *)
Theorem connect_one_peer_best w : inv w -> times_ok w -> votes_ok (ip (state w)) ->
  exists r w', connect_one_peer crc32c w = Some (r, w') /\ keeps w w' /\ candidate_choice w w' r /\
    (m_candidate_cache (the_list w) = [] -> zlen (m_peers (the_list w)) <= 300 -> best_choice crc32c w w' r).
Proof. intros Hi Ht Hv. by apply wp_some, connect_one_peer_spec. Qed.
End theorems.

(** ** Connections that cross *)

(** One client has made a connection to another while that one made one back:
    [a] is the port it listens on, [b] the port the other does. *)
Record crossing (w : world) (l c old : nat) (cn co : peer_connection) (a b : Z) : Prop := {
  cr_inv : inv w;
  cr_peer : exists p, heap w !! l = Some p /\ connection p = Some old;
  cr_old : conns w !! old = Some co;
  cr_new : conns w !! c = Some cn;
  cr_alone : peer_info cn = None;
  cr_other : self_connection cn co = false;
  cr_way : is_outgoing co = negb (is_outgoing cn);
  cr_ours : (local_endpoint (if is_outgoing cn then co else cn)).2 = a;
  cr_theirs : (remote (if is_outgoing cn then cn else co)).2 = b;
}.

(** The connection that goes is closed, the other stays as it is. *)
Definition settled (w w' : world) (c old : nat) (go : bool) : Prop :=
  closed (if go then old else c) w' /\ conns w' !! (if go then c else old) = conns w !! (if go then c else old).

(** Whether the connection that stays is the one this end has made. *)
Definition stays_outgoing (cn co : peer_connection) (go : bool) : bool := if go then is_outgoing cn else is_outgoing co.

Lemma crossing_settled w l c old cn co a b : crossing w l c old cn co a b ->
  exists go w', resolve_duplicate l c old w = Some (go, w') /\ settled w w' c old go /\ stays_outgoing cn co go = (a <? b).
Proof.
  intros [Hi (p & Hl & Hc) Hco Hcn Hn Hs Hw Ha Hb].
  destruct (wp_some _ _ _ (resolve_duplicate_spec l c old cn co p w Hi Hl Hc Hco Hcn Hn)) as (go & w' & E & Eg & _ & H).
  destruct (co_peer _ _ (inv_conns _ Hi) l p old Hl Hc) as (co' & Hco' & Hpi & _). assert (c <> old) as Hne by congruence.
  exists go, w'. split; [done|]. unfold keep_new in Eg. rewrite Hs, Hw in *. cbn [negb andb] in Eg. split.
  - destruct go.
    + destruct H as (Hd & p' & L' & cn' & -> & _). split; [done|]. wsimpl. by rewrite lookup_insert_ne.
    + destruct H as (Hd & cn' & ->). split; [done|]. wsimpl. by rewrite lookup_insert_ne.
  - unfold stays_outgoing. rewrite Hw, Eg. destruct (is_outgoing cn); cbn [negb eqb andb] in *; rewrite Ha, Hb; by destruct (a <? b).
Qed.

(** C39 (error): when two clients have connected to each other at the same time
    each closes one of the two connections, and leaves the other as it is.
    When they listen on different ports it is the same one they close.  When
    they listen on the same port, as by default, each keeps the connection the
    other has made, which is the one the other closes: none is left. *)
Theorem crossed_connections wA lA cA oA cnA coA wB lB cB oB cnB coB a b :
  crossing wA lA cA oA cnA coA a b -> crossing wB lB cB oB cnB coB b a ->
  exists goA wA' goB wB', resolve_duplicate lA cA oA wA = Some (goA, wA') /\ settled wA wA' cA oA goA /\
    resolve_duplicate lB cB oB wB = Some (goB, wB') /\ settled wB wB' cB oB goB /\
    (a <> b -> stays_outgoing cnA coA goA = negb (stays_outgoing cnB coB goB)) /\
    (a = b -> stays_outgoing cnA coA goA = false /\ stays_outgoing cnB coB goB = false).
Proof.
  intros HA HB. destruct (crossing_settled _ _ _ _ _ _ _ _ HA) as (goA & wA' & EA & SA & KA).
  destruct (crossing_settled _ _ _ _ _ _ _ _ HB) as (goB & wB' & EB & SB & KB).
  exists goA, wA', goB, wB'. repeat (split; [done|]). rewrite KA, KB. split; intros Hab.
  - destruct (Z.ltb_spec a b), (Z.ltb_spec b a); done || lia.
  - subst. by rewrite Z.ltb_irrefl.
Qed.

(** ** Samples *)

(** The first number that is free, and sums for the CRC. *)
Definition next_free (h : gmap nat torrent_peer) : option nat := Some (map_fold (fun k _ m => Nat.max (S k) m) 0%nat h).
Definition sum_crc (l : list Z) : Z := foldl (fun s x => (s * 31 + x + 1) mod 2 ^ 32) 7 l.

Lemma next_free_fresh h l : next_free h = Some l -> h !! l = None.
Proof.
  unfold next_free. intros [= <-]. destruct (h !! _) as [p|] eqn:E; [|done]. exfalso. revert E.
  assert (forall k q, h !! k = Some q -> (k < map_fold (fun k _ m => Nat.max (S k) m) 0%nat h)%nat) as H.
  { apply (map_fold_weak_ind (fun m h => forall k q, h !! k = Some q -> (k < m)%nat)); [intros k q; by rewrite lookup_empty|].
    intros i x h' m Hi IH k q [[-> _]|[_ Hk]]%lookup_insert_Some; [lia|]. specialize (IH k q Hk). lia. }
  intros E. specialize (H _ _ E). lia.
Qed.

Definition sample_settings (multi : bool) (size : Z) : torrent_state :=
  TState false multi false size 60 0 (ExternalIp (v4 1 2 3 4) any_address) 6881 3 [].
Definition sample_world : world := World new_peer_list ∅ ∅ (sample_settings true 4) 1000 [].
Definition sample_conn (ep : endpoint) (out : bool) (l : option nat) : peer_connection :=
  Conn ep (v4 192 168 0 1, 6881) out false false false l false 0 0.

(** A torrent that takes connections, and how many. *)
Definition sample_torrent (limit : Z) : torrent := Torrent false None false true false limit 0 [] (fun _ => false) (fun _ => 0).

Lemma sample_initial : initial sample_world.
Proof. split; [done|done|by intros l p [=]|by intros c cn [=]]. Qed.

Definition sample_rules : list rule := [Rule (v4 10 0 0 0) (v4 10 0 0 255) 1; Rule (v4 10 0 0 2) (v4 10 0 0 3) 0].
Definition sample_filter : ip_filter := default new_ip_filter (run_rules sample_rules new_ip_filter).

Lemma sample_rules_valid : Forall valid_rule sample_rules.
Proof. repeat constructor; unfold byte; cbn; try lia; done. Qed.

Lemma sample_filter_wf : wf_filter sample_filter.
Proof.
  destruct (run_rules_spec sample_rules new_ip_filter) as (f & E & Hf & _); [split; apply new_filter_wf|apply sample_rules_valid|].
  unfold sample_filter. by rewrite E.
Qed.

(** Two peers are added, one connects and gives its port, which is the
    other's; a candidate is connected to, fails and is banned; a filter runs. *)
Definition sample_ops : list op :=
  [Add 0 (v4 10 0 0 1, 6000) src_tracker 0; Add 0 (v4 10 0 0 2, 6001) src_dht 0x2;
   Incoming (sample_torrent 50) 0 7 (sample_conn (v4 10 0 0 1, 5555) false None); UpdatePort 6000 2 src_incoming;
   ConnectOne; Connect false false 1 8 (sample_conn (v4 10 0 0 2, 6001) true (Some 1%nat)); Disconnect 8 1; Ban 1; IncFailcount 1;
   ApplyIpFilter sample_filter; ClearPrio; Time 2000].

Ltac next_sample := intros ? E; vm_compute in E; injection E as <-.
Ltac enable_sample :=
  unfold enabled, new_conn, outgoing_conn, settings_ok, times_ok, votes_ok, valid_address, valid;
  split_and!; try done; cbn; try split_and!; try done; try lia; repeat (apply Forall_cons_2; [unfold byte; lia|]); try apply Forall_nil_2.

Lemma sample_enabled : all_enabled sum_crc next_free sample_ops sample_world.
Proof.
  unfold sample_ops. do 2 (split; [by enable_sample|]; next_sample).
  split; [enable_sample; [by eexists|by left]|]; next_sample.
  split; [enable_sample; [set_solver|by eexists]|]; next_sample.
  split; [enable_sample; [by eexists|by left]|]; next_sample.
  split; [enable_sample; by eexists|]; next_sample.
  split; [by eexists|]; next_sample. split; [by eexists|]; next_sample. split; [by eexists|]; next_sample.
  split; [apply sample_filter_wf|]; next_sample. split; [done|]; next_sample. split; [done|]; next_sample. done.
Qed.

Lemma all_enabled_take crc alloc n ops w : all_enabled crc alloc ops w -> all_enabled crc alloc (take n ops) w.
Proof.
  revert n w. induction ops as [|o ops IH]; intros [|n] w; try done. cbn [take all_enabled]. intros [He Hn]. split; [done|].
  intros w' E. by apply IH, Hn.
Qed.

(** The state after the first operations of the sample. *)
Definition sample_after (n : nat) : world :=
  match exec_all sum_crc next_free (take n sample_ops) sample_world with Some (_, w) => w | None => sample_world end.

Lemma sample_sound n : sound (sample_after n).
Proof.
  unfold sample_after. destruct (exec_all_sound sum_crc next_free next_free_fresh (take n sample_ops) sample_world) as (w' & E & Hs & _).
  - apply initial_sound, sample_initial.
  - apply all_enabled_take, sample_enabled.
  - by rewrite E.
Qed.

Lemma peer_list_runs_witness : exists w', exec_all sum_crc next_free sample_ops sample_world = Some (tt, w') /\ inv w' /\ frees_reported sample_world w'.
Proof. apply (peer_list_runs sum_crc next_free next_free_fresh); [apply sample_initial|apply sample_enabled]. Defined.

(** The peer of connection 8, which fails. *)
Definition sample_peer : torrent_peer :=
  match heap (sample_after 6) !! 1%nat with Some p => p | None => new_torrent_peer (any_address, 0) false 0 end.
Definition sample_made : peer_connection :=
  match conns (sample_after 6) !! 8%nat with Some cn => cn | None => sample_conn (any_address, 0) false None end.

Lemma disconnect_parts_witness : exists w' p', disconnect 8 1 (sample_after 6) = Some (tt, w') /\ heap w' !! 1%nat = Some p' /\ failcount p' = 1.
Proof.
  destruct (disconnect_parts 8 1 sample_made 1 sample_peer (sample_after 6)) as (w' & E & _ & _ & _ & _ & H).
  - apply so_inv, sample_sound.
  - vm_compute. reflexivity.
  - vm_compute. reflexivity.
  - vm_compute. reflexivity.
  - assert (connectable sample_peer = true) as Ec by (vm_compute; reflexivity). rewrite Ec, andb_false_r in H. destruct H as (p' & Hp & H).
    exists w', p'. split; [exact E|]. split; [exact Hp|]. rewrite (lb_failcount _ _ _ _ H). vm_compute. reflexivity.
Defined.

Lemma add_peer_adds_witness : exists r w', add_peer next_free 0 (v4 10 0 0 3, 6002) src_pex 0 (sample_after 2) = Some (r, w') /\
  added next_free (v4 10 0 0 3, 6002) src_pex 0 (sample_after 2) r w' /\ inv w'.
Proof.
  apply (add_peer_adds next_free next_free_fresh); [apply so_inv, sample_sound| |cbn; lia|].
  - by enable_sample.
  - unfold settings_ok. vm_compute. by split.
Defined.

(** A second connection, where one is allowed. *)
Definition sample_incoming : world := in_conns (<[9%nat := sample_conn (v4 10 0 0 2, 5556) false None]> (conns (sample_after 3))) (sample_after 3).

Lemma attach_peer_attaches_witness :
  exists ok w', attach_peer sum_crc next_free (sample_torrent 1) 0 9 sample_incoming = Some (ok, w') /\ keeps sample_incoming w'.
Proof.
  destruct (attach_peer_attaches sum_crc next_free next_free_fresh (sample_torrent 1) 0 9 (sample_conn (v4 10 0 0 2, 5556) false None) sample_incoming)
    as (ok & w' & E & Hk & _).
  - apply inv_new_conn; [apply so_inv, sample_sound|by vm_compute|done].
  - split; [apply lookup_insert_eq|by enable_sample].
  - unfold settings_ok. vm_compute. by split.
  - split; [by eexists|by left].
  - by intros f [=].
  - exists ok, w'. exact (conj E Hk).
Defined.

Lemma update_port_updates_witness : exists ok w', update_peer_port 6000 2 src_incoming (sample_after 3) = Some (ok, w') /\ keeps (sample_after 3) w'.
Proof.
  destruct (update_port_updates 6000 src_incoming 2 7 (match heap (sample_after 3) !! 2%nat with Some p => p | None => new_torrent_peer (any_address, 0) false 0 end) (sample_after 3)) as (ok & w' & E & Hk & _).
  - apply so_inv, sample_sound.
  - vm_compute. set_solver.
  - by vm_compute.
  - by vm_compute.
  - lia.
  - exists ok, w'. exact (conj E Hk).
Defined.

Lemma apply_ip_filter_frees_witness : exists f r w', run_rules sample_rules new_ip_filter = Some f /\ apply_ip_filter f (sample_after 6) = Some (r, w') /\ keeps (sample_after 6) w'.
Proof.
  destruct (apply_ip_filter_frees sample_rules (sample_after 6)) as (f & r & w' & E & E' & Hk & _).
  - apply so_inv, sample_sound.
  - apply so_unlocked, sample_sound.
  - apply sample_rules_valid.
  - exists f, r, w'. exact (conj E (conj E' Hk)).
Defined.

Lemma connect_one_peer_best_witness : exists r w', connect_one_peer sum_crc (sample_after 2) = Some (r, w') /\ best_choice sum_crc (sample_after 2) w' r.
Proof.
  destruct (connect_one_peer_best sum_crc (sample_after 2)) as (r & w' & E & _ & _ & Hb).
  - apply so_inv, sample_sound.
  - unfold times_ok. vm_compute. repeat split; discriminate.
  - split; [by eexists|by left].
  - exists r, w'. split; [exact E|]. apply Hb; vm_compute; [reflexivity|discriminate].
Defined.

(** A client at [10.0.0.me] and one at [10.0.0.other], which both listen on
    6881, have each connected to the other. *)
Definition made (me other : Z) : peer_connection := Conn (v4 10 0 0 other, 6881) (v4 10 0 0 me, 40000 + me) true false false false (Some 0%nat) false 0 0.
Definition come (me other : Z) : peer_connection := Conn (v4 10 0 0 other, 40000 + other) (v4 10 0 0 me, 6881) false false false false None false 0 0.
Definition cross_ops (me other : Z) : list op := [Add 0 (v4 10 0 0 other, 6881) src_tracker 0; Connect false false 0 8 (made me other)].
Definition single_world : world := World new_peer_list ∅ ∅ (sample_settings false 4) 1000 [].
Definition cross_base (me other : Z) : world :=
  match exec_all sum_crc next_free (cross_ops me other) single_world with Some (_, w) => w | None => single_world end.
Definition cross_world (me other : Z) : world := in_conns (<[9%nat := come me other]> (conns (cross_base me other))) (cross_base me other).

Lemma cross_sound me other : all_enabled sum_crc next_free (cross_ops me other) single_world -> sound (cross_base me other).
Proof.
  intros He. unfold cross_base. destruct (exec_all_sound sum_crc next_free next_free_fresh (cross_ops me other) single_world) as (w' & -> & Hs & _);
    [|done|done]. apply initial_sound. split; [done|done|by intros l p [=]|by intros c cn [=]].
Qed.

Lemma cross_enabled : all_enabled sum_crc next_free (cross_ops 1 2) single_world /\ all_enabled sum_crc next_free (cross_ops 2 1) single_world.
Proof.
  split.
  - split; [by enable_sample|]. next_sample. split; [enable_sample; by eexists|]. next_sample. done.
  - split; [by enable_sample|]. next_sample. split; [enable_sample; by eexists|]. next_sample. done.
Qed.

Lemma sample_crossing_1 : crossing (cross_world 1 2) 0 9 8 (come 1 2) (conn_with_attached true (made 1 2)) 6881 6881.
Proof.
  split; [apply inv_new_conn; [apply so_inv, cross_sound; apply cross_enabled|by vm_compute|done]|eexists; split; by vm_compute|..]; by vm_compute.
Qed.

Lemma sample_crossing_2 : crossing (cross_world 2 1) 0 9 8 (come 2 1) (conn_with_attached true (made 2 1)) 6881 6881.
Proof.
  split; [apply inv_new_conn; [apply so_inv, cross_sound; apply cross_enabled|by vm_compute|done]|eexists; split; by vm_compute|..]; by vm_compute.
Qed.

Lemma crossed_connections_witness : exists goA wA' goB wB',
  resolve_duplicate 0 9 8 (cross_world 1 2) = Some (goA, wA') /\ resolve_duplicate 0 9 8 (cross_world 2 1) = Some (goB, wB') /\
  stays_outgoing (come 1 2) (conn_with_attached true (made 1 2)) goA = false /\
  stays_outgoing (come 2 1) (conn_with_attached true (made 2 1)) goB = false.
Proof.
  destruct (crossed_connections _ _ _ _ _ _ _ _ _ _ _ _ _ _ sample_crossing_1 sample_crossing_2) as (goA & wA' & goB & wB' & EA & _ & EB & _ & _ & Hs).
  exists goA, wA', goB, wB'. exact (conj EA (conj EB (Hs eq_refl))).
Defined.

(** ** The setting is switched *)

Definition sample_out (port : Z) (l : nat) : peer_connection := sample_conn (v4 10 0 0 1, port) true (Some l).

(** Three peers of one address are connected; one of them gives the port of
    another while one connection per address is asked for. *)
Definition switch_ops : list op :=
  [Add 0 (v4 10 0 0 1, 6001) src_tracker 0; Add 0 (v4 10 0 0 1, 6002) src_tracker 0; Add 0 (v4 10 0 0 1, 6003) src_tracker 0;
   Connect false false 0 7 (sample_out 6001 0); Connect false false 1 8 (sample_out 6002 1); Connect false false 2 9 (sample_out 6003 2);
   Settings (sample_settings false 4); UpdatePort 6002 0 src_incoming; Settings (sample_settings true 4); UpdatePort 6003 1 src_incoming].

(** C40 (error): when the setting that allows several connections per address is
    switched off while peers share an address, [update_peer_port] gives one
    peer the endpoint of another, and when it is switched on again
    [erase_peer], which looks for the endpoint, frees the wrong one of the two:
    a connection is left whose peer is gone, and to close it follows a peer
    that was freed. *)
Theorem switched_setting_frees_connected :
  exists w cn, exec_all sum_crc next_free switch_ops sample_world = Some (tt, w) /\
    conns w !! 7%nat = Some cn /\ attached cn = true /\ peer_info cn = Some 0%nat /\ heap w !! 0%nat = None /\
    is_Some (heap w !! 1%nat) /\ disconnect 7 0 w = None.
Proof. eexists _, _. split; [vm_compute; reflexivity|]. split; [vm_compute; reflexivity|]. repeat split; vm_compute; try reflexivity. by eexists. Qed.
